(* ===== verification/_CoqProject ===== *)
-Q . S2P
Prelude.v
JavaModifiedUtf8.v
DataOutput.v
DataOutputFacts.v
DataInput.v
DataInputFacts.v
Serialization.v
InputSafety.v
Utf8Strings.v
EventId.v
EventIdMap.v
MemberId.v
Versions.v
VersionFacts.v
ExpiryTaskManager.v
MapEntry.v
MapSegment.v
SegmentFacts.v
SegmentRefinement.v
SegmentClaims.v
ConcurrentEntriesMap.v
EntriesMapFacts.v
LRUQueue.v
LRUEntriesMap.v
LRUFacts.v
PdxType.v
PdxStreams.v
PdxPreserve.v
PdxPositions.v
PdxWriting.v
PdxReading.v
PdxObjects.v
PdxTypeWire.v
PdxUnreadFacts.v
PdxMergeFacts.v
PdxClaims.v
ExceptionTypes.v
EntriesMap.v
EntriesMapLaws.v
LocalRegion.v
RegionSpec.v
RegionFacts.v
RegionClaims.v
RegionTree.v
RegionTreeFacts.v
RegionTreeClaims.v
RegionTreeSteps.v
CacheableString.v
CacheableStringFacts.v
ServerLocation.v
ServerLocationFacts.v
ClientMetadata.v
ClientMetadataService.v
SingleHopClaims.v
PruneFacts.v
FunctionRouting.v
ServiceClaims.v
CacheableBuiltins.v
BuiltinsFacts.v
BuiltinsClaims.v
TcrMessage.v
TcrRequests.v
MessageFacts.v
MessageParts.v
MessageTable.v
MessageClaims.v
VersionWire.v
TcrReply.v
ReplyFacts.v
Notifications.v
Replies.v
ReplyClaims.v
ObjectParts.v
ChunkedResults.v
ChunkFacts.v
ChunkClaims.v
Locators.v
LocatorClaims.v
Transactions.v
TransactionClaims.v
