(* ===== verification/Prelude.v ===== *)
(** * Apache Geode Native: the client cache core

    A verification development of the C++ client library under src/cppcache: the wire format
    of its data, the identity of its events, the conflict detection by version tags, the
    concurrent map that holds the entries of a region, the operations of a region, the tree of
    regions, the choice of servers for keys, the requests that go to servers, the replies
    and notifications that come from them, results in chunks included, the locators that name
    servers, and the serialization of objects, built-in ones and PDX.

    ** The program

    An operation of a client region ([LocalRegion]) asks the application's cache writer, then
    the servers (the virtual functions of the class), then changes the entries map, then
    tells the cache listener. Regions form trees under the root regions of the cache
    ([CacheImpl]), along which they are found, invalidated and destroyed. A region keeps its entries in a [ConcurrentEntriesMap], an array of
    [MapSegment]s selected by the hash code of the key. Each segment has a hash map from keys
    to entries and a [TombstoneList]: a removed key stays bound to a tombstone for a while,
    so that an update that arrives late (from a server that had not seen the removal) can be
    recognised as stale. Staleness is decided by [VersionStamp::processVersionTag], which
    compares the stamp kept with the entry with the [VersionTag] that came with the
    operation; members are compared by [ClientProxyMembershipID::compareTo] through the
    [MemberListForVersionStamp]. Tombstones expire by tasks of the [ExpiryTaskManager] or are
    reaped when a server says that they were garbage collected. Everything that travels to or
    from a server is written with [DataOutput] and read with [DataInput]: objects by the
    [SerializationRegistry], with a code for their type in front, and requests as a
    [TcrMessage], a header and a sequence of parts, to which a security part is added. Replies
    and notifications are frames of parts, too, which [handleByteArrayResponse] takes apart. Results
    of many keys come in chunks: [TcrConnection] reads them one after the other, [TcrMessage::processChunk]
    passes them to the result of the request, and the list of objects in a chunk puts the values into
    the region while it is read. Each operation
    carries an [EventId]; notifications that were seen before are dropped by the [EventIdMap].
    Objects of the application travel as PDX: a sequence of fields with a table of offsets,
    described by a [PdxType] that is sent once, so that a member with another version of the
    class can read the fields that it knows. The entries of a partitioned region are spread over
    buckets by the hash codes of their keys; the [ClientMetadataService] of a pool keeps the
    servers of each bucket, so that an operation goes to a server that has its key in one hop.
    Servers are found by asking locators: the [ThinClientLocatorHelper] of a pool sends a request to
    one locator after the other, reads the response from the connection as it arrives
    ([StreamDataInput]), and keeps the list of locators up to date.

    ** How the model corresponds to the code

    A w-bit integer is a [Z] with its wrap-around written out. A member function is a
    function on the state of its object into [outcome]: [Ok] of a result and the new state,
    or [Throw] of the exception thrown ([ST] is the monad of such functions). A memory access
    outside an allocation, a null dereference and signed overflow are [UndefinedBehaviour];
    an exception thrown while another one is on its way is [Terminated].
    Output parameters are passed in and returned. Definitions have the names of the functions
    they translate; overloads have a suffix. Modules whose names end with Examples, at the end
    of the files with the theorems, hold concrete runs.

    - [Prelude]: machine integers, big-endian bytes, outcomes, the monad and its loops.
    - [JavaModifiedUtf8]: src/cppcache/src/util/JavaModifiedUtf8.cpp.
    - [DataOutput]: include/geode/DataOutput.hpp and src/DataOutput.cpp: buffer, pool,
      encoders. [DataOutputFacts]: each encoder appends its reference encoding ([emits]).
    - [DataInput]: include/geode/DataInput.hpp and src/DataInput.cpp. [DataInputFacts]: each
      decoder consumes the reference encoding ([reads]); [Codec] is the interface of a pair of
      an encoder and a decoder that the data types implement. [Serialization]: round trips of
      strings and of messages, and the life of an output. [InputSafety]: decoders on
      arbitrary bytes.
    - [EventId], [EventIdMap]: src/EventId.cpp, src/EventIdMap.cpp, src/EventSource.cpp.
    - [MemberId]: src/ClientProxyMembershipID.cpp, src/DiskStoreId.hpp, src/Version.cpp.
      [Versions]: src/VersionTag.cpp, src/VersionStamp.cpp,
      src/MemberListForVersionStamp.cpp, src/DiskVersionTag.hpp. [VersionFacts]: their theorems.
    - [ExpiryTaskManager]: the task table of src/ExpiryTaskManager.cpp.
    - [MapEntry]: src/MapEntryImpl.hpp, src/MapEntryT.hpp, src/TrackedMapEntry.hpp,
      src/CacheableToken.hpp. Entries are shared objects, so they live in a store and are
      referred to by pointers.
    - [MapSegment]: src/MapSegment.cpp, src/TombstoneList.cpp, src/TableOfPrimes.hpp.
      [SegmentFacts]: the invariant and what the elementary updates do to it.
      [SegmentRefinement]: the abstract versioned map ([spec_op], and [spec_delta] for deltas) and
      the simulation.
      [SegmentClaims], [SegmentExamples]: the theorems and concrete runs.
    - [ConcurrentEntriesMap]: src/ConcurrentEntriesMap.cpp; [EntriesMapFacts]: its theorems.
    - [LRUQueue]: src/LRUQueue.cpp, src/LRUEntryProperties.hpp, with its theorems.
      [LRUEntriesMap]: src/LRUEntriesMap.cpp, src/LRULocalDestroyAction.cpp with what it needs of
      the region ([RegionView]) and the overflow action of src/LRUAction.cpp. [LRUFacts]: the queue and the entries of the map in step
      ([lru_rel]), and the simulation. [LRUExamples]: concrete runs.
    - [ExceptionTypes]: src/ExceptionTypes.cpp. [EntriesMap]: src/EntriesMap.hpp, the abstract
      class as a type class, with the laws of a map with concurrency checks
      ([VersionedMap]); [EntriesMapLaws]: [ConcurrentEntriesMap] obeys them.
    - [LocalRegion]: src/LocalRegion.cpp over any [EntriesMap], src/RegionInternal.hpp,
      src/EntryExpiryTask.cpp, src/ExpiryTask.cpp. The calls that leave the region (writer, listener,
      loader, servers) are recorded in the order in which they are made. [RegionSpec]: what a
      region promises. [RegionFacts]: the simulation. [RegionClaims], [RegionExamples]: the
      theorems and concrete runs.
    - [Utf8Strings]: strings of bytes on the wire. [PdxType]: src/PdxType.cpp,
      src/PdxFieldType.cpp, the integers of src/PdxHelper.cpp; field objects are shared, so
      they live in a store. [PdxStreams]: src/PdxLocalWriter.cpp,
      src/PdxWriterWithTypeCollector.cpp, src/PdxLocalReader.cpp, src/PdxRemoteReader.cpp and
      the functions of src/PdxHelper.cpp that serialize and deserialize an object.
      [PdxPositions]: what the position map of a type says. [PdxWriting], [PdxReading]: the
      bytes that the writers leave ([stream]), the type that describes them ([describes]),
      and what the readers take from them ([takes]). [PdxObjects]: readers on an object
      ([reading]). [PdxTypeWire]: types on the wire. [PdxClaims], [PdxExamples]: the theorems
      and concrete objects. [PdxPreserve]: src/PdxRemotePreservedData.hpp,
      src/PdxRemoteWriter.cpp and the merging of types: fields that this version of a class
      does not know are kept and written back. [PdxUnreadFacts], [PdxMergeFacts],
      [PdxVersionExamples]: their facts and runs.
    - [RegionTree]: the regions of a cache and their subregions, from src/LocalRegion.cpp,
      src/CacheImpl.cpp and src/RegionExpiryTask.cpp. Regions are objects of a store; the other
      parts that [close] of a cache closes are parameters that may throw ([Services]).
      [RegionTreeFacts]: destruction by recursion over the tree. [RegionTreeClaims],
      [RegionTreeSteps], [RegionTreeExamples]: the theorems, the invariant of all reachable
      caches, concrete trees.
    - [CacheableString]: include/geode/CacheableString.hpp, src/CacheableString.cpp and the
      hash function of include/geode/internal/functional.hpp; [CacheableStringFacts].
    - [ServerLocation]: src/ServerLocation.hpp, src/BucketServerLocation.hpp,
      src/FixedPartitionAttributesImpl.hpp, and the two replies of src/TcrMessage.cpp that carry
      them; [ServerLocationFacts].
    - [ClientMetadata]: src/ClientMetadata.cpp. [ClientMetadataService]:
      src/ClientMetadataService.cpp; metadata objects are shared, so they live in a store.
      [SingleHopClaims]: bulk operations. [PruneFacts]: the servers for a set of
      buckets. [FunctionRouting]: functions. [ServiceClaims]: refresh
      and the invariant of all reachable services. [SingleHopExamples]: concrete services.
    - [CacheableBuiltins]: the built-in values of include/geode/CacheableBuiltins.hpp,
      include/geode/internal/CacheableBuiltinTemplates.hpp, include/geode/Serializer.hpp and
      include/geode/internal/CacheableKeys.hpp, and the parts of src/SerializationRegistry.cpp
      that write and read them. [BuiltinsFacts]: the bytes of a value ([wire]) and the round trip.
      [BuiltinsClaims]: termination, equality and hash codes, concrete values.
    - [TcrMessage]: the message and the writers of its parts, from src/TcrMessage.cpp and
      src/TcrMessage.hpp. [TcrRequests]: the constructors of all requests and the security part.
      [MessageFacts]: writing at the cursor of an output. [MessageParts]: what each writer adds
      ([writes_parts]). [MessageFrames]: from parts to a message. [MessageTable]: the
      requests, what servers expect of them ([type_of], [by_user], [parts_of]) and how a
      message is read ([read_message]). [MessageClaims], [MessageExamples]: the theorems
      and concrete requests.
    - [VersionWire]: the bytes of version tags and of the members in them. [TcrReply]: the
      readers of parts and [handleByteArrayResponse] of src/TcrMessage.cpp, on a state of the input,
      the list of members and the message. [ReplyFacts]: what each reader takes from its
      part ([takes]). [Notifications], [Replies]: what servers send ([note_parts],
      [reply_parts]) and what the message becomes ([note_received], [reply_received]).
      [ReplyClaims], [ReplyExamples]: the theorems and concrete messages.
    - [ObjectParts]: src/CacheableObjectPartList.cpp and src/VersionedCacheableObjectPartList.cpp, with
      the region as an interface ([RegionStore], which [local_store] implements with
      [LocalRegion]). [ChunkedResults]: src/TcrChunkedContext.hpp, the chunked responses of
      src/ThinClientRegion.cpp, the functions of src/TcrMessage.cpp that process chunks, and how
      src/TcrConnection.cpp receives messages, from the bytes that arrive ([Conn]). [ChunkFacts]:
      messages in chunks ([message_read]), hash maps of the keys that were asked for ([indexed]) and what
      a list of objects leaves ([takes_list]). [ChunkClaims], [ChunkExamples]: the theorems and
      concrete messages, down to the entries of a region.
    - [Locators]: src/ServerLocation.hpp, the requests and responses of locators
      (src/LocatorListRequest.cpp and the files like it), src/TcpConn.cpp as far as it turns the results of
      asynchronous operations into results and exceptions, src/StreamDataInput.cpp and
      src/ThinClientLocatorHelper.cpp, on the history of the connections made and the bytes sent ([Net]).
      [LocatorClaims]: what a stream reads however its bytes are cut ([sreads], [delivers]), how searches and
      updates end ([search_ends], [update_ends]), the theorems. [LocatorExamples]: concrete networks.
    - [Transactions]: src/CacheTransactionManagerImpl.cpp, src/InternalCacheTransactionManager2PCImpl.cpp and the
      classes they use (src/TXState.cpp, src/TXId.cpp, src/TXCleaner.cpp, src/SuspendedTxExpiryTask.cpp,
      src/TransactionSuspender.cpp, src/TSSTXStateWrapper.hpp), on a state of objects, pointers of threads, tables
      and timers ([TransactionManager.t]); what a commit message does to the regions (src/TXCommitMessage.cpp,
      src/RegionCommit.cpp, src/FarSideEntryOp.cpp), with the regions as an interface ([TxRegions], which
      [cache_regions] implements with [CacheImpl]). [TransactionClaims]: the invariant of a manager ([Inv]), the
      specification of commits and rollbacks ([completion]) and the theorems. [TransactionExamples]:
      concrete transactions on a cache with a region.

    ** What the theorems show

    - Serialization: whatever sequence of fields is written is read back with nothing left
      over; strings choose among four encodings and always come back; the buffer of an output
      goes back to the pool. Decoders never leave their buffer on arbitrary input, with the
      exceptions that are characterised exactly ([readUtf16Huge_overread],
      [decode_overread_bound], [eventid_fromData_overflow]).
    - Events: identifiers are unique under every interleaving of the threads; an event that
      was seen is not delivered again; expiry keeps what it must keep.
    - Versions: entry versions are ordered as serial numbers; two members that wrote the same
      version concurrently are resolved the same way in both orders; a delta is applied to
      the value it was computed from only; members are totally ordered and numbered injectively.
    - Entries map: a segment, and the array of segments, implements an abstract map from keys
      to values with stamps, puts of deltas included for a segment; every reachable segment keeps
      its tombstones consistent, unless it is cleared while it lists some; stale updates are refused; expiry and reaping remove tombstones only; the counter of entries
      counts the live ones.
    - Eviction: the queue is a sequence ordered by last use; the entries map with eviction is a
      bounded cache in front of the same abstract map; eviction terminates and destroys, through
      the region, the least recently used keys and no others ([destroyNoThrow_evicts] ties the
      map's view of the region to [LocalRegion]).
    - Regions: updates and reads implement a specification that says who is asked in which
      order and what the map becomes, the one that the comments of the code document, except that
      the listener is told of an invalidation that lost; a failed update leaves the values; a region without a
      cache is a proxy of the servers; bulk reads ask for the missing keys only; an entry that
      nobody touches expires. The theorems are about any map with the laws of [VersionedMap].
    - Region tree: a region is found by its path; destroying a region destroys everything below
      it and nothing else, whatever the callbacks answer; closing the cache destroys all
      regions if the other parts of the cache let it, and what it leaves behind if they throw is
      stated too; every cache that the operations of regions, which are all shown to be
      [ordinary], and of the tree can reach has consistent names, parents and flags.
    - Single hop: the hash code of a string is Java's; replies with the servers of buckets are
      read as they were written; a refresh installs the last reply (servers of other groups included,
      [other_groups_kept]); keys of bulk operations and
      of functions are each sent to exactly one server that hosts their bucket; the search for a
      small set of servers ends and covers every bucket once; every reachable service has
      tables of the right size.
    - Built-in values: whatever is nested in whatever comes back, hash containers up to their
      order; reading arbitrary bytes ends, inside the buffer when a value is returned; equal keys have equal hash codes, with two
      exceptions that are named.
    - Messages: every request that [request_ok] admits is a frame with the type, transaction and parts that servers
      expect, counted and measured correctly, and stays one when security parts are added and
      retries are marked ([empty_putall_ids] is about the ids that an empty putAll draws,
      [query_timeout_misframed] about a query with a negative timeout, which is not admitted). Replies and notifications
      are understood as servers mean them, except for texts of more than 65535 bytes
      ([text_part_bounds]).
    - Results in chunks: the reply to a getAll is read from the connection, chunk by chunk, into
      the result that a specification on the places of the keys describes ([receive_chunks]), and the
      region gets the values with their versions; a reply that is cut off is never taken for a
      complete one; lists without version tags are undefined behaviour
      ([untagged_reply_undefined]).
    - Locators: a request and its response are understood on both sides, in whatever pieces the response
      arrives ([exchange]); a search returns the first server that is named, and its exceptions tell what the
      locators said ([locator_search]); it finds a server whenever one of the locators has one for it, given as
      many attempts as there are locators ([known_locator_suffices], and [unasked_locator] without); the list
      of locators never loses one ([locators_kept]); the order of servers is one that sets can use
      ([servers_ordered]).
    - Transactions: in every reachable manager a transaction belongs to one thread at most, and to none while it is
      suspended ([reachable_exclusive]); a commit or rollback ends it whatever the server answers, unless a null
      pointer is used ([terse_response_undefined]), with the outcome and the changes in the cache that a specification gives ([transaction_completes]); a suspended
      transaction is resumed as it was if a connection is obtained ([suspend_resume]) or rolled back when its time is over
      ([suspended_expires]). A resumption that fails loses the transaction ([failed_resume_loses]).
    - PDX: an object is read back in order, by position and by name; its type goes over the
      wire; a member with another version of the class gets exactly the fields that both have,
      wherever they are, and for the others default values or, for primitive arrays and against the
      documentation, an exception; the fields that it
      does not know survive when it writes the object back ([pdx_unread_preserved]), provided
      that the classes list their common fields in the same order or that its own class has a field
      more ([reordered_fields_corrupt]).
    - Runs where the code does not do what its callers expect are theorems too
      ([size_underflow], [clear_keeps_tombstones], [tracking_loses_entry],
      [lru_invalidate_undefined], [lru_clear_stale_queue], [merge_moves_local_fields],
      [dead_subregion_blocks], [wide_string_truncated], [fixed_partitions_differ], ...).

    ** Parameters, bounds and fuel

    Code that is not part of the sources is a parameter: the allocator ([can_alloc], with
    [AllocatorOk] for the theorems that need memory), conversions between UTF-8 and UTF-16,
    hash codes of the application's keys, the application's deltas and persistence manager, the
    local type that a registry has for a class and the ids that servers give to types. The
    writer, listener and loader of a region are functions of all calls made so far. The
    virtual functions of a region are parameters ([Virtuals]), as is the equality of serialized
    values; what the theorems ask of them is [serves] and [remotes_get]. The replies of servers,
    random numbers ([rand_ok]: below the bound they are drawn for), shuffles and the iteration order
    of hash tables (permutations) and the application's partition resolver are parameters of
    the single-hop service. Objects of the application are a type with its codec
    ([UserTypes], with [UserCodec] for the theorems that need a codec that fits) and its deltas
    ([toDelta], [DeltaCodec]); the thread that builds a request and its transaction are
    arguments, and the iteration order of a hash container that is read is a parameter ([place]).
    The counter in the unique tag of a member that is read ([syncCounter]) is a parameter. The bytes that
    arrive on a connection, and the error of the socket behind them, are the state of the connection.
    The network between a client and the locators is a function of all that was done so far ([Network]); what
    [Boost.Asio] reports of the operations on a connection is a list, behind which no read completes in
    time. The loop that waits for data is a recursion over it. The answers of servers to the requests of
    transactions, and the connections that pools give, are functions of all requests so far.
    - [readUnsignedVL] runs at most ten iterations (shift 0, 7, ..., 63); its fuel is ten.
      The decoder of modified UTF-8 gets the number of bytes as fuel, each step consuming one
      at least; [Diverges] is proved impossible.
    - [processLRU] gets one step more than there are queued entries as fuel; each iteration
      takes one from the queue or stops, and [processLRU_evicts] shows that it is enough.
    - The recursions over the tree of regions get the number of regions plus one as fuel
      ([fuel_of]); subregions are younger than their parents, and the lemmas on
      destruction show that it is enough. A path is looked up with its length plus one.
    - [readObject] gets the number of bytes that are left plus one, as each object consumes its
      type code before the objects inside it are read ([readObject_terminates]).
    - [chunks_loop] gets one step more than there are bytes on the connection, as each round but the
      first consumes the header of a chunk ([loop_fuel]).
    - [readCqs] gets half the number of parts, rounded up, as each round reads two of them.
    - [hash_loop] gets the length of the string; [prune_loop] the number of servers plus one, as each
      round takes one out; [first_index] likewise, as an index stays below the number drawn.
    - Buffers are below 2^62 bytes and messages below 2^60, more than any machine
      holds, so that doubling a capacity does not wrap around.
    - A PDX object ends below 2^31 bytes of its buffer, as its lengths and offsets are 32-bit;
      the types of the remote reader have at most 256 fields ([many_fields_alias] shows why).
      Strings are those that the conversions handle ([text_ok]); objects inside an object are
      written and read by any pair of functions that fit ([Codec]).
    - Transaction ids are unique as long as fewer than 2^31 were drawn, after which they start again
      ([id_reused]); the tasks of timers have ids of 64 bits.
    - A segment holds at most 2^32 entries ([small]): the largest prime of the table is just
      above three quarters of it, and beyond it [TableOfPrimes::nextLargerPrime] throws.
    - Version windows are 65536 wide because [checkForConflict] takes a larger distance for a
      wrap-around of the 24-bit entry version; member numbers have 16 bits.

    ** What is not modelled

    Sockets, SSL, threads and timers (an operation of a segment is atomic because it runs under
    the segment's lock; a scheduled expiry task may fire at any time), statistics and
    logging, the eviction action that invalidates and the thread of the eviction
    controller. Expiration properties are kept for each entry beside the map, and the tasks
    that expire entries in a table of their own. The thread that processes chunks takes each one
    when it is queued, and a handler of a chunk that throws leaves nothing behind. An operation of the
    manager of transactions is one step; a change of a region that throws is taken back. Not modelled are the following parts, in the
    order in which they should be added: the region that talks to servers, the handshake of
    connections, endpoints and pools, the instances, registry tables and type-collecting reader of PDX,
    the decoding of commit messages; queries, configuration and the .NET bindings are left out. *)
From stdpp Require Export base list list_numbers gmap numbers strings option.
#[export] Set Default Goal Selector "!".
Global Open Scope Z_scope.

(** ** Machine integers

    A w-bit integer is a [Z]; arithmetic that can leave its range is followed by
    [wrapU] (unsigned types) or [wrapS] (two's complement signed types). *)

Definition wrapU (w z : Z) : Z := z mod 2 ^ w.
Definition wrapS (w z : Z) : Z := (z + 2 ^ (w - 1)) mod 2 ^ w - 2 ^ (w - 1).
Definition in_u (w z : Z) : Prop := 0 <= z < 2 ^ w.
Definition in_s (w z : Z) : Prop := - 2 ^ (w - 1) <= z < 2 ^ (w - 1).

Abbreviation u8 := (wrapU 8).
Abbreviation u16 := (wrapU 16).
Abbreviation u32 := (wrapU 32).
Abbreviation u64 := (wrapU 64).
Abbreviation s8 := (wrapS 8).
Abbreviation s16 := (wrapS 16).
Abbreviation s32 := (wrapS 32).
Abbreviation s64 := (wrapS 64).

#[export] Instance in_u_dec w z : Decision (in_u w z).
Proof. unfold in_u. apply _. Defined.
#[export] Instance in_s_dec w z : Decision (in_s w z).
Proof. unfold in_s. apply _. Defined.

Create HintDb geode.

(** Division and modulo facts by linear arithmetic. *)
Ltac zdiv := Z.div_mod_to_equations; lia.

Lemma pow2_pos w : 0 <= w -> 0 < 2 ^ w.
Proof. intros. apply Z.pow_pos_nonneg; lia. Qed.

Lemma pow2_half w : 0 < w -> 2 ^ w = 2 * 2 ^ (w - 1).
Proof. intros. replace w with (Z.succ (w - 1)) at 1 by lia. apply Z.pow_succ_r; lia. Qed.

Lemma wrapU_range w z : 0 <= w -> in_u w (wrapU w z).
Proof. intros. apply Z.mod_pos_bound, pow2_pos; lia. Qed.

Lemma wrapU_id w z : in_u w z -> wrapU w z = z.
Proof. apply Z.mod_small. Qed.

Lemma wrapS_range w z : 0 < w -> in_s w (wrapS w z).
Proof.
  intros Hw. unfold in_s, wrapS.
  pose proof (Z.mod_pos_bound (z + 2 ^ (w - 1)) (2 ^ w) ltac:(apply pow2_pos; lia)).
  pose proof (pow2_half w Hw). lia.
Qed.

Lemma wrapS_id w z : 0 < w -> in_s w z -> wrapS w z = z.
Proof.
  intros Hw Hz. unfold in_s, wrapS in *. pose proof (pow2_half w Hw).
  rewrite Z.mod_small; lia.
Qed.

(** Two integers wrap to the same signed value as soon as they are congruent. *)
Lemma wrapS_mod_eq w a b : a mod 2 ^ w = b mod 2 ^ w -> wrapS w a = wrapS w b.
Proof.
  intros H. unfold wrapS. f_equal.
  rewrite <- (Zplus_mod_idemp_l a), <- (Zplus_mod_idemp_l b). by rewrite H.
Qed.

Lemma wrapS_wrapU w z : wrapS w (wrapU w z) = wrapS w z.
Proof. apply wrapS_mod_eq. unfold wrapU. apply Zmod_mod. Qed.

Lemma wrapU_wrapS w z : wrapU w (wrapS w z) = wrapU w z.
Proof.
  unfold wrapU, wrapS. rewrite Zminus_mod_idemp_l. f_equal. lia.
Qed.

#[export] Hint Resolve wrapU_range wrapS_range : geode.

(** ** Bit operations as arithmetic *)

Lemma lor_shiftl_add a b n : 0 <= n -> in_u n b -> Z.lor (Z.shiftl a n) b = a * 2 ^ n + b.
Proof.
  intros Hn Hb. rewrite Z.shiftl_mul_pow2 by lia.
  assert (Hland : Z.land (a * 2 ^ n) b = 0).
  { apply Z.bits_inj'. intros i Hi. rewrite Z.land_spec, Z.bits_0.
    destruct (Z.ltb_spec i n) as [Hlt|Hge].
    - rewrite Z.mul_pow2_bits_low by lia. done.
    - assert (b = 0 \/ 0 < b) as [->|Hpos] by (unfold in_u in Hb; lia).
      + by rewrite Z.bits_0, andb_false_r.
      + rewrite (Z.bits_above_log2 b i); [by rewrite andb_false_r| |].
        * lia.
        * apply Z.lt_le_trans with n; [|done]. apply Z.log2_lt_pow2; [done|apply Hb]. }
  rewrite <- Z.lxor_lor by done. by rewrite <- Z.add_nocarry_lxor.
Qed.

Lemma lor_add_low a b n m : 0 <= n -> m = a * 2 ^ n -> in_u n b -> Z.lor m b = m + b.
Proof.
  intros Hn -> Hb. rewrite <- lor_shiftl_add by done. by rewrite Z.shiftl_mul_pow2.
Qed.

Lemma land_mask z n : 0 <= n -> Z.land z (Z.ones n) = z mod 2 ^ n.
Proof. intros. by rewrite Z.land_ones. Qed.

(** ** Big-endian byte sequences *)

(** The low [n] bytes of [z], most significant first. *)
Fixpoint be_bytes (n : nat) (z : Z) : list Z :=
  match n with
  | O => []
  | S n' => u8 (Z.shiftr z (8 * Z.of_nat n')) :: be_bytes n' z
  end.

(** The value of a byte sequence read most significant first. *)
Definition be_val (l : list Z) : Z := foldl (fun acc b => acc * 256 + b) 0 l.

Definition bytes_ok (l : list Z) : Prop := Forall (in_u 8) l.

Lemma length_be_bytes n z : length (be_bytes n z) = n.
Proof. induction n; simpl; auto. Qed.

Lemma be_bytes_ok n z : bytes_ok (be_bytes n z).
Proof. induction n; constructor; auto. by apply wrapU_range. Qed.

Lemma be_val_acc l a :
  foldl (fun acc b => acc * 256 + b) a l = a * 2 ^ (8 * Z.of_nat (length l)) + be_val l.
Proof.
  unfold be_val. revert a. induction l as [|b l IH]; intros a; simpl.
  - lia.
  - rewrite (IH (a * 256 + b)), (IH (0 * 256 + b)).
    replace (8 * Z.of_nat (S (length l))) with (8 + 8 * Z.of_nat (length l)) by lia.
    rewrite Z.pow_add_r by lia. change (2 ^ 8) with 256. lia.
Qed.

Lemma be_val_cons b l : be_val (b :: l) = b * 2 ^ (8 * Z.of_nat (length l)) + be_val l.
Proof. unfold be_val at 1. simpl. by rewrite be_val_acc. Qed.

Lemma be_val_be_bytes n z : be_val (be_bytes n z) = z mod 2 ^ (8 * Z.of_nat n).
Proof.
  induction n as [|n IH]; simpl.
  - by rewrite Z.mod_1_r.
  - rewrite be_val_cons, length_be_bytes, IH. unfold wrapU.
    rewrite Z.shiftr_div_pow2 by lia.
    replace (8 * Z.of_nat (S n)) with (8 * Z.of_nat n + 8) by lia.
    rewrite Z.pow_add_r by lia. rewrite Z.rem_mul_r; [lia|..]; try apply Z.pow_nonzero; lia.
Qed.

(** The function that replaces the field [proj] of a record; [eta] is the identity on the
    record, written with all projections. *)
Ltac record_setter eta proj :=
  let e := eval unfold eta in eta in
  let p := eval pattern proj in e in
  match p with ?build _ => let s := eval cbv beta in (fun x r => build (fun _ => x) r) in exact s end.

(** ** Outcomes and the state-and-exception monad

    A C++ member function that may throw is a function from the object's state to an
    [outcome]; the state after a throw is not observed by any caller modelled here.
    [UndefinedBehaviour] is the outcome of a memory access outside an allocation;
    [Diverges] is the outcome of a loop whose fuel ran out, which the theorems rule out. *)

Inductive exn : Set :=
| OutOfRangeException
| IllegalStateException
| IllegalArgumentException
| NullPointerException
| OutOfMemoryException
| FatalInternalException
| BadWeakPtr        (** [std::bad_weak_ptr] *)
| BadCast           (** [std::bad_cast] *)
| StdLengthError    (** [std::length_error] *)
| StdInvalidArgument
| StdOutOfRange
| PersistenceException  (** thrown by the persistence manager *)
| NotConnectedException | MessageException | CacheServerException | NotOwnerException
| CacheWriterException | CacheLoaderException | CacheListenerException
| RegionDestroyedException | CacheProxyException | GeodeIOException | NoSystemException
| TimeoutException | BufferSizeExceededException | LeaseExpiredException | RegionExistsException
| EntryNotFoundException | EntryExistsException | EntryDestroyedException | CacheClosedException
| StatisticsDisabledException | ConcurrentModificationException | NotAuthorizedException
| AuthenticationFailedException | AuthenticationRequiredException
| DuplicateDurableClientException | QueryException | AllConnectionsInUseException
| FunctionException | DiskFailureException | RollbackException | CommitConflictException
| TransactionDataRebalancedException | TransactionDataNodeHasDepartedException
| PutAllPartialResultException | LowMemoryException | QueryExecutionLowMemoryException
| UnknownException | UnsupportedOperationException
| BaseException     (** [apache::geode::client::Exception] itself *)
| StdBadAlloc       (** [std::bad_alloc] *)
| NoAvailableLocatorsException | TransactionException
| SystemError       (** [boost::system::system_error] *)
| Terminated        (** [std::terminate]: not an exception that can be caught *)
| UndefinedBehaviour
| Diverges.

#[export] Instance exn_eq_dec : EqDecision exn.
Proof. intros e e'. unfold Decision. decide equality. Defined.

Inductive outcome (A : Type) : Type :=
| Ok (a : A)
| Throw (e : exn).
Arguments Ok {A} _.
Arguments Throw {A} _.

#[export] Instance outcome_ret : MRet outcome := fun A a => Ok a.
#[export] Instance outcome_bind : MBind outcome := fun A B f m =>
  match m with Ok a => f a | Throw e => Throw e end.
#[export] Instance outcome_fmap : FMap outcome := fun A B f m =>
  match m with Ok a => Ok (f a) | Throw e => Throw e end.

Definition ST (S A : Type) : Type := S -> outcome (A * S).

#[export] Instance ST_ret {S} : MRet (ST S) := fun A a s => Ok (a, s).
#[export] Instance ST_bind {S} : MBind (ST S) := fun A B f m s =>
  match m s with Ok (a, s') => f a s' | Throw e => Throw e end.
#[export] Instance ST_fmap {S} : FMap (ST S) := fun A B f m s =>
  match m s with Ok (a, s') => Ok (f a, s') | Throw e => Throw e end.

Definition st_get {S} : ST S S := fun s => Ok (s, s).
Definition st_put {S} (s : S) : ST S unit := fun _ => Ok (tt, s).
Definition st_gets {S A} (f : S -> A) : ST S A := fun s => Ok (f s, s).
Definition st_modify {S} (f : S -> S) : ST S unit := fun s => Ok (tt, f s).
Definition st_throw {S A} (e : exn) : ST S A := fun _ => Throw e.
Definition st_lift {S A} (o : outcome A) : ST S A := fun s =>
  match o with Ok a => Ok (a, s) | Throw e => Throw e end.

(** Computations that keep what was done before an exception. *)
Definition EX (S A : Type) : Type := S -> outcome A * S.
#[export] Instance EX_ret {S} : MRet (EX S) := fun A a s => (Ok a, s).
#[export] Instance EX_bind {S} : MBind (EX S) := fun A B f m s =>
  match m s with (Ok a, s') => f a s' | (Throw e, s') => (Throw e, s') end.
Definition ex_lift {S A} (o : outcome A) : EX S A := fun s => (o, s).
Definition ex_throw {S A} (e : exn) : EX S A := fun s => (Throw e, s).
Definition ex_gets {S A} (f : S -> A) : EX S A := fun s => (Ok (f s), s).
Definition ex_modify {S} (f : S -> S) : EX S unit := fun s => (Ok tt, f s).

(** [cleanup] is done when [m] is left, with a result or with an exception: a destructor. *)
Definition ex_finally {S A} (m : EX S A) (cleanup : EX S unit) : EX S A := fun s =>
  let '(o, s') := m s in
  match cleanup s' with (Ok _, s'') => (o, s'') | (Throw e, s'') => (Throw e, s'') end.

(** One step of a computation whose first part is known. *)
Lemma st_bind_ok {S A B} (m : ST S A) (f : A -> ST S B) s a s' :
  m s = Ok (a, s') -> (m ≫= f) s = f a s'.
Proof. intros E. unfold mbind, ST_bind. by rewrite E. Qed.

Lemma st_bind_throw {S A B} (m : ST S A) (f : A -> ST S B) s e :
  m s = Throw e -> (m ≫= f) s = Throw e.
Proof. intros E. unfold mbind, ST_bind. by rewrite E. Qed.

(** What a computation that returns did first. *)
Lemma st_bind_inv {S A B} (m : ST S A) (f : A -> ST S B) s b s2 :
  (m ≫= f) s = Ok (b, s2) -> exists a s1, m s = Ok (a, s1) /\ f a s1 = Ok (b, s2).
Proof. unfold mbind, ST_bind. destruct (m s) as [[a s1]|]; [|done]. intros Hf. by exists a, s1. Qed.

(** [for x in l: f x], in order. *)
Fixpoint st_iter {S A} (f : A -> ST S unit) (l : list A) : ST S unit :=
  match l with
  | [] => mret tt
  | x :: l' => f x;; st_iter f l'
  end.

(** A computation on the first component of the state. *)
Definition st_first {S T A} (m : ST S A) : ST (S * T) A := fun st =>
  match m st.1 with Ok (a, s') => Ok (a, (s', st.2)) | Throw e => Throw e end.

(** [n] results of [m], in order. *)
Fixpoint st_repeat {S A} (n : nat) (m : ST S A) : ST S (list A) :=
  match n with
  | O => mret []
  | S n' => x ← m; xs ← st_repeat n' m; mret (x :: xs)
  end.
