(* ===== verification/JavaModifiedUtf8.v ===== *)
(** Java modified UTF-8 (src/cppcache/src/util/JavaModifiedUtf8.cpp): the encoder, the
    length computation and the decoder of UTF-16 code units. A [std::string] is the list
    of its bytes (0..255), a [std::u16string] the list of its code units (0..65535), and
    [const char* buf] is the memory from [buf] on. *)
From S2P Require Import Prelude.

Module JavaModifiedUtf8.

Definition u16string_ok (s : list Z) : Prop := Forall (in_u 16) s.

Definition encodedLength (utf16 : list Z) : Z :=
  foldl (fun encodedLen c =>
           if c =? 0 then encodedLen + 2
           else if c <? 0x80 then encodedLen + 1
           else if c <? 0x800 then encodedLen + 2
           else encodedLen + 3) 0 utf16.

Definition encode (c : Z) (jmutf8 : list Z) : list Z :=
  if c =? 0 then jmutf8 ++ [0xc0; 0x80]
  else if c <? 0x80 then jmutf8 ++ [u8 c]
  else if c <? 0x800 then
    jmutf8 ++ [u8 (Z.lor 0xC0 (Z.shiftr c 6)); u8 (Z.lor 0x80 (Z.land c 0x3F))]
  else
    jmutf8 ++ [u8 (Z.lor 0xE0 (Z.shiftr c 12));
               u8 (Z.lor 0x80 (Z.land (Z.shiftr c 6) 0x3F));
               u8 (Z.lor 0x80 (Z.land c 0x3F))].

Definition fromString (utf16 : list Z) : list Z :=
  foldl (fun jmutf8 c => encode c jmutf8) [] utf16.

(** The next code unit and the advanced buffer pointer. *)
Definition decodeJavaModifiedUtf8Char (pbuf : list Z) : outcome (Z * list Z) :=
  match pbuf with
  | [] => Throw UndefinedBehaviour
  | b0 :: pbuf1 =>
    let b := Z.land b0 0xff in
    let k := Z.shiftr b 5 in
    if k =? 6 then
      match pbuf1 with
      | [] => Throw UndefinedBehaviour
      | x0 :: pbuf2 =>
        let y := Z.land b 0x1f in
        let x := Z.land x0 0x3f in
        Ok (u16 (Z.lor (Z.shiftl y 6) x), pbuf2)
      end
    else if k =? 7 then
      match pbuf1 with
      | y0 :: x0 :: pbuf3 =>
        let z := Z.land b 0x0f in
        let y := Z.land y0 0x3f in
        let x := Z.land x0 0x3f in
        Ok (u16 (Z.lor (Z.lor (Z.shiftl z 12) (Z.shiftl y 6)) x), pbuf3)
      | _ => Throw UndefinedBehaviour
      end
    else Ok (u16 (Z.land b 0x7f), pbuf1)
  end.

(** [while (buf < end)], with [left = end - buf]. *)
Fixpoint decode_loop (fuel : nat) (buf : list Z) (left : Z) (value : list Z)
  : outcome (list Z) :=
  if 0 <? left then
    match fuel with
    | O => Throw Diverges
    | S fuel' =>
      '(c, buf') ← decodeJavaModifiedUtf8Char buf;
      decode_loop fuel' buf' (left - (Z.of_nat (length buf) - Z.of_nat (length buf')))
        (value ++ [c])
    end
  else Ok value.

(** Every iteration consumes a byte, so [len] iterations are enough. *)
Definition decode (buf : list Z) (len : Z) : outcome (list Z) :=
  decode_loop (Z.to_nat len) buf len [].

(** *** Encoding *)

Definition enc_char (c : Z) : list Z := encode c [].

Lemma encode_app c l : encode c l = l ++ enc_char c.
Proof. unfold enc_char, encode. repeat case_match; done. Qed.

Lemma fromString_app l s : foldl (fun j c => encode c j) l s = l ++ (s ≫= enc_char).
Proof.
  revert l. induction s as [|c s IH]; intros l.
  - by rewrite app_nil_r.
  - rewrite bind_cons. cbn [foldl]. by rewrite IH, encode_app, app_assoc.
Qed.

Lemma fromString_bind s : fromString s = s ≫= enc_char.
Proof. apply fromString_app. Qed.

Lemma encodedLength_acc s a :
  foldl (fun encodedLen c =>
           if c =? 0 then encodedLen + 2
           else if c <? 0x80 then encodedLen + 1
           else if c <? 0x800 then encodedLen + 2
           else encodedLen + 3) a s = a + Z.of_nat (length (s ≫= enc_char)).
Proof.
  revert a. induction s as [|c s IH]; intros a; [simpl; lia|].
  rewrite bind_cons. cbn [foldl]. rewrite IH, length_app. generalize (length (s ≫= enc_char)); intros n.
  unfold enc_char, encode. repeat case_match; simpl; lia.
Qed.

Lemma encodedLength_fromString s : encodedLength s = Z.of_nat (length (fromString s)).
Proof. unfold encodedLength. rewrite encodedLength_acc, fromString_bind. lia. Qed.

Lemma enc_char_bytes c : bytes_ok (enc_char c).
Proof.
  unfold enc_char, encode. repeat case_match; simpl;
    repeat constructor; by apply wrapU_range || (unfold in_u; lia).
Qed.

Lemma fromString_bytes s : bytes_ok (fromString s).
Proof.
  rewrite fromString_bind. induction s; [constructor|].
  rewrite bind_cons. apply Forall_app; split; [apply enc_char_bytes|done].
Qed.

Lemma enc_char_length c : (1 <= length (enc_char c) <= 3)%nat.
Proof. unfold enc_char, encode. repeat case_match; simpl; lia. Qed.

(** *** The bit patterns of the three forms *)

Lemma land_63 c : Z.land c 0x3F = c mod 64.
Proof. apply (land_mask c 6). lia. Qed.
Lemma land_255 c : Z.land c 0xff = c mod 256.
Proof. apply (land_mask c 8). lia. Qed.
Lemma land_31 c : Z.land c 0x1f = c mod 32.
Proof. apply (land_mask c 5). lia. Qed.
Lemma land_15 c : Z.land c 0x0f = c mod 16.
Proof. apply (land_mask c 4). lia. Qed.
Lemma land_127 c : Z.land c 0x7f = c mod 128.
Proof. apply (land_mask c 7). lia. Qed.

Lemma lor_128 b : in_u 6 b -> Z.lor 0x80 b = 128 + b.
Proof. intros. apply (lor_add_low 2 b 6); lia || done. Qed.
Lemma lor_192 b : in_u 6 b -> Z.lor 0xC0 b = 192 + b.
Proof. intros. apply (lor_add_low 3 b 6); lia || done. Qed.
Lemma lor_224 b : in_u 5 b -> Z.lor 0xE0 b = 224 + b.
Proof. intros. apply (lor_add_low 7 b 5); lia || done. Qed.

Lemma mod_in_u z n : 0 <= n -> in_u n (z mod 2 ^ n).
Proof. intros. apply Z.mod_pos_bound, pow2_pos; lia. Qed.

Lemma shiftr_div c n : 0 <= n -> Z.shiftr c n = c / 2 ^ n.
Proof. apply Z.shiftr_div_pow2. Qed.

(** The decoder reads back exactly the bytes the encoder wrote for a code unit. *)
Lemma decode_enc_char c rest :
  in_u 16 c -> decodeJavaModifiedUtf8Char (enc_char c ++ rest) = Ok (c, rest).
Proof.
  intros Hc. unfold in_u in Hc. change (2 ^ 16) with 65536 in Hc.
  unfold enc_char, encode.
  destruct (Z.eqb_spec c 0) as [->|Hnz]; [reflexivity|].
  destruct (Z.ltb_spec c 0x80) as [H1|H1].
  { simpl. rewrite land_255. unfold wrapU. change (2 ^ 8) with 256. change (2 ^ 16) with 65536.
    rewrite Zmod_mod, (Z.mod_small c 256), shiftr_div by lia.
    change (2 ^ 5) with 32.
    destruct (Z.eqb_spec (c / 32) 6); [zdiv|]. destruct (Z.eqb_spec (c / 32) 7); [zdiv|].
    rewrite land_127. do 2 f_equal. zdiv. }
  assert (Hlow : in_u 6 (c mod 64)) by (apply (mod_in_u c 6); lia).
  destruct (Z.ltb_spec c 0x800) as [H2|H2].
  { rewrite !land_63, !shiftr_div by lia. change (2 ^ 6) with 64.
    rewrite lor_128 by done.
    rewrite lor_192 by (unfold in_u; change (2 ^ 6) with 64; zdiv).
    unfold in_u in Hlow. change (2 ^ 6) with 64 in Hlow.
    simpl. rewrite land_255, land_63, land_31. unfold wrapU.
    change (2 ^ 8) with 256. change (2 ^ 16) with 65536.
    rewrite !Zmod_mod, shiftr_div by lia. change (2 ^ 5) with 32.
    destruct (Z.eqb_spec ((192 + c / 64) mod 256 / 32) 6); [|zdiv].
    rewrite lor_shiftl_add; [|lia|apply (mod_in_u _ 6); lia].
    change (2 ^ 6) with 64. do 2 f_equal. zdiv. }
  rewrite !land_63, !shiftr_div by lia. change (2 ^ 6) with 64. change (2 ^ 12) with 4096.
  rewrite !lor_128 by (apply (mod_in_u _ 6); lia).
  rewrite lor_224 by (unfold in_u; change (2 ^ 5) with 32; zdiv).
  unfold in_u in Hlow. change (2 ^ 6) with 64 in Hlow.
  simpl. rewrite land_255, !land_63, land_15. unfold wrapU.
  change (2 ^ 8) with 256. change (2 ^ 16) with 65536.
  rewrite !Zmod_mod, shiftr_div by lia. change (2 ^ 5) with 32.
  destruct (Z.eqb_spec ((224 + c / 4096) mod 256 / 32) 6); [zdiv|].
  destruct (Z.eqb_spec ((224 + c / 4096) mod 256 / 32) 7); [|zdiv].
  assert (Hmid : forall z, in_u 12 (Z.shiftl (z mod 64) 6)).
  { intros z. rewrite Z.shiftl_mul_pow2 by lia. unfold in_u.
    change (2 ^ 6) with 64. change (2 ^ 12) with 4096. zdiv. }
  rewrite (lor_shiftl_add _ (Z.shiftl _ _)); [|lia|apply Hmid].
  rewrite (Z.shiftl_mul_pow2 _ 6) by lia.
  change (2 ^ 6) with 64. change (2 ^ 12) with 4096.
  match goal with |- context [Z.lor (?z * 4096 + ?y * 64) ?x] =>
    rewrite (lor_add_low (z * 64 + y) x 6 (z * 4096 + y * 64)) end;
    [| lia | change (2 ^ 6) with 64; lia | apply (mod_in_u _ 6); lia].
  do 2 f_equal. zdiv.
Qed.

(** *** Round trip *)

Lemma decode_loop_fromString s : forall fuel rest value,
  u16string_ok s -> (length (s ≫= enc_char) <= fuel)%nat ->
  decode_loop fuel ((s ≫= enc_char) ++ rest) (Z.of_nat (length (s ≫= enc_char))) value
  = Ok (value ++ s).
Proof.
  induction s as [|c s IH]; intros fuel rest value Hs Hf.
  - destruct fuel; simpl; by rewrite app_nil_r.
  - apply Forall_cons_1 in Hs as [Hc Hs]. rewrite bind_cons, length_app in Hf |- *.
    pose proof (enc_char_length c). destruct fuel as [|fuel]; [lia|].
    cbn [decode_loop].
    destruct (Z.ltb_spec 0 (Z.of_nat (length (enc_char c) + length (s ≫= enc_char)))); [|lia].
    rewrite <- app_assoc, decode_enc_char by done. simpl.
    rewrite !length_app.
    replace (_ - _) with (Z.of_nat (length (s ≫= enc_char))) by lia.
    rewrite IH; [by rewrite <- app_assoc|done|lia].
Qed.

Lemma decode_fromString s rest :
  u16string_ok s -> decode (fromString s ++ rest) (encodedLength s) = Ok s.
Proof.
  intros Hs. unfold decode. rewrite encodedLength_fromString, fromString_bind, Nat2Z.id.
  by rewrite decode_loop_fromString.
Qed.

(** *** Totality: the decoder reads at most two bytes past [buf + len]. *)

Lemma decode_char_total buf :
  (3 <= length buf)%nat ->
  exists c buf', decodeJavaModifiedUtf8Char buf = Ok (c, buf') /\
    (length buf - 3 <= length buf' < length buf)%nat.
Proof.
  intros H. destruct buf as [|b0 [|b1 [|b2 buf]]]; simpl in H; try lia.
  unfold decodeJavaModifiedUtf8Char. repeat case_match; simplify_eq/=; eexists _, _; (split; [done|simpl; lia]).
Qed.

Lemma decode_loop_total fuel : forall buf left value,
  left <= Z.of_nat fuel -> left + 2 <= Z.of_nat (length buf) ->
  exists s, decode_loop fuel buf left value = Ok s.
Proof.
  induction fuel as [|fuel IH]; intros buf left value Hf Hl; cbn [decode_loop];
    destruct (Z.ltb_spec 0 left); try lia; [by eauto| |by eauto].
  destruct (decode_char_total buf) as (c & buf' & -> & Hlen); [lia|]. simpl.
  apply IH; lia.
Qed.

End JavaModifiedUtf8.
