(* ===== verification/DataOutput.v ===== *)
(** The output buffer (src/cppcache/include/geode/DataOutput.hpp and
    src/cppcache/src/DataOutput.cpp): a growable byte buffer with a write cursor, the
    thread-local pool its buffers come from, and the primitive encoders.

    [m_bytes] holds the cells of the allocation that were written or skipped so far;
    a cell that was never written is [None]. [m_buf] is the cursor as an offset from the
    start. A store outside the [m_size] allocated bytes is [UndefinedBehaviour].
    [std::malloc]/[std::realloc] are the parameter [can_alloc]. Floats and doubles are
    represented by their bit patterns, the view the unions in the code take of them. *)
From S2P Require Import Prelude JavaModifiedUtf8.

Class Allocator := can_alloc : Z -> bool.

Module DataOutput.

Record t := mk {
  m_bytes : list (option Z);
  m_buf : Z;
  m_size : Z;
  m_haveBigBuffer : bool;
  bigBufferLocks : Z  (** times this output holds [globalBigBufferMutex] *)
}.

Definition m_highWaterMark : Z := 50 * 1024 * 1024.
Definition m_lowWaterMark : Z := 8192.

Definition set_cell (l : list (option Z)) (i : nat) (b : Z) : list (option Z) :=
  take i (l ++ replicate (i - length l) None) ++ Some b :: drop (S i) l.

Section WithAllocator.
Context `{Allocator}.

(** [*(m_buf++) = value], also [writeNoCheck]. *)
Definition writeNoCheck (value : Z) : ST t unit := fun d =>
  if (0 <=? m_buf d) && (m_buf d <? m_size d) then
    Ok (tt, mk (set_cell (m_bytes d) (Z.to_nat (m_buf d)) value) (m_buf d + 1)
               (m_size d) (m_haveBigBuffer d) (bigBufferLocks d))
  else Throw UndefinedBehaviour.

Definition acquireLock (d : t) : t :=
  mk (m_bytes d) (m_buf d) (m_size d) (m_haveBigBuffer d) (bigBufferLocks d + 1).
Definition releaseLock (d : t) : t :=
  mk (m_bytes d) (m_buf d) (m_size d) (m_haveBigBuffer d) (bigBufferLocks d - 1).

(** [std::realloc] keeps the cells that were written. *)
Definition ensureCapacity (size : Z) : ST t unit := fun d =>
  let offset := m_buf d in
  if u64 (m_size d - offset) <? size then
    let newSize := u64 (m_size d * 2 + 8192 * (size / 8192)) in
    let d1 :=
      if (m_highWaterMark <=? newSize) && negb (m_haveBigBuffer d) then
        let d' := acquireLock d in
        mk (m_bytes d') (m_buf d') (m_size d') true (bigBufferLocks d')
      else d in
    if can_alloc newSize then
      Ok (tt, mk (take (Z.to_nat newSize) (m_bytes d1)) offset newSize
                 (m_haveBigBuffer d1) (bigBufferLocks d1))
    else Throw OutOfMemoryException
  else Ok (tt, d).

Definition reset : ST t unit := fun d =>
  if m_haveBigBuffer d then
    if can_alloc m_lowWaterMark then
      Ok (tt, releaseLock (mk [] 0 m_lowWaterMark false (bigBufferLocks d)))
    else Throw OutOfMemoryException
  else Ok (tt, mk (m_bytes d) 0 (m_size d) (m_haveBigBuffer d) (bigBufferLocks d)).

(** [std::memcpy(m_buf, bytes, len); m_buf += len]. *)
Definition memcpy (bytes : list Z) (len : Z) : ST t unit :=
  if len <=? Z.of_nat (length bytes) then st_iter writeNoCheck (take (Z.to_nat len) bytes)
  else st_throw UndefinedBehaviour.

Definition write (value : Z) : ST t unit := ensureCapacity 1;; writeNoCheck value.
Definition write_int8 (value : Z) : ST t unit := write (u8 value).
Definition writeBoolean (value : bool) : ST t unit := write (if value then 1 else 0).

Definition writeInt_uint16 (value : Z) : ST t unit :=
  ensureCapacity 2;;
  writeNoCheck (u8 (Z.shiftr value 8));;
  writeNoCheck (u8 value).

Definition writeChar (value : Z) : ST t unit :=
  ensureCapacity 2;;
  writeNoCheck (u8 (Z.shiftr value 8));;
  writeNoCheck (u8 value).

Definition writeInt_uint32 (value : Z) : ST t unit :=
  ensureCapacity 4;;
  writeNoCheck (u8 (Z.shiftr value 24));;
  writeNoCheck (u8 (Z.shiftr value 16));;
  writeNoCheck (u8 (Z.shiftr value 8));;
  writeNoCheck (u8 value).

Definition writeInt_uint64 (value : Z) : ST t unit :=
  ensureCapacity 8;;
  writeNoCheck (u8 (Z.shiftr value 56));;
  writeNoCheck (u8 (Z.shiftr value 48));;
  writeNoCheck (u8 (Z.shiftr value 40));;
  writeNoCheck (u8 (Z.shiftr value 32));;
  writeNoCheck (u8 (Z.shiftr value 24));;
  writeNoCheck (u8 (Z.shiftr value 16));;
  writeNoCheck (u8 (Z.shiftr value 8));;
  writeNoCheck (u8 value).

Definition writeInt_int16 (value : Z) : ST t unit := writeInt_uint16 (u16 value).
Definition writeInt_int32 (value : Z) : ST t unit := writeInt_uint32 (u32 value).
Definition writeInt_int64 (value : Z) : ST t unit := writeInt_uint64 (u64 value).

Definition writeArrayLen (len : Z) : ST t unit :=
  if len =? -1 then write_int8 (-1)
  else if len <=? 252 then write (u8 len)
  else if len <=? 0xFFFF then write_int8 (-2);; writeInt_uint16 (u16 len)
  else write_int8 (-3);; writeInt_int32 len.

(** [bytes = None] is the null pointer. *)
Definition writeBytes (bytes : option (list Z)) (len : Z) : ST t unit :=
  if 0 <=? len then
    ensureCapacity (u64 (s32 (len + 5)));;
    writeArrayLen (match bytes with None => 0 | Some _ => len end);;
    match bytes with
    | Some bs => if 0 <? len then memcpy bs len else mret tt
    | None => mret tt
    end
  else write_int8 (-1).

Definition writeBytesOnly (bytes : list Z) (len : Z) : ST t unit :=
  ensureCapacity len;; memcpy bytes len.

Definition writeFloat (bits : Z) : ST t unit := writeInt_uint32 bits.
Definition writeDouble (bits : Z) : ST t unit := writeInt_uint64 bits.

(** *** Cursor and buffer access *)

Definition advanceCursor (offset : Z) : ST t unit :=
  ensureCapacity offset;;
  st_modify (fun d => mk (m_bytes d) (m_buf d + offset) (m_size d)
                         (m_haveBigBuffer d) (bigBufferLocks d)).

Definition rewindCursor (offset : Z) : ST t unit :=
  st_modify (fun d => mk (m_bytes d) (m_buf d - offset) (m_size d)
                         (m_haveBigBuffer d) (bigBufferLocks d)).

Definition updateValueAtPos (offset value : Z) : ST t unit := fun d =>
  if offset <? m_size d then
    Ok (tt, mk (set_cell (m_bytes d) (Z.to_nat offset) value) (m_buf d) (m_size d)
               (m_haveBigBuffer d) (bigBufferLocks d))
  else Throw UndefinedBehaviour.

(** An unwritten byte has no determined value. *)
Definition getValueAtPos (offset : Z) : ST t Z := fun d =>
  match m_bytes d !! Z.to_nat offset with
  | Some (Some b) => Ok (b, d)
  | _ => Throw UndefinedBehaviour
  end.

Definition getBufferLength (d : t) : Z := m_buf d.
Definition getRemainingBufferLength (d : t) : Z := u64 (m_size d - getBufferLength d).

(** The bytes up to the cursor, [getBuffer(&rsize)]; [None] when one of them was
    never written. *)
Definition getBuffer (d : t) : option (list Z) :=
  if m_buf d <=? Z.of_nat (length (m_bytes d)) then mapM id (take (Z.to_nat (m_buf d)) (m_bytes d))
  else None.

(** *** Strings *)

Definition writeAscii (value : list Z) : ST t unit :=
  let len := u16 (Z.min (Z.of_nat (length value)) 65535) in
  writeInt_uint16 len;;
  st_iter (fun c => write_int8 (s8 (Z.land c 0x7F))) (take (Z.to_nat len) value).

Definition writeAsciiHuge (value : list Z) : ST t unit :=
  let len := u32 (Z.min (Z.of_nat (length value)) 4294967295) in
  writeInt_uint32 (u32 len);;
  st_iter (fun c => write_int8 (s8 (Z.land c 0x7F))) (take (Z.to_nat len) value).

Definition encodeJavaModifiedUtf8 (c : Z) : ST t unit :=
  if c =? 0 then writeNoCheck 0xc0;; writeNoCheck 0x80
  else if c <? 0x80 then writeNoCheck (u8 c)
  else if c <? 0x800 then
    writeNoCheck (u8 (Z.lor 0xC0 (Z.shiftr c 6)));;
    writeNoCheck (u8 (Z.lor 0x80 (Z.land c 0x3F)))
  else
    writeNoCheck (u8 (Z.lor 0xE0 (Z.shiftr c 12)));;
    writeNoCheck (u8 (Z.lor 0x80 (Z.land (Z.shiftr c 6) 0x3F)));;
    writeNoCheck (u8 (Z.lor 0x80 (Z.land c 0x3F))).

(** [while (m_buf < end) encodeJavaModifiedUtf8( *data++ )]; running past the string is
    undefined. *)
Fixpoint encodeWhile (data : list Z) (end_ : Z) : ST t unit := fun d =>
  if m_buf d <? end_ then
    match data with
    | [] => Throw UndefinedBehaviour
    | c :: data' => (encodeJavaModifiedUtf8 c;; encodeWhile data' end_) d
    end
  else Ok (tt, d).

Definition getJavaModifiedUtf8EncodedLength (data : list Z) : Z :=
  JavaModifiedUtf8.encodedLength data.

Definition writeJavaModifiedUtf8 (data : list Z) : ST t unit :=
  if (length data =? 0)%nat then writeInt_uint16 0
  else
    let encodedLen := u16 (Z.min (getJavaModifiedUtf8EncodedLength data) 65535) in
    writeInt_uint16 encodedLen;;
    ensureCapacity encodedLen;;
    d ← st_get;
    let end_ := m_buf d + encodedLen in
    encodeWhile data end_;;
    st_modify (fun d' => if end_ <? m_buf d' then
        mk (m_bytes d') end_ (m_size d') (m_haveBigBuffer d') (bigBufferLocks d')
      else d').

Definition writeUtf16 (data : list Z) : ST t unit :=
  ensureCapacity (Z.of_nat (length data) * 2);;
  st_iter (fun c => writeNoCheck (u8 (Z.shiftr c 8));; writeNoCheck (u8 c)) data.

Definition writeUtf16Huge (data : list Z) : ST t unit :=
  let len := u32 (Z.min (Z.of_nat (length data)) 4294967295) in
  writeInt_uint32 len;;
  writeUtf16 data.

Definition CacheableNullString : Z := 69.
Definition CacheableString : Z := 42.
Definition CacheableASCIIString : Z := 87.
Definition CacheableASCIIStringHuge : Z := 88.
Definition CacheableStringHuge : Z := 89.

(** The length loop of [writeString]. *)
Definition utfLength (value : list Z) : Z :=
  foldl (fun utfLen c =>
           if (c <=? 0x007F) && (0x0001 <=? c) then utfLen
           else if 0x07FF <? c then utfLen + 2
           else utfLen + 1) (Z.of_nat (length value)) value.

(** The template, over the two encoders its character type selects. *)
Definition writeString_with (wUtf16Huge wJavaModifiedUtf8 : list Z -> ST t unit)
    (value : list Z) : ST t unit :=
  let len := Z.of_nat (length value) in
  let utfLen := utfLength value in
  if len <? utfLen then
    if 0xFFFF <? utfLen then write CacheableStringHuge;; wUtf16Huge value
    else write CacheableString;; wJavaModifiedUtf8 value
  else
    if 0xFFFF <? len then write CacheableASCIIStringHuge;; writeAsciiHuge value
    else write CacheableASCIIString;; writeAscii value.

(** For [char16_t]. *)
Definition writeString (value : list Z) : ST t unit :=
  writeString_with writeUtf16Huge writeJavaModifiedUtf8 value.

(** For a possibly null [const char16_t*]. *)
Definition writeString_ptr (value : option (list Z)) : ST t unit :=
  match value with
  | None => write CacheableNullString
  | Some s => writeString s
  end.

Definition writeUTF (value : list Z) : ST t unit := writeJavaModifiedUtf8 value.

Definition writeUTF_ptr (value : option (list Z)) : ST t unit :=
  match value with
  | None => st_throw NullPointerException
  | Some s => writeUTF s
  end.

Definition writeChars (value : list Z) : ST t unit := writeUtf16 value.

(** For [char] strings: [to_utf16] is the standard library's UTF-8 conversion. *)
Section Utf8.
Context (to_utf16 : list Z -> outcome (list Z)).

Definition writeJavaModifiedUtf8_string (value : list Z) : ST t unit :=
  if (length value =? 0)%nat then writeInt_uint16 0
  else s ← st_lift (to_utf16 value); writeJavaModifiedUtf8 s.

Definition writeUtf16Huge_string (value : list Z) : ST t unit :=
  if (length value =? 0)%nat then writeInt_uint16 0
  else s ← st_lift (to_utf16 value); writeUtf16Huge s.

Definition writeUtf16_string (value : list Z) : ST t unit :=
  if (length value =? 0)%nat then mret tt
  else s ← st_lift (to_utf16 value); writeUtf16 s.

Definition writeString_string (value : list Z) : ST t unit :=
  writeString_with writeUtf16Huge_string writeJavaModifiedUtf8_string value.
End Utf8.

(** *** The thread-local pool of buffers *)

Record BufferDesc := mkDesc { bd_buf : list (option Z); bd_size : Z }.

(** [m_buffers] with its back as the head of the list. *)
Definition getBuffer_pool (m_buffers : list BufferDesc) : outcome (BufferDesc * list BufferDesc) :=
  match m_buffers with
  | desc :: rest => Ok (desc, rest)
  | [] => if can_alloc 8192 then Ok (mkDesc [] 8192, []) else Throw OutOfMemoryException
  end.

Definition poolBuffer (buf : list (option Z)) (size : Z) (m_buffers : list BufferDesc) :=
  mkDesc buf size :: m_buffers.

Definition construct (pool : list BufferDesc) : outcome (t * list BufferDesc) :=
  '(desc, pool') ← getBuffer_pool pool;
  Ok (mk (bd_buf desc) 0 (bd_size desc) false 0, pool').

Definition destruct_ (d : t) (pool : list BufferDesc) : outcome (list BufferDesc) :=
  '(_, d') ← reset d;
  Ok (poolBuffer (m_bytes d') (m_size d') pool).

End WithAllocator.
End DataOutput.
