(* ===== verification/DataOutputFacts.v ===== *)
(** What the output buffer promises: a well-formed buffer stays well formed, no encoder
    stores outside the allocation, and each encoder appends exactly the bytes of its
    reference encoding ([emits]). *)
From S2P Require Import Prelude JavaModifiedUtf8 DataOutput.
Import DataOutput.

(** Allocations up to 2^62 bytes succeed; the encoders below are correct then, and throw
    [OutOfMemoryException] otherwise. *)
Class AllocatorOk `{Allocator} : Prop := alloc_ok : forall n, 0 <= n <= 2 ^ 62 -> can_alloc n = true.

Record wf (d : t) : Prop := {
  wf_size : 8192 <= m_size d <= 2 ^ 62;
  wf_buf : 0 <= m_buf d <= m_size d;
  wf_bytes : Z.of_nat (length (m_bytes d)) <= m_size d;
  wf_locks : bigBufferLocks d = if m_haveBigBuffer d then 1 else 0
}.

(** The first [n] cells, those that were never stored being unknown. *)
Definition cells (d : t) (n : nat) : list (option Z) :=
  take n (m_bytes d ++ replicate (n - length (m_bytes d)) None).

(** The cells up to the cursor are [cs]. *)
Definition out_is (d : t) (cs : list (option Z)) : Prop :=
  m_buf d = Z.of_nat (length cs) /\ cells d (length cs) = cs.

(** Stores [l] at the cursor within the capacity that is already there. *)
Definition fills (m : ST t unit) (l : list Z) : Prop := forall d pre,
  wf d -> out_is d pre -> Z.of_nat (length pre + length l) <= m_size d ->
  exists d', m d = Ok (tt, d') /\ wf d' /\ out_is d' (pre ++ (Some <$> l)) /\ m_size d' = m_size d.

(** Appends [l], growing the buffer as needed and never shrinking it. *)
Definition emits (m : ST t unit) (l : list Z) : Prop := forall d pre,
  wf d -> out_is d pre -> Z.of_nat (length pre + length l) + 16 <= 2 ^ 60 ->
  exists d', m d = Ok (tt, d') /\ wf d' /\ out_is d' (pre ++ (Some <$> l)) /\ m_size d <= m_size d'.

Lemma out_is_nil d : m_buf d = 0 -> out_is d [].
Proof. done. Qed.

Lemma length_cells d n : length (cells d n) = n.
Proof. unfold cells. rewrite length_take, length_app, length_replicate. lia. Qed.

Lemma getBuffer_out_is d l : out_is d (Some <$> l) -> getBuffer d = Some l.
Proof.
  intros [Hb Ht]. unfold cells in Ht. rewrite length_fmap in *. unfold getBuffer.
  assert (Hlen : (length l <= length (m_bytes d))%nat).
  { destruct (decide (length l <= length (m_bytes d))%nat) as [|Hgt]; [done|].
    rewrite take_ge in Ht by (rewrite length_app, length_replicate; lia).
    assert (Hn : None ∈ Some <$> l); [|by apply list_elem_of_fmap in Hn as (? & ? & ?)].
    rewrite <- Ht. apply elem_of_app. right. apply elem_of_replicate. split; [done|lia]. }
  rewrite take_app_le in Ht by lia. rewrite Hb, Nat2Z.id, Ht.
  destruct (Z.leb_spec (Z.of_nat (length l)) (Z.of_nat (length (m_bytes d)))); [|lia].
  by apply mapM_fmap_Some.
Qed.

Lemma length_set_cell l i b : length (set_cell l i b) = Nat.max (S i) (length l).
Proof.
  unfold set_cell. rewrite length_app, length_take, length_app, length_replicate.
  simpl. rewrite length_drop. lia.
Qed.

Lemma cells_set_cell l i b :
  take (S i) (set_cell l i b) = take i (l ++ replicate (i - length l) None) ++ [Some b].
Proof.
  unfold set_cell. assert (Hlen : length (take i (l ++ replicate (i - length l) None)) = i).
  { rewrite length_take, length_app, length_replicate. lia. }
  rewrite firstn_app, Hlen, take_ge by lia.
  replace (S i - i)%nat with 1%nat by lia. done.
Qed.

Lemma fills_writeNoCheck b : fills (writeNoCheck b) [b].
Proof.
  intros d pre Hwf [Hb Ht] Hcap. destruct Hwf as [Hs Hbuf Hby Hl]. simpl in Hcap.
  unfold writeNoCheck. rewrite Hb, Nat2Z.id.
  destruct (Z.leb_spec 0 (Z.of_nat (length pre))); [|lia].
  destruct (Z.ltb_spec (Z.of_nat (length pre)) (m_size d)); [|lia]. simpl.
  eexists. split; [done|]. split; [|split; [split|done]]; simpl.
  - constructor; simpl; [done|lia| |done]. rewrite length_set_cell. lia.
  - rewrite length_app. simpl. lia.
  - rewrite length_app, Nat.add_1_r. unfold cells. cbn [m_bytes].
    rewrite take_app_le by (rewrite length_set_cell; lia). rewrite cells_set_cell.
    unfold cells in Ht. by rewrite Ht.
Qed.

Lemma fills_ret : fills (mret tt) [].
Proof. intros d pre Hwf Ho _. exists d. by rewrite app_nil_r. Qed.

Lemma fills_bind m1 m2 l1 l2 : fills m1 l1 -> fills m2 l2 -> fills (m1;; m2) (l1 ++ l2).
Proof.
  intros H1 H2 d pre Hwf Ho Hcap. rewrite length_app in Hcap.
  destruct (H1 d pre) as (d1 & E1 & Hwf1 & Ho1 & Hs1); [done..|lia|].
  destruct (H2 d1 (pre ++ (Some <$> l1))) as (d2 & E2 & Hwf2 & Ho2 & Hs2); [done..|rewrite length_app, ?length_fmap; lia|].
  exists d2. unfold mbind, ST_bind. rewrite E1, E2. rewrite fmap_app, app_assoc. split_and!; congruence || done.
Qed.

Lemma fills_cons m b l : fills m l -> fills (writeNoCheck b;; m) (b :: l).
Proof. intros. apply (fills_bind _ _ [b]); [apply fills_writeNoCheck|done]. Qed.

Lemma fills_iter {A} (f : A -> ST t unit) (enc : A -> list Z) xs :
  (forall x, fills (f x) (enc x)) -> fills (st_iter f xs) (xs ≫= enc).
Proof. intros Hf. induction xs; [apply fills_ret|]. rewrite bind_cons. by apply fills_bind. Qed.

Lemma emits_ret : emits (mret tt) [].
Proof. intros d pre Hwf Ho _. exists d. rewrite app_nil_r. split_and!; done || lia. Qed.

Lemma emits_bind m1 m2 l1 l2 : emits m1 l1 -> emits m2 l2 -> emits (m1;; m2) (l1 ++ l2).
Proof.
  intros H1 H2 d pre Hwf Ho Hcap. rewrite length_app in Hcap.
  destruct (H1 d pre) as (d1 & E1 & Hwf1 & Ho1 & Hs1); [done..|lia|].
  destruct (H2 d1 (pre ++ (Some <$> l1))) as (d2 & E2 & Hwf2 & Ho2 & Hs2); [done..|rewrite length_app, ?length_fmap; lia|].
  exists d2. unfold mbind, ST_bind. rewrite E1, E2. rewrite fmap_app, app_assoc. split_and!; done || lia.
Qed.

Lemma emits_iter {A} (f : A -> ST t unit) (enc : A -> list Z) xs :
  (forall x, emits (f x) (enc x)) -> emits (st_iter f xs) (xs ≫= enc).
Proof. intros Hf. induction xs; [apply emits_ret|]. rewrite bind_cons. by apply emits_bind. Qed.

#[export] Hint Resolve fills_writeNoCheck fills_ret fills_cons emits_ret emits_bind : geode.

Section WithAllocator.
Context `{AllocatorOk}.

(** Growing doubles the buffer and adds whole 8 KiB pages, which always makes enough room
    because the buffer never gets smaller than 8 KiB. *)
Lemma ensureCapacity_spec size d :
  wf d -> 0 <= size -> m_buf d + size <= 2 ^ 60 ->
  exists d', ensureCapacity size d = Ok (tt, d') /\ wf d' /\
    m_bytes d' = m_bytes d /\ m_buf d' = m_buf d /\ m_buf d + size <= m_size d' /\
    m_size d <= m_size d'.
Proof.
  intros [Hs Hb Hby Hl] Hsz Hmax. unfold ensureCapacity.
  rewrite (wrapU_id 64 (m_size d - m_buf d)) by (unfold in_u; lia).
  destruct (Z.ltb_spec (m_size d - m_buf d) size) as [Hlt|]; [|exists d; split_and!; done || lia].
  assert (Hpage : 0 <= size - 8192 * (size / 8192) < 8192) by zdiv.
  rewrite (wrapU_id 64) by (unfold in_u; lia).
  set (n := m_size d * 2 + 8192 * (size / 8192)). assert (Hn : m_buf d + size <= n <= 2 ^ 62 /\ m_size d <= n) by (subst n; lia).
  clearbody n.
  rewrite alloc_ok by lia.
  eexists. split; [done|]. simpl.
  assert (Ht : forall l : list (option Z), Z.of_nat (length l) <= m_size d -> take (Z.to_nat n) l = l)
    by (intros; apply take_ge; lia).
  destruct (m_highWaterMark <=? n), (m_haveBigBuffer d) eqn:Ebig; simpl;
    rewrite ?Ebig in Hl;
    (split_and!; [constructor; simpl; rewrite ?Ht, ?Ebig by done; lia|by apply Ht|done|lia|lia]).
Qed.

(** Reserving room and filling it appends. *)
Lemma emits_reserve n m l :
  fills m l -> Z.of_nat (length l) <= n <= Z.of_nat (length l) + 16 ->
  emits (ensureCapacity n;; m) l.
Proof.
  intros Hm Hn d pre Hwf Ho Hmax. pose proof Ho as [Hb _].
  destruct (ensureCapacity_spec n d Hwf) as (d1 & E & Hwf1 & Hby & Hbuf & Hcap & Hs1); [lia..|].
  destruct (Hm d1 pre) as (d2 & E2 & Hwf2 & Ho2 & Hs2);
    [done|unfold out_is, cells in *; by rewrite Hby, Hbuf|lia|].
  exists d2. unfold mbind, ST_bind. rewrite E, E2. split_and!; done || lia.
Qed.

Lemma emits_write b : emits (write b) [b].
Proof. apply emits_reserve; [apply fills_writeNoCheck|simpl; lia]. Qed.

Lemma emits_write_int8 z : emits (write_int8 z) [u8 z].
Proof. apply emits_write. Qed.

Lemma emits_writeBoolean b : emits (writeBoolean b) [if b then 1 else 0].
Proof. apply emits_write. Qed.

Lemma emits_writeInt_uint16 v : emits (writeInt_uint16 v) (be_bytes 2 v).
Proof.
  apply emits_reserve; [|simpl; lia].
  change (be_bytes 2 v) with [u8 (Z.shiftr v 8); u8 v]. auto 10 with geode.
Qed.

Lemma emits_writeChar v : emits (writeChar v) (be_bytes 2 v).
Proof. apply emits_writeInt_uint16. Qed.

Lemma emits_writeInt_uint32 v : emits (writeInt_uint32 v) (be_bytes 4 v).
Proof.
  apply emits_reserve; [|simpl; lia].
  change (be_bytes 4 v) with
    [u8 (Z.shiftr v 24); u8 (Z.shiftr v 16); u8 (Z.shiftr v 8); u8 v]. auto 10 with geode.
Qed.

Lemma emits_writeInt_uint64 v : emits (writeInt_uint64 v) (be_bytes 8 v).
Proof.
  apply emits_reserve; [|simpl; lia].
  change (be_bytes 8 v) with
    [u8 (Z.shiftr v 56); u8 (Z.shiftr v 48); u8 (Z.shiftr v 40); u8 (Z.shiftr v 32);
     u8 (Z.shiftr v 24); u8 (Z.shiftr v 16); u8 (Z.shiftr v 8); u8 v]. auto 10 with geode.
Qed.

Lemma emits_writeInt_int16 v : emits (writeInt_int16 v) (be_bytes 2 (u16 v)).
Proof. apply emits_writeInt_uint16. Qed.
Lemma emits_writeInt_int32 v : emits (writeInt_int32 v) (be_bytes 4 (u32 v)).
Proof. apply emits_writeInt_uint32. Qed.
Lemma emits_writeInt_int64 v : emits (writeInt_int64 v) (be_bytes 8 (u64 v)).
Proof. apply emits_writeInt_uint64. Qed.

(** *** Array lengths and byte arrays *)

Definition enc_arrayLen (len : Z) : list Z :=
  if len =? -1 then [255]
  else if len <=? 252 then [u8 len]
  else if len <=? 0xFFFF then 254 :: be_bytes 2 (u16 len)
  else 253 :: be_bytes 4 (u32 len).

Lemma emits_writeArrayLen len : emits (writeArrayLen len) (enc_arrayLen len).
Proof.
  unfold writeArrayLen, enc_arrayLen. repeat case_match.
  - apply emits_write_int8.
  - apply emits_write.
  - apply (emits_bind _ _ [254]); [apply emits_write_int8|apply emits_writeInt_uint16].
  - apply (emits_bind _ _ [253]); [apply emits_write_int8|apply emits_writeInt_int32].
Qed.

Lemma enc_arrayLen_length len : (1 <= length (enc_arrayLen len) <= 5)%nat.
Proof. unfold enc_arrayLen. repeat case_match; simpl; lia. Qed.

Lemma bind_each (l : list Z) : (l ≫= fun b => [b]) = l.
Proof. induction l as [|b l IH]; [done|]. rewrite bind_cons, IH. done. Qed.

Lemma fills_memcpy bs : fills (memcpy bs (Z.of_nat (length bs))) bs.
Proof.
  unfold memcpy. rewrite Z.leb_refl, Nat2Z.id, take_ge by lia.
  rewrite <- (bind_each bs) at 2. apply fills_iter. auto with geode.
Qed.

(** Reserving more than is written is harmless. *)
Lemma emits_ensureCapacity_first n m l :
  emits m l -> 0 <= n <= Z.of_nat (length l) + 16 -> emits (ensureCapacity n;; m) l.
Proof.
  intros Hm Hn d pre Hwf Ho Hmax. pose proof Ho as [Hb _].
  destruct (ensureCapacity_spec n d Hwf) as (d1 & E & Hwf1 & Hby & Hbuf & _ & Hs1); [lia..|].
  destruct (Hm d1 pre) as (d2 & E2 & ? & ? & ?); [done|unfold out_is, cells in *; by rewrite Hby, Hbuf|done|].
  exists d2. unfold mbind, ST_bind. rewrite E, E2. split_and!; done || lia.
Qed.

(** The bytes were reserved up front, so the copy has its room. *)
Lemma emits_writeBytes bs :
  Z.of_nat (length bs) <= 2 ^ 31 - 6 ->
  emits (writeBytes (Some bs) (Z.of_nat (length bs)))
        (enc_arrayLen (Z.of_nat (length bs)) ++ bs).
Proof.
  intros Hlen d pre Hwf Ho Hmax. pose proof Ho as [Hb _].
  rewrite length_app in Hmax. pose proof (enc_arrayLen_length (Z.of_nat (length bs))).
  unfold writeBytes. destruct (Z.leb_spec 0 (Z.of_nat (length bs))); [|lia].
  rewrite wrapS_id by (unfold in_s; simpl; lia). rewrite wrapU_id by (unfold in_u; lia).
  destruct (ensureCapacity_spec (Z.of_nat (length bs) + 5) d Hwf)
    as (d1 & E & Hwf1 & Hby & Hbuf & Hcap & Hs1); [lia..|].
  destruct (emits_writeArrayLen (Z.of_nat (length bs)) d1 pre) as (d2 & E2 & Hwf2 & Ho2 & Hs2);
    [done|unfold out_is, cells in *; by rewrite Hby, Hbuf|lia|].
  unfold mbind, ST_bind. rewrite E, E2.
  destruct (Z.ltb_spec 0 (Z.of_nat (length bs))) as [Hpos|Hz].
  - destruct (fills_memcpy bs d2 (pre ++ (Some <$> enc_arrayLen (Z.of_nat (length bs)))))
      as (d3 & E3 & Hwf3 & Ho3 & Hs3); [done..|rewrite !length_app, length_fmap; lia|].
    exists d3. rewrite E3, fmap_app, app_assoc. split_and!; done || lia.
  - assert (bs = []) as -> by (destruct bs; simpl in *; [done|lia]).
    exists d2. rewrite app_nil_r. split_and!; done || lia.
Qed.

Lemma emits_writeBytesOnly bs :
  emits (writeBytesOnly bs (Z.of_nat (length bs))) bs.
Proof. apply emits_reserve; [apply fills_memcpy|lia]. Qed.

(** *** Strings *)

Definition enc_ascii (s : list Z) : list Z :=
  be_bytes 2 (Z.of_nat (length s)) ++ ((fun c => Z.land c 0x7F) <$> s).
Definition enc_asciiHuge (s : list Z) : list Z :=
  be_bytes 4 (Z.of_nat (length s)) ++ ((fun c => Z.land c 0x7F) <$> s).
Definition enc_jmutf8 (s : list Z) : list Z :=
  be_bytes 2 (JavaModifiedUtf8.encodedLength s) ++ JavaModifiedUtf8.fromString s.
Definition enc_utf16 (s : list Z) : list Z := s ≫= be_bytes 2.
Definition enc_utf16Huge (s : list Z) : list Z :=
  be_bytes 4 (Z.of_nat (length s)) ++ enc_utf16 s.

Lemma land_127_u8 c : u8 (s8 (Z.land c 0x7F)) = Z.land c 0x7F.
Proof.
  rewrite wrapU_wrapS. apply wrapU_id. rewrite JavaModifiedUtf8.land_127.
  pose proof (Z.mod_pos_bound c 128). unfold in_u. change (2 ^ 8) with 256. lia.
Qed.

Lemma bind_singleton_fmap (f : Z -> Z) l : (l ≫= fun c => [f c]) = f <$> l.
Proof. induction l as [|b l IH]; [done|]. rewrite bind_cons, IH. done. Qed.

Lemma emits_ascii_chars s :
  emits (st_iter (fun c => write_int8 (s8 (Z.land c 0x7F))) s) ((fun c => Z.land c 0x7F) <$> s).
Proof.
  rewrite <- bind_singleton_fmap. apply emits_iter. intros c.
  rewrite <- (land_127_u8 c) at 2. apply emits_write_int8.
Qed.

Lemma emits_writeAscii s : Z.of_nat (length s) <= 0xFFFF -> emits (writeAscii s) (enc_ascii s).
Proof.
  intros Hlen. unfold writeAscii, enc_ascii. rewrite Z.min_l by lia.
  rewrite (wrapU_id 16) by (unfold in_u; lia). rewrite Nat2Z.id, take_ge by lia.
  apply emits_bind; [apply emits_writeInt_uint16|apply emits_ascii_chars].
Qed.

Lemma emits_writeAsciiHuge s :
  Z.of_nat (length s) < 2 ^ 32 -> emits (writeAsciiHuge s) (enc_asciiHuge s).
Proof.
  intros Hlen. unfold writeAsciiHuge, enc_asciiHuge. rewrite Z.min_l by lia.
  rewrite !(wrapU_id 32) by (unfold in_u; lia). rewrite Nat2Z.id, take_ge by lia.
  apply emits_bind; [apply emits_writeInt_uint32|apply emits_ascii_chars].
Qed.

Lemma fills_be_bytes2 c :
  fills (writeNoCheck (u8 (Z.shiftr c 8));; writeNoCheck (u8 c)) (be_bytes 2 c).
Proof. change (be_bytes 2 c) with [u8 (Z.shiftr c 8); u8 c]. auto with geode. Qed.

Lemma length_enc_utf16 s : length (enc_utf16 s) = (2 * length s)%nat.
Proof.
  unfold enc_utf16. induction s as [|c s IH]; [done|].
  rewrite bind_cons, length_app, IH, length_be_bytes. simpl. lia.
Qed.

Lemma emits_writeUtf16 s : emits (writeUtf16 s) (enc_utf16 s).
Proof.
  apply emits_reserve; [apply fills_iter; intros; apply fills_be_bytes2|].
  rewrite length_enc_utf16. lia.
Qed.

Lemma emits_writeUtf16Huge s :
  Z.of_nat (length s) < 2 ^ 32 -> emits (writeUtf16Huge s) (enc_utf16Huge s).
Proof.
  intros Hlen. unfold writeUtf16Huge, enc_utf16Huge. rewrite Z.min_l by lia.
  rewrite (wrapU_id 32) by (unfold in_u; lia).
  apply emits_bind; [apply emits_writeInt_uint32|apply emits_writeUtf16].
Qed.

Lemma fills_encodeJavaModifiedUtf8 c :
  fills (encodeJavaModifiedUtf8 c) (JavaModifiedUtf8.enc_char c).
Proof.
  unfold encodeJavaModifiedUtf8, JavaModifiedUtf8.enc_char, JavaModifiedUtf8.encode.
  repeat case_match; simpl; auto with geode.
Qed.

Lemma fills_encodeWhile s : forall d pre end_,
  wf d -> out_is d pre ->
  end_ = Z.of_nat (length pre + length (s ≫= JavaModifiedUtf8.enc_char)) -> end_ <= m_size d ->
  exists d', encodeWhile s end_ d = Ok (tt, d') /\ wf d' /\
    out_is d' (pre ++ (Some <$> (s ≫= JavaModifiedUtf8.enc_char))) /\ m_size d' = m_size d.
Proof.
  induction s as [|c s IH]; intros d pre end_ Hwf Ho -> Hcap; pose proof Ho as [Hb _].
  - exists d. change ([] ≫= JavaModifiedUtf8.enc_char) with (@nil Z).
    cbn [encodeWhile length]. rewrite fmap_nil, app_nil_r, Nat.add_0_r, <- Hb, Z.ltb_irrefl. done.
  - rewrite bind_cons, length_app in *. pose proof (JavaModifiedUtf8.enc_char_length c).
    cbn [encodeWhile]. rewrite Hb.
    match goal with |- context [?a <? ?b] => destruct (Z.ltb_spec a b); [|lia] end.
    destruct (fills_encodeJavaModifiedUtf8 c d pre) as (d1 & E1 & Hwf1 & Ho1 & Hs1); [done..|lia|].
    destruct (IH d1 (pre ++ (Some <$> JavaModifiedUtf8.enc_char c))
      (Z.of_nat (length (pre ++ (Some <$> JavaModifiedUtf8.enc_char c)) + length (s ≫= JavaModifiedUtf8.enc_char))))
      as (d2 & E2 & Hwf2 & Ho2 & Hs2); [done..|rewrite length_app, ?length_fmap; lia|].
    exists d2. unfold mbind at 1, ST_bind. rewrite E1.
    rewrite length_app, length_fmap, <- Nat.add_assoc in E2. rewrite E2.
    rewrite <- app_assoc, <- fmap_app in Ho2. split_and!; done || congruence.
Qed.

Lemma emits_writeJavaModifiedUtf8 s :
  JavaModifiedUtf8.encodedLength s <= 0xFFFF -> emits (writeJavaModifiedUtf8 s) (enc_jmutf8 s).
Proof.
  intros Hlen. pose proof (JavaModifiedUtf8.encodedLength_fromString s) as Hel.
  unfold writeJavaModifiedUtf8, enc_jmutf8.
  destruct (Nat.eqb_spec (length s) 0) as [Hz|Hnz].
  { assert (s = []) as -> by (by destruct s). apply emits_writeInt_uint16. }
  unfold getJavaModifiedUtf8EncodedLength. rewrite Z.min_l by lia.
  rewrite (wrapU_id 16) by (unfold in_u; lia).
  apply emits_bind; [apply emits_writeInt_uint16|].
  rewrite Hel in *. rewrite JavaModifiedUtf8.fromString_bind in *.
  set (n := length (s ≫= JavaModifiedUtf8.enc_char)) in *.
  intros d pre Hwf Ho Hmax. pose proof Ho as [Hb _].
  destruct (ensureCapacity_spec (Z.of_nat n) d Hwf) as (d1 & E & Hwf1 & Hby & Hbuf & Hcap & Hs1); [lia..|].
  destruct (fills_encodeWhile s d1 pre (m_buf d1 + Z.of_nat n)) as (d2 & E2 & Hwf2 & Ho2 & Hs2);
    [done|unfold out_is, cells in *; by rewrite Hby, Hbuf|lia|lia|].
  exists d2. unfold mbind, ST_bind, st_get. rewrite E, E2. unfold st_modify.
  pose proof Ho2 as [Hb2 _]. rewrite length_app, length_fmap in Hb2. fold n in Hb2.
  destruct (Z.ltb_spec (m_buf d1 + Z.of_nat n) (m_buf d2)); [lia|]. split_and!; done || lia.
Qed.

(** [writeString] counts the modified UTF-8 length it is about to need exactly. *)
Lemma utfLength_acc s a :
  Forall (fun c => 0 <= c) s ->
  foldl (fun utfLen c =>
           if (c <=? 0x007F) && (0x0001 <=? c) then utfLen
           else if 0x07FF <? c then utfLen + 2
           else utfLen + 1) a s + Z.of_nat (length s)
  = a + Z.of_nat (length (s ≫= JavaModifiedUtf8.enc_char)).
Proof.
  intros Hs. revert a. induction Hs as [|c s Hc Hs IH]; intros a; [done|].
  rewrite bind_cons, length_app. cbn [foldl length].
  specialize (IH (if (c <=? 0x007F) && (0x0001 <=? c) then a
                  else if 0x07FF <? c then a + 2 else a + 1)).
  rewrite Nat2Z.inj_succ, <- Z.add_succ_comm in *. revert IH.
  generalize (length (s ≫= JavaModifiedUtf8.enc_char)); intros n IH.
  unfold JavaModifiedUtf8.enc_char, JavaModifiedUtf8.encode.
  rewrite Z.add_succ_comm, Z.add_succ_r, IH.
  destruct (Z.leb_spec c 127), (Z.leb_spec 1 c), (Z.ltb_spec 2047 c), (Z.eqb_spec c 0),
    (Z.ltb_spec c 128), (Z.ltb_spec c 2048); simpl; lia.
Qed.

Lemma utfLength_encodedLength s :
  JavaModifiedUtf8.u16string_ok s -> utfLength s = JavaModifiedUtf8.encodedLength s.
Proof.
  intros Hs. rewrite JavaModifiedUtf8.encodedLength_fromString, JavaModifiedUtf8.fromString_bind.
  pose proof (utfLength_acc s (Z.of_nat (length s))) as E. unfold utfLength.
  rewrite <- (Z.add_cancel_r _ _ (Z.of_nat (length s))), E; [lia|].
  eapply Forall_impl; [|exact Hs]. intros c Hc. unfold in_u in Hc. lia.
Qed.

Definition enc_string (s : list Z) : list Z :=
  let utfLen := JavaModifiedUtf8.encodedLength s in
  if Z.of_nat (length s) <? utfLen then
    if 0xFFFF <? utfLen then CacheableStringHuge :: enc_utf16Huge s
    else CacheableString :: enc_jmutf8 s
  else if 0xFFFF <? Z.of_nat (length s) then CacheableASCIIStringHuge :: enc_asciiHuge s
  else CacheableASCIIString :: enc_ascii s.

Lemma emits_writeString s :
  JavaModifiedUtf8.u16string_ok s -> Z.of_nat (length s) < 2 ^ 32 ->
  emits (writeString s) (enc_string s).
Proof.
  intros Hs Hlen. unfold writeString, writeString_with, enc_string.
  rewrite utfLength_encodedLength by done.
  destruct (Z.ltb_spec (Z.of_nat (length s)) (JavaModifiedUtf8.encodedLength s)).
  - destruct (Z.ltb_spec 0xFFFF (JavaModifiedUtf8.encodedLength s)).
    + apply (emits_bind _ _ [_]); [apply emits_write|by apply emits_writeUtf16Huge].
    + apply (emits_bind _ _ [_]); [apply emits_write|by apply emits_writeJavaModifiedUtf8].
  - destruct (Z.ltb_spec 0xFFFF (Z.of_nat (length s))).
    + apply (emits_bind _ _ [_]); [apply emits_write|by apply emits_writeAsciiHuge].
    + apply (emits_bind _ _ [_]); [apply emits_write|by apply emits_writeAscii].
Qed.

End WithAllocator.

#[export] Hint Resolve emits_write emits_write_int8 emits_writeBoolean emits_writeInt_uint16
  emits_writeChar emits_writeInt_uint32 emits_writeInt_uint64 emits_writeInt_int16
  emits_writeInt_int32 emits_writeInt_int64 emits_writeArrayLen emits_writeBytes
  emits_writeBytesOnly emits_writeString : geode.

(** An allocator that always succeeds, for concrete runs. *)
Definition always_alloc : Allocator := fun _ => true.
Lemma always_alloc_ok : @AllocatorOk always_alloc.
Proof. by intros n _. Qed.
