(* ===== verification/DataInput.v ===== *)
(** The input buffer (src/cppcache/include/geode/DataInput.hpp and
    src/cppcache/src/DataInput.cpp): a read cursor over a byte array and the primitive
    decoders.

    [buffer] is the memory from [bufferHead_] on, byte by byte; [pos] is the cursor
    [buffer_ - bufferHead_]; [bufferLength] is [bufferLength_]. A load outside [buffer]
    is [UndefinedBehaviour]; [_checkBufferSize] throws [OutOfRangeException]. Signed left
    shifts wrap, as on every supported compiler. *)
From S2P Require Import Prelude JavaModifiedUtf8 DataOutput.

Module DataInput.

Record t := mk { buffer : list Z; pos : Z; bufferLength : Z }.

Definition construct (buf : list Z) (len : Z) : t := mk buf 0 len.

Definition _checkBufferSize (size : Z) : ST t unit := fun d =>
  if u64 (bufferLength d - pos d) <? size then Throw OutOfRangeException else Ok (tt, d).

(** [*(buffer_++)]. *)
Definition loadByte : ST t Z := fun d =>
  if pos d <? 0 then Throw UndefinedBehaviour
  else match buffer d !! Z.to_nat (pos d) with
       | Some b => Ok (b, mk (buffer d) (pos d + 1) (bufferLength d))
       | None => Throw UndefinedBehaviour
       end.

Definition readNoCheck : ST t Z := b ← loadByte; mret (s8 b).
Definition read : ST t Z := _checkBufferSize 1;; readNoCheck.
Definition readBoolean : ST t bool := _checkBufferSize 1;; b ← loadByte; mret (b =? 1).

(** [std::memcpy(buffer, buffer_, len); buffer_ += len]. *)
Definition memcpy (len : Z) : ST t (list Z) := st_repeat (Z.to_nat len) loadByte.

Definition readBytesOnly (len : Z) : ST t (list Z) :=
  if 0 <? len then _checkBufferSize len;; memcpy len else mret [].

Definition readInt16NoCheck : ST t Z :=
  tmp ← loadByte;
  b ← loadByte;
  mret (s16 (Z.lor (Z.shiftl tmp 8) b)).

Definition readInt16 : ST t Z := _checkBufferSize 2;; readInt16NoCheck.

(** [tmp = (tmp << 8) | *(buffer_++)], [n] times, in a [w]-bit signed variable. *)
Fixpoint shiftIn (w : Z) (n : nat) (tmp : Z) : ST t Z :=
  match n with
  | O => mret tmp
  | S n' => b ← loadByte; shiftIn w n' (wrapS w (Z.lor (Z.shiftl tmp 8) b))
  end.

Definition readInt32 : ST t Z := _checkBufferSize 4;; tmp ← loadByte; shiftIn 32 3 tmp.
Definition readInt64 : ST t Z := _checkBufferSize 8;; tmp ← loadByte; shiftIn 64 7 tmp.

Definition readArrayLength : ST t Z :=
  r ← read;
  let code := u8 r in
  if code =? 0xFF then mret (-1)
  else
    let result := code in
    if 252 <? result then
      if code =? 0xFE then val ← readInt16; mret (u16 val)
      else if code =? 0xFD then val ← readInt32; mret (s32 (u32 val))
      else st_throw IllegalStateException
    else mret result.

(** The bytes ([None] for the null pointer) and the length. *)
Definition readBytes : ST t (option (list Z) * Z) :=
  length ← readArrayLength;
  if 0 <? length then
    _checkBufferSize length;; bs ← memcpy length; mret (Some bs, length)
  else mret (None, length).

(** [while (shift < 64)]: ten iterations at most. *)
Fixpoint readUnsignedVL_loop (fuel : nat) (shift result : Z) : ST t Z :=
  if shift <? 64 then
    match fuel with
    | O => st_throw Diverges
    | S fuel' =>
      b ← read;
      let result := Z.lor result (s64 (Z.shiftl (Z.land b 0x7F) shift)) in
      if Z.land b 0x80 =? 0 then mret result
      else readUnsignedVL_loop fuel' (shift + 7) result
    end
  else st_throw IllegalStateException.

Definition readUnsignedVL : ST t Z := readUnsignedVL_loop 10 0 0.

(** Bit patterns. *)
Definition readFloat : ST t Z := _checkBufferSize 4;; v ← readInt32; mret (u32 v).
Definition readDouble : ST t Z := _checkBufferSize 8;; v ← readInt64; mret (u64 v).

Definition readNativeBool : ST t bool := read;; readBoolean.
Definition readNativeInt32 : ST t Z := read;; readInt32.

(** *** Cursor *)

Definition getBytesRead (d : t) : Z := pos d.
Definition getBytesRemaining (d : t) : Z := u64 (bufferLength d - getBytesRead d).
Definition advanceCursor (offset : Z) : ST t unit :=
  st_modify (fun d => mk (buffer d) (pos d + offset) (bufferLength d)).
Definition rewindCursor (offset : Z) : ST t unit :=
  st_modify (fun d => mk (buffer d) (pos d - offset) (bufferLength d)).
Definition reset : ST t unit := st_modify (fun d => mk (buffer d) 0 (bufferLength d)).
Definition resetPdx (offset : Z) : ST t unit :=
  st_modify (fun d => mk (buffer d) offset (bufferLength d)).
Definition setBuffer : ST t unit :=
  st_modify (fun d => mk (buffer d) (pos d) (getBytesRemaining d)).

(** *** Strings of UTF-16 code units *)

Definition readAscii_len (length : Z) : ST t (list Z) :=
  _checkBufferSize length;;
  st_repeat (Z.to_nat length) (b ← readNoCheck; mret (Z.land b 0x7F)).

Definition readAscii : ST t (list Z) := n ← readInt16; readAscii_len (u16 n).
Definition readAsciiHuge : ST t (list Z) := n ← readInt32; readAscii_len (u32 n).

Definition readJavaModifiedUtf8 : ST t (list Z) :=
  n ← readInt16;
  let length := u16 n in
  _checkBufferSize length;;
  d ← st_get;
  value ← st_lift (JavaModifiedUtf8.decode (drop (Z.to_nat (pos d)) (buffer d)) length);
  advanceCursor length;;
  mret value.

(** The guard asks for [length] bytes; the loop loads two per code unit. *)
Definition readUtf16Huge : ST t (list Z) :=
  n ← readInt32;
  let length := u32 n in
  _checkBufferSize length;;
  st_repeat (Z.to_nat length) (c ← readInt16NoCheck; mret (u16 c)).

Definition readUTF : ST t (list Z) := readJavaModifiedUtf8.

(** Any other type code, the null string included, reads as the empty string. *)
Definition readString : ST t (list Z) :=
  type ← read;
  if type =? DataOutput.CacheableString then readJavaModifiedUtf8
  else if type =? DataOutput.CacheableStringHuge then readUtf16Huge
  else if type =? DataOutput.CacheableASCIIString then readAscii
  else if type =? DataOutput.CacheableASCIIStringHuge then readAsciiHuge
  else mret [].

(** For [char] strings: [to_utf8] is the standard library's UTF-16 conversion. *)
Section Utf8.
Context (to_utf8 : list Z -> outcome (list Z)).

Definition readJavaModifiedUtf8_string : ST t (list Z) :=
  utf16 ← readJavaModifiedUtf8; st_lift (to_utf8 utf16).

Definition readUtf16Huge_string : ST t (list Z) :=
  utf16 ← readUtf16Huge; st_lift (to_utf8 utf16).

Definition readString_string : ST t (list Z) :=
  type ← read;
  if type =? DataOutput.CacheableString then readJavaModifiedUtf8_string
  else if type =? DataOutput.CacheableStringHuge then readUtf16Huge_string
  else if type =? DataOutput.CacheableASCIIString then readAscii
  else if type =? DataOutput.CacheableASCIIStringHuge then readAsciiHuge
  else mret [].

Definition readStringArray : ST t (list (list Z)) :=
  arrLen ← readArrayLength;
  if 0 <? arrLen then st_repeat (Z.to_nat arrLen) readString_string else mret [].
End Utf8.

(** *** Arrays *)

(** [readArray<T>()] over the element reader [readObject(T* )]. *)
Definition readArray {T} (readObject : ST t T) : ST t (list T) :=
  arrayLen ← readArrayLength;
  if 0 <=? arrayLen then st_repeat (Z.to_nat arrayLen) readObject else mret [].

Definition readCharArray : ST t (list Z) := readArray (c ← readInt16; mret (u16 c)).
Definition readBooleanArray : ST t (list bool) := readArray readBoolean.
Definition readByteArray : ST t (list Z) := readArray read.
Definition readShortArray : ST t (list Z) := readArray readInt16.
Definition readIntArray : ST t (list Z) := readArray readInt32.
Definition readLongArray : ST t (list Z) := readArray readInt64.
Definition readFloatArray : ST t (list Z) := readArray readFloat.
Definition readDoubleArray : ST t (list Z) := readArray readDouble.

(** [None] for the null array; the elements with their lengths otherwise. [_GEODE_NEW]
    turns the [std::bad_alloc] of a negative array size into [OutOfMemoryException]. *)
Definition readArrayOfByteArrays : ST t (option (list (option (list Z) * Z))) :=
  arrLen ← readArrayLength;
  if arrLen =? -1 then mret None
  else if arrLen <? 0 then st_throw OutOfMemoryException
  else xs ← st_repeat (Z.to_nat arrLen) readBytes; mret (Some xs).

End DataInput.
