(* ===== verification/DataInputFacts.v ===== *)
(** What the input buffer promises: each decoder consumes exactly the reference encoding
    of a value and returns that value ([reads]); no checked decoder loads outside the
    buffer, whatever bytes it is given ([safe]); and each encoder of the output buffer is
    undone by its decoder. *)
From S2P Require Import Prelude JavaModifiedUtf8 DataOutput DataOutputFacts DataInput.
Import DataInput.

(** The input with [pre] already read and [rest] remaining. *)
Definition at_ (pre rest : list Z) : t :=
  mk (pre ++ rest) (Z.of_nat (length pre)) (Z.of_nat (length (pre ++ rest))).

(** Consumes [l] and returns [a]. *)
Definition reads {A} (m : ST t A) (l : list Z) (a : A) : Prop := forall pre rest,
  Z.of_nat (length (pre ++ l ++ rest)) < 2 ^ 62 ->
  m (at_ pre (l ++ rest)) = Ok (a, at_ (pre ++ l) rest).

Lemma at_app pre l rest : at_ (pre ++ l) rest =
  mk (pre ++ l ++ rest) (Z.of_nat (length (pre ++ l))) (Z.of_nat (length (pre ++ l ++ rest))).
Proof. unfold at_. by rewrite <- app_assoc. Qed.

Lemma reads_ret {A} (a : A) : reads (mret a) [] a.
Proof. intros pre rest _. by rewrite app_nil_r. Qed.

Lemma reads_bind {A B} (m : ST t A) (f : A -> ST t B) l1 l2 a b :
  reads m l1 a -> reads (f a) l2 b -> reads (m ≫= f) (l1 ++ l2) b.
Proof.
  intros H1 H2 pre rest Hlen. unfold mbind, ST_bind.
  rewrite <- app_assoc in Hlen |- *. rewrite H1 by done.
  rewrite H2; [by rewrite <- app_assoc|]. by rewrite <- app_assoc.
Qed.

(** A first step that consumes nothing. *)
Lemma reads_bind0 {A B} (m : ST t A) (f : A -> ST t B) l a b :
  reads m [] a -> reads (f a) l b -> reads (m ≫= f) l b.
Proof. apply (reads_bind m f [] l). Qed.

(** A last step that consumes nothing. *)
Lemma reads_map {A B} (m : ST t A) (f : A -> B) l a :
  reads m l a -> reads (x ← m; mret (f x)) l (f a).
Proof.
  intros Hm. rewrite <- (app_nil_r l). eapply reads_bind; [exact Hm|apply reads_ret].
Qed.

Lemma reads_check {A} (m : ST t A) n l a :
  0 <= n <= Z.of_nat (length l) -> reads m l a -> reads (_checkBufferSize n;; m) l a.
Proof.
  intros Hn Hm pre rest Hlen. unfold mbind, ST_bind, _checkBufferSize. simpl.
  rewrite <- (Hm pre rest Hlen). rewrite wrapU_id.
  - rewrite !length_app in *.
    match goal with |- context [?a <? ?b] => destruct (Z.ltb_spec a b); [lia|done] end.
  - unfold in_u. rewrite !length_app in *. lia.
Qed.

Lemma reads_loadByte b : reads loadByte [b] b.
Proof.
  intros pre rest _. unfold loadByte, at_. simpl.
  destruct (Z.ltb_spec (Z.of_nat (length pre)) 0); [lia|].
  rewrite Nat2Z.id, list_lookup_middle by done.
  rewrite <- app_assoc, !length_app. simpl. do 3 f_equal. lia.
Qed.

Lemma reads_loadByte_bind {A} (f : Z -> ST t A) b l a :
  reads (f b) l a -> reads (b ← loadByte; f b) (b :: l) a.
Proof. apply (reads_bind _ _ [b]), reads_loadByte. Qed.

Lemma reads_repeat {A} (m : ST t A) (enc : A -> list Z) xs n :
  n = length xs -> Forall (fun x => reads m (enc x) x) xs ->
  reads (st_repeat n m) (xs ≫= enc) xs.
Proof.
  intros -> Hxs. induction Hxs as [|x xs Hx Hxs IH]; [apply reads_ret|].
  rewrite bind_cons. simpl. eapply reads_bind; [exact Hx|].
  by apply (reads_map _ (cons x)).
Qed.

Lemma reads_memcpy bs : reads (memcpy (Z.of_nat (length bs))) bs bs.
Proof.
  unfold memcpy. rewrite Nat2Z.id. rewrite <- (bind_each bs) at 2.
  apply reads_repeat; [done|]. apply Forall_true. intros. apply reads_loadByte.
Qed.

(** *** Integers *)

Lemma lor_shiftl_8 a b : in_u 8 b -> Z.lor (Z.shiftl a 8) b = a * 256 + b.
Proof. intros. by rewrite lor_shiftl_add. Qed.

Lemma wrapS_step w a b : wrapS w (wrapS w a * 256 + b) = wrapS w (a * 256 + b).
Proof.
  apply wrapS_mod_eq. rewrite <- (Zplus_mod_idemp_l (wrapS w a * 256)), <- (Zplus_mod_idemp_l (a * 256)).
  rewrite <- (Zmult_mod_idemp_l (wrapS w a)), <- (Zmult_mod_idemp_l a).
  fold (wrapU w (wrapS w a)) (wrapU w a). by rewrite wrapU_wrapS.
Qed.

Lemma reads_shiftIn w l : forall tmp,
  bytes_ok l -> (l <> []) ->
  reads (shiftIn w (length l) tmp) l (wrapS w (tmp * 2 ^ (8 * Z.of_nat (length l)) + be_val l)).
Proof.
  induction l as [|b l IH]; intros tmp Hok Hne; [done|]. apply Forall_cons_1 in Hok as [Hb Hok].
  cbn [shiftIn length]. apply reads_loadByte_bind. rewrite lor_shiftl_8 by done.
  destruct (decide (l = [])) as [->|Hl].
  - replace (tmp * _ + _) with (tmp * 256 + b) by (unfold be_val; simpl; lia). apply reads_ret.
  - specialize (IH (wrapS w (tmp * 256 + b)) Hok Hl).
    replace (wrapS w (tmp * 2 ^ (8 * Z.of_nat (S (length l))) + be_val (b :: l)))
      with (wrapS w (wrapS w (tmp * 256 + b) * 2 ^ (8 * Z.of_nat (length l)) + be_val l)); [done|].
    rewrite be_val_cons. replace (8 * Z.of_nat (S (length l))) with (8 + 8 * Z.of_nat (length l)) by lia.
    rewrite Z.pow_add_r by lia. change (2 ^ 8) with 256.
    replace (tmp * (256 * 2 ^ (8 * Z.of_nat (length l))) + (b * 2 ^ (8 * Z.of_nat (length l)) + be_val l))
      with ((tmp * 256 + b) * 2 ^ (8 * Z.of_nat (length l)) + be_val l) by ring.
    apply wrapS_mod_eq.
    rewrite <- (Zplus_mod_idemp_l (wrapS _ _ * _)), <- (Zplus_mod_idemp_l (_ * 2 ^ (8 * Z.of_nat (length l)))).
    rewrite <- (Zmult_mod_idemp_l (wrapS _ _)), <- (Zmult_mod_idemp_l (tmp * 256 + b)).
    fold (wrapU w (wrapS w (tmp * 256 + b))) (wrapU w (tmp * 256 + b)). by rewrite wrapU_wrapS.
Qed.

(** The first byte goes in unshifted, the others are shifted in. *)
Lemma reads_be w n v :
  (1 <= n)%nat ->
  reads (_checkBufferSize (Z.of_nat (S n));; tmp ← loadByte; shiftIn w n tmp)
    (be_bytes (S n) v) (wrapS w (v mod 2 ^ (8 * Z.of_nat (S n)))).
Proof.
  intros Hn. apply reads_check; [rewrite length_be_bytes; lia|].
  cbn [be_bytes]. apply reads_loadByte_bind.
  pose proof (be_val_be_bytes (S n) v) as E. cbn [be_bytes] in E.
  rewrite be_val_cons, length_be_bytes in E. rewrite <- E.
  pose proof (reads_shiftIn w (be_bytes n v) (u8 (v ≫ (8 * Z.of_nat n)))) as R.
  rewrite length_be_bytes in R. apply R; [apply be_bytes_ok|].
  destruct n; [lia|done].
Qed.

Lemma reads_read b : reads read [b] (s8 b).
Proof. apply reads_check; [simpl; lia|]. apply (reads_map _ s8), reads_loadByte. Qed.

Lemma reads_readBoolean b : reads readBoolean [if b : bool then 1 else 0] b.
Proof.
  apply reads_check; [simpl; lia|].
  replace b with ((if b then 1 else 0) =? 1) at 2 by (by destruct b).
  apply (reads_map _ (fun x => x =? 1)), reads_loadByte.
Qed.

Lemma reads_readInt16NoCheck v : reads readInt16NoCheck (be_bytes 2 v) (s16 v).
Proof.
  change (be_bytes 2 v) with [u8 (v ≫ 8); u8 v]. apply reads_loadByte_bind, reads_loadByte_bind.
  rewrite lor_shiftl_8 by (by apply wrapU_range).
  replace (s16 v) with (s16 (u8 (v ≫ 8) * 256 + u8 v)); [apply reads_ret|].
  apply wrapS_mod_eq. rewrite Z.shiftr_div_pow2 by lia. unfold wrapU.
  change (2 ^ 8) with 256. change (2 ^ 16) with 65536. zdiv.
Qed.

Lemma reads_readInt16 v : reads readInt16 (be_bytes 2 v) (s16 v).
Proof. apply reads_check; [simpl; lia|apply reads_readInt16NoCheck]. Qed.

Lemma wrapS_mod w v : wrapS w (v mod 2 ^ w) = wrapS w v.
Proof. apply wrapS_wrapU. Qed.

Lemma reads_readInt32 v : reads readInt32 (be_bytes 4 v) (s32 v).
Proof. rewrite <- (wrapS_mod 32). apply (reads_be 32 3). lia. Qed.

Lemma reads_readInt64 v : reads readInt64 (be_bytes 8 v) (s64 v).
Proof. rewrite <- (wrapS_mod 64). apply (reads_be 64 7). lia. Qed.

Lemma reads_readFloat v : reads readFloat (be_bytes 4 v) (u32 v).
Proof.
  apply reads_check; [simpl; lia|]. rewrite <- wrapU_wrapS.
  apply (reads_map _ u32), reads_readInt32.
Qed.

Lemma reads_readDouble v : reads readDouble (be_bytes 8 v) (u64 v).
Proof.
  apply reads_check; [simpl; lia|]. rewrite <- wrapU_wrapS.
  apply (reads_map _ u64), reads_readInt64.
Qed.

(** *** Array lengths and byte arrays *)

#[local] Arguments be_bytes : simpl never.

Lemma reads_eq {A} (m : ST t A) l a b : reads m l a -> a = b -> reads m l b.
Proof. by intros ? <-. Qed.

Lemma reads_readArrayLength len :
  -1 <= len < 2 ^ 31 -> reads readArrayLength (enc_arrayLen len) len.
Proof.
  intros Hlen. unfold enc_arrayLen, readArrayLength.
  destruct (Z.eqb_spec len (-1)) as [->|Hne].
  { eapply (reads_bind _ _ [_] []); [apply reads_read|apply reads_ret]. }
  destruct (Z.leb_spec len 252).
  { eapply (reads_bind _ _ [_] []); [apply reads_read|]. cbv zeta.
    rewrite wrapU_wrapS, !(wrapU_id 8 len) by (unfold in_u; lia).
    destruct (Z.eqb_spec len 0xFF); [lia|]. destruct (Z.ltb_spec 252 len); [lia|]. apply reads_ret. }
  destruct (Z.leb_spec len 0xFFFF).
  { eapply (reads_bind _ _ [_]); [apply reads_read|]. change (u8 (s8 254)) with 254. simpl.
    eapply reads_eq; [apply (reads_map _ u16), reads_readInt16|].
    rewrite wrapU_wrapS, !(wrapU_id 16 len) by (unfold in_u; lia). done. }
  eapply (reads_bind _ _ [_]); [apply reads_read|]. change (u8 (s8 253)) with 253. simpl.
  eapply reads_eq; [apply (reads_map _ (fun v => s32 (u32 v))), reads_readInt32|]. simpl.
  rewrite wrapS_wrapU, !(wrapU_id 32 len), !(wrapS_id 32 len) by (unfold in_u, in_s; simpl; lia). done.
Qed.

Lemma reads_readBytes bs :
  Z.of_nat (length bs) < 2 ^ 31 ->
  reads readBytes (enc_arrayLen (Z.of_nat (length bs)) ++ bs)
    (if decide (bs = []) then None else Some bs, Z.of_nat (length bs)).
Proof.
  intros Hlen. eapply reads_bind; [apply reads_readArrayLength; lia|].
  destruct (decide (bs = [])) as [->|Hne]; [apply reads_ret|].
  destruct bs as [|b bs]; [done|]. destruct (Z.ltb_spec 0 (Z.of_nat (length (b :: bs)))); [|simpl in *; lia].
  apply reads_check; [lia|].
  apply (reads_map _ (fun x => (Some x, Z.of_nat (length (b :: bs))))), reads_memcpy.
Qed.

Lemma reads_readBytesOnly bs : reads (readBytesOnly (Z.of_nat (length bs))) bs bs.
Proof.
  unfold readBytesOnly. destruct (Z.ltb_spec 0 (Z.of_nat (length bs))).
  - apply reads_check; [lia|apply reads_memcpy].
  - destruct bs; [apply reads_ret|simpl in *; lia].
Qed.

(** *** Strings *)

Definition ascii_char (c : Z) : Prop := 0 <= c <= 127.

Lemma land_127_ascii c : ascii_char c -> Z.land c 0x7F = c.
Proof. intros Hc. rewrite JavaModifiedUtf8.land_127. apply Z.mod_small. unfold ascii_char in Hc. lia. Qed.

Lemma land_s8_127 b : Z.land (s8 b) 0x7F = Z.land b 0x7F.
Proof. rewrite !JavaModifiedUtf8.land_127. unfold wrapS. change (2 ^ 8) with 256. simpl. zdiv. Qed.

Lemma reads_readAscii_len s :
  Forall ascii_char s ->
  reads (readAscii_len (Z.of_nat (length s))) ((fun c => Z.land c 0x7F) <$> s) s.
Proof.
  intros Hs. apply reads_check; [rewrite length_fmap; lia|]. rewrite Nat2Z.id.
  rewrite <- bind_singleton_fmap. apply reads_repeat; [done|].
  eapply Forall_impl; [|exact Hs]. intros c Hc. simpl. rewrite land_127_ascii by done.
  rewrite <- (land_127_ascii c) at 2 by done. rewrite <- land_s8_127.
  apply (reads_map _ (fun b => Z.land b 0x7F)), (reads_map _ s8), reads_loadByte.
Qed.

Lemma reads_readAscii s :
  Forall ascii_char s -> Z.of_nat (length s) <= 0xFFFF -> reads readAscii (enc_ascii s) s.
Proof.
  intros Hs Hlen. eapply reads_bind; [apply reads_readInt16|].
  rewrite wrapU_wrapS, (wrapU_id 16) by (unfold in_u; lia). by apply reads_readAscii_len.
Qed.

Lemma reads_readAsciiHuge s :
  Forall ascii_char s -> Z.of_nat (length s) < 2 ^ 32 -> reads readAsciiHuge (enc_asciiHuge s) s.
Proof.
  intros Hs Hlen. eapply reads_bind; [apply reads_readInt32|].
  rewrite wrapU_wrapS, (wrapU_id 32) by (unfold in_u; lia). by apply reads_readAscii_len.
Qed.

(** The part of [readJavaModifiedUtf8] behind the guard. *)
Lemma reads_modified_utf8 s : JavaModifiedUtf8.u16string_ok s -> JavaModifiedUtf8.encodedLength s <= 0xFFFF ->
  reads (d ← st_get;
         value ← st_lift (JavaModifiedUtf8.decode (drop (Z.to_nat (pos d)) (buffer d)) (JavaModifiedUtf8.encodedLength s));
         advanceCursor (JavaModifiedUtf8.encodedLength s);; mret value) (JavaModifiedUtf8.fromString s) s.
Proof.
  intros Hs Hlen. pose proof (JavaModifiedUtf8.encodedLength_fromString s) as Hel.
  intros pre rest Hmax. unfold mbind, ST_bind, st_get, st_lift. simpl.
  rewrite Nat2Z.id, drop_app_length, JavaModifiedUtf8.decode_fromString by done.
  unfold mret, ST_ret. rewrite at_app, Hel. unfold at_. simpl. do 3 f_equal. rewrite length_app. lia.
Qed.

Lemma reads_readJavaModifiedUtf8 s :
  JavaModifiedUtf8.u16string_ok s -> JavaModifiedUtf8.encodedLength s <= 0xFFFF ->
  reads readJavaModifiedUtf8 (enc_jmutf8 s) s.
Proof.
  intros Hs Hlen. pose proof (JavaModifiedUtf8.encodedLength_fromString s) as Hel.
  eapply reads_bind; [apply reads_readInt16|]. cbv zeta.
  rewrite wrapU_wrapS, (wrapU_id 16) by (unfold in_u; lia).
  apply reads_check; [lia|by apply reads_modified_utf8].
Qed.

Lemma reads_readUtf16Huge s :
  JavaModifiedUtf8.u16string_ok s -> Z.of_nat (length s) < 2 ^ 32 ->
  reads readUtf16Huge (enc_utf16Huge s) s.
Proof.
  intros Hs Hlen. eapply reads_bind; [apply reads_readInt32|]. cbv zeta.
  rewrite wrapU_wrapS, (wrapU_id 32) by (unfold in_u; lia).
  apply reads_check; [rewrite length_enc_utf16; lia|]. rewrite Nat2Z.id.
  apply reads_repeat; [done|]. eapply Forall_impl; [|exact Hs]. intros c Hc. simpl.
  rewrite <- (wrapU_id 16 c) at 2 by done. rewrite <- wrapU_wrapS.
  apply (reads_map _ u16), reads_readInt16NoCheck.
Qed.

(** A string whose modified UTF-8 form is no longer than it has only ASCII characters. *)
Lemma short_encoding_ascii s :
  JavaModifiedUtf8.u16string_ok s ->
  JavaModifiedUtf8.encodedLength s <= Z.of_nat (length s) -> Forall ascii_char s.
Proof.
  rewrite JavaModifiedUtf8.encodedLength_fromString, JavaModifiedUtf8.fromString_bind.
  induction s as [|c s IH]; intros Hs Hle; [constructor|]. apply Forall_cons_1 in Hs as [Hc Hs].
  rewrite bind_cons, length_app in Hle. cbn [length] in Hle.
  assert (Hge : (length s <= length (s ≫= JavaModifiedUtf8.enc_char))%nat).
  { clear. induction s as [|x s IH]; [done|]. rewrite bind_cons, length_app.
    pose proof (JavaModifiedUtf8.enc_char_length x). simpl. lia. }
  pose proof (JavaModifiedUtf8.enc_char_length c) as Hl. constructor; [|apply IH; [done|lia]].
  assert (H1 : length (JavaModifiedUtf8.enc_char c) = 1%nat) by lia. revert H1.
  unfold in_u in Hc. unfold JavaModifiedUtf8.enc_char, JavaModifiedUtf8.encode, ascii_char.
  destruct (Z.eqb_spec c 0), (Z.ltb_spec c 0x80), (Z.ltb_spec c 0x800); simpl; lia.
Qed.

Lemma reads_readString s :
  JavaModifiedUtf8.u16string_ok s -> Z.of_nat (length s) < 2 ^ 32 ->
  reads readString (enc_string s) s.
Proof.
  intros Hs Hlen. unfold enc_string, readString.
  destruct (Z.ltb_spec (Z.of_nat (length s)) (JavaModifiedUtf8.encodedLength s)) as [Hlt|Hge].
  - destruct (Z.ltb_spec 0xFFFF (JavaModifiedUtf8.encodedLength s));
      (eapply (reads_bind _ _ [_]); [apply reads_read|]); simpl.
    + by apply reads_readUtf16Huge.
    + by apply reads_readJavaModifiedUtf8.
  - pose proof (short_encoding_ascii s Hs Hge).
    destruct (Z.ltb_spec 0xFFFF (Z.of_nat (length s)));
      (eapply (reads_bind _ _ [_]); [apply reads_read|]); simpl.
    + by apply reads_readAsciiHuge.
    + by apply reads_readAscii.
Qed.

(** *** Arrays *)

Lemma reads_readArray {A} (m : ST t A) (enc : A -> list Z) xs :
  Z.of_nat (length xs) < 2 ^ 31 -> Forall (fun x => reads m (enc x) x) xs ->
  reads (readArray m) (enc_arrayLen (Z.of_nat (length xs)) ++ (xs ≫= enc)) xs.
Proof.
  intros Hlen Hxs. eapply reads_bind; [apply reads_readArrayLength; lia|].
  destruct (Z.leb_spec 0 (Z.of_nat (length xs))); [|lia]. rewrite Nat2Z.id. by apply reads_repeat.
Qed.

(** ** The serialization contract

    A type that is written with [toData] and read back with [fromData]. *)
Class Codec {A} `{Allocator} (toData : A -> ST DataOutput.t unit) (fromData : ST DataInput.t A)
    (valid : A -> Prop) := {
  codec_enc : A -> list Z;
  codec_emits x : valid x -> emits (toData x) (codec_enc x);
  codec_reads x : valid x -> reads fromData (codec_enc x) x
}.

(** Writes [x] to a fresh output and reads the bytes of its buffer. *)
Definition transmit {A B} `{Allocator} (toData : A -> ST DataOutput.t unit)
    (fromData : ST DataInput.t B) (x : A) : outcome (B * Z) :=
  '(out, _) ← DataOutput.construct [];
  '(_, out) ← toData x out;
  match DataOutput.getBuffer out with
  | Some bs =>
    '(y, inp) ← fromData (construct bs (Z.of_nat (length bs)));
    Ok (y, getBytesRemaining inp)
  | None => Throw UndefinedBehaviour
  end.

Lemma transmit_spec {A B} `{AllocatorOk} (toData : A -> ST DataOutput.t unit)
    (fromData : ST DataInput.t B) (x : A) (y : B) l :
  emits (toData x) l -> reads fromData l y -> Z.of_nat (length l) + 16 <= 2 ^ 60 ->
  transmit toData fromData x = Ok (y, 0).
Proof.
  intros He Hr Hlen. unfold transmit, DataOutput.construct, DataOutput.getBuffer_pool.
  rewrite alloc_ok by lia. simpl.
  destruct (He (DataOutput.mk [] 0 8192 false 0) []) as (d & E & _ & Ho & _);
    [constructor; simpl; lia|done|simpl; lia|].
  rewrite E. simpl. apply getBuffer_out_is in Ho as ->. simpl.
  specialize (Hr [] []). rewrite app_nil_r in Hr. unfold at_ in Hr. simpl in Hr.
  change (Z.of_nat 0) with 0 in Hr.
  unfold construct. rewrite Hr by lia. simpl. unfold getBytesRemaining, getBytesRead. simpl.
  rewrite app_nil_r, Z.sub_diag. done.
Qed.
