(* ===== verification/Serialization.v ===== *)
(** What [DataOutput] and [DataInput] promise each other: a message made of any sequence of
    typed writes is read back by the matching sequence of reads, and the buffers and the
    lock of the outputs are returned when they are destroyed. *)
From S2P Require Import Prelude JavaModifiedUtf8 DataOutput DataOutputFacts DataInput DataInputFacts.

#[local] Arguments be_bytes : simpl never.

(** ** Strings *)

Definition string_ok (s : list Z) : Prop :=
  JavaModifiedUtf8.u16string_ok s /\ Z.of_nat (length s) < 2 ^ 32.

Lemma length_fromString s : (length (JavaModifiedUtf8.fromString s) <= 3 * length s)%nat.
Proof.
  rewrite JavaModifiedUtf8.fromString_bind. induction s as [|c s IH]; [done|].
  rewrite bind_cons, length_app. simpl.
  assert ((length (JavaModifiedUtf8.enc_char c) <= 3)%nat); [|lia].
  unfold JavaModifiedUtf8.enc_char, JavaModifiedUtf8.encode. repeat case_match; simpl; lia.
Qed.

Lemma length_enc_string s : (length (enc_string s) <= 3 * length s + 5)%nat.
Proof.
  pose proof (length_fromString s). unfold enc_string. repeat case_match; cbn [length];
    unfold enc_utf16Huge, enc_jmutf8, enc_asciiHuge, enc_ascii;
    rewrite length_app, length_be_bytes, ?length_enc_utf16, ?length_fmap; lia.
Qed.

(** Every UTF-16 string of fewer than 2^32 code units that is written with
    [DataOutput::writeString] is read back unchanged by [DataInput::readString], whichever
    of the four encodings (ASCII or modified UTF-8, short or huge) the writer selects, and
    the reader consumes exactly the bytes written. *)
Theorem string_roundtrip `{AllocatorOk} s :
  string_ok s -> transmit DataOutput.writeString DataInput.readString s = Ok (s, 0).
Proof.
  intros [Hs Hlen]. apply (transmit_spec _ _ _ _ (enc_string s)).
  - by apply emits_writeString.
  - by apply reads_readString.
  - pose proof (length_enc_string s). lia.
Qed.

(** ** Messages *)

(** One typed write; a byte is the signed [int8_t] of [read()], a float its bits. *)
Inductive field :=
| FBool (b : bool)
| FByte (z : Z)
| FInt16 (z : Z)
| FInt32 (z : Z)
| FInt64 (z : Z)
| FFloat (bits : Z)
| FDouble (bits : Z)
| FArrayLen (len : Z)
| FBytes (bs : list Z)
| FBytesOnly (bs : list Z)
| FUTF (s : list Z)
| FString (s : list Z)
| FIntArray (zs : list Z).

Definition writeField `{Allocator} (f : field) : ST DataOutput.t unit :=
  match f with
  | FBool b => DataOutput.writeBoolean b
  | FByte z => DataOutput.write_int8 z
  | FInt16 z => DataOutput.writeInt_int16 z
  | FInt32 z => DataOutput.writeInt_int32 z
  | FInt64 z => DataOutput.writeInt_int64 z
  | FFloat bits => DataOutput.writeFloat bits
  | FDouble bits => DataOutput.writeDouble bits
  | FArrayLen len => DataOutput.writeArrayLen len
  | FBytes bs => DataOutput.writeBytes (Some bs) (Z.of_nat (length bs))
  | FBytesOnly bs => DataOutput.writeBytesOnly bs (Z.of_nat (length bs))
  | FUTF s => DataOutput.writeUTF s
  | FString s => DataOutput.writeString s
  | FIntArray zs => DataOutput.writeArrayLen (Z.of_nat (length zs));; st_iter DataOutput.writeInt_int32 zs
  end.

(** The read that matches a write: it depends on the kind of the field only (and, for raw
    bytes, on their number, which the reader has to know). *)
Definition readField (f : field) : ST DataInput.t field :=
  match f with
  | FBool _ => x ← DataInput.readBoolean; mret (FBool x)
  | FByte _ => x ← DataInput.read; mret (FByte x)
  | FInt16 _ => x ← DataInput.readInt16; mret (FInt16 x)
  | FInt32 _ => x ← DataInput.readInt32; mret (FInt32 x)
  | FInt64 _ => x ← DataInput.readInt64; mret (FInt64 x)
  | FFloat _ => x ← DataInput.readFloat; mret (FFloat x)
  | FDouble _ => x ← DataInput.readDouble; mret (FDouble x)
  | FArrayLen _ => x ← DataInput.readArrayLength; mret (FArrayLen x)
  | FBytes _ => x ← DataInput.readBytes; mret (FBytes (default [] x.1))
  | FBytesOnly bs => x ← DataInput.readBytesOnly (Z.of_nat (length bs)); mret (FBytesOnly x)
  | FUTF _ => x ← DataInput.readUTF; mret (FUTF x)
  | FString _ => x ← DataInput.readString; mret (FString x)
  | FIntArray _ => x ← DataInput.readIntArray; mret (FIntArray x)
  end.

Fixpoint readFields (fs : list field) : ST DataInput.t (list field) :=
  match fs with
  | [] => mret []
  | f :: fs' => x ← readField f; xs ← readFields fs'; mret (x :: xs)
  end.

(** The values each typed write can represent. *)
Definition field_ok (f : field) : Prop :=
  match f with
  | FBool _ => True
  | FByte z => in_s 8 z
  | FInt16 z => in_s 16 z
  | FInt32 z => in_s 32 z
  | FInt64 z => in_s 64 z
  | FFloat bits => in_u 32 bits
  | FDouble bits => in_u 64 bits
  | FArrayLen len => -1 <= len < 2 ^ 31
  | FBytes bs => Z.of_nat (length bs) <= 2 ^ 31 - 6
  | FBytesOnly _ => True
  | FUTF s => JavaModifiedUtf8.u16string_ok s /\ JavaModifiedUtf8.encodedLength s <= 0xFFFF
  | FString s => string_ok s
  | FIntArray zs => Z.of_nat (length zs) < 2 ^ 31 /\ Forall (in_s 32) zs
  end.

Definition enc_field (f : field) : list Z :=
  match f with
  | FBool b => [if b then 1 else 0]
  | FByte z => [u8 z]
  | FInt16 z => be_bytes 2 (u16 z)
  | FInt32 z => be_bytes 4 (u32 z)
  | FInt64 z => be_bytes 8 (u64 z)
  | FFloat bits => be_bytes 4 bits
  | FDouble bits => be_bytes 8 bits
  | FArrayLen len => enc_arrayLen len
  | FBytes bs => enc_arrayLen (Z.of_nat (length bs)) ++ bs
  | FBytesOnly bs => bs
  | FUTF s => enc_jmutf8 s
  | FString s => enc_string s
  | FIntArray zs => enc_arrayLen (Z.of_nat (length zs)) ++ (zs ≫= fun z => be_bytes 4 (u32 z))
  end.

Lemma emits_writeField `{AllocatorOk} f : field_ok f -> emits (writeField f) (enc_field f).
Proof.
  destruct f as [b|z|z|z|z|bits|bits|len|bs|bs|s|s|zs]; cbn [writeField enc_field field_ok]; intros Hf.
  - apply emits_writeBoolean.
  - apply emits_write_int8.
  - apply emits_writeInt_int16.
  - apply emits_writeInt_int32.
  - apply emits_writeInt_int64.
  - apply emits_writeInt_uint32.
  - apply emits_writeInt_uint64.
  - apply emits_writeArrayLen.
  - by apply emits_writeBytes.
  - apply emits_writeBytesOnly.
  - apply emits_writeJavaModifiedUtf8, Hf.
  - apply emits_writeString; apply Hf.
  - apply emits_bind; [apply emits_writeArrayLen|]. apply emits_iter. intros. apply emits_writeInt_int32.
Qed.

Lemma wrapS_wrapU_id w z : 0 < w -> in_s w z -> wrapS w (wrapU w z) = z.
Proof. intros. by rewrite wrapS_wrapU, wrapS_id. Qed.

(** Reading a field is reading its value. *)
Lemma reads_field {A} (m : ST DataInput.t A) (f : A -> field) l a x :
  reads m l a -> f a = x -> reads (y ← m; mret (f y)) l x.
Proof. intros Hm <-. by apply reads_map. Qed.

Lemma reads_readField f : field_ok f -> reads (readField f) (enc_field f) f.
Proof.
  destruct f as [b|z|z|z|z|bits|bits|len|bs|bs|s|s|zs]; cbn [readField enc_field field_ok]; intros Hf.
  - eapply reads_field; [apply reads_readBoolean|done].
  - eapply reads_field; [apply reads_read|]. by rewrite wrapS_wrapU_id.
  - eapply reads_field; [apply reads_readInt16|]. by rewrite wrapS_wrapU_id.
  - eapply reads_field; [apply reads_readInt32|]. by rewrite wrapS_wrapU_id.
  - eapply reads_field; [apply reads_readInt64|]. by rewrite wrapS_wrapU_id.
  - eapply reads_field; [apply reads_readFloat|]. by rewrite wrapU_id.
  - eapply reads_field; [apply reads_readDouble|]. by rewrite wrapU_id.
  - eapply reads_field; [by apply reads_readArrayLength|done].
  - eapply (reads_field _ (fun x => FBytes (default [] x.1))); [apply reads_readBytes; lia|]. simpl.
    case_decide as E; simpl; congruence.
  - eapply reads_field; [apply reads_readBytesOnly|done].
  - destruct Hf. eapply reads_field; [by apply reads_readJavaModifiedUtf8|done].
  - destruct Hf. eapply reads_field; [by apply reads_readString|done].
  - destruct Hf as [Hlen Hz]. eapply reads_field; [|done].
    apply (reads_readArray _ (fun z => be_bytes 4 (u32 z))); [done|].
    eapply Forall_impl; [|exact Hz]. intros z Hz'. eapply reads_eq; [apply reads_readInt32|].
    by rewrite wrapS_wrapU_id.
Qed.

Definition enc_fields (fs : list field) : list Z := fs ≫= enc_field.

Lemma emits_fields `{AllocatorOk} fs :
  Forall field_ok fs -> emits (st_iter writeField fs) (enc_fields fs).
Proof.
  induction 1 as [|f fs Hf Hfs IH]; [apply emits_ret|].
  apply emits_bind; [by apply emits_writeField|done].
Qed.

Lemma reads_fields fs : Forall field_ok fs -> reads (readFields fs) (enc_fields fs) fs.
Proof.
  induction 1 as [|f fs Hf Hfs IH]; [apply reads_ret|]. unfold enc_fields. rewrite bind_cons.
  eapply reads_bind; [by apply reads_readField|]. apply (reads_map _ (cons f)), IH.
Qed.

(** C1. A message written as any sequence of booleans, integers, floating-point numbers,
    array lengths, byte arrays, integer arrays and strings is read back field by field by
    the matching sequence of [DataInput] reads: every field comes back with its value, the
    buffer grows as needed, no access leaves it, and no byte is left over. *)
Theorem message_roundtrip `{AllocatorOk} fs :
  Forall field_ok fs -> Z.of_nat (length (enc_fields fs)) + 16 <= 2 ^ 60 ->
  transmit (st_iter writeField) (readFields fs) fs = Ok (fs, 0).
Proof.
  intros Hfs Hlen. apply (transmit_spec _ _ _ _ (enc_fields fs)); [by apply emits_fields|by apply reads_fields|done].
Qed.

(** ** The life of an output buffer *)

(** A buffer that the thread-local pool may hand out. *)
Definition desc_ok (b : DataOutput.BufferDesc) : Prop :=
  8192 <= DataOutput.bd_size b <= 2 ^ 62 /\
  Z.of_nat (length (DataOutput.bd_buf b)) <= DataOutput.bd_size b.

Lemma construct_wf `{AllocatorOk} pool : Forall desc_ok pool ->
  exists d, DataOutput.construct pool = Ok (d, drop 1 pool) /\ wf d /\ out_is d [].
Proof.
  intros Hp. unfold DataOutput.construct, DataOutput.getBuffer_pool. destruct Hp as [|b pool [Hb1 Hb2] Hp].
  - rewrite alloc_ok by lia. simpl. eexists. split_and!; [done|constructor; simpl; lia|done].
  - simpl. eexists. split_and!; [done|constructor; simpl; lia|done].
Qed.

Lemma reset_wf `{AllocatorOk} d : wf d ->
  exists d', DataOutput.reset d = Ok (tt, d') /\ DataOutput.bigBufferLocks d' = 0 /\
    DataOutput.m_haveBigBuffer d' = false /\ DataOutput.m_buf d' = 0 /\
    desc_ok (DataOutput.mkDesc (DataOutput.m_bytes d') (DataOutput.m_size d')).
Proof.
  intros [Hs Hb Hby Hl]. unfold DataOutput.reset. destruct (DataOutput.m_haveBigBuffer d) eqn:E.
  - rewrite alloc_ok by (unfold DataOutput.m_lowWaterMark; lia). eexists. split; [done|]. simpl.
    rewrite Hl. unfold desc_ok, DataOutput.m_lowWaterMark. simpl. split_and!; lia || done.
  - eexists. split; [done|]. simpl. rewrite Hl. unfold desc_ok. simpl. split_and!; lia || done.
Qed.

(** An output that takes its buffer from the thread-local pool, receives a message
    and is destroyed holds exactly the encoding of the message before it is destroyed,
    releases the lock of the big buffers if it had to take it, and gives the pool back a
    buffer of at least 8192 bytes for the one it took. *)
Theorem output_lifecycle `{AllocatorOk} pool fs :
  Forall desc_ok pool -> Forall field_ok fs -> Z.of_nat (length (enc_fields fs)) + 16 <= 2 ^ 60 ->
  exists d0 d1 d2 pool',
    DataOutput.construct pool = Ok (d0, drop 1 pool) /\
    st_iter writeField fs d0 = Ok (tt, d1) /\
    DataOutput.getBuffer d1 = Some (enc_fields fs) /\
    DataOutput.bigBufferLocks d1 = (if DataOutput.m_haveBigBuffer d1 then 1 else 0) /\
    DataOutput.reset d1 = Ok (tt, d2) /\ DataOutput.bigBufferLocks d2 = 0 /\
    DataOutput.destruct_ d1 (drop 1 pool) = Ok pool' /\
    Forall desc_ok pool' /\ length pool' = Nat.max 1 (length pool).
Proof.
  intros Hp Hfs Hlen. destruct (construct_wf pool Hp) as (d0 & E0 & Hwf0 & Ho0).
  destruct (emits_fields fs Hfs d0 [] Hwf0 Ho0) as (d1 & E1 & Hwf1 & Ho1 & _); [simpl; lia|].
  destruct (reset_wf d1 Hwf1) as (d2 & E2 & Hl2 & _ & _ & Hd2).
  exists d0, d1, d2. eexists. split_and!; [done|done|by apply getBuffer_out_is|apply Hwf1|done|done|..].
  - unfold DataOutput.destruct_. rewrite E2. done.
  - constructor; [done|]. by apply Forall_drop.
  - simpl. rewrite length_drop. lia.
Qed.

Section Witnesses.
#[local] Existing Instance always_alloc.
#[local] Existing Instance always_alloc_ok.

(** "a€" needs modified UTF-8. *)
Lemma string_roundtrip_witness :
  transmit DataOutput.writeString DataInput.readString [97; 8364] = Ok ([97; 8364], 0).
Proof. apply string_roundtrip. split; [repeat constructor; done|done]. Defined.

Definition sample_message : list field :=
  [FBool true; FByte (-5); FInt16 (-300); FInt32 70000; FInt64 (-1); FArrayLen 300;
   FBytes [1; 2; 3]; FString [97; 8364]; FIntArray [1; -1]].

Lemma sample_message_ok : Forall field_ok sample_message.
Proof. repeat constructor; done. Qed.

Lemma message_roundtrip_witness :
  transmit (st_iter writeField) (readFields sample_message) sample_message = Ok (sample_message, 0).
Proof. apply message_roundtrip; [exact sample_message_ok|by vm_compute]. Defined.

Lemma output_lifecycle_witness :
  exists d0 d1 d2 pool',
    DataOutput.construct [DataOutput.mkDesc [Some 9] 8192] = Ok (d0, []) /\
    st_iter writeField sample_message d0 = Ok (tt, d1) /\
    DataOutput.getBuffer d1 = Some (enc_fields sample_message) /\
    DataOutput.bigBufferLocks d1 = (if DataOutput.m_haveBigBuffer d1 then 1 else 0) /\
    DataOutput.reset d1 = Ok (tt, d2) /\ DataOutput.bigBufferLocks d2 = 0 /\
    DataOutput.destruct_ d1 [] = Ok pool' /\ Forall desc_ok pool' /\ length pool' = 1%nat.
Proof.
  apply (output_lifecycle [DataOutput.mkDesc [Some 9] 8192] sample_message);
    [repeat constructor; done|exact sample_message_ok|by vm_compute].
Defined.
End Witnesses.
