(* ===== verification/InputSafety.v ===== *)
(** Memory safety of the decoders of the input buffer on arbitrary bytes, and the two
    decoders that can leave the buffer. *)
From S2P Require Import Prelude JavaModifiedUtf8 DataOutput DataOutputFacts DataInput DataInputFacts.
Import DataInput.

Record inwf (d : t) : Prop := {
  inwf_pos : 0 <= pos d <= bufferLength d;
  inwf_len : bufferLength d = Z.of_nat (length (buffer d));
  inwf_max : bufferLength d < 2 ^ 62
}.

(** Loads exactly [n] bytes when they are there. *)
Definition needs {A} (n : Z) (m : ST t A) : Prop := forall d,
  inwf d -> pos d + n <= bufferLength d ->
  exists a, m d = Ok (a, mk (buffer d) (pos d + n) (bufferLength d)).

(** Never leaves the buffer, always returns, and only moves the cursor forward. *)
Definition safe {A} (m : ST t A) : Prop := forall d, inwf d ->
  match m d with
  | Ok (_, d') => inwf d' /\ buffer d' = buffer d /\ pos d <= pos d'
  | Throw e => e <> UndefinedBehaviour /\ e <> Diverges
  end.

Lemma needs_ret {A} (a : A) : needs 0 (mret a).
Proof. intros [b p l] _ _. exists a. simpl. by rewrite Z.add_0_r. Qed.

Lemma needs_bind {A B} n1 n2 (m : ST t A) (f : A -> ST t B) :
  0 <= n1 -> 0 <= n2 -> needs n1 m -> (forall a, needs n2 (f a)) -> needs (n1 + n2) (m ≫= f).
Proof.
  intros H1 H2 Hm Hf d Hwf Hle. destruct (Hm d Hwf) as [a E]; [lia|].
  destruct (Hf a (mk (buffer d) (pos d + n1) (bufferLength d))) as [b E2].
  - destruct Hwf. constructor; simpl; lia.
  - simpl. lia.
  - exists b. unfold mbind, ST_bind. rewrite E, E2. simpl. by rewrite Z.add_assoc.
Qed.

Lemma needs_loadByte : needs 1 loadByte.
Proof.
  intros d [Hp Hl Hm] Hle. unfold loadByte. destruct (Z.ltb_spec (pos d) 0); [lia|].
  destruct (lookup_lt_is_Some_2 (buffer d) (Z.to_nat (pos d))) as [b ->]; [lia|]. eauto.
Qed.

Lemma needs_map {A B} n (m : ST t A) (f : A -> B) :
  0 <= n -> needs n m -> needs n (x ← m; mret (f x)).
Proof.
  intros Hn Hm. replace n with (n + 0) by lia.
  apply needs_bind; [done..|]. intros. apply needs_ret.
Qed.

Lemma needs_repeat {A} n (m : ST t A) k : 0 <= n -> needs n m -> needs (n * Z.of_nat k) (st_repeat k m).
Proof.
  intros Hn Hm. induction k as [|k IH].
  - rewrite Z.mul_0_r. apply needs_ret.
  - rewrite Nat2Z.inj_succ. replace (n * _) with (n + n * Z.of_nat k) by lia.
    simpl. apply needs_bind; [done|lia|done|]. intros a. by apply needs_map; [lia|].
Qed.

Lemma needs_memcpy len : 0 <= len -> needs len (memcpy len).
Proof.
  intros Hl. unfold memcpy. pose proof (needs_repeat 1 loadByte (Z.to_nat len)) as Hn.
  rewrite Z2Nat.id in Hn by done. replace (1 * len) with len in Hn by lia.
  apply Hn; [lia|apply needs_loadByte].
Qed.

Lemma needs_shiftIn w n : forall tmp, needs (Z.of_nat n) (shiftIn w n tmp).
Proof.
  induction n as [|n IH]; intros tmp; [apply needs_ret|].
  rewrite Nat2Z.inj_succ. replace (Z.succ _) with (1 + Z.of_nat n) by lia.
  simpl. apply needs_bind; [lia..|apply needs_loadByte|done].
Qed.

Lemma safe_ret {A} (a : A) : safe (mret a).
Proof. intros d Hwf. simpl. split_and!; done || lia. Qed.

Lemma safe_throw {A} e : e <> UndefinedBehaviour -> e <> Diverges -> safe (A := A) (st_throw e).
Proof. done. Qed.

Lemma safe_bind {A B} (m : ST t A) (f : A -> ST t B) :
  safe m -> (forall a, safe (f a)) -> safe (m ≫= f).
Proof.
  intros Hm Hf d Hwf. specialize (Hm d Hwf). unfold mbind, ST_bind.
  destruct (m d) as [[a d1]|e]; [|done]. destruct Hm as (Hwf1 & Hb1 & Hp1).
  specialize (Hf a d1 Hwf1). destruct (f a d1) as [[b d2]|e]; [|done].
  destruct Hf as (Hwf2 & Hb2 & Hp2). split_and!; [done|congruence|lia].
Qed.

(** A guard for at least the bytes the body loads makes it safe. *)
Lemma safe_check {A} n k (m : ST t A) :
  0 <= n <= k -> needs n m -> safe (_checkBufferSize k;; m).
Proof.
  intros Hn Hm d Hwf. pose proof Hwf as [Hp Hl Hmax].
  unfold mbind, ST_bind, _checkBufferSize. rewrite wrapU_id by (unfold in_u; lia).
  destruct (Z.ltb_spec (bufferLength d - pos d) k); [done|].
  destruct (Hm d Hwf) as [a ->]; [lia|]. simpl. split_and!; [constructor; simpl; lia|done|lia].
Qed.

Lemma safe_repeat {A} (m : ST t A) n : safe m -> safe (st_repeat n m).
Proof.
  intros Hm. induction n; [apply safe_ret|]. simpl.
  apply safe_bind; [done|]. intros a. apply safe_bind; [done|]. intros. apply safe_ret.
Qed.

Lemma safe_read : safe read.
Proof. apply (safe_check 1); [lia|]. apply needs_map; [lia|apply needs_loadByte]. Qed.

Lemma safe_readBoolean : safe readBoolean.
Proof. apply (safe_check 1); [lia|]. apply (needs_map 1 loadByte); [lia|apply needs_loadByte]. Qed.

Lemma safe_readInt16 : safe readInt16.
Proof.
  apply (safe_check 2); [lia|]. apply (needs_bind 1 1); [lia..|apply needs_loadByte|].
  intros. apply (needs_map 1 loadByte); [lia|apply needs_loadByte].
Qed.

Lemma safe_readInt32 : safe readInt32.
Proof.
  apply (safe_check 4); [lia|]. apply (needs_bind 1 3); [lia..|apply needs_loadByte|].
  intros. apply (needs_shiftIn 32 3).
Qed.

Lemma safe_readInt64 : safe readInt64.
Proof.
  apply (safe_check 8); [lia|]. apply (needs_bind 1 7); [lia..|apply needs_loadByte|].
  intros. apply (needs_shiftIn 64 7).
Qed.

#[export] Hint Resolve safe_ret safe_read safe_readBoolean safe_readInt16 safe_readInt32
  safe_readInt64 safe_bind safe_repeat : geode.

Lemma safe_readArrayLength : safe readArrayLength.
Proof.
  apply safe_bind; [apply safe_read|]. intros r. cbv zeta. repeat case_match; auto with geode.
  by apply safe_throw.
Qed.

(** A check before a read that checks again. *)
Lemma safe_recheck {A} k (m : ST t A) : safe m -> safe (_checkBufferSize k;; m).
Proof.
  intros Hm. apply safe_bind; [|done]. intros d Hwf. unfold _checkBufferSize.
  destruct (_ <? k); [done|]. split_and!; done || lia.
Qed.

Lemma safe_readBytes : safe readBytes.
Proof.
  apply safe_bind; [apply safe_readArrayLength|]. intros len.
  destruct (Z.ltb_spec 0 len); [|apply safe_ret].
  apply (safe_check len); [lia|]. apply needs_map; [lia|]. apply needs_memcpy. lia.
Qed.

Lemma safe_readBytesOnly len : safe (readBytesOnly len).
Proof.
  unfold readBytesOnly. destruct (Z.ltb_spec 0 len); [|apply safe_ret].
  apply (safe_check len); [lia|]. apply needs_memcpy. lia.
Qed.

Lemma safe_readUnsignedVL_loop fuel : forall shift result,
  64 <= shift + 7 * Z.of_nat fuel -> safe (readUnsignedVL_loop fuel shift result).
Proof.
  induction fuel as [|fuel IH]; intros shift result Hf; cbn [readUnsignedVL_loop];
    destruct (Z.ltb_spec shift 64); try lia; try by apply safe_throw.
  apply safe_bind; [apply safe_read|]. intros b. cbv zeta. case_match; [apply safe_ret|].
  apply IH. lia.
Qed.

Lemma safe_readUnsignedVL : safe readUnsignedVL.
Proof. apply safe_readUnsignedVL_loop. lia. Qed.

Lemma safe_readAscii_len n : 0 <= n -> safe (readAscii_len n).
Proof.
  intros Hn. apply (safe_check n); [lia|].
  replace n with (1 * Z.of_nat (Z.to_nat n)) at 1 by lia.
  apply needs_repeat; [lia|]. apply needs_map; [lia|]. apply needs_map; [lia|apply needs_loadByte].
Qed.

Lemma safe_readAscii : safe readAscii.
Proof. apply safe_bind; [auto with geode|]. intros. apply safe_readAscii_len, wrapU_range; lia. Qed.

Lemma safe_readAsciiHuge : safe readAsciiHuge.
Proof. apply safe_bind; [auto with geode|]. intros. apply safe_readAscii_len, wrapU_range; lia. Qed.

Lemma safe_readFloat : safe readFloat.
Proof. apply safe_recheck, safe_bind; auto with geode. Qed.

Lemma safe_readDouble : safe readDouble.
Proof. apply safe_recheck, safe_bind; auto with geode. Qed.

Lemma safe_readArray {A} (m : ST t A) : safe m -> safe (readArray m).
Proof.
  intros. apply safe_bind; [apply safe_readArrayLength|]. intros. case_match; auto with geode.
Qed.

Lemma safe_readArrayOfByteArrays : safe readArrayOfByteArrays.
Proof.
  apply safe_bind; [apply safe_readArrayLength|]. intros.
  repeat case_match; auto with geode; [by apply safe_throw|].
  apply safe_bind; [apply safe_repeat, safe_readBytes|auto with geode].
Qed.

(** C38. Whatever the bytes of the buffer, none of the scalar, byte-array, ASCII-string and
    primitive-array decoders loads outside the buffer or fails to terminate: it returns with
    the cursor inside the buffer, or throws. *)
Theorem decoders_memory_safe :
  safe read /\ safe readBoolean /\ safe readInt16 /\ safe readInt32 /\ safe readInt64 /\
  safe readFloat /\ safe readDouble /\ safe readArrayLength /\ safe readUnsignedVL /\
  safe readBytes /\ (forall len, safe (readBytesOnly len)) /\
  safe readAscii /\ safe readAsciiHuge /\
  safe readCharArray /\ safe readBooleanArray /\ safe readByteArray /\ safe readShortArray /\
  safe readIntArray /\ safe readLongArray /\ safe readFloatArray /\ safe readDoubleArray /\
  safe readArrayOfByteArrays.
Proof.
  unfold readCharArray, readBooleanArray, readByteArray, readShortArray, readIntArray,
    readLongArray, readFloatArray, readDoubleArray.
  split_and!; auto using safe_readFloat, safe_readDouble, safe_readArrayLength,
    safe_readUnsignedVL, safe_readBytes, safe_readBytesOnly, safe_readAscii, safe_readAsciiHuge,
    safe_readArray, safe_readArrayOfByteArrays with geode.
Qed.

Lemma needs_readInt16NoCheck : needs 2 readInt16NoCheck.
Proof.
  apply (needs_bind 1 1); [lia..|apply needs_loadByte|].
  intros. apply (needs_map 1 loadByte); [lia|apply needs_loadByte].
Qed.

Lemma loadByte_end d : inwf d -> pos d = bufferLength d -> loadByte d = Throw UndefinedBehaviour.
Proof.
  intros [Hp Hl Hm] He. unfold loadByte. destruct (Z.ltb_spec (pos d) 0); [done|].
  by rewrite lookup_ge_None_2 by lia.
Qed.

(** Code units are loaded until the input runs out. *)
Lemma code_units_run_out k : forall d, inwf d -> bufferLength d - pos d < 2 * Z.of_nat k ->
  st_repeat k (c ← readInt16NoCheck; mret (u16 c)) d = Throw UndefinedBehaviour.
Proof.
  induction k as [|k IH]; intros d Hwf Hk; pose proof Hwf as [Hp Hl Hm]; [lia|].
  cbn [st_repeat]. destruct (decide (pos d + 2 <= bufferLength d)) as [Hle|Hgt].
  - destruct (needs_map 2 _ u16 ltac:(lia) needs_readInt16NoCheck d Hwf Hle) as [c E].
    rewrite (st_bind_ok _ _ _ _ _ E). apply st_bind_throw, IH; [constructor; simpl; lia|simpl; lia].
  - apply st_bind_throw, st_bind_throw. unfold readInt16NoCheck.
    destruct (decide (pos d = bufferLength d)) as [He|Hne]; [by apply st_bind_throw, loadByte_end|].
    destruct (needs_loadByte d Hwf) as [b E]; [lia|]. rewrite (st_bind_ok _ _ _ _ _ E).
    apply st_bind_throw, loadByte_end; [constructor; simpl; lia|simpl; lia].
Qed.

(** [readUtf16Huge] asks for [length] bytes but loads two per code unit. With fewer
    than [length] bytes of text in the input it throws, with two per code unit it returns the
    code units; in between the guard passes and the loop leaves the buffer. *)
Theorem readUtf16Huge_overread n text :
  0 <= n < 2 ^ 32 -> let buf := be_bytes 4 n ++ text in Z.of_nat (length buf) < 2 ^ 62 ->
  let result := readUtf16Huge (construct buf (Z.of_nat (length buf))) in
  (Z.of_nat (length text) < n -> result = Throw OutOfRangeException) /\
  (n <= Z.of_nat (length text) < 2 * n -> result = Throw UndefinedBehaviour) /\
  (2 * n <= Z.of_nat (length text) -> exists s d, result = Ok (s, d)).
Proof.
  intros Hn buf Hbuf result.
  assert (Hr : readInt32 (construct buf (Z.of_nat (length buf))) = Ok (s32 n, at_ (be_bytes 4 n) text)).
  { apply (reads_readInt32 n [] text). done. }
  subst buf result. pose proof (length_app (be_bytes 4 n) text) as Hlen. rewrite length_be_bytes in Hlen.
  assert (Hwf : inwf (at_ (be_bytes 4 n) text)).
  { constructor; unfold at_; cbn [pos buffer bufferLength]; rewrite ?length_be_bytes; lia. }
  assert (Hc : _checkBufferSize n (at_ (be_bytes 4 n) text) =
    if Z.of_nat (length text) <? n then Throw OutOfRangeException else Ok (tt, at_ (be_bytes 4 n) text)).
  { unfold _checkBufferSize, at_. cbn [pos bufferLength]. rewrite Hlen, length_be_bytes.
    rewrite wrapU_id by (unfold in_u; lia). by replace (Z.of_nat (4 + length text) - Z.of_nat 4)
      with (Z.of_nat (length text)) by lia. }
  unfold readUtf16Huge. rewrite (st_bind_ok _ _ _ _ _ Hr). cbv zeta.
  rewrite wrapU_wrapS, wrapU_id by (unfold in_u; lia).
  destruct (Z.ltb_spec (Z.of_nat (length text)) n).
  { rewrite (st_bind_throw _ _ _ _ Hc). split_and!; [done|lia..]. }
  rewrite (st_bind_ok _ _ _ _ _ Hc). split_and!; intros Ht; [lia| |].
  - apply code_units_run_out; [done|]. unfold at_. cbn [pos bufferLength]. rewrite length_be_bytes. lia.
  - destruct (needs_repeat 2 (c ← readInt16NoCheck; mret (u16 c)) (Z.to_nat n)) with (d := at_ (be_bytes 4 n) text)
      as [s ->]; [lia| |done| |eauto].
    + apply needs_map; [lia|apply needs_readInt16NoCheck].
    + unfold at_. cbn [pos bufferLength]. rewrite length_be_bytes. lia.
Qed.

Lemma readUtf16Huge_overread_witness :
  readUtf16Huge (construct (be_bytes 4 2 ++ [0; 65]) 6) = Throw UndefinedBehaviour.
Proof. apply (readUtf16Huge_overread 2 [0; 65]); simpl; lia. Defined.

(** A modified UTF-8 string that ends inside a multi-byte sequence makes the decoder
    load past the checked length; with at least two more bytes in the buffer it always
    terminates without leaving it. *)
Theorem decode_overread_bound buf len :
  (JavaModifiedUtf8.decode [0xE0] 1 = Throw UndefinedBehaviour) /\
  (len + 2 <= Z.of_nat (length buf) -> exists s, JavaModifiedUtf8.decode buf len = Ok s).
Proof.
  split; [reflexivity|]. intros Hlen. apply JavaModifiedUtf8.decode_loop_total; lia.
Qed.

(** The euro sign at the end of a buffer, cut after its first byte: the two bytes that
    follow are loaded too. *)
Lemma decode_overread_bound_witness :
  exists s, JavaModifiedUtf8.decode [0xE2; 0x82; 0xAC] 1 = Ok s.
Proof. apply (decode_overread_bound [0xE2; 0x82; 0xAC] 1). simpl. lia. Defined.
