(* ===== verification/Utf8Strings.v ===== *)
(** Strings of bytes on the wire ([std::string] in [DataOutput::writeString] and
    [DataInput::readString]): those that are not plain ASCII go through UTF-16. The
    conversions are the standard library's, [to_utf16] and [to_utf8]. *)
From S2P Require Import Prelude JavaModifiedUtf8 DataOutput DataOutputFacts DataInput DataInputFacts.

Import DataOutput.
#[local] Arguments be_bytes : simpl never.

Section Utf8Strings.
Context `{AllocatorOk} (to_utf16 to_utf8 : list Z -> outcome (list Z)).

(** The UTF-16 form of a string, where there is one. *)
Definition utf16 (s : list Z) : list Z := match to_utf16 s with Ok u => u | Throw _ => [] end.

(** What the conversions do with a string of valid UTF-8 that is not too long: they are
    inverse, and the modified UTF-8 form is not longer than [writeString] reckons. *)
Record text_ok (s : list Z) : Prop := {
  text_bytes : Forall (in_u 8) s;
  text_to : to_utf16 s = Ok (utf16 s);
  text_from : to_utf8 (utf16 s) = Ok s;
  text_units : JavaModifiedUtf8.u16string_ok (utf16 s);
  text_length : Z.of_nat (length s) < 2 ^ 32 /\ Z.of_nat (length (utf16 s)) < 2 ^ 32;
  text_encoded : JavaModifiedUtf8.encodedLength (utf16 s) <= utfLength s
}.

Definition enc_text (s : list Z) : list Z :=
  if Z.of_nat (length s) <? utfLength s then
    if 0xFFFF <? utfLength s then CacheableStringHuge :: enc_utf16Huge (utf16 s)
    else CacheableString :: enc_jmutf8 (utf16 s)
  else if 0xFFFF <? Z.of_nat (length s) then CacheableASCIIStringHuge :: enc_asciiHuge s
  else CacheableASCIIString :: enc_ascii s.

Lemma bytes_are_units s : Forall (in_u 8) s -> JavaModifiedUtf8.u16string_ok s.
Proof. apply Forall_impl. intros c. unfold in_u. lia. Qed.

Lemma longer_nonempty s : Z.of_nat (length s) < utfLength s -> (length s =? 0)%nat = false.
Proof. by destruct s. Qed.

Lemma emits_lift {A} (o : outcome A) (a : A) (f : A -> ST t unit) l :
  o = Ok a -> emits (f a) l -> emits (x ← st_lift o; f x) l.
Proof. by intros ->. Qed.

Lemma reads_lift {A} (m : ST DataInput.t (list Z)) (f : list Z -> outcome A) l u (a : A) :
  reads m l u -> f u = Ok a -> reads (x ← m; st_lift (f x)) l a.
Proof.
  intros Hm Hf. rewrite <- (app_nil_r l). eapply reads_bind; [exact Hm|]. rewrite Hf. apply reads_ret.
Qed.

Lemma emits_writeString_string s : text_ok s -> emits (writeString_string to_utf16 s) (enc_text s).
Proof.
  intros [Hb Ht _ Hu [Hl1 Hl2] He]. unfold writeString_string, writeString_with, enc_text.
  destruct (Z.ltb_spec (Z.of_nat (length s)) (utfLength s)) as [Hlt|_].
  - unfold writeUtf16Huge_string, writeJavaModifiedUtf8_string. rewrite (longer_nonempty s Hlt).
    destruct (Z.ltb_spec 0xFFFF (utfLength s)); (apply (emits_bind _ _ [_]); [apply emits_write|]);
      (eapply emits_lift; [exact Ht|]).
    + by apply emits_writeUtf16Huge.
    + apply emits_writeJavaModifiedUtf8. lia.
  - destruct (Z.ltb_spec 0xFFFF (Z.of_nat (length s))).
    + apply (emits_bind _ _ [_]); [apply emits_write|by apply emits_writeAsciiHuge].
    + apply (emits_bind _ _ [_]); [apply emits_write|by apply emits_writeAscii].
Qed.

Lemma reads_readString_string s : text_ok s -> reads (DataInput.readString_string to_utf8) (enc_text s) s.
Proof.
  intros [Hb Ht Hf Hu [Hl1 Hl2] He]. unfold enc_text, DataInput.readString_string.
  destruct (Z.ltb_spec (Z.of_nat (length s)) (utfLength s)) as [_|Hge].
  - destruct (Z.ltb_spec 0xFFFF (utfLength s));
      (eapply (reads_bind _ _ [_]); [apply reads_read|]); simpl; (eapply reads_lift; [|exact Hf]).
    + by apply reads_readUtf16Huge.
    + apply reads_readJavaModifiedUtf8; [done|lia].
  - rewrite utfLength_encodedLength in Hge by (by apply bytes_are_units).
    pose proof (short_encoding_ascii s (bytes_are_units s Hb) Hge).
    destruct (Z.ltb_spec 0xFFFF (Z.of_nat (length s)));
      (eapply (reads_bind _ _ [_]); [apply reads_read|]); simpl.
    + by apply reads_readAsciiHuge.
    + by apply reads_readAscii.
Qed.

Definition enc_texts (ss : list (list Z)) : list Z :=
  enc_arrayLen (Z.of_nat (length ss)) ++ (ss ≫= enc_text).

Lemma reads_readStringArray ss :
  Z.of_nat (length ss) < 2 ^ 31 -> Forall text_ok ss ->
  reads (DataInput.readStringArray to_utf8) (enc_texts ss) ss.
Proof.
  intros Hlen Hss. eapply reads_bind; [apply reads_readArrayLength; lia|].
  destruct (Z.ltb_spec 0 (Z.of_nat (length ss))) as [|Hz].
  - rewrite Nat2Z.id. apply reads_repeat; [done|]. eapply Forall_impl; [|exact Hss].
    intros. by apply reads_readString_string.
  - destruct ss; [apply reads_ret|simpl in Hz; lia].
Qed.

End Utf8Strings.
