(* ===== verification/EventId.v ===== *)
(** Event identifiers (src/cppcache/src/EventId.cpp, EventId.hpp): the wire format of an
    identifier and the per-thread counters that make identifiers unique. *)
From S2P Require Import Prelude DataOutput DataOutputFacts DataInput DataInputFacts InputSafety.

Module EventId.

(** [clientId_] is the used prefix of the 512-byte array. *)
Record t := mk {
  clientId_ : list Z;
  clientIdLength_ : Z;
  threadId_ : Z;
  sequenceId_ : Z;
  bucketId_ : Z;
  breadcrumbCounter_ : Z
}.

Definition create (memId : list Z) (memIdLen thr seq : Z) : t :=
  mk (take (Z.to_nat memIdLen) memId) memIdLen thr seq (-1) 0.

Definition longCode : Z := 3.

Definition toData `{Allocator} (e : t) : ST DataOutput.t unit :=
  DataOutput.writeBytes (Some (clientId_ e)) (clientIdLength_ e);;
  DataOutput.writeArrayLen 18;;
  DataOutput.write (u8 longCode);;
  DataOutput.writeInt_int64 (threadId_ e);;
  DataOutput.write (u8 longCode);;
  DataOutput.writeInt_int64 (sequenceId_ e);;
  DataOutput.writeInt_int32 (bucketId_ e);;
  DataOutput.write_int8 (breadcrumbCounter_ e).

Definition getEventIdData (numberCode : Z) : ST DataInput.t Z :=
  if numberCode =? 0 then DataInput.read
  else if numberCode =? 1 then DataInput.readInt16
  else if numberCode =? 2 then DataInput.readInt32
  else if numberCode =? 3 then DataInput.readInt64
  else mret 0.

(** The copy into the 512-byte array is not bounded by it. *)
Definition fromData : ST DataInput.t t :=
  clientIdLength ← DataInput.readArrayLength;
  clientId ← DataInput.readBytesOnly (u64 clientIdLength);
  (if 512 <? Z.of_nat (length clientId) then st_throw UndefinedBehaviour else mret tt);;
  DataInput.readArrayLength;;
  code1 ← DataInput.read;
  threadId ← getEventIdData code1;
  code2 ← DataInput.read;
  sequenceId ← getEventIdData code2;
  bucketId ← DataInput.readInt32;
  breadcrumbCounter ← DataInput.read;
  mret (mk clientId clientIdLength threadId sequenceId bucketId breadcrumbCounter).

Definition writeIdsData `{Allocator} (e : t) : ST DataOutput.t unit :=
  DataOutput.writeInt_int32 18;;
  DataOutput.write (u8 0);;
  DataOutput.write (u8 longCode);;
  DataOutput.writeInt_int64 (threadId_ e);;
  DataOutput.write (u8 longCode);;
  DataOutput.writeInt_int64 (sequenceId_ e).

(** *** The counters

    [counter] is [ThreadIdCounter]'s atomic; [tss] holds the [EventIdTSS] of the threads
    that have one, created at a thread's first access. *)
Record EventIdTSS := mkTSS { tss_threadId : Z; tss_sequenceId : Z }.
Record Counters := mkCounters { counter : Z; tss : gmap nat EventIdTSS }.

Definition instance_ (thread : nat) : ST Counters EventIdTSS := fun st =>
  match tss st !! thread with
  | Some s => Ok (s, st)
  | None =>
    let s := mkTSS (counter st + 1) 0 in
    Ok (s, mkCounters (counter st + 1) (<[thread := s]> (tss st)))
  end.

Definition nextSequenceId (thread : nat) : ST Counters Z :=
  s ← instance_ thread;
  let seq := tss_sequenceId s + 1 in
  st_modify (fun st => mkCounters (counter st) (<[thread := mkTSS (tss_threadId s) seq]> (tss st)));;
  mret seq.

Definition currentSequenceId (thread : nat) : ST Counters Z :=
  s ← instance_ thread; mret (tss_sequenceId s).

Definition initFromTSS (thread : nat) : ST Counters (Z * Z) :=
  s ← instance_ thread;
  seq ← nextSequenceId thread;
  mret (tss_threadId s, seq).

Definition initFromTSS_SameThreadIdAndSameSequenceId (thread : nat) : ST Counters (Z * Z) :=
  s ← instance_ thread;
  seq ← currentSequenceId thread;
  mret (tss_threadId s, seq).

(** The constructor [EventId(doInit, reserveSize, fullValueAfterDeltaFail)], run by [thread]. *)
Definition construct (thread : nat) (doInit : bool) (reserveSize : nat)
    (fullValueAfterDeltaFail : bool) : ST Counters t :=
  if negb doInit then mret (mk [] 0 0 0 (-1) 0)
  else
    '(thr, seq) ← (if fullValueAfterDeltaFail
                   then initFromTSS_SameThreadIdAndSameSequenceId thread
                   else initFromTSS thread);
    st_repeat reserveSize (nextSequenceId thread);;
    mret (mk [] 0 thr seq (-1) 0).

(** *** Wire format *)

Record valid (e : t) : Prop := {
  valid_len : clientIdLength_ e = Z.of_nat (length (clientId_ e)) /\ clientIdLength_ e <= 512;
  valid_thread : in_s 64 (threadId_ e);
  valid_seq : in_s 64 (sequenceId_ e);
  valid_bucket : in_s 32 (bucketId_ e);
  valid_crumb : in_s 8 (breadcrumbCounter_ e)
}.

Definition enc (e : t) : list Z :=
  (enc_arrayLen (clientIdLength_ e) ++ clientId_ e) ++ enc_arrayLen 18 ++
  [3] ++ be_bytes 8 (u64 (threadId_ e)) ++ [3] ++ be_bytes 8 (u64 (sequenceId_ e)) ++
  be_bytes 4 (u32 (bucketId_ e)) ++ [u8 (breadcrumbCounter_ e)].

Lemma emits_toData `{AllocatorOk} e : valid e -> emits (toData e) (enc e).
Proof.
  intros [[Hl Hm] _ _ _ _]. unfold toData, enc. rewrite Hl in *.
  repeat (apply emits_bind); auto with geode. apply emits_writeBytes. lia.
Qed.

Lemma reads_eventIdData v : in_s 64 v -> reads (getEventIdData (s8 3)) (be_bytes 8 (u64 v)) v.
Proof.
  intros Hv. change (getEventIdData (s8 3)) with DataInput.readInt64.
  eapply reads_eq; [apply reads_readInt64|]. by rewrite wrapS_wrapU, wrapS_id.
Qed.

Lemma reads_fromData e : valid e -> reads fromData (enc e) e.
Proof.
  intros [[Hl Hm] Ht Hs Hb Hc]. unfold fromData, enc. rewrite <- app_assoc.
  rewrite Hl in *. eapply reads_bind; [apply reads_readArrayLength; lia|].
  rewrite wrapU_id by (unfold in_u; lia). eapply reads_bind; [apply reads_readBytesOnly|].
  destruct (Z.ltb_spec 512 (Z.of_nat (length (clientId_ e)))); [lia|].
  eapply reads_bind0; [apply reads_ret|].
  eapply reads_bind; [apply reads_readArrayLength; lia|].
  eapply reads_bind; [apply reads_read|]. eapply reads_bind; [by apply reads_eventIdData|].
  eapply reads_bind; [apply reads_read|]. eapply reads_bind; [by apply reads_eventIdData|].
  eapply reads_bind; [apply reads_readInt32|].
  eapply reads_eq; [apply (reads_map _ (fun c => mk _ _ _ _ _ c)), reads_read|].
  rewrite wrapS_wrapU, (wrapS_id 32), wrapS_wrapU, (wrapS_id 8) by done.
  rewrite <- Hl. by destruct e.
Qed.

(** An event identifier is a codec for identifiers that fit the array. *)
#[export] Instance EventId_codec `{AllocatorOk} : Codec toData fromData valid := {
  codec_enc := enc;
  codec_emits := emits_toData;
  codec_reads := reads_fromData
}.

Lemma enc_length e : valid e -> Z.of_nat (length (enc e)) <= 600.
Proof.
  intros [[Hl Hm] _ _ _ _]. unfold enc. rewrite !length_app, !length_be_bytes.
  pose proof (enc_arrayLen_length (clientIdLength_ e)). pose proof (enc_arrayLen_length 18).
  simpl length. lia.
Qed.

(** An event identifier written with [EventId::toData] is read back unchanged by
    [EventId::fromData], which consumes exactly the bytes written. *)
Theorem eventid_roundtrip `{AllocatorOk} e :
  valid e -> transmit toData fromData e = Ok (e, 0).
Proof.
  intros Hv. apply (transmit_spec _ _ _ _ (enc e)); [by apply emits_toData|by apply reads_fromData|].
  pose proof (enc_length e Hv). lia.
Qed.

#[local] Existing Instance always_alloc.
#[local] Existing Instance always_alloc_ok.

Lemma eventid_roundtrip_witness :
  transmit toData fromData (create [1; 2; 255] 3 7 (-9)) = Ok (create [1; 2; 255] 3 7 (-9), 0).
Proof. apply eventid_roundtrip. constructor; simpl; try (split; simpl); unfold in_s; simpl; lia. Defined.

(** [EventId::fromData] copies as many bytes as the stream says into the 512-byte
    [clientId_] array: every member id that is longer than the array and complete in the
    input is written past the array's end. *)
Theorem eventid_fromData_overflow memId rest :
  512 < Z.of_nat (length memId) < 2 ^ 31 ->
  let buf := (enc_arrayLen (Z.of_nat (length memId)) ++ memId) ++ rest in
  Z.of_nat (length buf) < 2 ^ 62 ->
  fromData (DataInput.construct buf (Z.of_nat (length buf))) = Throw UndefinedBehaviour.
Proof.
  intros Hm buf Hbuf. unfold fromData, mbind, ST_bind.
  assert (E := reads_readArrayLength (Z.of_nat (length memId)) ltac:(lia) [] (memId ++ rest)).
  assert (E2 := reads_readBytesOnly memId (enc_arrayLen (Z.of_nat (length memId))) rest).
  subst buf. rewrite <- app_assoc in *. change (DataInput.construct ?b _) with (at_ [] b).
  rewrite E by done. simpl app at 1. rewrite wrapU_id by (unfold in_u; lia). rewrite E2 by done.
  by destruct (Z.ltb_spec 512 (Z.of_nat (length memId))); [|lia].
Qed.

Lemma eventid_fromData_overflow_witness :
  let buf := (enc_arrayLen 600 ++ replicate 600 0) ++ [] in
  fromData (DataInput.construct buf (Z.of_nat (length buf))) = Throw UndefinedBehaviour.
Proof. apply (eventid_fromData_overflow (replicate 600 0) []); vm_compute; auto. Defined.

(** *** Uniqueness *)

(** The [EventIdTSS] a thread finds, and the counter after it was found. *)
Definition tss_of (st : Counters) (thread : nat) : EventIdTSS * Z :=
  match tss st !! thread with
  | Some s => (s, counter st)
  | None => (mkTSS (counter st + 1) 0, counter st + 1)
  end.

Lemma nextSequenceId_spec thread st s :
  tss st !! thread = Some s ->
  nextSequenceId thread st = Ok (tss_sequenceId s + 1,
    mkCounters (counter st) (<[thread := mkTSS (tss_threadId s) (tss_sequenceId s + 1)]> (tss st))).
Proof. intros E. unfold nextSequenceId, mbind, ST_bind, instance_. by rewrite E. Qed.

Lemma reserve_spec thread n : forall st s,
  tss st !! thread = Some s ->
  exists l, st_repeat n (nextSequenceId thread) st = Ok (l,
    mkCounters (counter st) (<[thread := mkTSS (tss_threadId s) (tss_sequenceId s + Z.of_nat n)]> (tss st))).
Proof.
  induction n as [|n IH]; intros st s E.
  - exists []. simpl. unfold mret, ST_ret. rewrite Z.add_0_r, insert_id; [by destruct st|].
    rewrite E. by destruct s.
  - destruct (IH (mkCounters (counter st) (<[thread := mkTSS (tss_threadId s) (tss_sequenceId s + 1)]> (tss st)))
      (mkTSS (tss_threadId s) (tss_sequenceId s + 1))) as [l El]; [apply lookup_insert_eq|].
    exists (tss_sequenceId s + 1 :: l). simpl. unfold mbind at 1, ST_bind.
    rewrite (nextSequenceId_spec _ _ _ E). unfold mbind, ST_bind.
    rewrite El. simpl. rewrite insert_insert_eq.
    replace (tss_sequenceId s + 1 + Z.of_nat n) with (tss_sequenceId s + Z.of_nat (S n)) by lia. done.
Qed.

(** An initializing constructor call in one equation. *)
Lemma construct_spec thread reserve st :
  let '(s, c) := tss_of st thread in
  construct thread true reserve false st =
    Ok (mk [] 0 (tss_threadId s) (tss_sequenceId s + 1) (-1) 0,
        mkCounters c (<[thread := mkTSS (tss_threadId s) (tss_sequenceId s + 1 + Z.of_nat reserve)]> (tss st))).
Proof.
  unfold tss_of. destruct (tss st !! thread) as [s|] eqn:E.
  - destruct (reserve_spec thread reserve
      (mkCounters (counter st) (<[thread := mkTSS (tss_threadId s) (tss_sequenceId s + 1)]> (tss st)))
      (mkTSS (tss_threadId s) (tss_sequenceId s + 1))) as [l El]; [apply lookup_insert_eq|].
    unfold construct, initFromTSS. simpl. unfold mbind, ST_bind, instance_. rewrite E.
    rewrite (nextSequenceId_spec _ _ _ E). simpl. rewrite El. simpl. by rewrite insert_insert_eq.
  - destruct (reserve_spec thread reserve
      (mkCounters (counter st + 1) (<[thread := mkTSS (counter st + 1) 1]> (<[thread := mkTSS (counter st + 1) 0]> (tss st))))
      (mkTSS (counter st + 1) 1)) as [l El]; [apply lookup_insert_eq|].
    unfold construct, initFromTSS. simpl. unfold mbind, ST_bind, instance_. rewrite E.
    rewrite (nextSequenceId_spec _ _ (mkTSS (counter st + 1) 0)) by apply lookup_insert_eq. simpl.
    change (0 + 1) with 1. rewrite El. simpl. by rewrite !insert_insert_eq.
Qed.

(** Any interleaving of constructor calls by any number of threads. [log] holds the
    identifiers issued for new operations, latest first, with the numbers reserved. *)
Inductive reachable : Counters -> list (t * nat) -> Prop :=
| reach_init : reachable (mkCounters 0 ∅) []
| reach_new thread reserve st log e st' :
    reachable st log -> construct thread true reserve false st = Ok (e, st') ->
    reachable st' ((e, reserve) :: log)
| reach_retry thread st log e st' :
    reachable st log -> construct thread true 0 true st = Ok (e, st') ->
    reachable st' log
| reach_deserialize thread st log e st' :
    reachable st log -> construct thread false 0 false st = Ok (e, st') ->
    reachable st' log.

Record counters_inv (st : Counters) (log : list (t * nat)) : Prop := {
  inv_bound : forall th s, tss st !! th = Some s -> tss_threadId s <= counter st;
  inv_inj : forall th1 th2 s1 s2, tss st !! th1 = Some s1 -> tss st !! th2 = Some s2 ->
    tss_threadId s1 = tss_threadId s2 -> th1 = th2;
  inv_log : forall e r, (e, r) ∈ log -> exists th s, tss st !! th = Some s /\
    tss_threadId s = threadId_ e /\ sequenceId_ e + Z.of_nat r <= tss_sequenceId s;
  inv_pairs : ForallOrdPairs (fun x y => threadId_ x.1 = threadId_ y.1 ->
    sequenceId_ y.1 + Z.of_nat y.2 < sequenceId_ x.1) log
}.

(** Updating a thread's record to a later sequence number keeps the invariant. *)
Lemma counters_inv_advance st log th s c :
  counters_inv st log -> tss_of st th = (s, c) ->
  forall n, tss_sequenceId s <= n ->
  counters_inv (mkCounters c (<[th := mkTSS (tss_threadId s) n]> (tss st))) log.
Proof.
  intros [Hb Hi Hl Hp] Hs n Hn. unfold tss_of in Hs.
  assert (Hown : forall th' s', th' <> th -> tss st !! th' = Some s' -> tss_threadId s' <> tss_threadId s).
  { intros th' s' Hne E' Heq. destruct (tss st !! th) as [s0|] eqn:E; simplify_eq.
    - by apply Hne, (Hi th' th s' s).
    - apply Hb in E'. simpl in Heq. lia. }
  assert (Hc : counter st <= c /\ tss_threadId s <= c).
  { destruct (tss st !! th) as [s0|] eqn:E; simplify_eq; [apply Hb in E|simpl]; lia. }
  constructor; simpl; [| | |done].
  - intros th' s' [[<- <-]|[_ E]]%lookup_insert_Some; simpl; [lia|]. apply Hb in E. lia.
  - intros th1 th2 s1 s2 [[<- <-]|[N1 E1]]%lookup_insert_Some [[<- <-]|[N2 E2]]%lookup_insert_Some Heq;
      simpl in *; [done| | |by eapply Hi].
    + by destruct (Hown th2 s2).
    + by destruct (Hown th1 s1).
  - intros e r (th' & s' & E & Et & Es)%Hl. destruct (decide (th' = th)) as [->|Hne].
    + rewrite E in Hs. simplify_eq. eexists th, _. rewrite lookup_insert_eq. split; [done|]. simpl. lia.
    + exists th', s'. by rewrite lookup_insert_ne.
Qed.

Lemma counters_inv_reachable st log : reachable st log -> counters_inv st log.
Proof.
  induction 1 as [|th r st log e st' _ IH E|th st log e st' _ IH E|th st log e st' _ IH E].
  - constructor; simpl; try (intros; set_solver); [done..|constructor].
  - pose proof (construct_spec th r st) as Hsp. destruct (tss_of st th) as [s c] eqn:Es.
    rewrite Hsp in E. simplify_eq.
    pose proof (counters_inv_advance _ _ _ _ _ IH Es (tss_sequenceId s + 1 + Z.of_nat r) ltac:(lia)) as [Hb Hi Hl Hp].
    constructor; [done..| |].
    + intros e' r' [[= -> ->]|Hin]%elem_of_cons; [|by apply Hl].
      eexists th, _. simpl. rewrite lookup_insert_eq. split; [done|]. simpl. lia.
    + constructor; [|done]. apply Forall_forall. intros [e' r'] Hin%list_elem_of_In. simpl. intros Heq.
      destruct (inv_log _ _ IH e' r' Hin) as (th' & s' & E' & Et & Es').
      unfold tss_of in Es. destruct (tss st !! th) as [s0|] eqn:E0; simplify_eq; simpl in *.
      * assert (th' = th) as -> by (eapply (inv_inj _ _ IH); eauto; congruence). simplify_eq. lia.
      * apply (inv_bound _ _ IH) in E'. lia.
  - unfold construct, initFromTSS_SameThreadIdAndSameSequenceId, currentSequenceId, mbind, ST_bind, instance_ in E.
    simpl in E. destruct (tss st !! th) as [s|] eqn:Es; simpl in E.
    + rewrite Es in E. simpl in E. unfold mret, ST_ret in E. simplify_eq. done.
    + rewrite lookup_insert_eq in E. simpl in E. unfold mret, ST_ret in E. simplify_eq.
      apply (counters_inv_advance st log th (mkTSS (counter st + 1) 0) (counter st + 1) IH); [|simpl; lia].
      unfold tss_of. by rewrite Es.
  - unfold construct in E. simpl in E. unfold mret, ST_ret in E. by simplify_eq.
Qed.

(** However the constructor calls of the client's threads interleave, no two
    operations are given the same event identifier: the blocks of sequence numbers
    ([sequenceId_] and the [reserveSize] numbers after it) issued under one thread id are
    disjoint, and later operations of a thread get larger numbers. *)
Theorem eventid_unique st log :
  reachable st log ->
  ForallOrdPairs (fun later earlier => threadId_ later.1 = threadId_ earlier.1 ->
    sequenceId_ earlier.1 + Z.of_nat earlier.2 < sequenceId_ later.1) log.
Proof. intros H. apply (inv_pairs _ _ (counters_inv_reachable _ _ H)). Qed.

Lemma eventid_unique_witness :
  ForallOrdPairs (fun later earlier : t * nat => threadId_ later.1 = threadId_ earlier.1 ->
    sequenceId_ earlier.1 + Z.of_nat earlier.2 < sequenceId_ later.1)
    [(mk [] 0 1 4 (-1) 0, 0%nat); (mk [] 0 2 1 (-1) 0, 0%nat); (mk [] 0 1 1 (-1) 0, 2%nat)].
Proof.
  eapply (eventid_unique (mkCounters 2 (<[5%nat := mkTSS 1 4]> {[8%nat := mkTSS 2 1]}))).
  eapply (reach_new 5 0); [eapply (reach_new 8 0); [eapply (reach_new 5 2); [apply reach_init|]|]|];
    vm_compute; reflexivity.
Defined.

End EventId.
