(* ===== verification/EventIdMap.v ===== *)
(** Duplicate detection of notifications (src/cppcache/src/EventIdMap.cpp, EventSource.cpp):
    the map from event sources to the latest sequence number seen, its acknowledgement
    flags and its expiry. The steady clock is an argument of the operations that read it.
    The unordered map is an association list searched with the source's own equality. *)
From S2P Require Import Prelude EventId.

Module EventSource.

Record t := mk { m_srcId : option (list Z); m_thrId : Z }.

(** [memId] with the eight bytes of [thrId] in memory order behind it. *)
Definition construct (memId : option (list Z)) (memIdLen thrId : Z) : t :=
  match memId with
  | None => mk None (-1)
  | Some bs =>
    if memIdLen <=? 0 then mk None (-1)
    else mk (Some (take (Z.to_nat memIdLen) bs ++ rev (be_bytes 8 (u64 thrId)))) thrId
  end.

Definition getSrcIdLen (s : t) : Z :=
  match m_srcId s with Some b => Z.of_nat (length b) | None => 0 end.
Definition getMemIdLen (s : t) : Z := s32 (getSrcIdLen s - 8).

(** [operator==]: a source without an id differs from every source, itself included. *)
Definition eqb (lhs rhs : t) : bool :=
  match m_srcId lhs, m_srcId rhs with
  | Some a, Some b =>
    if (length a =? length b)%nat then bool_decide (a = b) else false
  | _, _ => false
  end.

Lemma eqb_true a b : eqb a b = true -> exists i, m_srcId a = Some i /\ m_srcId b = Some i.
Proof. unfold eqb. repeat case_match; try done. intros ->%bool_decide_eq_true_1. eauto. Qed.

Lemma eqb_refl a i : m_srcId a = Some i -> eqb a a = true.
Proof. intros E. unfold eqb. rewrite E, Nat.eqb_refl. by apply bool_decide_eq_true_2. Qed.

Lemma eqb_sym a b : eqb a b = eqb b a.
Proof.
  unfold eqb. destruct (m_srcId a) as [x|], (m_srcId b) as [y|]; try done.
  rewrite Nat.eqb_sym. case_match; [|done]. apply bool_decide_ext. naive_solver.
Qed.

Lemma eqb_trans a b c : eqb a b = true -> eqb b c = eqb a c.
Proof. intros (i & Ea & Eb)%eqb_true. unfold eqb. by rewrite Ea, Eb. Qed.

End EventSource.

Module EventSequence.

Record t := mk { m_seqNum : Z; m_acked : bool; m_deadline : Z }.

Definition construct (now seqNum : Z) : t := mk seqNum false now.
Definition touch (now age : Z) (s : t) : t := mk (m_seqNum s) (m_acked s) (now + age).
Definition touch_seq (now seqNum age : Z) (s : t) : t := mk seqNum false (now + age).
Definition setAcked (acked : bool) (s : t) : t := mk (m_seqNum s) acked (m_deadline s).
Definition leb (lhs rhs : t) : bool := m_seqNum lhs <=? m_seqNum rhs.

End EventSequence.

Module EventIdMap.

Abbreviation entry := (EventSource.t * EventSequence.t)%type.
Record t := mk { m_expiry : Z; m_map : list entry }.

Fixpoint find (key : EventSource.t) (m : list entry) : option EventSequence.t :=
  match m with
  | [] => None
  | (k, v) :: m' => if EventSource.eqb k key then Some v else find key m'
  end.

(** [m_map[key] = value]. *)
Fixpoint assign (key : EventSource.t) (value : EventSequence.t) (m : list entry) : list entry :=
  match m with
  | [] => [(key, value)]
  | (k, v) :: m' => if EventSource.eqb k key then (k, value) :: m' else (k, v) :: assign key value m'
  end.

(** [m_map.erase(key)]. *)
Fixpoint erase (key : EventSource.t) (m : list entry) : list entry :=
  match m with
  | [] => []
  | (k, v) :: m' => if EventSource.eqb k key then m' else (k, v) :: erase key m'
  end.

Definition init (expirySecs : Z) (st : t) : t := mk expirySecs (m_map st).
Definition clear (st : t) : t := mk (m_expiry st) [].

Definition make (now : Z) (eventid : EventId.t) : entry :=
  (EventSource.construct (Some (EventId.clientId_ eventid)) (EventId.clientIdLength_ eventid)
     (EventId.threadId_ eventid),
   EventSequence.construct now (EventId.sequenceId_ eventid)).

Definition isDuplicate (key : EventSource.t) (value : EventSequence.t) (st : t) : bool :=
  match find key (m_map st) with
  | Some v => EventSequence.leb value v
  | None => false
  end.

Definition put (now : Z) (key : EventSource.t) (value : EventSequence.t) (onlynew : bool)
    (st : t) : bool * t :=
  let value := EventSequence.touch now (m_expiry st) value in
  match find key (m_map st) with
  | Some v =>
    if onlynew && EventSequence.leb value v then (false, st)
    else (true, mk (m_expiry st) (assign key value (m_map st)))
  | None => (true, mk (m_expiry st) (assign key value (m_map st)))
  end.

Definition touch (now : Z) (key : EventSource.t) (st : t) : bool * t :=
  match find key (m_map st) with
  | Some v =>
    (true, mk (m_expiry st) (assign key (EventSequence.touch now (m_expiry st) v) (m_map st)))
  | None => (false, st)
  end.

Definition remove (key : EventSource.t) (st : t) : bool * t :=
  match find key (m_map st) with
  | Some _ => (true, mk (m_expiry st) (erase key (m_map st)))
  | None => (false, st)
  end.

(** The returned pairs share their sequence objects with the map, so they are acked too. *)
Definition getUnAcked (st : t) : list entry * t :=
  ((fun e => (e.1, EventSequence.setAcked true e.2)) <$>
     filter (fun e => EventSequence.m_acked e.2 = false) (m_map st),
   mk (m_expiry st) ((fun e => (e.1, EventSequence.setAcked true e.2)) <$> m_map st)).

Definition clearAcked1 (acc : Z * t) (item : entry) : Z * t :=
  let '(cleared, st) := acc in
  match find item.1 (m_map st) with
  | Some v => (cleared + 1,
      mk (m_expiry st) (assign item.1 (EventSequence.setAcked false v) (m_map st)))
  | None => (cleared, st)
  end.

Definition clearAckedFlags (entries : list entry) (st : t) : Z * t :=
  foldl clearAcked1 (0, st) entries.

(** The clock is read once for every entry that is examined. *)
Fixpoint expired_entries (now : nat -> Z) (i : nat) (onlyacked : bool) (m : list entry) : list entry :=
  match m with
  | [] => []
  | e :: m' =>
    if onlyacked && negb (EventSequence.m_acked e.2) then expired_entries now (S i) onlyacked m'
    else if EventSequence.m_deadline e.2 <? now i then e :: expired_entries now (S i) onlyacked m'
    else expired_entries now (S i) onlyacked m'
  end.

Definition expire (now : nat -> Z) (onlyacked : bool) (st : t) : Z * t :=
  let entries := expired_entries now 0 onlyacked (m_map st) in
  foldl (fun '(expired, st) e => (expired + 1, mk (m_expiry st) (erase e.1 (m_map st)))) (0, st) entries.

(** *** The association list *)

Lemma find_assign_eq k i v m : EventSource.m_srcId k = Some i -> find k (assign k v m) = Some v.
Proof.
  intros Hk. induction m as [|[k' v'] m IH]; simpl.
  - by rewrite (EventSource.eqb_refl _ _ Hk).
  - destruct (EventSource.eqb k' k) eqn:E; simpl; rewrite E; done.
Qed.

Lemma find_eqb k k' m : EventSource.eqb k k' = true -> find k m = find k' m.
Proof.
  intros E. induction m as [|[k0 v0] m IH]; simpl; [done|]. rewrite IH.
  by rewrite (EventSource.eqb_sym k0 k), (EventSource.eqb_sym k0 k'), (EventSource.eqb_trans k k' k0 E).
Qed.

(** An entry stored under [k0 == k] is not found for a key that differs from [k]. *)
Lemma eqb_other k0 k k' :
  EventSource.eqb k0 k = true -> EventSource.eqb k k' = false -> EventSource.eqb k0 k' = false.
Proof. intros E1 E2. by rewrite <- (EventSource.eqb_trans k0 k k'). Qed.

Lemma find_assign_ne k k' v m :
  EventSource.eqb k k' = false -> find k' (assign k v m) = find k' m.
Proof.
  intros Hne. induction m as [|[k0 v0] m IH]; simpl; [by rewrite Hne|].
  destruct (EventSource.eqb k0 k) eqn:E; simpl.
  - by rewrite (eqb_other k0 k k').
  - by rewrite IH.
Qed.

Lemma find_erase_ne k k' m : EventSource.eqb k k' = false -> find k' (erase k m) = find k' m.
Proof.
  intros Hne. induction m as [|[k0 v0] m IH]; simpl; [done|].
  destruct (EventSource.eqb k0 k) eqn:E; simpl.
  - by rewrite (eqb_other k0 k k').
  - by rewrite IH.
Qed.

Lemma find_map f k m : find k ((fun e => (e.1, f e.2)) <$> m) = f <$> find k m.
Proof. induction m as [|[k0 v0] m IH]; [done|]. simpl. destruct (EventSource.eqb k0 k); [done|exact IH]. Qed.

(** *** Invariant: every source has an id, and no two entries have equal sources. *)

Definition unique (m : list entry) : Prop :=
  ForallOrdPairs (fun e e' => EventSource.eqb e.1 e'.1 = false) m.

Lemma assign_keys k v m e : e ∈ assign k v m -> (exists e', e' ∈ m /\ e'.1 = e.1) \/ e = (k, v).
Proof.
  induction m as [|[k0 v0] m IH]; simpl; [set_solver|].
  destruct (EventSource.eqb k0 k); intros [->|Hin]%elem_of_cons.
  - left. exists (k0, v0). set_solver.
  - left. exists e. set_solver.
  - left. exists (k0, v0). set_solver.
  - destruct (IH Hin) as [(e' & Hin' & E)| ->]; [left; exists e'; set_solver|by right].
Qed.

Lemma unique_cons e m :
  unique (e :: m) <-> (forall e', e' ∈ m -> EventSource.eqb e.1 e'.1 = false) /\ unique m.
Proof.
  unfold unique. split.
  - inversion 1 as [|? ? Hf Hu]; subst. rewrite Forall_forall in Hf. split; [|done].
    intros e' Hin. by apply Hf, list_elem_of_In.
  - intros [Hf Hu]. constructor; [|done]. apply Forall_forall. intros e' Hin. by apply Hf, list_elem_of_In.
Qed.

Lemma unique_assign k v m : unique m -> unique (assign k v m).
Proof.
  induction m as [|[k0 v0] m IH]; intros Hu; simpl; [repeat constructor|].
  apply unique_cons in Hu as [Hf Hu]. destruct (EventSource.eqb k0 k) eqn:E; apply unique_cons; (split; [|auto]).
  - done.
  - intros e [(e' & Hin & E')| ->]%assign_keys; simpl; [|done]. rewrite <- E'. by apply Hf.
Qed.

Lemma erase_sub k m e : e ∈ erase k m -> e ∈ m.
Proof. induction m as [|[k0 v0] m IH]; simpl; [done|]. case_match; set_solver. Qed.

Lemma unique_erase k m : unique m -> unique (erase k m).
Proof.
  induction m as [|[k0 v0] m IH]; intros Hu; simpl; [done|]. apply unique_cons in Hu as [Hf Hu].
  case_match; [done|]. apply unique_cons. split; [|auto]. intros e Hin%erase_sub. by apply Hf.
Qed.

Lemma find_None_all k m : (forall e, e ∈ m -> EventSource.eqb e.1 k = false) -> find k m = None.
Proof.
  induction m as [|[k0 v0] m IH]; intros Hf; simpl; [done|].
  pose proof (Hf (k0, v0) ltac:(set_solver)) as H0. simpl in H0. rewrite H0. apply IH. set_solver.
Qed.

Lemma find_erase_eq k m : unique m -> find k (erase k m) = None.
Proof.
  induction m as [|[k0 v0] m IH]; intros Hu; simpl; [done|]. apply unique_cons in Hu as [Hf Hu].
  destruct (EventSource.eqb k0 k) eqn:E; simpl; [|rewrite E; auto].
  apply find_None_all. intros e Hin. specialize (Hf e Hin). simpl in Hf.
  rewrite EventSource.eqb_sym. by rewrite (EventSource.eqb_trans k0 k e.1).
Qed.

Lemma find_unique k m e : unique m -> e ∈ m -> EventSource.eqb e.1 k = true -> find k m = Some e.2.
Proof.
  induction m as [|[k0 v0] m IH]; intros Hu Hin E; [set_solver|]. apply unique_cons in Hu as [Hf Hu].
  simpl. apply elem_of_cons in Hin as [->|Hin]; simpl in *; [by rewrite E|].
  destruct (EventSource.eqb k0 k) eqn:E0; [|auto].
  exfalso. specialize (Hf e Hin). rewrite EventSource.eqb_sym in E.
  by rewrite <- (EventSource.eqb_trans k0 k e.1), E in Hf.
Qed.

(** *** Duplicate detection *)

(** [put(..., onlynew)] accepts exactly the events that are not duplicates. *)
Lemma put_onlynew_isDuplicate now k v st :
  (put now k v true st).1 = negb (isDuplicate k v st).
Proof.
  unfold put, isDuplicate, EventSequence.leb. destruct (find k (m_map st)); simpl; [|done].
  by destruct (_ <=? _).
Qed.

(** The operations of the notification path: everything but the removals. *)
Inductive op :=
| OpPut (now : Z) (key : EventSource.t) (value : EventSequence.t) (onlynew : bool)
| OpTouch (now : Z) (key : EventSource.t)
| OpGetUnAcked
| OpClearAckedFlags (entries : list entry).

Definition run_op (o : op) (st : t) : t :=
  match o with
  | OpPut now key value onlynew => (put now key value onlynew st).2
  | OpTouch now key => (touch now key st).2
  | OpGetUnAcked => (getUnAcked st).2
  | OpClearAckedFlags entries => (clearAckedFlags entries st).2
  end.

(** A [put] without [onlynew] overwrites: it is safe for the events of [k] up to [n] if it is for another source, or for a
    later event. *)
Definition no_rollback (k : EventSource.t) (n : Z) (o : op) : Prop :=
  match o with
  | OpPut _ key value false => EventSource.eqb key k = true -> n <= EventSequence.m_seqNum value
  | _ => True
  end.

(** The sequence number up to which events of [k] are known. *)
Definition seen (k : EventSource.t) (n : Z) (st : t) : Prop :=
  exists v, find k (m_map st) = Some v /\ n <= EventSequence.m_seqNum v.

Lemma seen_assign k i n k' v x m :
  EventSource.m_srcId k = Some i -> seen k n (mk x m) ->
  (forall v0, find k' m = Some v0 -> EventSource.eqb k' k = true -> n <= EventSequence.m_seqNum v0 -> n <= EventSequence.m_seqNum v) ->
  seen k n (mk x (assign k' v m)).
Proof.
  intros Hk (v0 & E & Hn) Hle. unfold seen in *; simpl in *.
  destruct (EventSource.eqb k' k) eqn:Ek.
  - pose proof Ek as (j & Hj & _)%EventSource.eqb_true.
    rewrite <- (find_eqb k' k) in E |- * by done. rewrite (find_assign_eq _ j) by done.
    exists v. split; [done|]. by apply (Hle v0).
  - rewrite find_assign_ne by done. eauto.
Qed.

Lemma seen_clearAcked k i n entries : forall c st,
  EventSource.m_srcId k = Some i -> seen k n st ->
  seen k n (foldl clearAcked1 (c, st) entries).2.
Proof.
  induction entries as [|e es IH]; intros c st Hk Hs; [done|]. cbn [foldl clearAcked1].
  destruct (find e.1 (m_map st)) eqn:E; apply IH; try done.
  destruct st as [x m]. simpl in *. eapply seen_assign; [done..|].
  intros v0 E0. by simplify_eq.
Qed.

Lemma seen_run_op k i n o st :
  EventSource.m_srcId k = Some i -> no_rollback k n o -> seen k n st -> seen k n (run_op o st).
Proof.
  intros Hk Hno Hs. destruct st as [x m]. destruct o as [now k' v onlynew|now k'| |entries]; simpl.
  - unfold put. simpl. destruct (find k' m) as [v0|] eqn:E; destruct onlynew; simpl.
    + unfold EventSequence.leb. simpl. destruct (Z.leb_spec (EventSequence.m_seqNum v) (EventSequence.m_seqNum v0)); [done|].
      simpl. eapply seen_assign; [done..|]. intros v1 E1. simplify_eq. simpl. lia.
    + eapply seen_assign; [done..|]. intros v1 _ Ek _. by apply Hno.
    + eapply seen_assign; [done..|]. congruence.
    + eapply seen_assign; [done..|]. congruence.
  - unfold touch. simpl. destruct (find k' m) as [v0|] eqn:E; [|done]. simpl.
    eapply seen_assign; [done..|]. intros v1 E1. by simplify_eq.
  - destruct Hs as (v & E & Hn). unfold seen. simpl in *. rewrite find_map, E. simpl. eauto.
  - by apply (seen_clearAcked k i).
Qed.

(** C40. An event that was offered to [EventIdMap::put] with [onlynew], as the only caller
    [checkDupAndAdd] does, is never accepted again while its source stays in the map: after any
    number of further [put]s with [onlynew], [touch]es, acknowledgement rounds and flag resets,
    an event of the same source with the same or a smaller sequence number is reported as a
    duplicate, and another [put] with [onlynew] leaves the map unchanged. [put]s without
    [onlynew], the default, may come in between for other sources and for later events; for an
    older event of the same source such a [put] is accepted and lowers the number. *)
Theorem put_no_redelivery k i v ops st now0 :
  EventSource.m_srcId k = Some i -> Forall (no_rollback k (EventSequence.m_seqNum v)) ops ->
  forall now v', EventSequence.m_seqNum v' <= EventSequence.m_seqNum v ->
  let st' := foldl (fun st o => run_op o st) (put now0 k v true st).2 ops in
  isDuplicate k v' st' = true /\ put now k v' true st' = (false, st').
Proof.
  intros Hk Hops now v' Hle.
  assert (Hseen : seen k (EventSequence.m_seqNum v)
    (foldl (fun st o => run_op o st) (put now0 k v true st).2 ops)).
  { assert (H0 : seen k (EventSequence.m_seqNum v) (put now0 k v true st).2).
    { unfold put. destruct (find k (m_map st)) as [v0|] eqn:E; simpl.
      - unfold EventSequence.leb. simpl. destruct (Z.leb_spec (EventSequence.m_seqNum v) (EventSequence.m_seqNum v0)).
        + exists v0. done.
        + eexists. simpl. rewrite (find_assign_eq _ i) by done. done.
      - eexists. simpl. rewrite (find_assign_eq _ i) by done. done. }
    revert H0. generalize (put now0 k v true st).2. induction Hops as [|o ops Ho _ IH]; intros s Hs; [done|].
    simpl. apply IH. by apply (seen_run_op k i). }
  revert Hseen. cbv zeta. generalize (foldl (fun st o => run_op o st) (put now0 k v true st).2 ops).
  intros st' (v1 & E & Hn). unfold isDuplicate, put, EventSequence.leb. rewrite E. simpl.
  destruct (Z.leb_spec (EventSequence.m_seqNum v') (EventSequence.m_seqNum v1)); [done|lia].
Qed.

Lemma put_no_redelivery_witness :
  let k := EventSource.construct (Some [1; 2]) 2 7 in
  let st' := foldl (fun st o => run_op o st)
    (put 100 k (EventSequence.construct 100 5) true (mk 300 [])).2
    [OpGetUnAcked; OpPut 101 k (EventSequence.construct 100 9) true; OpTouch 102 k; OpPut 102 k (EventSequence.construct 102 5) false] in
  isDuplicate k (EventSequence.construct 103 4) st' = true /\
  put 103 k (EventSequence.construct 103 4) true st' = (false, st').
Proof.
  eapply put_no_redelivery; [vm_compute; reflexivity| |vm_compute; discriminate].
  repeat constructor; intros _; vm_compute; discriminate.
Defined.

(** *** Expiry *)

Lemma expired_entries_spec now i onlyacked m e :
  e ∈ expired_entries now i onlyacked m ->
  e ∈ m /\ (onlyacked = true -> EventSequence.m_acked e.2 = true) /\
  exists j, EventSequence.m_deadline e.2 < now j.
Proof.
  revert i. induction m as [|e0 m IH]; intros i; simpl; [set_solver|].
  destruct onlyacked, (EventSequence.m_acked e0.2) eqn:Ea; simpl;
    try (destruct (Z.ltb_spec (EventSequence.m_deadline e0.2) (now i)));
    intros Hin; try (apply IH in Hin; set_solver);
    (apply elem_of_cons in Hin as [->|Hin]; [|apply IH in Hin; set_solver]);
    (split_and!; [set_solver|done|eauto]).
Qed.

Lemma expired_entries_complete now i onlyacked m e :
  e ∈ m -> (onlyacked = true -> EventSequence.m_acked e.2 = true) ->
  (forall j, EventSequence.m_deadline e.2 < now j) -> e ∈ expired_entries now i onlyacked m.
Proof.
  revert i. induction m as [|e0 m IH]; intros i Hin Ha Hd; simpl; [set_solver|].
  apply elem_of_cons in Hin as [<-|Hin].
  - destruct (Z.ltb_spec (EventSequence.m_deadline e.2) (now i)) as [|Hge]; [|specialize (Hd i); lia].
    destruct onlyacked; [rewrite Ha by done|]; simpl; set_solver.
  - repeat case_match; set_solver.
Qed.

Lemma erase_all_spec es : forall c x m, unique m ->
  (foldl (fun '(expired, st) (e : entry) =>
     (expired + 1, mk (m_expiry st) (erase e.1 (m_map st)))) (c, mk x m) es)
  = (c + Z.of_nat (length es), mk x (foldl (fun m (e : entry) => erase e.1 m) m es)).
Proof.
  induction es as [|e es IH]; intros c x m Hu; simpl; [by rewrite Z.add_0_r|].
  rewrite IH by by apply unique_erase. f_equal. lia.
Qed.

Lemma find_erase_all k es : forall m, unique m ->
  find k (foldl (fun m (e : entry) => erase e.1 m) m es) =
  if existsb (fun e : entry => EventSource.eqb e.1 k) es then None else find k m.
Proof.
  induction es as [|e es IH]; intros m Hu; simpl; [done|].
  rewrite IH by by apply unique_erase. destruct (EventSource.eqb e.1 k) eqn:E; simpl.
  - rewrite <- (find_eqb e.1 k), find_erase_eq by done. by destruct (existsb _ es).
  - by rewrite find_erase_ne.
Qed.

(** [EventIdMap::expire] reports how many entries it found expired, keeps every entry
    whose deadline has not passed and, with [onlyacked], every entry that has not been
    acknowledged to the server, and removes every other one. *)
Theorem expire_spec now onlyacked st k v :
  unique (m_map st) -> find k (m_map st) = Some v ->
  let st' := (expire now onlyacked st).2 in
  ((onlyacked = true /\ EventSequence.m_acked v = false) \/
     (forall j, now j <= EventSequence.m_deadline v) -> find k (m_map st') = Some v) /\
  ((onlyacked = true -> EventSequence.m_acked v = true) ->
     (forall j, EventSequence.m_deadline v < now j) -> find k (m_map st') = None) /\
  unique (m_map st') /\
  (expire now onlyacked st).1 = Z.of_nat (length (expired_entries now 0 onlyacked (m_map st))).
Proof.
  intros Hu E. destruct st as [x m]. simpl in *. unfold expire. simpl.
  rewrite erase_all_spec by done. simpl. rewrite find_erase_all by done.
  set (es := expired_entries now 0 onlyacked m).
  assert (Hmem : forall e, e ∈ es -> EventSource.eqb e.1 k = true -> e.2 = v).
  { intros e (Hin & _ & _)%expired_entries_spec Ek. apply (find_unique k m) in Hin; [congruence|done..]. }
  split_and!.
  - intros Hkeep. destruct (existsb _ es) eqn:Ex; [|done]. exfalso.
    apply existsb_exists in Ex as (e & Hin%list_elem_of_In & Ek). pose proof (Hmem e Hin Ek) as Hv.
    apply expired_entries_spec in Hin as (_ & Ha & j & Hj). rewrite Hv in *.
    destruct Hkeep as [[H1 H2]|Hd]; [rewrite (Ha H1) in H2; done|]. specialize (Hd j). lia.
  - intros Ha Hd. destruct (existsb _ es) eqn:Ex; [done|]. exfalso.
    assert (exists e, e ∈ m /\ EventSource.eqb e.1 k = true /\ e.2 = v) as (e & Hin & Ek & Hv).
    { clear -E. induction m as [|[k0 v0] m IH]; simpl in *; [done|].
      destruct (EventSource.eqb k0 k) eqn:E0; simplify_eq.
      - exists (k0, v). set_solver.
      - destruct (IH E) as (e & ? & ?). exists e. set_solver. }
    assert (Hes : e ∈ es) by (apply expired_entries_complete; rewrite ?Hv; done).
    apply not_true_iff_false in Ex. apply Ex, existsb_exists. exists e. split; [by apply list_elem_of_In|done].
  - clearbody es. clear -Hu. revert m Hu. induction es as [|e es IH]; intros m Hu; simpl; [done|].
    apply IH. by apply unique_erase.
  - done.
Qed.

Lemma expire_spec_witness :
  let st := mk 300 [(EventSource.construct (Some [1]) 1 1, EventSequence.mk 5 true 10);
                    (EventSource.construct (Some [2]) 1 1, EventSequence.mk 6 false 10)] in
  find (EventSource.construct (Some [1]) 1 1) (m_map (expire (fun _ => 50) true st).2) = None /\
  find (EventSource.construct (Some [2]) 1 1) (m_map (expire (fun _ => 50) true st).2)
    = Some (EventSequence.mk 6 false 10).
Proof.
  split.
  - eapply (expire_spec (fun _ => 50) true); [|vm_compute; reflexivity|done|done].
    repeat constructor.
  - eapply (expire_spec (fun _ => 50) true); [|vm_compute; reflexivity|by left].
    repeat constructor.
Defined.

End EventIdMap.
