(* ===== verification/MemberId.v ===== *)
(** Member identities of version tags: [ClientProxyMembershipID]
    (src/cppcache/src/ClientProxyMembershipID.cpp), [DiskStoreId] (DiskStoreId.hpp), the wire
    form of [Version] and the string branch of [SerializationRegistry::deserialize].

    Strings are lists of bytes. The conversions between UTF-8 and UTF-16 ([to_utf16],
    [to_utf8]) and the deserializers of objects that are not strings ([other_object]) are
    parameters. *)
From stdpp Require Import pretty.
From S2P Require Import Prelude JavaModifiedUtf8 DataOutput DataInput.

(** ** Strings of the standard library *)

Definition string_bytes (s : string) : list Z :=
  (fun a => Z.of_N (Ascii.N_of_ascii a)) <$> String.list_ascii_of_string s.

(** [std::to_string] of an integer. *)
Definition to_string (z : Z) : list Z := string_bytes (pretty z).

(** [std::string(s.c_str())]: up to the first NUL. *)
Fixpoint c_str (s : list Z) : list Z :=
  match s with
  | [] => []
  | c :: s' => if c =? 0 then [] else c :: c_str s'
  end.

(** The sign of [std::string::compare]; the standard does not fix the magnitude, and the
    narrowing to [int16_t] in [compareTo] is assumed to keep the sign. *)
Fixpoint compare (a b : list Z) : Z :=
  match a, b with
  | [], [] => 0
  | [], _ :: _ => -1
  | _ :: _, [] => 1
  | x :: a', y :: b' => if x <? y then -1 else if y <? x then 1 else compare a' b'
  end.

Definition isspace (c : Z) : bool := (c =? 32) || ((9 <=? c) && (c <=? 13)).
Definition isdigit (c : Z) : bool := (48 <=? c) && (c <=? 57).

Fixpoint skip_space (s : list Z) : list Z :=
  match s with
  | c :: s' => if isspace c then skip_space s' else s
  | [] => []
  end.

(** The value of the leading digits and whether there are any. *)
Fixpoint digits (s : list Z) (acc : Z) (any : bool) : Z * bool :=
  match s with
  | c :: s' => if isdigit c then digits s' (acc * 10 + (c - 48)) true else (acc, any)
  | [] => (acc, any)
  end.

(** [std::stoi]. *)
Definition stoi (s : list Z) : outcome Z :=
  let s := skip_space s in
  let '(neg, s) := match s with
                   | c :: s' => if c =? 45 then (true, s') else if c =? 43 then (false, s') else (false, s)
                   | [] => (false, [])
                   end in
  let '(v, any) := digits s 0 false in
  if negb any then Throw StdInvalidArgument
  else
    let v := if neg : bool then - v else v in
    if bool_decide (in_s 32 v) then Ok v else Throw StdOutOfRange.

Module Version.

Definition kTokenOrdinal : Z := -1.
Definition current : Z := 125.

Section WithAllocator.
Context `{Allocator}.
Definition write (ordinal : Z) (compressed : bool) : ST DataOutput.t unit :=
  if compressed && (ordinal <=? 127) then DataOutput.write_int8 (s8 ordinal)
  else DataOutput.write_int8 kTokenOrdinal;; DataOutput.writeInt_int16 ordinal.
End WithAllocator.

Definition read : ST DataInput.t Z :=
  ordinal ← DataInput.read;
  if kTokenOrdinal =? ordinal then DataInput.readInt16 else mret ordinal.

End Version.

Module ClientProxyMembershipID.

Record t := mk {
  memIdStr_ : list Z;
  clientId_ : list Z;
  dsName_ : list Z;
  hostPort_ : Z;
  hostAddr_ : list Z;
  uniqueTag_ : list Z;
  hashKey_ : list Z;
  vmViewId_ : Z
}.

Definition kVersionMask : Z := 8.
Definition kVmKindLoner : Z := 13.
Definition kDcPort : Z := 12334.
Definition kRoleArrayLength : Z := 0.
Definition FixedIDByte : Z := 1.
Definition InternalDistributedMember : Z := 92.

Definition construct : t := mk [] [] [] 0 [] [] [] 0.

Definition initHostAddressVector (hostAddr : list Z) (hostAddrLen : Z) (m : t) : t :=
  mk (memIdStr_ m) (clientId_ m) (dsName_ m) (hostPort_ m) (take (Z.to_nat hostAddrLen) hostAddr)
     (uniqueTag_ m) (hashKey_ m) (vmViewId_ m).

Section Wire.
Context `{Allocator}.
Context (to_utf16 to_utf8 : list Z -> outcome (list Z)).
Context (other_object : Z -> ST DataInput.t unit).

(** [writeString(const char* )]; [None] is the null pointer. *)
Definition writeString_cstr (s : option (list Z)) : ST DataOutput.t unit :=
  match s with
  | None => DataOutput.write DataOutput.CacheableNullString
  | Some s => DataOutput.writeString_string to_utf16 (c_str s)
  end.

(** The member id that [initObjectVars] composes. *)
Definition writeMemID (syncCounter : Z) (hostAddr hostname durableClientId : list Z)
    (durableClntTimeOut dcPort vPID vmkind splitBrainFlag : Z)
    (dsname uniqueTag : option (list Z)) : ST DataOutput.t unit :=
  DataOutput.write_int8 FixedIDByte;;
  DataOutput.write_int8 InternalDistributedMember;;
  DataOutput.writeBytes (Some hostAddr) (s32 (Z.of_nat (length hostAddr)));;
  DataOutput.writeInt_int32 syncCounter;;
  DataOutput.writeString_string to_utf16 hostname;;
  DataOutput.write_int8 splitBrainFlag;;
  DataOutput.writeInt_int32 dcPort;;
  DataOutput.writeInt_int32 vPID;;
  DataOutput.write_int8 vmkind;;
  DataOutput.writeArrayLen kRoleArrayLength;;
  writeString_cstr dsname;;
  writeString_cstr uniqueTag;;
  (if negb (bool_decide (durableClientId = []) || (durableClntTimeOut =? 0)) then
     DataOutput.writeString_string to_utf16 durableClientId;;
     DataOutput.writeInt_int32 (s32 durableClntTimeOut)
   else mret tt);;
  Version.write Version.current true.

Definition bytes (s : string) : list Z := string_bytes s.

(** The identifiers are appended to what the object already holds. *)
Definition initObjectVars (syncCounter : Z) (hostname : list Z) (hostPort : Z)
    (durableClientId : list Z) (durableClntTimeOut dcPort vPID vmkind splitBrainFlag : Z)
    (dsname uniqueTag : option (list Z)) (vmViewId : Z) (m : t) : outcome t :=
  let dsName := match dsname with None => [] | Some s => c_str s end in
  let tag := match uniqueTag with None => [] | Some s => c_str s end in
  '(out, _) ← DataOutput.construct [];
  '(_, out) ← writeMemID syncCounter (hostAddr_ m) hostname durableClientId durableClntTimeOut
                dcPort vPID vmkind splitBrainFlag dsname uniqueTag out;
  match DataOutput.getBuffer out with
  | None => Throw UndefinedBehaviour
  | Some buf =>
    Ok (mk (memIdStr_ m ++ buf)
          (clientId_ m ++ hostname ++ bytes "(" ++ to_string vPID ++ bytes ":loner):" ++
             to_string syncCounter ++ bytes ":" ++ tag ++ bytes ":" ++ dsName)
          dsName hostPort (hostAddr_ m) tag
          (hashKey_ m ++ (hostAddr_ m ≫= fun b => bytes ":" ++ to_string b) ++ bytes ":" ++
             to_string hostPort ++ bytes ":" ++ dsName ++ bytes ":" ++
             (if decide (tag = []) then bytes ":" ++ to_string vmViewId else tag))
          vmViewId)
  end.

(** [dynamic_pointer_cast<CacheableString>(input.readObject())], as its string; [None] is
    the null pointer. *)
Definition readStringObject : ST DataInput.t (option (list Z)) :=
  dsCode ← DataInput.read;
  if dsCode =? DataOutput.CacheableNullString then mret (Some [])
  else if dsCode =? 41 then mret None
  else if dsCode =? DataOutput.CacheableASCIIString then s ← DataInput.readAscii; mret (Some s)
  else if dsCode =? DataOutput.CacheableString then
    s ← DataInput.readJavaModifiedUtf8_string to_utf8; mret (Some s)
  else if dsCode =? DataOutput.CacheableASCIIStringHuge then s ← DataInput.readAsciiHuge; mret (Some s)
  else if dsCode =? DataOutput.CacheableStringHuge then
    s ← DataInput.readUtf16Huge_string to_utf8; mret (Some s)
  else other_object dsCode;; mret None.

(** [p->value()]. *)
Definition value (p : option (list Z)) : outcome (list Z) :=
  match p with None => Throw UndefinedBehaviour | Some s => Ok s end.

(** [std::vector<uint8_t>(length)] and [readBytesOnly] into it. *)
Definition readHostAddress : ST DataInput.t (list Z) :=
  length ← DataInput.readArrayLength;
  if length <? 0 then st_throw StdLengthError else DataInput.readBytesOnly length.

Definition readEssentialData (syncCounter : Z) (m : t) : ST DataInput.t t :=
  hostAddress ← readHostAddress;
  hostPort ← DataInput.readInt32;
  DataInput.read;;
  vmKind ← DataInput.read;
  '(uniqueTag, vmViewId) ←
    (if vmKind =? kVmKindLoner then p ← readStringObject; mret (p, 0)
     else
       vmViewIdstr ← readStringObject;
       s ← st_lift (value vmViewIdstr);
       vmViewId ← st_lift (stoi s);
       mret (None, vmViewId));
  dsName ← readStringObject;
  let m := initHostAddressVector hostAddress (Z.of_nat (length hostAddress)) m in
  ds ← st_lift (value dsName);
  if negb (vmKind =? kVmKindLoner) then
    st_lift (initObjectVars syncCounter [] (u32 hostPort) [] 0 kDcPort 0 vmKind 0
               (Some ds) None (u32 vmViewId) m)
  else
    tag ← st_lift (value uniqueTag);
    st_lift (initObjectVars syncCounter [] (u32 hostPort) [] 0 kDcPort 0 vmKind 0
               (Some ds) (Some tag) (u32 vmViewId) m).

Definition readVersion (flags : Z) : ST DataInput.t unit :=
  if negb (Z.land flags kVersionMask =? 0) then Version.read;; mret tt else mret tt.

Definition readAdditionalData : ST DataInput.t unit := DataInput.advanceCursor 17.

(** [CacheableStringArray::fromData]: an array of string objects. *)
Definition readRoles : ST DataInput.t unit :=
  n ← DataInput.readArrayLength;
  st_repeat (Z.to_nat n) readStringObject;; mret tt.

Definition fromData (syncCounter : Z) (m : t) : ST DataInput.t t :=
  hostAddress ← readHostAddress;
  hostPort ← DataInput.readInt32;
  hostname ← readStringObject;
  splitbrain ← DataInput.read;
  dcport ← DataInput.readInt32;
  vPID ← DataInput.readInt32;
  vmKind ← DataInput.read;
  readRoles;;
  dsName ← readStringObject;
  uniqueTag ← readStringObject;
  durableClientId ← readStringObject;
  durableClientTimeOut ← DataInput.readInt32;
  readVersion splitbrain;;
  let m := initHostAddressVector hostAddress (Z.of_nat (length hostAddress)) m in
  tag ← st_lift (value uniqueTag);
  '(tagArg, vmViewId) ←
    (if negb (vmKind =? kVmKindLoner) then v ← st_lift (stoi tag); mret (None, u32 v)
     else mret (Some tag, 0));
  host ← st_lift (value hostname);
  durable ← st_lift (value durableClientId);
  ds ← st_lift (value dsName);
  m ← st_lift (initObjectVars syncCounter (c_str host) (u32 hostPort) (c_str durable)
                 durableClientTimeOut dcport vPID vmKind splitbrain (Some ds) tagArg vmViewId m);
  readAdditionalData;;
  mret m.

End Wire.

Definition getHashKey (m : t) : list Z := hashKey_ m.

(** The address loop; [otherAddr[i]] past its end is undefined. *)
Fixpoint compareAddr (myAddr otherAddr : list Z) : outcome Z :=
  match myAddr, otherAddr with
  | [], _ => Ok 0
  | _ :: _, [] => Throw UndefinedBehaviour
  | x :: myAddr', y :: otherAddr' =>
    if x <? y then Ok (-1) else if y <? x then Ok 1 else compareAddr myAddr' otherAddr'
  end.

Definition compareTag (m other : t) : Z :=
  match uniqueTag_ m, uniqueTag_ other with
  | [], [] =>
    if vmViewId_ m <? vmViewId_ other then -1
    else if vmViewId_ other <? vmViewId_ m then 1 else 0
  | [], _ :: _ => -1
  | _ :: _, [] => 1
  | _ :: _, _ :: _ => compare (uniqueTag_ m) (uniqueTag_ other)
  end.

(** The shortcut for [this == &other] returns what the comparison returns. *)
Definition compareTo (m other : t) : outcome Z :=
  if hostPort_ m <? hostPort_ other then Ok (-1)
  else if hostPort_ other <? hostPort_ m then Ok 1
  else
    match hostAddr_ m, hostAddr_ other with
    | [], [] => Ok 0
    | [], _ :: _ => Ok (-1)
    | _ :: _, [] => Ok 1
    | myAddr, otherAddr =>
      c ← compareAddr myAddr otherAddr;
      if c =? 0 then Ok (compareTag m other) else Ok c
    end.

End ClientProxyMembershipID.

Module DiskStoreId.

Record t := mk { m_mostSig : Z; m_leastSig : Z }.

Definition fromData : ST DataInput.t t :=
  mostSig ← DataInput.readInt64;
  leastSig ← DataInput.readInt64;
  mret (mk mostSig leastSig).

(** Signed 64-bit subtraction; overflow is undefined. *)
Definition sub64 (a b : Z) : outcome Z :=
  if bool_decide (in_s 64 (a - b)) then Ok (a - b) else Throw UndefinedBehaviour.

Definition compareTo (m other : t) : outcome Z :=
  result ← sub64 (m_mostSig m) (m_mostSig other);
  result ← (if result =? 0 then sub64 (m_leastSig m) (m_leastSig other) else Ok result);
  Ok (if result <? 0 then -1 else if 0 <? result then 1 else 0).

Definition getHashKey (m : t) : list Z :=
  to_string (m_mostSig m) ++ string_bytes "_" ++ to_string (m_leastSig m).

End DiskStoreId.

(** [DSMemberForVersionStamp]: the two implementations of the interface. *)
Module DSMember.

Inductive t :=
| Proxy (m : ClientProxyMembershipID.t)
| Disk (d : DiskStoreId.t).

Definition getHashKey (m : t) : list Z :=
  match m with
  | Proxy p => ClientProxyMembershipID.getHashKey p
  | Disk d => DiskStoreId.getHashKey d
  end.

(** [dynamic_cast] to a reference throws, [static_cast] to the wrong class is undefined. *)
Definition compareTo (m other : t) : outcome Z :=
  match m, other with
  | Proxy p, Proxy q => ClientProxyMembershipID.compareTo p q
  | Proxy _, Disk _ => Throw BadCast
  | Disk d, Disk e => DiskStoreId.compareTo d e
  | Disk _, Proxy _ => Throw UndefinedBehaviour
  end.

End DSMember.
