(* ===== verification/Versions.v ===== *)
(** Version tags sent by the servers and the version stamps of local entries
    (src/cppcache/src: MemberListForVersionStamp.cpp, VersionTag.cpp, DiskVersionTag.hpp,
    VersionStamp.cpp). *)
From S2P Require Import Prelude DataOutput DataInput MemberId.

(** The error codes the entries maps return (src/cppcache/src/ErrType.hpp). *)
Inductive GfErrType : Set :=
| GF_NOERR | GF_DEADLK | GF_EACCES | GF_ECONFL | GF_EINVAL | GF_ENOENT | GF_ENOMEM | GF_ERANGE
| GF_ETYPE | GF_NOTOBJ | GF_NOTCON | GF_NOTOWN | GF_NOTSUP | GF_SCPGBL | GF_SCPEXC | GF_TIMEOUT
| GF_OVRFLW | GF_IOERR | GF_EINTR | GF_MSG | GF_DISKFULL | GF_NOSERVER_FOUND | GF_SERVER_FAILED
| GF_CLIENT_WAIT_TIMEOUT | GF_CLIENT_WAIT_TIMEOUT_REFRESH_PRMETADATA | GF_CACHE_REGION_NOT_FOUND
| GF_CACHE_REGION_INVALID | GF_CACHE_REGION_KEYS_NOT_STRINGS | GF_CACHE_REGION_ENTRY_NOT_BYTES
| GF_CACHE_REGION_NOT_GLOBAL | GF_CACHE_PROXY | GF_CACHE_ILLEGAL_ARGUMENT_EXCEPTION
| GF_CACHE_ILLEGAL_STATE_EXCEPTION | GF_CACHE_TIMEOUT_EXCEPTION | GF_CACHE_WRITER_EXCEPTION
| GF_CACHE_REGION_EXISTS_EXCEPTION | GF_CACHE_CLOSED_EXCEPTION
| GF_CACHE_LEASE_EXPIRED_EXCEPTION | GF_CACHE_LOADER_EXCEPTION
| GF_CACHE_REGION_DESTROYED_EXCEPTION | GF_CACHE_ENTRY_DESTROYED_EXCEPTION
| GF_CACHE_STATISTICS_DISABLED_EXCEPTION | GF_CACHE_CONCURRENT_MODIFICATION_EXCEPTION
| GF_CACHE_ENTRY_NOT_FOUND | GF_CACHE_ENTRY_EXISTS | GF_CACHEWRITER_ERROR
| GF_CANNOT_PROCESS_GII_REQUEST | GF_CACHESERVER_EXCEPTION | GF_AUTHENTICATION_FAILED_EXCEPTION
| GF_NOT_AUTHORIZED_EXCEPTION | GF_AUTHENTICATION_REQUIRED_EXCEPTION
| GF_DUPLICATE_DURABLE_CLIENT | GF_REMOTE_QUERY_EXCEPTION | GF_CACHE_LISTENER_EXCEPTION
| GF_ALL_CONNECTIONS_IN_USE_EXCEPTION | GF_CACHE_ENTRY_UPDATED | GF_CACHE_LOCATOR_EXCEPTION
| GF_INVALID_DELTA | GF_INTERNAL_FUNCTION_INVOCATION_TARGET_EXCEPTION | GF_ROLLBACK_EXCEPTION
| GF_COMMIT_CONFLICT_EXCEPTION | GF_TRANSACTION_DATA_NODE_HAS_DEPARTED_EXCEPTION
| GF_TRANSACTION_DATA_REBALANCED_EXCEPTION | GF_PUTALL_PARTIAL_RESULT_EXCEPTION
| GF_LOW_MEMORY_EXCEPTION | GF_QUERY_EXECUTION_LOW_MEMORY_EXCEPTION | GF_FUNCTION_EXCEPTION
| GF_EUNDEF.

(** The values of the enumeration. *)
Definition GfErrType_code (e : GfErrType) : Z :=
  match e with
  | GF_NOERR => 0 | GF_DEADLK => 1 | GF_EACCES => 2 | GF_ECONFL => 3 | GF_EINVAL => 4
  | GF_ENOENT => 5 | GF_ENOMEM => 6 | GF_ERANGE => 7 | GF_ETYPE => 8 | GF_NOTOBJ => 9
  | GF_NOTCON => 10 | GF_NOTOWN => 11 | GF_NOTSUP => 12 | GF_SCPGBL => 13 | GF_SCPEXC => 14
  | GF_TIMEOUT => 15 | GF_OVRFLW => 16 | GF_IOERR => 17 | GF_EINTR => 18 | GF_MSG => 19
  | GF_DISKFULL => 20 | GF_NOSERVER_FOUND => 21 | GF_SERVER_FAILED => 22
  | GF_CLIENT_WAIT_TIMEOUT => 23 | GF_CLIENT_WAIT_TIMEOUT_REFRESH_PRMETADATA => 24
  | GF_CACHE_REGION_NOT_FOUND => 101 | GF_CACHE_REGION_INVALID => 102
  | GF_CACHE_REGION_KEYS_NOT_STRINGS => 103 | GF_CACHE_REGION_ENTRY_NOT_BYTES => 104
  | GF_CACHE_REGION_NOT_GLOBAL => 105 | GF_CACHE_PROXY => 106
  | GF_CACHE_ILLEGAL_ARGUMENT_EXCEPTION => 107 | GF_CACHE_ILLEGAL_STATE_EXCEPTION => 108
  | GF_CACHE_TIMEOUT_EXCEPTION => 109 | GF_CACHE_WRITER_EXCEPTION => 110
  | GF_CACHE_REGION_EXISTS_EXCEPTION => 111 | GF_CACHE_CLOSED_EXCEPTION => 112
  | GF_CACHE_LEASE_EXPIRED_EXCEPTION => 113 | GF_CACHE_LOADER_EXCEPTION => 114
  | GF_CACHE_REGION_DESTROYED_EXCEPTION => 115 | GF_CACHE_ENTRY_DESTROYED_EXCEPTION => 116
  | GF_CACHE_STATISTICS_DISABLED_EXCEPTION => 117
  | GF_CACHE_CONCURRENT_MODIFICATION_EXCEPTION => 118 | GF_CACHE_ENTRY_NOT_FOUND => 119
  | GF_CACHE_ENTRY_EXISTS => 120 | GF_CACHEWRITER_ERROR => 121
  | GF_CANNOT_PROCESS_GII_REQUEST => 123 | GF_CACHESERVER_EXCEPTION => 124
  | GF_AUTHENTICATION_FAILED_EXCEPTION => 126 | GF_NOT_AUTHORIZED_EXCEPTION => 127
  | GF_AUTHENTICATION_REQUIRED_EXCEPTION => 128 | GF_DUPLICATE_DURABLE_CLIENT => 129
  | GF_REMOTE_QUERY_EXCEPTION => 130 | GF_CACHE_LISTENER_EXCEPTION => 131
  | GF_ALL_CONNECTIONS_IN_USE_EXCEPTION => 132 | GF_CACHE_ENTRY_UPDATED => 133
  | GF_CACHE_LOCATOR_EXCEPTION => 134 | GF_INVALID_DELTA => 135
  | GF_INTERNAL_FUNCTION_INVOCATION_TARGET_EXCEPTION => 136 | GF_ROLLBACK_EXCEPTION => 137
  | GF_COMMIT_CONFLICT_EXCEPTION => 138 | GF_TRANSACTION_DATA_NODE_HAS_DEPARTED_EXCEPTION => 139
  | GF_TRANSACTION_DATA_REBALANCED_EXCEPTION => 140 | GF_PUTALL_PARTIAL_RESULT_EXCEPTION => 141
  | GF_LOW_MEMORY_EXCEPTION => 142 | GF_QUERY_EXECUTION_LOW_MEMORY_EXCEPTION => 143
  | GF_FUNCTION_EXCEPTION => 144 | GF_EUNDEF => 999
  end.

Definition GfErrType_all : list GfErrType :=
  [GF_NOERR; GF_DEADLK; GF_EACCES; GF_ECONFL; GF_EINVAL; GF_ENOENT; GF_ENOMEM; GF_ERANGE;
   GF_ETYPE; GF_NOTOBJ; GF_NOTCON; GF_NOTOWN; GF_NOTSUP; GF_SCPGBL; GF_SCPEXC; GF_TIMEOUT;
   GF_OVRFLW; GF_IOERR; GF_EINTR; GF_MSG; GF_DISKFULL; GF_NOSERVER_FOUND; GF_SERVER_FAILED;
   GF_CLIENT_WAIT_TIMEOUT; GF_CLIENT_WAIT_TIMEOUT_REFRESH_PRMETADATA; GF_CACHE_REGION_NOT_FOUND;
   GF_CACHE_REGION_INVALID; GF_CACHE_REGION_KEYS_NOT_STRINGS; GF_CACHE_REGION_ENTRY_NOT_BYTES;
   GF_CACHE_REGION_NOT_GLOBAL; GF_CACHE_PROXY; GF_CACHE_ILLEGAL_ARGUMENT_EXCEPTION;
   GF_CACHE_ILLEGAL_STATE_EXCEPTION; GF_CACHE_TIMEOUT_EXCEPTION; GF_CACHE_WRITER_EXCEPTION;
   GF_CACHE_REGION_EXISTS_EXCEPTION; GF_CACHE_CLOSED_EXCEPTION;
   GF_CACHE_LEASE_EXPIRED_EXCEPTION; GF_CACHE_LOADER_EXCEPTION;
   GF_CACHE_REGION_DESTROYED_EXCEPTION; GF_CACHE_ENTRY_DESTROYED_EXCEPTION;
   GF_CACHE_STATISTICS_DISABLED_EXCEPTION; GF_CACHE_CONCURRENT_MODIFICATION_EXCEPTION;
   GF_CACHE_ENTRY_NOT_FOUND; GF_CACHE_ENTRY_EXISTS; GF_CACHEWRITER_ERROR;
   GF_CANNOT_PROCESS_GII_REQUEST; GF_CACHESERVER_EXCEPTION; GF_AUTHENTICATION_FAILED_EXCEPTION;
   GF_NOT_AUTHORIZED_EXCEPTION; GF_AUTHENTICATION_REQUIRED_EXCEPTION;
   GF_DUPLICATE_DURABLE_CLIENT; GF_REMOTE_QUERY_EXCEPTION; GF_CACHE_LISTENER_EXCEPTION;
   GF_ALL_CONNECTIONS_IN_USE_EXCEPTION; GF_CACHE_ENTRY_UPDATED; GF_CACHE_LOCATOR_EXCEPTION;
   GF_INVALID_DELTA; GF_INTERNAL_FUNCTION_INVOCATION_TARGET_EXCEPTION; GF_ROLLBACK_EXCEPTION;
   GF_COMMIT_CONFLICT_EXCEPTION; GF_TRANSACTION_DATA_NODE_HAS_DEPARTED_EXCEPTION;
   GF_TRANSACTION_DATA_REBALANCED_EXCEPTION; GF_PUTALL_PARTIAL_RESULT_EXCEPTION;
   GF_LOW_MEMORY_EXCEPTION; GF_QUERY_EXECUTION_LOW_MEMORY_EXCEPTION; GF_FUNCTION_EXCEPTION;
   GF_EUNDEF].

Lemma GfErrType_find e : find (fun x => GfErrType_code x =? GfErrType_code e) GfErrType_all = Some e.
Proof. by destruct e. Qed.

Lemma GfErrType_code_inj e e' : GfErrType_code e = GfErrType_code e' -> e = e'.
Proof. intros E. pose proof (GfErrType_find e) as H. rewrite E, GfErrType_find in H. congruence. Qed.

#[export] Instance GfErrType_eq_dec : EqDecision GfErrType.
Proof.
  refine (fun e e' => match decide (GfErrType_code e = GfErrType_code e') with
                      | left E => left (GfErrType_code_inj e e' E)
                      | right N => right (fun E => N (f_equal GfErrType_code E))
                      end).
Defined.

Module MemberListForVersionStamp.

Record t := mk {
  m_members1 : gmap Z DSMember.t;                  (** by counter *)
  m_members2 : gmap (list Z) (DSMember.t * Z);     (** by hash key *)
  m_memberCounter : Z
}.

Definition construct : t := mk ∅ ∅ 0.

(** The counter has 32 bits, the identifier that is stored and returned has 16. *)
Definition add (member : DSMember.t) (st : t) : Z * t :=
  match m_members2 st !! DSMember.getHashKey member with
  | Some (_, identifier) => (identifier, st)
  | None =>
    let counter := u32 (m_memberCounter st + 1) in
    (u16 counter,
     mk (<[counter := member]> (m_members1 st))
        (<[DSMember.getHashKey member := (member, u16 counter)]> (m_members2 st)) counter)
  end.

Definition getDSMember (memberId : Z) (st : t) : option DSMember.t := m_members1 st !! memberId.

End MemberListForVersionStamp.

Module VersionTag.

Record t := mk {
  m_bits : Z;
  m_entryVersion : Z;
  m_regionVersionHighBytes : Z;
  m_regionVersionLowBytes : Z;
  m_internalMemId : Z;
  m_previousMemId : Z;
  m_timeStamp : Z
}.

Definition HAS_MEMBER_ID : Z := 0x01.
Definition HAS_PREVIOUS_MEMBER_ID : Z := 0x02.
Definition VERSION_TWO_BYTES : Z := 0x04.
Definition DUPLICATE_MEMBER_IDS : Z := 0x08.
Definition HAS_RVV_HIGH_BYTE : Z := 0x10.

(** The constructor from versions and member ids, and the default one. *)
Definition make (entryVersion regionVersionHighBytes regionVersionLowBytes internalMemId
    previousMemId : Z) : t :=
  mk 0 entryVersion regionVersionHighBytes regionVersionLowBytes internalMemId previousMemId 0.
Definition construct : t := make 0 0 0 0 0.

Definition set_internal (id : Z) (tag : t) : t :=
  mk (m_bits tag) (m_entryVersion tag) (m_regionVersionHighBytes tag)
     (m_regionVersionLowBytes tag) id (m_previousMemId tag) (m_timeStamp tag).
Definition set_previous (id : Z) (tag : t) : t :=
  mk (m_bits tag) (m_entryVersion tag) (m_regionVersionHighBytes tag)
     (m_regionVersionLowBytes tag) (m_internalMemId tag) id (m_timeStamp tag).

Definition has (flags mask : Z) : bool := negb (Z.land flags mask =? 0).

Definition replaceNullMemberId (memId : Z) (tag : t) : t :=
  let tag := if m_previousMemId tag =? 0 then set_previous memId tag else tag in
  if m_internalMemId tag =? 0 then set_internal memId tag else tag.

Abbreviation IO := (ST (DataInput.t * MemberListForVersionStamp.t)).

(** [m_memberListForVersionStamp.add(member)]. *)
Definition addMember (member : DSMember.t) : IO Z := fun '(inp, ml) =>
  let '(id, ml') := MemberListForVersionStamp.add member ml in Ok (id, (inp, ml')).

(** The two overrides of [readMembers] differ in the class of the members they read. *)
Definition readMembers_with (readMember : ST DataInput.t DSMember.t) (flags : Z) (tag : t) : IO t :=
  tag ← (if has flags HAS_MEMBER_ID then
           member ← st_first readMember;
           id ← addMember member;
           mret (set_internal id tag)
         else mret tag);
  if has flags HAS_PREVIOUS_MEMBER_ID then
    if has flags DUPLICATE_MEMBER_IDS then mret (set_previous (m_internalMemId tag) tag)
    else
      member ← st_first readMember;
      id ← addMember member;
      mret (set_previous id tag)
  else mret tag.

(** [VersionTag::fromData], with the override of [readMembers] as an argument. *)
Definition fromData (readMembers : Z -> t -> IO t) (tag : t) : IO t :=
  flags ← st_first DataInput.readInt16;
  let flags := u16 flags in
  bits ← st_first DataInput.readInt16;
  st_first DataInput.read;;
  entryVersion ←
    (if has flags VERSION_TWO_BYTES then
       v ← st_first DataInput.readInt16; mret (Z.land v 0xffff)
     else
       v ← st_first DataInput.readInt32; mret (s32 (Z.land (u32 v) 0xffffffff)));
  high ← (if has flags HAS_RVV_HIGH_BYTE then st_first DataInput.readInt16
          else mret (m_regionVersionHighBytes tag));
  low ← st_first DataInput.readInt32;
  timeStamp ← st_first DataInput.readUnsignedVL;
  readMembers flags
    (mk (u16 bits) entryVersion high low (m_internalMemId tag) (m_previousMemId tag) timeStamp).

Section Wire.
Context `{Allocator}.
Context (to_utf16 to_utf8 : list Z -> outcome (list Z)).
Context (other_object : Z -> ST DataInput.t unit).

Definition readMembers (syncCounter : Z) (flags : Z) (tag : t) : IO t :=
  readMembers_with
    (DSMember.Proxy <$> ClientProxyMembershipID.readEssentialData to_utf16 to_utf8 other_object
       syncCounter ClientProxyMembershipID.construct) flags tag.
End Wire.

(** [DiskVersionTag::readMembers]. *)
Definition readMembers_disk (flags : Z) (tag : t) : IO t :=
  readMembers_with (DSMember.Disk <$> DiskStoreId.fromData) flags tag.

End VersionTag.

Module VersionStamp.

Record t := mk {
  m_memberID : Z;
  m_entryVersionHighByte : Z;
  m_entryVersionLowBytes : Z;
  m_regionVersionHighBytes : Z;
  m_regionVersionLowBytes : Z
}.

Definition construct : t := mk 0 0 0 0 0.

(** [setVersions(versionTag)]. *)
Definition setVersions (tag : VersionTag.t) : t :=
  let eVersion := VersionTag.m_entryVersion tag in
  mk (VersionTag.m_internalMemId tag)
     (u8 (Z.shiftr (Z.land eVersion 0xff0000) 16))
     (u16 (Z.land eVersion 0xffff))
     (u16 (VersionTag.m_regionVersionHighBytes tag))
     (u32 (VersionTag.m_regionVersionLowBytes tag)).

(** [setVersions(versionStamp)] copies every field. *)
Definition setVersions_stamp (versionStamp : t) : t :=
  mk (m_memberID versionStamp) (m_entryVersionHighByte versionStamp)
     (m_entryVersionLowBytes versionStamp) (m_regionVersionHighBytes versionStamp)
     (m_regionVersionLowBytes versionStamp).

Definition getEntryVersion (s : t) : Z :=
  Z.lor (Z.shiftl (m_entryVersionHighByte s) 16) (m_entryVersionLowBytes s).
Definition getRegionVersion (s : t) : Z :=
  Z.lor (Z.shiftl (m_regionVersionHighBytes s) 32) (m_regionVersionLowBytes s).
Definition getMemberId (s : t) : Z := m_memberID s.

Definition checkForDeltaConflict (memberList : MemberListForVersionStamp.t)
    (stampVersion tagVersion : Z) (tag : VersionTag.t) (s : t) : outcome GfErrType :=
  if negb (tagVersion =? stampVersion + 1) then Ok GF_INVALID_DELTA
  else
    match MemberListForVersionStamp.getDSMember (getMemberId s) memberList with
    | None => Ok GF_INVALID_DELTA
    | Some stampID =>
      match MemberListForVersionStamp.getDSMember (VersionTag.m_previousMemId tag) memberList with
      | None => Ok GF_INVALID_DELTA
      | Some tagID =>
        c ← DSMember.compareTo tagID stampID;
        Ok (if negb (c =? 0) then GF_INVALID_DELTA else GF_NOERR)
      end
    end.

(** Stamp and tag version after the correction for a version number that wrapped around. *)
Definition rollover (stampVersion tagVersion : Z) : Z * Z :=
  if negb (stampVersion =? 0) then
    let difference := tagVersion - stampVersion in
    if (0x10000 <? difference) || (difference <? -0x10000) then
      let temp := 0x100000000 in
      if difference <? 0 then (stampVersion, tagVersion + temp)
      else (stampVersion + temp, tagVersion)
    else (stampVersion, tagVersion)
  else (stampVersion, tagVersion).

Definition checkForConflict (memberList : MemberListForVersionStamp.t) (tag : VersionTag.t)
    (deltaCheck : bool) (s : t) : outcome GfErrType :=
  if (getEntryVersion s =? 0) && (getRegionVersion s =? 0) && (getMemberId s =? 0) then Ok GF_NOERR
  else if (VersionTag.m_entryVersion tag =? 0) && (VersionTag.m_regionVersionHighBytes tag =? 0) &&
          (VersionTag.m_regionVersionLowBytes tag =? 0) && (VersionTag.m_internalMemId tag =? 0)
  then Ok GF_NOERR
  else
    let '(stampVersion, tagVersion) :=
      rollover (Z.land (getEntryVersion s) 0xffffffff)
               (Z.land (VersionTag.m_entryVersion tag) 0xffffffff) in
    err ← (if deltaCheck then checkForDeltaConflict memberList stampVersion tagVersion tag s
           else Ok GF_NOERR);
    if negb (bool_decide (err = GF_NOERR)) then Ok err
    else if (stampVersion =? 0) || (stampVersion <? tagVersion) then Ok GF_NOERR
    else if tagVersion <? stampVersion then Ok GF_CACHE_CONCURRENT_MODIFICATION_EXCEPTION
    else
      match MemberListForVersionStamp.getDSMember (getMemberId s) memberList with
      | None => Ok GF_CACHE_ILLEGAL_STATE_EXCEPTION
      | Some stampID =>
        match MemberListForVersionStamp.getDSMember (VersionTag.m_internalMemId tag) memberList with
        | None => Ok GF_CACHE_ILLEGAL_STATE_EXCEPTION
        | Some tagID =>
          compare ← DSMember.compareTo stampID tagID;
          Ok (if compare <? 0 then GF_NOERR
              else if 0 <? compare then GF_CACHE_CONCURRENT_MODIFICATION_EXCEPTION
              else GF_NOERR)
        end
      end.

(** [None] is the null tag. *)
Definition processVersionTag (memberList : MemberListForVersionStamp.t) (tag : option VersionTag.t)
    (deltaCheck : bool) (s : t) : outcome GfErrType :=
  match tag with
  | None => Ok GF_CACHE_ILLEGAL_STATE_EXCEPTION
  | Some tag => checkForConflict memberList tag deltaCheck s
  end.

End VersionStamp.
