(* ===== verification/VersionFacts.v ===== *)
(** Conflict detection by version tags: member identities are totally ordered, a stamp keeps
    what its tag says, newer tags win and older tags lose, also when the 24-bit entry version
    has wrapped around. *)
From S2P Require Import Prelude MemberId Versions.

(** ** The order of byte strings *)

Lemma compare_refl a : compare a a = 0.
Proof. induction a as [|x a IH]; simpl; [done|]. by rewrite Z.ltb_irrefl. Qed.

Lemma compare_antisym a : forall b, compare b a = - compare a b.
Proof.
  induction a as [|x a IH]; intros [|y b]; simpl; try done.
  destruct (Z.ltb_spec x y), (Z.ltb_spec y x); try lia. apply IH.
Qed.

Lemma compare_eq a : forall b, compare a b = 0 -> a = b.
Proof.
  induction a as [|x a IH]; intros [|y b]; simpl; try done.
  destruct (Z.ltb_spec x y), (Z.ltb_spec y x); try lia.
  intros E%IH. subst. f_equal. lia.
Qed.

Lemma compare_trans a : forall b c, compare a b <= 0 -> compare b c <= 0 -> compare a c <= 0.
Proof.
  induction a as [|x a IH]; intros [|y b] [|z c]; simpl; try lia.
  destruct (Z.ltb_spec x y), (Z.ltb_spec y x), (Z.ltb_spec y z), (Z.ltb_spec z y),
    (Z.ltb_spec x z), (Z.ltb_spec z x); try lia. apply IH.
Qed.

Lemma compare_app a : forall a' b b', length a = length a' ->
  compare (a ++ b) (a' ++ b') = if compare a a' =? 0 then compare b b' else compare a a'.
Proof.
  induction a as [|x a IH]; intros [|x' a'] b b' Hlen; simpl in *; try done.
  destruct (Z.ltb_spec x x'), (Z.ltb_spec x' x); try done. apply IH. lia.
Qed.

(** ** Member identities *)

Import ClientProxyMembershipID.

(** What the comparison looks at, as one string to compare lexicographically. *)
Definition order_key (m : t) : list Z :=
  hostPort_ m ::
  match hostAddr_ m with
  | [] => []
  | addr => addr ++ match uniqueTag_ m with [] => [0; vmViewId_ m] | tag => 1 :: tag end
  end.

Definition same_family (a b : t) : Prop := length (hostAddr_ a) = length (hostAddr_ b).

Lemma compareAddr_compare a : forall b, length a = length b -> compareAddr a b = Ok (compare a b).
Proof.
  induction a as [|x a IH]; intros [|y b] Hlen; simpl in *; try done.
  repeat case_match; try done. apply IH. lia.
Qed.

Lemma compareTag_compare a b :
  compareTag a b =
  compare (match uniqueTag_ a with [] => [0; vmViewId_ a] | tag => 1 :: tag end)
          (match uniqueTag_ b with [] => [0; vmViewId_ b] | tag => 1 :: tag end).
Proof. unfold compareTag. destruct (uniqueTag_ a), (uniqueTag_ b); done. Qed.

Lemma compareTo_key a b :
  same_family a b -> compareTo a b = Ok (compare (order_key a) (order_key b)).
Proof.
  unfold same_family, compareTo, order_key. intros Hlen. cbn [compare].
  destruct (hostPort_ a <? hostPort_ b); [done|]. destruct (hostPort_ b <? hostPort_ a); [done|].
  destruct (hostAddr_ a) as [|x xs], (hostAddr_ b) as [|y ys]; try done.
  rewrite compare_app, <- compareTag_compare by done. rewrite compareAddr_compare by done.
  unfold mbind, outcome_bind. by destruct (_ =? 0).
Qed.

(** On members whose host addresses have the same length (all IPv4 or all IPv6)
    [ClientProxyMembershipID::compareTo] is a total order (its result taken as a
    sign): it returns without leaving the address vectors, exchanging the members exchanges the sign, it is
    transitive, and it returns 0 only for members with the same port, address and, unless
    the addresses are empty, the same unique tag or (both tags empty) view id. *)
Theorem compareTo_order a b c :
  same_family a b -> same_family b c ->
  exists x y z, compareTo a b = Ok x /\ compareTo b c = Ok y /\ compareTo a c = Ok z /\
    compareTo b a = Ok (- x) /\ (x <= 0 -> y <= 0 -> z <= 0) /\
    (x = 0 <-> order_key a = order_key b).
Proof.
  intros Hab Hbc. rewrite !compareTo_key; [..|congruence|congruence|done]; [|congruence].
  eexists _, _, _. split_and!; [done..|by rewrite compare_antisym|apply compare_trans|].
  split; [apply compare_eq|intros ->; apply compare_refl].
Qed.

Definition sample_member (port : Z) (addr tag : list Z) (view : Z) : t :=
  mk [] [] [] port addr tag [port] view.

Lemma compareTo_order_witness :
  exists x y z,
    compareTo (sample_member 1 [10; 0; 0; 1] [] 3) (sample_member 1 [10; 0; 0; 1] [] 4) = Ok x /\
    compareTo (sample_member 1 [10; 0; 0; 1] [] 4) (sample_member 1 [10; 0; 0; 1] [65] 0) = Ok y /\
    compareTo (sample_member 1 [10; 0; 0; 1] [] 3) (sample_member 1 [10; 0; 0; 1] [65] 0) = Ok z /\
    compareTo (sample_member 1 [10; 0; 0; 1] [] 4) (sample_member 1 [10; 0; 0; 1] [] 3) = Ok (- x) /\
    (x <= 0 -> y <= 0 -> z <= 0) /\
    (x = 0 <-> order_key (sample_member 1 [10; 0; 0; 1] [] 3) = order_key (sample_member 1 [10; 0; 0; 1] [] 4)).
Proof. apply compareTo_order; reflexivity. Defined.

(** Member identities the stream can carry make the comparison leave its data: a
    member whose address is longer than the other one and starts with it is compared past
    the end of the other vector, and two disk store ids whose halves are far apart overflow
    the 64-bit subtraction. *)
Theorem compareTo_undefined :
  compareTo (sample_member 1 [10; 0; 0; 1; 0] [] 0) (sample_member 1 [10; 0; 0; 1] [] 0)
    = Throw UndefinedBehaviour /\
  DiskStoreId.compareTo (DiskStoreId.mk (2 ^ 62) 0) (DiskStoreId.mk (- 2 ^ 62 - 1) 0)
    = Throw UndefinedBehaviour.
Proof. split; reflexivity. Qed.

(** ** The member list *)

Module MemberList.
Import MemberListForVersionStamp.

(** Both maps hold the same members; identifiers are the counters handed out so far. *)
Record wf (st : t) : Prop := {
  wf_counter : 0 <= m_memberCounter st < 2 ^ 16;
  wf_members1 : forall i m, m_members1 st !! i = Some m ->
    1 <= i <= m_memberCounter st /\ m_members2 st !! DSMember.getHashKey m = Some (m, i);
  wf_members2 : forall k m i, m_members2 st !! k = Some (m, i) ->
    DSMember.getHashKey m = k /\ m_members1 st !! i = Some m
}.

Lemma wf_construct : wf construct.
Proof. constructor; [done|by intros ? ?|by intros ? ? ?]. Qed.

Lemma wf_fresh st i : wf st -> m_memberCounter st < i -> m_members1 st !! i = None.
Proof.
  intros Hwf Hi. destruct (m_members1 st !! i) eqn:E; [|done].
  apply (wf_members1 st Hwf) in E as [? _]. lia.
Qed.

Lemma counter_next st : wf st -> m_memberCounter st + 1 < 2 ^ 16 ->
  u32 (m_memberCounter st + 1) = m_memberCounter st + 1 /\
  u16 (m_memberCounter st + 1) = m_memberCounter st + 1.
Proof.
  intros [Hc _ _] Hn. split; apply wrapU_id; unfold in_u; change (2 ^ 32) with 4294967296; lia.
Qed.

Lemma add_wf member st : wf st -> m_memberCounter st + 1 < 2 ^ 16 -> wf (add member st).2.
Proof.
  intros Hwf Hn. unfold add. destruct (m_members2 st !! DSMember.getHashKey member) as [[m i]|] eqn:E; [done|].
  destruct (counter_next st Hwf Hn) as [-> ->]. pose proof (wf_counter st Hwf). simpl.
  constructor; simpl; [lia|..].
  - intros i m [[<- <-]|[Hne Hm]]%lookup_insert_Some; [split; [lia|by rewrite lookup_insert_eq]|].
    apply (wf_members1 st Hwf) in Hm as [Hi Hm]. split; [lia|].
    rewrite lookup_insert_ne; [done|]. intros Hk. rewrite Hk in E. congruence.
  - intros k m i [[<- [= <- <-]]|[Hne Hm]]%lookup_insert_Some; [by rewrite lookup_insert_eq|].
    apply (wf_members2 st Hwf) in Hm as [Hk Hm]. split; [done|]. rewrite lookup_insert_ne; [done|].
    intros <-. rewrite wf_fresh in Hm; [done|done|lia].
Qed.

Lemma add_spec m s : wf s -> m_memberCounter s + 1 < 2 ^ 16 ->
  m_memberCounter (add m s).2 <= m_memberCounter s + 1 /\
  (exists m', m_members1 (add m s).2 !! (add m s).1 = Some m' /\
     DSMember.getHashKey m' = DSMember.getHashKey m) /\
  (forall i m0, m_members1 s !! i = Some m0 -> m_members1 (add m s).2 !! i = Some m0).
Proof.
  intros Hwf Hn. unfold add.
  destruct (m_members2 s !! DSMember.getHashKey m) as [[m0 i]|] eqn:E; simpl.
  - pose proof (wf_members2 s Hwf _ _ _ E) as [Hk Hm]. split_and!; [lia|eauto|done].
  - destruct (counter_next s Hwf Hn) as [-> ->]. split_and!; [lia| |].
    + exists m. by rewrite lookup_insert_eq.
    + intros i m0 Hm. rewrite lookup_insert_ne; [done|]. intros <-.
      rewrite (wf_fresh s) in Hm; [done|done|lia].
Qed.

End MemberList.

(** While fewer than 65535 members are known, [MemberListForVersionStamp::add]
    returns a nonzero identifier under which [getDSMember] finds a member with the same
    hash key, gives the same identifier to members with the same hash key only, leaves all
    identifiers that were handed out before valid, and keeps the two maps consistent. *)
Theorem memberlist_add member member' st :
  MemberList.wf st -> MemberListForVersionStamp.m_memberCounter st + 2 < 2 ^ 16 ->
  let '(id, st') := MemberListForVersionStamp.add member st in
  let '(id', st'') := MemberListForVersionStamp.add member' st' in
  MemberList.wf st'' /\ 1 <= id /\
  (exists m, MemberListForVersionStamp.getDSMember id st' = Some m /\
     DSMember.getHashKey m = DSMember.getHashKey member) /\
  (forall i m, MemberListForVersionStamp.getDSMember i st = Some m ->
     MemberListForVersionStamp.getDSMember i st' = Some m) /\
  (id = id' <-> DSMember.getHashKey member = DSMember.getHashKey member').
Proof.
  intros Hwf Hn.
  pose proof (MemberList.add_wf member st Hwf ltac:(lia)) as Hwf'.
  pose proof (MemberList.add_spec member st Hwf ltac:(lia)) as (Hc & (m & Hm & Hk) & Hold).
  destruct (MemberListForVersionStamp.add member st) as [id st'] eqn:E1. simpl in *.
  pose proof (MemberList.add_wf member' st' Hwf' ltac:(lia)) as Hwf''.
  pose proof (MemberList.add_spec member' st' Hwf' ltac:(lia)) as (_ & (m' & Hm' & Hk') & Hold').
  destruct (MemberListForVersionStamp.add member' st') as [id' st''] eqn:E2. simpl in *.
  split_and!; [done|by apply (MemberList.wf_members1 st' Hwf') in Hm as [? _]; lia|by exists m|done|].
  pose proof (MemberList.wf_members1 st'' Hwf'' _ _ Hm') as [_ H2'].
  pose proof (MemberList.wf_members1 st'' Hwf'' _ _ (Hold' _ _ Hm)) as [_ H2].
  split; [intros ->; apply Hold' in Hm; congruence|intros Heq; congruence].
Qed.

Lemma memberlist_add_witness :
  let '(id, st') := MemberListForVersionStamp.add (DSMember.Disk (DiskStoreId.mk 1 2))
                      MemberListForVersionStamp.construct in
  let '(id', st'') := MemberListForVersionStamp.add (DSMember.Disk (DiskStoreId.mk 1 3)) st' in
  MemberList.wf st'' /\ 1 <= id /\
  (exists m, MemberListForVersionStamp.getDSMember id st' = Some m /\
     DSMember.getHashKey m = DSMember.getHashKey (DSMember.Disk (DiskStoreId.mk 1 2))) /\
  (forall i m, MemberListForVersionStamp.getDSMember i MemberListForVersionStamp.construct = Some m ->
     MemberListForVersionStamp.getDSMember i st' = Some m) /\
  (id = id' <-> DSMember.getHashKey (DSMember.Disk (DiskStoreId.mk 1 2))
                = DSMember.getHashKey (DSMember.Disk (DiskStoreId.mk 1 3))).
Proof.
  apply (memberlist_add (DSMember.Disk (DiskStoreId.mk 1 2)) (DSMember.Disk (DiskStoreId.mk 1 3))
           MemberListForVersionStamp.construct); [apply MemberList.wf_construct|vm_compute; reflexivity].
Defined.

(** ** Stamps *)

Import VersionStamp.

(** A tag as a server sends it: 24-bit entry version, 48-bit region version, a member id. *)
Record tag_ok (tag : VersionTag.t) : Prop := {
  tag_entry : 0 <= VersionTag.m_entryVersion tag < 2 ^ 24;
  tag_high : in_s 16 (VersionTag.m_regionVersionHighBytes tag);
  tag_low : in_s 32 (VersionTag.m_regionVersionLowBytes tag);
  tag_member : 1 <= VersionTag.m_internalMemId tag < 2 ^ 16
}.

Lemma getEntryVersion_setVersions tag :
  getEntryVersion (setVersions tag) = VersionTag.m_entryVersion tag mod 2 ^ 24.
Proof.
  unfold getEntryVersion, setVersions. simpl.
  change 0xff0000 with (Z.shiftl (Z.ones 8) 16). change 0xffff with (Z.ones 16).
  rewrite Z.shiftr_land, Z.shiftr_shiftl_r, Z.sub_diag, Z.shiftr_0_r by lia.
  rewrite !land_mask, Z.shiftr_div_pow2 by lia. unfold wrapU. rewrite !Zmod_mod.
  rewrite lor_shiftl_add by (lia || (unfold in_u; apply Z.mod_pos_bound; lia)).
  change (2 ^ 24) with (2 ^ 16 * 2 ^ 8). rewrite Z.rem_mul_r by lia. lia.
Qed.

Lemma getRegionVersion_setVersions tag :
  getRegionVersion (setVersions tag)
  = u16 (VersionTag.m_regionVersionHighBytes tag) * 2 ^ 32 + u32 (VersionTag.m_regionVersionLowBytes tag).
Proof. unfold getRegionVersion. simpl. by rewrite lor_shiftl_add by (lia || by apply wrapU_range). Qed.

Lemma land_u32 z : 0 <= z < 2 ^ 32 -> Z.land z 0xffffffff = z.
Proof. intros. change 0xffffffff with (Z.ones 32). rewrite land_mask by lia. by apply Z.mod_small. Qed.

(** On tags and stamps that carry versions the conflict check compares the corrected
    versions and then the members. *)
Lemma checkForConflict_versions ml tag s :
  tag_ok tag -> getMemberId s <> 0 -> 0 <= getEntryVersion s < 2 ^ 24 ->
  checkForConflict ml tag false s =
  let '(sv, tv) := rollover (getEntryVersion s) (VersionTag.m_entryVersion tag) in
  if (sv =? 0) || (sv <? tv) then Ok GF_NOERR
  else if tv <? sv then Ok GF_CACHE_CONCURRENT_MODIFICATION_EXCEPTION
  else
    match MemberListForVersionStamp.getDSMember (getMemberId s) ml,
          MemberListForVersionStamp.getDSMember (VersionTag.m_internalMemId tag) ml with
    | Some stampID, Some tagID =>
      compare ← DSMember.compareTo stampID tagID;
      Ok (if 0 <? compare then GF_CACHE_CONCURRENT_MODIFICATION_EXCEPTION else GF_NOERR)
    | _, _ => Ok GF_CACHE_ILLEGAL_STATE_EXCEPTION
    end.
Proof.
  intros [He _ _ Hm] Hs Hv. unfold checkForConflict.
  destruct (Z.eqb_spec (getMemberId s) 0) as [|_]; [done|]. rewrite andb_false_r.
  destruct (Z.eqb_spec (VersionTag.m_internalMemId tag) 0) as [|_]; [lia|]. rewrite andb_false_r.
  rewrite !land_u32 by lia. destruct (rollover _ _) as [sv tv]. simpl.
  destruct ((sv =? 0) || (sv <? tv)); [done|]. destruct (tv <? sv); [done|].
  destruct (MemberListForVersionStamp.getDSMember (getMemberId s) ml); [|done].
  destruct (MemberListForVersionStamp.getDSMember (VersionTag.m_internalMemId tag) ml); [|done].
  destruct (DSMember.compareTo _ _); [|done]. unfold mbind, outcome_bind.
  destruct (Z.ltb_spec a 0), (Z.ltb_spec 0 a); done || lia.
Qed.

Lemma newer_applied ml tag s d :
  tag_ok tag -> getMemberId s <> 0 -> 0 < getEntryVersion s < 2 ^ 24 -> 1 <= d <= 0x10000 ->
  VersionTag.m_entryVersion tag = (getEntryVersion s + d) mod 2 ^ 24 ->
  checkForConflict ml tag false s = Ok GF_NOERR.
Proof.
  intros Ht Hs Hv Hd Hver. rewrite checkForConflict_versions by (done || lia). unfold rollover.
  destruct (Z.eqb_spec (getEntryVersion s) 0) as [|_]; [lia|]. simpl.
  change (2 ^ 24) with 16777216 in *. rewrite Hver.
  assert ((getEntryVersion s + d) mod 16777216 = getEntryVersion s + d \/
          (getEntryVersion s + d) mod 16777216 = getEntryVersion s + d - 16777216) as [->| ->] by zdiv;
  repeat (case_match; rewrite ?orb_true_iff, ?orb_false_iff in *); simplify_eq; try done; lia.
Qed.

Lemma older_refused ml tag s d :
  tag_ok tag -> getMemberId s <> 0 -> 0 < getEntryVersion s < 2 ^ 24 -> 1 <= d <= 0x10000 ->
  VersionTag.m_entryVersion tag = (getEntryVersion s - d) mod 2 ^ 24 ->
  checkForConflict ml tag false s = Ok GF_CACHE_CONCURRENT_MODIFICATION_EXCEPTION.
Proof.
  intros Ht Hs Hv Hd Hver. rewrite checkForConflict_versions by (done || lia). unfold rollover.
  destruct (Z.eqb_spec (getEntryVersion s) 0) as [|_]; [lia|]. simpl.
  change (2 ^ 24) with 16777216 in *. rewrite Hver.
  assert ((getEntryVersion s - d) mod 16777216 = getEntryVersion s - d \/
          (getEntryVersion s - d) mod 16777216 = getEntryVersion s - d + 16777216) as [->| ->] by zdiv;
  repeat (case_match; rewrite ?orb_true_iff, ?orb_false_iff in *); simplify_eq; try done; lia.
Qed.

(** Entry versions are compared as serial numbers modulo 2^24: a tag that is up to
    65536 updates ahead of the stamp is applied and one that is up to 65536 updates behind
    is refused as a concurrent modification, whether or not the counter wrapped around in
    between (a stamp of version 0 accepts every tag). *)
Theorem version_order ml tag s d :
  tag_ok tag -> getMemberId s <> 0 -> 0 < getEntryVersion s < 2 ^ 24 -> 1 <= d <= 0x10000 ->
  (VersionTag.m_entryVersion tag = (getEntryVersion s + d) mod 2 ^ 24 ->
     processVersionTag ml (Some tag) false s = Ok GF_NOERR) /\
  (VersionTag.m_entryVersion tag = (getEntryVersion s - d) mod 2 ^ 24 ->
     processVersionTag ml (Some tag) false s = Ok GF_CACHE_CONCURRENT_MODIFICATION_EXCEPTION).
Proof. intros. split; intros; simpl; eauto using newer_applied, older_refused. Qed.

(** Version 5 of a member after version 0xFFFFFE of the same member. *)
Definition sample_tag (version member previous : Z) : VersionTag.t :=
  VersionTag.make version 0 7 member previous.

Lemma version_order_witness :
  processVersionTag MemberListForVersionStamp.construct (Some (sample_tag 5 1 1)) false
    (setVersions (sample_tag 0xFFFFFE 1 1)) = Ok GF_NOERR.
Proof.
  apply (version_order MemberListForVersionStamp.construct (sample_tag 5 1 1)
           (setVersions (sample_tag 0xFFFFFE 1 1)) 7); by vm_compute.
Defined.

Lemma rollover_same v : rollover v v = (v, v).
Proof. unfold rollover. rewrite Z.sub_diag. simpl. by case_match. Qed.

Lemma compareTo_refl m : DSMember.compareTo m m = Ok 0.
Proof.
  destruct m as [p|d]; simpl.
  - rewrite compareTo_key by done. by rewrite compare_refl.
  - unfold DiskStoreId.compareTo, DiskStoreId.sub64. rewrite !Z.sub_diag. done.
Qed.

(** A stamp keeps what its tag says: the low 24 bits of the entry version, the
    48 bits of the region version and the member; and an operation that is applied twice
    (the same tag again, its member being known) is not refused. *)
Theorem stamp_keeps_tag ml tag m :
  tag_ok tag -> MemberListForVersionStamp.getDSMember (VersionTag.m_internalMemId tag) ml = Some m ->
  let s := setVersions tag in
  getEntryVersion s = VersionTag.m_entryVersion tag /\
  s16 (Z.shiftr (getRegionVersion s) 32) = VersionTag.m_regionVersionHighBytes tag /\
  s32 (getRegionVersion s) = VersionTag.m_regionVersionLowBytes tag /\
  getMemberId s = VersionTag.m_internalMemId tag /\
  processVersionTag ml (Some tag) false s = Ok GF_NOERR.
Proof.
  intros Ht Hm. pose proof Ht as [He Hh Hl Hid]. cbv zeta.
  rewrite getRegionVersion_setVersions. pose proof (wrapU_range 32 (VersionTag.m_regionVersionLowBytes tag) ltac:(lia)) as Hr.
  split_and!.
  - by rewrite getEntryVersion_setVersions, Z.mod_small.
  - rewrite Z.shiftr_div_pow2, Z.div_add_l, (Z.div_small (u32 _)), Z.add_0_r by (done || lia).
    by rewrite wrapS_wrapU, wrapS_id.
  - rewrite <- (wrapS_id 32 (VersionTag.m_regionVersionLowBytes tag)) at 2 by done.
    rewrite <- (wrapS_wrapU 32 (VersionTag.m_regionVersionLowBytes tag)). apply wrapS_mod_eq.
    by rewrite Z.add_comm, Z_mod_plus_full.
  - done.
  - simpl. rewrite checkForConflict_versions; [|done|simpl; lia|].
    + rewrite getEntryVersion_setVersions, Z.mod_small, rollover_same, Z.ltb_irrefl by done.
      rewrite orb_false_r. destruct (_ =? 0); [done|]. unfold getMemberId. simpl. rewrite Hm. simpl.
      by rewrite compareTo_refl.
    + rewrite getEntryVersion_setVersions. apply Z.mod_pos_bound. lia.
Qed.

Definition sample_members : MemberListForVersionStamp.t :=
  (MemberListForVersionStamp.add (DSMember.Proxy (sample_member 2 [10; 0; 0; 2] [] 1))
     (MemberListForVersionStamp.add (DSMember.Proxy (sample_member 1 [10; 0; 0; 1] [] 1))
        MemberListForVersionStamp.construct).2).2.

Lemma stamp_keeps_tag_witness :
  processVersionTag sample_members (Some (sample_tag 9 1 1)) false (setVersions (sample_tag 9 1 1))
  = Ok GF_NOERR.
Proof.
  eapply stamp_keeps_tag; [constructor; by vm_compute|vm_compute; reflexivity].
Defined.

(** When two members gave an entry the same version, both orders of arrival keep the
    change of the member that compares greater: a tag of a greater member replaces the
    stamp, a tag of a smaller one is refused. *)
Theorem concurrent_updates_converge ml tag tag' a b x :
  tag_ok tag -> tag_ok tag' ->
  VersionTag.m_entryVersion tag = VersionTag.m_entryVersion tag' -> VersionTag.m_entryVersion tag <> 0 ->
  MemberListForVersionStamp.getDSMember (VersionTag.m_internalMemId tag) ml = Some (DSMember.Proxy a) ->
  MemberListForVersionStamp.getDSMember (VersionTag.m_internalMemId tag') ml = Some (DSMember.Proxy b) ->
  same_family a b -> compareTo a b = Ok x -> x < 0 ->
  processVersionTag ml (Some tag') false (setVersions tag) = Ok GF_NOERR /\
  processVersionTag ml (Some tag) false (setVersions tag')
    = Ok GF_CACHE_CONCURRENT_MODIFICATION_EXCEPTION.
Proof.
  intros Ht Ht' He Hne Ha Hb Hf Hx Hlt.
  assert (Hy : compareTo b a = Ok (- x)).
  { rewrite compareTo_key in Hx |- * by done. simplify_eq. by rewrite compare_antisym. }
  pose proof (tag_entry _ Ht). pose proof (tag_member _ Ht). pose proof (tag_member _ Ht').
  simpl. split; rewrite checkForConflict_versions;
    rewrite ?getEntryVersion_setVersions, ?Z.mod_small by congruence; try done; try (simpl; lia);
    rewrite <- ?He, rollover_same, Z.ltb_irrefl; destruct (Z.eqb_spec (VersionTag.m_entryVersion tag) 0); try done;
    unfold getMemberId; simpl; rewrite Ha, Hb; simpl; rewrite ?Hx, ?Hy; simpl.
  - destruct (Z.ltb_spec 0 x); [lia|done].
  - destruct (Z.ltb_spec 0 (- x)); [done|lia].
Qed.

Lemma concurrent_updates_converge_witness :
  processVersionTag sample_members (Some (sample_tag 9 2 2)) false (setVersions (sample_tag 9 1 1))
    = Ok GF_NOERR /\
  processVersionTag sample_members (Some (sample_tag 9 1 1)) false (setVersions (sample_tag 9 2 2))
    = Ok GF_CACHE_CONCURRENT_MODIFICATION_EXCEPTION.
Proof.
  eapply concurrent_updates_converge;
    [constructor; by vm_compute|constructor; by vm_compute|reflexivity|by vm_compute
    |vm_compute; reflexivity|vm_compute; reflexivity|reflexivity|vm_compute; reflexivity|lia].
Defined.

(** A delta is applied only to the value it was computed from: the check accepts it
    exactly when the tag's version follows the stamp's and the tag's previous member
    compares equal to the member of the stamp; it asks for the full value otherwise. *)
Theorem delta_needs_base ml tag s a b :
  tag_ok tag -> getMemberId s <> 0 -> 0 < getEntryVersion s < 2 ^ 24 ->
  MemberListForVersionStamp.getDSMember (getMemberId s) ml = Some (DSMember.Proxy a) ->
  MemberListForVersionStamp.getDSMember (VersionTag.m_previousMemId tag) ml = Some (DSMember.Proxy b) ->
  same_family a b ->
  processVersionTag ml (Some tag) true s =
  Ok (if decide (VersionTag.m_entryVersion tag = getEntryVersion s + 1 /\ order_key b = order_key a)
      then GF_NOERR else GF_INVALID_DELTA).
Proof.
  intros [He _ _ Hm] Hs Hv Ha Hb Hf. unfold processVersionTag, checkForConflict.
  destruct (Z.eqb_spec (getMemberId s) 0) as [|_]; [done|]. rewrite andb_false_r.
  destruct (Z.eqb_spec (VersionTag.m_internalMemId tag) 0) as [|_]; [lia|]. rewrite andb_false_r.
  rewrite !land_u32 by lia. destruct (rollover _ _) as [sv tv] eqn:Eroll.
  assert (Hdelta : checkForDeltaConflict ml sv tv tag s =
    Ok (if decide (tv = sv + 1 /\ order_key b = order_key a) then GF_NOERR else GF_INVALID_DELTA)).
  { unfold checkForDeltaConflict. rewrite Ha, Hb. simpl.
    destruct (Z.eqb_spec tv (sv + 1)); simpl; [|case_decide as E; [by destruct E|done]].
    rewrite compareTo_key by done. unfold mbind, outcome_bind.
    destruct (Z.eqb_spec (compare (order_key b) (order_key a)) 0) as [E|E]; simpl; case_decide as E'; try done.
    - apply compare_eq in E. by destruct E'.
    - destruct E' as [_ E']. rewrite E', compare_refl in E. done. }
  assert (Hnext : tv = sv + 1 <-> VersionTag.m_entryVersion tag = getEntryVersion s + 1).
  { revert Eroll. unfold rollover. change (2 ^ 24) with 16777216 in *.
    repeat (case_match; rewrite ?orb_true_iff, ?orb_false_iff in *); intros; simplify_eq; lia. }
  rewrite Hdelta. unfold mbind, outcome_bind. repeat case_decide; try done; try tauto.
  simpl. destruct (Z.ltb_spec sv tv) as [|]; [by rewrite orb_true_r|lia].
Qed.

Lemma delta_needs_base_witness :
  processVersionTag sample_members (Some (sample_tag 10 2 1)) true (setVersions (sample_tag 9 1 1))
  = Ok GF_NOERR.
Proof.
  rewrite (delta_needs_base sample_members (sample_tag 10 2 1) (setVersions (sample_tag 9 1 1))
    (sample_member 1 [10; 0; 0; 1] [] 1) (sample_member 1 [10; 0; 0; 1] [] 1));
    [by vm_compute|constructor; by vm_compute|by vm_compute..].
Defined.
