(* ===== verification/ExpiryTaskManager.v ===== *)
(** The task table of the expiry task manager (src/cppcache/src/ExpiryTaskManager.cpp). A task
    is represented by what its [on_expire] callback works on. The Boost.Asio timers that fire
    the tasks are not part of the table: any scheduled task may fire at any time. *)
From S2P Require Import Prelude.

Module ExpiryTaskManager.
Section Tasks.
Context {T : Type}.

Record t := mk { running_ : bool; task_map_ : gmap Z T; last_task_id_ : Z }.

(** [ExpiryTask::invalid()]. *)
Definition invalid : Z := 2 ^ 64 - 1.

Definition construct : t := mk false ∅ 0.

Definition start (m : t) : outcome t :=
  if running_ m then Throw IllegalStateException
  else Ok (mk true (task_map_ m) (last_task_id_ m)).

Definition cancel_all (m : t) : t := mk (running_ m) ∅ (last_task_id_ m).

Definition stop (m : t) : outcome t :=
  if negb (running_ m) then Throw IllegalStateException
  else Ok (cancel_all (mk false (task_map_ m) (last_task_id_ m))).

(** [emplace] keeps a task that already has the id. *)
Definition schedule (task : T) (m : t) : Z * t :=
  if negb (running_ m) then (invalid, m)
  else
    let task_id := last_task_id_ m in
    let last := u64 (last_task_id_ m + 1) in
    let '(task_id, last) := if task_id =? invalid then (0, 0) else (task_id, last) in
    (task_id,
     mk (running_ m)
        (match task_map_ m !! task_id with
         | Some _ => task_map_ m
         | None => <[task_id := task]> (task_map_ m)
         end) last).

(** Whether the task existed. *)
Definition cancel (task_id : Z) (m : t) : bool * t :=
  match task_map_ m !! task_id with
  | None => (false, m)
  | Some _ => (true, mk (running_ m) (delete task_id (task_map_ m)) (last_task_id_ m))
  end.

Definition remove (task_id : Z) (m : t) : t :=
  mk (running_ m) (delete task_id (task_map_ m)) (last_task_id_ m).

(** Ids below the counter are the ones in use. *)
Definition wf (m : t) : Prop :=
  0 <= last_task_id_ m < invalid /\
  forall i task, task_map_ m !! i = Some task -> 0 <= i < last_task_id_ m.

Lemma schedule_spec task m :
  wf m -> running_ m = true -> last_task_id_ m + 1 < invalid ->
  schedule task m =
    (last_task_id_ m, mk true (<[last_task_id_ m := task]> (task_map_ m)) (last_task_id_ m + 1)) /\
  task_map_ m !! last_task_id_ m = None.
Proof.
  intros [Hl Hm] Hr Hlt. unfold schedule. rewrite Hr. simpl.
  destruct (Z.eqb_spec (last_task_id_ m) invalid); [lia|].
  destruct (task_map_ m !! last_task_id_ m) eqn:E; [apply Hm in E; lia|].
  split; [|done]. rewrite wrapU_id; [done|]. unfold in_u, invalid in *. lia.
Qed.

End Tasks.
Arguments t : clear implicits.
End ExpiryTaskManager.
