(* ===== verification/MapEntry.v ===== *)
(** Region entries (src/cppcache/src/MapEntryImpl.hpp, MapEntryT.hpp, TrackedMapEntry.hpp,
    CacheableToken.hpp, TombstoneEntry.hpp) and the store they live in.

    Entries are shared between the map of a segment, its tombstone list and the callers, so
    they are objects of a store and are referred to by pointers ([nat]). Keys are compared
    with [dereference_equal_to], that is by value. The class [MapEntryT<TBase, N, U>] an
    object has at run time is its pair of counters. *)
From S2P Require Import Prelude Versions ExpiryTaskManager.

(** A cached value: one of the four tokens, which are compared by pointer, or an object.
    [std::shared_ptr<Cacheable>] is [option Cacheable]. *)
Inductive Cacheable (V : Type) : Type :=
| InvalidToken
| DestroyedToken
| OverflowedToken
| TombstoneToken
| Obj (v : V).
Arguments InvalidToken {V}.
Arguments DestroyedToken {V}.
Arguments OverflowedToken {V}.
Arguments TombstoneToken {V}.
Arguments Obj {V} _.

Definition isInvalid {V} (v : option (Cacheable V)) : bool :=
  match v with Some InvalidToken => true | _ => false end.
Definition isDestroyed {V} (v : option (Cacheable V)) : bool :=
  match v with Some DestroyedToken => true | _ => false end.
Definition isOverflowed {V} (v : option (Cacheable V)) : bool :=
  match v with Some OverflowedToken => true | _ => false end.
Definition isTombstone {V} (v : option (Cacheable V)) : bool :=
  match v with Some TombstoneToken => true | _ => false end.

Definition GF_TRACK_MAX : Z := 4.
Definition GF_UPDATE_MAX : Z := 8.

(** A [MapEntryT<TBase, num_trackers, update_count>] object. [stamp] is the [VersionStamp]
    base of versioned entries; [weak_this] tells whether [shared_from_this()] works. *)
Record MapEntryImpl (K V : Type) := mkEntry {
  m_value : option (Cacheable V);
  m_key : option K;
  stamp : option VersionStamp.t;
  num_trackers : Z;
  update_count : Z;
  weak_this : bool
}.
Arguments mkEntry {K V} _ _ _ _ _ _.
Arguments m_value {K V} _.
Arguments m_key {K V} _.
Arguments stamp {K V} _.
Arguments num_trackers {K V} _.
Arguments update_count {K V} _.
Arguments weak_this {K V} _.

Record TrackedMapEntry := mkTracked { m_entry : nat; m_trackingNumber : Z; m_updateCount : Z }.

(** [std::shared_ptr<MapEntry>]: a plain entry or a [TrackedMapEntry] around one. *)
Inductive MapEntryPtr := PImpl (p : nat) | PTracked (q : nat).

Record TombstoneEntry := mkTomb { entry_ : nat; task_id_ : Z; valid_ : bool }.

(** What the segments of a map share with the cache: the scheduled tombstone expiry tasks
    (segment and tombstone), the member list and the number of destroy trackers. *)
Record Env := mkEnv {
  manager : ExpiryTaskManager.t (nat * nat);
  memberList : MemberListForVersionStamp.t;
  m_numDestroyTrackers : Z
}.

(** The state of a segment ([MapSegment]) and of the objects it refers to. *)
Record Segment (K V : Type) `{Countable K} := mkSegment {
  m_map : gmap K MapEntryPtr;
  tombstones_ : gmap K nat;
  m_destroyedKeys : gmap K Z;
  m_primeIndex : Z;
  m_rehashCount : Z;
  m_concurrencyChecksEnabled : bool;
  seg_id : nat;
  entries : gmap nat (MapEntryImpl K V);
  trackeds : gmap nat TrackedMapEntry;
  tombs : gmap nat TombstoneEntry;
  next_ptr : nat;
  env : Env
}.
Arguments mkSegment {K V _ _} _ _ _ _ _ _ _ _ _ _ _ _.
Arguments m_map {K V _ _} _.
Arguments tombstones_ {K V _ _} _.
Arguments m_destroyedKeys {K V _ _} _.
Arguments m_primeIndex {K V _ _} _.
Arguments m_rehashCount {K V _ _} _.
Arguments m_concurrencyChecksEnabled {K V _ _} _.
Arguments seg_id {K V _ _} _.
Arguments entries {K V _ _} _.
Arguments trackeds {K V _ _} _.
Arguments tombs {K V _ _} _.
Arguments next_ptr {K V _ _} _.
Arguments env {K V _ _} _.

Section Store.
Context {K V : Type} `{Countable K}.
Abbreviation S := (Segment K V).
Abbreviation Entry := (MapEntryImpl K V).

Definition with_map (f : gmap K MapEntryPtr -> gmap K MapEntryPtr) (s : S) : S :=
  mkSegment (f (m_map s)) (tombstones_ s) (m_destroyedKeys s) (m_primeIndex s) (m_rehashCount s)
    (m_concurrencyChecksEnabled s) (seg_id s) (entries s) (trackeds s) (tombs s) (next_ptr s) (env s).
Definition with_tombstones (f : gmap K nat -> gmap K nat) (s : S) : S :=
  mkSegment (m_map s) (f (tombstones_ s)) (m_destroyedKeys s) (m_primeIndex s) (m_rehashCount s)
    (m_concurrencyChecksEnabled s) (seg_id s) (entries s) (trackeds s) (tombs s) (next_ptr s) (env s).
Definition with_destroyed (f : gmap K Z -> gmap K Z) (s : S) : S :=
  mkSegment (m_map s) (tombstones_ s) (f (m_destroyedKeys s)) (m_primeIndex s) (m_rehashCount s)
    (m_concurrencyChecksEnabled s) (seg_id s) (entries s) (trackeds s) (tombs s) (next_ptr s) (env s).
Definition with_prime (i r : Z) (s : S) : S :=
  mkSegment (m_map s) (tombstones_ s) (m_destroyedKeys s) i r
    (m_concurrencyChecksEnabled s) (seg_id s) (entries s) (trackeds s) (tombs s) (next_ptr s) (env s).
Definition with_entries (f : gmap nat Entry -> gmap nat Entry) (s : S) : S :=
  mkSegment (m_map s) (tombstones_ s) (m_destroyedKeys s) (m_primeIndex s) (m_rehashCount s)
    (m_concurrencyChecksEnabled s) (seg_id s) (f (entries s)) (trackeds s) (tombs s) (next_ptr s) (env s).
Definition with_trackeds (f : gmap nat TrackedMapEntry -> gmap nat TrackedMapEntry) (s : S) : S :=
  mkSegment (m_map s) (tombstones_ s) (m_destroyedKeys s) (m_primeIndex s) (m_rehashCount s)
    (m_concurrencyChecksEnabled s) (seg_id s) (entries s) (f (trackeds s)) (tombs s) (next_ptr s) (env s).
Definition with_tombs (f : gmap nat TombstoneEntry -> gmap nat TombstoneEntry) (s : S) : S :=
  mkSegment (m_map s) (tombstones_ s) (m_destroyedKeys s) (m_primeIndex s) (m_rehashCount s)
    (m_concurrencyChecksEnabled s) (seg_id s) (entries s) (trackeds s) (f (tombs s)) (next_ptr s) (env s).
Definition with_env (e : Env) (s : S) : S :=
  mkSegment (m_map s) (tombstones_ s) (m_destroyedKeys s) (m_primeIndex s) (m_rehashCount s)
    (m_concurrencyChecksEnabled s) (seg_id s) (entries s) (trackeds s) (tombs s) (next_ptr s) e.
Definition with_manager (f : ExpiryTaskManager.t (nat * nat) -> ExpiryTaskManager.t (nat * nat)) (s : S) : S :=
  with_env (mkEnv (f (manager (env s))) (memberList (env s)) (m_numDestroyTrackers (env s))) s.

(** The address of a new object. *)
Definition alloc : ST S nat := fun s =>
  Ok (next_ptr s,
      mkSegment (m_map s) (tombstones_ s) (m_destroyedKeys s) (m_primeIndex s) (m_rehashCount s)
        (m_concurrencyChecksEnabled s) (seg_id s) (entries s) (trackeds s) (tombs s)
        (Datatypes.S (next_ptr s)) (env s)).

Definition load (p : nat) : ST S Entry := fun s =>
  match entries s !! p with Some o => Ok (o, s) | None => Throw UndefinedBehaviour end.
Definition store (p : nat) (o : Entry) : ST S unit := st_modify (with_entries (insert p o)).
Definition load_tracked (q : nat) : ST S TrackedMapEntry := fun s =>
  match trackeds s !! q with Some o => Ok (o, s) | None => Throw UndefinedBehaviour end.
Definition store_tracked (q : nat) (o : TrackedMapEntry) : ST S unit :=
  st_modify (with_trackeds (insert q o)).

(** *** [MapEntryImpl] *)

(** [EntryFactory::newMapEntry]; the factory of a region checks concurrency as its map does. *)
Definition newMapEntry (key : K) : ST S nat :=
  p ← alloc;
  s ← st_get;
  store p (mkEntry None (Some key)
             (if m_concurrencyChecksEnabled s then Some VersionStamp.construct else None) 0 0 true);;
  mret p.

Definition getKeyI (p : nat) : ST S (option K) := o ← load p; mret (m_key o).

(** A destroyed value reads as null. *)
Definition getValueI (p : nat) : ST S (option (Cacheable V)) :=
  o ← load p; mret (if isDestroyed (m_value o) then None else m_value o).

Definition setValueI (p : nat) (value : option (Cacheable V)) : ST S unit :=
  o ← load p;
  store p (mkEntry value (m_key o) (stamp o) (num_trackers o) (update_count o) (weak_this o)).

(** Placement new of [MapEntryT<TBase, n, u>(true)] over an entry: the counters live in the
    class, and the constructor runs the default constructors of the members. *)
Definition placement_new (p : nat) (n u : Z) : ST S unit :=
  o ← load p;
  store p (mkEntry None None (match stamp o with Some _ => Some VersionStamp.construct | None => None end)
             n u false).

Definition shared_from_this (p : nat) : ST S nat :=
  o ← load p; if weak_this o then mret p else st_throw BadWeakPtr.

(** [std::make_shared<TrackedMapEntry>(this->shared_from_this(), n, u)]. *)
Definition make_tracked (p : nat) (n u : Z) : ST S MapEntryPtr :=
  p' ← shared_from_this p;
  q ← alloc;
  store_tracked q (mkTracked p' n u);;
  mret (PTracked q).

(** *** [MapEntry], both implementations *)

Definition getImplPtr (e : MapEntryPtr) : ST S nat :=
  match e with
  | PImpl p => shared_from_this p
  | PTracked q => o ← load_tracked q; mret (m_entry o)
  end.

Definition getKey (e : MapEntryPtr) : ST S (option K) :=
  match e with
  | PImpl p => getKeyI p
  | PTracked q => o ← load_tracked q; getKeyI (m_entry o)
  end.

Definition getValue (e : MapEntryPtr) : ST S (option (Cacheable V)) :=
  match e with
  | PImpl p => getValueI p
  | PTracked q => o ← load_tracked q; getValueI (m_entry o)
  end.

(** [getVersionStamp()], read and assigned through the reference it returns. *)
Definition getVersionStampI (p : nat) : ST S VersionStamp.t :=
  o ← load p; match stamp o with Some v => mret v | None => st_throw FatalInternalException end.
Definition getVersionStamp (e : MapEntryPtr) : ST S VersionStamp.t :=
  match e with
  | PImpl p => getVersionStampI p
  | PTracked _ => st_throw FatalInternalException
  end.
Definition setVersionStampI (p : nat) (v : VersionStamp.t) : ST S unit :=
  o ← load p;
  match stamp o with
  | Some _ => store p (mkEntry (m_value o) (m_key o) (Some v) (num_trackers o) (update_count o) (weak_this o))
  | None => st_throw FatalInternalException
  end.

(** The update count, and the entry to rebind if there is one. *)
Definition addTracker (e : MapEntryPtr) : ST S (Z * option MapEntryPtr) :=
  match e with
  | PImpl p =>
    o ← load p;
    if num_trackers o =? GF_TRACK_MAX then
      newEntry ← make_tracked p (GF_TRACK_MAX + 1) (update_count o);
      mret (update_count o, Some newEntry)
    else
      placement_new p (num_trackers o + 1) (update_count o);;
      mret (update_count o, None)
  | PTracked q =>
    o ← load_tracked q;
    store_tracked q (mkTracked (m_entry o) (m_trackingNumber o + 1) (m_updateCount o));;
    mret (m_updateCount o, None)
  end.

(** Whether to go back to the plain entry, and the trackers left. *)
Definition removeTracker (e : MapEntryPtr) : ST S (bool * Z) :=
  match e with
  | PImpl p =>
    o ← load p;
    if num_trackers o =? 0 then mret (false, 0)
    else if num_trackers o =? 1 then placement_new p 0 0;; mret (false, 0)
    else
      placement_new p (num_trackers o - 1) (update_count o);;
      mret (false, num_trackers o - 1)
  | PTracked q =>
    o ← load_tracked q;
    let n := if 0 <? m_trackingNumber o then m_trackingNumber o - 1 else m_trackingNumber o in
    if n =? 0 then
      store_tracked q (mkTracked (m_entry o) 0 0);; mret (true, 0)
    else
      store_tracked q (mkTracked (m_entry o) n (m_updateCount o));; mret (false, n)
  end.

Definition incrementUpdateCount (e : MapEntryPtr) : ST S (Z * option MapEntryPtr) :=
  match e with
  | PImpl p =>
    o ← load p;
    if update_count o =? GF_UPDATE_MAX then
      newEntry ← make_tracked p (num_trackers o) (GF_UPDATE_MAX + 1);
      mret (GF_UPDATE_MAX + 1, Some newEntry)
    else if num_trackers o =? 0 then mret (update_count o, None)
    else
      placement_new p (num_trackers o) (update_count o + 1);;
      mret (update_count o + 1, None)
  | PTracked q =>
    o ← load_tracked q;
    store_tracked q (mkTracked (m_entry o) (m_trackingNumber o) (m_updateCount o + 1));;
    mret (m_updateCount o + 1, None)
  end.

Definition getUpdateCount (e : MapEntryPtr) : ST S Z :=
  match e with
  | PImpl p => o ← load p; mret (update_count o)
  | PTracked q => o ← load_tracked q; mret (m_updateCount o)
  end.

Definition getTrackingNumber (e : MapEntryPtr) : ST S Z :=
  match e with
  | PImpl p => o ← load p; mret (num_trackers o)
  | PTracked q => o ← load_tracked q; mret (m_trackingNumber o)
  end.

End Store.
