(* ===== verification/MapSegment.v ===== *)
(** A segment of the entries map of a region (src/cppcache/src/MapSegment.cpp and .hpp), its
    tombstone list (TombstoneList.cpp, TombstoneExpiryTask.cpp) and the table of primes that
    sizes it (TableOfPrimes.hpp).

    Every operation runs under the segment's spin lock, so it is one atomic step. Output
    parameters are passed in and returned. Statistics and logging are left out. *)
From S2P Require Import Prelude Versions ExpiryTaskManager MapEntry.

Module TableOfPrimes.

Definition g_primeTable : list Z :=
  [53; 97; 193; 389; 769; 1543; 3079; 6151; 12289; 24593; 49157; 98317; 196613; 393241; 786433;
   1572869; 3145739; 6291469; 12582917; 25165843; 50331653; 100663319; 201326611; 402653189;
   805306457; 1610612741; 3221225473].

Definition g_primeConcurTable : list Z :=
  [2; 3; 5; 7; 11; 13; 17; 19; 23; 29; 31; 37; 41; 43; 47; 53; 59; 61; 67; 71; 73; 79; 83; 89; 97;
   101; 103; 107; 109; 113; 127; 131; 137; 139; 149; 151; 157; 163; 167; 173; 179; 181; 191; 193;
   197; 199; 211; 223; 227; 229; 233; 239; 241; 251].

Definition getPrime (index : Z) : outcome Z :=
  match g_primeTable !! Z.to_nat index with
  | Some p => Ok p
  | None => Throw OutOfRangeException
  end.

(** [std::lower_bound] on a sorted table: the first element that is not less. *)
Fixpoint lower_bound (table : list Z) (val : Z) (i : nat) : option (nat * Z) :=
  match table with
  | [] => None
  | x :: table' => if x <? val then lower_bound table' val (S i) else Some (i, x)
  end.

(** The index and the prime. *)
Definition nextLargerPrime (val : Z) : outcome (Z * Z) :=
  match lower_bound g_primeTable val 0 with
  | Some (i, p) => Ok (Z.of_nat i, p)
  | None => Throw OutOfRangeException
  end.

Definition getMaxPrimeForConcurrency : Z := 251.

Definition nextLargerPrimeForConcurrency (val : Z) : outcome Z :=
  match lower_bound g_primeConcurTable val 0 with
  | Some (_, p) => Ok p
  | None => Throw OutOfRangeException
  end.

End TableOfPrimes.

(** A dereferenced pointer that must not be null. *)
Definition non_null {S A} (p : option A) : ST S A :=
  match p with Some a => mret a | None => st_throw UndefinedBehaviour end.

Section Segment.
Context {K V D : Type} `{Countable K}.
Abbreviation S := (Segment K V).
Abbreviation value := (option (Cacheable V)).

(** What the region supplies: reading a value back from disk, whether the region clones
    values before it applies a delta, and the [Delta] interface of the application's objects:
    which ones implement it, [clone], and [fromDelta], which returns the object as it left it
    and whether it completed (it throws [InvalidDeltaException] otherwise). *)
Context (getFromDisk : K -> nat -> value).
Context (cloningEnabled : bool).
Context (isDelta : V -> bool) (clone : V -> V) (fromDelta : D -> V -> V * bool).

(** *** [TombstoneList] *)


(** [TombstoneList::add]. *)
Definition tombstones_add (entry : nat) : ST S Z :=
  t ← alloc;
  key ← getKeyI entry;
  s ← st_get;
  let '(task_id, m) := ExpiryTaskManager.schedule (seg_id s, t) (manager (env s)) in
  st_modify (with_manager (fun _ => m));;
  st_modify (with_tombs (insert t (mkTomb entry task_id true)));;
  key ← non_null key;
  st_modify (with_tombstones (insert key t));;
  mret task_id.

(** [TombstoneList::exists]. *)
Definition tombstones_exists (key : K) (s : S) : bool :=
  match tombstones_ s !! key with Some _ => true | None => false end.

(** [TombstoneList::erase]. *)
Definition tombstones_erase (key : K) (cancel_task : bool) : ST S bool :=
  s ← st_get;
  match tombstones_ s !! key with
  | None => mret false
  | Some t =>
    match tombs s !! t with
    | None => st_throw UndefinedBehaviour
    | Some o =>
      st_modify (with_tombs (insert t (mkTomb (entry_ o) (task_id_ o) false)));;
      (if cancel_task then
         st_modify (with_manager (fun m => (ExpiryTaskManager.cancel (task_id_ o) m).2))
       else mret tt);;
      st_modify (with_tombstones (delete key));;
      mret true
    end
  end.

(** [TombstoneList::cleanup], on destruction. *)
Definition tombstones_cleanup : ST S unit :=
  s ← st_get;
  st_iter (fun kt : K * nat =>
      s ← st_get;
      match tombs s !! kt.2 with
      | None => st_throw UndefinedBehaviour
      | Some o => st_modify (with_manager (fun m => (ExpiryTaskManager.cancel (task_id_ o) m).2))
      end) (map_to_list (tombstones_ s)).

(** *** [MapSegment] *)

Definition construct (id : nat) (e : Env) : S :=
  mkSegment ∅ ∅ ∅ 0 0 false id ∅ ∅ ∅ 0 e.

Definition open (size : Z) (concurrencyChecksEnabled : bool) (s : S) : outcome S :=
  '(i, _) ← TableOfPrimes.nextLargerPrime size;
  Ok (mkSegment (m_map s) (tombstones_ s) (m_destroyedKeys s) i (m_rehashCount s)
        concurrencyChecksEnabled (seg_id s) (entries s) (trackeds s) (tombs s) (next_ptr s) (env s)).

(** Only the map is cleared. *)
Definition clear : ST S unit := st_modify (with_map (fun _ => ∅)).

Definition rehash : ST S unit :=
  s ← st_get;
  st_lift (TableOfPrimes.getPrime (u32 (m_primeIndex s + 1)));;
  st_modify (with_prime (u32 (m_primeIndex s + 1)) (u32 (m_rehashCount s + 1))).

(** The size check at the start of [create] and [put]. *)
Definition rehash_if_full : ST S unit :=
  s ← st_get;
  mapSize ← st_lift (TableOfPrimes.getPrime (m_primeIndex s));
  if mapSize <? Z.of_nat (size (m_map s)) * 75 / 100 then rehash else mret tt.

(** [entry = e] for an [entry] that is a reference into the map ([by_ref]) or a copy. *)
Definition assign_entry (by_ref : bool) (key : K) (e : MapEntryPtr) : ST S unit :=
  if by_ref then st_modify (with_map (insert key e)) else mret tt.

(** [m_map.emplace(key, e)]. *)
Definition emplace (key : K) (e : MapEntryPtr) : ST S unit :=
  st_modify (with_map (fun m => match m !! key with Some _ => m | None => <[key := e]> m end)).

(** [MapSegment::incrementUpdateCount]. *)
Definition seg_incrementUpdateCount (by_ref : bool) (key : K) (entry : MapEntryPtr) : ST S unit :=
  s ← st_get;
  if m_concurrencyChecksEnabled s then mret tt
  else
    '(_, newEntry) ← incrementUpdateCount entry;
    match newEntry with
    | None => mret tt
    | Some e => emplace key e;; assign_entry by_ref key e
    end.

(** [MapSegment::removeTrackerForEntry(key, entry, entryImpl)]. *)
Definition seg_removeTracker (key : K) (entry : MapEntryPtr) (entryImpl : nat) : ST S unit :=
  s ← st_get;
  if m_concurrencyChecksEnabled s then mret tt
  else
    '(rebind, trackers) ← removeTracker entry;
    v ← (if trackers <=? 0 then getValueI entryImpl else mret (Some InvalidToken));
    match v with
    | None => st_modify (with_map (delete key))
    | Some _ =>
      if rebind : bool then st_modify (with_map (insert key (PImpl entryImpl))) else mret tt
    end.

(** The error and the entry that [newEntry] refers to afterwards. *)
Definition putNoEntry (key : K) (newValue : value) (newEntry : option nat)
    (updateCount destroyTracker : Z) (versionTag : option VersionTag.t)
    (versionStamp : option VersionStamp.t) : ST S (GfErrType * option nat) :=
  s ← st_get;
  if negb (m_concurrencyChecksEnabled s) &&
     ((0 <=? updateCount) ||
      ((0 <? destroyTracker) && (0 <? m_numDestroyTrackers (env s)) &&
       match m_destroyedKeys s !! key with Some n => destroyTracker <? n | None => false end))
  then mret (GF_CACHE_ENTRY_UPDATED, newEntry)
  else
    p ← newMapEntry key;
    setValueI p newValue;;
    (if m_concurrencyChecksEnabled s then
       match versionTag, versionStamp with
       | Some tag, _ => setVersionStampI p (VersionStamp.setVersions tag)
       | None, Some v => setVersionStampI p (VersionStamp.setVersions_stamp v)
       | None, None => mret tt
       end
     else mret tt);;
    emplace key (PImpl p);;
    mret (GF_NOERR, Some p).

(** The error, and [newValue], which a delta replaces through a [const_cast]. *)
Definition putForTrackedEntry (by_ref : bool) (key : K) (newValue : value) (entry : MapEntryPtr)
    (entryImpl : nat) (updateCount : Z) (versionStamp : VersionStamp.t) (delta : option D)
    : ST S (GfErrType * value) :=
  s ← st_get;
  if (updateCount <? 0) || m_concurrencyChecksEnabled s then
    '(err, newValue) ←
      match delta with
      | Some d =>
        oldValue ← getValueI entryImpl;
        if match oldValue with None => true | Some _ => false end || isDestroyed oldValue ||
           isInvalid oldValue || isTombstone oldValue
        then mret (GF_INVALID_DELTA, newValue)
        else
          match (if isOverflowed oldValue then getFromDisk key entryImpl else oldValue) with
          | None => mret (GF_INVALID_DELTA, newValue)
          | Some (Obj o) =>
            if negb (isDelta o) then st_throw UndefinedBehaviour
            else if cloningEnabled then
              let '(o', ok) := fromDelta d (clone o) in
              if ok : bool then setValueI entryImpl (Some (Obj o'));; mret (GF_NOERR, Some (Obj o'))
              else mret (GF_INVALID_DELTA, newValue)
            else
              (** the object of the entry itself is changed *)
              let '(o', ok) := fromDelta d o in
              if ok : bool then setValueI entryImpl (Some (Obj o'));; mret (GF_NOERR, Some (Obj o'))
              else
                (if isOverflowed oldValue then mret tt else setValueI entryImpl (Some (Obj o')));;
                mret (GF_INVALID_DELTA, newValue)
          | Some _ => st_throw UndefinedBehaviour
          end
      | None => setValueI entryImpl newValue;; mret (GF_NOERR, newValue)
      end;
    if negb (bool_decide (err = GF_NOERR)) then mret (err, newValue)
    else
      (if m_concurrencyChecksEnabled s then
         tombstones_erase key true;;
         setVersionStampI entryImpl (VersionStamp.setVersions_stamp versionStamp)
       else mret tt);;
      seg_incrementUpdateCount by_ref key entry;;
      mret (GF_NOERR, newValue)
  else
    count ← getUpdateCount entry;
    if updateCount =? count then
      setValueI entryImpl newValue;;
      seg_removeTracker key entry entryImpl;;
      mret (GF_NOERR, newValue)
    else
      seg_removeTracker key entry entryImpl;;
      mret (GF_CACHE_ENTRY_UPDATED, newValue).

(** [MapSegment::remove_entry]. *)
Definition remove_entry (key : K) : ST S unit :=
  tombstones_erase key true;;
  st_modify (with_map (delete key)).

(** The stamp to use for an existing entry: the tag is checked against it and taken over. *)
Definition stamp_for (entry : MapEntryPtr) (versionTag : option VersionTag.t) (deltaCheck : bool)
    : ST S (GfErrType * VersionStamp.t) :=
  s ← st_get;
  if m_concurrencyChecksEnabled s then
    versionStamp ← getVersionStamp entry;
    match versionTag with
    | None => mret (GF_NOERR, versionStamp)
    | Some tag =>
      err ← st_lift (VersionStamp.processVersionTag (memberList (env s)) (Some tag) deltaCheck versionStamp);
      mret (err, if decide (err = GF_NOERR) then VersionStamp.setVersions tag else versionStamp)
    end
  else mret (GF_NOERR, VersionStamp.construct).

(** Returns the error, [me] and [oldValue]. *)
Definition create (key : K) (newValue : value) (me : option nat) (oldValue : value)
    (updateCount destroyTracker : Z) (versionTag : option VersionTag.t)
    : ST S (GfErrType * option nat * value) :=
  rehash_if_full;;
  s ← st_get;
  match m_map s !! key with
  | None =>
    '(err, me) ← putNoEntry key newValue me updateCount destroyTracker versionTag None;
    mret (err, me, oldValue)
  | Some entry =>
    entryImpl ← getImplPtr entry;
    oldValue ← getValueI entryImpl;
    if match oldValue with None => true | Some _ => false end || isTombstone oldValue then
      '(err, versionStamp) ← stamp_for entry versionTag false;
      if negb (bool_decide (err = GF_NOERR)) then mret (err, me, oldValue)
      else
        '(err, me) ←
          match oldValue with
          | None =>
            '(err, _) ← putForTrackedEntry true key newValue entry entryImpl updateCount versionStamp None;
            mret (err, me)
          | Some _ =>
            remove_entry key;;
            putNoEntry key newValue me updateCount destroyTracker versionTag (Some versionStamp)
          end;
        mret (err, if decide (err = GF_NOERR) then Some entryImpl else me, None)
    else mret (GF_CACHE_ENTRY_EXISTS, me, oldValue)
  end.

(** What [meOldValue] points to after [putForTrackedEntry]: without cloning the delta was applied to that very object. *)
Definition meOldValue_after (s : S) (updateCount : Z) (delta : option D) (meOldValue newValue : value) : value :=
  match delta with
  | Some _ =>
    if ((updateCount <? 0) || m_concurrencyChecksEnabled s) && negb cloningEnabled && negb (isOverflowed meOldValue)
    then newValue else meOldValue
  | None => meOldValue
  end.

(** Returns the error, [me], [oldValue], [isUpdate] and [newValue]. *)
Definition put (key : K) (newValue : value) (me : option nat) (oldValue : value)
    (updateCount destroyTracker : Z) (isUpdate : bool) (versionTag : option VersionTag.t)
    (delta : option D) : ST S (GfErrType * option nat * value * bool * value) :=
  rehash_if_full;;
  s ← st_get;
  match m_map s !! key with
  | None =>
    match delta with
    | Some _ => mret (GF_INVALID_DELTA, me, oldValue, isUpdate, newValue)
    | None =>
      '(err, me) ← putNoEntry key newValue me updateCount destroyTracker versionTag None;
      mret (err, me, oldValue, false, newValue)
    end
  | Some entry =>
    entryImpl ← getImplPtr entry;
    meOldValue ← getValueI entryImpl;
    '(err, versionStamp) ← stamp_for entry versionTag (match delta with Some _ => true | None => false end);
    if negb (bool_decide (err = GF_NOERR)) then mret (err, me, oldValue, isUpdate, newValue)
    else if isTombstone meOldValue then
      remove_entry key;;
      '(err, me) ← putNoEntry key newValue me updateCount destroyTracker versionTag (Some versionStamp);
      mret (err, me, oldValue, false, newValue)
    else
      '(err, newValue) ← putForTrackedEntry true key newValue entry entryImpl updateCount versionStamp delta;
      if decide (err = GF_NOERR) then
        mret (err, Some entryImpl, meOldValue_after s updateCount delta meOldValue newValue,
              match meOldValue with Some _ => true | None => false end, newValue)
      else mret (err, me, oldValue, isUpdate, newValue)
  end.

(** Returns the error, [me], [oldValue] and [isTokenAdded]. *)
Definition invalidate (key : K) (me : option nat) (oldValue : value) (versionTag : option VersionTag.t)
    : ST S (GfErrType * option nat * value * bool) :=
  s ← st_get;
  match m_map s !! key with
  | Some entry =>
    '(err, versionStamp) ← stamp_for entry versionTag false;
    if negb (bool_decide (err = GF_NOERR)) then mret (err, me, oldValue, false)
    else
      entryImpl ← getImplPtr entry;
      oldValue ← getValueI entryImpl;
      if isTombstone oldValue then mret (GF_CACHE_ENTRY_NOT_FOUND, me, None, false)
      else
        setValueI entryImpl (Some InvalidToken);;
        (if m_concurrencyChecksEnabled s then
           setVersionStampI entryImpl (VersionStamp.setVersions_stamp versionStamp)
         else mret tt);;
        seg_incrementUpdateCount false key entry;;
        mret (GF_NOERR, match oldValue with Some _ => Some entryImpl | None => me end, oldValue, false)
  | None =>
    if m_concurrencyChecksEnabled s then
      '(err, me) ← putNoEntry key (Some InvalidToken) me (-1) (-1) versionTag None;
      if negb (bool_decide (err = GF_NOERR)) then mret (err, me, oldValue, false)
      else mret (GF_CACHE_ENTRY_NOT_FOUND, me, oldValue, true)
    else mret (GF_CACHE_ENTRY_NOT_FOUND, me, oldValue, false)
  end.

(** The outcome of a removal that finds nothing to remove. *)
Definition not_found (afterRemote : bool) : GfErrType :=
  if afterRemote then GF_NOERR else GF_CACHE_ENTRY_NOT_FOUND.

(** The part of [removeWhenConcurrencyEnabled] that checks the tag. *)
Definition remove_stamp (entry : MapEntryPtr) (versionTag : option VersionTag.t) (versionStamp : VersionStamp.t)
    : ST S (GfErrType * VersionStamp.t) :=
  s ← st_get;
  match versionTag with
  | None => mret (GF_NOERR, versionStamp)
  | Some tag =>
    getImplPtr entry;;
    err ← st_lift (VersionStamp.processVersionTag (memberList (env s)) (Some tag) false versionStamp);
    mret (err, if decide (err = GF_NOERR) then VersionStamp.setVersions tag else versionStamp)
  end.

(** Returns the error, [oldValue], [me] and [isEntryFound]. *)
Definition removeWhenConcurrencyEnabled (key : K) (oldValue : value) (me : option nat)
    (updateCount : Z) (versionTag : option VersionTag.t) (afterRemote isEntryFound : bool)
    : ST S (GfErrType * value * option nat * bool) :=
  s ← st_get;
  match m_map s !! key with
  | Some entry =>
    versionStamp ← getVersionStamp entry;
    '(err, versionStamp) ← remove_stamp entry versionTag versionStamp;
    if negb (bool_decide (err = GF_NOERR)) then mret (err, oldValue, me, true)
    else
      entryImpl ← getImplPtr entry;
      oldValue ← getValueI entryImpl;
      let me := match oldValue with Some _ => Some entryImpl | None => me end in
      '(err, _) ← putForTrackedEntry false key (Some TombstoneToken) entry entryImpl updateCount versionStamp None;
      (if decide (err = GF_NOERR) then tombstones_add entryImpl;; mret tt else mret tt);;
      if isTombstone oldValue then mret (not_found afterRemote, None, me, true)
      else mret (err, oldValue, me, true)
  | None =>
    match versionTag with
    | Some tag =>
      '(_, mapEntry) ← putNoEntry key (Some TombstoneToken) None (-1) 0 (Some tag) None;
      p ← non_null mapEntry;
      impl ← shared_from_this p;
      tombstones_add impl;; mret tt
    | None => mret tt
    end;;
    mret (not_found afterRemote, None, me, false)
  end.

(** Returns the error, [oldValue], [me] and [isEntryFound]. *)
Definition remove (key : K) (oldValue : value) (me : option nat) (updateCount : Z)
    (versionTag : option VersionTag.t) (afterRemote isEntryFound : bool)
    : ST S (GfErrType * value * option nat * bool) :=
  s ← st_get;
  if m_concurrencyChecksEnabled s then
    removeWhenConcurrencyEnabled key oldValue me updateCount versionTag afterRemote isEntryFound
  else
    match m_map s !! key with
    | None =>
      let destroyTrackers := m_numDestroyTrackers (env s) in
      (if 0 <? destroyTrackers then
         st_modify (with_destroyed (insert key (s32 (destroyTrackers + 1))))
       else mret tt);;
      mret (GF_CACHE_ENTRY_NOT_FOUND, None, me, isEntryFound)
    | Some entry =>
      st_modify (with_map (delete key));;
      count ← getUpdateCount entry;
      if (0 <=? updateCount) && negb (updateCount =? count) then
        mret (GF_CACHE_ENTRY_UPDATED, oldValue, me, isEntryFound)
      else
        entryImpl ← getImplPtr entry;
        oldValue ← getValueI entryImpl;
        let oldValue := if isTombstone oldValue then None else oldValue in
        mret (GF_NOERR, oldValue, match oldValue with Some _ => Some entryImpl | None => me end, isEntryFound)
    end.

(** [MapSegment::remove_tomb_entry], called by [TombstoneExpiryTask::on_expire]. *)
Definition remove_tomb_entry (t : nat) : ST S bool :=
  s ← st_get;
  match tombs s !! t with
  | None => st_throw UndefinedBehaviour
  | Some o =>
    if negb (valid_ o) then mret false
    else
      key ← getKeyI (entry_ o);
      key ← non_null key;
      erased ← tombstones_erase key false;
      if erased : bool then st_modify (with_map (delete key));; mret true
      else mret false
  end.

(** Returns whether the key is present, [result] and [value]. *)
Definition getEntry (key : K) : ST S (bool * option nat * value) :=
  s ← st_get;
  match m_map s !! key with
  | None => mret (false, None, None)
  | Some entry =>
    mePtr ← getImplPtr entry;
    v ← getValueI mePtr;
    if match v with None => true | Some _ => false end || isTombstone v then mret (false, None, None)
    else mret (true, Some mePtr, v)
  end.

Definition containsKey (key : K) : ST S bool :=
  s ← st_get;
  match m_map s !! key with
  | None => mret false
  | Some entry =>
    mePtr ← getImplPtr entry;
    v ← getValueI mePtr;
    mret (negb (isTombstone v))
  end.

(** [for (kv : m_map) f kv] with the results appended. *)
Fixpoint for_entries {A} (f : K * MapEntryPtr -> ST S (list A)) (l : list (K * MapEntryPtr)) : ST S (list A) :=
  match l with
  | [] => mret []
  | kv :: l' => xs ← f kv; ys ← for_entries f l'; mret (xs ++ ys)
  end.

Definition getKeys : ST S (list K) :=
  s ← st_get;
  for_entries (fun kv =>
      impl ← getImplPtr kv.2;
      v ← getValueI impl;
      mret (if isTombstone v then [] else [kv.1])) (map_to_list (m_map s)).

(** A region entry is its key and value. *)
Definition getEntries : ST S (list (option K * value)) :=
  s ← st_get;
  for_entries (fun kv =>
      me ← getImplPtr kv.2;
      v ← getValueI me;
      match v with
      | None => mret []
      | Some _ =>
        if isTombstone v then mret []
        else key ← getKeyI me; mret [(key, if isInvalid v then None else v)]
      end) (map_to_list (m_map s)).

Definition getValues : ST S (list value) :=
  s ← st_get;
  for_entries (fun kv =>
      v ← getValue kv.2;
      entryImpl ← getImplPtr kv.2;
      match v with
      | None => mret []
      | Some _ =>
        if isInvalid v || isDestroyed v || isTombstone v then mret []
        else if isOverflowed v then
          let v := getFromDisk kv.1 entryImpl in
          setValueI entryImpl v;; mret [v]
        else mret [v]
      end) (map_to_list (m_map s)).

(** Returns the update count and [oldValue]. *)
Definition addTrackerForEntry (key : K) (oldValue : value) (addIfAbsent failIfPresent incUpdateCount : bool)
    : ST S (Z * value) :=
  s ← st_get;
  if m_concurrencyChecksEnabled s then mret (-1, oldValue)
  else
    let track (entry : MapEntryPtr) (newEntry : option MapEntryPtr) : ST S Z :=
      '(updateCount, newEntry) ←
        (if incUpdateCount then
           '(_, e1) ← addTracker entry;
           '(c, e2) ← incrementUpdateCount entry;
           mret (c, match e2 with Some _ => e2 | None => match e1 with Some _ => e1 | None => newEntry end end)
         else
           '(c, e1) ← addTracker entry;
           mret (c, match e1 with Some _ => e1 | None => newEntry end));
      match newEntry with
      | None => mret updateCount
      | Some e => st_modify (with_map (insert key e));; mret updateCount
      end in
    match m_map s !! key with
    | None =>
      if addIfAbsent then
        p ← newMapEntry key;
        setValueI p (Some DestroyedToken);;
        c ← track (PImpl p) (Some (PImpl p));
        mret (c, None)
      else mret (-1, None)
    | Some entry =>
      oldValue ← getValue entry;
      if failIfPresent then mret (-1, oldValue)
      else c ← track entry None; mret (c, oldValue)
    end.

(** [MapSegment::removeTrackerForEntry(key)]. *)
Definition removeTrackerForEntry (key : K) : ST S unit :=
  s ← st_get;
  if m_concurrencyChecksEnabled s then mret tt
  else
    match m_map s !! key with
    | None => mret tt
    | Some entry => impl ← getImplPtr entry; seg_removeTracker key entry impl
    end.

(** The loop of [addTrackerForAllEntries]; [newEntry] is not reset between iterations. *)
Fixpoint addTracker_loop (l : list (K * MapEntryPtr)) (newEntry : option MapEntryPtr)
    (updateCounterMap : gmap K Z) : ST S (gmap K Z) :=
  match l with
  | [] => mret updateCounterMap
  | (k, e) :: l' =>
    key ← getKey e;
    '(updateCount, e') ← addTracker e;
    let newEntry := match e' with Some _ => e' | None => newEntry end in
    match newEntry with
    | Some ne => st_modify (with_map (insert k ne))
    | None => mret tt
    end;;
    key ← non_null key;
    addTracker_loop l' newEntry
      (match updateCounterMap !! key with Some _ => updateCounterMap | None => <[key := updateCount]> updateCounterMap end)
  end.

Definition addTrackerForAllEntries (updateCounterMap : gmap K Z) : ST S (gmap K Z) :=
  s ← st_get;
  if m_concurrencyChecksEnabled s then mret updateCounterMap
  else addTracker_loop (map_to_list (m_map s)) None updateCounterMap.

Definition removeDestroyTracking : ST S unit :=
  s ← st_get;
  if m_concurrencyChecksEnabled s then mret tt else st_modify (with_destroyed (fun _ => ∅)).

(** [TombstoneList::reap_tombstones(gcVersions)]: the keys to delete, then their removal. *)
Fixpoint tobeDeleted (gcVersions : gmap Z Z) (l : list (K * nat)) : ST S (list K) :=
  match l with
  | [] => mret []
  | (k, t) :: l' =>
    s ← st_get;
    o ← non_null (tombs s !! t);
    v ← getVersionStampI (entry_ o);
    ks ← tobeDeleted gcVersions l';
    mret (match gcVersions !! VersionStamp.getMemberId v with
          | Some version => if VersionStamp.getRegionVersion v <=? version then k :: ks else ks
          | None => ks
          end)
  end.

Definition reapTombstones (gcVersions : gmap Z Z) : ST S unit :=
  s ← st_get;
  keys ← tobeDeleted gcVersions (map_to_list (tombstones_ s));
  st_iter remove_entry keys.

(** [reap_tombstones(keys)]. *)
Definition reapTombstones_keys (removedKeys : list K) : ST S unit := st_iter remove_entry removedKeys.

(** [MapSegment::isTombstone]: the error, [me] and [result]. *)
Definition seg_isTombstone (key : K) (me : option nat) : ST S (GfErrType * option nat * bool) :=
  s ← st_get;
  match m_map s !! key with
  | None => mret (GF_NOERR, me, false)
  | Some entry =>
    mePtr ← getImplPtr entry;
    v ← getValueI mePtr;
    match v with
    | None => mret (GF_NOERR, me, false)
    | Some _ =>
      if isTombstone v then
        if tombstones_exists key s then mret (GF_NOERR, Some mePtr, true)
        else mret (GF_CACHE_ILLEGAL_STATE_EXCEPTION, me, false)
      else if tombstones_exists key s then mret (GF_CACHE_ILLEGAL_STATE_EXCEPTION, me, false)
      else mret (GF_NOERR, me, false)
    end
  end.

End Segment.
