(* ===== verification/SegmentFacts.v ===== *)
(** Segments with concurrency checks: the invariant that ties the tombstone list to the map,
    and the refinement of an abstract versioned map. *)
From S2P Require Import Prelude Versions ExpiryTaskManager MapEntry MapSegment.

Section Facts.
Context {K V : Type} `{Countable K}.
Abbreviation S := (Segment K V).
Abbreviation value := (option (Cacheable V)).

(** *** The state changes of the operations *)

(** A new entry for [k]. *)
Definition new_entry (k : K) (v : value) (w : VersionStamp.t) (s : S) : S :=
  mkSegment (<[k := PImpl (next_ptr s)]> (m_map s)) (tombstones_ s) (m_destroyedKeys s)
    (m_primeIndex s) (m_rehashCount s) (m_concurrencyChecksEnabled s) (seg_id s)
    (<[next_ptr s := mkEntry v (Some k) (Some w) 0 0 true]> (entries s)) (trackeds s) (tombs s)
    (Datatypes.S (next_ptr s)) (env s).

(** The entry at [p] of key [k] gets a new value and stamp. *)
Definition set_entry (p : nat) (k : K) (v : value) (w : VersionStamp.t) (s : S) : S :=
  with_entries (insert p (mkEntry v (Some k) (Some w) 0 0 true)) s.

(** The tombstone of [k], if it has one, is invalidated and leaves the list. *)
Definition untomb (cancel_task : bool) (k : K) (s : S) : S :=
  match tombstones_ s !! k with
  | None => s
  | Some t =>
    match tombs s !! t with
    | None => s
    | Some o =>
      let s1 := with_tombs (insert t (mkTomb (entry_ o) (task_id_ o) false)) s in
      let s2 := if cancel_task then
                  with_manager (fun m => (ExpiryTaskManager.cancel (task_id_ o) m).2) s1 else s1 in
      with_tombstones (delete k) s2
    end
  end.

(** The entry at [p] of key [k] joins the tombstone list. *)
Definition entomb (p : nat) (k : K) (s : S) : S :=
  let '(task_id, m) := ExpiryTaskManager.schedule (seg_id s, next_ptr s) (manager (env s)) in
  mkSegment (m_map s) (<[k := next_ptr s]> (tombstones_ s)) (m_destroyedKeys s) (m_primeIndex s)
    (m_rehashCount s) (m_concurrencyChecksEnabled s) (seg_id s) (entries s) (trackeds s)
    (<[next_ptr s := mkTomb p task_id true]> (tombs s)) (Datatypes.S (next_ptr s))
    (mkEnv m (memberList (env s)) (m_numDestroyTrackers (env s))).

(** *** The invariant *)

(** An untracked, versioned entry of [k]. *)
Definition entry_is (s : S) (k : K) (p : nat) (v : value) (w : VersionStamp.t) : Prop :=
  entries s !! p = Some (mkEntry v (Some k) (Some w) 0 0 true).

(** The invariant; [x] is a key whose tombstone value need not be listed, as in the middle of
    an operation on that key. *)
Record seg_inv_ex (x : option K) (s : S) : Prop := {
  inv_cc : m_concurrencyChecksEnabled s = true;
  inv_prime : 0 <= m_primeIndex s < 27;
  (** every entry of the map is an untracked versioned entry of its key *)
  inv_entry : forall k e, m_map s !! k = Some e -> exists p v w, e = PImpl p /\ entry_is s k p v w;
  (** a listed tombstone is valid and its key is bound to a tombstone value *)
  inv_listed : forall k t, tombstones_ s !! k = Some t ->
    exists p id w, tombs s !! t = Some (mkTomb p id true) /\
      m_map s !! k = Some (PImpl p) /\ entry_is s k p (Some TombstoneToken) w;
  (** a key bound to a tombstone value is listed *)
  inv_value : forall k p w, Some k <> x -> m_map s !! k = Some (PImpl p) ->
    entry_is s k p (Some TombstoneToken) w -> exists t, tombstones_ s !! k = Some t;
  (** a tombstone that is still valid is the listed one of its key *)
  inv_valid : forall t o, tombs s !! t = Some o ->
    exists k v w, entry_is s k (entry_ o) v w /\ (valid_ o = true -> tombstones_ s !! k = Some t);
  inv_fresh : forall p, (next_ptr s <= p)%nat -> entries s !! p = None /\ tombs s !! p = None
}.
Arguments inv_cc {x s} _.
Arguments inv_prime {x s} _.
Arguments inv_entry {x s} _.
Arguments inv_listed {x s} _.
Arguments inv_value {x s} _.
Arguments inv_valid {x s} _.
Arguments inv_fresh {x s} _.

Abbreviation seg_inv := (seg_inv_ex None).

Lemma inv_weaken x s : seg_inv s -> seg_inv_ex x s.
Proof. intros [? ? ? ? Hv ? ?]. constructor; try done. intros. by eapply Hv. Qed.

(** The operation on [k] leaves it bound to something else, or listed. *)
Lemma inv_seal k s :
  seg_inv_ex (Some k) s ->
  (forall p w, m_map s !! k = Some (PImpl p) -> entry_is s k p (Some TombstoneToken) w ->
     exists t, tombstones_ s !! k = Some t) -> seg_inv s.
Proof.
  intros [? ? ? ? Hv ? ?] Hk. constructor; try done. intros k0 p w _ Hm He.
  destruct (decide (k0 = k)) as [->|Hne]; [eauto|]. eapply Hv; [congruence|done..].
Qed.

(** What a reader of the map sees of a key: its value and stamp. *)
Definition lookup_abs (s : S) (k : K) : option (value * VersionStamp.t) :=
  match m_map s !! k with
  | Some (PImpl p) =>
    match entries s !! p with
    | Some o => match stamp o with Some w => Some (m_value o, w) | None => None end
    | None => None
    end
  | _ => None
  end.

Lemma lookup_abs_entry s k p v w :
  m_map s !! k = Some (PImpl p) -> entry_is s k p v w -> lookup_abs s k = Some (v, w).
Proof. intros Hm He. unfold lookup_abs. by rewrite Hm, He. Qed.

Lemma lookup_abs_None s k : m_map s !! k = None -> lookup_abs s k = None.
Proof. unfold lookup_abs. by intros ->. Qed.

Lemma entry_is_inj s k k' p v v' w w' : entry_is s k p v w -> entry_is s k' p v' w' -> k = k' /\ v = v' /\ w = w'.
Proof. unfold entry_is. intros -> [=]. done. Qed.

(** Different keys have different entries. *)
Lemma inv_entry_ne x s k k' p p' :
  seg_inv_ex x s -> m_map s !! k = Some (PImpl p) -> m_map s !! k' = Some (PImpl p') -> k <> k' -> p <> p'.
Proof.
  intros Hi Hk Hk' Hne <-.
  apply (inv_entry Hi) in Hk as (? & v & w & [= <-] & He).
  apply (inv_entry Hi) in Hk' as (? & v' & w' & [= <-] & He').
  by destruct (entry_is_inj _ _ _ _ _ _ _ _ He He').
Qed.

Lemma inv_bound x s k p : seg_inv_ex x s -> m_map s !! k = Some (PImpl p) -> (p < next_ptr s)%nat.
Proof.
  intros Hi Hk. destruct (decide (p < next_ptr s)%nat) as [|Hge]; [done|].
  apply (inv_entry Hi) in Hk as (? & v & w & [= <-] & He).
  destruct (inv_fresh Hi p) as [Hn _]; [lia|]. unfold entry_is in He. congruence.
Qed.

Lemma inv_unlisted x s k : seg_inv_ex x s -> m_map s !! k = None -> tombstones_ s !! k = None.
Proof.
  intros Hi Hm. destruct (tombstones_ s !! k) as [t|] eqn:E; [|done].
  apply (inv_listed Hi) in E as (p & id & w & _ & Hm' & _). congruence.
Qed.

Lemma inv_live_unlisted s k p v w :
  seg_inv s -> m_map s !! k = Some (PImpl p) -> entry_is s k p v w -> v <> Some TombstoneToken ->
  tombstones_ s !! k = None.
Proof.
  intros Hi Hm He Hv. destruct (tombstones_ s !! k) as [t|] eqn:E; [|done].
  apply (inv_listed Hi) in E as (p' & id & w' & _ & Hm' & He'). simplify_eq.
  by destruct (entry_is_inj _ _ _ _ _ _ _ _ He He') as (_ & ? & _).
Qed.

(** *** Preservation *)

Lemma lookup_new_entry x k v w s k' :
  seg_inv_ex x s ->
  lookup_abs (new_entry k v w s) k' = if decide (k' = k) then Some (v, w) else lookup_abs s k'.
Proof.
  intros Hi. unfold lookup_abs. simpl. case_decide as Hk.
  - subst. rewrite !lookup_insert_eq. done.
  - rewrite lookup_insert_ne by done. destruct (m_map s !! k') as [[p|q]|] eqn:E; try done.
    pose proof (inv_bound x s k' p Hi E). rewrite lookup_insert_ne by lia. done.
Qed.

Lemma entry_is_new_entry x k v w s k0 p0 v0 w0 :
  seg_inv_ex x s -> entry_is s k0 p0 v0 w0 -> entry_is (new_entry k v w s) k0 p0 v0 w0.
Proof.
  intros Hi He. destruct (inv_fresh Hi (next_ptr s)) as [Hfe _]; [lia|].
  unfold entry_is in *. simpl. rewrite lookup_insert_ne; [done|]. congruence.
Qed.

Lemma inv_new_entry k v w s :
  seg_inv s -> m_map s !! k = None -> seg_inv_ex (Some k) (new_entry k v w s).
Proof.
  intros Hi Hk. pose proof (fun p k0 v0 w0 => entry_is_new_entry None k v w s k0 p v0 w0 Hi) as Hkeep.
  constructor; simpl; [apply Hi|apply Hi|..].
  - intros k0 e [[<- <-]|[Hne Hm]]%lookup_insert_Some.
    + exists (next_ptr s), v, w. split; [done|]. unfold entry_is. simpl. by rewrite lookup_insert_eq.
    + apply (inv_entry Hi) in Hm as (p & v0 & w0 & -> & He). eauto 10.
  - intros k0 t (p & id & w0 & Ht & Hm & He)%(inv_listed Hi). exists p, id, w0.
    split_and!; [done| |auto]. rewrite lookup_insert_ne; [done|]. congruence.
  - intros k0 p w0 Hx [[<- _]|[Hne Hm]]%lookup_insert_Some He; [done|].
    apply (inv_value Hi k0 p w0 ltac:(done) Hm). unfold entry_is in *. simpl in He.
    pose proof (inv_bound None s k0 p Hi Hm). rewrite lookup_insert_ne in He by lia. done.
  - intros t o (k0 & v0 & w0 & He & Hval)%(inv_valid Hi). eauto 10.
  - intros p Hp. destruct (inv_fresh Hi p) as [H1 H2]; [lia|]. rewrite lookup_insert_ne by lia. done.
Qed.

Lemma lookup_set_entry x p k v w s k' :
  seg_inv_ex x s -> m_map s !! k = Some (PImpl p) ->
  lookup_abs (set_entry p k v w s) k' = if decide (k' = k) then Some (v, w) else lookup_abs s k'.
Proof.
  intros Hi Hm. unfold lookup_abs. simpl. case_decide as Hk.
  - subst. rewrite Hm, lookup_insert_eq. done.
  - destruct (m_map s !! k') as [[p'|q]|] eqn:E; try done.
    rewrite lookup_insert_ne; [done|]. by apply (inv_entry_ne x s k k').
Qed.

Lemma entry_is_set_entry p k v w s k0 p0 v0 w0 :
  p0 <> p -> entry_is s k0 p0 v0 w0 <-> entry_is (set_entry p k v w s) k0 p0 v0 w0.
Proof. intros. unfold entry_is. simpl. by rewrite lookup_insert_ne. Qed.

Lemma inv_set_entry p k v w s :
  seg_inv_ex (Some k) s -> m_map s !! k = Some (PImpl p) -> tombstones_ s !! k = None ->
  seg_inv_ex (Some k) (set_entry p k v w s).
Proof.
  intros Hi Hm Ht. pose proof (inv_bound _ s k p Hi Hm) as Hp.
  pose proof (fun p0 k0 v0 w0 => entry_is_set_entry p k v w s k0 p0 v0 w0) as Hkeep.
  assert (Hset : entry_is (set_entry p k v w s) k p v w).
  { unfold entry_is. simpl. by rewrite lookup_insert_eq. }
  constructor; simpl; [apply Hi|apply Hi|..].
  - intros k0 e Hm0. pose proof Hm0 as (p0 & v0 & w0 & -> & He)%(inv_entry Hi).
    destruct (decide (k0 = k)) as [->|Hne]; [simplify_eq; eauto 10|].
    exists p0, v0, w0. split; [done|]. apply Hkeep; [|done]. by apply (inv_entry_ne (Some k) s k0 k).
  - intros k0 t Ht0. assert (k0 <> k) by congruence.
    apply (inv_listed Hi) in Ht0 as (p0 & id & w0 & Ho & Hm0 & He). exists p0, id, w0.
    split_and!; [done..|]. apply Hkeep; [|done]. by apply (inv_entry_ne (Some k) s k0 k).
  - intros k0 p0 w0 Hx Hm0 He. apply (inv_value Hi k0 p0 w0 Hx Hm0), Hkeep; [|done].
    apply (inv_entry_ne (Some k) s k0 k p0 p Hi Hm0 Hm). congruence.
  - intros t o (k0 & v0 & w0 & He & Hval)%(inv_valid Hi).
    destruct (decide (entry_ o = p)) as [Heq|Hne].
    + pose proof Hm as (? & v1 & w1 & [= <-] & He1)%(inv_entry Hi). rewrite Heq in He |- *.
      destruct (entry_is_inj _ _ _ _ _ _ _ _ He He1) as (-> & _). eauto 10.
    + exists k0, v0, w0. split; [by apply Hkeep|done].
  - intros p0 Hp0. destruct (inv_fresh Hi p0) as [H1 H2]; [lia|]. rewrite lookup_insert_ne by lia. done.
Qed.

(** Everything but the tombstones is as before. *)
Lemma untomb_frame c k s :
  m_map (untomb c k s) = m_map s /\ entries (untomb c k s) = entries s /\
  next_ptr (untomb c k s) = next_ptr s /\ m_primeIndex (untomb c k s) = m_primeIndex s /\
  m_concurrencyChecksEnabled (untomb c k s) = m_concurrencyChecksEnabled s /\
  memberList (env (untomb c k s)) = memberList (env s).
Proof. unfold untomb. by repeat (case_match; simpl). Qed.

Lemma untomb_listed x c k s : seg_inv_ex x s ->
  tombstones_ (untomb c k s) = delete k (tombstones_ s) /\
  tombs (untomb c k s) =
    match tombstones_ s !! k with
    | Some t => match tombs s !! t with
                | Some o => <[t := mkTomb (entry_ o) (task_id_ o) false]> (tombs s)
                | None => tombs s end
    | None => tombs s
    end.
Proof.
  intros Hi. unfold untomb. destruct (tombstones_ s !! k) as [t|] eqn:E.
  - pose proof E as (p & id & w & Ho & _)%(inv_listed Hi). rewrite Ho. simpl. by destruct c.
  - by rewrite delete_id.
Qed.

Lemma entry_is_untomb c k s k0 p v w : entry_is (untomb c k s) k0 p v w <-> entry_is s k0 p v w.
Proof. unfold entry_is. destruct (untomb_frame c k s) as (_ & -> & _). done. Qed.

Lemma lookup_untomb c k s k' : lookup_abs (untomb c k s) k' = lookup_abs s k'.
Proof. unfold lookup_abs. by destruct (untomb_frame c k s) as (-> & -> & _). Qed.

Lemma inv_untomb c k s : seg_inv s -> seg_inv_ex (Some k) (untomb c k s).
Proof.
  intros Hi. destruct (untomb_frame c k s) as (Hm & He & Hn & Hp & Hc & _).
  destruct (untomb_listed None c k s Hi) as [Hl Ht].
  constructor; rewrite ?Hm, ?He, ?Hn, ?Hp, ?Hc; [apply Hi|apply Hi|..].
  - intros k0 e (p & v & w & -> & Hk)%(inv_entry Hi). exists p, v, w. by rewrite entry_is_untomb.
  - intros k0 t. rewrite Hl. intros [Hne Hk]%lookup_delete_Some.
    pose proof Hk as (p & id & w & Ho & Hm0 & Hk0)%(inv_listed Hi). exists p, id, w.
    rewrite entry_is_untomb. split_and!; [|done..]. rewrite Ht. repeat (case_match; try done).
    rewrite lookup_insert_ne; [done|]. intros ->.
    pose proof H0 as (p' & id' & w' & Ho' & Hm0' & Hk0')%(inv_listed Hi). simplify_eq.
    by destruct (entry_is_inj _ _ _ _ _ _ _ _ Hk0 Hk0') as (? & _).
  - intros k0 p w Hx Hm0 Hk0. rewrite entry_is_untomb in Hk0. rewrite Hl, lookup_delete_ne by congruence.
    by eapply (inv_value Hi).
  - intros t o Ho. assert (Ho' : exists o', tombs s !! t = Some o' /\ entry_ o' = entry_ o /\
      (valid_ o = true -> valid_ o' = true /\ tombstones_ s !! k <> Some t)).
    { rewrite Ht in Ho. destruct (tombstones_ s !! k) as [t'|] eqn:E; [|naive_solver].
      pose proof E as (p & id & w & Ho' & _)%(inv_listed Hi). rewrite Ho' in Ho.
      apply lookup_insert_Some in Ho as [[<- <-]|[Hne Ho]]; naive_solver. }
    destruct Ho' as (o' & (k0 & v & w & Hk0 & Hval)%(inv_valid Hi) & Heq & Himp).
    exists k0, v, w. rewrite entry_is_untomb, <- Heq. split; [done|]. intros [Hv Hne]%Himp.
    rewrite Hl, lookup_delete_ne; [auto|]. intros ->. by apply Hne, Hval.
  - intros p Hp0. destruct (inv_fresh Hi p Hp0) as [H1 H2]. split; [done|]. rewrite Ht.
    repeat (case_match; try done). rewrite lookup_insert_ne; [done|]. congruence.
Qed.

Lemma inv_entomb p k w s :
  seg_inv_ex (Some k) s -> m_map s !! k = Some (PImpl p) -> tombstones_ s !! k = None ->
  entry_is s k p (Some TombstoneToken) w -> seg_inv (entomb p k s).
Proof.
  intros Hi Hm Ht He. destruct (inv_fresh Hi (next_ptr s)) as [Hfe Hft]; [lia|].
  unfold entomb. destruct (ExpiryTaskManager.schedule _ _) as [id m].
  constructor; simpl; [apply Hi|apply Hi|apply Hi|..].
  - intros k0 t [[<- <-]|[Hne Hk]]%lookup_insert_Some.
    + exists p, id, w. by rewrite lookup_insert_eq.
    + apply (inv_listed Hi) in Hk as (p0 & id0 & w0 & Ho & Hm0 & Hk0). exists p0, id0, w0.
      rewrite lookup_insert_ne by congruence. done.
  - intros k0 p0 w0 _ Hm0 Hk0. destruct (decide (k0 = k)) as [->|Hne].
    + exists (next_ptr s). by rewrite lookup_insert_eq.
    + rewrite lookup_insert_ne by done. eapply (inv_value Hi); [congruence|done..].
  - intros t o [[<- <-]|[Hne Ho]]%lookup_insert_Some.
    + exists k, (Some TombstoneToken), w. simpl. by rewrite lookup_insert_eq.
    + apply (inv_valid Hi) in Ho as (k0 & v & w0 & Hk0 & Hval). exists k0, v, w0. split; [done|].
      intros Hv%Hval. rewrite lookup_insert_ne; [done|]. congruence.
  - intros p0 Hp0. destruct (inv_fresh Hi p0) as [H1 H2]; [lia|]. rewrite lookup_insert_ne by lia. done.
Qed.

Lemma lookup_entomb p k s k' : lookup_abs (entomb p k s) k' = lookup_abs s k'.
Proof. unfold entomb. by destruct (ExpiryTaskManager.schedule _ _). Qed.

Lemma inv_delete k s :
  seg_inv_ex (Some k) s -> tombstones_ s !! k = None -> seg_inv (with_map (delete k) s).
Proof.
  intros Hi Ht. constructor; simpl; [apply Hi|apply Hi|..].
  - intros k0 e [_ Hm]%lookup_delete_Some. by apply (inv_entry Hi) in Hm.
  - intros k0 t Hk. pose proof Hk as (p & id & w & Ho & Hm & He)%(inv_listed Hi). exists p, id, w.
    rewrite lookup_delete_ne by congruence. done.
  - intros k0 p w _ [Hne Hm]%lookup_delete_Some He. eapply (inv_value Hi); [congruence|done..].
  - apply Hi.
  - apply Hi.
Qed.

Lemma lookup_delete_map k s k' :
  lookup_abs (with_map (delete k) s) k' = if decide (k' = k) then None else lookup_abs s k'.
Proof.
  unfold lookup_abs. simpl. case_decide as E; [subst; by rewrite lookup_delete_eq|by rewrite lookup_delete_ne].
Qed.

End Facts.

Arguments inv_cc {K V _ _ x s} _.
Arguments inv_prime {K V _ _ x s} _.
Arguments inv_entry {K V _ _ x s} _.
Arguments inv_listed {K V _ _ x s} _.
Arguments inv_value {K V _ _ x s} _.
Arguments inv_valid {K V _ _ x s} _.
Arguments inv_fresh {K V _ _ x s} _.
Abbreviation seg_inv := (seg_inv_ex None).
