(* ===== verification/SegmentRefinement.v ===== *)
(** Segments with concurrency checks implement an abstract versioned map: a finite map from
    keys to a value (possibly a tombstone) and a version stamp. *)
From S2P Require Import Prelude Versions ExpiryTaskManager MapEntry MapSegment SegmentFacts.

Section Refinement.
Context {K V D : Type} `{Countable K}.
Abbreviation S := (Segment K V).
Abbreviation value := (option (Cacheable V)).
Context (getFromDisk : K -> nat -> value) (cloningEnabled : bool).
Context (isDelta : V -> bool) (clone : V -> V) (fromDelta : D -> V -> V * bool).

(** *** The abstract map *)

Abbreviation amap := (gmap K (value * VersionStamp.t)).

(** A destroyed value reads as null. *)
Definition visible (v : value) : value := if isDestroyed v then None else v.

(** The stamp an existing entry gets from an operation with [tag], if there is no conflict. *)
Definition next_stamp (ml : MemberListForVersionStamp.t) (tag : option VersionTag.t) (deltaCheck : bool)
    (w : VersionStamp.t) : outcome (GfErrType * VersionStamp.t) :=
  match tag with
  | None => Ok (GF_NOERR, w)
  | Some t =>
    err ← VersionStamp.processVersionTag ml (Some t) deltaCheck w;
    Ok (err, if decide (err = GF_NOERR) then VersionStamp.setVersions t else w)
  end.

Definition fresh_stamp (tag : option VersionTag.t) : VersionStamp.t :=
  match tag with Some t => VersionStamp.setVersions t | None => VersionStamp.construct end.

(** The operations of a segment, as far as they go through the versioned path. *)
Inductive op :=
| OpPut (k : K) (v : value) (tag : option VersionTag.t)
| OpCreate (k : K) (v : value) (tag : option VersionTag.t)
| OpInvalidate (k : K) (tag : option VersionTag.t)
| OpRemove (k : K) (tag : option VersionTag.t) (afterRemote : bool)
| OpGet (k : K)
| OpContains (k : K).

(** The error, the old value (the value, for [OpGet]) and the flag of the operation
    ([isUpdate], [isTokenAdded], [isEntryFound], or the result of the query). *)
Abbreviation result := (GfErrType * value * bool)%type.

Definition spec_op (ml : MemberListForVersionStamp.t) (o : op) (a : amap) : outcome (result * amap) :=
  match o with
  | OpPut k v tag =>
    match a !! k with
    | None => Ok ((GF_NOERR, None, false), <[k := (v, fresh_stamp tag)]> a)
    | Some (old, w) =>
      '(err, w') ← next_stamp ml tag false w;
      if decide (err = GF_NOERR) then
        let shown := if isTombstone old then None else visible old in
        Ok ((GF_NOERR, shown, match shown with Some _ => true | None => false end), <[k := (v, w')]> a)
      else Ok ((err, None, false), a)
    end
  | OpCreate k v tag =>
    match a !! k with
    | None => Ok ((GF_NOERR, None, false), <[k := (v, fresh_stamp tag)]> a)
    | Some (old, w) =>
      if match visible old with None => true | Some _ => isTombstone old end then
        '(err, w') ← next_stamp ml tag false w;
        if decide (err = GF_NOERR) then Ok ((GF_NOERR, None, false), <[k := (v, w')]> a)
        else Ok ((err, visible old, false), a)
      else Ok ((GF_CACHE_ENTRY_EXISTS, old, false), a)
    end
  | OpInvalidate k tag =>
    match a !! k with
    | None => Ok ((GF_CACHE_ENTRY_NOT_FOUND, None, true), <[k := (Some InvalidToken, fresh_stamp tag)]> a)
    | Some (old, w) =>
      '(err, w') ← next_stamp ml tag false w;
      if decide (err = GF_NOERR) then
        if isTombstone old then Ok ((GF_CACHE_ENTRY_NOT_FOUND, None, false), a)
        else Ok ((GF_NOERR, visible old, false), <[k := (Some InvalidToken, w')]> a)
      else Ok ((err, None, false), a)
    end
  | OpRemove k tag afterRemote =>
    match a !! k with
    | None =>
      Ok ((not_found afterRemote, None, false),
          match tag with
          | Some t => <[k := (Some TombstoneToken, VersionStamp.setVersions t)]> a
          | None => a
          end)
    | Some (old, w) =>
      '(err, w') ← next_stamp ml tag false w;
      if decide (err = GF_NOERR) then
        Ok (if isTombstone old then (not_found afterRemote, None, true) else (GF_NOERR, visible old, true),
            <[k := (Some TombstoneToken, w')]> a)
      else Ok ((err, None, true), a)
    end
  | OpGet k =>
    match a !! k with
    | None => Ok ((GF_NOERR, None, false), a)
    | Some (v, _) =>
      if match visible v with None => true | Some _ => isTombstone v end then Ok ((GF_NOERR, None, false), a)
      else Ok ((GF_NOERR, v, true), a)
    end
  | OpContains k =>
    match a !! k with
    | None => Ok ((GF_NOERR, None, false), a)
    | Some (v, _) => Ok ((GF_NOERR, None, negb (isTombstone v)), a)
    end
  end.

(** The same operations of [MapSegment]; the callers pass null output parameters, and with
    concurrency checks the counters of the tracking protocol are not used. *)
Definition run_op (updateCount destroyTracker : Z) (o : op) : ST S result :=
  match o with
  | OpPut k v tag =>
    '(err, _, old, upd, _) ← put getFromDisk cloningEnabled isDelta clone fromDelta
                               k v None None updateCount destroyTracker false tag None;
    mret (err, old, upd)
  | OpCreate k v tag =>
    '(err, _, old) ← create getFromDisk cloningEnabled isDelta clone fromDelta
                       k v None None updateCount destroyTracker tag;
    mret (err, old, false)
  | OpInvalidate k tag =>
    '(err, _, old, added) ← invalidate k None None tag; mret (err, old, added)
  | OpRemove k tag afterRemote =>
    '(err, old, _, found) ← remove getFromDisk cloningEnabled isDelta clone fromDelta
                              k None None updateCount tag afterRemote true;
    mret (err, old, found)
  | OpGet k => '(b, _, v) ← getEntry k; mret (GF_NOERR, v, b)
  | OpContains k => b ← containsKey k; mret (GF_NOERR, None, b)
  end.

(** Tombstones are made by removals only. *)
Definition op_ok (o : op) : Prop :=
  match o with
  | OpPut _ v _ | OpCreate _ v _ => v <> Some TombstoneToken
  | _ => True
  end.

Definition abs_rel (s : S) (a : amap) : Prop := forall k, lookup_abs s k = a !! k.

(** *** The steps of the operations as state changes *)

Section Steps.
Context (s : S) (k : K) (p : nat) (v : value) (w : VersionStamp.t).
Context (He : entry_is s k p v w).

Lemma load_entry : load p s = Ok (mkEntry v (Some k) (Some w) 0 0 true, s).
Proof. unfold load. by rewrite He. Qed.

Lemma getImplPtr_entry : getImplPtr (PImpl p) s = Ok (p, s).
Proof. simpl. unfold shared_from_this, mbind, ST_bind. by rewrite load_entry. Qed.

Lemma getValueI_entry : getValueI p s = Ok (visible v, s).
Proof. unfold getValueI, mbind, ST_bind. by rewrite load_entry. Qed.

Lemma getKeyI_entry : getKeyI p s = Ok (Some k, s).
Proof. unfold getKeyI, mbind, ST_bind. by rewrite load_entry. Qed.

Lemma getVersionStamp_entry : getVersionStamp (PImpl p) s = Ok (w, s).
Proof. simpl. unfold getVersionStampI, mbind, ST_bind. by rewrite load_entry. Qed.

Lemma setValueI_entry v' : setValueI p v' s = Ok (tt, set_entry p k v' w s).
Proof. unfold setValueI, mbind, ST_bind. by rewrite load_entry. Qed.

Lemma setVersionStampI_entry w' : setVersionStampI p w' s = Ok (tt, set_entry p k v w' s).
Proof. unfold setVersionStampI, mbind, ST_bind. by rewrite load_entry. Qed.

Lemma tombstones_add_entry : exists id, tombstones_add p s = Ok (id, entomb p k s).
Proof.
  unfold tombstones_add, entomb, mbind, ST_bind, st_get, alloc, getKeyI, load. simpl.
  unfold mbind, ST_bind, load. simpl. rewrite He. simpl.
  destruct (ExpiryTaskManager.schedule _ _) as [id m]. by exists id.
Qed.

End Steps.

Implicit Types (k : K) (v : value) (s : S) (w : VersionStamp.t).

Lemma entry_is_set p k v w s : entry_is (set_entry p k v w s) k p v w.
Proof. unfold entry_is. simpl. by rewrite lookup_insert_eq. Qed.

Lemma entry_is_new k v w s : entry_is (new_entry k v w s) k (next_ptr s) v w.
Proof. unfold entry_is. simpl. by rewrite lookup_insert_eq. Qed.

Lemma set_entry_set p k v w v' w' s : set_entry p k v' w' (set_entry p k v w s) = set_entry p k v' w' s.
Proof. unfold set_entry, with_entries. simpl. by rewrite insert_insert_eq. Qed.

Lemma untomb_set_entry c p k v w s : untomb c k (set_entry p k v w s) = set_entry p k v w (untomb c k s).
Proof. unfold untomb. simpl. repeat (case_match; simpl); done. Qed.

Lemma tombstones_erase_eq x c k s : seg_inv_ex x s ->
  tombstones_erase k c s = Ok (tombstones_exists k s, untomb c k s).
Proof.
  intros Hi. unfold tombstones_erase, tombstones_exists, untomb, mbind, ST_bind, st_get. simpl.
  destruct (tombstones_ s !! k) as [t|] eqn:E; [|done].
  pose proof E as (p & id & w & Ho & _)%(inv_listed Hi). rewrite Ho. by destruct c.
Qed.

Lemma tombstones_erase_set x c p k v w s : seg_inv_ex x s ->
  exists b, tombstones_erase k c (set_entry p k v w s) = Ok (b, set_entry p k v w (untomb c k s)).
Proof.
  intros Hi. rewrite <- untomb_set_entry. unfold tombstones_erase, untomb, mbind, ST_bind, st_get. simpl.
  destruct (tombstones_ s !! k) as [t|] eqn:E; [|eauto].
  pose proof E as (p' & id & w' & Ho & _)%(inv_listed Hi). rewrite Ho. destruct c; eauto.
Qed.

(** The value and the stamp of an existing entry are replaced. *)
Lemma putForTrackedEntry_eq b k p v w v' w' uc s :
  seg_inv s -> entry_is s k p v w ->
  putForTrackedEntry getFromDisk cloningEnabled isDelta clone fromDelta b k v' (PImpl p) p uc w' None s
  = Ok ((GF_NOERR, v'), set_entry p k v' w' (untomb true k s)).
Proof.
  intros Hi He. unfold putForTrackedEntry, mbind, ST_bind, st_get. simpl.
  rewrite (inv_cc Hi), orb_true_r. simpl. unfold mbind, ST_bind. simpl.
  rewrite (setValueI_entry _ _ _ _ _ He). simpl.
  destruct (tombstones_erase_set None true p k v' w s Hi) as [b' ->].
  rewrite (setVersionStampI_entry _ k p v' w) by apply entry_is_set.
  unfold seg_incrementUpdateCount, mbind, ST_bind, st_get. simpl.
  rewrite set_entry_set. destruct (untomb_frame true k s) as (_ & _ & _ & _ & Hc & _).
  rewrite Hc, (inv_cc Hi). by destruct w'.
Qed.

Lemma putNoEntry_eq k v ne uc dt tag (w : option VersionStamp.t) s :
  m_concurrencyChecksEnabled s = true -> m_map s !! k = None ->
  putNoEntry k v ne uc dt tag w s
  = Ok ((GF_NOERR, Some (next_ptr s)),
        new_entry k v (match tag, w with
                       | Some t, _ => VersionStamp.setVersions t
                       | None, Some w => w
                       | None, None => VersionStamp.construct
                       end) s).
Proof.
  intros Hc Hk. destruct s. simpl in *. subst.
  unfold putNoEntry, newMapEntry, setValueI, setVersionStampI, emplace, new_entry, with_map, with_entries,
    mbind, ST_bind, st_get, alloc, load, store, st_modify, mret, ST_ret.
  destruct tag as [t|]; [|destruct w as [[]|]];
    repeat (cbn; unfold with_entries, with_map; rewrite ?lookup_insert_eq, ?insert_insert_eq, ?Hk); done.
Qed.

Lemma remove_entry_eq x k s : seg_inv_ex x s ->
  remove_entry k s = Ok (tt, with_map (delete k) (untomb true k s)).
Proof. intros Hi. unfold remove_entry, mbind, ST_bind. by rewrite (tombstones_erase_eq x). Qed.

Lemma stamp_for_eq k p v w tag d s :
  m_concurrencyChecksEnabled s = true -> entry_is s k p v w ->
  stamp_for (PImpl p) tag d s =
  match next_stamp (memberList (env s)) tag d w with Ok r => Ok (r, s) | Throw e => Throw e end.
Proof.
  intros Hc He. unfold stamp_for, next_stamp, mbind, ST_bind, st_get. cbv beta iota. rewrite Hc.
  rewrite (getVersionStamp_entry _ _ _ _ _ He). destruct tag as [t|]; [|done].
  unfold st_lift, mbind, outcome_bind. by destruct (VersionStamp.processVersionTag _ _ _ _).
Qed.

Lemma remove_stamp_eq k p v w tag s :
  entry_is s k p v w ->
  remove_stamp (PImpl p) tag w s =
  match next_stamp (memberList (env s)) tag false w with Ok r => Ok (r, s) | Throw e => Throw e end.
Proof.
  intros He. unfold remove_stamp, next_stamp, mbind, ST_bind, st_get. destruct tag as [t|]; [|done].
  rewrite (getImplPtr_entry _ _ _ _ _ He). unfold st_lift, outcome_bind.
  by destruct (VersionStamp.processVersionTag _ _ _ _).
Qed.

(** *** Composite changes *)

(** What the operations that write key [k] do to the map. *)
Definition writes (s s' : S) (k : K) (v : value) (w : VersionStamp.t) : Prop :=
  seg_inv s' /\ forall k', lookup_abs s' k' = if decide (k' = k) then Some (v, w) else lookup_abs s k'.

Lemma writes_rel s s' k v w a :
  abs_rel s a -> writes s s' k v w -> seg_inv s' /\ abs_rel s' (<[k := (v, w)]> a).
Proof.
  intros Ha [Hi Hw]. split; [done|]. intros k'. rewrite Hw. case_decide as E.
  - subst. by rewrite lookup_insert_eq.
  - by rewrite lookup_insert_ne.
Qed.

Lemma writes_new k v w s :
  seg_inv s -> m_map s !! k = None -> v <> Some TombstoneToken -> writes s (new_entry k v w s) k v w.
Proof.
  intros Hi Hk Hv. split.
  - apply (inv_seal k); [by apply inv_new_entry|]. simpl. rewrite lookup_insert_eq.
    intros p w' [= <-] He. unfold entry_is in He. simpl in He. rewrite lookup_insert_eq in He. congruence.
  - intros k'. by apply (lookup_new_entry None).
Qed.

Lemma untomb_unlisted x c k s : seg_inv_ex x s -> tombstones_ (untomb c k s) !! k = None.
Proof. intros Hi. destruct (untomb_listed x c k s Hi) as [-> _]. apply lookup_delete_eq. Qed.

Lemma untomb_map c k s : m_map (untomb c k s) = m_map s.
Proof. apply untomb_frame. Qed.

(** A live value is written over any value. *)
Lemma writes_set k p v w s :
  seg_inv s -> m_map s !! k = Some (PImpl p) -> v <> Some TombstoneToken ->
  writes s (set_entry p k v w (untomb true k s)) k v w.
Proof.
  intros Hi Hk Hv. pose proof (inv_untomb true k s Hi) as Hu. split.
  - apply (inv_seal k).
    + apply inv_set_entry; [done|by rewrite untomb_map|by apply (untomb_unlisted None)].
    + simpl. rewrite untomb_map, Hk. intros p' w' [= <-] He. pose proof (entry_is_set p k v w (untomb true k s)) as He'.
      by destruct (entry_is_inj _ _ _ _ _ _ _ _ He He') as (_ & ? & _).
  - intros k'. rewrite (lookup_set_entry (Some k)), lookup_untomb; [done|done|by rewrite untomb_map].
Qed.

(** A tombstone is written over any value. *)
Lemma writes_tomb k p w s :
  seg_inv s -> m_map s !! k = Some (PImpl p) ->
  writes s (entomb p k (set_entry p k (Some TombstoneToken) w (untomb true k s))) k (Some TombstoneToken) w.
Proof.
  intros Hi Hk. pose proof (inv_untomb true k s Hi) as Hu.
  pose proof (untomb_unlisted None true k s Hi). split.
  - apply (inv_entomb p k w); simpl; [|by rewrite untomb_map|done|apply entry_is_set].
    apply inv_set_entry; [done|by rewrite untomb_map|done].
  - intros k'. rewrite lookup_entomb, (lookup_set_entry (Some k)), lookup_untomb; [done|done|by rewrite untomb_map].
Qed.

(** A tombstone is written for a key that is not there. *)
Lemma writes_new_tomb k w s :
  seg_inv s -> m_map s !! k = None ->
  writes s (entomb (next_ptr s) k (new_entry k (Some TombstoneToken) w s)) k (Some TombstoneToken) w.
Proof.
  intros Hi Hk. split.
  - apply (inv_entomb _ k w); simpl; [by apply inv_new_entry|by rewrite lookup_insert_eq| |].
    + by apply (inv_unlisted None).
    + unfold entry_is. simpl. by rewrite lookup_insert_eq.
  - intros k'. rewrite lookup_entomb. by apply (lookup_new_entry None).
Qed.

(** [remove_entry]. *)
Lemma drop_inv c k s : seg_inv s -> seg_inv (with_map (delete k) (untomb c k s)).
Proof. intros Hi. apply inv_delete; [by apply inv_untomb|by apply (untomb_unlisted None)]. Qed.

Lemma drop_lookup c k s k' :
  lookup_abs (with_map (delete k) (untomb c k s)) k' = if decide (k' = k) then None else lookup_abs s k'.
Proof. rewrite lookup_delete_map. by rewrite lookup_untomb. Qed.

(** An entry is replaced by a new one. *)
Lemma writes_replace k v w s :
  seg_inv s -> v <> Some TombstoneToken ->
  writes s (new_entry k v w (with_map (delete k) (untomb true k s))) k v w.
Proof.
  intros Hi Hv. pose proof (drop_inv true k s Hi) as Hd.
  destruct (writes_new k v w _ Hd) as [Hn Hl]; [simpl; by rewrite lookup_delete_eq|done|]. split; [done|].
  intros k'. rewrite Hl. case_decide; [done|]. rewrite drop_lookup. by case_decide.
Qed.

(** *** The size check *)

Definition small (s : S) : Prop := Z.of_nat (size (m_map s)) <= 2 ^ 32.

Lemma getPrime_ok i : 0 <= i < 27 -> exists q, TableOfPrimes.getPrime i = Ok q.
Proof.
  intros Hi. unfold TableOfPrimes.getPrime.
  destruct (TableOfPrimes.g_primeTable !! Z.to_nat i) eqn:E; [eauto|].
  apply lookup_ge_None in E. simpl in E. lia.
Qed.

Lemma inv_with_prime i r s : seg_inv s -> 0 <= i < 27 -> seg_inv (with_prime i r s).
Proof. intros [] Hr. by constructor. Qed.

Lemma rehash_ok s : seg_inv s -> small s ->
  exists s', rehash_if_full s = Ok (tt, s') /\ seg_inv s' /\ m_map s' = m_map s /\
    env s' = env s /\ (forall k, lookup_abs s' k = lookup_abs s k) /\ (forall k p v w, entry_is s' k p v w <-> entry_is s k p v w).
Proof.
  intros Hi Hs. unfold rehash_if_full, mbind, ST_bind, st_get, st_lift.
  pose proof (inv_prime Hi) as Hp. destruct (getPrime_ok _ Hp) as [q Hq]. rewrite Hq.
  destruct (Z.ltb_spec q (Z.of_nat (size (m_map s)) * 75 / 100)) as [Hlt|Hge].
  - assert (m_primeIndex s <> 26).
    { intros E. rewrite E in Hq. vm_compute in Hq. simplify_eq. unfold small in Hs.
      assert (Z.of_nat (size (m_map s)) * 75 / 100 <= 3221225472); [|lia].
      apply Z.div_le_upper_bound; lia. }
    unfold rehash, mbind, ST_bind, st_get, st_lift. rewrite (wrapU_id 32) by (unfold in_u; lia).
    destruct (getPrime_ok (m_primeIndex s + 1)) as [q' ->]; [lia|]. simpl.
    eexists. split_and!; [done|apply inv_with_prime; [done|lia]|done..].
  - exists s. split_and!; done.
Qed.

(** *** The operations *)

Lemma key_cases s a k : seg_inv s -> abs_rel s a ->
  (m_map s !! k = None /\ a !! k = None) \/
  (exists p v w, m_map s !! k = Some (PImpl p) /\ entry_is s k p v w /\ a !! k = Some (v, w)).
Proof.
  intros Hi Ha. destruct (m_map s !! k) as [e|] eqn:E.
  - right. pose proof E as (p & v & w & -> & He)%(inv_entry Hi). exists p, v, w.
    split_and!; [done..|]. rewrite <- Ha. by apply (lookup_abs_entry s k p).
  - left. split; [done|]. rewrite <- Ha. by apply lookup_abs_None.
Qed.

(** The implementation returns [r] in a state that stands for [a'], or throws as specified. *)
Definition refines (o : outcome (result * amap)) (i : outcome (result * S)) : Prop :=
  match o with
  | Ok (r, a') => exists s', i = Ok (r, s') /\ seg_inv s' /\ abs_rel s' a'
  | Throw e => i = Throw e
  end.

Lemma refines_write s a r s' k v w i :
  abs_rel s a -> i = Ok (r, s') -> writes s s' k v w -> refines (Ok (r, <[k := (v, w)]> a)) i.
Proof. intros Ha -> Hw. exists s'. split; [done|]. by apply (writes_rel s). Qed.

Lemma refines_same s a r i :
  seg_inv s -> abs_rel s a -> i = Ok (r, s) -> refines (Ok (r, a)) i.
Proof. intros Hi Ha ->. by exists s. Qed.

(** Rewrites the reads of an existing entry. *)
Ltac read_entry Hi He :=
  rewrite ?(getImplPtr_entry _ _ _ _ _ He), ?(getValueI_entry _ _ _ _ _ He),
    ?(stamp_for_eq _ _ _ _ _ _ _ (inv_cc Hi) He).

Lemma next_stamp_ok ml tag d w w' :
  next_stamp ml tag d w = Ok (GF_NOERR, w') ->
  w' = match tag with Some t => VersionStamp.setVersions t | None => w end.
Proof.
  unfold next_stamp, mbind, outcome_bind. destruct tag as [t|]; [|congruence].
  destruct (VersionStamp.processVersionTag _ _ _ _); [|done]. intros [= -> <-]. by rewrite decide_True.
Qed.

Lemma putNoEntry_dropped k v ne uc dt tag w s : seg_inv s ->
  putNoEntry k v ne uc dt tag (Some w) (with_map (delete k) (untomb true k s))
  = Ok ((GF_NOERR, Some (next_ptr s)),
        new_entry k v (match tag with Some t => VersionStamp.setVersions t | None => w end)
          (with_map (delete k) (untomb true k s))).
Proof.
  intros Hi. destruct (untomb_frame true k s) as (_ & _ & Hn & _ & Hc & _).
  rewrite putNoEntry_eq; simpl; [|by rewrite Hc, (inv_cc Hi)|by rewrite lookup_delete_eq].
  by rewrite Hn.
Qed.

Lemma refine_put uc dt k v tag s a :
  seg_inv s -> small s -> abs_rel s a -> v <> Some TombstoneToken ->
  refines (spec_op (memberList (env s)) (OpPut k v tag) a) (run_op uc dt (OpPut k v tag) s).
Proof.
  intros Hi0 Hs0 Ha0 Hv. destruct (rehash_ok s Hi0 Hs0) as (s1 & Hr & Hi & _ & Henv & Hl & _).
  assert (Ha : abs_rel s1 a) by (intros k'; by rewrite Hl).
  cbn [run_op spec_op]. unfold put, mbind, ST_bind. rewrite Hr. unfold st_get. rewrite <- Henv.
  destruct (key_cases s1 a k Hi Ha) as [[Hm Hk]|(p & old & w & Hm & He & Hk)]; rewrite Hm, Hk.
  - rewrite putNoEntry_eq by (done || apply Hi).
    eapply refines_write; [exact Ha|reflexivity|]. by apply writes_new.
  - read_entry Hi He. unfold outcome_bind.
    destruct (next_stamp _ tag false w) as [[err w']|e] eqn:En; [|done].
    destruct (decide (err = GF_NOERR)) as [->|Hne].
    + rewrite bool_decide_eq_true_2 by done. cbn [negb].
      destruct (isTombstone old) eqn:Et.
      * destruct old as [[]|]; try done. cbn [visible isDestroyed isTombstone].
        rewrite (remove_entry_eq None), putNoEntry_dropped by done.
        eapply refines_write; [exact Ha|reflexivity|]. apply next_stamp_ok in En as ->.
        by destruct tag; apply writes_replace.
      * assert (Et' : isTombstone (visible old) = false) by (by destruct old as [[]|]).
        rewrite Et', (putForTrackedEntry_eq true k p old w v w' uc s1 Hi He).
        eapply refines_write; [exact Ha|done|]. by apply writes_set.
    + rewrite bool_decide_eq_false_2 by done. by eapply refines_same.
Qed.

(** *** Puts of deltas *)

(** What a delta makes of the value of an entry. [stored] is what the disk has for the entry. *)
Inductive applied :=
| Applied (v : value)      (** the new value *)
| Refused (v : value)      (** the delta does not fit; the value of the entry afterwards *)
| BadClass.                (** the value is not one that has deltas: a null pointer is used *)
Definition apply_delta (stored : value) (d : D) (old : value) : applied :=
  match old with
  | None | Some InvalidToken | Some DestroyedToken | Some TombstoneToken => Refused old
  | Some (Obj o) =>
    if negb (isDelta o) then BadClass
    else
      let '(o', ok) := fromDelta d (if cloningEnabled then clone o else o) in
      if ok : bool then Applied (Some (Obj o')) else Refused (if cloningEnabled then old else Some (Obj o'))
  | Some OverflowedToken =>
    match stored with
    | None => Refused old
    | Some (Obj o) =>
      if negb (isDelta o) then BadClass
      else
        let '(o', ok) := fromDelta d (if cloningEnabled then clone o else o) in
        if ok : bool then Applied (Some (Obj o')) else Refused old
    | Some _ => BadClass
    end
  end.

(** A delta is applied to a live value whose version it follows. Where there is none the caller has to get the full
    object; over a tombstone [v] is written. *)
Definition spec_delta (ml : MemberListForVersionStamp.t) (stored : value) (k : K) (v : value) (tag : option VersionTag.t)
    (d : D) (a : amap) : outcome (result * amap) :=
  match a !! k with
  | None => Ok ((GF_INVALID_DELTA, None, false), a)
  | Some (old, w) =>
    '(err, w') ← next_stamp ml tag true w;
    if decide (err = GF_NOERR) then
      if isTombstone old then Ok ((GF_NOERR, None, false), <[k := (v, w')]> a)
      else
        match apply_delta stored d old with
        | Applied v' =>
          (** without cloning the old value is the object that was changed *)
          let shown := if cloningEnabled || isOverflowed old then old else v' in
          Ok ((GF_NOERR, shown, true), <[k := (v', w')]> a)
        | Refused v' => Ok ((GF_INVALID_DELTA, None, false), <[k := (v', w)]> a)
        | BadClass => Throw UndefinedBehaviour
        end
    else Ok ((err, None, false), a)
  end.

Definition run_delta (updateCount destroyTracker : Z) (k : K) (v : value) (tag : option VersionTag.t) (d : D) : ST S result :=
  '(err, _, old, upd, _) ← put getFromDisk cloningEnabled isDelta clone fromDelta
                             k v None None updateCount destroyTracker false tag (Some d);
  mret (err, old, upd).

(** What the disk has for the entry of a key. *)
Definition on_disk (s : S) (k : K) : value :=
  match m_map s !! k with Some (PImpl p) => getFromDisk k p | _ => None end.

Lemma set_entry_same p k v w s : entry_is s k p v w -> set_entry p k v w s = s.
Proof. intros He. unfold set_entry, with_entries. rewrite insert_id by done. by destruct s. Qed.

Lemma putForTrackedEntry_delta b k p old w v w' uc d s :
  seg_inv s -> entry_is s k p old w -> isTombstone old = false ->
  putForTrackedEntry getFromDisk cloningEnabled isDelta clone fromDelta b k v (PImpl p) p uc w' (Some d) s =
  match apply_delta (getFromDisk k p) d old with
  | Applied v' => Ok ((GF_NOERR, v'), set_entry p k v' w' (untomb true k s))
  | Refused v' => Ok ((GF_INVALID_DELTA, v), set_entry p k v' w s)
  | BadClass => Throw UndefinedBehaviour
  end.
Proof.
  intros Hi He Ht.
  assert (Hset : forall v', putForTrackedEntry getFromDisk cloningEnabled isDelta clone fromDelta b k v' (PImpl p) p uc w' None s
    = Ok ((GF_NOERR, v'), set_entry p k v' w' (untomb true k s))) by (intros v'; by apply (putForTrackedEntry_eq b k p old w)).
  unfold putForTrackedEntry, mbind, ST_bind, st_get in *. simpl in *.
  rewrite (inv_cc Hi), orb_true_r in *. simpl in *. unfold mbind, ST_bind in *. simpl in *.
  rewrite (getValueI_entry _ _ _ _ _ He). pose proof (set_entry_same _ _ _ _ _ He) as Hs.
  unfold apply_delta.
  destruct old as [[| | | |o]|]; try done; cbn; rewrite ?Hs; try done.
  - destruct (getFromDisk k p) as [[| | | |o]|]; cbn; rewrite ?Hs; try done.
    destruct (isDelta o); [|done]. cbn. destruct cloningEnabled; destruct (fromDelta d _) as [o' []]; cbn.
    all: try (specialize (Hset (Some (Obj o'))); unfold mbind, ST_bind in *; exact Hset).
    all: rewrite ?Hs; done.
  - destruct (isDelta o); [|done]. cbn. destruct cloningEnabled; destruct (fromDelta d _) as [o' []]; cbn.
    all: try (specialize (Hset (Some (Obj o'))); unfold mbind, ST_bind in *; exact Hset).
    all: rewrite ?Hs; try done. unfold mbind, ST_bind. by rewrite (setValueI_entry _ _ _ _ _ He).
Qed.

Lemma apply_delta_live stored d old v :
  isTombstone old = false -> apply_delta stored d old = Applied v \/ apply_delta stored d old = Refused v ->
  v <> Some TombstoneToken.
Proof.
  unfold apply_delta. intros Ht E. repeat case_match; destruct E; simplify_eq; intros ?; simplify_eq; done.
Qed.

Lemma applied_visible stored d old v : apply_delta stored d old = Applied v -> exists o, visible old = Some o /\ old = Some o.
Proof. unfold apply_delta. intros E. repeat case_match; simplify_eq; simpl; eauto. Qed.

(** A value is written over a live one: the key is not in the tombstone list. *)
Lemma writes_live k p old w v w' s :
  seg_inv s -> m_map s !! k = Some (PImpl p) -> entry_is s k p old w -> isTombstone old = false -> v <> Some TombstoneToken ->
  writes s (set_entry p k v w' s) k v w'.
Proof.
  intros Hi Hm He Ht Hv. pose proof (inv_live_unlisted s k p old w Hi Hm He ltac:(by intros ->)) as Hu.
  pose proof (writes_set k p v w' s Hi Hm Hv) as Hw. unfold untomb in Hw. by rewrite Hu in Hw.
Qed.

Lemma refine_delta uc dt k v tag d s a :
  seg_inv s -> small s -> abs_rel s a -> v <> Some TombstoneToken ->
  refines (spec_delta (memberList (env s)) (on_disk s k) k v tag d a) (run_delta uc dt k v tag d s).
Proof.
  intros Hi0 Hs0 Ha0 Hv. destruct (rehash_ok s Hi0 Hs0) as (s1 & Hr & Hi & Hmap & Henv & Hl & _).
  assert (Ha : abs_rel s1 a) by (intros k'; by rewrite Hl).
  unfold run_delta, spec_delta, on_disk. rewrite <- Hmap. unfold put, mbind, ST_bind. rewrite Hr. unfold st_get. rewrite <- Henv.
  destruct (key_cases s1 a k Hi Ha) as [[Hm Hk]|(p & old & w & Hm & He & Hk)]; rewrite Hm, Hk; [by eapply refines_same|].
  read_entry Hi He. unfold outcome_bind.
  destruct (next_stamp _ tag true w) as [[err w']|e] eqn:En; [|done].
  destruct (decide (err = GF_NOERR)) as [->|Hne]; [|rewrite bool_decide_eq_false_2 by done; by eapply refines_same].
  rewrite bool_decide_eq_true_2 by done. cbn [negb].
  destruct (isTombstone old) eqn:Et.
  - destruct old as [[]|]; try done. cbn [visible isDestroyed isTombstone].
    rewrite (remove_entry_eq None), putNoEntry_dropped by done.
    eapply refines_write; [exact Ha|reflexivity|]. apply next_stamp_ok in En as ->. by destruct tag; apply writes_replace.
  - assert (Et' : isTombstone (visible old) = false) by (by destruct old as [[]|]).
    rewrite Et', (putForTrackedEntry_delta true k p old w v w' uc d s1 Hi He Et).
    destruct (apply_delta _ d old) as [v'|v'|] eqn:Ed; [| |done].
    + pose proof (apply_delta_live _ _ _ _ Et (or_introl Ed)) as Hl'.
      eapply refines_write; [exact Ha| |by apply writes_set].
      apply applied_visible in Ed as (o & Hvis & ->). rewrite Hvis. unfold meOldValue_after.
      rewrite (inv_cc Hi), orb_true_r, decide_True by done. by destruct cloningEnabled, o.
    + eapply refines_write; [exact Ha|reflexivity|].
      eapply writes_live; [done..|]. by apply (apply_delta_live _ _ _ _ Et (or_intror Ed)).
Qed.

Lemma refine_create uc dt k v tag s a :
  seg_inv s -> small s -> abs_rel s a -> v <> Some TombstoneToken ->
  refines (spec_op (memberList (env s)) (OpCreate k v tag) a) (run_op uc dt (OpCreate k v tag) s).
Proof.
  intros Hi0 Hs0 Ha0 Hv. destruct (rehash_ok s Hi0 Hs0) as (s1 & Hr & Hi & _ & Henv & Hl & _).
  assert (Ha : abs_rel s1 a) by (intros k'; by rewrite Hl).
  cbn [run_op spec_op]. unfold create, mbind, ST_bind. rewrite Hr. unfold st_get. rewrite <- Henv.
  destruct (key_cases s1 a k Hi Ha) as [[Hm Hk]|(p & old & w & Hm & He & Hk)]; rewrite Hm, Hk.
  - rewrite putNoEntry_eq by (done || apply Hi).
    eapply refines_write; [exact Ha|reflexivity|]. by apply writes_new.
  - read_entry Hi He. unfold outcome_bind.
    destruct old as [[]|]; cbn [visible isDestroyed isTombstone orb]; try (by eapply refines_same);
      read_entry Hi He; (destruct (next_stamp _ tag false w) as [[err w']|e] eqn:En; [|done]);
      (destruct (decide (err = GF_NOERR)) as [->|Hne];
        [rewrite bool_decide_eq_true_2 by done|rewrite bool_decide_eq_false_2 by done; by eapply refines_same]);
      apply next_stamp_ok in En; cbn [negb].
    + rewrite (putForTrackedEntry_eq true k p _ w v w' uc s1 Hi He).
      eapply refines_write; [exact Ha|reflexivity|]. by apply writes_set.
    + rewrite (remove_entry_eq None), putNoEntry_dropped by done.
      eapply refines_write; [exact Ha|reflexivity|]. subst w'. by destruct tag; apply writes_replace.
    + rewrite (putForTrackedEntry_eq true k p _ w v w' uc s1 Hi He).
      eapply refines_write; [exact Ha|reflexivity|]. by apply writes_set.
Qed.

Lemma refine_invalidate uc dt k tag s a :
  seg_inv s -> abs_rel s a ->
  refines (spec_op (memberList (env s)) (OpInvalidate k tag) a) (run_op uc dt (OpInvalidate k tag) s).
Proof.
  intros Hi Ha. cbn [run_op spec_op]. unfold invalidate, mbind, ST_bind, st_get.
  destruct (key_cases s a k Hi Ha) as [[Hm Hk]|(p & old & w & Hm & He & Hk)]; rewrite Hm, Hk.
  - rewrite (inv_cc Hi), putNoEntry_eq by (done || apply Hi).
    eapply refines_write; [exact Ha|reflexivity|]. by apply writes_new.
  - read_entry Hi He. unfold outcome_bind.
    destruct (next_stamp _ tag false w) as [[err w']|e] eqn:En; [|done].
    destruct (decide (err = GF_NOERR)) as [->|Hne].
    + rewrite bool_decide_eq_true_2 by done. cbn [negb]. read_entry Hi He.
      destruct (isTombstone old) eqn:Et.
      * destruct old as [[]|]; try done. by eapply refines_same.
      * assert (Et' : isTombstone (visible old) = false) by (by destruct old as [[]|]).
        rewrite Et', (setValueI_entry _ _ _ _ _ He), (inv_cc Hi).
        rewrite (setVersionStampI_entry _ k p (Some InvalidToken) w) by apply entry_is_set.
        rewrite set_entry_set. unfold seg_incrementUpdateCount, mbind, ST_bind, st_get. simpl.
        rewrite (inv_cc Hi). eapply refines_write; [exact Ha|reflexivity|].
        pose proof (inv_live_unlisted s k p old w Hi Hm He ltac:(by intros ->)) as Hu.
        pose proof (writes_set k p (Some InvalidToken) w' s Hi Hm ltac:(done)) as Hw.
        unfold untomb in Hw. rewrite Hu in Hw. by destruct w'.
    + rewrite bool_decide_eq_false_2 by done. by eapply refines_same.
Qed.

Lemma refine_remove uc dt k tag afterRemote s a :
  seg_inv s -> abs_rel s a ->
  refines (spec_op (memberList (env s)) (OpRemove k tag afterRemote) a)
          (run_op uc dt (OpRemove k tag afterRemote) s).
Proof.
  intros Hi Ha. cbn [run_op spec_op]. unfold remove, removeWhenConcurrencyEnabled, mbind, ST_bind, st_get.
  rewrite (inv_cc Hi).
  destruct (key_cases s a k Hi Ha) as [[Hm Hk]|(p & old & w & Hm & He & Hk)]; rewrite Hm, Hk.
  - destruct tag as [t|]; [|by eapply refines_same].
    rewrite putNoEntry_eq by (done || apply Hi). cbn [non_null].
    pose proof (entry_is_new k (Some TombstoneToken) (VersionStamp.setVersions t) s) as He.
    unfold mret at 1, ST_ret at 1. pose proof (getImplPtr_entry _ _ _ _ _ He) as Hg. simpl in Hg. rewrite Hg.
    destruct (tombstones_add_entry _ _ _ _ _ He) as [id ->].
    eapply refines_write; [exact Ha|reflexivity|]. by apply writes_new_tomb.
  - rewrite (getVersionStamp_entry _ _ _ _ _ He).
    rewrite (remove_stamp_eq _ _ _ _ _ _ He). unfold outcome_bind.
    destruct (next_stamp _ tag false w) as [[err w']|e] eqn:En; [|done].
    destruct (decide (err = GF_NOERR)) as [->|Hne].
    + rewrite bool_decide_eq_true_2 by done. cbn [negb]. read_entry Hi He.
      rewrite (putForTrackedEntry_eq false k p old w _ w' uc s Hi He). rewrite decide_True by done.
      destruct (tombstones_add_entry (set_entry p k (Some TombstoneToken) w' (untomb true k s)) k p _ _
                  (entry_is_set _ _ _ _ _)) as [id ->].
      destruct old as [[]|]; (eapply refines_write; [exact Ha|reflexivity|]); by apply writes_tomb.
    + rewrite bool_decide_eq_false_2 by done. by eapply refines_same.
Qed.

Lemma refine_get uc dt k s a :
  seg_inv s -> abs_rel s a -> refines (spec_op (memberList (env s)) (OpGet k) a) (run_op uc dt (OpGet k) s).
Proof.
  intros Hi Ha. cbn [run_op spec_op]. unfold getEntry, mbind, ST_bind, st_get.
  destruct (key_cases s a k Hi Ha) as [[Hm Hk]|(p & v & w & Hm & He & Hk)]; rewrite Hm, Hk;
    [by eapply refines_same|].
  read_entry Hi He. destruct v as [[]|]; by eapply refines_same.
Qed.

Lemma refine_contains uc dt k s a :
  seg_inv s -> abs_rel s a -> refines (spec_op (memberList (env s)) (OpContains k) a) (run_op uc dt (OpContains k) s).
Proof.
  intros Hi Ha. cbn [run_op spec_op]. unfold containsKey, mbind, ST_bind, st_get.
  destruct (key_cases s a k Hi Ha) as [[Hm Hk]|(p & v & w & Hm & He & Hk)]; rewrite Hm, Hk;
    [by eapply refines_same|].
  read_entry Hi He. destruct v as [[]|]; by eapply refines_same.
Qed.

Lemma refine_op uc dt (o : op) s a :
  seg_inv s -> small s -> abs_rel s a -> op_ok o ->
  refines (spec_op (memberList (env s)) o a) (run_op uc dt o s).
Proof.
  intros Hi Hs Ha Ho. destruct o as [k v tag|k v tag|k tag|k tag r|k|k]; simpl in Ho.
  - by apply refine_put.
  - by apply refine_create.
  - by apply refine_invalidate.
  - by apply refine_remove.
  - by apply refine_get.
  - by apply refine_contains.
Qed.

(** *** Operations with deltas *)

(** What callers ask of a segment: an operation on full values, or a put of a delta, with what the disk has for the key. *)
Inductive seg_request :=
| Full (o : op)
| DeltaPut (k : K) (v : value) (tag : option VersionTag.t) (d : D).

Definition spec_request (ml : MemberListForVersionStamp.t) (stored : K -> value) (r : seg_request) (a : amap)
    : outcome (result * amap) :=
  match r with
  | Full o => spec_op ml o a
  | DeltaPut k v tag d => spec_delta ml (stored k) k v tag d a
  end.

Definition run_request (updateCount destroyTracker : Z) (r : seg_request) : ST S result :=
  match r with
  | Full o => run_op updateCount destroyTracker o
  | DeltaPut k v tag d => run_delta updateCount destroyTracker k v tag d
  end.

Definition request_valid (r : seg_request) : Prop :=
  match r with Full o => op_ok o | DeltaPut _ v _ _ => v <> Some TombstoneToken end.

Lemma refine_request uc dt (r : seg_request) s a :
  seg_inv s -> small s -> abs_rel s a -> request_valid r ->
  refines (spec_request (memberList (env s)) (on_disk s) r a) (run_request uc dt r s).
Proof. intros Hi Hs Ha Hr. destruct r; [by apply refine_op|by apply refine_delta]. Qed.

End Refinement.
