(* ===== verification/SegmentClaims.v ===== *)
(** What a segment promises its callers: it implements the abstract versioned map under every
    interleaving of operations and tombstone expiries, tombstones keep stale updates out, and
    reaping and expiry remove tombstones only. *)
From S2P Require Import Prelude Versions VersionFacts ExpiryTaskManager MapEntry MapSegment SegmentFacts SegmentRefinement.

Section Tombstones.
Context {K V : Type} `{Countable K}.
Abbreviation S := (Segment K V).
Implicit Types (k : K) (s : S) (w : VersionStamp.t).

(** *** Expiry and reaping of tombstones *)

(** Only keys bound to tombstones may have changed, and those are gone. *)
Definition only_tombstones_removed s s' : Prop := forall k,
  lookup_abs s' k = lookup_abs s k \/
  (lookup_abs s' k = None /\ exists w, lookup_abs s k = Some (Some TombstoneToken, w)).

Lemma remove_tomb_entry_eq s t o : seg_inv s -> tombs s !! t = Some o ->
  (valid_ o = false /\ remove_tomb_entry t s = Ok (false, s)) \/
  (exists k w, valid_ o = true /\ tombstones_ s !! k = Some t /\
     lookup_abs s k = Some (Some TombstoneToken, w) /\
     remove_tomb_entry t s = Ok (true, with_map (delete k) (untomb false k s))).
Proof.
  intros Hi Ht. unfold remove_tomb_entry, mbind, ST_bind, st_get. rewrite Ht.
  destruct (valid_ o) eqn:Hv; [right|by left].
  apply (inv_valid Hi) in Ht as (k & v & w & He & Hl). specialize (Hl Hv).
  pose proof Hl as (p & id & w' & _ & Hm & He')%(inv_listed Hi).
  exists k, w'. split_and!; [done|done|by apply (lookup_abs_entry s k p)|]. cbn [negb].
  rewrite (getKeyI_entry _ _ _ _ _ He). cbn [non_null]. unfold mret at 1, ST_ret at 1.
  rewrite (tombstones_erase_eq None) by done. unfold tombstones_exists. by rewrite Hl.
Qed.

Lemma tobeDeleted_eq gc s : seg_inv s -> forall l,
  (forall k t, (k, t) ∈ l -> tombstones_ s !! k = Some t) ->
  exists ks, tobeDeleted gc l s = Ok (ks, s) /\
    forall k, k ∈ ks <-> exists t w version, (k, t) ∈ l /\ lookup_abs s k = Some (Some TombstoneToken, w) /\
      gc !! VersionStamp.getMemberId w = Some version /\ VersionStamp.getRegionVersion w <= version.
Proof.
  intros Hi. induction l as [|[k t] l IH]; intros Hl; simpl.
  - exists []. split; [done|]. set_solver.
  - destruct IH as (ks & E & Hks); [set_solver|].
    pose proof (Hl k t ltac:(set_solver)) as (p & id & w & Ho & Hm & He)%(inv_listed Hi).
    pose proof (lookup_abs_entry s k p _ _ Hm He) as Hla.
    unfold mbind, ST_bind, st_get. rewrite Ho. unfold non_null. cbn [mret ST_ret entry_].
    unfold mret at 1, ST_ret at 1. cbn [entry_].
    pose proof (getVersionStamp_entry _ _ _ _ _ He) as Hg. simpl in Hg. rewrite Hg, E.
    eexists. split; [done|]. intros k'.
    destruct (gc !! VersionStamp.getMemberId w) as [version|] eqn:Eg;
      [destruct (Z.leb_spec (VersionStamp.getRegionVersion w) version)|]; rewrite ?elem_of_cons, Hks;
      split.
    + intros [->|(t' & w' & ver & ? & ?)]; [exists t, w, version|exists t', w', ver]; set_solver.
    + intros (t' & w' & ver & [[= -> ->]|Hin]%elem_of_cons & Hr); [by left|right; eauto 10].
    + intros (t' & w' & ver & ? & ?). exists t', w', ver. set_solver.
    + intros (t' & w' & ver & [[= -> ->]|Hin]%elem_of_cons & Hla' & Hg' & Hr); [|eauto 10].
      rewrite Hla in Hla'. simplify_eq. lia.
    + intros (t' & w' & ver & ? & ?). exists t', w', ver. set_solver.
    + intros (t' & w' & ver & [[= -> ->]|Hin]%elem_of_cons & Hla' & Hg' & Hr); [|eauto 10].
      rewrite Hla in Hla'. simplify_eq.
Qed.

Lemma remove_entries_eq ks : forall s, seg_inv s ->
  exists s', st_iter remove_entry ks s = Ok (tt, s') /\ seg_inv s' /\
    forall k, lookup_abs s' k = if decide (k ∈ ks) then None else lookup_abs s k.
Proof.
  induction ks as [|k ks IH]; intros s Hi.
  - exists s. split_and!; [done..|]. intros k. rewrite decide_False; [done|set_solver].
  - destruct (IH _ (drop_inv true k s Hi)) as (s' & E & Hi' & Hl). exists s'. cbn [st_iter].
    unfold mbind, ST_bind. rewrite (remove_entry_eq None) by done. split_and!; [done..|].
    intros k'. rewrite Hl, drop_lookup. repeat case_decide; set_solver.
Qed.

(** When the expiry task of a tombstone fires, at any time after the tombstone was
    made and however often, only keys that are bound to a tombstone can lose their binding;
    a tombstone that was cancelled or replaced in the meantime (its [valid] flag is false)
    changes nothing, and a valid one removes its key. *)
Theorem tombstone_expiry_safe s t o :
  seg_inv s -> tombs s !! t = Some o ->
  exists b s', remove_tomb_entry t s = Ok (b, s') /\ seg_inv s' /\ only_tombstones_removed s s' /\
    b = valid_ o /\ (b = false -> s' = s) /\
    (b = true -> exists k w, lookup_abs s k = Some (Some TombstoneToken, w) /\ lookup_abs s' k = None /\
       remove_tomb_entry t s' = Ok (false, s')).
Proof.
  intros Hi Ht. destruct (remove_tomb_entry_eq s t o Hi Ht) as [[Hv E]|(k & w & Hv & Hk & Hl & E)].
  - exists false, s. rewrite Hv. split_and!; try done. by left.
  - exists true, (with_map (delete k) (untomb false k s)). pose proof (drop_inv false k s Hi) as Hi'.
    split_and!; [done|done| |done|done|].
    + intros k'. rewrite drop_lookup. case_decide; [right; subst; eauto|by left].
    + intros _. exists k, w. split_and!; [done|rewrite drop_lookup; by rewrite decide_True|].
      assert (Ht' : tombs (with_map (delete k) (untomb false k s)) !! t = Some (mkTomb (entry_ o) (task_id_ o) false)).
      { simpl. destruct (untomb_listed None false k s Hi) as [_ ->]. by rewrite Hk, Ht, lookup_insert_eq. }
      by destruct (remove_tomb_entry_eq _ t _ Hi' Ht') as [[_ ?]|(? & ? & ? & _)].
Qed.

(** [reapTombstones] removes exactly the tombstones that the server has collected: the
    keys bound to a tombstone whose member is listed with a version at or above the
    tombstone's region version; every other key keeps its binding. *)
Theorem reap_spec gc s :
  seg_inv s ->
  exists s', reapTombstones gc s = Ok (tt, s') /\ seg_inv s' /\ only_tombstones_removed s s' /\
    forall k w, lookup_abs s k = Some (Some TombstoneToken, w) ->
      (lookup_abs s' k = None <->
       exists version, gc !! VersionStamp.getMemberId w = Some version /\ VersionStamp.getRegionVersion w <= version).
Proof.
  intros Hi. unfold reapTombstones, mbind, ST_bind, st_get.
  destruct (tobeDeleted_eq gc s Hi (map_to_list (tombstones_ s))) as (ks & -> & Hks).
  { intros k t Hin. by apply elem_of_map_to_list in Hin. }
  destruct (remove_entries_eq ks s Hi) as (s' & -> & Hi' & Hl). exists s'. split_and!; [done..| |].
  - intros k. rewrite Hl. case_decide as Hin; [|by left]. right. split; [done|].
    apply Hks in Hin as (t & w & version & _ & ? & _). eauto.
  - intros k w Hk. rewrite Hl, Hk. case_decide as Hin.
    + split; [|done]. intros _. apply Hks in Hin as (t & w' & version & _ & Hk' & ? & ?).
      rewrite Hk in Hk'. simplify_eq. eauto.
    + split; [done|]. intros (version & Hg & Hr). exfalso. apply Hin, Hks.
      unfold lookup_abs in Hk. destruct (m_map s !! k) as [e|] eqn:Em; [|done].
      pose proof Em as (p & v0 & w0 & -> & He)%(inv_entry Hi). rewrite He in Hk. simpl in Hk. simplify_eq.
      destruct (inv_value Hi k p w ltac:(done) Em He) as [t Ht].
      exists t, w, version. split_and!; [by apply elem_of_map_to_list| |done..].
      by apply (lookup_abs_entry s k p).
Qed.

(** Reaping by keys ([reapTombstones(removedKeys)]) removes the named keys whether or
    not they are bound to tombstones, live entries included, and no others. *)
Theorem reap_keys_removes ks s :
  seg_inv s ->
  exists s', reapTombstones_keys ks s = Ok (tt, s') /\ seg_inv s' /\
    forall k, lookup_abs s' k = if decide (k ∈ ks) then None else lookup_abs s k.
Proof. apply remove_entries_eq. Qed.

End Tombstones.

Section Claims.
Context {K V D : Type} `{Countable K}.
Abbreviation S := (Segment K V).
Abbreviation value := (option (Cacheable V)).
Context (getFromDisk : K -> nat -> value) (cloningEnabled : bool).
Context (isDelta : V -> bool) (clone : V -> V) (fromDelta : D -> V -> V * bool).
Abbreviation run := (run_op getFromDisk cloningEnabled isDelta clone fromDelta).
Implicit Types (k : K) (v : value) (s : S) (w : VersionStamp.t).

(** C2. Every [put], [create], [invalidate], [remove], [getEntry] and [containsKey] of a
    segment with concurrency checks, and every [put] of a delta, returns the error, old value
    and flag of the abstract versioned map and leaves the segment standing for the abstract
    map's next state (or throws what the version check throws, and dereferences a null pointer
    where a delta meets a value whose class has none); the segment's invariant is kept. Over a
    key that is not there and over an invalid, destroyed or null value a delta is refused with
    [GF_INVALID_DELTA]. *)
Theorem segment_refines uc dt (r : seg_request) s (a : gmap K (value * VersionStamp.t)) :
  seg_inv s -> small s -> abs_rel s a -> request_valid r ->
  refines (spec_request cloningEnabled isDelta clone fromDelta (memberList (env s)) (on_disk getFromDisk s) r a)
    (run_request getFromDisk cloningEnabled isDelta clone fromDelta uc dt r s).
Proof. apply refine_request. Qed.

(** *** Reachable segments *)

(** The abstract map of a segment. *)
Definition abs_of s : gmap K (value * VersionStamp.t) :=
  omap (fun e => match e with
                 | PImpl p => o ← entries s !! p; w ← stamp o; Some (m_value o, w)
                 | PTracked _ => None
                 end) (m_map s).

Lemma abs_of_rel s : abs_rel s (abs_of s).
Proof.
  intros k. unfold abs_of, lookup_abs. rewrite lookup_omap.
  destruct (m_map s !! k) as [[p|q]|]; simpl; [|done..].
  destruct (entries s !! p) as [o|]; simpl; [|done]. by destruct (stamp o).
Qed.

(** One step of a segment: an operation of a caller (with full values or a delta), a reader of the whole segment, an
    operation of the tracking protocol, the expiry task of any tombstone that was ever made, a garbage collection message
    by versions or by keys, [clear] while no tombstone is listed, or other parts of the cache changing what they share
    with the segment. [clear] over listed tombstones breaks the invariant ([clear_keeps_tombstones] below). *)
Inductive step : S -> S -> Prop :=
| step_op uc dt (r : seg_request) res s s' :
    request_valid r -> small s ->
    run_request getFromDisk cloningEnabled isDelta clone fromDelta uc dt r s = Ok (res, s') -> step s s'
| step_keys ks s s' : getKeys s = Ok (ks, s') -> step s s'
| step_entries es s s' : getEntries s = Ok (es, s') -> step s s'
| step_values vs s s' :
    (forall k p, getFromDisk k p <> Some TombstoneToken) -> getValues getFromDisk s = Ok (vs, s') -> step s s'
| step_isTombstone k me r s s' : seg_isTombstone k me s = Ok (r, s') -> step s s'
| step_track k v b1 b2 b3 r s s' : addTrackerForEntry k v b1 b2 b3 s = Ok (r, s') -> step s s'
| step_untrack k s s' : removeTrackerForEntry k s = Ok (tt, s') -> step s s'
| step_track_all m m' s s' : addTrackerForAllEntries m s = Ok (m', s') -> step s s'
| step_untrack_destroys s s' : removeDestroyTracking s = Ok (tt, s') -> step s s'
| step_expire t b s s' : remove_tomb_entry t s = Ok (b, s') -> step s s'
| step_reap gc s s' : reapTombstones gc s = Ok (tt, s') -> step s s'
| step_reap_keys ks s s' : reapTombstones_keys ks s = Ok (tt, s') -> step s s'
| step_clear s s' : tombstones_ s = ∅ -> clear s = Ok (tt, s') -> step s s'
| step_env e s : step s (with_env e s).

Lemma inv_open id e n s : open n true (construct id e) = Ok s -> seg_inv s.
Proof.
  unfold open, TableOfPrimes.nextLargerPrime, mbind, outcome_bind.
  destruct (TableOfPrimes.lower_bound _ n 0) as [[i q]|] eqn:E; [|done]. intros [= <-].
  assert (Hi : forall table val j i q, TableOfPrimes.lower_bound table val j = Some (i, q) -> (i < j + length table)%nat).
  { clear. induction table as [|x table IH]; intros val j i q; simpl; [done|].
    case_match; [intros ?%IH; lia|intros [= <- <-]; lia]. }
  apply Hi in E. simpl in E.
  constructor; simpl; try done; [lia|by intros ? ?..].
Qed.

(** What every entry keeps, the loop over the entries keeps. *)
Lemma for_entries_keep {A} (P : S -> Prop) (f : K * MapEntryPtr -> ST S (list A)) l : forall s xs s',
  (forall kv s xs s', kv ∈ l -> P s -> f kv s = Ok (xs, s') -> P s') -> P s -> for_entries f l s = Ok (xs, s') -> P s'.
Proof.
  induction l as [|kv l IH]; intros s xs s' Hf Hp; cbn [for_entries]; [by intros [= _ <-]|].
  unfold mbind, ST_bind. destruct (f kv s) as [[ys s1]|] eqn:E; [|done].
  destruct (for_entries f l s1) as [[zs s2]|] eqn:E2; [|done]. intros [= _ <-].
  eapply (IH s1); [intros; eapply Hf; [by right|done..]|eapply Hf; [by left|done..]|done].
Qed.

Lemma getKeys_same s ks s' : seg_inv s -> getKeys s = Ok (ks, s') -> s' = s.
Proof.
  intros Hi. unfold getKeys, mbind at 1, ST_bind at 1, st_get. apply (for_entries_keep (fun x => x = s)); [|done].
  intros [k e] s1 xs s2 Hin%elem_of_map_to_list ->. pose proof Hin as (p & v & w & -> & He)%(inv_entry Hi).
  cbn [snd]. unfold mbind, ST_bind.
  rewrite (getImplPtr_entry _ _ _ _ _ He), (getValueI_entry _ _ _ _ _ He). by intros [= _ <-].
Qed.

Lemma getEntries_same s es s' : seg_inv s -> getEntries s = Ok (es, s') -> s' = s.
Proof.
  intros Hi. unfold getEntries, mbind at 1, ST_bind at 1, st_get. apply (for_entries_keep (fun x => x = s)); [|done].
  intros [k e] s1 xs s2 Hin%elem_of_map_to_list ->. pose proof Hin as (p & v & w & -> & He)%(inv_entry Hi).
  cbn [snd]. unfold mbind, ST_bind.
  rewrite (getImplPtr_entry _ _ _ _ _ He), (getValueI_entry _ _ _ _ _ He).
  destruct (visible v); [destruct (isTombstone _)|]; try (by intros [= _ <-]).
  rewrite (getKeyI_entry _ _ _ _ _ He). by intros [= _ <-].
Qed.

Lemma getValues_inv s vs s' :
  seg_inv s -> (forall k p, getFromDisk k p <> Some TombstoneToken) -> getValues getFromDisk s = Ok (vs, s') -> seg_inv s'.
Proof.
  intros Hi0 Hd. unfold getValues, mbind at 1, ST_bind at 1, st_get. intros E.
  cut (seg_inv s' /\ m_map s' = m_map s); [by intros []|]. revert E.
  apply (for_entries_keep (fun x => seg_inv x /\ m_map x = m_map s)); [|done].
  intros [k e] s1 xs s2 Hin%elem_of_map_to_list [Hi Hm]. rewrite <- Hm in Hin.
  pose proof Hin as (p & v & w & -> & He)%(inv_entry Hi).
  cbn [snd fst]. unfold mbind, ST_bind. cbn [getValue].
  rewrite (getValueI_entry _ _ _ _ _ He), (getImplPtr_entry _ _ _ _ _ He).
  destruct v as [[]|]; cbn; try (by intros [= _ <-]).
  rewrite (setValueI_entry _ _ _ _ _ He). intros [= _ <-]. split; [|done].
  by apply (writes_live k p (Some OverflowedToken) w (getFromDisk k p) w s1).
Qed.

Lemma isTombstone_same k me r s s' : seg_inv s -> seg_isTombstone k me s = Ok (r, s') -> s' = s.
Proof.
  intros Hi. unfold seg_isTombstone, mbind, ST_bind, st_get. destruct (m_map s !! k) as [e|] eqn:Em; [|by intros [= _ <-]].
  pose proof Em as (p & v & w & -> & He)%(inv_entry Hi).
  rewrite (getImplPtr_entry _ _ _ _ _ He), (getValueI_entry _ _ _ _ _ He). repeat case_match; by intros [= _ <-].
Qed.

Lemma clear_inv s : seg_inv s -> tombstones_ s = ∅ -> seg_inv (with_map (fun _ => ∅) s).
Proof.
  intros Hi Ht. constructor; simpl; try apply Hi; try done.
  intros k t. by rewrite Ht.
Qed.

Lemma expire_inv t b s s' : seg_inv s -> remove_tomb_entry t s = Ok (b, s') -> seg_inv s'.
Proof.
  intros Hi E. destruct (tombs s !! t) as [o|] eqn:Ht.
  - destruct (remove_tomb_entry_eq s t o Hi Ht) as [[_ E']|(k & w & _ & _ & _ & E')]; rewrite E' in E;
      simplify_eq; [done|by apply drop_inv].
  - revert E. unfold remove_tomb_entry, mbind, ST_bind, st_get. by rewrite Ht.
Qed.

Lemma inv_step s s' : seg_inv s -> step s s' -> seg_inv s'.
Proof.
  intros Hi Hstep.
  destruct Hstep as [uc dt r res s s' Ho Hs E|ks s s' E|es s s' E|vs s s' Hd E|k me r s s' E|k v b1 b2 b3 r s s' E|k s s' E
    |m m' s s' E|s s' E|t b s s' E|gc s s' E|ks s s' E|s s' Ht E|e s].
  - pose proof (abs_of_rel s) as Ha.
    pose proof (refine_request getFromDisk cloningEnabled isDelta clone fromDelta uc dt r s _ Hi Hs Ha Ho) as Href.
    rewrite E in Href. unfold refines in Href.
    destruct (spec_request _ _ _ _ _ _ _ _) as [[r' a']|]; [|done]. by destruct Href as (s'' & [= -> ->] & Hi' & _).
  - by apply getKeys_same in E as ->.
  - by apply getEntries_same in E as ->.
  - by eapply getValues_inv.
  - by apply isTombstone_same in E as ->.
  - revert E. unfold addTrackerForEntry, mbind at 1, ST_bind at 1, st_get. rewrite (inv_cc Hi). by intros [= _ <-].
  - revert E. unfold removeTrackerForEntry, mbind at 1, ST_bind at 1, st_get. rewrite (inv_cc Hi). by intros [= <-].
  - revert E. unfold addTrackerForAllEntries, mbind at 1, ST_bind at 1, st_get. rewrite (inv_cc Hi). by intros [= _ <-].
  - revert E. unfold removeDestroyTracking, mbind at 1, ST_bind at 1, st_get. rewrite (inv_cc Hi). by intros [= <-].
  - by eapply expire_inv.
  - destruct (reap_spec gc s Hi) as (s'' & E' & Hi' & _). rewrite E in E'. by simplify_eq.
  - destruct (remove_entries_eq ks s Hi) as (s'' & E' & Hi' & _). unfold reapTombstones_keys in E. rewrite E in E'. by simplify_eq.
  - revert E. intros [= <-]. by apply clear_inv.
  - destruct Hi. by constructor.
Qed.

(** C35. In every segment with concurrency checks that its operations (puts of full values
    and of deltas, creates, invalidations, removals, readers, the tracking protocol, the
    collection of tombstones by versions and by keys), the expiry of tombstones, and [clear]
    while no tombstone is listed can reach from a newly opened one, a key is bound to a tombstone
    exactly when it is in the tombstone list and a tombstone is valid exactly when it is
    listed; so [isTombstone] never reports an illegal state. *)
Theorem reachable_inv id e n s0 s :
  open n true (construct id e) = Ok s0 -> rtc step s0 s ->
  seg_inv s /\ forall k, exists me b, seg_isTombstone k None s = Ok ((GF_NOERR, me, b), s) /\
    (b = true <-> exists t, tombstones_ s !! k = Some t).
Proof.
  intros Ho Hr. assert (Hi : seg_inv s).
  { apply inv_open in Ho. induction Hr as [|s1 s2 s3 Hs _ IH]; [done|]. apply IH. by apply (inv_step s1). }
  split; [done|]. intros k. unfold seg_isTombstone, mbind, ST_bind, st_get.
  destruct (m_map s !! k) as [e'|] eqn:Em.
  - pose proof Em as (p & v & w & -> & He)%(inv_entry Hi).
    rewrite (getImplPtr_entry _ _ _ _ _ He), (getValueI_entry _ _ _ _ _ He).
    unfold tombstones_exists. destruct (tombstones_ s !! k) as [t|] eqn:Et.
    + pose proof Et as (p' & id' & w' & _ & Em' & He')%(inv_listed Hi). simplify_eq.
      destruct (entry_is_inj _ _ _ _ _ _ _ _ He He') as (_ & -> & _). simpl. eexists _, _. split; [done|]. split; eauto.
    + assert (v <> Some TombstoneToken).
      { intros ->. destruct (inv_value Hi k p w ltac:(done) Em He) as [t Ht]. congruence. }
      destruct v as [[]|]; simpl; try done; (eexists _, _; split; [done|]; split; [done|by intros [? ?]]).
  - eexists _, _. split; [done|]. rewrite (inv_unlisted None) by done. split; [done|by intros [? ?]].
Qed.

Lemma checkForConflict_err ml tag d w e :
  VersionStamp.checkForConflict ml tag d w = Ok e -> e <> GF_CACHE_ENTRY_NOT_FOUND.
Proof.
  unfold VersionStamp.checkForConflict, VersionStamp.checkForDeltaConflict, mbind, outcome_bind.
  repeat case_match; intros; simplify_eq; done.
Qed.

(** A removal with a tag that does not fail leaves a tombstone with the tag's stamp. *)
Lemma remove_leaves_tombstone uc dt k tag afterRemote s r s1 :
  seg_inv s -> run uc dt (OpRemove k (Some tag) afterRemote) s = Ok (r, s1) ->
  r.1.1 = GF_NOERR \/ r.1.1 = GF_CACHE_ENTRY_NOT_FOUND ->
  seg_inv s1 /\ lookup_abs s1 k = Some (Some TombstoneToken, VersionStamp.setVersions tag).
Proof.
  intros Hi E Hr. pose proof (refine_remove getFromDisk cloningEnabled isDelta clone fromDelta
    uc dt k (Some tag) afterRemote s (abs_of s) Hi (abs_of_rel s)) as Href.
  rewrite E in Href. unfold refines in Href. cbn [spec_op] in Href.
  destruct (abs_of s !! k) as [[oldv w]|].
  - unfold mbind, outcome_bind in Href. destruct (next_stamp _ (Some tag) false w) as [[err w']|] eqn:En; [|done].
    destruct (decide (err = GF_NOERR)) as [->|Hne].
    + destruct Href as (s' & [= -> ->] & Hi' & Ha). split; [done|]. rewrite (Ha k), lookup_insert_eq.
      by apply next_stamp_ok in En as ->.
    + destruct Href as (s' & [= -> ->] & _). exfalso. simpl in Hr. destruct Hr as [|Hr]; [done|]. subst.
      revert En. cbn [next_stamp VersionStamp.processVersionTag]. unfold mbind, outcome_bind.
      destruct (VersionStamp.checkForConflict _ _ _ _) eqn:Ec; [|done]. intros [= -> _].
      by apply checkForConflict_err in Ec.
  - destruct Href as (s' & [= -> ->] & Hi' & Ha). split; [done|]. by rewrite (Ha k), lookup_insert_eq.
Qed.

(** A tombstone keeps stale updates out: once a [remove] with a version tag has been
    applied, a [put] or [create] for the key whose tag is up to 65536 versions older is
    refused as a concurrent modification and changes no binding. *)
Theorem stale_update_refused uc dt k v tag old d s s1 r afterRemote :
  seg_inv s -> run uc dt (OpRemove k (Some tag) afterRemote) s = Ok (r, s1) ->
  r.1.1 = GF_NOERR \/ r.1.1 = GF_CACHE_ENTRY_NOT_FOUND ->
  small s1 -> v <> Some TombstoneToken -> tag_ok tag -> tag_ok old ->
  0 < VersionTag.m_entryVersion tag -> 1 <= d <= 0x10000 ->
  VersionTag.m_entryVersion old = (VersionTag.m_entryVersion tag - d) mod 2 ^ 24 ->
  forall o, o = OpPut k v (Some old) \/ o = OpCreate k v (Some old) ->
  exists res s2, run uc dt o s1 = Ok (res, s2) /\
    res.1.1 = GF_CACHE_CONCURRENT_MODIFICATION_EXCEPTION /\ seg_inv s2 /\
    forall k', lookup_abs s2 k' = lookup_abs s1 k'.
Proof.
  intros Hi E Hr Hs Hv Ht Ht' Hpos Hd Hver o Ho.
  destruct (remove_leaves_tombstone _ _ _ _ _ _ _ _ Hi E Hr) as [Hi1 Hl].
  pose proof (abs_of_rel s1) as Ha. pose proof (tag_entry _ Ht). pose proof (tag_member _ Ht).
  assert (Hc : next_stamp (memberList (env s1)) (Some old) false (VersionStamp.setVersions tag)
    = Ok (GF_CACHE_CONCURRENT_MODIFICATION_EXCEPTION, VersionStamp.setVersions tag)).
  { cbn [next_stamp VersionStamp.processVersionTag]. unfold mbind, outcome_bind.
    rewrite (older_refused _ old _ d); [done|done|simpl; lia|..];
      rewrite ?getEntryVersion_setVersions, ?(Z.mod_small (VersionTag.m_entryVersion tag)) by lia; done || lia. }
  rewrite (Ha k) in Hl.
  destruct Ho as [->| ->].
  - pose proof (refine_put getFromDisk cloningEnabled isDelta clone fromDelta uc dt k v (Some old) s1 _ Hi1 Hs Ha Hv) as Href.
    cbn [spec_op] in Href. rewrite Hl, Hc in Href. unfold mbind, outcome_bind, refines in Href.
    rewrite decide_False in Href by done. destruct Href as (s2 & -> & Hi2 & Ha2).
    eexists _, s2. split_and!; [done..|]. intros k'. by rewrite (Ha2 k'), (Ha k').
  - pose proof (refine_create getFromDisk cloningEnabled isDelta clone fromDelta uc dt k v (Some old) s1 _ Hi1 Hs Ha Hv) as Href.
    cbn [spec_op] in Href. rewrite Hl in Href. cbn [visible isDestroyed isTombstone] in Href.
    rewrite Hc in Href. unfold mbind, outcome_bind, refines in Href.
    rewrite decide_False in Href by done. destruct Href as (s2 & -> & Hi2 & Ha2).
    eexists _, s2. split_and!; [done..|]. intros k'. by rewrite (Ha2 k'), (Ha k').
Qed.

End Claims.

(** ** Concrete runs of segments: instances of the general theorems, and runs in which a
    segment does not do what its callers expect. *)
Module SegmentExamples.
(** Integer keys and values; the values implement [Delta] by addition, nothing is on disk. *)
Definition nodisk (k : Z) (p : nat) : option (Cacheable Z) := None.
Definition alwaysDelta (v : Z) : bool := true.
Definition addDelta (d v : Z) : Z * bool := (v + d, true).

Abbreviation put' := (put nodisk true alwaysDelta id addDelta).
Abbreviation create' := (create nodisk true alwaysDelta id addDelta).
Abbreviation remove' := (remove nodisk true alwaysDelta id addDelta).
Abbreviation run' := (run_op nodisk true alwaysDelta id addDelta).

Definition env0 : Env := mkEnv (ExpiryTaskManager.mk true ∅ 0) sample_members 0.

Definition opened (concurrencyChecks : bool) : Segment Z Z :=
  match open 10 concurrencyChecks (construct 0 env0) with Ok s => s | Throw _ => construct 0 env0 end.

(** A run from a segment; its final state, or the segment itself if it throws. *)
Definition after {A} (m : ST (Segment Z Z) A) (s : Segment Z Z) : Segment Z Z :=
  match m s with Ok (_, s') => s' | Throw _ => s end.

Definition v1 : option (Cacheable Z) := Some (Obj 100).

(** Key 7 was put with version 9 and removed with version 10. *)
Definition put7 : Segment Z Z := after (put' 7 v1 None None (-1) (-1) false (Some (sample_tag 9 1 1)) None) (opened true).
Definition removed7 : Segment Z Z := after (remove' 7 None None (-1) (Some (sample_tag 10 1 1)) true true) put7.

Lemma open_opened : open 10 true (construct 0 env0) = Ok (opened true).
Proof. vm_compute. reflexivity. Qed.

Lemma inv_opened : seg_inv (opened true).
Proof. exact (inv_open 0 env0 10 _ open_opened). Qed.

Lemma step_put7 : step nodisk true alwaysDelta id addDelta (opened true) put7.
Proof.
  apply (step_op _ _ _ _ _ (-1) (-1) (Full (OpPut 7 v1 (Some (sample_tag 9 1 1)))) (GF_NOERR, None, false));
    [done|by vm_compute|vm_compute; reflexivity].
Qed.

Lemma step_removed7 : step nodisk true alwaysDelta id addDelta put7 removed7.
Proof.
  apply (step_op _ _ _ _ _ (-1) (-1) (Full (OpRemove 7 (Some (sample_tag 10 1 1)) true)) (GF_NOERR, v1, true));
    [done|by vm_compute|vm_compute; reflexivity].
Qed.

Lemma inv_put7 : seg_inv put7.
Proof. exact (inv_step _ _ _ _ _ _ _ inv_opened step_put7). Qed.

Lemma inv_removed7 : seg_inv removed7.
Proof. exact (inv_step _ _ _ _ _ _ _ inv_put7 step_removed7). Qed.

(** A delta that adds 5 to the value 100 of key 7: its tag follows version 9. *)
Lemma segment_refines_witness :
  let tag := sample_tag 10 1 1 in
  let r := DeltaPut 7 None (Some tag) 5 in
  run_request nodisk true alwaysDelta id addDelta (-1) (-1) r put7 =
    Ok ((GF_NOERR, v1, true), after (run_request nodisk true alwaysDelta id addDelta (-1) (-1) r) put7) /\
  lookup_abs (after (run_request nodisk true alwaysDelta id addDelta (-1) (-1) r) put7) 7 =
    Some (Some (Obj 105), VersionStamp.setVersions tag) /\
  refines (spec_request true alwaysDelta id addDelta (memberList (env put7)) (on_disk nodisk put7) r (abs_of put7))
    (run_request nodisk true alwaysDelta id addDelta (-1) (-1) r put7).
Proof.
  split_and!; [vm_compute; reflexivity|vm_compute; reflexivity|].
  apply segment_refines; [exact inv_put7|by vm_compute|exact (abs_of_rel put7)|done].
Defined.

Lemma tombstone_expiry_safe_witness :
  exists b s', remove_tomb_entry 1 removed7 = Ok (b, s') /\ seg_inv s' /\ only_tombstones_removed removed7 s' /\
    b = valid_ (mkTomb 0 0 true) /\ (b = false -> s' = removed7) /\
    (b = true -> exists k w, lookup_abs removed7 k = Some (Some TombstoneToken, w) /\ lookup_abs s' k = None /\
       remove_tomb_entry 1 s' = Ok (false, s')).
Proof. apply tombstone_expiry_safe; [exact inv_removed7|vm_compute; reflexivity]. Defined.

Lemma reap_spec_witness :
  exists s', reapTombstones {[1 := 7]} removed7 = Ok (tt, s') /\ seg_inv s' /\ only_tombstones_removed removed7 s' /\
    forall k w, lookup_abs removed7 k = Some (Some TombstoneToken, w) ->
      (lookup_abs s' k = None <->
       exists version, ({[1 := 7]} : gmap Z Z) !! VersionStamp.getMemberId w = Some version /\
         VersionStamp.getRegionVersion w <= version).
Proof. exact (reap_spec {[1 := 7]} removed7 inv_removed7). Defined.

Lemma reachable_inv_witness :
  seg_inv removed7 /\ forall k, exists me b, seg_isTombstone k None removed7 = Ok ((GF_NOERR, me, b), removed7) /\
    (b = true <-> exists t, tombstones_ removed7 !! k = Some t).
Proof.
  apply (reachable_inv nodisk true alwaysDelta id addDelta 0 env0 10 (opened true) removed7); [exact open_opened|].
  eapply rtc_l; [exact step_put7|]. apply rtc_once. exact step_removed7.
Defined.

Lemma stale_update_refused_witness :
  exists res s2, run' (-1) (-1) (OpCreate 7 v1 (Some (sample_tag 8 1 1))) removed7 = Ok (res, s2) /\
    res.1.1 = GF_CACHE_CONCURRENT_MODIFICATION_EXCEPTION /\ seg_inv s2 /\
    forall k', lookup_abs s2 k' = lookup_abs removed7 k'.
Proof.
  apply (stale_update_refused nodisk true alwaysDelta id addDelta (-1) (-1) 7 v1 (sample_tag 10 1 1)
           (sample_tag 8 1 1) 2 put7 removed7 (GF_NOERR, v1, true) true); try by vm_compute.
  - exact inv_put7.
  - by left.
  - by right.
Defined.

(** *** Runs that surprise *)

(** [MapSegment::clear] empties the map but not the tombstone list: an entry that is
    put again after a [remove] and a [clear] is reported as an illegal state by
    [isTombstone] and is removed, although it is live, when the old tombstone expires. *)
Theorem clear_keeps_tombstones :
  let s := after (put' 7 v1 None None (-1) (-1) false (Some (sample_tag 11 1 1)) None) (after clear removed7) in
  (exists s', getEntry 7 s = Ok ((true, Some 2%nat, v1), s')) /\
  (exists s', seg_isTombstone 7 None s = Ok ((GF_CACHE_ILLEGAL_STATE_EXCEPTION, None, false), s')) /\
  (exists s', remove_tomb_entry 1 s = Ok (true, s') /\ getEntry 7 s' = Ok ((false, None, None), s')).
Proof. vm_compute. eauto 10. Qed.

Lemma reap_keys_removes_witness :
  lookup_abs put7 7 = Some (v1, VersionStamp.setVersions (sample_tag 9 1 1)) /\
  exists s', reapTombstones_keys [7] put7 = Ok (tt, s') /\ seg_inv s' /\
    forall k, lookup_abs s' k = if decide (k ∈ [7]) then None else lookup_abs put7 k.
Proof. split; [vm_compute; reflexivity|]. apply reap_keys_removes, inv_put7. Defined.

(** [MapSegment::create] over a tombstone returns the old tombstone's entry, which is
    no longer in the map, instead of the new one. *)
Theorem create_returns_old_entry :
  exists s', create' 7 v1 None None (-1) (-1) (Some (sample_tag 11 1 1)) removed7
               = Ok ((GF_NOERR, Some 0%nat, None), s') /\
    m_map s' !! 7 = Some (PImpl 2).
Proof. vm_compute. eauto. Qed.

(** Tracking an entry (without concurrency checks) loses it: the placement new that
    changes its class resets its value and its [shared_from_this] pointer, so the next access
    throws [std::bad_weak_ptr]. *)
Theorem tracking_loses_entry :
  let s := after (put' 7 v1 None None (-1) (-1) false None None) (opened false) in
  (exists s', getEntry 7 s = Ok ((true, Some 0%nat, v1), s')) /\
  (exists s', addTrackerForEntry 7 None true false false s = Ok ((0, v1), s') /\
     getEntry 7 s' = Throw BadWeakPtr /\ getValue (PImpl 0) s' = Ok (None, s')).
Proof. vm_compute. eauto 10. Qed.
End SegmentExamples.
