(* ===== verification/ConcurrentEntriesMap.v ===== *)
(** The entries map of a region (src/cppcache/src/ConcurrentEntriesMap.cpp and .hpp): an array
    of segments selected by the hash code of the key, and the counter of entries. The hash
    code of the application's keys is the parameter [hashcode]. *)
From S2P Require Import Prelude Versions ExpiryTaskManager MapEntry MapSegment.

Module ConcurrentEntriesMap.

Record t (K V : Type) `{Countable K} := mk {
  m_concurrency : Z;
  m_segments : list (Segment K V);
  m_size : Z;
  m_cc : bool;        (** [m_concurrencyChecksEnabled] *)
  shared : Env        (** with [m_numDestroyTrackers] *)
}.
Arguments mk {K V _ _} _ _ _ _ _.
Arguments m_concurrency {K V _ _} _.
Arguments m_segments {K V _ _} _.
Arguments m_size {K V _ _} _.
Arguments m_cc {K V _ _} _.
Arguments shared {K V _ _} _.

Section Map.
Context {K V D : Type} `{Countable K}.
Abbreviation value := (option (Cacheable V)).
Context (hashcode : K -> Z).
Context (getFromDisk : K -> nat -> value) (cloningEnabled : bool).
Context (isDelta : V -> bool) (clone : V -> V) (fromDelta : D -> V -> V * bool).

Definition construct (concurrencyChecksEnabled : bool) (concurrency : Z) (e : Env) : outcome (t K V) :=
  let maxConcurrency := TableOfPrimes.getMaxPrimeForConcurrency in
  c ← (if maxConcurrency <? concurrency then Ok maxConcurrency
       else TableOfPrimes.nextLargerPrimeForConcurrency concurrency);
  Ok (mk c [] 0 concurrencyChecksEnabled
        (mkEnv (manager e) (memberList e) 0)).

(** Opens [n] segments with the ids from [i] on. *)
Fixpoint open_segments (n : nat) (i : nat) (segSize : Z) (cc : bool) (e : Env) : outcome (list (Segment K V)) :=
  match n with
  | O => Ok []
  | S n' =>
    s ← MapSegment.open segSize cc (MapSegment.construct i e);
    rest ← open_segments n' (S i) segSize cc e;
    Ok (s :: rest)
  end.

Definition open (initialCapacity : Z) (m : t K V) : outcome (t K V) :=
  let segSize := u32 (1 + u32 (initialCapacity - 1) / m_concurrency m) in
  segs ← open_segments (Z.to_nat (m_concurrency m)) 0 segSize (m_cc m) (shared m);
  Ok (mk (m_concurrency m) segs (m_size m) (m_cc m) (shared m)).

Definition segmentIdx (m : t K V) (key : K) : nat := Z.to_nat (u32 (hashcode key) mod m_concurrency m).

(** Runs an operation of a segment on what the segments share. *)
Definition on_segment {A} (i : nat) (f : ST (Segment K V) A) : ST (t K V) A := fun m =>
  match m_segments m !! i with
  | None => Throw UndefinedBehaviour
  | Some s =>
    match f (with_env (shared m) s) with
    | Ok (a, s') => Ok (a, mk (m_concurrency m) (<[i := s']> (m_segments m)) (m_size m) (m_cc m) (env s'))
    | Throw e => Throw e
    end
  end.

(** [segmentFor(key)->f]. *)
Definition segmentFor {A} (key : K) (f : ST (Segment K V) A) : ST (t K V) A := fun m =>
  on_segment (segmentIdx m key) f m.

(** [for (index = 0; index < m_concurrency; ++index) m_segments[index].f]. *)
Fixpoint for_segments {A} (n : nat) (i : nat) (f : ST (Segment K V) A) : ST (t K V) (list A) :=
  match n with
  | O => mret []
  | S n' => x ← on_segment i f; xs ← for_segments n' (S i) f; mret (x :: xs)
  end.

Definition all_segments {A} (f : ST (Segment K V) A) : ST (t K V) (list A) := fun m =>
  for_segments (Z.to_nat (m_concurrency m)) 0 f m.

Definition set_size (f : Z -> Z) : ST (t K V) unit :=
  st_modify (fun m => mk (m_concurrency m) (m_segments m) (u32 (f (m_size m))) (m_cc m) (shared m)).

Definition clear : ST (t K V) unit := all_segments MapSegment.clear;; set_size (fun _ => 0).

Definition create (key : K) (newValue : value) (me : option nat) (oldValue : value)
    (updateCount destroyTracker : Z) (versionTag : option VersionTag.t)
    : ST (t K V) (GfErrType * option nat * value) :=
  '(err, me, oldValue) ←
    segmentFor key (MapSegment.create getFromDisk cloningEnabled isDelta clone fromDelta
                      key newValue me oldValue updateCount destroyTracker versionTag);
  (if decide (err = GF_NOERR) then
     match oldValue with None => set_size (Z.add 1) | Some _ => mret tt end
   else mret tt);;
  mret (err, me, oldValue).

Definition invalidate (key : K) (me : option nat) (oldValue : value) (versionTag : option VersionTag.t)
    : ST (t K V) (GfErrType * option nat * value) :=
  '(err, me, oldValue, isTokenAdded) ← segmentFor key (MapSegment.invalidate key me oldValue versionTag);
  (if isTokenAdded : bool then set_size (Z.add 1) else mret tt);;
  mret (err, me, oldValue).

Definition put (key : K) (newValue : value) (me : option nat) (oldValue : value)
    (updateCount destroyTracker : Z) (versionTag : option VersionTag.t) (isUpdate : bool) (delta : option D)
    : ST (t K V) (GfErrType * option nat * value * bool * value) :=
  '(err, me, oldValue, isUpdate, newValue) ←
    segmentFor key (MapSegment.put getFromDisk cloningEnabled isDelta clone fromDelta
                      key newValue me oldValue updateCount destroyTracker isUpdate versionTag delta);
  (if decide (err = GF_NOERR) then
     if negb isUpdate then set_size (Z.add 1) else mret tt
   else mret tt);;
  mret (err, me, oldValue, isUpdate, newValue).

Definition get (key : K) : ST (t K V) (bool * option nat * value) := segmentFor key (MapSegment.getEntry key).
Definition getEntry (key : K) : ST (t K V) (option nat * value) :=
  '(_, result, v) ← segmentFor key (MapSegment.getEntry key); mret (result, v).

Definition remove (key : K) (result : value) (me : option nat) (updateCount : Z)
    (versionTag : option VersionTag.t) (afterRemote : bool) : ST (t K V) (GfErrType * value * option nat) :=
  '(err, result, me, isEntryFound) ←
    segmentFor key (MapSegment.remove getFromDisk cloningEnabled isDelta clone fromDelta
                      key result me updateCount versionTag afterRemote true);
  (if decide (err = GF_NOERR) then
     if isEntryFound : bool then set_size (fun n => n - 1) else mret tt
   else mret tt);;
  mret (err, result, me).

Definition containsKey (key : K) : ST (t K V) bool := segmentFor key (MapSegment.containsKey key).

Definition getKeys : ST (t K V) (list K) := ls ← all_segments MapSegment.getKeys; mret (concat ls).
Definition getEntries : ST (t K V) (list (option K * value)) :=
  ls ← all_segments MapSegment.getEntries; mret (concat ls).
Definition getValues : ST (t K V) (list value) :=
  ls ← all_segments (MapSegment.getValues getFromDisk); mret (concat ls).

Definition empty (m : t K V) : bool := m_size m =? 0.
Definition size (m : t K V) : Z := m_size m.

Definition addTrackerForEntry (key : K) (oldValue : value) (addIfAbsent failIfPresent incUpdateCount : bool)
    : ST (t K V) (Z * value) := fun m =>
  if m_cc m then Ok ((-1, oldValue), m)
  else segmentFor key (MapSegment.addTrackerForEntry key oldValue addIfAbsent failIfPresent incUpdateCount) m.

Definition removeTrackerForEntry (key : K) : ST (t K V) unit := fun m =>
  if m_cc m then Ok (tt, m) else segmentFor key (MapSegment.removeTrackerForEntry key) m.

Definition with_destroyTrackers (n : Z) : ST (t K V) unit :=
  st_modify (fun m => mk (m_concurrency m) (m_segments m) (m_size m) (m_cc m)
                         (mkEnv (manager (shared m)) (memberList (shared m)) n)).

(** The loop over the segments, which share the map of update counters. *)
Fixpoint addTrackers (n i : nat) (updateCounterMap : gmap K Z) : ST (t K V) (gmap K Z) :=
  match n with
  | O => mret updateCounterMap
  | S n' =>
    u ← on_segment i (MapSegment.addTrackerForAllEntries updateCounterMap);
    addTrackers n' (S i) u
  end.

Definition addTrackerForAllEntries (updateCounterMap : gmap K Z) (addDestroyTracking : bool)
    : ST (t K V) (Z * gmap K Z) := fun m =>
  if m_cc m then Ok ((-1, updateCounterMap), m)
  else
    (u ← addTrackers (Z.to_nat (m_concurrency m)) 0 updateCounterMap;
     if addDestroyTracking then
       m ← st_get;
       let n := s32 (m_numDestroyTrackers (shared m) + 1) in
       with_destroyTrackers n;; mret (n, u)
     else mret (0, u)) m.

Definition removeDestroyTracking : ST (t K V) unit := fun m =>
  if m_cc m then Ok (tt, m)
  else
    (let n := s32 (m_numDestroyTrackers (shared m) - 1) in
     with_destroyTrackers n;;
     if n =? 0 then all_segments MapSegment.removeDestroyTracking;; mret tt else mret tt) m.

Definition totalSegmentRehashes (m : t K V) : Z :=
  foldl (fun result s => u32 (result + m_rehashCount s)) 0 (m_segments m).

Definition reapTombstones (gcVersions : gmap Z Z) : ST (t K V) unit :=
  all_segments (MapSegment.reapTombstones gcVersions);; mret tt.
Definition reapTombstones_keys (removedKeys : list K) : ST (t K V) unit :=
  all_segments (MapSegment.reapTombstones_keys removedKeys);; mret tt.

Definition isTombstone (key : K) (me : option nat) : ST (t K V) (GfErrType * option nat * bool) :=
  segmentFor key (MapSegment.seg_isTombstone key me).

End Map.
End ConcurrentEntriesMap.
