(* ===== verification/EntriesMapFacts.v ===== *)
(** The entries map of a region as one abstract versioned map, and its entry counter. *)
From S2P Require Import Prelude Versions VersionFacts ExpiryTaskManager MapEntry MapSegment SegmentFacts SegmentRefinement SegmentClaims ConcurrentEntriesMap.
Import SegmentExamples.

Section Facts.
Context {K V D : Type} `{Countable K}.
Abbreviation value := (option (Cacheable V)).
Abbreviation M := (ConcurrentEntriesMap.t K V).
Abbreviation amap := (gmap K (value * VersionStamp.t)).
Implicit Types (k : K) (a : gmap K (option (Cacheable V) * VersionStamp.t)).

(** *** The abstract operations work on one key *)

Definition op_key (o : @op K V) : K :=
  match o with
  | OpPut k _ _ | OpCreate k _ _ | OpInvalidate k _ | OpRemove k _ _ | OpGet k | OpContains k => k
  end.

(** The result and the new binding of the key, given the old one. *)
Definition local_spec (ml : MemberListForVersionStamp.t) (o : @op K V) (x : option (value * VersionStamp.t))
    : outcome ((GfErrType * value * bool) * option (value * VersionStamp.t)) :=
  '(r, a') ← spec_op ml o (match x with Some y => {[op_key o := y]} | None => ∅ end);
  Ok (r, a' !! op_key o).

Definition set_key k (x : option (value * VersionStamp.t)) a : amap :=
  match x with Some y => <[k := y]> a | None => a end.

Lemma spec_op_local ml (o : @op K V) a :
  spec_op ml o a =
  '(r, x) ← local_spec ml o (a !! op_key o); Ok (r, set_key (op_key o) x a).
Proof.
  unfold local_spec, mbind, outcome_bind, set_key.
  destruct o as [k v tag|k v tag|k tag|k tag rem|k|k]; cbn [op_key spec_op];
    (destruct (a !! k) as [[old w]|] eqn:E;
      [rewrite lookup_singleton_eq|rewrite lookup_empty]); unfold mbind, outcome_bind;
    repeat (case_match; simplify_eq); rewrite ?lookup_insert_eq in *; simplify_eq;
    rewrite ?lookup_singleton_eq, ?lookup_empty in *; simplify_eq; rewrite ?insert_id by done; done.
Qed.

Lemma local_spec_sound ml (o : @op K V) a r a' :
  spec_op ml o a = Ok (r, a') ->
  local_spec ml o (a !! op_key o) = Ok (r, a' !! op_key o) /\
  forall k, k <> op_key o -> a' !! k = a !! k.
Proof.
  rewrite spec_op_local. unfold mbind, outcome_bind.
  destruct (local_spec ml o (a !! op_key o)) as [[r' x]|] eqn:E; [|done]. intros [= <- <-].
  assert (Hx : x = None -> a !! op_key o = None).
  { intros ->. revert E. unfold local_spec, mbind, outcome_bind.
    destruct o as [k v tag|k v tag|k tag|k tag rem|k|k]; cbn [op_key spec_op];
      (destruct (a !! k) as [[old w]|]; [rewrite lookup_singleton_eq|done]); unfold mbind, outcome_bind;
      repeat (case_match; simplify_eq); rewrite ?lookup_insert_eq in *; simplify_eq;
      rewrite ?lookup_singleton_eq in *; intros; simplify_eq. }
  unfold set_key. destruct x as [y|].
  - rewrite lookup_insert_eq. split; [done|]. intros k Hk. by rewrite lookup_insert_ne.
  - rewrite Hx by done. done.
Qed.

(** *** Counting the live entries *)

Definition is_live (x : option (value * VersionStamp.t)) : bool :=
  match x with Some (v, _) => negb (isTombstone v) | None => false end.

#[local] Arguments is_live : simpl never.

Definition live a : amap := omap (fun x => if is_live (Some x) then Some x else None) a.

Lemma live_insert k x a :
  Z.of_nat (size (live (<[k := x]> a)))
  = Z.of_nat (size (live a)) + (if is_live (Some x) then 1 else 0) - (if is_live (a !! k) then 1 else 0).
Proof.
  unfold live. rewrite omap_insert. destruct (is_live (Some x)); simpl.
  - rewrite map_size_insert, lookup_omap. destruct (a !! k) as [y|]; simpl; [|lia].
    destruct (is_live (Some y)); simpl; lia.
  - rewrite map_size_delete, lookup_omap. destruct (a !! k) as [y|] eqn:E; simpl; [|lia].
    destruct (is_live (Some y)) eqn:El; simpl; [|lia].
    assert (size (omap (fun x0 => if is_live (Some x0) then Some x0 else None) a) <> 0)%nat; [|lia].
    intros E0%map_size_empty_iff. apply (f_equal (lookup k)) in E0.
    rewrite lookup_omap, E, lookup_empty in E0. simpl in E0. by rewrite El in E0.
Qed.

(** The change of the entry counter that the result of an operation leads to. *)
Definition size_change (o : @op K V) (r : GfErrType * value * bool) : Z :=
  match o with
  | OpPut _ _ _ => if decide (r.1.1 = GF_NOERR) then if negb r.2 then 1 else 0 else 0
  | OpCreate _ _ _ =>
    if decide (r.1.1 = GF_NOERR) then match r.1.2 with None => 1 | Some _ => 0 end else 0
  | OpInvalidate _ _ => if r.2 then 1 else 0
  | OpRemove _ _ _ => if decide (r.1.1 = GF_NOERR) then if r.2 then -1 else 0 else 0
  | OpGet _ | OpContains _ => 0
  end.

(** Neither null nor the destroyed token. *)
Definition proper_value (v : value) : Prop := visible v <> None.
Definition proper a : Prop := forall k v w, a !! k = Some (v, w) -> proper_value v.

(** The operations after which the counter is right: values that are stored are proper, and a
    key that is already a tombstone is not removed on behalf of a remote operation. *)
Definition counted (o : @op K V) a : Prop :=
  match o with
  | OpPut _ v _ | OpCreate _ v _ => proper_value v /\ v <> Some TombstoneToken
  | OpRemove k _ afterRemote => afterRemote = true -> forall w, a !! k <> Some (Some TombstoneToken, w)
  | _ => True
  end.

Lemma spec_size ml (o : @op K V) a r a' :
  proper a -> counted o a -> spec_op ml o a = Ok (r, a') ->
  proper a' /\ Z.of_nat (size (live a')) = Z.of_nat (size (live a)) + size_change o r.
Proof.
  intros Hp Hc. assert (Hins : forall k v w, proper_value v -> proper (<[k := (v, w)]> a)).
  { intros k v w Hv k' v' w' [[<- [= <- <-]]|[_ Hk]]%lookup_insert_Some; [done|by eapply Hp]. }
  assert (Hlive : forall v w, v <> Some TombstoneToken -> is_live (Some (v, w)) = true).
  { intros v w Hv. by destruct v as [[]|]. }
  destruct o as [k v tag|k v tag|k tag|k tag rem|k|k]; cbn [spec_op]; simpl in Hc;
    (destruct (a !! k) as [[old w]|] eqn:E; [pose proof (Hp k old w E) as Hold|]);
    unfold mbind, outcome_bind.
  - destruct Hc as [Hv Ht]. destruct (next_stamp ml tag false w) as [[err w']|]; [|done].
    case_decide as De; intros [= <- <-]; [|simpl; rewrite decide_False by done; split; [done|lia]].
    split; [by apply Hins|]. rewrite live_insert, E, Hlive by done. simpl.
    destruct old as [[]|]; try (by destruct Hold); unfold is_live; simpl; lia.
  - destruct Hc as [Hv Ht]. intros [= <- <-]. split; [by apply Hins|]. rewrite live_insert, E, Hlive by done. simpl. lia.
  - destruct Hc as [Hv Ht]. destruct old as [[]|]; try (by destruct Hold); simpl;
      try (intros [= <- <-]; simpl; split; [done|lia]).
    destruct (next_stamp ml tag false w) as [[err w']|]; [|done].
    case_decide as De; intros [= <- <-]; [|simpl; rewrite decide_False by done; split; [done|lia]].
    split; [by apply Hins|]. rewrite live_insert, E, Hlive by done. unfold is_live. simpl. lia.
  - destruct Hc as [Hv Ht]. intros [= <- <-]. split; [by apply Hins|]. rewrite live_insert, E, Hlive by done. simpl. lia.
  - destruct (next_stamp ml tag false w) as [[err w']|]; [|done].
    case_decide as De; [|intros [= <- <-]; simpl; split; [done|lia]].
    destruct (isTombstone old) eqn:Eo; intros [= <- <-]; [simpl; split; [done|lia]|].
    split; [by apply Hins|]. rewrite live_insert, E, !Hlive by (done || by intros ->). simpl. lia.
  - intros [= <- <-]. split; [by apply Hins|]. rewrite live_insert, E, Hlive by done. simpl. lia.
  - destruct (next_stamp ml tag false w) as [[err w']|]; [|done].
    case_decide as De; intros [= <- <-]; [|simpl; rewrite decide_False by done; split; [done|lia]].
    split; [by apply Hins|]. rewrite live_insert, E. destruct rem, old as [[]|];
      try (by destruct Hold); try (by destruct (Hc eq_refl w)); unfold is_live; simpl; lia.
  - destruct tag as [tg|]; intros [= <- <-].
    + split; [by apply Hins|]. rewrite live_insert, E. destruct rem; unfold is_live; simpl; lia.
    + destruct rem; simpl; split; done || lia.
  - case_match; intros [= <- <-]; simpl; split; done || lia.
  - intros [= <- <-]; simpl; split; done || lia.
  - intros [= <- <-]; simpl; split; done || lia.
  - intros [= <- <-]; simpl; split; done || lia.
Qed.

(** *** The map over its segments *)

Context (hashcode : K -> Z).
Context (getFromDisk : K -> nat -> value) (cloningEnabled : bool).
Context (isDelta : V -> bool) (clone : V -> V) (fromDelta : D -> V -> V * bool).
Abbreviation run := (run_op getFromDisk cloningEnabled isDelta clone fromDelta).
Implicit Types (m : ConcurrentEntriesMap.t K V).

Record map_inv m : Prop := {
  mi_concurrency : 1 <= ConcurrentEntriesMap.m_concurrency m;
  mi_length : Z.of_nat (length (ConcurrentEntriesMap.m_segments m)) = ConcurrentEntriesMap.m_concurrency m;
  mi_segments : forall i s, ConcurrentEntriesMap.m_segments m !! i = Some s -> seg_inv s;
  mi_size : in_u 32 (ConcurrentEntriesMap.m_size m)
}.

Definition lookup_map m k : option (value * VersionStamp.t) :=
  match ConcurrentEntriesMap.m_segments m !! ConcurrentEntriesMap.segmentIdx hashcode m k with
  | Some s => lookup_abs s k
  | None => None
  end.

Definition map_rel m a : Prop := forall k, lookup_map m k = a !! k.

Definition map_small m : Prop := forall i s, ConcurrentEntriesMap.m_segments m !! i = Some s -> small s.

(** The operations of [ConcurrentEntriesMap]; [invalidate] and [remove] keep their flag. *)
Definition run_map (updateCount destroyTracker : Z) (o : @op K V) : ST M (GfErrType * value * bool) :=
  match o with
  | OpPut k v tag =>
    '(err, _, old, upd, _) ← ConcurrentEntriesMap.put hashcode getFromDisk cloningEnabled isDelta clone fromDelta
                               k v None None updateCount destroyTracker tag false None;
    mret (err, old, upd)
  | OpCreate k v tag =>
    '(err, _, old) ← ConcurrentEntriesMap.create hashcode getFromDisk cloningEnabled isDelta clone fromDelta
                       k v None None updateCount destroyTracker tag;
    mret (err, old, false)
  | OpInvalidate k tag =>
    '(err, _, old) ← ConcurrentEntriesMap.invalidate hashcode k None None tag; mret (err, old, false)
  | OpRemove k tag afterRemote =>
    '(err, old, _) ← ConcurrentEntriesMap.remove hashcode getFromDisk cloningEnabled isDelta clone fromDelta
                       k None None updateCount tag afterRemote;
    mret (err, old, false)
  | OpGet k => '(b, _, v) ← ConcurrentEntriesMap.get hashcode k; mret (GF_NOERR, v, b)
  | OpContains k => b ← ConcurrentEntriesMap.containsKey hashcode k; mret (GF_NOERR, None, b)
  end.

Definition shown (o : @op K V) (r : GfErrType * value * bool) : GfErrType * value * bool :=
  match o with OpInvalidate _ _ | OpRemove _ _ _ => (r.1, false) | _ => r end.

(** The map after its segment [i] became [s'] and the counter changed by [d]. *)
Definition updated m (i : nat) (s' : Segment K V) (d : Z) : M :=
  ConcurrentEntriesMap.mk (ConcurrentEntriesMap.m_concurrency m)
    (<[i := s']> (ConcurrentEntriesMap.m_segments m))
    (if d =? 0 then ConcurrentEntriesMap.m_size m else u32 (ConcurrentEntriesMap.m_size m + d))
    (ConcurrentEntriesMap.m_cc m) (env s').

Lemma run_map_eq uc dt (o : @op K V) m s :
  ConcurrentEntriesMap.m_segments m !! ConcurrentEntriesMap.segmentIdx hashcode m (op_key o) = Some s ->
  run_map uc dt o m =
  match run uc dt o (with_env (ConcurrentEntriesMap.shared m) s) with
  | Ok (r, s') =>
    Ok (shown o r, updated m (ConcurrentEntriesMap.segmentIdx hashcode m (op_key o)) s' (size_change o r))
  | Throw e => Throw e
  end.
Proof.
  intros Hs. destruct o as [k v tag|k v tag|k tag|k tag rem|k|k]; cbn [op_key] in Hs; cbn [run_map run_op op_key];
    unfold ConcurrentEntriesMap.put, ConcurrentEntriesMap.create, ConcurrentEntriesMap.invalidate,
      ConcurrentEntriesMap.remove, ConcurrentEntriesMap.get, ConcurrentEntriesMap.containsKey,
      ConcurrentEntriesMap.segmentFor, ConcurrentEntriesMap.on_segment, ConcurrentEntriesMap.set_size,
      updated, size_change, shown, mbind, ST_bind; rewrite Hs.
  - destruct (put _ _ _ _ _ _ _ _ _ _ _ _ _ _ _) as [[[[[[err me] old] upd] nv] s']|]; [|done]. simpl.
    case_decide; [destruct upd|]; simpl; rewrite 1?Z.add_comm; done.
  - destruct (create _ _ _ _ _ _ _ _ _ _ _ _ _) as [[[[err me] old] s']|]; [|done]. simpl.
    case_decide; [destruct old|]; simpl; rewrite 1?Z.add_comm; done.
  - destruct (invalidate _ _ _ _ _) as [[[[[err me] old] added] s']|]; [|done]. simpl.
    destruct added; simpl; rewrite 1?Z.add_comm; done.
  - destruct (remove _ _ _ _ _ _ _ _ _ _ _ _ _) as [[[[[err old] me] found] s']|]; [|done]. simpl.
    case_decide; [destruct found|]; simpl; done.
  - destruct (getEntry _ _) as [[[[b me] v] s']|]; done.
  - destruct (containsKey _ _) as [[b s']|]; done.
Qed.

Lemma inv_with_env e (s : Segment K V) : seg_inv s -> seg_inv (with_env e s).
Proof. intros []. by constructor. Qed.

Lemma segmentIdx_lookup m k : map_inv m ->
  exists s, ConcurrentEntriesMap.m_segments m !! ConcurrentEntriesMap.segmentIdx hashcode m k = Some s.
Proof.
  intros Hi. apply lookup_lt_is_Some. unfold ConcurrentEntriesMap.segmentIdx.
  pose proof (mi_concurrency m Hi). pose proof (mi_length m Hi).
  pose proof (Z.mod_pos_bound (u32 (hashcode k)) (ConcurrentEntriesMap.m_concurrency m)). lia.
Qed.

Lemma updated_inv m i s' d : map_inv m -> seg_inv s' -> map_inv (updated m i s' d).
Proof.
  intros [H1 H2 H3 H4] Hs. constructor; simpl; [done|by rewrite length_insert| |].
  - intros j s [[<- [<- _]]|[_ Hj]]%list_lookup_insert_Some; [done|by apply (H3 j)].
  - case_match; [done|by apply wrapU_range].
Qed.

Lemma refine_map uc dt (o : @op K V) m a :
  map_inv m -> map_small m -> map_rel m a -> op_ok o ->
  match spec_op (memberList (ConcurrentEntriesMap.shared m)) o a with
  | Ok (r, a') =>
    exists m', run_map uc dt o m = Ok (shown o r, m') /\ map_inv m' /\ map_rel m' a' /\
      ConcurrentEntriesMap.m_size m' = u32 (ConcurrentEntriesMap.m_size m + size_change o r)
  | Throw e => run_map uc dt o m = Throw e
  end.
Proof.
  intros Hi Hsm Ha Ho. destruct (segmentIdx_lookup m (op_key o) Hi) as [s Hs].
  pose proof (inv_with_env (ConcurrentEntriesMap.shared m) s (mi_segments m Hi _ _ Hs)) as His.
  pose proof (refine_op getFromDisk cloningEnabled isDelta clone fromDelta uc dt o
    (with_env (ConcurrentEntriesMap.shared m) s) _ His (Hsm _ _ Hs) (abs_of_rel _) Ho) as Href.
  assert (Hk : abs_of (with_env (ConcurrentEntriesMap.shared m) s) !! op_key o = a !! op_key o).
  { rewrite <- (abs_of_rel _ (op_key o)), <- (Ha (op_key o)). unfold lookup_map. by rewrite Hs. }
  rewrite (run_map_eq uc dt o m s Hs).
  change (memberList (env (with_env (ConcurrentEntriesMap.shared m) s)))
    with (memberList (ConcurrentEntriesMap.shared m)) in Href.
  rewrite spec_op_local in Href |- *. rewrite Hk in Href.
  destruct (local_spec _ o (a !! op_key o)) as [[r x]|e] eqn:El; simpl in Href |- *; [|by rewrite Href].
  destruct Href as (s' & -> & His' & Has'). eexists. split; [done|]. split; [by apply updated_inv|]. split.
  - intros k'. unfold lookup_map. simpl.
    change (ConcurrentEntriesMap.segmentIdx hashcode (updated m (ConcurrentEntriesMap.segmentIdx hashcode m (op_key o)) s' (size_change o r)) k')
      with (ConcurrentEntriesMap.segmentIdx hashcode m k').
    destruct (decide (ConcurrentEntriesMap.segmentIdx hashcode m (op_key o) = ConcurrentEntriesMap.segmentIdx hashcode m k')) as [Heq|Hne].
    + rewrite <- Heq, list_lookup_insert_eq by (by apply lookup_lt_Some in Hs). rewrite (Has' k').
      destruct (decide (k' = op_key o)) as [->|Hne].
      * destruct x as [y|]; simpl; [by rewrite !lookup_insert_eq|done].
      * transitivity (a !! k'); [|destruct x; simpl; [by rewrite lookup_insert_ne|done]].
        transitivity (abs_of (with_env (ConcurrentEntriesMap.shared m) s) !! k');
          [destruct x; simpl; [by rewrite lookup_insert_ne|done]|].
        rewrite <- (abs_of_rel _ k'), <- (Ha k'). unfold lookup_map. by rewrite <- Heq, Hs.
    + rewrite list_lookup_insert_ne by done. assert (k' <> op_key o) by congruence.
      transitivity (a !! k'); [by rewrite <- (Ha k')|]. destruct x; simpl; [by rewrite lookup_insert_ne|done].
  - simpl. case_match; [|done]. rewrite wrapU_id; [lia|]. pose proof (mi_size m Hi). by replace (size_change o r) with 0 by lia; rewrite Z.add_0_r.
Qed.

(** C3. The entries map of a region with concurrency checks, with its segments selected by
    hash code, behaves as one abstract versioned map: every operation on a key returns the
    abstract result, changes the binding of that key only and as the abstract map does, and
    changes the entry counter by the amount its result implies. *)
Theorem entries_map_refines uc dt (o : @op K V) m a :
  map_inv m -> map_small m -> map_rel m a -> op_ok o ->
  match spec_op (memberList (ConcurrentEntriesMap.shared m)) o a with
  | Ok (r, a') =>
    exists m', run_map uc dt o m = Ok (shown o r, m') /\ map_inv m' /\ map_rel m' a' /\
      (forall k, k <> op_key o -> a' !! k = a !! k) /\
      ConcurrentEntriesMap.m_size m' = u32 (ConcurrentEntriesMap.m_size m + size_change o r)
  | Throw e => run_map uc dt o m = Throw e
  end.
Proof.
  intros Hi Hs Ha Ho. pose proof (refine_map uc dt o m a Hi Hs Ha Ho) as Href.
  destruct (spec_op _ o a) as [[r a']|] eqn:E; [|done]. destruct Href as (m' & ? & ? & ? & ?).
  exists m'. split_and!; try done. by apply local_spec_sound in E as [_ ?].
Qed.

(** The entry counter counts the live entries (the keys that are not bound to a
    tombstone), modulo 2^32: every operation keeps it so, as long as stored values are
    neither null nor tokens of the map itself and no tombstone is removed again on behalf of
    a remote operation. *)
Theorem size_counts_live uc dt (o : @op K V) m a r m' :
  map_inv m -> map_small m -> map_rel m a -> proper a -> counted o a ->
  ConcurrentEntriesMap.m_size m = u32 (Z.of_nat (size (live a))) ->
  run_map uc dt o m = Ok (r, m') ->
  exists a', map_inv m' /\ map_rel m' a' /\ proper a' /\
    ConcurrentEntriesMap.size m' = u32 (Z.of_nat (size (live a'))).
Proof.
  intros Hi Hs Ha Hp Hc Hsize E.
  assert (Ho : op_ok o) by (destruct o; simpl in *; tauto).
  pose proof (refine_map uc dt o m a Hi Hs Ha Ho) as Href.
  destruct (spec_op _ o a) as [[r' a']|] eqn:Es; [|congruence].
  destruct Href as (m'' & E' & Hi' & Ha' & Hs'). rewrite E' in E. simplify_eq.
  destruct (spec_size _ _ _ _ _ Hp Hc Es) as [Hp' Hl]. exists a'. split_and!; try done.
  unfold ConcurrentEntriesMap.size. rewrite Hs', Hsize, Hl. unfold wrapU. by rewrite Zplus_mod_idemp_l.
Qed.

(** *** A newly opened map *)

Lemma open_segments_inv e n : forall i segs segSize,
  ConcurrentEntriesMap.open_segments n i segSize true e = Ok segs ->
  length segs = n /\ forall j (s : Segment K V), segs !! j = Some s -> seg_inv s /\ m_map s = ∅.
Proof.
  induction n as [|n IH]; intros i segs segSize; simpl; [by intros [= <-]|].
  unfold mbind, outcome_bind. destruct (open segSize true (construct i e)) as [s0|] eqn:E0; [|done].
  destruct (ConcurrentEntriesMap.open_segments n (S i) segSize true e) as [rest|] eqn:E; [|done].
  intros [= <-]. apply IH in E as [Hlen Hr]. split; [simpl; by rewrite Hlen|].
  intros [|j] s; simpl; [|apply Hr]. intros [= <-]. split; [by apply inv_open in E0|].
  revert E0. unfold open, mbind, outcome_bind. destruct (TableOfPrimes.nextLargerPrime segSize) as [[]|]; [|done].
  by intros [= <-].
Qed.

Lemma lower_bound_ge1 table : forall val j i q, Forall (Z.le 1) table ->
  TableOfPrimes.lower_bound table val j = Some (i, q) -> 1 <= q.
Proof.
  induction table as [|x table IH]; intros val j i q Hf; simpl; [done|].
  apply Forall_cons_1 in Hf as [Hx Hf]. destruct (x <? val); [by apply IH|by intros [= <- <-]].
Qed.

Lemma open_inv concurrency e n m0 m :
  ConcurrentEntriesMap.construct true concurrency e = Ok m0 -> ConcurrentEntriesMap.open n m0 = Ok m ->
  map_inv m /\ map_rel m ∅ /\ map_small m.
Proof.
  unfold ConcurrentEntriesMap.construct, ConcurrentEntriesMap.open, mbind, outcome_bind. intros H0 H1.
  destruct (if _ <? _ then _ else _) as [c|] eqn:Ec; [|done]. simplify_eq. simpl in H1.
  assert (Hc : 1 <= c).
  { revert Ec. destruct (TableOfPrimes.getMaxPrimeForConcurrency <? concurrency); [by intros [= <-]|].
    unfold TableOfPrimes.nextLargerPrimeForConcurrency.
    destruct (TableOfPrimes.lower_bound _ concurrency 0) as [[i q]|] eqn:El; [|done]. intros [= <-].
    eapply lower_bound_ge1; [|exact El]. repeat (constructor; [done|]). constructor. }
  destruct (ConcurrentEntriesMap.open_segments _ 0 _ true _) as [segs|] eqn:Eo; [|done]. simplify_eq.
  apply open_segments_inv in Eo as [Hlen Hseg]. split_and!.
  - constructor; simpl; [done|lia|apply Hseg|done].
  - intros k. rewrite lookup_empty. unfold lookup_map. destruct (_ !! ConcurrentEntriesMap.segmentIdx _ _ k) as [s|] eqn:Es; [|done].
    apply lookup_abs_None. apply Hseg in Es as [_ ->]. done.
  - intros i s Hs. apply Hseg in Hs as [_ Hm]. unfold small. rewrite Hm. done.
Qed.

End Facts.

(** *** Concrete runs *)

Abbreviation map_put := (ConcurrentEntriesMap.put id nodisk true alwaysDelta id addDelta).
Abbreviation map_remove := (ConcurrentEntriesMap.remove id nodisk true alwaysDelta id addDelta).
Abbreviation map_run := (run_map id nodisk true alwaysDelta id addDelta).

Definition map00 : ConcurrentEntriesMap.t Z Z := ConcurrentEntriesMap.mk 17 [] 0 true env0.
Definition map0 : ConcurrentEntriesMap.t Z Z :=
  match ConcurrentEntriesMap.open 100 map00 with Ok m => m | Throw _ => map00 end.

Lemma construct_map00 : ConcurrentEntriesMap.construct true 16 env0 = Ok map00.
Proof. reflexivity. Qed.

Lemma open_map0 : ConcurrentEntriesMap.open 100 map00 = Ok map0.
Proof. vm_compute. reflexivity. Qed.

Lemma map0_inv : map_inv map0 /\ map_rel id map0 ∅ /\ map_small map0.
Proof. exact (open_inv id 16 env0 100 map00 map0 construct_map00 open_map0). Qed.

Lemma entries_map_refines_witness :
  exists m', map_run (-1) (-1) (OpPut 7 v1 (Some (sample_tag 9 1 1))) map0 = Ok ((GF_NOERR, None, false), m') /\
    map_inv m' /\ map_rel id m' {[7 := (v1, VersionStamp.setVersions (sample_tag 9 1 1))]}.
Proof.
  destruct map0_inv as (Hi & Ha & Hs).
  pose proof (entries_map_refines id nodisk true alwaysDelta id addDelta (-1) (-1)
    (OpPut 7 v1 (Some (sample_tag 9 1 1))) map0 ∅ Hi Hs Ha ltac:(done)) as (m' & ? & ? & ? & _).
  by exists m'.
Defined.

Definition map1 : ConcurrentEntriesMap.t Z Z :=
  match map_run (-1) (-1) (OpPut 7 v1 (Some (sample_tag 9 1 1))) map0 with Ok (_, m) => m | Throw _ => map0 end.

Lemma map1_eq : map_run (-1) (-1) (OpPut 7 v1 (Some (sample_tag 9 1 1))) map0 = Ok ((GF_NOERR, None, false), map1).
Proof. vm_compute. reflexivity. Qed.

Lemma size_counts_live_witness :
  exists a', map_inv map1 /\ map_rel id map1 a' /\ proper a' /\
    ConcurrentEntriesMap.size map1 = u32 (Z.of_nat (size (live a'))).
Proof.
  destruct map0_inv as (Hi & Ha & Hs).
  eapply (size_counts_live id nodisk true alwaysDelta id addDelta (-1) (-1)
    (OpPut 7 v1 (Some (sample_tag 9 1 1))) map0 ∅ _ map1 Hi Hs Ha); [by intros ? ? ?|done|by vm_compute|exact map1_eq].
Defined.

(** Removing a key twice on behalf of remote operations makes the entry counter wrap
    around: the second [remove] finds the tombstone of the first, reports success and counts
    down again, so that a map without entries has size 4294967295. *)
Theorem size_underflow :
  ('(_, m1) ← map_put 7 v1 None None (-1) (-1) (Some (sample_tag 9 1 1)) false None map0;
   '(_, m2) ← map_remove 7 None None (-1) (Some (sample_tag 10 1 1)) true m1;
   '(r, m3) ← map_remove 7 None None (-1) (Some (sample_tag 11 1 1)) true m2;
   Ok (ConcurrentEntriesMap.size m1, ConcurrentEntriesMap.size m2, r.1.1, ConcurrentEntriesMap.size m3))
  = Ok (1, 0, GF_NOERR, 4294967295).
Proof. vm_compute. reflexivity. Qed.
