(* ===== verification/LRUQueue.v ===== *)
(** The eviction queue (src/cppcache/src/LRUQueue.cpp, LRUEntryProperties.hpp): a doubly linked
    list of entries, each entry keeping the iterator of its own node, and the proof that it
    is a sequence of distinct entries ordered by their last use.

    A [std::list] is the sequence of its nodes with their entries; an iterator is a node or
    the end. The iterator of an entry that was never queued is singular: it is not in
    [iter_], and using it is [UndefinedBehaviour], as is erasing or splicing the end or a
    node that is gone. Each operation holds the queue's mutex, so it is one atomic step. *)
From S2P Require Import Prelude.

Module LRUQueue.
Section Queue.
Context {E : Type} `{Countable E}.
Implicit Types (e : E) (n : nat).

Inductive list_iterator := End | Node n.

Record t := mk {
  container_ : list (nat * E);
  iter_ : gmap E list_iterator;   (** [LRUEntryProperties::iter_] *)
  next_node : nat
}.

Definition construct : t := mk [] ∅ 0.

Definition size (q : t) : Z := Z.of_nat (length (container_ q)).

(** [push_back] makes a new node; [--end] is its iterator. *)
Definition push (e : E) : ST t unit := st_modify (fun q =>
  mk (container_ q ++ [(next_node q, e)]) (<[e := Node (next_node q)]> (iter_ q)) (S (next_node q))).

Definition pop : ST t (option E) := fun q =>
  match container_ q with
  | [] => Ok (None, q)
  | (_, e) :: rest => Ok (Some e, mk rest (<[e := End]> (iter_ q)) (next_node q))
  end.

(** The nodes other than [n], and the entry of [n] if it is in the list. *)
Fixpoint unlink (n : nat) (l : list (nat * E)) : option (E * list (nat * E)) :=
  match l with
  | [] => None
  | (n', e) :: rest =>
    if decide (n' = n) then Some (e, rest)
    else match unlink n rest with Some (e', rest') => Some (e', (n', e) :: rest') | None => None end
  end.

Definition remove (e : E) : ST t unit := fun q =>
  match iter_ q !! e with
  | None => Throw UndefinedBehaviour
  | Some End => Ok (tt, q)
  | Some (Node n) =>
    match unlink n (container_ q) with
    | None => Throw UndefinedBehaviour
    | Some (_, rest) => Ok (tt, mk rest (<[e := End]> (iter_ q)) (next_node q))
    end
  end.

(** [splice(end, container_, iterator)]: the node moves, and is then the last one. *)
Definition move_to_end (e : E) : ST t unit := fun q =>
  match iter_ q !! e with
  | None | Some End => Throw UndefinedBehaviour
  | Some (Node n) =>
    match unlink n (container_ q) with
    | None => Throw UndefinedBehaviour
    | Some (e', rest) =>
      Ok (tt, mk (rest ++ [(n, e')]) (<[e := Node n]> (iter_ q)) (next_node q))
    end
  end.

Definition clear : ST t unit := st_modify (fun q =>
  mk [] (foldr (fun x m => <[x.2 := End]> m) (iter_ q) (container_ q)) (next_node q)).

(** *** The queue as a sequence of entries *)

Definition order (q : t) : list E := (container_ q).*2.

(** The iterators of the queued entries are their nodes, and no others are nodes. *)
Record wf (q : t) : Prop := {
  wf_iter : forall n e, (n, e) ∈ container_ q <-> iter_ q !! e = Some (Node n);
  wf_nodes : NoDup (container_ q).*1;
  wf_fresh : forall n e, (n, e) ∈ container_ q -> (n < next_node q)%nat
}.

Definition queued (q : t) (e : E) : Prop := e ∈ order q.
Definition known (q : t) (e : E) : Prop := is_Some (iter_ q !! e).

Definition without (e : E) (l : list E) : list E := filter (fun x => x <> e) l.

Lemma without_notin e l : e ∉ l -> without e l = l.
Proof.
  unfold without. induction l as [|x l IH]; intros Hl; [done|]. apply not_elem_of_cons in Hl as [Hx Hl].
  rewrite filter_cons, decide_True by done. by rewrite IH.
Qed.

Lemma elem_of_order q e : e ∈ order q <-> exists n, (n, e) ∈ container_ q.
Proof.
  unfold order. rewrite list_elem_of_fmap. split.
  - intros [[n e'] [-> ?]]. eauto.
  - intros [n ?]. by exists (n, e).
Qed.

Lemma wf_empty : wf construct.
Proof. constructor; simpl; [set_solver|constructor|set_solver]. Qed.

Lemma wf_order_nodup q : wf q -> NoDup (order q).
Proof.
  intros [Hi Hn _]. unfold order. apply NoDup_fmap_2_strong; [|by eapply NoDup_fmap_1].
  intros [n e] [n' e'] H1 H2 [= <-]. apply Hi in H1, H2. congruence.
Qed.

Lemma unlink_spec n e l : NoDup l.*1 -> (n, e) ∈ l ->
  exists rest, unlink n l = Some (e, rest) /\ NoDup rest.*1 /\
    (forall n' e', (n', e') ∈ rest <-> (n', e') ∈ l /\ n' <> n).
Proof.
  induction l as [|[n0 e0] l IH]; [set_solver|]. intros Hnd Hin. rewrite fmap_cons in Hnd.
  apply list.NoDup_cons in Hnd as [Hn0 Hnd]. cbn [unlink].
  assert (Hl : forall n' e', (n', e') ∈ l -> n' <> n0).
  { intros n' e' Hin' ->. apply Hn0, list_elem_of_fmap. by exists (n0, e'). }
  case_decide as Heq.
  - subst. apply elem_of_cons in Hin as [[= <-]|Hin]; [|by apply Hl in Hin].
    exists l. split_and!; [done..|]. intros n' e'. rewrite elem_of_cons. split.
    + intros Hi. split; [by right|by apply (Hl n' e')].
    + intros [[[= -> ->]|?] ?]; done.
  - apply elem_of_cons in Hin as [[= -> ->]|Hin]; [done|].
    destruct (IH Hnd Hin) as (rest & -> & Hr & Hspec). exists ((n0, e0) :: rest).
    split_and!; [done| |].
    + apply list.NoDup_cons. split; [|done]. intros ([n' e'] & E0 & Hi)%list_elem_of_fmap.
      simpl in E0. subst. apply Hspec in Hi as [Hi _]. by apply Hl in Hi.
    + intros n' e'. rewrite !elem_of_cons, Hspec. split.
      * intros [[= -> ->]|[? ?]]; split; auto.
      * intros [[[= -> ->]|?] ?]; auto.
Qed.

Lemma unlink_order n e l rest : NoDup l.*1 -> NoDup l.*2 ->
  unlink n l = Some (e, rest) -> rest.*2 = without e l.*2.
Proof.
  revert rest. induction l as [|[n0 e0] l IH]; intros rest Hn1 Hn2 Hu; [done|]. cbn [unlink] in Hu.
  rewrite fmap_cons in Hn1. rewrite fmap_cons in Hn2. apply list.NoDup_cons in Hn1 as [_ Hn1]. apply list.NoDup_cons in Hn2 as [He0 Hn2].
  rewrite fmap_cons. unfold without. rewrite filter_cons. simpl. case_decide as Hd.
  - simplify_eq. rewrite decide_False by (by intros []).
    symmetry. by apply without_notin.
  - destruct (unlink n l) as [[e' rest']|] eqn:E0; [|done]. simplify_eq.
    rewrite decide_True; [by rewrite fmap_cons, (IH rest')|].
    intros ->. apply He0. clear IH Hn1 Hn2 He0. revert rest' E0. induction l as [|[n1 e1] l IH]; [done|].
    intros rest' E0. cbn [unlink] in E0. rewrite fmap_cons. case_decide; [simplify_eq; by left|].
    destruct (unlink n l) as [[e2 rest2]|]; simplify_eq. right. by eapply IH.
Qed.

(** *** The operations on sequences *)

Lemma push_order q e : wf q -> ~ queued q e ->
  exists q', push e q = Ok (tt, q') /\ wf q' /\ order q' = order q ++ [e] /\
    (forall x, known q' x <-> known q x \/ x = e).
Proof.
  intros [Hi Hn Hf] He. eexists. split; [done|]. unfold queued in He. rewrite elem_of_order in He.
  split_and!.
  - constructor; simpl.
    + intros n x. rewrite elem_of_app, list_elem_of_singleton. destruct (decide (x = e)) as [->|Hne].
      * rewrite lookup_insert_eq. split; [|intros [= <-]; by right].
        intros [Hin|[= ->]]; [by destruct He; exists n|done].
      * rewrite lookup_insert_ne, <- Hi by done. split; [|by left]. intros [?|[= ? ?]]; done.
    + rewrite fmap_app. apply list.NoDup_app. split_and!; [done| |apply NoDup_singleton].
      simpl. intros n ([n' x] & -> & Hin)%list_elem_of_fmap Heq%list_elem_of_singleton.
      apply Hf in Hin. simpl in Heq. lia.
    + intros n x [Hin|[= -> _]%list_elem_of_singleton]%elem_of_app; [apply Hf in Hin; lia|lia].
  - unfold order. simpl. by rewrite fmap_app.
  - intros x. unfold known. simpl. destruct (decide (x = e)) as [->|].
    + rewrite lookup_insert_eq. split; [by right|eauto].
    + rewrite lookup_insert_ne by done. split; [by left|by intros [?|?]].
Qed.

Lemma pop_order q : wf q ->
  exists q', pop q = Ok (head (order q), q') /\ wf q' /\ order q' = tail (order q) /\
    (forall x, known q' x <-> known q x).
Proof.
  intros Hq. pose proof Hq as [Hi Hn Hf]. unfold pop, order. destruct (container_ q) as [|[n e] rest] eqn:E0.
  { exists q. rewrite E0. done. }
  eexists. split; [done|]. rewrite fmap_cons in Hn. apply list.NoDup_cons in Hn as [Hn Hnd].
  assert (He : iter_ q !! e = Some (Node n)) by (apply Hi; by left).
  split_and!; [constructor; simpl| done |].
  - intros n' x. destruct (decide (x = e)) as [->|Hne].
    + rewrite lookup_insert_eq. split; [|done]. intros Hin.
      assert (Hn' : iter_ q !! e = Some (Node n')) by (apply Hi; by right).
      rewrite He in Hn'. injection Hn' as <-.
      destruct Hn. apply list_elem_of_fmap. by exists (n, e).
    + rewrite lookup_insert_ne, <- Hi by done. rewrite elem_of_cons. split; [by right|].
      intros [[= ? ?]|?]; done.
  - done.
  - intros n' x Hin. apply (Hf n' x). by right.
  - intros x. unfold known. simpl. destruct (decide (x = e)) as [->|].
    + rewrite lookup_insert_eq, He. split; eauto.
    + by rewrite lookup_insert_ne.
Qed.

(** What removing and moving share: the node of [e] is taken out. *)
Lemma unlink_queued q e : wf q -> queued q e ->
  exists n rest, iter_ q !! e = Some (Node n) /\ unlink n (container_ q) = Some (e, rest) /\
    rest.*2 = without e (order q) /\ NoDup rest.*1 /\
    (forall n' x, (n', x) ∈ rest <-> (n', x) ∈ container_ q /\ n' <> n) /\
    (forall n' x, (n', x) ∈ rest -> x <> e).
Proof.
  intros Hq [n Hin]%elem_of_order. pose proof Hq as [Hi Hn Hf].
  destruct (unlink_spec n e _ Hn Hin) as (rest & Hu & Hr & Hspec).
  assert (He : iter_ q !! e = Some (Node n)) by by apply Hi.
  exists n, rest. split_and!; try done.
  - apply (unlink_order n); [done|by apply wf_order_nodup|done].
  - intros n' x [Hin' Hne]%Hspec ->. apply Hi in Hin'. congruence.
Qed.

Lemma wf_relink q e n rest : wf q -> iter_ q !! e = Some (Node n) -> NoDup rest.*1 ->
  (forall n' x, (n', x) ∈ rest <-> (n', x) ∈ container_ q /\ n' <> n) ->
  (forall n' x, (n', x) ∈ rest -> x <> e) ->
  wf (mk rest (<[e := End]> (iter_ q)) (next_node q)) /\
  wf (mk (rest ++ [(n, e)]) (<[e := Node n]> (iter_ q)) (next_node q)).
Proof.
  intros [Hi Hn Hf] He Hr Hspec Hne.
  assert (Hother : forall n' x, x <> e -> (n', x) ∈ rest <-> iter_ q !! x = Some (Node n')).
  { intros n' x Hx. rewrite Hspec, Hi. split; [by intros [??]|]. intros Hx'. split; [done|].
    intros ->. apply Hi in Hx'. apply Hi in He. apply Hx. clear - Hn Hx' He.
    apply list_elem_of_lookup in Hx' as [i Hx']. apply list_elem_of_lookup in He as [j He].
    assert (i = j) as ->.
    { eapply (NoDup_lookup _ _ _ _ Hn); rewrite list_lookup_fmap, ?Hx', ?He; done. }
    congruence. }
  split; constructor; simpl.
  - intros n' x. destruct (decide (x = e)) as [->|Hx]; [|rewrite lookup_insert_ne by done; by apply Hother].
    rewrite lookup_insert_eq. split; [|done]. by intros Hin%Hne.
  - done.
  - intros n' x [Hin _]%Hspec. by apply (Hf n' x).
  - intros n' x. rewrite elem_of_app, list_elem_of_singleton. destruct (decide (x = e)) as [->|Hx].
    + rewrite lookup_insert_eq. split; [|intros [= ->]; by right]. by intros [Hin%Hne|[= ->]].
    + rewrite lookup_insert_ne, <- Hother by done. split; [|by left]. by intros [?|[= ? ?]].
  - rewrite fmap_app. apply list.NoDup_app. split_and!; [done| |apply NoDup_singleton].
    simpl. intros m ([n' x] & -> & Hin)%list_elem_of_fmap Heq%list_elem_of_singleton.
    by apply Hspec in Hin as [_ ?].
  - intros n' x [[Hin _]%Hspec|[= -> ->]%list_elem_of_singleton]%elem_of_app; [by apply (Hf n' x)|].
    apply (Hf n e). by apply Hi.
Qed.

Lemma known_insert q e it0 it l k : iter_ q !! e = Some it0 ->
  forall x, known (mk l (<[e := it]> (iter_ q)) k) x <-> known q x.
Proof.
  intros He x. unfold known. simpl. destruct (decide (x = e)) as [->|].
  - rewrite lookup_insert_eq, He. split; eauto.
  - by rewrite lookup_insert_ne.
Qed.

Lemma remove_order q e : wf q -> known q e ->
  exists q', remove e q = Ok (tt, q') /\ wf q' /\ order q' = without e (order q) /\
    (forall x, known q' x <-> known q x).
Proof.
  intros Hq [it He]. destruct (decide (e ∈ order q)) as [Hin|Hout].
  - destruct (unlink_queued q e Hq Hin) as (n & rest & Hit & Hu & Ho & Hr & Hspec & Hne).
    exists (mk rest (<[e := End]> (iter_ q)) (next_node q)). unfold remove. rewrite Hit, Hu.
    split_and!; [done|by apply (wf_relink q e n)|done|by eapply known_insert].
  - assert (it = End) as ->.
    { destruct it as [|n]; [done|]. destruct Hout. apply elem_of_order. exists n. by apply (wf_iter q Hq). }
    exists q. unfold remove. rewrite He. split_and!; try done. symmetry. by apply without_notin.
Qed.

Lemma move_to_end_order q e : wf q -> queued q e ->
  exists q', move_to_end e q = Ok (tt, q') /\ wf q' /\ order q' = without e (order q) ++ [e] /\
    (forall x, known q' x <-> known q x).
Proof.
  intros Hq Hin. destruct (unlink_queued q e Hq Hin) as (n & rest & Hit & Hu & Ho & Hr & Hspec & Hne).
  exists (mk (rest ++ [(n, e)]) (<[e := Node n]> (iter_ q)) (next_node q)). unfold move_to_end. rewrite Hit, Hu.
  split_and!; [done|by apply (wf_relink q e n)| |by eapply known_insert].
  unfold order at 1. simpl. by rewrite fmap_app, Ho.
Qed.

Lemma clear_order q : wf q ->
  exists q', clear q = Ok (tt, q') /\ wf q' /\ order q' = [] /\ (forall x, known q' x <-> known q x).
Proof.
  intros [Hi Hn Hf]. eexists. split; [done|].
  assert (Hl : forall (l : list (nat * E)) (m : gmap E list_iterator) e,
    foldr (fun x m => <[x.2 := End]> m) m l !! e = if decide (e ∈ l.*2) then Some End else m !! e).
  { induction l as [|[n x] l IH]; intros m e; [done|]. simpl. destruct (decide (e = x)) as [->|Hne].
    - rewrite lookup_insert_eq, decide_True; [done|]. by left.
    - rewrite lookup_insert_ne, IH by done. apply decide_ext. rewrite elem_of_cons.
      split; [by right|by intros [?|?]]. }
  split_and!; [constructor; simpl|done|].
  - intros n e. rewrite Hl. split; [set_solver|]. case_decide as He; [done|].
    intros Hin%Hi. destruct He. apply elem_of_order. by exists n.
  - constructor.
  - set_solver.
  - intros x. unfold known. simpl. rewrite Hl. case_decide as Hx; [|done].
    apply elem_of_order in Hx as [n ->%Hi]. split; eauto.
Qed.

Inductive op := Push e | Pop | Remove e | MoveToEnd e | Clear.

Definition run (o : op) : ST t (option E) :=
  match o with
  | Push e => push e;; mret None
  | Pop => pop
  | Remove e => remove e;; mret None
  | MoveToEnd e => move_to_end e;; mret None
  | Clear => clear;; mret None
  end.

Definition spec (o : op) (l : list E) : option E * list E :=
  match o with
  | Push e => (None, l ++ [e])
  | Pop => (head l, tail l)
  | Remove e => (None, without e l)
  | MoveToEnd e => (None, without e l ++ [e])
  | Clear => (None, [])
  end.

(** What a caller has to make sure of: an entry is pushed when it is not queued, removed when
    it was queued at some time, and moved while it is queued. *)
Definition allowed (o : op) (q : t) : Prop :=
  match o with
  | Push e => ~ queued q e
  | Remove e => known q e
  | MoveToEnd e => queued q e
  | Pop | Clear => True
  end.

Lemma run_unit (m : ST t unit) q q' : m q = Ok (tt, q') -> (m;; mret (M := ST t) (@None E)) q = Ok (None, q').
Proof. intros E0. by rewrite (st_bind_ok _ _ _ _ _ E0). Qed.

(** Used as it must be, the eviction queue is a sequence of distinct entries: [push]
    appends, [pop] takes the first entry, [remove] deletes the entry wherever it is,
    [move_to_end] makes it the last one, [clear] empties the queue; the iterators that the
    entries keep stay those of their nodes, and no operation leaves the list. *)
Theorem lru_queue_refines o q :
  wf q -> allowed o q ->
  exists q', run o q = Ok ((spec o (order q)).1, q') /\ wf q' /\ order q' = (spec o (order q)).2.
Proof.
  intros Hq Ho. destruct o as [e| |e|e|]; simpl in *.
  - destruct (push_order q e Hq Ho) as (q' & E0 & ? & ? & _). exists q'. by rewrite (run_unit _ _ _ E0).
  - destruct (pop_order q Hq) as (q' & E0 & ? & ? & _). by exists q'.
  - destruct (remove_order q e Hq Ho) as (q' & E0 & ? & ? & _). exists q'. by rewrite (run_unit _ _ _ E0).
  - destruct (move_to_end_order q e Hq Ho) as (q' & E0 & ? & ? & _). exists q'. by rewrite (run_unit _ _ _ E0).
  - destruct (clear_order q Hq) as (q' & E0 & ? & ? & _). exists q'. by rewrite (run_unit _ _ _ E0).
Qed.

(** *** Recency *)

(** A use of an entry: it is queued, or moved if it is queued already. *)
Definition use (e : E) : ST t unit := fun q =>
  if decide (e ∈ order q) then move_to_end e q else push e q.

Lemma remove_dups_snoc l e : remove_dups (l ++ [e]) = without e (remove_dups l) ++ [e].
Proof.
  unfold without in *. induction l as [|x l IH]; [done|]. cbn [app remove_dups]. rewrite IH.
  assert (Hx : x ∈ l ++ [e] <-> x ∈ l \/ x = e) by (by rewrite elem_of_app, list_elem_of_singleton).
  destruct (decide (x = e)) as [->|Hne].
  - case_decide as Hin; [|by destruct Hin; apply Hx; right]. case_decide; [done|].
    rewrite filter_cons. case_decide; [done|done].
  - case_decide; case_decide; try done; try tauto. by rewrite filter_cons, decide_True.
Qed.

Lemma uses_order us q : wf q -> order q = remove_dups us ->
  forall us', exists q', st_iter use us' q = Ok (tt, q') /\ wf q' /\ order q' = remove_dups (us ++ us').
Proof.
  intros Hq Ho us'. revert us q Hq Ho. induction us' as [|e us' IH]; intros us q Hq Ho.
  { exists q. by rewrite app_nil_r. }
  assert (exists q1, use e q = Ok (tt, q1) /\ wf q1 /\ order q1 = remove_dups (us ++ [e])) as (q1 & E1 & Hq1 & Ho1).
  { unfold use. rewrite remove_dups_snoc, <- Ho. case_decide as He.
    - destruct (move_to_end_order q e Hq He) as (q1 & ? & ? & ? & _). eauto.
    - destruct (push_order q e Hq He) as (q1 & ? & ? & ? & _). exists q1. rewrite without_notin by done. eauto. }
  destruct (IH _ q1 Hq1 Ho1) as (q2 & E2 & ?). exists q2. cbn [st_iter].
  by rewrite (st_bind_ok _ _ _ _ _ E1), E2, <- app_assoc in *.
Qed.

(** The queue is ordered by recency: after any sequence of uses of entries it holds each
    of them once, in the order of their last uses, and popping it empty returns them in that
    order, the least recently used one first. *)
Theorem lru_recency us :
  exists q q', st_iter use us construct = Ok (tt, q) /\ order q = remove_dups us /\
    st_repeat (length (order q)) pop q = Ok (Some <$> remove_dups us, q') /\ order q' = [].
Proof.
  destruct (uses_order [] construct wf_empty eq_refl us) as (q & E0 & Hq & Ho). simpl in Ho.
  assert (Hpop : forall q, wf q -> exists q', st_repeat (length (order q)) pop q = Ok (Some <$> order q, q') /\ order q' = []).
  { clear. intros q. remember (order q) as l eqn:Hl. revert q Hl.
    induction l as [|e l IH]; intros q Hl Hq; [by exists q|].
    destruct (pop_order q Hq) as (q1 & E1 & Hq1 & Ho1 & _). rewrite <- Hl in E1, Ho1. simpl in E1, Ho1.
    destruct (IH q1) as (q' & E' & Ho'); [done..|]. exists q'. simpl.
    rewrite (st_bind_ok _ _ _ _ _ E1), (st_bind_ok _ _ _ _ _ E'). done. }
  destruct (Hpop q Hq) as (q' & E' & Ho'). exists q, q'. rewrite E', Ho. done.
Qed.

End Queue.
Arguments t E {_ _}.
End LRUQueue.

(** Entries 5, 6 and 7 used in the order 5, 6, 5, 7: the oldest use is that of 6. *)
Definition used567 : LRUQueue.t nat :=
  match st_iter LRUQueue.use [5; 6; 5; 7]%nat LRUQueue.construct with
  | Ok (_, q) => q
  | Throw _ => LRUQueue.construct
  end.

Lemma used567_wf : LRUQueue.wf used567.
Proof.
  destruct (LRUQueue.uses_order [] LRUQueue.construct LRUQueue.wf_empty eq_refl [5; 6; 5; 7]%nat)
    as (q & E & Hq & _). unfold used567. by rewrite E.
Qed.

Lemma lru_queue_refines_witness :
  exists q', LRUQueue.run LRUQueue.Pop used567 = Ok (Some 6%nat, q') /\ LRUQueue.wf q' /\
    LRUQueue.order q' = [5; 7]%nat.
Proof. apply (LRUQueue.lru_queue_refines LRUQueue.Pop used567 used567_wf). exact I. Defined.
