(* ===== verification/LRUEntriesMap.v ===== *)
(** The entries map with eviction (src/cppcache/src/LRUEntriesMap.cpp and .hpp, LRUAction.cpp,
    LRULocalDestroyAction.cpp):
    a concurrent entries map, the eviction queue over its entries, and the counters that
    decide when to evict.

    An entry is referred to by its segment and its address there. The persistence manager is
    the application's: its functions are parameters, [None] standing for an exception. The
    sizes of the application's objects are parameters as well. The eviction actions are the two
    that EntriesMapFactory::createMap asks for: [LRULocalDestroyAction], which destroys the entry
    through the region above the map, and [LRUOverFlowToDiskAction]. Of the region the action
    holds what [LocalRegion::destroyNoThrow] looks at ([RegionView]); that [destroyEvicted] is
    what [LocalRegion.destroyNoThrow] does to the entries map is [destroyNoThrow_evicts] in
    RegionFacts.v. The segment mutex that [put] and [get] take for the overflow
    action makes them atomic; the tracking of entries is not used with eviction here.
    Statistics and logging are left out. *)
From S2P Require Import Prelude Versions ExpiryTaskManager MapEntry MapSegment ConcurrentEntriesMap LRUQueue.

Module LRUEntriesMap.

(** What the destruction of an evicted entry depends on in the region: [rv_listener] tells for a key and its old value
    whether [afterDestroy] of the listener returns, if there is a listener. *)
Record RegionView (K V : Type) := mkView {
  rv_destroyPending : bool;
  rv_inTransaction : bool;
  rv_cachingEnabled : bool;
  rv_listener : option (K -> option (Cacheable V) -> bool)
}.
Arguments mkView {K V} _ _ _ _.
Arguments rv_destroyPending {K V} _.
Arguments rv_inTransaction {K V} _.
Arguments rv_cachingEnabled {K V} _.
Arguments rv_listener {K V} _.

Inductive LRUAction (K V : Type) :=
| LRULocalDestroyAction (region : RegionView K V)
| LRUOverFlowToDiskAction (regionDestroyed : bool).
Arguments LRULocalDestroyAction {K V} _.
Arguments LRUOverFlowToDiskAction {K V} _.

Definition overflows {K V} (a : LRUAction K V) : bool :=
  match a with LRULocalDestroyAction _ => false | LRUOverFlowToDiskAction _ => true end.

(** [m_regionPtr->destroyNoThrow(key, nullptr, -1, EVICTION | LOCAL, versionTag)] with a null tag, where [remove] is the
    [remove] of the entries map: the writer and the servers are not asked. *)
Definition destroyEvicted {K V X M} (r : RegionView K V) (remove : K -> ST M (GfErrType * option (Cacheable V) * X))
    (key : option K) : ST M GfErrType :=
  match key with
  | None => mret GF_CACHE_ILLEGAL_ARGUMENT_EXCEPTION
  | Some key =>
    if rv_destroyPending r then mret GF_CACHE_REGION_DESTROYED_EXCEPTION
    else if rv_inTransaction r then mret GF_NOTSUP
    else
      '(err, oldValue) ←
        (if rv_cachingEnabled r then '(err, oldValue, _) ← remove key; mret (err, oldValue) else mret (GF_NOERR, None));
      if decide (err = GF_CACHE_CONCURRENT_MODIFICATION_EXCEPTION) then mret GF_NOERR
      else if bool_decide (err = GF_NOERR) || bool_decide (err = GF_CACHE_ENTRY_UPDATED) then
        mret match rv_listener r with
             | None => GF_NOERR
             | Some f => if f key (if isInvalid oldValue then None else oldValue) then GF_NOERR else GF_CACHE_LISTENER_EXCEPTION
             end
      else mret err
  end.

(** The functions of a [PersistenceManager] with state [P] and persistence infos [I]. *)
Record PersistenceManager (K V P I : Type) := mkPM {
  pm_write : K -> Cacheable V -> option I -> P -> option (option I * P);
  pm_read : K -> option I -> P -> option (option (Cacheable V));
  pm_destroy : K -> option I -> P -> option P
}.
Arguments mkPM {K V P I} _ _ _.
Arguments pm_write {K V P I} _ _ _ _ _.
Arguments pm_read {K V P I} _ _ _ _.
Arguments pm_destroy {K V P I} _ _ _ _.

Record t (K V P I : Type) `{Countable K} := mk {
  base : ConcurrentEntriesMap.t K V;
  lru_queue_ : LRUQueue.t (nat * nat);
  persistence_info_ : gmap (nat * nat) I;  (** [LRUEntryProperties::persistence_info_] *)
  m_pmPtr : option P;
  m_limit : Z;
  m_action : option (LRUAction K V);
  m_heapLRUEnabled : bool;
  m_validEntries : Z;
  m_currentMapSize : Z;
  heap_size_ : option Z   (** of the eviction controller, if there is one *)
}.
Arguments mk {K V P I _ _} _ _ _ _ _ _ _ _ _ _.
Arguments base {K V P I _ _} _.
Arguments lru_queue_ {K V P I _ _} _.
Arguments persistence_info_ {K V P I _ _} _.
Arguments m_pmPtr {K V P I _ _} _.
Arguments m_limit {K V P I _ _} _.
Arguments m_action {K V P I _ _} _.
Arguments m_heapLRUEnabled {K V P I _ _} _.
Arguments m_validEntries {K V P I _ _} _.
Arguments m_currentMapSize {K V P I _ _} _.
Arguments heap_size_ {K V P I _ _} _.

Section Map.
Context {K V D P I : Type} `{Countable K}.
Abbreviation value := (option (Cacheable V)).
Abbreviation T := (t K V P I).
Abbreviation Entry := (nat * nat)%type.
Context (hashcode : K -> Z) (pm : PersistenceManager K V P I).
Context (keySize : K -> Z) (valueSize : V -> Z).
Context (cloningEnabled : bool).
Context (isDelta : V -> bool) (clone : V -> V) (fromDelta : D -> V -> V * bool).

(** *** Access to the parts *)

Definition with_base (b : ConcurrentEntriesMap.t K V) (m : T) : T :=
  mk b (lru_queue_ m) (persistence_info_ m) (m_pmPtr m) (m_limit m) (m_action m) (m_heapLRUEnabled m)
     (m_validEntries m) (m_currentMapSize m) (heap_size_ m).
Definition with_queue (q : LRUQueue.t Entry) (m : T) : T :=
  mk (base m) q (persistence_info_ m) (m_pmPtr m) (m_limit m) (m_action m) (m_heapLRUEnabled m)
     (m_validEntries m) (m_currentMapSize m) (heap_size_ m).
Definition with_disk (i : gmap Entry I) (p : option P) (m : T) : T :=
  mk (base m) (lru_queue_ m) i p (m_limit m) (m_action m) (m_heapLRUEnabled m)
     (m_validEntries m) (m_currentMapSize m) (heap_size_ m).
Definition with_valid (n : Z) (m : T) : T :=
  mk (base m) (lru_queue_ m) (persistence_info_ m) (m_pmPtr m) (m_limit m) (m_action m) (m_heapLRUEnabled m)
     n (m_currentMapSize m) (heap_size_ m).
Definition with_sizes (n : Z) (h : option Z) (m : T) : T :=
  mk (base m) (lru_queue_ m) (persistence_info_ m) (m_pmPtr m) (m_limit m) (m_action m) (m_heapLRUEnabled m)
     (m_validEntries m) n h.

Definition on_base {A} (f : ST (ConcurrentEntriesMap.t K V) A) : ST T A := fun m =>
  match f (base m) with Ok (a, b) => Ok (a, with_base b m) | Throw e => Throw e end.
Definition on_queue {A} (f : ST (LRUQueue.t Entry) A) : ST T A := fun m =>
  match f (lru_queue_ m) with Ok (a, q) => Ok (a, with_queue q m) | Throw e => Throw e end.

(** [m_validEntries += n] and [m_size += n]. *)
Definition add_valid (n : Z) : ST T unit := st_modify (fun m => with_valid (u32 (m_validEntries m + n)) m).
Definition add_size (n : Z) : ST T unit := on_base (ConcurrentEntriesMap.set_size (fun s => s + n)).

Definition segmentIdx (key : K) (m : T) : nat := ConcurrentEntriesMap.segmentIdx hashcode (base m) key.
Definition segmentFor {A} (key : K) (f : ST (Segment K V) A) : ST T A :=
  on_base (ConcurrentEntriesMap.segmentFor hashcode key f).
(** An operation on an entry. *)
Definition on_entry {A} (e : Entry) (f : nat -> ST (Segment K V) A) : ST T A :=
  on_base (ConcurrentEntriesMap.on_segment e.1 (f e.2)).

(** Reads that fail are logged and give null. No value is overflowed, and nothing is read,
    before a persistence manager was set. *)
Definition getFromDisk (m : T) (key : K) (me : nat) : value :=
  match m_pmPtr m with
  | None => None
  | Some p =>
    match pm_read pm key (persistence_info_ m !! (segmentIdx key m, me)) p with Some v => v | None => None end
  end.

Definition isToken (v : value) : bool :=
  isInvalid v || isDestroyed v || isOverflowed v || isTombstone v.

(** [sizeof] of the token's enumeration, or what the object says. *)
Definition tokenSize : Z := 4.
Definition objectSize (v : value) : ST T Z :=
  match v with
  | None => st_throw UndefinedBehaviour
  | Some (Obj o) => mret (valueSize o)
  | Some _ => mret tokenSize
  end.
(** What is subtracted for an old value, which may be null ([sizeof(void* )]). *)
Definition oldSize (v : value) : ST T Z := match v with None => mret 8 | Some _ => objectSize v end.

Definition updateMapSize (size : Z) : ST T unit := st_modify (fun m =>
  match heap_size_ m with
  | None => m
  | Some h => with_sizes (s64 (m_currentMapSize m + size)) (Some (s64 (h + size))) m
  end).
Definition has_controller : ST T bool :=
  st_gets (fun m => match heap_size_ m with Some _ => true | None => false end).

(** [read] the value of an overflowed entry, and [destroy] it on disk if there is one. *)
Definition readBack (key : K) (e : Entry) : ST T value :=
  m ← st_get;
  match m_pmPtr m with
  | None => st_throw UndefinedBehaviour
  | Some p =>
    match pm_read pm key (persistence_info_ m !! e) p with
    | None => st_throw PersistenceException
    | Some None => mret None
    | Some (Some v) =>
      match pm_destroy pm key (persistence_info_ m !! e) p with
      | None => st_throw PersistenceException
      | Some p' => st_modify (with_disk (persistence_info_ m) (Some p'));; mret (Some v)
      end
    end
  end.

(** *** Removal *)

Definition remove (key : K) (result : value) (me : option nat) (updateCount : Z)
    (versionTag : option VersionTag.t) (afterRemote : bool) : ST T (GfErrType * value * option nat) :=
  m ← st_get;
  '(err, result, me, isEntryFound) ←
    segmentFor key (MapSegment.remove (getFromDisk m) cloningEnabled isDelta clone fromDelta
                      key result me updateCount versionTag afterRemote true);
  match result, me with
  | Some _, Some p =>
    if decide (err = GF_NOERR) then
      let e := (segmentIdx key m, p) in
      on_queue (LRUQueue.remove e);;
      (if isEntryFound : bool then add_size (-1) else mret tt);;
      (if isToken result then mret tt else add_valid (-1));;
      result ← (if isOverflowed result then readBack key e else mret result);
      c ← has_controller;
      (if c : bool then
         n ← objectSize result;
         updateMapSize (s64 (- s64 (keySize key + n)))
       else mret tt);;
      mret (err, result, me)
    else mret (err, result, me)
  | _, _ => mret (err, result, me)
  end.

(** *** Eviction *)

(** [LRUAction::evict]. *)
Definition evict (a : LRUAction K V) (e : Entry) : ST T bool :=
  match a with
  | LRULocalDestroyAction region =>
    key ← on_entry e getKeyI;
    err ← destroyEvicted region (fun key => remove key None None (-1) None false) key;
    mret (bool_decide (err = GF_NOERR))
  | LRUOverFlowToDiskAction true => mret false
  | LRUOverFlowToDiskAction false =>
    key ← on_entry e getKeyI;
    v ← on_entry e getValueI;
    match v with
    | None => st_throw FatalInternalException
    | Some v =>
      m ← st_get;
      key ← non_null key;
      p ← non_null (m_pmPtr m);
      match pm_write pm key v (persistence_info_ m !! e) p with
      | None => mret false
      | Some (info, p') =>
        let infos := match persistence_info_ m !! e with
                     | Some _ => persistence_info_ m
                     | None => match info with Some i => <[e := i]> (persistence_info_ m) | None => persistence_info_ m end
                     end in
        st_modify (with_disk infos (Some p'));;
        on_entry e (fun me => setValueI me (Some OverflowedToken));;
        n ← objectSize (Some v);
        updateMapSize (s64 (tokenSize - n));;
        mret true
      end
    end
  end.

Definition evictionHelper : ST T GfErrType :=
  entry ← on_queue LRUQueue.pop;
  match entry with
  | None => mret GF_ENOENT
  | Some entry =>
    m ← st_get;
    a ← non_null (m_action m);
    IsEvictDone ← evict a entry;
    (if overflows a && IsEvictDone then add_valid (-1) else mret tt);;
    mret (if IsEvictDone : bool then GF_NOERR else GF_DISKFULL)
  end.

Definition mustEvict (m : T) : bool :=
  match m_action m with
  | None => false
  | Some a =>
    if overflows a then m_limit m <? m_validEntries m
    else if m_heapLRUEnabled m && (m_limit m =? 0) then false
    else m_limit m <? ConcurrentEntriesMap.size (base m)
  end.

(** [while (canEvict == GF_NOERR && mustEvict())]. *)
Fixpoint processLRU_loop (fuel : nat) (canEvict : GfErrType) : ST T GfErrType := fun m =>
  if bool_decide (canEvict = GF_NOERR) && mustEvict m then
    match fuel with
    | O => Throw Diverges
    | S fuel' => (canEvict ← evictionHelper; processLRU_loop fuel' canEvict) m
    end
  else Ok (canEvict, m).

(** Every iteration takes an entry from the queue or stops. *)
Definition processLRU : ST T GfErrType := fun m =>
  processLRU_loop (S (length (LRUQueue.container_ (lru_queue_ m)))) GF_NOERR m.

(** [processLRU(numEntriesToEvict)], of the heap eviction. *)
Fixpoint processLRU_n (numEntriesToEvict : nat) : ST T unit :=
  match numEntriesToEvict with
  | O => mret tt
  | S n =>
    m ← st_get;
    if (0 <? m_validEntries m) && (0 <? ConcurrentEntriesMap.size (base m))
    then evictionHelper;; processLRU_n n
    else mret tt
  end.

(** *** The operations of the map *)

(** The constructor; [action] is what [newLRUAction] makes for the region (null for an invalid action),
    [controller] is the heap size of the eviction controller. *)
Definition construct (action : option (LRUAction K V)) (limit : Z) (concurrencyChecksEnabled : bool)
    (concurrency : Z) (heapLRUEnabled : bool) (controller : option Z) (e : Env) : outcome T :=
  b ← ConcurrentEntriesMap.construct concurrencyChecksEnabled concurrency e;
  Ok (mk b LRUQueue.construct ∅ None limit action heapLRUEnabled 0 0 controller).

Definition open (initialCapacity : Z) (m : T) : outcome T :=
  b ← ConcurrentEntriesMap.open initialCapacity (base m); Ok (with_base b m).

Definition setPersistenceManager (p : P) : ST T unit :=
  st_modify (fun m => with_disk (persistence_info_ m) (Some p) m).

Definition adjustLimit (limit : Z) : ST T unit := st_modify (fun m =>
  mk (base m) (lru_queue_ m) (persistence_info_ m) (m_pmPtr m) limit (m_action m) (m_heapLRUEnabled m)
     (m_validEntries m) (m_currentMapSize m) (heap_size_ m)).

Definition validEntriesSize (m : T) : Z := m_validEntries m.

(** Closing a segment does nothing. *)
Definition close : ST T unit := st_modify (fun m =>
  match heap_size_ m with
  | None => m
  | Some h => with_sizes (m_currentMapSize m) (Some (s64 (h - m_currentMapSize m))) m
  end).

(** The queue and [m_validEntries] are left as they are. *)
Definition clear : ST T unit :=
  m ← st_get;
  updateMapSize (s64 (- m_currentMapSize m));;
  on_base ConcurrentEntriesMap.clear.

(** [getEntry] of the segment, and the entry is queued: [None] if there is none. *)
Definition enqueue (key : K) : ST T (option nat) :=
  '(_, mePtr, _) ← segmentFor key (MapSegment.getEntry key);
  m ← st_get;
  match mePtr with
  | None => mret None
  | Some p => on_queue (LRUQueue.push (segmentIdx key m, p));; mret (Some p)
  end.

Definition create (key : K) (newValue : value) (me : option nat) (oldValue : value)
    (updateCount destroyTracker : Z) (versionTag : option VersionTag.t)
    : ST T (GfErrType * option nat * value) :=
  m ← st_get;
  '(err, me, oldValue) ←
    segmentFor key (MapSegment.create (getFromDisk m) cloningEnabled isDelta clone fromDelta
                      key newValue me oldValue updateCount destroyTracker versionTag);
  if negb (bool_decide (err = GF_NOERR)) then mret (err, me, oldValue)
  else
    (if isToken newValue then mret tt else add_valid 1);;
    (if isInvalid oldValue then mret tt else add_size 1);;
    mePtr ← enqueue key;
    match mePtr with
    | None => mret (err, me, oldValue)
    | Some p =>
      c ← has_controller;
      (if c : bool then
         n ← objectSize newValue;
         o ← oldSize oldValue;
         updateMapSize (s64 (n + keySize key - o))
       else mret tt);;
      err ← processLRU;
      mret (err, Some p, oldValue)
    end.

Definition put (key : K) (newValue : value) (me : option nat) (oldValue : value)
    (updateCount destroyTracker : Z) (versionTag : option VersionTag.t) (isUpdate : bool) (delta : option D)
    : ST T (GfErrType * option nat * value * bool * value) :=
  m ← st_get;
  '(err, me, oldValue, isUpdate, newValue) ←
    segmentFor key (MapSegment.put (getFromDisk m) cloningEnabled isDelta clone fromDelta
                      key newValue me oldValue updateCount destroyTracker isUpdate versionTag delta);
  if negb (bool_decide (err = GF_NOERR)) then mret (err, me, oldValue, isUpdate, newValue)
  else
    let isOldValueToken := isToken oldValue in
    oldValue ←
      (if isOverflowed oldValue then
         (** [unlock] of a mutex that is not locked, unless the action overflows *)
         match m_action m with
         | Some (LRUOverFlowToDiskAction _) => p ← non_null me; readBack key (segmentIdx key m, p)
         | _ => st_throw UndefinedBehaviour
         end
       else mret oldValue);
    (if isToken newValue && negb isOldValueToken then add_valid (-1) else mret tt);;
    (if negb (isToken newValue) && isOldValueToken then add_valid 1 else mret tt);;
    me ←
      (if negb isUpdate then
         add_size 1;; add_valid 1;;
         p ← enqueue key; p ← non_null p; mret (Some p)
       else if negb (isToken newValue) && isOldValueToken then
         p ← enqueue key; p ← non_null p; mret (Some p)
       else mret me);
    c ← has_controller;
    (if c : bool then
       n ← objectSize newValue;
       n ← (if negb isUpdate then mret (n + keySize key) else o ← oldSize oldValue; mret (n - o));
       updateMapSize (s64 n)
     else mret tt);;
    err ← processLRU;
    mret (err, me, oldValue, isUpdate, newValue).

Definition invalidate (key : K) (me : option nat) (oldValue : value) (versionTag : option VersionTag.t)
    : ST T (GfErrType * option nat * value) :=
  m ← st_get;
  '(err, me, oldValue, isTokenAdded) ← segmentFor key (MapSegment.invalidate key me oldValue versionTag);
  (if isTokenAdded : bool then add_size 1 else mret tt);;
  if negb (bool_decide (err = GF_NOERR)) then mret (err, me, oldValue)
  else
    let isOldValueToken := isToken oldValue in
    oldValue ←
      (if isOverflowed oldValue then p ← non_null me; readBack key (segmentIdx key m, p) else mret oldValue);
    (if negb isOldValueToken then
       add_valid (-1);;
       p ← non_null me;
       on_queue (LRUQueue.remove (segmentIdx key m, p));;
       o ← oldSize oldValue;
       let newSize := u64 (tokenSize - o) in
       if negb (newSize =? 0) then updateMapSize (s64 newSize) else mret tt
     else mret tt);;
    mret (err, me, oldValue).

(** Returns the result, [value] and [me]. *)
Definition get (key : K) (me : option nat) : ST T (bool * value * option nat) :=
  '(found, map_entry, v) ← segmentFor key (MapSegment.getEntry key);
  if negb found then mret (false, v, me)
  else
    p ← non_null map_entry;
    m ← st_get;
    let e := (segmentIdx key m, p) in
    if isOverflowed v then
      d ← non_null (m_pmPtr m);
      match pm_read pm key (persistence_info_ m !! e) d with
      | None => mret (false, v, me)
      | Some v =>
        '(err, map_entry, _, _, _) ←
          segmentFor key (MapSegment.put (getFromDisk m) cloningEnabled isDelta clone fromDelta
                            key v (Some p) None 0 0 false None None);
        if negb (bool_decide (err = GF_NOERR)) then mret (false, v, me)
        else
          p ← non_null map_entry;
          add_valid 1;;
          on_queue (LRUQueue.push (segmentIdx key m, p));;
          c ← has_controller;
          (if c : bool then
             n ← match v with None => mret 8 | Some _ => n ← objectSize v; mret (n - tokenSize) end;
             updateMapSize (s64 n)
           else mret tt);;
          err ← processLRU;
          mret (bool_decide (err = GF_NOERR), v, map_entry)
      end
    else
      on_queue (LRUQueue.move_to_end e);;
      mret (true, v, Some p).
End Map.
End LRUEntriesMap.
