(* ===== verification/LRUFacts.v ===== *)
(** The entries map with eviction as a bounded cache: with concurrency checks and the action
    that destroys entries through the region, it is an abstract versioned map together with a sequence of its
    live keys ordered by recency, and it evicts from the front of the sequence. *)
From S2P Require Import Prelude Versions VersionFacts ExpiryTaskManager MapEntry MapSegment SegmentFacts SegmentRefinement SegmentClaims ConcurrentEntriesMap EntriesMapFacts LRUQueue LRUEntriesMap.
Import SegmentExamples.

(** *** What the operations of a segment do to the entries of its keys *)

Section Segment.
Context {K V D : Type} `{Countable K}.
Abbreviation S := (Segment K V).
Abbreviation value := (option (Cacheable V)).
Context (getFromDisk : K -> nat -> value) (cloningEnabled : bool).
Context (isDelta : V -> bool) (clone : V -> V) (fromDelta : D -> V -> V * bool).
Implicit Types (k : K) (s : S) (w : VersionStamp.t).

Definition keeps_others k s s' : Prop := forall k', k' <> k -> m_map s' !! k' = m_map s !! k'.

Definition visible_key k s : Prop := forall v w, lookup_abs s k = Some (v, w) -> proper_value v.

Lemma rehash_next s s1 : rehash_if_full s = Ok (tt, s1) -> next_ptr s1 = next_ptr s.
Proof.
  unfold rehash_if_full, rehash, mbind, ST_bind, st_get, st_lift, st_modify.
  repeat (case_match; simplify_eq); by intros [= <-].
Qed.

Lemma keeps_new k v w s : keeps_others k s (new_entry k v w s).
Proof. intros k' Hk. simpl. by rewrite lookup_insert_ne. Qed.

Lemma keeps_replace k v w s : keeps_others k s (new_entry k v w (with_map (delete k) (untomb true k s))).
Proof. intros k' Hk. simpl. rewrite lookup_insert_ne, lookup_delete_ne, untomb_map; done. Qed.

Lemma untomb_next c k s : next_ptr (untomb c k s) = next_ptr s.
Proof. apply untomb_frame. Qed.

(** [put] binds a key that was absent or a tombstone to a new entry and keeps the entry of a
    live key; it returns that entry. *)
Lemma put_ptrs uc dt k v tag s err me old upd nv s' :
  seg_inv s -> small s -> visible_key k s ->
  put getFromDisk cloningEnabled isDelta clone fromDelta k v None None uc dt false tag None s
    = Ok ((err, me, old, upd, nv), s') ->
  keeps_others k s s' /\ nv = v /\
  (err <> GF_NOERR -> m_map s' = m_map s) /\
  (err = GF_NOERR -> if upd : bool then m_map s' = m_map s else m_map s' !! k = Some (PImpl (next_ptr s))).
Proof.
  intros Hi0 Hs0 Hv0. destruct (rehash_ok s Hi0 Hs0) as (s1 & Hr & Hi & Hm1 & _ & Hl & _).
  pose proof (rehash_next _ _ Hr) as Hn. unfold put, mbind, ST_bind. rewrite Hr. unfold st_get. rewrite <- Hn.
  unfold keeps_others. setoid_rewrite <- Hm1.
  destruct (key_cases s1 _ k Hi (abs_of_rel s1)) as [[Hm Hk]|(p & v0 & w & Hm & He & Hk)]; rewrite Hm.
  - rewrite putNoEntry_eq by (done || apply Hi). intros [= <- <- <- <- <- <-].
    split_and!; [apply keeps_new|done|done|]. intros _. simpl. by rewrite lookup_insert_eq.
  - rewrite (getImplPtr_entry _ _ _ _ _ He), (getValueI_entry _ _ _ _ _ He), (stamp_for_eq _ _ _ _ _ _ _ (inv_cc Hi) He).
    assert (Hv : visible v0 <> None).
    { apply (Hv0 v0 w). rewrite <- Hl. by apply (lookup_abs_entry s1 k p). }
    destruct (next_stamp _ tag false w) as [[e w']|e]; [|done].
    destruct (decide (e = GF_NOERR)) as [->|Hne].
    + rewrite bool_decide_eq_true_2 by done. cbn [negb]. destruct (isTombstone (visible v0)) eqn:Et.
      * rewrite (remove_entry_eq None), putNoEntry_dropped by done. intros [= <- <- <- <- <- <-].
        split_and!; [apply keeps_replace|done|done|]. intros _. simpl. rewrite untomb_next. by rewrite lookup_insert_eq.
      * rewrite (putForTrackedEntry_eq _ _ _ _ _ true k p v0 w v w' uc s1 Hi He). rewrite decide_True by done.
        intros [= <- <- <- <- <- <-]. assert (Hmm : m_map (set_entry p k v w' (untomb true k s1)) = m_map s1).
        { simpl. apply untomb_map. }
        split_and!; [intros k' _; by rewrite Hmm|done|done|]. intros _. destruct (visible v0); done.
    + rewrite bool_decide_eq_false_2 by done. intros [= <- <- <- <- <- <-]. split_and!; done.
Qed.

Lemma create_ptrs uc dt k v tag s err me old s' :
  seg_inv s -> small s -> visible_key k s ->
  create getFromDisk cloningEnabled isDelta clone fromDelta k v None None uc dt tag s = Ok ((err, me, old), s') ->
  keeps_others k s s' /\ (err <> GF_NOERR -> m_map s' = m_map s) /\
  (err = GF_NOERR -> m_map s' !! k = Some (PImpl (next_ptr s))).
Proof.
  intros Hi0 Hs0 Hv0. destruct (rehash_ok s Hi0 Hs0) as (s1 & Hr & Hi & Hm1 & _ & Hl & _).
  pose proof (rehash_next _ _ Hr) as Hn. unfold create, mbind, ST_bind. rewrite Hr. unfold st_get. rewrite <- Hn.
  unfold keeps_others. setoid_rewrite <- Hm1.
  destruct (key_cases s1 _ k Hi (abs_of_rel s1)) as [[Hm Hk]|(p & v0 & w & Hm & He & Hk)]; rewrite Hm.
  - rewrite putNoEntry_eq by (done || apply Hi). intros [= <- <- <- <-].
    split_and!; [apply keeps_new|done|]. intros _. simpl. by rewrite lookup_insert_eq.
  - rewrite (getImplPtr_entry _ _ _ _ _ He), (getValueI_entry _ _ _ _ _ He).
    assert (Hv : visible v0 <> None).
    { apply (Hv0 v0 w). rewrite <- Hl. by apply (lookup_abs_entry s1 k p). }
    destruct (visible v0) as [v1|] eqn:Ev; [|done]. cbn [orb].
    destruct (isTombstone (Some v1)); [|by intros [= <- <- <- <-]].
    rewrite (stamp_for_eq _ _ _ _ _ _ _ (inv_cc Hi) He).
    destruct (next_stamp _ tag false w) as [[e w']|e]; [|done].
    destruct (decide (e = GF_NOERR)) as [->|Hne].
    + rewrite bool_decide_eq_true_2 by done. cbn [negb].
      rewrite (remove_entry_eq None), putNoEntry_dropped by done. intros [= <- <- <- <-].
      split_and!; [apply keeps_replace|done|]. intros _. simpl. rewrite untomb_next. by rewrite lookup_insert_eq.
    + rewrite bool_decide_eq_false_2 by done. intros [= <- <- <- <-]. split_and!; done.
Qed.

(** [remove] keeps the entry of a key that is there, and returns it with its value. *)
Lemma remove_ptrs uc k tag rem s err old me found s' :
  seg_inv s ->
  remove getFromDisk cloningEnabled isDelta clone fromDelta k None None uc tag rem true s
    = Ok ((err, old, me, found), s') ->
  keeps_others k s s' /\ (m_map s !! k <> None -> m_map s' = m_map s) /\
  (old <> None -> found = true /\ exists p, m_map s !! k = Some (PImpl p) /\ me = Some p).
Proof.
  intros Hi. unfold remove, removeWhenConcurrencyEnabled, mbind, ST_bind, st_get. rewrite (inv_cc Hi).
  destruct (key_cases s _ k Hi (abs_of_rel s)) as [[Hm Hk]|(p & v0 & w & Hm & He & Hk)]; rewrite Hm.
  - destruct tag as [t|]; [|by intros [= <- <- <- <- <-]].
    rewrite putNoEntry_eq by (done || apply Hi). cbn [non_null].
    pose proof (entry_is_new k (Some TombstoneToken) (VersionStamp.setVersions t) s) as He.
    unfold mret at 1, ST_ret at 1. pose proof (getImplPtr_entry _ _ _ _ _ He) as Hg. simpl in Hg. rewrite Hg.
    destruct (tombstones_add_entry _ _ _ _ _ He) as [id ->]. intros [= <- <- <- <- <-]. split_and!; [|done..].
    intros k' Hk'. unfold entomb. destruct (ExpiryTaskManager.schedule _ _). by apply keeps_new.
  - rewrite (getVersionStamp_entry _ _ _ _ _ He), (remove_stamp_eq _ _ _ _ _ _ He).
    destruct (next_stamp _ tag false w) as [[e w']|e]; [|done].
    destruct (decide (e = GF_NOERR)) as [->|Hne]; cycle 1.
    { rewrite bool_decide_eq_false_2 by done. cbn [negb]. by intros [= <- <- <- <- <-]. }
    rewrite bool_decide_eq_true_2 by done. cbn [negb].
    rewrite (getImplPtr_entry _ _ _ _ _ He), (getValueI_entry _ _ _ _ _ He).
    rewrite (putForTrackedEntry_eq _ _ _ _ _ false k p v0 w _ w' uc s Hi He). rewrite decide_True by done.
    destruct (tombstones_add_entry (set_entry p k (Some TombstoneToken) w' (untomb true k s)) k p _ _
                (entry_is_set _ _ _ _ _)) as [id ->].
    assert (Hmm : m_map (entomb p k (set_entry p k (Some TombstoneToken) w' (untomb true k s))) = m_map s).
    { unfold entomb. destruct (ExpiryTaskManager.schedule _ _). apply untomb_map. }
    destruct (isTombstone (visible v0)); intros [= <- <- <- <- <-];
      (split_and!; [intros k' _; by rewrite Hmm|done|]); [done|].
    intros Hv. split; [done|]. exists p. by destruct (visible v0).
Qed.

Lemma getEntry_live k p (o : V) w s :
  m_map s !! k = Some (PImpl p) -> entry_is s k p (Some (Obj o)) w ->
  getEntry k s = Ok ((true, Some p, Some (Obj o)), s).
Proof.
  intros Hm He. unfold getEntry, mbind, ST_bind, st_get.
  by rewrite Hm, (getImplPtr_entry _ _ _ _ _ He), (getValueI_entry _ _ _ _ _ He).
Qed.

Lemma getEntry_dead k s :
  seg_inv s -> is_live (lookup_abs s k) = false -> getEntry k s = Ok ((false, None, None), s).
Proof.
  intros Hi Hl. unfold getEntry, mbind, ST_bind, st_get.
  destruct (key_cases s _ k Hi (abs_of_rel s)) as [[Hm _]|(p & v & w & Hm & He & _)]; rewrite Hm; [done|].
  rewrite (lookup_abs_entry s k p v w Hm He) in Hl.
  rewrite (getImplPtr_entry _ _ _ _ _ He), (getValueI_entry _ _ _ _ _ He). by destruct v as [[]|].
Qed.
End Segment.

(** *** The same at the level of the map *)

Section Base.
Context {K V D : Type} `{Countable K}.
Abbreviation B := (ConcurrentEntriesMap.t K V).
Abbreviation value := (option (Cacheable V)).
Abbreviation amap := (gmap K (value * VersionStamp.t)).
Context (hashcode : K -> Z).
Abbreviation idx := (ConcurrentEntriesMap.segmentIdx hashcode).
Implicit Types (b : ConcurrentEntriesMap.t K V) (k : K) (a : gmap K (option (Cacheable V) * VersionStamp.t)).

(** The entry a key is bound to in a segment, and in the map. *)
Definition seg_ptr (s : Segment K V) k : option nat :=
  match m_map s !! k with Some (PImpl p) => Some p | _ => None end.
Definition ptr_of b k : option nat :=
  match ConcurrentEntriesMap.m_segments b !! idx b k with Some s => seg_ptr s k | None => None end.

(** A change of the map at one key, which gets the value and stamp [x] and the entry [p]. *)
Record on_key b b' k (x : option (value * VersionStamp.t)) (p : option nat) : Prop := {
  ok_inv : map_inv b';
  ok_conc : ConcurrentEntriesMap.m_concurrency b' = ConcurrentEntriesMap.m_concurrency b;
  ok_lookup : forall k', lookup_map hashcode b' k' = if decide (k' = k) then x else lookup_map hashcode b k';
  ok_ptr : forall k', ptr_of b' k' = if decide (k' = k) then p else ptr_of b k';
  ok_size : ConcurrentEntriesMap.m_size b' = ConcurrentEntriesMap.m_size b
}.

Lemma idx_conc b b' k : ConcurrentEntriesMap.m_concurrency b' = ConcurrentEntriesMap.m_concurrency b ->
  idx b' k = idx b k.
Proof. unfold ConcurrentEntriesMap.segmentIdx. by intros ->. Qed.

Lemma lift_key {A} b k s (f : ST (Segment K V) A) r s' :
  map_inv b -> ConcurrentEntriesMap.m_segments b !! idx b k = Some s ->
  f (with_env (ConcurrentEntriesMap.shared b) s) = Ok (r, s') -> seg_inv s' ->
  (forall k', k' <> k -> lookup_abs s' k' = lookup_abs s k') -> keeps_others k s s' ->
  exists b', ConcurrentEntriesMap.segmentFor hashcode k f b = Ok (r, b') /\
    on_key b b' k (lookup_abs s' k) (seg_ptr s' k).
Proof.
  intros Hi Hs E Hi' Hl Hp. exists (updated b (idx b k) s' 0). split.
  { unfold ConcurrentEntriesMap.segmentFor, ConcurrentEntriesMap.on_segment. by rewrite Hs, E. }
  assert (Hother : forall k', k' <> k -> seg_ptr s' k' = seg_ptr s k').
  { intros k' Hk. unfold seg_ptr. by rewrite Hp. }
  assert (Hseg : forall k', ConcurrentEntriesMap.m_segments (updated b (idx b k) s' 0) !! idx b k' =
    if decide (idx b k' = idx b k) then Some s' else ConcurrentEntriesMap.m_segments b !! idx b k').
  { intros k'. simpl. case_decide as Hd.
    - rewrite Hd, list_lookup_insert_eq; [done|]. by apply lookup_lt_Some in Hs.
    - by rewrite list_lookup_insert_ne. }
  constructor; [by apply updated_inv|done| | |done].
  - intros k'. unfold lookup_map. rewrite (idx_conc b) by done. rewrite Hseg.
    destruct (decide (k' = k)) as [->|Hne]; [by rewrite decide_True|].
    case_decide as Hd; [|done]. rewrite Hd, Hs. by apply Hl.
  - intros k'. unfold ptr_of. rewrite (idx_conc b) by done. rewrite Hseg.
    destruct (decide (k' = k)) as [->|Hne]; [by rewrite decide_True|].
    case_decide as Hd; [|done]. rewrite Hd, Hs. by apply Hother.
Qed.

Lemma on_key_rel b b' k x p a a1 :
  map_rel hashcode b a -> on_key b b' k x p -> x = a1 !! k -> (forall k', k' <> k -> a1 !! k' = a !! k') ->
  map_rel hashcode b' a1.
Proof.
  intros Ha Ho -> Hf k'. rewrite (ok_lookup _ _ _ _ _ Ho). case_decide as Hd; [by rewrite Hd|].
  by rewrite Ha, Hf.
Qed.

Context (getFromDisk : K -> nat -> value) (cloningEnabled : bool).
Context (isDelta : V -> bool) (clone : V -> V) (fromDelta : D -> V -> V * bool).

Lemma seg_step uc dt (o : @op K V) b a s :
  map_inv b -> map_rel hashcode b a ->
  ConcurrentEntriesMap.m_segments b !! idx b (op_key o) = Some s ->
  (let s0 := with_env (ConcurrentEntriesMap.shared b) s in
   refines (spec_op (memberList (ConcurrentEntriesMap.shared b)) o (abs_of s0))
     (run_op getFromDisk cloningEnabled isDelta clone fromDelta uc dt o s0)) ->
  match spec_op (memberList (ConcurrentEntriesMap.shared b)) o a with
  | Ok (r, a1) =>
    exists s', run_op getFromDisk cloningEnabled isDelta clone fromDelta uc dt o
                 (with_env (ConcurrentEntriesMap.shared b) s) = Ok (r, s') /\
      seg_inv s' /\ lookup_abs s' (op_key o) = a1 !! op_key o /\
      (forall k', k' <> op_key o -> lookup_abs s' k' = lookup_abs s k') /\
      (forall k', k' <> op_key o -> a1 !! k' = a !! k')
  | Throw e => run_op getFromDisk cloningEnabled isDelta clone fromDelta uc dt o
                 (with_env (ConcurrentEntriesMap.shared b) s) = Throw e
  end.
Proof.
  intros Hi Ha Hs Href. cbv zeta in Href.
  pose proof (inv_with_env (ConcurrentEntriesMap.shared b) s (mi_segments b Hi _ _ Hs)) as His.
  assert (Hk : abs_of (with_env (ConcurrentEntriesMap.shared b) s) !! op_key o = a !! op_key o).
  { rewrite <- (abs_of_rel _ (op_key o)), <- (Ha (op_key o)). unfold lookup_map. by rewrite Hs. }
  destruct (spec_op _ o a) as [[r a1]|e] eqn:Es.
  - pose proof (local_spec_sound _ _ _ _ _ Es) as [Hl Hf]. rewrite spec_op_local, Hk, Hl in Href. simpl in Href.
    destruct Href as (s' & E & His' & Has'). exists s'. rewrite spec_op_local, Hl in Es. simpl in Es.
    split_and!; [done|done| | |done].
    + rewrite (Has' (op_key o)). unfold set_key. destruct (a1 !! op_key o) eqn:E1; [by rewrite lookup_insert_eq|].
      rewrite Hk. injection Es as <-. unfold set_key in E1. done.
    + intros k' Hk'. rewrite (Has' k'). unfold set_key. destruct (a1 !! op_key o); [rewrite lookup_insert_ne by done|];
        by rewrite <- (abs_of_rel _ k').
  - rewrite spec_op_local in Href, Es. rewrite Hk in Href. unfold mbind, outcome_bind in Href, Es.
    destruct (local_spec _ o (a !! op_key o)) as [[]|]; [done|]. simplify_eq. done.
Qed.

Definition fresh_for b k (p : nat) : Prop := forall k', idx b k' = idx b k -> ptr_of b k' <> Some p.

Lemma fresh_next b k s : map_inv b -> ConcurrentEntriesMap.m_segments b !! idx b k = Some s ->
  fresh_for b k (next_ptr s).
Proof.
  intros Hi Hs k' Hk'. unfold ptr_of, seg_ptr. rewrite Hk', Hs.
  destruct (m_map s !! k') as [[p|p]|] eqn:E; try done. intros [= ->].
  pose proof (inv_bound None s k' _ (mi_segments b Hi _ _ Hs) E). lia.
Qed.

Lemma visible_seg b a k s : map_rel hashcode b a -> proper a ->
  ConcurrentEntriesMap.m_segments b !! idx b k = Some s -> visible_key k s.
Proof.
  intros Ha Hp Hs v w Hl. apply (Hp k v w). rewrite <- (Ha k). unfold lookup_map. by rewrite Hs.
Qed.

Lemma ptr_of_seg b k s : ConcurrentEntriesMap.m_segments b !! idx b k = Some s -> ptr_of b k = seg_ptr s k.
Proof. unfold ptr_of. by intros ->. Qed.

Abbreviation ml b := (memberList (ConcurrentEntriesMap.shared b)).

Lemma base_put uc dt k v tag b a :
  map_inv b -> map_small b -> map_rel hashcode b a -> proper a -> v <> Some TombstoneToken ->
  match spec_op (ml b) (OpPut k v tag) a with
  | Ok ((err, old, upd), a1) => exists b' me p,
    ConcurrentEntriesMap.segmentFor hashcode k
      (put getFromDisk cloningEnabled isDelta clone fromDelta k v None None uc dt false tag None) b
      = Ok ((err, me, old, upd, v), b') /\
    on_key b b' k (a1 !! k) p /\ (forall k', k' <> k -> a1 !! k' = a !! k') /\
    if bool_decide (err = GF_NOERR) && negb upd then exists n, p = Some n /\ fresh_for b k n else p = ptr_of b k
  | Throw e => ConcurrentEntriesMap.segmentFor hashcode k
      (put getFromDisk cloningEnabled isDelta clone fromDelta k v None None uc dt false tag None) b = Throw e
  end.
Proof.
  intros Hi Hsm Ha Hp Hv. destruct (segmentIdx_lookup hashcode b k Hi) as [s Hs].
  pose proof (inv_with_env (ConcurrentEntriesMap.shared b) s (mi_segments b Hi _ _ Hs)) as His.
  pose proof (seg_step uc dt (OpPut k v tag) b a s Hi Ha Hs
    (refine_put _ _ _ _ _ uc dt k v tag _ _ His (Hsm _ _ Hs) (abs_of_rel _) Hv)) as Hst.
  cbn [run_op op_key] in Hst. unfold mbind, ST_bind in Hst.
  destruct (put _ _ _ _ _ k v None None uc dt false tag None _) as [[[[[[err me] old] upd] nv] s']|e] eqn:E.
  - destruct (spec_op _ _ a) as [[[[err' old'] upd'] a1]|]; [|done].
    destruct Hst as (s'' & [= -> -> -> ->] & Hi' & Hlk & Hl & Hf).
    pose proof (put_ptrs _ _ _ _ _ _ _ _ _ _ _ _ _ _ _ _ _ His (Hsm _ _ Hs) (visible_seg b a k s Ha Hp Hs) E)
      as (Hko & -> & Herr & Hok).
    destruct (lift_key b k s _ _ s'' Hi Hs E Hi' Hl Hko) as (b' & Eb & Hon). rewrite Hlk in Hon.
    exists b', me, (seg_ptr s'' k). split_and!; [done|done|done|]. rewrite (ptr_of_seg b k s Hs).
    unfold seg_ptr. case_bool_decide as Hd; cbn [andb]; [|by rewrite (Herr Hd)].
    specialize (Hok Hd). destruct upd'; cbn [negb]; [by rewrite Hok|]. rewrite Hok.
    exists (next_ptr s). split; [done|by apply fresh_next].
  - destruct (spec_op _ _ a) as [[[[err' old'] upd'] a1]|]; [by destruct Hst as (? & ? & _)|].
    unfold ConcurrentEntriesMap.segmentFor, ConcurrentEntriesMap.on_segment. rewrite Hs, E. congruence.
Qed.

Lemma base_create uc dt k v tag b a :
  map_inv b -> map_small b -> map_rel hashcode b a -> proper a -> v <> Some TombstoneToken ->
  match spec_op (ml b) (OpCreate k v tag) a with
  | Ok ((err, old, _), a1) => exists b' me p,
    ConcurrentEntriesMap.segmentFor hashcode k
      (create getFromDisk cloningEnabled isDelta clone fromDelta k v None None uc dt tag) b
      = Ok ((err, me, old), b') /\
    on_key b b' k (a1 !! k) p /\ (forall k', k' <> k -> a1 !! k' = a !! k') /\
    if bool_decide (err = GF_NOERR) then exists n, p = Some n /\ fresh_for b k n else p = ptr_of b k
  | Throw e => ConcurrentEntriesMap.segmentFor hashcode k
      (create getFromDisk cloningEnabled isDelta clone fromDelta k v None None uc dt tag) b = Throw e
  end.
Proof.
  intros Hi Hsm Ha Hp Hv. destruct (segmentIdx_lookup hashcode b k Hi) as [s Hs].
  pose proof (inv_with_env (ConcurrentEntriesMap.shared b) s (mi_segments b Hi _ _ Hs)) as His.
  pose proof (seg_step uc dt (OpCreate k v tag) b a s Hi Ha Hs
    (refine_create _ _ _ _ _ uc dt k v tag _ _ His (Hsm _ _ Hs) (abs_of_rel _) Hv)) as Hst.
  cbn [run_op op_key] in Hst. unfold mbind, ST_bind in Hst.
  destruct (create _ _ _ _ _ k v None None uc dt tag _) as [[[[err me] old] s']|e] eqn:E.
  - destruct (spec_op _ _ a) as [[[[err' old'] upd'] a1]|]; [|done].
    destruct Hst as (s'' & [= -> -> _ ->] & Hi' & Hlk & Hl & Hf).
    pose proof (create_ptrs _ _ _ _ _ _ _ _ _ _ _ _ _ _ _ His (Hsm _ _ Hs) (visible_seg b a k s Ha Hp Hs) E)
      as (Hko & Herr & Hok).
    destruct (lift_key b k s _ _ s'' Hi Hs E Hi' Hl Hko) as (b' & Eb & Hon). rewrite Hlk in Hon.
    exists b', me, (seg_ptr s'' k). split_and!; [done|done|done|]. rewrite (ptr_of_seg b k s Hs).
    unfold seg_ptr. case_bool_decide as Hd; [|by rewrite (Herr Hd)]. rewrite (Hok Hd).
    exists (next_ptr s). split; [done|by apply fresh_next].
  - destruct (spec_op _ _ a) as [[[[err' old'] upd'] a1]|]; [by destruct Hst as (? & ? & _)|].
    unfold ConcurrentEntriesMap.segmentFor, ConcurrentEntriesMap.on_segment. rewrite Hs, E. congruence.
Qed.

Lemma base_remove uc k tag rem b a :
  map_inv b -> map_rel hashcode b a ->
  match spec_op (ml b) (OpRemove k tag rem) a with
  | Ok ((err, old, found), a1) => exists b' me p,
    ConcurrentEntriesMap.segmentFor hashcode k
      (remove getFromDisk cloningEnabled isDelta clone fromDelta k None None uc tag rem true) b
      = Ok ((err, old, me, found), b') /\
    on_key b b' k (a1 !! k) p /\ (forall k', k' <> k -> a1 !! k' = a !! k') /\
    (a !! k <> None -> p = ptr_of b k) /\
    (old <> None -> found = true /\ exists n, ptr_of b k = Some n /\ me = Some n)
  | Throw e => ConcurrentEntriesMap.segmentFor hashcode k
      (remove getFromDisk cloningEnabled isDelta clone fromDelta k None None uc tag rem true) b = Throw e
  end.
Proof.
  intros Hi Ha. destruct (segmentIdx_lookup hashcode b k Hi) as [s Hs].
  pose proof (inv_with_env (ConcurrentEntriesMap.shared b) s (mi_segments b Hi _ _ Hs)) as His.
  pose proof (seg_step uc 0 (OpRemove k tag rem) b a s Hi Ha Hs
    (refine_remove _ _ _ _ _ uc 0 k tag rem _ _ His (abs_of_rel _))) as Hst.
  cbn [run_op op_key] in Hst. unfold mbind, ST_bind in Hst.
  destruct (remove _ _ _ _ _ k None None uc tag rem true _) as [[[[[err old] me] found] s']|e] eqn:E.
  - destruct (spec_op _ _ a) as [[[[err' old'] found'] a1]|]; [|done].
    destruct Hst as (s'' & [= -> -> -> ->] & Hi' & Hlk & Hl & Hf).
    pose proof (remove_ptrs _ _ _ _ _ _ _ _ _ _ _ _ _ _ _ His E) as (Hko & Hsame & Hold).
    destruct (lift_key b k s _ _ s'' Hi Hs E Hi' Hl Hko) as (b' & Eb & Hon). rewrite Hlk in Hon.
    exists b', me, (seg_ptr s'' k). rewrite (ptr_of_seg b k s Hs). split_and!; [done|done|done| |].
    + intros Hk. unfold seg_ptr. rewrite Hsame; [done|]. simpl. intros Hm. apply Hk. rewrite <- (Ha k).
      unfold lookup_map. rewrite Hs. by apply lookup_abs_None.
    + intros Hn. destruct (Hold Hn) as (? & p & Hm & ->). split; [done|]. exists p. unfold seg_ptr.
      simpl in Hm. by rewrite Hm.
  - destruct (spec_op _ _ a) as [[[[err' old'] upd'] a1]|]; [by destruct Hst as (? & ? & _)|].
    unfold ConcurrentEntriesMap.segmentFor, ConcurrentEntriesMap.on_segment. rewrite Hs, E. congruence.
Qed.

(** Reading a key changes nothing but the segment's view of what the segments share. *)
Lemma base_same {A} k b a s (f : ST (Segment K V) A) r :
  map_inv b -> map_rel hashcode b a -> ConcurrentEntriesMap.m_segments b !! idx b k = Some s ->
  f (with_env (ConcurrentEntriesMap.shared b) s) = Ok (r, with_env (ConcurrentEntriesMap.shared b) s) ->
  exists b', ConcurrentEntriesMap.segmentFor hashcode k f b = Ok (r, b') /\ on_key b b' k (a !! k) (ptr_of b k).
Proof.
  intros Hi Ha Hs E. pose proof (inv_with_env (ConcurrentEntriesMap.shared b) s (mi_segments b Hi _ _ Hs)) as His.
  destruct (lift_key b k s f r _ Hi Hs E His) as (b' & Eb & Hon); [done..|]. exists b'. split; [done|].
  rewrite (ptr_of_seg b k s Hs), <- (Ha k). unfold lookup_map. by rewrite Hs.
Qed.

Lemma live_entry k b a v w :
  map_inv b -> map_rel hashcode b a -> a !! k = Some (v, w) ->
  exists s n, ConcurrentEntriesMap.m_segments b !! idx b k = Some s /\ m_map s !! k = Some (PImpl n) /\
    entry_is s k n v w /\ ptr_of b k = Some n.
Proof.
  intros Hi Ha Hk. destruct (segmentIdx_lookup hashcode b k Hi) as [s Hs].
  pose proof (mi_segments b Hi _ _ Hs) as His. rewrite <- (Ha k) in Hk. unfold lookup_map in Hk. rewrite Hs in Hk.
  destruct (key_cases s _ k His (abs_of_rel s)) as [[Hm _]|(p & v0 & w0 & Hm & He & _)].
  - by rewrite lookup_abs_None in Hk.
  - rewrite (lookup_abs_entry s k p v0 w0 Hm He) in Hk. simplify_eq. exists s, p.
    split_and!; try done. rewrite (ptr_of_seg b k s Hs). unfold seg_ptr. by rewrite Hm.
Qed.

Lemma base_get_live k b a (o : V) w :
  map_inv b -> map_rel hashcode b a -> a !! k = Some (Some (Obj o), w) ->
  exists b' n, ConcurrentEntriesMap.segmentFor hashcode k (getEntry k) b = Ok ((true, Some n, Some (Obj o)), b') /\
    ptr_of b k = Some n /\ on_key b b' k (a !! k) (ptr_of b k).
Proof.
  intros Hi Ha Hk. destruct (live_entry k b a _ w Hi Ha Hk) as (s & n & Hs & Hm & He & Hp).
  destruct (base_same k b a s (getEntry k) (true, Some n, Some (Obj o)) Hi Ha Hs) as (b' & Eb & Hon);
    [by apply (getEntry_live k n o w)|]. eauto.
Qed.

Lemma base_get_dead k b a :
  map_inv b -> map_rel hashcode b a -> is_live (a !! k) = false ->
  exists b', ConcurrentEntriesMap.segmentFor hashcode k (getEntry k) b = Ok ((false, None, None), b') /\
    on_key b b' k (a !! k) (ptr_of b k).
Proof.
  intros Hi Ha Hk. destruct (segmentIdx_lookup hashcode b k Hi) as [s Hs].
  apply (base_same k b a s); try done. apply getEntry_dead; [by apply inv_with_env, (mi_segments b Hi _ _ Hs)|].
  rewrite <- Hk, <- (Ha k). unfold lookup_map. by rewrite Hs.
Qed.
End Base.

(** *** The map and its queue *)

Section Cache.
Context {K V : Type} `{Countable K}.
Context (hashcode : K -> Z).
Abbreviation idx := (ConcurrentEntriesMap.segmentIdx hashcode).
Abbreviation Queue := (LRUQueue.t (nat * nat)).
Implicit Types (b : ConcurrentEntriesMap.t K V) (k : K) (a : gmap K (option (Cacheable V) * VersionStamp.t)).
Implicit Types (Q : LRUQueue.t (nat * nat)) (q : list K) (e : nat * nat).

Definition entry_of b k e : Prop := e.1 = idx b k /\ ptr_of hashcode b k = Some e.2.

(** Keys are bound to objects of the application or to tombstones. *)
Definition objects a : Prop := forall k v w, a !! k = Some (v, w) -> v = Some TombstoneToken \/ exists o, v = Some (Obj o).

(** The queue holds the entries of the live keys, in the order [q]. *)
Record cache_rel b Q a q : Prop := {
  cr_inv : map_inv b;
  cr_rel : map_rel hashcode b a;
  cr_objects : objects a;
  cr_live : forall k, k ∈ q <-> is_live (a !! k) = true;
  cr_wf : LRUQueue.wf Q;
  cr_order : Forall2 (entry_of b) q (LRUQueue.order Q)
}.

Lemma objects_proper a : objects a -> proper a.
Proof. intros Ho k v w Hk. by destruct (Ho k v w Hk) as [->|[o ->]]. Qed.

Lemma objects_live a k : objects a -> is_live (a !! k) = true -> exists o w, a !! k = Some (Some (Obj o), w).
Proof.
  intros Ho Hl. destruct (a !! k) as [[v w]|] eqn:E; [|done]. destruct (Ho k v w E) as [->|[o ->]]; [done|eauto].
Qed.

Lemma entry_of_inj b k k' e : map_inv b -> entry_of b k e -> entry_of b k' e -> k = k'.
Proof.
  intros Hi [H1 H2] [H3 H4]. destruct (decide (k = k')) as [|Hne]; [done|]. exfalso.
  unfold ptr_of in *. rewrite <- H1 in H2. rewrite <- H3 in H4.
  destruct (ConcurrentEntriesMap.m_segments b !! e.1) as [s|] eqn:Es; [|done].
  unfold seg_ptr in *. destruct (m_map s !! k) as [[p|]|] eqn:E1; try done.
  destruct (m_map s !! k') as [[p'|]|] eqn:E2; try done. simplify_eq.
  by apply (inv_entry_ne None s k k' _ _ (mi_segments b Hi _ _ Es) E1 E2 Hne).
Qed.

Lemma entry_of_fun b k e e' : entry_of b k e -> entry_of b k e' -> e = e'.
Proof. intros [H1 H2] [H3 H4]. destruct e, e'. simpl in *. congruence. Qed.

Lemma Forall2_without b k e q l : map_inv b -> entry_of b k e -> Forall2 (entry_of b) q l ->
  Forall2 (entry_of b) (LRUQueue.without k q) (LRUQueue.without e l).
Proof.
  intros Hi He Hq. unfold LRUQueue.without. induction Hq as [|k' e' q l He' Hq IH]; [constructor|].
  rewrite !filter_cons. destruct (decide (k' = k)) as [->|Hne].
  - rewrite (entry_of_fun b k e' e He' He). by rewrite !decide_False by (intros Hc; by apply Hc).
  - rewrite !decide_True; [by constructor| |done]. intros ->. apply Hne. by eapply entry_of_inj.
Qed.

Lemma queued_entry b Q a q k : cache_rel b Q a q -> k ∈ q ->
  exists n, ptr_of hashcode b k = Some n /\ LRUQueue.queued Q (idx b k, n).
Proof.
  intros Hc Hk. destruct Hc as [_ _ _ _ _ Ho]. apply list_elem_of_lookup in Hk as [i Hi].
  destruct (Forall2_lookup_l _ _ _ _ _ Ho Hi) as ([i' n] & Hn & [H1 H2]). simpl in *. subst. exists n.
  split; [done|]. unfold LRUQueue.queued. by eapply list_elem_of_lookup_2.
Qed.

Lemma cr_nodup b Q a q : cache_rel b Q a q -> NoDup q.
Proof.
  intros [_ _ _ _ Hw Ho]. pose proof (LRUQueue.wf_order_nodup Q Hw) as Hnd. clear Hw.
  induction Ho as [|k e q l He Ho IH]; [constructor|]. apply list.NoDup_cons in Hnd as [Hin Hnd].
  constructor; [|by apply IH]. intros Hk. apply Hin. apply list_elem_of_lookup in Hk as [i Hi].
  destruct (Forall2_lookup_l _ _ _ _ _ Ho Hi) as (e' & He' & Hke). rewrite (entry_of_fun b k e e' He Hke).
  by eapply list_elem_of_lookup_2.
Qed.

(** A change of the map at [k] keeps the entries of the queued keys. *)
Lemma Forall2_on_key b b' k x p q l : on_key hashcode b b' k x p -> (k ∈ q -> p = ptr_of hashcode b k) ->
  Forall2 (entry_of b) q l -> Forall2 (entry_of b') q l.
Proof.
  intros Ho Hk Hq. induction Hq as [|k' e' q l [H1 H2] Hq IH]; constructor.
  - split; [by rewrite (idx_conc hashcode b b' k' (ok_conc _ _ _ _ _ _ Ho))|].
    rewrite (ok_ptr _ _ _ _ _ _ Ho). case_decide as Hd; [|done]. subst. rewrite Hk; [done|by left].
  - apply IH. intros. apply Hk. by right.
Qed.

(** The key is changed without becoming live or dead. *)
Lemma cache_same b Q a q b' k a1 p :
  cache_rel b Q a q -> on_key hashcode b b' k (a1 !! k) p -> (forall k', k' <> k -> a1 !! k' = a !! k') ->
  objects a1 -> is_live (a1 !! k) = is_live (a !! k) -> (k ∈ q -> p = ptr_of hashcode b k) -> cache_rel b' Q a1 q.
Proof.
  intros [Hi Ha Hobj Hl Hw Ho] Hon Hf Hobj1 Hlk Hp. constructor; try done.
  - by apply (ok_inv _ _ _ _ _ _ Hon).
  - by apply (on_key_rel hashcode b b' k (a1 !! k) p a).
  - intros k'. rewrite Hl. destruct (decide (k' = k)) as [->|Hne]; [by rewrite Hlk|by rewrite Hf].
  - by eapply Forall2_on_key.
Qed.

(** A key becomes live with a new entry, which is queued. *)
Lemma cache_append b Q a q b' k a1 n :
  cache_rel b Q a q -> on_key hashcode b b' k (a1 !! k) (Some n) -> (forall k', k' <> k -> a1 !! k' = a !! k') ->
  objects a1 -> is_live (a !! k) = false -> is_live (a1 !! k) = true -> fresh_for hashcode b k n ->
  exists Q', LRUQueue.push (idx b k, n) Q = Ok (tt, Q') /\ cache_rel b' Q' a1 (q ++ [k]).
Proof.
  intros Hc Hon Hf Hobj1 Hl0 Hl1 Hn. pose proof Hc as [Hi Ha Hobj Hl Hw Ho].
  assert (Hk : k ∉ q) by (intros Hk%Hl; congruence).
  destruct (LRUQueue.push_order Q (idx b k, n) Hw) as (Q' & E & Hw' & Ho' & _).
  { intros Hin. apply list_elem_of_lookup in Hin as [i Hi']. destruct (Forall2_lookup_r _ _ _ _ _ Ho Hi') as (k' & _ & H1 & H2).
    simpl in *. by apply (Hn k'). }
  exists Q'. split; [done|]. constructor; try done.
  - by apply (ok_inv _ _ _ _ _ _ Hon).
  - by apply (on_key_rel hashcode b b' k (a1 !! k) (Some n) a).
  - intros k'. rewrite elem_of_app, list_elem_of_singleton, Hl. destruct (decide (k' = k)) as [->|Hne].
    + rewrite Hl1. tauto.
    + rewrite Hf by done. tauto.
  - rewrite Ho'. apply Forall2_app; [by apply (Forall2_on_key b b' k (a1 !! k) (Some n))|].
    constructor; [|constructor]. split; simpl; [by rewrite (idx_conc hashcode b b' k (ok_conc _ _ _ _ _ _ Hon))|].
    rewrite (ok_ptr _ _ _ _ _ _ Hon). by rewrite decide_True.
Qed.

(** A live key dies, and its entry leaves the queue wherever it is. *)
Lemma cache_bury b Q a q b' k a1 n :
  cache_rel b Q a q -> on_key hashcode b b' k (a1 !! k) (Some n) -> (forall k', k' <> k -> a1 !! k' = a !! k') ->
  objects a1 -> k ∈ q -> is_live (a1 !! k) = false -> ptr_of hashcode b k = Some n ->
  exists Q', LRUQueue.remove (idx b k, n) Q = Ok (tt, Q') /\ cache_rel b' Q' a1 (LRUQueue.without k q).
Proof.
  intros Hc Hon Hf Hobj1 Hk Hl1 Hn. pose proof Hc as [Hi Ha Hobj Hl Hw Ho].
  destruct (queued_entry b Q a q k Hc Hk) as (n' & Hn' & Hq). rewrite Hn in Hn'. simplify_eq.
  destruct (LRUQueue.remove_order Q (idx b k, n') Hw) as (Q' & E & Hw' & Ho' & _).
  { apply LRUQueue.elem_of_order in Hq as [i Hq]. apply (LRUQueue.wf_iter Q Hw) in Hq. by eexists. }
  exists Q'. split; [done|]. constructor; try done.
  - by apply (ok_inv _ _ _ _ _ _ Hon).
  - by apply (on_key_rel hashcode b b' k (a1 !! k) (Some n') a).
  - intros k'. unfold LRUQueue.without. rewrite list_elem_of_filter, Hl. destruct (decide (k' = k)) as [->|Hne].
    + rewrite Hl1. split; [by intros [? _]|done].
    + rewrite Hf by done. tauto.
  - rewrite Ho'. apply (Forall2_on_key b b' k (a1 !! k) (Some n')); [done|done|].
    by apply Forall2_without.
Qed.

(** A live key is used. *)
Lemma cache_touch b Q a q b' k n :
  cache_rel b Q a q -> on_key hashcode b b' k (a !! k) (ptr_of hashcode b k) -> k ∈ q -> ptr_of hashcode b k = Some n ->
  exists Q', LRUQueue.move_to_end (idx b k, n) Q = Ok (tt, Q') /\ cache_rel b' Q' a (LRUQueue.without k q ++ [k]).
Proof.
  intros Hc Hon Hk Hn. pose proof Hc as [Hi Ha Hobj Hl Hw Ho].
  destruct (queued_entry b Q a q k Hc Hk) as (n' & Hn' & Hq). rewrite Hn in Hn'. simplify_eq.
  destruct (LRUQueue.move_to_end_order Q (idx b k, n') Hw Hq) as (Q' & E & Hw' & Ho' & _).
  exists Q'. split; [done|]. constructor; try done.
  - by apply (ok_inv _ _ _ _ _ _ Hon).
  - by apply (on_key_rel hashcode b b' k (a !! k) (ptr_of hashcode b k) a).
  - intros k'. unfold LRUQueue.without. rewrite elem_of_app, list_elem_of_filter, list_elem_of_singleton, Hl.
    destruct (decide (k' = k)) as [->|Hne]; [apply Hl in Hk; rewrite Hk|]; tauto.
  - rewrite Ho'. apply (Forall2_on_key b b' k (a !! k) (ptr_of hashcode b k)); [done|done|].
    apply Forall2_app; [by apply Forall2_without|]. constructor; [|constructor]. split; [done|by simpl].
Qed.

(** The first key dies after its entry was popped. *)
Lemma cache_evict b Q a q k n :
  cache_rel b Q a (k :: q) -> ptr_of hashcode b k = Some n ->
  exists Q1, LRUQueue.pop Q = Ok (Some (idx b k, n), Q1) /\
    (forall b' a1, on_key hashcode b b' k (a1 !! k) (Some n) -> (forall k', k' <> k -> a1 !! k' = a !! k') ->
     objects a1 -> is_live (a1 !! k) = false ->
     exists Q2, LRUQueue.remove (idx b k, n) Q1 = Ok (tt, Q2) /\ cache_rel b' Q2 a1 q).
Proof.
  intros Hc Hn. pose proof Hc as [Hi Ha Hobj Hl Hw Ho].
  destruct (LRUQueue.pop_order Q Hw) as (Q1 & E1 & Hw1 & Ho1 & Hk1).
  inversion Ho as [|? e ? l He Ho2 Hq Hol]; subst. rewrite <- Hol in E1, Ho1. simpl in E1, Ho1.
  assert (e = (idx b k, n)) as ->. { destruct He as [H1 H2], e. simpl in *. congruence. }
  exists Q1. split; [done|]. intros b' a1 Hon Hf Hobj1 Hl1.
  pose proof (cr_nodup b Q a (k :: q) Hc) as [Hkq _]%list.NoDup_cons.
  assert (He1 : (idx b k, n) ∉ LRUQueue.order Q1).
  { rewrite Ho1. pose proof (LRUQueue.wf_order_nodup Q Hw) as Hnd. rewrite <- Hol in Hnd. by apply list.NoDup_cons in Hnd as [? _]. }
  destruct (LRUQueue.remove_order Q1 (idx b k, n) Hw1) as (Q2 & E2 & Hw2 & Ho2' & _).
  { apply Hk1. assert (Hin : (idx b k, n) ∈ LRUQueue.order Q) by (rewrite <- Hol; by left).
    apply LRUQueue.elem_of_order in Hin as [i Hin]. apply (LRUQueue.wf_iter Q Hw) in Hin. by eexists. }
  exists Q2. split; [done|]. rewrite LRUQueue.without_notin in Ho2' by done. constructor; try done.
  - by apply (ok_inv _ _ _ _ _ _ Hon).
  - by apply (on_key_rel hashcode b b' k (a1 !! k) (Some n) a).
  - intros k'. destruct (decide (k' = k)) as [->|Hne]; [rewrite Hl1; split; [done|done]|].
    rewrite Hf, <- Hl, elem_of_cons by done. tauto.
  - rewrite Ho2', Ho1. by apply (Forall2_on_key b b' k (a1 !! k) (Some n)).
Qed.
End Cache.

(** *** The abstract operations on objects *)

Section Spec.
Context {K V : Type} `{Countable K}.
Implicit Types (k : K) (a : gmap K (option (Cacheable V) * VersionStamp.t)).

Lemma objects_insert k v w a :
  objects a -> v = Some TombstoneToken \/ (exists o, v = Some (Obj o)) -> objects (<[k := (v, w)]> a).
Proof. intros Ho Hv k' v' w' [[<- [= <- <-]]|[_ Hk]]%lookup_insert_Some; [done|by eapply Ho]. Qed.

Lemma spec_remove_cases ml k tag rem a err old found a1 :
  objects a -> spec_op ml (OpRemove k tag rem) a = Ok ((err, old, found), a1) ->
  objects a1 /\
  ((old = None /\ is_live (a1 !! k) = is_live (a !! k)) \/
   (err = GF_NOERR /\ (exists o, old = Some (Obj o)) /\ is_live (a !! k) = true /\ is_live (a1 !! k) = false)).
Proof.
  intros Ho. cbn [spec_op]. unfold mbind, outcome_bind. destruct (a !! k) as [[v w]|] eqn:Ek.
  - destruct (next_stamp ml tag false w) as [[e w']|]; [|done].
    case_decide; [|intros [= <- <- <- <-]; rewrite Ek; split; [done|by left]].
    destruct (Ho k v w Ek) as [->|[o ->]]; cbn [isTombstone visible isDestroyed]; intros [= <- <- <- <-];
      (split; [apply objects_insert; [done|by left]|]); rewrite lookup_insert_eq; [by left|right; eauto].
  - destruct tag as [t|]; intros [= <- <- <- <-]; [|rewrite Ek; split; [done|by left]].
    split; [apply objects_insert; [done|by left]|]. rewrite lookup_insert_eq. by left.
Qed.

Lemma spec_put_cases ml k (o : V) tag a err old upd a1 :
  objects a -> spec_op ml (OpPut k (Some (Obj o)) tag) a = Ok ((err, old, upd), a1) ->
  objects a1 /\
  ((err <> GF_NOERR /\ a1 = a) \/
   (err = GF_NOERR /\ is_live (a1 !! k) = true /\ upd = is_live (a !! k) /\
    old = (if upd then old else None) /\ (upd = true -> exists o', old = Some (Obj o')))).
Proof.
  intros Ho. cbn [spec_op]. unfold mbind, outcome_bind. destruct (a !! k) as [[v w]|] eqn:Ek.
  - destruct (next_stamp ml tag false w) as [[e w']|]; [|done].
    case_decide; [|intros [= <- <- <- <-]; split; [done|by left]].
    destruct (Ho k v w Ek) as [->|[o' ->]]; cbn [isTombstone visible isDestroyed]; intros [= <- <- <- <-];
      (split; [apply objects_insert; [done|right; eauto]|]); rewrite lookup_insert_eq; right; split_and!; eauto; done.
  - intros [= <- <- <- <-]. split; [apply objects_insert; [done|right; eauto]|]. rewrite lookup_insert_eq. by right.
Qed.

Lemma spec_create_cases ml k (o : V) tag a err old f a1 :
  objects a -> spec_op ml (OpCreate k (Some (Obj o)) tag) a = Ok ((err, old, f), a1) ->
  objects a1 /\ f = false /\
  ((err <> GF_NOERR /\ a1 = a) \/
   (err = GF_NOERR /\ old = None /\ is_live (a !! k) = false /\ is_live (a1 !! k) = true)).
Proof.
  intros Ho. cbn [spec_op]. unfold mbind, outcome_bind. destruct (a !! k) as [[v w]|] eqn:Ek.
  - destruct (Ho k v w Ek) as [->|[o' ->]]; cbn [isTombstone visible isDestroyed];
      [|intros [= <- <- <- <-]; split_and!; [done|done|by left]].
    destruct (next_stamp ml tag false w) as [[e w']|]; [|done].
    case_decide; intros [= <- <- <- <-]; [|split_and!; [done|done|by left]].
    split_and!; [apply objects_insert; [done|right; eauto]|done|]. rewrite lookup_insert_eq. by right.
  - intros [= <- <- <- <-]. split_and!; [apply objects_insert; [done|right; eauto]|done|]. rewrite lookup_insert_eq. by right.
Qed.
End Spec.

(** *** The cache *)

Section LRU.
Import LRUEntriesMap.
Context {K V D P I : Type} `{Countable K}.
Abbreviation T := (LRUEntriesMap.t K V P I).
Abbreviation amap := (gmap K (option (Cacheable V) * VersionStamp.t)).
Context (hashcode : K -> Z) (pm : LRUEntriesMap.PersistenceManager K V P I).
Context (keySize : K -> Z) (valueSize : V -> Z) (cloningEnabled : bool).
Context (isDelta : V -> bool) (clone : V -> V) (fromDelta : D -> V -> V * bool).
Abbreviation idx := (ConcurrentEntriesMap.segmentIdx hashcode).
Abbreviation lru_remove := (LRUEntriesMap.remove hashcode pm keySize valueSize cloningEnabled isDelta clone fromDelta).
Abbreviation evictionHelper := (LRUEntriesMap.evictionHelper hashcode pm keySize valueSize cloningEnabled isDelta clone fromDelta).
Abbreviation processLRU := (LRUEntriesMap.processLRU hashcode pm keySize valueSize cloningEnabled isDelta clone fromDelta).
Implicit Types (m : LRUEntriesMap.t K V P I) (k : K) (q : list K).
Implicit Types (a : gmap K (option (Cacheable V) * VersionStamp.t)).

(** The part of the state that eviction depends on. *)
Record core m m' : Prop := {
  core_base : base m' = base m;
  core_queue : lru_queue_ m' = lru_queue_ m;
  core_valid : m_validEntries m' = m_validEntries m;
  core_limit : m_limit m' = m_limit m;
  core_action : m_action m' = m_action m;
  core_heap : m_heapLRUEnabled m' = m_heapLRUEnabled m
}.

(** The region takes part in evictions: it is not being destroyed, the thread is in no transaction, values are cached,
    and its listener, if there is one, does not throw. *)
Definition calm (act : option (LRUAction K V)) : Prop :=
  match act with
  | Some (LRULocalDestroyAction (mkView false false true None)) => True
  | Some (LRULocalDestroyAction (mkView false false true (Some f))) => forall k v, f k v = true
  | _ => False
  end.

(** The map stands for [a], its live keys being [q] from the least to the most recently used. *)
Record lru_rel m a q : Prop := {
  lr_cache : cache_rel hashcode (base m) (lru_queue_ m) a q;
  lr_size : ConcurrentEntriesMap.m_size (base m) = Z.of_nat (length q);
  lr_valid : m_validEntries m = Z.of_nat (length q);
  lr_bound : Z.of_nat (length q) < 2 ^ 32;
  lr_action : calm (m_action m);
  lr_limit : m_heapLRUEnabled m = false \/ m_limit m <> 0
}.

Lemma lru_rel_core m m' a q : core m m' -> lru_rel m a q -> lru_rel m' a q.
Proof. intros [H1 H2 H3 H4 H5 H6] []. constructor; rewrite ?H1, ?H2, ?H3, ?H4, ?H5, ?H6; done. Qed.

Lemma on_base_ok {A} (f : ST (ConcurrentEntriesMap.t K V) A) m r b' :
  f (base m) = Ok (r, b') -> on_base f m = Ok (r, with_base b' m).
Proof. unfold on_base. by intros ->. Qed.

Lemma on_base_throw {A} (f : ST (ConcurrentEntriesMap.t K V) A) m e :
  f (base m) = Throw e -> on_base f m = Throw e.
Proof. unfold on_base. by intros ->. Qed.

Lemma on_queue_ok {A} (f : ST (LRUQueue.t (nat * nat)) A) m r Q' :
  f (lru_queue_ m) = Ok (r, Q') -> on_queue f m = Ok (r, with_queue Q' m).
Proof. unfold on_queue. by intros ->. Qed.

Lemma core_updateMapSize n m : exists m', updateMapSize n m = Ok (tt, m') /\ core m m'.
Proof.
  unfold updateMapSize, st_modify. destruct (heap_size_ m) as [h|]; eexists; (split; [done|]); by constructor.
Qed.

(** The accounting of sizes for the eviction controller does not touch the cache. *)
Lemma accounting_bind {A} (f : ST T unit) (rest : ST T A) m :
  (forall m0, exists m', f m0 = Ok (tt, m') /\ core m0 m') ->
  exists m', (c ← has_controller; (if c : bool then f else mret tt);; rest) m = rest m' /\ core m m'.
Proof.
  intros Hf. unfold mbind, ST_bind, has_controller, st_gets. destruct (heap_size_ m) eqn:Eh.
  - destruct (Hf m) as (m' & -> & ?). by exists m'.
  - exists m. by repeat constructor.
Qed.

Lemma st_bind2_ok {X A} (f g : ST X unit) (rest : ST X A) s s' :
  (f;; g) s = Ok (tt, s') -> (f;; g;; rest) s = rest s'.
Proof. unfold mbind, ST_bind. destruct (f s) as [[[] s1]|]; [by intros ->|done]. Qed.

(** Counting down for a key that left the cache. *)
Lemma dec_u32 n : 0 <= n - 1 < 2 ^ 32 -> u32 (n + -1) = n - 1.
Proof. intros. rewrite wrapU_id; [lia|unfold in_u; lia]. Qed.

(** *** Removal *)

Abbreviation seg_remove m k uc tag rem :=
  (MapSegment.remove (getFromDisk hashcode pm m) cloningEnabled isDelta clone fromDelta k None None uc tag rem true).

Lemma lru_remove_none uc k tag rem m err me found b' :
  ConcurrentEntriesMap.segmentFor hashcode k (seg_remove m k uc tag rem) (base m) = Ok ((err, None, me, found), b') ->
  lru_remove k None None uc tag rem m = Ok ((err, None, me), with_base b' m).
Proof.
  intros E. unfold LRUEntriesMap.remove. unfold mbind, ST_bind, st_get. unfold segmentFor.
  rewrite (on_base_ok _ _ _ _ E). done.
Qed.

(** The counters and the queue after a live key was removed. *)
Record removed m m' (b' : ConcurrentEntriesMap.t K V) (Q' : LRUQueue.t (nat * nat)) : Prop := {
  rm_base : base m' = ConcurrentEntriesMap.mk (ConcurrentEntriesMap.m_concurrency b') (ConcurrentEntriesMap.m_segments b')
              (u32 (ConcurrentEntriesMap.m_size b' + -1)) (ConcurrentEntriesMap.m_cc b') (ConcurrentEntriesMap.shared b');
  rm_queue : lru_queue_ m' = Q';
  rm_valid : m_validEntries m' = u32 (m_validEntries m + -1);
  rm_limit : m_limit m' = m_limit m;
  rm_action : m_action m' = m_action m;
  rm_heap : m_heapLRUEnabled m' = m_heapLRUEnabled m
}.

Lemma lru_remove_found uc k tag rem m (o : V) n b' Q' :
  ConcurrentEntriesMap.segmentFor hashcode k (seg_remove m k uc tag rem) (base m)
    = Ok ((GF_NOERR, Some (Obj o), Some n, true), b') ->
  LRUQueue.remove (idx (base m) k, n) (lru_queue_ m) = Ok (tt, Q') ->
  exists m', lru_remove k None None uc tag rem m = Ok ((GF_NOERR, Some (Obj o), Some n), m') /\ removed m m' b' Q'.
Proof.
  intros E EQ. unfold LRUEntriesMap.remove. unfold mbind, ST_bind, st_get. unfold segmentFor.
  rewrite (on_base_ok _ _ _ _ E). cbv beta iota. rewrite decide_True by done. unfold segmentIdx.
  rewrite (on_queue_ok _ (with_base b' m) _ _ EQ). cbn [isToken isInvalid isDestroyed isOverflowed isTombstone orb].
  unfold add_size, add_valid, on_base, ConcurrentEntriesMap.set_size, st_modify, has_controller, st_gets,
    updateMapSize, mret, ST_ret. cbn. destruct (heap_size_ m) as [h|] eqn:Eh; cbn; rewrite ?Eh; eexists;
    (split; [done|]); by constructor.
Qed.

Lemma removed_size_inv (b : ConcurrentEntriesMap.t K V) n : map_inv b -> map_inv (ConcurrentEntriesMap.mk (ConcurrentEntriesMap.m_concurrency b)
  (ConcurrentEntriesMap.m_segments b) (u32 n) (ConcurrentEntriesMap.m_cc b) (ConcurrentEntriesMap.shared b)).
Proof. intros [H1 H2 H3 H4]. constructor; try done. by apply wrapU_range. Qed.

(** The counter of the map is not part of the relation. *)
Lemma cache_rel_size (b : ConcurrentEntriesMap.t K V) Q a q n : cache_rel hashcode b Q a q ->
  cache_rel hashcode (ConcurrentEntriesMap.mk (ConcurrentEntriesMap.m_concurrency b)
    (ConcurrentEntriesMap.m_segments b) (u32 n) (ConcurrentEntriesMap.m_cc b) (ConcurrentEntriesMap.shared b)) Q a q.
Proof. intros []. constructor; try done. by apply removed_size_inv. Qed.

Lemma removed_rel m m' b' Q' a a1 q q' :
  lru_rel m a q -> removed m m' b' Q' -> ConcurrentEntriesMap.m_size b' = ConcurrentEntriesMap.m_size (base m) ->
  cache_rel hashcode b' Q' a1 q' -> length q = Datatypes.S (length q') -> lru_rel m' a1 q'.
Proof.
  intros [Hc Hsz Hv Hb Ha Hl] [R1 R2 R3 R4 R5 R6] Hs Hc' Hlen. constructor.
  - rewrite R1, R2. by apply cache_rel_size.
  - rewrite R1. simpl. rewrite Hs, Hsz, dec_u32; lia.
  - rewrite R3, Hv, dec_u32; lia.
  - lia.
  - congruence.
  - by rewrite R4, R6.
Qed.

Lemma length_without k q : NoDup q -> k ∈ q -> length q = Datatypes.S (length (LRUQueue.without k q)).
Proof.
  induction q as [|k' q IH]; intros Hnd Hk; [by apply elem_of_nil in Hk|]. apply list.NoDup_cons in Hnd as [Hn Hnd].
  unfold LRUQueue.without in *. rewrite filter_cons. destruct (decide (k' = k)) as [->|Hne].
  - rewrite decide_False by (intros Hc; by apply Hc). fold (LRUQueue.without k q). by rewrite LRUQueue.without_notin.
  - rewrite decide_True by done. simpl. f_equal. apply IH; [done|]. by apply elem_of_cons in Hk as [->|?].
Qed.

(** [remove] of the map behaves as that of the abstract map, and the key leaves the queue. *)
Lemma refine_lru_remove uc k tag rem m a q :
  lru_rel m a q ->
  match spec_op (memberList (ConcurrentEntriesMap.shared (base m))) (OpRemove k tag rem) a with
  | Ok ((err, old, _), a1) => exists m' me,
    lru_remove k None None uc tag rem m = Ok ((err, old, me), m') /\
    lru_rel m' a1 (match old with None => q | Some _ => LRUQueue.without k q end) /\
    m_limit m' = m_limit m
  | Throw e => lru_remove k None None uc tag rem m = Throw e
  end.
Proof.
  intros Hr. pose proof Hr as [Hc Hsz Hv Hb Hac Hli]. pose proof Hc as [Hi Ha Hobj Hlv Hw Ho].
  pose proof (base_remove hashcode (getFromDisk hashcode pm m) cloningEnabled isDelta clone fromDelta uc k tag rem (base m) a Hi Ha) as Hbr.
  destruct (spec_op _ (OpRemove k tag rem) a) as [[[[err old] found] a1]|e] eqn:Es.
  - destruct Hbr as (b' & me & p & Eb & Hon & Hf & Hp & Hold).
    destruct (spec_remove_cases _ _ _ _ _ _ _ _ _ Hobj Es) as [Hobj1 [[-> Hl]|(-> & [o ->] & Hl0 & Hl1)]].
    + exists (with_base b' m), me. rewrite (lru_remove_none _ _ _ _ _ _ _ _ _ Eb). split_and!; [done| |done].
      constructor; try done; [|simpl; by rewrite (ok_size _ _ _ _ _ _ Hon)].
      apply (cache_same hashcode (base m) _ a q b' k a1 p); try done.
      intros Hk. apply Hp. intros Hn. apply Hlv in Hk. by rewrite Hn in Hk.
    + destruct (Hold ltac:(done)) as (-> & n & Hpn & ->).
      assert (Hk : k ∈ q) by by apply Hlv.
      assert (p = Some n) as -> by (rewrite <- Hpn; apply Hp; intros Hn; by rewrite Hn in Hl0).
      destruct (cache_bury hashcode (base m) _ a q b' k a1 n Hc Hon Hf Hobj1 Hk Hl1 Hpn) as (Q' & EQ & Hc').
      destruct (lru_remove_found uc k tag rem m o n b' Q' Eb EQ) as (m' & Em & Hrm).
      exists m', (Some n). split_and!; [done| |by apply (rm_limit _ _ _ _ Hrm)].
      eapply removed_rel; [done|done|by rewrite (ok_size _ _ _ _ _ _ Hon)|done|].
      apply length_without; [by eapply cr_nodup|done].
  - unfold LRUEntriesMap.remove, mbind, ST_bind, st_get, segmentFor, on_base. by rewrite Hbr.
Qed.

(** *** Eviction *)

(** A live key becomes a tombstone with the stamp it had. *)
Definition bury a k : amap :=
  match a !! k with Some (_, w) => <[k := (Some TombstoneToken, w)]> a | None => a end.

Lemma on_key_trans (b b1 b2 : ConcurrentEntriesMap.t K V) k x1 p1 x2 p2 :
  on_key hashcode b b1 k x1 p1 -> on_key hashcode b1 b2 k x2 p2 -> on_key hashcode b b2 k x2 p2.
Proof.
  intros [H1 H2 H3 H4 H5] [G1 G2 G3 G4 G5]. constructor; [done|congruence| | |congruence].
  - intros k'. rewrite G3, H3. by case_decide.
  - intros k'. rewrite G4, H4. by case_decide.
Qed.

Lemma spec_remove_live ml a k (o : V) w :
  a !! k = Some (Some (Obj o), w) ->
  spec_op ml (OpRemove k None false) a = Ok ((GF_NOERR, Some (Obj o), true), bury a k).
Proof. intros Hk. cbn [spec_op]. unfold bury. by rewrite Hk. Qed.

Lemma calm_evict act e m k m1 v me m' :
  calm (Some act) -> on_entry e getKeyI m = Ok (Some k, m1) ->
  lru_remove k None None (-1) None false m1 = Ok ((GF_NOERR, v, me), m') ->
  evict hashcode pm keySize valueSize cloningEnabled isDelta clone fromDelta act e m = Ok (true, m') /\ overflows act = false.
Proof.
  intros Ha Ek Er. destruct act as [[[] [] [] f]|]; try done. split; [|done].
  unfold evict, destroyEvicted, mbind, ST_bind. rewrite Ek. cbn. rewrite Er. cbn.
  destruct f as [f|]; [|done]. by rewrite (Ha k).
Qed.

(** The first key of the queue is evicted. *)
Lemma refine_evictionHelper m a k q :
  lru_rel m a (k :: q) ->
  exists m', evictionHelper m = Ok (GF_NOERR, m') /\ lru_rel m' (bury a k) q /\ m_limit m' = m_limit m.
Proof.
  intros Hr. pose proof Hr as [Hc Hsz Hv Hb Hac Hli]. pose proof Hc as [Hi Ha Hobj Hlv Hw Ho].
  destruct (objects_live a k Hobj) as (o & w & Hk); [apply Hlv; by left|].
  destruct (live_entry hashcode k (base m) a _ w Hi Ha Hk) as (s & n & Hs & Hm & He & Hp).
  destruct (cache_evict hashcode (base m) _ a q k n Hc Hp) as (Q1 & EQ1 & Hev).
  destruct (base_same hashcode k (base m) a s (getKeyI n) (Some k) Hi Ha Hs) as (b1 & E1 & Hon1).
  { by apply (getKeyI_entry _ k n (Some (Obj o)) w). }
  set (m1 := with_base b1 (with_queue Q1 m)).
  pose proof (base_remove hashcode (getFromDisk hashcode pm m1) cloningEnabled isDelta clone fromDelta (-1) k None false b1 a
    (ok_inv _ _ _ _ _ _ Hon1) (on_key_rel _ _ _ _ _ _ a a Ha Hon1 eq_refl ltac:(done))) as Hbr.
  rewrite (spec_remove_live _ a k o w Hk) in Hbr. destruct Hbr as (b2 & me & p & E2 & Hon2 & Hf & Hp2 & Hold).
  assert (Hp1 : ptr_of hashcode b1 k = Some n) by (rewrite (ok_ptr _ _ _ _ _ _ Hon1), decide_True; done).
  destruct (Hold ltac:(done)) as (_ & n' & Hn' & ->). rewrite Hp1 in Hn'. injection Hn' as <-.
  rewrite Hp1 in Hp2. rewrite (Hp2 ltac:(by rewrite Hk)) in Hon2.
  destruct (spec_remove_cases _ _ _ _ _ _ _ _ _ Hobj (spec_remove_live (memberList (ConcurrentEntriesMap.shared b1)) a k o w Hk))
    as [Hobj1 [[? _]|(_ & _ & _ & Hl1)]]; [done|].
  destruct (Hev b2 (bury a k) (on_key_trans _ _ _ _ _ _ _ _ Hon1 Hon2) Hf Hobj1 Hl1) as (Q2 & EQ2 & Hc2).
  rewrite <- (idx_conc hashcode _ _ k (ok_conc _ _ _ _ _ _ Hon1)) in EQ2.
  destruct (lru_remove_found (-1) k None false m1 o n b2 Q2 E2 EQ2) as (m' & Em & Hrm). exists m'. split_and!.
  - unfold LRUEntriesMap.evictionHelper. rewrite (st_bind_ok _ _ _ _ _ (on_queue_ok _ m _ _ EQ1)).
    unfold mbind, ST_bind, st_get. cbn [m_action with_queue]. destruct (m_action m) as [act|]; [|done].
    unfold non_null, mret, ST_ret.
    destruct (calm_evict act (idx (base m) k, n) (with_queue Q1 m) k m1 (Some (Obj o)) (Some n) m' Hac) as [-> Hov]; [|exact Em|by rewrite Hov].
    exact (on_base_ok (ConcurrentEntriesMap.on_segment (idx (base m) k) (getKeyI n)) (with_queue Q1 m) _ _ E1).
  - eapply (removed_rel m m' b2 Q2); [done| |by rewrite (ok_size _ _ _ _ _ _ Hon2), (ok_size _ _ _ _ _ _ Hon1)|done|done].
    destruct Hrm. by constructor.
  - by rewrite (rm_limit _ _ _ _ Hrm).
Qed.

Lemma mustEvict_rel m a q : lru_rel m a q -> mustEvict m = (m_limit m <? Z.of_nat (length q)).
Proof.
  intros [_ Hsz _ _ Hac Hli]. unfold mustEvict, ConcurrentEntriesMap.size. rewrite Hsz.
  destruct (m_action m) as [[r|]|]; try done. cbn [overflows].
  destruct (m_heapLRUEnabled m); [|done]. cbn [andb]. destruct (Z.eqb_spec (m_limit m) 0) as [E|]; [|done].
  by destruct Hli.
Qed.

Lemma processLRU_loop_rel fuel : forall m a q,
  lru_rel m a q -> 0 <= m_limit m -> (length q - Z.to_nat (m_limit m) <= fuel)%nat ->
  exists m', processLRU_loop hashcode pm keySize valueSize cloningEnabled isDelta clone fromDelta fuel GF_NOERR m
      = Ok (GF_NOERR, m') /\
    lru_rel m' (foldl bury a (take (length q - Z.to_nat (m_limit m)) q)) (drop (length q - Z.to_nat (m_limit m)) q) /\
    m_limit m' = m_limit m.
Proof.
  induction fuel as [|fuel IH]; intros m a q Hr Hl Hf; cbn [processLRU_loop];
    rewrite bool_decide_eq_true_2, (mustEvict_rel m a q Hr) by done; cbn [andb];
    destruct (Z.ltb_spec (m_limit m) (Z.of_nat (length q))) as [Hlt|Hge]; try lia.
  2: { destruct q as [|k q]; [simpl in Hlt; lia|].
       destruct (refine_evictionHelper m a k q Hr) as (m1 & E1 & Hr1 & Hl1).
       rewrite (st_bind_ok _ _ _ _ _ E1). destruct (IH m1 (bury a k) q Hr1) as (m' & E' & Hr' & Hl');
         [lia|rewrite Hl1; simpl in *; lia|]. rewrite Hl1 in *. exists m'. split_and!; [done| |done].
       replace (length (k :: q) - Z.to_nat (m_limit m))%nat with (S (length q - Z.to_nat (m_limit m))) by (simpl in *; lia).
       done. }
  all: exists m; replace (length q - Z.to_nat (m_limit m))%nat with 0%nat by lia; done.
Qed.

Lemma processLRU_rel m a q :
  lru_rel m a q -> 0 <= m_limit m ->
  let n := (length q - Z.to_nat (m_limit m))%nat in
  exists m', processLRU m = Ok (GF_NOERR, m') /\ lru_rel m' (foldl bury a (take n q)) (drop n q) /\
    m_limit m' = m_limit m /\ mustEvict m' = false.
Proof.
  intros Hr Hl n. destruct (processLRU_loop_rel (S (length (LRUQueue.container_ (lru_queue_ m)))) m a q Hr Hl)
    as (m' & E & Hr' & Hl').
  { pose proof (cr_order _ _ _ _ _ (lr_cache _ _ _ Hr)) as Ho%Forall2_length. unfold LRUQueue.order in Ho.
    rewrite length_fmap in Ho. lia. }
  exists m'. split_and!; [done|done|done|]. rewrite (mustEvict_rel _ _ _ Hr'), Hl', length_drop.
  apply Z.ltb_ge. lia.
Qed.

(** [processLRU] always terminates and brings the map down to its limit: it evicts the
    least recently used keys first, as many as are over the limit and no others, and leaves
    each of them as a tombstone with the stamp it had. *)
Theorem processLRU_evicts m a q :
  lru_rel m a q -> 0 <= m_limit m ->
  let n := (length q - Z.to_nat (m_limit m))%nat in
  exists m', processLRU m = Ok (GF_NOERR, m') /\ lru_rel m' (foldl bury a (take n q)) (drop n q) /\
    m_limit m' = m_limit m /\ mustEvict m' = false.
Proof. apply processLRU_rel. Qed.

(** *** Insertion *)

Definition resize (z : Z) (b : ConcurrentEntriesMap.t K V) : ConcurrentEntriesMap.t K V :=
  ConcurrentEntriesMap.mk (ConcurrentEntriesMap.m_concurrency b) (ConcurrentEntriesMap.m_segments b) z
    (ConcurrentEntriesMap.m_cc b) (ConcurrentEntriesMap.shared b).

Lemma map_inv_resize z b : in_u 32 z -> map_inv b -> map_inv (resize z b).
Proof. intros Hz []. by constructor. Qed.

Lemma on_key_resize b b' b2 k x p x2 p2 z :
  map_inv b -> on_key hashcode b b' k x p -> on_key hashcode (resize z b') b2 k x2 p2 ->
  on_key hashcode b (resize (ConcurrentEntriesMap.m_size b) b2) k x2 p2.
Proof.
  intros Hi [H1 H2 H3 H4 H5] [G1 G2 G3 G4 G5]. constructor.
  - apply map_inv_resize; [apply Hi|done].
  - simpl. rewrite G2. done.
  - intros k'. change (lookup_map hashcode (resize _ b2) k') with (lookup_map hashcode b2 k'). rewrite G3.
    case_decide; [done|]. change (lookup_map hashcode (resize z b') k') with (lookup_map hashcode b' k').
    rewrite H3. by rewrite decide_False.
  - intros k'. change (ptr_of hashcode (resize _ b2) k') with (ptr_of hashcode b2 k'). rewrite G4.
    case_decide; [done|]. change (ptr_of hashcode (resize z b') k') with (ptr_of hashcode b' k').
    rewrite H4. by rewrite decide_False.
  - done.
Qed.

Lemma cache_rel_resize z b Q a q : map_inv b -> cache_rel hashcode (resize z b) Q a q -> cache_rel hashcode b Q a q.
Proof. intros Hi [H1 H2 H3 H4 H5 H6]. by constructor. Qed.

(** The state after a new entry was bound and counted. *)
Record counted_up m m1 (b' : ConcurrentEntriesMap.t K V) : Prop := {
  cu_base : base m1 = resize (u32 (ConcurrentEntriesMap.m_size b' + 1)) b';
  cu_queue : lru_queue_ m1 = lru_queue_ m;
  cu_valid : m_validEntries m1 = u32 (m_validEntries m + 1);
  cu_limit : m_limit m1 = m_limit m;
  cu_action : m_action m1 = m_action m;
  cu_heap : m_heapLRUEnabled m1 = m_heapLRUEnabled m
}.

Lemma enqueue_new m m1 a q b' k a1 (o : V) w n :
  lru_rel m a q -> on_key hashcode (base m) b' k (a1 !! k) (Some n) ->
  (forall k', k' <> k -> a1 !! k' = a !! k') -> objects a1 -> is_live (a !! k) = false ->
  a1 !! k = Some (Some (Obj o), w) -> fresh_for hashcode (base m) k n -> Z.of_nat (length q) + 1 < 2 ^ 32 ->
  counted_up m m1 b' ->
  exists m2, enqueue hashcode k m1 = Ok (Some n, m2) /\ lru_rel m2 a1 (q ++ [k]) /\ m_limit m2 = m_limit m.
Proof.
  intros Hr Hon Hf Hobj1 Hl0 Hk1 Hfr Hlen Hcu. pose proof Hr as [Hc Hsz Hv Hb Hac Hli].
  pose proof Hc as [Hi Ha _ _ _ _]. destruct Hcu as [C1 C2 C3 C4 C5 C6].
  assert (Hi1 : map_inv (base m1)).
  { rewrite C1. apply map_inv_resize; [by apply wrapU_range|by apply (ok_inv _ _ _ _ _ _ Hon)]. }
  assert (Ha1 : map_rel hashcode (base m1) a1).
  { rewrite C1. exact (on_key_rel hashcode _ _ _ _ _ _ _ Ha Hon eq_refl Hf). }
  destruct (base_get_live hashcode k (base m1) a1 o w Hi1 Ha1 Hk1) as (b2 & n2 & E2 & Hp2 & Hon2).
  assert (Hp1 : ptr_of hashcode (base m1) k = Some n).
  { rewrite C1. change (ptr_of hashcode b' k = Some n). rewrite (ok_ptr _ _ _ _ _ _ Hon). by rewrite decide_True. }
  rewrite Hp1 in Hp2, Hon2. injection Hp2 as <-.
  rewrite C1 in Hon2. pose proof (on_key_resize _ _ _ _ _ _ _ _ _ Hi Hon Hon2) as Hon3.
  destruct (cache_append hashcode (base m) _ a q _ k a1 n Hc Hon3 Hf Hobj1 Hl0 ltac:(by rewrite Hk1) Hfr) as (Q' & EQ & Hc').
  exists (with_queue Q' (with_base b2 m1)). split_and!.
  - unfold enqueue. unfold segmentFor. rewrite (st_bind_ok _ _ _ _ _ (on_base_ok _ m1 _ _ E2)).
    unfold mbind, ST_bind, st_get. unfold segmentIdx. cbn [base with_base].
    rewrite (idx_conc hashcode (base m) b2 k) by (rewrite (ok_conc _ _ _ _ _ _ Hon2); apply (ok_conc _ _ _ _ _ _ Hon)).
    rewrite <- C2 in EQ. rewrite (on_queue_ok _ (with_base b2 m1) _ _ EQ). done.
  - pose proof (ok_size _ _ _ _ _ _ Hon2) as Hs2. pose proof (ok_size _ _ _ _ _ _ Hon) as Hs1.
    constructor; simpl.
    + apply (cache_rel_resize (ConcurrentEntriesMap.m_size (base m))); [by apply (ok_inv _ _ _ _ _ _ Hon2)|done].
    + rewrite Hs2. simpl. rewrite Hs1, Hsz, length_app, wrapU_id; simpl; [lia|unfold in_u; lia].
    + rewrite C3, Hv, length_app, wrapU_id; simpl; [lia|unfold in_u; lia].
    + rewrite length_app. simpl. lia.
    + by rewrite C5.
    + by rewrite C4, C6.
  - done.
Qed.

(** *** The bounded cache *)

Inductive lru_op :=
| LPut k (o : V) (tag : option VersionTag.t)
| LCreate k (o : V) (tag : option VersionTag.t)
| LGet k
| LRemove k (tag : option VersionTag.t) (afterRemote : bool).

Definition as_op (o : lru_op) : @op K V :=
  match o with
  | LPut k v tag => OpPut k (Some (Obj v)) tag
  | LCreate k v tag => OpCreate k (Some (Obj v)) tag
  | LGet k => OpGet k
  | LRemove k tag rem => OpRemove k tag rem
  end.

Definition run_lru (updateCount destroyTracker : Z) (o : lru_op) : ST T (GfErrType * option (Cacheable V) * bool) :=
  match o with
  | LPut k v tag =>
    '(err, _, old, upd, _) ← put hashcode pm keySize valueSize cloningEnabled isDelta clone fromDelta
                               k (Some (Obj v)) None None updateCount destroyTracker tag false None;
    mret (err, old, upd)
  | LCreate k v tag =>
    '(err, _, old) ← create hashcode pm keySize valueSize cloningEnabled isDelta clone fromDelta
                       k (Some (Obj v)) None None updateCount destroyTracker tag;
    mret (err, old, false)
  | LGet k =>
    '(b, v, _) ← get hashcode pm keySize valueSize cloningEnabled isDelta clone fromDelta k None;
    mret (GF_NOERR, v, b)
  | LRemove k tag rem => '(err, old, _) ← lru_remove k None None updateCount tag rem; mret (err, old, false)
  end.

(** What an operation with result [r] does to the order of the keys. *)
Definition queue_after (o : lru_op) (r : GfErrType * option (Cacheable V) * bool) q : list K :=
  match o with
  | LPut k _ _ => if bool_decide (r.1.1 = GF_NOERR) && negb r.2 then q ++ [k] else q
  | LCreate k _ _ => if bool_decide (r.1.1 = GF_NOERR) then q ++ [k] else q
  | LGet k => if r.2 then LRUQueue.without k q ++ [k] else q
  | LRemove k _ _ => match r.1.2 with Some _ => LRUQueue.without k q | None => q end
  end.

(** The least recently used keys over the limit are dropped. *)
Definition excess (limit : Z) q : nat := (length q - Z.to_nat limit)%nat.
Definition trim (limit : Z) a q : amap * list K :=
  (foldl bury a (take (excess limit q) q), drop (excess limit q) q).

Lemma trim_fits limit a q : Z.of_nat (length q) <= limit -> trim limit a q = (a, q).
Proof. intros Hl. unfold trim, excess. by replace (length q - Z.to_nat limit)%nat with 0%nat by lia. Qed.

(** What holds after an operation on the cache. *)
Definition cached m m' a1 q1 : Prop :=
  lru_rel m' (trim (m_limit m) a1 q1).1 (trim (m_limit m) a1 q1).2 /\ m_limit m' = m_limit m /\
  Z.of_nat (length (trim (m_limit m) a1 q1).2) <= m_limit m.

Lemma cached_fits m m' a1 q1 :
  lru_rel m' a1 q1 -> m_limit m' = m_limit m -> Z.of_nat (length q1) <= m_limit m -> cached m m' a1 q1.
Proof. intros Hr Hl Hle. unfold cached. rewrite trim_fits by done. done. Qed.

Lemma processLRU_cached m m2 a1 q1 :
  lru_rel m2 a1 q1 -> m_limit m2 = m_limit m -> 0 <= m_limit m ->
  exists m3, processLRU m2 = Ok (GF_NOERR, m3) /\ cached m m3 a1 q1.
Proof.
  intros Hr Hl Hge. destruct (processLRU_rel m2 a1 q1 Hr) as (m3 & E & Hr3 & Hl3 & _); [lia|]. rewrite Hl in *.
  exists m3. split; [done|]. unfold cached, trim, excess in *. split_and!; [done|done|].
  simpl. rewrite length_drop. lia.
Qed.

Lemma core_limit_eq m m' : core m m' -> m_limit m' = m_limit m.
Proof. by intros []. Qed.

Lemma add_counts m b' : exists m1,
  (add_size 1;; add_valid 1) (with_base b' m) = Ok (tt, m1) /\
  (add_valid 1;; add_size 1) (with_base b' m) = Ok (tt, m1) /\ counted_up m m1 b'.
Proof. eexists. split_and!; [done|done|]. by constructor. Qed.

(** Runs the accounting of sizes at the head of the goal. *)
Ltac account m2 m3 Hcore :=
  match goal with
  | |- context [ (has_controller ≫= (fun c => (if c then ?f else _) ≫= (fun _ => ?rest))) m2 ] =>
    destruct (accounting_bind f rest m2) as (m3 & -> & Hcore);
    [intros ?; apply core_updateMapSize|]
  end.

Lemma refine_lru_put uc dt k (o : V) tag m a q :
  lru_rel m a q -> map_small (base m) -> Z.of_nat (length q) <= m_limit m < 2 ^ 32 - 1 ->
  match spec_op (memberList (ConcurrentEntriesMap.shared (base m))) (OpPut k (Some (Obj o)) tag) a with
  | Ok (r, a1) => exists m', run_lru uc dt (LPut k o tag) m = Ok (r, m') /\
      cached m m' a1 (queue_after (LPut k o tag) r q)
  | Throw e => run_lru uc dt (LPut k o tag) m = Throw e
  end.
Proof.
  intros Hr Hsm Hlim. pose proof Hr as [Hc Hsz Hv Hb Hac Hli]. pose proof Hc as [Hi Ha Hobj Hlv Hw Ho].
  pose proof (base_put hashcode (getFromDisk hashcode pm m) cloningEnabled isDelta clone fromDelta uc dt k (Some (Obj o)) tag
    (base m) a Hi Hsm Ha (objects_proper a Hobj) ltac:(done)) as Hbp.
  cbn [run_lru].
  destruct (spec_op _ (OpPut k (Some (Obj o)) tag) a) as [[[[err old] upd] a1]|e] eqn:Es; cycle 1.
  { unfold put, segmentFor. apply st_bind_throw. rewrite (st_bind_ok st_get _ m m m) by done.
    by apply st_bind_throw, on_base_throw. }
  destruct Hbp as (b' & me & p & Eb & Hon & Hf & Hp). pose proof (on_base_ok _ m _ _ Eb) as Eb'.
  match goal with |- exists m', (?f ≫= _) m = _ /\ _ =>
    enough (exists m' me', f m = Ok ((err, me', old, upd, Some (Obj o)), m') /\
      cached m m' a1 (queue_after (LPut k o tag) (err, old, upd) q)) as (m' & me' & E & ?) end.
  { exists m'. by rewrite (st_bind_ok _ _ _ _ _ E). }
  unfold put, segmentFor. rewrite (st_bind_ok st_get _ m m m), (st_bind_ok _ _ _ _ _ Eb') by done. cbv beta iota.
  cbn [queue_after fst snd].
  destruct (spec_put_cases _ _ _ _ _ _ _ _ _ Hobj Es) as [Hobj1 [[Hne ->]|(-> & Hl1 & Hupd & Hold & Hobjold)]].
  - rewrite bool_decide_eq_false_2 in Hp |- * by done. cbn [andb negb] in *. exists (with_base b' m), me. split; [done|].
    apply cached_fits; [|done|lia]. constructor; try done; [|simpl; by rewrite (ok_size _ _ _ _ _ _ Hon)].
    by apply (cache_same hashcode (base m) _ a q b' k a p).
  - rewrite bool_decide_eq_true_2 in Hp |- * by done. cbn [andb negb] in *.
    destruct upd; cbn [negb] in Hp |- *.
    + destruct (Hobjold eq_refl) as [o' ->]. unfold isToken. cbn [isInvalid isDestroyed isOverflowed isTombstone orb negb andb].
      rewrite !(st_bind_ok (mret _) _ _ _ _ eq_refl).
      assert (Hr1 : lru_rel (with_base b' m) a1 q).
      { constructor; try done; [|simpl; by rewrite (ok_size _ _ _ _ _ _ Hon)].
        apply (cache_same hashcode (base m) _ a q b' k a1 p); try done. congruence. }
      account (with_base b' m) m2 Hcore.
      destruct (processLRU_cached m m2 a1 q (lru_rel_core _ _ _ _ Hcore Hr1) (core_limit_eq _ _ Hcore)) as (m3 & E3 & Hc3); [lia|].
      exists m3, me. by rewrite (st_bind_ok _ _ _ _ _ E3).
    + rewrite Hold. unfold isToken. cbn [isInvalid isDestroyed isOverflowed isTombstone orb negb andb].
      rewrite !(st_bind_ok (mret _) _ _ _ _ eq_refl). destruct Hp as (n & -> & Hfr).
      destruct (objects_live a1 k Hobj1 Hl1) as (o1 & w1 & Hk1).
      destruct (add_counts m b') as (m1 & Eadd & _ & Hcu).
      destruct (enqueue_new m m1 a q b' k a1 o1 w1 n Hr Hon Hf Hobj1 ltac:(congruence) Hk1 Hfr ltac:(lia) Hcu) as (m2 & E2 & Hr2 & Hl2).
      match goal with |- context [ (?f ≫= _) (with_base b' m) ] =>
        assert (Ein : f (with_base b' m) = Ok (Some n, m2)) end.
      { rewrite (st_bind2_ok _ _ _ _ _ Eadd), (st_bind_ok _ _ _ _ _ E2). done. }
      rewrite (st_bind_ok _ _ _ _ _ Ein). account m2 m3 Hcore.
      destruct (processLRU_cached m m3 a1 (q ++ [k]) (lru_rel_core _ _ _ _ Hcore Hr2)) as (m4 & E4 & Hc4);
        [by rewrite (core_limit_eq _ _ Hcore)|lia|].
      exists m4, (Some n). by rewrite (st_bind_ok _ _ _ _ _ E4).
Qed.

Lemma refine_lru_create uc dt k (o : V) tag m a q :
  lru_rel m a q -> map_small (base m) -> Z.of_nat (length q) <= m_limit m < 2 ^ 32 - 1 ->
  match spec_op (memberList (ConcurrentEntriesMap.shared (base m))) (OpCreate k (Some (Obj o)) tag) a with
  | Ok (r, a1) => exists m', run_lru uc dt (LCreate k o tag) m = Ok (r, m') /\
      cached m m' a1 (queue_after (LCreate k o tag) r q)
  | Throw e => run_lru uc dt (LCreate k o tag) m = Throw e
  end.
Proof.
  intros Hr Hsm Hlim. pose proof Hr as [Hc Hsz Hv Hb Hac Hli]. pose proof Hc as [Hi Ha Hobj Hlv Hw Ho].
  pose proof (base_create hashcode (getFromDisk hashcode pm m) cloningEnabled isDelta clone fromDelta uc dt k (Some (Obj o)) tag
    (base m) a Hi Hsm Ha (objects_proper a Hobj) ltac:(done)) as Hbp.
  cbn [run_lru].
  destruct (spec_op _ (OpCreate k (Some (Obj o)) tag) a) as [[[[err old] f] a1]|e] eqn:Es; cycle 1.
  { unfold create, segmentFor. apply st_bind_throw. rewrite (st_bind_ok st_get _ m m m) by done.
    by apply st_bind_throw, on_base_throw. }
  destruct Hbp as (b' & me & p & Eb & Hon & Hf & Hp). pose proof (on_base_ok _ m _ _ Eb) as Eb'.
  destruct (spec_create_cases _ _ _ _ _ _ _ _ _ Hobj Es) as (Hobj1 & -> & Hcases).
  match goal with |- exists m', (?f ≫= _) m = _ /\ _ =>
    enough (exists m' me', f m = Ok ((err, me', old), m') /\
      cached m m' a1 (queue_after (LCreate k o tag) (err, old, false) q)) as (m' & me' & E & ?) end.
  { exists m'. by rewrite (st_bind_ok _ _ _ _ _ E). }
  unfold create, segmentFor. rewrite (st_bind_ok st_get _ m m m), (st_bind_ok _ _ _ _ _ Eb') by done. cbv beta iota.
  cbn [queue_after fst snd].
  destruct Hcases as [[Hne ->]|(-> & -> & Hl0 & Hl1)].
  - rewrite bool_decide_eq_false_2 in Hp |- * by done. cbn [negb] in *. exists (with_base b' m), me. split; [done|].
    apply cached_fits; [|done|lia]. constructor; try done; [|simpl; by rewrite (ok_size _ _ _ _ _ _ Hon)].
    by apply (cache_same hashcode (base m) _ a q b' k a p).
  - rewrite bool_decide_eq_true_2 in Hp |- * by done. cbn [negb].
    unfold isToken. cbn [isInvalid isDestroyed isOverflowed isTombstone orb]. destruct Hp as (n & -> & Hfr).
    destruct (objects_live a1 k Hobj1 Hl1) as (o1 & w1 & Hk1). destruct (add_counts m b') as (m1 & _ & Eadd & Hcu).
    destruct (enqueue_new m m1 a q b' k a1 o1 w1 n Hr Hon Hf Hobj1 Hl0 Hk1 Hfr ltac:(lia) Hcu) as (m2 & E2 & Hr2 & Hl2).
    rewrite (st_bind2_ok _ _ _ _ _ Eadd), (st_bind_ok _ _ _ _ _ E2). account m2 m3 Hcore.
    destruct (processLRU_cached m m3 a1 (q ++ [k]) (lru_rel_core _ _ _ _ Hcore Hr2)) as (m4 & E4 & Hc4);
      [by rewrite (core_limit_eq _ _ Hcore)|lia|].
    exists m4, (Some n). by rewrite (st_bind_ok _ _ _ _ _ E4).
Qed.

Lemma refine_lru_get uc dt k m a q :
  lru_rel m a q -> Z.of_nat (length q) <= m_limit m ->
  exists r m', spec_op (memberList (ConcurrentEntriesMap.shared (base m))) (OpGet k) a = Ok (r, a) /\
    run_lru uc dt (LGet k) m = Ok (r, m') /\ cached m m' a (queue_after (LGet k) r q).
Proof.
  intros Hr Hlim. pose proof Hr as [Hc Hsz Hv Hb Hac Hli]. pose proof Hc as [Hi Ha Hobj Hlv Hw Ho].
  cbn [run_lru spec_op]. destruct (is_live (a !! k)) eqn:Hl.
  - destruct (objects_live a k Hobj Hl) as (o & w & Hk).
    destruct (base_get_live hashcode k (base m) a o w Hi Ha Hk) as (b' & n & E & Hp & Hon).
    assert (Hkq : k ∈ q) by by apply Hlv.
    destruct (cache_touch hashcode (base m) _ a q b' k n Hc Hon Hkq Hp) as (Q' & EQ & Hc').
    assert (Hlen : length (LRUQueue.without k q ++ [k]) = length q).
    { rewrite length_app, (length_without k q (cr_nodup _ _ _ _ _ Hc) Hkq). simpl. lia. }
    rewrite <- (idx_conc hashcode (base m) b' k (ok_conc _ _ _ _ _ _ Hon)) in EQ. rewrite Hk.
    exists (GF_NOERR, Some (Obj o), true), (with_queue Q' (with_base b' m)). split_and!; [done| |].
    + match goal with |- (?f ≫= _) m = _ => enough (E' : f m = Ok ((true, Some (Obj o), Some n), with_queue Q' (with_base b' m))) end.
      { by rewrite (st_bind_ok _ _ _ _ _ E'). }
      unfold get, segmentFor. rewrite (st_bind_ok _ _ _ _ _ (on_base_ok _ m _ _ E)). cbn [negb non_null isOverflowed].
      rewrite (st_bind_ok (mret n) _ _ n _ eq_refl), (st_bind_ok st_get _ _ _ _ eq_refl). cbv zeta. unfold segmentIdx.
      by rewrite (st_bind_ok _ _ _ _ _ (on_queue_ok _ (with_base b' m) _ _ EQ)).
    + apply cached_fits; [|done|cbn [queue_after snd]; rewrite Hlen; lia]. cbn [queue_after snd].
      constructor; simpl; rewrite ?Hlen; try done. by rewrite (ok_size _ _ _ _ _ _ Hon).
  - destruct (base_get_dead hashcode k (base m) a Hi Ha Hl) as (b' & E & Hon).
    exists (GF_NOERR, None, false), (with_base b' m). split_and!.
    + destruct (a !! k) as [[v w]|] eqn:Ek; [|done]. by destruct (Hobj k v w Ek) as [->|[o ->]].
    + match goal with |- (?f ≫= _) m = _ => enough (E' : f m = Ok ((false, None, None), with_base b' m)) end.
      { by rewrite (st_bind_ok _ _ _ _ _ E'). }
      unfold get, segmentFor. by rewrite (st_bind_ok _ _ _ _ _ (on_base_ok _ m _ _ E)).
    + apply cached_fits; [|done|done]. constructor; try done; [|simpl; by rewrite (ok_size _ _ _ _ _ _ Hon)].
      by apply (cache_same hashcode (base m) _ a q b' k a (ptr_of hashcode (base m) k)).
Qed.

Lemma length_without_le k q : (length (LRUQueue.without k q) <= length q)%nat.
Proof. apply length_filter. Qed.

(** C4. With concurrency checks, the entries map with eviction and the action
    [LRULocalDestroyAction] is a bounded cache in front of the abstract versioned map, as long
    as the region above it takes part (it is not being destroyed, the thread is in no
    transaction, values are cached, the listener does not throw). Each [put] of a full value,
    [create], [get] and [remove] has the result and the effect of the abstract map; a new key
    becomes the most recently used one, and so does a key that is read; and if there are then
    more live keys than the limit, the least recently used ones are destroyed and stay as
    tombstones. So the map never holds more live keys than its limit. [invalidate] is not
    covered: it breaks the queue ([lru_invalidate_undefined] below). *)
Theorem lru_map_refines uc dt (o : lru_op) m a q :
  lru_rel m a q -> map_small (base m) -> Z.of_nat (length q) <= m_limit m < 2 ^ 32 - 1 ->
  match spec_op (memberList (ConcurrentEntriesMap.shared (base m))) (as_op o) a with
  | Ok (r, a1) =>
    let '(a', q') := trim (m_limit m) a1 (queue_after o r q) in
    exists m', run_lru uc dt o m = Ok (shown (as_op o) r, m') /\ lru_rel m' a' q' /\
      m_limit m' = m_limit m /\ Z.of_nat (length q') <= m_limit m
  | Throw e => run_lru uc dt o m = Throw e
  end.
Proof.
  intros Hr Hsm Hlim. destruct o as [k o tag|k o tag|k|k tag rem]; cbn [as_op].
  - pose proof (refine_lru_put uc dt k o tag m a q Hr Hsm Hlim) as Href.
    destruct (spec_op _ _ a) as [[r a1]|]; [|done]. destruct Href as (m' & ? & ?). by exists m'.
  - pose proof (refine_lru_create uc dt k o tag m a q Hr Hsm Hlim) as Href.
    destruct (spec_op _ _ a) as [[r a1]|]; [|done]. destruct Href as (m' & ? & ?). by exists m'.
  - destruct (refine_lru_get uc dt k m a q Hr) as (r & m' & -> & ? & ?); [lia|]. by exists m'.
  - pose proof (refine_lru_remove uc k tag rem m a q Hr) as Href.
    destruct (spec_op _ _ a) as [[[[err old] f] a1]|]; cbn [run_lru]; [|by apply st_bind_throw].
    destruct Href as (m' & me & E & Hr' & Hl'). exists m'. rewrite (st_bind_ok _ _ _ _ _ E). split; [done|].
    apply cached_fits; [done|done|]. cbn [queue_after fst snd]. destruct old; [|lia].
    pose proof (length_without_le k q). lia.
Qed.

(** A newly opened map is an empty cache. *)
Lemma open_lru_rel act limit concurrency heap controller e n m0 m :
  construct act limit true concurrency heap controller e = Ok m0 -> open n m0 = Ok m -> calm act ->
  heap = false \/ limit <> 0 -> lru_rel m ∅ [] /\ map_small (base m) /\ m_limit m = limit.
Proof.
  unfold construct, open, mbind, outcome_bind. intros E0 E1 Hact Hl.
  destruct (ConcurrentEntriesMap.construct true concurrency e) as [b0|] eqn:Eb0; [|done]. simplify_eq. simpl in E1.
  destruct (ConcurrentEntriesMap.open n b0) as [b|] eqn:Eb; [|done]. simplify_eq.
  destruct (open_inv hashcode concurrency e n b0 b Eb0 Eb) as (Hi & Ha & Hs). split_and!; [|done|done].
  constructor; try done.
  - constructor; try done; [|apply LRUQueue.wf_empty].
    intros k. rewrite lookup_empty. split; [by intros ?%elem_of_nil|done].
  - simpl. revert Eb Eb0. unfold ConcurrentEntriesMap.open, ConcurrentEntriesMap.construct, mbind, outcome_bind.
    repeat (case_match; simplify_eq); try done; intros [= <-] [= <-]; done.
Qed.

(** Lowering the limit does not evict by itself. *)
Lemma adjustLimit_rel limit m a q : lru_rel m a q -> m_heapLRUEnabled m = false ->
  exists m', adjustLimit limit m = Ok (tt, m') /\ lru_rel m' a q /\ m_limit m' = limit.
Proof. intros [] Hh. eexists. split_and!; [done| |done]. constructor; try done. by left. Qed.
End LRU.

(** ** Concrete runs of the entries map with eviction: instances of the general theorems, and
    runs in which the queue and the map fall out of step. *)
Module LRUExamples.
Import LRUEntriesMap.

(** No persistence manager is attached; a missing one answers nothing. *)
Definition no_pm : PersistenceManager Z Z unit unit :=
  mkPM (fun _ _ _ _ => None) (fun _ _ _ => None) (fun _ _ _ => None).

Definition size8 (x : Z) : Z := 8.

(** A region with a listener that returns. *)
Definition destroys : option (LRUAction Z Z) := Some (LRULocalDestroyAction (mkView false false true (Some (fun _ _ => true)))).

Definition cache00 (limit : Z) : t Z Z unit unit :=
  mk (ConcurrentEntriesMap.mk 3 [] 0 true env0) LRUQueue.construct ∅ None limit destroys false 0 0 None.
Definition cache0 (limit : Z) : t Z Z unit unit :=
  match open 10 (cache00 limit) with Ok m => m | Throw _ => cache00 limit end.

Lemma construct_cache00 : construct destroys 2 true 3 false None env0 = Ok (cache00 2).
Proof. reflexivity. Qed.

Lemma open_cache0 : open 10 (cache00 2) = Ok (cache0 2).
Proof. vm_compute. reflexivity. Qed.

Abbreviation cache_op := (run_lru id no_pm size8 size8 true alwaysDelta id addDelta (-1) (-1)).
Abbreviation cache_put k v := (cache_op (LPut k v None)).
Abbreviation cache_get k := (cache_op (LGet k)).
Abbreviation cache_remove k := (cache_op (LRemove k None false)).
Abbreviation cache_invalidate k := (invalidate id no_pm size8 k None None None).

Lemma cache0_rel : lru_rel id (cache0 2) ∅ [] /\ map_small (base (cache0 2)) /\ m_limit (cache0 2) = 2.
Proof. exact (open_lru_rel id destroys 2 3 false None env0 10 _ _ construct_cache00 open_cache0 (fun _ _ => eq_refl) (or_introl eq_refl)). Qed.

(** [map_small], decided. *)
Definition smallb (m : t Z Z unit unit) : bool :=
  forallb (fun s => Z.of_nat (size (m_map s)) <=? 2 ^ 32) (ConcurrentEntriesMap.m_segments (base m)).
Lemma smallb_small m : smallb m = true -> map_small (base m).
Proof.
  intros Hb i s Hs. unfold smallb in Hb. rewrite forallb_forall in Hb.
  apply Z.leb_le, Hb, list_elem_of_In. by apply (list_elem_of_lookup_2 _ i).
Qed.

(** Keys 1 and 2 were put and key 1 was read: key 2 is the least recently used one. *)
Definition cache12 : t Z Z unit unit :=
  match (cache_put 1 10;; cache_put 2 20;; cache_get 1) (cache0 2) with Ok (_, m) => m | Throw _ => cache0 2 end.

Definition abs12 : gmap Z (option (Cacheable Z) * VersionStamp.t) :=
  {[2 := (Some (Obj 20), VersionStamp.construct); 1 := (Some (Obj 10), VersionStamp.construct)]}.

Lemma cache12_rel : lru_rel id cache12 abs12 [2; 1] /\ m_limit cache12 = 2.
Proof.
  destruct cache0_rel as (Hr & Hs & Hl). unfold cache12.
  pose proof (refine_lru_put id no_pm size8 size8 true alwaysDelta id addDelta (-1) (-1) 1 10 None (cache0 2) ∅ []
    Hr Hs ltac:(rewrite Hl; simpl; lia)) as (m1 & E1 & Hc1).
  unfold cached in Hc1. rewrite Hl in Hc1. destruct Hc1 as (Hr1 & Hl1 & _). rewrite (st_bind_ok _ _ _ _ _ E1).
  assert (Hs1 : map_small (base m1)).
  { assert (Hm : match cache_put 1 10 (cache0 2) with Ok (_, m) => smallb m | Throw _ => false end = true)
      by (vm_compute; done). rewrite E1 in Hm. by apply smallb_small. }
  pose proof (refine_lru_put id no_pm size8 size8 true alwaysDelta id addDelta (-1) (-1) 2 20 None m1 _ _
    Hr1 Hs1 ltac:(rewrite Hl1; simpl; lia)) as (m2 & E2 & Hc2).
  unfold cached in Hc2. rewrite Hl1 in Hc2. destruct Hc2 as (Hr2 & Hl2 & _). rewrite (st_bind_ok _ _ _ _ _ E2).
  destruct (refine_lru_get id no_pm size8 size8 true alwaysDelta id addDelta (-1) (-1) 1 m2 _ _ Hr2) as (r & m3 & Es & E3 & Hc3);
    [rewrite Hl2; simpl; lia|].
  rewrite E3. vm_compute in Es. injection Es as <-. unfold cached in Hc3. rewrite Hl2 in Hc3.
  destruct Hc3 as (Hr3 & Hl3 & _). split; [exact Hr3|congruence].
Qed.

(** A third key: the put evicts key 2, which stays as a tombstone, and the listener of the region is told. *)
Lemma lru_map_refines_witness :
  exists m', cache_put 3 30 cache12 = Ok ((GF_NOERR, None, false), m') /\
    lru_rel id m' (<[2 := (Some TombstoneToken, VersionStamp.construct)]>
                     (<[3 := (Some (Obj 30), VersionStamp.construct)]> abs12)) [1; 3] /\
    m_limit m' = m_limit cache12 /\ 2 <= m_limit cache12.
Proof.
  destruct cache12_rel as (Hr & Hl).
  pose proof (lru_map_refines id no_pm size8 size8 true alwaysDelta id addDelta (-1) (-1) (LPut 3 30 None) cache12 abs12 [2; 1]
    Hr ltac:(apply smallb_small; vm_compute; done) ltac:(rewrite Hl; simpl; lia)) as Href.
  rewrite Hl in Href |- *.
  assert (Es : spec_op (memberList (ConcurrentEntriesMap.shared (base cache12))) (as_op (LPut 3 30 None)) abs12
    = Ok ((GF_NOERR, None, false), <[3 := (Some (Obj 30), VersionStamp.construct)]> abs12)) by (vm_compute; reflexivity).
  rewrite Es in Href.
  assert (Et : trim 2 (<[3 := (Some (Obj 30), VersionStamp.construct)]> abs12) (queue_after (LPut 3 30 None) (GF_NOERR, None, false) [2; 1])
    = (<[2 := (Some TombstoneToken, VersionStamp.construct)]> (<[3 := (Some (Obj 30), VersionStamp.construct)]> abs12), [1; 3]))
    by (vm_compute; reflexivity).
  rewrite Et in Href. exact Href.
Defined.

(** One key, and then the limit is lowered to none. *)
Definition cache1 : t Z Z unit unit :=
  match (cache_put 7 100;; adjustLimit 0) (cache0 2) with Ok (_, m) => m | Throw _ => cache0 2 end.

Lemma cache1_rel : lru_rel id cache1 {[7 := (Some (Obj 100), VersionStamp.construct)]} [7] /\ m_limit cache1 = 0.
Proof.
  destruct cache0_rel as (Hr & Hs & Hl).
  pose proof (refine_lru_put id no_pm size8 size8 true alwaysDelta id addDelta (-1) (-1) 7 100 None (cache0 2) ∅ []
    Hr Hs ltac:(rewrite Hl; simpl; lia)) as (m1 & E & Hc).
  unfold cached in Hc. rewrite Hl in Hc. destruct Hc as (Hr1 & _ & _). unfold cache1.
  rewrite (st_bind_ok _ _ _ _ _ E).
  assert (Hh : m_heapLRUEnabled m1 = false).
  { assert (Hm : match cache_put 7 100 (cache0 2) with Ok (_, m) => m_heapLRUEnabled m | Throw _ => true end = false)
      by (vm_compute; done). by rewrite E in Hm. }
  destruct (adjustLimit_rel id 0 m1 _ _ Hr1 Hh) as (m' & -> & ? & ?). done.
Qed.

Lemma processLRU_evicts_witness :
  exists m', processLRU id no_pm size8 size8 true alwaysDelta id addDelta cache1 = Ok (GF_NOERR, m') /\
    lru_rel id m' {[7 := (Some TombstoneToken, VersionStamp.construct)]} [] /\
    m_limit m' = m_limit cache1 /\ mustEvict m' = false.
Proof.
  destruct cache1_rel as (Hr & Hl).
  pose proof (processLRU_evicts id no_pm size8 size8 true alwaysDelta id addDelta cache1 _ _ Hr ltac:(rewrite Hl; lia)) as Hp.
  rewrite Hl in Hp |- *. exact Hp.
Defined.

(** Three keys in a cache for two: the second one was used least recently. *)
Example third_key_evicts :
  match (cache_put 1 10;; cache_put 2 20;; cache_get 1;; cache_put 3 30;; r1 ← cache_get 1; r2 ← cache_get 2; r3 ← cache_get 3; mret [r1; r2; r3]) (cache0 2) with
  | Ok (rs, m) => rs = [(GF_NOERR, Some (Obj 10), true); (GF_NOERR, None, false); (GF_NOERR, Some (Obj 30), true)] /\
                  ConcurrentEntriesMap.size (base m) = 2
  | Throw _ => False
  end.
Proof. vm_compute. done. Qed.

(** *** Runs in which the queue and the map fall out of step *)

(** [invalidate] takes an entry out of the eviction queue but leaves it in the map:
    the next [get] of the key moves a node that is not in the list, and the [remove] of a key
    that was invalidated without ever being queued erases through an iterator that was never
    set. *)
Theorem lru_invalidate_undefined :
  (cache_put 7 100;; cache_invalidate 7;; cache_get 7) (cache0 2) = Throw UndefinedBehaviour /\
  (cache_invalidate 7;; cache_remove 7) (cache0 2) = Throw UndefinedBehaviour.
Proof. split; vm_compute; reflexivity. Qed.

(** [LRUEntriesMap::clear] leaves the entries in the eviction queue and in
    [m_validEntries]: when the cache is filled again, an eviction picks an entry that is gone,
    and the [put] that needed room reports a full disk and leaves the map over its limit. *)
Theorem lru_clear_stale_queue :
  match (cache_put 1 10;; cache_put 2 20;; clear;; cache_put 3 30;; cache_put 4 40;; cache_put 5 50) (cache0 2) with
  | Ok (r, m) => r = (GF_DISKFULL, None, false) /\ ConcurrentEntriesMap.size (base m) = 3 /\ validEntriesSize m = 5
  | Throw _ => False
  end.
Proof. vm_compute. done. Qed.
End LRUExamples.
