(* ===== verification/PdxType.v ===== *)
(** PDX types (src/cppcache/src/PdxType.cpp, PdxFieldType.cpp, the integers of PdxHelper.cpp):
    the fields of a serialized object, where they are in its byte stream, and how the type of
    the sender is mapped to the type of the receiver.

    A [PdxFieldType] is a shared object: the fields of a type are pointers into a store, and
    a merged type shares the field objects of the local type. Strings are lists of bytes. The
    local type that [PdxTypeRegistry::getLocalPdxType] finds is an argument. *)
From S2P Require Import Prelude DataOutput DataInput.

(** The bytes of a string literal. *)
Definition literal (s : string) : list Z :=
  (fun a => Z.of_nat (Ascii.nat_of_ascii a)) <$> String.list_ascii_of_string s.

Inductive PdxFieldTypes :=
| UNKNOWN | BOOLEAN | BYTE | CHAR | SHORT | INT | LONG | FLOAT | DOUBLE | DATE | STRING | OBJECT
| BOOLEAN_ARRAY | CHAR_ARRAY | BYTE_ARRAY | SHORT_ARRAY | INT_ARRAY | LONG_ARRAY | FLOAT_ARRAY
| DOUBLE_ARRAY | STRING_ARRAY | OBJECT_ARRAY | ARRAY_OF_BYTE_ARRAYS.

#[export] Instance PdxFieldTypes_eq_dec : EqDecision PdxFieldTypes.
Proof. solve_decision. Defined.

Definition allFieldTypes : list PdxFieldTypes :=
  [UNKNOWN; BOOLEAN; BYTE; CHAR; SHORT; INT; LONG; FLOAT; DOUBLE; DATE; STRING; OBJECT;
   BOOLEAN_ARRAY; CHAR_ARRAY; BYTE_ARRAY; SHORT_ARRAY; INT_ARRAY; LONG_ARRAY; FLOAT_ARRAY;
   DOUBLE_ARRAY; STRING_ARRAY; OBJECT_ARRAY; ARRAY_OF_BYTE_ARRAYS].

(** The value of an enumerator, and the enumerator of a value if it has one. *)
Definition enumValue (k : PdxFieldTypes) : Z :=
  match list_find (fun k' => k' = k) allFieldTypes with Some (i, _) => Z.of_nat i - 1 | None => -1 end.
Definition enumOf (z : Z) : option PdxFieldTypes :=
  if z <? -1 then None else allFieldTypes !! Z.to_nat (z + 1).

Module PdxTypes.
Definition kPdxByteSize : Z := 1.
Definition kPdxBooleanSize : Z := 1.
Definition kPdxCharSize : Z := 2.
Definition kPdxShortSize : Z := 2.
Definition kPdxIntegerSize : Z := 4.
Definition kPdxFloatSize : Z := 4.
Definition kPdxLongSize : Z := 8.
Definition kPdxDoubleSize : Z := 8.
Definition kPdxDateSize : Z := 8.
End PdxTypes.

Module PdxFieldType.

Record t := mk {
  m_fieldName : list Z;
  m_className : list Z;
  m_typeId : PdxFieldTypes;
  m_sequenceId : Z;
  m_isVariableLengthType : bool;
  m_isIdentityField : bool;
  m_fixedSize : Z;
  m_varLenFieldIdx : Z;
  m_vlOffsetIndex : Z;
  m_relativeOffset : Z
}.

#[export] Instance t_eq_dec : EqDecision t.
Proof. solve_decision. Defined.

Definition construct (fieldName className : list Z) (typeId : PdxFieldTypes) (sequenceId : Z)
    (isVariableLengthType : bool) (fixedSize varLenFieldIdx : Z) : t :=
  mk fieldName className typeId sequenceId isVariableLengthType false fixedSize varLenFieldIdx 0 0.

(** [setVarLenOffsetIndex] and [setRelativeOffset]. *)
Definition setOffsets (vlOffsetIndex relativeOffset : Z) (f : t) : t :=
  mk (m_fieldName f) (m_className f) (m_typeId f) (m_sequenceId f) (m_isVariableLengthType f)
     (m_isIdentityField f) (m_fixedSize f) (m_varLenFieldIdx f) vlOffsetIndex relativeOffset.

Definition setIdentityField (identityField : bool) (f : t) : t :=
  mk (m_fieldName f) (m_className f) (m_typeId f) (m_sequenceId f) (m_isVariableLengthType f)
     identityField (m_fixedSize f) (m_varLenFieldIdx f) (m_vlOffsetIndex f) (m_relativeOffset f).

(** The function returns [uint8_t]. *)
Definition getSequenceId (f : t) : Z := u8 (m_sequenceId f).

(** A pointer to itself has the same name and type. *)
Definition equals (f other : t) : bool :=
  bool_decide (m_fieldName other = m_fieldName f) && bool_decide (m_typeId other = m_typeId f).

Definition getFixedTypeSize (k : PdxFieldTypes) : Z :=
  match k with
  | BOOLEAN | BYTE => PdxTypes.kPdxBooleanSize
  | CHAR | SHORT => PdxTypes.kPdxCharSize
  | INT | FLOAT => PdxTypes.kPdxIntegerSize
  | LONG | DOUBLE => PdxTypes.kPdxLongSize
  | DATE => PdxTypes.kPdxDateSize
  | _ => -1
  end.

Section Wire.
Context `{Allocator} (to_utf16 to_utf8 : list Z -> outcome (list Z)).

Definition toData (f : t) : ST DataOutput.t unit :=
  DataOutput.writeString_string to_utf16 (m_fieldName f);;
  DataOutput.writeInt_uint32 (m_sequenceId f);;
  DataOutput.writeInt_int32 (m_varLenFieldIdx f);;
  DataOutput.write_int8 (enumValue (m_typeId f));;
  DataOutput.writeInt_int32 (m_relativeOffset f);;
  DataOutput.writeInt_int32 (m_vlOffsetIndex f);;
  DataOutput.writeBoolean (m_isIdentityField f).

(** A type code that is not an enumerator makes [getFixedTypeSize] leave its table. *)
Definition fromData : ST DataInput.t t :=
  fieldName ← DataInput.readString_string to_utf8;
  sequenceId ← DataInput.readInt32;
  varLenFieldIdx ← DataInput.readInt32;
  code ← DataInput.read;
  relativeOffset ← DataInput.readInt32;
  vlOffsetIndex ← DataInput.readInt32;
  isIdentityField ← DataInput.readBoolean;
  match enumOf code with
  | None => st_throw UndefinedBehaviour
  | Some typeId =>
    let fixedSize := getFixedTypeSize typeId in
    mret (mk fieldName [] typeId (u32 sequenceId) (fixedSize =? -1) isIdentityField
             fixedSize varLenFieldIdx vlOffsetIndex relativeOffset)
  end.
End Wire.
End PdxFieldType.

Module PdxHelper.

Definition PdxHeader : Z := 8.

(** Loads from memory at an address. *)
Definition load (mem : list Z) (p : Z) : outcome Z :=
  if p <? 0 then Throw UndefinedBehaviour
  else match mem !! Z.to_nat p with Some b => Ok b | None => Throw UndefinedBehaviour end.

Definition readInt32 (mem : list Z) (offsetPosition : Z) : outcome Z :=
  data ← load mem offsetPosition;
  b ← load mem (offsetPosition + 1);
  let data := s32 (Z.lor (Z.shiftl data 8) b) in
  b ← load mem (offsetPosition + 2);
  let data := s32 (Z.lor (Z.shiftl data 8) b) in
  b ← load mem (offsetPosition + 3);
  mret (s32 (Z.lor (Z.shiftl data 8) b)).

Definition readUInt16 (mem : list Z) (offsetPosition : Z) : outcome Z :=
  data ← load mem offsetPosition;
  b ← load mem (offsetPosition + 1);
  mret (u16 (Z.lor (Z.shiftl data 8) b)).

Definition readByte (mem : list Z) (offsetPosition : Z) : outcome Z := load mem offsetPosition.

(** [throw;] without an exception terminates the program. *)
Definition readInt (mem : list Z) (offsetPosition size : Z) : outcome Z :=
  if size =? 1 then readByte mem offsetPosition
  else if size =? 2 then readUInt16 mem offsetPosition
  else if size =? 4 then readInt32 mem offsetPosition
  else Throw UndefinedBehaviour.

(** A store to the buffer of an output. *)
Definition store (p value : Z) : ST DataOutput.t unit := fun d =>
  if (0 <=? p) && (p <? DataOutput.m_size d) then
    Ok (tt, DataOutput.mk (DataOutput.set_cell (DataOutput.m_bytes d) (Z.to_nat p) value) (DataOutput.m_buf d)
              (DataOutput.m_size d) (DataOutput.m_haveBigBuffer d) (DataOutput.bigBufferLocks d))
  else Throw UndefinedBehaviour.

Definition writeInt32 (offsetPosition value : Z) : ST DataOutput.t unit :=
  store offsetPosition (u8 (Z.shiftr value 24));;
  store (offsetPosition + 1) (u8 (Z.shiftr value 16));;
  store (offsetPosition + 2) (u8 (Z.shiftr value 8));;
  store (offsetPosition + 3) (u8 value).
End PdxHelper.

Module PdxType.
Import PdxFieldType.

(** [m_remoteToLocalFieldMap] and [m_localToRemoteFieldMap] are null at first. *)
Record t := mk {
  m_pdxFieldTypes : list nat;
  m_className : list Z;
  m_geodeTypeId : Z;
  m_isLocal : bool;
  m_numberOfVarLenFields : Z;
  m_varLenFieldIdx : Z;
  m_numberOfFieldsExtra : Z;
  m_isVarLenFieldAdded : bool;
  m_remoteToLocalFieldMap : option (list Z);
  m_localToRemoteFieldMap : option (list Z);
  m_fieldNameVsPdxType : gmap (list Z) nat;
  is_java_class_ : bool
}.

(** The store of field objects; a pointer is an index. *)
Abbreviation store := (list PdxFieldType.t).
Abbreviation S := (store * t)%type.

Definition construct (pdxDomainClassName : list Z) (isLocal expectDomainClass : bool) : t :=
  mk [] pdxDomainClassName 0 isLocal 0 0 0 false None None ∅ expectDomainClass.

Definition setTypeId (typeId : Z) (ty : t) : t :=
  mk (m_pdxFieldTypes ty) (m_className ty) typeId (m_isLocal ty) (m_numberOfVarLenFields ty)
     (m_varLenFieldIdx ty) (m_numberOfFieldsExtra ty) (m_isVarLenFieldAdded ty)
     (m_remoteToLocalFieldMap ty) (m_localToRemoteFieldMap ty) (m_fieldNameVsPdxType ty) (is_java_class_ ty).

Definition addField (p : nat) (fieldName : list Z) (ty : t) : t :=
  mk (m_pdxFieldTypes ty ++ [p]) (m_className ty) (m_geodeTypeId ty) (m_isLocal ty)
     (m_numberOfVarLenFields ty) (m_varLenFieldIdx ty) (m_numberOfFieldsExtra ty) (m_isVarLenFieldAdded ty)
     (m_remoteToLocalFieldMap ty) (m_localToRemoteFieldMap ty)
     (<[fieldName := p]> (m_fieldNameVsPdxType ty)) (is_java_class_ ty).

Definition setVarLen (number idx : Z) (added : bool) (ty : t) : t :=
  mk (m_pdxFieldTypes ty) (m_className ty) (m_geodeTypeId ty) (m_isLocal ty) number idx
     (m_numberOfFieldsExtra ty) added
     (m_remoteToLocalFieldMap ty) (m_localToRemoteFieldMap ty) (m_fieldNameVsPdxType ty) (is_java_class_ ty).

Definition setRemoteToLocal (extra : Z) (m : option (list Z)) (ty : t) : t :=
  mk (m_pdxFieldTypes ty) (m_className ty) (m_geodeTypeId ty) (m_isLocal ty) (m_numberOfVarLenFields ty)
     (m_varLenFieldIdx ty) extra (m_isVarLenFieldAdded ty)
     m (m_localToRemoteFieldMap ty) (m_fieldNameVsPdxType ty) (is_java_class_ ty).

Definition setLocalToRemote (m : option (list Z)) (ty : t) : t :=
  mk (m_pdxFieldTypes ty) (m_className ty) (m_geodeTypeId ty) (m_isLocal ty) (m_numberOfVarLenFields ty)
     (m_varLenFieldIdx ty) (m_numberOfFieldsExtra ty) (m_isVarLenFieldAdded ty)
     (m_remoteToLocalFieldMap ty) m (m_fieldNameVsPdxType ty) (is_java_class_ ty).

Definition setNames (m : gmap (list Z) nat) (ty : t) : t :=
  mk (m_pdxFieldTypes ty) (m_className ty) (m_geodeTypeId ty) (m_isLocal ty) (m_numberOfVarLenFields ty)
     (m_varLenFieldIdx ty) (m_numberOfFieldsExtra ty) (m_isVarLenFieldAdded ty)
     (m_remoteToLocalFieldMap ty) (m_localToRemoteFieldMap ty) m (is_java_class_ ty).

Definition load (p : nat) : ST S PdxFieldType.t := fun s =>
  match s.1 !! p with Some f => Ok (f, s) | None => Throw UndefinedBehaviour end.
Definition update (p : nat) (f : PdxFieldType.t) : ST S unit := st_modify (fun s => (<[p := f]> s.1, s.2)).
Definition modify_this (g : t -> t) : ST S unit := st_modify (fun s => (s.1, g s.2)).

(** The field objects of a type. *)
Definition fields (h : store) (ty : t) : list PdxFieldType.t :=
  omap (fun p => h !! p) (m_pdxFieldTypes ty).

Definition getTotalFields (ty : t) : Z := Z.of_nat (length (m_pdxFieldTypes ty)).

Definition addFixedLengthTypeField (fieldName className : list Z) (typeId : PdxFieldTypes) (size : Z) : ST S unit :=
  fun s =>
  match m_fieldNameVsPdxType s.2 !! fieldName with
  | Some _ => Throw IllegalStateException
  | None =>
    let pfx := PdxFieldType.construct fieldName className typeId (getTotalFields s.2) false size 0 in
    Ok (tt, (s.1 ++ [pfx], addField (length s.1) fieldName s.2))
  end.

Definition addVariableLengthTypeField (fieldName className : list Z) (typeId : PdxFieldTypes) : ST S unit :=
  fun s =>
  match m_fieldNameVsPdxType s.2 !! fieldName with
  | Some _ => Throw IllegalStateException
  | None =>
    let varLenFieldIdx := if m_isVarLenFieldAdded s.2 then m_varLenFieldIdx s.2 + 1 else m_varLenFieldIdx s.2 in
    let pfx := PdxFieldType.construct fieldName className typeId (getTotalFields s.2) true (-1) varLenFieldIdx in
    Ok (tt, (s.1 ++ [pfx], addField (length s.1) fieldName
                             (setVarLen (m_numberOfVarLenFields s.2 + 1) varLenFieldIdx true s.2)))
  end.

(** *** The maps between the fields of the sender's type, [this], and of the local type *)

Definition initRemoteToLocal (localPdxType : option t) : ST S unit := fun s =>
  match localPdxType with
  | None => Ok (tt, (s.1, setRemoteToLocal 0 (m_remoteToLocalFieldMap s.2) s.2))
  | Some local =>
    let localPdxFields := fields s.1 local in
    let m := (fun remotePdxField =>
                if existsb (fun localPdxfield => equals localPdxfield remotePdxField) localPdxFields then 1
                else if m_isVariableLengthType remotePdxField then -1 else -2) <$> fields s.1 s.2 in
    Ok (tt, (s.1, setRemoteToLocal (Z.of_nat (length (filter (fun x => x <> 1) m))) (Some m) s.2))
  end.

(** The second loop: the sequence id of the first remote field that is equal, or -1. *)
Definition remoteField (remotePdxFields : list PdxFieldType.t) (localPdxField : PdxFieldType.t) : Z :=
  match list_find (fun remotePdxfield => equals localPdxField remotePdxfield = true) remotePdxFields with
  | Some (_, remotePdx) => getSequenceId remotePdx
  | None => -1
  end.

(** The first loop: -2 as long as the fields are in the same order. *)
Fixpoint localToRemote (allRemote localPdxFields remotePdxFields : list PdxFieldType.t) : list Z :=
  match localPdxFields, remotePdxFields with
  | l :: ls, r :: rs =>
    if equals l r then -2 :: localToRemote allRemote ls rs
    else remoteField allRemote <$> localPdxFields
  | _, _ => remoteField allRemote <$> localPdxFields
  end.

Definition initLocalToRemote (localPdxType : option t) : ST S unit := fun s =>
  match localPdxType with
  | None => Ok (tt, s)
  | Some local =>
    let remote := fields s.1 s.2 in
    Ok (tt, (s.1, setLocalToRemote (Some (localToRemote remote (fields s.1 local) remote)) s.2))
  end.

Definition getLocalToRemoteMap (localPdxType : option t) : ST S (option (list Z)) :=
  s ← st_get;
  match m_localToRemoteFieldMap s.2 with
  | Some m => mret (Some m)
  | None => initLocalToRemote localPdxType;; st_gets (fun s => m_localToRemoteFieldMap s.2)
  end.

Definition getRemoteToLocalMap (localPdxType : option t) : ST S (option (list Z)) :=
  s ← st_get;
  match m_remoteToLocalFieldMap s.2 with
  | Some m => mret (Some m)
  | None => initRemoteToLocal localPdxType;; st_gets (fun s => m_remoteToLocalFieldMap s.2)
  end.

(** *** Positions *)

(** The first loop of [generatePositionMap], over the fields from the last to the first.
    [std::map::insert] keeps an entry that is there. *)
Fixpoint offsetsFromBack (ps : list nat) (foundVarLen : bool) (lastVarLenSeqId : Z)
    (previousField : option nat) : ST S unit :=
  match ps with
  | [] => mret tt
  | p :: ps' =>
    tmpft ← load p;
    modify_this (fun ty => setNames (m_fieldNameVsPdxType ty ∪ {[m_fieldName tmpft := p]}) ty);;
    if m_isVariableLengthType tmpft then
      update p (setOffsets (PdxFieldType.m_varLenFieldIdx tmpft) 0 tmpft);;
      offsetsFromBack ps' true (PdxFieldType.m_varLenFieldIdx tmpft) (Some p)
    else
      (if foundVarLen then
         match previousField with
         | None => st_throw UndefinedBehaviour
         | Some q =>
           prev ← load q;
           update p (setOffsets lastVarLenSeqId (- m_fixedSize tmpft + m_relativeOffset prev) tmpft)
         end
       else
         match previousField with
         | None => update p (setOffsets (-1) (- m_fixedSize tmpft) tmpft)
         | Some q =>
           prev ← load q;
           update p (setOffsets (-1) (- m_fixedSize tmpft + m_relativeOffset prev) tmpft)
         end);;
      offsetsFromBack ps' foundVarLen lastVarLenSeqId (Some p)
  end.

(** The second loop, up to the first field of variable length. *)
Fixpoint offsetsFromFront (ps : list nat) (prevFixedSizeOffsets : Z) : ST S unit :=
  match ps with
  | [] => mret tt
  | p :: ps' =>
    tmpft ← load p;
    if m_isVariableLengthType tmpft then update p (setOffsets (-1) prevFixedSizeOffsets tmpft)
    else
      update p (setOffsets 0 prevFixedSizeOffsets tmpft);;
      offsetsFromFront ps' (prevFixedSizeOffsets + m_fixedSize tmpft)
  end.

Definition generatePositionMap : ST S unit :=
  s ← st_get;
  offsetsFromBack (rev (m_pdxFieldTypes s.2)) false 0 None;;
  offsetsFromFront (m_pdxFieldTypes s.2) 0.

Definition InitializeType (localPdxType : option t) : ST S unit :=
  initRemoteToLocal localPdxType;; initLocalToRemote localPdxType;; generatePositionMap.

Definition fixedLengthFieldPosition (ty : t) (fixLenField : PdxFieldType.t) (mem : list Z)
    (offsetPosition offsetSize pdxStreamlen : Z) : outcome Z :=
  let offset := m_vlOffsetIndex fixLenField in
  if 0 <=? m_relativeOffset fixLenField then Ok (m_relativeOffset fixLenField)
  else if offset =? -1 then Ok (pdxStreamlen + m_relativeOffset fixLenField)
  else
    o ← PdxHelper.readInt mem (offsetPosition + (m_numberOfVarLenFields ty - offset - 1) * offsetSize) offsetSize;
    Ok (o + m_relativeOffset fixLenField).

Definition variableLengthFieldPosition (ty : t) (varLenField : PdxFieldType.t) (mem : list Z)
    (offsetPosition offsetSize : Z) : outcome Z :=
  let offset := m_vlOffsetIndex varLenField in
  if offset =? -1 then Ok (m_relativeOffset varLenField)
  else PdxHelper.readInt mem (offsetPosition + (m_numberOfVarLenFields ty - offset - 1) * offsetSize) offsetSize.

Definition fieldPosition (ty : t) (pft : PdxFieldType.t) (mem : list Z)
    (offsetPosition offsetSize pdxStreamlen : Z) : outcome Z :=
  if m_isVariableLengthType pft then variableLengthFieldPosition ty pft mem offsetPosition offsetSize
  else fixedLengthFieldPosition ty pft mem offsetPosition offsetSize pdxStreamlen.

(** By index; [std::vector::at] throws. *)
Definition getFieldPosition (h : store) (ty : t) (fieldIdx : Z) (mem : list Z)
    (offsetPosition offsetSize pdxStreamlen : Z) : outcome Z :=
  if fieldIdx <? 0 then Throw StdOutOfRange
  else match m_pdxFieldTypes ty !! Z.to_nat fieldIdx with
       | None => Throw StdOutOfRange
       | Some p =>
         match h !! p with
         | None => Throw UndefinedBehaviour
         | Some pft => fieldPosition ty pft mem offsetPosition offsetSize pdxStreamlen
         end
       end.

(** By name. *)
Definition getFieldPosition_name (h : store) (ty : t) (fieldName : list Z) (mem : list Z)
    (offsetPosition offsetSize pdxStreamlen : Z) : outcome Z :=
  match m_fieldNameVsPdxType ty !! fieldName with
  | None => Ok (-1)
  | Some p =>
    match h !! p with
    | None => Throw UndefinedBehaviour
    | Some pft => fieldPosition ty pft mem offsetPosition offsetSize pdxStreamlen
    end
  end.

(** *** Merging the local type with the sender's *)

(** The rest of [first] from the first field that is equal to [f], that field included. *)
Fixpoint seek (first : list PdxFieldType.t) (f : PdxFieldType.t) : list PdxFieldType.t :=
  match first with
  | [] => []
  | g :: rest => if equals g f then first else seek rest f
  end.

Fixpoint isContains (first second : list PdxFieldType.t) : bool :=
  match second with
  | [] => true
  | f :: second' => match seek first f with [] => false | rest => isContains rest second' end
  end.

(** [shared_from_this()], the other type, or a new one. *)
Inductive merged := This | Other | New (ty : t).

Definition clone (ty : t) : t :=
  mk (m_pdxFieldTypes ty) (m_className ty) 0 false (m_numberOfVarLenFields ty) 0 0 false None None ∅ true.

(** The new type gets the fields of the other version that it does not have. *)
Fixpoint mergeFields (others : list PdxFieldType.t) (varLenFields : Z) : ST S Z :=
  match others with
  | [] => mret varLenFields
  | f :: others' =>
    s ← st_get;
    if existsb (fun g => equals g f) (fields s.1 s.2) then mergeFields others' varLenFields
    else
      let isVar := m_isVariableLengthType f in
      let newFt := PdxFieldType.construct (m_fieldName f) (PdxFieldType.m_className f) (m_typeId f)
                     (getTotalFields s.2) isVar (m_fixedSize f) (if isVar then varLenFields else 0) in
      st_put (s.1 ++ [newFt],
              mk (m_pdxFieldTypes s.2 ++ [length s.1]) (m_className s.2) (m_geodeTypeId s.2) (m_isLocal s.2)
                 (m_numberOfVarLenFields s.2) (m_varLenFieldIdx s.2) (m_numberOfFieldsExtra s.2)
                 (m_isVarLenFieldAdded s.2) (m_remoteToLocalFieldMap s.2) (m_localToRemoteFieldMap s.2)
                 (m_fieldNameVsPdxType s.2) (is_java_class_ s.2));;
      mergeFields others' (if isVar then varLenFields + 1 else varLenFields)
  end.

Definition mergeVersion (h : store) (this other : t) : outcome (merged * store) :=
  let mine := fields h this in
  let others := fields h other in
  if (length others <=? length mine)%nat && isContains mine others then Ok (This, h)
  else if (length mine <=? length others)%nat && isContains others mine then Ok (Other, h)
  else
    '(varLenFields, (h', newone)) ← mergeFields others (m_numberOfVarLenFields this) (h, clone this);
    let idx := if 0 <? varLenFields then varLenFields else m_varLenFieldIdx newone in
    Ok (New (setVarLen varLenFields idx (m_isVarLenFieldAdded newone) newone), h').

(** *** On the wire *)

Section Wire.
Context `{Allocator} (to_utf16 to_utf8 : list Z -> outcome (list Z)).

Definition m_javaPdxClass : list Z := literal "org.apache.geode.pdx.internal.PdxType".
Definition DataSerializable : Z := 45.
Definition Class_ : Z := 43.

Definition toData (h : store) (ty : t) : ST DataOutput.t unit :=
  DataOutput.write_int8 DataSerializable;;
  DataOutput.write_int8 Class_;;
  DataOutput.writeString_string to_utf16 m_javaPdxClass;;
  DataOutput.writeString_string to_utf16 (m_className ty);;
  DataOutput.writeBoolean (negb (is_java_class_ ty));;
  DataOutput.writeInt_int32 (m_geodeTypeId ty);;
  DataOutput.writeInt_int32 (m_varLenFieldIdx ty);;
  DataOutput.writeArrayLen (s32 (getTotalFields ty));;
  st_iter (PdxFieldType.toData to_utf16) (fields h ty).

(** The part of [fromData] that reads: the class name, whether it is a Java class, the type
    id, the index of the last field of variable length, and the fields. *)
Definition readType : ST DataInput.t (list Z * bool * Z * Z * list PdxFieldType.t) :=
  DataInput.read;;
  DataInput.read;;
  DataInput.readString_string to_utf8;;
  className ← DataInput.readString_string to_utf8;
  noJava ← DataInput.readBoolean;
  typeId ← DataInput.readInt32;
  varLenFieldIdx ← DataInput.readInt32;
  len ← DataInput.readArrayLength;
  fts ← st_repeat (Z.to_nat len) (PdxFieldType.fromData to_utf8);
  mret (className, negb noJava, typeId, varLenFieldIdx, fts).

Definition fromData (localPdxType : option t) (h : store) (ty : t) : ST DataInput.t S :=
  '(className, java, typeId, varLenFieldIdx, fts) ← readType;
  let foundVarLenType := existsb m_isVariableLengthType fts in
  let number := if negb (varLenFieldIdx =? 0) then varLenFieldIdx + 1
                else if foundVarLenType then 1 else m_numberOfVarLenFields ty in
  let ty' := mk (m_pdxFieldTypes ty ++ seq (length h) (length fts)) className typeId (m_isLocal ty) number
                varLenFieldIdx (m_numberOfFieldsExtra ty) (m_isVarLenFieldAdded ty)
                (m_remoteToLocalFieldMap ty) (m_localToRemoteFieldMap ty) (m_fieldNameVsPdxType ty) java in
  '(_, s) ← st_lift (InitializeType localPdxType (h ++ fts, ty'));
  mret s.
End Wire.
End PdxType.
