(* ===== verification/PdxStreams.v ===== *)
(** Writers and readers of PDX objects (src/cppcache/src/PdxLocalWriter.cpp and .hpp,
    PdxWriterWithTypeCollector.cpp, PdxLocalReader.cpp, PdxRemoteReader.cpp): the fields of an
    object, written one after the other behind a header and followed by the offsets of the
    fields of variable length, and read back in order or by position.

    [writeObj] and [readObj] are the serialization of objects by the registered types;
    enums, object arrays and unread fields are not modelled. A floating-point number is its
    bits, a date its milliseconds, a null array of byte arrays [None]. *)
From S2P Require Import Prelude DataOutput DataInput PdxType.

(** The value of a field, by the function that writes it. *)
Inductive PdxValue (O : Type) :=
| VChar (c : Z)
| VBoolean (b : bool)
| VByte (z : Z)
| VShort (z : Z)
| VInt (z : Z)
| VLong (z : Z)
| VFloat (bits : Z)
| VDouble (bits : Z)
| VDate (d : option Z)
| VString (s : list Z)
| VObject (o : O)
| VBooleanArray (l : list bool)
| VCharArray (l : list Z)
| VByteArray (l : list Z)
| VShortArray (l : list Z)
| VIntArray (l : list Z)
| VLongArray (l : list Z)
| VFloatArray (l : list Z)
| VDoubleArray (l : list Z)
| VStringArray (l : list (list Z))
| VArrayOfByteArrays (l : option (list (list Z))).
Arguments VChar {O} _.
Arguments VBoolean {O} _.
Arguments VByte {O} _.
Arguments VShort {O} _.
Arguments VInt {O} _.
Arguments VLong {O} _.
Arguments VFloat {O} _.
Arguments VDouble {O} _.
Arguments VDate {O} _.
Arguments VString {O} _.
Arguments VObject {O} _.
Arguments VBooleanArray {O} _.
Arguments VCharArray {O} _.
Arguments VByteArray {O} _.
Arguments VShortArray {O} _.
Arguments VIntArray {O} _.
Arguments VLongArray {O} _.
Arguments VFloatArray {O} _.
Arguments VDoubleArray {O} _.
Arguments VStringArray {O} _.
Arguments VArrayOfByteArrays {O} _.

Definition kindOf {O} (v : PdxValue O) : PdxFieldTypes :=
  match v with
  | VChar _ => CHAR | VBoolean _ => BOOLEAN | VByte _ => BYTE | VShort _ => SHORT | VInt _ => INT
  | VLong _ => LONG | VFloat _ => FLOAT | VDouble _ => DOUBLE | VDate _ => DATE | VString _ => STRING
  | VObject _ => OBJECT | VBooleanArray _ => BOOLEAN_ARRAY | VCharArray _ => CHAR_ARRAY
  | VByteArray _ => BYTE_ARRAY | VShortArray _ => SHORT_ARRAY | VIntArray _ => INT_ARRAY
  | VLongArray _ => LONG_ARRAY | VFloatArray _ => FLOAT_ARRAY | VDoubleArray _ => DOUBLE_ARRAY
  | VStringArray _ => STRING_ARRAY | VArrayOfByteArrays _ => ARRAY_OF_BYTE_ARRAYS
  end.

(** *** Writing *)

Module PdxLocalWriter.
Section Writer.
Context `{Allocator} {O : Type} (to_utf16 : list Z -> outcome (list Z)) (writeObj : O -> ST DataOutput.t unit).

Record t := mk {
  m_dataOutput : DataOutput.t;
  m_store : list PdxFieldType.t;
  m_pdxType : PdxType.t;
  m_startPositionOffset : Z;
  m_offsets : list Z
}.

Definition on_output {A} (m : ST DataOutput.t A) : ST t A := fun w =>
  match m (m_dataOutput w) with
  | Ok (a, d) => Ok (a, mk d (m_store w) (m_pdxType w) (m_startPositionOffset w) (m_offsets w))
  | Throw e => Throw e
  end.

(** An operation on the type that is being collected. *)
Definition on_type {A} (m : ST PdxType.S A) : ST t A := fun w =>
  match m (m_store w, m_pdxType w) with
  | Ok (a, (h, ty)) => Ok (a, mk (m_dataOutput w) h ty (m_startPositionOffset w) (m_offsets w))
  | Throw e => Throw e
  end.

(** The constructor and [initialize]. *)
Definition construct (output : DataOutput.t) (h : list PdxFieldType.t) (pdxType : PdxType.t) : outcome t :=
  let start := s32 (DataOutput.getBufferLength output) in
  '(_, output) ← DataOutput.advanceCursor PdxHelper.PdxHeader output;
  Ok (mk output h pdxType start []).

Definition addOffset : ST t unit := st_modify (fun w =>
  let bufferLen := DataOutput.getBufferLength (m_dataOutput w) - m_startPositionOffset w in
  let offset := s32 (bufferLen - PdxHelper.PdxHeader) in
  mk (m_dataOutput w) (m_store w) (m_pdxType w) (m_startPositionOffset w) (m_offsets w ++ [offset])).

(** What both versions of [calculateLenWithOffsets] do with the number of offsets. *)
Definition lenWithOffsets (totalOffsets : Z) (w : t) : Z :=
  let bufferLen := DataOutput.getBufferLength (m_dataOutput w) - m_startPositionOffset w in
  let totalLen := s32 (bufferLen - PdxHelper.PdxHeader + totalOffsets) in
  if totalLen <=? 0xff then totalLen
  else if totalLen + totalOffsets <=? 0xffff then totalLen + totalOffsets
  else totalLen + totalOffsets * 3.

Definition calculateLenWithOffsets (w : t) : Z :=
  let n := PdxType.m_numberOfVarLenFields (m_pdxType w) in
  lenWithOffsets (if 0 <? n then n - 1 else 0) w.

(** [for (i = m_offsets.size() - 1; i > 0; i--)]. *)
Definition writeOffsets (len : Z) : ST t unit :=
  w ← st_get;
  let offsets := rev (drop 1 (m_offsets w)) in
  on_output
    (if len <=? 0xff then st_iter (fun o => DataOutput.write (u8 o)) offsets
     else if len <=? 0xffff then st_iter (fun o => DataOutput.writeInt_uint16 (u16 o)) offsets
     else st_iter (fun o => DataOutput.writeInt_uint32 (u32 o)) offsets).

(** [calculateLenWithOffsets] is virtual. *)
Definition writePdxHeader (calculateLen : t -> Z) : ST t unit :=
  w ← st_get;
  let len := calculateLen w in
  let typeId := PdxType.m_geodeTypeId (m_pdxType w) in
  let starpos := m_startPositionOffset w in
  on_output (PdxHelper.writeInt32 starpos len);;
  on_output (PdxHelper.writeInt32 (starpos + 4) typeId);;
  writeOffsets len.

Definition endObjectWriting : ST t unit := writePdxHeader calculateLenWithOffsets.

Definition writeChar (value : Z) : ST t unit := on_output (DataOutput.writeChar value).
Definition writeBoolean (value : bool) : ST t unit := on_output (DataOutput.writeBoolean value).
Definition writeByte (value : Z) : ST t unit := on_output (DataOutput.write_int8 value).
Definition writeShort (value : Z) : ST t unit := on_output (DataOutput.writeInt_int16 value).
Definition writeInt (value : Z) : ST t unit := on_output (DataOutput.writeInt_int32 value).
Definition writeLong (value : Z) : ST t unit := on_output (DataOutput.writeInt_int64 value).
Definition writeFloat (value : Z) : ST t unit := on_output (DataOutput.writeFloat value).
Definition writeDouble (value : Z) : ST t unit := on_output (DataOutput.writeDouble value).
Definition writeDate (date : option Z) : ST t unit :=
  match date with
  | Some ms => on_output (DataOutput.writeInt_int64 ms)
  | None => on_output (DataOutput.writeInt_uint64 (u64 (-1)))
  end.
Definition writeString (value : list Z) : ST t unit :=
  addOffset;; on_output (DataOutput.writeString_string to_utf16 value).
Definition writeStringArray (array : list (list Z)) : ST t unit :=
  addOffset;;
  on_output (DataOutput.writeArrayLen (s32 (Z.of_nat (length array))));;
  on_output (st_iter (DataOutput.writeString_string to_utf16) array).
Definition writeObject (value : O) : ST t unit := addOffset;; on_output (writeObj value).

(** The template, over the writer of the elements. *)
Definition writeArrayObject {A} (writeElement : A -> ST DataOutput.t unit) (array : list A) : ST t unit :=
  on_output (DataOutput.writeArrayLen (s32 (Z.of_nat (length array))));;
  on_output (st_iter writeElement array).

Definition writeBooleanArray (a : list bool) : ST t unit := addOffset;; writeArrayObject DataOutput.writeBoolean a.
Definition writeCharArray (a : list Z) : ST t unit := addOffset;; writeArrayObject DataOutput.writeInt_uint16 a.
Definition writeByteArray (a : list Z) : ST t unit := addOffset;; writeArrayObject DataOutput.write_int8 a.
Definition writeShortArray (a : list Z) : ST t unit := addOffset;; writeArrayObject DataOutput.writeInt_int16 a.
Definition writeIntArray (a : list Z) : ST t unit := addOffset;; writeArrayObject DataOutput.writeInt_int32 a.
Definition writeLongArray (a : list Z) : ST t unit := addOffset;; writeArrayObject DataOutput.writeInt_int64 a.
Definition writeFloatArray (a : list Z) : ST t unit := addOffset;; writeArrayObject DataOutput.writeFloat a.
Definition writeDoubleArray (a : list Z) : ST t unit := addOffset;; writeArrayObject DataOutput.writeDouble a.

Definition writeArrayOfByteArrays (byteArrays : option (list (list Z))) : ST t unit :=
  addOffset;;
  match byteArrays with
  | Some arrays =>
    on_output (DataOutput.writeArrayLen (Z.of_nat (length arrays)));;
    on_output (st_iter (fun a => DataOutput.writeBytes (Some a) (Z.of_nat (length a))) arrays)
  | None => on_output (DataOutput.write_int8 (-1))
  end.

(** The call that writes a value. *)
Definition writeValue (v : PdxValue O) : ST t unit :=
  match v with
  | VChar c => writeChar c
  | VBoolean b => writeBoolean b
  | VByte z => writeByte z
  | VShort z => writeShort z
  | VInt z => writeInt z
  | VLong z => writeLong z
  | VFloat z => writeFloat z
  | VDouble z => writeDouble z
  | VDate d => writeDate d
  | VString s => writeString s
  | VObject o => writeObject o
  | VBooleanArray l => writeBooleanArray l
  | VCharArray l => writeCharArray l
  | VByteArray l => writeByteArray l
  | VShortArray l => writeShortArray l
  | VIntArray l => writeIntArray l
  | VLongArray l => writeLongArray l
  | VFloatArray l => writeFloatArray l
  | VDoubleArray l => writeDoubleArray l
  | VStringArray l => writeStringArray l
  | VArrayOfByteArrays l => writeArrayOfByteArrays l
  end.
End Writer.
End PdxLocalWriter.

Module PdxWriterWithTypeCollector.
Import PdxLocalWriter.
Section Collector.
Context `{Allocator} {O : Type} (to_utf16 : list Z -> outcome (list Z)) (writeObj : O -> ST DataOutput.t unit).

Definition construct (output : DataOutput.t) (h : list PdxFieldType.t) (domainClassName : list Z) : outcome t :=
  PdxLocalWriter.construct output h (PdxType.construct domainClassName true true).

Definition calculateLenWithOffsets (w : t) : Z :=
  lenWithOffsets (if (0 <? length (m_offsets w))%nat then Z.of_nat (length (m_offsets w)) - 1 else 0) w.

Definition endObjectWriting : ST t unit := writePdxHeader calculateLenWithOffsets.

(** The class name and, for a type of fixed length, the size that each call records. *)
Definition fieldClass (v : PdxValue O) : list Z * option Z :=
  match v with
  | VChar _ => (literal "char", Some PdxTypes.kPdxCharSize)
  | VBoolean _ => (literal "boolean", Some PdxTypes.kPdxBooleanSize)
  | VByte _ => (literal "byte", Some PdxTypes.kPdxByteSize)
  | VShort _ => (literal "short", Some PdxTypes.kPdxShortSize)
  | VInt _ => (literal "int", Some PdxTypes.kPdxIntegerSize)
  | VLong _ => (literal "long", Some PdxTypes.kPdxLongSize)
  | VFloat _ => (literal "float", Some PdxTypes.kPdxFloatSize)
  | VDouble _ => (literal "double", Some PdxTypes.kPdxDoubleSize)
  | VDate _ => (literal "Date", Some PdxTypes.kPdxDateSize)
  | VString _ => (literal "String", None)
  | VObject _ => (literal "Serializable", None)
  | VBooleanArray _ => (literal "bool[]", None)
  | VCharArray _ => (literal "char[]", None)
  | VByteArray _ => (literal "byte[]", None)
  | VShortArray _ => (literal "short[]", None)
  | VIntArray _ => (literal "int[]", None)
  | VLongArray _ => (literal "long[]", None)
  | VFloatArray _ => (literal "float[]", None)
  | VDoubleArray _ => (literal "double[]", None)
  | VStringArray _ => (literal "String[]", None)
  | VArrayOfByteArrays _ => (literal "byte[][]", None)
  end.

(** Each call adds the field to the type and then writes it as [PdxLocalWriter] does. *)
Definition writeField (fieldName : list Z) (v : PdxValue O) : ST t unit :=
  (match fieldClass v with
   | (cls, Some size) => on_type (PdxType.addFixedLengthTypeField fieldName cls (kindOf v) size)
   | (cls, None) => on_type (PdxType.addVariableLengthTypeField fieldName cls (kindOf v))
   end);;
  PdxLocalWriter.writeValue to_utf16 writeObj v.

Definition markIdentityField (fieldName : list Z) : ST t unit := fun w =>
  match PdxType.m_fieldNameVsPdxType (m_pdxType w) !! fieldName with
  | None => Throw IllegalStateException
  | Some p =>
    Ok (tt, mk (m_dataOutput w) (alter (PdxFieldType.setIdentityField true) p (m_store w)) (m_pdxType w)
               (m_startPositionOffset w) (m_offsets w))
  end.
End Collector.
End PdxWriterWithTypeCollector.

(** *** Reading *)

Module PdxLocalReader.
Section Reader.
Context {O : Type} (to_utf8 : list Z -> outcome (list Z)) (readObj : ST DataInput.t O).

(** Buffer pointers are positions in the input's buffer. *)
Record t := mk {
  m_dataInput : DataInput.t;
  m_pdxType : PdxType.t;
  m_startBuffer : Z;
  m_startPosition : Z;
  m_serializedLength : Z;
  m_serializedLengthWithOffsets : Z;
  m_offsetSize : Z;
  m_offsetsBuffer : Z;
  m_localToRemoteMap : option (list Z);
  m_remoteToLocalMap : option (list Z);
  m_currentIndex : Z   (** of [PdxRemoteReader] *)
}.

Definition with_input (d : DataInput.t) (r : t) : t :=
  mk d (m_pdxType r) (m_startBuffer r) (m_startPosition r) (m_serializedLength r)
     (m_serializedLengthWithOffsets r) (m_offsetSize r) (m_offsetsBuffer r)
     (m_localToRemoteMap r) (m_remoteToLocalMap r) (m_currentIndex r).

Definition on_input {A} (m : ST DataInput.t A) : ST t A := fun r =>
  match m (m_dataInput r) with Ok (a, d) => Ok (a, with_input d r) | Throw e => Throw e end.

(** The constructor and [initialize]; the type may get its field maps here. *)
Definition construct (localPdxType : option PdxType.t) (h : list PdxFieldType.t) (remoteType : PdxType.t)
    (pdxLen : Z) (input : DataInput.t) : outcome t :=
  '(l2r, s) ← PdxType.getLocalToRemoteMap localPdxType (h, remoteType);
  '(r2l, s) ← PdxType.getRemoteToLocalMap localPdxType s;
  let offsetSize := if pdxLen <=? 0xff then 1 else if pdxLen <=? 0xffff then 2 else 4 in
  let n := PdxType.m_numberOfVarLenFields s.2 in
  let serializedLength := if 0 <? n then pdxLen - (n - 1) * offsetSize else pdxLen in
  let startBuffer := DataInput.pos input in
  Ok (mk input s.2 startBuffer (s32 (DataInput.getBytesRead input)) serializedLength pdxLen offsetSize
         (startBuffer + serializedLength) l2r r2l 0).

Definition resettoPdxHead : ST t unit :=
  r ← st_get;
  on_input (DataInput.rewindCursor (s32 (DataInput.pos (m_dataInput r) - m_startBuffer r))).

(** [reset(offset)] sets the cursor. *)
Definition moveStream : ST t unit :=
  r ← st_get; on_input (DataInput.resetPdx (m_startPosition r + m_serializedLengthWithOffsets r)).

Definition readChar : ST t Z := c ← on_input DataInput.readInt16; mret (u16 c).
Definition readBoolean : ST t bool := on_input DataInput.readBoolean.
Definition readByte : ST t Z := on_input DataInput.read.
Definition readShort : ST t Z := on_input DataInput.readInt16.
Definition readInt : ST t Z := on_input DataInput.readInt32.
Definition readLong : ST t Z := on_input DataInput.readInt64.
Definition readFloat : ST t Z := on_input DataInput.readFloat.
Definition readDouble : ST t Z := on_input DataInput.readDouble.
Definition readString : ST t (list Z) := on_input (DataInput.readString_string to_utf8).
Definition readObject : ST t O := on_input readObj.
Definition readCharArray : ST t (list Z) := on_input DataInput.readCharArray.
Definition readBooleanArray : ST t (list bool) := on_input DataInput.readBooleanArray.
Definition readByteArray : ST t (list Z) := on_input DataInput.readByteArray.
Definition readShortArray : ST t (list Z) := on_input DataInput.readShortArray.
Definition readIntArray : ST t (list Z) := on_input DataInput.readIntArray.
Definition readLongArray : ST t (list Z) := on_input DataInput.readLongArray.
Definition readFloatArray : ST t (list Z) := on_input DataInput.readFloatArray.
Definition readDoubleArray : ST t (list Z) := on_input DataInput.readDoubleArray.
Definition readStringArray : ST t (list (list Z)) := on_input (DataInput.readStringArray to_utf8).
(** An element of length 0 is a null pointer. *)
Definition readArrayOfByteArrays : ST t (option (list (list Z))) :=
  a ← on_input DataInput.readArrayOfByteArrays;
  mret (match a with Some l => Some (map (fun x => default [] x.1) l) | None => None end).
Definition readDate : ST t (option Z) := ms ← on_input DataInput.readInt64; mret (Some ms).

(** The call that reads a field of a kind; there is none for the other kinds. *)
Definition readValue (k : PdxFieldTypes) : ST t (PdxValue O) :=
  match k with
  | CHAR => x ← readChar; mret (VChar x)
  | BOOLEAN => x ← readBoolean; mret (VBoolean x)
  | BYTE => x ← readByte; mret (VByte x)
  | SHORT => x ← readShort; mret (VShort x)
  | INT => x ← readInt; mret (VInt x)
  | LONG => x ← readLong; mret (VLong x)
  | FLOAT => x ← readFloat; mret (VFloat x)
  | DOUBLE => x ← readDouble; mret (VDouble x)
  | DATE => x ← readDate; mret (VDate x)
  | STRING => x ← readString; mret (VString x)
  | OBJECT => x ← readObject; mret (VObject x)
  | BOOLEAN_ARRAY => x ← readBooleanArray; mret (VBooleanArray x)
  | CHAR_ARRAY => x ← readCharArray; mret (VCharArray x)
  | BYTE_ARRAY => x ← readByteArray; mret (VByteArray x)
  | SHORT_ARRAY => x ← readShortArray; mret (VShortArray x)
  | INT_ARRAY => x ← readIntArray; mret (VIntArray x)
  | LONG_ARRAY => x ← readLongArray; mret (VLongArray x)
  | FLOAT_ARRAY => x ← readFloatArray; mret (VFloatArray x)
  | DOUBLE_ARRAY => x ← readDoubleArray; mret (VDoubleArray x)
  | STRING_ARRAY => x ← readStringArray; mret (VStringArray x)
  | ARRAY_OF_BYTE_ARRAYS => x ← readArrayOfByteArrays; mret (VArrayOfByteArrays x)
  | UNKNOWN | OBJECT_ARRAY => st_throw IllegalArgumentException
  end.
End Reader.
End PdxLocalReader.

Module PdxRemoteReader.
Import PdxLocalReader.
Section Reader.
Context {O : Type} (to_utf8 : list Z -> outcome (list Z)) (readObj : ST DataInput.t O) (nullObj : O).
Context (h : list PdxFieldType.t).

(** [m_localToRemoteMap[m_currentIndex++]]. *)
Definition nextChoice : ST t Z := fun r =>
  match m_localToRemoteMap r with
  | None => Throw UndefinedBehaviour
  | Some m =>
    match m !! Z.to_nat (m_currentIndex r) with
    | None => Throw UndefinedBehaviour
    | Some choice =>
      Ok (choice, mk (m_dataInput r) (m_pdxType r) (m_startBuffer r) (m_startPosition r) (m_serializedLength r)
                     (m_serializedLengthWithOffsets r) (m_offsetSize r) (m_offsetsBuffer r)
                     (m_localToRemoteMap r) (m_remoteToLocalMap r) (m_currentIndex r + 1))
    end
  end.

Definition position (choice : Z) : ST t Z :=
  r ← st_get;
  st_lift (PdxType.getFieldPosition h (m_pdxType r) choice (DataInput.buffer (m_dataInput r))
             (m_offsetsBuffer r) (m_offsetSize r) (m_serializedLength r)).

(** Reads the field at a position and goes back to the head. *)
Definition readAt {A} (pos : Z) (rd : ST t A) : ST t A :=
  resettoPdxHead;; on_input (DataInput.advanceCursor pos);; x ← rd; resettoPdxHead;; mret x.

(** [readChar], [readObjectArray], [readArrayOfByteArrays] and [readDate]: the local reader
    if the fields are in the same order, a null value for a field that the sender does not
    have, and else the field at its position. *)
Definition readField {A} (null : A) (rd : ST t A) : ST t A :=
  choice ← nextChoice;
  if choice =? -2 then rd
  else if choice =? -1 then mret null
  else pos ← position choice; readAt pos rd.

(** The other scalars, objects, strings and string arrays test the position. *)
Definition readFieldChecked {A} (null : A) (rd : ST t A) : ST t A :=
  choice ← nextChoice;
  if choice =? -2 then rd
  else if choice =? -1 then mret null
  else pos ← position choice; if negb (pos =? -1) then readAt pos rd else mret null.

(** [readCharArray] and [readBooleanArray]: no case for -1, no test. *)
Definition readArrayField {A} (rd : ST t (list A)) : ST t (list A) :=
  choice ← nextChoice;
  if choice =? -2 then rd else pos ← position choice; readAt pos rd.

(** The other arrays: no case for -1. *)
Definition readArrayFieldChecked {A} (rd : ST t (list A)) : ST t (list A) :=
  choice ← nextChoice;
  if choice =? -2 then rd
  else pos ← position choice; if negb (pos =? -1) then readAt pos rd else mret [].

Definition readChar : ST t Z := readField 0 PdxLocalReader.readChar.
Definition readBoolean : ST t bool := readFieldChecked false PdxLocalReader.readBoolean.
Definition readByte : ST t Z := readFieldChecked 0 PdxLocalReader.readByte.
Definition readShort : ST t Z := readFieldChecked 0 PdxLocalReader.readShort.
Definition readInt : ST t Z := readFieldChecked 0 PdxLocalReader.readInt.
Definition readLong : ST t Z := readFieldChecked 0 PdxLocalReader.readLong.
Definition readFloat : ST t Z := readFieldChecked 0 PdxLocalReader.readFloat.
Definition readDouble : ST t Z := readFieldChecked 0 PdxLocalReader.readDouble.
Definition readString : ST t (list Z) := readFieldChecked [] (PdxLocalReader.readString to_utf8).
Definition readObject : ST t O := readFieldChecked nullObj (PdxLocalReader.readObject readObj).
Definition readCharArray : ST t (list Z) := readArrayField PdxLocalReader.readCharArray.
Definition readBooleanArray : ST t (list bool) := readArrayField PdxLocalReader.readBooleanArray.
Definition readByteArray : ST t (list Z) := readArrayFieldChecked PdxLocalReader.readByteArray.
Definition readShortArray : ST t (list Z) := readArrayFieldChecked PdxLocalReader.readShortArray.
Definition readIntArray : ST t (list Z) := readArrayFieldChecked PdxLocalReader.readIntArray.
Definition readLongArray : ST t (list Z) := readArrayFieldChecked PdxLocalReader.readLongArray.
Definition readFloatArray : ST t (list Z) := readArrayFieldChecked PdxLocalReader.readFloatArray.
Definition readDoubleArray : ST t (list Z) := readArrayFieldChecked PdxLocalReader.readDoubleArray.
Definition readStringArray : ST t (list (list Z)) := readFieldChecked [] (PdxLocalReader.readStringArray to_utf8).
Definition readArrayOfByteArrays : ST t (option (list (list Z))) := readField None PdxLocalReader.readArrayOfByteArrays.
Definition readDate : ST t (option Z) := readField None PdxLocalReader.readDate.

Definition readValue (k : PdxFieldTypes) : ST t (PdxValue O) :=
  match k with
  | CHAR => x ← readChar; mret (VChar x)
  | BOOLEAN => x ← readBoolean; mret (VBoolean x)
  | BYTE => x ← readByte; mret (VByte x)
  | SHORT => x ← readShort; mret (VShort x)
  | INT => x ← readInt; mret (VInt x)
  | LONG => x ← readLong; mret (VLong x)
  | FLOAT => x ← readFloat; mret (VFloat x)
  | DOUBLE => x ← readDouble; mret (VDouble x)
  | DATE => x ← readDate; mret (VDate x)
  | STRING => x ← readString; mret (VString x)
  | OBJECT => x ← readObject; mret (VObject x)
  | BOOLEAN_ARRAY => x ← readBooleanArray; mret (VBooleanArray x)
  | CHAR_ARRAY => x ← readCharArray; mret (VCharArray x)
  | BYTE_ARRAY => x ← readByteArray; mret (VByteArray x)
  | SHORT_ARRAY => x ← readShortArray; mret (VShortArray x)
  | INT_ARRAY => x ← readIntArray; mret (VIntArray x)
  | LONG_ARRAY => x ← readLongArray; mret (VLongArray x)
  | FLOAT_ARRAY => x ← readFloatArray; mret (VFloatArray x)
  | DOUBLE_ARRAY => x ← readDoubleArray; mret (VDoubleArray x)
  | STRING_ARRAY => x ← readStringArray; mret (VStringArray x)
  | ARRAY_OF_BYTE_ARRAYS => x ← readArrayOfByteArrays; mret (VArrayOfByteArrays x)
  | UNKNOWN | OBJECT_ARRAY => st_throw IllegalArgumentException
  end.
End Reader.
End PdxRemoteReader.

(** *** Whole objects *)

(** [PdxHelper::serializePdx] for a class whose type is not known yet, and the branches of
    [PdxHelper::deserializePdx] for known types. The object's [toData] and [fromData] are the
    sequences of their calls: the fields [fs], or the kinds [ks] that are read. The server
    gives the type its id. *)
Module PdxObject.
Section Object.
Context `{Allocator} {O : Type} (to_utf16 to_utf8 : list Z -> outcome (list Z)).
Context (writeObj : O -> ST DataOutput.t unit) (readObj : ST DataInput.t O) (nullObj : O).

Definition setTypeId (typeId : Z) (w : PdxLocalWriter.t) : PdxLocalWriter.t :=
  PdxLocalWriter.mk (PdxLocalWriter.m_dataOutput w) (PdxLocalWriter.m_store w)
    (PdxType.setTypeId typeId (PdxLocalWriter.m_pdxType w))
    (PdxLocalWriter.m_startPositionOffset w) (PdxLocalWriter.m_offsets w).

Definition serializePdx (className : list Z) (nTypeId : Z) (fs : list (list Z * PdxValue O))
    (output : DataOutput.t) (h : list PdxFieldType.t) : outcome (DataOutput.t * list PdxFieldType.t * PdxType.t) :=
  w ← PdxWriterWithTypeCollector.construct output h className;
  '(_, w) ← st_iter (fun x => PdxWriterWithTypeCollector.writeField to_utf16 writeObj x.1 x.2) fs w;
  '(_, w) ← PdxLocalWriter.on_type (PdxType.InitializeType None) w;
  '(_, w) ← PdxWriterWithTypeCollector.endObjectWriting (setTypeId nTypeId w);
  Ok (PdxLocalWriter.m_dataOutput w, PdxLocalWriter.m_store w, PdxLocalWriter.m_pdxType w).

(** [PdxHelper::serializePdx(output, instance)]: the type of the instance is known. *)
Definition serializeInstance (pdxType : PdxType.t) (vs : list (PdxValue O)) (output : DataOutput.t)
    (h : list PdxFieldType.t) : outcome DataOutput.t :=
  w ← PdxLocalWriter.construct output h pdxType;
  '(_, w) ← st_iter (PdxLocalWriter.writeValue to_utf16 writeObj) vs w;
  '(_, w) ← PdxLocalWriter.endObjectWriting w;
  Ok (PdxLocalWriter.m_dataOutput w).

Fixpoint readAll (readValue : PdxFieldTypes -> ST PdxLocalReader.t (PdxValue O)) (ks : list PdxFieldTypes)
    : ST PdxLocalReader.t (list (PdxValue O)) :=
  match ks with
  | [] => mret []
  | k :: ks' => v ← readValue k; vs ← readAll readValue ks'; mret (v :: vs)
  end.

(** With the reader for local types or for remote types. *)
Definition deserializeWith (readValue : PdxFieldTypes -> ST PdxLocalReader.t (PdxValue O))
    (localPdxType : option PdxType.t) (h : list PdxFieldType.t) (pType : PdxType.t) (ks : list PdxFieldTypes)
    : ST DataInput.t (list (PdxValue O)) :=
  len ← DataInput.readInt32;
  _ ← DataInput.readInt32;
  input ← st_get;
  reader ← st_lift (PdxLocalReader.construct localPdxType h pType len input);
  '(vs, reader) ← st_lift (readAll readValue ks reader);
  '(_, reader) ← st_lift (PdxLocalReader.moveStream reader);
  st_put (PdxLocalReader.m_dataInput reader);; mret vs.

Definition deserializeLocal := deserializeWith (PdxLocalReader.readValue to_utf8 readObj).
Definition deserializeRemote (localPdxType : option PdxType.t) (h : list PdxFieldType.t) :=
  deserializeWith (PdxRemoteReader.readValue to_utf8 readObj nullObj h) localPdxType h.
End Object.
End PdxObject.
