(* ===== verification/PdxPreserve.v ===== *)
(** Unread fields of PDX objects (src/cppcache/src/PdxRemotePreservedData.hpp,
    PdxRemoteWriter.cpp, [PdxLocalReader::getPreservedData], [PdxHelper::createMergedType] and
    the branches of PdxHelper.cpp for a member whose class has another version): a member
    that reads an object of a newer version keeps the bytes of the fields that it does not
    know, and writes them back with a type that has the fields of both versions.

    The types that the registry has are arguments: the local type of the class, the type of
    the sender, and the id that the server gives to a new type. *)
From stdpp Require Import sorting.
From S2P Require Import Prelude DataOutput DataInput PdxType PdxStreams.

Module PdxRemotePreservedData.

Record t := mk {
  m_preservedData : list (list Z);
  m_typeId : Z;
  m_mergedTypeId : Z
}.

Definition construct : t := mk [] 0 0.
Definition initialize (typeId mergedTypeId : Z) (d : t) : t := mk (m_preservedData d) typeId mergedTypeId.
Definition setPreservedData (inputVector : list Z) (d : t) : t :=
  mk (m_preservedData d ++ [inputVector]) (m_typeId d) (m_mergedTypeId d).

(** [m_preservedData[idx]]. *)
Definition getPreservedData (idx : Z) (d : t) : outcome (list Z) :=
  if idx <? 0 then Throw UndefinedBehaviour
  else match m_preservedData d !! Z.to_nat idx with Some v => Ok v | None => Throw UndefinedBehaviour end.
End PdxRemotePreservedData.

(** *** Reading *)

Module PdxUnread.
Import PdxLocalReader.

Section Reader.
Context (h : list PdxFieldType.t).

(** The loop over the fields of the sender, from [i] on. *)
Fixpoint preserveFrom (fuel : nat) (i : Z) (d : PdxRemotePreservedData.t) : ST t PdxRemotePreservedData.t :=
  match fuel with
  | O => mret d
  | S fuel' =>
    r ← st_get;
    match m_remoteToLocalMap r with
    | None => st_throw UndefinedBehaviour
    | Some m =>
      match m !! Z.to_nat i with
      | None => st_throw UndefinedBehaviour
      | Some x =>
        if (x =? -1) || (x =? -2) then
          pos ← PdxRemoteReader.position h i;
          nFieldPos ← (if i =? PdxType.getTotalFields (m_pdxType r) - 1 then mret (m_serializedLength r)
                       else PdxRemoteReader.position h (i + 1));
          resettoPdxHead;;
          on_input (DataInput.advanceCursor pos);;
          pdVector ← on_input (st_repeat (Z.to_nat (nFieldPos - pos)) DataInput.read);
          resettoPdxHead;;
          preserveFrom fuel' (i + 1) (PdxRemotePreservedData.setPreservedData pdVector d)
        else preserveFrom fuel' (i + 1) d
      end
    end
  end.

(** The reader's flag [m_isDataNeedToPreserve] is set unless the class has asked for the
    unread fields itself; the maps are those of the type. *)
Definition getPreservedData (localPdxType : option PdxType.t) (pdxIgnoreUnreadFields isDataNeedToPreserve : bool)
    (mergedVersion : PdxType.t) : ST t (option PdxRemotePreservedData.t) := fun r =>
  if (0 <? PdxType.m_numberOfFieldsExtra (m_pdxType r)) && negb pdxIgnoreUnreadFields then
    '(l2r, s) ← PdxType.getLocalToRemoteMap localPdxType (h, m_pdxType r);
    '(r2l, s) ← PdxType.getRemoteToLocalMap localPdxType s;
    let r := mk (m_dataInput r) s.2 (m_startBuffer r) (m_startPosition r) (m_serializedLength r)
               (m_serializedLengthWithOffsets r) (m_offsetSize r) (m_offsetsBuffer r) l2r r2l (m_currentIndex r) in
    let d := PdxRemotePreservedData.initialize (PdxType.m_geodeTypeId s.2) (PdxType.m_geodeTypeId mergedVersion)
               PdxRemotePreservedData.construct in
    '(d, r) ← preserveFrom (length (PdxType.m_pdxFieldTypes s.2)) 0 d r;
    Ok (if isDataNeedToPreserve then Some d else None, r)
  else Ok (None, r).
End Reader.
End PdxUnread.

(** *** Writing *)

Module PdxRemoteWriter.
Section Writer.
Context `{Allocator} {O : Type} (to_utf16 : list Z -> outcome (list Z)) (writeObj : O -> ST DataOutput.t unit).

(** [m_remoteTolocalMap] is not initialized without preserved data. *)
Record t := mk {
  base : PdxLocalWriter.t;
  m_preserveData : option PdxRemotePreservedData.t;
  m_remoteTolocalMap : option (list Z);
  m_preserveDataIdx : Z;
  m_currentDataIdx : Z;
  m_remoteTolocalMapLength : Z
}.

Definition on_base {A} (m : ST PdxLocalWriter.t A) : ST t A := fun w =>
  match m (base w) with
  | Ok (a, b) => Ok (a, mk b (m_preserveData w) (m_remoteTolocalMap w) (m_preserveDataIdx w) (m_currentDataIdx w)
                          (m_remoteTolocalMapLength w))
  | Throw e => Throw e
  end.

Definition set_indices (preserveDataIdx currentDataIdx : Z) (w : t) : t :=
  mk (base w) (m_preserveData w) (m_remoteTolocalMap w) preserveDataIdx currentDataIdx (m_remoteTolocalMapLength w).

(** With preserved data and the merged type, or without and with the local type. *)
Definition construct (localPdxType : option PdxType.t) (output : DataOutput.t) (h : list PdxFieldType.t)
    (pdxType : PdxType.t) (preservedData : PdxRemotePreservedData.t) : outcome t :=
  b ← PdxLocalWriter.construct output h pdxType;
  '(m, (h, ty)) ← PdxType.getRemoteToLocalMap localPdxType (h, pdxType);
  let b := PdxLocalWriter.mk (PdxLocalWriter.m_dataOutput b) h ty (PdxLocalWriter.m_startPositionOffset b) (PdxLocalWriter.m_offsets b) in
  Ok (mk b (Some preservedData) m 0 (-1) (PdxType.getTotalFields ty)).

Definition construct_local (output : DataOutput.t) (h : list PdxFieldType.t) (localType : PdxType.t) : outcome t :=
  b ← PdxLocalWriter.construct output h localType;
  Ok (mk b None None 0 (-1) 0).

(** The [while] loop; each iteration advances [m_currentDataIdx]. *)
Fixpoint writePreserveLoop (fuel : nat) (d : PdxRemotePreservedData.t) : ST t unit :=
  match fuel with
  | 0%nat => st_throw Diverges
  | S fuel' =>
    w ← st_get;
    if m_currentDataIdx w <? m_remoteTolocalMapLength w then
      match m_remoteTolocalMap w with
      | None => st_throw UndefinedBehaviour
      | Some m =>
        match m !! Z.to_nat (m_currentDataIdx w) with
        | None => st_throw UndefinedBehaviour
        | Some x =>
          if x =? -1 then
            on_base PdxLocalWriter.addOffset;;
            bytes ← st_lift (PdxRemotePreservedData.getPreservedData (m_preserveDataIdx w) d);
            on_base (PdxLocalWriter.on_output (st_iter DataOutput.write_int8 bytes));;
            st_modify (set_indices (m_preserveDataIdx w + 1) (m_currentDataIdx w + 1));;
            writePreserveLoop fuel' d
          else if x =? -2 then
            bytes ← st_lift (PdxRemotePreservedData.getPreservedData (m_preserveDataIdx w) d);
            on_base (PdxLocalWriter.on_output (st_iter DataOutput.write_int8 bytes));;
            st_modify (set_indices (m_preserveDataIdx w + 1) (m_currentDataIdx w + 1));;
            writePreserveLoop fuel' d
          else mret tt
        end
      end
    else mret tt
  end.

Definition writePreserveData : ST t unit :=
  st_modify (fun w => set_indices (m_preserveDataIdx w) (m_currentDataIdx w + 1) w);;
  w ← st_get;
  match m_preserveData w with
  | None => mret tt
  | Some d => writePreserveLoop (Z.to_nat (m_remoteTolocalMapLength w - m_currentDataIdx w) + 1) d
  end.

Definition endObjectWriting : ST t unit :=
  writePreserveData;; on_base (PdxLocalWriter.writePdxHeader PdxLocalWriter.calculateLenWithOffsets).

Definition isFieldWritingStarted (w : t) : bool := negb (m_currentDataIdx w =? -1).

(** [PdxLocalWriter::writeUnreadFields] and the override: the registry's type for the merged
    id, or else the local type, becomes the type of the writer. *)
Definition writeUnreadFields (localPdxType : option PdxType.t) (getPdxType : Z -> option PdxType.t)
    (unread : option PdxRemotePreservedData.t) : ST t unit := fun w =>
  if isFieldWritingStarted w then Throw IllegalStateException
  else
    let b := base w in
    let ty := match unread with
              | None => Some (PdxLocalWriter.m_pdxType b)
              | Some d => match getPdxType (PdxRemotePreservedData.m_mergedTypeId d) with
                          | Some ty => Some ty
                          | None => localPdxType
                          end
              end in
    match ty with
    | None => Throw UndefinedBehaviour
    | Some ty =>
      '(m, (h, ty)) ← PdxType.getRemoteToLocalMap localPdxType (PdxLocalWriter.m_store b, ty);
      let b := PdxLocalWriter.mk (PdxLocalWriter.m_dataOutput b) h ty (PdxLocalWriter.m_startPositionOffset b) (PdxLocalWriter.m_offsets b) in
      Ok (tt, mk b (match unread with Some d => Some d | None => m_preserveData w end) m
                (m_preserveDataIdx w) (m_currentDataIdx w) (PdxType.getTotalFields ty))
    end.

(** Each of the writers of a value. *)
Definition writeValue (v : PdxValue O) : ST t unit :=
  writePreserveData;; on_base (PdxLocalWriter.writeValue to_utf16 writeObj v).
End Writer.
End PdxRemoteWriter.

(** *** Merging *)

Module PdxMerge.
Import PdxType.

(** [std::string]s are compared byte by byte. *)
Fixpoint lex_le (a b : list Z) : bool :=
  match a, b with
  | [], _ => true
  | _ :: _, [] => false
  | x :: a', y :: b' => if x <? y then true else if y <? x then false else lex_le a' b'
  end.

(** The entries of a [std::map] in its order. *)
Definition entry_le (a b : list Z * nat) : Prop := lex_le a.1 b.1 = true.
#[export] Instance entry_le_dec a b : Decision (entry_le a b).
Proof. unfold entry_le. apply _. Defined.
Definition entries (m : gmap (list Z) nat) : list (list Z * nat) := merge_sort entry_le (map_to_list m).

(** [PdxFieldType::operator==]. *)
Definition fieldEq (a b : PdxFieldType.t) : bool :=
  bool_decide (PdxFieldType.m_className a = PdxFieldType.m_className b) &&
  bool_decide (PdxFieldType.m_fieldName a = PdxFieldType.m_fieldName b).

(** The loop of [PdxType::operator==]: both iterators advance, the end of the first is tested. *)
Fixpoint entriesEq (h : store) (xs ys : list (list Z * nat)) : outcome bool :=
  match xs, ys with
  | [], _ => Ok true
  | _ :: _, [] => Throw UndefinedBehaviour
  | (n, p) :: xs', (n', p') :: ys' =>
    match h !! p, h !! p' with
    | Some f, Some f' =>
      if negb (bool_decide (n = n')) || negb (fieldEq f f') then Ok false else entriesEq h xs' ys'
    | _, _ => Throw UndefinedBehaviour
    end
  end.

Definition typeEq (h : store) (this other : t) : outcome bool :=
  if negb (bool_decide (m_className this = m_className other)) then Ok false
  else if negb (Bool.eqb (is_java_class_ this) (is_java_class_ other)) then Ok false
  else if negb (getTotalFields this =? getTotalFields other) then Ok false
  else entriesEq h (entries (m_fieldNameVsPdxType this)) (entries (m_fieldNameVsPdxType other)).

(** The type that [createMergedType] registers as the merged type of the sender's type. *)
Definition createMergedType (h : store) (localType remoteType : t) (nTypeId : Z) : outcome (store * t) :=
  '(m, h) ← mergeVersion h localType remoteType;
  let mergedVersion := match m with This => localType | Other => remoteType | New ty => ty end in
  isLocal ← typeEq h mergedVersion localType;
  if isLocal : bool then Ok (h, localType)
  else
    isRemote ← typeEq h mergedVersion remoteType;
    if isRemote : bool then Ok (h, remoteType)
    else
      '(_, (h, mv)) ← InitializeType (Some localType) (h, mergedVersion);
      Ok (h, if m_geodeTypeId mv =? 0 then setTypeId nTypeId mv else mv).
End PdxMerge.

(** *** Whole objects *)

Module PdxVersions.
Section Object.
Context `{Allocator} {O : Type} (to_utf16 to_utf8 : list Z -> outcome (list Z)).
Context (writeObj : O -> ST DataOutput.t unit) (readObj : ST DataInput.t O) (nullObj : O).

Record received := mkReceived {
  values : list (PdxValue O);
  preserved : option PdxRemotePreservedData.t;
  merged : PdxType.t;
  fieldTypes : list PdxFieldType.t
}.

(** [deserializePdx] for an object whose type [pType] has just come from a server, when the
    class has a local type. *)
Definition deserialize (localType : PdxType.t) (h : list PdxFieldType.t) (pType : PdxType.t) (nTypeId : Z)
    (pdxIgnoreUnreadFields : bool) (ks : list PdxFieldTypes) : ST DataInput.t received :=
  len ← DataInput.readInt32;
  _ ← DataInput.readInt32;
  input ← st_get;
  '(_, (h, pType)) ← st_lift (PdxType.InitializeType (Some localType) (h, pType));
  reader ← st_lift (PdxLocalReader.construct (Some localType) h pType len input);
  '(vs, reader) ← st_lift (PdxObject.readAll (PdxStreams.PdxRemoteReader.readValue to_utf8 readObj nullObj h) ks reader);
  '(h, mv) ← st_lift (PdxMerge.createMergedType h localType (PdxLocalReader.m_pdxType reader) nTypeId);
  '(pd, reader) ← st_lift (PdxUnread.getPreservedData h (Some localType) pdxIgnoreUnreadFields true mv reader);
  '(_, reader) ← st_lift (PdxLocalReader.moveStream reader);
  st_put (PdxLocalReader.m_dataInput reader);;
  mret (mkReceived vs pd mv h).

(** [serializePdx] for an object whose class has a local type: with the data that the registry
    has preserved for it and its merged type, or without. *)
Definition serialize (localType : PdxType.t) (pd : option (PdxRemotePreservedData.t * PdxType.t))
    (vs : list (PdxValue O)) (output : DataOutput.t) (h : list PdxFieldType.t) : outcome DataOutput.t :=
  w ← match pd with
      | Some (d, mergedPdxType) => PdxRemoteWriter.construct (Some localType) output h mergedPdxType d
      | None => PdxRemoteWriter.construct_local output h localType
      end;
  '(_, w) ← st_iter (PdxRemoteWriter.writeValue to_utf16 writeObj) vs w;
  '(_, w) ← PdxRemoteWriter.endObjectWriting w;
  Ok (PdxLocalWriter.m_dataOutput (PdxRemoteWriter.base w)).
End Object.
End PdxVersions.
