(* ===== verification/PdxPositions.v ===== *)
(** Where the fields of a PDX object are: what [PdxType::generatePositionMap] stores in the
    field objects, and that [getFieldPosition] finds every field with it. *)
From S2P Require Import Prelude DataOutput DataInput PdxType.
Import PdxFieldType PdxType.

Implicit Types (f g : PdxFieldType.t) (fts : list PdxFieldType.t) (ps : list nat) (h : store) (ty : PdxType.t).

(** The field objects of a list of pointers. *)
Definition holds h ps fts : Prop := Forall2 (fun p f => h !! p = Some f) ps fts.

(** *** The position map on a list of fields *)

(** One step of the first loop: the fields behind [f], whether one of them has variable
    length, and the index of the first such one. *)
Definition back_step f (acc : list PdxFieldType.t * bool * Z) : list PdxFieldType.t * bool * Z :=
  let '(post, found, last) := acc in
  if m_isVariableLengthType f then (setOffsets (PdxFieldType.m_varLenFieldIdx f) 0 f :: post, true, PdxFieldType.m_varLenFieldIdx f)
  else (setOffsets (if found then last else -1)
          (- m_fixedSize f + match post with g :: _ => m_relativeOffset g | [] => 0 end) f :: post, found, last).

Fixpoint front (offset : Z) fts : list PdxFieldType.t :=
  match fts with
  | [] => []
  | f :: fts' =>
    if m_isVariableLengthType f then setOffsets (-1) offset f :: fts'
    else setOffsets 0 offset f :: front (offset + m_fixedSize f) fts'
  end.

Definition back fts : list PdxFieldType.t * bool * Z := foldr back_step ([], false, 0) fts.
Definition positions fts : list PdxFieldType.t := front 0 (back fts).1.1.

(** *** The loops on the store *)

Lemma holds_update h ps fts p f : holds h ps fts -> p ∉ ps -> holds (<[p := f]> h) ps fts.
Proof.
  intros Hh Hp. induction Hh as [|q g ps fts Hq Hh IH]; constructor.
  - apply not_elem_of_cons in Hp as [Hne _]. by rewrite list_lookup_insert_ne.
  - apply IH. by apply not_elem_of_cons in Hp as [_ ?].
Qed.

Lemma holds_insert h p f g : h !! p = Some g -> <[p := f]> h !! p = Some f.
Proof. intros Hp. apply list_lookup_insert_eq. by eapply lookup_lt_Some. Qed.

Lemma holds_ext h h' ps fts : holds h ps fts -> (forall p, p ∈ ps -> h' !! p = h !! p) -> holds h' ps fts.
Proof.
  intros Hh. induction Hh as [|p f ps fts Hp Hh IH]; intros He; constructor.
  - rewrite He; [done|by left].
  - apply IH. intros q Hq. apply He. by right.
Qed.

Definition add_name (m : gmap (list Z) nat) (x : nat * PdxFieldType.t) : gmap (list Z) nat :=
  m ∪ {[m_fieldName x.2 := x.1]}.

Definition names_after (m : gmap (list Z) nat) ps fts : gmap (list Z) nat :=
  foldr (fun x m => add_name m x) m (zip ps fts).

Lemma load_eq h ty p f : h !! p = Some f -> load p (h, ty) = Ok (f, (h, ty)).
Proof. intros E. unfold load. simpl. by rewrite E. Qed.

(** The pointer to the field behind, if there is one. *)
Definition prev_is h ps (prev : option nat) (post : list PdxFieldType.t) : Prop :=
  match post with
  | [] => prev = None
  | g :: _ => exists q, prev = Some q /\ h !! q = Some g /\ q ∉ ps
  end.

Lemma back_iter h ty p f l found last prev ps post f' found' last' :
  h !! p = Some f -> prev_is h ps prev post -> p ∈ ps -> (found = true -> post <> []) ->
  back_step f (post, found, last) = (f' :: post, found', last') ->
  offsetsFromBack (p :: l) found last prev (h, ty) =
  offsetsFromBack l found' last' (Some p)
    (<[p := f']> h, setNames (add_name (m_fieldNameVsPdxType ty) (p, f)) ty).
Proof.
  intros Hp Hprev Hin Hfound Hstep. cbn [offsetsFromBack].
  rewrite (st_bind_ok _ _ _ _ _ (load_eq h ty p f Hp)). unfold back_step in Hstep.
  unfold mbind at 1, ST_bind, modify_this, st_modify. cbn [fst snd].
  destruct (m_isVariableLengthType f) eqn:Hv; simplify_eq; [done|].
  destruct post as [|g post]; simpl in Hprev.
  - subst prev. destruct found'; [by specialize (Hfound eq_refl)|]. rewrite Z.add_0_r. reflexivity.
  - destruct Hprev as (q & -> & Hq & _).
    destruct found'; unfold mbind at 1;
      rewrite (st_bind_ok _ _ _ _ _ (load_eq h _ q g Hq)); reflexivity.
Qed.

Lemma setNames_id ty : setNames (m_fieldNameVsPdxType ty) ty = ty.
Proof. by destruct ty. Qed.

Lemma back_step_cons f acc : exists f', back_step f acc = (f' :: acc.1.1, (back_step f acc).1.2, (back_step f acc).2).
Proof. destruct acc as [[post found] last]. unfold back_step. case_match; simpl; eauto. Qed.

Lemma offsetsFromBack_spec ps : forall h ty fts found last prev post,
  holds h ps fts -> NoDup ps -> prev_is h ps prev post -> (found = true -> post <> []) ->
  exists h' out,
    offsetsFromBack (rev ps) found last prev (h, ty) =
      Ok (tt, (h', setNames (names_after (m_fieldNameVsPdxType ty) ps fts) ty)) /\
    (foldr back_step (post, found, last) fts).1.1 = out ++ post /\ holds h' ps out /\
    (forall q, q ∉ ps -> h' !! q = h !! q).
Proof.
  induction ps as [|p ps IH] using rev_ind; intros h ty fts found last prev post Hh Hnd Hprev Hf.
  { apply Forall2_nil_inv_l in Hh as ->. exists h, []. cbn. rewrite setNames_id. split_and!; [done..|constructor|done]. }
  apply Forall2_app_inv_l in Hh as (fts0 & fp & Hh & Hp & ->).
  inversion Hp as [|? f ? ? Hpf Hnil]; subst. apply Forall2_nil_inv_l in Hnil as ->.
  apply list.NoDup_app in Hnd as (Hnd & Hdis & _).
  assert (Hpn : p ∉ ps) by (intros Hin; by apply (Hdis p Hin); left).
  destruct (back_step_cons f (post, found, last)) as [f' Hstep]. cbn [fst] in Hstep.
  rewrite rev_app_distr. cbn [rev app].
  erewrite back_iter; [|exact Hpf|exact Hprev|set_solver|exact Hf|exact Hstep].
  destruct (IH (<[p := f']> h) (setNames (add_name (m_fieldNameVsPdxType ty) (p, f)) ty) fts0
    (back_step f (post, found, last)).1.2 (back_step f (post, found, last)).2 (Some p) (f' :: post))
    as (h' & out & E & Hout & Hho & Hfr); [|done| |done|].
  { by apply holds_update. }
  { exists p. split_and!; [done|by eapply holds_insert|done]. }
  exists h', (out ++ [f']). rewrite E. rewrite foldr_app. cbn [foldr]. rewrite Hstep, Hout, <- app_assoc.
  split_and!.
  - unfold names_after. rewrite zip_with_app by (by eapply Forall2_length). rewrite foldr_app. done.
  - done.
  - apply Forall2_app; [done|]. constructor; [|constructor]. rewrite Hfr by done. by eapply holds_insert.
  - intros q Hq. apply not_elem_of_app in Hq as [Hq1 Hq2]. rewrite Hfr by done.
    apply list_lookup_insert_ne. set_solver.
Qed.

Lemma offsetsFromFront_spec ps : forall h ty fts offset,
  holds h ps fts -> NoDup ps ->
  exists h', offsetsFromFront ps offset (h, ty) = Ok (tt, (h', ty)) /\ holds h' ps (front offset fts) /\
    (forall q, q ∉ ps -> h' !! q = h !! q).
Proof.
  induction ps as [|p ps IH]; intros h ty fts offset Hh Hnd.
  { apply Forall2_nil_inv_l in Hh as ->. exists h. split_and!; [done|constructor|done]. }
  inversion Hh as [|? f ? fts0 Hpf Hh0]; subst. apply list.NoDup_cons in Hnd as [Hpn Hnd].
  cbn [offsetsFromFront front]. rewrite (st_bind_ok _ _ _ _ _ (load_eq h ty p f Hpf)).
  destruct (m_isVariableLengthType f).
  - exists (<[p := setOffsets (-1) offset f]> h). split_and!; [done| |].
    + constructor; [by eapply holds_insert|by apply holds_update].
    + intros q Hq. apply list_lookup_insert_ne. set_solver.
  - destruct (IH (<[p := setOffsets 0 offset f]> h) ty fts0 (offset + m_fixedSize f)) as (h' & E & Hho & Hfr);
      [by apply holds_update|done|].
    exists h'. split_and!.
    + unfold mbind, ST_bind, update, st_modify. cbn [fst snd]. exact E.
    + constructor; [|done]. rewrite Hfr by done. by eapply holds_insert.
    + intros q Hq. apply not_elem_of_cons in Hq as [Hq1 Hq2]. rewrite Hfr by done. by apply list_lookup_insert_ne.
Qed.

Lemma generatePositionMap_spec h ty fts :
  holds h (m_pdxFieldTypes ty) fts -> NoDup (m_pdxFieldTypes ty) ->
  exists h', generatePositionMap (h, ty) =
      Ok (tt, (h', setNames (names_after (m_fieldNameVsPdxType ty) (m_pdxFieldTypes ty) fts) ty)) /\
    holds h' (m_pdxFieldTypes ty) (positions fts) /\
    (forall q, q ∉ m_pdxFieldTypes ty -> h' !! q = h !! q).
Proof.
  intros Hh Hnd.
  destruct (offsetsFromBack_spec (m_pdxFieldTypes ty) h ty fts false 0 None []) as (h1 & out & E1 & Hout & Hh1 & Hf1);
    [done..|]. rewrite app_nil_r in Hout.
  destruct (offsetsFromFront_spec (m_pdxFieldTypes ty) h1 (setNames (names_after (m_fieldNameVsPdxType ty) (m_pdxFieldTypes ty) fts) ty)
    out 0) as (h2 & E2 & Hh2 & Hf2); [done..|].
  exists h2. unfold generatePositionMap, mbind at 1, ST_bind, st_get. cbn [snd].
  rewrite (st_bind_ok _ _ _ _ _ E1), E2. split_and!; [done| |].
  - unfold positions, back. by rewrite Hout.
  - intros q Hq. by rewrite Hf2, Hf1.
Qed.

(** *** What the position map says *)

(** The fixed sizes up to the next field of variable length, and that field. *)
Fixpoint gap fts : Z :=
  match fts with
  | [] => 0
  | f :: fts' => if m_isVariableLengthType f then 0 else m_fixedSize f + gap fts'
  end.

Fixpoint next_var fts : option PdxFieldType.t :=
  match fts with
  | [] => None
  | f :: fts' => if m_isVariableLengthType f then Some f else next_var fts'
  end.

Definition backed f post : PdxFieldType.t :=
  if m_isVariableLengthType f then setOffsets (PdxFieldType.m_varLenFieldIdx f) 0 f
  else setOffsets (match next_var post with Some g => PdxFieldType.m_varLenFieldIdx g | None => -1 end)
         (- (m_fixedSize f + gap post)) f.

Definition placed (pre : list PdxFieldType.t) f post : PdxFieldType.t :=
  if existsb m_isVariableLengthType pre then backed f post
  else setOffsets (if m_isVariableLengthType f then -1 else 0) (gap pre) f.

Lemma back_facts fts :
  (back fts).1.2 = match next_var fts with Some _ => true | None => false end /\
  (forall g, next_var fts = Some g -> (back fts).2 = PdxFieldType.m_varLenFieldIdx g) /\
  match (back fts).1.1 with g :: _ => m_relativeOffset g | [] => 0 end = - gap fts.
Proof.
  induction fts as [|f fts (IH1 & IH2 & IH3)]; [done|]. unfold back in *. cbn [foldr next_var gap].
  destruct (foldr back_step ([], false, 0) fts) as [[post found] last]. cbn [fst snd] in *. unfold back_step.
  destruct (m_isVariableLengthType f); cbn [fst snd m_relativeOffset setOffsets].
  - split_and!; [done| |done]. by intros g [= ->].
  - split_and!; [done|done|]. rewrite IH3. lia.
Qed.

Lemma back_cons f post : (back (f :: post)).1.1 = backed f post :: (back post).1.1.
Proof.
  destruct (back_facts post) as (H1 & H2 & H3). unfold back in *. cbn [foldr].
  destruct (foldr back_step ([], false, 0) post) as [[post' found] last]. cbn [fst snd] in *.
  unfold back_step, backed. destruct (m_isVariableLengthType f); [done|]. cbn [fst]. rewrite H3.
  replace (- (m_fixedSize f + gap post)) with (- m_fixedSize f + - gap post) by lia. subst found.
  destruct (next_var post) as [g|]; [|done]. by rewrite (H2 g).
Qed.

Lemma backed_same f post : exists a b, backed f post = setOffsets a b f.
Proof. unfold backed. case_match; eauto. Qed.

(** The first loop changes offsets only. *)
Lemma back_same pre : forall l, exists pre',
  (back (pre ++ l)).1.1 = pre' ++ (back l).1.1 /\ length pre' = length pre /\
  existsb m_isVariableLengthType pre' = existsb m_isVariableLengthType pre /\ gap pre' = gap pre.
Proof.
  induction pre as [|f pre IH]; intros l; [by exists []|]. destruct (IH l) as (pre' & E & Hl & Hx & Hg).
  cbn [app]. rewrite back_cons, E. exists (backed f (pre ++ l) :: pre').
  destruct (backed_same f (pre ++ l)) as (a & b & ->). cbn [app length existsb gap m_isVariableLengthType m_fixedSize setOffsets].
  split_and!; [done|by rewrite Hl|by rewrite Hx|by rewrite Hg].
Qed.

Lemma front_lookup pre f post : forall offset,
  front offset (pre ++ f :: post) !! length pre =
  Some (if existsb m_isVariableLengthType pre then f
        else setOffsets (if m_isVariableLengthType f then -1 else 0) (offset + gap pre) f).
Proof.
  induction pre as [|g pre IH]; intros offset; cbn [app front length existsb gap].
  - rewrite Z.add_0_r. by destruct (m_isVariableLengthType f).
  - destruct (m_isVariableLengthType g); cbn [orb].
    + change ((pre ++ f :: post) !! length pre = Some f). by apply list_lookup_middle.
    + rewrite lookup_cons. by rewrite IH, Z.add_assoc.
Qed.

Lemma positions_lookup pre f post : positions (pre ++ f :: post) !! length pre = Some (placed pre f post).
Proof.
  unfold positions. destruct (back_same pre (f :: post)) as (pre' & -> & Hl & Hx & Hg).
  rewrite back_cons, <- Hl, front_lookup, Hx, Hg. f_equal. unfold placed. case_match; [done|].
  by destruct (backed_same f post) as (a & b & ->).
Qed.

(** *** Fields with the lengths of their encodings *)

(** The fields of variable length are numbered from [k]; the others have the length of their
    encoding as their size. *)
Fixpoint fits (k : Z) fts (lens : list Z) : Prop :=
  match fts, lens with
  | [], [] => True
  | f :: fts', l :: lens' =>
    0 <= l /\
    if m_isVariableLengthType f then PdxFieldType.m_varLenFieldIdx f = k /\ fits (k + 1) fts' lens'
    else m_fixedSize f = l /\ 0 < l /\ fits k fts' lens'
  | _, _ => False
  end.

Fixpoint sum (lens : list Z) : Z := match lens with [] => 0 | l :: lens' => l + sum lens' end.

Fixpoint var_starts (pos : Z) fts (lens : list Z) : list Z :=
  match fts, lens with
  | f :: fts', l :: lens' => (if m_isVariableLengthType f then [pos] else []) ++ var_starts (pos + l) fts' lens'
  | _, _ => []
  end.

Lemma sum_app l1 l2 : sum (l1 ++ l2) = sum l1 + sum l2.
Proof. induction l1; simpl; lia. Qed.

Lemma fits_app k pre lpre rest lrest : length pre = length lpre ->
  fits k (pre ++ rest) (lpre ++ lrest) ->
  fits k pre lpre /\ fits (k + Z.of_nat (length (var_starts 0 pre lpre))) rest lrest.
Proof.
  assert (Hvl : forall fts lens p q, length (var_starts p fts lens) = length (var_starts q fts lens)).
  { induction fts as [|f fts IH]; intros [|l lens] p q; try done. cbn [var_starts].
    rewrite !length_app, (IH lens (p + l) (q + l)). by destruct (m_isVariableLengthType f). }
  revert k lpre. induction pre as [|f pre IH]; intros k [|l lpre] Hl Hf; try done.
  - split; [done|]. cbn [var_starts length]. by rewrite Z.add_0_r.
  - cbn [app fits] in Hf. destruct Hf as [Hl0 Hf]. cbn [fits var_starts].
    rewrite length_app, (Hvl pre lpre (0 + l) 0). injection Hl as Hl.
    destruct (m_isVariableLengthType f); cbn [length].
    + destruct Hf as [Hk Hf]. apply IH in Hf as [Hf1 Hf2]; [|done]. split; [done|].
      rewrite Nat2Z.inj_add, Z.add_assoc. done.
    + destruct Hf as (Hs & Hpos & Hf). apply IH in Hf as [Hf1 Hf2]; done.
Qed.

Lemma var_starts_app pos pre lpre rest lrest : length pre = length lpre ->
  var_starts pos (pre ++ rest) (lpre ++ lrest) =
  var_starts pos pre lpre ++ var_starts (pos + sum lpre) rest lrest.
Proof.
  revert pos lpre. induction pre as [|f pre IH]; intros pos [|l lpre] Hl; try done.
  - cbn. by rewrite Z.add_0_r.
  - cbn [app var_starts sum]. injection Hl as Hl. rewrite IH by done. by rewrite <- app_assoc, Z.add_assoc.
Qed.

Lemma gap_no_var k pre lpre : fits k pre lpre -> existsb m_isVariableLengthType pre = false -> gap pre = sum lpre.
Proof.
  revert k lpre. induction pre as [|f pre IH]; intros k [|l lpre] Hf Hx; try done.
  cbn [fits existsb gap sum] in *. destruct (m_isVariableLengthType f); [done|].
  destruct Hf as (_ & Hs & _ & Hf). rewrite (IH k lpre Hf Hx). lia.
Qed.

Lemma no_var_starts pos k pre lpre : fits k pre lpre ->
  existsb m_isVariableLengthType pre = false <-> var_starts pos pre lpre = [].
Proof.
  revert pos k lpre. induction pre as [|f pre IH]; intros pos k [|l lpre] Hf; try done.
  cbn [fits existsb var_starts] in *. destruct (m_isVariableLengthType f); [done|].
  destruct Hf as (_ & _ & _ & Hf). by apply (IH (pos + l) k).
Qed.

(** The gap ends at the next field of variable length, or at the end. *)
Lemma gap_next k pos post lpost : fits k post lpost ->
  match next_var post with
  | Some g => PdxFieldType.m_varLenFieldIdx g = k /\ head (var_starts pos post lpost) = Some (pos + gap post)
  | None => gap post = sum lpost
  end.
Proof.
  revert pos lpost. induction post as [|f post IH]; intros pos [|l lpost] Hf; try done.
  cbn [fits next_var gap var_starts sum] in *. destruct (m_isVariableLengthType f).
  - destruct Hf as (_ & Hk & _). cbn. by rewrite Z.add_0_r.
  - destruct Hf as (_ & Hs & _ & Hf). cbn [app]. specialize (IH (pos + l) lpost Hf).
    destruct (next_var post); [|lia]. destruct IH as [Hk Hh]. split; [done|]. rewrite Hh, Hs. f_equal. lia.
Qed.

Lemma sum_nonneg k fts lens : fits k fts lens -> 0 <= sum lens.
Proof.
  revert k lens. induction fts as [|f fts IH]; intros k [|l lens] Hf; try done. cbn [fits sum] in *.
  destruct Hf as [Hl Hf]. destruct (m_isVariableLengthType f).
  - destruct Hf as [_ Hf]. apply IH in Hf. lia.
  - destruct Hf as (_ & _ & Hf). apply IH in Hf. lia.
Qed.

Lemma gap_nonneg k fts lens : fits k fts lens -> 0 <= gap fts.
Proof.
  revert k lens. induction fts as [|f fts IH]; intros k [|l lens] Hf; try done. cbn [fits gap] in *.
  destruct Hf as [Hl Hf]. destruct (m_isVariableLengthType f); [done|].
  destruct Hf as (Hs & _ & Hf). apply IH in Hf. lia.
Qed.

(** The table of offsets: that of the field number [k >= 1] is the one from behind. *)
Definition table_ok (mem : list Z) (offsetPosition offsetSize : Z) (offs : list Z) : Prop :=
  forall k o, (1 <= k)%nat -> offs !! k = Some o ->
  PdxHelper.readInt mem (offsetPosition + (Z.of_nat (length offs) - Z.of_nat k - 1) * offsetSize) offsetSize = Ok o.

Lemma field_position ty pre f post lpre l lpost mem offsetPosition offsetSize :
  length pre = length lpre -> fits 0 (pre ++ f :: post) (lpre ++ l :: lpost) ->
  let offs := var_starts 0 (pre ++ f :: post) (lpre ++ l :: lpost) in
  m_numberOfVarLenFields ty = Z.of_nat (length offs) -> table_ok mem offsetPosition offsetSize offs ->
  fieldPosition ty (placed pre f post) mem offsetPosition offsetSize (sum (lpre ++ l :: lpost)) = Ok (sum lpre).
Proof.
  intros Hlen Hfit offs Hn Htab. destruct (fits_app 0 pre lpre _ _ Hlen Hfit) as [Hpre Hrest].
  pose proof (sum_nonneg _ _ _ Hpre) as Hpos. rewrite Z.add_0_l in Hrest.
  assert (Hoffs : offs = var_starts 0 pre lpre ++ var_starts (sum lpre) (f :: post) (l :: lpost))
    by (subst offs; by rewrite var_starts_app).
  set (n := length (var_starts 0 pre lpre)) in *.
  unfold fieldPosition, placed. destruct (existsb m_isVariableLengthType pre) eqn:Hx.
  2: { cbn [m_isVariableLengthType setOffsets]. rewrite (gap_no_var 0 pre lpre Hpre Hx).
       destruct (m_isVariableLengthType f); [done|]. unfold fixedLengthFieldPosition. cbn [m_relativeOffset setOffsets].
       destruct (Z.leb_spec 0 (sum lpre)); [done|lia]. }
  assert (Hn1 : (1 <= n)%nat).
  { destruct n eqn:En; [|lia]. apply nil_length_inv in En. apply (no_var_starts 0 0 pre lpre Hpre) in En. congruence. }
  (* the offset of the field number [n] *)
  assert (Hread : forall o, offs !! n = Some o ->
    PdxHelper.readInt mem (offsetPosition + (m_numberOfVarLenFields ty - Z.of_nat n - 1) * offsetSize) offsetSize = Ok o).
  { intros o Ho. rewrite Hn. by apply Htab. }
  cbn [fits] in Hrest. destruct Hrest as [_ Hrest]. unfold backed.
  cbn [var_starts] in Hoffs. destruct (m_isVariableLengthType f) eqn:Hv.
  - destruct Hrest as [Hk _]. cbn [m_isVariableLengthType setOffsets]. rewrite Hv.
    unfold variableLengthFieldPosition. cbn [m_vlOffsetIndex setOffsets]. rewrite Hk.
    destruct (Z.eqb_spec (Z.of_nat n) (-1)); [lia|]. apply Hread. rewrite Hoffs. by apply list_lookup_middle.
  - destruct Hrest as (Hs & Hl & Hpost). cbn [m_isVariableLengthType setOffsets]. rewrite Hv.
    unfold fixedLengthFieldPosition. cbn [m_vlOffsetIndex m_relativeOffset setOffsets].
    pose proof (gap_nonneg _ _ _ Hpost). destruct (Z.leb_spec 0 (- (m_fixedSize f + gap post))); [lia|].
    pose proof (gap_next _ (sum lpre + l) _ _ Hpost) as Hg. destruct (next_var post) as [g|].
    + destruct Hg as [-> Hhd]. destruct (Z.eqb_spec (Z.of_nat n) (-1)); [lia|].
      rewrite (Hread (sum lpre + l + gap post)).
      * cbn. f_equal. lia.
      * rewrite Hoffs. cbn [app]. rewrite lookup_app_r by lia. fold n. rewrite Nat.sub_diag.
        by destruct (var_starts (sum lpre + l) post lpost).
    + cbn. f_equal. rewrite sum_app. cbn [sum]. lia.
Qed.

(** *** Names *)

Lemma names_after_other m ps fts n : n ∉ m_fieldName <$> fts -> names_after m ps fts !! n = m !! n.
Proof.
  unfold names_after. revert ps. induction fts as [|f fts IH]; intros [|p ps] Hn; try done.
  cbn [zip zip_with foldr]. rewrite fmap_cons in Hn. apply not_elem_of_cons in Hn as [Hne Hn].
  unfold add_name. rewrite lookup_union. cbn [fst snd]. rewrite lookup_singleton_ne by done. rewrite right_id by apply _.
  by apply IH.
Qed.

(** The names lead to their fields, if those that are there already do. *)
Lemma names_after_lookup m ps fts : NoDup (m_fieldName <$> fts) ->
  (forall j q g q', ps !! j = Some q -> fts !! j = Some g -> m !! m_fieldName g = Some q' -> q' = q) ->
  forall i p f, ps !! i = Some p -> fts !! i = Some f -> names_after m ps fts !! m_fieldName f = Some p.
Proof.
  revert ps. induction fts as [|g fts IH]; intros [|q ps] Hnd Hm i p f Hp Hf; try done.
  rewrite fmap_cons in Hnd. apply list.NoDup_cons in Hnd as [Hg Hnd].
  change (names_after m (q :: ps) (g :: fts)) with (add_name (names_after m ps fts) (q, g)).
  unfold add_name. cbn [fst snd]. destruct i as [|i]; cbn in Hp, Hf; simplify_eq.
  - rewrite lookup_union, names_after_other by done. rewrite lookup_singleton_eq.
    destruct (m !! m_fieldName f) as [q'|] eqn:E; [|done]. by rewrite (Hm 0%nat p f q') by done.
  - apply lookup_union_Some_l, (IH ps Hnd) with (i := i); [|done|done].
    intros j q0 g0 q' Hq Hg0. apply (Hm (1 + j)%nat q0 g0 q'); done.
Qed.
