(* ===== verification/PdxWriting.v ===== *)
(** What the PDX writers put into the output: the fields one after the other, a header in
    front of them and the table of offsets behind, and the type that the collecting writer
    builds on the way. *)
From S2P Require Import Prelude JavaModifiedUtf8 DataOutput DataOutputFacts DataInput DataInputFacts Utf8Strings PdxType PdxStreams PdxPositions.
Import PdxLocalWriter.

#[local] Arguments be_bytes : simpl never.

(** *** The hole for the header *)

Lemma cells_app d n k : cells d (n + k) = cells d n ++ drop n (cells d (n + k)).
Proof.
  rewrite <- (take_drop n (cells d (n + k))) at 1. f_equal. unfold cells. rewrite take_take, Nat.min_l by lia.
  destruct (decide (n <= length (DataOutput.m_bytes d))%nat).
  - rewrite !take_app_le by lia. done.
  - rewrite !take_app_ge by lia. f_equal. rewrite !take_replicate. f_equal. lia.
Qed.

Section WithAllocator.
Context `{AllocatorOk}.

Lemma advanceCursor_spec n d cs :
  wf d -> out_is d cs -> Z.of_nat (length cs) + Z.of_nat n <= 2 ^ 60 ->
  exists d' hole, DataOutput.advanceCursor (Z.of_nat n) d = Ok (tt, d') /\ wf d' /\
    out_is d' (cs ++ hole) /\ length hole = n /\ DataOutput.m_size d <= DataOutput.m_size d'.
Proof.
  intros Hwf [Hb Hc] Hmax. destruct (ensureCapacity_spec (Z.of_nat n) d Hwf)
    as (d1 & E & Hwf1 & Hby & Hbuf & Hcap & Hs); [lia..|].
  exists (DataOutput.mk (DataOutput.m_bytes d1) (DataOutput.m_buf d1 + Z.of_nat n) (DataOutput.m_size d1)
            (DataOutput.m_haveBigBuffer d1) (DataOutput.bigBufferLocks d1)).
  exists (drop (length cs) (cells d1 (length cs + n))).
  assert (Hc1 : cells d1 (length cs) = cs) by (unfold cells in *; by rewrite Hby).
  assert (Hh : length (drop (length cs) (cells d1 (length cs + n))) = n) by (rewrite length_drop, length_cells; lia).
  unfold DataOutput.advanceCursor. rewrite (st_bind_ok _ _ _ _ _ E). destruct Hwf1 as [H1 H2 H3 H4].
  split_and!; [done|by constructor; simpl; try lia| |done|done].
  split; cbn [DataOutput.m_buf]; rewrite length_app, Hh; [lia|].
  rewrite <- Hc1 at 2. change (cells (DataOutput.mk _ _ _ _ _) ?k) with (cells d1 k). apply cells_app.
Qed.

Lemma cells_store l i b n : (i < n)%nat ->
  take n (DataOutput.set_cell l i b ++ replicate (n - length (DataOutput.set_cell l i b)) None) =
  <[i := Some b]> (take n (l ++ replicate (n - length l) None)).
Proof.
  intros Hi. apply list_eq. intros j. destruct (decide (j < n)%nat) as [Hj|Hj].
  2: { rewrite !lookup_ge_None_2; [done|rewrite length_insert|]; rewrite length_take; lia. }
  rewrite lookup_take_lt by done. destruct (decide (j = i)) as [->|Hne].
  - rewrite list_lookup_insert_eq by (rewrite length_take, length_app, length_replicate; lia).
    rewrite lookup_app_l by (rewrite length_set_cell; lia). unfold DataOutput.set_cell.
    apply list_lookup_middle. rewrite length_take, length_app, length_replicate. lia.
  - rewrite list_lookup_insert_ne, lookup_take_lt by done. rewrite length_set_cell.
    unfold DataOutput.set_cell. destruct (decide (j < i)%nat).
    + rewrite <- app_assoc, lookup_app_l by (rewrite length_take, length_app, length_replicate; lia).
      rewrite lookup_take_lt by lia. destruct (decide (j < length l)%nat).
      * by rewrite !lookup_app_l by lia.
      * rewrite !lookup_app_r by lia. rewrite !lookup_replicate_2 by lia. done.
    + rewrite <- app_assoc, lookup_app_r by (rewrite length_take, length_app, length_replicate; lia).
      rewrite length_take, length_app, length_replicate, Nat.min_l by lia.
      destruct (j - i)%nat as [|k] eqn:Ek; [lia|]. cbn [app]. change ((?x :: ?y) !! S k) with (y !! k).
      destruct (decide (j < length l)%nat).
      * rewrite !lookup_app_l by (rewrite ?length_drop; lia). rewrite lookup_drop. f_equal. lia.
      * rewrite !lookup_app_r by (rewrite ?length_drop; lia). rewrite !lookup_replicate_2; [done| |]; rewrite ?length_drop; lia.
Qed.

(** A store below the cursor. *)
Lemma store_spec d pre c post b :
  wf d -> out_is d (pre ++ c :: post) ->
  exists d', PdxHelper.store (Z.of_nat (length pre)) b d = Ok (tt, d') /\ wf d' /\
    out_is d' (pre ++ Some b :: post) /\ DataOutput.m_size d' = DataOutput.m_size d.
Proof.
  intros [H1 H2 H3 H4] [Hb Hc]. unfold PdxHelper.store. rewrite length_app in Hb. cbn [length] in Hb.
  destruct (Z.leb_spec 0 (Z.of_nat (length pre))); [|lia].
  destruct (Z.ltb_spec (Z.of_nat (length pre)) (DataOutput.m_size d)); [|lia]. cbn [andb].
  eexists. split; [done|]. rewrite Nat2Z.id. split_and!; [|split|done].
  - constructor; simpl; try done. rewrite length_set_cell. lia.
  - cbn [DataOutput.m_buf]. rewrite length_app. cbn [length]. done.
  - unfold cells. cbn [DataOutput.m_bytes].
    rewrite cells_store by (rewrite length_app; cbn [length]; lia).
    unfold cells in Hc. rewrite length_app in *. cbn [length] in *. rewrite Hc.
    by rewrite insert_app_r_alt, Nat.sub_diag by lia.
Qed.

Lemma store_next d pre c post b n :
  wf d -> out_is d (pre ++ c :: post) -> n = Z.of_nat (length pre) ->
  exists d', PdxHelper.store n b d = Ok (tt, d') /\ wf d' /\
    out_is d' ((pre ++ [Some b]) ++ post) /\ DataOutput.m_size d' = DataOutput.m_size d.
Proof. intros Hwf Ho ->. rewrite <- app_assoc. by apply store_spec with c. Qed.

Lemma writeInt32_spec d pre hole post v n :
  wf d -> out_is d (pre ++ hole ++ post) -> length hole = 4%nat -> n = Z.of_nat (length pre) ->
  exists d', PdxHelper.writeInt32 n v d = Ok (tt, d') /\ wf d' /\
    out_is d' (pre ++ (Some <$> be_bytes 4 v) ++ post) /\ DataOutput.m_size d' = DataOutput.m_size d.
Proof.
  intros Hwf Ho Hl ->. destruct hole as [|c1 [|c2 [|c3 [|c4 [|]]]]]; try done. cbn [app] in Ho.
  assert (Hlen : forall (p : list (option Z)) x, Z.of_nat (length (p ++ [x])) = Z.of_nat (length p) + 1)
    by (intros; rewrite length_app; cbn [length]; lia).
  destruct (store_next d _ _ _ (u8 (Z.shiftr v 24)) _ Hwf Ho eq_refl) as (d1 & E1 & Hw1 & Ho1 & Hs1).
  destruct (store_next d1 _ _ _ (u8 (Z.shiftr v 16)) (Z.of_nat (length pre) + 1) Hw1 Ho1) as (d2 & E2 & Hw2 & Ho2 & Hs2);
    [by rewrite Hlen|].
  destruct (store_next d2 _ _ _ (u8 (Z.shiftr v 8)) (Z.of_nat (length pre) + 2) Hw2 Ho2) as (d3 & E3 & Hw3 & Ho3 & Hs3);
    [rewrite !Hlen; lia|].
  destruct (store_next d3 _ _ _ (u8 v) (Z.of_nat (length pre) + 3) Hw3 Ho3) as (d4 & E4 & Hw4 & Ho4 & Hs4);
    [rewrite !Hlen; lia|].
  exists d4. unfold PdxHelper.writeInt32. rewrite (st_bind_ok _ _ _ _ _ E1), (st_bind_ok _ _ _ _ _ E2), (st_bind_ok _ _ _ _ _ E3), E4.
  split_and!; [done|done| |congruence]. rewrite <- !app_assoc in Ho4. exact Ho4.
Qed.

(** *** Writing fields *)

(** The writer has put [data] behind the header, which ends at the end of [base], and has
    remembered the offsets [offs]. *)
Record wrote (w : PdxLocalWriter.t) (base : list (option Z)) (data offs : list Z) : Prop := {
  wrote_wf : wf (m_dataOutput w);
  wrote_out : out_is (m_dataOutput w) (base ++ (Some <$> data));
  wrote_start : m_startPositionOffset w = Z.of_nat (length base) - 8;
  wrote_offs : m_offsets w = offs
}.

(** Appends [l]; a field of variable length also its offset. *)
Definition writes (m : ST PdxLocalWriter.t unit) (var : bool) (l : list Z) : Prop := forall w base data offs,
  wrote w base data offs -> Z.of_nat (length base + length data + length l) + 16 < 2 ^ 31 ->
  exists w', m w = Ok (tt, w') /\
    wrote w' base (data ++ l) (offs ++ if var then [Z.of_nat (length data)] else []) /\
    m_store w' = m_store w /\ m_pdxType w' = m_pdxType w.

Lemma writes_output m l : emits m l -> writes (on_output m) false l.
Proof.
  intros Hm w base data offs [Hwf Ho Hs Hoffs] Hlen.
  destruct (Hm (m_dataOutput w) (base ++ (Some <$> data)) Hwf Ho) as (d' & E & Hwf' & Ho' & _).
  { rewrite length_app, length_fmap. lia. }
  unfold on_output. rewrite E. eexists. split; [done|]. rewrite <- app_assoc, <- fmap_app in Ho'.
  split_and!; [constructor; cbn|done|done]; [done..|]. by rewrite app_nil_r.
Qed.

Lemma writes_bind m1 m2 var l1 l2 : writes m1 var l1 -> writes m2 false l2 -> writes (m1;; m2) var (l1 ++ l2).
Proof.
  intros H1 H2 w base data offs Hw Hlen. rewrite length_app in Hlen.
  destruct (H1 w base data offs Hw) as (w1 & E1 & Hw1 & Hh1 & Ht1); [lia|].
  destruct (H2 w1 base _ _ Hw1) as (w2 & E2 & Hw2 & Hh2 & Ht2); [rewrite length_app; lia|].
  exists w2. rewrite (st_bind_ok _ _ _ _ _ E1), E2. rewrite app_nil_r, <- app_assoc in Hw2.
  split_and!; congruence || done.
Qed.

Lemma writes_addOffset m l : writes m false l -> writes (addOffset;; m) true l.
Proof.
  intros Hm. apply (writes_bind _ _ true []); [|done].
  intros w base data offs [Hwf [Hb Hc] Hs Hoffs] Hlen. eexists. split; [done|].
  split_and!; [constructor; cbn|done|done]; [done|by rewrite app_nil_r|done|].
  rewrite Hoffs. do 2 f_equal. rewrite length_app, length_fmap in Hb. unfold DataOutput.getBufferLength.
  rewrite Hb, Hs, wrapS_id; [unfold PdxHelper.PdxHeader; lia|done|].
  unfold in_s, PdxHelper.PdxHeader. simpl. lia.
Qed.

Lemma writes_array {A} (f : A -> ST DataOutput.t unit) (enc : A -> list Z) xs :
  (forall x, emits (f x) (enc x)) -> Z.of_nat (length xs) < 2 ^ 31 ->
  writes (writeArrayObject f xs) false (enc_arrayLen (Z.of_nat (length xs)) ++ (xs ≫= enc)).
Proof.
  intros Hf Hl. unfold writeArrayObject. rewrite wrapS_id by (unfold in_s; lia || done).
  apply writes_bind; apply writes_output; [apply emits_writeArrayLen|by apply emits_iter].
Qed.

Lemma emits_iter_ok {A} (f : A -> ST DataOutput.t unit) (enc : A -> list Z) (P : A -> Prop) xs :
  (forall x, P x -> emits (f x) (enc x)) -> Forall P xs -> emits (st_iter f xs) (xs ≫= enc).
Proof.
  intros Hf Hxs. induction Hxs; [apply emits_ret|]. rewrite bind_cons. apply emits_bind; auto.
Qed.

(** *** The values of fields *)

Section Values.
Context {O : Type} (to_utf16 to_utf8 : list Z -> outcome (list Z)).
Context (writeObj : O -> ST DataOutput.t unit) (readObj : ST DataInput.t O) (obj_ok : O -> Prop).
Context `{!Codec writeObj readObj obj_ok}.

Abbreviation text_ok := (text_ok to_utf16 to_utf8).
Abbreviation enc_text := (enc_text to_utf16).

(** An array, by the encoding of its elements. *)
Definition enc_array {A} (enc : A -> list Z) (xs : list A) : list Z :=
  enc_arrayLen (Z.of_nat (length xs)) ++ (xs ≫= enc).

Definition enc_value (v : PdxValue O) : list Z :=
  match v with
  | VChar c => be_bytes 2 c
  | VBoolean b => [if b then 1 else 0]
  | VByte z => [u8 z]
  | VShort z => be_bytes 2 (u16 z)
  | VInt z => be_bytes 4 (u32 z)
  | VLong z => be_bytes 8 (u64 z)
  | VFloat z => be_bytes 4 z
  | VDouble z => be_bytes 8 z
  | VDate d => be_bytes 8 (u64 (default (-1) d))
  | VString s => enc_text s
  | VObject o => codec_enc o
  | VBooleanArray l => enc_array (fun b : bool => [if b then 1 else 0]) l
  | VCharArray l => enc_array (be_bytes 2) l
  | VByteArray l => enc_array (fun z => [u8 z]) l
  | VShortArray l => enc_array (fun z => be_bytes 2 (u16 z)) l
  | VIntArray l => enc_array (fun z => be_bytes 4 (u32 z)) l
  | VLongArray l => enc_array (fun z => be_bytes 8 (u64 z)) l
  | VFloatArray l => enc_array (be_bytes 4) l
  | VDoubleArray l => enc_array (be_bytes 8) l
  | VStringArray l => enc_array enc_text l
  | VArrayOfByteArrays (Some l) => enc_array (fun b => enc_arrayLen (Z.of_nat (length b)) ++ b) l
  | VArrayOfByteArrays None => [255]
  end.

Definition array_ok {A} (P : A -> Prop) (l : list A) : Prop := Z.of_nat (length l) < 2 ^ 31 /\ Forall P l.

(** The values that the C++ types can hold. *)
Definition value_ok (v : PdxValue O) : Prop :=
  match v with
  | VChar c => in_u 16 c
  | VBoolean _ => True
  | VByte z => in_s 8 z
  | VShort z => in_s 16 z
  | VInt z => in_s 32 z
  | VLong z => in_s 64 z
  | VFloat z => in_u 32 z
  | VDouble z => in_u 64 z
  | VDate d => in_s 64 (default (-1) d)
  | VString s => text_ok s
  | VObject o => obj_ok o
  | VBooleanArray l => array_ok (fun _ => True) l
  | VCharArray l => array_ok (in_u 16) l
  | VByteArray l => array_ok (in_s 8) l
  | VShortArray l => array_ok (in_s 16) l
  | VIntArray l => array_ok (in_s 32) l
  | VLongArray l => array_ok (in_s 64) l
  | VFloatArray l => array_ok (in_u 32) l
  | VDoubleArray l => array_ok (in_u 64) l
  | VStringArray l => array_ok text_ok l
  | VArrayOfByteArrays (Some l) => array_ok (fun b => Z.of_nat (length b) <= 2 ^ 31 - 6) l
  | VArrayOfByteArrays None => True
  end.

Definition isVar (v : PdxValue O) : bool := PdxFieldType.getFixedTypeSize (kindOf v) =? -1.

Lemma writes_value v : value_ok v -> writes (writeValue to_utf16 writeObj v) (isVar v) (enc_value v).
Proof.
  destruct v; cbn [value_ok writeValue isVar kindOf PdxFieldType.getFixedTypeSize enc_value]; intros Hv.
  - apply writes_output, emits_writeChar.
  - apply writes_output, emits_writeBoolean.
  - apply writes_output, emits_write_int8.
  - apply writes_output, emits_writeInt_int16.
  - apply writes_output, emits_writeInt_int32.
  - apply writes_output, emits_writeInt_int64.
  - apply writes_output, emits_writeInt_uint32.
  - apply writes_output, emits_writeInt_uint64.
  - destruct d; apply writes_output; [apply emits_writeInt_int64|apply emits_writeInt_uint64].
  - apply writes_addOffset, writes_output. by apply (emits_writeString_string _ to_utf8).
  - apply writes_addOffset, writes_output. by apply codec_emits.
  - apply writes_addOffset, writes_array; [apply emits_writeBoolean|apply Hv].
  - apply writes_addOffset, writes_array; [apply emits_writeInt_uint16|apply Hv].
  - apply writes_addOffset, writes_array; [apply emits_write_int8|apply Hv].
  - apply writes_addOffset, writes_array; [apply emits_writeInt_int16|apply Hv].
  - apply writes_addOffset, writes_array; [apply emits_writeInt_int32|apply Hv].
  - apply writes_addOffset, writes_array; [apply emits_writeInt_int64|apply Hv].
  - apply writes_addOffset, writes_array; [apply emits_writeInt_uint32|apply Hv].
  - apply writes_addOffset, writes_array; [apply emits_writeInt_uint64|apply Hv].
  - apply writes_addOffset. destruct Hv as [Hl Hf]. rewrite wrapS_id by (unfold in_s; lia || done).
    apply writes_bind; apply writes_output; [apply emits_writeArrayLen|].
    eapply emits_iter_ok; [|exact Hf]. intros. by apply (emits_writeString_string _ to_utf8).
  - apply writes_addOffset. destruct l as [l|]; [|apply writes_output, emits_write_int8].
    destruct Hv as [Hl Hf]. apply writes_bind; apply writes_output; [apply emits_writeArrayLen|].
    eapply emits_iter_ok; [|exact Hf]. intros. by apply emits_writeBytes.
Qed.

(** *** The type that is collected *)

Abbreviation field := (list Z * PdxValue O)%type.

(** The field objects for fields that come after [n] fields, [k] of them of variable length. *)
Fixpoint collected (n k : Z) (fs : list field) : list PdxFieldType.t :=
  match fs with
  | [] => []
  | (name, v) :: fs' =>
    let cls := (PdxWriterWithTypeCollector.fieldClass v).1 in
    PdxFieldType.construct name cls (kindOf v) n (isVar v) (PdxFieldType.getFixedTypeSize (kindOf v))
      (if isVar v then k else 0)
    :: collected (n + 1) (if isVar v then k + 1 else k) fs'
  end.

Definition var_count (fs : list field) : Z := Z.of_nat (length (filter (fun x => isVar x.2 = true) fs)).

(** The type has [n] fields with the given names, [k] of them of variable length. *)
Record collecting (cls : list Z) (h : list PdxFieldType.t) (ty : PdxType.t) (h0 : list PdxFieldType.t) (fs : list field) : Prop := {
  col_store : h = h0 ++ collected 0 0 fs;
  col_fields : PdxType.m_pdxFieldTypes ty = seq (length h0) (length fs);
  col_number : PdxType.m_numberOfVarLenFields ty = var_count fs;
  col_added : PdxType.m_isVarLenFieldAdded ty = (0 <? var_count fs);
  col_idx : PdxType.m_varLenFieldIdx ty = (if 0 <? var_count fs then var_count fs - 1 else 0);
  col_names : forall name i, PdxType.m_fieldNameVsPdxType ty !! name = Some i <->
                exists j v, fs !! j = Some (name, v) /\ i = (length h0 + j)%nat;
  col_class : PdxType.m_className ty = cls /\ PdxType.is_java_class_ ty = true;
  col_maps : PdxType.m_remoteToLocalFieldMap ty = None /\ PdxType.m_localToRemoteFieldMap ty = None
}.

Lemma collected_app fs gs : forall n k,
  collected n k (fs ++ gs) = collected n k fs ++ collected (n + Z.of_nat (length fs)) (k + var_count fs) gs.
Proof.
  induction fs as [|[name v] fs IH]; intros n k.
  { cbn. by rewrite !Z.add_0_r. }
  cbn [app collected length]. f_equal. rewrite IH. f_equal. unfold var_count. rewrite filter_cons. cbn [snd].
  destruct (isVar v) eqn:Ev; [rewrite decide_True by done|rewrite decide_False by done]; f_equal; cbn [length]; lia.
Qed.

Lemma length_collected fs n k : length (collected n k fs) = length fs.
Proof. revert n k. induction fs as [|[name v] fs IH]; intros n k; [done|]. cbn [collected length]. by rewrite IH. Qed.

Lemma var_count_app fs gs : var_count (fs ++ gs) = var_count fs + var_count gs.
Proof. unfold var_count. rewrite list.filter_app, length_app. lia. Qed.

Lemma var_count_one name v : var_count [(name, v)] = if isVar v then 1 else 0.
Proof. unfold var_count. rewrite filter_cons. cbn [snd]. by destruct (isVar v). Qed.

Lemma fieldClass_size (v : PdxValue O) :
  (PdxWriterWithTypeCollector.fieldClass v).2 =
  if isVar v then None else Some (PdxFieldType.getFixedTypeSize (kindOf v)).
Proof. by destruct v. Qed.

(** Adding one field to the type. *)
Definition add_field (name : list Z) (v : PdxValue O) : ST PdxType.S unit :=
  match PdxWriterWithTypeCollector.fieldClass v with
  | (cls, Some size) => PdxType.addFixedLengthTypeField name cls (kindOf v) size
  | (cls, None) => PdxType.addVariableLengthTypeField name cls (kindOf v)
  end.

Lemma names_snoc (h0 : list PdxFieldType.t) (fs : list field) (name : list Z) (v : PdxValue O) (m : gmap (list Z) nat) :
  name ∉ fs.*1 ->
  (forall x i, m !! x = Some i <-> exists j w, fs !! j = Some (x, w) /\ i = (length h0 + j)%nat) ->
  forall x i, <[name := (length h0 + length fs)%nat]> m !! x = Some i <->
    exists j w, (fs ++ [(name, v)]) !! j = Some (x, w) /\ i = (length h0 + j)%nat.
Proof.
  intros Hnew Hm x i. destruct (decide (x = name)) as [->|Hne].
  - rewrite lookup_insert_eq. split.
    + intros [= <-]. exists (length fs), v. split; [by apply list_lookup_middle|done].
    + intros (j & w & Hj & ->). apply lookup_app_Some in Hj as [Hj|[Hle Hj]].
      * destruct Hnew. apply list_elem_of_fmap. exists (name, w). split; [done|]. by eapply list_elem_of_lookup_2.
      * apply lookup_lt_Some in Hj as Hlt. cbn [length] in Hlt. do 2 f_equal. lia.
  - rewrite lookup_insert_ne, Hm by done. split.
    + intros (j & w & Hj & ->). exists j, w. split; [|done]. by apply lookup_app_l_Some.
    + intros (j & w & Hj & ->). exists j, w. split; [|done]. apply lookup_app_Some in Hj as [Hj|[Hle Hj]]; [done|].
      destruct (j - length fs)%nat; cbn in Hj; simplify_eq.
Qed.

Lemma add_field_spec cls h ty h0 fs name v :
  collecting cls h ty h0 fs -> name ∉ fs.*1 ->
  exists h' ty', add_field name v (h, ty) = Ok (tt, (h', ty')) /\ collecting cls h' ty' h0 (fs ++ [(name, v)]).
Proof.
  intros [Hh Hf Hn Ha Hi Hm [Hcl Hjava] Hmaps] Hnew.
  assert (Hnone : PdxType.m_fieldNameVsPdxType ty !! name = None).
  { destruct (_ !! name) as [i|] eqn:E; [|done]. apply Hm in E as (j & w & Hj & ->).
    destruct Hnew. apply list_elem_of_fmap. exists (name, w). split; [done|]. by eapply list_elem_of_lookup_2. }
  assert (Hlen : length h = (length h0 + length fs)%nat) by (rewrite Hh, length_app, length_collected; done).
  assert (Htot : PdxType.getTotalFields ty = Z.of_nat (length fs)) by (unfold PdxType.getTotalFields; by rewrite Hf, length_seq).
  unfold add_field. pose proof (fieldClass_size v) as Hs. destruct (PdxWriterWithTypeCollector.fieldClass v) as [fcls sz] eqn:Ec.
  cbn [snd] in Hs. pose proof (var_count_app fs [(name, v)]) as Hva. rewrite var_count_one in Hva.
  assert (Hnn : 0 <= var_count fs) by (unfold var_count; lia).
  destruct (isVar v) eqn:Hv; subst sz.
  - unfold PdxType.addVariableLengthTypeField. cbn [fst snd]. rewrite Hnone. eexists _, _. split; [done|].
    constructor; cbn [PdxType.m_pdxFieldTypes PdxType.addField PdxType.setVarLen
      PdxType.m_numberOfVarLenFields PdxType.m_isVarLenFieldAdded PdxType.m_varLenFieldIdx PdxType.m_fieldNameVsPdxType
      PdxType.m_remoteToLocalFieldMap PdxType.m_localToRemoteFieldMap].
    + rewrite collected_app, Hh, <- app_assoc. do 2 f_equal. cbn [collected]. rewrite Hv, Ec, Htot, Ha, Hi. cbn [fst].
      rewrite !Z.add_0_l. destruct v; try done; cbn [kindOf PdxFieldType.getFixedTypeSize];
        (destruct (Z.ltb_spec 0 (var_count fs)); do 2 f_equal; lia).
    + rewrite Hf, Hlen, length_app, seq_app. done.
    + lia.
    + symmetry. apply Z.ltb_lt. lia.
    + rewrite Ha, Hi, Hva. destruct (Z.ltb_spec 0 (var_count fs)), (Z.ltb_spec 0 (var_count fs + 1)); lia.
    + rewrite Hlen. by apply names_snoc.
    + done.
    + done.
  - unfold PdxType.addFixedLengthTypeField. cbn [fst snd]. rewrite Hnone. eexists _, _. split; [done|].
    rewrite Z.add_0_r in Hva.
    constructor; cbn [PdxType.m_pdxFieldTypes PdxType.addField
      PdxType.m_numberOfVarLenFields PdxType.m_isVarLenFieldAdded PdxType.m_varLenFieldIdx PdxType.m_fieldNameVsPdxType
      PdxType.m_remoteToLocalFieldMap PdxType.m_localToRemoteFieldMap].
    + rewrite collected_app, Hh, <- app_assoc. do 2 f_equal. cbn [collected]. rewrite Hv, Ec, Htot. cbn [fst].
      by rewrite !Z.add_0_l.
    + rewrite Hf, Hlen, length_app, seq_app. done.
    + by rewrite Hva.
    + by rewrite Hva.
    + by rewrite Hva.
    + rewrite Hlen. by apply names_snoc.
    + done.
    + done.
Qed.

(** *** All fields of an object *)

Definition enc_fields (fs : list field) : list Z := fs ≫= fun x => enc_value x.2.
Definition lens (fs : list field) : list Z := (fun x => Z.of_nat (length (enc_value x.2))) <$> fs.
Definition field_ok (x : field) : Prop := value_ok x.2.

(** The offsets of the fields of variable length. *)
Definition offsets (fs : list field) : list Z := var_starts 0 (collected 0 0 fs) (lens fs).

Lemma enc_fields_app fs gs : enc_fields (fs ++ gs) = enc_fields fs ++ enc_fields gs.
Proof. apply bind_app. Qed.

Lemma sum_lens fs : sum (lens fs) = Z.of_nat (length (enc_fields fs)).
Proof.
  induction fs as [|x fs IH]; [done|]. unfold enc_fields in *. rewrite bind_cons, length_app. cbn [lens fmap list_fmap sum].
  fold (lens fs). rewrite IH. lia.
Qed.

Lemma fixed_length v : value_ok v -> isVar v = false ->
  Z.of_nat (length (enc_value v)) = PdxFieldType.getFixedTypeSize (kindOf v) /\
  0 < PdxFieldType.getFixedTypeSize (kindOf v).
Proof. intros _. destruct v; try done; intros _; split; try done; cbn [enc_value]; by rewrite length_be_bytes. Qed.

Lemma fits_collected fs : forall n k, Forall field_ok fs -> fits k (collected n k fs) (lens fs).
Proof.
  induction fs as [|[name v] fs IH]; intros n k Hok; [done|]. apply Forall_cons_1 in Hok as [Hv Hok].
  cbn [collected lens fmap list_fmap fits]. fold (lens fs). split; [lia|].
  cbn [PdxFieldType.m_isVariableLengthType PdxFieldType.construct PdxFieldType.m_varLenFieldIdx PdxFieldType.m_fixedSize].
  destruct (isVar v) eqn:E.
  - split; [done|by apply IH].
  - destruct (fixed_length v Hv E) as [H1 H2]. cbn [snd]. split_and!; [done|lia|by apply IH].
Qed.

Lemma length_lens fs : length (lens fs) = length fs.
Proof. apply length_fmap. Qed.

Lemma offsets_snoc fs name v :
  offsets (fs ++ [(name, v)]) = offsets fs ++ if isVar v then [Z.of_nat (length (enc_fields fs))] else [].
Proof.
  unfold offsets. rewrite collected_app. unfold lens. rewrite fmap_app. fold (lens fs).
  rewrite var_starts_app by (by rewrite length_collected, length_lens). f_equal. rewrite sum_lens. cbn [collected fmap list_fmap var_starts].
  by rewrite app_nil_r.
Qed.

Lemma length_offsets fs : Z.of_nat (length (offsets fs)) = var_count fs.
Proof.
  induction fs as [|[name v] fs IH] using rev_ind; [done|].
  rewrite offsets_snoc, length_app, var_count_app, var_count_one, <- IH. destruct (isVar v); cbn [length]; lia.
Qed.

Lemma collect_field cls w base fs h0 name v :
  wrote w base (enc_fields fs) (offsets fs) -> collecting cls (m_store w) (m_pdxType w) h0 fs ->
  name ∉ fs.*1 -> value_ok v -> Z.of_nat (length base + length (enc_fields (fs ++ [(name, v)]))) + 16 < 2 ^ 31 ->
  exists w', PdxWriterWithTypeCollector.writeField to_utf16 writeObj name v w = Ok (tt, w') /\
    wrote w' base (enc_fields (fs ++ [(name, v)])) (offsets (fs ++ [(name, v)])) /\
    collecting cls (m_store w') (m_pdxType w') h0 (fs ++ [(name, v)]).
Proof.
  intros Hw Hc Hnew Hv Hlen. rewrite enc_fields_app, length_app in Hlen.
  destruct (add_field_spec _ _ _ _ _ name v Hc Hnew) as (h' & ty' & E & Hc').
  assert (E1 : on_type (add_field name v) w = Ok (tt, mk (m_dataOutput w) h' ty' (m_startPositionOffset w) (m_offsets w)))
    by (unfold on_type; by rewrite E).
  destruct (writes_value v Hv (mk (m_dataOutput w) h' ty' (m_startPositionOffset w) (m_offsets w)) base (enc_fields fs) (offsets fs)) as (w' & E2 & Hw' & Hh & Ht).
  - destruct Hw. by constructor.
  - unfold enc_fields in Hlen at 2. rewrite bind_cons in Hlen. cbn in Hlen. rewrite app_nil_r in Hlen. lia.
  - exists w'. split_and!.
    + unfold PdxWriterWithTypeCollector.writeField. unfold add_field in E1.
      destruct (PdxWriterWithTypeCollector.fieldClass v) as [fcls [sz|]]; by rewrite (st_bind_ok _ _ _ _ _ E1).
    + rewrite enc_fields_app, offsets_snoc. unfold enc_fields at 2. rewrite bind_cons. cbn. by rewrite app_nil_r.
    + by rewrite Hh, Ht.
Qed.

Lemma collect_fields cls gs : forall w base fs h0,
  wrote w base (enc_fields fs) (offsets fs) -> collecting cls (m_store w) (m_pdxType w) h0 fs ->
  NoDup (fs ++ gs).*1 -> Forall field_ok gs -> Z.of_nat (length base + length (enc_fields (fs ++ gs))) + 16 < 2 ^ 31 ->
  exists w', st_iter (fun x => PdxWriterWithTypeCollector.writeField to_utf16 writeObj x.1 x.2) gs w = Ok (tt, w') /\
    wrote w' base (enc_fields (fs ++ gs)) (offsets (fs ++ gs)) /\
    collecting cls (m_store w') (m_pdxType w') h0 (fs ++ gs).
Proof.
  induction gs as [|[name v] gs IH]; intros w base fs h0 Hw Hc Hnd Hok Hlen.
  { exists w. by rewrite app_nil_r. }
  apply Forall_cons_1 in Hok as [Hv Hok]. rewrite (cons_middle (name, v) fs gs), app_assoc in *.
  assert (Hlen1 : Z.of_nat (length base + length (enc_fields (fs ++ [(name, v)]))) + 16 < 2 ^ 31).
  { rewrite enc_fields_app, length_app in Hlen. lia. }
  destruct (collect_field cls w base fs h0 name v Hw Hc) as (w1 & E1 & Hw1 & Hc1); [|done|done|].
  { rewrite !fmap_app in Hnd. apply list.NoDup_app in Hnd as (Hnd & _ & _). apply list.NoDup_app in Hnd as (_ & Hd & _).
    intros Hin. apply (Hd name Hin). by left. }
  destruct (IH w1 base (fs ++ [(name, v)]) h0 Hw1 Hc1 Hnd Hok Hlen) as (w2 & E2 & ?).
  exists w2. cbn [st_iter fst snd]. by rewrite (st_bind_ok _ _ _ _ _ E1).
Qed.

(** *** The header and the table of offsets *)

Definition offset_size (len : Z) : Z := if len <=? 0xff then 1 else if len <=? 0xffff then 2 else 4.

Definition enc_offset (size o : Z) : list Z :=
  if size =? 1 then [u8 o] else if size =? 2 then be_bytes 2 (u16 o) else be_bytes 4 (u32 o).

(** From behind, without the first. *)
Definition enc_table (size : Z) (offs : list Z) : list Z := rev (drop 1 offs) ≫= enc_offset size.

(** The length that the header says: the fields and the table, whose width depends on it. *)
Definition stream_len (fs : list field) : Z :=
  let n := Z.of_nat (length (offsets fs) - 1) in
  let dl := Z.of_nat (length (enc_fields fs)) in
  if dl + n <=? 0xff then dl + n else if dl + n + n <=? 0xffff then dl + n + n else dl + n + n * 3.

Lemma stream_len_eq fs :
  stream_len fs = Z.of_nat (length (enc_fields fs)) + Z.of_nat (length (offsets fs) - 1) * offset_size (stream_len fs).
Proof.
  unfold stream_len, offset_size.
  set (n := Z.of_nat (length (offsets fs) - 1)). set (dl := Z.of_nat (length (enc_fields fs))).
  assert (0 <= n /\ 0 <= dl) by lia.
  destruct (Z.leb_spec (dl + n) 0xff); [destruct (Z.leb_spec (dl + n) 0xff); lia|].
  destruct (Z.leb_spec (dl + n + n) 0xffff).
  - destruct (Z.leb_spec (dl + n + n) 0xff); [lia|]. destruct (Z.leb_spec (dl + n + n) 0xffff); lia.
  - destruct (Z.leb_spec (dl + n + n * 3) 0xff); [lia|]. destruct (Z.leb_spec (dl + n + n * 3) 0xffff); lia.
Qed.

Lemma length_enc_table len offs : Z.of_nat (length (enc_table (offset_size len) offs)) =
  Z.of_nat (length offs - 1) * offset_size len.
Proof.
  unfold enc_table. rewrite <- length_drop, <- (length_rev (drop 1 offs)). generalize (rev (drop 1 offs)). intros l.
  induction l as [|o l IH]; [done|]. rewrite bind_cons, length_app. cbn [length].
  assert (Z.of_nat (length (enc_offset (offset_size len) o)) = offset_size len); [|lia].
  unfold enc_offset, offset_size. repeat case_match; try done.
Qed.

(** An object of type id [tid] in the stream. *)
Definition stream (tid : Z) (fs : list field) : list Z :=
  be_bytes 4 (stream_len fs) ++ be_bytes 4 tid ++ enc_fields fs ++ enc_table (offset_size (stream_len fs)) (offsets fs).

Lemma length_stream tid fs : Z.of_nat (length (stream tid fs)) = 8 + stream_len fs.
Proof.
  unfold stream. rewrite !length_app, !length_be_bytes, stream_len_eq. rewrite <- stream_len_eq at 1.
  pose proof (length_enc_table (stream_len fs) (offsets fs)). lia.
Qed.

Lemma emits_table len offs : emits
  (if len <=? 0xff then st_iter (fun o => DataOutput.write (u8 o)) (rev (drop 1 offs))
   else if len <=? 0xffff then st_iter (fun o => DataOutput.writeInt_uint16 (u16 o)) (rev (drop 1 offs))
   else st_iter (fun o => DataOutput.writeInt_uint32 (u32 o)) (rev (drop 1 offs)))
  (enc_table (offset_size len) offs).
Proof.
  unfold enc_table, offset_size. destruct (len <=? 0xff); [|destruct (len <=? 0xffff)]; apply emits_iter; intros o.
  - apply emits_write.
  - apply emits_writeInt_uint16.
  - apply emits_writeInt_uint32.
Qed.

Lemma on_output_ok {A} (m : ST DataOutput.t A) w a d : m (m_dataOutput w) = Ok (a, d) ->
  on_output m w = Ok (a, mk d (m_store w) (m_pdxType w) (m_startPositionOffset w) (m_offsets w)).
Proof. intros E. unfold on_output. by rewrite E. Qed.

Lemma writePdxHeader_spec calc w pre hole fs :
  wrote w (pre ++ hole) (enc_fields fs) (offsets fs) -> length hole = 8%nat -> calc w = stream_len fs ->
  Z.of_nat (length pre) + stream_len fs + 32 < 2 ^ 31 ->
  exists w', writePdxHeader calc w = Ok (tt, w') /\ wf (m_dataOutput w') /\
    out_is (m_dataOutput w') (pre ++ (Some <$> stream (PdxType.m_geodeTypeId (m_pdxType w)) fs)) /\
    m_store w' = m_store w /\ m_pdxType w' = m_pdxType w.
Proof.
  intros [Hwf Ho Hs Hoffs] Hh Hcalc Hlen. rewrite length_app, Hh in Hs.
  set (tid := PdxType.m_geodeTypeId (m_pdxType w)).
  assert (Hsplit : hole = take 4 hole ++ drop 4 hole) by (symmetry; apply take_drop).
  rewrite Hsplit, <- !app_assoc in Ho.
  destruct (writeInt32_spec (m_dataOutput w) pre (take 4 hole) (drop 4 hole ++ (Some <$> enc_fields fs)) (stream_len fs) (m_startPositionOffset w))
    as (d1 & E1 & Hw1 & Ho1 & Hs1); [done|done|rewrite length_take; lia|lia|].
  rewrite app_assoc in Ho1.
  destruct (writeInt32_spec d1 (pre ++ (Some <$> be_bytes 4 (stream_len fs))) (drop 4 hole) (Some <$> enc_fields fs) tid (m_startPositionOffset w + 4))
    as (d2 & E2 & Hw2 & Ho2 & Hs2);
    [done|done|rewrite length_drop; lia|rewrite length_app, length_fmap, length_be_bytes; lia|].
  rewrite <- !app_assoc, <- !fmap_app in Ho2.
  destruct (emits_table (stream_len fs) (offsets fs) d2 _ Hw2 Ho2) as (d3 & E3 & Hw3 & Ho3 & _).
  { pose proof (length_enc_table (stream_len fs) (offsets fs)). pose proof (stream_len_eq fs).
    rewrite !length_app, length_fmap, !length_app, !length_be_bytes. lia. }
  rewrite <- app_assoc, <- fmap_app, <- !app_assoc in Ho3.
  eexists. unfold writePdxHeader, mbind at 1, ST_bind, st_get. rewrite Hcalc. fold tid.
  rewrite (st_bind_ok _ _ _ _ _ (on_output_ok _ _ _ _ E1)).
  rewrite (st_bind_ok _ _ _ _ _ (on_output_ok _ (mk d1 _ _ _ _) _ _ E2)).
  unfold writeOffsets, mbind, ST_bind, st_get. cbn [m_offsets]. rewrite Hoffs.
  rewrite (on_output_ok _ (mk d2 _ _ _ _) _ _ E3). split; [done|]. split_and!; done.
Qed.

Lemma lenWithOffsets_spec w base fs n :
  wrote w base (enc_fields fs) (offsets fs) -> (8 <= length base)%nat -> n = Z.of_nat (length (offsets fs) - 1) ->
  Z.of_nat (length base) + stream_len fs + 32 < 2 ^ 31 -> lenWithOffsets n w = stream_len fs.
Proof.
  intros [Hwf [Hb _] Hs _] Hbase -> Hlen. unfold lenWithOffsets, DataOutput.getBufferLength, PdxHelper.PdxHeader.
  rewrite Hb, Hs, length_app, length_fmap. unfold stream_len in *.
  set (n := Z.of_nat (length (offsets fs) - 1)) in *. set (dl := length (enc_fields fs)) in *.
  rewrite wrapS_id; [|done|].
  - replace (Z.of_nat (length base + dl) - (Z.of_nat (length base) - 8) - 8) with (Z.of_nat dl) by lia. done.
  - unfold in_s. simpl. repeat case_match; lia.
Qed.

(** *** Types that describe an object *)

(** A field object without its class, its identity mark and its offsets. *)
Definition anon (f : PdxFieldType.t) : PdxFieldType.t :=
  PdxFieldType.mk (PdxFieldType.m_fieldName f) [] (PdxFieldType.m_typeId f) (PdxFieldType.m_sequenceId f)
    (PdxFieldType.m_isVariableLengthType f) false (PdxFieldType.m_fixedSize f) (PdxFieldType.m_varLenFieldIdx f) 0 0.

(** The fields [fts] of the type are those of the object [fs], their positions are there,
    and the names lead to them. *)
Record describes (h : list PdxFieldType.t) (ty : PdxType.t) (fs : list field) (fts : list PdxFieldType.t) : Prop := {
  de_holds : holds h (PdxType.m_pdxFieldTypes ty) (positions fts);
  de_like : anon <$> fts = anon <$> collected 0 0 fs;
  de_nodup : NoDup (PdxType.m_pdxFieldTypes ty);
  de_number : PdxType.m_numberOfVarLenFields ty = var_count fs;
  de_names : forall i name v p, fs !! i = Some (name, v) -> PdxType.m_pdxFieldTypes ty !! i = Some p ->
    PdxType.m_fieldNameVsPdxType ty !! name = Some p
}.

Lemma fits_anon k fts ls : fits k fts ls <-> fits k (anon <$> fts) ls.
Proof.
  revert k ls. induction fts as [|f fts IH]; intros k [|l ls]; try done. cbn [fits fmap list_fmap].
  change (PdxFieldType.m_isVariableLengthType (anon f)) with (PdxFieldType.m_isVariableLengthType f).
  change (PdxFieldType.m_varLenFieldIdx (anon f)) with (PdxFieldType.m_varLenFieldIdx f).
  change (PdxFieldType.m_fixedSize (anon f)) with (PdxFieldType.m_fixedSize f).
  destruct (PdxFieldType.m_isVariableLengthType f); by rewrite (IH _ ls).
Qed.

Lemma var_starts_anon pos fts ls : var_starts pos fts ls = var_starts pos (anon <$> fts) ls.
Proof.
  revert pos ls. induction fts as [|f fts IH]; intros pos [|l ls]; try done. cbn [var_starts fmap list_fmap].
  by rewrite IH.
Qed.

Section Described.
Context h ty fs fts (Hd : describes h ty fs fts) (Hok : Forall field_ok fs).

Lemma described_fits : fits 0 fts (lens fs).
Proof. rewrite fits_anon, (de_like _ _ _ _ Hd), <- fits_anon. by apply fits_collected. Qed.

Lemma described_offsets : var_starts 0 fts (lens fs) = offsets fs.
Proof. rewrite var_starts_anon, (de_like _ _ _ _ Hd), <- var_starts_anon. done. Qed.

Lemma described_length : length fts = length fs.
Proof.
  pose proof (f_equal length (de_like _ _ _ _ Hd)) as E. rewrite !length_fmap, length_collected in E. done.
Qed.

Lemma described_pointers : length (PdxType.m_pdxFieldTypes ty) = length fs.
Proof.
  rewrite <- described_length. pose proof (Forall2_length (de_holds _ _ _ _ Hd)) as E. rewrite E.
  unfold positions. assert (Hf : forall l o, length (front o l) = length l).
  { induction l as [|f l IH]; intros o; [done|]. cbn [front]. case_match; cbn [length]; by rewrite ?IH. }
  rewrite Hf. destruct (back_same fts []) as (pre' & E' & Hl & _). rewrite app_nil_r in E'. rewrite E', length_app, Hl.
  cbn. lia.
Qed.

(** Every field is found, by index and by name. *)
Lemma described_position i name v mem offsetPosition size :
  fs !! i = Some (name, v) -> table_ok mem offsetPosition size (offsets fs) ->
  PdxType.getFieldPosition h ty (Z.of_nat i) mem offsetPosition size (sum (lens fs)) = Ok (sum (take i (lens fs))) /\
  PdxType.getFieldPosition_name h ty name mem offsetPosition size (sum (lens fs)) = Ok (sum (take i (lens fs))).
Proof.
  intros Hi Htab. pose proof (lookup_lt_Some _ _ _ Hi) as Hlt.
  destruct (lookup_lt_is_Some_2 (PdxType.m_pdxFieldTypes ty) i) as [p Hp]; [by rewrite described_pointers|].
  destruct (lookup_lt_is_Some_2 fts i) as [f Hf]; [by rewrite described_length|].
  destruct (lookup_lt_is_Some_2 (lens fs) i) as [l Hl]; [by rewrite length_lens|].
  pose proof (take_drop_middle _ _ _ Hf) as Ef. pose proof (take_drop_middle _ _ _ Hl) as El.
  assert (Hlt1 : length (take i fts) = i) by (rewrite length_take, described_length; lia).
  assert (Hlt2 : length (take i (lens fs)) = i) by (rewrite length_take, length_lens; lia).
  assert (Hpos : PdxType.fieldPosition ty (placed (take i fts) f (drop (S i) fts)) mem offsetPosition size (sum (lens fs))
                 = Ok (sum (take i (lens fs)))).
  { rewrite <- El at 1. apply field_position with (l := l).
    - congruence.
    - rewrite Ef, El. apply described_fits.
    - rewrite Ef, El, described_offsets, length_offsets. apply (de_number _ _ _ _ Hd).
    - by rewrite Ef, El, described_offsets. }
  assert (Hh : h !! p = Some (placed (take i fts) f (drop (S i) fts))).
  { pose proof (positions_lookup (take i fts) f (drop (S i) fts)) as E. rewrite Ef, Hlt1 in E.
    pose proof (de_holds _ _ _ _ Hd) as Hholds. by eapply (Forall2_lookup_lr _ _ _ _ _ _ Hholds Hp E). }
  split.
  - unfold PdxType.getFieldPosition. rewrite Nat2Z.id, Hp, Hh. destruct (Z.ltb_spec (Z.of_nat i) 0); [lia|done].
  - unfold PdxType.getFieldPosition_name. by rewrite (de_names _ _ _ _ Hd i name v p Hi Hp), Hh.
Qed.
End Described.
End Values.
End WithAllocator.
