(* ===== verification/PdxReading.v ===== *)
(** Reading PDX objects: the bytes that a writer leaves and the type that describes them give
    back every field, in order with [PdxLocalReader], by position, and field by field with
    [PdxRemoteReader] when the receiver has another version of the class. *)
From S2P Require Import Prelude JavaModifiedUtf8 DataOutput DataOutputFacts DataInput DataInputFacts Serialization Utf8Strings PdxType PdxStreams PdxPositions PdxWriting.

#[local] Arguments be_bytes : simpl never.

Section Objects.
Context `{AllocatorOk} {O : Type} (to_utf16 to_utf8 : list Z -> outcome (list Z)).
Context (writeObj : O -> ST DataOutput.t unit) (readObj : ST DataInput.t O) (obj_ok : O -> Prop).
Context `{!Codec writeObj readObj obj_ok}.

Abbreviation field := (list Z * PdxValue O)%type.
Abbreviation enc_value := (enc_value to_utf16 writeObj readObj obj_ok).
Abbreviation enc_fields := (enc_fields to_utf16 writeObj readObj obj_ok).
Abbreviation value_ok := (value_ok to_utf16 to_utf8 obj_ok).
Abbreviation field_ok := (field_ok to_utf16 to_utf8 obj_ok).
Abbreviation lens := (lens to_utf16 writeObj readObj obj_ok).
Abbreviation offsets := (offsets to_utf16 writeObj readObj obj_ok).
Abbreviation stream := (stream to_utf16 writeObj readObj obj_ok).
Abbreviation stream_len := (stream_len to_utf16 writeObj readObj obj_ok).
Abbreviation serializePdx := (PdxObject.serializePdx to_utf16 writeObj).
Implicit Types (fs : list field) (v : PdxValue O).

(** *** Writing an object *)

Lemma anon_names (fts gs : list PdxFieldType.t) : anon <$> fts = anon <$> gs -> PdxFieldType.m_fieldName <$> fts = PdxFieldType.m_fieldName <$> gs.
Proof.
  intros E. assert (Ha : forall l : list PdxFieldType.t, PdxFieldType.m_fieldName <$> (anon <$> l) = PdxFieldType.m_fieldName <$> l)
    by (intros l; by rewrite <- list_fmap_compose).
  by rewrite <- Ha, E, Ha.
Qed.

Lemma collected_names fs : forall n k, PdxFieldType.m_fieldName <$> collected n k fs = fs.*1.
Proof.
  induction fs as [|[name v] fs IH]; intros n k; [done|]. cbn [collected]. rewrite !fmap_cons, IH. done.
Qed.

Lemma collected_lookup fs i name v n k : fs !! i = Some (name, v) ->
  exists f, collected n k fs !! i = Some f /\ PdxFieldType.m_fieldName f = name /\ PdxFieldType.m_typeId f = kindOf v /\
    PdxFieldType.m_sequenceId f = n + Z.of_nat i.
Proof.
  revert n k i. induction fs as [|[name' v'] fs IH]; intros n k [|i] Hi; try done; cbn in Hi; simplify_eq.
  - eexists. split; [done|]. cbn. split_and!; [done|done|lia].
  - destruct (IH (n + 1) (if isVar v' then k + 1 else k) i Hi) as (f & Hf & H1 & H2 & H3).
    exists f. split_and!; [done..|lia].
Qed.

(** [InitializeType] makes a collected type describe its object. *)
Lemma initialize_collected cls h0 h ty fs local :
  collecting cls h ty h0 fs -> NoDup fs.*1 -> local = None ->
  exists h' ty', PdxType.InitializeType local (h, ty) = Ok (tt, (h', ty')) /\
    describes h' ty' fs (collected 0 0 fs) /\ PdxType.m_geodeTypeId ty' = PdxType.m_geodeTypeId ty /\
    PdxType.m_className ty' = PdxType.m_className ty /\
    PdxType.m_varLenFieldIdx ty' = PdxType.m_varLenFieldIdx ty /\
    PdxType.is_java_class_ ty' = PdxType.is_java_class_ ty /\
    PdxType.m_pdxFieldTypes ty' = seq (length h0) (length fs) /\
    PdxType.m_localToRemoteFieldMap ty' = None /\ PdxType.m_remoteToLocalFieldMap ty' = None.
Proof.
  intros [Hh Hf Hn Ha Hi Hm _ [Hr Hl]] Hnd ->. set (ty1 := PdxType.setRemoteToLocal 0 (PdxType.m_remoteToLocalFieldMap ty) ty).
  assert (Hhold : holds h (PdxType.m_pdxFieldTypes ty1) (collected 0 0 fs)).
  { change (PdxType.m_pdxFieldTypes ty1) with (PdxType.m_pdxFieldTypes ty). rewrite Hf, Hh.
    apply Forall2_same_length_lookup_2; [by rewrite length_seq, length_collected|].
    intros i p f Hp Hg. apply lookup_seq in Hp as [-> _]. rewrite lookup_app_r by lia.
    by replace (length h0 + i - length h0)%nat with i by lia. }
  assert (Hnp : NoDup (PdxType.m_pdxFieldTypes ty1))
    by (change (PdxType.m_pdxFieldTypes ty1) with (PdxType.m_pdxFieldTypes ty); rewrite Hf; apply NoDup_seq).
  destruct (generatePositionMap_spec h ty1 (collected 0 0 fs) Hhold Hnp) as (h' & E & Hh' & _).
  eexists h', _. split.
  { unfold PdxType.InitializeType, PdxType.initRemoteToLocal, PdxType.initLocalToRemote, mbind, ST_bind. cbn [fst snd]. exact E. }
  split_and!; try done. constructor; try done.
  intros i name v p Hi' Hp. cbn [PdxType.m_fieldNameVsPdxType PdxType.setNames].
  destruct (collected_lookup fs i name v 0 0 Hi') as (f & Hcf & <- & _).
  apply (names_after_lookup _ _ _) with (i := i); [by rewrite collected_names| |done|done].
  intros j q g q' Hq Hg Hq'. change (PdxType.m_fieldNameVsPdxType ty1) with (PdxType.m_fieldNameVsPdxType ty) in Hq'.
  apply Hm in Hq' as (j' & w & Hj' & ->).
  change (PdxType.m_pdxFieldTypes ty1) with (PdxType.m_pdxFieldTypes ty) in Hq. rewrite Hf in Hq. apply lookup_seq in Hq as [-> _].
  f_equal. eapply (NoDup_lookup fs.*1); [done|by rewrite list_lookup_fmap, Hj'|].
  rewrite <- (collected_names fs 0 0), list_lookup_fmap, Hg. done.
Qed.

Lemma open_writer d pre h ty :
  wf d -> out_is d pre -> Z.of_nat (length pre) + 32 < 2 ^ 31 ->
  exists w hole, PdxLocalWriter.construct d h ty = Ok w /\ length hole = 8%nat /\
    wrote w (pre ++ hole) [] [] /\ PdxLocalWriter.m_store w = h /\ PdxLocalWriter.m_pdxType w = ty.
Proof.
  intros Hwf Ho Hlen. pose proof Ho as [Hb _].
  destruct (advanceCursor_spec 8 d pre Hwf Ho) as (d' & hole & E & Hwf' & Ho' & Hh & _); [lia|].
  eexists _, hole. unfold PdxLocalWriter.construct. change PdxHelper.PdxHeader with (Z.of_nat 8).
  unfold mbind, outcome_bind. rewrite E. split; [done|]. split_and!; [done| |done|done].
  unfold DataOutput.getBufferLength. rewrite Hb, wrapS_id by (unfold in_s; simpl; lia).
  constructor; cbn; [done|by rewrite app_nil_r|rewrite length_app, Hh; lia|done].
Qed.

Lemma collecting_start h cls : collecting cls h (PdxType.construct cls true true) h ([] : list field).
Proof.
  constructor; try done; cbn; [by rewrite app_nil_r|].
  intros name i. rewrite lookup_empty. split; [done|]. by intros (j & v & Hj & _).
Qed.

Lemma stream_len_bound fs : Z.of_nat (length (enc_fields fs)) <= stream_len fs.
Proof.
  pose proof (stream_len_eq to_utf16 writeObj readObj obj_ok fs) as E. rewrite E. unfold offset_size.
  repeat case_match; lia.
Qed.

Lemma serializePdx_spec cls tid fs d pre h :
  wf d -> out_is d pre -> NoDup fs.*1 -> Forall field_ok fs ->
  Z.of_nat (length pre) + stream_len fs + 64 < 2 ^ 31 ->
  exists d' h' ty, serializePdx cls tid fs d h = Ok (d', h', ty) /\ wf d' /\
    out_is d' (pre ++ (Some <$> stream tid fs)) /\ describes h' ty fs (collected 0 0 fs) /\
    PdxType.m_geodeTypeId ty = tid /\ PdxType.m_className ty = cls /\
    PdxType.m_pdxFieldTypes ty = seq (length h) (length fs) /\
    PdxType.m_varLenFieldIdx ty = (if 0 <? var_count fs then var_count fs - 1 else 0) /\
    PdxType.is_java_class_ ty = true /\
    PdxType.m_localToRemoteFieldMap ty = None /\ PdxType.m_remoteToLocalFieldMap ty = None.
Proof.
  intros Hwf Ho Hnd Hok Hlen. pose proof (stream_len_bound fs) as Hsl.
  destruct (open_writer d pre h (PdxType.construct cls true true) Hwf Ho) as (w0 & hole & E0 & Hh & Hw0 & Hs0 & Ht0); [lia|].
  destruct (collect_fields to_utf16 to_utf8 writeObj readObj obj_ok cls fs w0 (pre ++ hole) [] h) as (w1 & E1 & Hw1 & Hc1); try done.
  { rewrite Hs0, Ht0. apply collecting_start. }
  { rewrite length_app, Hh. cbn [app]. lia. }
  pose proof (col_idx _ _ _ _ _ Hc1) as Hidx. pose proof (col_class _ _ _ _ _ Hc1) as [Hc2 Hc3].
  destruct (initialize_collected cls h _ _ fs None Hc1 Hnd eq_refl) as (h2 & ty2 & E2 & Hd & _ & Hcl & Hvi & Hj & Hf & Hl & Hr).
  set (w2 := PdxObject.setTypeId tid (PdxLocalWriter.mk (PdxLocalWriter.m_dataOutput w1) h2 ty2
               (PdxLocalWriter.m_startPositionOffset w1) (PdxLocalWriter.m_offsets w1))).
  assert (Hw2 : wrote w2 (pre ++ hole) (enc_fields fs) (offsets fs)) by (destruct Hw1; by constructor).
  assert (Hcalc : PdxWriterWithTypeCollector.calculateLenWithOffsets w2 = stream_len fs).
  { unfold PdxWriterWithTypeCollector.calculateLenWithOffsets.
    eapply (lenWithOffsets_spec to_utf16 writeObj readObj obj_ok); [exact Hw2|rewrite length_app; lia| |rewrite length_app; lia].
    rewrite (wrote_offs _ _ _ _ Hw2). destruct (offsets fs); [done|]. cbn [length Nat.ltb Nat.leb]. lia. }
  destruct (writePdxHeader_spec to_utf16 writeObj readObj obj_ok _ w2 pre hole fs Hw2 Hh Hcalc) as (w3 & E3 & Hwf3 & Ho3 & Hs3 & Ht3); [lia|].
  exists (PdxLocalWriter.m_dataOutput w3), (PdxLocalWriter.m_store w3), (PdxLocalWriter.m_pdxType w3).
  split_and!; rewrite ?Hs3, ?Ht3; try done.
  - unfold PdxObject.serializePdx, PdxWriterWithTypeCollector.construct, mbind, outcome_bind. rewrite E0, E1.
    unfold PdxLocalWriter.on_type. rewrite E2. unfold PdxWriterWithTypeCollector.endObjectWriting.
    fold w2. rewrite E3. by rewrite Hs3, Ht3.
  - destruct Hd. by constructor.
  - cbn. congruence.
  - cbn. by rewrite Hvi.
  - cbn. congruence.
Qed.

(** The values of an object one after the other, for a type that is known. *)
Lemma write_values gs : forall w base fs,
  wrote w base (enc_fields fs) (offsets fs) -> Forall field_ok gs ->
  Z.of_nat (length base + length (enc_fields (fs ++ gs))) + 16 < 2 ^ 31 ->
  exists w', st_iter (PdxLocalWriter.writeValue to_utf16 writeObj) gs.*2 w = Ok (tt, w') /\
    wrote w' base (enc_fields (fs ++ gs)) (offsets (fs ++ gs)) /\
    PdxLocalWriter.m_pdxType w' = PdxLocalWriter.m_pdxType w.
Proof.
  induction gs as [|[name v] gs IH]; intros w base fs Hw Hok Hlen.
  { exists w. by rewrite app_nil_r. }
  apply Forall_cons_1 in Hok as [Hv Hok]. rewrite (cons_middle (name, v) fs gs), app_assoc in *.
  assert (Hone : enc_fields [(name, v)] = enc_value v).
  { unfold enc_fields. rewrite bind_cons. apply app_nil_r. }
  assert (Hsnoc : enc_fields (fs ++ [(name, v)]) = enc_fields fs ++ enc_value v) by (by rewrite enc_fields_app, Hone).
  rewrite enc_fields_app, length_app, Hsnoc, length_app in Hlen.
  destruct (writes_value to_utf16 to_utf8 writeObj readObj obj_ok v Hv w base _ _ Hw) as (w1 & E1 & Hw1 & _ & Ht1); [lia|].
  rewrite <- Hsnoc, <- offsets_snoc with (name := name) in Hw1.
  destruct (IH w1 base (fs ++ [(name, v)]) Hw1 Hok) as (w2 & E2 & Hw2 & Ht2).
  { rewrite enc_fields_app, length_app, Hsnoc, length_app. lia. }
  exists w2. rewrite fmap_cons. cbn [st_iter fst snd]. rewrite (st_bind_ok _ _ _ _ _ E1).
  split_and!; [done|done|congruence].
Qed.

Lemma serializeInstance_spec ty fs fts d pre h :
  wf d -> out_is d pre -> Forall field_ok fs -> describes h ty fs fts ->
  Z.of_nat (length pre) + stream_len fs + 64 < 2 ^ 31 ->
  exists d', PdxObject.serializeInstance to_utf16 writeObj ty fs.*2 d h = Ok d' /\ wf d' /\
    out_is d' (pre ++ (Some <$> stream (PdxType.m_geodeTypeId ty) fs)).
Proof.
  intros Hwf Ho Hok Hd Hlen. pose proof (stream_len_bound fs) as Hsl.
  destruct (open_writer d pre h ty Hwf Ho) as (w0 & hole & E0 & Hh & Hw0 & Hs0 & Ht0); [lia|].
  destruct (write_values fs w0 (pre ++ hole) [] Hw0 Hok) as (w1 & E1 & Hw1 & Ht1).
  { rewrite length_app, Hh. cbn [app]. lia. }
  cbn [app] in Hw1. rewrite Ht0 in Ht1.
  assert (Hcalc : PdxLocalWriter.calculateLenWithOffsets w1 = stream_len fs).
  { unfold PdxLocalWriter.calculateLenWithOffsets. rewrite Ht1, (de_number _ _ _ _ Hd).
    eapply (lenWithOffsets_spec to_utf16 writeObj readObj obj_ok); [exact Hw1|rewrite length_app; lia| |rewrite length_app; lia].
    rewrite <- (length_offsets to_utf16 writeObj readObj obj_ok fs). destruct (offsets fs); [done|]. cbn [length].
    destruct (Z.ltb_spec 0 (Z.of_nat (S (length l)))); lia. }
  destruct (writePdxHeader_spec to_utf16 writeObj readObj obj_ok _ w1 pre hole fs Hw1 Hh Hcalc) as (w2 & E2 & Hwf2 & Ho2 & _); [lia|].
  exists (PdxLocalWriter.m_dataOutput w2). rewrite Ht1 in Ho2. split_and!; [|done|done].
  unfold PdxObject.serializeInstance, mbind, outcome_bind. rewrite E0, E1. unfold PdxLocalWriter.endObjectWriting.
  by rewrite E2.
Qed.

(** *** Reading values *)

(** A null date comes back as the date -1. *)
Definition normal v : PdxValue O := match v with VDate None => VDate (Some (-1)) | _ => v end.

(** Consumes [l] of the reader's input and returns [a]. *)
Definition takes {A} (m : ST PdxLocalReader.t A) (l : list Z) (a : A) : Prop := forall r pre rest,
  PdxLocalReader.m_dataInput r = at_ pre (l ++ rest) -> Z.of_nat (length (pre ++ l ++ rest)) < 2 ^ 62 ->
  m r = Ok (a, PdxLocalReader.with_input (at_ (pre ++ l) rest) r).

Lemma takes_input {A} (m : ST DataInput.t A) l a : reads m l a -> takes (PdxLocalReader.on_input m) l a.
Proof. intros Hm r pre rest Hr Hlen. unfold PdxLocalReader.on_input. by rewrite Hr, Hm. Qed.

Lemma takes_map {A B} (m : ST PdxLocalReader.t A) (f : A -> B) l a b :
  takes m l a -> f a = b -> takes (x ← m; mret (f x)) l b.
Proof. intros Hm <- r pre rest Hr Hlen. by rewrite (st_bind_ok _ _ _ _ _ (Hm r pre rest Hr Hlen)). Qed.

Lemma reads_array {A} (m : ST DataInput.t A) (enc : A -> list Z) (P : A -> Prop) xs :
  (forall x, P x -> reads m (enc x) x) -> array_ok P xs -> reads (DataInput.readArray m) (enc_array enc xs) xs.
Proof. intros Hm [Hl Hf]. apply reads_readArray; [done|]. eapply Forall_impl; [|exact Hf]. auto. Qed.

Lemma reads_byteArrays (l : list (list Z)) : array_ok (fun b => Z.of_nat (length b) <= 2 ^ 31 - 6) l ->
  reads DataInput.readArrayOfByteArrays (enc_array (fun b => enc_arrayLen (Z.of_nat (length b)) ++ b) l)
    (Some ((fun b => (if decide (b = []) then None else Some b, Z.of_nat (length b))) <$> l)).
Proof.
  intros [Hl Hf]. unfold DataInput.readArrayOfByteArrays. eapply reads_bind; [apply reads_readArrayLength; lia|].
  destruct (Z.eqb_spec (Z.of_nat (length l)) (-1)); [lia|]. destruct (Z.ltb_spec (Z.of_nat (length l)) 0); [lia|].
  apply (reads_map _ Some). rewrite Nat2Z.id. clear Hl n H1. induction Hf as [|b l Hb Hf IH]; [apply reads_ret|].
  rewrite bind_cons. cbn [length st_repeat]. eapply reads_bind; [apply reads_readBytes; lia|].
  rewrite fmap_cons. apply (reads_map _ (cons _)), IH.
Qed.

Lemma takes_value v : value_ok v -> takes (PdxLocalReader.readValue to_utf8 readObj (kindOf v)) (enc_value v) (normal v).
Proof.
  destruct v; cbn [PdxWriting.value_ok kindOf PdxLocalReader.readValue PdxWriting.enc_value normal]; intros Hv.
  - eapply takes_map; [eapply takes_map; [apply takes_input, reads_readInt16|done]|]. by rewrite wrapU_wrapS, wrapU_id.
  - eapply takes_map; [apply takes_input, reads_readBoolean|done].
  - eapply takes_map; [apply takes_input, reads_read|]. by rewrite wrapS_wrapU_id.
  - eapply takes_map; [apply takes_input, reads_readInt16|]. by rewrite wrapS_wrapU_id.
  - eapply takes_map; [apply takes_input, reads_readInt32|]. by rewrite wrapS_wrapU_id.
  - eapply takes_map; [apply takes_input, reads_readInt64|]. by rewrite wrapS_wrapU_id.
  - eapply takes_map; [apply takes_input, reads_readFloat|]. by rewrite wrapU_id.
  - eapply takes_map; [apply takes_input, reads_readDouble|]. by rewrite wrapU_id.
  - eapply takes_map; [eapply takes_map; [apply takes_input, reads_readInt64|done]|].
    rewrite wrapS_wrapU_id by done. by destruct d.
  - eapply takes_map; [apply takes_input; by apply reads_readString_string|done].
  - eapply takes_map; [apply takes_input; by apply codec_reads|done].
  - eapply takes_map; [apply takes_input, (reads_array _ _ (fun _ => True)); [|done]|done]. intros. apply reads_readBoolean.
  - eapply takes_map; [apply takes_input, (reads_array _ _ (in_u 16)); [|done]|done].
    intros x Hx. eapply (reads_eq _ _ (u16 (s16 x))); [apply (reads_map _ u16), reads_readInt16|]. by rewrite wrapU_wrapS, wrapU_id.
  - eapply takes_map; [apply takes_input, (reads_array _ _ (in_s 8)); [|done]|done].
    intros x Hx. eapply reads_eq; [apply reads_read|]. by rewrite wrapS_wrapU_id.
  - eapply takes_map; [apply takes_input, (reads_array _ _ (in_s 16)); [|done]|done].
    intros x Hx. eapply reads_eq; [apply reads_readInt16|]. by rewrite wrapS_wrapU_id.
  - eapply takes_map; [apply takes_input, (reads_array _ _ (in_s 32)); [|done]|done].
    intros x Hx. eapply reads_eq; [apply reads_readInt32|]. by rewrite wrapS_wrapU_id.
  - eapply takes_map; [apply takes_input, (reads_array _ _ (in_s 64)); [|done]|done].
    intros x Hx. eapply reads_eq; [apply reads_readInt64|]. by rewrite wrapS_wrapU_id.
  - eapply takes_map; [apply takes_input, (reads_array _ _ (in_u 32)); [|done]|done].
    intros x Hx. eapply reads_eq; [apply reads_readFloat|]. by rewrite wrapU_id.
  - eapply takes_map; [apply takes_input, (reads_array _ _ (in_u 64)); [|done]|done].
    intros x Hx. eapply reads_eq; [apply reads_readDouble|]. by rewrite wrapU_id.
  - destruct Hv as [Hl Hf]. eapply takes_map; [apply takes_input; by apply (reads_readStringArray to_utf16)|done].
  - destruct l as [l|].
    + eapply takes_map; [eapply takes_map; [apply takes_input; by apply reads_byteArrays|done]|].
      do 2 f_equal. rewrite <- list_fmap_compose. rewrite <- (list_fmap_id l) at 2. apply list_fmap_ext.
      intros _ b _. cbn. case_decide; by subst.
    + assert (Hn : reads DataInput.readArrayOfByteArrays [255] None).
      { apply (reads_bind _ _ [255] []) with (a := -1); [apply (reads_readArrayLength (-1)); lia|apply reads_ret]. }
      eapply takes_map; [eapply takes_map; [apply takes_input, Hn|done]|done].
Qed.

(** *** The table of offsets *)

Lemma load_app a b l : PdxHelper.load (a ++ b :: l) (Z.of_nat (length a)) = Ok b.
Proof.
  unfold PdxHelper.load. destruct (Z.ltb_spec (Z.of_nat (length a)) 0); [lia|].
  rewrite Nat2Z.id. by rewrite list_lookup_middle.
Qed.

Lemma load_at a b l p : p = Z.of_nat (length a) -> PdxHelper.load (a ++ b :: l) p = Ok b.
Proof. intros ->. apply load_app. Qed.

(** The bytes of a sequence, one after the other. *)
Lemma load_seq a l b i x : l !! i = Some x -> PdxHelper.load (a ++ l ++ b) (Z.of_nat (length a) + Z.of_nat i) = Ok x.
Proof.
  intros Hi. rewrite <- (take_drop_middle l i x Hi), <- app_assoc, app_assoc. cbn [app]. apply load_at.
  rewrite length_app, length_take. pose proof (lookup_lt_Some _ _ _ Hi). lia.
Qed.

Lemma read_offset a b size o :
  0 <= o < 2 ^ 31 -> size = 1 /\ o <= 0xff \/ size = 2 /\ o <= 0xffff \/ size = 4 ->
  PdxHelper.readInt (a ++ enc_offset size o ++ b) (Z.of_nat (length a)) size = Ok o.
Proof.
  intros Ho Hsize. unfold PdxHelper.readInt, enc_offset.
  assert (H8 : forall z, in_u 8 (u8 z)) by (intros; by apply wrapU_range).
  destruct Hsize as [[-> Hm]|[[-> Hm]| ->]]; cbn [Z.eqb Pos.eqb].
  - rewrite wrapU_id by (unfold in_u; lia). cbn [app]. apply load_app.
  - unfold PdxHelper.readUInt16, mbind, outcome_bind.
    rewrite (wrapU_id 16 o) by (unfold in_u; lia). change (be_bytes 2 o) with [u8 (Z.shiftr o 8); u8 o].
    set (l := [_; _]). pose proof (load_seq a l b 0 _ eq_refl) as E0. rewrite Z.add_0_r in E0.
    rewrite E0, (load_seq a l b 1 _ eq_refl : PdxHelper.load _ (Z.of_nat (length a) + 1) = _). subst l.
    cbn [mret outcome_ret]. rewrite lor_shiftl_8 by done. f_equal. unfold wrapU.
    rewrite Z.shiftr_div_pow2 by lia. change (2 ^ 8) with 256. change (2 ^ 16) with 65536. zdiv.
  - unfold PdxHelper.readInt32, mbind, outcome_bind.
    rewrite (wrapU_id 32 o) by (unfold in_u; lia).
    change (be_bytes 4 o) with [u8 (Z.shiftr o 24); u8 (Z.shiftr o 16); u8 (Z.shiftr o 8); u8 o].
    set (l := [_; _; _; _]). pose proof (load_seq a l b 0 _ eq_refl) as E0. rewrite Z.add_0_r in E0.
    rewrite E0, (load_seq a l b 1 _ eq_refl : PdxHelper.load _ (Z.of_nat (length a) + 1) = _), (load_seq a l b 2 _ eq_refl : PdxHelper.load _ (Z.of_nat (length a) + 2) = _), (load_seq a l b 3 _ eq_refl : PdxHelper.load _ (Z.of_nat (length a) + 3) = _). subst l.
    cbn [mret outcome_ret]. rewrite !lor_shiftl_8 by done. f_equal.
    pose proof (H8 (o ≫ 24)) as B0. pose proof (H8 (o ≫ 16)) as B1. pose proof (H8 (o ≫ 8)) as B2. unfold in_u in B0, B1, B2.
    rewrite (wrapS_id 32 (u8 (o ≫ 24) * 256 + _)) by (unfold in_s; simpl; lia).
    rewrite (wrapS_id 32 ((u8 (o ≫ 24) * 256 + _) * 256 + _)) by (unfold in_s; simpl; lia).
    transitivity (wrapS 32 (be_val (be_bytes 4 o))); [reflexivity|].
    rewrite be_val_be_bytes, Z.mod_small by (simpl; lia). apply wrapS_id; [done|]. unfold in_s. simpl. lia.
Qed.

Lemma var_starts_bound k pos fts ls o : fits k fts ls -> o ∈ var_starts pos fts ls -> pos <= o <= pos + sum ls.
Proof.
  revert k pos ls. induction fts as [|f fts IH]; intros k pos [|l ls] Hf Ho; try by apply elem_of_nil in Ho.
  cbn [fits var_starts sum] in *. destruct Hf as [Hl Hf]. apply elem_of_app in Ho as [Ho|Ho].
  - destruct (PdxFieldType.m_isVariableLengthType f); [|by apply elem_of_nil in Ho].
    apply list_elem_of_singleton in Ho as ->. destruct Hf as [_ Hf]. pose proof (sum_nonneg _ _ _ Hf). lia.
  - assert (exists k', fits k' fts ls) as [k' Hf'] by (destruct (PdxFieldType.m_isVariableLengthType f); naive_solver).
    pose proof (IH k' (pos + l) ls Hf' Ho). lia.
Qed.

Lemma length_bind_offsets size (l : list Z) : size = 1 \/ size = 2 \/ size = 4 ->
  Z.of_nat (length (l ≫= enc_offset size)) = Z.of_nat (length l) * size.
Proof.
  intros Hs. induction l as [|o l IH]; [done|]. rewrite bind_cons, length_app. cbn [length].
  assert (Z.of_nat (length (enc_offset size o)) = size); [|lia].
  unfold enc_offset. destruct Hs as [->|[->| ->]]; done.
Qed.

Lemma stream_table P fs rest : Forall field_ok fs -> stream_len fs < 2 ^ 31 ->
  table_ok (P ++ enc_table (offset_size (stream_len fs)) (offsets fs) ++ rest) (Z.of_nat (length P))
    (offset_size (stream_len fs)) (offsets fs).
Proof.
  intros Hok Hlen k o Hk Ho. set (size := offset_size (stream_len fs)).
  assert (Hsize : size = 1 \/ size = 2 \/ size = 4) by (unfold size, offset_size; repeat case_match; auto).
  assert (Hbound : 0 <= o <= stream_len fs).
  { pose proof (stream_len_bound fs). apply list_elem_of_lookup_2 in Ho.
    pose proof (var_starts_bound 0 0 _ _ o (fits_collected to_utf16 to_utf8 writeObj readObj obj_ok fs 0 0 Hok) Ho) as Hb.
    rewrite sum_lens in Hb. lia. }
  assert (Hrange : size = 1 /\ o <= 0xff \/ size = 2 /\ o <= 0xffff \/ size = 4).
  { unfold size, offset_size. destruct (Z.leb_spec (stream_len fs) 0xff); [left; lia|].
    destruct (Z.leb_spec (stream_len fs) 0xffff); [right; left; lia|auto]. }
  (* the entry in the reversed table *)
  pose proof (lookup_lt_Some _ _ _ Ho) as Hlt.
  set (t := rev (drop 1 (offsets fs))). set (j := (length (offsets fs) - 1 - k)%nat).
  assert (Ht : t !! j = Some o).
  { subst t j. rewrite rev_alt. fold (reverse (drop 1 (offsets fs))).
    rewrite reverse_lookup by (rewrite length_drop; lia). rewrite length_drop, lookup_drop. rewrite <- Ho. f_equal. lia. }
  unfold enc_table. fold t. rewrite <- (take_drop_middle t j o Ht), bind_app, bind_cons.
  assert (Hj : length (take j t) = j) by (rewrite length_take; pose proof (lookup_lt_Some _ _ _ Ht); lia).
  replace (Z.of_nat (length P) + _) with (Z.of_nat (length (P ++ (take j t ≫= enc_offset size)))).
  2: { rewrite length_app, Nat2Z.inj_add, length_bind_offsets, Hj by done. subst j. f_equal. f_equal. lia. }
  rewrite <- !app_assoc, (app_assoc P). apply read_offset; [lia|done].
Qed.
End Objects.
