(* ===== verification/PdxObjects.v ===== *)
(** Whole PDX objects: what is written is read back in order, by position, and by a receiver
    that has another version of the class. *)
From S2P Require Import Prelude JavaModifiedUtf8 DataOutput DataOutputFacts DataInput DataInputFacts Serialization Utf8Strings PdxType PdxStreams PdxPositions PdxWriting PdxReading.
Import PdxLocalReader.

#[local] Arguments be_bytes : simpl never.

Section Objects.
Context `{AllocatorOk} {O : Type} (to_utf16 to_utf8 : list Z -> outcome (list Z)).
Context (writeObj : O -> ST DataOutput.t unit) (readObj : ST DataInput.t O) (nullObj : O) (obj_ok : O -> Prop).
Context `{!Codec writeObj readObj obj_ok}.

Abbreviation field := (list Z * PdxValue O)%type.
Abbreviation enc_value := (enc_value to_utf16 writeObj readObj obj_ok).
Abbreviation enc_fields := (enc_fields to_utf16 writeObj readObj obj_ok).
Abbreviation value_ok := (value_ok to_utf16 to_utf8 obj_ok).
Abbreviation field_ok := (field_ok to_utf16 to_utf8 obj_ok).
Abbreviation lens := (lens to_utf16 writeObj readObj obj_ok).
Abbreviation offsets := (offsets to_utf16 writeObj readObj obj_ok).
Abbreviation stream := (stream to_utf16 writeObj readObj obj_ok).
Abbreviation stream_len := (stream_len to_utf16 writeObj readObj obj_ok).
Implicit Types (fs : list field) (v : PdxValue O) (r : PdxLocalReader.t) (before rest : list Z).

(** *** A reader on an object *)

Definition table fs : list Z := enc_table (offset_size (stream_len fs)) (offsets fs).

(** The reader [r] of an object of [fs] that starts behind [before]; the cursor is behind
    [X], a part of the object. *)
Record reading r before fs rest (X Y : list Z) : Prop := {
  rd_input : m_dataInput r = at_ (before ++ X) (Y ++ rest);
  rd_body : X ++ Y = enc_fields fs ++ table fs;
  rd_start : m_startBuffer r = Z.of_nat (length before) /\ m_startPosition r = Z.of_nat (length before);
  rd_length : m_serializedLength r = sum (lens fs) /\ m_serializedLengthWithOffsets r = stream_len fs;
  rd_table : m_offsetSize r = offset_size (stream_len fs) /\
             m_offsetsBuffer r = Z.of_nat (length before) + sum (lens fs);
  rd_size : Z.of_nat (length (before ++ enc_fields fs ++ table fs ++ rest)) < 2 ^ 31
}.

Lemma length_body fs : Z.of_nat (length (enc_fields fs ++ table fs)) = stream_len fs.
Proof.
  unfold table. rewrite length_app, (stream_len_eq to_utf16 writeObj readObj obj_ok fs). 
  rewrite <- (stream_len_eq to_utf16 writeObj readObj obj_ok fs) at 1.
  pose proof (length_enc_table (stream_len fs) (offsets fs)). lia.
Qed.

Lemma reading_with_input r before fs rest X Y X' Y' :
  reading r before fs rest X Y -> X' ++ Y' = X ++ Y ->
  reading (with_input (at_ (before ++ X') (Y' ++ rest)) r) before fs rest X' Y'.
Proof. intros [Hi Hb Hs Hl Ht Hz] E. constructor; try done. by rewrite E. Qed.

(** A call that consumes the bytes under the cursor. *)
Lemma reading_takes {A} (m : ST PdxLocalReader.t A) r before fs rest X l Y a :
  reading r before fs rest X (l ++ Y) -> takes m l a ->
  exists r', m r = Ok (a, r') /\ reading r' before fs rest (X ++ l) Y /\ r' = with_input (m_dataInput r') r.
Proof.
  intros Hr Hm. pose proof (rd_input _ _ _ _ _ _ Hr) as Hi. rewrite <- app_assoc in Hi.
  rewrite (Hm _ _ _ Hi).
  - eexists. split; [done|]. split; [|done]. rewrite <- app_assoc. eapply reading_with_input; [exact Hr|by rewrite app_assoc].
  - pose proof (rd_size _ _ _ _ _ _ Hr) as Hz. rewrite (app_assoc (enc_fields fs)), <- (rd_body _ _ _ _ _ _ Hr) in Hz.
    rewrite !length_app in *. lia.
Qed.

Lemma reading_reset r before fs rest X Y : reading r before fs rest X Y ->
  resettoPdxHead r = Ok (tt, with_input (at_ before ((X ++ Y) ++ rest)) r).
Proof.
  intros [Hi Hb [Hs _] Hl Ht Hz]. unfold resettoPdxHead, mbind, ST_bind, st_get, on_input. rewrite Hi, Hs.
  unfold DataInput.rewindCursor, st_modify, at_. cbn. do 3 f_equal.
  assert (Z.of_nat (length (before ++ X)) - Z.of_nat (length before) = Z.of_nat (length X)) as -> by (rewrite length_app; lia).
  rewrite wrapS_id; [|done|].
  - f_equal; [by rewrite <- !app_assoc|rewrite length_app; lia|by rewrite <- !app_assoc].
  - rewrite (app_assoc (enc_fields fs)), <- Hb, !length_app in Hz. unfold in_s. simpl. lia.
Qed.

Lemma reading_head r before fs rest X Y : reading r before fs rest X Y ->
  reading (with_input (at_ before ((X ++ Y) ++ rest)) r) before fs rest [] (X ++ Y).
Proof. intros Hr. rewrite <- (app_nil_r before) at 1. by eapply reading_with_input. Qed.

Lemma reading_move r before fs rest X Y : reading r before fs rest X Y ->
  moveStream r = Ok (tt, with_input (at_ (before ++ enc_fields fs ++ table fs) rest) r).
Proof.
  intros [Hi Hb [_ Hs] [_ Hl] Ht Hz]. unfold moveStream, mbind, ST_bind, st_get, on_input. rewrite Hi, Hs, Hl.
  unfold DataInput.resetPdx, st_modify, at_. cbn. rewrite <- length_body, <- Hb. do 3 f_equal.
  f_equal; [by rewrite <- !app_assoc|rewrite !length_app; lia|by rewrite <- !app_assoc].
Qed.

(** The map that the reader has: the one of the type or a new one. *)
Definition map_of (local : option PdxType.t) (h : list PdxFieldType.t) (ty : PdxType.t) : option (list Z) :=
  match PdxType.m_localToRemoteFieldMap ty with
  | Some m => Some m
  | None => (fun l => PdxType.localToRemote (PdxType.fields h ty) (PdxType.fields h l) (PdxType.fields h ty)) <$> local
  end.

(** The constructor; the sender's type may get its maps. *)
Lemma construct_reader local h ty before fs rest fts :
  describes h ty fs fts -> Z.of_nat (length (before ++ enc_fields fs ++ table fs ++ rest)) < 2 ^ 31 ->
  exists r, construct local h ty (stream_len fs) (at_ before ((enc_fields fs ++ table fs) ++ rest)) = Ok r /\
    reading r before fs rest [] (enc_fields fs ++ table fs) /\ describes h (m_pdxType r) fs fts /\
    m_currentIndex r = 0 /\
    m_localToRemoteMap r = map_of local h ty.
Proof.
  intros Hd Hz. pose proof (de_number _ _ _ _ Hd) as Hn.
  assert (Hinit : forall (l : option PdxType.t) s, s = (h, ty) -> exists m s', PdxType.getLocalToRemoteMap l s = Ok (m, s') /\ s'.1 = h /\
    describes h s'.2 fs fts /\ PdxType.m_numberOfVarLenFields s'.2 = var_count fs /\ m = map_of l h ty).
  { intros l s ->. unfold PdxType.getLocalToRemoteMap, mbind, ST_bind, st_get. cbn [snd].
    unfold map_of. destruct (PdxType.m_localToRemoteFieldMap ty) eqn:E; [eexists _, _; split; [done|]; done|].
    destruct l as [l|]; (eexists _, _; split; [done|]; split_and!; try done); cbn; try done.
    destruct Hd; by constructor. }
  destruct (Hinit local (h, ty) eq_refl) as (m & [h1 ty1] & E1 & Hh1 & Hd1 & Hn1 & ->). cbn in Hh1, Hd1, Hn1. subst h1.
  assert (exists m2 ty2, PdxType.getRemoteToLocalMap local (h, ty1) = Ok (m2, (h, ty2)) /\ describes h ty2 fs fts /\
    PdxType.m_numberOfVarLenFields ty2 = var_count fs) as (m2 & ty2 & E2 & Hd2 & Hn2).
  { unfold PdxType.getRemoteToLocalMap, mbind, ST_bind, st_get. cbn [snd].
    destruct (PdxType.m_remoteToLocalFieldMap ty1) eqn:E; [by eexists _, _|].
    destruct local as [l|]; (eexists _, _; split; [done|]); split; try done; destruct Hd1; by constructor. }
  eexists. unfold construct, mbind, outcome_bind. rewrite E1, E2. split; [done|]. cbn [snd].
  set (size := if stream_len fs <=? 0xff then 1 else if stream_len fs <=? 0xffff then 2 else 4).
  assert (Hlen : (if 0 <? PdxType.m_numberOfVarLenFields ty2 then stream_len fs - (PdxType.m_numberOfVarLenFields ty2 - 1) * size else stream_len fs) = sum (lens fs)).
  { rewrite Hn2, sum_lens. pose proof (stream_len_eq to_utf16 writeObj readObj obj_ok fs) as E.
    pose proof (length_offsets to_utf16 writeObj readObj obj_ok fs) as El. change (offset_size (stream_len fs)) with size in E.
    destruct (Z.ltb_spec 0 (var_count fs)).
    - replace (Z.of_nat (length (offsets fs) - 1)) with (var_count fs - 1) in E by lia. lia.
    - replace (Z.of_nat (length (offsets fs) - 1)) with 0 in E by lia. lia. }
  split_and!; try done. constructor; cbn [m_dataInput m_startBuffer m_startPosition m_serializedLength
    m_serializedLengthWithOffsets m_offsetSize m_offsetsBuffer]; try done.
  - by rewrite app_nil_r.
  - split; [done|]. unfold DataInput.getBytesRead, at_. cbn [DataInput.pos]. apply wrapS_id; [done|].
    rewrite length_app in Hz. unfold in_s. simpl. lia.
  - by rewrite Hlen.
Qed.

(** *** Reading in order *)

Lemma enc_fields_cons x fs : enc_fields (x :: fs) = enc_value x.2 ++ enc_fields fs.
Proof. unfold enc_fields. by rewrite bind_cons. Qed.

Lemma readAll_local gs : forall r before fs rest X Y,
  Forall field_ok gs -> reading r before fs rest X (enc_fields gs ++ Y) ->
  exists r', PdxObject.readAll (readValue to_utf8 readObj) (kindOf <$> gs.*2) r = Ok (normal <$> gs.*2, r') /\
    reading r' before fs rest (X ++ enc_fields gs) Y.
Proof.
  induction gs as [|[name v] gs IH]; intros r before fs rest X Y Hok Hr.
  { exists r. split; [done|]. by rewrite app_nil_r. }
  apply Forall_cons_1 in Hok as [Hv Hok]. rewrite enc_fields_cons, <- app_assoc in Hr.
  destruct (reading_takes _ _ _ _ _ _ _ _ _ Hr (takes_value to_utf16 to_utf8 writeObj readObj obj_ok v Hv)) as (r1 & E1 & Hr1 & _).
  destruct (IH r1 _ _ _ _ _ Hok Hr1) as (r2 & E2 & Hr2). exists r2.
  rewrite enc_fields_cons, app_assoc. split; [|done]. rewrite !fmap_cons. cbn [PdxObject.readAll snd].
  unfold mbind, ST_bind, mret, ST_ret. by rewrite E1, E2.
Qed.

(** The header is read before. *)
Lemma read_header tid fs before rest : Z.of_nat (length (before ++ stream tid fs ++ rest)) < 2 ^ 31 ->
  DataInput.readInt32 (at_ before (stream tid fs ++ rest)) =
    Ok (stream_len fs, at_ (before ++ be_bytes 4 (stream_len fs)) (be_bytes 4 tid ++ (enc_fields fs ++ table fs) ++ rest)) /\
  DataInput.readInt32 (at_ (before ++ be_bytes 4 (stream_len fs)) (be_bytes 4 tid ++ (enc_fields fs ++ table fs) ++ rest)) =
    Ok (s32 tid, at_ (before ++ be_bytes 4 (stream_len fs) ++ be_bytes 4 tid) ((enc_fields fs ++ table fs) ++ rest)).
Proof.
  intros Hz. pose proof (length_stream to_utf16 writeObj readObj obj_ok tid fs) as Hls.
  assert (Hs : 0 <= stream_len fs < 2 ^ 31).
  { pose proof (stream_len_bound to_utf16 writeObj readObj obj_ok fs). rewrite !length_app in Hz. lia. }
  assert (Est : stream tid fs = be_bytes 4 (stream_len fs) ++ be_bytes 4 tid ++ (enc_fields fs ++ table fs)) by done.
  rewrite Est, <- !app_assoc in Hz. split.
  - rewrite Est, <- !app_assoc, (reads_readInt32 (stream_len fs)); [|lia].
    by rewrite wrapS_id by (unfold in_s; simpl; lia || done).
  - rewrite (reads_readInt32 tid); [by rewrite <- !app_assoc|]. rewrite <- !app_assoc. lia.
Qed.

Lemma deserialize_with (readValue : PdxFieldTypes -> ST t (PdxValue O)) local h ty tid ks before fs rest fts :
  describes h ty fs fts -> Z.of_nat (length (before ++ stream tid fs ++ rest)) < 2 ^ 31 ->
  exists r, construct local h ty (stream_len fs)
      (at_ (before ++ be_bytes 4 (stream_len fs) ++ be_bytes 4 tid) ((enc_fields fs ++ table fs) ++ rest)) = Ok r /\
    reading r (before ++ be_bytes 4 (stream_len fs) ++ be_bytes 4 tid) fs rest [] (enc_fields fs ++ table fs) /\
    describes h (m_pdxType r) fs fts /\ m_currentIndex r = 0 /\
    m_localToRemoteMap r = map_of local h ty /\
    PdxObject.deserializeWith readValue local h ty ks (at_ before (stream tid fs ++ rest)) =
      match PdxObject.readAll readValue ks r with
      | Throw e => Throw e
      | Ok (vs, r') =>
        match moveStream r' with Throw e => Throw e | Ok (_, r'') => Ok (vs, m_dataInput r'') end
      end.
Proof.
  intros Hd Hz. destruct (read_header tid fs before rest Hz) as [E1 E2].
  assert (Est : stream tid fs = be_bytes 4 (stream_len fs) ++ be_bytes 4 tid ++ (enc_fields fs ++ table fs)) by done.
  destruct (construct_reader local h ty (before ++ be_bytes 4 (stream_len fs) ++ be_bytes 4 tid) fs rest fts Hd) as (r & E & Hr & Hd' & Hc & Hm).
  { rewrite Est in Hz. rewrite !length_app in Hz |- *. lia. }
  exists r. split_and!; try done. unfold PdxObject.deserializeWith.
  rewrite (st_bind_ok _ _ _ _ _ E1), (st_bind_ok _ _ _ _ _ E2).
  unfold mbind, ST_bind, st_get, st_lift, st_put. rewrite E.
  destruct (PdxObject.readAll readValue ks r) as [[vs r']|e]; [|done]. by destruct (moveStream r') as [[[] r'']|e].
Qed.

(** *** Reading by position *)

Lemma sum_take i fs : sum (take i (lens fs)) = Z.of_nat (length (enc_fields (take i fs))).
Proof. rewrite <- sum_lens. f_equal. unfold lens. by rewrite firstn_map. Qed.

Lemma enc_fields_split i fs name v : fs !! i = Some (name, v) ->
  enc_fields fs = enc_fields (take i fs) ++ enc_value v ++ enc_fields (drop (S i) fs).
Proof.
  intros Hi. rewrite <- (take_drop_middle fs i _ Hi) at 1. by rewrite enc_fields_app, enc_fields_cons.
Qed.

Lemma body_table before fs rest : Forall field_ok fs -> Z.of_nat (length (before ++ enc_fields fs ++ table fs ++ rest)) < 2 ^ 31 ->
  table_ok (before ++ (enc_fields fs ++ table fs) ++ rest) (Z.of_nat (length before) + sum (lens fs))
    (offset_size (stream_len fs)) (offsets fs).
Proof.
  intros Hok Hz. rewrite sum_lens, <- Nat2Z.inj_add, <- length_app, <- app_assoc, app_assoc. unfold table.
  apply (stream_table to_utf16 to_utf8 writeObj readObj obj_ok); [done|].
  rewrite <- length_body. rewrite !length_app in *. lia.
Qed.

Lemma reading_position r before fs rest X Y h fts i name v :
  reading r before fs rest X Y -> describes h (m_pdxType r) fs fts -> Forall field_ok fs -> fs !! i = Some (name, v) ->
  PdxRemoteReader.position h (Z.of_nat i) r = Ok (sum (take i (lens fs)), r).
Proof.
  intros [Hi Hb Hs [Hl _] [Hsz Hob] Hz] Hd Hok Hf.
  unfold PdxRemoteReader.position, mbind, ST_bind, st_get, st_lift. rewrite Hi, Hl, Hsz, Hob. unfold at_. cbn [DataInput.buffer].
  rewrite <- app_assoc, (app_assoc X), Hb.
  destruct (described_position to_utf16 to_utf8 writeObj readObj obj_ok h (m_pdxType r) fs fts Hd Hok i name v _ _ _ Hf (body_table before fs rest Hok Hz)) as [E _].
  by rewrite E.
Qed.

Lemma reading_readAt {A} (m : ST PdxLocalReader.t A) r before fs rest X Y i name v a :
  reading r before fs rest X Y -> fs !! i = Some (name, v) -> takes m (enc_value v) a ->
  exists r', PdxRemoteReader.readAt (sum (take i (lens fs))) m r = Ok (a, r') /\
    reading r' before fs rest [] (X ++ Y) /\ r' = with_input (m_dataInput r') r.
Proof.
  intros Hr Hf Hm. pose proof (reading_head _ _ _ _ _ _ Hr) as Hr1. set (r1 := with_input _ r) in Hr1.
  unfold PdxRemoteReader.readAt. rewrite (st_bind_ok _ _ _ _ _ (reading_reset _ _ _ _ _ _ Hr)). fold r1.
  set (Y2 := enc_value v ++ enc_fields (drop (S i) fs) ++ table fs).
  assert (Eb : X ++ Y = enc_fields (take i fs) ++ Y2).
  { subst Y2. rewrite (rd_body _ _ _ _ _ _ Hr), (enc_fields_split i fs name v Hf), <- !app_assoc. done. }
  assert (Hr2 : reading (with_input (at_ (before ++ enc_fields (take i fs)) (Y2 ++ rest)) r1) before fs rest (enc_fields (take i fs)) Y2)
    by (eapply reading_with_input; [exact Hr1|by rewrite <- Eb]).
  assert (E2 : on_input (DataInput.advanceCursor (sum (take i (lens fs)))) r1 =
               Ok (tt, with_input (at_ (before ++ enc_fields (take i fs)) (Y2 ++ rest)) r1)).
  { unfold on_input, DataInput.advanceCursor, st_modify, r1, at_. cbn. rewrite sum_take, Eb. do 3 f_equal.
    f_equal; [by rewrite <- !app_assoc|rewrite length_app; lia|by rewrite <- !app_assoc]. }
  rewrite (st_bind_ok _ _ _ _ _ E2).
  destruct (reading_takes _ _ _ _ _ _ _ _ _ Hr2 Hm) as (r3 & E3 & Hr3 & Er3).
  rewrite (st_bind_ok _ _ _ _ _ E3), (st_bind_ok _ _ _ _ _ (reading_reset _ _ _ _ _ _ Hr3)).
  eexists. split; [done|]. rewrite Er3. split; [|done].
  pose proof (reading_head _ _ _ _ _ _ Hr3) as Hr4. rewrite Er3 in Hr4.
  rewrite (rd_body _ _ _ _ _ _ Hr3), <- (rd_body _ _ _ _ _ _ Hr) in Hr4 |- *. done.
Qed.

(** *** A receiver with another version of the class *)

(** The value that the reader returns for a field that the sender does not have; the
    readers of primitive arrays have no case for it. *)
Definition null_value (k : PdxFieldTypes) : option (PdxValue O) :=
  match k with
  | CHAR => Some (VChar 0) | BOOLEAN => Some (VBoolean false) | BYTE => Some (VByte 0) | SHORT => Some (VShort 0)
  | INT => Some (VInt 0) | LONG => Some (VLong 0) | FLOAT => Some (VFloat 0) | DOUBLE => Some (VDouble 0)
  | DATE => Some (VDate None) | STRING => Some (VString []) | OBJECT => Some (VObject nullObj)
  | STRING_ARRAY => Some (VStringArray []) | ARRAY_OF_BYTE_ARRAYS => Some (VArrayOfByteArrays None)
  | _ => None
  end.

Definition same_field (f : PdxFieldType.t) (x : field) : Prop :=
  x.1 = PdxFieldType.m_fieldName f /\ kindOf x.2 = PdxFieldType.m_typeId f.
#[local] Instance same_field_dec f x : Decision (same_field f x).
Proof. unfold same_field. apply _. Defined.

(** What reading the local field [f] of the sender's object [fs] gives. *)
Definition expect fs (f : PdxFieldType.t) : outcome (PdxValue O) :=
  match list_find (same_field f) fs with
  | Some (_, x) => Ok (normal x.2)
  | None => match null_value (PdxFieldType.m_typeId f) with Some v => Ok v | None => Throw StdOutOfRange end
  end.

Definition readable (k : PdxFieldTypes) : Prop := k <> UNKNOWN /\ k <> OBJECT_ARRAY.

(** What a call of the reader does with the entry [c] of the map. *)
Definition chosen {A B} (h : list PdxFieldType.t) (rd : ST t A) (g : A -> B) (r1 : t) (c : Z) (null : outcome (B * t))
    : outcome (B * t) :=
  if c =? -2 then (x ← rd; mret (g x)) r1
  else if c =? -1 then null
  else (p ← PdxRemoteReader.position h c; PdxRemoteReader.readAt p (x ← rd; mret (g x))) r1.

Lemma readAt_map {A B} (rd : ST t A) (g : A -> B) p r2 :
  match PdxRemoteReader.readAt p rd r2 with Ok (x, s') => Ok (g x, s') | Throw e => Throw e end =
  PdxRemoteReader.readAt p (x ← rd; mret (g x)) r2.
Proof.
  unfold PdxRemoteReader.readAt, mbind, ST_bind, mret, ST_ret. destruct (resettoPdxHead r2) as [[[] r3]|]; [|done].
  destruct (on_input _ r3) as [[[] r4]|]; [|done]. destruct (rd r4) as [[x r5]|]; [|done].
  by destruct (resettoPdxHead r5) as [[[] r6]|].
Qed.

Ltac choice Hnext Hpos :=
  unfold chosen, mbind, ST_bind; rewrite Hnext;
  match type of Hnext with _ = Ok (?c, _) => destruct (c =? -2); [done|destruct (Z.eqb_spec c (-1)) as [->|]; [done|]] end;
  match type of Hpos with forall p r2, ?e = _ -> _ =>
    destruct e as [[p r2]|] eqn:E; [|done]; specialize (Hpos p r2 eq_refl); destruct (Z.eqb_spec p (-1)); [done|]
  end; cbn [negb]; apply readAt_map.

Section Choice.
Context (h : list PdxFieldType.t) {A B : Type} (r r1 : t) (c : Z).
Hypothesis Hnext : PdxRemoteReader.nextChoice r = Ok (c, r1).
Hypothesis Hpos : forall p r2, PdxRemoteReader.position h c r1 = Ok (p, r2) -> p <> -1.

Lemma choice_field (rd : ST t A) (g : A -> B) null :
  (x ← PdxRemoteReader.readField h null rd; mret (g x)) r = chosen h rd g r1 c (Ok (g null, r1)).
Proof. unfold PdxRemoteReader.readField. choice Hnext Hpos. Qed.

Lemma choice_checked (rd : ST t A) (g : A -> B) null :
  (x ← PdxRemoteReader.readFieldChecked h null rd; mret (g x)) r = chosen h rd g r1 c (Ok (g null, r1)).
Proof. unfold PdxRemoteReader.readFieldChecked. choice Hnext Hpos. Qed.

Lemma choice_array (rd : ST t (list A)) (g : list A -> B) :
  (x ← PdxRemoteReader.readArrayField h rd; mret (g x)) r = chosen h rd g r1 c (Throw StdOutOfRange).
Proof. unfold PdxRemoteReader.readArrayField. choice Hnext Hpos. Qed.

Lemma choice_arrayChecked (rd : ST t (list A)) (g : list A -> B) :
  (x ← PdxRemoteReader.readArrayFieldChecked h rd; mret (g x)) r = chosen h rd g r1 c (Throw StdOutOfRange).
Proof. unfold PdxRemoteReader.readArrayFieldChecked. choice Hnext Hpos. Qed.
End Choice.

Lemma remote_readValue h k r c r1 : readable k -> PdxRemoteReader.nextChoice r = Ok (c, r1) ->
  (forall p r2, PdxRemoteReader.position h c r1 = Ok (p, r2) -> p <> -1) ->
  PdxRemoteReader.readValue to_utf8 readObj nullObj h k r =
    if c =? -2 then readValue to_utf8 readObj k r1
    else if c =? -1 then match null_value k with Some v => Ok (v, r1) | None => Throw StdOutOfRange end
    else (p ← PdxRemoteReader.position h c; PdxRemoteReader.readAt p (readValue to_utf8 readObj k)) r1.
Proof.
  intros [Hu Ho] Hn Hp.
  destruct k; try done; first
    [by eapply choice_field|by eapply choice_checked|by eapply choice_array|by eapply choice_arrayChecked].
Qed.

(** The fields of a type that describes [fs]. *)
Lemma placed_same pre f post : exists a b, placed pre f post = PdxFieldType.setOffsets a b f.
Proof. unfold placed. destruct (backed_same f post) as (a & b & ->). repeat case_match; eauto. Qed.

Lemma holds_fields h ps l : holds h ps l -> omap (fun p => h !! p) ps = l.
Proof. induction 1 as [|p f ps l E _ IH]; [done|]. cbn. by rewrite E, IH. Qed.

Section Remote.
Context (h : list PdxFieldType.t) (fs : list field) (fts : list PdxFieldType.t).
Hypothesis Hok : Forall field_ok fs.
Hypothesis Hnames : NoDup fs.*1.
Hypothesis Hmany : (length fs <= 256)%nat.

Lemma described_fields ty i name v : describes h ty fs fts -> fs !! i = Some (name, v) ->
  exists f, PdxType.fields h ty !! i = Some f /\ PdxFieldType.m_fieldName f = name /\
    PdxFieldType.m_typeId f = kindOf v /\ PdxFieldType.m_sequenceId f = Z.of_nat i.
Proof.
  intros Hd Hi. unfold PdxType.fields. rewrite (holds_fields _ _ _ (de_holds _ _ _ _ Hd)).
  destruct (lookup_lt_is_Some_2 fts i) as [f Hf].
  { rewrite (described_length h ty fs fts Hd). by eapply lookup_lt_Some. }
  pose proof (positions_lookup (take i fts) f (drop (S i) fts)) as E. rewrite take_drop_middle in E by done.
  rewrite length_take, Nat.min_l in E by (apply lookup_lt_Some in Hf; lia).
  destruct (placed_same (take i fts) f (drop (S i) fts)) as (a & b & Ep). rewrite Ep in E.
  destruct (collected_lookup fs i name v 0 0 Hi) as (g & Hg & H1 & H2 & H3).
  pose proof (f_equal (.!! i) (de_like _ _ _ _ Hd)) as El. rewrite !list_lookup_fmap, Hf, Hg in El. cbn in El.
  injection El as E1 E2 E3 _ _. eexists. split; [exact E|]. cbn. split_and!; congruence || lia.
Qed.

Lemma length_fields ty : describes h ty fs fts -> length (PdxType.fields h ty) = length fs.
Proof.
  intros Hd. unfold PdxType.fields. rewrite (holds_fields _ _ _ (de_holds _ _ _ _ Hd)).
  rewrite <- (Forall2_length (de_holds _ _ _ _ Hd)). by apply (described_pointers h ty fs fts).
Qed.

Lemma equals_same l f x : PdxFieldType.m_fieldName f = x.1 -> PdxFieldType.m_typeId f = kindOf x.2 ->
  PdxFieldType.equals l f = true <-> same_field l (x : field).
Proof. intros E1 E2. unfold PdxFieldType.equals, same_field. rewrite E1, E2, andb_true_iff, !bool_decide_eq_true. done. Qed.

(** The entry of the map for a local field. *)
Lemma remoteField_spec ty l : describes h ty fs fts ->
  PdxType.remoteField (PdxType.fields h ty) l =
  match list_find (same_field l) fs with Some (i, _) => Z.of_nat i | None => -1 end.
Proof.
  intros Hd. unfold PdxType.remoteField.
  destruct (list_find (same_field l) fs) as [[i [name v]]|] eqn:E.
  - apply list_find_Some in E as (Hi & Hs & Hfirst). destruct (described_fields ty i name v Hd Hi) as (f & Hf & H1 & H2 & H3).
    assert (list_find (fun g => PdxFieldType.equals l g = true) (PdxType.fields h ty) = Some (i, f)) as ->.
    { apply list_find_Some. split_and!; [done|by apply (equals_same l f (name, v))|].
      intros j g Hg Hj He. destruct (lookup_lt_is_Some_2 fs j) as [[name' v'] Hj']; [apply lookup_lt_Some in Hi; lia|].
      destruct (described_fields ty j name' v' Hd Hj') as (g' & Hg' & G1 & G2 & _). rewrite Hg in Hg'. simplify_eq.
      apply (Hfirst j _ Hj' Hj). by apply (equals_same l g' (_, v')). }
    unfold PdxFieldType.getSequenceId. rewrite H3. apply wrapU_id.
    apply lookup_lt_Some in Hi. unfold in_u. simpl. lia.
  - apply list_find_None in E.
    assert (list_find (fun g => PdxFieldType.equals l g = true) (PdxType.fields h ty) = None) as ->; [|done].
    apply list_find_None, Forall_lookup. intros j g Hg He.
    destruct (lookup_lt_is_Some_2 fs j) as [[name' v'] Hj'].
    { rewrite <- (length_fields ty Hd). by eapply lookup_lt_Some. }
    destruct (described_fields ty j name' v' Hd Hj') as (g' & Hg' & G1 & G2 & _). rewrite Hg in Hg'. simplify_eq.
    eapply Forall_lookup in E; [|exact Hj']. apply E. by apply (equals_same l g' (_, v')).
Qed.

Lemma expect_at l i name v : fs !! i = Some (name, v) -> same_field l (name, v) -> expect fs l = Ok (normal v).
Proof.
  intros Hi Hs. unfold expect. assert (list_find (same_field l) fs = Some (i, (name, v))) as ->; [|done].
  apply list_find_Some. split_and!; [done..|]. intros j [name' v'] Hj Hlt [Hn _].
  assert (j = i); [|lia]. apply (NoDup_lookup fs.*1 j i name Hnames); rewrite list_lookup_fmap.
  - rewrite Hj. cbn in *. destruct Hs as [Hs _]. cbn in Hs. congruence.
  - by rewrite Hi.
Qed.

(** The reader with the map entries [m] for the fields still to be read. *)
Record remote_at r before rest (X Y m : list Z) : Prop := {
  ra_reading : reading r before fs rest X Y;
  ra_type : describes h (m_pdxType r) fs fts;
  ra_index : 0 <= m_currentIndex r;
  ra_map : exists all, m_localToRemoteMap r = Some all /\ drop (Z.to_nat (m_currentIndex r)) all = m
}.

Lemma remote_next r before rest X Y c m : remote_at r before rest X Y (c :: m) ->
  exists r1, PdxRemoteReader.nextChoice r = Ok (c, r1) /\ remote_at r1 before rest X Y m.
Proof.
  intros [Hr Ht Hi (all & Ha & Hd)]. unfold PdxRemoteReader.nextChoice. rewrite Ha.
  assert (all !! Z.to_nat (m_currentIndex r) = Some c) as ->.
  { rewrite <- (Nat.add_0_r (Z.to_nat _)), <- lookup_drop, Hd. done. }
  eexists. split; [done|]. constructor; cbn; [|done|lia|].
  - destruct Hr. by constructor.
  - exists all. split; [done|]. replace (Z.to_nat (m_currentIndex r + 1)) with (Z.to_nat (m_currentIndex r) + 1)%nat by lia.
    by rewrite <- drop_drop, Hd.
Qed.

Lemma remote_with_input r d before rest X Y X' Y' m :
  remote_at r before rest X Y m -> reading (with_input d r) before fs rest X' Y' -> remote_at (with_input d r) before rest X' Y' m.
Proof. intros [] ?. by constructor. Qed.

Lemma sum_take_nonneg i : 0 <= sum (take i (lens fs)).
Proof. rewrite sum_take. lia. Qed.

(** One field that is not in the common prefix. *)
Lemma remote_step l r before rest X Y m : readable (PdxFieldType.m_typeId l) ->
  remote_at r before rest X Y (match list_find (same_field l) fs with Some (i, _) => Z.of_nat i | None => -1 end :: m) ->
  match expect fs l with
  | Ok v => exists r' X' Y', PdxRemoteReader.readValue to_utf8 readObj nullObj h (PdxFieldType.m_typeId l) r = Ok (v, r') /\
              remote_at r' before rest X' Y' m
  | Throw e => PdxRemoteReader.readValue to_utf8 readObj nullObj h (PdxFieldType.m_typeId l) r = Throw e
  end.
Proof.
  intros Hk Hra. destruct (remote_next _ _ _ _ _ _ _ Hra) as (r1 & En & Hra1). unfold expect.
  destruct (list_find (same_field l) fs) as [[i [name v]]|] eqn:El.
  - apply list_find_Some in El as (Hi & [_ Hkind] & _). cbn [snd fst] in *.
    pose proof (reading_position _ _ _ _ _ _ h fts i name v (ra_reading _ _ _ _ _ _ Hra1) (ra_type _ _ _ _ _ _ Hra1) Hok Hi) as Ep.
    assert (Hv : value_ok v) by (eapply (Forall_lookup_1 _ _ _ _ Hok) in Hi; exact Hi).
    destruct (reading_readAt _ _ _ _ _ _ _ _ _ _ _ (ra_reading _ _ _ _ _ _ Hra1) Hi (takes_value to_utf16 to_utf8 writeObj readObj obj_ok v Hv)) as (r2 & E2 & Hr2 & Er2).
    exists r2, [], (X ++ Y). rewrite (remote_readValue h _ r _ r1 Hk En).
    + destruct (Z.eqb_spec (Z.of_nat i) (-2)); [lia|]. destruct (Z.eqb_spec (Z.of_nat i) (-1)); [lia|].
      unfold mbind, ST_bind. rewrite Ep, <- Hkind, E2. split; [done|].
      rewrite Er2 in Hr2 |- *. by eapply remote_with_input.
    + intros p r3 Ep'. rewrite Ep in Ep'. simplify_eq. pose proof (sum_take_nonneg i). lia.
  - rewrite (remote_readValue h _ r _ r1 Hk En) by done. cbn [Z.eqb Pos.eqb].
    destruct (null_value (PdxFieldType.m_typeId l)) as [v|]; [|done]. eauto.
Qed.

Lemma readAll_cons (rv : PdxFieldTypes -> ST t (PdxValue O)) k ks r :
  PdxObject.readAll rv (k :: ks) r =
  match rv k r with
  | Throw e => Throw e
  | Ok (v, r1) => match PdxObject.readAll rv ks r1 with Throw e => Throw e | Ok (vs, r2) => Ok (v :: vs, r2) end
  end.
Proof. done. Qed.

Lemma mapM_expect_cons l ls :
  mapM (expect fs) (l :: ls) =
  match expect fs l with
  | Throw e => Throw e
  | Ok v => match mapM (expect fs) ls with Throw e => Throw e | Ok vs => Ok (v :: vs) end
  end.
Proof. done. Qed.

Lemma readAll_found ls : forall r before rest X Y,
  Forall (fun l => readable (PdxFieldType.m_typeId l)) ls ->
  remote_at r before rest X Y ((fun l => match list_find (same_field l) fs with Some (i, _) => Z.of_nat i | None => -1 end) <$> ls) ->
  match mapM (expect fs) ls with
  | Ok vs => exists r' X' Y', PdxObject.readAll (PdxRemoteReader.readValue to_utf8 readObj nullObj h)
               (PdxFieldType.m_typeId <$> ls) r = Ok (vs, r') /\ reading r' before fs rest X' Y'
  | Throw e => PdxObject.readAll (PdxRemoteReader.readValue to_utf8 readObj nullObj h)
                 (PdxFieldType.m_typeId <$> ls) r = Throw e
  end.
Proof.
  induction ls as [|l ls IH]; intros r before rest X Y Hk Hra.
  { cbn. exists r, X, Y. split; [done|apply Hra]. }
  apply Forall_cons_1 in Hk as [Hl Hk]. rewrite fmap_cons in Hra.
  pose proof (remote_step l r before rest X Y _ Hl Hra) as H1. rewrite !fmap_cons, mapM_expect_cons, readAll_cons.
  destruct (expect fs l) as [v|e]; [|by rewrite H1].
  destruct H1 as (r1 & X1 & Y1 & E1 & Hra1). specialize (IH r1 before rest X1 Y1 Hk Hra1). rewrite E1.
  destruct (mapM (expect fs) ls) as [vs|e]; [|by rewrite IH].
  destruct IH as (r2 & X2 & Y2 & E2 & Hr2). exists r2, X2, Y2. by rewrite E2.
Qed.

(** The fields that both versions have in the same places are read in order. *)
Lemma readAll_remote ls : forall i r before rest,
  Forall (fun l => readable (PdxFieldType.m_typeId l)) ls -> (i <= length fs)%nat ->
  (exists ty, describes h ty fs fts /\
   remote_at r before rest (enc_fields (take i fs)) (enc_fields (drop i fs) ++ table fs)
     (PdxType.localToRemote (PdxType.fields h ty) ls (drop i (PdxType.fields h ty)))) ->
  match mapM (expect fs) ls with
  | Ok vs => exists r' X' Y', PdxObject.readAll (PdxRemoteReader.readValue to_utf8 readObj nullObj h)
               (PdxFieldType.m_typeId <$> ls) r = Ok (vs, r') /\ reading r' before fs rest X' Y'
  | Throw e => PdxObject.readAll (PdxRemoteReader.readValue to_utf8 readObj nullObj h)
                 (PdxFieldType.m_typeId <$> ls) r = Throw e
  end.
Proof.
  induction ls as [|l ls IH]; intros i r before rest Hk Hi (ty & Hd & Hra).
  { cbn. eexists r, _, _. split; [done|apply Hra]. }
  assert (Hfound : forall m, m = PdxType.remoteField (PdxType.fields h ty) <$> l :: ls ->
    m = (fun l => match list_find (same_field l) fs with Some (i, _) => Z.of_nat i | None => -1 end) <$> l :: ls).
  { intros m ->. apply list_fmap_ext. intros _ x _. by apply remoteField_spec. }
  destruct (drop i (PdxType.fields h ty)) as [|f rs] eqn:Ers; cbn [PdxType.localToRemote] in Hra.
  { eapply readAll_found; [done|]. rewrite <- (Hfound _ eq_refl). exact Hra. }
  destruct (PdxFieldType.equals l f) eqn:Eq.
  2: { eapply readAll_found; [done|]. rewrite <- (Hfound _ eq_refl). exact Hra. }
  assert (Hf : PdxType.fields h ty !! i = Some f) by (rewrite <- (Nat.add_0_r i), <- lookup_drop, Ers; done).
  assert (Hlt : (i < length fs)%nat) by (rewrite <- (length_fields ty Hd); by eapply lookup_lt_Some).
  destruct (lookup_lt_is_Some_2 fs i Hlt) as [[name v] Hfi].
  destruct (described_fields ty i name v Hd Hfi) as (f' & Hf' & H1 & H2 & _). rewrite Hf in Hf'. simplify_eq.
  apply (equals_same l f' (PdxFieldType.m_fieldName f', v) eq_refl H2) in Eq as Hsame.
  apply Forall_cons_1 in Hk as [Hl Hk].
  destruct (remote_next _ _ _ _ _ _ _ Hra) as (r1 & En & Hra1).
  assert (Hv : value_ok v) by (eapply (Forall_lookup_1 _ _ _ _ Hok) in Hfi; exact Hfi).
  pose proof (ra_reading _ _ _ _ _ _ Hra1) as Hr1. rewrite (drop_S _ _ _ Hfi), enc_fields_cons, <- app_assoc in Hr1.
  destruct (reading_takes _ _ _ _ _ _ _ _ _ Hr1 (takes_value to_utf16 to_utf8 writeObj readObj obj_ok v Hv)) as (r2 & E2 & Hr2 & Er2).
  rewrite fmap_cons, mapM_expect_cons, readAll_cons, (expect_at l i _ v Hfi Hsame).
  rewrite (remote_readValue h _ r _ r1 Hl En) by done. cbn [Z.eqb Pos.eqb].
  destruct Hsame as [_ Hkind]. cbn in Hkind. rewrite <- Hkind, E2.
  assert (Hnext : exists ty, describes h ty fs fts /\
    remote_at r2 before rest (enc_fields (take (S i) fs)) (enc_fields (drop (S i) fs) ++ table fs)
     (PdxType.localToRemote (PdxType.fields h ty) ls (drop (S i) (PdxType.fields h ty)))).
  { exists ty. split; [done|]. rewrite (take_S_r _ _ _ Hfi), enc_fields_app, enc_fields_cons. cbn [snd].
    change (enc_fields []) with ([] : list Z). rewrite app_nil_r.
    rewrite (drop_S _ _ _ Hf) in Ers. injection Ers as ->. rewrite Er2 in Hr2 |- *. by eapply remote_with_input. }
  specialize (IH (S i) r2 before rest Hk Hlt Hnext).
  destruct (mapM (expect fs) ls) as [vs|e]; [|by rewrite IH].
  destruct IH as (r3 & X3 & Y3 & E3 & Hr3). exists r3, X3, Y3. by rewrite E3.
Qed.
End Remote.
End Objects.
