(* ===== verification/PdxTypeWire.v ===== *)
(** PDX types on the wire ([PdxType::toData] and [fromData]): the type that a member receives
    describes the same objects as the type that was sent. *)
From S2P Require Import Prelude JavaModifiedUtf8 DataOutput DataOutputFacts DataInput DataInputFacts Serialization Utf8Strings PdxType PdxStreams PdxPositions PdxWriting PdxReading PdxObjects.

#[local] Arguments be_bytes : simpl never.

Section Wire.
Context `{AllocatorOk} {O : Type} (to_utf16 to_utf8 : list Z -> outcome (list Z)).
Abbreviation field := (list Z * PdxValue O)%type.
Abbreviation text_ok := (text_ok to_utf16 to_utf8).
Abbreviation enc_text := (enc_text to_utf16).
Implicit Types (f : PdxFieldType.t) (fs : list field).

Lemma enumOf_enumValue k : enumOf (enumValue k) = Some k.
Proof. by destruct k. Qed.

Lemma enumValue_range k : in_s 8 (enumValue k).
Proof. unfold in_s. destruct k; vm_compute; split; congruence. Qed.

(** *** Fields *)

Record fieldType_ok f : Prop := {
  fo_name : text_ok (PdxFieldType.m_fieldName f);
  fo_seq : in_u 32 (PdxFieldType.m_sequenceId f);
  fo_idx : in_s 32 (PdxFieldType.m_varLenFieldIdx f);
  fo_size : PdxFieldType.m_fixedSize f = PdxFieldType.getFixedTypeSize (PdxFieldType.m_typeId f);
  fo_var : PdxFieldType.m_isVariableLengthType f = (PdxFieldType.m_fixedSize f =? -1)
}.

Definition enc_fieldType f : list Z :=
  enc_text (PdxFieldType.m_fieldName f) ++ be_bytes 4 (PdxFieldType.m_sequenceId f) ++
  be_bytes 4 (u32 (PdxFieldType.m_varLenFieldIdx f)) ++ [u8 (enumValue (PdxFieldType.m_typeId f))] ++
  be_bytes 4 (u32 (PdxFieldType.m_relativeOffset f)) ++ be_bytes 4 (u32 (PdxFieldType.m_vlOffsetIndex f)) ++
  [if PdxFieldType.m_isIdentityField f then 1 else 0].

(** The field that arrives: its class name is not sent. *)
Definition received f : PdxFieldType.t :=
  PdxFieldType.mk (PdxFieldType.m_fieldName f) [] (PdxFieldType.m_typeId f) (PdxFieldType.m_sequenceId f)
    (PdxFieldType.m_isVariableLengthType f) (PdxFieldType.m_isIdentityField f) (PdxFieldType.m_fixedSize f)
    (PdxFieldType.m_varLenFieldIdx f) (s32 (u32 (PdxFieldType.m_vlOffsetIndex f)))
    (s32 (u32 (PdxFieldType.m_relativeOffset f))).

Lemma anon_received f : anon (received f) = anon f.
Proof. done. Qed.

Lemma emits_fieldType f : fieldType_ok f -> emits (PdxFieldType.toData to_utf16 f) (enc_fieldType f).
Proof.
  intros [Hn _ _ _ _]. unfold PdxFieldType.toData, enc_fieldType.
  apply emits_bind; [by apply (emits_writeString_string _ to_utf8)|].
  apply emits_bind; [apply emits_writeInt_uint32|].
  apply emits_bind; [apply emits_writeInt_int32|].
  apply emits_bind; [apply emits_write_int8|].
  apply emits_bind; [apply emits_writeInt_int32|].
  apply emits_bind; [apply emits_writeInt_int32|apply emits_writeBoolean].
Qed.

Lemma reads_fieldType f : fieldType_ok f -> reads (PdxFieldType.fromData to_utf8) (enc_fieldType f) (received f).
Proof.
  intros [Hn Hs Hi Hz Hv]. unfold PdxFieldType.fromData, enc_fieldType.
  eapply reads_bind; [by apply (reads_readString_string to_utf16)|].
  eapply reads_bind; [apply reads_readInt32|].
  eapply reads_bind; [apply reads_readInt32|].
  eapply reads_bind; [apply reads_read|].
  eapply reads_bind; [apply reads_readInt32|].
  eapply reads_bind; [apply reads_readInt32|].
  rewrite <- (app_nil_r [_]). eapply reads_bind; [apply reads_readBoolean|].
  rewrite (wrapS_wrapU_id 8) by (done || apply enumValue_range). rewrite enumOf_enumValue.
  eapply reads_eq; [apply reads_ret|]. unfold received.
  rewrite wrapS_wrapU_id, wrapU_wrapS, wrapU_id, Hv, Hz by done. done.
Qed.

(** *** Types *)

Definition enc_type (cls : list Z) (java : bool) (tid idx : Z) (fts : list PdxFieldType.t) : list Z :=
  [u8 PdxType.DataSerializable] ++ [u8 PdxType.Class_] ++ enc_text PdxType.m_javaPdxClass ++ enc_text cls ++
  [if negb java then 1 else 0] ++ be_bytes 4 (u32 tid) ++ be_bytes 4 (u32 idx) ++
  enc_arrayLen (Z.of_nat (length fts)) ++ (fts ≫= enc_fieldType).

Lemma emits_type h ty fts : holds h (PdxType.m_pdxFieldTypes ty) fts -> Forall fieldType_ok fts ->
  text_ok (PdxType.m_className ty) -> text_ok PdxType.m_javaPdxClass -> Z.of_nat (length fts) < 2 ^ 31 ->
  emits (PdxType.toData to_utf16 h ty)
    (enc_type (PdxType.m_className ty) (PdxType.is_java_class_ ty) (PdxType.m_geodeTypeId ty) (PdxType.m_varLenFieldIdx ty) fts).
Proof.
  intros Hh Hf Hc Hj Hl. unfold PdxType.toData, enc_type, PdxType.getTotalFields, PdxType.fields.
  rewrite (holds_fields _ _ _ Hh), (Forall2_length Hh), wrapS_id by (unfold in_s; lia || done).
  apply emits_bind; [apply emits_write_int8|]. apply emits_bind; [apply emits_write_int8|].
  apply emits_bind; [by apply (emits_writeString_string _ to_utf8)|].
  apply emits_bind; [by apply (emits_writeString_string _ to_utf8)|].
  apply emits_bind; [apply emits_writeBoolean|].
  apply emits_bind; [apply emits_writeInt_int32|]. apply emits_bind; [apply emits_writeInt_int32|].
  apply emits_bind; [apply emits_writeArrayLen|].
  by apply (emits_iter_ok _ _ fieldType_ok); [apply emits_fieldType|].
Qed.

Lemma reads_readType cls java tid idx fts : Forall fieldType_ok fts -> text_ok cls -> text_ok PdxType.m_javaPdxClass ->
  Z.of_nat (length fts) < 2 ^ 31 -> in_s 32 tid -> in_s 32 idx ->
  reads (PdxType.readType to_utf8) (enc_type cls java tid idx fts) (cls, java, tid, idx, received <$> fts).
Proof.
  intros Hf Hc Hj Hl Ht Hi. unfold PdxType.readType, enc_type.
  eapply reads_bind; [apply reads_read|]. eapply reads_bind; [apply reads_read|].
  eapply reads_bind; [by apply (reads_readString_string to_utf16)|].
  eapply reads_bind; [by apply (reads_readString_string to_utf16)|].
  eapply reads_bind; [apply reads_readBoolean|].
  eapply reads_bind; [apply reads_readInt32|]. eapply reads_bind; [apply reads_readInt32|].
  eapply reads_bind; [apply reads_readArrayLength; lia|].
  rewrite !wrapS_wrapU_id, Nat2Z.id, negb_involutive by done.
  eapply (reads_map _ (fun fts => (cls, java, tid, idx, fts))).
  clear Hl. induction Hf as [|f fts Hf _ IH]; [apply reads_ret|].
  rewrite bind_cons. cbn [length st_repeat]. rewrite fmap_cons. eapply reads_bind; [by apply reads_fieldType|].
  by apply (reads_map _ (cons _)).
Qed.

(** *** The received type *)

Lemma anon_var f : PdxFieldType.m_isVariableLengthType (anon f) = PdxFieldType.m_isVariableLengthType f.
Proof. done. Qed.

Lemma existsb_anon l : existsb PdxFieldType.m_isVariableLengthType (anon <$> l) = existsb PdxFieldType.m_isVariableLengthType l.
Proof. induction l as [|f l IH]; [done|]. rewrite fmap_cons. cbn [existsb]. by rewrite anon_var, IH. Qed.

Lemma existsb_collected fs : forall n k, existsb PdxFieldType.m_isVariableLengthType (collected n k fs) = (0 <? var_count fs).
Proof.
  induction fs as [|[name v] fs IH]; intros n k; [done|]. cbn [collected existsb]. rewrite IH.
  assert (E : var_count ((name, v) :: fs) = (if isVar v then 1 else 0) + var_count fs)
    by (change ((name, v) :: fs) with ([(name, v)] ++ fs); by rewrite var_count_app, var_count_one).
  rewrite E. assert (0 <= var_count fs) by (unfold var_count; lia).
  cbn [PdxFieldType.m_isVariableLengthType PdxFieldType.construct]. destruct (isVar v); [|done].
  symmetry. apply Z.ltb_lt. lia.
Qed.

(** [InitializeType] of a new type with the fields of [fs]. *)
Lemma initialize_received local h ty fs fts :
  holds h (PdxType.m_pdxFieldTypes ty) fts -> NoDup (PdxType.m_pdxFieldTypes ty) -> anon <$> fts = anon <$> collected 0 0 fs ->
  PdxType.m_numberOfVarLenFields ty = var_count fs -> PdxType.m_fieldNameVsPdxType ty = ∅ -> NoDup fs.*1 ->
  exists h' ty', PdxType.InitializeType local (h, ty) = Ok (tt, (h', ty')) /\ describes h' ty' fs fts /\
    PdxType.m_geodeTypeId ty' = PdxType.m_geodeTypeId ty /\ PdxType.m_className ty' = PdxType.m_className ty /\
    (forall q, q ∉ PdxType.m_pdxFieldTypes ty -> h' !! q = h !! q) /\
    PdxType.m_pdxFieldTypes ty' = PdxType.m_pdxFieldTypes ty /\
    PdxType.m_localToRemoteFieldMap ty' =
      match local with
      | None => PdxType.m_localToRemoteFieldMap ty
      | Some l => Some (PdxType.localToRemote (PdxType.fields h ty) (PdxType.fields h l) (PdxType.fields h ty))
      end.
Proof.
  intros Hh Hnd Hlike Hn Hm Hnames.
  assert (exists ty1, (PdxType.initRemoteToLocal local;; PdxType.initLocalToRemote local) (h, ty) = Ok (tt, (h, ty1)) /\
    PdxType.m_pdxFieldTypes ty1 = PdxType.m_pdxFieldTypes ty /\ PdxType.m_fieldNameVsPdxType ty1 = ∅ /\
    PdxType.m_numberOfVarLenFields ty1 = var_count fs /\ PdxType.m_geodeTypeId ty1 = PdxType.m_geodeTypeId ty /\
    PdxType.m_className ty1 = PdxType.m_className ty /\
    PdxType.m_localToRemoteFieldMap ty1 =
      match local with
      | None => PdxType.m_localToRemoteFieldMap ty
      | Some l => Some (PdxType.localToRemote (PdxType.fields h ty) (PdxType.fields h l) (PdxType.fields h ty))
      end) as (ty1 & E1 & F1 & F2 & F3 & F4 & F5 & F6).
  { destruct local as [l|]; (eexists; split; [done|]; split_and!; done). }
  destruct (generatePositionMap_spec h ty1 fts) as (h' & E & Hh' & Hq); [by rewrite F1|by rewrite F1|].
  eexists h', _. split.
  { unfold PdxType.InitializeType. unfold mbind, ST_bind in *.
    destruct (PdxType.initRemoteToLocal local (h, ty)) as [[[] s]|]; [|done].
    destruct (PdxType.initLocalToRemote local s) as [[[] s']|]; [|done]. simplify_eq. exact E. }
  cbn. split_and!; try done; [|by rewrite <- F1]. constructor; cbn; try done; [by rewrite F1|].
  intros i name v p Hi Hp. rewrite F2. destruct (collected_lookup fs i name v 0 0 Hi) as (g & Hg & Hgn & _).
  destruct (lookup_lt_is_Some_2 fts i) as [f Hf].
  { pose proof (f_equal length Hlike) as El. rewrite !length_fmap, length_collected in El. rewrite El. by eapply lookup_lt_Some. }
  pose proof (f_equal (.!! i) Hlike) as El. rewrite !list_lookup_fmap, Hf, Hg in El. cbn in El. injection El as El _ _ _ _.
  rewrite <- Hgn, <- El. apply (names_after_lookup ∅ _ fts) with (i := i); [|done|done|done].
  by rewrite (anon_names fts (collected 0 0 fs) Hlike), collected_names.
Qed.

Lemma anon_positions fts : anon <$> positions fts = anon <$> fts.
Proof.
  assert (Hl : length (positions fts) = length fts).
  { unfold positions. assert (Hf : forall l o, length (front o l) = length l).
    { induction l as [|f l IH]; intros o; [done|]. cbn [front]. case_match; cbn [length]; by rewrite ?IH. }
    rewrite Hf. destruct (back_same fts []) as (pre' & E' & Hl & _). rewrite app_nil_r in E'. rewrite E', length_app, Hl.
    cbn. lia. }
  apply list_eq. intros i. rewrite !list_lookup_fmap. destruct (fts !! i) as [f|] eqn:Hf.
  2: { rewrite lookup_ge_None_2; [done|]. rewrite Hl. by apply lookup_ge_None_1. }
  pose proof (positions_lookup (take i fts) f (drop (S i) fts)) as E. rewrite take_drop_middle in E by done.
  rewrite length_take, Nat.min_l in E by (apply lookup_lt_Some in Hf; lia). rewrite E.
  by destruct (placed_same (take i fts) f (drop (S i) fts)) as (a & b & ->).
Qed.

Lemma fieldType_ok_anon f : fieldType_ok (anon f) -> fieldType_ok f.
Proof. intros []. by constructor. Qed.

Lemma collected_ok fs : forall n k, Forall (fun x : field => text_ok x.1) fs -> 0 <= n -> 0 <= k ->
  n + Z.of_nat (length fs) < 2 ^ 31 -> k + Z.of_nat (length fs) < 2 ^ 31 -> Forall fieldType_ok (collected n k fs).
Proof.
  induction fs as [|[name v] fs IH]; intros n k Hf Hn Hk Hn' Hk'; [constructor|].
  apply Forall_cons_1 in Hf as [Hx Hf]. cbn [collected]. cbn [length] in Hn', Hk'. constructor.
  - constructor; cbn; [done|unfold in_u; simpl; lia|unfold in_s; destruct (isVar v); simpl; lia|done..].
  - apply IH; [done|lia|destruct (isVar v); lia|lia|destruct (isVar v); lia].
Qed.

Lemma anon_forall fts gs : anon <$> fts = anon <$> gs -> Forall fieldType_ok gs -> Forall fieldType_ok fts.
Proof.
  intros E Hg. apply Forall_lookup. intros i f Hf. pose proof (f_equal (.!! i) E) as Ei.
  rewrite !list_lookup_fmap, Hf in Ei. destruct (gs !! i) as [g|] eqn:Hgi; [|done]. cbn in Ei. apply fieldType_ok_anon.
  injection Ei as Ei. rewrite Forall_lookup in Hg. specialize (Hg i g Hgi). destruct Hg. constructor; cbn; congruence.
Qed.

(** The map depends on names, types and sequence ids only. *)
Lemma equals_anon l f g : anon f = anon g -> PdxFieldType.equals l f = PdxFieldType.equals l g.
Proof. intros E. injection E as E1 E2 _ _ _ _. unfold PdxFieldType.equals. by rewrite E1, E2. Qed.

Lemma remoteField_anon a b l : anon <$> a = anon <$> b -> PdxType.remoteField a l = PdxType.remoteField b l.
Proof.
  unfold PdxType.remoteField. revert b. induction a as [|f a IH]; intros [|g b] E; try done.
  rewrite !fmap_cons in E. injection E as E1 E2 E3 E4 E5 E6 E. cbn [list_find].
  assert (Eq : PdxFieldType.equals l f = PdxFieldType.equals l g) by (unfold PdxFieldType.equals; by rewrite E1, E2).
  rewrite Eq. destruct (decide (PdxFieldType.equals l g = true)).
  - unfold PdxFieldType.getSequenceId. by rewrite E3.
  - specialize (IH b E).
    destruct (list_find (fun x => PdxFieldType.equals l x = true) a) as [[]|], (list_find (fun x => PdxFieldType.equals l x = true) b) as [[]|]; done.
Qed.

Lemma localToRemote_anon a b ls : forall r1 r2, anon <$> a = anon <$> b -> anon <$> r1 = anon <$> r2 ->
  PdxType.localToRemote a ls r1 = PdxType.localToRemote b ls r2.
Proof.
  intros r1 r2 Hab. revert r1 r2. induction ls as [|l ls IH]; intros [|f r1] [|g r2] E; try done; cbn [PdxType.localToRemote].
  - apply list_fmap_ext. intros _ x _. by apply remoteField_anon.
  - assert (Ef : anon f = anon g) by exact (f_equal (hd (anon f)) E).
    rewrite (equals_anon l f g Ef). destruct (PdxFieldType.equals l g).
    + f_equal. apply IH. exact (f_equal tail E).
    + apply list_fmap_ext. intros _ x _. by apply remoteField_anon.
Qed.

Section Received.
Context (h : list PdxFieldType.t) (ty : PdxType.t) (fs : list field) (fts : list PdxFieldType.t).
Hypothesis Hd : describes h ty fs fts.
Hypothesis Hidx : PdxType.m_varLenFieldIdx ty = (if 0 <? var_count fs then var_count fs - 1 else 0).
Hypothesis Hnames : NoDup fs.*1.
Hypothesis Htext : Forall (fun x : field => text_ok x.1) fs.
Hypothesis Hclass : text_ok (PdxType.m_className ty).
Hypothesis Hjava : text_ok PdxType.m_javaPdxClass.
Hypothesis Hcount : Z.of_nat (length fs) < 2 ^ 31 - 1.
Hypothesis Htid : in_s 32 (PdxType.m_geodeTypeId ty).

Definition wire : list Z :=
  enc_type (PdxType.m_className ty) (PdxType.is_java_class_ ty) (PdxType.m_geodeTypeId ty) (PdxType.m_varLenFieldIdx ty) (positions fts).

Lemma sent_like : anon <$> positions fts = anon <$> collected 0 0 fs.
Proof. rewrite anon_positions. apply (de_like _ _ _ _ Hd). Qed.

Lemma sent_ok : Forall fieldType_ok (positions fts).
Proof. eapply anon_forall; [apply sent_like|]. apply collected_ok; [done|lia..]. Qed.

Lemma sent_length : length (positions fts) = length fs.
Proof. pose proof (f_equal length sent_like) as E. by rewrite !length_fmap, length_collected in E. Qed.

Lemma emits_wire : emits (PdxType.toData to_utf16 h ty) wire.
Proof. apply emits_type; [apply (de_holds _ _ _ _ Hd)|apply sent_ok|done|done|rewrite sent_length; lia]. Qed.

(** The receiver gets a type that describes the object, with its map to the local type. *)
Lemma reads_wire local h2 name isLocal java : exists h2' ty2,
  reads (PdxType.fromData to_utf8 local h2 (PdxType.construct name isLocal java)) wire (h2', ty2) /\
  describes h2' ty2 fs (received <$> positions fts) /\
  PdxType.m_geodeTypeId ty2 = PdxType.m_geodeTypeId ty /\ PdxType.m_className ty2 = PdxType.m_className ty /\
  (forall q, (q < length h2)%nat -> h2' !! q = h2 !! q) /\
  PdxType.m_localToRemoteFieldMap ty2 = match local with
    | None => None
    | Some l => Some (PdxType.localToRemote (received <$> positions fts) (PdxType.fields (h2 ++ (received <$> positions fts)) l) (received <$> positions fts))
    end.
Proof.
  set (rs := received <$> positions fts).
  assert (Hvc : 0 <= var_count fs <= Z.of_nat (length fs)).
  { unfold var_count. pose proof (length_filter (fun x : field => isVar x.2 = true) fs). lia. }
  assert (Hlike : anon <$> rs = anon <$> collected 0 0 fs).
  { unfold rs. rewrite <- list_fmap_compose. rewrite <- sent_like. apply list_fmap_ext. intros _ x _. apply anon_received. }
  set (number := if negb (PdxType.m_varLenFieldIdx ty =? 0) then PdxType.m_varLenFieldIdx ty + 1
    else if existsb PdxFieldType.m_isVariableLengthType rs then 1 else 0).
  assert (Hnum : number = var_count fs).
  { unfold number. rewrite <- existsb_anon, Hlike, existsb_anon, existsb_collected, Hidx.
    destruct (Z.ltb_spec 0 (var_count fs)); [|cbn; lia]. destruct (Z.eqb_spec (var_count fs - 1) 0); cbn; lia. }
  set (ty' := PdxType.mk (seq (length h2) (length rs)) (PdxType.m_className ty) (PdxType.m_geodeTypeId ty) isLocal number
                (PdxType.m_varLenFieldIdx ty) 0 false None None ∅ (PdxType.is_java_class_ ty)).
  assert (Hh : holds (h2 ++ rs) (PdxType.m_pdxFieldTypes ty') rs).
  { apply Forall2_same_length_lookup_2; [by cbn; rewrite length_seq|]. intros i p f Hp Hf. cbn in Hp. apply lookup_seq in Hp as [-> _].
    rewrite lookup_app_r by lia. by replace (length h2 + i - length h2)%nat with i by lia. }
  destruct (initialize_received local (h2 ++ rs) ty' fs rs Hh) as (h2' & ty2 & E & Hd2 & H1 & H2 & H3 & H4 & H5); try done.
  { apply NoDup_seq. }
  exists h2', ty2. split_and!; try done.
  - unfold PdxType.fromData. rewrite <- (app_nil_r wire). eapply reads_bind.
    + apply reads_readType; [apply sent_ok|done|done|rewrite sent_length; lia|done|].
      rewrite Hidx. unfold in_s. destruct (0 <? var_count fs); simpl; lia.
    + fold rs. cbn [PdxType.m_pdxFieldTypes PdxType.construct app PdxType.m_numberOfVarLenFields PdxType.m_isLocal
        PdxType.m_numberOfFieldsExtra PdxType.m_isVarLenFieldAdded PdxType.m_remoteToLocalFieldMap
        PdxType.m_localToRemoteFieldMap PdxType.m_fieldNameVsPdxType].
      fold number ty'. unfold st_lift. intros pre rest Hz. unfold mbind, ST_bind. rewrite E. by rewrite app_nil_r.
  - intros q Hq. rewrite H3.
    + by apply lookup_app_l.
    + cbn. rewrite elem_of_seq. lia.
  - rewrite H5. destruct local as [l|]; [|done]. by rewrite (holds_fields _ _ _ Hh : PdxType.fields (h2 ++ rs) ty' = rs).
Qed.
End Received.
End Wire.
