(* ===== verification/PdxUnreadFacts.v ===== *)
(** What a member does with the fields of an object that its own version of the class does not
    have: their bytes are taken from the object and woven into the one that is written back. *)
From S2P Require Import Prelude JavaModifiedUtf8 DataOutput DataOutputFacts DataInput DataInputFacts Serialization Utf8Strings PdxType PdxStreams PdxPreserve PdxPositions PdxWriting PdxReading PdxObjects PdxTypeWire.
Import PdxLocalReader.

#[local] Arguments be_bytes : simpl never.

Section Unread.
Context `{AllocatorOk} {O : Type} (to_utf16 to_utf8 : list Z -> outcome (list Z)).
Context (writeObj : O -> ST DataOutput.t unit) (readObj : ST DataInput.t O) (nullObj : O) (obj_ok : O -> Prop).
Context `{!Codec writeObj readObj obj_ok}.

Abbreviation field := (list Z * PdxValue O)%type.
Abbreviation enc_value := (enc_value to_utf16 writeObj readObj obj_ok).
Abbreviation enc_fields := (enc_fields to_utf16 writeObj readObj obj_ok).
Abbreviation value_ok := (value_ok to_utf16 to_utf8 obj_ok).
Abbreviation field_ok := (field_ok to_utf16 to_utf8 obj_ok).
Abbreviation lens := (lens to_utf16 writeObj readObj obj_ok).
Abbreviation offsets := (offsets to_utf16 writeObj readObj obj_ok).
Abbreviation stream := (stream to_utf16 writeObj readObj obj_ok).
Abbreviation stream_len := (stream_len to_utf16 writeObj readObj obj_ok).
Abbreviation reading := (reading to_utf16 writeObj readObj obj_ok).
Implicit Types (fs gs ws : list field) (v : PdxValue O) (r : PdxLocalReader.t).

(** *** Taking the bytes *)

(** A field that the map marks as unknown. *)
Definition unread (x : Z) : bool := (x =? -1) || (x =? -2).

(** The bytes that are preserved. *)
Fixpoint preserved (m : list Z) fs : list (list Z) :=
  match m, fs with
  | x :: m', f :: fs' => if unread x then (s8 <$> enc_value f.2) :: preserved m' fs' else preserved m' fs'
  | _, _ => []
  end.

Lemma reads_bytes l : reads (st_repeat (length l) DataInput.read) l (s8 <$> l).
Proof.
  induction l as [|b l IH]; [apply reads_ret|]. cbn [length st_repeat]. rewrite fmap_cons.
  eapply (reads_bind _ _ [b] l); [apply reads_read|]. by apply (reads_map _ (cons _)).
Qed.

Section Preserve.
Context (h : list PdxFieldType.t) fs (fts : list PdxFieldType.t) (before rest : list Z) (m : list Z).
Hypothesis Hok : Forall field_ok fs.

Lemma preserve_spec n : forall i d r X Y,
  reading r before fs rest X Y -> describes h (m_pdxType r) fs fts -> m_remoteToLocalMap r = Some m -> length m = length fs ->
  (i + n = length fs)%nat ->
  exists r' X' Y', PdxUnread.preserveFrom h n (Z.of_nat i) d r =
      Ok (PdxRemotePreservedData.mk (PdxRemotePreservedData.m_preservedData d ++ preserved (drop i m) (drop i fs))
            (PdxRemotePreservedData.m_typeId d) (PdxRemotePreservedData.m_mergedTypeId d), r') /\
    reading r' before fs rest X' Y'.
Proof.
  induction n as [|n IH]; intros i d r X Y Hr Hd Hm Hl Hi.
  { exists r, X, Y. rewrite (drop_ge m) by lia. cbn [preserved]. rewrite app_nil_r. split; [|done]. by destruct d. }
  destruct (lookup_lt_is_Some_2 m i) as [x Hx]; [lia|]. destruct (lookup_lt_is_Some_2 fs i) as [[name v] Hf]; [lia|].
  rewrite (drop_S _ _ _ Hx), (drop_S _ _ _ Hf). cbn [PdxUnread.preserveFrom preserved snd].
  unfold mbind at 1, ST_bind at 1, st_get. rewrite Hm, Nat2Z.id, Hx. unfold unread. replace (Z.of_nat i + 1) with (Z.of_nat (S i)) by lia.
  destruct ((x =? -1) || (x =? -2)); [|apply (IH _ d r X Y); [done..|lia]].
  rewrite (st_bind_ok _ _ _ _ _ (reading_position to_utf16 to_utf8 writeObj readObj obj_ok _ _ _ _ _ _ h fts i name v Hr Hd Hok Hf)).
  assert (En : (if Z.of_nat i =? PdxType.getTotalFields (m_pdxType r) - 1 then mret (m_serializedLength r)
                else PdxRemoteReader.position h (Z.of_nat (S i))) r = Ok (sum (take (S i) (lens fs)), r)).
  { unfold PdxType.getTotalFields. rewrite (described_pointers h (m_pdxType r) fs fts Hd).
    destruct (Z.eqb_spec (Z.of_nat i) (Z.of_nat (length fs) - 1)).
    - rewrite take_ge by (rewrite length_lens; lia). destruct (rd_length _ _ _ _ _ _ _ _ _ _ Hr) as [-> _]. done.
    - destruct (lookup_lt_is_Some_2 fs (S i)) as [[name' v'] Hf']; [lia|].
      by apply (reading_position to_utf16 to_utf8 writeObj readObj obj_ok _ _ _ _ _ _ h fts (S i) name' v' Hr Hd Hok). }
  rewrite (st_bind_ok _ _ _ _ _ En).
  assert (El : Z.to_nat (sum (take (S i) (lens fs)) - sum (take i (lens fs))) = length (enc_value v)).
  { rewrite !sum_take, (take_S_r _ _ _ Hf), enc_fields_app, length_app, enc_fields_cons, length_app. cbn [snd].
    change (enc_fields []) with ([] : list Z). cbn [length]. lia. }
  rewrite El.
  destruct (reading_readAt to_utf16 writeObj readObj obj_ok _ _ _ _ _ _ _ i name v _ Hr Hf (takes_input _ _ _ (reads_bytes (enc_value v)))) as (r1 & E1 & Hr1 & Er1).
  unfold PdxRemoteReader.readAt in E1.
  destruct (IH (S i) (PdxRemotePreservedData.setPreservedData (s8 <$> enc_value v) d) r1 [] (X ++ Y) Hr1) as (r2 & X2 & Y2 & E2 & Hr2).
  { by rewrite Er1. }
  { by rewrite Er1. }
  { done. }
  { lia. }
  exists r2, X2, Y2. split; [|done].
  unfold mbind, ST_bind, mret, ST_ret in E1 |- *.
  destruct (resettoPdxHead r) as [[[] ra]|]; [|done]. destruct (on_input _ ra) as [[[] rb]|]; [|done].
  destruct (on_input _ rb) as [[bytes rc]|]; [|done]. destruct (resettoPdxHead rc) as [[[] rd]|]; [|done].
  simplify_eq. rewrite E2. cbn [PdxRemotePreservedData.setPreservedData PdxRemotePreservedData.m_preservedData
    PdxRemotePreservedData.m_typeId PdxRemotePreservedData.m_mergedTypeId]. by rewrite <- app_assoc.
Qed.
End Preserve.

(** *** What reading leaves alone *)

(** The type and the maps of the reader stay as they are. *)
Definition keeps {A} (m : ST t A) : Prop := forall r a r', m r = Ok (a, r') ->
  m_pdxType r' = m_pdxType r /\ m_localToRemoteMap r' = m_localToRemoteMap r /\ m_remoteToLocalMap r' = m_remoteToLocalMap r.

Lemma keeps_ret {A} (a : A) : keeps (mret a).
Proof. intros r b r' E. by injection E as <- <-. Qed.

Lemma keeps_throw {A} e : keeps (st_throw e : ST t A).
Proof. intros r b r' E. done. Qed.

Lemma keeps_bind {A B} (m : ST t A) (f : A -> ST t B) : keeps m -> (forall a, keeps (f a)) -> keeps (x ← m; f x).
Proof.
  intros Hm Hf r b r' E. unfold mbind, ST_bind in E. destruct (m r) as [[a r1]|] eqn:E1; [|done].
  destruct (Hm _ _ _ E1) as (H1 & H2 & H3).
  destruct (Hf a _ _ _ E) as (H4 & H5 & H6). split_and!; congruence.
Qed.

Lemma keeps_input {A} (m : ST DataInput.t A) : keeps (on_input m).
Proof. intros r a r' E. unfold on_input in E. destruct (m (m_dataInput r)) as [[? ?]|]; [|done]. by injection E as <- <-. Qed.

Lemma keeps_get : keeps st_get.
Proof. intros r a r' E. by injection E as <- <-. Qed.

Lemma keeps_lift {A} (o : outcome A) : keeps (st_lift o).
Proof. intros r a r' E. unfold st_lift in E. destruct o; [|done]. by injection E as <- <-. Qed.

Lemma keeps_next : keeps PdxRemoteReader.nextChoice.
Proof.
  intros r a r' E. unfold PdxRemoteReader.nextChoice in E. destruct (m_localToRemoteMap r) eqn:El; [|done].
  destruct (_ !! _); [|done]. by injection E as <- <-.
Qed.

Create HintDb keeps.
#[local] Hint Resolve keeps_ret keeps_throw keeps_input keeps_get keeps_lift keeps_next keeps_bind : keeps.

Lemma keeps_reset : keeps resettoPdxHead.
Proof. unfold resettoPdxHead. eauto with keeps. Qed.
#[local] Hint Resolve keeps_reset : keeps.

Lemma keeps_position h c : keeps (PdxRemoteReader.position h c).
Proof. unfold PdxRemoteReader.position. eauto with keeps. Qed.
#[local] Hint Resolve keeps_position : keeps.

Lemma keeps_readAt {A} p (m : ST t A) : keeps m -> keeps (PdxRemoteReader.readAt p m).
Proof. intros Hm. unfold PdxRemoteReader.readAt. repeat (apply keeps_bind; intros); eauto with keeps. Qed.
#[local] Hint Resolve keeps_readAt : keeps.

Lemma keeps_remote_value h k : keeps (PdxRemoteReader.readValue to_utf8 readObj nullObj h k).
Proof.
  destruct k; cbn [PdxRemoteReader.readValue]; try (apply keeps_throw);
  (apply keeps_bind; [|intros; apply keeps_ret]);
  unfold PdxRemoteReader.readChar, PdxRemoteReader.readBoolean, PdxRemoteReader.readByte, PdxRemoteReader.readShort,
    PdxRemoteReader.readInt, PdxRemoteReader.readLong, PdxRemoteReader.readFloat, PdxRemoteReader.readDouble,
    PdxRemoteReader.readString, PdxRemoteReader.readObject, PdxRemoteReader.readCharArray, PdxRemoteReader.readBooleanArray,
    PdxRemoteReader.readByteArray, PdxRemoteReader.readShortArray, PdxRemoteReader.readIntArray, PdxRemoteReader.readLongArray,
    PdxRemoteReader.readFloatArray, PdxRemoteReader.readDoubleArray, PdxRemoteReader.readStringArray,
    PdxRemoteReader.readArrayOfByteArrays, PdxRemoteReader.readDate, PdxRemoteReader.readField,
    PdxRemoteReader.readFieldChecked, PdxRemoteReader.readArrayField, PdxRemoteReader.readArrayFieldChecked,
    readChar, readArrayOfByteArrays, readDate;
  repeat (apply keeps_bind; intros; [solve [eauto with keeps]|]); repeat case_match;
  repeat first [apply keeps_bind; intros | apply keeps_readAt | case_match | solve [eauto with keeps] | apply keeps_input].
Qed.

Lemma keeps_readAll h ks : keeps (PdxObject.readAll (PdxRemoteReader.readValue to_utf8 readObj nullObj h) ks).
Proof.
  induction ks as [|k ks IH]; [apply keeps_ret|]. cbn [PdxObject.readAll].
  apply keeps_bind; [apply keeps_remote_value|intros v]. apply keeps_bind; [done|intros; apply keeps_ret].
Qed.

(** *** Weaving *)

(** The object [gs] is made of the written values [ws], where the map says 1, and of the
    preserved bytes [ps] elsewhere. *)
Fixpoint woven (m : list Z) gs (vs : list (PdxValue O)) (ps : list (list Z)) : Prop :=
  match m, gs with
  | [], [] => vs = [] /\ ps = []
  | x :: m', g :: gs' =>
    if x =? 1 then match vs with v :: vs' => g.2 = v /\ woven m' gs' vs' ps | [] => False end
    else x = (if isVar g.2 then -1 else -2) /\
         match ps with p :: ps' => p = s8 <$> enc_value g.2 /\ woven m' gs' vs ps' | [] => False end
  | _, _ => False
  end.

Lemma writes_preserved v : Forall (in_u 8) (enc_value v) ->
  writes (PdxLocalWriter.on_output (st_iter DataOutput.write_int8 (s8 <$> enc_value v))) false (enc_value v).
Proof.
  intros Hb. apply writes_output. generalize (enc_value v) Hb. intros l Hl.
  induction Hl as [|b l Hb' _ IH]; [apply emits_ret|]. rewrite fmap_cons. cbn [st_iter].
  apply (emits_bind _ _ [b] l); [|done]. pose proof (emits_write_int8 (s8 b)) as E. by rewrite wrapU_wrapS, wrapU_id in E.
Qed.

(** The writer behind the fields [gs], with the map and the preserved data for the rest. *)
Record weaving (w : PdxRemoteWriter.t) (base : list (option Z)) gs (m : list Z) (ps : list (list Z)) (ty : PdxType.t) (idx : Z) : Prop := {
  we_wrote : wrote (PdxRemoteWriter.base w) base (enc_fields gs) (offsets gs);
  we_type : PdxLocalWriter.m_pdxType (PdxRemoteWriter.base w) = ty;
  we_data : exists d all, PdxRemoteWriter.m_preserveData w = Some d /\ PdxRemoteWriter.m_remoteTolocalMap w = Some all /\
    drop (length gs) all = m /\ PdxRemoteWriter.m_remoteTolocalMapLength w = Z.of_nat (length all) /\
    drop (Z.to_nat (PdxRemoteWriter.m_preserveDataIdx w)) (PdxRemotePreservedData.m_preservedData d) = ps /\
    (length gs <= length all)%nat;
  we_idx : PdxRemoteWriter.m_currentDataIdx w = idx /\ 0 <= PdxRemoteWriter.m_preserveDataIdx w
}.

Lemma enc_fields_snoc gs (g : field) : enc_fields (gs ++ [g]) = enc_fields gs ++ enc_value g.2.
Proof. rewrite enc_fields_app, enc_fields_cons. change (enc_fields []) with ([] : list Z). by rewrite app_nil_r. Qed.

(** One iteration of the loop. *)
Lemma weave_step w base gs g m p ps ty n d :
  weaving w base gs ((if isVar g.2 then -1 else -2) :: m) (p :: ps) ty (Z.of_nat (length gs)) ->
  PdxRemoteWriter.m_preserveData w = Some d ->
  p = s8 <$> enc_value g.2 -> Forall (in_u 8) (enc_value g.2) ->
  Z.of_nat (length base + length (enc_fields (gs ++ [g]))) + 16 < 2 ^ 31 ->
  exists w', PdxRemoteWriter.writePreserveLoop (S n) d w = PdxRemoteWriter.writePreserveLoop n d w' /\
    weaving w' base (gs ++ [g]) m ps ty (Z.of_nat (length (gs ++ [g]))) /\ PdxRemoteWriter.m_preserveData w' = Some d /\
    PdxRemoteWriter.m_remoteTolocalMapLength w' = PdxRemoteWriter.m_remoteTolocalMapLength w.
Proof.
  intros [Hw Ht (d' & all & Hpd & Hmap & Hdrop & Hlen & Hps & Hle) [Hidx Hpi]] Hd -> Hb Hz. rewrite Hd in Hpd. injection Hpd as <-.
  rewrite enc_fields_snoc, length_app in Hz. set (mx := if isVar g.2 then -1 else -2) in Hdrop.
  assert (Hx : all !! length gs = Some mx) by (rewrite <- (Nat.add_0_r (length gs)), <- lookup_drop, Hdrop; done).
  assert (Hp : PdxRemotePreservedData.getPreservedData (PdxRemoteWriter.m_preserveDataIdx w) d = Ok (s8 <$> enc_value g.2)).
  { unfold PdxRemotePreservedData.getPreservedData. destruct (Z.ltb_spec (PdxRemoteWriter.m_preserveDataIdx w) 0); [lia|].
    assert (PdxRemotePreservedData.m_preservedData d !! Z.to_nat (PdxRemoteWriter.m_preserveDataIdx w) = Some (s8 <$> enc_value g.2)) as ->; [|done].
    rewrite <- (Nat.add_0_r (Z.to_nat (PdxRemoteWriter.m_preserveDataIdx w))), <- lookup_drop, Hps. done. }
  assert (Hwr : writes (if isVar g.2 then PdxLocalWriter.addOffset;; PdxLocalWriter.on_output (st_iter DataOutput.write_int8 (s8 <$> enc_value g.2))
                        else PdxLocalWriter.on_output (st_iter DataOutput.write_int8 (s8 <$> enc_value g.2))) (isVar g.2) (enc_value g.2)).
  { destruct (isVar g.2); [apply writes_addOffset|]; by apply writes_preserved. }
  destruct (Hwr _ _ _ _ Hw) as (b & Eb & Hb' & _ & Hbt); [lia|].
  exists (PdxRemoteWriter.set_indices (PdxRemoteWriter.m_preserveDataIdx w + 1) (PdxRemoteWriter.m_currentDataIdx w + 1)
    (PdxRemoteWriter.mk b (PdxRemoteWriter.m_preserveData w) (PdxRemoteWriter.m_remoteTolocalMap w) (PdxRemoteWriter.m_preserveDataIdx w)
       (PdxRemoteWriter.m_currentDataIdx w) (PdxRemoteWriter.m_remoteTolocalMapLength w))).
  split_and!; [| |done|done].
  - cbn [PdxRemoteWriter.writePreserveLoop]. unfold mbind at 1, ST_bind at 1, st_get.
    rewrite Hidx, Hlen, Hmap, Nat2Z.id, Hx. apply lookup_lt_Some in Hx.
    destruct (Z.ltb_spec (Z.of_nat (length gs)) (Z.of_nat (length all))); [|lia]. subst mx.
    unfold mbind, ST_bind, st_lift, st_modify. rewrite Hp. unfold PdxRemoteWriter.on_base.
    unfold mbind, ST_bind in Eb.
    destruct (isVar g.2); cbn [Z.eqb Pos.eqb].
    + destruct (PdxLocalWriter.addOffset (PdxRemoteWriter.base w)) as [[[] b1]|]; [|done]. cbn [PdxRemoteWriter.base]. rewrite Eb.
      cbn [PdxRemoteWriter.m_preserveDataIdx PdxRemoteWriter.m_currentDataIdx PdxRemoteWriter.m_remoteTolocalMap PdxRemoteWriter.m_remoteTolocalMapLength]. by rewrite ?Hidx, ?Hmap, ?Hlen.
    + rewrite Eb. cbn [PdxRemoteWriter.m_preserveDataIdx PdxRemoteWriter.m_currentDataIdx]. by rewrite ?Hidx, ?Hmap, ?Hlen.
  - destruct g as [name v]. cbn [snd] in *. constructor; cbn.
    + by rewrite enc_fields_snoc, offsets_snoc.
    + congruence.
    + exists d, all. rewrite length_app. cbn [length]. apply lookup_lt_Some in Hx. split_and!; try done; [| |lia].
      * by rewrite <- drop_drop, Hdrop.
      * replace (Z.to_nat (PdxRemoteWriter.m_preserveDataIdx w + 1)) with (Z.to_nat (PdxRemoteWriter.m_preserveDataIdx w) + 1)%nat by lia.
        by rewrite <- drop_drop, Hps.
    + rewrite length_app. cbn [length]. lia.
Qed.

Lemma woven_length m gs vs ps : woven m gs vs ps -> length m = length gs.
Proof.
  revert gs vs ps. induction m as [|x m IH]; intros [|g gs] vs ps Hw; try done. cbn in Hw. cbn [length]. f_equal.
  destruct (x =? 1).
  - destruct vs; [done|]. destruct Hw as [_ Hw]. eauto.
  - destruct Hw as [_ Hw]. destruct ps; [done|]. destruct Hw as [_ Hw]. eauto.
Qed.

(** The loop writes the unread fields up to the next local one. *)
Lemma weave_loop d ty base gs2 : forall n w gs m ps vs,
  weaving w base gs m ps ty (Z.of_nat (length gs)) -> PdxRemoteWriter.m_preserveData w = Some d ->
  woven m gs2 vs ps -> (length gs2 < n)%nat -> Forall (fun g => Forall (in_u 8) (enc_value g.2)) gs2 ->
  Z.of_nat (length base + length (enc_fields (gs ++ gs2))) + 16 < 2 ^ 31 ->
  exists w' ex gs3 m3 ps3, PdxRemoteWriter.writePreserveLoop n d w = Ok (tt, w') /\ gs2 = ex ++ gs3 /\
    weaving w' base (gs ++ ex) m3 ps3 ty (Z.of_nat (length (gs ++ ex))) /\ PdxRemoteWriter.m_preserveData w' = Some d /\
    woven m3 gs3 vs ps3 /\ (m3 = [] \/ exists m4, m3 = 1 :: m4).
Proof.
  induction gs2 as [|g gs2 IH]; intros [|n] w gs m ps vs Hwe Hd Hwo Hn Hb Hz; try (cbn in Hn; lia).
  - destruct m; [|done]. exists w, [], [], [], ps. rewrite !app_nil_r. split_and!; try done; [|by left].
    cbn [PdxRemoteWriter.writePreserveLoop]. unfold mbind, ST_bind, st_get.
    destruct Hwe as [_ _ (d' & all & _ & _ & Hdrop & Hlen & _ & Hle) [Hidx _]].
    apply (f_equal length) in Hdrop. rewrite length_drop in Hdrop. cbn [length] in Hdrop.
    destruct (Z.ltb_spec (PdxRemoteWriter.m_currentDataIdx w) (PdxRemoteWriter.m_remoteTolocalMapLength w)); [lia|done].
  - destruct m as [|x m]; [done|]. cbn [woven] in Hwo. destruct (Z.eqb_spec x 1) as [->|Hx].
    + exists w, [], (g :: gs2), (1 :: m), ps. rewrite !app_nil_r. split_and!; try done; [|by right; eexists].
      cbn [PdxRemoteWriter.writePreserveLoop]. unfold mbind at 1, ST_bind at 1, st_get.
      destruct Hwe as [_ _ (d' & all & _ & Hmap & Hdrop & Hlen & _ & Hle) [Hidx _]].
      assert (E : all !! length gs = Some 1) by (rewrite <- (Nat.add_0_r (length gs)), <- lookup_drop, Hdrop; done).
      rewrite Hmap, Hidx, Nat2Z.id, E. by destruct (_ <? _).
    + destruct Hwo as [-> Hwo]. destruct ps as [|p ps]; [done|]. destruct Hwo as [Hp Hwo].
      apply Forall_cons_1 in Hb as [Hbg Hb]. cbn [length] in Hn. rewrite cons_middle, app_assoc in Hz.
      destruct (weave_step w base gs g m p ps ty n d Hwe Hd Hp Hbg) as (w1 & E1 & Hwe1 & Hd1 & _).
      { rewrite enc_fields_app, length_app in Hz. lia. }
      destruct (IH n w1 (gs ++ [g]) m ps vs Hwe1 Hd1 Hwo) as (w' & ex & gs3 & m3 & ps3 & E & -> & Hwe3 & Hd3 & Hwo3 & Hm3); [lia|done|done|].
      exists w', (g :: ex), gs3, m3, ps3. rewrite E1. rewrite <- app_assoc in Hwe3. cbn [app] in Hwe3. split_and!; try done.
Qed.

Lemma weave_preserve d ty base gs2 w gs m ps vs :
  weaving w base gs m ps ty (Z.of_nat (length gs) - 1) -> PdxRemoteWriter.m_preserveData w = Some d ->
  woven m gs2 vs ps -> Forall (fun g => Forall (in_u 8) (enc_value g.2)) gs2 ->
  Z.of_nat (length base + length (enc_fields (gs ++ gs2))) + 16 < 2 ^ 31 ->
  exists w' ex gs3 m3 ps3, PdxRemoteWriter.writePreserveData w = Ok (tt, w') /\ gs2 = ex ++ gs3 /\
    weaving w' base (gs ++ ex) m3 ps3 ty (Z.of_nat (length (gs ++ ex))) /\ PdxRemoteWriter.m_preserveData w' = Some d /\
    woven m3 gs3 vs ps3 /\ (m3 = [] \/ exists m4, m3 = 1 :: m4).
Proof.
  intros [Hw Ht Hda [Hidx Hpi]] Hd Hwo Hb Hz.
  set (w1 := PdxRemoteWriter.set_indices (PdxRemoteWriter.m_preserveDataIdx w) (PdxRemoteWriter.m_currentDataIdx w + 1) w).
  assert (Hwe1 : weaving w1 base gs m ps ty (Z.of_nat (length gs))) by (constructor; [done..|cbn; lia]).
  unfold PdxRemoteWriter.writePreserveData, mbind, ST_bind, st_modify, st_get. fold w1.
  assert (Hd1 : PdxRemoteWriter.m_preserveData w1 = Some d) by done. rewrite Hd1.
  apply weave_loop with (m := m) (ps := ps); try done. rewrite <- (woven_length _ _ _ _ Hwo).
  destruct Hda as (d' & all & _ & _ & Hdrop & Hlen & _ & Hle). cbn. rewrite Hlen, Hidx, <- Hdrop, length_drop. lia.
Qed.

(** The local values. *)
Lemma weave_values d ty base vs : forall gs2 w gs m ps,
  weaving w base gs m ps ty (Z.of_nat (length gs) - 1) -> PdxRemoteWriter.m_preserveData w = Some d ->
  woven m gs2 vs ps -> Forall field_ok gs2 -> Forall (fun g => Forall (in_u 8) (enc_value g.2)) gs2 ->
  Z.of_nat (length base + length (enc_fields (gs ++ gs2))) + 16 < 2 ^ 31 ->
  exists w' ex gs3 m3 ps3, st_iter (PdxRemoteWriter.writeValue to_utf16 writeObj) vs w = Ok (tt, w') /\ gs2 = ex ++ gs3 /\
    weaving w' base (gs ++ ex) m3 ps3 ty (Z.of_nat (length (gs ++ ex)) - 1) /\ PdxRemoteWriter.m_preserveData w' = Some d /\
    woven m3 gs3 [] ps3.
Proof.
  induction vs as [|v vs IH]; intros gs2 w gs m ps Hwe Hd Hwo Hok Hb Hz.
  { exists w, [], gs2, m, ps. rewrite !app_nil_r. done. }
  destruct (weave_preserve d ty base gs2 w gs m ps (v :: vs) Hwe Hd Hwo Hb Hz)
    as (w1 & ex & gs3 & m3 & ps3 & E1 & -> & Hwe1 & Hd1 & Hwo1 & Hm3).
  destruct Hm3 as [->|(m4 & ->)]; [destruct gs3; [|done]; by destruct Hwo1|].
  destruct gs3 as [|g gs3]; [done|]. cbn [woven Z.eqb Pos.eqb] in Hwo1. destruct Hwo1 as [Hg Hwo1].
  apply Forall_app in Hok as [_ Hok]. apply Forall_cons_1 in Hok as [Hv Hok].
  apply Forall_app in Hb as [_ Hb]. apply Forall_cons_1 in Hb as [_ Hb].
  rewrite (cons_middle g ex gs3), !app_assoc in Hz.
  destruct Hwe1 as [Hw1 Ht1 (d' & all & Hpd & Hmap & Hdrop & Hlen & Hps & Hle) [Hidx Hpi]].
  destruct (writes_value to_utf16 to_utf8 writeObj readObj obj_ok g.2 Hv (PdxRemoteWriter.base w1) base _ _ Hw1) as (b & Eb & Hwb & _ & Hbt).
  { rewrite enc_fields_app, length_app, enc_fields_snoc, length_app in Hz. lia. }
  set (w2 := PdxRemoteWriter.mk b (PdxRemoteWriter.m_preserveData w1) (PdxRemoteWriter.m_remoteTolocalMap w1) (PdxRemoteWriter.m_preserveDataIdx w1)
    (PdxRemoteWriter.m_currentDataIdx w1) (PdxRemoteWriter.m_remoteTolocalMapLength w1)).
  assert (Hwe2 : weaving w2 base ((gs ++ ex) ++ [g]) m4 ps3 ty (Z.of_nat (length ((gs ++ ex) ++ [g])) - 1)).
  { assert (Hx : all !! length (gs ++ ex) = Some 1) by (rewrite <- (Nat.add_0_r (length (gs ++ ex))), <- lookup_drop, Hdrop; done).
    apply lookup_lt_Some in Hx. destruct g as [name v']. cbn [snd] in *. constructor; cbn.
    - by rewrite enc_fields_snoc, offsets_snoc.
    - congruence.
    - exists d', all. rewrite (length_app (gs ++ ex)). cbn [length]. split_and!; try done; [|lia]. by rewrite <- drop_drop, Hdrop.
    - rewrite (length_app (gs ++ ex)). cbn [length]. lia. }
  assert (E2 : PdxRemoteWriter.writeValue to_utf16 writeObj v w = Ok (tt, w2)).
  { unfold PdxRemoteWriter.writeValue. rewrite (st_bind_ok _ _ _ _ _ E1). unfold PdxRemoteWriter.on_base. by rewrite <- Hg, Eb. }
  destruct (IH gs3 w2 _ m4 ps3 Hwe2 Hd1 Hwo1 Hok Hb Hz) as (w' & ex2 & gs4 & m5 & ps5 & E & -> & Hwe' & Hd' & Hwo').
  exists w', (ex ++ g :: ex2), gs4, m5, ps5. cbn [st_iter]. rewrite (st_bind_ok _ _ _ _ _ E2).
  replace (gs ++ ex ++ g :: ex2) with (((gs ++ ex) ++ [g]) ++ ex2) by (by rewrite <- !app_assoc).
  split_and!; try done. by rewrite <- app_assoc.
Qed.

(** The object that is written back. *)
Lemma serialize_woven lty pd mv h gs vs d pre m :
  wf d -> out_is d pre -> PdxType.m_remoteToLocalFieldMap mv = Some m ->
  PdxType.getTotalFields mv = Z.of_nat (length gs) -> PdxType.m_numberOfVarLenFields mv = var_count gs ->
  woven m gs vs (PdxRemotePreservedData.m_preservedData pd) ->
  Forall field_ok gs -> Forall (in_u 8) (enc_fields gs) -> Z.of_nat (length pre) + stream_len gs + 64 < 2 ^ 31 ->
  exists d', PdxVersions.serialize to_utf16 writeObj lty (Some (pd, mv)) vs d h = Ok d' /\ wf d' /\
    out_is d' (pre ++ (Some <$> stream (PdxType.m_geodeTypeId mv) gs)).
Proof.
  intros Hwf Ho Hm Htot Hn Hwo Hok Hb Hlen. pose proof (stream_len_bound to_utf16 writeObj readObj obj_ok gs) as Hsl.
  assert (Hb' : Forall (fun g => Forall (in_u 8) (enc_value g.2)) gs).
  { clear - Hb. induction gs as [|g gs IH]; [constructor|]. rewrite enc_fields_cons in Hb. apply Forall_app in Hb as [H1 H2]. constructor; auto. }
  destruct (open_writer d pre h mv Hwf Ho) as (b & hole & E0 & Hh & Hw0 & Hs0 & Ht0); [lia|].
  assert (Ec : PdxRemoteWriter.construct (Some lty) d h mv pd =
    Ok (PdxRemoteWriter.mk (PdxLocalWriter.mk (PdxLocalWriter.m_dataOutput b) h mv (PdxLocalWriter.m_startPositionOffset b) (PdxLocalWriter.m_offsets b))
          (Some pd) (Some m) 0 (-1) (PdxType.getTotalFields mv))).
  { unfold PdxRemoteWriter.construct, mbind, outcome_bind. rewrite E0. unfold PdxType.getRemoteToLocalMap, mbind, ST_bind, st_get. cbn [snd]. by rewrite Hm. }
  set (w0 := PdxRemoteWriter.mk _ (Some pd) (Some m) 0 (-1) _) in Ec.
  assert (Hwe0 : weaving w0 (pre ++ hole) [] m (PdxRemotePreservedData.m_preservedData pd) mv (Z.of_nat (length ([] : list field)) - 1)).
  { constructor; cbn; [|done| |done].
    - destruct Hw0. by constructor.
    - exists pd, m. rewrite Htot, <- (woven_length _ _ _ _ Hwo). split_and!; try done. lia. }
  assert (Hz : Z.of_nat (length (pre ++ hole) + length (enc_fields ([] ++ gs))) + 16 < 2 ^ 31) by (rewrite length_app, Hh; cbn [app]; lia).
  destruct (weave_values pd mv (pre ++ hole) vs gs w0 [] m _ Hwe0 eq_refl Hwo Hok Hb' Hz) as (w1 & ex & gs3 & m3 & ps3 & E1 & -> & Hwe1 & Hd1 & Hwo1).
  apply Forall_app in Hb' as [_ Hb3].
  destruct (weave_preserve pd mv (pre ++ hole) gs3 w1 ex m3 ps3 [] Hwe1 Hd1 Hwo1 Hb3 Hz) as (w2 & ex2 & gs4 & m4 & ps4 & E2 & -> & Hwe2 & Hd2 & Hwo2 & Hm4).
  assert (gs4 = []) as ->. { destruct Hm4 as [->|(m5 & ->)]; [by destruct gs4|]. destruct gs4; [done|]. done. }
  rewrite app_nil_r in *. destruct Hwe2 as [Hw2 Ht2 _ _].
  assert (Hcalc : PdxLocalWriter.calculateLenWithOffsets (PdxRemoteWriter.base w2) = stream_len (ex ++ ex2)).
  { unfold PdxLocalWriter.calculateLenWithOffsets. rewrite Ht2, Hn.
    eapply (lenWithOffsets_spec to_utf16 writeObj readObj obj_ok); [exact Hw2|rewrite length_app; lia| |rewrite length_app; lia].
    rewrite <- (length_offsets to_utf16 writeObj readObj obj_ok (ex ++ ex2)). destruct (offsets (ex ++ ex2)); [done|]. cbn [length].
    destruct (Z.ltb_spec 0 (Z.of_nat (S (length l)))); lia. }
  destruct (writePdxHeader_spec to_utf16 writeObj readObj obj_ok _ (PdxRemoteWriter.base w2) pre hole (ex ++ ex2) Hw2 Hh Hcalc) as (b3 & E3 & Hwf3 & Ho3 & _); [lia|].
  rewrite Ht2 in Ho3. exists (PdxLocalWriter.m_dataOutput b3). split_and!; [|done|done].
  unfold PdxVersions.serialize, mbind, outcome_bind. rewrite Ec, E1. unfold PdxRemoteWriter.endObjectWriting, mbind, ST_bind. rewrite E2.
  unfold PdxRemoteWriter.on_base. by rewrite E3.
Qed.
End Unread.
