(* ===== verification/PdxMergeFacts.v ===== *)
(** Merging two versions of a class: the fields of the merged type, and the object that a member
    writes back, made of its own fields and of the preserved ones. *)
From stdpp Require Import sorting.
From S2P Require Import Prelude JavaModifiedUtf8 DataOutput DataOutputFacts DataInput DataInputFacts Serialization Utf8Strings PdxType PdxStreams PdxPreserve PdxPositions PdxWriting PdxReading PdxObjects PdxTypeWire PdxUnreadFacts.

#[local] Arguments be_bytes : simpl never.

Section Merge.
Context {O : Type}.
Abbreviation field := (list Z * PdxValue O)%type.
Implicit Types (fs gs ws : list field) (x w : field) (f l : PdxFieldType.t) (h : list PdxFieldType.t) (ty : PdxType.t).

(** *** Fields by name and type *)

Definition same x w : bool := bool_decide (w.1 = x.1) && bool_decide (kindOf w.2 = kindOf x.2).
Definition known ws x : bool := existsb (same x) ws.

(** The map from the fields of an object to those of the local type. *)
Definition mark ws x : Z := if known ws x then 1 else if isVar x.2 then -1 else -2.

(** A field object for a field. *)
Definition stands f x : Prop :=
  PdxFieldType.m_fieldName f = x.1 /\ PdxFieldType.m_typeId f = kindOf x.2 /\
  PdxFieldType.m_isVariableLengthType f = isVar x.2 /\
  PdxFieldType.m_fixedSize f = PdxFieldType.getFixedTypeSize (kindOf x.2).

Lemma same_iff x w : same x w = true <-> w.1 = x.1 /\ kindOf w.2 = kindOf x.2.
Proof. unfold same. rewrite andb_true_iff, !bool_decide_eq_true. done. Qed.

Lemma known_iff ws x : known ws x = true <-> exists w, w ∈ ws /\ w.1 = x.1 /\ kindOf w.2 = kindOf x.2.
Proof.
  unfold known. rewrite existsb_exists. setoid_rewrite same_iff. by setoid_rewrite list_elem_of_In.
Qed.

Lemma known_cons w ws x : known (w :: ws) x = same x w || known ws x.
Proof. done. Qed.

Lemma stands_anon f g x : anon f = anon g -> stands f x -> stands g x.
Proof. intros E (H1 & H2 & H3 & H4). injection E as E1 E2 _ E4 E5 _. unfold stands. rewrite <- E1, <- E2, <- E4, <- E5. done. Qed.

Lemma stands_collected fs : forall n k, Forall2 stands (collected n k fs) fs.
Proof.
  induction fs as [|[name v] fs IH]; intros n k; [constructor|]. cbn [collected]. constructor; [|apply IH]. done.
Qed.

Lemma stands_like fts fs : anon <$> fts = anon <$> collected 0 0 fs -> Forall2 stands fts fs.
Proof.
  intros E. apply Forall2_same_length_lookup_2.
  { pose proof (f_equal length E) as El. by rewrite !length_fmap, length_collected in El. }
  intros i f x Hf Hx. pose proof (f_equal (.!! i) E) as Ei. rewrite !list_lookup_fmap, Hf in Ei.
  destruct (collected 0 0 fs !! i) as [g|] eqn:Hg; [|done]. cbn in Ei. injection Ei as Ei. 
  pose proof (stands_collected fs 0 0) as Hs. rewrite Forall2_lookup in Hs. specialize (Hs i). rewrite Hg, Hx in Hs. inversion Hs; subst.
  eapply stands_anon; [|eassumption]. unfold anon. congruence.
Qed.

Lemma described_stands h ty fs fts : describes h ty fs fts -> Forall2 stands (PdxType.fields h ty) fs.
Proof.
  intros Hd. unfold PdxType.fields. rewrite (holds_fields _ _ _ (de_holds _ _ _ _ Hd)). apply stands_like.
  rewrite anon_positions. apply (de_like _ _ _ _ Hd).
Qed.

Lemma equals_stands l f w x : stands l w -> stands f x -> PdxFieldType.equals l f = same x w.
Proof.
  intros (A1 & A2 & _) (B1 & B2 & _). unfold PdxFieldType.equals, same. rewrite A1, A2, B1, B2.
  f_equal; apply bool_decide_ext; intuition congruence.
Qed.

Lemma existsb_stands ls ws f x : Forall2 stands ls ws -> stands f x -> existsb (fun l => PdxFieldType.equals l f) ls = known ws x.
Proof.
  intros Hl Hf. induction Hl as [|l w ls ws H1 _ IH]; [done|]. cbn [existsb]. rewrite known_cons.
  by rewrite (equals_stands _ _ _ _ H1 Hf), IH.
Qed.

(** *** [InitializeType] of a type that has been initialized before, or not *)

Definition names_ok (m : gmap (list Z) nat) (ps : list nat) fs : Prop :=
  forall i name v p q, fs !! i = Some (name, v) -> ps !! i = Some p -> m !! name = Some q -> q = p.

Lemma names_after_In m ps fts n p : names_after m ps fts !! n = Some p -> m !! n = Some p \/ p ∈ ps.
Proof.
  revert ps. induction fts as [|f fts IH]; intros [|q ps] Hn; try (by left).
  change (names_after m (q :: ps) (f :: fts)) with (add_name (names_after m ps fts) (q, f)) in Hn.
  unfold add_name in Hn. apply lookup_union_Some_raw in Hn as [Hn|[_ Hn]].
  - destruct (IH ps Hn); [by left|right; by right].
  - cbn in Hn. destruct (decide (PdxFieldType.m_fieldName f = n)) as [<-|Hne].
    + rewrite lookup_singleton_eq in Hn. injection Hn as <-. right. by left.
    + by rewrite lookup_singleton_ne in Hn.
Qed.

Lemma initialize_spec lty h ty fs fts ws :
  holds h (PdxType.m_pdxFieldTypes ty) fts -> NoDup (PdxType.m_pdxFieldTypes ty) -> anon <$> fts = anon <$> collected 0 0 fs ->
  PdxType.m_numberOfVarLenFields ty = var_count fs -> names_ok (PdxType.m_fieldNameVsPdxType ty) (PdxType.m_pdxFieldTypes ty) fs ->
  NoDup fs.*1 -> Forall2 stands (PdxType.fields h lty) ws ->
  exists h' ty', PdxType.InitializeType (Some lty) (h, ty) = Ok (tt, (h', ty')) /\ describes h' ty' fs fts /\
    PdxType.m_geodeTypeId ty' = PdxType.m_geodeTypeId ty /\ PdxType.m_className ty' = PdxType.m_className ty /\
    PdxType.is_java_class_ ty' = PdxType.is_java_class_ ty /\
    (forall q, q ∉ PdxType.m_pdxFieldTypes ty -> h' !! q = h !! q) /\
    PdxType.m_pdxFieldTypes ty' = PdxType.m_pdxFieldTypes ty /\
    PdxType.m_localToRemoteFieldMap ty' = Some (PdxType.localToRemote fts (PdxType.fields h lty) fts) /\
    PdxType.m_remoteToLocalFieldMap ty' = Some (mark ws <$> fs) /\
    PdxType.m_numberOfFieldsExtra ty' = Z.of_nat (length (filter (fun x => known ws x = false) fs)) /\
    (forall n p, PdxType.m_fieldNameVsPdxType ty' !! n = Some p ->
       PdxType.m_fieldNameVsPdxType ty !! n = Some p \/ p ∈ PdxType.m_pdxFieldTypes ty).
Proof.
  intros Hh Hnd Hlike Hn Hm Hnames Hl. pose proof (stands_like _ _ Hlike) as Hst.
  assert (Ef : PdxType.fields h ty = fts) by apply (holds_fields _ _ _ Hh).
  set (rmap := (fun remotePdxField =>
                if existsb (fun localPdxfield => PdxFieldType.equals localPdxfield remotePdxField) (PdxType.fields h lty) then 1
                else if PdxFieldType.m_isVariableLengthType remotePdxField then -1 else -2) <$> fts).
  assert (Er : rmap = mark ws <$> fs).
  { subst rmap. clear - Hst Hl. induction Hst as [|f x fts fs Hx _ IH]; [done|]. rewrite !fmap_cons, IH. f_equal.
    rewrite (existsb_stands _ _ _ _ Hl Hx). destruct Hx as (_ & _ & -> & _). done. }
  set (ty1 := PdxType.setLocalToRemote (Some (PdxType.localToRemote fts (PdxType.fields h lty) fts))
                (PdxType.setRemoteToLocal (Z.of_nat (length (filter (fun z : Z => z <> 1) rmap))) (Some rmap) ty)).
  destruct (generatePositionMap_spec h ty1 fts Hh Hnd) as (h' & E & Hh' & Hq).
  exists h', (PdxType.setNames (names_after (PdxType.m_fieldNameVsPdxType ty) (PdxType.m_pdxFieldTypes ty) fts) ty1).
  split.
  { unfold PdxType.InitializeType, PdxType.initRemoteToLocal, PdxType.initLocalToRemote, mbind, ST_bind. cbn [fst snd].
    change (PdxType.fields h (PdxType.setRemoteToLocal _ _ ty)) with (PdxType.fields h ty). rewrite Ef. fold rmap. exact E. }
  split_and!; try done.
  - constructor; cbn; try done. intros i name v p Hi Hp. 
    destruct (lookup_lt_is_Some_2 fts i) as [f Hf].
    { rewrite (Forall2_length Hst). by eapply lookup_lt_Some. }
    destruct (Forall2_lookup_lr _ _ _ _ _ _ Hst Hf Hi) as (En & _). cbn in En. rewrite <- En.
    apply (names_after_lookup (PdxType.m_fieldNameVsPdxType ty) _ fts) with (i := i); [|idtac|done|done].
    + by rewrite (anon_names fts (collected 0 0 fs) Hlike), collected_names.
    + intros j q g q' Hq1 Hg Hq2. destruct (lookup_lt_is_Some_2 fs j) as [[name' v'] Hj].
      { rewrite <- (Forall2_length Hst). by eapply lookup_lt_Some. }
      destruct (Forall2_lookup_lr _ _ _ _ _ _ Hst Hg Hj) as (Eg & _). rewrite Eg in Hq2. by eapply Hm.
  - cbn. by rewrite Er.
  - cbn. rewrite Er. f_equal. clear. induction fs as [|x fs IH]; [done|]. rewrite fmap_cons, !filter_cons.
    assert (mark ws x <> 1 <-> known ws x = false) as Hx by (unfold mark; destruct (known ws x), (isVar x.2); naive_solver).
    destruct (decide (known ws x = false)); [rewrite decide_True by tauto|rewrite decide_False by tauto]; cbn [length]; by rewrite IH.
  - intros n p. apply names_after_In.
Qed.

(** *** One version that contains the other *)

Lemma seek_skip g first f : PdxFieldType.equals g f = false -> PdxType.seek (g :: first) f = PdxType.seek first f.
Proof. intros E. cbn. by rewrite E. Qed.

Lemma contains_skip g first second : Forall (fun f => PdxFieldType.equals g f = false) second ->
  PdxType.isContains (g :: first) second = PdxType.isContains first second.
Proof. destruct second as [|f second]; [done|]. intros E. apply Forall_cons_1 in E as [E _]. cbn [PdxType.isContains]. by rewrite seek_skip. Qed.

Lemma contains_match g first f second : PdxFieldType.equals g f = true ->
  PdxType.isContains (g :: first) (f :: second) = PdxType.isContains (g :: first) second.
Proof. intros E. cbn [PdxType.isContains PdxType.seek]. by rewrite E. Qed.

Lemma contains_anon a b second : anon <$> a = anon <$> b -> PdxType.isContains a second = PdxType.isContains b second.
Proof.
  revert a b. induction second as [|f second IH]; intros a b E; [done|]. cbn [PdxType.isContains].
  assert (Hs : anon <$> PdxType.seek a f = anon <$> PdxType.seek b f).
  { revert b E. induction a as [|x a IHa]; intros [|y b] E; try done. cbn [PdxType.seek].
    assert (Exy : anon x = anon y) by exact (f_equal (hd (anon x)) E).
    assert (Eq : PdxFieldType.equals x f = PdxFieldType.equals y f) by (injection Exy as E1 E2 _ _ _ _; unfold PdxFieldType.equals; by rewrite E1, E2).
    rewrite Eq. destruct (PdxFieldType.equals y f); [done|]. apply IHa. exact (f_equal tail E). }
  destruct (PdxType.seek a f) as [|x a'], (PdxType.seek b f) as [|y b']; try done. by apply IH.
Qed.

(** Everything in the second is in the first. *)
Lemma contains_In second : forall rfs fs ws, Forall2 stands rfs fs -> Forall2 stands second ws ->
  PdxType.isContains rfs second = true -> Forall (fun w => known fs w = true) ws.
Proof.
  induction second as [|f second IH]; intros rfs fs ws Hr Hs Hc.
  { apply Forall2_nil_inv_l in Hs as ->. constructor. }
  apply Forall2_cons_inv_l in Hs as (w & ws' & Hw & Hs & ->). cbn [PdxType.isContains] in Hc.
  assert (Hseek : forall rfs fs, Forall2 stands rfs fs -> PdxType.seek rfs f <> [] ->
    known fs w = true /\ exists fs', Forall2 stands (PdxType.seek rfs f) fs' /\ forall y, known fs' y = true -> known fs y = true).
  { clear - Hw. induction 1 as [|g x rfs fs Hg Hr IH]; [done|]. cbn [PdxType.seek].
    pose proof (equals_stands g f x w Hg Hw) as E. rewrite E. destruct (same w x) eqn:Es.
    - intros _. split; [by rewrite known_cons, Es|]. exists (x :: fs). split; [by constructor|done].
    - intros Hne. destruct (IH Hne) as (Hk & fs' & Hf' & Hall). split; [by rewrite known_cons, Es|].
      exists fs'. split; [done|]. intros y Hy. rewrite known_cons, (Hall y Hy). apply orb_true_r. }
  assert (Hne : PdxType.seek rfs f <> []) by (intros E; by rewrite E in Hc).
  destruct (Hseek rfs fs Hr Hne) as (Hk & fs' & Hf' & Hall). constructor; [done|].
  assert (Hc' : PdxType.isContains (PdxType.seek rfs f) second = true) by (destruct (PdxType.seek rfs f); done).
  eapply Forall_impl; [|by eapply (IH _ fs' ws')]. auto.
Qed.

(** The object of the sender with the values of the receiver. *)
Definition overwrite ws x : field := match list_find (fun w => same x w = true) ws with Some (_, w) => w | None => x end.

Lemma overwrite_known ws w x : NoDup ws.*1 -> w ∈ ws -> same x w = true -> overwrite ws x = w.
Proof.
  intros Hnd Hw Hs. unfold overwrite. apply list_elem_of_lookup_1 in Hw as (i & Hi).
  destruct (list_find (fun w => same x w = true) ws) as [[j w']|] eqn:E.
  - apply list_find_Some in E as (Hj & Hs' & _). apply same_iff in Hs as [Hs _]. apply same_iff in Hs' as [Hs' _].
    assert (i = j) as ->; [|congruence]. apply (NoDup_lookup ws.*1 i j x.1 Hnd); rewrite list_lookup_fmap, ?Hi, ?Hj; cbn; congruence.
  - apply list_find_None in E. rewrite Forall_lookup in E. destruct (E i w Hi). done.
Qed.

Lemma overwrite_unknown ws x : known ws x = false -> overwrite ws x = x.
Proof.
  intros Hk. unfold overwrite. destruct (list_find (fun w => same x w = true) ws) as [[j w]|] eqn:E; [|done].
  apply list_find_Some in E as (Hj & Hs & _). apply list_elem_of_lookup_2 in Hj.
  assert (known ws x = true); [|congruence]. apply known_iff. apply same_iff in Hs. eauto.
Qed.

(** *** A new type *)

(** The fields that are added to [gs]. *)
Fixpoint added gs fs : list field :=
  match fs with
  | [] => []
  | x :: fs' => if known gs x then added gs fs' else x :: added (gs ++ [x]) fs'
  end.

Definition with_fields (ps : list nat) ty : PdxType.t :=
  PdxType.mk (PdxType.m_pdxFieldTypes ty ++ ps) (PdxType.m_className ty) (PdxType.m_geodeTypeId ty) (PdxType.m_isLocal ty)
    (PdxType.m_numberOfVarLenFields ty) (PdxType.m_varLenFieldIdx ty) (PdxType.m_numberOfFieldsExtra ty)
    (PdxType.m_isVarLenFieldAdded ty) (PdxType.m_remoteToLocalFieldMap ty) (PdxType.m_localToRemoteFieldMap ty)
    (PdxType.m_fieldNameVsPdxType ty) (PdxType.is_java_class_ ty).

Lemma known_app gs gs' x : known (gs ++ gs') x = known gs x || known gs' x.
Proof. apply existsb_app. Qed.

Lemma added_filter fs : forall ws gs, NoDup fs.*1 -> (forall x g, x ∈ fs -> g ∈ gs -> x.1 <> g.1) ->
  added (ws ++ gs) fs = filter (fun x => known ws x = false) fs.
Proof.
  induction fs as [|x fs IH]; intros ws gs Hnd Hne; [done|]. rewrite fmap_cons in Hnd. apply list.NoDup_cons in Hnd as [Hx Hnd].
  cbn [added]. rewrite known_app, filter_cons.
  assert (known gs x = false) as ->.
  { apply not_true_iff_false. rewrite known_iff. intros (g & Hg & E & _). apply (Hne x g); [by left|done|done]. }
  rewrite orb_false_r. destruct (known ws x) eqn:Ek; [rewrite decide_False by done|rewrite decide_True by done].
  - apply IH; [done|]. intros y g Hy. apply Hne. by right.
  - f_equal. rewrite <- app_assoc. apply IH; [done|]. intros y g Hy Hg. apply elem_of_app in Hg as [Hg|Hg].
    + apply Hne; [by right|done].
    + apply list_elem_of_singleton in Hg as ->. intros E. apply Hx, list_elem_of_fmap. exists y. done.
Qed.

Lemma holds_app_r h h' ps fts : holds h ps fts -> holds (h ++ h') ps fts.
Proof. intros Hh. eapply Forall2_impl; [|exact Hh]. intros p f Hp. by apply lookup_app_l_Some. Qed.

Lemma mergeFields_spec others fs : Forall2 stands others fs -> forall k h ty cur gs,
  holds h (PdxType.m_pdxFieldTypes ty) cur -> Forall2 stands cur gs ->
  exists news, PdxType.mergeFields others k (h, ty) =
      Ok (k + var_count (added gs fs), (h ++ news, with_fields (seq (length h) (length news)) ty)) /\
    anon <$> news = anon <$> collected (Z.of_nat (length gs)) k (added gs fs).
Proof.
  induction 1 as [|f x others fs Hf _ IH]; intros k h ty cur gs Hh Hst.
  { exists []. split; [|done]. cbn [PdxType.mergeFields added length seq]. unfold with_fields. rewrite !app_nil_r.
    change (var_count []) with 0. rewrite Z.add_0_r. by destruct ty. }
  cbn [PdxType.mergeFields added]. unfold mbind at 1, ST_bind at 1, st_get. cbn [fst snd].
  assert (Ecur : PdxType.fields h ty = cur) by apply (holds_fields _ _ _ Hh). rewrite Ecur.
  rewrite (existsb_stands _ _ _ _ Hst Hf). destruct (known gs x); [by apply (IH k h ty cur gs)|].
  pose proof Hf as (Hn & Ht & Hv & Hs). destruct x as [name v]. cbn [fst snd] in *.
  set (newFt := PdxFieldType.construct _ _ _ _ _ _ _).
  assert (Hnew : stands newFt (name, v)) by (subst newFt; by unfold stands).
  assert (Htot : PdxType.getTotalFields ty = Z.of_nat (length gs))
    by (unfold PdxType.getTotalFields; by rewrite (Forall2_length Hh), (Forall2_length Hst)).
  set (k' := if isVar v then k + 1 else k).
  destruct (IH k' (h ++ [newFt]) (with_fields [length h] ty) (cur ++ [newFt]) (gs ++ [(name, v)])) as (news & E & Ha).
  { cbn. apply Forall2_app; [by apply holds_app_r|]. constructor; [|constructor]. by apply list_lookup_middle. }
  { apply Forall2_app; [done|]. by constructor. }
  exists (newFt :: news). split.
  - unfold mbind, ST_bind, st_put. rewrite Hv. fold k'. change (PdxType.mk (PdxType.m_pdxFieldTypes ty ++ [length h]) _ _ _ _ _ _ _ _ _ _ _) with (with_fields [length h] ty).
    rewrite E. rewrite <- app_assoc. cbn [app length seq]. do 2 f_equal.
    + unfold var_count at 2. rewrite filter_cons. cbn [snd]. subst k'. unfold var_count.
      destruct (isVar v); [rewrite decide_True by done|rewrite decide_False by done]; cbn [length]; lia.
    + f_equal. rewrite length_app. cbn [length]. unfold with_fields. cbn. rewrite <- app_assoc. cbn [app].
      by replace (length h + 1)%nat with (S (length h)) by lia.
  - cbn [collected]. rewrite !fmap_cons. f_equal.
    + subst newFt. unfold anon, PdxFieldType.construct. cbn. by rewrite Hn, Ht, Hv, Hs, Htot.
    + rewrite Ha, length_app. cbn [length]. subst k'.
      by replace (Z.of_nat (length gs + 1)) with (Z.of_nat (length gs) + 1) by lia.
Qed.

Context `{AllocatorOk} (to_utf16 : list Z -> outcome (list Z)).
Context (writeObj : O -> ST DataOutput.t unit) (readObj : ST DataInput.t O) (obj_ok : O -> Prop).
Context `{!Codec writeObj readObj obj_ok}.
Abbreviation woven := (woven to_utf16 writeObj readObj obj_ok).
Abbreviation preserved := (preserved to_utf16 writeObj readObj obj_ok).

Lemma mark_unread ws x : unread (mark ws x) = negb (known ws x).
Proof. unfold mark. destruct (known ws x); [done|]. by destruct (isVar x.2). Qed.

Lemma unequal_all g x ls ws : stands g x -> Forall2 stands ls ws -> (forall w, w ∈ ws -> same x w <> true) ->
  Forall (fun f => PdxFieldType.equals g f = false) ls.
Proof.
  intros Hg Hl Hne. induction Hl as [|l w ls ws Hw _ IH]; constructor.
  - rewrite (equals_stands _ _ _ _ Hg Hw). apply not_true_iff_false. intros Hs. apply (Hne w); [by left|].
    apply same_iff in Hs. apply same_iff. intuition congruence.
  - apply IH. intros y Hy. apply Hne. by right.
Qed.

(** The remaining local fields [ws'] are found in the remaining fields [fs] in order. *)
Lemma woven_contained ws fs : forall rfs ls ws', Forall2 stands rfs fs -> Forall2 stands ls ws' ->
  PdxType.isContains rfs ls = true -> NoDup ws.*1 -> NoDup fs.*1 -> NoDup ws'.*1 -> (forall w, w ∈ ws' -> w ∈ ws) ->
  (forall x, x ∈ fs -> known ws x = true -> known ws' x = true) ->
  woven (mark ws <$> fs) (overwrite ws <$> fs) ws'.*2 (preserved (mark ws <$> fs) fs).
Proof.
  induction fs as [|x fs IH]; intros rfs ls ws' Hr Hl Hc Hnw Hnf Hnw' Hsub Hrest.
  { apply Forall2_nil_inv_r in Hr as ->. destruct Hl as [|f w ls ws' Hw Hl]; [done|]. done. }
  apply Forall2_cons_inv_r in Hr as (g & rfs' & Hg & Hr & ->). rewrite fmap_cons in Hnf. apply list.NoDup_cons in Hnf as [Hx Hnf].
  assert (Hdup : forall y, known fs y = true -> y.1 <> x.1).
  { intros y Hy E. apply known_iff in Hy as (z & Hz & Ez & _). apply Hx. apply list_elem_of_fmap. exists z. split; [congruence|done]. }
  rewrite !fmap_cons. cbn [PdxUnreadFacts.preserved PdxUnreadFacts.woven]. rewrite mark_unread. unfold mark at 1 3.
  destruct (known ws x) eqn:Ek; cbn [negb Z.eqb Pos.eqb].
  - (* the next local field is this one *)
    pose proof (Hrest x (list_elem_of_here _ _) Ek) as Hkx. apply known_iff in Hkx as (w & Hw & Hwn & Hwk).
    destruct Hl as [|l0 w0 ls ws' Hl0 Hl]; [by apply elem_of_nil in Hw|]. rewrite fmap_cons in Hnw'. apply list.NoDup_cons in Hnw' as [Hw0 Hnw'].
    pose proof (equals_stands g l0 x w0 Hg Hl0) as Eq.
    destruct (same w0 x) eqn:Es.
    2: { exfalso. assert (Hc' : PdxType.isContains rfs' (l0 :: ls) = true) by (cbn [PdxType.isContains] in Hc |- *; by rewrite seek_skip in Hc).
         pose proof (contains_In (l0 :: ls) rfs' fs (w0 :: ws') Hr ltac:(by constructor) Hc') as Hall. rewrite Forall_forall in Hall.
         apply (Hdup w); [apply Hall; by apply list_elem_of_In|done]. }
    apply same_iff in Es as [En Ekd].
    assert (Eo : overwrite ws x = w0) by (apply overwrite_known; [done|apply Hsub; by left|apply same_iff; done]).
    rewrite Eo. split; [done|]. rewrite contains_match in Hc by done.
    apply (IH rfs' ls ws'); try done.
    + rewrite contains_skip in Hc; [done|]. apply (unequal_all _ x _ ws' Hg Hl). intros y Hy Hs. apply same_iff in Hs as [Hs _].
      apply Hw0, list_elem_of_fmap. exists y. split; [congruence|done].
    + intros y Hy. apply Hsub. by right.
    + intros y Hy Hky. pose proof (Hrest y (list_elem_of_further _ _ _ Hy) Hky) as Hk'. rewrite known_cons in Hk'.
      apply orb_true_iff in Hk' as [Hs|Hk']; [|done]. apply same_iff in Hs as [Hs _]. destruct Hx. apply list_elem_of_fmap. exists y. split; [congruence|done].
  - assert (Hskip : Forall (fun f => PdxFieldType.equals g f = false) ls).
    { apply (unequal_all _ x _ ws' Hg Hl). intros y Hy Hs. apply same_iff in Hs as [Hs1 Hs2].
      assert (known ws x = true); [|congruence]. apply known_iff. eauto. }
    rewrite contains_skip in Hc by done.
    assert (Hw : woven (mark ws <$> fs) (overwrite ws <$> fs) ws'.*2 (preserved (mark ws <$> fs) fs)).
    { apply (IH rfs' ls ws'); try done. intros y Hy. apply Hrest. by right. }
    rewrite (overwrite_unknown ws x Ek). 
    destruct (isVar x.2) eqn:Ev; cbn [Z.eqb]; (split; [unfold mark; by rewrite Ek, Ev|done]).
Qed.

Lemma preserved_filter ws fs : preserved (mark ws <$> fs) fs =
  (fun x => s8 <$> enc_value to_utf16 writeObj readObj obj_ok x.2) <$> filter (fun x => known ws x = false) fs.
Proof.
  induction fs as [|x fs IH]; [done|]. rewrite fmap_cons, filter_cons. cbn [PdxUnreadFacts.preserved]. rewrite mark_unread, IH.
  destruct (known ws x); [by rewrite decide_False by done|by rewrite decide_True by done].
Qed.

Lemma woven_extras ws ext : Forall (fun x => known ws x = false) ext ->
  woven (mark ws <$> ext) ext [] ((fun x => s8 <$> enc_value to_utf16 writeObj readObj obj_ok x.2) <$> ext).
Proof.
  induction 1 as [|x ext Hx _ IH]; [done|]. rewrite !fmap_cons. cbn [PdxUnreadFacts.woven]. 
  assert (Em : mark ws x = if isVar x.2 then -1 else -2) by (unfold mark; by rewrite Hx). rewrite Em. by destruct (isVar x.2).
Qed.

Lemma woven_locals ws ws' ext ps : Forall (fun x => known ws x = true) ws' -> woven (mark ws <$> ext) ext [] ps ->
  woven (mark ws <$> ws' ++ ext) (ws' ++ ext) ws'.*2 ps.
Proof.
  induction 1 as [|x ws' Hx _ IH]; [done|]. intros Hw. cbn [app]. rewrite !fmap_cons. cbn [PdxUnreadFacts.woven]. unfold mark at 1. rewrite Hx.
  cbn. auto.
Qed.

Lemma woven_lengths m gs vs ps : woven m gs vs ps -> length gs = (length vs + length ps)%nat.
Proof.
  revert gs vs ps. induction m as [|z m IH]; intros [|g gs] vs ps Hw; try done.
  - by destruct Hw as [-> ->].
  - cbn in Hw. destruct (z =? 1).
    + destruct vs as [|v vs]; [done|]. destruct Hw as [_ Hw]. cbn [length]. rewrite (IH _ _ _ Hw). lia.
    + destruct Hw as [_ Hw]. destruct ps as [|q ps]; [done|]. destruct Hw as [_ Hw]. cbn [length]. rewrite (IH _ _ _ Hw). lia.
Qed.

(** A local field that the sender does not have makes the merged type longer than the sender's. *)
Lemma filter_split ws fs : (length (filter (fun x => known ws x = false) fs) + length (filter (fun x => known ws x = true) fs) = length fs)%nat.
Proof.
  induction fs as [|x fs IH]; [done|]. rewrite !filter_cons. destruct (known ws x);
    [rewrite decide_False, decide_True by done|rewrite decide_True, decide_False by done]; cbn [length]; lia.
Qed.

Lemma merged_longer ws fs w : NoDup ws.*1 -> NoDup fs.*1 -> w ∈ ws -> known fs w = false ->
  (length fs < length ws + length (filter (fun x => known ws x = false) fs))%nat.
Proof.
  intros Hw Hf Hin Hk. pose proof (filter_split ws fs) as Hsp.
  enough (length (filter (fun x => known ws x = true) fs) < length ws)%nat by lia.
  rewrite <- (length_fmap fst (filter _ fs)), <- (length_fmap fst ws).
  assert (Hsub : (w.1 :: (filter (fun x => known ws x = true) fs).*1) ⊆+ ws.*1).
  { apply NoDup_submseteq.
    - apply list.NoDup_cons. split.
      + intros E. apply list_elem_of_fmap in E as (x & E & Hx). apply list_elem_of_filter in Hx as [Hkx Hx].
        apply known_iff in Hkx as (w' & Hw' & E1 & E2).
        assert (w' = w) as ->. { apply list_elem_of_lookup_1 in Hw' as (i & Hi). apply list_elem_of_lookup_1 in Hin as (j & Hj).
          assert (i = j) as ->; [|congruence]. apply (NoDup_lookup ws.*1 i j w.1 Hw); rewrite list_lookup_fmap, ?Hi, ?Hj; cbn; congruence. }
        assert (known fs w = true); [|congruence]. apply known_iff. exists x. split_and!; [done|congruence|done].
      + apply (sublist_NoDup _ fs.*1); [done|]. apply (fmap_sublist fst), sublist_filter.
    - intros n Hn. apply list_elem_of_fmap. apply elem_of_cons in Hn as [->|Hn]; [eauto|].
      apply list_elem_of_fmap in Hn as (x & -> & Hx). apply list_elem_of_filter in Hx as [Hkx _].
      apply known_iff in Hkx as (w' & Hw' & E & _). exists w'. split; [congruence|done]. }
  apply submseteq_length in Hsub. cbn [length] in Hsub. lia.
Qed.

(** *** [createMergedType] *)

Lemma collected_like fs gs : forall n k, Forall2 (fun x g => x.1 = g.1 /\ kindOf x.2 = kindOf g.2) fs gs ->
  anon <$> collected n k fs = anon <$> collected n k gs /\ var_count fs = var_count gs.
Proof.
  intros n k Hf. revert n k. induction Hf as [|[name v] [name' v'] fs gs [E1 E2] _ IH]; intros n k; [done|]. cbn [fst snd] in *. subst name'.
  assert (Ev : isVar v = isVar v') by (unfold isVar; by rewrite E2).
  change ((name, v) :: fs) with ([(name, v)] ++ fs). change ((name, v') :: gs) with ([(name, v')] ++ gs).
  rewrite !var_count_app, !var_count_one. cbn [app collected]. rewrite !fmap_cons, Ev, E2.
  destruct (IH (n + 1) (if isVar v' then k + 1 else k)) as [-> ->]. done.
Qed.

Lemma describes_like h ty fs gs fts : describes h ty fs fts ->
  Forall2 (fun x g => x.1 = g.1 /\ kindOf x.2 = kindOf g.2) fs gs -> describes h ty gs fts.
Proof.
  intros [H1 H2 H3 H4 H5] Hf. destruct (collected_like fs gs 0 0 Hf) as [Ea Ev]. constructor; try done; [congruence..|].
  intros i name v p Hi Hp. destruct (lookup_lt_is_Some_2 fs i) as [[name' v'] Hx].
  { rewrite (Forall2_length Hf). by eapply lookup_lt_Some. }
  destruct (Forall2_lookup_lr _ _ _ _ _ _ Hf Hx Hi) as [E _]. cbn in E. subst name'. by eapply H5.
Qed.

Lemma overwrite_same ws x : x.1 = (overwrite ws x).1 /\ kindOf x.2 = kindOf (overwrite ws x).2.
Proof.
  unfold overwrite. destruct (list_find (fun w => same x w = true) ws) as [[i w]|] eqn:E; [|done].
  apply list_find_Some in E as (_ & Hs & _). apply same_iff in Hs. intuition congruence.
Qed.

Lemma describes_frame h h' ty fs fts : describes h ty fs fts ->
  (forall p, p ∈ PdxType.m_pdxFieldTypes ty -> h' !! p = h !! p) -> describes h' ty fs fts.
Proof. intros [H1 H2 H3 H4 H5] Hp. constructor; try done. by apply (holds_ext h). Qed.

Lemma described_valid h ty fs fts p : describes h ty fs fts -> p ∈ PdxType.m_pdxFieldTypes ty -> (p < length h)%nat.
Proof.
  intros Hd Hp. apply list_elem_of_lookup_1 in Hp as (i & Hi).
  destruct (Forall2_lookup_l _ _ _ _ _ (de_holds _ _ _ _ Hd) Hi) as (f & _ & Hf). by eapply lookup_lt_Some.
Qed.

Lemma entriesEq_refl h xs : (forall n p, (n, p) ∈ xs -> is_Some (h !! p)) -> PdxMerge.entriesEq h xs xs = Ok true.
Proof.
  induction xs as [|[n p] xs IH]; intros Hv; [done|]. cbn [PdxMerge.entriesEq].
  destruct (Hv n p) as [f ->]; [by left|]. unfold PdxMerge.fieldEq. rewrite !bool_decide_eq_true_2 by done. cbn.
  apply IH. intros n' p' Hin. apply (Hv n'). by right.
Qed.

Lemma typeEq_refl h ty : (forall n p, PdxType.m_fieldNameVsPdxType ty !! n = Some p -> is_Some (h !! p)) -> PdxMerge.typeEq h ty ty = Ok true.
Proof.
  intros Hv. unfold PdxMerge.typeEq. rewrite bool_decide_eq_true_2, Bool.eqb_reflx, Z.eqb_refl by done. cbn [negb].
  apply entriesEq_refl. intros n p Hin. unfold PdxMerge.entries in Hin.
  rewrite sorting.merge_sort_Permutation in Hin. apply elem_of_map_to_list in Hin. eauto.
Qed.

Lemma typeEq_total h a b : PdxType.getTotalFields a <> PdxType.getTotalFields b -> PdxMerge.typeEq h a b = Ok false.
Proof.
  intros Hne. unfold PdxMerge.typeEq. repeat case_match; try done. 
  destruct (Z.eqb_spec (PdxType.getTotalFields a) (PdxType.getTotalFields b)); done.
Qed.

(** What the merged type [mv] says of the object [gs] that is written back. *)
Record merged_object ws fs h (mv : PdxType.t) gs : Prop := {
  mo_described : exists fts, describes h mv gs fts;
  mo_woven : exists m, PdxType.m_remoteToLocalFieldMap mv = Some m /\ woven m gs ws.*2 (preserved (mark ws <$> fs) fs);
  mo_kept : forall x, x ∈ fs -> known ws x = false -> x ∈ gs;
  mo_written : forall w, w ∈ ws -> w ∈ gs;
  mo_only : forall g, g ∈ gs -> g ∈ ws \/ g ∈ fs;
  mo_names : NoDup gs.*1
}.

Lemma mergedType_names ws fs : NoDup ws.*1 -> NoDup fs.*1 ->
  (forall x w, x ∈ fs -> w ∈ ws -> x.1 = w.1 -> kindOf x.2 = kindOf w.2) ->
  NoDup (ws ++ filter (fun x => known ws x = false) fs).*1.
Proof.
  intros Hw Hf Htypes. rewrite fmap_app. apply list.NoDup_app. split_and!; [done| |].
  - intros n Hn Hn'. apply list_elem_of_fmap in Hn as (w & -> & Hin). apply list_elem_of_fmap in Hn' as (x & E & Hx).
    apply list_elem_of_filter in Hx as [Hk Hx]. assert (known ws x = true); [|congruence].
    apply known_iff. exists w. split_and!; [done|done|]. symmetry. by apply Htypes.
  - apply (sublist_NoDup _ fs.*1); [done|]. apply (fmap_sublist fst), sublist_filter.
Qed.

Section Create.
Context h (lty : PdxType.t) ws (lfts : list PdxFieldType.t) (rty : PdxType.t) fs (fts : list PdxFieldType.t) (nid : Z).
Hypothesis Hl : describes h lty ws lfts.
Hypothesis Hr : describes h rty fs fts.
Hypothesis Hnw : NoDup ws.*1.
Hypothesis Hnf : NoDup fs.*1.
Hypothesis Hdisj : forall p, p ∈ PdxType.m_pdxFieldTypes rty -> p ∉ PdxType.m_pdxFieldTypes lty.
Hypothesis Hvalid : forall n p, PdxType.m_fieldNameVsPdxType rty !! n = Some p -> is_Some (h !! p).
Hypothesis Hmap : PdxType.m_remoteToLocalFieldMap rty = Some (mark ws <$> fs).
Hypothesis Hextra : exists x, x ∈ fs /\ known ws x = false.

Lemma totals : PdxType.getTotalFields lty = Z.of_nat (length ws) /\ PdxType.getTotalFields rty = Z.of_nat (length fs).
Proof.
  unfold PdxType.getTotalFields. by rewrite (described_pointers h lty ws lfts Hl), (described_pointers h rty fs fts Hr).
Qed.

Lemma not_local : PdxType.isContains (PdxType.fields h lty) (PdxType.fields h rty) = false.
Proof.
  apply not_true_iff_false. intros Hc. destruct Hextra as (x & Hx & Hk).
  pose proof (contains_In _ _ _ _ (described_stands _ _ _ _ Hl) (described_stands _ _ _ _ Hr) Hc) as Hall.
  rewrite Forall_forall in Hall. rewrite (Hall x) in Hk; [done|by apply list_elem_of_In].
Qed.

Lemma extras_nonempty : (0 < length (filter (fun x => known ws x = false) fs))%nat.
Proof.
  destruct Hextra as (x & Hx & Hk). destruct (filter (fun x => known ws x = false) fs) eqn:E; [|cbn; lia].
  assert (Hin : x ∈ filter (fun x => known ws x = false) fs) by (by apply list_elem_of_filter). rewrite E in Hin. by apply elem_of_nil in Hin.
Qed.

(** The sender's version contains the local one. *)
Lemma merge_contained : PdxType.isContains (PdxType.fields h rty) (PdxType.fields h lty) = true ->
  PdxMerge.createMergedType h lty rty nid = Ok (h, rty) /\ merged_object ws fs h rty (overwrite ws <$> fs).
Proof.
  intros Hc. pose proof (described_stands _ _ _ _ Hl) as Hsl. pose proof (described_stands _ _ _ _ Hr) as Hsr.
  assert (Hwo : woven (mark ws <$> fs) (overwrite ws <$> fs) ws.*2 (preserved (mark ws <$> fs) fs))
    by (apply (woven_contained ws fs _ _ ws Hsr Hsl); auto).
  pose proof (woven_lengths _ _ _ _ Hwo) as Hlen. rewrite !length_fmap, preserved_filter, length_fmap in Hlen.
  pose proof extras_nonempty as Hext. destruct totals as [T1 T2]. split.
  - unfold PdxMerge.createMergedType, PdxType.mergeVersion, mbind, outcome_bind. rewrite not_local, andb_false_r, Hc.
    rewrite (Forall2_length Hsl), (Forall2_length Hsr). destruct (Nat.leb_spec (length ws) (length fs)); [|lia]. cbn [andb].
    rewrite typeEq_total by lia. by rewrite typeEq_refl.
  - constructor.
    + exists fts. eapply describes_like; [done|]. apply Forall2_fmap_r, Forall2_same_length_lookup_2; [done|].
      intros i x y Hx Hy. simplify_eq. apply overwrite_same.
    + eauto.
    + intros x Hx Hk. apply list_elem_of_fmap. exists x. by rewrite overwrite_unknown.
    + intros w Hw. pose proof (contains_In _ _ _ _ Hsr Hsl Hc) as Hall. rewrite Forall_forall in Hall.
      assert (Hk : known fs w = true) by (apply Hall; by apply list_elem_of_In). apply known_iff in Hk as (x & Hx & E1 & E2).
      apply list_elem_of_fmap. exists x. split; [|done]. symmetry. apply overwrite_known; [done..|]. apply same_iff. done.
    + intros g Hg. apply list_elem_of_fmap in Hg as (x & -> & Hx). unfold overwrite.
      destruct (list_find (fun w => same x w = true) ws) as [[i w]|] eqn:E; [|by right].
      apply list_find_Some in E as (Hi & _). left. by eapply list_elem_of_lookup_2.
    + rewrite <- list_fmap_compose. rewrite (list_fmap_ext (fst ∘ overwrite ws) fst); [done|]. intros _ x _. symmetry. apply overwrite_same.
Qed.

(** A new type, when the local version has a field that the sender's has not. *)
Lemma merge_new : (forall x w, x ∈ fs -> w ∈ ws -> x.1 = w.1 -> kindOf x.2 = kindOf w.2) ->
  (exists w, w ∈ ws /\ known fs w = false) ->
  exists h2 mv, PdxMerge.createMergedType h lty rty nid = Ok (h2, mv) /\
    merged_object ws fs h2 mv (ws ++ filter (fun x => known ws x = false) fs) /\
    PdxType.m_geodeTypeId mv = nid /\ describes h2 rty fs fts.
Proof.
  intros Htypes (w0 & Hw0 & Hk0). pose proof (described_stands _ _ _ _ Hl) as Hsl. pose proof (described_stands _ _ _ _ Hr) as Hsr.
  set (ext := filter (fun x => known ws x = false) fs). pose proof (merged_longer ws fs w0 Hnw Hnf Hw0 Hk0) as Hlong. fold ext in Hlong.
  pose proof extras_nonempty as Hext. fold ext in Hext. destruct totals as [T1 T2].
  assert (Hc : PdxType.isContains (PdxType.fields h rty) (PdxType.fields h lty) = false).
  { apply not_true_iff_false. intros Hc. pose proof (contains_In _ _ _ _ Hsr Hsl Hc) as Hall. rewrite Forall_forall in Hall.
    rewrite (Hall w0) in Hk0; [done|by apply list_elem_of_In]. }
  assert (Hadd : added ws fs = ext).
  { rewrite <- (app_nil_r ws). apply added_filter; [done|]. intros x g _ Hg. by apply elem_of_nil in Hg. }
  assert (Hnames : NoDup (ws ++ ext).*1) by (by apply mergedType_names).
  pose proof (de_holds _ _ _ _ Hl) as Hhl.
  destruct (mergeFields_spec _ _ Hsr (PdxType.m_numberOfVarLenFields lty) h (PdxType.clone lty) (positions lfts) ws Hhl)
    as (news & Em & Ha).
  { rewrite <- (holds_fields _ _ _ Hhl : PdxType.fields h lty = positions lfts). done. }
  rewrite Hadd in Em, Ha. rewrite (de_number _ _ _ _ Hl) in Em, Ha.
  assert (Hln : length news = length ext) by (pose proof (f_equal length Ha) as E; by rewrite !length_fmap, length_collected in E).
  set (n := var_count ws + var_count ext) in Em.
  set (mv0 := PdxType.setVarLen n (if 0 <? n then n else 0) false (with_fields (seq (length h) (length news)) (PdxType.clone lty))).
  assert (Hps : PdxType.m_pdxFieldTypes mv0 = PdxType.m_pdxFieldTypes lty ++ seq (length h) (length news)) by done.
  assert (Hlt : forall p, p ∈ PdxType.m_pdxFieldTypes lty -> (p < length h)%nat) by (intros p; by apply (described_valid h lty ws lfts)).
  destruct (initialize_spec lty (h ++ news) mv0 (ws ++ ext) (positions lfts ++ news) ws)
    as (h2 & mv & E2 & Hd2 & Hid & Hcl & Hjava & Hframe & Hptrs & _ & Hrl & Hex & _).
  { rewrite Hps. apply Forall2_app; [by apply holds_app_r|]. apply Forall2_same_length_lookup_2; [by rewrite length_seq|].
    intros i p f Hp Hf. apply lookup_seq in Hp as [-> _]. rewrite lookup_app_r by lia. by replace (length h + i - length h)%nat with i by lia. }
  { rewrite Hps. apply list.NoDup_app. split_and!; [apply (de_nodup _ _ _ _ Hl)| |apply NoDup_seq].
    intros p Hp Hs. apply elem_of_seq in Hs. specialize (Hlt p Hp). lia. }
  { rewrite collected_app, !fmap_app, Ha, anon_positions, (de_like _ _ _ _ Hl). done. }
  { cbn. by rewrite var_count_app. }
  { intros i name v p q _ _. change (PdxType.m_fieldNameVsPdxType mv0) with (∅ : gmap (list Z) nat). by rewrite lookup_empty. }
  { done. }
  { assert (PdxType.fields (h ++ news) lty = PdxType.fields h lty) as ->; [|done].
    unfold PdxType.fields. rewrite (holds_fields _ _ _ (holds_app_r h news _ _ Hhl)). by rewrite (holds_fields _ _ _ Hhl). }
  exists h2, (PdxType.setTypeId nid mv). split; [|split_and!].
  - unfold PdxMerge.createMergedType, PdxType.mergeVersion, mbind, outcome_bind. rewrite not_local, andb_false_r, Hc, andb_false_r.
    rewrite (de_number _ _ _ _ Hl), Em. cbn [PdxType.m_varLenFieldIdx with_fields PdxType.clone PdxType.m_isVarLenFieldAdded]. fold mv0.
    assert (Tm : PdxType.getTotalFields mv0 = Z.of_nat (length ws + length ext)).
    { unfold PdxType.getTotalFields. rewrite Hps, length_app, length_seq, Hln, (described_pointers h lty ws lfts Hl). done. }
    rewrite !typeEq_total by lia. rewrite E2, Hid. done.
  - constructor.
    + exists (positions lfts ++ news). destruct Hd2. by constructor.
    + exists (mark ws <$> ws ++ ext). split; [done|]. apply woven_locals.
      * apply Forall_forall. intros w Hw. apply list_elem_of_In in Hw. apply known_iff. eauto.
      * rewrite preserved_filter. apply woven_extras. apply Forall_forall. intros x Hx. apply list_elem_of_In in Hx.
        by apply list_elem_of_filter in Hx as [Hk _].
    + intros x Hx Hk. apply elem_of_app. right. by apply list_elem_of_filter.
    + intros w Hw. apply elem_of_app. by left.
    + intros g Hg. apply elem_of_app in Hg as [Hg|Hg]; [by left|right]. by apply list_elem_of_filter in Hg as [_ Hg].
    + done.
  - done.
  - eapply describes_frame; [exact Hr|]. intros p Hp. rewrite Hframe.
    + apply lookup_app_l. by apply (described_valid h rty fs fts).
    + rewrite Hps, elem_of_app, elem_of_seq. intros [Hp'|Hp']; [by apply (Hdisj p)|].
      pose proof (described_valid h rty fs fts p Hr Hp). lia.
Qed.
End Create.
End Merge.
