(* ===== verification/PdxClaims.v ===== *)
(** The contract of PDX serialization: an object that is written is read back, in order, by
    position and by name, and by a member that has another version of its class and gets the
    sender's type over the wire. *)
From S2P Require Import Prelude JavaModifiedUtf8 DataOutput DataOutputFacts DataInput DataInputFacts Serialization Utf8Strings PdxType PdxStreams PdxPreserve PdxPositions PdxWriting PdxReading PdxObjects PdxTypeWire PdxUnreadFacts PdxMergeFacts.
Import PdxLocalReader.

#[local] Arguments be_bytes : simpl never.

Section Claims.
Context `{AllocatorOk} {O : Type} (to_utf16 to_utf8 : list Z -> outcome (list Z)).
Context (writeObj : O -> ST DataOutput.t unit) (readObj : ST DataInput.t O) (nullObj : O) (obj_ok : O -> Prop).
Context `{!Codec writeObj readObj obj_ok}.

Abbreviation field := (list Z * PdxValue O)%type.
Abbreviation field_ok := (field_ok to_utf16 to_utf8 obj_ok).
Abbreviation stream := (stream to_utf16 writeObj readObj obj_ok).
Abbreviation stream_len := (stream_len to_utf16 writeObj readObj obj_ok).
Abbreviation serializePdx := (PdxObject.serializePdx to_utf16 writeObj).
Abbreviation serializeInstance := (PdxObject.serializeInstance to_utf16 writeObj).
Abbreviation deserializeLocal := (PdxObject.deserializeLocal to_utf8 readObj).
Abbreviation deserializeRemote := (PdxObject.deserializeRemote to_utf8 readObj nullObj).

Lemma deserialize_described local h ty tid fs fts before rest :
  describes h ty fs fts -> Forall field_ok fs -> Z.of_nat (length (before ++ stream tid fs ++ rest)) < 2 ^ 31 ->
  deserializeLocal local h ty (kindOf <$> fs.*2) (at_ before (stream tid fs ++ rest)) =
    Ok (normal <$> fs.*2, at_ (before ++ stream tid fs) rest).
Proof.
  intros Hd Hok Hz. unfold PdxObject.deserializeLocal.
  destruct (deserialize_with to_utf16 writeObj readObj obj_ok (readValue to_utf8 readObj) local h ty tid
    (kindOf <$> fs.*2) before fs rest fts Hd Hz) as (r & _ & Hr & _ & _ & _ & E).
  destruct (readAll_local to_utf16 to_utf8 writeObj readObj obj_ok fs r _ _ _ _ _ Hok Hr) as (r' & Er & Hr').
  rewrite E, Er, (reading_move to_utf16 writeObj readObj obj_ok _ _ _ _ _ _ Hr'). cbn [m_dataInput with_input].
  unfold stream. by rewrite <- !app_assoc.
Qed.



(** C11. An object of any fields, written by [serializePdx] behind whatever the output
    holds, is a sequence of bytes that the type collected on the way reads back: every value
    in order, the cursor behind the object, whatever comes before and after it. A null date
    comes back as the date -1. Writing the same values again with the type that is now known
    gives the same bytes. *)
Theorem pdx_roundtrip cls tid (fs : list field) d pre h local before rest :
  wf d -> out_is d pre -> NoDup fs.*1 -> Forall field_ok fs ->
  Z.of_nat (length pre) + stream_len fs + 64 < 2 ^ 31 ->
  Z.of_nat (length before + length rest) + stream_len fs + 64 < 2 ^ 31 ->
  exists d' h' ty d'' bytes,
    serializePdx cls tid fs d h = Ok (d', h', ty) /\ out_is d' (pre ++ (Some <$> bytes)) /\
    serializeInstance ty fs.*2 d h' = Ok d'' /\ out_is d'' (pre ++ (Some <$> bytes)) /\
    deserializeLocal local h' ty (kindOf <$> fs.*2) (at_ before (bytes ++ rest)) =
      Ok (normal <$> fs.*2, at_ (before ++ bytes) rest).
Proof.
  intros Hwf Ho Hnd Hok Hlen Hin.
  destruct (serializePdx_spec to_utf16 to_utf8 writeObj readObj obj_ok cls tid fs d pre h Hwf Ho Hnd Hok Hlen)
    as (d' & h' & ty & E & _ & Ho' & Hd & Htid & _).
  destruct (serializeInstance_spec to_utf16 to_utf8 writeObj readObj obj_ok ty fs _ d pre h' Hwf Ho Hok Hd Hlen) as (d'' & E2 & _ & Ho2).
  rewrite Htid in Ho2. exists d', h', ty, d'', (stream tid fs). split_and!; try done.
  eapply deserialize_described; [done|done|].
  pose proof (length_stream to_utf16 writeObj readObj obj_ok tid fs). rewrite !length_app. lia.
Qed.

(** Every field can be read at any time: on the reader of an object, the position of a
    field is found by its index and by its name, through the offsets at the end of the object
    or from the fields of fixed size around it, and reading there gives the value of the
    field and leaves the reader as it was. *)
Theorem pdx_random_access cls tid (fs : list field) d pre h local before rest :
  wf d -> out_is d pre -> NoDup fs.*1 -> Forall field_ok fs ->
  Z.of_nat (length pre) + stream_len fs + 64 < 2 ^ 31 ->
  Z.of_nat (length before + length rest) + stream_len fs + 64 < 2 ^ 31 ->
  exists d' h' ty body r,
    serializePdx cls tid fs d h = Ok (d', h', ty) /\
    out_is d' (pre ++ (Some <$> be_bytes 4 (stream_len fs) ++ be_bytes 4 tid ++ body)) /\
    construct local h' ty (stream_len fs) (at_ before (body ++ rest)) = Ok r /\
    forall i name v, fs !! i = Some (name, v) -> exists p,
      PdxRemoteReader.position h' (Z.of_nat i) r = Ok (p, r) /\
      PdxType.getFieldPosition_name h' (m_pdxType r) name (DataInput.buffer (m_dataInput r))
        (m_offsetsBuffer r) (m_offsetSize r) (m_serializedLength r) = Ok p /\
      PdxRemoteReader.readAt p (readValue to_utf8 readObj (kindOf v)) r = Ok (normal v, r).
Proof.
  intros Hwf Ho Hnd Hok Hlen Hin.
  destruct (serializePdx_spec to_utf16 to_utf8 writeObj readObj obj_ok cls tid fs d pre h Hwf Ho Hnd Hok Hlen)
    as (d' & h' & ty & E & _ & Ho' & Hd & Htid & _).
  pose proof (length_body to_utf16 writeObj readObj obj_ok fs) as Hb.
  assert (Hz : Z.of_nat (length (before ++ enc_fields to_utf16 writeObj readObj obj_ok fs ++ table to_utf16 writeObj readObj obj_ok fs ++ rest)) < 2 ^ 31)
    by (rewrite (app_assoc (enc_fields _ _ _ _ fs)), !length_app in *; lia).
  destruct (construct_reader to_utf16 writeObj readObj obj_ok local h' ty before fs rest _ Hd Hz) as (r & Er & Hr & Hd' & _).
  eexists d', h', ty, _, r. split_and!; [done|exact Ho'|exact Er|].
  intros i name v Hi. exists (sum (take i (lens to_utf16 writeObj readObj obj_ok fs))).
  pose proof (reading_position to_utf16 to_utf8 writeObj readObj obj_ok _ _ _ _ _ _ h' _ i name v Hr Hd' Hok Hi) as Ep.
  assert (Hv : value_ok to_utf16 to_utf8 obj_ok v) by (eapply (Forall_lookup_1 _ _ _ _ Hok) in Hi; exact Hi).
  destruct (reading_readAt to_utf16 writeObj readObj obj_ok _ _ _ _ _ _ _ i name v _ Hr Hi (takes_value to_utf16 to_utf8 writeObj readObj obj_ok v Hv))
    as (r' & E2 & Hr' & Er').
  split_and!; [done| |].
  - destruct Hr as [Hri _ _ [Hl _] [Hsz Hob] _]. rewrite Hri, Hl, Hsz, Hob. unfold at_. cbn [DataInput.buffer]. rewrite app_nil_r.
    apply (described_position to_utf16 to_utf8 writeObj readObj obj_ok h' (m_pdxType r) fs _ Hd' Hok i name v _ _ _ Hi).
    by apply (body_table to_utf16 to_utf8).
  - rewrite E2. f_equal. f_equal. rewrite Er', (rd_input _ _ _ _ _ _ _ _ _ _ Hr'). cbn [app].
    rewrite <- (rd_input _ _ _ _ _ _ _ _ _ _ Hr : m_dataInput r = at_ (before ++ []) _). by destruct r.
Qed.

(** The type goes over the wire ahead of the objects: what [toData] writes of the type
    that was collected gives, with [fromData] on a member with any other types, a type with
    the same class and id and the same fields with the same numbers, which reads the object.
    The sizes are those of the buffers of both sides. *)
Theorem pdx_type_roundtrip cls tid (fs : list field) d pre h :
  wf d -> out_is d pre -> NoDup fs.*1 -> Forall field_ok fs ->
  Z.of_nat (length pre) + stream_len fs + 64 < 2 ^ 31 ->
  Forall (text_ok to_utf16 to_utf8) (cls :: PdxType.m_javaPdxClass :: fs.*1) -> in_s 32 tid ->
  Z.of_nat (length fs) < 2 ^ 31 - 1 ->
  exists d' h' ty bytes tbytes,
    serializePdx cls tid fs d h = Ok (d', h', ty) /\ out_is d' (pre ++ (Some <$> bytes)) /\
    (forall dt pret, wf dt -> out_is dt pret -> Z.of_nat (length pret + length tbytes) + 16 <= 2 ^ 60 ->
       exists dt', PdxType.toData to_utf16 h' ty dt = Ok (tt, dt') /\ out_is dt' (pret ++ (Some <$> tbytes))) /\
    (forall h2 local before rest, Z.of_nat (length (before ++ tbytes ++ rest)) < 2 ^ 62 ->
       exists h2' ty2,
         PdxType.fromData to_utf8 local h2 (PdxType.construct [] false true) (at_ before (tbytes ++ rest)) =
           Ok ((h2', ty2), at_ (before ++ tbytes) rest) /\
         PdxType.m_className ty2 = cls /\ PdxType.m_geodeTypeId ty2 = tid /\
         anon <$> PdxType.fields h2' ty2 = anon <$> PdxType.fields h' ty /\
         forall before2 rest2, Z.of_nat (length (before2 ++ bytes ++ rest2)) < 2 ^ 31 ->
           deserializeLocal local h2' ty2 (kindOf <$> fs.*2) (at_ before2 (bytes ++ rest2)) =
             Ok (normal <$> fs.*2, at_ (before2 ++ bytes) rest2)).
Proof.
  intros Hwf Ho Hnd Hok Hlen Htext Htid Hcount. apply Forall_cons_1 in Htext as [Hc Htext]. apply Forall_cons_1 in Htext as [Hj Htext].
  destruct (serializePdx_spec to_utf16 to_utf8 writeObj readObj obj_ok cls tid fs d pre h Hwf Ho Hnd Hok Hlen)
    as (d' & h' & ty & E & _ & Ho' & Hd & <- & <- & _ & Hidx & _).
  assert (Hnames : Forall (fun x : field => text_ok to_utf16 to_utf8 x.1) fs) by (rewrite Forall_fmap in Htext; exact Htext).
  exists d', h', ty, (stream (PdxType.m_geodeTypeId ty) fs), (wire to_utf16 ty (collected 0 0 fs)). split_and!; try done.
  - intros dt pret Hwt Hot Hl.
    destruct (emits_wire to_utf16 to_utf8 h' ty fs _ Hd Hnames Hc Hj Hcount dt pret Hwt Hot Hl) as (dt' & Et & _ & Hot' & _). eauto.
  - intros h2 local before rest Hz.
    destruct (reads_wire to_utf16 to_utf8 h' ty fs _ Hd Hidx Hnd Hnames Hc Hj Hcount Htid local h2 [] false true)
      as (h2' & ty2 & Hr & Hd2 & H1 & H2 & _). exists h2', ty2. split_and!; [by apply Hr|done|done| |].
    + unfold PdxType.fields. rewrite (holds_fields _ _ _ (de_holds _ _ _ _ Hd)), (holds_fields _ _ _ (de_holds _ _ _ _ Hd2)).
      by rewrite !anon_positions, <- (anon_positions (collected 0 0 fs)), <- list_fmap_compose.
    + intros before2 rest2 Hz2. by eapply deserialize_described.
Qed.

End Claims.

(** ** PDX objects by example: the theorems of [PdxClaims] on a concrete object, and the
    behaviours of merged and of very large types. *)
Module PdxExamples.
#[local] Existing Instance always_alloc.
#[local] Existing Instance always_alloc_ok.

(** ASCII strings and objects that are 32-bit integers. *)
Definition ascii (s : list Z) : outcome (list Z) := Ok s.

#[local] Instance int_codec : Codec DataOutput.writeInt_int32 DataInput.readInt32 (in_s 32) := {
  codec_enc z := be_bytes 4 (u32 z);
  codec_emits z _ := emits_writeInt_int32 z;
  codec_reads z Hz := reads_eq _ _ _ _ (reads_readInt32 (u32 z)) (wrapS_wrapU_id 32 z eq_refl Hz)
}.

Abbreviation serialize := (PdxObject.serializePdx ascii DataOutput.writeInt_int32).
Abbreviation stream_len := (stream_len ascii DataOutput.writeInt_int32 DataInput.readInt32 (in_s 32)).

Definition output : DataOutput.t := DataOutput.mk [Some 1] 1 8192 false 0.

Definition order : list (list Z * PdxValue Z) :=
  [(literal "c", VChar 65); (literal "s", VString (literal "ab")); (literal "i", VInt (-7)); (literal "o", VObject 5);
   (literal "d", VDate None); (literal "l", VLongArray [1; -1]); (literal "z", VByte 3)].

Lemma order_names : NoDup order.*1.
Proof. by apply (bool_decide_unpack _). Qed.

Lemma order_ok : Forall (field_ok ascii ascii (in_s 32)) order.
Proof. repeat constructor; done. Qed.

Lemma order_text : Forall (text_ok ascii ascii) (literal "Order" :: PdxType.m_javaPdxClass :: order.*1).
Proof. repeat constructor; done. Qed.

Lemma output_wf : wf output.
Proof. constructor; cbn; lia. Qed.

Lemma output_is : out_is output [Some 1].
Proof. done. Qed.

Lemma pdx_roundtrip_witness :
  exists d' h' ty d'' bytes,
    serialize (literal "Order") 7 order output [] = Ok (d', h', ty) /\ out_is d' ([Some 1] ++ (Some <$> bytes)) /\
    PdxObject.serializeInstance ascii DataOutput.writeInt_int32 ty order.*2 output h' = Ok d'' /\
    out_is d'' ([Some 1] ++ (Some <$> bytes)) /\
    PdxObject.deserializeLocal ascii DataInput.readInt32 None h' ty (kindOf <$> order.*2) (at_ [9] (bytes ++ [8])) =
      Ok (normal <$> order.*2, at_ ([9] ++ bytes) [8]).
Proof.
  apply (pdx_roundtrip ascii ascii DataOutput.writeInt_int32 DataInput.readInt32 (in_s 32));
    [exact output_wf|exact output_is|exact order_names|exact order_ok|by vm_compute|by vm_compute].
Defined.

(** The field "l" is behind two fields of variable length. *)
Lemma pdx_random_access_witness :
  exists d' h' ty body r p,
    serialize (literal "Order") 7 order output [] = Ok (d', h', ty) /\
    PdxLocalReader.construct None h' ty (stream_len order) (at_ [9] (body ++ [8])) = Ok r /\
    PdxRemoteReader.position h' 5 r = Ok (p, r) /\
    PdxRemoteReader.readAt p (PdxLocalReader.readValue ascii DataInput.readInt32 LONG_ARRAY) r = Ok (VLongArray [1; -1], r).
Proof.
  destruct (pdx_random_access ascii ascii DataOutput.writeInt_int32 DataInput.readInt32 (in_s 32)
    (literal "Order") 7 order output [Some 1] [] None [9] [8]) as (d' & h' & ty & body & r & E & _ & Er & Hall);
    [exact output_wf|exact output_is|exact order_names|exact order_ok|by vm_compute|by vm_compute|].
  destruct (Hall 5%nat (literal "l") (VLongArray [1; -1]) eq_refl) as (p & Ep & _ & Ev).
  exists d', h', ty, body, r, p. auto.
Defined.

Lemma pdx_type_roundtrip_witness :
  exists d' h' ty bytes tbytes,
    serialize (literal "Order") 7 order output [] = Ok (d', h', ty) /\ out_is d' ([Some 1] ++ (Some <$> bytes)) /\
    (forall before rest, Z.of_nat (length (before ++ tbytes ++ rest)) < 2 ^ 62 -> exists h2' ty2,
       PdxType.fromData ascii None [] (PdxType.construct [] false true) (at_ before (tbytes ++ rest)) =
         Ok ((h2', ty2), at_ (before ++ tbytes) rest) /\
       PdxType.m_className ty2 = literal "Order" /\ PdxType.m_geodeTypeId ty2 = 7).
Proof.
  destruct (pdx_type_roundtrip ascii ascii DataOutput.writeInt_int32 DataInput.readInt32 (in_s 32)
    (literal "Order") 7 order output [Some 1] []) as (d' & h' & ty & bytes & tbytes & E & Ho & _ & Hr);
    [exact output_wf|exact output_is|exact order_names|exact order_ok|by vm_compute|exact order_text|done|by vm_compute|].
  exists d', h', ty, bytes, tbytes. split_and!; [done|done|]. intros before rest Hz.
  destruct (Hr [] None before rest Hz) as (h2' & ty2 & E2 & H1 & H2 & _). eauto.
Defined.



(** *** Behaviours by example *)

(** A field of the receiver that is a primitive array and that the sender does not have. *)
Definition arrayed : list PdxFieldType.t := collected 0 0 ([(literal "x", VIntArray [])] : list (list Z * PdxValue Z)).

Example missing_array_throws : mapM (expect 0 order) arrayed = Throw StdOutOfRange.
Proof. reflexivity. Qed.

(** Two versions of a class on one member, and their merged type. *)
Definition versions : outcome (list PdxFieldType.t * PdxType.t * PdxType.t) :=
  '(_, h, ty1) ← serialize (literal "C") 1 [(literal "s", VString (literal "abc")); (literal "a", VInt 5)] output [];
  '(_, h, ty2) ← serialize (literal "C") 2 [(literal "s", VString []); (literal "t", VString [])] output h;
  Ok (h, ty1, ty2).

(** The bytes of an object of the first version without its header: "abc" and 5. *)
Definition body1 : list Z := [87; 0; 3; 97; 98; 99; 0; 0; 0; 5].

(** The position of "a" in such an object, before and after the types are merged. *)
Definition position_of_a : outcome (outcome Z * outcome Z * Z * Z) :=
  '(h, ty1, ty2) ← versions;
  let p h := PdxType.getFieldPosition h ty1 1 body1 10 1 10 in
  '(m, h') ← PdxType.mergeVersion h ty1 ty2;
  match m with
  | PdxType.New ty3 =>
    '(_, (h'', ty4)) ← PdxType.InitializeType None (h', ty3);
    Ok (p h, p h'', PdxType.m_numberOfVarLenFields ty4, PdxType.m_varLenFieldIdx ty4)
  | _ => Throw UndefinedBehaviour
  end.

(** The merged type shares the field objects of the local one, and [InitializeType] of the
    merged type stores its own positions in them: "a" was at 6, now its position is computed
    from the byte in front of the offsets. The merged type has two fields of variable length
    and says that the index of the last one is 2. *)
Theorem merge_moves_local_fields : position_of_a = Ok (Ok 6, Ok 1, 2, 2).
Proof. vm_compute. reflexivity. Qed.

(** [getSequenceId] returns 8 bits: with 257 fields the last one is taken for the first. *)
Definition many : list PdxFieldType.t :=
  collected 0 0 ((fun i => ([Z.of_nat i], VInt 0)) <$> seq 0 257 : list (list Z * PdxValue Z)).

Theorem many_fields_alias : PdxType.remoteField many <$> many !! 256%nat = Some 0.
Proof. vm_compute. reflexivity. Qed.
End PdxExamples.

(** *** Two versions of a class: a member that does not know all fields of an object writes it back
    without losing any. *)

Section Versions.
Context `{AllocatorOk} {O : Type} (to_utf16 to_utf8 : list Z -> outcome (list Z)).
Context (writeObj : O -> ST DataOutput.t unit) (readObj : ST DataInput.t O) (nullObj : O) (obj_ok : O -> Prop).
Context `{!Codec writeObj readObj obj_ok}.

Abbreviation field := (list Z * PdxValue O)%type.
Abbreviation enc_fields := (enc_fields to_utf16 writeObj readObj obj_ok).
Abbreviation enc_value := (enc_value to_utf16 writeObj readObj obj_ok).
Abbreviation field_ok := (field_ok to_utf16 to_utf8 obj_ok).
Abbreviation offsets := (offsets to_utf16 writeObj readObj obj_ok).
Abbreviation stream := (stream to_utf16 writeObj readObj obj_ok).
Abbreviation stream_len := (stream_len to_utf16 writeObj readObj obj_ok).
Abbreviation reading := (reading to_utf16 writeObj readObj obj_ok).
Abbreviation merged_object := (merged_object to_utf16 writeObj readObj obj_ok).
Implicit Types (fs gs ws : list field).

(** *** Sizes *)

Lemma enc_fields_submseteq gs hs : gs ⊆+ hs -> (length (enc_fields gs) <= length (enc_fields hs))%nat.
Proof.
  induction 1 as [|x gs hs _ IH|x y gs|x gs hs _ IH|gs1 gs2 gs3 _ IH1 _ IH2]; try done.
  - rewrite !enc_fields_cons, !length_app. lia.
  - rewrite !enc_fields_cons, !length_app. lia.
  - rewrite !enc_fields_cons, length_app. lia.
  - lia.
Qed.

Lemma merged_size ws fs gs : NoDup gs.*1 -> (forall g, g ∈ gs -> g ∈ ws \/ g ∈ fs) ->
  stream_len gs <= stream_len ws + stream_len fs + 4 * Z.of_nat (length ws + length fs).
Proof.
  intros Hnd Hin. assert (Hsub : gs ⊆+ ws ++ fs).
  { apply NoDup_submseteq; [by eapply NoDup_fmap_1|]. intros g Hg. apply elem_of_app. auto. }
  pose proof (enc_fields_submseteq _ _ Hsub) as Hl. rewrite enc_fields_app, length_app in Hl. apply submseteq_length in Hsub. rewrite length_app in Hsub.
  pose proof (stream_len_bound to_utf16 writeObj readObj obj_ok ws). pose proof (stream_len_bound to_utf16 writeObj readObj obj_ok fs).
  rewrite (stream_len_eq to_utf16 writeObj readObj obj_ok gs).
  assert (offset_size (stream_len gs) <= 4) by (unfold offset_size; repeat case_match; lia).
  assert (Hvc : Z.of_nat (length (offsets gs)) <= Z.of_nat (length gs)).
  { rewrite (length_offsets to_utf16 writeObj readObj obj_ok gs). unfold var_count.
    pose proof (length_filter (fun x : field => isVar x.2 = true) gs). lia. }
  nia.
Qed.

Lemma enc_fields_In fs x : x ∈ fs -> Forall (in_u 8) (enc_fields fs) -> Forall (in_u 8) (enc_value x.2).
Proof.
  intros Hx Hb. induction Hx as [x fs|x y fs _ IH]; rewrite enc_fields_cons in Hb; apply Forall_app in Hb as [H1 H2]; auto.
Qed.

Lemma merged_bytes ws fs gs : (forall g, g ∈ gs -> g ∈ ws \/ g ∈ fs) ->
  Forall (in_u 8) (enc_fields ws ++ enc_fields fs) -> Forall (in_u 8) (enc_fields gs).
Proof.
  intros Hin Hb. apply Forall_app in Hb as [Hw Hf]. induction gs as [|g gs IH]; [constructor|].
  rewrite enc_fields_cons. apply Forall_app. split; [|apply IH; intros; apply Hin; by right].
  destruct (Hin g (list_elem_of_here _ _)) as [Hg|Hg]; by eapply enc_fields_In.
Qed.

Lemma merged_ok ws fs gs : (forall g, g ∈ gs -> g ∈ ws \/ g ∈ fs) -> Forall field_ok ws -> Forall field_ok fs -> Forall field_ok gs.
Proof.
  intros Hin Hw Hf. apply Forall_forall. intros g Hg. apply list_elem_of_In in Hg.
  rewrite Forall_forall in Hw, Hf. destruct (Hin g Hg) as [H1|H1]; apply list_elem_of_In in H1; auto.
Qed.

(** *** Reading *)

Lemma construct_keeps local h ty len inp r a b : construct local h ty len inp = Ok r ->
  PdxType.m_localToRemoteFieldMap ty = Some a -> PdxType.m_remoteToLocalFieldMap ty = Some b ->
  m_pdxType r = ty /\ m_localToRemoteMap r = Some a /\ m_remoteToLocalMap r = Some b.
Proof.
  intros E Ha Hb. unfold construct, PdxType.getLocalToRemoteMap, PdxType.getRemoteToLocalMap, mbind, outcome_bind, ST_bind, st_get in E.
  cbn [snd] in E. rewrite Ha in E. cbn [mret ST_ret snd] in E. rewrite Hb in E. cbn in E. by injection E as <-.
Qed.

Lemma kinds_of h ty ws fts : describes h ty ws fts ->
  PdxFieldType.m_typeId <$> PdxType.fields h ty = kindOf <$> ws.*2 /\
  Forall (fun l => readable (PdxFieldType.m_typeId l)) (PdxType.fields h ty).
Proof.
  intros Hd. apply described_stands in Hd. induction Hd as [|f x ls ws (_ & Hk & _) _ [IH1 IH2]]; [done|]. split.
  - rewrite !fmap_cons, IH1, Hk. done.
  - constructor; [|done]. rewrite Hk. unfold readable. by destruct x.2.
Qed.

Section Member.
Context (h : list PdxFieldType.t) (lty : PdxType.t) ws (lfts : list PdxFieldType.t).
Context (rty : PdxType.t) fs (fts : list PdxFieldType.t).
Hypothesis Hl : describes h lty ws lfts.
Hypothesis Hr : describes h rty fs fts.
Hypothesis Hnw : NoDup ws.*1.
Hypothesis Hnf : NoDup fs.*1.
Hypothesis Hcount : (length fs <= 256)%nat.
Hypothesis Hdisj : forall p, p ∈ PdxType.m_pdxFieldTypes rty -> p ∉ PdxType.m_pdxFieldTypes lty.
Hypothesis Hvalid : forall n p, PdxType.m_fieldNameVsPdxType rty !! n = Some p -> (p < length h)%nat.
Hypothesis Hok : Forall field_ok fs.

(** The sender's type, initialized once more. *)
Lemma initialize_again : exists h1 rty1,
  PdxType.InitializeType (Some lty) (h, rty) = Ok (tt, (h1, rty1)) /\ describes h1 rty1 fs (positions fts) /\
  describes h1 lty ws lfts /\ PdxType.fields h1 lty = PdxType.fields h lty /\
  PdxType.m_pdxFieldTypes rty1 = PdxType.m_pdxFieldTypes rty /\ PdxType.m_geodeTypeId rty1 = PdxType.m_geodeTypeId rty /\
  PdxType.m_localToRemoteFieldMap rty1 = Some (PdxType.localToRemote (positions fts) (PdxType.fields h lty) (positions fts)) /\
  PdxType.m_remoteToLocalFieldMap rty1 = Some (mark ws <$> fs) /\
  PdxType.m_numberOfFieldsExtra rty1 = Z.of_nat (length (filter (fun x => known ws x = false) fs)) /\
  (forall n p, PdxType.m_fieldNameVsPdxType rty1 !! n = Some p -> is_Some (h1 !! p)).
Proof.
  destruct (initialize_spec lty h rty fs (positions fts) ws) as (h1 & rty1 & E & Hd1 & Hid & _ & _ & Hframe & Hp & Hl2r & Hr2l & Hex & Hn).
  { apply (de_holds _ _ _ _ Hr). }
  { apply (de_nodup _ _ _ _ Hr). }
  { rewrite anon_positions. apply (de_like _ _ _ _ Hr). }
  { apply (de_number _ _ _ _ Hr). }
  { intros i name v p q Hi Hp Hq. pose proof (de_names _ _ _ _ Hr i name v p Hi Hp). congruence. }
  { done. }
  { by eapply described_stands. }
  assert (Hl1 : describes h1 lty ws lfts).
  { eapply describes_frame; [exact Hl|]. intros p Hp'. apply Hframe. intros Hp''. by apply (Hdisj p). }
  assert (Hlen : (length h <= length h1)%nat).
  { destruct (decide (length h <= length h1)%nat); [done|]. exfalso.
    destruct (lookup_lt_is_Some_2 h (length h1)) as [f Hf]; [lia|].
    destruct (decide (length h1 ∈ PdxType.m_pdxFieldTypes rty)) as [Hin|Hin].
    - rewrite <- Hp in Hin. pose proof (described_valid h1 rty1 fs _ _ Hd1 Hin). lia.
    - specialize (Hframe _ Hin). rewrite Hf, lookup_ge_None_2 in Hframe; [done|lia]. }
  exists h1, rty1. split_and!; try done.
  - unfold PdxType.fields. by rewrite (holds_fields _ _ _ (de_holds _ _ _ _ Hl1)), (holds_fields _ _ _ (de_holds _ _ _ _ Hl)).
  - intros n p Hnp. apply lookup_lt_is_Some_2. destruct (Hn n p Hnp) as [Hold|Hin]; [specialize (Hvalid n p Hold); lia|].
    pose proof (described_valid h rty fs fts p Hr Hin). lia.
Qed.

(** Reading, up to the merge of the types. *)
Lemma receive tid before rest vs nid h2 mv :
  Z.of_nat (length (before ++ stream tid fs ++ rest)) < 2 ^ 31 -> mapM (expect nullObj fs) (PdxType.fields h lty) = Ok vs ->
  (exists x, x ∈ fs /\ known ws x = false) ->
  (forall h1 rty1, PdxType.InitializeType (Some lty) (h, rty) = Ok (tt, (h1, rty1)) ->
     PdxMerge.createMergedType h1 lty rty1 nid = Ok (h2, mv) /\ describes h2 rty1 fs (positions fts)) ->
  PdxVersions.deserialize to_utf8 readObj nullObj lty h rty nid false (kindOf <$> ws.*2) (at_ before (stream tid fs ++ rest)) =
    Ok (PdxVersions.mkReceived vs (Some (PdxRemotePreservedData.mk (preserved to_utf16 writeObj readObj obj_ok (mark ws <$> fs) fs)
          (PdxType.m_geodeTypeId rty) (PdxType.m_geodeTypeId mv))) mv h2,
        at_ (before ++ stream tid fs) rest).
Proof.
  intros Hz Hvs Hextra Hmerge. destruct (read_header to_utf16 writeObj readObj obj_ok tid fs before rest Hz) as [E1 E2].
  destruct initialize_again as (h1 & rty1 & Ei & Hd1 & Hl1 & Hfl & Hp1 & Hid1 & Hl2r & Hr2l & Hex & _).
  destruct (Hmerge h1 rty1 Ei) as [Em Hd2]. set (before' := before ++ be_bytes 4 (stream_len fs) ++ be_bytes 4 tid) in *.
  destruct (construct_reader to_utf16 writeObj readObj obj_ok (Some lty) h1 rty1 before' fs rest _ Hd1) as (r & Er & Hrd & Hdr & Hi & _).
  { unfold before'. unfold PdxWriting.stream in Hz. unfold PdxObjects.table. rewrite !length_app in Hz |- *. lia. }
  destruct (construct_keeps _ _ _ _ _ _ _ _ Er Hl2r Hr2l) as (Htr & Hmr & Hrr).
  destruct (kinds_of _ _ _ _ Hl1) as [Hk Hread].
  pose proof (readAll_remote to_utf16 to_utf8 writeObj readObj nullObj obj_ok h1 fs (positions fts) Hok Hnf Hcount
    (PdxType.fields h1 lty) 0 r before' rest Hread ltac:(lia)) as Hall.
  rewrite Hfl in Hall, Hk. rewrite Hvs, Hk in Hall.
  destruct Hall as (r1 & X & Y & Ea & Hr1).
  { exists rty1. split; [done|]. constructor; [done|by rewrite Htr|lia|]. eexists. split; [exact Hmr|]. rewrite Hi. cbn [Z.to_nat drop].
    change (drop 0 (PdxType.fields h1 rty1)) with (PdxType.fields h1 rty1). apply localToRemote_anon; (unfold PdxType.fields; rewrite (holds_fields _ _ _ (de_holds _ _ _ _ Hd1)); by rewrite !anon_positions). }
  destruct (keeps_readAll to_utf8 readObj nullObj h1 (kindOf <$> ws.*2) _ _ _ Ea) as (Ht1 & Hm1 & Hrm1).
  set (d0 := PdxRemotePreservedData.initialize (PdxType.m_geodeTypeId rty1) (PdxType.m_geodeTypeId mv) PdxRemotePreservedData.construct).
  destruct (preserve_spec to_utf16 to_utf8 writeObj readObj obj_ok h2 fs (positions fts) before' rest (mark ws <$> fs) Hok (length fs) 0 d0 r1 X Y Hr1)
    as (r2 & X2 & Y2 & Ep & Hr2); [rewrite Ht1, Htr; done|by rewrite Hrm1|by rewrite length_fmap|lia|].
  assert (Eg : PdxUnread.getPreservedData h2 (Some lty) false true mv r1 =
    Ok (Some (PdxRemotePreservedData.mk (preserved to_utf16 writeObj readObj obj_ok (mark ws <$> fs) fs) (PdxType.m_geodeTypeId rty) (PdxType.m_geodeTypeId mv)), r2)).
  { unfold PdxUnread.getPreservedData. rewrite Ht1, Htr, Hex.
    assert ((0 <? Z.of_nat (length (filter (fun x => known ws x = false) fs))) = true) as ->.
    { apply Z.ltb_lt. destruct Hextra as (x & Hx & Hkx). destruct (filter (fun x => known ws x = false) fs) eqn:E; [|cbn; lia].
      assert (Hin : x ∈ filter (fun x => known ws x = false) fs) by (by apply list_elem_of_filter). rewrite E in Hin. by apply elem_of_nil in Hin. }
    cbn [andb negb]. unfold PdxType.getLocalToRemoteMap, PdxType.getRemoteToLocalMap, mbind, outcome_bind, ST_bind, st_get. cbn [snd].
    rewrite Hl2r. cbn [mret ST_ret snd]. rewrite Hr2l. cbn [mret ST_ret snd].
    assert (mk (m_dataInput r1) rty1 (m_startBuffer r1) (m_startPosition r1) (m_serializedLength r1) (m_serializedLengthWithOffsets r1)
      (m_offsetSize r1) (m_offsetsBuffer r1) (Some (PdxType.localToRemote (positions fts) (PdxType.fields h lty) (positions fts)))
      (Some (mark ws <$> fs)) (m_currentIndex r1) = r1) as ->.
    { rewrite <- Hmr, <- Hm1, <- Hrr, <- Hrm1, <- Htr, <- Ht1. by destruct r1. }
    fold d0. rewrite (described_pointers h1 rty1 fs _ Hd1). change 0 with (Z.of_nat 0) at 1. rewrite Ep. cbn. by rewrite Hid1. }
  unfold PdxVersions.deserialize. rewrite (st_bind_ok _ _ _ _ _ E1), (st_bind_ok _ _ _ _ _ E2).
  unfold mbind, ST_bind, st_get, st_lift, st_put. rewrite Ei, Er, Ea, Ht1, Htr, Em, Eg.
  rewrite (reading_move to_utf16 writeObj readObj obj_ok _ _ _ _ _ _ Hr2). cbn [m_dataInput with_input mret ST_ret].
  unfold before', PdxWriting.stream, PdxObjects.table. by rewrite <- !app_assoc.
Qed.

(** C13. A member whose version of a class lacks fields of an object that it receives writes
    the object back without losing them: the bytes of the unknown fields are preserved when
    the object is read, and the remote writer puts them back in their places among the
    values that the member writes. The output is the stream of an object [gs] that has every
    field of the member with its new value and every unknown field with the sender's value,
    under the type that was merged from both versions, and that type reads it. This holds on
    these conditions: no field has another type in the other version; the sender's version has
    the fields of the local one in the same order ([isContains]), or the local one has a field
    of its own; the local version reads without an exception, so that it misses no primitive
    array. (With the same fields in another order the object is written in the wrong places:
    [reordered_fields_corrupt].) *)
Theorem pdx_unread_preserved tid before rest vs nid d pre :
  Forall field_ok ws -> Forall (in_u 8) (enc_fields ws ++ enc_fields fs) ->
  (forall x w, x ∈ fs -> w ∈ ws -> x.1 = w.1 -> kindOf x.2 = kindOf w.2) ->
  (exists x, x ∈ fs /\ known ws x = false) ->
  PdxType.isContains (PdxType.fields h rty) (PdxType.fields h lty) = true \/ (exists w, w ∈ ws /\ known fs w = false) ->
  mapM (expect nullObj fs) (PdxType.fields h lty) = Ok vs ->
  wf d -> out_is d pre ->
  Z.of_nat (length (before ++ stream tid fs ++ rest)) < 2 ^ 31 ->
  Z.of_nat (length pre) + stream_len ws + stream_len fs + 4 * Z.of_nat (length ws + length fs) + 64 < 2 ^ 31 ->
  exists rc gs d',
    PdxVersions.deserialize to_utf8 readObj nullObj lty h rty nid false (kindOf <$> ws.*2) (at_ before (stream tid fs ++ rest)) =
      Ok (rc, at_ (before ++ stream tid fs) rest) /\
    PdxVersions.values rc = vs /\
    PdxVersions.serialize to_utf16 writeObj lty ((fun pd => (pd, PdxVersions.merged rc)) <$> PdxVersions.preserved rc)
      ws.*2 d (PdxVersions.fieldTypes rc) = Ok d' /\
    out_is d' (pre ++ (Some <$> stream (PdxType.m_geodeTypeId (PdxVersions.merged rc)) gs)) /\
    (forall x, x ∈ fs -> known ws x = false -> x ∈ gs) /\ (forall w, w ∈ ws -> w ∈ gs) /\ NoDup gs.*1 /\
    PdxObject.deserializeLocal to_utf8 readObj (Some lty) (PdxVersions.fieldTypes rc) (PdxVersions.merged rc) (kindOf <$> gs.*2)
      (at_ [] (stream (PdxType.m_geodeTypeId (PdxVersions.merged rc)) gs)) =
      Ok (normal <$> gs.*2, at_ (stream (PdxType.m_geodeTypeId (PdxVersions.merged rc)) gs) []).
Proof.
  intros Hokw Hb Htypes Hextra Hcase Hvs Hwf Ho Hz Hlen.
  destruct initialize_again as (h1 & rty1 & Ei & Hd1 & Hl1 & Hfl & Hp1 & Hid1 & Hl2r & Hr2l & Hex & Hval1).
  assert (Hmerge : exists h2 mv gs, PdxMerge.createMergedType h1 lty rty1 nid = Ok (h2, mv) /\ merged_object ws fs h2 mv gs /\
    describes h2 rty1 fs (positions fts)).
  { assert (Hdj : forall p, p ∈ PdxType.m_pdxFieldTypes rty1 -> p ∉ PdxType.m_pdxFieldTypes lty) by (rewrite Hp1; exact Hdisj).
    destruct Hcase as [Hc|Hloc].
    - rewrite <- Hfl, <- (contains_anon (PdxType.fields h1 rty1)) in Hc.
      2: { unfold PdxType.fields. rewrite (holds_fields _ _ _ (de_holds _ _ _ _ Hd1)), (holds_fields _ _ _ (de_holds _ _ _ _ Hr)). by rewrite !anon_positions. }
      destruct (merge_contained to_utf16 writeObj readObj obj_ok h1 lty ws lfts rty1 fs _ nid Hl1 Hd1 Hnw Hnf Hval1 Hr2l Hextra Hc) as [E Hmo]. eauto 8.
    - destruct (merge_new to_utf16 writeObj readObj obj_ok h1 lty ws lfts rty1 fs _ nid Hl1 Hd1 Hnw Hnf Hdj Hextra Htypes Hloc)
        as (h2 & mv & E & Hmo & _ & Hd2). eauto 8. }
  destruct Hmerge as (h2 & mv & gs & Em & [(gfts & Hdg) (m & Hm & Hwo) Hkept Hwr Honly Hng] & Hd2).
  assert (Hrec : forall h1' rty1', PdxType.InitializeType (Some lty) (h, rty) = Ok (tt, (h1', rty1')) ->
    PdxMerge.createMergedType h1' lty rty1' nid = Ok (h2, mv) /\ describes h2 rty1' fs (positions fts))
    by (intros h1' rty1' E; rewrite Ei in E; by injection E as <- <-).
  pose proof (merged_size ws fs gs Hng Honly) as Hsz. pose proof (merged_ok ws fs gs Honly Hokw Hok) as Hokg.
  destruct (serialize_woven to_utf16 to_utf8 writeObj readObj obj_ok lty
    (PdxRemotePreservedData.mk (preserved to_utf16 writeObj readObj obj_ok (mark ws <$> fs) fs) (PdxType.m_geodeTypeId rty) (PdxType.m_geodeTypeId mv))
    mv h2 gs ws.*2 d pre m Hwf Ho Hm) as (d' & Es & _ & Ho'); [| |done|done|by apply (merged_bytes ws fs)|lia|].
  { unfold PdxType.getTotalFields. by rewrite (described_pointers h2 mv gs gfts Hdg). }
  { apply (de_number _ _ _ _ Hdg). }
  eexists _, gs, d'. split; [by apply receive with (vs := vs)|]. cbn [PdxVersions.values PdxVersions.preserved PdxVersions.merged PdxVersions.fieldTypes].
  split_and!; try done.
  pose proof (deserialize_described to_utf16 to_utf8 writeObj readObj obj_ok (Some lty) h2 mv (PdxType.m_geodeTypeId mv) gs gfts [] [] Hdg Hokg) as E.
  rewrite app_nil_r in E. apply E.
  pose proof (length_stream to_utf16 writeObj readObj obj_ok (PdxType.m_geodeTypeId mv) gs). cbn [app]. lia.
Qed.
End Member.
End Versions.

(** ** Two versions of a class by example: an object that goes through a member with an older
    version, and the case in which the two types are taken for the same although their
    fields are in another order. *)
Module PdxVersionExamples.
Import PdxExamples.

#[local] Existing Instance PdxFieldType.t_eq_dec.
#[local] Existing Instance always_alloc.
#[local] Existing Instance always_alloc_ok.
#[local] Existing Instance int_codec.

(** The object that arrives, and what the receiver writes: it knows "i" and has "q". *)
Definition arrived : list (list Z * PdxValue Z) :=
  [(literal "s", VString (literal "ab")); (literal "i", VInt 5); (literal "c", VInt 7)].
Definition written : list (list Z * PdxValue Z) := [(literal "i", VInt 9); (literal "q", VString (literal "xyz"))].

Definition objects : list PdxFieldType.t := positions (collected 0 0 written) ++ positions (collected 0 0 arrived).
Definition mine : PdxType.t :=
  PdxType.mk [0; 1]%nat (literal "C") 9 true 1 0 0 true None None {[ literal "i" := 0%nat; literal "q" := 1%nat ]} true.
Definition theirs : PdxType.t :=
  PdxType.mk [2; 3; 4]%nat (literal "C") 7 false 1 0 0 false None None
    {[ literal "s" := 2%nat; literal "i" := 3%nat; literal "c" := 4%nat ]} true.

Lemma mine_described : describes objects mine written (collected 0 0 written).
Proof.
  constructor; try done.
  - unfold holds. by apply (bool_decide_unpack _).
  - by apply (bool_decide_unpack _).
  - intros [|[|i]] name v p Hi Hp; cbn in Hi, Hp; simplify_eq; reflexivity.
Qed.

Lemma theirs_described : describes objects theirs arrived (collected 0 0 arrived).
Proof.
  constructor; try done.
  - unfold holds. by apply (bool_decide_unpack _).
  - by apply (bool_decide_unpack _).
  - intros [|[|[|i]]] name v p Hi Hp; cbn in Hi, Hp; simplify_eq; reflexivity.
Qed.

Lemma theirs_names n p : PdxType.m_fieldNameVsPdxType theirs !! n = Some p -> (p < length objects)%nat.
Proof.
  change (length objects) with 5%nat. cbn [PdxType.m_fieldNameVsPdxType theirs]. intros E.
  repeat (apply lookup_insert_Some in E as [[_ <-]|[_ E]]; [lia|]). apply lookup_singleton_Some in E as [_ <-]. lia.
Qed.

Lemma arrived_ok : Forall (field_ok ascii ascii (in_s 32)) arrived.
Proof. repeat constructor; done. Qed.

Lemma written_ok : Forall (field_ok ascii ascii (in_s 32)) written.
Proof. repeat constructor; done. Qed.

Lemma pdx_unread_preserved_witness :
  exists rc gs d',
    PdxVersions.deserialize ascii DataInput.readInt32 0 mine objects theirs 11 false [INT; STRING]
      (at_ [] (stream ascii DataOutput.writeInt_int32 DataInput.readInt32 (in_s 32) 7 arrived ++ [1])) =
      Ok (rc, at_ ([] ++ stream ascii DataOutput.writeInt_int32 DataInput.readInt32 (in_s 32) 7 arrived) [1]) /\
    PdxVersions.values rc = [VInt 5; VString []] /\
    PdxVersions.serialize ascii DataOutput.writeInt_int32 mine
      ((fun pd => (pd, PdxVersions.merged rc)) <$> PdxVersions.preserved rc) written.*2 output (PdxVersions.fieldTypes rc) = Ok d' /\
    out_is d' ([Some 1] ++ (Some <$> stream ascii DataOutput.writeInt_int32 DataInput.readInt32 (in_s 32)
                                       (PdxType.m_geodeTypeId (PdxVersions.merged rc)) gs)) /\
    (literal "s", VString (literal "ab")) ∈ gs /\ (literal "c", VInt 7) ∈ gs /\ (literal "i", VInt 9) ∈ gs.
Proof.
  destruct (pdx_unread_preserved ascii ascii DataOutput.writeInt_int32 DataInput.readInt32 0 (in_s 32)
    objects mine written _ theirs arrived _ mine_described theirs_described) with (tid := 7) (before := @nil Z) (rest := [1])
    (vs := [VInt 5; VString []] : list (PdxValue Z)) (nid := 11) (d := output) (pre := [Some 1])
    as (rc & gs & d' & E & Hv & Es & Ho & Hkept & Hwr & _).
  - by apply (bool_decide_unpack _).
  - by apply (bool_decide_unpack _).
  - cbn. lia.
  - intros p Hp Hq. cbn [PdxType.m_pdxFieldTypes theirs mine] in Hp, Hq. set_unfold in Hp. set_unfold in Hq. lia.
  - exact theirs_names.
  - exact arrived_ok.
  - exact written_ok.
  - by apply (bool_decide_unpack _).
  - intros x w Hx Hw. unfold arrived in Hx. unfold written in Hw. set_unfold in Hx. set_unfold in Hw.
    destruct Hx as [->|[->|[->|[]]]], Hw as [->|[->|[]]]; done.
  - exists (literal "s", VString (literal "ab")). split; [by left|done].
  - right. exists (literal "q", VString (literal "xyz")). split; [right; by left|done].
  - reflexivity.
  - exact output_wf.
  - exact output_is.
  - by vm_compute.
  - by vm_compute.
  - exists rc, gs, d'. split; [exact E|split; [exact Hv|split; [exact Es|split; [exact Ho|]]]].
    split; [|split].
    + apply Hkept; [by left|reflexivity].
    + apply Hkept; [right; right; by left|reflexivity].
    + apply Hwr. by left.
Defined.

(** *** Fields in another order *)

(** The receiver's class has "i" before "s"; the sender's has "s", "i" and "c". *)
Definition swapped : list (list Z * PdxValue Z) := [(literal "i", VInt 0); (literal "s", VString [])].

(** The object is sent, read by the receiver, which sets "i" to 9 and "s" to "xyz", and written
    back; the sender reads what comes back with its own type. *)
Definition through_swapped : outcome (list (PdxValue Z) * Z * outcome (list (PdxValue Z))) :=
  '(_, h, ty) ← serialize (literal "C") 7 arrived output [];
  '(_, out) ← PdxType.toData ascii h ty (DataOutput.mk [] 0 8192 false 0);
  tbytes ← match DataOutput.getBuffer out with Some b => Ok b | None => Throw UndefinedBehaviour end;
  '(_, lh, lty) ← serialize (literal "C") 9 swapped output [];
  '((rh, rty), _) ← PdxType.fromData ascii (Some lty) lh (PdxType.construct [] false true) (at_ [] tbytes);
  '(rc, _) ← PdxVersions.deserialize ascii DataInput.readInt32 0 lty rh rty 11 false [INT; STRING]
               (at_ [] (stream ascii DataOutput.writeInt_int32 DataInput.readInt32 (in_s 32) 7 arrived));
  back ← PdxVersions.serialize ascii DataOutput.writeInt_int32 lty
           ((fun pd => (pd, PdxVersions.merged rc)) <$> PdxVersions.preserved rc)
           [VInt 9; VString (literal "xyz")] (DataOutput.mk [] 0 8192 false 0) (PdxVersions.fieldTypes rc);
  bytes ← match DataOutput.getBuffer back with Some b => Ok b | None => Throw UndefinedBehaviour end;
  Ok (PdxVersions.values rc, PdxType.m_geodeTypeId (PdxVersions.merged rc),
      match PdxObject.deserializeLocal ascii DataInput.readInt32 None h ty [STRING; INT; INT] (at_ [] bytes) with
      | Ok (vs, _) => Ok vs
      | Throw e => Throw e
      end).

(** The new type has as many fields as the sender's and no names yet, so [operator==] takes
    them for equal and the object goes back under the sender's type, id 7, with its fields
    in the order of the receiver. The sender reads an empty string, 2391 and 227449
    instead of "xyz", 9 and 7. *)
Theorem reordered_fields_corrupt :
  through_swapped = Ok ([VInt 5; VString (literal "ab")], 7, Ok [VString []; VInt 2391; VInt 227449]).
Proof. vm_compute. reflexivity. Qed.
End PdxVersionExamples.
