(* ===== verification/ExceptionTypes.v ===== *)
(** From error codes to exceptions (src/cppcache/src/ExceptionTypes.cpp,
    src/cppcache/src/util/exception.hpp). The messages of the exceptions are not modelled. *)
From S2P Require Import Prelude Versions.

(** [noAvailableLocatorsException] nests its exception in a [NotConnectedException]. *)
Definition get_error_map : list (GfErrType * exn) :=
  [(GF_NOTCON, NotConnectedException);
   (GF_MSG, MessageException);
   (GF_CACHESERVER_EXCEPTION, CacheServerException);
   (GF_NOTOWN, NotOwnerException);
   (GF_CACHE_REGION_NOT_FOUND, CacheServerException);
   (GF_CACHE_REGION_NOT_GLOBAL, IllegalStateException);
   (GF_CACHE_ILLEGAL_ARGUMENT_EXCEPTION, IllegalArgumentException);
   (GF_CACHE_ILLEGAL_STATE_EXCEPTION, IllegalStateException);
   (GF_CACHE_WRITER_EXCEPTION, CacheWriterException);
   (GF_CACHEWRITER_ERROR, CacheWriterException);
   (GF_CACHE_LOADER_EXCEPTION, CacheLoaderException);
   (GF_CACHE_LISTENER_EXCEPTION, CacheListenerException);
   (GF_CACHE_REGION_INVALID, RegionDestroyedException);
   (GF_CACHE_PROXY, CacheProxyException);
   (GF_IOERR, GeodeIOException);
   (GF_ENOENT, NoSystemException);
   (GF_CACHE_REGION_KEYS_NOT_STRINGS, IllegalArgumentException);
   (GF_CACHE_REGION_ENTRY_NOT_BYTES, IllegalArgumentException);
   (GF_CACHE_TIMEOUT_EXCEPTION, TimeoutException);
   (GF_TIMEOUT, TimeoutException);
   (GF_CLIENT_WAIT_TIMEOUT, TimeoutException);
   (GF_ENOMEM, OutOfMemoryException);
   (GF_ERANGE, BufferSizeExceededException);
   (GF_CACHE_LEASE_EXPIRED_EXCEPTION, LeaseExpiredException);
   (GF_CACHE_REGION_EXISTS_EXCEPTION, RegionExistsException);
   (GF_CACHE_ENTRY_NOT_FOUND, EntryNotFoundException);
   (GF_CACHE_ENTRY_EXISTS, EntryExistsException);
   (GF_CACHE_ENTRY_DESTROYED_EXCEPTION, EntryDestroyedException);
   (GF_CACHE_REGION_DESTROYED_EXCEPTION, RegionDestroyedException);
   (GF_CACHE_CLOSED_EXCEPTION, CacheClosedException);
   (GF_CACHE_STATISTICS_DISABLED_EXCEPTION, StatisticsDisabledException);
   (GF_CACHE_CONCURRENT_MODIFICATION_EXCEPTION, ConcurrentModificationException);
   (GF_NOT_AUTHORIZED_EXCEPTION, NotAuthorizedException);
   (GF_AUTHENTICATION_FAILED_EXCEPTION, AuthenticationFailedException);
   (GF_AUTHENTICATION_REQUIRED_EXCEPTION, AuthenticationRequiredException);
   (GF_DUPLICATE_DURABLE_CLIENT, DuplicateDurableClientException);
   (GF_REMOTE_QUERY_EXCEPTION, QueryException);
   (GF_CACHE_LOCATOR_EXCEPTION, NotConnectedException);
   (GF_ALL_CONNECTIONS_IN_USE_EXCEPTION, AllConnectionsInUseException);
   (GF_INTERNAL_FUNCTION_INVOCATION_TARGET_EXCEPTION, FunctionException);
   (GF_FUNCTION_EXCEPTION, FunctionException);
   (GF_DISKFULL, DiskFailureException);
   (GF_ROLLBACK_EXCEPTION, RollbackException);
   (GF_COMMIT_CONFLICT_EXCEPTION, CommitConflictException);
   (GF_TRANSACTION_DATA_REBALANCED_EXCEPTION, TransactionDataRebalancedException);
   (GF_TRANSACTION_DATA_NODE_HAS_DEPARTED_EXCEPTION, TransactionDataNodeHasDepartedException);
   (GF_PUTALL_PARTIAL_RESULT_EXCEPTION, PutAllPartialResultException);
   (GF_LOW_MEMORY_EXCEPTION, LowMemoryException);
   (GF_QUERY_EXECUTION_LOW_MEMORY_EXCEPTION, QueryExecutionLowMemoryException);
   (GF_NOERR, UnknownException);
   (GF_DEADLK, UnknownException);
   (GF_EACCES, UnknownException);
   (GF_ECONFL, UnknownException);
   (GF_EINVAL, UnknownException);
   (GF_ETYPE, UnknownException);
   (GF_NOTOBJ, UnknownException);
   (GF_NOTSUP, UnknownException);
   (GF_SCPGBL, UnknownException);
   (GF_SCPEXC, UnknownException);
   (GF_OVRFLW, UnknownException);
   (GF_EINTR, UnknownException);
   (GF_NOSERVER_FOUND, UnknownException);
   (GF_SERVER_FAILED, UnknownException);
   (GF_CLIENT_WAIT_TIMEOUT_REFRESH_PRMETADATA, UnknownException);
   (GF_CANNOT_PROCESS_GII_REQUEST, UnknownException);
   (GF_CACHE_ENTRY_UPDATED, UnknownException);
   (GF_INVALID_DELTA, UnknownException);
   (GF_EUNDEF, UnknownException)].

Definition GfErrTypeThrowException (err : GfErrType) : exn :=
  match find (fun p => bool_decide (p.1 = err)) get_error_map with
  | Some (_, e) => e
  | None => UnknownException
  end.

Definition throwExceptionIfError {S} (err : GfErrType) : ST S unit :=
  if decide (err = GF_NOERR) then mret tt else st_throw (GfErrTypeThrowException err).
