(* ===== verification/EntriesMap.v ===== *)
(** The interface of the entries map of a region (src/cppcache/src/EntriesMap.hpp): the
    operations that a region calls, which [ConcurrentEntriesMap] implements, and what a map
    with concurrency checks promises to the region: that it is a versioned map. *)
From S2P Require Import Prelude Versions ExpiryTaskManager MapEntry MapSegment SegmentFacts SegmentRefinement ConcurrentEntriesMap EntriesMapFacts.

(** A [std::shared_ptr<MapEntryImpl>] that is not null: the segment and the address in it. *)
Abbreviation EntryPtr := (nat * nat)%type.

(** The abstract class; output parameters are passed in and returned. [em_getKeyI] reads the
    key of an entry object. *)
Class EntriesMap (M K V D : Type) `{Countable K} := {
  em_put : K -> option (Cacheable V) -> option EntryPtr -> option (Cacheable V) -> Z -> Z ->
    option VersionTag.t -> bool -> option D ->
    ST M (GfErrType * option EntryPtr * option (Cacheable V) * bool * option (Cacheable V));
  em_create : K -> option (Cacheable V) -> option EntryPtr -> option (Cacheable V) -> Z -> Z ->
    option VersionTag.t -> ST M (GfErrType * option EntryPtr * option (Cacheable V));
  em_invalidate : K -> option EntryPtr -> option (Cacheable V) -> option VersionTag.t ->
    ST M (GfErrType * option EntryPtr * option (Cacheable V));
  em_remove : K -> option (Cacheable V) -> option EntryPtr -> Z -> option VersionTag.t -> bool ->
    ST M (GfErrType * option (Cacheable V) * option EntryPtr);
  em_get : K -> ST M (bool * option EntryPtr * option (Cacheable V));
  em_getEntry : K -> ST M (option EntryPtr * option (Cacheable V));
  em_containsKey : K -> ST M bool;
  em_getKeys : ST M (list K);
  em_getEntries : ST M (list (option K * option (Cacheable V)));
  em_getValues : ST M (list (option (Cacheable V)));
  em_clear : ST M unit;
  em_size : M -> Z;
  em_empty : M -> bool;
  em_addTrackerForEntry : K -> option (Cacheable V) -> bool -> bool -> bool -> ST M (Z * option (Cacheable V));
  em_removeTrackerForEntry : K -> ST M unit;
  em_reapTombstones : gmap Z Z -> ST M unit;
  em_reapTombstones_keys : list K -> ST M unit;
  em_getKeyI : EntryPtr -> ST M (option K)
}.

(** ** The concurrent entries map *)

Section Concurrent.
Context {K V D : Type} `{Countable K}.
Context (hashcode : K -> Z).
Context (getFromDisk : K -> nat -> option (Cacheable V)) (cloningEnabled : bool).
Context (isDelta : V -> bool) (clone : V -> V) (fromDelta : D -> V -> V * bool).
Abbreviation M := (ConcurrentEntriesMap.t K V).
Abbreviation value := (option (Cacheable V)).

(** An entry that an operation on [key] returned. *)
Definition entry_of (m : M) (key : K) (me : option nat) : option EntryPtr :=
  pair (ConcurrentEntriesMap.segmentIdx hashcode m key) <$> me.

Definition concurrent_map : EntriesMap M K V D := {|
  em_put key v me old uc dt tag upd delta := fun m =>
    ('(err, me, old, upd, v) ←
       ConcurrentEntriesMap.put hashcode getFromDisk cloningEnabled isDelta clone fromDelta
         key v (snd <$> me) old uc dt tag upd delta;
     mret (err, entry_of m key me, old, upd, v)) m;
  em_create key v me old uc dt tag := fun m =>
    ('(err, me, old) ←
       ConcurrentEntriesMap.create hashcode getFromDisk cloningEnabled isDelta clone fromDelta
         key v (snd <$> me) old uc dt tag;
     mret (err, entry_of m key me, old)) m;
  em_invalidate key me old tag := fun m =>
    ('(err, me, old) ← ConcurrentEntriesMap.invalidate hashcode key (snd <$> me) old tag;
     mret (err, entry_of m key me, old)) m;
  em_remove key old me uc tag rem := fun m =>
    ('(err, old, me) ←
       ConcurrentEntriesMap.remove hashcode getFromDisk cloningEnabled isDelta clone fromDelta
         key old (snd <$> me) uc tag rem;
     mret (err, old, entry_of m key me)) m;
  em_get key := fun m =>
    ('(b, me, v) ← ConcurrentEntriesMap.get hashcode key; mret (b, entry_of m key me, v)) m;
  em_getEntry key := fun m =>
    ('(me, v) ← ConcurrentEntriesMap.getEntry hashcode key; mret (entry_of m key me, v)) m;
  em_containsKey := ConcurrentEntriesMap.containsKey hashcode;
  em_getKeys := ConcurrentEntriesMap.getKeys;
  em_getEntries := ConcurrentEntriesMap.getEntries;
  em_getValues := ConcurrentEntriesMap.getValues getFromDisk;
  em_clear := ConcurrentEntriesMap.clear;
  em_size := ConcurrentEntriesMap.size;
  em_empty := ConcurrentEntriesMap.empty;
  em_addTrackerForEntry := ConcurrentEntriesMap.addTrackerForEntry hashcode;
  em_removeTrackerForEntry := ConcurrentEntriesMap.removeTrackerForEntry hashcode;
  em_reapTombstones := ConcurrentEntriesMap.reapTombstones;
  em_reapTombstones_keys := ConcurrentEntriesMap.reapTombstones_keys;
  em_getKeyI e := ConcurrentEntriesMap.on_segment e.1 (getKeyI e.2)
|}.

End Concurrent.

(** ** The promise of a map with concurrency checks *)

(** The old value that [put] reports for a key that was bound to [x]: that of a live entry,
    or what the caller passed in. *)
Definition put_old {V} (x : option (option (Cacheable V) * VersionStamp.t)) (old : option (Cacheable V))
    : option (Cacheable V) :=
  match x with
  | Some (v, _) => if isTombstone v then old else visible v
  | None => old
  end.

(** The value that a read finds. *)
Definition live_value {V} (x : option (option (Cacheable V) * VersionStamp.t)) : option (Cacheable V) :=
  match x with
  | Some (v, _) => if isTombstone v then None else visible v
  | None => None
  end.

Class VersionedMap (M K V D : Type) `{EntriesMap M K V D} := {
  vm_members : M -> MemberListForVersionStamp.t;
  vm_fits : M -> Prop;
  vm_rel : M -> gmap K (option (Cacheable V) * VersionStamp.t) -> Prop;
  vm_put : forall k v me old uc dt tag upd m a,
    vm_rel m a -> vm_fits m -> v <> Some TombstoneToken ->
    match spec_op (vm_members m) (OpPut k v tag) a with
    | Ok ((err, _, u), a') => exists me' m',
        em_put k v me old uc dt tag upd None m
        = Ok ((err, me', if decide (err = GF_NOERR) then put_old (a !! k) old else old,
               if decide (err = GF_NOERR) then u else upd, v), m') /\
        vm_rel m' a' /\ (err = GF_NOERR -> me' <> None) /\ vm_members m' = vm_members m
    | Throw e => em_put k v me old uc dt tag upd None m = Throw e
    end;
  vm_create : forall k v me uc dt tag m a,
    vm_rel m a -> vm_fits m -> v <> Some TombstoneToken ->
    match spec_op (vm_members m) (OpCreate k v tag) a with
    | Ok ((err, shown, _), a') => exists me' m',
        em_create k v me None uc dt tag m = Ok ((err, me', shown), m') /\
        vm_rel m' a' /\ (err = GF_NOERR -> me' <> None) /\ vm_members m' = vm_members m
    | Throw e => em_create k v me None uc dt tag m = Throw e
    end;
  vm_invalidate : forall k me old tag m a,
    vm_rel m a -> vm_fits m ->
    match spec_op (vm_members m) (OpInvalidate k tag) a with
    | Ok ((err, _, _), a') => exists me' old' m',
        em_invalidate k me old tag m = Ok ((err, me', old'), m') /\ vm_rel m' a' /\
        vm_members m' = vm_members m
    | Throw e => em_invalidate k me old tag m = Throw e
    end;
  vm_remove : forall k me old uc tag rem m a,
    vm_rel m a -> vm_fits m ->
    match spec_op (vm_members m) (OpRemove k tag rem) a with
    | Ok ((err, shown, _), a') => exists me' old' m',
        em_remove k old me uc tag rem m = Ok ((err, old', me'), m') /\ vm_rel m' a' /\
        (err = GF_NOERR -> old' = shown) /\ (err <> GF_NOERR -> old' = None \/ old' = old) /\
        vm_members m' = vm_members m
    | Throw e => em_remove k old me uc tag rem m = Throw e
    end;
  vm_get : forall k m a,
    vm_rel m a -> vm_fits m ->
    exists me m', em_get k m = Ok ((negb (bool_decide (live_value (a !! k) = None)), me, live_value (a !! k)), m') /\
      vm_rel m' a /\ vm_fits m' /\ vm_members m' = vm_members m;
  vm_getEntry : forall k m a,
    vm_rel m a -> vm_fits m ->
    exists me m', em_getEntry k m = Ok ((me, live_value (a !! k)), m') /\
      vm_rel m' a /\ vm_fits m' /\ vm_members m' = vm_members m
}.
