(* ===== verification/EntriesMapLaws.v ===== *)
(** The concurrent entries map with concurrency checks keeps the promise of the interface
    ([VersionedMap]): its operations with any output parameters do what the abstract
    versioned map does. *)
From S2P Require Import Prelude Versions ExpiryTaskManager MapEntry MapSegment SegmentFacts SegmentRefinement SegmentClaims ConcurrentEntriesMap EntriesMapFacts EntriesMap.

Section Laws.
Context {K V D : Type} `{Countable K}.
Abbreviation S := (Segment K V).
Abbreviation M := (ConcurrentEntriesMap.t K V).
Abbreviation value := (option (Cacheable V)).
Context (hashcode : K -> Z).
Context (getFromDisk : K -> nat -> value) (cloningEnabled : bool).
Context (isDelta : V -> bool) (clone : V -> V) (fromDelta : D -> V -> V * bool).
Abbreviation seg_put := (put getFromDisk cloningEnabled isDelta clone fromDelta).
Abbreviation seg_create := (create getFromDisk cloningEnabled isDelta clone fromDelta).
Abbreviation seg_remove := (remove getFromDisk cloningEnabled isDelta clone fromDelta).

(** *** Output parameters of the operations of a segment *)

(** Rewrites the reads of an existing entry. *)
Ltac read_entry Hi He :=
  rewrite ?(getImplPtr_entry _ _ _ _ _ He), ?(getValueI_entry _ _ _ _ _ He),
    ?(stamp_for_eq _ _ _ _ _ _ _ (inv_cc Hi) He).

Lemma untomb_members c k (s : S) : memberList (env (untomb c k s)) = memberList (env s).
Proof. apply untomb_frame. Qed.

Lemma entomb_members p k (s : S) : memberList (env (entomb p k s)) = memberList (env s).
Proof. unfold entomb. by destruct (ExpiryTaskManager.schedule _ _). Qed.

(** The member list is the same after the changes of an operation. *)
Ltac members :=
  rewrite ?entomb_members; cbn [env new_entry set_entry with_entries with_map]; rewrite ?untomb_members; congruence.

Lemma put_out k v me old uc dt upd tag (s : S) :
  seg_inv s -> small s ->
  seg_put k v me old uc dt upd tag None s =
  match seg_put k v None None uc dt false tag None s with
  | Ok ((err, me', _, u, v'), s') =>
    Ok ((err, if decide (err = GF_NOERR) then me' else me,
         if decide (err = GF_NOERR) then put_old (lookup_abs s k) old else old,
         if decide (err = GF_NOERR) then u else upd, v), s')
  | Throw e => Throw e
  end /\
  forall err me' old' u v' s', seg_put k v None None uc dt false tag None s = Ok ((err, me', old', u, v'), s') ->
    (err = GF_NOERR -> me' <> None) /\ memberList (env s') = memberList (env s).
Proof.
  intros Hi0 Hs0. destruct (rehash_ok s Hi0 Hs0) as (s1 & Hr & Hi & _ & Henv & Hl & _).
  unfold put, mbind, ST_bind. rewrite Hr. unfold st_get. rewrite <- (Hl k).
  destruct (key_cases s1 _ k Hi (abs_of_rel s1)) as [[Hm Hk]|(p & x & w & Hm & He & Hk)]; rewrite Hm.
  - rewrite !putNoEntry_eq by (done || apply Hi). rewrite (lookup_abs_None s1 k Hm).
    split; [done|]. intros ?????? [= <- <- <- <- <- <-]. split; [done|members].
  - rewrite (lookup_abs_entry s1 k p x w Hm He). read_entry Hi He.
    destruct (next_stamp _ tag _ w) as [[err w']|e] eqn:En; [|done].
    destruct (decide (err = GF_NOERR)) as [->|Hne].
    + rewrite bool_decide_eq_true_2 by done. cbn [negb put_old].
      destruct (isTombstone x) eqn:Et.
      * destruct x as [[]|]; try done. cbn [visible isDestroyed isTombstone].
        rewrite (remove_entry_eq None), !putNoEntry_dropped by done.
        split; [done|]. intros ?????? [= <- <- <- <- <- <-]. split; [done|members].
      * assert (Et' : isTombstone (visible x) = false) by (by destruct x as [[]|]).
        rewrite Et', (putForTrackedEntry_eq _ _ _ _ _ true k p x w v w' uc s1 Hi He).
        split; [done|]. intros ?????? [= <- <- <- <- <- <-]. split; [done|members].
    + rewrite bool_decide_eq_false_2 by done. cbn. rewrite !decide_False by done. split; [done|].
      intros ?????? [= <- <- <- <- <- <-]. split; [done|members].
Qed.

Lemma create_out k v me old uc dt tag (s : S) :
  seg_inv s -> small s ->
  seg_create k v me old uc dt tag s =
  match seg_create k v None None uc dt tag s with
  | Ok ((err, me', old'), s') =>
    Ok ((err, if decide (err = GF_NOERR) then me' else me,
         match lookup_abs s k with Some _ => old' | None => old end), s')
  | Throw e => Throw e
  end /\
  forall err me' old' s', seg_create k v None None uc dt tag s = Ok ((err, me', old'), s') ->
    (err = GF_NOERR -> me' <> None) /\ memberList (env s') = memberList (env s).
Proof.
  intros Hi0 Hs0. destruct (rehash_ok s Hi0 Hs0) as (s1 & Hr & Hi & _ & Henv & Hl & _).
  unfold create, mbind, ST_bind. rewrite Hr. unfold st_get. rewrite <- (Hl k).
  destruct (key_cases s1 _ k Hi (abs_of_rel s1)) as [[Hm Hk]|(p & x & w & Hm & He & Hk)]; rewrite Hm.
  - rewrite !putNoEntry_eq by (done || apply Hi). rewrite (lookup_abs_None s1 k Hm).
    split; [done|]. intros ???? [= <- <- <- <-]. split; [done|members].
  - rewrite (lookup_abs_entry s1 k p x w Hm He). read_entry Hi He.
    destruct x as [[]|]; cbn [visible isDestroyed isTombstone orb];
      try (split; [done|]; intros ???? [= <- <- <- <-]; split; [done|members]);
      read_entry Hi He; (destruct (next_stamp _ tag false w) as [[err w']|e] eqn:En; [|done]);
      (destruct (decide (err = GF_NOERR)) as [->|Hne];
        [rewrite bool_decide_eq_true_2 by done
        |rewrite bool_decide_eq_false_2 by done; cbn; rewrite ?decide_False by done; split; [done|];
         intros ???? [= <- <- <- <-]; split; [done|members]]); cbn [negb].
    + rewrite (putForTrackedEntry_eq _ _ _ _ _ true k p _ w v w' uc s1 Hi He).
      split; [done|]. intros ???? [= <- <- <- <-]. split; [done|members].
    + rewrite (remove_entry_eq None), !putNoEntry_dropped by done.
      split; [done|]. intros ???? [= <- <- <- <-]. split; [done|members].
    + rewrite (putForTrackedEntry_eq _ _ _ _ _ true k p _ w v w' uc s1 Hi He).
      split; [done|]. intros ???? [= <- <- <- <-]. split; [done|members].
Qed.

Lemma invalidate_out k me old tag (s : S) :
  seg_inv s ->
  match invalidate k None None tag s with
  | Ok ((err, _, _, added), s') => exists me' old',
      invalidate k me old tag s = Ok ((err, me', old', added), s') /\ memberList (env s') = memberList (env s)
  | Throw e => invalidate k me old tag s = Throw e
  end.
Proof.
  intros Hi. unfold invalidate, mbind, ST_bind, st_get.
  destruct (key_cases s _ k Hi (abs_of_rel s)) as [[Hm Hk]|(p & x & w & Hm & He & Hk)]; rewrite Hm.
  - rewrite (inv_cc Hi), !putNoEntry_eq by (done || apply Hi). do 2 eexists; split; [done|members].
  - read_entry Hi He. destruct (next_stamp _ tag false w) as [[err w']|e] eqn:En; [|done].
    destruct (decide (err = GF_NOERR)) as [->|Hne].
    + rewrite bool_decide_eq_true_2 by done. cbn [negb]. read_entry Hi He.
      destruct (isTombstone (visible x)); [do 2 eexists; split; [done|members]|].
      rewrite (setValueI_entry _ _ _ _ _ He), (inv_cc Hi).
      rewrite (setVersionStampI_entry _ k p (Some InvalidToken) w) by apply entry_is_set.
      unfold seg_incrementUpdateCount, mbind, ST_bind, st_get. simpl. rewrite (inv_cc Hi). do 2 eexists; split; [done|members].
    + rewrite bool_decide_eq_false_2 by done. do 2 eexists; split; [done|members].
Qed.

Lemma remove_out k me old uc tag rem found (s : S) :
  seg_inv s ->
  match seg_remove k None None uc tag rem found s with
  | Ok ((err, old0, _, fnd), s') => exists me' old',
      seg_remove k old me uc tag rem found s = Ok ((err, old', me', fnd), s') /\
      (err = GF_NOERR -> old' = old0) /\ (err <> GF_NOERR -> old' = None \/ old' = old) /\
      memberList (env s') = memberList (env s)
  | Throw e => seg_remove k old me uc tag rem found s = Throw e
  end.
Proof.
  intros Hi. unfold remove, removeWhenConcurrencyEnabled, mbind, ST_bind, st_get. rewrite (inv_cc Hi).
  destruct (key_cases s _ k Hi (abs_of_rel s)) as [[Hm Hk]|(p & x & w & Hm & He & Hk)]; rewrite Hm.
  - destruct tag as [t|].
    + rewrite !putNoEntry_eq by (done || apply Hi). cbn [non_null].
      pose proof (entry_is_new k (Some TombstoneToken) (VersionStamp.setVersions t) s) as He.
      unfold mret, ST_ret. pose proof (getImplPtr_entry _ _ _ _ _ He) as Hg. simpl in Hg. rewrite Hg.
      destruct (tombstones_add_entry _ _ _ _ _ He) as [id Ht]. rewrite Ht.
      do 2 eexists. split; [done|]. split; [done|]. split; [by left|members].
    + do 2 eexists. split; [done|]. split; [done|]. split; [by left|members].
  - rewrite (getVersionStamp_entry _ _ _ _ _ He), (remove_stamp_eq _ _ _ _ _ _ He).
    destruct (next_stamp _ tag false w) as [[err w']|e] eqn:En; [|done].
    destruct (decide (err = GF_NOERR)) as [->|Hne].
    + rewrite bool_decide_eq_true_2 by done. cbn [negb]. read_entry Hi He.
      rewrite (putForTrackedEntry_eq _ _ _ _ _ false k p x w _ w' uc s Hi He). rewrite decide_True by done.
      destruct (tombstones_add_entry (set_entry p k (Some TombstoneToken) w' (untomb true k s)) k p _ _
        (entry_is_set _ _ _ _ _)) as [id ->].
      destruct (isTombstone (visible x)); do 2 eexists; (split; [reflexivity|]); (split; [done|]); (split; [first [by left|done]|members]).
    + rewrite bool_decide_eq_false_2 by done. do 2 eexists. split; [done|]. split; [done|]. split; [by right|members].
Qed.

(** An absent key has no old value. *)
Lemma create_absent k v uc dt tag (s : S) :
  seg_inv s -> small s -> lookup_abs s k = None ->
  forall err me' old' s', seg_create k v None None uc dt tag s = Ok ((err, me', old'), s') -> old' = None.
Proof.
  intros Hi0 Hs0. destruct (rehash_ok s Hi0 Hs0) as (s1 & Hr & Hi & _ & Henv & Hl & _).
  rewrite <- (Hl k). unfold create, mbind, ST_bind. rewrite Hr. unfold st_get.
  destruct (key_cases s1 _ k Hi (abs_of_rel s1)) as [[Hm Hk]|(p & x & w & Hm & He & Hk)]; rewrite Hm.
  - rewrite putNoEntry_eq by (done || apply Hi). intros _ err me' old' s'. cbn. by intros [= _ _ <- _].
  - by rewrite (lookup_abs_entry s1 k p x w Hm He).
Qed.

(** *** The operations of the map *)

Abbreviation cmap := (concurrent_map hashcode getFromDisk cloningEnabled isDelta clone fromDelta).
#[local] Existing Instance concurrent_map.

Definition cm_rel (m : M) (a : gmap K (value * VersionStamp.t)) : Prop := map_inv m /\ map_rel hashcode m a.

(** The segment of a key. *)
Lemma segment_of m a k : cm_rel m a -> map_small m ->
  exists s, ConcurrentEntriesMap.m_segments m !! ConcurrentEntriesMap.segmentIdx hashcode m k = Some s /\
    seg_inv (with_env (ConcurrentEntriesMap.shared m) s) /\ small (with_env (ConcurrentEntriesMap.shared m) s) /\
    lookup_abs (with_env (ConcurrentEntriesMap.shared m) s) k = a !! k.
Proof.
  intros [Hi Ha] Hs. destruct (segmentIdx_lookup hashcode m k Hi) as [s Es]. exists s. split_and!; [done| | |].
  - apply inv_with_env. by apply (mi_segments m Hi _ _ Es).
  - by apply (Hs _ _ Es).
  - rewrite <- (Ha k). unfold lookup_map. by rewrite Es.
Qed.

Abbreviation run := (run_map hashcode getFromDisk cloningEnabled isDelta clone fromDelta).
Abbreviation refine_map' := (refine_map hashcode getFromDisk cloningEnabled isDelta clone fromDelta).

Ltac open_map Hs :=
  cbn [em_put em_create em_invalidate em_remove em_get em_getEntry concurrent_map] in *;
  unfold run_map, ConcurrentEntriesMap.put, ConcurrentEntriesMap.create, ConcurrentEntriesMap.invalidate,
    ConcurrentEntriesMap.remove, ConcurrentEntriesMap.get, ConcurrentEntriesMap.getEntry,
    ConcurrentEntriesMap.segmentFor, ConcurrentEntriesMap.on_segment, mbind, ST_bind in *;
  rewrite Hs in *.

Lemma cm_put k v me old uc dt tag upd m a :
  cm_rel m a -> map_small m -> v <> Some TombstoneToken ->
  match spec_op (memberList (ConcurrentEntriesMap.shared m)) (OpPut k v tag) a with
  | Ok ((err, _, u), a') => exists me' m',
      @em_put _ _ _ _ _ _ cmap k v me old uc dt tag upd None m
      = Ok ((err, me', if decide (err = GF_NOERR) then put_old (a !! k) old else old,
             if decide (err = GF_NOERR) then u else upd, v), m') /\
      cm_rel m' a' /\ (err = GF_NOERR -> me' <> None) /\
      memberList (ConcurrentEntriesMap.shared m') = memberList (ConcurrentEntriesMap.shared m)
  | Throw e => @em_put _ _ _ _ _ _ cmap k v me old uc dt tag upd None m = Throw e
  end.
Proof.
  intros Hr Hs Hv. destruct (segment_of m a k Hr Hs) as (s & Es & Hi & Hsm & Hl).
  pose proof (refine_map' uc dt (OpPut k v tag) m a (proj1 Hr) Hs (proj2 Hr) Hv) as Href.
  destruct (put_out k v (snd <$> me) old uc dt upd tag _ Hi Hsm) as [Hp Hme].
  open_map Es. rewrite Hp. rewrite Hl.
  destruct (seg_put k v None None uc dt false tag None _) as [[[[[[err me'] old'] u] v'] s']|e] eqn:E;
    destruct (spec_op _ _ a) as [[[[err0 sh] u0] a']|e0]; [| |by destruct Href as (? & ? & _)|by simplify_eq].
  - destruct Href as (m' & Hm & Hi' & Ha' & _). destruct (decide (err = GF_NOERR)) as [->|Hne].
    + destruct u; cbn in Hm |- *; injection Hm as <- <- <- <-;
        (do 2 eexists; split; [done|]; split; [done|]; destruct (Hme _ _ _ _ _ _ eq_refl) as [Hme' Hml];
         specialize (Hme' eq_refl); split; [by destruct me'|exact Hml]).
    + cbn in Hm |- *. injection Hm as <- <- <- <-. rewrite !decide_False by done.
      do 2 eexists. split; [done|]. split; [done|]. split; [done|]. by apply (Hme _ _ _ _ _ _ eq_refl).
  - exfalso. destruct (decide (err = GF_NOERR)), u; done.
Qed.

Lemma cm_create k v me uc dt tag m a :
  cm_rel m a -> map_small m -> v <> Some TombstoneToken ->
  match spec_op (memberList (ConcurrentEntriesMap.shared m)) (OpCreate k v tag) a with
  | Ok ((err, sh, _), a') => exists me' m',
      @em_create _ _ _ _ _ _ cmap k v me None uc dt tag m = Ok ((err, me', sh), m') /\
      cm_rel m' a' /\ (err = GF_NOERR -> me' <> None) /\
      memberList (ConcurrentEntriesMap.shared m') = memberList (ConcurrentEntriesMap.shared m)
  | Throw e => @em_create _ _ _ _ _ _ cmap k v me None uc dt tag m = Throw e
  end.
Proof.
  intros Hr Hs Hv. destruct (segment_of m a k Hr Hs) as (s & Es & Hi & Hsm & Hl).
  pose proof (refine_map' uc dt (OpCreate k v tag) m a (proj1 Hr) Hs (proj2 Hr) Hv) as Href.
  destruct (create_out k v (snd <$> me) None uc dt tag _ Hi Hsm) as [Hp Hme].
  pose proof (create_absent k v uc dt tag _ Hi Hsm) as Hn.
  open_map Es. rewrite Hp. rewrite Hl in Hn |- *.
  destruct (seg_create k v None None uc dt tag _) as [[[[err me'] old'] s']|e] eqn:E;
    destruct (spec_op _ _ a) as [[[[err0 sh] u0] a']|e0]; [| |by destruct Href as (? & ? & _)|by simplify_eq].
  - assert (Hold : match a !! k with Some _ => old' | None => None end = old').
    { destruct (a !! k); [done|]. by rewrite (Hn eq_refl _ _ _ _ eq_refl). }
    rewrite Hold. destruct Href as (m' & Hm & Hi' & Ha' & _). destruct (decide (err = GF_NOERR)) as [->|Hne].
    + destruct old'; cbn in Hm |- *; injection Hm as <- <- <- <-;
        (do 2 eexists; split; [done|]; split; [done|]; destruct (Hme _ _ _ _ eq_refl) as [Hme' Hml];
         specialize (Hme' eq_refl); split; [by destruct me'|exact Hml]).
    + cbn in Hm |- *. injection Hm as <- <- <- <-.
      do 2 eexists. split; [done|]. split; [done|]. split; [done|]. by apply (Hme _ _ _ _ eq_refl).
  - exfalso. destruct (decide (err = GF_NOERR)), old'; done.
Qed.

Lemma cm_invalidate k me old tag m a :
  cm_rel m a -> map_small m ->
  match spec_op (memberList (ConcurrentEntriesMap.shared m)) (OpInvalidate k tag) a with
  | Ok ((err, _, _), a') => exists me' old' m',
      @em_invalidate _ _ _ _ _ _ cmap k me old tag m = Ok ((err, me', old'), m') /\ cm_rel m' a' /\
      memberList (ConcurrentEntriesMap.shared m') = memberList (ConcurrentEntriesMap.shared m)
  | Throw e => @em_invalidate _ _ _ _ _ _ cmap k me old tag m = Throw e
  end.
Proof.
  intros Hr Hs. destruct (segment_of m a k Hr Hs) as (s & Es & Hi & Hsm & Hl).
  pose proof (refine_map' 0 0 (OpInvalidate k tag) m a (proj1 Hr) Hs (proj2 Hr) I) as Href.
  pose proof (invalidate_out k (snd <$> me) old tag _ Hi) as Hp.
  open_map Es.
  destruct (invalidate k None None tag _) as [[[[[err me'] old'] u] s']|e] eqn:E;
    destruct (spec_op _ _ a) as [[[[err0 sh] u0] a']|e0]; [| |by destruct Href as (? & ? & _)|by rewrite Hp; simplify_eq].
  - destruct Hp as (me2 & old2 & -> & Hml). destruct Href as (m' & Hm & Hi' & Ha' & _).
    destruct u; cbn in Hm |- *; injection Hm as <- <- <-; by do 3 eexists.
  - by destruct u.
Qed.

Lemma cm_remove k me old uc tag rem m a :
  cm_rel m a -> map_small m ->
  match spec_op (memberList (ConcurrentEntriesMap.shared m)) (OpRemove k tag rem) a with
  | Ok ((err, sh, _), a') => exists me' old' m',
      @em_remove _ _ _ _ _ _ cmap k old me uc tag rem m = Ok ((err, old', me'), m') /\ cm_rel m' a' /\
      (err = GF_NOERR -> old' = sh) /\ (err <> GF_NOERR -> old' = None \/ old' = old) /\
      memberList (ConcurrentEntriesMap.shared m') = memberList (ConcurrentEntriesMap.shared m)
  | Throw e => @em_remove _ _ _ _ _ _ cmap k old me uc tag rem m = Throw e
  end.
Proof.
  intros Hr Hs. destruct (segment_of m a k Hr Hs) as (s & Es & Hi & Hsm & Hl).
  pose proof (refine_map' uc 0 (OpRemove k tag rem) m a (proj1 Hr) Hs (proj2 Hr) I) as Href.
  pose proof (remove_out k (snd <$> me) old uc tag rem true _ Hi) as Hp.
  open_map Es.
  destruct (seg_remove k None None uc tag rem true _) as [[[[[err old'] me'] u] s']|e] eqn:E;
    destruct (spec_op _ _ a) as [[[[err0 sh] u0] a']|e0]; [| |by destruct Href as (? & ? & _)|by rewrite Hp; simplify_eq].
  - destruct Hp as (me2 & old2 & -> & H1 & H2 & Hml). destruct Href as (m' & Hm & Hi' & Ha' & _).
    destruct (decide (err = GF_NOERR)); [destruct u|]; cbn in Hm |- *; injection Hm as <- <- <-;
      by do 3 eexists.
  - exfalso. by destruct (decide (err = GF_NOERR)), u.
Qed.

Lemma getEntry_out k (s : S) : seg_inv s ->
  exists me, MapSegment.getEntry k s
    = Ok ((negb (bool_decide (live_value (lookup_abs s k) = None)), me, live_value (lookup_abs s k)), s).
Proof.
  intros Hi. unfold MapSegment.getEntry, mbind, ST_bind, st_get.
  destruct (key_cases s _ k Hi (abs_of_rel s)) as [[Hm Hk]|(p & x & w & Hm & He & Hk)]; rewrite Hm.
  - rewrite (lookup_abs_None s k Hm). by eexists.
  - rewrite (lookup_abs_entry s k p x w Hm He). read_entry Hi He.
    destruct x as [[]|]; by eexists.
Qed.

(** The map after a read of a segment. *)
Lemma read_segment m a i s : cm_rel m a -> map_small m ->
  ConcurrentEntriesMap.m_segments m !! i = Some s ->
  cm_rel (updated m i (with_env (ConcurrentEntriesMap.shared m) s) 0) a /\
  map_small (updated m i (with_env (ConcurrentEntriesMap.shared m) s) 0).
Proof.
  intros [Hi Ha] Hs Es. split; [split|].
  - apply updated_inv; [done|]. apply inv_with_env. by apply (mi_segments m Hi _ _ Es).
  - intros k. rewrite <- (Ha k). unfold lookup_map. simpl.
    change (ConcurrentEntriesMap.segmentIdx hashcode (updated m i (with_env (ConcurrentEntriesMap.shared m) s) 0) k)
      with (ConcurrentEntriesMap.segmentIdx hashcode m k).
    destruct (decide (i = ConcurrentEntriesMap.segmentIdx hashcode m k)) as [->|Hne].
    + rewrite list_lookup_insert_eq by (by apply lookup_lt_Some in Es). by rewrite Es.
    + by rewrite list_lookup_insert_ne.
  - intros j s' Hj%list_lookup_insert_Some. destruct Hj as [(<- & <- & _)|[_ Hj]]; [apply (Hs _ _ Es)|by apply (Hs j)].
Qed.

Lemma cm_get k m a : cm_rel m a -> map_small m ->
  exists me m', @em_get _ _ _ _ _ _ cmap k m
      = Ok ((negb (bool_decide (live_value (a !! k) = None)), me, live_value (a !! k)), m') /\
    cm_rel m' a /\ map_small m' /\
    memberList (ConcurrentEntriesMap.shared m') = memberList (ConcurrentEntriesMap.shared m).
Proof.
  intros Hr Hs. destruct (segment_of m a k Hr Hs) as (s & Es & Hi & Hsm & Hl).
  destruct (getEntry_out k _ Hi) as [me Hg]. rewrite Hl in Hg.
  destruct (read_segment m a _ s Hr Hs Es) as [Hr' Hs'].
  open_map Es. rewrite Hg. do 2 eexists. by split; [reflexivity|].
Qed.

Lemma cm_getEntry k m a : cm_rel m a -> map_small m ->
  exists me m', @em_getEntry _ _ _ _ _ _ cmap k m = Ok ((me, live_value (a !! k)), m') /\
    cm_rel m' a /\ map_small m' /\
    memberList (ConcurrentEntriesMap.shared m') = memberList (ConcurrentEntriesMap.shared m).
Proof.
  intros Hr Hs. destruct (segment_of m a k Hr Hs) as (s & Es & Hi & Hsm & Hl).
  destruct (getEntry_out k _ Hi) as [me Hg]. rewrite Hl in Hg.
  destruct (read_segment m a _ s Hr Hs Es) as [Hr' Hs'].
  open_map Es. rewrite Hg. do 2 eexists. by split; [reflexivity|].
Qed.

(** Reading the key of an entry changes nothing either. *)
Lemma cm_getKeyI p m a s k : cm_rel m a -> map_small m ->
  ConcurrentEntriesMap.m_segments m !! p.1 = Some s ->
  getKeyI p.2 (with_env (ConcurrentEntriesMap.shared m) s) = Ok (k, with_env (ConcurrentEntriesMap.shared m) s) ->
  exists m', @em_getKeyI _ _ _ _ _ _ cmap p m = Ok (k, m') /\ cm_rel m' a /\ map_small m' /\
    memberList (ConcurrentEntriesMap.shared m') = memberList (ConcurrentEntriesMap.shared m).
Proof.
  intros Hr Hs Es Hg. destruct (read_segment m a _ s Hr Hs Es) as [Hr' Hs'].
  exists (updated m p.1 (with_env (ConcurrentEntriesMap.shared m) s) 0). split; [|done].
  cbn [em_getKeyI cmap concurrent_map]. unfold ConcurrentEntriesMap.on_segment. rewrite Es, Hg.
  unfold updated. rewrite ?Z.add_0_r. reflexivity.
Qed.

Definition versioned_map : @VersionedMap M K V D _ _ cmap := {|
  vm_members m := memberList (ConcurrentEntriesMap.shared m);
  vm_fits := map_small;
  vm_rel := cm_rel;
  vm_put := cm_put;
  vm_create := cm_create;
  vm_invalidate := cm_invalidate;
  vm_remove := cm_remove;
  vm_get := cm_get;
  vm_getEntry := cm_getEntry
|}.

End Laws.
