(* ===== verification/LocalRegion.v ===== *)
(** A region of the client cache (src/cppcache/src/LocalRegion.cpp and .hpp, the event flags of
    src/cppcache/src/RegionInternal.hpp, the expiration properties of
    src/cppcache/src/ExpEntryProperties.hpp).

    A region puts three things together: its entries map ([EntriesMap]), the callbacks of the
    application (writer, listener, loader) and the servers, which the virtual [_remote]
    functions talk to. The callbacks are the application's: what they answer is a parameter
    ([Callbacks]), a function of the history of all calls, so that they may have a state. The
    [_remote] functions are virtual: they are a parameter ([Virtuals]) too, that may change
    the region in any way, as other threads and notifications do while a call is under way;
    [local_virtuals] are those of [LocalRegion] itself.

    The shared mutex of the region is held by every operation, so that it is not destroyed
    meanwhile. Statistics, logging and the time statistics are left out. Expiration properties
    of entries are kept beside the map, as entries with concurrency checks stay the objects
    that they are. *)
From S2P Require Import Prelude Versions ExceptionTypes ExpiryTaskManager MapEntry MapSegment EntriesMap.

(** ** Event flags *)

Module CacheEventFlags.

Definition GF_NORMAL : Z := 0x01.
Definition GF_LOCAL : Z := 0x02.
Definition GF_NOTIFICATION : Z := 0x04.
Definition GF_NOTIFICATION_UPDATE : Z := 0x08.
Definition GF_EVICTION : Z := 0x10.
Definition GF_EXPIRATION : Z := 0x20.
Definition GF_CACHE_CLOSE : Z := 0x40.
Definition GF_NOCACHEWRITER : Z := 0x80.
Definition GF_NOCALLBACKS : Z := 0x100.

Definition isNormal (m_flags : Z) : bool := 0 <? Z.land m_flags GF_NORMAL.
Definition isLocal (m_flags : Z) : bool := 0 <? Z.land m_flags GF_LOCAL.
Definition isNotification (m_flags : Z) : bool := 0 <? Z.land m_flags GF_NOTIFICATION.
Definition isNotificationUpdate (m_flags : Z) : bool := 0 <? Z.land m_flags GF_NOTIFICATION_UPDATE.
Definition isEviction (m_flags : Z) : bool := 0 <? Z.land m_flags GF_EVICTION.
Definition isExpiration (m_flags : Z) : bool := 0 <? Z.land m_flags GF_EXPIRATION.
Definition isCacheClose (m_flags : Z) : bool := 0 <? Z.land m_flags GF_CACHE_CLOSE.
Definition isNoCacheWriter (m_flags : Z) : bool := 0 <? Z.land m_flags GF_NOCACHEWRITER.
Definition isNoCallbacks (m_flags : Z) : bool := 0 <? Z.land m_flags GF_NOCALLBACKS.
Definition isEvictOrExpire (m_flags : Z) : bool :=
  0 <? Z.land m_flags (Z.lor GF_EVICTION GF_EXPIRATION).
Definition invokeCacheWriter (m_flags : Z) : bool :=
  Z.land m_flags
    (Z.lor (Z.lor (Z.lor (Z.lor GF_NOTIFICATION GF_EVICTION) GF_EXPIRATION) GF_NOCACHEWRITER) GF_NOCALLBACKS)
  =? 0x0.

(** The public constants. *)
Abbreviation NORMAL := GF_NORMAL.
Abbreviation LOCAL := GF_LOCAL.
Abbreviation NOTIFICATION := GF_NOTIFICATION.
Abbreviation NOTIFICATION_UPDATE := GF_NOTIFICATION_UPDATE.
Abbreviation EVICTION := GF_EVICTION.
Abbreviation EXPIRATION := GF_EXPIRATION.
Abbreviation CACHE_CLOSE := GF_CACHE_CLOSE.
Abbreviation NOCACHEWRITER := GF_NOCACHEWRITER.
Abbreviation NOCALLBACKS := GF_NOCALLBACKS.

End CacheEventFlags.

(** ** Data *)

Inductive ExpirationAction :=
| INVALIDATE | LOCAL_INVALIDATE | DESTROY | LOCAL_DESTROY | INVALID_ACTION.

(** The attributes that the operations look at; durations are in seconds. *)
Record RegionAttributes := mkAttributes {
  m_caching : bool;
  m_isConcurrencyChecksEnabled : bool;
  m_entryTimeToLive : Z;
  m_entryTimeToLiveExpirationAction : ExpirationAction;
  m_entryIdleTimeout : Z;
  m_entryIdleTimeoutExpirationAction : ExpirationAction;
  m_regionTimeToLive : Z;
  m_regionTimeToLiveExpirationAction : ExpirationAction;
  m_regionIdleTimeout : Z;
  m_regionIdleTimeoutExpirationAction : ExpirationAction
}.

Definition getEntryExpiryEnabled (a : RegionAttributes) : bool :=
  (0 <? m_entryTimeToLive a) || (0 <? m_entryIdleTimeout a).
Definition getRegionExpiryEnabled (a : RegionAttributes) : bool :=
  (0 <? m_regionTimeToLive a) || (0 <? m_regionIdleTimeout a).

(** Times are ticks of the steady clock (nanoseconds). *)
Record ExpEntryProperties := mkExp { last_accessed_ : Z; last_modified_ : Z; exp_task_id_ : Z }.
Definition new_exp : ExpEntryProperties := mkExp 0 0 ExpiryTaskManager.invalid.
Definition task_scheduled (e : ExpEntryProperties) : bool :=
  negb (exp_task_id_ e =? ExpiryTaskManager.invalid).

Record CacheStatistics := mkStats { m_lastAccessTime : Z; m_lastModifiedTime : Z }.

(** An [EntryExpiryTask], with the time at which its timer fires. *)
Record EntryExpiryTask := mkEntryTask {
  et_entry : EntryPtr;
  et_action : ExpirationAction;
  et_duration : Z;
  et_at : Z
}.

Record EntryEvent (K V A : Type) := mkEvent {
  ev_key : K;
  ev_oldValue : option (Cacheable V);
  ev_newValue : option (Cacheable V);
  ev_callbackArgument : option A;
  ev_remoteOrigin : bool
}.
Arguments mkEvent {K V A} _ _ _ _ _.
Arguments ev_key {K V A} _.
Arguments ev_oldValue {K V A} _.
Arguments ev_newValue {K V A} _.
Arguments ev_callbackArgument {K V A} _.
Arguments ev_remoteOrigin {K V A} _.

Record RegionEvent (A : Type) := mkRegionEvent { rev_callbackArgument : option A; rev_remoteOrigin : bool }.
Arguments mkRegionEvent {A} _ _.

(** The calls that leave the region. *)
Inductive Request (K V A : Type) :=
| RGet (k : K) (arg : option A)
| RPut (k : K) (v : option (Cacheable V)) (arg : option A)
| RCreate (k : K) (v : option (Cacheable V)) (arg : option A)
| RDestroy (k : K) (arg : option A)
| RRemove (k : K) (v : option (Cacheable V)) (arg : option A)
| RRemoveEX (k : K) (arg : option A)
| RInvalidate (k : K) (arg : option A)
| RFullObject
| RGetAll (ks : list K) (arg : option A)
| RPutAll (kvs : list (K * option (Cacheable V))) (arg : option A)
| RRemoveAll (ks : list K) (arg : option A)
| RInvalidateRegion (arg : option A)
| RDestroyRegion (arg : option A).
Arguments RGet {K V A} _ _.
Arguments RPut {K V A} _ _ _.
Arguments RCreate {K V A} _ _ _.
Arguments RDestroy {K V A} _ _.
Arguments RRemove {K V A} _ _ _.
Arguments RRemoveEX {K V A} _ _.
Arguments RInvalidate {K V A} _ _.
Arguments RFullObject {K V A}.
Arguments RGetAll {K V A} _ _.
Arguments RPutAll {K V A} _ _.
Arguments RRemoveAll {K V A} _ _.
Arguments RInvalidateRegion {K V A} _.
Arguments RDestroyRegion {K V A} _.

Inductive Call (K V A : Type) :=
| BeforeUpdate (e : EntryEvent K V A)
| BeforeCreate (e : EntryEvent K V A)
| BeforeDestroy (e : EntryEvent K V A)
| BeforeRegionClear (e : RegionEvent A)
| BeforeRegionDestroy (e : RegionEvent A)
| AfterUpdate (e : EntryEvent K V A)
| AfterCreate (e : EntryEvent K V A)
| AfterDestroy (e : EntryEvent K V A)
| AfterInvalidate (e : EntryEvent K V A)
| AfterRegionInvalidate (e : RegionEvent A)
| AfterRegionDestroy (e : RegionEvent A)
| AfterRegionClear (e : RegionEvent A)
| ListenerClose
| LoaderClose
| WriterClose
| Load (k : K) (arg : option A)
| Remote (r : Request K V A).
Arguments BeforeUpdate {K V A} _.
Arguments BeforeCreate {K V A} _.
Arguments BeforeDestroy {K V A} _.
Arguments BeforeRegionClear {K V A} _.
Arguments BeforeRegionDestroy {K V A} _.
Arguments AfterUpdate {K V A} _.
Arguments AfterCreate {K V A} _.
Arguments AfterDestroy {K V A} _.
Arguments AfterInvalidate {K V A} _.
Arguments AfterRegionInvalidate {K V A} _.
Arguments AfterRegionDestroy {K V A} _.
Arguments AfterRegionClear {K V A} _.
Arguments ListenerClose {K V A}.
Arguments LoaderClose {K V A}.
Arguments WriterClose {K V A}.
Arguments Load {K V A} _ _.
Arguments Remote {K V A} _.

(** The callbacks of the application. The head of the history is the call that is answered;
    [None] is an exception, [cb_listener] tells whether the listener returned. *)
Record Callbacks (K V A : Type) := mkCallbacks {
  cb_writer : list (Call K V A) -> option bool;
  cb_listener : list (Call K V A) -> bool;
  cb_loader : list (Call K V A) -> option (option (Cacheable V))
}.
Arguments mkCallbacks {K V A} _ _ _.
Arguments cb_writer {K V A} _ _.
Arguments cb_listener {K V A} _ _.
Arguments cb_loader {K V A} _ _.

Inductive EntryEventType :=
| BEFORE_CREATE | BEFORE_UPDATE | BEFORE_INVALIDATE | BEFORE_DESTROY
| AFTER_CREATE | AFTER_UPDATE | AFTER_INVALIDATE | AFTER_DESTROY.

Inductive RegionEventType :=
| BEFORE_REGION_INVALIDATE | BEFORE_REGION_DESTROY | AFTER_REGION_INVALIDATE
| AFTER_REGION_DESTROY | BEFORE_REGION_CLEAR | AFTER_REGION_CLEAR.

(** What the region has from a [VersionedCacheableObjectPartList]. *)
Record PartList (K : Type) := mkPartList {
  getSucceededKeys : option (list K);
  getVersionedTagptr : list (option VersionTag.t)
}.
Arguments mkPartList {K} _ _.
Arguments getSucceededKeys {K} _.
Arguments getVersionedTagptr {K} _.

Module LocalRegion.

Record t (M K V A : Type) := mk {
  m_regionAttributes : RegionAttributes;
  m_destroyPending : bool;
  m_released : bool;
  m_listener : bool;       (** whether there is one *)
  m_writer : bool;
  m_loader : bool;
  m_entries : option M;
  m_isPRSingleHopEnabled : bool;
  expProperties : gmap EntryPtr ExpEntryProperties;  (** [getExpProperties()] of the entries *)
  m_cacheStatistics : CacheStatistics;
  ancestors : list (bool * CacheStatistics);   (** the parent regions, nearest first, and whether they expire *)
  txState : option bool;   (** of the calling thread: the dirty flag of its transaction *)
  clock : Z;               (** [std::chrono::steady_clock::now()] *)
  expiryTaskManager : ExpiryTaskManager.t EntryExpiryTask;
  calls : list (Call K V A)  (** what the region called, latest first *)
}.
Arguments mk {M K V A} _ _ _ _ _ _ _ _ _ _ _ _ _ _ _.
Arguments m_regionAttributes {M K V A} _.
Arguments m_destroyPending {M K V A} _.
Arguments m_released {M K V A} _.
Arguments m_listener {M K V A} _.
Arguments m_writer {M K V A} _.
Arguments m_loader {M K V A} _.
Arguments m_entries {M K V A} _.
Arguments m_isPRSingleHopEnabled {M K V A} _.
Arguments expProperties {M K V A} _.
Arguments m_cacheStatistics {M K V A} _.
Arguments ancestors {M K V A} _.
Arguments txState {M K V A} _.
Arguments clock {M K V A} _.
Arguments expiryTaskManager {M K V A} _.
Arguments calls {M K V A} _.

Section Update.
Context {M K V A : Type}.
Implicit Types r : t M K V A.

Definition with_entries (e : option M) r : t M K V A :=
  mk (m_regionAttributes r) (m_destroyPending r) (m_released r) (m_listener r) (m_writer r) (m_loader r)
     e (m_isPRSingleHopEnabled r) (expProperties r) (m_cacheStatistics r) (ancestors r) (txState r)
     (clock r) (expiryTaskManager r) (calls r).
Definition with_exp (e : gmap EntryPtr ExpEntryProperties) (m : ExpiryTaskManager.t EntryExpiryTask) r : t M K V A :=
  mk (m_regionAttributes r) (m_destroyPending r) (m_released r) (m_listener r) (m_writer r) (m_loader r)
     (m_entries r) (m_isPRSingleHopEnabled r) e (m_cacheStatistics r) (ancestors r) (txState r)
     (clock r) m (calls r).
Definition with_times (s : CacheStatistics) (up : list (bool * CacheStatistics)) r : t M K V A :=
  mk (m_regionAttributes r) (m_destroyPending r) (m_released r) (m_listener r) (m_writer r) (m_loader r)
     (m_entries r) (m_isPRSingleHopEnabled r) (expProperties r) s up (txState r)
     (clock r) (expiryTaskManager r) (calls r).
Definition with_tx (x : option bool) r : t M K V A :=
  mk (m_regionAttributes r) (m_destroyPending r) (m_released r) (m_listener r) (m_writer r) (m_loader r)
     (m_entries r) (m_isPRSingleHopEnabled r) (expProperties r) (m_cacheStatistics r) (ancestors r) x
     (clock r) (expiryTaskManager r) (calls r).
Definition with_calls (c : list (Call K V A)) r : t M K V A :=
  mk (m_regionAttributes r) (m_destroyPending r) (m_released r) (m_listener r) (m_writer r) (m_loader r)
     (m_entries r) (m_isPRSingleHopEnabled r) (expProperties r) (m_cacheStatistics r) (ancestors r) (txState r)
     (clock r) (expiryTaskManager r) c.
Definition with_clock (c : Z) r : t M K V A :=
  mk (m_regionAttributes r) (m_destroyPending r) (m_released r) (m_listener r) (m_writer r) (m_loader r)
     (m_entries r) (m_isPRSingleHopEnabled r) (expProperties r) (m_cacheStatistics r) (ancestors r) (txState r)
     c (expiryTaskManager r) (calls r).
Definition with_flags (pending released : bool) r : t M K V A :=
  mk (m_regionAttributes r) pending released (m_listener r) (m_writer r) (m_loader r)
     (m_entries r) (m_isPRSingleHopEnabled r) (expProperties r) (m_cacheStatistics r) (ancestors r) (txState r)
     (clock r) (expiryTaskManager r) (calls r).
Definition with_attributes (a : RegionAttributes) r : t M K V A :=
  mk a (m_destroyPending r) (m_released r) (m_listener r) (m_writer r) (m_loader r)
     (m_entries r) (m_isPRSingleHopEnabled r) (expProperties r) (m_cacheStatistics r) (ancestors r) (txState r)
     (clock r) (expiryTaskManager r) (calls r).

(** [m_entries->f]. *)
Definition on_entries {X} (f : ST M X) : ST (t M K V A) X := fun r =>
  match m_entries r with
  | None => Throw UndefinedBehaviour
  | Some m => match f m with Ok (x, m') => Ok (x, with_entries (Some m') r) | Throw e => Throw e end
  end.

(** A call that leaves the region, and what its answer is computed from. *)
Definition call (c : Call K V A) : ST (t M K V A) (list (Call K V A)) := fun r =>
  Ok (c :: calls r, with_calls (c :: calls r) r).

End Update.

(** The virtual functions of a region that its subclasses override. Reference parameters are
    passed in and returned. [getAllNoThrow_remote] is given the values found so far. *)
Record Virtuals (M K V A E : Type) := mkVirtuals {
  getNoThrow_remote : K -> option (Cacheable V) -> option A ->
    ST (t M K V A) (GfErrType * option (Cacheable V) * option VersionTag.t);
  putNoThrow_remote : K -> option (Cacheable V) -> option A -> option VersionTag.t ->
    ST (t M K V A) (GfErrType * option VersionTag.t);
  createNoThrow_remote : K -> option (Cacheable V) -> option A -> option VersionTag.t ->
    ST (t M K V A) (GfErrType * option VersionTag.t);
  destroyNoThrow_remote : K -> option A -> option VersionTag.t -> ST (t M K V A) (GfErrType * option VersionTag.t);
  removeNoThrow_remote : K -> option (Cacheable V) -> option A -> option VersionTag.t ->
    ST (t M K V A) (GfErrType * option VersionTag.t);
  removeNoThrowEX_remote : K -> option A -> option VersionTag.t -> ST (t M K V A) (GfErrType * option VersionTag.t);
  invalidateNoThrow_remote : K -> option A -> option VersionTag.t ->
    ST (t M K V A) (GfErrType * option VersionTag.t);
  getNoThrow_FullObject : option E -> option (Cacheable V) ->
    ST (t M K V A) (GfErrType * option (Cacheable V) * option VersionTag.t);
  getAllNoThrow_remote : list K -> list (K * option (Cacheable V)) -> bool -> option A ->
    ST (t M K V A) (GfErrType * list (K * option (Cacheable V)));
  putAllNoThrow_remote : list (K * option (Cacheable V)) -> option A ->
    ST (t M K V A) (GfErrType * option (PartList K));
  removeAllNoThrow_remote : list K -> option A -> ST (t M K V A) (GfErrType * option (PartList K));
  invalidateRegionNoThrow_remote : option A -> ST (t M K V A) GfErrType;
  destroyRegionNoThrow_remote : option A -> ST (t M K V A) GfErrType;
  unregisterKeysBeforeDestroyRegion : ST (t M K V A) GfErrType;
  getProcessedMarker : bool;
  isLocalRegion : bool       (** [typeid( *this) == typeid(LocalRegion)] *)
}.
Arguments mkVirtuals {M K V A E} _ _ _ _ _ _ _ _ _ _ _ _ _ _ _ _.
Arguments getNoThrow_remote {M K V A E} _ _ _ _.
Arguments putNoThrow_remote {M K V A E} _ _ _ _ _.
Arguments createNoThrow_remote {M K V A E} _ _ _ _ _.
Arguments destroyNoThrow_remote {M K V A E} _ _ _ _.
Arguments removeNoThrow_remote {M K V A E} _ _ _ _ _.
Arguments removeNoThrowEX_remote {M K V A E} _ _ _ _.
Arguments invalidateNoThrow_remote {M K V A E} _ _ _ _.
Arguments getNoThrow_FullObject {M K V A E} _ _ _.
Arguments getAllNoThrow_remote {M K V A E} _ _ _ _ _.
Arguments putAllNoThrow_remote {M K V A E} _ _ _.
Arguments removeAllNoThrow_remote {M K V A E} _ _ _.
Arguments invalidateRegionNoThrow_remote {M K V A E} _ _.
Arguments destroyRegionNoThrow_remote {M K V A E} _ _.
Arguments unregisterKeysBeforeDestroyRegion {M K V A E} _.
Arguments getProcessedMarker {M K V A E} _.
Arguments isLocalRegion {M K V A E} _.

(** Those of [LocalRegion] itself. *)
Definition local_virtuals {M K V A E} : Virtuals M K V A E :=
  mkVirtuals
    (fun _ v _ => mret (GF_NOERR, v, None))
    (fun _ _ _ tag => mret (GF_NOERR, tag))
    (fun _ _ _ tag => mret (GF_NOERR, tag))
    (fun _ _ tag => mret (GF_NOERR, tag))
    (fun _ _ _ tag => mret (GF_NOERR, tag))
    (fun _ _ tag => mret (GF_NOERR, tag))
    (fun _ _ tag => mret (GF_NOERR, tag))
    (fun _ v => mret (GF_NOERR, v, None))
    (fun _ vs _ _ => mret (GF_NOERR, vs))
    (fun _ _ => mret (GF_NOERR, None))
    (fun _ _ => mret (GF_NOERR, None))
    (fun _ => mret GF_NOERR)
    (fun _ => mret GF_NOERR)
    (mret GF_NOERR)
    true true.

(** The actions that [updateNoThrow] is a template over. *)
Inductive TAction :=
| PutActions | PutActionsTx | CreateActions | DestroyActions | RemoveActions | RemoveActionsEx
| InvalidateActions.

Definition s_beforeEventType (a : TAction) : EntryEventType :=
  match a with
  | PutActions | PutActionsTx => BEFORE_UPDATE
  | CreateActions => BEFORE_CREATE
  | DestroyActions | RemoveActions | RemoveActionsEx => BEFORE_DESTROY
  | InvalidateActions => BEFORE_INVALIDATE
  end.
Definition s_afterEventType (a : TAction) : EntryEventType :=
  match a with
  | PutActions | PutActionsTx => AFTER_UPDATE
  | CreateActions => AFTER_CREATE
  | DestroyActions | RemoveActions | RemoveActionsEx => AFTER_DESTROY
  | InvalidateActions => AFTER_INVALIDATE
  end.
Definition s_addIfAbsent (a : TAction) : bool := true.
Definition s_failIfPresent (a : TAction) : bool := match a with CreateActions => true | _ => false end.
Definition allowNULLValue (a : TAction) : bool := match a with RemoveActionsEx => true | _ => false end.

Section Operations.
Context {M K V D A E : Type} `{HM : EntriesMap M K V D}.
Abbreviation R := (t M K V A).
Abbreviation value := (option (Cacheable V)).
Context (virt : Virtuals M K V A E) (app : Callbacks K V A).
(** Comparison of the bytes of two objects, for the classes of objects that have it. *)
Context (valueEq : V -> V -> bool).

Definition is_null {X} (x : option X) : bool := match x with None => true | Some _ => false end.

(** [CHECK_DESTROY_PENDING_NOTHROW]: [x] is returned with the error. *)
Definition check_destroy_pending_nothrow {X} (ret : GfErrType -> X) (body : ST R X) : ST R X :=
  r ← st_get;
  if m_destroyPending r then mret (ret GF_CACHE_REGION_DESTROYED_EXCEPTION) else body.
(** [CHECK_DESTROY_PENDING]. *)
Definition check_destroy_pending {X} (body : ST R X) : ST R X :=
  r ← st_get;
  if m_destroyPending r then st_throw RegionDestroyedException else body.

(** A local object whose destructor runs [cleanup] when [body] returns. *)
Definition at_exit {X} (body : ST R X) (cleanup : ST R unit) : ST R X :=
  x ← body; cleanup;; mret x.

Definition attr {X} (f : RegionAttributes -> X) : ST R X := st_gets (fun r => f (m_regionAttributes r)).
Definition getCachingEnabled : ST R bool := attr m_caching.
Definition getConcurrencyChecksEnabled : ST R bool := attr m_isConcurrencyChecksEnabled.

Definition remote {X} (q : Request K V A) (f : ST R X) : ST R X := call (Remote q);; f.

(** *** Times and expiration *)

Fixpoint touch_ancestors (now : Z) (modified : bool) (up : list (bool * CacheStatistics))
    : list (bool * CacheStatistics) :=
  match up with
  | [] => []
  | (expires, s) :: up' =>
    if negb expires then up
    else (expires, mkStats now (if modified then now else m_lastModifiedTime s)) :: touch_ancestors now modified up'
  end.

Definition updateAccessAndModifiedTime (modified : bool) : ST R unit :=
  enabled ← attr getRegionExpiryEnabled;
  if negb enabled then mret tt
  else st_modify (fun r =>
    let s := m_cacheStatistics r in
    with_times (mkStats (clock r) (if modified then clock r else m_lastModifiedTime s))
               (touch_ancestors (clock r) modified (ancestors r)) r).

Definition getExpProperties (p : EntryPtr) (r : R) : ExpEntryProperties :=
  match expProperties r !! p with Some e => e | None => new_exp end.

Definition updateAccessAndModifiedTimeForEntry (ptr : option EntryPtr) (modified : bool) : ST R unit :=
  enabled ← attr getEntryExpiryEnabled;
  match ptr with
  | Some p =>
    if enabled : bool then st_modify (fun r =>
      let e := getExpProperties p r in
      with_exp (<[p := mkExp (clock r) (if modified then clock r else last_modified_ e) (exp_task_id_ e)]> (expProperties r))
               (expiryTaskManager r) r)
    else mret tt
  | None => mret tt
  end.

Definition getEntryExpirationAction (a : RegionAttributes) : ExpirationAction :=
  if 0 <? m_entryTimeToLive a then m_entryTimeToLiveExpirationAction a
  else m_entryIdleTimeoutExpirationAction a.
Definition getEntryExpiryDuration (a : RegionAttributes) : Z :=
  if 0 <? m_entryTimeToLive a then m_entryTimeToLive a else m_entryIdleTimeout a.

Definition getRegionExpiryAction (a : RegionAttributes) : ExpirationAction :=
  if 0 <? m_regionTimeToLive a then m_regionTimeToLiveExpirationAction a
  else m_regionIdleTimeoutExpirationAction a.
Definition getRegionExpiryDuration (a : RegionAttributes) : Z :=
  if 0 <? m_regionTimeToLive a then m_regionTimeToLive a else m_regionIdleTimeout a.

(** Seconds in ticks of the clock. *)
Definition ticks (seconds : Z) : Z := seconds * 1000000000.

Definition registerEntryExpiryTask (entry : option EntryPtr) : ST R unit :=
  p ← non_null entry;
  st_modify (fun r =>
    let a := m_regionAttributes r in
    let duration := ticks (getEntryExpiryDuration a) in
    let task := mkEntryTask p (getEntryExpirationAction a) duration (clock r + duration) in
    let '(id, m) := ExpiryTaskManager.schedule task (expiryTaskManager r) in
    let e := getExpProperties p r in
    with_exp (<[p := mkExp (last_accessed_ e) (last_modified_ e) id]> (expProperties r)) m r).

(** [MapEntryImpl::cleanup]: the expiry task of an entry that can expire is cancelled. *)
Definition cleanup (p : EntryPtr) (eventFlags : Z) : ST R unit :=
  enabled ← attr getEntryExpiryEnabled;
  if (enabled : bool) && negb (CacheEventFlags.isExpiration eventFlags) then st_modify (fun r =>
    with_exp (expProperties r) (ExpiryTaskManager.cancel (exp_task_id_ (getExpProperties p r)) (expiryTaskManager r)).2 r)
  else mret tt.

(** *** The callbacks *)

(** Whether the operation may go on, and [oldValue]. *)
Definition invokeCacheWriterForEntryEvent (key : K) (oldValue newValue : value) (arg : option A)
    (eventFlags : Z) (type : EntryEventType) : ST R (bool * value) :=
  r ← st_get;
  if negb (m_writer r) then mret (true, oldValue)
  else
    let oldValue := if isInvalid oldValue then None else oldValue in
    let event := mkEvent key oldValue newValue arg (CacheEventFlags.isNotification eventFlags) in
    let ask c : ST R bool :=
      h ← call c; mret (match cb_writer app h with Some b => b | None => false end) in
    ok ← match type with
         | BEFORE_UPDATE => ask (if is_null oldValue then BeforeCreate event else BeforeUpdate event)
         | BEFORE_CREATE => ask (BeforeCreate event)
         | BEFORE_DESTROY => ask (BeforeDestroy event)
         | _ => mret true
         end;
    mret (ok, oldValue).

Definition invokeCacheWriterForRegionEvent (arg : option A) (eventFlags : Z) (type : RegionEventType) : ST R bool :=
  r ← st_get;
  if negb (m_writer r) then mret true
  else
    let event := mkRegionEvent arg (CacheEventFlags.isNotification eventFlags) in
    let ask c : ST R bool :=
      h ← call c; mret (match cb_writer app h with Some b => b | None => false end) in
    match type with
    | BEFORE_REGION_DESTROY => ask (BeforeRegionDestroy event)
    | BEFORE_REGION_CLEAR => ask (BeforeRegionClear event)
    | _ => mret true
    end.

Definition tell (c : Call K V A) : ST R GfErrType :=
  h ← call c; mret (if cb_listener app h then GF_NOERR else GF_CACHE_LISTENER_EXCEPTION).

(** The error and [oldValue]. *)
Definition invokeCacheListenerForEntryEvent (key : K) (oldValue newValue : value) (arg : option A)
    (eventFlags : Z) (type : EntryEventType) (isLocal : bool) : ST R (GfErrType * value) :=
  r ← st_get;
  if negb (m_listener r) then mret (GF_NOERR, oldValue)
  else
    let oldValue := if isInvalid oldValue then None else oldValue in
    let event := mkEvent key oldValue newValue arg (CacheEventFlags.isNotification eventFlags) in
    err ← match type with
          | AFTER_UPDATE =>
            tell (if negb (is_null oldValue) || CacheEventFlags.isNotificationUpdate eventFlags || isLocal
                  then AfterUpdate event else AfterCreate event)
          | AFTER_CREATE => tell (AfterCreate event)
          | AFTER_DESTROY => tell (AfterDestroy event)
          | AFTER_INVALIDATE => tell (AfterInvalidate event)
          | _ => mret GF_NOERR
          end;
    mret (err, oldValue).

Definition invokeCacheListenerForRegionEvent (arg : option A) (eventFlags : Z) (type : RegionEventType)
    : ST R GfErrType :=
  r ← st_get;
  if negb (m_listener r) then mret GF_NOERR
  else
    let event := mkRegionEvent arg (CacheEventFlags.isNotification eventFlags) in
    match type with
    | AFTER_REGION_DESTROY =>
      err ← tell (AfterRegionDestroy event);
      if decide (err = GF_NOERR) then
        if CacheEventFlags.isCacheClose eventFlags then tell ListenerClose else mret GF_NOERR
      else mret err
    | AFTER_REGION_INVALIDATE => tell (AfterRegionInvalidate event)
    | AFTER_REGION_CLEAR => tell (AfterRegionClear event)
    | _ => mret GF_NOERR
    end.

(** *** Local changes *)

(** The end of [putLocal]: the times and the expiry task of the entry. *)
Definition putLocal_done (err : GfErrType) (entry : option EntryPtr) (oldValue : value) (isUpdate : bool) (v : value)
    : ST R (GfErrType * value * value) :=
  if negb (bool_decide (err = GF_NOERR)) then mret (err, oldValue, v)
  else
    enabled ← attr getEntryExpiryEnabled;
    (if enabled : bool then
       scheduled ← (if isUpdate then p ← non_null entry; st_gets (fun r => task_scheduled (getExpProperties p r))
                    else mret false);
       if scheduled : bool then updateAccessAndModifiedTimeForEntry entry true
       else registerEntryExpiryTask entry
     else mret tt);;
    updateAccessAndModifiedTime true;;
    mret (GF_NOERR, oldValue, v).

(** Returns the error, [oldValue] and [value], which a full object or a delta replaces. *)
Definition putLocal (isCreate : bool) (key : K) (v : value) (oldValue : value) (cachingEnabled : bool)
    (updateCount destroyTracker : Z) (versionTag : option VersionTag.t) (delta : option D) (eventId : option E)
    : ST R (GfErrType * value * value) :=
  if cachingEnabled then
    '(err, entry, oldValue, isUpdate, v) ←
      (if isCreate then
         '(err, entry, oldValue) ← on_entries (em_create key v None oldValue updateCount destroyTracker versionTag);
         mret (err, entry, oldValue, false, v)
       else
         '(err, entry, oldValue, isUpdate, v) ←
           on_entries (em_put key v None oldValue updateCount destroyTracker versionTag true delta);
         if decide (err = GF_INVALID_DELTA) then
           '(err, newValue1, versionTag1) ← remote RFullObject (getNoThrow_FullObject virt eventId v);
           if bool_decide (err = GF_NOERR) && negb (is_null newValue1) then
             on_entries (em_put key newValue1 entry oldValue updateCount destroyTracker
                           (match versionTag1 with Some _ => versionTag1 | None => versionTag end) isUpdate None)
           else mret (err, entry, oldValue, isUpdate, newValue1)
         else mret (err, entry, oldValue, isUpdate, v));
    putLocal_done err entry oldValue isUpdate v
  else mret (GF_NOERR, oldValue, v).

Definition invalidateLocal (key : option K) (v : value) (eventFlags : Z) (versionTag : option VersionTag.t)
    : ST R GfErrType :=
  match key with
  | None => mret GF_CACHE_ILLEGAL_ARGUMENT_EXCEPTION
  | Some key =>
    check_destroy_pending_nothrow id (
      cachingEnabled ← getCachingEnabled;
      if negb (CacheEventFlags.isNotification eventFlags) || getProcessedMarker virt then
        if cachingEnabled : bool then
          '(err, me, oldValue) ← on_entries (em_invalidate key None None versionTag);
          let touch : ST R GfErrType :=
            (if CacheEventFlags.isEvictOrExpire eventFlags then mret tt else updateAccessAndModifiedTime true);;
            mret GF_NOERR in
          if negb (bool_decide (err = GF_NOERR)) then
            if decide (err = GF_CACHE_CONCURRENT_MODIFICATION_EXCEPTION) then mret GF_NOERR
            else if negb (CacheEventFlags.isNotification eventFlags) ||
                    negb (bool_decide (err = GF_CACHE_ENTRY_NOT_FOUND)) then mret err
            else touch
          else touch
        else mret GF_NOERR
      else
        (if cachingEnabled : bool then on_entries (em_getEntry key);; mret tt else mret tt);;
        mret GF_NOERR)
  end.

(** [LocalRegion::getEntry(key, valuePtr)]. *)
Definition getEntry (key : option K) (valuePtr : value) : ST R value :=
  match key with
  | None => st_throw IllegalArgumentException
  | Some key =>
    check_destroy_pending (
      cachingEnabled ← getCachingEnabled;
      if cachingEnabled : bool then '(_, v) ← on_entries (em_getEntry key); mret v else mret valuePtr)
  end.

(** *** The parts of the actions *)

Definition checkArgs (a : TAction) (key : option K) (v : value) (delta : option D) : GfErrType :=
  match a with
  | PutActions => if is_null key || (is_null v && is_null delta) then GF_CACHE_ILLEGAL_ARGUMENT_EXCEPTION else GF_NOERR
  | _ => if is_null key then GF_CACHE_ILLEGAL_ARGUMENT_EXCEPTION else GF_NOERR
  end.

(** [oldValue]; the entry is not used afterwards. *)
Definition getCallbackOldValue (a : TAction) (cachingEnabled : bool) (key : K) (oldValue : value) : ST R value :=
  match a with
  | CreateActions => mret oldValue
  | _ => if cachingEnabled then '(_, v) ← on_entries (em_getEntry key); mret v else mret oldValue
  end.

(** The classes of the objects of the application are not those of the tokens. *)
Definition serializedEqualTo (lhs rhs : Cacheable V) : bool :=
  match lhs, rhs with
  | Obj a, Obj b => valueEq a b
  | InvalidToken, InvalidToken | DestroyedToken, DestroyedToken
  | OverflowedToken, OverflowedToken | TombstoneToken, TombstoneToken => true
  | _, _ => false
  end.

(** The error, the tag and [m_ServerResponse]. *)
Definition RemoveActions_remoteUpdate (a : TAction) (m_ServerResponse : GfErrType) (key : K) (newValue : value)
    (arg : option A) (versionTag : option VersionTag.t) : ST R (GfErrType * option VersionTag.t * GfErrType) :=
  let remove : ST R (GfErrType * option VersionTag.t * GfErrType) :=
    '(err, tag) ← remote (RRemove key newValue arg) (removeNoThrow_remote virt key newValue arg versionTag);
    mret (err, tag, err) in
  let rest : ST R (GfErrType * option VersionTag.t * GfErrType) :=
    if allowNULLValue a then
      '(err, tag) ← remote (RRemoveEX key arg) (removeNoThrowEX_remote virt key arg versionTag);
      mret (err, tag, err)
    else remove in
  cachingEnabled ← getCachingEnabled;
  if negb (allowNULLValue a) && cachingEnabled then
    oldValue ← getEntry (Some key) None;
    match oldValue, newValue with
    | Some o, Some n =>
      if serializedEqualTo o n then rest else mret (GF_ENOENT, versionTag, m_ServerResponse)
    | None, _ => remove
    | Some o, None =>
      if isInvalid oldValue then remove else mret (GF_ENOENT, versionTag, m_ServerResponse)
    end
  else rest.

Definition remoteUpdate (a : TAction) (m_ServerResponse : GfErrType) (key : K) (v : value) (arg : option A)
    (versionTag : option VersionTag.t) : ST R (GfErrType * option VersionTag.t * GfErrType) :=
  match a with
  | PutActions | PutActionsTx =>
    '(err, tag) ← remote (RPut key v arg) (putNoThrow_remote virt key v arg versionTag);
    mret (err, tag, m_ServerResponse)
  | CreateActions =>
    '(err, tag) ← remote (RCreate key v arg) (createNoThrow_remote virt key v arg versionTag);
    mret (err, tag, m_ServerResponse)
  | DestroyActions =>
    '(err, tag) ← remote (RDestroy key arg) (destroyNoThrow_remote virt key arg versionTag);
    mret (err, tag, m_ServerResponse)
  | InvalidateActions =>
    '(err, tag) ← remote (RInvalidate key arg) (invalidateNoThrow_remote virt key arg versionTag);
    mret (err, tag, m_ServerResponse)
  | RemoveActions | RemoveActionsEx => RemoveActions_remoteUpdate a m_ServerResponse key v arg versionTag
  end.

(** The body that [DestroyActions::localUpdate] and [RemoveActions::localUpdate] share. *)
Definition removeLocal (key : K) (oldValue : value) (cachingEnabled : bool) (eventFlags updateCount : Z)
    (versionTag : option VersionTag.t) (afterRemote : bool) : ST R (GfErrType * value) :=
  if cachingEnabled then
    '(err, oldValue, entry) ← on_entries (em_remove key oldValue None updateCount versionTag afterRemote);
    if negb (bool_decide (err = GF_NOERR)) then
      mret (if CacheEventFlags.isNotification eventFlags then GF_NOERR else err, oldValue)
    else
      (match oldValue with
       | Some _ =>
         (match entry with Some p => cleanup p eventFlags | None => mret tt end);;
         if CacheEventFlags.isEvictOrExpire eventFlags then mret tt else updateAccessAndModifiedTime true
       | None => mret tt
       end);;
      mret (GF_NOERR, oldValue)
  else mret (GF_NOERR, oldValue).

(** Returns the error, [oldValue] and [value]. *)
Definition RemoveActions_localUpdate (a : TAction) (m_ServerResponse : GfErrType) (key : K) (v oldValue : value)
    (cachingEnabled : bool) (eventFlags updateCount : Z) (versionTag : option VersionTag.t) (afterRemote : bool)
    : ST R (GfErrType * value * value) :=
  let rest : ST R (GfErrType * value * value) :=
    '(err, oldValue) ← removeLocal key oldValue cachingEnabled eventFlags updateCount versionTag afterRemote;
    mret (err, oldValue, v) in
  if negb (allowNULLValue a) && cachingEnabled then
    valuePtr ← getEntry (Some key) None;
    match valuePtr, v with
    | Some o, Some n => if serializedEqualTo o n then rest else mret (GF_ENOENT, oldValue, v)
    | _, None =>
      if negb (isInvalid valuePtr) || is_null valuePtr then
        cc ← getConcurrencyChecksEnabled;
        (if (0 <=? updateCount) && negb cc then on_entries (em_removeTrackerForEntry key) else mret tt);;
        mret (if bool_decide (m_ServerResponse = GF_NOERR) && is_null valuePtr then GF_NOERR else GF_ENOENT, oldValue, v)
      else rest
    | None, Some _ =>
      if negb (bool_decide (m_ServerResponse = GF_NOERR)) then mret (GF_ENOENT, oldValue, v) else rest
    end
  else rest.

(** Returns the error, [oldValue] and [value]. *)
Definition localUpdate (a : TAction) (m_ServerResponse : GfErrType) (key : K) (v oldValue : value)
    (cachingEnabled : bool) (eventFlags updateCount : Z) (versionTag : option VersionTag.t) (delta : option D)
    (eventId : option E) (afterRemote : bool) : ST R (GfErrType * value * value) :=
  match a with
  | PutActions | PutActionsTx =>
    putLocal false key v oldValue cachingEnabled updateCount 0 versionTag delta eventId
  | CreateActions => putLocal true key v oldValue cachingEnabled updateCount 0 versionTag None None
  | DestroyActions =>
    '(err, oldValue) ← removeLocal key oldValue cachingEnabled eventFlags updateCount versionTag afterRemote;
    mret (err, oldValue, v)
  | RemoveActions | RemoveActionsEx =>
    RemoveActions_localUpdate a m_ServerResponse key v oldValue cachingEnabled eventFlags updateCount
      versionTag afterRemote
  | InvalidateActions =>
    err ← invalidateLocal (Some key) v eventFlags versionTag;
    mret (err, oldValue, v)
  end.

(** *** Updates *)

Definition isLocalOp (eventFlags : option Z) : bool :=
  isLocalRegion virt || match eventFlags with Some f => CacheEventFlags.isLocal f | None => false end.

(** In a transaction the operation is sent to the server only. *)
Definition in_transaction {X} (isLocal : bool) (ret : GfErrType -> X) (op : ST R (GfErrType * X)) : ST R X :=
  if isLocal then mret (ret GF_NOTSUP)
  else
    '(err, x) ← op;
    (if decide (err = GF_NOERR) then st_modify (with_tx (Some true)) else mret tt);;
    mret x.

Definition remove_tracking (key : K) (updateCount : Z) : ST R unit :=
  cc ← getConcurrencyChecksEnabled;
  if (0 <=? updateCount) && negb cc then on_entries (em_removeTrackerForEntry key) else mret tt.

(** The part of [updateNoThrow] before the remote operation: the writer. Whether the
    operation may go on, and [oldValue]. *)
Definition askWriter (a : TAction) (key : K) (v : value) (arg : option A) (oldValue : value)
    (cachingEnabled : bool) (eventFlags : Z) : ST R (bool * value) :=
  r ← st_get;
  if m_writer r && CacheEventFlags.invokeCacheWriter eventFlags then
    oldValue ← getCallbackOldValue a cachingEnabled key oldValue;
    invokeCacheWriterForEntryEvent key oldValue v arg eventFlags (s_beforeEventType a)
  else mret (true, oldValue).

(** The remote operation. [inl] is an early return; otherwise [oldValue], the update count, the
    tag, [m_ServerResponse] and [remoteOpDone]. *)
Definition doRemote (a : TAction) (key : K) (v : value) (arg : option A) (oldValue : value)
    (cachingEnabled : bool) (updateCount eventFlags : Z) (versionTag : option VersionTag.t)
    : ST R ((GfErrType * value) + (value * Z * option VersionTag.t * GfErrType * bool)) :=
  if negb (CacheEventFlags.isLocal eventFlags) && negb (CacheEventFlags.isNotification eventFlags) then
    cc ← getConcurrencyChecksEnabled;
    '(updateCount, oldValue, exists_) ←
      (if cachingEnabled && (updateCount <? 0) && negb cc then
         '(updateCount, oldValue) ←
           on_entries (em_addTrackerForEntry key oldValue (s_addIfAbsent a) (s_failIfPresent a) true);
         mret (updateCount, oldValue, (updateCount <? 0) && negb (is_null oldValue))
       else mret (updateCount, oldValue, false));
    if exists_ : bool then mret (inl (GF_CACHE_ENTRY_EXISTS, oldValue))
    else
      '(err, versionTag, m_ServerResponse) ← remoteUpdate a GF_ENOENT key v arg versionTag;
      if negb (bool_decide (err = GF_NOERR)) then
        remove_tracking key updateCount;;
        mret (inl (err, oldValue))
      else mret (inr (oldValue, updateCount, versionTag, m_ServerResponse, true))
  else mret (inr (oldValue, updateCount, versionTag, GF_ENOENT, false)).

(** The local operation. [inl] is an early return; otherwise the error, [oldValue] and [value]. *)
Definition doLocal (a : TAction) (m_ServerResponse : GfErrType) (key : K) (v oldValue : value)
    (cachingEnabled : bool) (eventFlags updateCount : Z) (versionTag : option VersionTag.t) (delta : option D)
    (eventId : option E) (remoteOpDone : bool) : ST R ((GfErrType * value * value) + (GfErrType * value * value)) :=
  if negb (CacheEventFlags.isNotification eventFlags) || getProcessedMarker virt then
    '(err, oldValue, v) ←
      localUpdate a m_ServerResponse key v oldValue cachingEnabled eventFlags updateCount versionTag delta eventId
        remoteOpDone;
    if decide (err = GF_CACHE_ENTRY_UPDATED) then mret (inr (GF_NOERR, oldValue, v))
    else if decide (err = GF_CACHE_CONCURRENT_MODIFICATION_EXCEPTION) then mret (inl (GF_NOERR, oldValue, v))
    else if decide (err = GF_INVALID_DELTA) then
      '(err, newValue1, versionTag1) ← remote RFullObject (getNoThrow_FullObject virt eventId v);
      if bool_decide (err = GF_NOERR) && negb (is_null newValue1) then
        '(err, _, oldValue, _, newValue1) ←
          on_entries (em_put key newValue1 None oldValue updateCount 0
                        (match versionTag1 with Some _ => versionTag1 | None => versionTag end) false None);
        if decide (err = GF_CACHE_CONCURRENT_MODIFICATION_EXCEPTION) then mret (inl (GF_NOERR, oldValue, newValue1))
        else if negb (bool_decide (err = GF_NOERR)) then mret (inl (err, oldValue, newValue1))
        else mret (inr (GF_NOERR, oldValue, newValue1))
      else mret (inr (err, oldValue, newValue1))
    else if negb (bool_decide (err = GF_NOERR)) then mret (inl (err, oldValue, v))
    else mret (inr (GF_NOERR, oldValue, v))
  else
    oldValue ← getCallbackOldValue a cachingEnabled key oldValue;
    remove_tracking key updateCount;;
    mret (inr (GF_NOERR, oldValue, v)).

(** Returns the error, [oldValue] and [value]. *)
Definition updateNoThrow (a : TAction) (key : option K) (v : value) (arg : option A) (oldValue : value)
    (updateCount eventFlags : Z) (versionTag : option VersionTag.t) (delta : option D) (eventId : option E)
    : ST R (GfErrType * value * value) :=
  let err := checkArgs a key v delta in
  if negb (bool_decide (err = GF_NOERR)) then mret (err, oldValue, v)
  else
    check_destroy_pending_nothrow (fun err => (err, oldValue, v)) (
      key ← non_null key;
      r ← st_get;
      match txState r with
      | Some _ =>
        in_transaction (isLocalOp (Some eventFlags)) (fun err => (err, oldValue, v)) (
          '(err, _, _) ← remoteUpdate a GF_ENOENT key v arg versionTag;
          mret (err, (err, oldValue, v)))
      | None =>
        cachingEnabled ← getCachingEnabled;
        '(go, oldValue) ← askWriter a key v arg oldValue cachingEnabled eventFlags;
        if negb go then mret (GF_CACHEWRITER_ERROR, oldValue, v)
        else
          res ← doRemote a key v arg oldValue cachingEnabled updateCount eventFlags versionTag;
          match res with
          | inl (err, oldValue) => mret (err, oldValue, v)
          | inr (oldValue, updateCount, versionTag, m_ServerResponse, remoteOpDone) =>
            res ← doLocal a m_ServerResponse key v oldValue cachingEnabled eventFlags updateCount versionTag delta
                    eventId remoteOpDone;
            match res with
            | inl ret => mret ret
            | inr (err, oldValue, v) =>
              if CacheEventFlags.isNoCallbacks eventFlags then mret (err, oldValue, v)
              else
                '(err, oldValue) ← invokeCacheListenerForEntryEvent key oldValue v arg eventFlags (s_afterEventType a) false;
                mret (err, oldValue, v)
            end
          end
      end).

(** The local part of a committed transaction. *)
Definition updateNoThrowTX (a : TAction) (key : option K) (v : value) (arg : option A) (oldValue : value)
    (updateCount eventFlags : Z) (versionTag : option VersionTag.t) (delta : option D) (eventId : option E)
    : ST R (GfErrType * value * value) :=
  let err := checkArgs a key v delta in
  if negb (bool_decide (err = GF_NOERR)) then mret (err, oldValue, v)
  else
    check_destroy_pending_nothrow (fun err => (err, oldValue, v)) (
      key ← non_null key;
      cachingEnabled ← getCachingEnabled;
      let listen oldValue v : ST R (GfErrType * value * value) :=
        '(err, oldValue) ← invokeCacheListenerForEntryEvent key oldValue v arg eventFlags (s_afterEventType a) false;
        mret (err, oldValue, v) in
      if negb (CacheEventFlags.isNotification eventFlags) || getProcessedMarker virt then
        '(err, oldValue, v) ←
          localUpdate a GF_ENOENT key v oldValue cachingEnabled eventFlags updateCount versionTag delta eventId false;
        if decide (err = GF_CACHE_ENTRY_UPDATED) then listen oldValue v
        else if decide (err = GF_CACHE_ENTRY_NOT_FOUND) then listen oldValue v
        else if negb (bool_decide (err = GF_NOERR)) then mret (err, oldValue, v)
        else listen oldValue v
      else
        oldValue ← getCallbackOldValue a cachingEnabled key oldValue;
        remove_tracking key updateCount;;
        listen oldValue v).

Definition err_of (x : GfErrType * value * value) : GfErrType := x.1.1.

Definition putNoThrow (key : option K) (v : value) (arg : option A) (oldValue : value) (updateCount eventFlags : Z)
    (versionTag : option VersionTag.t) (delta : option D) (eventId : option E) : ST R (GfErrType * value * value) :=
  updateNoThrow PutActions key v arg oldValue updateCount eventFlags versionTag delta eventId.
Definition putNoThrowTX (key : option K) (v : value) (arg : option A) (oldValue : value) (updateCount eventFlags : Z)
    (versionTag : option VersionTag.t) (delta : option D) (eventId : option E) : ST R (GfErrType * value * value) :=
  updateNoThrowTX PutActionsTx key v arg oldValue updateCount eventFlags versionTag delta eventId.
Definition createNoThrow (key : option K) (v : value) (arg : option A) (updateCount eventFlags : Z)
    (versionTag : option VersionTag.t) : ST R GfErrType :=
  err_of <$> updateNoThrow CreateActions key v arg None updateCount eventFlags versionTag None None.
Definition destroyNoThrow (key : option K) (arg : option A) (updateCount eventFlags : Z)
    (versionTag : option VersionTag.t) : ST R GfErrType :=
  err_of <$> updateNoThrow DestroyActions key None arg None updateCount eventFlags versionTag None None.
Definition destroyNoThrowTX (key : option K) (arg : option A) (updateCount eventFlags : Z)
    (versionTag : option VersionTag.t) : ST R GfErrType :=
  err_of <$> updateNoThrowTX DestroyActions key None arg None updateCount eventFlags versionTag None None.
Definition removeNoThrow (key : option K) (v : value) (arg : option A) (updateCount eventFlags : Z)
    (versionTag : option VersionTag.t) : ST R GfErrType :=
  err_of <$> updateNoThrow RemoveActions key v arg None updateCount eventFlags versionTag None None.
Definition removeNoThrowEx (key : option K) (arg : option A) (updateCount eventFlags : Z)
    (versionTag : option VersionTag.t) : ST R GfErrType :=
  err_of <$> updateNoThrow RemoveActionsEx key None arg None updateCount eventFlags versionTag None None.
Definition invalidateNoThrow (key : option K) (arg : option A) (updateCount eventFlags : Z)
    (versionTag : option VersionTag.t) : ST R GfErrType :=
  err_of <$> updateNoThrow InvalidateActions key None arg None updateCount eventFlags versionTag None None.
Definition invalidateNoThrowTX (key : option K) (arg : option A) (updateCount eventFlags : Z)
    (versionTag : option VersionTag.t) : ST R GfErrType :=
  err_of <$> updateNoThrowTX InvalidateActions key None arg None updateCount eventFlags versionTag None None.

(** *** Reads *)

Definition not_a_value (v : value) : bool := isInvalid v || isTombstone v.
Definition hide_token (v : value) : value := if not_a_value v then None else v.

(** The last part of [getNoThrow]: tokens are hidden, and the listener is told. *)
Definition getNoThrow_listen (key : K) (v : value) (arg : option A) (isLocal isLoaderInvoked : bool)
    (err : GfErrType) (oldValue : value) : ST R (GfErrType * value) :=
  let v := hide_token v in
  if negb isLoaderInvoked && bool_decide (err = GF_NOERR) && negb (is_null v) then
    '(err, _) ← invokeCacheListenerForEntryEvent key oldValue v arg CacheEventFlags.NORMAL AFTER_UPDATE isLocal;
    mret (err, v)
  else mret (err, v).

(** The part of [getNoThrow] after the remote call and the loader. *)
Definition getNoThrow_store (key : K) (v localValue : value) (arg : option A) (cachingEnabled isLocal isLoaderInvoked : bool)
    (updateCount : Z) (versionTag : option VersionTag.t) (err : GfErrType) : ST R (GfErrType * value) :=
  if negb (is_null v) && cachingEnabled && negb (isTombstone v && (is_null localValue || isInvalid localValue)) then
    '(err, oldValue, v) ← putLocal false key v None cachingEnabled updateCount 0 versionTag None None;
    if decide (err = GF_NOERR) then getNoThrow_listen key v arg isLocal isLoaderInvoked GF_NOERR oldValue
    else if decide (err = GF_CACHE_CONCURRENT_MODIFICATION_EXCEPTION) then mret (GF_NOERR, hide_token v)
    else
      getNoThrow_listen key (if negb (is_null oldValue) && negb (isInvalid oldValue) then oldValue else v) arg
        isLocal isLoaderInvoked GF_NOERR oldValue
  else getNoThrow_listen key v arg isLocal isLoaderInvoked err None.

(** Returns the error and [value]. *)
Definition getNoThrow (key : option K) (v : value) (arg : option A) : ST R (GfErrType * value) :=
  check_destroy_pending_nothrow (fun err => (err, v)) (
    match key with
    | None => mret (GF_CACHE_ILLEGAL_ARGUMENT_EXCEPTION, v)
    | Some key =>
      r ← st_get;
      match txState r with
      | Some _ =>
        in_transaction (isLocalOp None) (fun err => (err, v)) (
          '(err, v, _) ← remote (RGet key arg) (getNoThrow_remote virt key v arg);
          mret (err, (err, hide_token v)))
      | None =>
        cachingEnabled ← getCachingEnabled;
        '(isLocal, me, v) ←
          (if cachingEnabled : bool then on_entries (em_get key) else mret (false, None, v));
        if (cachingEnabled : bool) && isLocal && negb (is_null v) && negb (isInvalid v) then
          updateAccessAndModifiedTimeForEntry me false;;
          updateAccessAndModifiedTime false;;
          mret (GF_NOERR, v)
        else
          let localValue := if cachingEnabled then v else None in
          let v : value := if cachingEnabled then None else v in
          cc ← getConcurrencyChecksEnabled;
          '(updateCount, v) ←
            (if (cachingEnabled : bool) && negb cc then on_entries (em_addTrackerForEntry key v true false false)
             else mret (-1, v));
          at_exit (
            updateAccessAndModifiedTime false;;
            '(err, v, versionTag) ← remote (RGet key arg) (getNoThrow_remote virt key v arg);
            r ← st_get;
            if (is_null v || not_a_value v) && m_loader r then
              h ← call (Load key arg);
              let '(err, v) := match cb_loader app h with
                               | Some v => (err, v)
                               | None => (GF_CACHE_LOADER_EXCEPTION, v)
                               end in
              if negb (bool_decide (err = GF_NOERR)) then mret (err, v)
              else getNoThrow_store key v localValue arg cachingEnabled isLocal true updateCount versionTag err
            else getNoThrow_store key v localValue arg cachingEnabled isLocal false updateCount versionTag err)
          (remove_tracking key updateCount)
      end
    end).

(** The loop over the keys: [values] and the keys to ask the server for. *)
Fixpoint getAll_local (keys : list K) (cachingEnabled regionAccessed : bool) (values : list (K * value))
    (serverKeys : list K) : ST R (bool * list (K * value) * list K) :=
  match keys with
  | [] => mret (regionAccessed, values, serverKeys)
  | key :: keys =>
    '(found, me, v) ← (if cachingEnabled then on_entries (em_get key) else mret (false, None, None));
    if (found : bool) && negb (is_null v) && negb (isInvalid v) then
      updateAccessAndModifiedTimeForEntry me false;;
      getAll_local keys cachingEnabled true
        (if existsb (fun kv => bool_decide (kv.1 = key)) values then values else values ++ [(key, v)]) serverKeys
    else getAll_local keys cachingEnabled regionAccessed values (serverKeys ++ [key])
  end.

(** [values] is an association list without repeated keys ([emplace] keeps an old one); the map
    is always given. Returns the error and [values]. *)
Definition getAllNoThrow (keys : list K) (values : list (K * value)) (addToLocalCache : bool) (arg : option A)
    : ST R (GfErrType * list (K * value)) :=
  check_destroy_pending_nothrow (fun err => (err, values)) (
    r ← st_get;
    match txState r with
    | Some _ =>
      in_transaction (isLocalOp None) (fun err => (err, values)) (
        '(err, values) ← remote (RGetAll keys arg) (getAllNoThrow_remote virt keys values false arg);
        mret (err, (err, values)))
    | None =>
      cachingEnabled ← getCachingEnabled;
      '(regionAccessed, values, serverKeys) ← getAll_local keys cachingEnabled false values [];
      (if regionAccessed : bool then updateAccessAndModifiedTime false else mret tt);;
      match serverKeys with
      | [] => mret (GF_NOERR, values)
      | _ => remote (RGetAll serverKeys arg) (getAllNoThrow_remote virt serverKeys values addToLocalCache arg)
      end
    end).

(** *** Bulk updates *)

(** The loop of [putAllNoThrow] that adds the tracking and asks the writer: whether every key
    may be written, and the old values and counters. *)
Fixpoint putAll_ask (kvs : list (K * value)) (arg : option A) (cachingEnabled : bool) (oldValue : value)
    (oldValueMap : gmap K (value * Z)) : ST R (bool * gmap K (value * Z)) :=
  match kvs with
  | [] => mret (true, oldValueMap)
  | (key, v) :: kvs =>
    cc ← getConcurrencyChecksEnabled;
    '(oldValue, oldValueMap) ←
      (if cachingEnabled && negb cc then
         '(updateCount, oldValue) ← on_entries (em_addTrackerForEntry key oldValue true false true);
         mret (oldValue, match oldValueMap !! key with
                         | Some _ => oldValueMap
                         | None => <[key := (oldValue, updateCount)]> oldValueMap
                         end)
       else mret (oldValue, oldValueMap));
    r ← st_get;
    '(go, oldValue) ←
      (if m_writer r then
         invokeCacheWriterForEntryEvent key oldValue v arg CacheEventFlags.LOCAL BEFORE_UPDATE
       else mret (true, oldValue));
    if negb go then mret (false, oldValueMap)
    else putAll_ask kvs arg cachingEnabled oldValue oldValueMap
  end.

(** The tag at an index, which the loops leave as it is when there are no tags. *)
Definition tag_at (parts : option (PartList K)) (index : nat) (versionTag : option VersionTag.t)
    : ST R (option VersionTag.t) :=
  match parts with
  | Some p =>
    match getVersionedTagptr p with
    | [] => mret versionTag
    | tags => match tags !! index with Some tag => mret tag | None => st_throw UndefinedBehaviour end
    end
  | None => mret versionTag
  end.

(** The local puts; the error and the early return. *)
Fixpoint putAll_local (kvs : list (option K * value)) (index : nat) (arg : option A) (parts : option (PartList K))
    (oldValueMap : gmap K (value * Z)) (versionTag : option VersionTag.t) (err : GfErrType)
    : ST R (GfErrType + GfErrType) :=
  match kvs with
  | [] => mret (inr err)
  | (key, v) :: kvs =>
    versionTag ← tag_at parts index versionTag;
    let p := match key ≫= fun k => oldValueMap !! k with Some p => p | None => (None, 0) end in
    '(localErr, _, _) ←
      putNoThrow key v arg p.1 p.2 (Z.lor CacheEventFlags.LOCAL CacheEventFlags.NOCACHEWRITER) versionTag None None;
    if decide (localErr = GF_CACHE_ENTRY_UPDATED) then putAll_local kvs (S index) arg parts oldValueMap versionTag err
    else if decide (localErr = GF_CACHE_LISTENER_EXCEPTION) then
      putAll_local kvs (S index) arg parts oldValueMap versionTag localErr
    else if negb (bool_decide (localErr = GF_NOERR)) then mret (inl localErr)
    else putAll_local kvs (S index) arg parts oldValueMap versionTag err
  end.

(** [map] is the application's map in the order of its iteration. *)
Definition putAllNoThrow (map : list (K * value)) (arg : option A) : ST R GfErrType :=
  check_destroy_pending_nothrow id (
    r ← st_get;
    match txState r with
    | Some _ =>
      in_transaction (isLocalOp None) id (
        '(err, _) ← remote (RPutAll map arg) (putAllNoThrow_remote virt map arg);
        mret (err, err))
    | None =>
      cachingEnabled ← getCachingEnabled;
      '(go, oldValueMap) ←
        (if (cachingEnabled : bool) || m_writer r then putAll_ask map arg cachingEnabled None ∅ else mret (true, ∅));
      at_exit (
        if negb go then mret GF_CACHEWRITER_ERROR
        else
          '(err, parts) ← remote (RPutAll map arg) (putAllNoThrow_remote virt map arg);
          if negb (bool_decide (err = GF_NOERR)) then mret err
          else if cachingEnabled : bool then
            r ← st_get;
            kvs ← (if m_isPRSingleHopEnabled r then
                     parts ← non_null parts;
                     keys ← non_null (getSucceededKeys parts);
                     mret ((fun k => match find (fun kv => bool_decide (kv.1 = k)) map with
                                     | Some kv => (Some kv.1, kv.2)
                                     | None => (None, None)
                                     end) <$> keys)
                   else mret ((fun kv => (Some kv.1, kv.2)) <$> map));
            res ← putAll_local kvs 0 arg parts oldValueMap None err;
            mret (match res with inl e | inr e => e end)
          else mret err)
      (** the destructor of [RemoveTracking] *)
      (cc ← getConcurrencyChecksEnabled;
       if negb cc then
         st_iter (fun kp : K * (value * Z) =>
           if 0 <=? kp.2.2 then on_entries (em_removeTrackerForEntry kp.1) else mret tt) (map_to_list oldValueMap)
       else mret tt)
    end).

(** The local destroys. *)
Fixpoint removeAll_local (keys : list K) (index : nat) (arg : option A) (parts : option (PartList K))
    (versionTag : option VersionTag.t) (err : GfErrType) : ST R (GfErrType + GfErrType) :=
  match keys with
  | [] => mret (inr err)
  | key :: keys =>
    versionTag ← tag_at parts index versionTag;
    if negb (is_null parts) && is_null versionTag then removeAll_local keys (S index) arg parts versionTag err
    else
      localErr ← destroyNoThrow (Some key) arg (-1) (Z.lor CacheEventFlags.LOCAL CacheEventFlags.NOCACHEWRITER) versionTag;
      if decide (localErr = GF_CACHE_ENTRY_UPDATED) then removeAll_local keys (S index) arg parts versionTag err
      else if decide (localErr = GF_CACHE_LISTENER_EXCEPTION) then
        removeAll_local keys (S index) arg parts versionTag localErr
      else if decide (localErr = GF_CACHE_ENTRY_NOT_FOUND) then removeAll_local keys (S index) arg parts versionTag err
      else if negb (bool_decide (localErr = GF_NOERR)) then mret (inl localErr)
      else removeAll_local keys (S index) arg parts versionTag err
  end.

Definition removeAllNoThrow (keys : list K) (arg : option A) : ST R GfErrType :=
  check_destroy_pending_nothrow id (
    r ← st_get;
    match txState r with
    | Some _ =>
      in_transaction (isLocalOp None) id (
        '(err, _) ← remote (RRemoveAll keys arg) (removeAllNoThrow_remote virt keys arg);
        mret (err, err))
    | None =>
      cachingEnabled ← getCachingEnabled;
      '(err, parts) ← remote (RRemoveAll keys arg) (removeAllNoThrow_remote virt keys arg);
      if negb (bool_decide (err = GF_NOERR)) then mret err
      else if cachingEnabled : bool then
        r ← st_get;
        keys ← (if m_isPRSingleHopEnabled r then parts ← non_null parts; non_null (getSucceededKeys parts)
                else mret keys);
        res ← removeAll_local keys 0 arg parts None err;
        mret (match res with inl e | inr e => e end)
      else mret err
    end).

(** *** The public operations *)

Definition get (key : option K) (arg : option A) : ST R value :=
  '(err, rptr) ← getNoThrow key None arg; throwExceptionIfError err;; mret rptr.
Definition put (key : option K) (v : value) (arg : option A) : ST R unit :=
  '(err, _, _) ← putNoThrow key v arg None (-1) CacheEventFlags.NORMAL None None None; throwExceptionIfError err.
Definition localPut (key : option K) (v : value) (arg : option A) : ST R unit :=
  '(err, _, _) ← putNoThrow key v arg None (-1) CacheEventFlags.LOCAL None None None; throwExceptionIfError err.
Definition create (key : option K) (v : value) (arg : option A) : ST R unit :=
  err ← createNoThrow key v arg (-1) CacheEventFlags.NORMAL None; throwExceptionIfError err.
Definition localCreate (key : option K) (v : value) (arg : option A) : ST R unit :=
  err ← createNoThrow key v arg (-1) CacheEventFlags.LOCAL None; throwExceptionIfError err.
Definition invalidate (key : option K) (arg : option A) : ST R unit :=
  err ← invalidateNoThrow key arg (-1) CacheEventFlags.NORMAL None; throwExceptionIfError err.
Definition localInvalidate (key : option K) (arg : option A) : ST R unit :=
  err ← invalidateNoThrow key arg (-1) CacheEventFlags.LOCAL None; throwExceptionIfError err.
Definition destroy (key : option K) (arg : option A) : ST R unit :=
  err ← destroyNoThrow key arg (-1) CacheEventFlags.NORMAL None; throwExceptionIfError err.
Definition localDestroy (key : option K) (arg : option A) : ST R unit :=
  err ← destroyNoThrow key arg (-1) CacheEventFlags.LOCAL None; throwExceptionIfError err.
Definition localDestroyNoCallbacks (key : option K) : ST R GfErrType :=
  destroyNoThrow key None (-1) (Z.lor CacheEventFlags.LOCAL CacheEventFlags.NOCALLBACKS) None.

(** The result of the four removals: an entry that is not there is not an error. *)
Definition remove_result (err : GfErrType) : ST R bool :=
  if decide (err = GF_NOERR) then mret true
  else if negb (bool_decide (err = GF_ENOENT)) && negb (bool_decide (err = GF_CACHE_ENTRY_NOT_FOUND)) then
    throwExceptionIfError err;; mret false
  else mret false.

Definition remove (key : option K) (v : value) (arg : option A) : ST R bool :=
  err ← removeNoThrow key v arg (-1) CacheEventFlags.NORMAL None; remove_result err.
Definition removeEx (key : option K) (arg : option A) : ST R bool :=
  err ← removeNoThrowEx key arg (-1) CacheEventFlags.NORMAL None; remove_result err.
Definition localRemove (key : option K) (v : value) (arg : option A) : ST R bool :=
  err ← removeNoThrow key v arg (-1) CacheEventFlags.LOCAL None; remove_result err.
Definition localRemoveEx (key : option K) (arg : option A) : ST R bool :=
  err ← removeNoThrowEx key arg (-1) CacheEventFlags.LOCAL None; remove_result err.

Definition putAll (map : list (K * value)) (arg : option A) : ST R unit :=
  err ← putAllNoThrow map arg; throwExceptionIfError err.
Definition removeAll (keys : list K) (arg : option A) : ST R unit :=
  match keys with
  | [] => st_throw IllegalArgumentException
  | _ => err ← removeAllNoThrow keys arg; throwExceptionIfError err
  end.
Definition getAll_internal (keys : list K) (arg : option A) (addToLocalCache : bool) : ST R (list (K * value)) :=
  match keys with
  | [] => st_throw IllegalArgumentException
  | _ => '(err, values) ← getAllNoThrow keys [] addToLocalCache arg; throwExceptionIfError err;; mret values
  end.
Definition getAll (keys : list K) (arg : option A) : ST R (list (K * value)) := getAll_internal keys arg true.

(** [LocalRegion::getEntry(key)]: the key and value, if there is an entry. *)
Definition getRegionEntry (key : option K) : ST R (option (option K * value)) :=
  r ← st_get;
  match txState r with
  | Some _ => st_throw (GfErrTypeThrowException GF_NOTSUP)
  | None => v ← getEntry key None; mret (match v with Some _ => Some (key, v) | None => None end)
  end.

Definition keys_internal : ST R (list K) :=
  cachingEnabled ← getCachingEnabled; if cachingEnabled : bool then on_entries em_getKeys else mret [].
Definition keys : ST R (list K) := check_destroy_pending keys_internal.
Definition values : ST R (list value) :=
  check_destroy_pending (
    cachingEnabled ← getCachingEnabled; if cachingEnabled : bool then on_entries em_getValues else mret []).
(** Without the subregions. *)
Definition entries : ST R (list (option K * value)) :=
  check_destroy_pending (
    cachingEnabled ← getCachingEnabled; if cachingEnabled : bool then on_entries em_getEntries else mret []).

(** [LocalRegion::size_remote]. *)
Definition size_remote : ST R Z :=
  check_destroy_pending (
    cachingEnabled ← getCachingEnabled;
    if cachingEnabled : bool then on_entries (st_gets em_size) else mret 0).
(** In a transaction that cannot go to the server the number of the error is returned; the
    [size_remote] of a subclass is a parameter. *)
Definition size (virtual_size_remote : ST R Z) : ST R Z :=
  r ← st_get;
  match txState r with
  | Some _ => if isLocalOp None then mret (GfErrType_code GF_NOTSUP) else virtual_size_remote
  | None => size_remote
  end.

Definition containsValueForKey_remote (key : K) : ST R bool :=
  check_destroy_pending (
    cachingEnabled ← getCachingEnabled;
    if negb cachingEnabled then mret false
    else
      '(me, v) ← on_entries (em_getEntry key);
      if is_null me then mret false else mret (negb (is_null v) && negb (isInvalid v))).
Definition containsValueForKey (virtual_remote : K -> ST R bool) (key : option K) : ST R bool :=
  match key with
  | None => st_throw IllegalArgumentException
  | Some key =>
    r ← st_get;
    match txState r with None => containsValueForKey_remote key | Some _ => virtual_remote key end
  end.
Definition containsKey_internal (key : option K) : ST R bool :=
  match key with
  | None => st_throw IllegalArgumentException
  | Some key =>
    cachingEnabled ← getCachingEnabled;
    if negb cachingEnabled then mret false else on_entries (em_containsKey key)
  end.
Definition containsKey (key : option K) : ST R bool :=
  match key with
  | None => st_throw IllegalArgumentException
  | Some _ => check_destroy_pending (containsKey_internal key)
  end.

(** *** Clearing *)

Definition localClearNoThrow (arg : option A) (eventFlags : Z) : ST R GfErrType :=
  cachingEnabled ← getCachingEnabled;
  r ← st_get;
  if m_released r || m_destroyPending r then mret GF_NOERR
  else
    go ← invokeCacheWriterForRegionEvent arg eventFlags BEFORE_REGION_CLEAR;
    if negb go then mret GF_CACHEWRITER_ERROR
    else
      (if cachingEnabled : bool then on_entries em_clear else mret tt);;
      if CacheEventFlags.isNormal eventFlags then mret GF_NOERR
      else invokeCacheListenerForRegionEvent arg eventFlags AFTER_REGION_CLEAR.
Definition localClear (arg : option A) : ST R unit :=
  err ← localClearNoThrow arg CacheEventFlags.LOCAL; throwExceptionIfError err.
Definition clear (arg : option A) : ST R unit := localClear arg.

(** [gcVersions], numbered by the member list that the cache has: the numbers and versions. *)
Definition tombstoneOperationNoThrow (tombstoneVersions : option (gmap Z Z)) (tombstoneKeys : list K) : ST R unit :=
  cachingEnabled ← getCachingEnabled;
  if negb cachingEnabled then mret tt
  else
    match tombstoneVersions with
    | Some gcVersions => on_entries (em_reapTombstones gcVersions)
    | None => on_entries (em_reapTombstones_keys tombstoneKeys)
    end.

(** The keys of an interest list, and a pattern that is matched against the keys. *)
Definition clearKeysOfInterest (interest_list : list K) : ST R unit :=
  isEmpty ← on_entries (st_gets em_empty);
  if isEmpty : bool then mret tt
  else
    st_iter (fun key =>
      err ← localDestroyNoCallbacks (Some key);
      if decide (err = GF_CACHE_ENTRY_NOT_FOUND) then mret tt else throwExceptionIfError err) interest_list.
Definition clearKeysOfInterestRegex (regex_search : K -> bool) : ST R unit :=
  isEmpty ← on_entries (st_gets em_empty);
  if isEmpty : bool then mret tt
  else
    ks ← keys;
    st_iter (fun key =>
      if regex_search key then
        err ← localDestroyNoCallbacks (Some key);
        if decide (err = GF_CACHE_ENTRY_NOT_FOUND) then mret tt else throwExceptionIfError err
      else mret tt) ks.
(** The patterns of an interest list, each with whether it is [kAllKeysRegex]. *)
Fixpoint clearRegexes (interest_list : list (bool * (K -> bool))) : ST R unit :=
  match interest_list with
  | [] => mret tt
  | (allKeys, regex) :: l => if allKeys : bool then localClear None else clearKeysOfInterestRegex regex;; clearRegexes l
  end.
Definition clearKeysOfInterestRegex_list (interest_list : list (bool * (K -> bool))) : ST R unit :=
  isEmpty ← on_entries (st_gets em_empty);
  if isEmpty : bool then mret tt else clearRegexes interest_list.

(** *** Invalidation of the entries of a region, without its subregions *)

(** The loop over the keys; [me] keeps its value from one key to the next. *)
Fixpoint invalidate_keys (ks : list K) (me : option EntryPtr) (eventFlags : Z) : ST R unit :=
  match ks with
  | [] => mret tt
  | key :: ks =>
    '(_, me, _) ← on_entries (em_invalidate key me None None);
    (if CacheEventFlags.isEvictOrExpire eventFlags then mret tt else updateAccessAndModifiedTimeForEntry me true);;
    invalidate_keys ks me eventFlags
  end.
Definition invalidateEntries (eventFlags : Z) : ST R unit :=
  cachingEnabled ← getCachingEnabled;
  if negb cachingEnabled then mret tt
  else
    v ← keys_internal;
    invalidate_keys v None eventFlags;;
    if CacheEventFlags.isEvictOrExpire eventFlags then mret tt else updateAccessAndModifiedTime true.

(** *** Expiration of entries *)

(** [EntryExpiryTask::expire_at]. *)
Definition expire_at (task : EntryExpiryTask) (r : R) : Z :=
  let properties := getExpProperties (et_entry task) r in
  (if 0 <? m_entryTimeToLive (m_regionAttributes r) then last_modified_ properties else last_accessed_ properties)
  + et_duration task.

(** [entry_->getKeyI(key)]. The entry outlives the map of a destroyed region; a destroyed region
    does not look at the key. *)
Definition entry_key (p : EntryPtr) : ST R (option K) :=
  r ← st_get;
  match m_entries r with None => mret None | Some _ => on_entries (em_getKeyI p) end.

(** [EntryExpiryTask::on_expire]: whether it is done; if not, the time it is reset to. *)
Definition on_expire (task : EntryExpiryTask) : ST R (bool * Z) :=
  r ← st_get;
  let tp := expire_at task r in
  if clock r <? tp then mret (false, tp)
  else
    key ← entry_key (et_entry task);
    (match et_action task with
     | INVALIDATE => invalidateNoThrow key None (-1) CacheEventFlags.EXPIRATION None;; mret tt
     | LOCAL_INVALIDATE =>
       invalidateNoThrow key None (-1) (Z.lor CacheEventFlags.EXPIRATION CacheEventFlags.LOCAL) None;; mret tt
     | DESTROY => destroyNoThrow key None (-1) CacheEventFlags.EXPIRATION None;; mret tt
     | LOCAL_DESTROY =>
       destroyNoThrow key None (-1) (Z.lor CacheEventFlags.EXPIRATION CacheEventFlags.LOCAL) None;; mret tt
     | INVALID_ACTION => mret tt
     end);;
    mret (true, tp).

(** [ExpiryTask::on_callback] of the task [id], when its timer fires; entry tasks are not
    periodic. [reset] does nothing if the task was cancelled meanwhile. *)
Definition on_callback (id : Z) : ST R unit :=
  r ← st_get;
  match ExpiryTaskManager.task_map_ (expiryTaskManager r) !! id with
  | None => mret tt
  | Some task =>
    '(done, tp) ← on_expire task;
    st_modify (fun r =>
      let m := expiryTaskManager r in
      with_exp (expProperties r)
        (if done : bool then ExpiryTaskManager.remove id m
         else ExpiryTaskManager.mk (ExpiryTaskManager.running_ m)
                (alter (fun t => mkEntryTask (et_entry t) (et_action t) (et_duration t) tp) id
                   (ExpiryTaskManager.task_map_ m)) (ExpiryTaskManager.last_task_id_ m)) r)
  end.

(** The attributes mutator. The check of [adjustEntryExpiryAction] and of the duration. *)
Definition adjustEntryExpiryAction (action : ExpirationAction) : ST R ExpirationAction :=
  check_destroy_pending (
    a ← attr id;
    if negb (0 <? getEntryExpiryDuration a) then st_throw IllegalStateException
    else
      st_modify (with_attributes (mkAttributes (m_caching a) (m_isConcurrencyChecksEnabled a)
        (m_entryTimeToLive a) action (m_entryIdleTimeout a) action
        (m_regionTimeToLive a) (m_regionTimeToLiveExpirationAction a)
        (m_regionIdleTimeout a) (m_regionIdleTimeoutExpirationAction a)));;
      mret (getEntryExpirationAction a)).
Definition adjustEntryExpiryDuration (duration : Z) : ST R Z :=
  check_destroy_pending (
    a ← attr id;
    if negb (0 <? getEntryExpiryDuration a) then st_throw IllegalStateException
    else
      st_modify (with_attributes (mkAttributes (m_caching a) (m_isConcurrencyChecksEnabled a)
        duration (m_entryTimeToLiveExpirationAction a) duration (m_entryIdleTimeoutExpirationAction a)
        (m_regionTimeToLive a) (m_regionTimeToLiveExpirationAction a)
        (m_regionIdleTimeout a) (m_regionIdleTimeoutExpirationAction a)));;
      mret (getEntryExpiryDuration a)).
(** The duration of entries is what is checked. *)
Definition adjustRegionExpiryDuration (duration : Z) : ST R Z :=
  check_destroy_pending (
    a ← attr id;
    if negb (0 <? getEntryExpiryDuration a) then st_throw IllegalStateException
    else
      st_modify (with_attributes (mkAttributes (m_caching a) (m_isConcurrencyChecksEnabled a)
        (m_entryTimeToLive a) (m_entryTimeToLiveExpirationAction a)
        (m_entryIdleTimeout a) (m_entryIdleTimeoutExpirationAction a)
        duration (m_regionTimeToLiveExpirationAction a) duration (m_regionIdleTimeoutExpirationAction a)));;
      mret (getRegionExpiryDuration a)).
Definition adjustRegionExpiryAction (action : ExpirationAction) : ST R ExpirationAction :=
  check_destroy_pending (
    a ← attr id;
    if negb (0 <? getRegionExpiryDuration a) then st_throw IllegalStateException
    else
      st_modify (with_attributes (mkAttributes (m_caching a) (m_isConcurrencyChecksEnabled a)
        (m_entryTimeToLive a) (m_entryTimeToLiveExpirationAction a)
        (m_entryIdleTimeout a) (m_entryIdleTimeoutExpirationAction a)
        (m_regionTimeToLive a) action (m_regionIdleTimeout a) action));;
      mret (getRegionExpiryAction a)).

(** *** The end of a region *)

(** [LocalRegion::release]; closing the map and the statistics changes nothing here. An
    exception in the loader is caught behind the writer. *)
Definition release (invokeCallbacks : bool) : ST R unit :=
  r ← st_get;
  if m_released r then mret tt
  else
    st_modify (with_flags (m_destroyPending r) true);;
    if invokeCallbacks then
      ok ← (if m_loader r then h ← call LoaderClose; mret (negb (is_null (cb_loader app h))) else mret true);
      if (ok : bool) && m_writer r then call WriterClose;; mret tt else mret tt
    else mret tt.
End Operations.
End LocalRegion.
