(* ===== verification/RegionSpec.v ===== *)
(** What a caching region with concurrency checks promises, without pointers, tracking, times
    and statistics: a versioned map, the calls that were made, and the servers. *)
From S2P Require Import Prelude Versions ExpiryTaskManager MapEntry MapSegment SegmentRefinement EntriesMap LocalRegion.

Section Spec.
Context {K V A : Type} `{Countable K}.
Abbreviation value := (option (Cacheable V)).
Abbreviation amap := (gmap K (value * VersionStamp.t)).
Context (app : Callbacks K V A).

(** The map, the calls (latest first) and the numbering of members. *)
Record AState := mkA {
  a_map : amap;
  a_calls : list (Call K V A);
  a_members : MemberListForVersionStamp.t
}.

Definition a_call (c : Call K V A) (s : AState) : AState := mkA (a_map s) (c :: a_calls s) (a_members s).
Definition a_set (m : amap) (s : AState) : AState := mkA m (a_calls s) (a_members s).

(** What does not change: the callbacks that are there, and the marker. *)
Record Config := mkConfig { has_writer : bool; has_listener : bool; has_loader : bool; marker : bool }.
Context (cfg : Config).

(** The servers, and whatever else happens to the region while they are asked: the error, the
    tag, and the state afterwards. *)
Context (srv : Request K V A -> option VersionTag.t -> AState -> GfErrType * option VersionTag.t * AState).

Abbreviation TAction := LocalRegion.TAction.

Definition act_request (a : TAction) (k : K) (v : value) (arg : option A) : Request K V A :=
  match a with
  | LocalRegion.CreateActions => RCreate k v arg
  | LocalRegion.DestroyActions => RDestroy k arg
  | LocalRegion.InvalidateActions => RInvalidate k arg
  | _ => RPut k v arg
  end.

Definition act_op (a : TAction) (k : K) (v : value) (tag : option VersionTag.t) (afterRemote : bool) : @op K V :=
  match a with
  | LocalRegion.CreateActions => OpCreate k v tag
  | LocalRegion.DestroyActions => OpRemove k tag afterRemote
  | LocalRegion.InvalidateActions => OpInvalidate k tag
  | _ => OpPut k v tag
  end.

(** The actions that are specified here. *)
Definition simple (a : TAction) : bool :=
  match a with
  | LocalRegion.PutActions | LocalRegion.CreateActions | LocalRegion.DestroyActions
  | LocalRegion.InvalidateActions => true
  | _ => false
  end.

Definition no_invalid (v : value) : value := if isInvalid v then None else v.

(** The value that the callbacks are shown as the old one before the operation. *)
Definition seen (a : TAction) (k : K) (s : AState) : value :=
  match a with LocalRegion.CreateActions => None | _ => live_value (a_map s !! k) end.

(** The writer: whether the operation may go on, the old value that it saw, and the state. *)
Definition spec_writer (a : TAction) (k : K) (v : value) (arg : option A) (flags : Z) (s : AState)
    : bool * value * AState :=
  if has_writer cfg && CacheEventFlags.invokeCacheWriter flags then
    let old := no_invalid (seen a k s) in
    let event := mkEvent k old v arg (CacheEventFlags.isNotification flags) in
    let ask c := let s' := a_call c s in
      (match cb_writer app (a_calls s') with Some b => b | None => false end, old, s') in
    match a with
    | LocalRegion.InvalidateActions => (true, old, s)
    | LocalRegion.DestroyActions => ask (BeforeDestroy event)
    | LocalRegion.CreateActions => ask (BeforeCreate event)
    | _ => ask (match old with None => BeforeCreate event | Some _ => BeforeUpdate event end)
    end
  else (true, None, s).

(** Whether the servers are asked. *)
Definition goes_remote (flags : Z) : bool :=
  negb (CacheEventFlags.isLocal flags) && negb (CacheEventFlags.isNotification flags).

Definition spec_remote (a : TAction) (k : K) (v : value) (arg : option A) (flags : Z)
    (tag : option VersionTag.t) (s : AState) : GfErrType * option VersionTag.t * AState :=
  if goes_remote flags then
    srv (act_request a k v arg) tag (a_call (Remote (act_request a k v arg)) s)
  else (GF_NOERR, tag, s).

(** The outcome of the versioned map for the operation: [inl] returns the error to the caller,
    [inr] goes on to the listener with the old value. A conflict is not an error. *)
Definition after_local (a : TAction) (flags : Z) (x : option (value * VersionStamp.t)) (old : value)
    (r : GfErrType * value * bool) : GfErrType + value :=
  let '(err, shown, _) := r in
  let failed := if decide (err = GF_CACHE_CONCURRENT_MODIFICATION_EXCEPTION) then inl GF_NOERR else inl err in
  match a with
  | LocalRegion.CreateActions => if decide (err = GF_NOERR) then inr shown else failed
  | LocalRegion.DestroyActions =>
    if decide (err = GF_NOERR) then inr shown
    else if CacheEventFlags.isNotification flags then inr None else failed
  | LocalRegion.InvalidateActions =>
    if decide (err = GF_NOERR) then inr old
    else if decide (err = GF_CACHE_CONCURRENT_MODIFICATION_EXCEPTION) then inr old
    else if CacheEventFlags.isNotification flags && bool_decide (err = GF_CACHE_ENTRY_NOT_FOUND) then inr old
    else inl err
  | _ => if decide (err = GF_NOERR) then inr (put_old x old) else failed
  end.

Definition spec_local (a : TAction) (k : K) (v : value) (flags : Z) (tag : option VersionTag.t) (old : value)
    (s : AState) : outcome ((GfErrType + value) * AState) :=
  if CacheEventFlags.isNotification flags && negb (marker cfg) then
    Ok (inr (match a with LocalRegion.CreateActions => old | _ => live_value (a_map s !! k) end), s)
  else
    '(r, m') ← spec_op (a_members s) (act_op a k v tag (goes_remote flags)) (a_map s);
    Ok (after_local a flags (a_map s !! k) old r, a_set m' s).

(** The listener is told of the change. *)
Definition spec_listener (a : TAction) (k : K) (v : value) (arg : option A) (flags : Z) (old : value)
    (s : AState) : GfErrType * AState :=
  if CacheEventFlags.isNoCallbacks flags || negb (has_listener cfg) then (GF_NOERR, s)
  else
    let old := no_invalid old in
    let event := mkEvent k old v arg (CacheEventFlags.isNotification flags) in
    let c := match a with
             | LocalRegion.CreateActions => AfterCreate event
             | LocalRegion.DestroyActions => AfterDestroy event
             | LocalRegion.InvalidateActions => AfterInvalidate event
             | _ => if negb (LocalRegion.is_null old) || CacheEventFlags.isNotificationUpdate flags
                    then AfterUpdate event else AfterCreate event
             end in
    let s' := a_call c s in
    (if cb_listener app (a_calls s') then GF_NOERR else GF_CACHE_LISTENER_EXCEPTION, s').

(** An update: writer, servers, map, listener, in this order. *)
Definition spec_update (a : TAction) (k : K) (v : value) (arg : option A) (flags : Z)
    (tag : option VersionTag.t) (s : AState) : outcome (GfErrType * AState) :=
  let '(go, old, s) := spec_writer a k v arg flags s in
  if negb go then Ok (GF_CACHEWRITER_ERROR, s)
  else
    let '(err, tag, s) := spec_remote a k v arg flags tag s in
    if negb (bool_decide (err = GF_NOERR)) then Ok (err, s)
    else
      '(res, s) ← spec_local a k v flags tag old s;
      match res with
      | inl err => Ok (err, s)
      | inr old => Ok (spec_listener a k v arg flags old s)
      end.

(** What the comments of [updateNoThrow] and [invalidateLocal] promise: an update that loses against a newer version of the
    map is not an error, and the listener is not called. *)
Definition spec_documented (a : TAction) (k : K) (v : value) (arg : option A) (flags : Z)
    (tag : option VersionTag.t) (s : AState) : outcome (GfErrType * AState) :=
  let '(go, old, s) := spec_writer a k v arg flags s in
  if negb go then Ok (GF_CACHEWRITER_ERROR, s)
  else
    let '(err, tag, s) := spec_remote a k v arg flags tag s in
    if negb (bool_decide (err = GF_NOERR)) then Ok (err, s)
    else if CacheEventFlags.isNotification flags && negb (marker cfg) then
      Ok (spec_listener a k v arg flags (match a with LocalRegion.CreateActions => old | _ => live_value (a_map s !! k) end) s)
    else
      '(r, m') ← spec_op (a_members s) (act_op a k v tag (goes_remote flags)) (a_map s);
      if decide (r.1.1 = GF_CACHE_CONCURRENT_MODIFICATION_EXCEPTION) then Ok (GF_NOERR, a_set m' s)
      else
        match after_local a flags (a_map s !! k) old r with
        | inl err => Ok (err, a_set m' s)
        | inr old => Ok (spec_listener a k v arg flags old (a_set m' s))
        end.

(** The updates whose conflict is hidden from [updateNoThrow]: [invalidateLocal] returns [GF_NOERR] for a conflict, and so
    does the removal for a notification. *)
Definition hides_conflict (a : TAction) (flags : Z) : bool :=
  match a with
  | LocalRegion.InvalidateActions => true
  | LocalRegion.DestroyActions => CacheEventFlags.isNotification flags
  | _ => false
  end.

(** The update gets as far as the map and loses against a newer version there. *)
Definition loses (a : TAction) (k : K) (v : value) (arg : option A) (flags : Z) (tag : option VersionTag.t) (s : AState) : bool :=
  let '(go, old, s) := spec_writer a k v arg flags s in
  let '(err, tag, s) := spec_remote a k v arg flags tag s in
  go && bool_decide (err = GF_NOERR) && negb (CacheEventFlags.isNotification flags && negb (marker cfg)) &&
  match spec_op (a_members s) (act_op a k v tag (goes_remote flags)) (a_map s) with
  | Ok (r, _) => bool_decide (r.1.1 = GF_CACHE_CONCURRENT_MODIFICATION_EXCEPTION)
  | Throw _ => false
  end.

(** But for hidden conflicts the specification is the documented one. *)
Lemma spec_update_documented a k v arg flags tag s :
  hides_conflict a flags && loses a k v arg flags tag s = false ->
  spec_update a k v arg flags tag s = spec_documented a k v arg flags tag s.
Proof.
  unfold loses, spec_update, spec_documented, spec_local.
  destruct (spec_writer a k v arg flags s) as [[go old] s1]. destruct (spec_remote a k v arg flags tag s1) as [[err tag'] s2].
  destruct go; [|done]. cbn [negb andb]. destruct (bool_decide (err = GF_NOERR)); [|done]. cbn [negb andb].
  destruct (CacheEventFlags.isNotification flags && negb (marker cfg)) eqn:En; [done|]. cbn [negb andb].
  unfold mbind, outcome_bind. destruct (spec_op _ _ _) as [[[[e shown] u] m']|]; [|done]. cbn [fst].
  intros Hh. destruct (decide (e = GF_CACHE_CONCURRENT_MODIFICATION_EXCEPTION)) as [->|]; [|done].
  rewrite bool_decide_eq_true_2, andb_true_r in Hh by done. unfold after_local.
  destruct a; simpl in Hh; try done. by rewrite Hh.
Qed.

(** The answer of the servers to a read. *)
Context (srv_get : K -> option A -> AState -> GfErrType * value * option VersionTag.t * AState).

Definition no_value (v : value) : bool := LocalRegion.is_null v || isInvalid v || isTombstone v.

(** The listener hears of a value that a read got from the servers. *)
Definition spec_heard (k : K) (v : value) (arg : option A) (loaded wasInvalid : bool) (err : GfErrType) (old : value)
    (s : AState) : GfErrType * value * AState :=
  if negb loaded && bool_decide (err = GF_NOERR) && negb (no_value v) && has_listener cfg then
    let event := mkEvent k (no_invalid old) v arg false in
    let s' := a_call (if negb (LocalRegion.is_null (no_invalid old)) || wasInvalid
                      then AfterUpdate event else AfterCreate event) s in
    (if cb_listener app (a_calls s') then GF_NOERR else GF_CACHE_LISTENER_EXCEPTION, v, s')
  else (err, LocalRegion.hide_token v, s).

(** The value that the servers or the loader gave is kept and shown to the listener. *)
Definition spec_keep (k : K) (v : value) (arg : option A) (tag : option VersionTag.t) (loaded wasInvalid : bool)
    (err : GfErrType) (s : AState) : outcome (GfErrType * value * AState) :=
  if LocalRegion.is_null v || isTombstone v then Ok (spec_heard k v arg loaded wasInvalid err None s)
  else
    '(err, _, _, m') ← spec_op (a_members s) (OpPut k v tag) (a_map s);
    if decide (err = GF_NOERR) then
      Ok (spec_heard k v arg loaded wasInvalid GF_NOERR (put_old (a_map s !! k) None) (a_set m' s))
    else if decide (err = GF_CACHE_CONCURRENT_MODIFICATION_EXCEPTION) then
      Ok (GF_NOERR, LocalRegion.hide_token v, a_set m' s)
    else Ok (spec_heard k v arg loaded wasInvalid GF_NOERR None (a_set m' s)).

(** A read: the map, then the servers, then the loader. *)
Definition spec_get (k : K) (arg : option A) (s : AState) : outcome (GfErrType * value * AState) :=
  let local := live_value (a_map s !! k) in
  if negb (LocalRegion.is_null local) && negb (isInvalid local) then Ok (GF_NOERR, local, s)
  else
    let '(err, v, tag, s) := srv_get k arg (a_call (Remote (RGet k arg)) s) in
    let wasInvalid := negb (LocalRegion.is_null local) in
    if no_value v && has_loader cfg then
      let s := a_call (Load k arg) s in
      match cb_loader app (a_calls s) with
      | None => Ok (GF_CACHE_LOADER_EXCEPTION, v, s)
      | Some v =>
        if negb (bool_decide (err = GF_NOERR)) then Ok (err, v, s)
        else spec_keep k v arg tag true wasInvalid err s
      end
    else spec_keep k v arg tag false wasInvalid err s.

End Spec.
Arguments AState K V A {_ _}.
