(* ===== verification/RegionFacts.v ===== *)
(** A region over any entries map that keeps its promise implements [spec_update]. *)
From S2P Require Import Prelude Versions ExpiryTaskManager MapEntry MapSegment SegmentRefinement LRUEntriesMap EntriesMap LocalRegion RegionSpec.
Import LocalRegion.

Section Facts.
Context {M K V D A E : Type} `{VM : VersionedMap M K V D}.
Abbreviation R := (LocalRegion.t M K V A).
Abbreviation value := (option (Cacheable V)).
Context (virt : Virtuals M K V A E) (app : Callbacks K V A) (valueEq : V -> V -> bool).
Context (cfg : Config).
Context (srv : Request K V A -> option VersionTag.t -> AState K V A ->
  GfErrType * option VersionTag.t * AState K V A).
Context (srv_get : K -> option A -> AState K V A -> GfErrType * value * option VersionTag.t * AState K V A).
Implicit Types (r : LocalRegion.t M K V A) (s : AState K V A) (k : K) (a : TAction).

(** A region that is in use, caches, checks concurrency and is in no transaction stands for an
    abstract state. *)
Record region_rel r s : Prop := {
  rr_caching : m_caching (m_regionAttributes r) = true;
  rr_cc : m_isConcurrencyChecksEnabled (m_regionAttributes r) = true;
  rr_alive : m_destroyPending r = false;
  rr_tx : txState r = None;
  rr_writer : m_writer r = has_writer cfg;
  rr_listener : m_listener r = has_listener cfg;
  rr_loader : m_loader r = has_loader cfg;
  rr_calls : calls r = a_calls s;
  rr_entries : exists m, m_entries r = Some m /\ vm_rel m (a_map s) /\ vm_members m = a_members s
}.

Definition region_fits r : Prop := forall m, m_entries r = Some m -> vm_fits m.

(** The remote functions that the actions call do what the servers do. *)
Definition remotes (f : option VersionTag.t -> ST R (GfErrType * option VersionTag.t)) (q : Request K V A) : Prop :=
  forall tag r s, region_rel r s -> region_fits r ->
    exists r', f tag r = Ok ((srv q tag s).1, r') /\ region_rel r' (srv q tag s).2 /\ region_fits r'.

Definition remotes_get : Prop :=
  forall k arg r s, region_rel r s -> region_fits r ->
    exists r', getNoThrow_remote virt k None arg r = Ok ((srv_get k arg s).1, r') /\
      region_rel r' (srv_get k arg s).2 /\ region_fits r'.

Record serves : Prop := {
  sv_put : forall k v arg, remotes (putNoThrow_remote virt k v arg) (RPut k v arg);
  sv_create : forall k v arg, remotes (createNoThrow_remote virt k v arg) (RCreate k v arg);
  sv_destroy : forall k arg, remotes (destroyNoThrow_remote virt k arg) (RDestroy k arg);
  sv_invalidate : forall k arg, remotes (invalidateNoThrow_remote virt k arg) (RInvalidate k arg);
  sv_marker : getProcessedMarker virt = marker cfg
}.

(** *** Steps that do not matter to the abstract state *)

(** Regions that differ in times and expiration only. *)
Definition same_view r r' : Prop :=
  m_regionAttributes r' = m_regionAttributes r /\ m_destroyPending r' = m_destroyPending r /\
  txState r' = txState r /\ m_writer r' = m_writer r /\ m_listener r' = m_listener r /\ m_loader r' = m_loader r /\
  calls r' = calls r /\ m_entries r' = m_entries r.

Lemma same_view_refl r : same_view r r.
Proof. by repeat split. Qed.

Lemma same_view_trans r r' r'' : same_view r r' -> same_view r' r'' -> same_view r r''.
Proof. intros (?&?&?&?&?&?&?&?) (?&?&?&?&?&?&?&?). repeat split; congruence. Qed.

Lemma same_view_rel r r' s : same_view r r' -> region_rel r s -> region_rel r' s.
Proof. intros (H1 & H2 & H3 & H4 & H5 & H6 & H7 & H8) [].
  constructor; rewrite ?H1, ?H2, ?H3, ?H4, ?H5, ?H6, ?H7, ?H8; done. Qed.

Lemma same_view_fits r r' : same_view r r' -> region_fits r -> region_fits r'.
Proof. intros (_ & _ & _ & _ & _ & _ & _ & He) Hf m Hm. rewrite He in Hm. by apply Hf. Qed.

(** A computation that returns [x] and leaves the view. *)
Definition keeps {X} (f : ST R X) r (x : X) : Prop := exists r', f r = Ok (x, r') /\ same_view r r'.

Lemma keeps_touch modified r : keeps (updateAccessAndModifiedTime modified) r tt.
Proof.
  unfold keeps, updateAccessAndModifiedTime, attr, mbind, ST_bind, st_gets. simpl.
  destruct (getRegionExpiryEnabled _); eexists; (split; [done|]); by repeat split.
Qed.

Lemma keeps_touch_entry p modified r : keeps (updateAccessAndModifiedTimeForEntry p modified) r tt.
Proof.
  unfold keeps, updateAccessAndModifiedTimeForEntry, attr, mbind, ST_bind, st_gets. simpl.
  destruct p as [p|]; [destruct (getEntryExpiryEnabled _)|]; eexists; (split; [done|]); by repeat split.
Qed.

Lemma keeps_register p r : keeps (registerEntryExpiryTask (Some p)) r tt.
Proof.
  unfold keeps, registerEntryExpiryTask, mbind, ST_bind, st_modify. simpl. eexists; split; [done|].
  by case_match; repeat split.
Qed.

Lemma keeps_cleanup p flags r : keeps (cleanup p flags) r tt.
Proof.
  unfold keeps, cleanup, attr, mbind, ST_bind, st_gets. simpl.
  destruct (_ && _); eexists; (split; [done|]); by repeat split.
Qed.

Lemma view_bind {X Y} (f : ST R X) (g : X -> ST R Y) r x y :
  keeps f r x -> (forall r', keeps (g x) r' y) -> keeps (f ≫= g) r y.
Proof.
  intros (r' & Hf & Hv) Hg. destruct (Hg r') as (r'' & Hg' & Hv'). exists r''.
  unfold mbind, ST_bind. rewrite Hf. split; [done|by eapply same_view_trans].
Qed.

Lemma view_ret {X} (x : X) r : keeps (mret x) r x.
Proof. exists r. split; [done|apply same_view_refl]. Qed.

Lemma keeps_gets {X} (f : R -> X) r : keeps (st_gets f) r (f r).
Proof. exists r. split; [done|apply same_view_refl]. Qed.

(** The end of [putLocal], with an entry. *)
Lemma keeps_put_done p old (u : bool) (v : value) r :
  keeps (putLocal_done GF_NOERR (Some p) old u v) r (GF_NOERR, old, v).
Proof.
  unfold putLocal_done. rewrite bool_decide_eq_true_2 by done. cbn [negb].
  eapply view_bind; [apply keeps_gets|]. intros r1. apply (view_bind _ _ _ tt).
  - destruct (getEntryExpiryEnabled _); [|apply view_ret]. destruct u.
    + eapply view_bind; [exact (keeps_gets (fun r => task_scheduled (getExpProperties p r)) r1)|].
      intros r2. destruct (task_scheduled _); [apply keeps_touch_entry|apply keeps_register].
    + eapply view_bind; [apply view_ret|]. intros r2. apply keeps_register.
  - intros r2. eapply view_bind; [apply keeps_touch|]. intros r3. apply view_ret.
Qed.

(** *** Calls on the parts of a region *)

Lemma rel_call c l r s : region_rel r s -> l = a_calls s ->
  region_rel (with_calls (c :: l) r) (a_call c s) /\ (region_fits r -> region_fits (with_calls (c :: l) r)).
Proof. intros [] ->. by split. Qed.

Lemma rel_entries r s m : region_rel r s -> vm_rel m (a_map s) -> vm_members m = a_members s ->
  region_rel (with_entries (Some m) r) s.
Proof. intros [] H1 H2. constructor; simpl; try done. by exists m. Qed.

Lemma rel_set r s m am : region_rel r s -> vm_rel m am -> vm_members m = a_members s ->
  region_rel (with_entries (Some m) r) (a_set am s).
Proof. intros [] H1 H2. constructor; simpl; try done. by exists m. Qed.

Lemma on_entries_eq {X} (f : ST M X) r m :
  m_entries r = Some m ->
  on_entries f r = match f m with Ok (x, m') => Ok (x, with_entries (Some m') r) | Throw e => Throw e end.
Proof. unfold on_entries. by intros ->. Qed.

Lemma getEntry_step k r s : region_rel r s -> region_fits r ->
  exists me r', on_entries (em_getEntry k) r = Ok ((me, live_value (a_map s !! k)), r') /\
    region_rel r' s /\ region_fits r'.
Proof.
  intros Hr Hf. destruct (rr_entries r s Hr) as (m & Hm & Hrel & Hml).
  destruct (vm_getEntry k m _ Hrel (Hf m Hm)) as (me & m' & Hg & Hrel' & Hf' & Hml').
  rewrite (on_entries_eq _ _ _ Hm), Hg. do 2 eexists. split; [done|]. split.
  - apply rel_entries; [done..|congruence].
  - intros m0 [= <-]. done.
Qed.

(** *** The parts of an update *)

Lemma askWriter_step a k v arg flags r s : simple a = true -> region_rel r s -> region_fits r ->
  exists r', askWriter app a k v arg None true flags r = Ok ((spec_writer app cfg a k v arg flags s).1, r') /\
    region_rel r' (spec_writer app cfg a k v arg flags s).2 /\ region_fits r'.
Proof.
  intros Ha Hr Hf. unfold askWriter, spec_writer, mbind at 1, ST_bind at 1, st_get at 1.
  rewrite (rr_writer r s Hr). destruct (has_writer cfg && _) eqn:Ew; [|by exists r].
  apply andb_true_iff in Ew as [Ew _].
  assert (Hold : exists r', getCallbackOldValue a true k None r = Ok (seen a k s, r') /\ region_rel r' s /\ region_fits r').
  { destruct (getEntry_step k r s Hr Hf) as (me & r' & Hg & Hr' & Hf').
    destruct a; try done; [exists r'|exists r|exists r'|exists r']; split; try done;
      unfold getCallbackOldValue, mbind, ST_bind; by rewrite Hg. }
  destruct Hold as (r' & Ho & Hr' & Hf'). unfold mbind, ST_bind. rewrite Ho.
  unfold invokeCacheWriterForEntryEvent, mbind, ST_bind, st_get.
  rewrite (rr_writer r' s Hr'), Ew. fold (no_invalid (seen a k s)). pose proof (rr_calls r' s Hr') as Hc.
  destruct a; try done; unfold call, mret, ST_ret; cbn [negb s_beforeEventType]; cbv beta iota.
  - destruct (no_invalid _); cbn [is_null]; (eexists; split; [by rewrite Hc|]; by split; eapply rel_call).
  - eexists; split; [by rewrite Hc|]; by split; eapply rel_call.
  - eexists; split; [by rewrite Hc|]; by split; eapply rel_call.
  - by exists r'.
Qed.

Lemma doRemote_step a k v arg old uc flags tag r s :
  serves -> simple a = true -> region_rel r s -> region_fits r ->
  let '(err, tag', s') := spec_remote srv a k v arg flags tag s in
  exists r', doRemote virt valueEq a k v arg old true uc flags tag r
    = Ok (if bool_decide (err = GF_NOERR) then inr (old, uc, tag', GF_ENOENT, goes_remote flags) else inl (err, old), r') /\
    region_rel r' s' /\ region_fits r'.
Proof.
  intros Hs Ha Hr Hf. unfold doRemote, spec_remote. fold (goes_remote flags).
  destruct (goes_remote flags); [|by exists r].
  set (q := act_request a k v arg).
  destruct (rel_call (Remote q) (calls r) r s Hr (rr_calls r s Hr)) as [Hr1 Hf1]. specialize (Hf1 Hf).
  assert (Hrem : exists r', remoteUpdate virt valueEq a GF_ENOENT k v arg tag r
      = Ok (((srv q tag (a_call (Remote q) s)).1, GF_ENOENT), r') /\
      region_rel r' (srv q tag (a_call (Remote q) s)).2 /\ region_fits r').
  { destruct a; try done;
      [destruct (sv_put Hs k v arg tag _ _ Hr1 Hf1) as (r' & Hq & Hr' & Hf')
      |destruct (sv_create Hs k v arg tag _ _ Hr1 Hf1) as (r' & Hq & Hr' & Hf')
      |destruct (sv_destroy Hs k arg tag _ _ Hr1 Hf1) as (r' & Hq & Hr' & Hf')
      |destruct (sv_invalidate Hs k arg tag _ _ Hr1 Hf1) as (r' & Hq & Hr' & Hf')];
      exists r'; subst q; cbn [act_request] in *; (split; [|done]);
      unfold remoteUpdate, remote, call, mbind, ST_bind; rewrite Hq; by destruct (srv _ _ _) as [[? ?] ?]. }
  destruct Hrem as (r' & Hq & Hr' & Hf'). destruct (srv q tag _) as [[err tag'] s'] eqn:Es. simpl in Hr', Hq.
  unfold getConcurrencyChecksEnabled, attr, mbind, ST_bind, st_gets. rewrite (rr_cc r s Hr).
  rewrite andb_false_r. unfold mret, ST_ret. cbv iota beta. rewrite Hq.
  destruct (bool_decide (err = GF_NOERR)) eqn:Ee; cbn [negb]; cbv beta iota; [by exists r'|].
  unfold remove_tracking, getConcurrencyChecksEnabled, attr, mbind, ST_bind, st_gets. rewrite (rr_cc r' s' Hr').
  rewrite andb_false_r. by exists r'.
Qed.

Lemma listener_step a k v arg old flags r s :
  simple a = true -> region_rel r s ->
  CacheEventFlags.isNoCallbacks flags = false ->
  exists old' r', invokeCacheListenerForEntryEvent app k old v arg flags (s_afterEventType a) false r
      = Ok (((spec_listener app cfg a k v arg flags old s).1, old'), r') /\
    region_rel r' (spec_listener app cfg a k v arg flags old s).2.
Proof.
  intros Ha Hr Hn. unfold invokeCacheListenerForEntryEvent, spec_listener, mbind, ST_bind, st_get.
  rewrite (rr_listener r s Hr), Hn. destruct (has_listener cfg) eqn:El; simpl; [|by exists old, r].
  fold (no_invalid old). pose proof (rr_calls r s Hr) as Hc.
  destruct a; try done; unfold s_afterEventType; cbv iota; unfold tell, call, mbind, ST_bind, mret, ST_ret;
    rewrite ?orb_false_r; (do 2 eexists; split; [by rewrite Hc|]; by apply rel_call).
Qed.

(** *** The local operation *)

(** The errors that the versioned map returns. *)
Definition map_error (err : GfErrType) : Prop :=
  err <> GF_CACHE_ENTRY_UPDATED /\ err <> GF_INVALID_DELTA.

Lemma conflict_error ml tag w err w' : next_stamp ml tag false w = Ok (err, w') -> map_error err.
Proof.
  unfold next_stamp, mbind, outcome_bind. destruct tag as [tg|]; [|by intros [= <- <-]].
  unfold VersionStamp.processVersionTag, VersionStamp.checkForConflict, mbind, outcome_bind.
  intros Hn. repeat (case_match; simplify_eq); done.
Qed.

Lemma spec_op_error ml (o : @op K V) am err sh u am' :
  spec_op ml o am = Ok ((err, sh, u), am') -> map_error err.
Proof.
  destruct o; cbn [spec_op]; unfold mbind, outcome_bind, not_found; intros Ho;
    repeat (case_match; simplify_eq); try done; by eapply conflict_error.
Qed.

(** What [localUpdate] returns for the outcome [err] of the map. *)
Definition local_error a flags err : GfErrType :=
  match a with
  | DestroyActions => if bool_decide (err = GF_NOERR) || CacheEventFlags.isNotification flags then GF_NOERR else err
  | InvalidateActions =>
    if bool_decide (err = GF_CACHE_CONCURRENT_MODIFICATION_EXCEPTION) ||
       (CacheEventFlags.isNotification flags && bool_decide (err = GF_CACHE_ENTRY_NOT_FOUND))
    then GF_NOERR else err
  | _ => err
  end.

(** The old value goes to the callers of a map operation that was done. *)
Definition local_old a (x : option (value * VersionStamp.t)) (old shown : value) (err : GfErrType) : value :=
  match a with
  | PutActions => put_old x old
  | InvalidateActions => old
  | DestroyActions => if decide (err = GF_NOERR) then shown else None
  | _ => shown
  end.

Lemma keeps_rel {X} (f : ST R X) r x s am m :
  keeps f (with_entries (Some m) r) x -> region_rel r s -> vm_rel m am -> vm_members m = a_members s ->
  exists r', f (with_entries (Some m) r) = Ok (x, r') /\ region_rel r' (a_set am s).
Proof.
  intros (r' & Hf & Hv) Hr Hm Hml. exists r'. split; [done|]. eapply same_view_rel; [done|]. by apply rel_set.
Qed.

Lemma put_done_step err me old (u : bool) (v : value) r s m am :
  region_rel r s -> vm_rel m am -> vm_members m = a_members s -> (err = GF_NOERR -> me <> None) ->
  exists r', putLocal_done err me old u v (with_entries (Some m) r) = Ok ((err, old, v), r') /\
    region_rel r' (a_set am s).
Proof.
  intros Hr Hrel Hml Hme. destruct (decide (err = GF_NOERR)) as [->|Hne].
  - destruct me as [p|]; [|by destruct Hme]. apply keeps_rel; [apply keeps_put_done|done..].
  - unfold putLocal_done. rewrite bool_decide_eq_false_2 by done. eexists. split; [done|]. by apply rel_set.
Qed.

Lemma put_step k v old uc tag r s :
  region_rel r s -> region_fits r -> v <> Some TombstoneToken ->
  match spec_op (a_members s) (OpPut k v tag) (a_map s) with
  | Ok ((err, sh, _), am) => exists old' r',
      putLocal virt false k v old true uc 0 tag None None r = Ok ((err, old', v), r') /\
      region_rel r' (a_set am s) /\ (err = GF_NOERR -> old' = put_old (a_map s !! k) old)
  | Throw e => putLocal virt false k v old true uc 0 tag None None r = Throw e
  end.
Proof.
  intros Hr Hf Hv. destruct (rr_entries r s Hr) as (m & Hm & Hrel & Hml).
  pose proof (vm_put k v None old uc 0 tag true m _ Hrel (Hf m Hm) Hv) as Hc. rewrite Hml in Hc.
  unfold putLocal, mbind, ST_bind. rewrite (on_entries_eq _ _ _ Hm).
  destruct (spec_op _ _ _) as [[[[err sh] u] am]|e] eqn:Es; [|by rewrite Hc].
  destruct (spec_op_error _ _ _ _ _ _ _ Es) as [_ Hne].
  destruct Hc as (me & m' & -> & Hrel' & Hme & Hml'). rewrite decide_False by done.
  destruct (put_done_step err me (if decide (err = GF_NOERR) then put_old (a_map s !! k) old else old)
    (if decide (err = GF_NOERR) then u else true) v r s m' am) as (r' & He & Hr'); [done..|congruence|done|].
  do 2 eexists. split; [exact He|]. split; [done|]. intros ->. by rewrite decide_True.
Qed.

Lemma create_step k v uc tag r s :
  region_rel r s -> region_fits r -> v <> Some TombstoneToken ->
  match spec_op (a_members s) (OpCreate k v tag) (a_map s) with
  | Ok ((err, sh, _), am) => exists r',
      putLocal virt true k v None true uc 0 tag None None r = Ok ((err, sh, v), r') /\ region_rel r' (a_set am s)
  | Throw e => putLocal virt true k v None true uc 0 tag None None r = Throw e
  end.
Proof.
  intros Hr Hf Hv. destruct (rr_entries r s Hr) as (m & Hm & Hrel & Hml).
  pose proof (vm_create k v None uc 0 tag m _ Hrel (Hf m Hm) Hv) as Hc. rewrite Hml in Hc.
  unfold putLocal, mbind, ST_bind. rewrite (on_entries_eq _ _ _ Hm).
  destruct (spec_op _ _ _) as [[[[err sh] u] am]|e] eqn:Es; [|by rewrite Hc].
  destruct Hc as (me & m' & -> & Hrel' & Hme & Hml').
  apply put_done_step; [done..|congruence|done].
Qed.

Lemma remove_step k old uc flags tag rem r s :
  region_rel r s -> region_fits r -> (CacheEventFlags.isNotification flags = true -> old = None) ->
  match spec_op (a_members s) (OpRemove k tag rem) (a_map s) with
  | Ok ((err, sh, _), am) => exists old' r',
      removeLocal k old true flags uc tag rem r = Ok ((local_error DestroyActions flags err, old'), r') /\
      region_rel r' (a_set am s) /\
      (local_error DestroyActions flags err = GF_NOERR -> old' = local_old DestroyActions None old sh err)
  | Throw e => removeLocal k old true flags uc tag rem r = Throw e
  end.
Proof.
  intros Hr Hf Hold. destruct (rr_entries r s Hr) as (m & Hm & Hrel & Hml).
  pose proof (vm_remove k None old uc tag rem m _ Hrel (Hf m Hm)) as Hc. rewrite Hml in Hc.
  unfold removeLocal, mbind, ST_bind. rewrite (on_entries_eq _ _ _ Hm).
  destruct (spec_op _ _ _) as [[[[err sh] u] am]|e] eqn:Es; [|by rewrite Hc].
  destruct Hc as (me & old' & m' & -> & Hrel' & H1 & H2 & Hml'). unfold local_error, local_old.
  destruct (decide (err = GF_NOERR)) as [->|Hne].
  - rewrite !bool_decide_eq_true_2 by done. cbn [negb orb]. specialize (H1 eq_refl) as ->.
    destruct (keeps_rel (X := GfErrType * value)
      ((match sh with
        | Some _ => (match me with Some p => cleanup p flags | None => mret tt end);;
                    if CacheEventFlags.isEvictOrExpire flags then mret tt else updateAccessAndModifiedTime true
        | None => mret tt
        end);; mret (GF_NOERR, sh)) r (GF_NOERR, sh) s am m') as (r' & He & Hr'); [|done..|congruence|].
    + apply (view_bind _ _ _ tt); [|intros; apply view_ret]. destruct sh; [|apply view_ret].
      apply (view_bind _ _ _ tt); [destruct me; [apply keeps_cleanup|apply view_ret]|].
      intros r1. destruct (CacheEventFlags.isEvictOrExpire flags); [apply view_ret|apply keeps_touch].
    + by exists sh, r'.
  - rewrite !bool_decide_eq_false_2 by done. cbn [negb orb]. do 2 eexists. split; [by case_match|].
    split; [apply rel_set; done || congruence|]. destruct (CacheEventFlags.isNotification flags); [|done].
    intros _. destruct (H2 Hne) as [->| ->]; [done|by apply Hold].
Qed.

Lemma invalidate_step k v flags tag r s :
  serves -> region_rel r s -> region_fits r ->
  CacheEventFlags.isNotification flags && negb (marker cfg) = false ->
  match spec_op (a_members s) (OpInvalidate k tag) (a_map s) with
  | Ok ((err, _, _), am) => exists r',
      invalidateLocal virt (Some k) v flags tag r = Ok (local_error InvalidateActions flags err, r') /\
      region_rel r' (a_set am s)
  | Throw e => invalidateLocal virt (Some k) v flags tag r = Throw e
  end.
Proof.
  intros Hs Hr Hf Hmk. destruct (rr_entries r s Hr) as (m & Hm & Hrel & Hml).
  pose proof (vm_invalidate k None None tag m _ Hrel (Hf m Hm)) as Hc. rewrite Hml in Hc.
  unfold invalidateLocal, check_destroy_pending_nothrow, getCachingEnabled, attr, mbind, ST_bind,
    st_get, st_gets. rewrite (rr_alive r s Hr), (rr_caching r s Hr).
  assert (Hg : negb (CacheEventFlags.isNotification flags) || getProcessedMarker virt = true).
  { rewrite (sv_marker Hs). by destruct (CacheEventFlags.isNotification flags), (marker cfg). }
  rewrite Hg. rewrite (on_entries_eq _ _ _ Hm).
  destruct (spec_op _ _ _) as [[[[err sh] u] am]|e] eqn:Es; [|by rewrite Hc].
  destruct Hc as (me & old' & m' & -> & Hrel' & Hml'). unfold local_error.
  assert (Hend : exists r', ((if CacheEventFlags.isEvictOrExpire flags then mret tt else updateAccessAndModifiedTime true);;
      mret GF_NOERR) (with_entries (Some m') r) = Ok (GF_NOERR, r') /\ region_rel r' (a_set am s)).
  { apply keeps_rel; [|done..|congruence]. apply (view_bind _ _ _ tt); [|intros; apply view_ret].
    destruct (CacheEventFlags.isEvictOrExpire flags); [apply view_ret|apply keeps_touch]. }
  assert (Hret : forall e : GfErrType, exists r', Ok (e, with_entries (Some m') r) = Ok (e, r') /\ region_rel r' (a_set am s)).
  { intros e. eexists. split; [done|]. apply rel_set; done || congruence. }
  destruct (decide (err = GF_NOERR)) as [->|Hne]; [by destruct (CacheEventFlags.isNotification flags)|].
  rewrite (bool_decide_eq_false_2 (err = GF_NOERR)) by done. cbn [negb].
  destruct (decide (err = GF_CACHE_CONCURRENT_MODIFICATION_EXCEPTION)) as [->|Hne']; [apply Hret|].
  rewrite (bool_decide_eq_false_2 (err = GF_CACHE_CONCURRENT_MODIFICATION_EXCEPTION)) by done. cbn [orb].
  destruct (CacheEventFlags.isNotification flags); cbn [negb orb andb]; [|apply Hret].
  destruct (bool_decide (err = GF_CACHE_ENTRY_NOT_FOUND)); cbn [negb]; [apply Hend|apply Hret].
Qed.

(** The local operation of an action. *)
Lemma localUpdate_step a k v old uc flags tag rem r s :
  serves -> simple a = true -> region_rel r s -> region_fits r -> v <> Some TombstoneToken ->
  (CacheEventFlags.isNotification flags = true \/ a = CreateActions -> old = None) ->
  CacheEventFlags.isNotification flags && negb (marker cfg) = false ->
  match spec_op (a_members s) (act_op a k v tag rem) (a_map s) with
  | Ok ((err, sh, _), am) => exists old' r',
      localUpdate virt valueEq a GF_ENOENT k v old true flags uc tag None None rem r
      = Ok ((local_error a flags err, old', v), r') /\
      region_rel r' (a_set am s) /\
      (local_error a flags err = GF_NOERR -> old' = local_old a (a_map s !! k) old sh err)
  | Throw e => localUpdate virt valueEq a GF_ENOENT k v old true flags uc tag None None rem r = Throw e
  end.
Proof.
  intros Hs Ha Hr Hf Hv Hold Hmk. destruct a; try done; cbn [act_op localUpdate].
  - by apply put_step.
  - rewrite Hold by auto. pose proof (create_step k v uc tag r s Hr Hf Hv) as Hc.
    destruct (spec_op _ _ _) as [[[[err sh] u] am]|e]; [|done]. destruct Hc as (r' & ? & ?). by exists sh, r'.
  - pose proof (remove_step k old uc flags tag rem r s Hr Hf ltac:(auto)) as Hc. unfold mbind, ST_bind.
    destruct (spec_op _ _ _) as [[[[err sh] u] am]|e]; [|by rewrite Hc].
    destruct Hc as (old' & r' & -> & ? & ?). by exists old', r'.
  - pose proof (invalidate_step k v flags tag r s Hs Hr Hf Hmk) as Hc. unfold mbind, ST_bind.
    destruct (spec_op _ _ _) as [[[[err sh] u] am]|e]; [|by rewrite Hc].
    destruct Hc as (r' & -> & ?). by exists old, r'.
Qed.

(** The errors after which [doLocal] goes on, or returns. *)
Lemma after_local_error a flags x old err sh u :
  simple a = true -> map_error err ->
  match after_local a flags x old (err, sh, u) with
  | inr o => local_error a flags err = GF_NOERR /\ o = local_old a x old sh err
  | inl e =>
    local_error a flags err <> GF_NOERR /\ map_error (local_error a flags err) /\
    e = if decide (local_error a flags err = GF_CACHE_CONCURRENT_MODIFICATION_EXCEPTION) then GF_NOERR
        else local_error a flags err
  end.
Proof.
  intros Ha [H1 H2]. unfold after_local, local_error, local_old.
  destruct (decide (err = GF_NOERR)) as [->|Hne].
  - destruct a; try done; simpl; by destruct (CacheEventFlags.isNotification flags).
  - rewrite (bool_decide_eq_false_2 (err = GF_NOERR)) by done.
    destruct (decide (err = GF_CACHE_CONCURRENT_MODIFICATION_EXCEPTION)) as [->|Hne'].
    + destruct a; try done; simpl; by destruct (CacheEventFlags.isNotification flags).
    + rewrite (bool_decide_eq_false_2 (err = GF_CACHE_CONCURRENT_MODIFICATION_EXCEPTION)) by done.
      destruct a; try done; simpl; rewrite ?decide_False by done; try done;
        destruct (CacheEventFlags.isNotification flags); simpl; try done; rewrite ?decide_False by done; try done.
      destruct (bool_decide _); [done|]. by rewrite decide_False.
Qed.

Lemma doLocal_step a k v old uc flags tag r s :
  serves -> simple a = true -> region_rel r s -> region_fits r -> v <> Some TombstoneToken ->
  (CacheEventFlags.isNotification flags = true \/ a = CreateActions -> old = None) ->
  match spec_local cfg a k v flags tag old s with
  | Ok (res, s') => exists x r',
      doLocal virt valueEq a GF_ENOENT k v old true flags uc tag None None (goes_remote flags) r = Ok (x, r') /\
      region_rel r' s' /\
      match res with
      | inl err => exists o, x = inl (err, o, v)
      | inr o => x = inr (GF_NOERR, o, v)
      end
  | Throw e => doLocal virt valueEq a GF_ENOENT k v old true flags uc tag None None (goes_remote flags) r = Throw e
  end.
Proof.
  intros Hs Ha Hr Hf Hv Hold. unfold spec_local, doLocal.
  destruct (CacheEventFlags.isNotification flags && negb (marker cfg)) eqn:Hmk.
  - apply andb_true_iff in Hmk as [Hn Hm]. rewrite Hn, (sv_marker Hs). destruct (marker cfg); [done|]. cbn [negb orb].
    assert (Hrt : forall r0, region_rel r0 s -> remove_tracking k uc r0 = Ok (tt, r0)).
    { intros r0 Hr0. unfold remove_tracking, getConcurrencyChecksEnabled, attr, mbind, ST_bind, st_gets.
      rewrite (rr_cc r0 s Hr0), andb_false_r. done. }
    destruct (getEntry_step k r s Hr Hf) as (me & r' & Hg & Hr' & Hf').
    destruct a; try done; unfold getCallbackOldValue, mbind, ST_bind;
      rewrite ?Hg; unfold mret, ST_ret; rewrite ?(Hrt r' Hr'), ?(Hrt r Hr); eauto.
  - pose proof (localUpdate_step a k v old uc flags tag (goes_remote flags) r s Hs Ha Hr Hf Hv Hold Hmk) as Hl.
    assert (Hg : negb (CacheEventFlags.isNotification flags) || getProcessedMarker virt = true).
    { rewrite (sv_marker Hs). by destruct (CacheEventFlags.isNotification flags), (marker cfg). }
    rewrite Hg. unfold mbind, ST_bind, outcome_bind.
    destruct (spec_op _ _ _) as [[[[err sh] u] am]|e] eqn:Es; [|by rewrite Hl].
    destruct Hl as (old' & r' & -> & Hr' & Ho).
    pose proof (after_local_error a flags (a_map s !! k) old err sh u Ha (spec_op_error _ _ _ _ _ _ _ Es)) as Haf.
    destruct (after_local _ _ _ _ _) as [e|o].
    + destruct Haf as (Hne & [Hx1 Hx2] & ->). rewrite !(decide_False (P := local_error _ _ _ = _)) by done.
      case_decide; [by do 2 eexists; split; [|split; [|eexists]]|].
      rewrite decide_False, bool_decide_eq_false_2 by done. cbn [negb].
      by do 2 eexists; split; [|split; [|eexists]].
    + destruct Haf as [Hne ->]. rewrite Hne. do 2 eexists. split; [reflexivity|]. split; [done|]. by rewrite Ho.
Qed.

(** *** The update *)

Lemma spec_writer_old a k v arg flags s : 
  CacheEventFlags.isNotification flags = true \/ a = CreateActions ->
  (spec_writer app cfg a k v arg flags s).1.2 = None.
Proof.
  unfold spec_writer. intros [Hn| ->].
  - assert (Hw : CacheEventFlags.invokeCacheWriter flags = false); [|by rewrite Hw, andb_false_r].
    unfold CacheEventFlags.isNotification, CacheEventFlags.invokeCacheWriter in *.
    apply Z.eqb_neq. intros E0. apply Z.ltb_lt in Hn.
    assert (Hb : Z.testbit flags 2 = true).
    { destruct (Z.testbit flags 2) eqn:Eb; [done|]. exfalso.
      assert (Z.land flags CacheEventFlags.GF_NOTIFICATION = 0); [|lia]. apply Z.bits_inj'. intros n Hn0.
      rewrite Z.land_spec, Z.bits_0. change CacheEventFlags.GF_NOTIFICATION with (2 ^ 2).
      rewrite Z.pow2_bits_eqb by lia. destruct (Z.eqb_spec 2 n) as [<-|]; [by rewrite Eb|by rewrite andb_false_r]. }
    apply (f_equal (fun z => Z.testbit z 2)) in E0. rewrite Z.land_spec, Hb in E0. done.
  - destruct (has_writer cfg && _); [|done]. by destruct (cb_writer _ _).
Qed.

Lemma refine_update a k v arg uc flags tag r s :
  serves -> simple a = true -> checkArgs (D := D) a (Some k) v None = GF_NOERR -> v <> Some TombstoneToken ->
  region_rel r s -> region_fits r ->
  match spec_update app cfg srv a k v arg flags tag s with
  | Ok (err, s') => exists old r',
      updateNoThrow virt app valueEq a (Some k) v arg None uc flags tag None None r = Ok ((err, old, v), r') /\
      region_rel r' s'
  | Throw e => updateNoThrow virt app valueEq a (Some k) v arg None uc flags tag None None r = Throw e
  end.
Proof.
  intros Hs Ha Hargs Hv Hr Hf. unfold updateNoThrow. rewrite Hargs, bool_decide_eq_true_2 by done. cbn [negb].
  unfold check_destroy_pending_nothrow, getCachingEnabled, attr, mbind, ST_bind, st_get, st_gets. cbn [non_null].
  unfold mret, ST_ret. rewrite (rr_alive r s Hr), (rr_tx r s Hr), (rr_caching r s Hr).
  pose proof (spec_writer_old a k v arg flags s) as Hold. unfold spec_update, mbind, outcome_bind.
  destruct (askWriter_step a k v arg flags r s Ha Hr Hf) as (r1 & -> & Hr1 & Hf1).
  destruct (spec_writer app cfg a k v arg flags s) as [[go old] s1]. cbn [fst snd] in *.
  destruct go; cbn [negb]; [|by do 2 eexists].
  pose proof (doRemote_step a k v arg old uc flags tag r1 s1 Hs Ha Hr1 Hf1) as Hrem.
  destruct (spec_remote srv a k v arg flags tag s1) as [[err tag'] s2].
  destruct Hrem as (r2 & -> & Hr2 & Hf2). destruct (bool_decide (err = GF_NOERR)); cbn [negb]; [|by do 2 eexists].
  pose proof (doLocal_step a k v old uc flags tag' r2 s2 Hs Ha Hr2 Hf2 Hv Hold) as Hloc.
  destruct (spec_local cfg a k v flags tag' old s2) as [[res s3]|e]; [|by rewrite Hloc].
  destruct Hloc as (x & r3 & -> & Hr3 & Hx). destruct res as [e|o]; [destruct Hx as [o ->]; by do 2 eexists|].
  subst x. destruct (CacheEventFlags.isNoCallbacks flags) eqn:En.
  - unfold spec_listener. rewrite En. by do 2 eexists.
  - destruct (listener_step a k v arg o flags r3 s3 Ha Hr3 En) as (o' & r4 & -> & Hr4).
    destruct (spec_listener app cfg a k v arg flags o s3). by do 2 eexists.
Qed.

(** *** The read *)

Lemma get_step k r s : region_rel r s -> region_fits r ->
  exists me r', on_entries (em_get k) r
    = Ok ((negb (bool_decide (live_value (a_map s !! k) = None)), me, live_value (a_map s !! k)), r') /\
    region_rel r' s /\ region_fits r'.
Proof.
  intros Hr Hf. destruct (rr_entries r s Hr) as (m & Hm & Hrel & Hml).
  destruct (vm_get k m _ Hrel (Hf m Hm)) as (me & m' & Hg & Hrel' & Hf' & Hml').
  rewrite (on_entries_eq _ _ _ Hm), Hg. do 2 eexists. split; [done|]. split.
  - apply rel_entries; [done..|congruence].
  - intros m0 [= <-]. done.
Qed.

Lemma hide_null (v : value) : is_null (hide_token v) = no_value v.
Proof. by destruct v as [[]|]. Qed.

Lemma hide_id (v : value) : no_value v = false -> hide_token v = v.
Proof. by destruct v as [[]|]. Qed.

Lemma heard_step k v arg (loaded wasInvalid : bool) err old r s : region_rel r s ->
  exists r', getNoThrow_listen app k v arg wasInvalid loaded err old r
      = Ok ((spec_heard app cfg k v arg loaded wasInvalid err old s).1, r') /\
    region_rel r' (spec_heard app cfg k v arg loaded wasInvalid err old s).2.
Proof.
  intros Hr. unfold getNoThrow_listen, spec_heard. rewrite hide_null.
  destruct (negb loaded && bool_decide (err = GF_NOERR) && negb (no_value v)) eqn:Ec; cbn [andb]; [|by exists r].
  apply andb_true_iff in Ec as [Ec En]. apply andb_true_iff in Ec as [_ Ee]. apply bool_decide_eq_true in Ee as ->.
  apply negb_true_iff in En. rewrite (hide_id v En).
  unfold invokeCacheListenerForEntryEvent, mbind, ST_bind, st_get.
  rewrite (rr_listener r s Hr). destruct (has_listener cfg) eqn:El; cbn [negb]; [|by exists r].
  fold (no_invalid old). unfold tell, call, mbind, ST_bind, mret, ST_ret. rewrite (rr_calls r s Hr).
  rewrite orb_false_r. eexists. split; [done|]. by apply rel_call.
Qed.

Lemma spec_put_error ml k v tag (am : gmap K (value * VersionStamp.t)) err sh u am' :
  spec_op ml (OpPut k v tag) am = Ok ((err, sh, u), am') -> err <> GF_NOERR -> am' = am /\ sh = None.
Proof.
  cbn [spec_op]. unfold mbind, outcome_bind. intros Hs Hne. by repeat (case_match; simplify_eq).
Qed.

Lemma put_error_old k v old uc tag r s err old' r' sh u am :
  region_rel r s -> region_fits r -> v <> Some TombstoneToken ->
  spec_op (a_members s) (OpPut k v tag) (a_map s) = Ok ((err, sh, u), am) -> err <> GF_NOERR ->
  putLocal virt false k v old true uc 0 tag None None r = Ok ((err, old', v), r') -> old' = old.
Proof.
  intros Hr Hf Hv Hs Hne. destruct (rr_entries r s Hr) as (m & Hm & Hrel & Hml).
  pose proof (vm_put k v None old uc 0 tag true m _ Hrel (Hf m Hm) Hv) as Hc. rewrite Hml, Hs in Hc.
  destruct (spec_op_error _ _ _ _ _ _ _ Hs) as [_ Hd]. destruct Hc as (me & m' & Hp & _).
  unfold putLocal, mbind, ST_bind. rewrite (on_entries_eq _ _ _ Hm), Hp. rewrite !decide_False by done.
  unfold mret at 1, ST_ret at 1. unfold putLocal_done. rewrite bool_decide_eq_false_2 by done. by intros [= <- _].
Qed.

Lemma store_step k v local arg (loaded wasInvalid : bool) tag err r s :
  region_rel r s -> region_fits r -> is_null local || isInvalid local = true ->
  match spec_keep app cfg k v arg tag loaded wasInvalid err s with
  | Ok (ret, s') => exists r',
      getNoThrow_store virt app k v local arg true wasInvalid loaded (-1) tag err r = Ok (ret, r') /\
      region_rel r' s'
  | Throw e => getNoThrow_store virt app k v local arg true wasInvalid loaded (-1) tag err r = Throw e
  end.
Proof.
  intros Hr Hf Hl. unfold getNoThrow_store, spec_keep. rewrite Hl, !andb_true_r.
  destruct (is_null v || isTombstone v) eqn:Ev.
  - replace (negb (is_null v) && negb (isTombstone v)) with false by (by destruct v as [[]|]).
    destruct (heard_step k v arg loaded wasInvalid err None r s Hr) as (r' & -> & Hr').
    destruct (spec_heard _ _ _ _ _ _ _ _ _ _). by exists r'.
  - replace (negb (is_null v) && negb (isTombstone v)) with true by (by destruct v as [[]|]).
    assert (Hv : v <> Some TombstoneToken) by (by intros ->).
    pose proof (put_step k v None (-1) tag r s Hr Hf Hv) as Hp.
    pose proof (put_error_old k v None (-1) tag r s) as Hpe. unfold mbind, ST_bind, outcome_bind.
    destruct (spec_op _ _ _) as [[[[e sh] u] am]|e] eqn:Es; [|by rewrite Hp].
    destruct Hp as (old' & r1 & Hp & Hr1 & Ho). rewrite Hp. destruct (decide (e = GF_NOERR)) as [->|Hne].
    + rewrite Ho by done. destruct (heard_step k v arg loaded wasInvalid GF_NOERR (put_old (a_map s !! k) None) r1 _ Hr1)
        as (r' & -> & Hr'). destruct (spec_heard _ _ _ _ _ _ _ _ _ _). by exists r'.
    + rewrite (Hpe e old' r1 sh u am Hr Hf Hv eq_refl Hne Hp).
      case_decide; [by exists r1|]. cbn [is_null negb andb].
      destruct (heard_step k v arg loaded wasInvalid GF_NOERR None r1 _ Hr1) as (r' & -> & Hr').
      destruct (spec_heard _ _ _ _ _ _ _ _ _ _). by exists r'.
Qed.

Lemma at_exit_untracked {X} (f : ST R X) k r : at_exit f (remove_tracking k (-1)) r = f r.
Proof. unfold at_exit, mbind, ST_bind. by destruct (f r) as [[x r']|]. Qed.

Lemma refine_read k arg r s :
  remotes_get -> region_rel r s -> region_fits r ->
  match spec_get app cfg srv_get k arg s with
  | Ok (ret, s') => exists r', getNoThrow virt app (Some k) None arg r = Ok (ret, r') /\ region_rel r' s'
  | Throw e => getNoThrow virt app (Some k) None arg r = Throw e
  end.
Proof.
  intros Hg Hr Hf. unfold getNoThrow, spec_get.
  unfold check_destroy_pending_nothrow, getCachingEnabled, getConcurrencyChecksEnabled, attr, mbind, ST_bind, st_get, st_gets.
  rewrite (rr_alive r s Hr), (rr_tx r s Hr), (rr_caching r s Hr).
  destruct (get_step k r s Hr Hf) as (me & r1 & -> & Hr1 & Hf1).
  set (local := live_value (a_map s !! k)).
  assert (Eh : negb (bool_decide (local = None)) && negb (is_null local) && negb (isInvalid local)
    = negb (is_null local) && negb (isInvalid local)) by (by destruct local).
  rewrite andb_true_l, Eh. clear Eh. destruct (negb (is_null local) && negb (isInvalid local)) eqn:El.
  - destruct (keeps_touch_entry me false r1) as (r2 & -> & Hv2).
    destruct (keeps_touch false r2) as (r3 & -> & Hv3). exists r3. split; [done|].
    exact (same_view_rel _ _ _ (same_view_trans _ _ _ Hv2 Hv3) Hr1).
  - rewrite (rr_cc r1 s Hr1). cbn [negb andb]. unfold mret, ST_ret. rewrite at_exit_untracked.
    unfold remote, call, mbind, ST_bind, st_get.
    destruct (keeps_touch false r1) as (r2 & -> & Hv2).
    pose proof (same_view_rel _ _ _ Hv2 Hr1) as Hr2. pose proof (same_view_fits _ _ Hv2 Hf1) as Hf2.
    destruct (rel_call (Remote (RGet k arg)) (calls r2) r2 s Hr2 (rr_calls r2 s Hr2)) as [Hr3 Hf3].
    destruct (Hg k arg _ _ Hr3 (Hf3 Hf2)) as (r4 & -> & Hr4 & Hf4).
    destruct (srv_get k arg (a_call (Remote (RGet k arg)) s)) as [[[err v] tag] s4]. cbn [fst snd] in *.
    assert (Hlocal : is_null local || isInvalid local = true) by (by destruct local as [[]|]).
    assert (Hwas : negb (bool_decide (local = None)) = negb (is_null local)) by (by destruct local).
    unfold no_value, not_a_value. rewrite <- orb_assoc, (rr_loader r4 s4 Hr4), Hwas.
    destruct ((is_null v || _) && has_loader cfg); [|by apply store_step].
    destruct (rel_call (Load k arg) (calls r4) r4 s4 Hr4 (rr_calls r4 s4 Hr4)) as [Hr5 Hf5].
    cbn [a_calls a_call]. rewrite (rr_calls r4 s4 Hr4) in Hr5, Hf5 |- *.
    destruct (cb_loader app _) as [v'|]; [|by eexists].
    destruct (bool_decide (err = GF_NOERR)); cbn [negb]; [|by eexists].
    apply store_step; [done|by apply Hf5|done].
Qed.
End Facts.

(** *** Eviction through the region *)

Section Evict.
Context {M K V D A E : Type} `{HM : EntriesMap M K V D}.
Context (virt : Virtuals M K V A E) (app : Callbacks K V A) (valueEq : V -> V -> bool).

(** What the eviction action sees of a region. *)
Definition evict_view (r : LocalRegion.t M K V A) : LRUEntriesMap.RegionView K V :=
  LRUEntriesMap.mkView (m_destroyPending r) (negb (is_null (txState r))) (m_caching (m_regionAttributes r))
    (if m_listener r
     then Some (fun k old => cb_listener app (AfterDestroy (mkEvent k old None None false) :: calls r)) else None).

Abbreviation evicting := (Z.lor CacheEventFlags.EVICTION CacheEventFlags.LOCAL).

Lemma removeLocal_evicts k (r : LocalRegion.t M K V A) m :
  m_entries r = Some m ->
  match em_remove k None None (-1) None false m with
  | Ok ((err, old, _), m') => exists r', removeLocal k None true evicting (-1) None false r = Ok ((err, old), r') /\
      same_view (with_entries (Some m') r) r'
  | Throw e => removeLocal k None true evicting (-1) None false r = Throw e
  end.
Proof.
  intros Hm. unfold removeLocal. pose proof (on_entries_eq (em_remove k None None (-1) None false) r m Hm) as Ho.
  destruct (em_remove k None None (-1) None false m) as [[[[err old] me] m']|e]; [|by apply st_bind_throw].
  rewrite (st_bind_ok _ _ _ _ _ Ho).
  destruct (decide (err = GF_NOERR)) as [->|Hne].
  - rewrite bool_decide_eq_true_2 by done. cbn [negb].
    apply (view_bind _ _ _ tt); [|intros; apply view_ret]. destruct old; [|apply view_ret].
    apply (view_bind _ _ _ tt); [destruct me; [apply keeps_cleanup|apply view_ret]|]. intros r1. apply view_ret.
  - rewrite bool_decide_eq_false_2 by done. eexists. split; [reflexivity|apply same_view_refl].
Qed.

(** What [doLocal] makes of the outcome of the removal. *)
Definition after_evict (err : GfErrType) (old : option (Cacheable V))
    : (GfErrType * option (Cacheable V) * option (Cacheable V)) + (GfErrType * option (Cacheable V) * option (Cacheable V)) :=
  if decide (err = GF_CACHE_CONCURRENT_MODIFICATION_EXCEPTION) then inl (GF_NOERR, old, None)
  else if bool_decide (err = GF_NOERR) || bool_decide (err = GF_CACHE_ENTRY_UPDATED) then inr (GF_NOERR, old, None)
  else inl (err, old, None).

Lemma doLocal_of_remove k caching (r : LocalRegion.t M K V A) :
  match removeLocal k None caching evicting (-1) None false r with
  | Ok ((err, old), r') => err <> GF_INVALID_DELTA ->
      doLocal virt valueEq DestroyActions GF_ENOENT k None None caching evicting (-1) None None None false r
      = Ok (after_evict err old, r')
  | Throw e => doLocal virt valueEq DestroyActions GF_ENOENT k None None caching evicting (-1) None None None false r = Throw e
  end.
Proof.
  unfold doLocal, localUpdate. change (CacheEventFlags.isNotification evicting) with false. cbn [negb orb].
  unfold mbind, ST_bind. destruct (removeLocal k None caching evicting (-1) None false r) as [[[err old] r']|e]; [|done].
  intros Hd. cbn. unfold after_evict. rewrite (decide_False (P := err = GF_INVALID_DELTA)) by done.
  by destruct err.
Qed.

Lemma doLocal_evicts k (caching : bool) (r : LocalRegion.t M K V A) m :
  m_entries r = Some m ->
  (forall old me m', em_remove k None None (-1) None false m <> Ok ((GF_INVALID_DELTA, old, me), m')) ->
  match (if caching then '(err, old, _) ← em_remove k None None (-1) None false; mret (err, old) else mret (GF_NOERR, None)) m with
  | Ok ((err, old), m') => exists r',
      doLocal virt valueEq DestroyActions GF_ENOENT k None None caching evicting (-1) None None None false r
      = Ok (after_evict err old, r') /\ same_view (with_entries (Some m') r) r'
  | Throw e => doLocal virt valueEq DestroyActions GF_ENOENT k None None caching evicting (-1) None None None false r = Throw e
  end.
Proof.
  intros Hm Hd. pose proof (doLocal_of_remove k caching r) as Hl. destruct caching.
  - pose proof (removeLocal_evicts k r m Hm) as Hr. unfold mbind, ST_bind.
    destruct (em_remove k None None (-1) None false m) as [[[[err old] me] m']|e] eqn:Er; [|by rewrite Hr in Hl].
    destruct Hr as (r' & Hr & Hv). rewrite Hr in Hl. exists r'. split; [|done]. apply Hl. intros ->. by eapply Hd.
  - exists r. split; [by apply Hl|]. repeat split. by rewrite Hm.
Qed.

Lemma tell_destroyed k old (r : LocalRegion.t M K V A) :
  exists r' old', invokeCacheListenerForEntryEvent app k old None None evicting AFTER_DESTROY false r =
    Ok ((match LRUEntriesMap.rv_listener (evict_view r) with
         | None => GF_NOERR
         | Some f => if f k (if isInvalid old then None else old) then GF_NOERR else GF_CACHE_LISTENER_EXCEPTION
         end, old'), r') /\ m_entries r' = m_entries r.
Proof.
  unfold invokeCacheListenerForEntryEvent, mbind, ST_bind, st_get. cbn. destruct (m_listener r); cbn; [|by eexists _, _].
  unfold tell, call, mbind, ST_bind. cbn. by eexists _, _.
Qed.

(** The destruction of an evicted entry by the region has the error and the effect on the entries map that the eviction
    action of the map has: [LRUEntriesMap.destroyEvicted]. A [remove] does not complain about deltas. *)
Lemma destroyNoThrow_evicts key (r : LocalRegion.t M K V A) m :
  m_entries r = Some m ->
  (forall k old me m', em_remove k None None (-1) None false m <> Ok ((GF_INVALID_DELTA, old, me), m')) ->
  match LRUEntriesMap.destroyEvicted (evict_view r) (fun k => em_remove k None None (-1) None false) key m with
  | Ok (err, m') => exists r', destroyNoThrow virt app valueEq key None (-1) evicting None r = Ok (err, r') /\
      m_entries r' = Some m'
  | Throw e => destroyNoThrow virt app valueEq key None (-1) evicting None r = Throw e
  end.
Proof.
  intros Hm Hdelta. destruct key as [k|]; [|by exists r].
  unfold LRUEntriesMap.destroyEvicted, destroyNoThrow, updateNoThrow, check_destroy_pending_nothrow, checkArgs.
  cbn [is_null LRUEntriesMap.rv_destroyPending evict_view LRUEntriesMap.rv_inTransaction LRUEntriesMap.rv_cachingEnabled].
  rewrite bool_decide_eq_true_2 by done. cbn [negb]. unfold fmap, ST_fmap.
  rewrite (st_bind_ok st_get _ r r r) by done. destruct (m_destroyPending r); [by exists r|].
  rewrite (st_bind_ok (non_null (Some k)) _ r k r), (st_bind_ok st_get _ r r r) by done.
  destruct (txState r); cbn [negb is_null].
  { unfold in_transaction, isLocalOp. change (CacheEventFlags.isLocal evicting) with true. rewrite orb_true_r. by exists r. }
  rewrite (st_bind_ok getCachingEnabled _ r (m_caching (m_regionAttributes r)) r) by done.
  assert (Ew : askWriter app DestroyActions k None None None (m_caching (m_regionAttributes r)) evicting r = Ok ((true, None), r)).
  { unfold askWriter. rewrite (st_bind_ok st_get _ r r r) by done.
    change (CacheEventFlags.invokeCacheWriter evicting) with false. by rewrite andb_false_r. }
  rewrite (st_bind_ok _ _ _ _ _ Ew). cbn [negb].
  rewrite (st_bind_ok (doRemote _ _ _ _ _ _ _ _ _ _ _) _ r (inr (None, -1, None, GF_ENOENT, false)) r) by done. cbv beta iota.
  pose proof (doLocal_evicts k (m_caching (m_regionAttributes r)) r m Hm (Hdelta k)) as El.
  set (run := if m_caching (m_regionAttributes r) then _ else _) in *. unfold mbind at 1, ST_bind at 1.
  destruct (run m) as [[[err old] m']|e]; [|by rewrite (st_bind_throw _ _ _ _ El)].
  destruct El as (r' & El & _ & _ & _ & _ & Hls & _ & Hc & He). rewrite (st_bind_ok _ _ _ _ _ El). unfold after_evict.
  destruct (decide (err = GF_CACHE_CONCURRENT_MODIFICATION_EXCEPTION)); [by exists r'|].
  destruct (_ || _); [|by exists r'].
  change (CacheEventFlags.isNoCallbacks evicting) with false. cbn [s_afterEventType].
  destruct (tell_destroyed k old r') as (r2 & old2 & Et & He2). rewrite (st_bind_ok _ _ _ _ _ Et).
  exists r2. split; [|by rewrite He2, He]. unfold evict_view. simpl. simpl in Hls, Hc. by rewrite Hls, Hc.
Qed.
End Evict.
