(* ===== verification/RegionClaims.v ===== *)
(** The theorems about regions: refinement of the specification, what a failed update leaves,
    regions without a cache, bulk reads and expiration. *)
From S2P Require Import Prelude Versions VersionFacts ExpiryTaskManager MapEntry MapSegment SegmentFacts SegmentRefinement SegmentClaims ConcurrentEntriesMap EntriesMapFacts ExceptionTypes EntriesMap EntriesMapLaws LocalRegion RegionSpec RegionFacts.
Import LocalRegion.

Section Claims.
Context {M K V D A E : Type} `{VM : VersionedMap M K V D}.
Abbreviation R := (LocalRegion.t M K V A).
Abbreviation value := (option (Cacheable V)).
Context (virt : Virtuals M K V A E) (app : Callbacks K V A) (valueEq : V -> V -> bool).
Context (cfg : Config).
Context (srv : Request K V A -> option VersionTag.t -> AState K V A ->
  GfErrType * option VersionTag.t * AState K V A).
Context (srv_get : K -> option A -> AState K V A -> GfErrType * value * option VersionTag.t * AState K V A).
Implicit Types (r : LocalRegion.t M K V A) (s : AState K V A) (k : K) (a : TAction).
Abbreviation rel := (region_rel cfg).



(** *** Failed updates *)

(** The value that a reader of the map sees. *)
Definition readable (x : option (value * VersionStamp.t)) : value := hide_token (live_value x).




(** *** Regions without a cache *)

(** A region in use that keeps no entries and has no callbacks. *)
Record proxy r : Prop := {
  px_caching : m_caching (m_regionAttributes r) = false;
  px_alive : m_destroyPending r = false;
  px_tx : txState r = None;
  px_writer : m_writer r = false;
  px_listener : m_listener r = false;
  px_loader : m_loader r = false
}.

Lemma untracked_remove k r : remove_tracking k (-1) r = Ok (tt, r).
Proof. done. Qed.

Lemma proxy_local a k (v : value) flags tag resp rem r :
  proxy r -> localUpdate virt valueEq a resp k v None false flags (-1) tag None None rem r = Ok ((GF_NOERR, None, v), r).
Proof.
  intros Hp. destruct a; try done. cbn [localUpdate].
  unfold invalidateLocal, check_destroy_pending_nothrow, getCachingEnabled, attr, mbind, ST_bind, st_get, st_gets.
  rewrite (px_alive r Hp), (px_caching r Hp). by destruct (_ || _).
Qed.

(** A region without a cache and without callbacks is a proxy: every update that is neither
    local nor a notification, whatever the action, is the operation of the servers, with its
    error and its effect and nothing else; and a read is the read of the servers, with tokens
    turned into null. *)
Theorem proxy_passes_through a k v arg flags tag r :
  proxy r -> goes_remote flags = true -> checkArgs (D := D) a (Some k) v None = GF_NOERR ->
  (forall x r', remoteUpdate virt valueEq a GF_ENOENT k v arg tag r = Ok (x, r') -> proxy r') ->
  (forall r0 x r', proxy r0 -> getNoThrow_remote virt k None arg r0 = Ok (x, r') -> proxy r') ->
  updateNoThrow virt app valueEq a (Some k) v arg None (-1) flags tag None None r
  = match remoteUpdate virt valueEq a GF_ENOENT k v arg tag r with
    | Ok ((err, _, _), r') => Ok ((err, None, v), r')
    | Throw e => Throw e
    end /\
  getNoThrow virt app (Some k) None arg r
  = match (updateAccessAndModifiedTime false;; remote (RGet k arg) (getNoThrow_remote virt k None arg)) r with
    | Ok ((err, v, _), r') => Ok ((err, hide_token v), r')
    | Throw e => Throw e
    end.
Proof.
  intros Hp Hg Hargs Hu Hrd. pose proof Hg as Hg'. apply andb_true_iff in Hg' as [_ Hn]. split.
  - unfold updateNoThrow. rewrite Hargs, bool_decide_eq_true_2 by done. cbn [negb].
    unfold check_destroy_pending_nothrow, getCachingEnabled, attr, mbind, ST_bind, st_get, st_gets. cbn [non_null].
    unfold mret, ST_ret. rewrite (px_alive r Hp), (px_tx r Hp), (px_caching r Hp).
    unfold askWriter, mbind, ST_bind, st_get. rewrite (px_writer r Hp). cbn [andb]. unfold mret, ST_ret. cbn [negb].
    unfold doRemote. fold (goes_remote flags). rewrite Hg. unfold getConcurrencyChecksEnabled, attr, mbind, ST_bind, st_gets.
    cbn [andb]. unfold mret, ST_ret.
    destruct (remoteUpdate virt valueEq a GF_ENOENT k v arg tag r) as [[[[err tag'] resp] r']|] eqn:Er; [|done].
    specialize (Hu _ _ eq_refl). destruct (decide (err = GF_NOERR)) as [->|Hne].
    + rewrite bool_decide_eq_true_2 by done. cbn [negb]. unfold doLocal. rewrite Hn. cbn [orb].
      unfold mbind, ST_bind. rewrite proxy_local by done. cbv beta iota. rewrite 3!decide_False by done.
      rewrite bool_decide_eq_true_2 by done. cbn [negb]. unfold mret, ST_ret.
      destruct (CacheEventFlags.isNoCallbacks flags); [done|].
      unfold mbind, ST_bind, invokeCacheListenerForEntryEvent, mbind, ST_bind, st_get. by rewrite (px_listener r' Hu).
    + by rewrite bool_decide_eq_false_2.
  - unfold getNoThrow, check_destroy_pending_nothrow, getCachingEnabled, getConcurrencyChecksEnabled, attr, mbind,
      ST_bind, st_get, st_gets. rewrite (px_alive r Hp), (px_tx r Hp), (px_caching r Hp). cbn [andb]. unfold mret, ST_ret.
    rewrite at_exit_untracked. unfold remote, call, mbind, ST_bind, st_get.
    destruct (keeps_touch (K := K) (V := V) (A := A) false r) as (r1 & -> & Hv).
    assert (Hp1 : proxy (with_calls (Remote (RGet k arg) :: calls r1) r1)).
    { destruct Hv as (H1 & H2 & H3 & H4 & H5 & H6 & _), Hp. by constructor; simpl; rewrite ?H1, ?H2, ?H3, ?H4, ?H5, ?H6. }
    destruct (getNoThrow_remote virt k None arg _) as [[[[err v'] tag'] r']|] eqn:Er; [|done].
    specialize (Hrd _ _ _ Hp1 Er). rewrite (px_loader r' Hrd), andb_false_r.
    unfold getNoThrow_store, getNoThrow_listen. rewrite andb_false_r. cbn [andb].
    destruct (bool_decide (err = GF_NOERR)) eqn:Ee; cbn [negb andb]; [|done].
    destruct (negb (is_null (hide_token v'))); [|done].
    apply bool_decide_eq_true in Ee as ->.
    unfold mbind, ST_bind, invokeCacheListenerForEntryEvent, mbind, ST_bind, st_get. by rewrite (px_listener r' Hrd).
Qed.

(** *** Bulk reads *)

(** Whether a read of [k] finds a valid value. *)
Definition hit s k : bool := negb (no_value (live_value (a_map s !! k))).

(** The values found so far, with that of [k]; the first one of a key is kept. *)
Definition add_hit s (vs : list (K * value)) k : list (K * value) :=
  if hit s k && negb (existsb (fun kv => bool_decide (kv.1 = k)) vs) then vs ++ [(k, live_value (a_map s !! k))] else vs.

Lemma live_not_tombstone (x : option (value * VersionStamp.t)) : isTombstone (live_value x) = false.
Proof. destruct x as [[[[]|] w]|]; done. Qed.

Lemma getAll_local_spec ks acc vs sks r s : rel r s -> region_fits r ->
  exists r', getAll_local ks true acc vs sks r
    = Ok ((acc || existsb (hit s) ks, foldl (add_hit s) vs ks, sks ++ List.filter (fun k => negb (hit s k)) ks), r') /\
    rel r' s /\ region_fits r'.
Proof.
  revert acc vs sks r. induction ks as [|k ks IH]; intros acc vs sks r Hr Hf.
  - exists r. cbn. rewrite orb_false_r, app_nil_r. done.
  - cbn [getAll_local]. unfold mbind, ST_bind. destruct (get_step cfg k r s Hr Hf) as (me & r1 & -> & Hr1 & Hf1).
    assert (Eh : negb (bool_decide (live_value (a_map s !! k) = None)) && negb (is_null (live_value (a_map s !! k)))
                 && negb (isInvalid (live_value (a_map s !! k))) = hit s k).
    { unfold hit, no_value. rewrite live_not_tombstone, orb_false_r. by destruct (live_value _) as [[]|]. }
    rewrite Eh. cbn [foldl existsb List.filter]. unfold add_hit at 2. destruct (hit s k); cbn [negb orb andb].
    + destruct (keeps_touch_entry me false r1) as (r2 & -> & Hv).
      destruct (IH true (if existsb (fun kv => bool_decide (kv.1 = k)) vs then vs
                         else vs ++ [(k, live_value (a_map s !! k))]) sks r2
        (same_view_rel _ _ _ _ Hv Hr1) (same_view_fits _ _ Hv Hf1)) as (r' & -> & Hr' & Hf').
      exists r'. split; [|done]. rewrite orb_true_r. cbn [orb]. by destruct (existsb _ vs).
    + destruct (IH acc vs (sks ++ [k]) r1 Hr1 Hf1) as (r' & -> & Hr' & Hf').
      exists r'. split; [|done]. by rewrite <- app_assoc.
Qed.

(** [getAll] answers from the map for the keys that have a valid value there, and asks
    the servers once, for exactly the other keys, in the order given; if there are none the
    servers are not asked at all. *)
Theorem getAll_asks_missing ks addToLocalCache arg r s :
  rel r s -> region_fits r ->
  exists r1, rel r1 s /\ region_fits r1 /\
    getAllNoThrow virt ks [] addToLocalCache arg r
    = match List.filter (fun k => negb (hit s k)) ks with
      | [] => Ok ((GF_NOERR, foldl (add_hit s) [] ks), r1)
      | missing =>
        remote (RGetAll missing arg)
          (getAllNoThrow_remote virt missing (foldl (add_hit s) [] ks) addToLocalCache arg) r1
      end.
Proof.
  intros Hr Hf. unfold getAllNoThrow, check_destroy_pending_nothrow, getCachingEnabled, attr, mbind, ST_bind, st_get, st_gets.
  rewrite (rr_alive _ r s Hr), (rr_tx _ r s Hr), (rr_caching _ r s Hr).
  destruct (getAll_local_spec ks false [] [] r s Hr Hf) as (r1 & -> & Hr1 & Hf1). cbn [Datatypes.app orb].
  destruct (existsb (hit s) ks).
  - destruct (keeps_touch false r1) as (r2 & -> & Hv). exists r2.
    split; [by eapply same_view_rel|]. split; [by eapply same_view_fits|]. by destruct (List.filter _ ks).
  - exists r1. split; [done|]. split; [done|]. by destruct (List.filter _ ks).
Qed.

(** *** Expiration *)

(** The flags of a local expiration. *)
Abbreviation expire_locally := (Z.lor CacheEventFlags.EXPIRATION CacheEventFlags.LOCAL).

Lemma spec_expire a k s : a = DestroyActions \/ a = InvalidateActions ->
  exists err s', spec_update app cfg srv a k None None expire_locally None s = Ok (err, s') /\
    readable (a_map s' !! k) = None.
Proof.
  intros Ha. unfold spec_update, spec_writer, spec_remote, spec_local.
  replace (has_writer cfg && _) with false by (by rewrite andb_false_r).
  change (goes_remote expire_locally) with false. change (CacheEventFlags.isNotification expire_locally) with false.
  cbn [negb andb]. rewrite bool_decide_eq_true_2 by done. cbn [negb]. unfold mbind, outcome_bind.
  assert (Hl : forall old s1, exists err s', Ok (spec_listener app cfg a k None None expire_locally old s1) = Ok (err, s')
    /\ a_map s' = a_map s1).
  { intros old s1. destruct (spec_listener _ _ _ _ _ _ _ _ _) as [err s'] eqn:El. exists err, s'. split; [done|].
    unfold spec_listener in El. by repeat (case_match; simplify_eq). }
  assert (Hop : exists rr m', spec_op (a_members s) (act_op a k None None false) (a_map s) = Ok (rr, m') /\
    readable (m' !! k) = None).
  { destruct Ha as [-> | ->]; cbn [act_op spec_op]; unfold mbind, outcome_bind, next_stamp;
      destruct (a_map s !! k) as [[x w]|] eqn:Ek; rewrite ?decide_True by done;
      try (destruct (isTombstone x) eqn:Et); (do 2 eexists; split; [done|]);
      rewrite ?lookup_insert_eq, ?Ek; try done; by destruct x as [[]|]. }
  destruct Hop as (rr & m' & -> & Hm). destruct (after_local _ _ _ _ _) as [e|old]; [by do 2 eexists|].
  destruct (Hl old (a_set m' s)) as (err & s' & -> & He). exists err, s'. by rewrite He.
Qed.

(** The entry at [p] is an entry of [k]. *)
Definition keyed (p : EntryPtr) k r s : Prop :=
  forall m, m_entries r = Some m ->
    exists m1, em_getKeyI p m = Ok (Some k, m1) /\ vm_rel m1 (a_map s) /\ vm_fits m1 /\ vm_members m1 = a_members s.

Lemma on_expire_late task k r s :
  serves virt cfg srv -> rel r s -> keyed (et_entry task) k r s ->
  et_action task = LOCAL_DESTROY \/ et_action task = LOCAL_INVALIDATE -> expire_at task r <= clock r ->
  exists r' s', on_expire virt app valueEq task r = Ok ((true, expire_at task r), r') /\ rel r' s' /\
    readable (a_map s' !! k) = None.
Proof.
  intros Hs Hr Hk Ha Hc. unfold on_expire, mbind, ST_bind, st_get.
  destruct (Z.ltb_spec (clock r) (expire_at task r)); [lia|].
  destruct (rr_entries _ r s Hr) as (m & Hm & Hrel & Hml). destruct (Hk m Hm) as (m1 & Hg & Hrel1 & Hf1 & Hml1).
  unfold entry_key, mbind, ST_bind, st_get. rewrite Hm, (on_entries_eq _ _ _ Hm), Hg.
  assert (Hr1 : rel (with_entries (Some m1) r) s) by (by apply rel_entries).
  assert (Hf1' : region_fits (with_entries (Some m1) r)) by (by intros ? [= <-]).
  assert (Hup : forall a, a = DestroyActions \/ a = InvalidateActions -> exists err old s' r',
    updateNoThrow virt app valueEq a (Some k) None None None (-1) expire_locally None None None (with_entries (Some m1) r)
    = Ok ((err, old, None), r') /\ rel r' s' /\ readable (a_map s' !! k) = None).
  { intros a Haa. destruct (spec_expire a k s Haa) as (err & s' & Hsp & Hrd).
    pose proof (refine_update virt app valueEq cfg srv a k None None (-1) expire_locally None _ s Hs
      ltac:(by destruct Haa as [-> | ->]) ltac:(by destruct Haa as [-> | ->]) ltac:(done) Hr1 Hf1') as Href.
    rewrite Hsp in Href. destruct Href as (old & r' & Hu & Hr'). by exists err, old, s', r'. }
  destruct Ha as [-> | ->].
  - destruct (Hup DestroyActions) as (err & old & s' & r' & Hu & Hr' & Hrd); [by left|].
    exists r', s'. split; [|done]. unfold destroyNoThrow, fmap, ST_fmap. by rewrite Hu.
  - destruct (Hup InvalidateActions) as (err & old & s' & r' & Hu & Hr' & Hrd); [by right|].
    exists r', s'. split; [|done]. unfold invalidateNoThrow, fmap, ST_fmap. by rewrite Hu.
Qed.

Definition at_time (c : Z) : ST R unit := st_modify (with_clock c).

Definition task_of r (id : Z) : option EntryExpiryTask := ExpiryTaskManager.task_map_ (expiryTaskManager r) !! id.

(** The timer of the task fires and the entry is due. *)
Lemma on_callback_late id task k r s :
  serves virt cfg srv -> rel r s -> keyed (et_entry task) k r s -> task_of r id = Some task ->
  et_action task = LOCAL_DESTROY \/ et_action task = LOCAL_INVALIDATE -> expire_at task r <= clock r ->
  exists r' s', on_callback virt app valueEq id r = Ok (tt, r') /\ rel r' s' /\
    readable (a_map s' !! k) = None /\ task_of r' id = None.
Proof.
  intros Hs Hr Hk Ht Ha Hc. unfold on_callback, mbind, ST_bind, st_get. unfold task_of in Ht. rewrite Ht.
  destruct (on_expire_late task k r s Hs Hr Hk Ha Hc) as (r' & s' & -> & Hr' & Hrd).
  eexists _, s'. split; [done|]. split; [by eapply same_view_rel; [|done]|]. split; [done|].
  unfold task_of. simpl. apply lookup_delete_eq.
Qed.

(** C37. An entry that expires locally and is not touched any more is gone after at most two
    firings of its timer: the first one finds that it was touched since the timer was set and
    sets the timer to the exact time at which it is due, or it is due already; the second one
    removes (or invalidates) it, and the task is gone. *)
Theorem entry_expires id task k t r s :
  serves virt cfg srv -> rel r s -> keyed (et_entry task) k r s -> task_of r id = Some task ->
  et_action task = LOCAL_DESTROY \/ et_action task = LOCAL_INVALIDATE ->
  (t < expire_at task r ->
    exists r', (at_time t;; on_callback virt app valueEq id) r = Ok (tt, r') /\ rel r' s /\
      et_at <$> task_of r' id = Some (expire_at task r)) /\
  exists r' s',
    (at_time t;; on_callback virt app valueEq id;;
     at_time (Z.max t (expire_at task r));; on_callback virt app valueEq id) r = Ok (tt, r') /\
    rel r' s' /\ readable (a_map s' !! k) = None /\ task_of r' id = None.
Proof.
  intros Hs Hr Hk Ht Ha. unfold at_time, mbind, ST_bind, st_modify.
  pose (tp := expire_at task r). pose (r1 := with_clock t r).
  pose (task2 := mkEntryTask (et_entry task) (et_action task) (et_duration task) tp).
  pose (m := expiryTaskManager r).
  pose (r2 := with_exp (expProperties r) (ExpiryTaskManager.mk (ExpiryTaskManager.running_ m)
    (alter (fun t => mkEntryTask (et_entry t) (et_action t) (et_duration t) tp) id (ExpiryTaskManager.task_map_ m))
    (ExpiryTaskManager.last_task_id_ m)) r1).
  assert (Hr1 : rel r1 s) by (by eapply same_view_rel; [|done]).
  assert (Hearly : t < tp -> on_callback virt app valueEq id r1 = Ok (tt, r2)).
  { intros Hlt. unfold on_callback, on_expire, mbind, ST_bind, st_get. unfold task_of in Ht.
    change (expiryTaskManager r1) with (expiryTaskManager r). rewrite Ht.
    change (expire_at task r1) with tp. change (clock r1) with t. by destruct (Z.ltb_spec t tp); [|lia]. }
  assert (Ht2 : task_of r2 id = Some task2).
  { unfold task_of, r2, m in Ht |- *. cbn [expiryTaskManager with_exp ExpiryTaskManager.task_map_].
    rewrite lookup_alter_eq. rewrite Ht. done. }
  assert (Hr2 : rel r2 s) by (by eapply same_view_rel; [|done]).
  split; [intros Hlt; exists r2; rewrite Ht2; split; [by apply Hearly|done]|].
  change (expire_at task r) with tp. fold r1. destruct (Z.ltb_spec t tp) as [Hlt|Hge].
  - rewrite (Hearly Hlt). rewrite Z.max_r by lia.
    apply (on_callback_late id task2 k (with_clock tp r2) s); [done| |done|done|done|by apply Z.le_refl].
    by eapply same_view_rel; [|done].
  - destruct (on_callback_late id task k r1 s Hs Hr1 Hk Ht Ha Hge) as (r' & s' & -> & Hr' & Hrd & Hn).
    exists (with_clock (Z.max t tp) r'), s'. unfold on_callback, mbind, ST_bind, st_get. unfold task_of in Hn |- *. simpl.
    rewrite Hn. split; [done|]. split; [|done]. by eapply same_view_rel; [|done].
Qed.

End Claims.

(** ** Concrete regions over the concurrent entries map: the theorems at work, and runs in which a
    region does not do what its callers expect. *)
Module RegionExamples.
Import SegmentExamples.
Import LocalRegion.

Abbreviation ZMap := (ConcurrentEntriesMap.t Z Z).
Abbreviation ZRegion := (LocalRegion.t ZMap Z Z Z).

#[local] Instance zmap : EntriesMap ZMap Z Z Z := concurrent_map id nodisk true alwaysDelta id addDelta.
#[local] Instance zversioned : VersionedMap ZMap Z Z Z := versioned_map id nodisk true alwaysDelta id addDelta.

(** Callbacks that agree to everything and have nothing to load. *)
Definition calm : Callbacks Z Z Z := mkCallbacks (fun _ => Some true) (fun _ => true) (fun _ => Some None).

Definition attributes (caching : bool) (ttl : Z) (action : ExpirationAction) : RegionAttributes :=
  mkAttributes caching true ttl action 0 INVALID_ACTION 0 INVALID_ACTION 0 INVALID_ACTION.

(** A region with a listener, and possibly a writer. *)
Definition region0 (writer : bool) (ttl : Z) (action : ExpirationAction) : ZRegion :=
  LocalRegion.mk (attributes true ttl action) false false true writer false (Some map0) false ∅ (mkStats 0 0) []
    None 100 (ExpiryTaskManager.mk true ∅ 0) [].

Definition proxy0 : ZRegion :=
  LocalRegion.mk (attributes false 0 INVALID_ACTION) false false false false false None false ∅ (mkStats 0 0) []
    None 100 (ExpiryTaskManager.mk true ∅ 0) [].

Definition local_ : Virtuals ZMap Z Z Z Z := local_virtuals.

(** The servers that [local_virtuals] stand for. *)
Definition nobody (q : Request Z Z Z) (tag : option VersionTag.t) (s : AState Z Z Z)
    : GfErrType * option VersionTag.t * AState Z Z Z := (GF_NOERR, tag, s).

Definition config (writer : bool) : Config := mkConfig writer true false true.
Definition empty_state : AState Z Z Z := mkA ∅ [] sample_members.

Lemma local_serves cfg : marker cfg = true -> serves local_ cfg nobody.
Proof. intros Hm. constructor; try (intros; intros tag r s Hr Hf; by exists r). by rewrite Hm. Qed.


Lemma region0_rel writer ttl action : region_rel (config writer) (region0 writer ttl action) empty_state.
Proof.
  destruct map0_inv as (Hi & Ha & _). constructor; try done. exists map0. split; [done|]. split; [by split|]. done.
Qed.

Lemma region0_fits writer ttl action : region_fits (region0 writer ttl action).
Proof. intros m [= <-]. apply map0_inv. Qed.

Abbreviation zput := (updateNoThrow local_ calm Z.eqb PutActions).






Lemma proxy0_ok l : proxy (with_calls l proxy0).
Proof. by constructor. Qed.

Lemma proxy_passes_through_witness :
  updateNoThrow (D := Z) local_ calm Z.eqb PutActions (Some 7) v1 None None (-1) CacheEventFlags.NORMAL None None None proxy0
  = Ok ((GF_NOERR, None, v1), with_calls [Remote (RPut 7 v1 None)] proxy0) /\
  getNoThrow (D := Z) local_ calm (Some 7) None None proxy0
  = Ok ((GF_NOERR, None), with_calls [Remote (RGet 7 None)] proxy0).
Proof.
  apply (proxy_passes_through local_ calm Z.eqb PutActions 7 v1 None CacheEventFlags.NORMAL None proxy0
    (proxy0_ok []) eq_refl eq_refl).
  - intros x r' [= _ <-]. exact (proxy0_ok [Remote (RPut 7 v1 None)]).
  - intros r0 x r' Hp [= _ <-]. exact Hp.
Defined.

(** A region with the entry 7, of version 9 by member 1. *)
Definition region1 (ttl : Z) (action : ExpirationAction) : ZRegion :=
  match zput (Some 7) v1 None None (-1) CacheEventFlags.NOTIFICATION (Some (sample_tag 9 1 1)) None None
          (region0 false ttl action) with
  | Ok (_, r) => r
  | Throw _ => region0 false ttl action
  end.

Definition state1 : AState Z Z Z :=
  mkA {[7 := (v1, VersionStamp.setVersions (sample_tag 9 1 1))]} [AfterCreate (mkEvent 7 None v1 None true)]
      sample_members.

Lemma region1_rel ttl action : region_rel (config false) (region1 ttl action) state1.
Proof.
  pose proof (refine_update local_ calm Z.eqb (config false) nobody PutActions 7 v1 None (-1)
    CacheEventFlags.NOTIFICATION (Some (sample_tag 9 1 1)) (region0 false ttl action) empty_state
    (local_serves (config false) eq_refl) eq_refl eq_refl ltac:(done) (region0_rel false ttl action) (region0_fits false ttl action))
    as (old & r' & Hu & Hr').
  unfold region1. by rewrite Hu.
Qed.

(** Whether the segments of a region are as small as the theorems ask for. *)
Definition small_region (r : ZRegion) : bool :=
  match m_entries r with
  | Some m => forallb (fun sg => Z.of_nat (base.size (m_map sg)) <=? 2 ^ 32) (ConcurrentEntriesMap.m_segments m)
  | None => true
  end.

Lemma small_fits r : small_region r = true -> region_fits r.
Proof.
  unfold small_region. intros Hs m Hm. rewrite Hm, forallb_forall in Hs. intros i sg Hi.
  apply Z.leb_le, Hs, list_elem_of_In. by eapply list_elem_of_lookup_2.
Qed.

Lemma region1_small : region_fits (region1 0 DESTROY).
Proof. apply small_fits. vm_compute. reflexivity. Qed.

Lemma getAll_asks_missing_witness :
  exists r1, region_rel (config false) r1 state1 /\ region_fits r1 /\
    getAllNoThrow local_ [7; 8; 7] [] true None (region1 0 DESTROY)
    = remote (RGetAll [8] None) (getAllNoThrow_remote local_ [8] [(7, v1)] true None) r1.
Proof.
  exact (getAll_asks_missing local_ (config false) [7; 8; 7] true None (region1 0 DESTROY) state1
    (region1_rel 0 DESTROY) region1_small).
Defined.

(** The region with entry 7, which is invalidated 10 units after it was last changed. *)
Definition region2 : ZRegion := region1 10 LOCAL_INVALIDATE.

Definition task2 : EntryExpiryTask :=
  match task_of region2 0 with Some t => t | None => mkEntryTask (0%nat, 0%nat) INVALID_ACTION 0 0 end.

Lemma task2_eq : task_of region2 0 = Some task2.
Proof. vm_compute. reflexivity. Qed.

Lemma region2_segment : exists m sg, m_entries region2 = Some m /\
  ConcurrentEntriesMap.m_segments m !! (et_entry task2).1 = Some sg /\
  getKeyI (et_entry task2).2 (with_env (ConcurrentEntriesMap.shared m) sg)
  = Ok (Some 7, with_env (ConcurrentEntriesMap.shared m) sg).
Proof. do 2 eexists. split; [vm_compute; reflexivity|]. split; [vm_compute; reflexivity|]. vm_compute. reflexivity. Qed.

Lemma region2_small : region_fits region2.
Proof. apply small_fits. vm_compute. reflexivity. Qed.

(** The key of the entry of the task. *)
Lemma task2_keyed : keyed (et_entry task2) 7 region2 state1.
Proof.
  intros m Hm. destruct (rr_entries _ _ _ (region1_rel 10 LOCAL_INVALIDATE)) as (m' & Hm' & Hrel & Hml).
  fold region2 in Hm'. rewrite Hm in Hm'. injection Hm' as <-.
  destruct region2_segment as (m' & sg & Hm' & Hsg & Hk). rewrite Hm in Hm'. injection Hm' as <-.
  rewrite <- Hml. exact (cm_getKeyI id nodisk true alwaysDelta id addDelta _ _ _ _ _ Hrel (region2_small m Hm) Hsg Hk).
Qed.

(** The time at which the entry was put, plus ten seconds. *)
Definition due : Z := 10000000100.

Lemma entry_expires_witness :
  exists r' s', (at_time due;; on_callback local_ calm Z.eqb 0;; at_time due;; on_callback local_ calm Z.eqb 0) region2
    = Ok (tt, r') /\ region_rel (config false) r' s' /\ readable (a_map s' !! 7) = None /\ task_of r' 0 = None.
Proof.
  apply (entry_expires local_ calm Z.eqb (config false) nobody 0 task2 7 due region2 state1
    (local_serves (config false) eq_refl) (region1_rel 10 LOCAL_INVALIDATE) task2_keyed task2_eq).
  right. reflexivity.
Defined.

(** *** Runs that surprise *)

Abbreviation zread k := (getNoThrow local_ calm (Some k) None None).
Abbreviation expire id := (on_callback local_ calm Z.eqb id).

(** An entry that was invalidated by expiration never expires again: its task is gone from
    the task table, but the entry still has the id of the task, so that the next put of the
    key takes the entry's task for scheduled and registers none. The value stays readable at
    any later time. *)
Theorem expired_entry_forgotten :
  exists r1 r2 old,
    (at_time due;; expire 0) region2 = Ok (tt, r1) /\
    zput (Some 7) v1 None None (-1) CacheEventFlags.LOCAL None None None r1 = Ok ((GF_NOERR, old, v1), r2) /\
    ExpiryTaskManager.task_map_ (expiryTaskManager r2) = ∅ /\
    forall t, exists r3, (at_time t;; zread 7) r2 = Ok ((GF_NOERR, v1), r3).
Proof.
  do 3 eexists. split; [vm_compute; reflexivity|]. split; [vm_compute; reflexivity|].
  split; [vm_compute; reflexivity|]. intros t. eexists. vm_compute. reflexivity.
Qed.

(** A notification for the entry 7 whose tag is older than its version. *)
Abbreviation notify a := (updateNoThrow local_ calm Z.eqb a (Some 7) None None None (-1) CacheEventFlags.NOTIFICATION
  (Some (sample_tag 3 1 1)) None None).

(** A notification that an entry was destroyed or invalidated, with a version older than the
    one of the map, leaves the entry as it was, but the listener is told all the same that
    the entry was destroyed or invalidated. *)
Theorem stale_notifications_heard a : a = DestroyActions \/ a = InvalidateActions ->
  exists r1 r2 old ev,
    notify a (region1 0 DESTROY) = Ok ((GF_NOERR, old, None), r1) /\
    calls r1 = ev :: calls (region1 0 DESTROY) /\
    match a with DestroyActions => exists e, ev = AfterDestroy e | _ => exists e, ev = AfterInvalidate e end /\
    zread 7 r1 = Ok ((GF_NOERR, v1), r2).
Proof.
  intros [-> | ->]; do 4 eexists; (split; [vm_compute; reflexivity|]); (split; [vm_compute; reflexivity|]);
    (split; [by eexists|vm_compute; reflexivity]).
Qed.

Lemma stale_notifications_heard_witness :
  exists r1 r2 old ev,
    notify DestroyActions (region1 0 DESTROY) = Ok ((GF_NOERR, old, None), r1) /\
    calls r1 = ev :: calls (region1 0 DESTROY) /\ (exists e, ev = AfterDestroy e) /\
    zread 7 r1 = Ok ((GF_NOERR, v1), r2).
Proof. exact (stale_notifications_heard DestroyActions (or_introl eq_refl)). Defined.
End RegionExamples.
