(* ===== verification/RegionTree.v ===== *)
(** The regions of a cache (src/cppcache/src/LocalRegion.cpp, CacheImpl.cpp,
    RegionExpiryTask.cpp): their names and paths, subregions, the invalidation, the expiration
    and the destruction of regions, and the closing of the cache.

    Regions are shared objects: the application keeps references to regions that are not in
    the cache any more, and so do timers. They are kept in a store and referred to by their
    index in it. Names and paths are strings of bytes. *)
From S2P Require Import Prelude Versions ExceptionTypes ExpiryTaskManager MapEntry EntriesMap LocalRegion.
Import LocalRegion.

Abbreviation bytes := (list Z).
Definition slash : Z := 47.

(** [std::string::find('/')]. *)
Fixpoint find_slash (s : bytes) : option nat :=
  match s with
  | [] => None
  | c :: s' => if c =? slash then Some 0%nat else Nat.succ <$> find_slash s'
  end.

(** The path without a leading separator, and its first step ([substr(0, idx)]). *)
Definition strip (path : bytes) : bytes :=
  match path with c :: p => if c =? slash then p else path | [] => [] end.
Definition stepname (fullname : bytes) : bytes :=
  match find_slash fullname with None => fullname | Some idx => firstn idx fullname end.

(** A [RegionExpiryTask], with the time at which its timer fires. *)
Record RegionExpiryTask := mkRegionTask {
  rt_region : nat;
  rt_action : ExpirationAction;
  rt_duration : Z;
  rt_at : Z
}.

Module CacheImpl.

(** A region: what [LocalRegion.t] keeps of it, its names and its place in the tree. The order of
    [m_subRegions] is that of its iteration. *)
Record Node (M K V A : Type) := mkNode {
  m_name : bytes;
  m_fullPath : bytes;
  m_parentRegion : option nat;
  m_subRegions : list (bytes * nat);
  expiry_task_id_ : Z;
  n_region : LocalRegion.t M K V A
}.
Arguments mkNode {M K V A} _ _ _ _ _ _.
Arguments m_name {M K V A} _.
Arguments m_fullPath {M K V A} _.
Arguments m_parentRegion {M K V A} _.
Arguments m_subRegions {M K V A} _.
Arguments expiry_task_id_ {M K V A} _.
Arguments n_region {M K V A} _.

Record t (M K V A : Type) := mk {
  nodes : list (Node M K V A);     (** all regions ever created *)
  m_regions : list (bytes * nat);  (** the root regions *)
  c_destroyPending : bool;
  m_closed : bool;
  statisticsEnabled : bool;        (** of the system properties *)
  timers : ExpiryTaskManager.t RegionExpiryTask;
  now : Z;
  c_txState : option bool;
  log : list (nat * Call K V A)    (** what the regions called, latest first *)
}.
Arguments mk {M K V A} _ _ _ _ _ _ _ _ _.
Arguments nodes {M K V A} _.
Arguments m_regions {M K V A} _.
Arguments c_destroyPending {M K V A} _.
Arguments m_closed {M K V A} _.
Arguments statisticsEnabled {M K V A} _.
Arguments timers {M K V A} _.
Arguments now {M K V A} _.
Arguments c_txState {M K V A} _.
Arguments log {M K V A} _.

Section Tree.
Context {M K V D A E : Type} `{HM : EntriesMap M K V D}.
Abbreviation R := (LocalRegion.t M K V A).
Abbreviation C := (t M K V A).
Context (virt : Virtuals M K V A E) (app : Callbacks K V A) (valueEq : V -> V -> bool).
(** [EntriesMapFactory::createMap]. *)
Context (createMap : RegionAttributes -> M).

(** *** The objects *)

Definition with_nodes (ns : list (Node M K V A)) (c : C) : C :=
  mk ns (m_regions c) (c_destroyPending c) (m_closed c) (statisticsEnabled c) (timers c) (now c) (c_txState c) (log c).
Definition with_roots (rs : list (bytes * nat)) (c : C) : C :=
  mk (nodes c) rs (c_destroyPending c) (m_closed c) (statisticsEnabled c) (timers c) (now c) (c_txState c) (log c).
Definition with_timers (ts : ExpiryTaskManager.t RegionExpiryTask) (c : C) : C :=
  mk (nodes c) (m_regions c) (c_destroyPending c) (m_closed c) (statisticsEnabled c) ts (now c) (c_txState c) (log c).
Definition with_closing (pending closed : bool) (c : C) : C :=
  mk (nodes c) (m_regions c) pending closed (statisticsEnabled c) (timers c) (now c) (c_txState c) (log c).

Definition set_region (r : R) (n : Node M K V A) : Node M K V A :=
  mkNode (m_name n) (m_fullPath n) (m_parentRegion n) (m_subRegions n) (expiry_task_id_ n) r.
Definition set_subs (subs : list (bytes * nat)) (n : Node M K V A) : Node M K V A :=
  mkNode (m_name n) (m_fullPath n) (m_parentRegion n) subs (expiry_task_id_ n) (n_region n).
Definition set_task (id : Z) (n : Node M K V A) : Node M K V A :=
  mkNode (m_name n) (m_fullPath n) (m_parentRegion n) (m_subRegions n) id (n_region n).

Definition node (i : nat) : ST C (Node M K V A) := fun c =>
  match nodes c !! i with Some n => Ok (n, c) | None => Throw UndefinedBehaviour end.
Definition on_node (i : nat) (f : Node M K V A -> Node M K V A) : ST C unit :=
  st_modify (fun c => with_nodes (alter f i (nodes c)) c).

(** The parent regions, nearest first. *)
Fixpoint parents (fuel : nat) (ns : list (Node M K V A)) (i : nat) : list nat :=
  match fuel with
  | O => []
  | S fuel =>
    match ns !! i with
    | Some n => match m_parentRegion n with Some p => p :: parents fuel ns p | None => [] end
    | None => []
    end
  end.
Definition all_parents (c : C) (i : nat) : list nat := parents (length (nodes c)) (nodes c) i.

(** A region as its own operations see it: the clock and the transaction of the thread, and
    the times of its parents. *)
Definition times_of (ns : list (Node M K V A)) (p : nat) : bool * CacheStatistics :=
  match ns !! p with
  | Some n => (getRegionExpiryEnabled (m_regionAttributes (n_region n)), m_cacheStatistics (n_region n))
  | None => (false, mkStats 0 0)
  end.
Definition load (c : C) (i : nat) (r : R) : R :=
  with_times (m_cacheStatistics r) (times_of (nodes c) <$> all_parents c i) (with_tx (c_txState c) (with_clock (now c) r)).

(** The times of the parents after an operation. *)
Definition store_times (ps : list nat) (up : list (bool * CacheStatistics)) (ns : list (Node M K V A))
    : list (Node M K V A) :=
  foldr (fun pu ns => alter (fun n => set_region (with_times (pu.2.2 : CacheStatistics) (ancestors (n_region n)) (n_region n)) n)
                            pu.1 ns) ns (zip ps up).

Definition store (i : nat) (r r' : R) (c : C) : C :=
  mk (alter (set_region r') i (store_times (all_parents c i) (ancestors r') (nodes c)))
     (m_regions c) (c_destroyPending c) (m_closed c) (statisticsEnabled c) (timers c) (clock r') (txState r')
     ((pair i <$> firstn (length (calls r') - length (calls r)) (calls r')) ++ log c).

(** An operation of the region [i]. *)
Definition on_region {X} (i : nat) (f : ST R X) : ST C X := fun c =>
  match nodes c !! i with
  | None => Throw UndefinedBehaviour
  | Some n =>
    match f (load c i (n_region n)) with
    | Ok (x, r') => Ok (x, store i (n_region n) r' c)
    | Throw e => Throw e
    end
  end.

(** *** Names and paths *)

(** [LocalRegion::findSubRegion], [CacheImpl::findRegion]. *)
Fixpoint find_name (name : bytes) (l : list (bytes * nat)) : option nat :=
  match l with
  | [] => None
  | (s, i) :: l' => if decide (s = name) then Some i else find_name name l'
  end.

(** [CHECK_DESTROY_PENDING] of region [i]. *)
Definition check_region {X} (i : nat) (body : ST C X) : ST C X :=
  n ← node i;
  if m_destroyPending (n_region n) then st_throw RegionDestroyedException else body.

(** [LocalRegion::getSubregion]; a remainder is shorter than its path. *)
Fixpoint getSubregion_loop (fuel : nat) (i : nat) (path : bytes) : ST C (option nat) :=
  match fuel with
  | O => st_throw Diverges
  | S fuel =>
    check_region i (
      if decide (path = [slash] \/ path = []) then st_throw IllegalArgumentException
      else
        let fullname := strip path in
        n ← node i;
        match find_name (stepname fullname) (m_subRegions n) with
        | None => mret None
        | Some j =>
          if decide (stepname fullname = fullname) then mret (Some j)
          else getSubregion_loop fuel j (drop (length (stepname fullname) + 1) fullname)
        end)
  end.
Definition getSubregion (i : nat) (path : bytes) : ST C (option nat) := getSubregion_loop (S (length path)) i path.

Definition throwIfClosed : ST C unit :=
  c ← st_get; if m_closed c then st_throw CacheClosedException else mret tt.

(** [CacheImpl::getRegion]. *)
Definition getRegion (path : bytes) : ST C (option nat) :=
  throwIfClosed;;
  c ← st_get;
  if c_destroyPending c then mret None
  else if decide (path = [slash] \/ path = []) then st_throw IllegalArgumentException
  else
    let fullname := strip path in
    match find_name (stepname fullname) (m_regions c) with
    | None => mret None
    | Some i =>
      if decide (stepname fullname = fullname) then mret (Some i)
      else getSubregion i (drop (length (stepname fullname) + 1) fullname)
    end.

(** [CacheImpl::rootRegions]. *)
Definition rootRegions : ST C (list nat) :=
  throwIfClosed;;
  c ← st_get;
  mret (List.filter (fun i => match nodes c !! i with
                              | Some n => negb (m_destroyPending (n_region n))
                              | None => false
                              end) (snd <$> m_regions c)).

(** [LocalRegion::subregions_internal]. *)
Fixpoint subregions_each (subs_of : nat -> ST C (list nat)) (recursive : bool) (l : list (bytes * nat))
    : ST C (list nat) :=
  match l with
  | [] => mret []
  | (_, j) :: l' =>
    below ← (if recursive then subs_of j else mret []);
    rest ← subregions_each subs_of recursive l';
    mret (j :: below ++ rest)
  end.
Fixpoint subregions_internal (fuel : nat) (recursive : bool) (i : nat) : ST C (list nat) :=
  match fuel with
  | O => st_throw Diverges
  | S fuel => n ← node i; subregions_each (subregions_internal fuel true) recursive (m_subRegions n)
  end.
Definition subregions (i : nat) (recursive : bool) : ST C (list nat) :=
  check_region i (
    n ← node i;
    c ← st_get;
    match m_subRegions n with [] => mret [] | _ => subregions_internal (length (nodes c)) recursive i end).

(** *** Creation *)

(** The constructor of [LocalRegion], for a region with the given callbacks. *)
Definition construct (attributes : RegionAttributes) (listener writer loader : bool) : R :=
  LocalRegion.mk attributes false false listener writer loader
    (if m_caching attributes then Some (createMap attributes) else None)
    false ∅ (mkStats 0 0) [] None 0 (ExpiryTaskManager.mk true ∅ 0) [].

(** [setRegionExpiryTask]. *)
Definition setRegionExpiryTask (i : nat) : ST C unit :=
  n ← node i;
  let a := m_regionAttributes (n_region n) in
  if negb (getRegionExpiryEnabled a) then mret tt
  else
    c ← st_get;
    let duration := ticks (getRegionExpiryDuration a) in
    let task := mkRegionTask i (getRegionExpiryAction a) duration (now c + duration) in
    let '(id, ts) := ExpiryTaskManager.schedule task (timers c) in
    st_modify (with_timers ts);;
    on_node i (set_task id).

(** The object of a new region, not yet in the tree. *)
Definition new_node (name : bytes) (parent : option nat) (attributes : RegionAttributes) (listener writer loader : bool)
    : ST C nat :=
  path ← match parent with Some p => n ← node p; mret (m_fullPath n) | None => mret [] end;
  c ← st_get;
  st_modify (with_nodes (nodes c ++ [mkNode name (path ++ slash :: name) parent [] ExpiryTaskManager.invalid
    (construct attributes listener writer loader)]));;
  mret (length (nodes c)).

(** [LocalRegion::createSubregion] and [CacheImpl::createRegion], for regions that do not
    overflow to disk and whose attributes [validateRegionAttributes] accepts. The connections of
    a region (its kind, its pool, the refresh of its metadata) are not part of the tree. *)
Definition createSubregion (i : nat) (name : bytes) (attributes : RegionAttributes) (listener writer loader : bool)
    : ST C nat :=
  check_region i (
    match find_slash name with
    | Some _ => st_throw IllegalArgumentException
    | None =>
      n ← node i;
      match find_name name (m_subRegions n) with
      | Some _ => st_throw RegionExistsException
      | None =>
        j ← new_node name (Some i) attributes listener writer loader;
        on_node i (fun n => set_subs (m_subRegions n ++ [(name, j)]) n);;
        setRegionExpiryTask j;;
        mret j
      end
    end).
Definition createRegion (name : bytes) (attributes : RegionAttributes) (listener writer loader : bool) : ST C nat :=
  throwIfClosed;;
  match find_slash name with
  | Some _ => st_throw IllegalArgumentException
  | None =>
    c ← st_get;
    match find_name name (m_regions c) with
    | Some _ => st_throw RegionExistsException
    | None =>
      j ← new_node name None attributes listener writer loader;
      st_modify (with_roots (m_regions c ++ [(name, j)]));;
      setRegionExpiryTask j;;
      mret j
    end
  end.

(** *** Invalidation *)

Fixpoint invalidate_each (invalidate : nat -> ST C GfErrType) (l : list (bytes * nat)) : ST C GfErrType :=
  match l with
  | [] => mret GF_NOERR
  | (_, j) :: l' =>
    err ← invalidate j;
    if negb (bool_decide (err = GF_NOERR)) then mret err else invalidate_each invalidate l'
  end.

Fixpoint invalidateRegionNoThrow (fuel : nat) (i : nat) (arg : option A) (eventFlags : Z) : ST C GfErrType :=
  match fuel with
  | O => st_throw Diverges
  | S fuel =>
    n ← node i;
    if m_destroyPending (n_region n) then mret GF_CACHE_REGION_DESTROYED_EXCEPTION
    else
      on_region i (invalidateEntries eventFlags);;
      err ← (if negb (CacheEventFlags.isLocal eventFlags)
             then on_region i (remote (RInvalidateRegion arg) (invalidateRegionNoThrow_remote virt arg))
             else mret GF_NOERR);
      if negb (bool_decide (err = GF_NOERR)) then mret err
      else
        err ← invalidate_each (fun j => invalidateRegionNoThrow fuel j arg eventFlags) (m_subRegions n);
        if negb (bool_decide (err = GF_NOERR)) then mret err
        else on_region i (invokeCacheListenerForRegionEvent app arg eventFlags AFTER_REGION_INVALIDATE)
  end.

(** *** Destruction *)

Definition set_pending (i : nat) (b : bool) : ST C unit :=
  on_node i (fun n => set_region (with_flags b (m_released (n_region n)) (n_region n)) n).

(** The subregions; [Some] is an error that ends the destruction. *)
Fixpoint destroy_each (destroy : nat -> ST C GfErrType) (close : bool) (l : list (bytes * nat))
    : ST C (option GfErrType) :=
  match l with
  | [] => mret None
  | (_, j) :: l' =>
    err ← destroy j;
    if negb (bool_decide (err = GF_NOERR)) && negb close then mret (Some err) else destroy_each destroy close l'
  end.

(** The writer and the servers are asked first, unless a notification or an expiration
    destroys the region. *)
Definition destroy_ask (i : nat) (arg : option A) (eventFlags : Z) : ST C (option GfErrType) :=
  if negb (CacheEventFlags.isNotification eventFlags) && negb (CacheEventFlags.isEvictOrExpire eventFlags) then
    go ← on_region i (invokeCacheWriterForRegionEvent app arg eventFlags BEFORE_REGION_DESTROY);
    if negb go && negb (CacheEventFlags.isCacheClose eventFlags) then mret (Some GF_CACHEWRITER_ERROR)
    else if negb (CacheEventFlags.isLocal eventFlags) then
      err ← on_region i (remote (RDestroyRegion arg) (destroyRegionNoThrow_remote virt arg));
      mret (if negb (bool_decide (err = GF_NOERR)) then Some err else None)
    else mret None
  else mret None.

(** An expiration asks the servers when the subregions are gone. *)
Definition destroy_late (i : nat) (arg : option A) (eventFlags : Z) : ST C (option GfErrType) :=
  if CacheEventFlags.isEvictOrExpire eventFlags && negb (CacheEventFlags.isLocal eventFlags) then
    err ← on_region i (remote (RDestroyRegion arg) (destroyRegionNoThrow_remote virt arg));
    mret (if negb (bool_decide (err = GF_NOERR)) then Some err else None)
  else mret None.

Definition erase_name (name : bytes) (l : list (bytes * nat)) : list (bytes * nat) :=
  List.filter (fun si => negb (bool_decide (si.1 = name))) l.

(** [CacheImpl::removeRegion], [LocalRegion::removeRegion]. *)
Definition removeRegion (name : bytes) : ST C unit :=
  st_modify (fun c => if c_destroyPending c then c else with_roots (erase_name name (m_regions c)) c).
Definition removeSubregion (p : nat) (name : bytes) : ST C unit :=
  on_node p (fun n => set_subs (erase_name name (m_subRegions n)) n).

(** The end of a region whose subregions are gone: the listener, the resources, the parent. *)
Definition destroy_finish (i : nat) (arg : option A) (removeFromParent : bool) (eventFlags : Z) : ST C GfErrType :=
  err ← on_region i (invokeCacheListenerForRegionEvent app arg eventFlags AFTER_REGION_DESTROY);
  on_region i (release app true);;
  on_region i (
    caching ← getCachingEnabled;
    if caching : bool then st_modify (with_entries None) else mret tt);;
  (if removeFromParent then
     n ← node i;
     match m_parentRegion n with
     | None => removeRegion (m_name n)
     | Some p =>
       removeSubregion p (m_name n);;
       if CacheEventFlags.isEvictOrExpire eventFlags then mret tt else on_region p (updateAccessAndModifiedTime true)
     end
   else mret tt);;
  mret err.

Fixpoint destroyRegionNoThrow (fuel : nat) (i : nat) (arg : option A) (removeFromParent : bool) (eventFlags : Z)
    : ST C GfErrType :=
  match fuel with
  | O => st_throw Diverges
  | S fuel =>
    (if eventFlags =? CacheEventFlags.LOCAL then on_region i (unregisterKeysBeforeDestroyRegion virt);; mret tt
     else mret tt);;
    n ← node i;
    if m_destroyPending (n_region n) then
      mret (if CacheEventFlags.isCacheClose eventFlags then GF_NOERR else GF_CACHE_REGION_DESTROYED_EXCEPTION)
    else
      let back_out err : ST C GfErrType := set_pending i false;; mret err in
      set_pending i true;;
      asked ← destroy_ask i arg eventFlags;
      match asked with
      | Some err => back_out err
      | None =>
        failed ← destroy_each
          (fun j => destroyRegionNoThrow fuel j arg false (Z.lor eventFlags CacheEventFlags.LOCAL))
          (CacheEventFlags.isCacheClose eventFlags) (m_subRegions n);
        match failed with
        | Some err => back_out err
        | None =>
          on_node i (set_subs []);;
          late ← destroy_late i arg eventFlags;
          match late with
          | Some err => back_out err
          | None => destroy_finish i arg removeFromParent eventFlags
          end
        end
      end
  end.

(** The regions are fewer than the objects. *)
Definition fuel_of (c : C) : nat := S (length (nodes c)).

(** The operations of the application. *)
Definition destroyRegion (i : nat) (arg : option A) : ST C unit :=
  c ← st_get;
  err ← destroyRegionNoThrow (fuel_of c) i arg true CacheEventFlags.NORMAL;
  throwExceptionIfError err.
Definition localDestroyRegion (i : nat) (arg : option A) : ST C unit :=
  c ← st_get;
  err ← destroyRegionNoThrow (fuel_of c) i arg true CacheEventFlags.LOCAL;
  throwExceptionIfError err.
Definition invalidateRegion (i : nat) (arg : option A) : ST C unit :=
  c ← st_get;
  err ← invalidateRegionNoThrow (fuel_of c) i arg CacheEventFlags.NORMAL;
  throwExceptionIfError err.
Definition localInvalidateRegion (i : nat) (arg : option A) : ST C unit :=
  c ← st_get;
  err ← invalidateRegionNoThrow (fuel_of c) i arg CacheEventFlags.LOCAL;
  throwExceptionIfError err.

(** The parts of the cache beside its regions that [close] ends: whether the constructor got to its end, and what each of
    them answers, an exception included. (A part that does not exist answers nothing.) *)
Record Services := mkServices {
  m_initialized : bool;
  sv_notify : outcome unit;        (** [sendNotificationCloseMsgs] *)
  sv_queryService : outcome unit;  (** [m_remoteQueryServicePtr->close] *)
  sv_adminRegion : outcome unit;   (** [m_adminRegion->close] *)
  sv_connections : outcome unit;   (** [m_tcrConnectionManager->close] *)
  sv_pools : outcome unit          (** [m_poolManager->close]: a pool that regions still use throws *)
}.

(** Of a computation that throws the changes are not known: the state stands for the last known one. *)
Definition ex_st {X} (f : ST C X) : EX C X := fun c =>
  match f c with Ok (x, c') => (Ok x, c') | Throw e => (Throw e, c) end.

(** [CacheImpl::close]. Statistics, the thread pool and the eviction thread are left out; what the distributed system
    throws is caught. *)
Definition close_flags : Z := Z.lor CacheEventFlags.LOCAL CacheEventFlags.CACHE_CLOSE.
Definition close (sv : Services) : EX C unit :=
  ex_st throwIfClosed;;
  ex_lift (sv_notify sv);;
  c ← ex_gets id;
  if c_destroyPending c then mret tt
  else
    ex_modify (with_closing true (m_closed c));;
    if m_closed c || negb (m_initialized sv) then mret tt
    else
      ex_lift (sv_queryService sv);;
      ex_lift (sv_adminRegion sv);;
      ex_lift (sv_connections sv);;
      ex_st (st_iter (fun si : bytes * nat => destroyRegionNoThrow (fuel_of c) si.2 None false close_flags;; mret tt) (m_regions c));;
      ex_lift (sv_pools sv);;
      ex_modify (with_roots []);;
      c ← ex_gets id;
      ts ← ex_lift (ExpiryTaskManager.stop (timers c));
      ex_modify (with_timers ts);;
      ex_modify (with_closing true true).

(** *** Expiration *)

(** [LocalRegion::getStatistics]. *)
Definition getStatistics (i : nat) : ST C CacheStatistics :=
  check_region i (
    c ← st_get;
    if negb (statisticsEnabled c) then st_throw StatisticsDisabledException
    else n ← node i; mret (m_cacheStatistics (n_region n))).

(** [RegionExpiryTask::expire_at], [RegionExpiryTask::on_expire]. *)
Definition region_expire_at (task : RegionExpiryTask) : ST C Z :=
  s ← getStatistics (rt_region task);
  n ← node (rt_region task);
  mret ((if 0 <? m_regionTimeToLive (m_regionAttributes (n_region n)) then m_lastModifiedTime s else m_lastAccessTime s)
        + rt_duration task).
Definition region_on_expire (task : RegionExpiryTask) : ST C (bool * Z) :=
  tp ← region_expire_at task;
  c ← st_get;
  if now c <? tp then mret (false, tp)
  else
    let i := rt_region task in
    (match rt_action task with
     | INVALIDATE => invalidateRegionNoThrow (fuel_of c) i None CacheEventFlags.EXPIRATION;; mret tt
     | LOCAL_INVALIDATE =>
       invalidateRegionNoThrow (fuel_of c) i None (Z.lor CacheEventFlags.EXPIRATION CacheEventFlags.LOCAL);; mret tt
     | DESTROY => destroyRegionNoThrow (fuel_of c) i None true CacheEventFlags.EXPIRATION;; mret tt
     | LOCAL_DESTROY =>
       destroyRegionNoThrow (fuel_of c) i None true (Z.lor CacheEventFlags.EXPIRATION CacheEventFlags.LOCAL);; mret tt
     | INVALID_ACTION => mret tt
     end);;
    mret (true, tp).

(** [ExpiryTask::on_callback] of the task [id]; an exception ends the thread of the timers. *)
Definition region_on_callback (id : Z) : ST C unit :=
  c ← st_get;
  match ExpiryTaskManager.task_map_ (timers c) !! id with
  | None => mret tt
  | Some task =>
    '(done, tp) ← region_on_expire task;
    st_modify (fun c =>
      let m := timers c in
      with_timers
        (if done : bool then ExpiryTaskManager.remove id m
         else ExpiryTaskManager.mk (ExpiryTaskManager.running_ m)
                (alter (fun t => mkRegionTask (rt_region t) (rt_action t) (rt_duration t) tp) id
                   (ExpiryTaskManager.task_map_ m)) (ExpiryTaskManager.last_task_id_ m)) c)
  end.

End Tree.
End CacheImpl.
