(* ===== verification/RegionTreeFacts.v ===== *)
(** The destruction of regions: what it does to the regions below, whatever the callbacks answer. *)
From S2P Require Import Prelude Versions ExceptionTypes ExpiryTaskManager MapEntry EntriesMap LocalRegion RegionTree.
From stdpp Require Import relations.
Import LocalRegion CacheImpl.
Local Open Scope Z_scope.

Section TreeFacts.
Context {M K V D A E : Type} `{HM : EntriesMap M K V D}.
Abbreviation R := (LocalRegion.t M K V A).
Abbreviation C := (CacheImpl.t M K V A).
Context (virt : Virtuals M K V A E) (app : Callbacks K V A) (valueEq : V -> V -> bool).
Implicit Types (c : C) (r : R) (i j k : nat).

(** *** What is kept of a region *)

(** A region without its times, calls and tasks. *)
Record Life := mkLife {
  l_name : bytes;
  l_path : bytes;
  l_parent : option nat;
  l_subs : list (bytes * nat);
  l_attributes : RegionAttributes;
  l_pending : bool;
  l_released : bool;
  l_entries : option M
}.
Implicit Types (l : Life) (ls : list Life).

Definition life (n : Node M K V A) : Life :=
  mkLife (m_name n) (m_fullPath n) (m_parentRegion n) (m_subRegions n) (m_regionAttributes (n_region n))
    (m_destroyPending (n_region n)) (m_released (n_region n)) (m_entries (n_region n)).
Definition lives c : list Life := life <$> nodes c.

(** The rest of the cache. *)
Definition others c := (m_regions c, c_destroyPending c, m_closed c, statisticsEnabled c, timers c).

Definition same_core r r' : Prop :=
  m_regionAttributes r' = m_regionAttributes r /\ m_destroyPending r' = m_destroyPending r /\
  m_released r' = m_released r /\ m_entries r' = m_entries r.

(** An operation of a region that returns and changes neither its flags nor its entries. *)
Definition quiet {X} (f : ST R X) : Prop := forall r, exists x r', f r = Ok (x, r') /\ same_core r r'.

Lemma same_core_refl r : same_core r r.
Proof. done. Qed.
Lemma same_core_trans r1 r2 r3 : same_core r1 r2 -> same_core r2 r3 -> same_core r1 r3.
Proof. unfold same_core. intuition congruence. Qed.

Lemma quiet_ret {X} (x : X) : quiet (mret x).
Proof. intros r. by exists x, r. Qed.
Lemma quiet_bind {X Y} (f : ST R X) (g : X -> ST R Y) : quiet f -> (forall x, quiet (g x)) -> quiet (x ← f; g x).
Proof.
  intros Hf Hg r. destruct (Hf r) as (x & r1 & Ef & H1). destruct (Hg x r1) as (y & r2 & Eg & H2).
  exists y, r2. unfold mbind, ST_bind. rewrite Ef. split; [done|]. by eapply same_core_trans.
Qed.
Lemma quiet_read {X} (g : R -> ST R X) : (forall r, quiet (g r)) -> quiet (r ← st_get; g r).
Proof. intros Hg r. exact (Hg r r). Qed.
Lemma quiet_call (x : Call K V A) : quiet (call x).
Proof. intros r. by exists (x :: calls r), (with_calls (x :: calls r) r). Qed.
Lemma quiet_remote {X} (q : Request K V A) (f : ST R X) : quiet f -> quiet (remote q f).
Proof. intros Hf. apply quiet_bind; [apply quiet_call|done]. Qed.
Lemma quiet_tell (x : Call K V A) : quiet (tell app x).
Proof. apply quiet_bind; [apply quiet_call|intros; apply quiet_ret]. Qed.

Lemma quiet_writer arg flags ty : quiet (invokeCacheWriterForRegionEvent app arg flags ty).
Proof.
  apply quiet_read. intros r. destruct (negb _); [apply quiet_ret|].
  destruct ty; try apply quiet_ret; (apply quiet_bind; [apply quiet_call|intros; apply quiet_ret]).
Qed.
Lemma quiet_listener arg flags ty : quiet (invokeCacheListenerForRegionEvent app arg flags ty).
Proof.
  apply quiet_read. intros r. destruct (negb _); [apply quiet_ret|].
  destruct ty; try apply quiet_ret; try apply quiet_tell.
  apply quiet_bind; [apply quiet_tell|]. intros err. destruct (decide _); [|apply quiet_ret].
  destruct (CacheEventFlags.isCacheClose _); [apply quiet_tell|apply quiet_ret].
Qed.
Lemma quiet_touch b : quiet (updateAccessAndModifiedTime b).
Proof.
  intros r. unfold updateAccessAndModifiedTime, attr, mbind, ST_bind, st_gets.
  destruct (negb _); [by apply quiet_ret|]. by do 2 eexists.
Qed.

(** *** Operations on the regions of a cache *)

Lemma lives_alter (f : Node M K V A -> Node M K V A) (g : Life -> Life) i (ns : list (Node M K V A)) :
  (forall n, life (f n) = g (life n)) -> life <$> alter f i ns = alter g i (life <$> ns).
Proof. intros Hfg. apply list_fmap_alter. apply Forall_forall. intros n _. by rewrite Hfg. Qed.

Lemma alter_id ls i : alter (fun l => l) i ls = ls.
Proof.
  apply list_eq. intros j. destruct (decide (j = i)) as [->|Hne].
  - rewrite list_lookup_alter_eq. by destruct (ls !! i).
  - by rewrite list_lookup_alter_ne.
Qed.

Lemma lives_times ps up (ns : list (Node M K V A)) : life <$> store_times ps up ns = life <$> ns.
Proof.
  unfold store_times. generalize (zip ps up). intros pus. induction pus as [|pu pus IH]; [done|].
  cbn [foldr]. rewrite (lives_alter _ (fun l => l)) by done. by rewrite alter_id.
Qed.

Lemma lives_lookup c i : lives c !! i = life <$> nodes c !! i.
Proof. apply list_lookup_fmap. Qed.

Definition set_core r (l : Life) : Life :=
  mkLife (l_name l) (l_path l) (l_parent l) (l_subs l) (m_regionAttributes r) (m_destroyPending r) (m_released r)
    (m_entries r).

Lemma lives_store i r r' c : lives (store i r r' c) = alter (set_core r') i (lives c).
Proof.
  unfold lives, store. cbn [nodes]. rewrite (lives_alter _ (set_core r')) by done. by rewrite lives_times.
Qed.

Lemma load_core c i r : same_core r (load c i r).
Proof. done. Qed.

Lemma on_region_quiet {X} (f : ST R X) i c : quiet f -> (i < length (nodes c))%nat ->
  exists x c', on_region i f c = Ok (x, c') /\ lives c' = lives c /\ others c' = others c.
Proof.
  intros Hf Hi. apply lookup_lt_is_Some in Hi as [n Hn]. unfold on_region. rewrite Hn.
  destruct (Hf (load c i (n_region n))) as (x & r' & -> & Hc). do 2 eexists. split; [done|]. split; [|done].
  rewrite lives_store. apply list_eq. intros j. destruct (decide (j = i)) as [->|Hne].
  - rewrite list_lookup_alter_eq, lives_lookup, Hn. simpl. f_equal. unfold set_core, life. simpl.
    destruct Hc as (-> & -> & -> & ->). done.
  - by rewrite list_lookup_alter_ne.
Qed.

Lemma on_node_eq i f c : on_node i f c = Ok (tt, with_nodes (alter f i (nodes c)) c).
Proof. done. Qed.

Lemma length_lives c : length (lives c) = length (nodes c).
Proof. apply length_fmap. Qed.

(** *** Trees *)

Definition sub ls i j : Prop := exists l s, ls !! i = Some l /\ (s, j) ∈ l_subs l.
Definition reach ls : relation nat := rtc (sub ls).

Definition dead l : Prop :=
  l_pending l = true /\ l_released l = true /\ (m_caching (l_attributes l) = true -> l_entries l = None).
Definition dead_at ls j : Prop := exists l, ls !! j = Some l /\ dead l.

(** Subregions are younger than their parents. *)
Definition ordered ls : Prop := forall i j, sub ls i j -> (i < j < length ls)%nat.
(** From [i] on, a region that is being destroyed is destroyed. *)
Definition settled i ls : Prop :=
  forall j l, (i <= j)%nat -> ls !! j = Some l -> l_pending l = true -> dead l /\ l_subs l = [].

Definition done ls0 ls j : Prop := forall k, reach ls0 j k -> dead_at ls k.
(** A region that is not destroyed keeps its subregions, unless they were all destroyed. *)
Definition same_subs ls0 ls j : Prop :=
  l_subs <$> ls !! j = l_subs <$> ls0 !! j \/
  (l_subs <$> ls !! j = Some [] /\ forall k, sub ls0 j k -> done ls0 ls k).
Definition same ls0 ls j : Prop := l_pending <$> ls !! j = l_pending <$> ls0 !! j /\ same_subs ls0 ls j.
Definition static l := (l_name l, l_path l, l_parent l, l_attributes l).

(** Destruction goes on: a region, with all that is below it, is destroyed or it is as it was. *)
Record progress ls0 ls : Prop := {
  pg_len : length ls = length ls0;
  pg_static : forall j, static <$> ls !! j = static <$> ls0 !! j;
  pg_dead : forall j, dead_at ls0 j -> dead_at ls j;
  pg_node : forall j, (done ls0 ls j /\ l_subs <$> ls !! j = Some []) \/ same ls0 ls j
}.

Lemma progress_refl ls : progress ls ls.
Proof. constructor; try done. intros j. right. split; [done|by left]. Qed.

Lemma no_sub ls i j : l_subs <$> ls !! i = Some [] -> ~ sub ls i j.
Proof. intros He (l & s & Hl & Hs). rewrite Hl in He. injection He as He. rewrite He in Hs. by apply elem_of_nil in Hs. Qed.

Lemma sub_subs ls0 ls i j : l_subs <$> ls !! i = l_subs <$> ls0 !! i -> sub ls i j -> sub ls0 i j.
Proof.
  intros He (l & s & Hl & Hs). rewrite Hl in He. destruct (ls0 !! i) as [l0|] eqn:El; [|done].
  injection He as He. exists l0, s. by rewrite <- He.
Qed.

Lemma progress_sub ls0 ls i j : progress ls0 ls -> sub ls i j -> sub ls0 i j.
Proof.
  intros Hp Hs. destruct (pg_node _ _ Hp i) as [[_ He]|[_ [He|[He _]]]]; [|by eapply sub_subs|]; by destruct (no_sub _ _ _ He Hs).
Qed.

Lemma progress_reach ls0 ls i j : progress ls0 ls -> reach ls i j -> reach ls0 i j.
Proof. intros Hp. apply rtc_subrel. intros x y. by apply progress_sub. Qed.

Lemma done_back ls0 ls1 ls2 k :
  progress ls0 ls1 -> (forall j, dead_at ls1 j -> dead_at ls2 j) -> done ls1 ls2 k -> done ls0 ls2 k.
Proof.
  intros Hp Hm Hd j Hj. cut (forall x, reach ls0 x j -> reach ls1 k x -> dead_at ls2 j); [intros H'; by eapply H'; [|apply rtc_refl]|].
  intros x Hx. induction Hx as [x|x y j Hxy Hyj IH]; intros Hk; [by apply Hd|].
  destruct (pg_node _ _ Hp x) as [[Hdx _]|[_ [Hs|[_ Hs]]]].
  - apply Hm, Hdx. by eapply rtc_l.
  - apply IH; [done|]. eapply rtc_r; [done|]. by eapply sub_subs.
  - by eapply Hm, Hs.
Qed.

Lemma progress_trans ls0 ls1 ls2 : progress ls0 ls1 -> progress ls1 ls2 -> progress ls0 ls2.
Proof.
  intros P1 P2. assert (Hm : forall j, done ls0 ls1 j -> done ls0 ls2 j).
  { intros j Hd k Hk. by apply (pg_dead _ _ P2), Hd. }
  assert (Hb : forall j, done ls1 ls2 j -> done ls0 ls2 j).
  { intros j Hd. by eapply done_back; [|apply (pg_dead _ _ P2)|]. }
  constructor.
  - by rewrite (pg_len _ _ P2), (pg_len _ _ P1).
  - intros j. by rewrite (pg_static _ _ P2), (pg_static _ _ P1).
  - intros j Hj. by apply (pg_dead _ _ P2), (pg_dead _ _ P1).
  - intros j. destruct (pg_node _ _ P1 j) as [[Hd He]|[Hp1 Hs1]], (pg_node _ _ P2 j) as [[Hd2 He2]|[Hp2 Hs2]].
    + left. split; [by apply Hm|done].
    + left. split; [by apply Hm|]. destruct Hs2 as [->|[-> _]]; done.
    + left. split; [by apply Hb|done].
    + right. split; [congruence|]. destruct Hs1 as [Hs1|[Hs1 Hd1]].
      * destruct Hs2 as [Hs2|[Hs2 Hd2]]; [left; congruence|]. right. split; [done|]. intros k Hk.
        apply Hb, Hd2. by eapply sub_subs.
      * right. split; [destruct Hs2 as [->|[-> _]]; done|]. intros k Hk. by apply Hm, Hd1.
Qed.

Lemma progress_ordered ls0 ls : progress ls0 ls -> ordered ls0 -> ordered ls.
Proof. intros Hp Ho i j Hs. rewrite (pg_len _ _ Hp). by apply Ho, (progress_sub _ _ _ _ Hp). Qed.

Lemma reach_ge ls i j : ordered ls -> reach ls i j -> (i <= j)%nat.
Proof. intros Ho Hr. induction Hr as [|x y z Hxy _ IH]; [done|]. apply Ho in Hxy. lia. Qed.

Lemma progress_settled i ls0 ls : progress ls0 ls -> settled i ls0 -> settled i ls.
Proof.
  intros Hp Hs j l Hj Hl Hpen. destruct (pg_node _ _ Hp j) as [[Hd He]|[Hpe He]].
  - rewrite Hl in He. injection He as He. destruct (Hd j (rtc_refl _ _)) as (l' & Hl' & Hdl). by simplify_eq.
  - unfold same_subs in He. rewrite Hl in He, Hpe. destruct (ls0 !! j) as [l0|] eqn:El; [|done]. injection Hpe as Hpe.
    destruct (Hs j l0 Hj El) as [Hd Hn]; [by rewrite <- Hpe|]. destruct (pg_dead _ _ Hp j) as (l' & Hl' & Hdl); [by exists l0|].
    simplify_eq. split; [done|]. destruct He as [[= He]|[[= He] _]]; congruence.
Qed.

(** *** The steps of a destruction *)

Lemma close_lor_local flags :
  CacheEventFlags.isCacheClose (Z.lor flags CacheEventFlags.LOCAL) = CacheEventFlags.isCacheClose flags.
Proof.
  unfold CacheEventFlags.isCacheClose. rewrite Z.land_lor_distr_l.
  change (Z.land CacheEventFlags.LOCAL CacheEventFlags.GF_CACHE_CLOSE) with 0%Z. by rewrite Z.lor_0_r.
Qed.

(** The flags with which a cache closes its regions. *)
Definition closing flags : bool := CacheEventFlags.isCacheClose flags && CacheEventFlags.isLocal flags.

Lemma closing_lor_local flags :
  closing (Z.lor flags CacheEventFlags.LOCAL) = CacheEventFlags.isCacheClose flags.
Proof.
  unfold closing. rewrite close_lor_local.
  assert (CacheEventFlags.isLocal (Z.lor flags CacheEventFlags.LOCAL) = true) as ->; [|by rewrite andb_true_r].
  unfold CacheEventFlags.isLocal. rewrite Z.land_lor_distr_l. apply Z.ltb_lt.
  change (Z.land CacheEventFlags.LOCAL CacheEventFlags.GF_LOCAL) with (Z.land 2 2).
  assert (Hf : Z.testbit (Z.lor (Z.land flags CacheEventFlags.GF_LOCAL) 2) 1 = true) by (by rewrite Z.lor_spec, orb_true_r).
  assert (0 <= Z.lor (Z.land flags CacheEventFlags.GF_LOCAL) 2)%Z.
  { apply Z.lor_nonneg. split; [|done]. apply Z.land_nonneg. by right. }
  destruct (Z.eq_dec (Z.lor (Z.land flags CacheEventFlags.GF_LOCAL) 2) 0) as [E0|Hne]; [|change (Z.land 2 2) with 2; lia].
  by rewrite E0 in Hf.
Qed.

Definition with_pending (b : bool) l : Life :=
  mkLife (l_name l) (l_path l) (l_parent l) (l_subs l) (l_attributes l) b (l_released l) (l_entries l).
Definition no_subs l : Life :=
  mkLife (l_name l) (l_path l) (l_parent l) [] (l_attributes l) (l_pending l) (l_released l) (l_entries l).
Definition finished l : Life :=
  mkLife (l_name l) (l_path l) (l_parent l) (l_subs l) (l_attributes l) (l_pending l) true
    (if m_caching (l_attributes l) then None else l_entries l).

Lemma set_pending_step i b c :
  exists c', set_pending i b c = Ok (tt, c') /\ lives c' = alter (with_pending b) i (lives c) /\ others c' = others c.
Proof.
  eexists. split; [reflexivity|]. split; [|done]. unfold lives. cbn [nodes with_nodes]. by apply lives_alter.
Qed.

Lemma clear_subs_step i c :
  exists c', on_node i (set_subs []) c = Ok (tt, c') /\ lives c' = alter no_subs i (lives c) /\ others c' = others c.
Proof.
  eexists. split; [reflexivity|]. split; [|done]. unfold lives. cbn [nodes with_nodes]. by apply lives_alter.
Qed.

(** The servers and the interest list do not touch the flags of a region. *)
Definition quiet_virtuals : Prop :=
  (forall arg, quiet (destroyRegionNoThrow_remote virt arg)) /\ quiet (unregisterKeysBeforeDestroyRegion virt).
Context (Hquiet : quiet_virtuals).

Lemma ask_step i arg flags c : (i < length (nodes c))%nat ->
  exists o c', destroy_ask virt app i arg flags c = Ok (o, c') /\ lives c' = lives c /\ others c' = others c /\
    o <> Some GF_NOERR /\ (closing flags = true -> o = None).
Proof.
  intros Hi. unfold destroy_ask, closing. destruct (negb _ && negb _); [|by exists None, c].
  destruct (on_region_quiet _ i c (quiet_writer arg flags BEFORE_REGION_DESTROY) Hi) as (go & c1 & Hw & Hl1 & Ho1).
  unfold mbind, ST_bind. rewrite Hw. destruct (negb go && _) eqn:Eg.
  { do 2 eexists. split; [done|]. split; [done|]. split; [done|]. split; [done|].
    apply andb_true_iff in Eg as [_ ->%negb_true_iff]. done. }
  destruct (CacheEventFlags.isLocal flags); cbn [negb]; [by do 2 eexists|]. rewrite andb_false_r.
  assert (Hi1 : (i < length (nodes c1))%nat) by (by rewrite <- length_lives, Hl1, length_lives).
  destruct (on_region_quiet _ i c1 (quiet_remote (RDestroyRegion arg) _ (proj1 Hquiet arg)) Hi1)
    as (err & c2 & Hr & Hl2 & Ho2).
  rewrite Hr. do 2 eexists. split; [done|]. split; [congruence|]. split; [congruence|]. split; [|done].
  destruct (bool_decide (err = GF_NOERR)) eqn:Eb; [done|]. cbn [negb]. apply bool_decide_eq_false in Eb. congruence.
Qed.

Lemma late_step i arg flags c : (i < length (nodes c))%nat ->
  exists o c', destroy_late virt i arg flags c = Ok (o, c') /\ lives c' = lives c /\ others c' = others c /\
    o <> Some GF_NOERR /\ (closing flags = true -> o = None).
Proof.
  intros Hi. unfold destroy_late, closing. destruct (CacheEventFlags.isLocal flags);
    [rewrite andb_false_r; by exists None, c|]. rewrite !andb_false_r.
  destruct (_ && _); [|by exists None, c]. unfold mbind, ST_bind.
  destruct (on_region_quiet _ i c (quiet_remote (RDestroyRegion arg) _ (proj1 Hquiet arg)) Hi) as (err & c2 & Hr & Hl2 & Ho2).
  rewrite Hr. do 2 eexists. split; [done|]. split; [congruence|]. split; [congruence|]. split; [|done].
  destruct (bool_decide (err = GF_NOERR)) eqn:Eb; [done|]. cbn [negb]. apply bool_decide_eq_false in Eb. congruence.
Qed.

(** [release] and the deletion of the map. *)
Lemma release_eq b r : exists r', release app b r = Ok (tt, r') /\ m_regionAttributes r' = m_regionAttributes r /\
  m_destroyPending r' = m_destroyPending r /\ m_released r' = true /\ m_entries r' = m_entries r.
Proof.
  unfold release, mbind, ST_bind, st_get. destruct (m_released r) eqn:Er; [by exists r|].
  unfold st_modify. destruct b; [|by eexists]. destruct (m_loader r); cbn -[is_null].
  - unfold call. destruct (negb _ && _); by eexists.
  - destruct (m_writer r); by eexists.
Qed.

Lemma on_region_step {X} (f : ST R X) i c n x r' :
  nodes c !! i = Some n -> f (load c i (n_region n)) = Ok (x, r') ->
  on_region i f c = Ok (x, store i (n_region n) r' c).
Proof. intros Hn Hf. unfold on_region. by rewrite Hn, Hf. Qed.

Lemma alter_alter_life (f g : Life -> Life) i ls : alter f i (alter g i ls) = alter (fun l => f (g l)) i ls.
Proof.
  apply list_eq. intros j. destruct (decide (j = i)) as [->|Hne]; [|by rewrite !list_lookup_alter_ne].
  rewrite !list_lookup_alter_eq. by destruct (ls !! i).
Qed.

Lemma finish_step i arg flags c : (i < length (nodes c))%nat ->
  exists err c', (forall b, destroy_finish app i arg b flags c =
      ((if b then
          n ← node i;
          match m_parentRegion n with
          | None => removeRegion (m_name n)
          | Some p =>
            removeSubregion p (m_name n);;
            if CacheEventFlags.isEvictOrExpire flags then mret tt else on_region p (updateAccessAndModifiedTime true)
          end
        else mret tt);; mret err) c') /\
    lives c' = alter finished i (lives c) /\ others c' = others c.
Proof.
  intros Hi. unfold destroy_finish.
  destruct (on_region_quiet _ i c (quiet_listener arg flags AFTER_REGION_DESTROY) Hi) as (err & c1 & Hw & Hl1 & Ho1).
  assert (Hi1 : (i < length (nodes c1))%nat) by (by rewrite <- length_lives, Hl1, length_lives).
  apply lookup_lt_is_Some in Hi1 as [n1 Hn1].
  destruct (release_eq true (load c1 i (n_region n1))) as (r1 & Er1 & Ha1 & Hp1 & Hr1 & He1).
  set (c2 := store i (n_region n1) r1 c1).
  assert (Hl2 : lives c2 = alter (set_core r1) i (lives c1)) by apply lives_store.
  assert (Hn2 : is_Some (nodes c2 !! i)).
  { apply lookup_lt_is_Some. rewrite <- length_lives, Hl2, length_alter, length_lives. by eapply lookup_lt_Some. }
  destruct Hn2 as [n2 Hn2].
  set (r2 := if m_caching (m_regionAttributes (n_region n2)) then with_entries None (load c2 i (n_region n2))
             else load c2 i (n_region n2)).
  exists err, (store i (n_region n2) r2 c2). split; [|split].
  - intros b. unfold mbind, ST_bind at 1. rewrite Hw. cbv beta iota. unfold ST_bind at 1.
    rewrite (on_region_step _ i c1 n1 tt r1 Hn1 Er1). fold c2. cbv beta iota. unfold ST_bind at 1.
    rewrite (on_region_step _ i c2 n2 tt r2 Hn2); [done|].
    unfold getCachingEnabled, attr, st_gets, ST_bind, st_modify, r2.
    change (m_caching (m_regionAttributes (load c2 i (n_region n2)))) with (m_caching (m_regionAttributes (n_region n2))).
    by destruct (m_caching _).
  - rewrite lives_store, Hl2, alter_alter_life, <- Hl1. apply list_eq. intros j.
    destruct (decide (j = i)) as [->|Hne]; [|by rewrite !list_lookup_alter_ne].
    rewrite !list_lookup_alter_eq, lives_lookup, Hn1. simpl. f_equal. unfold set_core, finished, life. simpl.
    pose proof (f_equal (fun ls => ls !! i) Hl2) as Hl2i. rewrite list_lookup_alter_eq, !lives_lookup, Hn1, Hn2 in Hl2i.
    simpl in Hl2i. unfold life, set_core in Hl2i. simpl in Hl2i. injection Hl2i as Hnm Hpt Hpa Hsb Hat Hpe Hre Hen.
    unfold r2. clear r2. rewrite Hat, Ha1. cbn in *.
    destruct (m_caching (m_regionAttributes (n_region n1))); cbn in *; f_equal; congruence.
  - unfold others in *. simpl. congruence.
Qed.

(** *** Destruction *)

(** Only the closing of a cache does not mind a region that is destroyed already. *)
Definition may_succeed flags j c : Prop := CacheEventFlags.isCacheClose flags = true \/ ~ dead_at (lives c) j.

(** What the destruction of [j] does. *)
Definition destroys flags j c err c' : Prop :=
  others c' = others c /\ progress (lives c) (lives c') /\
  (forall k, ~ reach (lives c) j k -> lives c' !! k = lives c !! k) /\
  (err = GF_NOERR \/ closing flags = true -> done (lives c) (lives c') j) /\
  (err = GF_NOERR -> may_succeed flags j c).

Definition loop_ready i N c (l : list (bytes * nat)) : Prop :=
  length (lives c) = N /\ ordered (lives c) /\ settled (Datatypes.S i) (lives c) /\ forall s j, (s, j) ∈ l -> (i < j < length (lives c))%nat.

Lemma loop_next i N c c' (subs : list (bytes * nat)) : loop_ready i N c subs -> progress (lives c) (lives c') -> loop_ready i N c' subs.
Proof.
  intros (HN & Ho & Hs & Hl) Hp. split; [by rewrite (pg_len _ _ Hp)|]. split; [by eapply progress_ordered|]. split; [by eapply progress_settled|].
  intros s j Hj. rewrite (pg_len _ _ Hp). by eapply Hl.
Qed.

Lemma destroy_each_ok (f : nat -> ST C GfErrType) flags i N (subs : list (bytes * nat)) c :
  (forall j c, loop_ready i N c [] -> (i < j < length (lives c))%nat ->
    exists err c', f j c = Ok (err, c') /\ destroys (Z.lor flags CacheEventFlags.LOCAL) j c err c') ->
  loop_ready i N c subs ->
  exists o c', destroy_each f (CacheEventFlags.isCacheClose flags) subs c = Ok (o, c') /\ others c' = others c /\
    progress (lives c) (lives c') /\
    (forall j, (forall s k, (s, k) ∈ subs -> ~ reach (lives c) k j) -> lives c' !! j = lives c !! j) /\
    match o with
    | None => forall s k, (s, k) ∈ subs -> done (lives c) (lives c') k /\ may_succeed flags k c
    | Some err => err <> GF_NOERR
    end.
Proof.
  intros Hf. revert c. induction subs as [|[s k] subs IH]; intros c Hc.
  - exists None, c. split; [done|]. split; [done|]. split; [apply progress_refl|]. split; [done|].
    intros s k Hk. by apply elem_of_nil in Hk.
  - destruct Hc as (HN & Ho & Hs & Hl).
    destruct (Hf k c) as (err & c1 & Hd & Ho1 & Hp1 & Hfr1 & Hdone & Hmay).
    { split; [done|]. split; [done|]. split; [done|]. intros ? ? Hn. by apply elem_of_nil in Hn. }
    { apply (Hl s). apply elem_of_cons. by left. }
    rewrite closing_lor_local in Hdone. unfold may_succeed in Hmay. rewrite close_lor_local in Hmay.
    cbn [destroy_each]. unfold mbind, ST_bind. rewrite Hd.
    destruct (negb (bool_decide (err = GF_NOERR)) && negb (CacheEventFlags.isCacheClose flags)) eqn:Eb.
    + exists (Some err), c1. split; [done|]. split; [done|]. split; [done|]. split.
      * intros j Hj. apply Hfr1. apply (Hj s). apply elem_of_cons. by left.
      * apply andb_true_iff in Eb as [Eb _]. by apply negb_true_iff, bool_decide_eq_false in Eb.
    + destruct (IH c1) as (o & c2 & Hd2 & Ho2 & Hp2 & Hfr2 & Hout).
      { eapply (loop_next _ _ c); [|done]. split; [done|]. split; [done|]. split; [done|]. intros s' j Hj. apply (Hl s').
        apply elem_of_cons. by right. }
      exists o, c2. split; [done|]. split; [congruence|]. split; [by eapply progress_trans|]. split.
      * intros j Hj. rewrite Hfr2.
        -- apply Hfr1, (Hj s). apply elem_of_cons. by left.
        -- intros s' k' Hin Hr. apply (Hj s' k'); [apply elem_of_cons; by right|]. by eapply progress_reach.
      * assert (Hok : err = GF_NOERR \/ CacheEventFlags.isCacheClose flags = true).
        { apply andb_false_iff in Eb as [Eb|Eb]; apply negb_false_iff in Eb; [left; by apply bool_decide_eq_true in Eb|by right]. }
        destruct o as [err'|]; [done|]. intros s' k' [[= -> ->]|Hin]%elem_of_cons.
        -- split; [|unfold may_succeed; tauto]. intros j Hj. by apply (pg_dead _ _ Hp2), Hdone.
        -- destruct (Hout _ _ Hin) as [Hdn Hms]. split; [by eapply done_back; [|apply (pg_dead _ _ Hp2)|]|].
           destruct Hms as [?|Hnd]; [by left|right]. intros Hk'. by apply Hnd, (pg_dead _ _ Hp1).
Qed.

Lemma destroy_each_close (f : nat -> ST C GfErrType) (subs : list (bytes * nat)) c err c' :
  destroy_each f true subs c <> Ok (Some err, c').
Proof.
  revert c. induction subs as [|[s k] subs IH]; intros c; [done|]. cbn [destroy_each]. unfold mbind, ST_bind.
  destruct (f k c) as [[e c1]|]; [|done]. rewrite andb_false_r. apply IH.
Qed.

(** The destruction of a region that is not being destroyed, up to its end. *)
Definition gave_up flags i c err c' : Prop :=
  err <> GF_NOERR /\ others c' = others c /\ progress (lives c) (lives c') /\
  (forall k, ~ reach (lives c) i k -> lives c' !! k = lives c !! k) /\
  (forall k, sub (lives c) i k -> sub (lives c') i k \/ may_succeed flags k c).

Definition cleared flags i c c1 : Prop :=
  others c1 = others c /\ progress (lives c) (alter finished i (lives c1)) /\
  (forall k, ~ reach (lives c) i k -> lives c1 !! k = lives c !! k) /\
  done (lives c) (alter finished i (lives c1)) i /\
  (forall k, sub (lives c) i k -> may_succeed flags k c).

Lemma not_dead_at i ls l : ls !! i = Some l -> l_pending l = false -> ~ dead_at ls i.
Proof. intros Hl Hp (l' & Hl' & Hd & _). congruence. Qed.

Lemma alter_dead (f : Life -> Life) i ls j : (forall l, dead l -> dead (f l)) -> dead_at ls j -> dead_at (alter f i ls) j.
Proof.
  intros Hf (l & Hl & Hd). destruct (decide (j = i)) as [->|Hne].
  - exists (f l). rewrite list_lookup_alter_eq, Hl. split; [done|by apply Hf].
  - exists l. by rewrite list_lookup_alter_ne.
Qed.

Lemma finished_dead l : l_pending l = true -> dead (finished l).
Proof. intros Hp. split; [done|]. split; [done|]. simpl. by intros ->. Qed.

(** *** One region *)

Section OneRegion.
Context (i : nat) (ls ls2 : list Life) (l0 : Life).
Let ls1 := alter (with_pending true) i ls.
Context (Hl0 : ls !! i = Some l0) (Halive : l_pending l0 = false).
Context (Hord : ordered ls) (Hset : settled i ls).

Lemma mark_subs j : l_subs <$> ls1 !! j = l_subs <$> ls !! j.
Proof.
  unfold ls1. destruct (decide (j = i)) as [->|Hne]; [|by rewrite list_lookup_alter_ne].
  rewrite list_lookup_alter_eq. by destruct (ls !! i).
Qed.
Lemma mark_sub j k : sub ls1 j k <-> sub ls j k.
Proof. split; apply sub_subs; by rewrite mark_subs. Qed.
Lemma mark_reach j k : reach ls1 j k <-> reach ls j k.
Proof. split; apply rtc_subrel; intros x y; apply mark_sub. Qed.
Lemma mark_ordered : ordered ls1.
Proof. intros j k Hs%mark_sub. unfold ls1. rewrite length_alter. by apply Hord. Qed.
Lemma mark_settled : settled (Datatypes.S i) ls1.
Proof.
  intros j l Hj Hl. unfold ls1 in Hl. rewrite list_lookup_alter_ne in Hl by lia. exact (Hset j l (Nat.lt_le_incl _ _ Hj) Hl).
Qed.

(** The subregions were worked on, and nothing else. *)
Context (Hprog : progress ls1 ls2) (Hlow : forall j, (j <= i)%nat -> ls2 !! j = ls1 !! j).
Context (f : Life -> Life) (Hst : forall l, static (f l) = static l).
Let ls' := alter f i ls2.

Lemma done_above j : (i < j)%nat -> done ls1 ls2 j -> done ls ls' j.
Proof.
  intros Hj Hd k Hk. assert (k <> i) by (apply reach_ge in Hk; [lia|done]).
  destruct (Hd k) as (l & Hl & Hdl); [by apply mark_reach|]. exists l. unfold ls'. by rewrite list_lookup_alter_ne.
Qed.

Lemma progress_alter :
  (done ls ls' i /\ l_subs <$> ls' !! i = Some []) \/ same ls ls' i -> progress ls ls'.
Proof.
  intros Hi. constructor.
  - unfold ls'. rewrite length_alter, (pg_len _ _ Hprog). unfold ls1. by rewrite length_alter.
  - intros j. unfold ls'. destruct (decide (j = i)) as [->|Hne].
    + rewrite list_lookup_alter_eq, Hlow by lia. unfold ls1. rewrite list_lookup_alter_eq, Hl0. simpl. by rewrite Hst.
    + rewrite list_lookup_alter_ne by done. rewrite (pg_static _ _ Hprog). unfold ls1. by rewrite list_lookup_alter_ne.
  - intros j Hj. assert (Hne : j <> i) by (intros ->; exact (not_dead_at i ls l0 Hl0 Halive Hj)).
    destruct (pg_dead _ _ Hprog j) as (l & Hl & Hd).
    { destruct Hj as (l & Hl & Hd). exists l. unfold ls1. by rewrite list_lookup_alter_ne. }
    exists l. unfold ls'. by rewrite list_lookup_alter_ne.
  - intros j. destruct (decide (j = i)) as [->|Hne]; [done|].
    assert (He : ls' !! j = ls2 !! j) by (unfold ls'; by rewrite list_lookup_alter_ne).
    assert (He1 : ls1 !! j = ls !! j) by (unfold ls1; by rewrite list_lookup_alter_ne).
    destruct (decide (j < i)%nat) as [Hlt|Hge].
    { right. split; [|left]; by rewrite He, Hlow, He1 by lia. }
    destruct (pg_node _ _ Hprog j) as [[Hd Hs]|[Hp Hs]].
    + left. split; [apply done_above; [lia|done]|]. by rewrite He.
    + right. split; [by rewrite He, Hp, He1|]. destruct Hs as [Hs|[Hs Hd]]; [left; by rewrite He, Hs, He1|].
      right. split; [by rewrite He|]. intros k Hk. pose proof (Hord _ _ Hk). apply done_above; [lia|].
      apply Hd. by apply mark_sub.
Qed.
End OneRegion.

Lemma unregister_step i (b : bool) c : (i < length (nodes c))%nat ->
  exists c', (if b then on_region i (unregisterKeysBeforeDestroyRegion virt);; mret tt else mret tt) c = Ok (tt, c') /\
    lives c' = lives c /\ others c' = others c.
Proof.
  intros Hi. destruct b; [|by exists c].
  destruct (on_region_quiet _ i c (proj2 Hquiet) Hi) as (x & c' & Hr & Hl & Ho). exists c'.
  unfold mbind, ST_bind. by rewrite Hr.
Qed.

Lemma node_step i c n : nodes c !! i = Some n -> node i c = Ok (n, c).
Proof. intros Hn. unfold node. by rewrite Hn. Qed.

(** The destruction, after the writer and the servers were asked. *)
Definition destroy_rest fuel i arg b flags (subs : list (bytes * nat)) : ST C GfErrType :=
  failed ← destroy_each (fun j => destroyRegionNoThrow virt app fuel j arg false (Z.lor flags CacheEventFlags.LOCAL))
    (CacheEventFlags.isCacheClose flags) subs;
  match failed with
  | Some err => set_pending i false;; mret err
  | None =>
    on_node i (set_subs []);;
    late ← destroy_late virt i arg flags;
    match late with
    | Some err => set_pending i false;; mret err
    | None => destroy_finish app i arg b flags
    end
  end.

Lemma begin_step fuel i c arg flags : (i < length (lives c))%nat ->
  exists n, lives c !! i = Some (life n) /\
    ((m_destroyPending (n_region n) = true /\ exists c', lives c' = lives c /\ others c' = others c /\
      forall b, destroyRegionNoThrow virt app (Datatypes.S fuel) i arg b flags c =
        Ok (if CacheEventFlags.isCacheClose flags then GF_NOERR else GF_CACHE_REGION_DESTROYED_EXCEPTION, c')) \/
     (m_destroyPending (n_region n) = false /\ exists asked c2, lives c2 = alter (with_pending true) i (lives c) /\
      others c2 = others c /\ asked <> Some GF_NOERR /\ (closing flags = true -> asked = None) /\
      forall b, destroyRegionNoThrow virt app (Datatypes.S fuel) i arg b flags c =
        match asked with
        | Some err => (set_pending i false;; mret err) c2
        | None => destroy_rest fuel i arg b flags (m_subRegions n) c2
        end)).
Proof.
  intros Hi. rewrite length_lives in Hi.
  destruct (unregister_step i (flags =? CacheEventFlags.LOCAL)%Z c Hi) as (c0 & Eu & Hl0 & Ho0).
  destruct (lookup_lt_is_Some_2 (nodes c0) i) as [n Hn]; [by rewrite <- length_lives, Hl0, length_lives|].
  exists n. split; [by rewrite <- Hl0, lives_lookup, Hn|]. destruct (m_destroyPending (n_region n)) eqn:Ep; [left|right].
  - split; [done|]. exists c0. split; [done|]. split; [done|]. intros b. cbn [destroyRegionNoThrow].
    rewrite (st_bind_ok _ _ _ _ _ Eu), (st_bind_ok _ _ _ _ _ (node_step _ _ _ Hn)). by rewrite Ep.
  - split; [done|]. destruct (set_pending_step i true c0) as (c1 & E1 & Hl1 & Ho1). rewrite Hl0 in Hl1.
    destruct (ask_step i arg flags c1) as (asked & c2 & E2 & Hl2 & Ho2 & Hne2 & Hcl2).
    { by rewrite <- length_lives, Hl1, length_alter, length_lives. }
    exists asked, c2. split; [congruence|]. split; [congruence|]. split; [done|]. split; [done|].
    intros b. cbn [destroyRegionNoThrow]. rewrite (st_bind_ok _ _ _ _ _ Eu), (st_bind_ok _ _ _ _ _ (node_step _ _ _ Hn)), Ep.
    rewrite (st_bind_ok _ _ _ _ _ E1), (st_bind_ok _ _ _ _ _ E2). by destruct asked.
Qed.

Section Destroying.
Context (fuel i : nat) (c : C) (arg : option A) (flags : Z) (n : Node M K V A).
Context (Hln : lives c !! i = Some (life n)) (Ep : m_destroyPending (n_region n) = false).
Context (Hord : ordered (lives c)) (Hset : settled i (lives c)).
Context (IH : forall j c0, loop_ready i (length (lives c)) c0 [] -> (i < j < length (lives c0))%nat ->
  exists err c', destroyRegionNoThrow virt app fuel j arg false (Z.lor flags CacheEventFlags.LOCAL) c0 = Ok (err, c') /\
    destroys (Z.lor flags CacheEventFlags.LOCAL) j c0 err c').

(** Giving up, with the subregions or without them. *)
Lemma back_out_step c' err :
  err <> GF_NOERR -> others c' = others c -> progress (lives c) (alter (with_pending false) i (lives c')) ->
  (forall k, ~ reach (lives c) i k -> lives c' !! k = lives c !! k) ->
  (forall k, sub (lives c) i k -> sub (lives c') i k \/ may_succeed flags k c) ->
  exists c4, (set_pending i false;; mret err) c' = Ok (err, c4) /\ gave_up flags i c err c4.
Proof.
  intros Hne Ho Hp Hk Hsub. destruct (set_pending_step i false c') as (c4 & E4 & Hl4 & Ho4). exists c4.
  rewrite (st_bind_ok _ _ _ _ _ E4). split; [done|]. split; [done|]. split; [congruence|]. rewrite Hl4. split; [done|].
  split; [intros k Hr; assert (k <> i) by (intros ->; apply Hr, rtc_refl); rewrite list_lookup_alter_ne by done; by apply Hk|].
  intros k [Hs|?]%Hsub; [left|by right]. eapply sub_subs; [|done]. rewrite list_lookup_alter_eq. by destruct (lives c' !! i).
Qed.

Context (c2 : C) (Hl2 : lives c2 = alter (with_pending true) i (lives c)) (Ho2 : others c2 = others c).

Lemma marked_frame k : ~ reach (lives c) i k -> lives c2 !! k = lives c !! k.
Proof. intros Hk. assert (k <> i) by (intros ->; apply Hk, rtc_refl). rewrite Hl2. by apply list_lookup_alter_ne. Qed.

Lemma refused_step err : err <> GF_NOERR -> exists c4, (set_pending i false;; mret err) c2 = Ok (err, c4) /\ gave_up flags i c err c4.
Proof.
  intros Hne. apply back_out_step; [done|done| |apply marked_frame|].
  - rewrite Hl2, alter_alter_life.
    assert (alter (fun l => with_pending false (with_pending true l)) i (lives c) = lives c) as ->; [|apply progress_refl].
    apply list_eq. intros j. destruct (decide (j = i)) as [->|Hnej]; [|by rewrite list_lookup_alter_ne].
    rewrite list_lookup_alter_eq, Hln. simpl. f_equal. unfold with_pending, life. simpl. by rewrite Ep.
  - intros k Hk. left. rewrite Hl2. by apply (mark_sub i _ _ Hln).
Qed.

(** What the loop over the subregions leaves. *)
Definition looped (failed : option GfErrType) c3 : Prop :=
  others c3 = others c /\ progress (alter (with_pending true) i (lives c)) (lives c3) /\
  (forall j, (j <= i)%nat -> lives c3 !! j = alter (with_pending true) i (lives c) !! j) /\
  (forall k, ~ reach (lives c) i k -> lives c3 !! k = lives c !! k) /\
  match failed with
  | None =>
    (forall (g : Life -> Life) k, sub (lives c) i k -> done (lives c) (alter g i (lives c3)) k) /\
    (forall k, sub (lives c) i k -> may_succeed flags k c)
  | Some err => err <> GF_NOERR /\ closing flags = false
  end.

Lemma loop_step : exists failed c3,
  destroy_each (fun j => destroyRegionNoThrow virt app fuel j arg false (Z.lor flags CacheEventFlags.LOCAL))
    (CacheEventFlags.isCacheClose flags) (m_subRegions n) c2 = Ok (failed, c3) /\ looped failed c3.
Proof.
  assert (Hready : loop_ready i (length (lives c)) c2 (m_subRegions n)).
  { split; [by rewrite Hl2, length_alter|]. split; [|split]; rewrite Hl2; [by eapply mark_ordered|by eapply mark_settled|].
    intros s j Hj. rewrite length_alter. apply Hord. by exists (life n), s. }
  destruct (destroy_each_ok _ flags i _ (m_subRegions n) c2 IH Hready) as (failed & c3 & E3 & Ho3 & Hp3 & Hfr3 & Hout3).
  assert (Hreach : forall s j, (s, j) ∈ m_subRegions n -> forall k, reach (lives c2) j k -> reach (lives c) i k /\ (i < k)%nat).
  { intros s j Hj k Hk. destruct Hready as (_ & Ho & _ & Hlt). pose proof (reach_ge _ _ _ Ho Hk). specialize (Hlt _ _ Hj).
    split; [|lia]. rewrite Hl2 in Hk. apply (mark_reach i _ _ Hln) in Hk. eapply rtc_l; [|done]. by exists (life n), s. }
  exists failed, c3. split; [done|]. split; [congruence|]. rewrite Hl2 in Hp3. split; [done|]. split; [|split].
  - intros j Hj. rewrite Hfr3, Hl2; [done|]. intros s k Hk Hr. destruct (Hreach _ _ Hk _ Hr). lia.
  - intros k Hk. rewrite Hfr3; [by apply marked_frame|]. intros s j Hj Hr. by apply Hk, (Hreach _ _ Hj).
  - destruct failed as [err|].
    + split; [done|]. unfold closing. destruct (CacheEventFlags.isCacheClose flags) eqn:Ecl; [|done].
      by destruct (destroy_each_close _ (m_subRegions n) c2 err c3 E3).
    + split; [intros g k (l & s & Hl & Hs)|intros k (l & s & Hl & Hs)]; rewrite Hln in Hl; injection Hl as <-;
        pose proof (Hreach _ _ Hs k (rtc_refl _ _)) as [_ Hk]; destruct (Hout3 _ _ Hs) as [Hd Hm].
      * eapply done_above; [done|done|done|]. by rewrite <- Hl2.
      * destruct Hm as [?|Hnd]; [by left|right]. intros (l & Hl & Hdl). apply Hnd. exists l.
        by rewrite Hl2, list_lookup_alter_ne by lia.
Qed.

Lemma rest_step :
  (exists err c', (forall b, destroy_rest fuel i arg b flags (m_subRegions n) c2 = Ok (err, c')) /\ closing flags = false /\
    gave_up flags i c err c') \/
  (exists c1, (forall b, destroy_rest fuel i arg b flags (m_subRegions n) c2 = destroy_finish app i arg b flags c1) /\
    cleared flags i c c1).
Proof.
  destruct loop_step as (failed & c3 & E3 & Ho3 & Hp3 & Hlow & Hfr & Hout).
  assert (Hi3 : forall (g : Life -> Life), alter g i (lives c3) !! i = Some (g (with_pending true (life n)))).
  { intros g. by rewrite list_lookup_alter_eq, Hlow, list_lookup_alter_eq, Hln by lia. }
  assert (Hat : forall (g : Life -> Life) k, ~ reach (lives c) i k -> alter g i (lives c3) !! k = lives c !! k).
  { intros g k Hk. assert (k <> i) by (intros ->; apply Hk, rtc_refl). rewrite list_lookup_alter_ne by done. by apply Hfr. }
  pose proof (progress_alter i (lives c) (lives c3) (life n) Hln Ep Hord Hp3 Hlow) as Hpa.
  destruct failed as [err|].
  { left. destruct Hout as [Hne Hcl]. destruct (back_out_step c3 err Hne Ho3) as (c4 & E4 & Hg); [|done| |].
    - apply Hpa; [done|]. right. split; [|left]; rewrite Hi3, Hln; simpl; [by rewrite Ep|done].
    - intros k Hk. left. eapply (sub_subs (lives c3) (lives c)); [|done]. by rewrite Hlow, list_lookup_alter_eq, Hln by lia.
    - exists err, c4. split; [|done]. intros b. unfold destroy_rest. by rewrite (st_bind_ok _ _ _ _ _ E3). }
  destruct Hout as [Hsubs Hmay]. destruct (clear_subs_step i c3) as (c4 & E4 & Hl4 & Ho4).
  destruct (late_step i arg flags c4) as (late & c5 & E5 & Hl5 & Ho5 & Hne5 & Hcl5).
  { rewrite <- length_lives, Hl4, length_alter, (pg_len _ _ Hp3), length_alter. by eapply lookup_lt_Some. }
  rewrite Hl4 in Hl5. assert (Eend : forall b, destroy_rest fuel i arg b flags (m_subRegions n) c2 =
    match late with Some err => (set_pending i false;; mret err) c5 | None => destroy_finish app i arg b flags c5 end).
  { intros b. unfold destroy_rest.
    rewrite (st_bind_ok _ _ _ _ _ E3), (st_bind_ok _ _ _ _ _ E4), (st_bind_ok _ _ _ _ _ E5). by destruct late. }
  destruct late as [err|]; [left|right].
  - destruct (back_out_step c5 err) as (c6 & E6 & Hg); [congruence|congruence| | |intros; right; by apply Hmay|].
    + rewrite Hl5, alter_alter_life. apply Hpa; [done|]. right. split; [rewrite Hi3, Hln; simpl; by rewrite Ep|].
      right. split; [by rewrite Hi3|intros; by apply Hsubs].
    + intros k Hk. rewrite Hl5. by apply Hat.
    + exists err, c6. split; [intros b; by rewrite Eend|]. split; [|done]. destruct (closing flags); [by specialize (Hcl5 eq_refl)|done].
  - exists c5. split; [intros b; by rewrite Eend|]. split; [congruence|]. rewrite Hl5, alter_alter_life.
    assert (Hdone : done (lives c) (alter (fun l => finished (no_subs l)) i (lives c3)) i).
    { intros k Hk. apply rtc_inv in Hk as [<-|(y & Hy & Hk)]; [|by eapply Hsubs].
      eexists. rewrite Hi3. split; [done|]. by apply finished_dead. }
    split; [|split; [|done]].
    + apply Hpa; [done|]. left. split; [done|]. by rewrite Hi3.
    + intros k Hk. by apply Hat.
Qed.
End Destroying.

(** Whether the region is destroyed already, the destruction is given up, or it gets to its end. *)
Lemma destroy_cases fuel i c arg flags :
  (forall j c0, loop_ready i (length (lives c)) c0 [] -> (i < j < length (lives c0))%nat ->
    exists err c', destroyRegionNoThrow virt app fuel j arg false (Z.lor flags CacheEventFlags.LOCAL) c0 = Ok (err, c') /\
      destroys (Z.lor flags CacheEventFlags.LOCAL) j c0 err c') ->
  (i < length (lives c))%nat -> ordered (lives c) -> settled i (lives c) ->
  (exists c', lives c' = lives c /\ others c' = others c /\ l_pending <$> lives c !! i = Some true /\
    forall b, destroyRegionNoThrow virt app (Datatypes.S fuel) i arg b flags c =
      Ok (if CacheEventFlags.isCacheClose flags then GF_NOERR else GF_CACHE_REGION_DESTROYED_EXCEPTION, c')) \/
  (exists err c', (forall b, destroyRegionNoThrow virt app (Datatypes.S fuel) i arg b flags c = Ok (err, c')) /\
    closing flags = false /\ l_pending <$> lives c !! i = Some false /\ gave_up flags i c err c') \/
  (exists c1, (forall b, destroyRegionNoThrow virt app (Datatypes.S fuel) i arg b flags c = destroy_finish app i arg b flags c1) /\
    l_pending <$> lives c !! i = Some false /\ cleared flags i c c1).
Proof.
  intros IH Hi Hord Hset. destruct (begin_step fuel i c arg flags Hi) as (n & Hln & [(Hp & c' & Hl & Ho & He)|(Hp & asked & c2 & Hl2 & Ho2 & Hne & Hcl & He)]);
    (assert (Hpi : l_pending <$> lives c !! i = Some (m_destroyPending (n_region n))) by (by rewrite Hln)); rewrite Hpi, Hp.
  - left. by exists c'.
  - right. destruct asked as [err|].
    + left. destruct (refused_step i c flags n Hln Hp c2 Hl2 Ho2 err) as (c4 & E4 & Hg); [congruence|].
      exists err, c4. split; [intros b; by rewrite He|]. split; [|done]. destruct (closing flags); [by specialize (Hcl eq_refl)|done].
    + destruct (rest_step fuel i c arg flags n Hln Hp Hord Hset IH c2 Hl2 Ho2) as [(err & c4 & E4 & Hg1 & Hg2)|(c1 & E1 & Hc)].
      * left. exists err, c4. split; [intros b; by rewrite He|done].
      * right. exists c1. split; [intros b; by rewrite He|done].
Qed.

Lemma settled_done i ls : ls !! i <> None -> settled i ls -> l_pending <$> ls !! i = Some true -> done ls ls i.
Proof.
  intros Hi Hs Hp. destruct (ls !! i) as [l|] eqn:El; [|done]. injection Hp as Hp.
  destruct (Hs i l (Nat.le_refl _) El Hp) as [Hd He]. intros k Hk. apply rtc_inv in Hk as [<-|(y & Hy & _)]; [by exists l|].
  exfalso. apply (no_sub ls i y); [by rewrite El, <- He|done].
Qed.

(** Enough fuel makes the destruction return, and it does what it says. *)
Lemma destroy_run fuel : forall i c arg flags,
  (length (lives c) - i < fuel)%nat -> (i < length (lives c))%nat -> ordered (lives c) -> settled i (lives c) ->
  exists err c', destroyRegionNoThrow virt app fuel i arg false flags c = Ok (err, c') /\
    destroys flags i c err c'.
Proof.
  induction fuel as [|fuel IH]; intros i c arg flags Hf Hi Hord Hset; [lia|].
  destruct (destroy_cases fuel i c arg flags) as
    [(c' & Hl & Ho & Hp & He)|[(err & c' & He & Hcl & _ & Hne & Ho & Hpr & Hfr & _)|(c1 & He & Hp & Ho & Hpr & Hfr & Hd & _)]];
    [|done|done|done| | |].
  - intros j c0 (HN & Ho0 & Hs0 & _) Hj. apply IH; [lia|lia|done|].
    intros k l Hk. apply Hs0. lia.
  - do 2 eexists. split; [apply He|]. split; [done|]. rewrite Hl. split; [apply progress_refl|]. split; [done|].
    split; [intros _; apply settled_done; [|done|done]; intros E0%lookup_ge_None; lia|].
    unfold may_succeed. destruct (CacheEventFlags.isCacheClose flags); [by left|done].
  - exists err, c'. split; [apply He|]. split; [done|]. split; [done|]. split; [done|].
    split; [rewrite Hcl; intros [?|?]; done|done].
  - destruct (finish_step i arg flags c1) as (err & c' & Hfin & Hl & Ho').
    { rewrite <- length_lives, <- (length_alter finished _ i), (pg_len _ _ Hpr). lia. }
    exists err, c'. split; [by rewrite He, Hfin|]. split; [congruence|]. rewrite Hl. split; [done|].
    split; [|split; [done|]].
    + intros k Hk. rewrite list_lookup_alter_ne; [by apply Hfr|]. intros ->. apply Hk, rtc_refl.
    + intros _. right. intros (l & Hl' & Hd' & _). rewrite Hl' in Hp. injection Hp as Hp. congruence.
Qed.

End TreeFacts.
