(* ===== verification/RegionTreeClaims.v ===== *)
(** The theorems about the tree of regions: paths, the destruction of regions, the closing of the
    cache, and timers of regions that are gone. *)
From S2P Require Import Prelude Versions ExceptionTypes ExpiryTaskManager MapEntry EntriesMap LocalRegion RegionTree RegionTreeFacts.
From stdpp Require Import relations.
Import LocalRegion CacheImpl.
Local Open Scope Z_scope.

(** *** Paths *)

Lemma find_slash_app s rest : find_slash s = None -> find_slash (s ++ slash :: rest) = Some (length s).
Proof.
  induction s as [|x s IH]; simpl; [done|]. destruct (x =? slash); [done|].
  destruct (find_slash s) eqn:E; [done|]. intros _. by rewrite IH.
Qed.

Lemma find_slash_head s x rest : find_slash (x :: s) = None -> strip (x :: s ++ rest) = x :: s ++ rest.
Proof. simpl. by destruct (x =? slash). Qed.

(** A path below a region. *)
Definition below (names : list bytes) : bytes := concat ((fun s => slash :: s) <$> names).

Lemma step_alone s : find_slash s = None -> stepname s = s.
Proof. intros E. unfold stepname. by rewrite E. Qed.
Lemma step_below s s' names : find_slash s = None -> stepname (s ++ below (s' :: names)) = s.
Proof.
  intros E. unfold stepname. change (below (s' :: names)) with (slash :: s' ++ below names).
  rewrite find_slash_app by done. rewrite take_app_le by done. by rewrite take_ge.
Qed.
Lemma drop_below s s' names : drop (length s + 1) (s ++ below (s' :: names)) = s' ++ below names.
Proof. rewrite drop_app_ge by lia. by replace (length s + 1 - length s)%nat with 1%nat by lia. Qed.

Lemma find_name_in name i l : NoDup (l.*1) -> (name, i) ∈ l -> find_name name l = Some i.
Proof.
  induction l as [|[s j] l IH]; intros Hn Hin; [by apply elem_of_nil in Hin|]. cbn in Hn |- *.
  apply NoDup_cons in Hn as [Hs Hn]. apply elem_of_cons in Hin as [[= <- <-]|Hin]; [by rewrite decide_True|].
  rewrite decide_False; [by apply IH|]. intros ->. apply Hs. apply list_elem_of_fmap. by exists (name, i).
Qed.

Lemma find_name_none name l : find_name name l = None -> name ∉ l.*1.
Proof.
  induction l as [|[s j] l IH]; [intros _; apply not_elem_of_nil|]. cbn. destruct (decide (s = name)); [done|].
  intros Hf. apply not_elem_of_cons. split; [congruence|by apply IH].
Qed.

Section Claims.
Context {M K V D A E : Type} `{HM : EntriesMap M K V D}.
Abbreviation R := (LocalRegion.t M K V A).
Abbreviation C := (CacheImpl.t M K V A).
Context (virt : Virtuals M K V A E) (app : Callbacks K V A).
Context (createMap : RegionAttributes -> M).
Implicit Types (c : C) (r : R) (i j k : nat).

(** *** The invariant *)

Record tree_inv c : Prop := {
  ti_ordered : ordered (lives c);
  ti_settled : settled 0 (lives c);
  ti_names : forall i l, lives c !! i = Some l -> NoDup (l_subs l).*1;
  ti_sub : forall i l s j l', lives c !! i = Some l -> (s, j) ∈ l_subs l -> lives c !! j = Some l' ->
    l_name l' = s /\ l_parent l' = Some i /\ l_path l' = l_path l ++ slash :: s;
  ti_slash : forall i l, lives c !! i = Some l -> find_slash (l_name l) = None;
  ti_parent : forall i l p, lives c !! i = Some l -> l_parent l = Some p -> (p < i)%nat;
  ti_root : forall s i, (s, i) ∈ m_regions c ->
    exists l, lives c !! i = Some l /\ l_name l = s /\ l_parent l = None /\ l_path l = slash :: s;
  ti_roots : NoDup (m_regions c).*1
}.

Lemma subs_of c i l j s : lives c !! i = Some l -> (s, j) ∈ l_subs l -> tree_inv c ->
  exists l', lives c !! j = Some l' /\ (i < j)%nat.
Proof.
  intros Hl Hs Hi. assert (Hlt : (i < j < length (lives c))%nat) by (apply (ti_ordered c Hi); by exists l, s).
  destruct (lookup_lt_is_Some_2 (lives c) j) as [l' Hl']; [lia|]. exists l'. split; [done|lia].
Qed.

(** The path of a region: the names from the root on, none of them empty, and no region in
    between is destroyed. *)
Inductive walk c : nat -> list bytes -> nat -> Prop :=
| walk_here i : walk c i [] i
| walk_down i l s j names k :
  lives c !! i = Some l -> l_pending l = false -> s <> [] -> (s, j) ∈ l_subs l -> walk c j names k ->
  walk c i (s :: names) k.

Lemma node_of c i l : lives c !! i = Some l -> exists n, nodes c !! i = Some n /\ life n = l.
Proof. rewrite lives_lookup. destruct (nodes c !! i) as [n|]; [|done]. intros [= <-]. by exists n. Qed.

Lemma length_below names : (length (below names) = sum_list (length <$> names) + length names)%nat.
Proof. induction names as [|s names IH]; [done|]. cbn. rewrite length_app. fold (below names). rewrite IH. lia. Qed.

Lemma getSubregion_walk c names : tree_inv c -> forall fuel i s k,
  walk c i (s :: names) k -> (length names < fuel)%nat ->
  getSubregion_loop fuel i (s ++ below names) c = Ok (Some k, c).
Proof.
  intros Hi. induction names as [|s' names IH]; intros fuel i s k Hw Hf; (destruct fuel as [|fuel]; [simpl in Hf; lia|]);
    inversion Hw as [|? l ? j ? ? Hl Hp Hne Hs Hrest]; subst; destruct (node_of c i l Hl) as (n & Hn & <-);
    destruct (subs_of c i _ j s Hl Hs Hi) as (l' & Hl' & Hlt);
    (assert (Hslash : find_slash s = None) by (destruct (ti_sub c Hi _ _ _ _ _ Hl Hs Hl') as [<- _]; by eapply ti_slash));
    cbn [getSubregion_loop]; unfold check_region, mbind, ST_bind; rewrite (node_step _ _ _ Hn); simpl in Hp; rewrite Hp;
    (destruct s as [|x s]; [done|]); rewrite decide_False by (by intros [[= -> ?]|]; destruct s);
    rewrite <- app_comm_cons, find_slash_head, app_comm_cons by done; rewrite (node_step _ _ _ Hn).
  - assert (Hf' : find_name (x :: s) (m_subRegions n) = Some j) by (apply find_name_in; [by eapply (ti_names c Hi i (life n))|done]).
    change (below []) with (@nil Z). rewrite app_nil_r, step_alone, Hf', decide_True by done.
    inversion Hrest; by subst.
  - assert (Hf' : find_name (x :: s) (m_subRegions n) = Some j) by (apply find_name_in; [by eapply (ti_names c Hi i (life n))|done]).
    rewrite step_below, Hf' by done. rewrite decide_False.
    + rewrite drop_below. apply IH; [done|]. simpl in Hf. lia.
    + intros He%(f_equal length). rewrite length_app in He. cbn in He. lia.
Qed.
Lemma walk_path c i names k l l' : tree_inv c -> walk c i names k -> lives c !! i = Some l -> lives c !! k = Some l' ->
  l_path l' = l_path l ++ below names.
Proof.
  intros Hi Hw. revert l. induction Hw as [i|i l0 s j names k Hl Hp Hne Hs Hw IH]; intros l Hl1 Hk.
  - rewrite app_nil_r. congruence.
  - destruct (subs_of c i l0 j s Hl Hs Hi) as (lj & Hj & _). rewrite (IH lj Hj Hk).
    destruct (ti_sub c Hi _ _ _ _ _ Hl Hs Hj) as (_ & _ & ->). replace l0 with l by congruence.
    change (below (s :: names)) with ((slash :: s) ++ below names). by rewrite app_assoc.
Qed.

(** C9. A region is found by its full path, for every region that is linked to a root
    region by subregions with nonempty names of which none above it is destroyed; the lookup
    changes nothing. *)
Theorem region_by_path c s i names k n :
  tree_inv c -> m_closed c = false -> c_destroyPending c = false ->
  (s, i) ∈ m_regions c -> s <> [] -> walk c i names k -> nodes c !! k = Some n ->
  getRegion (m_fullPath n) c = Ok (Some k, c).
Proof.
  intros Hi Hc Hd Hr Hs Hw Hn. destruct (ti_root c Hi s i Hr) as (l & Hl & Hname & _ & Hpath).
  assert (Hsl : find_slash s = None) by (rewrite <- Hname; by eapply ti_slash).
  assert (Hf : m_fullPath n = slash :: s ++ below names).
  { change (m_fullPath n) with (l_path (life n)). rewrite (walk_path c i names k l (life n) Hi Hw Hl); [by rewrite Hpath|].
    by rewrite lives_lookup, Hn. }
  unfold getRegion, throwIfClosed, mbind, ST_bind, st_get. rewrite Hc. unfold mret, ST_ret. rewrite Hd, Hf.
  destruct s as [|x s]; [done|]. rewrite decide_False by (by intros [[= ?]|]).
  change (strip (slash :: (x :: s) ++ below names)) with ((x :: s) ++ below names).
  assert (Hfind : find_name (x :: s) (m_regions c) = Some i) by (apply find_name_in; [apply (ti_roots c Hi)|done]).
  destruct names as [|s' names].
  - change (below []) with (@nil Z). rewrite app_nil_r, step_alone, Hfind, decide_True by done. by inversion Hw.
  - rewrite step_below, Hfind by done. rewrite decide_False, drop_below.
    + unfold getSubregion. apply getSubregion_walk; [done|done|]. rewrite length_app, length_below. lia.
    + intros He%(f_equal length). rewrite length_app in He. cbn in He. lia.
Qed.

(** *** Destruction *)

Definition erase_sub (name : bytes) (l : @Life M) : Life :=
  mkLife (l_name l) (l_path l) (l_parent l) (erase_name name (l_subs l)) (l_attributes l) (l_pending l) (l_released l)
    (l_entries l).

Lemma erase_in name s j (subs : list (bytes * nat)) : (s, j) ∈ erase_name name subs <-> (s, j) ∈ subs /\ s <> name.
Proof.
  unfold erase_name. rewrite !list_elem_of_In, filter_In, negb_true_iff, bool_decide_eq_false. done.
Qed.

Lemma erase_NoDup name (subs : list (bytes * nat)) : NoDup subs.*1 -> NoDup (erase_name name subs).*1.
Proof.
  induction subs as [|[s j] subs IH]; [done|]. cbn. intros [Hs Hn]%NoDup_cons. specialize (IH Hn).
  destruct (bool_decide (s = name)); cbn; [done|]. apply NoDup_cons. split; [|done].
  intros Hin. apply Hs. apply list_elem_of_fmap in Hin as ([s' j'] & -> & Hin). apply erase_in in Hin as [Hin _].
  apply list_elem_of_fmap. by exists (s', j').
Qed.

(** The region [i] is no longer among the subregions of its parent, or among the roots. *)
Definition detached i c1 c' : Prop :=
  exists l, lives c1 !! i = Some l /\
  match l_parent l with
  | Some p => lives c' = alter (erase_sub (l_name l)) p (lives c1) /\ others c' = others c1
  | None => lives c' = lives c1 /\
    m_regions c' = (if c_destroyPending c1 then m_regions c1 else erase_name (l_name l) (m_regions c1)) /\
    (c_destroyPending c', m_closed c', statisticsEnabled c', timers c') =
    (c_destroyPending c1, m_closed c1, statisticsEnabled c1, timers c1)
  end.

Context (Hquiet : quiet_virtuals virt).

Lemma detach_step i flags c1 l : lives c1 !! i = Some l -> (forall p, l_parent l = Some p -> (p < length (lives c1))%nat) ->
  exists c', (n ← node i;
     match m_parentRegion n with
     | None => removeRegion (m_name n)
     | Some p =>
       removeSubregion p (m_name n);;
       if CacheEventFlags.isEvictOrExpire flags then mret tt else on_region p (updateAccessAndModifiedTime true)
     end) c1 = Ok (tt, c') /\ detached i c1 c'.
Proof.
  intros Hl Hp. destruct (node_of c1 i l Hl) as (n & Hn & Hln). unfold detached.
  rewrite (st_bind_ok _ _ _ _ _ (node_step _ _ _ Hn)).
  assert (Hpar : m_parentRegion n = l_parent l) by (by subst l). assert (Hnm : m_name n = l_name l) by (by subst l).
  rewrite Hpar, Hnm. destruct (l_parent l) as [p|] eqn:Epar.
  - set (c2 := with_nodes (alter (fun n => set_subs (erase_name (l_name l) (m_subRegions n)) n) p (nodes c1)) c1).
    assert (Hl2 : lives c2 = alter (erase_sub (l_name l)) p (lives c1)) by (by apply lives_alter).
    assert (E2 : removeSubregion p (l_name l) c1 = Ok (tt, c2)) by done.
    rewrite (st_bind_ok _ _ _ _ _ E2). destruct (CacheEventFlags.isEvictOrExpire flags).
    + exists c2. split; [done|]. exists l. by rewrite Epar.
    + destruct (on_region_quiet _ p c2 (quiet_touch true)) as ([] & c3 & E3 & Hl3 & Ho3).
      { rewrite <- length_lives, Hl2, length_alter. by apply Hp. }
      exists c3. rewrite E3. split; [done|]. exists l. rewrite Epar. split; [done|]. split; [by rewrite Hl3|by rewrite Ho3].
  - eexists. split; [reflexivity|]. exists l. rewrite Epar. split; [done|]. unfold removeRegion.
    destruct (c_destroyPending c1) eqn:Ed; cbn; rewrite ?Ed; done.
Qed.

Lemma progress_back c c' i l' : progress (lives c) (lives c') -> lives c' !! i = Some l' ->
  exists l, lives c !! i = Some l /\ static l' = static l /\ (l_subs l' = l_subs l \/ l_subs l' = []).
Proof.
  intros Hp Hl'. pose proof (pg_static _ _ Hp i) as Hs. rewrite Hl' in Hs. destruct (lives c !! i) as [l|] eqn:El; [|done].
  injection Hs as Hs1 Hs2 Hs3 Hs4. exists l. split; [done|]. split; [unfold static; congruence|].
  destruct (pg_node _ _ Hp i) as [[_ He]|[_ He]]; [rewrite Hl' in He; injection He; by right|].
  unfold same_subs in He. rewrite Hl', El in He. destruct He as [[= He]|[[= He] _]]; [by left|by right].
Qed.

Lemma tree_inv_progress c c' :
  tree_inv c -> progress (lives c) (lives c') -> m_regions c' = m_regions c -> tree_inv c'.
Proof.
  intros Hi Hp Hr. constructor.
  - by eapply progress_ordered, ti_ordered.
  - by eapply progress_settled, ti_settled.
  - intros i l' Hl'. destruct (progress_back c c' i l' Hp Hl') as (l & Hl & _ & [->| ->]); [by eapply ti_names|by constructor].
  - intros i l1 s j l2 Hl1 Hs Hl2. destruct (progress_back c c' i l1 Hp Hl1) as (l1' & Hl1' & [= _ Ep _ _] & He).
    destruct (progress_back c c' j l2 Hp Hl2) as (l2' & Hl2' & [= -> -> -> _] & _). rewrite Ep.
    destruct He as [He|He]; rewrite He in Hs; [by eapply ti_sub|by apply elem_of_nil in Hs].
  - intros i l' Hl'. destruct (progress_back c c' i l' Hp Hl') as (l & Hl & [= -> _ _ _] & _). by eapply ti_slash.
  - intros i l' p Hl'. destruct (progress_back c c' i l' Hp Hl') as (l & Hl & [= _ _ -> _] & _). by eapply ti_parent.
  - intros s i. rewrite Hr. intros Hin. destruct (ti_root c Hi s i Hin) as (l & Hl & H1 & H2 & H3).
    pose proof (pg_static _ _ Hp i) as Hs. rewrite Hl in Hs. destruct (lives c' !! i) as [l'|] eqn:El'; [|done].
    injection Hs as Hs1 Hs2 Hs3 Hs4. exists l'. split; [done|]. split; [congruence|]. split; congruence.
  - rewrite Hr. by apply ti_roots.
Qed.

(** Fewer subregions and fewer roots. *)
Definition place (l : @Life M) := (l_name l, l_path l, l_parent l).

Lemma tree_inv_fewer c c' :
  tree_inv c -> length (lives c') = length (lives c) ->
  (forall i l', lives c' !! i = Some l' -> exists l, lives c !! i = Some l /\ place l' = place l /\
    (l_pending l' = true -> l_pending l = true) /\ (dead l -> dead l') /\
    (forall s j, (s, j) ∈ l_subs l' -> (s, j) ∈ l_subs l) /\ (NoDup (l_subs l).*1 -> NoDup (l_subs l').*1)) ->
  (forall s i, (s, i) ∈ m_regions c' -> (s, i) ∈ m_regions c) -> (NoDup (m_regions c).*1 -> NoDup (m_regions c').*1) ->
  tree_inv c'.
Proof.
  intros Hi Hlen Hback Hroots Hnd. constructor.
  - intros i j (l' & s & Hl' & Hs). destruct (Hback i l' Hl') as (l & Hl & _ & _ & _ & Hin & _). rewrite Hlen.
    apply (ti_ordered c Hi). exists l, s. auto.
  - intros i l' Hge Hl' Hp. destruct (Hback i l' Hl') as (l & Hl & _ & Ep & Ed & Hin & _).
    destruct (ti_settled c Hi i l Hge Hl) as [Hd Hn]; [by apply Ep|]. split.
    + by apply Ed.
    + destruct (l_subs l') as [|[s j] subs] eqn:Es; [done|]. specialize (Hin s j (list_elem_of_here _ _)). rewrite Hn in Hin.
      by apply elem_of_nil in Hin.
  - intros i l' Hl'. destruct (Hback i l' Hl') as (l & Hl & _ & _ & _ & _ & Hn). by eapply Hn, ti_names.
  - intros i l1 s j l2 Hl1 Hs Hl2. destruct (Hback i l1 Hl1) as (l1' & Hl1' & [= _ Ep _] & _ & _ & Hin & _).
    destruct (Hback j l2 Hl2) as (l2' & Hl2' & [= -> -> ->] & _). rewrite Ep. eapply ti_sub; eauto.
  - intros i l' Hl'. destruct (Hback i l' Hl') as (l & Hl & [= -> _ _] & _). by eapply ti_slash.
  - intros i l' p Hl'. destruct (Hback i l' Hl') as (l & Hl & [= _ _ ->] & _). by eapply ti_parent.
  - intros s i Hin%Hroots. destruct (ti_root c Hi s i Hin) as (l & Hl & H1 & H2 & H3).
    destruct (lookup_lt_is_Some_2 (lives c') i) as [l' Hl']; [rewrite Hlen; by eapply lookup_lt_Some|].
    destruct (Hback i l' Hl') as (l0 & Hl0 & [= E1 E2 E3] & _). exists l'. simplify_eq. split; [done|]. split; [congruence|]. split; congruence.
  - by apply Hnd, ti_roots.
Qed.

Lemma tree_inv_detached i c1 c' : tree_inv c1 -> detached i c1 c' -> tree_inv c'.
Proof.
  intros Hi (l & Hl & Hd). destruct (l_parent l) as [p|].
  - destruct Hd as [Hl' [= Hr _ _ _ _]]. apply (tree_inv_fewer c1); [done| | | |].
    + by rewrite Hl', length_alter.
    + intros j l'. rewrite Hl'. destruct (decide (p = j)) as [->|Hne].
      * rewrite list_lookup_alter_eq. destruct (lives c1 !! j) as [lj|]; [|done]. intros [= <-]. exists lj.
        do 4 (split; [done|]). split; [intros s k [? _]%erase_in; done|]. apply erase_NoDup.
      * rewrite list_lookup_alter_ne by done. intros Hj. exists l'. done.
    + by rewrite Hr.
    + by rewrite Hr.
  - destruct Hd as (Hl' & Hr & _). apply (tree_inv_fewer c1); [done|by rewrite Hl'| | |]; rewrite ?Hr, ?Hl'.
    + intros j l' Hj. by exists l'.
    + destruct (c_destroyPending c1); [done|]. by intros s j [? _]%erase_in.
    + destruct (c_destroyPending c1); [done|]. apply erase_NoDup.
Qed.

Lemma destroy_children c arg flags i j c1 :
  loop_ready i (length (lives c)) c1 [] -> (i < j < length (lives c1))%nat ->
  exists err c', destroyRegionNoThrow virt app (length (nodes c)) j arg false (Z.lor flags CacheEventFlags.LOCAL) c1 = Ok (err, c') /\
    destroys (Z.lor flags CacheEventFlags.LOCAL) j c1 err c'.
Proof.
  intros (HN & Ho0 & Hs0 & _) Hj. apply destroy_run; [done| |lia|done|].
  - rewrite HN, length_lives in *. lia.
  - intros k l Hk. apply Hs0. lia.
Qed.

(** A destruction on behalf of the application: it is refused, it fails half way, or the region
    is gone and its parent does not know it any more. *)
Lemma destroy_top i c arg flags : tree_inv c -> (i < length (lives c))%nat ->
  exists err c', destroyRegionNoThrow virt app (fuel_of c) i arg true flags c = Ok (err, c') /\
    ((lives c' = lives c /\ others c' = others c /\ l_pending <$> lives c !! i = Some true /\
      err = (if CacheEventFlags.isCacheClose flags then GF_NOERR else GF_CACHE_REGION_DESTROYED_EXCEPTION)) \/
     (l_pending <$> lives c !! i = Some false /\ gave_up flags i c err c') \/
     (exists c1, l_pending <$> lives c !! i = Some false /\ destroys flags i c err c1 /\
       done (lives c) (lives c1) i /\ (forall k, sub (lives c) i k -> may_succeed flags k c) /\ detached i c1 c')).
Proof.
  intros Hi Hlt. unfold fuel_of.
  destruct (destroy_cases virt app Hquiet (length (nodes c)) i c arg flags) as
    [(c' & Hl & Ho & Hp & He)|[(err & c' & He & Hcl & Hp & Hg)|(c1 & He & Hp & Ho & Hpr & Hfr & Hd & Hms)]].
  - apply destroy_children.
  - done.
  - apply (ti_ordered c Hi).
  - intros j l Hj. apply (ti_settled c Hi). lia.
  - do 2 eexists. split; [apply He|]. by left.
  - exists err, c'. split; [apply He|]. right. by left.
  - destruct (finish_step app i arg flags c1) as (err & c2 & Hfin & Hl & Ho').
    { rewrite <- length_lives, <- (length_alter finished _ i), (pg_len _ _ Hpr). lia. }
    assert (Hds : destroys flags i c err c2).
    { split; [congruence|]. rewrite Hl. split; [done|]. split; [|split; [done|]].
      - intros k Hk. rewrite list_lookup_alter_ne; [by apply Hfr|]. intros ->. apply Hk, rtc_refl.
      - intros _. right. intros (l & Hl' & Hd' & _). rewrite Hl' in Hp. injection Hp as Hp. congruence. }
    assert (Hpr2 : progress (lives c) (lives c2)) by apply Hds.
    destruct (lookup_lt_is_Some_2 (lives c2) i) as [l2 Hl2]; [by rewrite (pg_len _ _ Hpr2)|].
    destruct (detach_step i flags c2 l2 Hl2) as (c' & Ed & Hdet).
    { intros p Hpp. destruct (progress_back c c2 i l2 Hpr2 Hl2) as (l0 & Hl0 & [= _ _ E3 _] & _).
      rewrite E3 in Hpp. pose proof (ti_parent c Hi i l0 p Hl0 Hpp). rewrite (pg_len _ _ Hpr2). lia. }
    exists err, c'. split; [rewrite He, Hfin; by rewrite (st_bind_ok _ _ _ _ _ Ed)|].
    right. right. exists c2. split; [done|]. split; [done|]. by rewrite Hl.
Qed.

Lemma destroy_top_inv i c err c' flags :
  tree_inv c ->
  ((lives c' = lives c /\ others c' = others c /\ l_pending <$> lives c !! i = Some true /\
    err = (if CacheEventFlags.isCacheClose flags then GF_NOERR else GF_CACHE_REGION_DESTROYED_EXCEPTION)) \/
   (l_pending <$> lives c !! i = Some false /\ gave_up flags i c err c') \/
   (exists c1, l_pending <$> lives c !! i = Some false /\ destroys flags i c err c1 /\
     done (lives c) (lives c1) i /\ (forall k, sub (lives c) i k -> may_succeed flags k c) /\ detached i c1 c')) ->
  tree_inv c'.
Proof.
  intros Hi [(Hl & [= Hr _ _ _ _] & _)|[(_ & _ & [= Hr _ _ _ _] & Hp & _)|(c1 & _ & ([= Hr _ _ _ _] & Hp & _) & _ & _ & Hd)]].
  - apply (tree_inv_progress c); [done|rewrite Hl; apply progress_refl|done].
  - by apply (tree_inv_progress c).
  - apply (tree_inv_detached i c1); [by apply (tree_inv_progress c)|done].
Qed.

(** What the other regions keep; the parent of a destroyed region forgets its name. *)
Definition kept (name : bytes) (parent : option nat) k (l l' : @Life M) : Prop :=
  static l' = static l /\ l_pending l' = l_pending l /\ l_released l' = l_released l /\ l_entries l' = l_entries l /\
  (l_subs l' = l_subs l \/ (parent = Some k /\ l_subs l' = erase_name name (l_subs l))).

Lemma detached_kept i c1 c' l k lk : lives c1 !! i = Some l -> detached i c1 c' -> lives c1 !! k = Some lk ->
  exists lk', lives c' !! k = Some lk' /\ kept (l_name l) (l_parent l) k lk lk'.
Proof.
  intros Hl (l0 & Hl0 & Hd) Hk. rewrite Hl in Hl0. injection Hl0 as <-. destruct (l_parent l) as [p|] eqn:Ep.
  - destruct Hd as [-> _]. destruct (decide (p = k)) as [->|Hne].
    + eexists. rewrite list_lookup_alter_eq, Hk. split; [done|]. do 4 (split; [done|]). by right.
    + exists lk. rewrite list_lookup_alter_ne by done. split; [done|]. do 4 (split; [done|]). by left.
  - destruct Hd as [-> _]. exists lk. split; [done|]. do 4 (split; [done|]). by left.
Qed.

Lemma detached_gone i c1 c' : tree_inv c1 -> detached i c1 c' ->
  (forall p, ~ sub (lives c') p i) /\ (c_destroyPending c1 = false -> forall s, (s, i) ∉ m_regions c').
Proof.
  intros Hi (l & Hl & Hd). split.
  - intros p (lp & s & Hp & Hs). destruct (l_parent l) as [q|] eqn:Eq.
    + destruct Hd as [Hl' _]. rewrite Hl' in Hp. destruct (decide (q = p)) as [->|Hne].
      * rewrite list_lookup_alter_eq in Hp. destruct (lives c1 !! p) as [lp0|] eqn:Ep; [|done]. injection Hp as <-.
        apply erase_in in Hs as [Hs Hne]. by destruct (ti_sub c1 Hi _ _ _ _ _ Ep Hs Hl) as [He _].
      * rewrite list_lookup_alter_ne in Hp by done. destruct (ti_sub c1 Hi _ _ _ _ _ Hp Hs Hl) as (_ & He & _). congruence.
    + destruct Hd as [Hl' _]. rewrite Hl' in Hp. destruct (ti_sub c1 Hi _ _ _ _ _ Hp Hs Hl) as (_ & He & _). congruence.
  - intros Hcp s Hs. destruct (l_parent l) as [q|] eqn:Eq.
    + destruct Hd as [_ [= Hr _ _ _ _]]. rewrite Hr in Hs. destruct (ti_root c1 Hi s i Hs) as (l' & Hl' & _ & He & _). congruence.
    + destruct Hd as (_ & Hr & _). rewrite Hcp in Hr. rewrite Hr in Hs. apply erase_in in Hs as [Hs Hne].
      destruct (ti_root c1 Hi s i Hs) as (l' & Hl' & He & _). congruence.
Qed.

(** C7. The destruction of a region, with any flags but those of a closing cache and whatever
    writers, listeners and servers answer, returns. If it succeeds, the region and all regions
    below it are destroyed and released and have no entries, and neither a region nor the
    cache has the region any more. In any case all other regions keep their flags and
    entries, and their subregions but for the region that was destroyed. *)
Theorem destroy_region_complete i c n arg flags :
  tree_inv c -> nodes c !! i = Some n -> CacheEventFlags.isCacheClose flags = false ->
  exists err c', destroyRegionNoThrow virt app (fuel_of c) i arg true flags c = Ok (err, c') /\ tree_inv c' /\
    (err = GF_NOERR ->
      (forall k, reach (lives c) i k -> dead_at (lives c') k) /\
      (forall p, ~ sub (lives c') p i) /\ (c_destroyPending c = false -> forall s, (s, i) ∉ m_regions c')) /\
    (forall k l, ~ reach (lives c) i k -> lives c !! k = Some l ->
      exists l', lives c' !! k = Some l' /\ kept (m_name n) (m_parentRegion n) k l l').
Proof.
  intros Hi Hn Hfl. assert (Hln : lives c !! i = Some (life n)) by (by rewrite lives_lookup, Hn).
  destruct (destroy_top i c arg flags Hi) as (err & c' & He & Hc); [by eapply lookup_lt_Some|].
  exists err, c'. split; [done|]. split; [by eapply destroy_top_inv|]. rewrite Hfl in Hc.
  destruct Hc as [(Hl & Ho & Hp & ->)|[(_ & Hne & _ & _ & Hfr & _)|(c1 & _ & (Hot & Hpr & Hfr & _) & Hd & _ & Hdet)]].
  - split; [done|]. intros k l _ Hk. exists l. rewrite Hl. split; [done|]. do 4 (split; [done|]). by left.
  - split; [done|]. intros k l Hk Hlk. exists l. rewrite (Hfr k Hk). split; [done|]. do 4 (split; [done|]). by left.
  - assert (Hi1 : tree_inv c1) by (apply (tree_inv_progress c); [done|done|by injection Hot]).
    destruct (lookup_lt_is_Some_2 (lives c1) i) as [l1 Hl1]; [rewrite (pg_len _ _ Hpr); by eapply lookup_lt_Some|].
    destruct (progress_back c c1 i l1 Hpr Hl1) as (l0 & Hl0 & [= En _ Epar _] & _). rewrite Hln in Hl0. injection Hl0 as <-.
    split.
    + intros _. destruct (detached_gone i c1 c' Hi1 Hdet) as [Hg1 Hg2]. split; [|split; [done|]].
      * intros k (lk & Hlk & Hdk)%Hd. destruct (detached_kept i c1 c' l1 k lk Hl1 Hdet Hlk) as (lk' & Hlk' & [= _ _ _ Ea] & E1 & E2 & E3 & _).
        exists lk'. split; [done|]. unfold dead in *. by rewrite Ea, E1, E2, E3.
      * injection Hot as _ Ecp _ _ _. rewrite <- Ecp. done.
    + intros k l Hk Hlk. rewrite <- (Hfr k Hk) in Hlk.
      destruct (detached_kept i c1 c' l1 k l Hl1 Hdet Hlk) as (l' & Hl' & Hkept). exists l'. split; [done|].
      by rewrite En, Epar in Hkept.
Qed.

(** A region one of whose subregions is destroyed but still listed can never be destroyed
    again, except by closing the cache: every destruction fails, the region stays as it is and
    the destroyed subregion stays listed. (A subregion gets there when its listener throws, or
    when the destruction of the next subregion fails.) *)
Theorem dead_subregion_blocks i c l s j arg flags :
  tree_inv c -> lives c !! i = Some l -> l_pending l = false -> (s, j) ∈ l_subs l -> dead_at (lives c) j ->
  CacheEventFlags.isCacheClose flags = false ->
  exists err c' l', destroyRegionNoThrow virt app (fuel_of c) i arg true flags c = Ok (err, c') /\ err <> GF_NOERR /\
    tree_inv c' /\ lives c' !! i = Some l' /\ l_pending l' = false /\ (s, j) ∈ l_subs l' /\ dead_at (lives c') j.
Proof.
  intros Hi Hl Hp Hs Hd Hfl. destruct (destroy_top i c arg flags Hi) as (err & c' & He & Hc); [by eapply lookup_lt_Some|].
  assert (Hsub : sub (lives c) i j) by (by exists l, s). pose proof (destroy_top_inv i c err c' flags Hi Hc) as Hi'.
  assert (Hno : ~ may_succeed flags j c) by (intros [?|?]; congruence).
  destruct Hc as [(_ & _ & Hpt & _)|[(_ & Hne & _ & Hpr & _ & Hk)|(c1 & _ & _ & _ & Hms & _)]].
  - rewrite Hl in Hpt. injection Hpt. congruence.
  - destruct (Hk j Hsub) as [(l' & s' & Hl' & Hs')|]; [|done]. exists err, c', l'. split; [done|]. split; [done|]. split; [done|].
    split; [done|]. assert (s' = s) as ->.
    { destruct (subs_of c' i l' j s' Hl' Hs' Hi') as (lj & Hj & _). destruct (ti_sub c' Hi' _ _ _ _ _ Hl' Hs' Hj) as [<- _].
      destruct (progress_back c c' j lj Hpr Hj) as (lj0 & Hj0 & [= -> _ _ _] & _).
      by destruct (ti_sub c Hi _ _ _ _ _ Hl Hs Hj0) as [<- _]. }
    split; [|split; [done|by apply (pg_dead _ _ Hpr)]].
    destruct (pg_node _ _ Hpr i) as [[_ Hem]|[Hpe _]].
    + destruct (no_sub (lives c') i j Hem). by exists l', s.
    + rewrite Hl, Hl' in Hpe. injection Hpe. congruence.
  - destruct (Hno (Hms j Hsub)).
Qed.

(** *** Closing the cache *)

Lemma close_loop fuel (roots : list (bytes * nat)) : forall c,
  ordered (lives c) -> settled 0%nat (lives c) -> (length (lives c) < fuel)%nat ->
  (forall s i, (s, i) ∈ roots -> (i < length (lives c))%nat) ->
  exists c', st_iter (fun si : bytes * nat => destroyRegionNoThrow virt app fuel si.2 None false close_flags;; mret tt) roots c
      = Ok (tt, c') /\ others c' = others c /\ progress (lives c) (lives c') /\
    forall s i, (s, i) ∈ roots -> done (lives c) (lives c') i.
Proof.
  induction roots as [|[s i] roots IH]; intros c Ho Hs Hf Hlt.
  - exists c. split; [done|]. split; [done|]. split; [apply progress_refl|]. intros s i Hn. by apply elem_of_nil in Hn.
  - destruct (destroy_run virt app Hquiet fuel i c None close_flags) as (err & c1 & He & Hot & Hp & _ & Hd & _).
    + lia.
    + apply (Hlt s), list_elem_of_here.
    + done.
    + intros j l Hj. apply Hs. lia.
    + destruct (IH c1) as (c' & Hc' & Ho' & Hp' & Hdone).
      * by eapply progress_ordered.
      * by eapply progress_settled.
      * by rewrite (pg_len _ _ Hp).
      * intros s' j Hj. rewrite (pg_len _ _ Hp). apply (Hlt s'). by apply list_elem_of_further.
      * exists c'. cbn [st_iter]. unfold mbind, ST_bind in Hc' |- *. cbn [snd]. rewrite He. split; [done|]. split; [congruence|].
        split; [by eapply progress_trans|]. intros s' j [[= -> ->]|Hj]%elem_of_cons.
        -- intros k Hk. apply (pg_dead _ _ Hp'), Hd; [by right|done].
        -- eapply done_back; [done|apply (pg_dead _ _ Hp')|]. by eapply Hdone.
Qed.

(** The parts that are closed before the regions. *)
Definition early (sv : Services) : outcome unit :=
  sv_queryService sv;; sv_adminRegion sv;; sv_connections sv.

(** The state after the loop over the root regions. *)
Lemma close_regions c : tree_inv c ->
  exists c1, st_iter (fun si : bytes * nat => destroyRegionNoThrow virt app (fuel_of c) si.2 None false close_flags;; mret tt)
      (m_regions c) (with_closing true (m_closed c) c) = Ok (tt, c1) /\
    others c1 = others (with_closing true (m_closed c) c) /\ progress (lives c) (lives c1) /\
    forall s i, (s, i) ∈ m_regions c -> done (lives c) (lives c1) i.
Proof.
  intros Hi. set (c0 := with_closing true (m_closed c) c).
  apply (close_loop (fuel_of c) (m_regions c) c0).
  - apply (ti_ordered c Hi).
  - apply (ti_settled c Hi).
  - unfold fuel_of. rewrite !length_lives. simpl. lia.
  - intros s i Hin. destruct (ti_root c Hi s i Hin) as (l & Hl & _). by eapply lookup_lt_Some.
Qed.

(** [close] of a cache that is in use: how far it gets. *)
Lemma close_cases sv c : tree_inv c -> m_closed c = false -> c_destroyPending c = false ->
  exists c1, others c1 = (m_regions c, true, false, statisticsEnabled c, timers c) /\ progress (lives c) (lives c1) /\
    (forall s i, (s, i) ∈ m_regions c -> done (lives c) (lives c1) i) /\
    close virt app sv c =
      match sv_notify sv with
      | Throw e => (Throw e, c)
      | Ok _ =>
        if negb (m_initialized sv) then (Ok tt, with_closing true false c)
        else match early sv with
             | Throw e => (Throw e, with_closing true false c)
             | Ok _ =>
               match sv_pools sv with
               | Throw e => (Throw e, c1)
               | Ok _ =>
                 match ExpiryTaskManager.stop (timers c) with
                 | Throw e => (Throw e, with_roots [] c1)
                 | Ok ts => (Ok tt, with_closing true true (with_timers ts (with_roots [] c1)))
                 end
               end
             end
      end.
Proof.
  intros Hi Hcl Hpe. destruct (close_regions c Hi) as (c1 & E1 & Ho & Hp & Hd). exists c1. rewrite Hcl in Ho, E1.
  split; [done|]. split; [done|]. split; [done|].
  unfold close, early, mbind, EX_bind, ex_st, ex_lift, ex_gets, ex_modify, outcome_bind.
  assert (Et : throwIfClosed c = Ok (tt, c)) by (unfold throwIfClosed, mbind, ST_bind, st_get; by rewrite Hcl).
  rewrite Et. destruct (sv_notify sv) as [[]|]; [|done]. cbn [id]. rewrite Hpe, Hcl. cbn [orb].
  destruct (m_initialized sv); [|done]. cbn [negb].
  destruct (sv_queryService sv) as [[]|]; [|done]. destruct (sv_adminRegion sv) as [[]|]; [|done].
  destruct (sv_connections sv) as [[]|]; [|done]. unfold mbind in E1. rewrite E1.
  destruct (sv_pools sv) as [[]|]; [|done]. injection Ho as _ _ _ _ Ht. cbn [id timers with_roots]. rewrite Ht. cbn.
  by destruct (ExpiryTaskManager.stop (timers c)).
Qed.

(** C10. What [close] of a cache does, whatever the writers and listeners of its regions and
    the other parts of the cache answer. When none of those parts throws, it succeeds: every
    region that can be reached from a root region is destroyed and released and has no entries,
    the cache has no regions and no timers any more, and it is closed. When the close messages
    of the pools throw, nothing has changed; when the query service, the admin region or the
    connection manager throws, only the mark that the cache is being closed is set; when the
    pool manager throws, all regions are destroyed as well, but they stay listed and the cache
    is not closed. After such a failure a second [close] returns at once without having closed
    the cache, since the mark stays. *)
Theorem close_destroys_all sv c :
  tree_inv c -> m_closed c = false -> c_destroyPending c = false -> ExpiryTaskManager.running_ (timers c) = true ->
  m_initialized sv = true ->
  let '(res, c') := close virt app sv c in
  match sv_notify sv with
  | Throw e => res = Throw e /\ c' = c
  | Ok _ =>
    match early sv with
    | Throw e => res = Throw e /\ c' = with_closing true false c
    | Ok _ =>
      (forall s i k, (s, i) ∈ m_regions c -> reach (lives c) i k -> dead_at (lives c') k) /\
      match sv_pools sv with
      | Throw e => res = Throw e /\ m_closed c' = false /\ m_regions c' = m_regions c /\ timers c' = timers c
      | Ok _ => res = Ok tt /\ m_closed c' = true /\ m_regions c' = [] /\ ExpiryTaskManager.task_map_ (timers c') = ∅
      end
    end /\
    (res <> Ok tt -> forall sv', sv_notify sv' = Ok tt -> close virt app sv' c' = (Ok tt, c'))
  end.
Proof.
  intros Hi Hcl Hpe Hrun Hin. destruct (close_cases sv c Hi Hcl Hpe) as (c1 & Ho & Hp & Hd & ->).
  assert (Hagain : forall c2 sv', m_closed c2 = false -> c_destroyPending c2 = true -> sv_notify sv' = Ok tt ->
    close virt app sv' c2 = (Ok tt, c2)).
  { intros c2 sv' H1 H2 H3. unfold close, mbind, EX_bind, ex_st, ex_lift, ex_gets.
    unfold throwIfClosed, mbind, ST_bind, st_get. rewrite H1, H3. cbn [mret ST_ret id]. unfold mret, ST_ret. by rewrite H2. }
  rewrite Hin. cbn [negb]. unfold ExpiryTaskManager.stop. rewrite Hrun. cbn [negb].
  assert (Hdead : forall s i k, (s, i) ∈ m_regions c -> reach (lives c) i k -> dead_at (lives c1) k)
    by (intros s i k Hs Hk; by apply (Hd s i)).
  injection Ho as H1 H2 H3 _ H4.
  destruct (sv_notify sv) as [[]|]; [|done]. destruct (early sv) as [[]|]; [|by split; [|intros; apply Hagain]].
  destruct (sv_pools sv) as [[]|]; [done|]. split; [done|]. intros _ sv' Hn. by apply Hagain.
Qed.

(** *** Timers *)

Lemma destroyed_task i task id c n :
  ExpiryTaskManager.task_map_ (timers c) !! id = Some task -> rt_region task = i -> nodes c !! i = Some n ->
  m_destroyPending (n_region n) = true -> region_on_callback virt app id c = Throw RegionDestroyedException.
Proof.
  intros Ht Hr Hn Hp. unfold region_on_callback, mbind, ST_bind, st_get. rewrite Ht.
  unfold region_on_expire, region_expire_at, getStatistics, check_region, mbind, ST_bind. rewrite Hr.
  by rewrite (node_step _ _ _ Hn), Hp.
Qed.

(** The timer of a region that expires is not cancelled when the application destroys the
    region: when it fires, [getStatistics] of the destroyed region throws, and the exception
    leaves the callback, on the thread that runs all timers and has no handler for it. *)
Theorem destroyed_region_timer_throws i c n arg flags id task :
  tree_inv c -> nodes c !! i = Some n -> m_destroyPending (n_region n) = false ->
  CacheEventFlags.isCacheClose flags = false ->
  ExpiryTaskManager.task_map_ (timers c) !! id = Some task -> rt_region task = i ->
  exists err c', destroyRegionNoThrow virt app (fuel_of c) i arg true flags c = Ok (err, c') /\
    (err = GF_NOERR -> region_on_callback virt app id c' = Throw RegionDestroyedException).
Proof.
  intros Hi Hn Hp Hfl Ht Hr. assert (Hln : lives c !! i = Some (life n)) by (by rewrite lives_lookup, Hn).
  destruct (destroy_top i c arg flags Hi) as (err & c' & He & Hc); [by eapply lookup_lt_Some|].
  exists err, c'. split; [done|]. intros ->. rewrite Hfl in Hc.
  destruct Hc as [(_ & _ & _ & [=])|[(_ & [] & _)|(c1 & _ & (Hot & _) & Hd & _ & Hdet)]]; [done|].
  destruct (Hd i (rtc_refl _ _)) as (l1 & Hl1 & Hdl).
  destruct (detached_kept i c1 c' l1 i l1 Hl1 Hdet Hl1) as (l' & Hl' & _ & Hpe & _).
  destruct (node_of c' i l' Hl') as (n' & Hn' & <-). apply (destroyed_task i task id c' n'); [|done|done|].
  - assert (timers c' = timers c1) as ->; [|injection Hot as _ _ _ _ ->; done].
    destruct Hdet as (l & _ & Hdet). destruct (l_parent l); [destruct Hdet as [_ [=]]|destruct Hdet as (_ & _ & [=])]; done.
  - change (l_pending (life n') = true). rewrite Hpe. apply Hdl.
Qed.

End Claims.
