(* ===== verification/RegionTreeSteps.v ===== *)
(** The invariant of the tree of regions holds in every cache that can be reached from a new one
    by creating and destroying regions, by operations of regions, and by timers. *)
From S2P Require Import Prelude Versions ExpiryTaskManager MapEntry MapSegment SegmentClaims ConcurrentEntriesMap EntriesMapFacts ExceptionTypes EntriesMap EntriesMapLaws LocalRegion RegionClaims RegionTree RegionTreeFacts RegionTreeClaims.
From stdpp Require Import relations.
Import LocalRegion CacheImpl.
Local Open Scope Z_scope.

Section Steps.
Context {M K V D A E : Type} `{HM : EntriesMap M K V D}.
Abbreviation R := (LocalRegion.t M K V A).
Abbreviation C := (CacheImpl.t M K V A).
Context (virt : Virtuals M K V A E) (app : Callbacks K V A) (valueEq : V -> V -> bool).
Context (createMap : RegionAttributes -> M).
Implicit Types (c : C) (r : R) (i j k : nat).

(** A new cache. *)
Definition new_cache (stats : bool) (time : Z) : C :=
  CacheImpl.mk [] [] false false stats (ExpiryTaskManager.mk true ∅ 0) time None [].

Lemma new_cache_inv stats time : tree_inv (new_cache stats time).
Proof.
  constructor; try (intros; done); try by constructor.
  - intros i j (l & s & Hl & _). done.
  - intros s i Hn. by apply elem_of_nil in Hn.
Qed.

(** *** Creation *)

Definition newborn (name path : bytes) (parent : option nat) (a : RegionAttributes) : @Life M :=
  mkLife name (path ++ slash :: name) parent [] a false false (if m_caching a then Some (createMap a) else None).

Lemma new_node_step name parent a li wr lo c path :
  match parent with Some p => exists l, lives c !! p = Some l /\ l_path l = path | None => path = [] end ->
  exists c', new_node createMap name parent a li wr lo c = Ok (length (nodes c), c') /\
    lives c' = lives c ++ [newborn name path parent a] /\ m_regions c' = m_regions c.
Proof.
  intros Hp. unfold new_node.
  assert (Ep : (match parent with Some p => n ← node p; mret (m_fullPath n) | None => mret [] end) c = Ok (path, c)).
  { destruct parent as [p|]; [|by subst]. destruct Hp as (l & Hl & <-). destruct (node_of c p l Hl) as (n & Hn & <-).
    by rewrite (st_bind_ok _ _ _ _ _ (node_step _ _ _ Hn)). }
  rewrite (st_bind_ok _ _ _ _ _ Ep). eexists. split; [reflexivity|]. split; [|done].
  unfold lives. simpl. by rewrite fmap_app.
Qed.

Lemma set_task_step i c : (i < length (lives c))%nat ->
  exists c', setRegionExpiryTask i c = Ok (tt, c') /\ lives c' = lives c /\ m_regions c' = m_regions c.
Proof.
  rewrite length_lives. intros [n Hn]%lookup_lt_is_Some. unfold setRegionExpiryTask.
  rewrite (st_bind_ok _ _ _ _ _ (node_step _ _ _ Hn)). destruct (negb _); [by exists c|].
  unfold mbind, ST_bind, st_get. destruct (ExpiryTaskManager.schedule _ _) as [id ts]. eexists. split; [reflexivity|].
  split; [|done]. unfold lives. simpl. rewrite (lives_alter _ (fun l => l)) by done. apply alter_id.
Qed.

Lemma app_new (ls : list (@Life M)) l i l' : (ls ++ [l]) !! i = Some l' -> ls !! i = Some l' \/ (i = length ls /\ l' = l).
Proof. intros [H'|[H1 H2]]%lookup_app_Some; [by left|right]. apply list_lookup_singleton_Some in H2 as [H2 ->]. split; [lia|done]. Qed.

Lemma newborn_settled ls l : settled 0%nat ls -> l_pending l = false -> settled 0%nat (ls ++ [l : @Life M]).
Proof. intros Hs Hp i l' Hi [Hl|[_ ->]]%app_new; [by eapply Hs|congruence]. Qed.

Lemma add_root_inv c c' name a :
  tree_inv c -> find_slash name = None -> name ∉ (m_regions c).*1 ->
  lives c' = lives c ++ [newborn name [] None a] -> m_regions c' = m_regions c ++ [(name, length (lives c))] ->
  tree_inv c'.
Proof.
  intros Hi Hsl Hnew Hl Hr. assert (Hsub : forall i j, sub (lives c') i j -> sub (lives c) i j).
  { intros i j (l & s & Hil & Hin). rewrite Hl in Hil. apply app_new in Hil as [Hil|[_ ->]]; [by exists l, s|by apply elem_of_nil in Hin]. }
  assert (Hold : forall i l, lives c !! i = Some l -> lives c' !! i = Some l) by (intros i l Hil; rewrite Hl; by apply lookup_app_l_Some).
  constructor.
  - intros i j Hs%Hsub%(ti_ordered c Hi). rewrite Hl, length_app. simpl. lia.
  - rewrite Hl. apply newborn_settled; [by apply ti_settled|done].
  - intros i l. rewrite Hl. intros [Hil|[_ ->]]%app_new; [by eapply ti_names|by constructor].
  - intros i l s j l'. rewrite Hl. intros [Hil|[_ ->]]%app_new Hin; [|by apply elem_of_nil in Hin].
    intros [Hjl|[-> _]]%app_new; [by eapply ti_sub|].
    assert (Hlt : (i < length (lives c) < length (lives c))%nat) by (apply (ti_ordered c Hi); by exists l, s). lia.
  - intros i l. rewrite Hl. intros [Hil|[_ ->]]%app_new; [by eapply ti_slash|done].
  - intros i l p. rewrite Hl. intros [Hil|[_ ->]]%app_new; [by eapply ti_parent|done].
  - intros s i. rewrite Hr. intros [Hin|Hin]%elem_of_app.
    + destruct (ti_root c Hi s i Hin) as (l & Hil & Hrest). exists l. split; [by apply Hold|done].
    + apply list_elem_of_singleton in Hin as [= -> ->]. exists (newborn name [] None a).
      rewrite Hl, lookup_app_r, Nat.sub_diag by lia. done.
  - rewrite Hr, fmap_app. apply NoDup_app. split; [by apply ti_roots|]. split; [|apply NoDup_singleton].
    intros x Hx Hx'. apply list_elem_of_singleton in Hx' as ->. done.
Qed.

Lemma throwIfClosed_inv c c1 : throwIfClosed c = Ok (tt, c1) -> c1 = c.
Proof. unfold throwIfClosed, mbind, ST_bind, st_get. destruct (m_closed c); [done|]. by intros [= ->]. Qed.

Lemma createRegion_inv c name a li wr lo j c' :
  tree_inv c -> createRegion createMap name a li wr lo c = Ok (j, c') -> tree_inv c'.
Proof.
  intros Hi ([] & c0 & Hc%throwIfClosed_inv & Hrun)%st_bind_inv. subst c0.
  destruct (find_slash name) eqn:Esl; [done|]. apply st_bind_inv in Hrun as (? & ? & [= <- <-] & Hrun).
  destruct (find_name name (m_regions c)) eqn:Ef; [done|].
  destruct (new_node_step name None a li wr lo c []) as (c1 & E1 & Hl1 & Hr1); [done|]. rewrite (st_bind_ok _ _ _ _ _ E1) in Hrun.
  set (c2 := with_roots (m_regions c ++ [(name, length (nodes c))]) c1).
  destruct (set_task_step (length (nodes c)) c2) as (c3 & E3 & Hl3 & Hr3).
  { change (lives c2) with (lives c1). rewrite Hl1, length_app, length_lives. simpl. lia. }
  apply st_bind_inv in Hrun as ([] & c2' & [= <-] & Hrun). rewrite (st_bind_ok _ _ _ _ _ E3) in Hrun. injection Hrun as _ <-.
  apply (add_root_inv c c3 name a Hi Esl (find_name_none _ _ Ef)).
  - rewrite Hl3. exact Hl1.
  - rewrite Hr3, length_lives. done.
Qed.

Definition add_sub (name : bytes) j (l : @Life M) : Life :=
  mkLife (l_name l) (l_path l) (l_parent l) (l_subs l ++ [(name, j)]) (l_attributes l) (l_pending l) (l_released l)
    (l_entries l).

Lemma add_sub_inv c c' i li name a :
  tree_inv c -> lives c !! i = Some li -> l_pending li = false -> find_slash name = None -> name ∉ (l_subs li).*1 ->
  lives c' = alter (add_sub name (length (lives c))) i (lives c ++ [newborn name (l_path li) (Some i) a]) ->
  m_regions c' = m_regions c -> tree_inv c'.
Proof.
  intros Hi Hli Hpend Hsl Hnew Hl Hr. set (N := length (lives c)) in *. assert (Hlt : (i < N)%nat) by (by eapply lookup_lt_Some).
  assert (Hlook : forall k l', lives c' !! k = Some l' ->
    (k <> i /\ lives c !! k = Some l') \/ (k = i /\ l' = add_sub name N li) \/ (k = N /\ l' = newborn name (l_path li) (Some i) a)).
  { intros k l'. rewrite Hl. destruct (decide (i = k)) as [->|Hne].
    - rewrite list_lookup_alter_eq, lookup_app_l, Hli by done. intros [= <-]. right. by left.
    - rewrite list_lookup_alter_ne by done. intros [Hk|[-> ->]]%app_new; [by left|by right; right]. }
  assert (Hlen : length (lives c') = S N) by (rewrite Hl, length_alter, length_app; simpl; lia).
  assert (Hsub : forall k s j l', lives c' !! k = Some l' -> (s, j) ∈ l_subs l' ->
    (exists l, lives c !! k = Some l /\ (s, j) ∈ l_subs l /\ l_path l' = l_path l) \/ (k = i /\ s = name /\ j = N /\ l_path l' = l_path li)).
  { intros k s j l' [[_ Hk]|[[-> ->]|[_ ->]]]%Hlook Hin; [left; by exists l'| |by apply elem_of_nil in Hin].
    apply elem_of_app in Hin as [Hin|Hin]; [left; by exists li|right]. by apply list_elem_of_singleton in Hin as [= -> ->]. }
  constructor.
  - intros k j (l' & s & Hk & Hin). rewrite Hlen. destruct (Hsub _ _ _ _ Hk Hin) as [(l & Hkl & Hin' & _)|(-> & _ & -> & _)]; [|lia].
    assert (k < j < N)%nat by (apply (ti_ordered c Hi); by exists l, s). lia.
  - intros k l' Hge [[_ Hk]|[[-> ->]|[_ ->]]]%Hlook Hp; [by eapply ti_settled|simpl in Hp; congruence|done].
  - intros k l' [[_ Hk]|[[-> ->]|[_ ->]]]%Hlook; [by eapply ti_names| |by constructor]. simpl. rewrite fmap_app. apply NoDup_app.
    split; [by eapply ti_names|]. split; [|apply NoDup_singleton]. intros x Hx Hx'. apply list_elem_of_singleton in Hx' as ->. done.
  - intros k l1 s j l2 Hk Hin Hj. destruct (Hsub _ _ _ _ Hk Hin) as [(l & Hkl & Hin' & Hpath)|(-> & -> & -> & Hpath)].
    + assert (Hkj : (k < j < N)%nat) by (apply (ti_ordered c Hi); by exists l, s). rewrite Hpath.
      destruct (Hlook _ _ Hj) as [[_ Hj']|[[-> ->]|[-> _]]]; [by eapply ti_sub|exact (ti_sub c Hi k l s i li Hkl Hin' Hli)|lia].
    + destruct (Hlook _ _ Hj) as [[_ Hj']|[[-> _]|[_ ->]]]; [apply lookup_lt_Some in Hj'; fold N in Hj'; lia|lia|]. by rewrite Hpath.
  - intros k l' [[_ Hk]|[[-> ->]|[_ ->]]]%Hlook; [by eapply ti_slash|by eapply (ti_slash c Hi i li)|done].
  - intros k l' p [[_ Hk]|[[-> ->]|[-> ->]]]%Hlook; [by eapply ti_parent|by eapply (ti_parent c Hi i li)|]. by intros [= <-].
  - intros s k. rewrite Hr. intros Hin. destruct (ti_root c Hi s k Hin) as (l & Hkl & Hrest).
    assert (Hk : (k < N)%nat) by (by eapply lookup_lt_Some). destruct (lookup_lt_is_Some_2 (lives c') k) as [l' Hl']; [lia|].
    exists l'. split; [done|]. destruct (Hlook _ _ Hl') as [[_ Hk']|[[-> ->]|[-> _]]]; [by simplify_eq|by simplify_eq|lia].
  - rewrite Hr. by apply ti_roots.
Qed.

Lemma check_region_inv {X} i (body : ST C X) c x c' :
  check_region i body c = Ok (x, c') -> exists n, nodes c !! i = Some n /\ m_destroyPending (n_region n) = false /\ body c = Ok (x, c').
Proof.
  intros (n & c1 & Hn & Hb)%st_bind_inv. unfold node in Hn. destruct (nodes c !! i) as [n'|] eqn:En; [|done].
  injection Hn as <- <-. exists n'. destruct (m_destroyPending (n_region n')); done.
Qed.

Lemma createSubregion_inv c i name a li wr lo j c' :
  tree_inv c -> createSubregion createMap i name a li wr lo c = Ok (j, c') -> tree_inv c'.
Proof.
  intros Hi (n & Hn & Hp & Hrun)%check_region_inv. assert (Hln : lives c !! i = Some (life n)) by (by rewrite lives_lookup, Hn).
  destruct (find_slash name) eqn:Esl; [done|]. rewrite (st_bind_ok _ _ _ _ _ (node_step _ _ _ Hn)) in Hrun.
  destruct (find_name name (m_subRegions n)) eqn:Ef; [done|].
  destruct (new_node_step name (Some i) a li wr lo c (m_fullPath n)) as (c1 & E1 & Hl1 & Hr1); [by exists (life n)|].
  rewrite (st_bind_ok _ _ _ _ _ E1) in Hrun.
  set (c2 := with_nodes (alter (fun n => set_subs (m_subRegions n ++ [(name, length (nodes c))]) n) i (nodes c1)) c1).
  assert (Hl2 : lives c2 = alter (add_sub name (length (nodes c))) i (lives c1)) by (by apply lives_alter).
  destruct (set_task_step (length (nodes c)) c2) as (c3 & E3 & Hl3 & Hr3).
  { rewrite Hl2, length_alter, Hl1, length_app, length_lives. simpl. lia. }
  apply st_bind_inv in Hrun as ([] & c2' & [= <-] & Hrun). fold c2 in Hrun. rewrite (st_bind_ok _ _ _ _ _ E3) in Hrun.
  injection Hrun as _ <-. apply (add_sub_inv c c3 i (life n) name a Hi Hln Hp Esl (find_name_none _ _ Ef)).
  - by rewrite Hl3, Hl2, Hl1, length_lives.
  - by rewrite Hr3.
Qed.

(** *** Operations of a region *)

(** An operation that does not touch the flags of the region and does not bring back the
    entries of a destroyed one. *)
Definition ordinary {X} (f : ST R X) : Prop := forall r x r', f r = Ok (x, r') ->
  m_destroyPending r' = m_destroyPending r /\ m_released r' = m_released r /\
  m_caching (m_regionAttributes r') = m_caching (m_regionAttributes r) /\ (m_entries r = None -> m_entries r' = None).

Lemma ordinary_ret {X} (x : X) : ordinary (mret x).
Proof. by intros r y r' [= _ <-]. Qed.
Lemma ordinary_bind {X Y} (f : ST R X) (g : X -> ST R Y) : ordinary f -> (forall x, ordinary (g x)) -> ordinary (x ← f; g x).
Proof.
  intros Hf Hg r y r' (x & r1 & H1 & H2)%st_bind_inv. apply Hf in H1 as (? & ? & ? & ?). apply Hg in H2 as (? & ? & ? & ?).
  repeat split; try congruence. auto.
Qed.
Lemma ordinary_quiet {X} (f : ST R X) : quiet f -> ordinary f.
Proof.
  intros Hq r x r' Hf. destruct (Hq r) as (y & r0 & Hf' & Ha & Hp & Hr & He). rewrite Hf in Hf'. injection Hf' as <- <-.
  repeat split; congruence.
Qed.
Lemma ordinary_entries {X} (f : ST M X) : ordinary (on_entries f).
Proof.
  intros r x r'. unfold on_entries. destruct (m_entries r); [|done]. destruct (f _) as [[y m0]|]; [|done]. by intros [= _ <-].
Qed.
Lemma ordinary_modify f : (forall r, m_destroyPending (f r) = m_destroyPending r /\ m_released (f r) = m_released r /\
  m_regionAttributes (f r) = m_regionAttributes r /\ m_entries (f r) = m_entries r) -> ordinary (st_modify f).
Proof. intros Hf r x r' [= _ <-]. destruct (Hf r) as (-> & -> & -> & ->). done. Qed.

Lemma region_step_inv {X} i (f : ST R X) c x c' :
  tree_inv c -> ordinary f -> on_region i f c = Ok (x, c') -> tree_inv c' /\ m_regions c' = m_regions c.
Proof.
  intros Hi Hf. unfold on_region. destruct (nodes c !! i) as [n|] eqn:Hn; [|done].
  destruct (f _) as [[y r']|] eqn:Ef; [|done]. intros [= _ <-]. apply Hf in Ef as (Hp & Hr & Ha & He). split; [|done].
  apply (tree_inv_fewer c); [done|by rewrite lives_store, length_alter| |done|done].
  intros j l'. rewrite lives_store. destruct (decide (i = j)) as [->|Hne].
  - rewrite list_lookup_alter_eq, lives_lookup, Hn. intros [= <-]. exists (life n). split; [done|]. split; [done|].
    simpl in Hp, Hr, Ha, He |- *. split; [congruence|]. split; [|done]. unfold dead. simpl. intros (H1 & H2 & H3).
    split; [congruence|]. split; [congruence|]. rewrite Ha. auto.
  - rewrite list_lookup_alter_ne by done. intros Hj. by exists l'.
Qed.

(** *** Invalidation *)

Lemma ordinary_read {X} (g : R -> ST R X) : (forall r, ordinary (g r)) -> ordinary (r ← st_get; g r).
Proof. intros Hg r x r' Hr. exact (Hg r r x r' Hr). Qed.

Lemma ordinary_touch_entry p b : ordinary (updateAccessAndModifiedTimeForEntry (K := K) (V := V) (A := A) (M := M) p b).
Proof.
  apply ordinary_bind; [by apply ordinary_quiet; intros r; do 2 eexists|]. intros e. destruct p; [|apply ordinary_ret].
  destruct e; [|apply ordinary_ret]. by apply ordinary_modify.
Qed.

Lemma ordinary_invalidate_keys ks me flags : ordinary (invalidate_keys ks me flags).
Proof.
  revert me. induction ks as [|k ks IH]; intros me; [apply ordinary_ret|].
  apply ordinary_bind; [apply ordinary_entries|]. intros [[err me'] old]. apply ordinary_bind; [|intros; apply IH].
  destruct (CacheEventFlags.isEvictOrExpire flags); [apply ordinary_ret|apply ordinary_touch_entry].
Qed.

Lemma ordinary_invalidate flags : ordinary (invalidateEntries (A := A) flags).
Proof.
  apply ordinary_bind; [by apply ordinary_quiet; intros r; do 2 eexists|]. intros caching.
  destruct (negb caching); [apply ordinary_ret|]. apply ordinary_bind.
  - unfold keys_internal. apply ordinary_bind; [by apply ordinary_quiet; intros r; do 2 eexists|]. intros b.
    destruct b; [apply ordinary_entries|apply ordinary_ret].
  - intros ks. apply ordinary_bind; [apply ordinary_invalidate_keys|]. intros _.
    destruct (CacheEventFlags.isEvictOrExpire flags); [apply ordinary_ret|apply ordinary_quiet, quiet_touch].
Qed.

(** *** The operations of a region are ordinary *)

(** What is assumed of the subclasses of [LocalRegion]: their remote functions leave the destruction of the region and its
    caching attribute alone. *)
Record ordinary_virtuals : Prop := {
  ov_get : forall (k : K) v arg, ordinary (getNoThrow_remote virt k v arg);
  ov_put : forall (k : K) v arg tag, ordinary (putNoThrow_remote virt k v arg tag);
  ov_create : forall (k : K) v arg tag, ordinary (createNoThrow_remote virt k v arg tag);
  ov_destroy : forall (k : K) arg tag, ordinary (destroyNoThrow_remote virt k arg tag);
  ov_remove : forall (k : K) v arg tag, ordinary (removeNoThrow_remote virt k v arg tag);
  ov_removeEX : forall (k : K) arg tag, ordinary (removeNoThrowEX_remote virt k arg tag);
  ov_invalidate : forall (k : K) arg tag, ordinary (invalidateNoThrow_remote virt k arg tag);
  ov_fullObject : forall e v, ordinary (getNoThrow_FullObject virt e v);
  ov_getAll : forall ks vs b arg, ordinary (getAllNoThrow_remote virt ks vs b arg);
  ov_putAll : forall kvs arg, ordinary (putAllNoThrow_remote virt kvs arg);
  ov_removeAll : forall ks arg, ordinary (removeAllNoThrow_remote virt ks arg);
  ov_invalidateRegion : forall arg, ordinary (invalidateRegionNoThrow_remote virt arg)
}.

Lemma ordinary_throw {X} e : ordinary (st_throw e : ST R X).
Proof. by intros r x r'. Qed.
Lemma ordinary_get : ordinary (st_get : ST R R).
Proof. by intros r x r' [= _ <-]. Qed.
Lemma ordinary_gets {X} (f : R -> X) : ordinary (st_gets f).
Proof. by intros r x r' [= _ <-]. Qed.
Lemma ordinary_attr {X} (f : RegionAttributes -> X) : ordinary (attr (M := M) (K := K) (V := V) (A := A) f).
Proof. apply ordinary_gets. Qed.
Lemma ordinary_fmap {X Y} (f : X -> Y) (m : ST R X) : ordinary m -> ordinary (f <$> m).
Proof.
  intros Hm r y r'. unfold fmap, ST_fmap. destruct (m r) as [[x r1]|] eqn:Em; [|done]. intros [= _ <-]. by eapply Hm.
Qed.
Lemma ordinary_iter {X} (f : X -> ST R unit) l : (forall x, ordinary (f x)) -> ordinary (st_iter f l).
Proof. intros Hf. induction l as [|x l IH]; [apply ordinary_ret|]. apply ordinary_bind; [apply Hf|done]. Qed.
Lemma ordinary_call x : ordinary (call x : ST R (list (Call K V A))).
Proof. apply ordinary_quiet, quiet_call. Qed.

Create HintDb ordinary.
Hint Resolve ordinary_ret ordinary_throw ordinary_get ordinary_gets ordinary_attr ordinary_entries ordinary_call
  ordinary_touch_entry : ordinary.

(** Follows the structure of an operation. *)
Ltac ordinary_tac :=
  repeat first
    [ solve [eauto with ordinary]
    | apply ordinary_bind; [|intros ?]
    | apply ordinary_fmap
    | apply ordinary_iter; intros ?
    | match goal with |- forall _, _ => intros ? end
    | match goal with |- ordinary (match ?x with _ => _ end) => destruct x end
    | match goal with |- ordinary ((match ?x with _ => _ end) _) => destruct x end
    | apply ordinary_modify; intros ?; simpl; repeat case_match; done ].

Context (Hv : ordinary_virtuals).

Hint Resolve ov_get ov_put ov_create ov_destroy ov_remove ov_removeEX ov_invalidate ov_fullObject ov_getAll ov_putAll
  ov_removeAll ov_invalidateRegion : ordinary.

Lemma ordinary_touch b : ordinary (updateAccessAndModifiedTime b : ST R unit).
Proof. apply ordinary_quiet, quiet_touch. Qed.
Lemma ordinary_register p : ordinary (registerEntryExpiryTask p : ST R unit).
Proof. unfold registerEntryExpiryTask, non_null. ordinary_tac. Qed.
Lemma ordinary_cleanup p flags : ordinary (cleanup p flags : ST R unit).
Proof. unfold cleanup. ordinary_tac. Qed.
Lemma ordinary_throwIf err : ordinary (throwExceptionIfError err : ST R unit).
Proof. unfold throwExceptionIfError. ordinary_tac. Qed.
Lemma ordinary_pending_nothrow {X} (ret : GfErrType -> X) (body : ST R X) : ordinary body -> ordinary (check_destroy_pending_nothrow ret body).
Proof. intros Hb. unfold check_destroy_pending_nothrow. ordinary_tac. Qed.
Lemma ordinary_pending {X} (body : ST R X) : ordinary body -> ordinary (check_destroy_pending body).
Proof. intros Hb. unfold check_destroy_pending. ordinary_tac. Qed.
Lemma ordinary_at_exit {X} (body : ST R X) clean : ordinary body -> ordinary clean -> ordinary (at_exit body clean).
Proof. intros Hb Hc. unfold at_exit. ordinary_tac. Qed.
Lemma ordinary_remote {X} q (f : ST R X) : ordinary f -> ordinary (remote q f).
Proof. intros Hf. unfold remote. ordinary_tac. Qed.
Lemma ordinary_in_transaction {X} b (ret : GfErrType -> X) (f : ST R (GfErrType * X)) : ordinary f -> ordinary (in_transaction b ret f).
Proof. intros Hf. unfold in_transaction. ordinary_tac. Qed.
Lemma ordinary_non_null {X} (p : option X) : ordinary (non_null p : ST R X).
Proof. unfold non_null. ordinary_tac. Qed.
Hint Resolve ordinary_touch ordinary_register ordinary_cleanup ordinary_throwIf ordinary_pending_nothrow ordinary_pending
  ordinary_at_exit ordinary_remote ordinary_in_transaction ordinary_non_null : ordinary.

(** The same with the wrappers. *)
Ltac op_tac :=
  repeat first
    [ progress ordinary_tac | apply ordinary_pending_nothrow | apply ordinary_pending | apply ordinary_in_transaction
    | apply ordinary_remote | apply ordinary_at_exit ].

Lemma ordinary_writer key v0 v arg flags type : ordinary (invokeCacheWriterForEntryEvent app key v0 v arg flags type : ST R _).
Proof. unfold invokeCacheWriterForEntryEvent. op_tac. Qed.
Lemma ordinary_tell x : ordinary (tell app x : ST R _).
Proof. unfold tell. op_tac. Qed.
Hint Resolve ordinary_writer ordinary_tell : ordinary.
Lemma ordinary_listener key v0 v arg flags type b : ordinary (invokeCacheListenerForEntryEvent app key v0 v arg flags type b : ST R _).
Proof. unfold invokeCacheListenerForEntryEvent. op_tac. Qed.
Lemma ordinary_region_writer arg flags type : ordinary (invokeCacheWriterForRegionEvent app arg flags type : ST R _).
Proof. unfold invokeCacheWriterForRegionEvent. op_tac. Qed.
Lemma ordinary_region_listener arg flags type : ordinary (invokeCacheListenerForRegionEvent app arg flags type : ST R _).
Proof. unfold invokeCacheListenerForRegionEvent. op_tac. Qed.
Lemma ordinary_put_done err e v0 u v : ordinary (putLocal_done err e v0 u v : ST R _).
Proof. unfold putLocal_done. op_tac. Qed.
Lemma ordinary_tracking key uc : ordinary (remove_tracking key uc : ST R _).
Proof. unfold remove_tracking, getConcurrencyChecksEnabled. op_tac. Qed.
Lemma ordinary_getEntry key v : ordinary (getEntry key v : ST R _).
Proof. unfold getEntry, getCachingEnabled. op_tac. Qed.
Hint Resolve ordinary_listener ordinary_region_writer ordinary_region_listener ordinary_put_done ordinary_tracking ordinary_getEntry : ordinary.

Lemma ordinary_keys_internal : ordinary (keys_internal : ST R _).
Proof. unfold keys_internal, getCachingEnabled. op_tac. Qed.
Lemma ordinary_callback_old a (b : bool) key v : ordinary (getCallbackOldValue a b key v : ST R _).
Proof. unfold getCallbackOldValue. op_tac. Qed.
Lemma ordinary_putLocal b key v v0 (c : bool) uc dt tag d e : ordinary (putLocal virt b key v v0 c uc dt tag d e : ST R _).
Proof. unfold putLocal. op_tac. Qed.
Lemma ordinary_invalidateLocal key v flags tag : ordinary (invalidateLocal virt key v flags tag : ST R _).
Proof. unfold invalidateLocal, getCachingEnabled. op_tac. Qed.
Lemma ordinary_removeLocal key v (b : bool) flags uc tag rem : ordinary (removeLocal key v b flags uc tag rem : ST R _).
Proof. unfold removeLocal. op_tac. Qed.
Hint Resolve ordinary_keys_internal ordinary_callback_old ordinary_putLocal ordinary_invalidateLocal ordinary_removeLocal : ordinary.

Lemma ordinary_remoteUpdate a resp key v arg tag : ordinary (remoteUpdate virt valueEq a resp key v arg tag : ST R _).
Proof. unfold remoteUpdate, RemoveActions_remoteUpdate, getCachingEnabled. destruct a; op_tac. Qed.
Lemma ordinary_localUpdate a resp key v v0 (b : bool) flags uc tag d e rem :
  ordinary (localUpdate virt valueEq a resp key v v0 b flags uc tag d e rem : ST R _).
Proof. unfold localUpdate, RemoveActions_localUpdate, getConcurrencyChecksEnabled. destruct a; op_tac. Qed.
Hint Resolve ordinary_remoteUpdate ordinary_localUpdate : ordinary.

Lemma ordinary_askWriter a key v arg v0 b flags : ordinary (askWriter app a key v arg v0 b flags : ST R _).
Proof. unfold askWriter. op_tac. Qed.
Lemma ordinary_doRemote a key v arg v0 b uc flags tag : ordinary (doRemote virt valueEq a key v arg v0 b uc flags tag : ST R _).
Proof. unfold doRemote, getConcurrencyChecksEnabled. op_tac. Qed.
Lemma ordinary_doLocal a resp key v v0 b flags uc tag d e rem :
  ordinary (doLocal virt valueEq a resp key v v0 b flags uc tag d e rem : ST R _).
Proof. unfold doLocal. op_tac. Qed.
Hint Resolve ordinary_askWriter ordinary_doRemote ordinary_doLocal : ordinary.

Lemma ordinary_update a key v arg v0 uc flags tag d e : ordinary (updateNoThrow virt app valueEq a key v arg v0 uc flags tag d e : ST R _).
Proof.
  unfold updateNoThrow, getCachingEnabled. op_tac.
Qed.
Lemma ordinary_updateTX a key v arg v0 uc flags tag d e : ordinary (updateNoThrowTX virt app valueEq a key v arg v0 uc flags tag d e : ST R _).
Proof. unfold updateNoThrowTX, getCachingEnabled. op_tac. Qed.
Hint Resolve ordinary_update ordinary_updateTX : ordinary.
Lemma ordinary_getNoThrow key v arg : ordinary (getNoThrow virt app key v arg : ST R _).
Proof. unfold getNoThrow, getNoThrow_store, getNoThrow_listen, getCachingEnabled, getConcurrencyChecksEnabled. op_tac. Qed.
Lemma ordinary_getAll_local ks : forall b b' vs sk, ordinary (getAll_local ks b b' vs sk : ST R _).
Proof. induction ks as [|key ks IH]; intros b b' vs sk; cbn [getAll_local]; op_tac. Qed.
Hint Resolve ordinary_getNoThrow ordinary_getAll_local : ordinary.
Lemma ordinary_getAllNoThrow ks vs b arg : ordinary (getAllNoThrow virt ks vs b arg : ST R _).
Proof. unfold getAllNoThrow, getCachingEnabled. op_tac. Qed.
Lemma ordinary_putAll_ask kvs : forall arg b v om, ordinary (putAll_ask app kvs arg b v om : ST R _).
Proof. induction kvs as [|[key v'] kvs IH]; intros arg b v om; cbn [putAll_ask]; unfold getConcurrencyChecksEnabled; op_tac. Qed.
Lemma ordinary_tag_at parts j tag : ordinary (tag_at parts j tag : ST R _).
Proof. unfold tag_at. op_tac. Qed.
Hint Resolve ordinary_getAllNoThrow ordinary_putAll_ask ordinary_tag_at : ordinary.
Lemma ordinary_putAll_local kvs : forall j arg parts om tag err, ordinary (putAll_local virt app valueEq kvs j arg parts om tag err : ST R _).
Proof.
  induction kvs as [|[key v'] kvs IH]; intros j arg parts om tag err; cbn [putAll_local]; [op_tac|]. unfold putNoThrow. op_tac.
Qed.
Lemma ordinary_removeAll_local ks : forall j arg parts tag err, ordinary (removeAll_local virt app valueEq ks j arg parts tag err : ST R _).
Proof.
  induction ks as [|key ks IH]; intros j arg parts tag err; cbn [removeAll_local]; [op_tac|]. unfold destroyNoThrow. op_tac.
Qed.
Hint Resolve ordinary_putAll_local ordinary_removeAll_local : ordinary.
Lemma ordinary_putAllNoThrow kvs arg : ordinary (putAllNoThrow virt app valueEq kvs arg : ST R _).
Proof. unfold putAllNoThrow, getCachingEnabled, getConcurrencyChecksEnabled. op_tac. Qed.
Lemma ordinary_removeAllNoThrow ks arg : ordinary (removeAllNoThrow virt app valueEq ks arg : ST R _).
Proof. unfold removeAllNoThrow, getCachingEnabled. op_tac. Qed.
Lemma ordinary_remove_result err : ordinary (remove_result err : ST R _).
Proof. unfold remove_result. op_tac. Qed.
Lemma ordinary_keys : ordinary (keys : ST R _).
Proof. unfold keys. op_tac. Qed.
Lemma ordinary_localClear arg flags : ordinary (localClearNoThrow app arg flags : ST R _).
Proof. unfold localClearNoThrow, getCachingEnabled. op_tac. Qed.
Lemma ordinary_noCallbacks key : ordinary (localDestroyNoCallbacks virt app valueEq key : ST R _).
Proof. unfold localDestroyNoCallbacks, destroyNoThrow. op_tac. Qed.
Hint Resolve ordinary_putAllNoThrow ordinary_removeAllNoThrow ordinary_remove_result ordinary_keys ordinary_localClear
  ordinary_noCallbacks : ordinary.
Lemma ordinary_clearRegex f : ordinary (clearKeysOfInterestRegex virt app valueEq f : ST R _).
Proof. unfold clearKeysOfInterestRegex. op_tac. Qed.
Hint Resolve ordinary_clearRegex : ordinary.
Lemma ordinary_clearRegexes l : ordinary (clearRegexes virt app valueEq l : ST R _).
Proof. induction l as [|[b f] l IH]; cbn [clearRegexes]; unfold localClear; op_tac. Qed.
Hint Resolve ordinary_clearRegexes : ordinary.
Lemma ordinary_on_callback id : ordinary (on_callback virt app valueEq id : ST R _).
Proof.
  unfold on_callback, on_expire, entry_key, invalidateNoThrow, destroyNoThrow. op_tac.
Qed.
(** A mutator replaces attributes other than caching. *)
Lemma ordinary_adjust {X} (p : RegionAttributes -> bool) (g : RegionAttributes -> RegionAttributes) (res : RegionAttributes -> X) :
  (forall a, m_caching (g a) = m_caching a) ->
  ordinary (check_destroy_pending (a ← attr id; if negb (p a) then st_throw IllegalStateException
                                   else st_modify (with_attributes (g a));; mret (res a)) : ST R X).
Proof.
  intros Hg. apply ordinary_pending. intros r x r'. unfold mbind, ST_bind, attr, st_gets.
  destruct (negb _); [done|]. intros [= _ <-]. simpl. by rewrite Hg.
Qed.
Hint Resolve ordinary_on_callback : ordinary.

(** The operations of a region on its entries, those of the application and those of notifications, transactions, timers
    and the attributes mutator. The virtual [size_remote] and [containsValueForKey_remote] are ordinary as well. *)
Inductive operation : forall X : Type, ST R X -> Prop :=
| op_get key arg : operation _ (get virt app key arg)
| op_put key v arg : operation _ (put virt app valueEq key v arg)
| op_localPut key v arg : operation _ (localPut virt app valueEq key v arg)
| op_create key v arg : operation _ (create virt app valueEq key v arg)
| op_localCreate key v arg : operation _ (localCreate virt app valueEq key v arg)
| op_invalidate key arg : operation _ (invalidate virt app valueEq key arg)
| op_localInvalidate key arg : operation _ (localInvalidate virt app valueEq key arg)
| op_destroy key arg : operation _ (destroy virt app valueEq key arg)
| op_localDestroy key arg : operation _ (localDestroy virt app valueEq key arg)
| op_remove key v arg : operation _ (remove virt app valueEq key v arg)
| op_removeEx key arg : operation _ (removeEx virt app valueEq key arg)
| op_localRemove key v arg : operation _ (localRemove virt app valueEq key v arg)
| op_localRemoveEx key arg : operation _ (localRemoveEx virt app valueEq key arg)
| op_putAll kvs arg : operation _ (putAll virt app valueEq kvs arg)
| op_removeAll ks arg : operation _ (removeAll virt app valueEq ks arg)
| op_getAll ks arg b : operation _ (getAll_internal virt ks arg b)
| op_getNoThrow key v arg : operation _ (getNoThrow virt app key v arg)
| op_update a key v arg v0 uc flags tag d e : operation _ (updateNoThrow virt app valueEq a key v arg v0 uc flags tag d e)
| op_updateTX a key v arg v0 uc flags tag d e : operation _ (updateNoThrowTX virt app valueEq a key v arg v0 uc flags tag d e)
| op_getEntry key : operation _ (getRegionEntry key)
| op_keys : operation _ keys
| op_values : operation _ values
| op_entries : operation _ entries
| op_size f : ordinary f -> operation _ (size virt f)
| op_containsValueForKey f key : (forall k : K, ordinary (f k)) -> operation _ (containsValueForKey f key)
| op_containsKey key : operation _ (containsKey key)
| op_localClear arg : operation _ (localClear app arg)
| op_clear arg flags : operation _ (localClearNoThrow app arg flags)
| op_tombstones vs ks : operation _ (tombstoneOperationNoThrow vs ks)
| op_clearKeys ks : operation _ (clearKeysOfInterest virt app valueEq ks)
| op_clearRegex l : operation _ (clearKeysOfInterestRegex_list virt app valueEq l)
| op_timer id : operation _ (on_callback virt app valueEq id)
| op_entryAction a : operation _ (adjustEntryExpiryAction a)
| op_entryDuration d : operation _ (adjustEntryExpiryDuration d)
| op_regionAction a : operation _ (adjustRegionExpiryAction a)
| op_regionDuration d : operation _ (adjustRegionExpiryDuration d).

Lemma operation_ordinary X (f : ST R X) : operation X f -> ordinary f.
Proof.
  intros Hop. destruct Hop;
    try (unfold get, put, localPut, create, localCreate, invalidate, localInvalidate, destroy, localDestroy, remove, removeEx,
      localRemove, localRemoveEx, putAll, removeAll, getAll_internal, getRegionEntry, values, entries, size, size_remote,
      containsValueForKey, containsValueForKey_remote, containsKey, containsKey_internal, localClear, tombstoneOperationNoThrow,
      clearKeysOfInterest, clearKeysOfInterestRegex_list, putNoThrow, createNoThrow, destroyNoThrow, removeNoThrow,
      removeNoThrowEx, invalidateNoThrow, getCachingEnabled; solve [op_tac]).
  - apply (ordinary_adjust (fun a => 0 <? getEntryExpiryDuration a)). done.
  - apply (ordinary_adjust (fun a => 0 <? getEntryExpiryDuration a)). done.
  - apply (ordinary_adjust (fun a => 0 <? getRegionExpiryDuration a)). done.
  - apply (ordinary_adjust (fun a => 0 <? getEntryExpiryDuration a)). done.
Qed.

Context (Hquiet : quiet_virtuals virt).

Lemma node_inv i c n c' : node i c = Ok (n, c') -> c' = c.
Proof. unfold node. by destruct (nodes c !! i); [intros [= _ <-]|]. Qed.

Lemma invalidate_inv fuel : forall i arg flags c err c',
  tree_inv c -> invalidateRegionNoThrow virt app fuel i arg flags c = Ok (err, c') -> tree_inv c'.
Proof.
  induction fuel as [|fuel IH]; intros i arg flags c err c' Hi; [done|].
  intros (n & c0 & Hn & Hrun)%st_bind_inv. apply node_inv in Hn as ->.
  destruct (m_destroyPending (n_region n)); [by injection Hrun as _ <-|].
  apply st_bind_inv in Hrun as (x & c1 & H1 & Hrun). apply region_step_inv in H1 as [Hi1 _]; [|done|apply ordinary_invalidate].
  apply st_bind_inv in Hrun as (err1 & c2 & H2 & Hrun). assert (Hi2 : tree_inv c2).
  { destruct (negb _) in H2; [|by injection H2 as _ <-]. apply region_step_inv in H2 as [Hi2 _]; [done|done|].
    apply ordinary_bind; [apply ordinary_quiet, quiet_call|]. intros _. apply (ov_invalidateRegion Hv). }
  destruct (negb _) in Hrun; [by injection Hrun as _ <-|].
  assert (Heach : forall l c err c', tree_inv c ->
    invalidate_each (fun j => invalidateRegionNoThrow virt app fuel j arg flags) l c = Ok (err, c') -> tree_inv c').
  { intros l. induction l as [|[s k] l IHl]; intros c3 err3 c4 Hi3 Hl; [by injection Hl as _ <-|].
    apply st_bind_inv in Hl as (e & c5 & H5 & Hl). apply IH in H5; [|done].
    destruct (negb _) in Hl; [by injection Hl as _ <-|]. by eapply IHl. }
  apply st_bind_inv in Hrun as (err3 & c3 & H3 & Hrun). apply Heach in H3; [|done].
  destruct (negb _) in Hrun; [by injection Hrun as _ <-|].
  by apply region_step_inv in Hrun as [Hi4 _]; [| |apply ordinary_quiet, quiet_listener].
Qed.

(** *** Reachable caches *)

Lemma destroy_inv i arg flags c err c' :
  tree_inv c -> destroyRegionNoThrow virt app (fuel_of c) i arg true flags c = Ok (err, c') -> tree_inv c'.
Proof.
  intros Hi Hd. destruct (decide (i < length (lives c))%nat) as [Hlt|Hge].
  - destruct (destroy_top virt app Hquiet i c arg flags Hi Hlt) as (err' & c2 & He & Hc). rewrite Hd in He. injection He as <- <-.
    by eapply destroy_top_inv.
  - exfalso. apply Nat.nlt_ge in Hge. rewrite length_lives in Hge. apply lookup_ge_None in Hge.
    apply st_bind_inv in Hd as (x & c1 & H1 & Hd). destruct (flags =? _) in H1.
    + apply st_bind_inv in H1 as (y & c2 & H2 & _). unfold on_region in H2. by rewrite Hge in H2.
    + injection H1 as _ <-. apply st_bind_inv in Hd as (n & c2 & H2 & _). unfold node in H2. by rewrite Hge in H2.
Qed.

Lemma same_tree_inv c c' : tree_inv c -> nodes c' = nodes c -> m_regions c' = m_regions c -> tree_inv c'.
Proof.
  intros Hi Hn Hr. apply (tree_inv_progress c); [done| |done]. unfold lives. rewrite Hn. apply progress_refl.
Qed.

Lemma close_inv sv c : tree_inv c -> tree_inv (close virt app sv c).2.
Proof.
  intros Hi. destruct (m_closed c) eqn:Hcl.
  { unfold close, mbind, EX_bind, ex_st, throwIfClosed, mbind, ST_bind, st_get. by rewrite Hcl. }
  destruct (c_destroyPending c) eqn:Hpe.
  { unfold close, mbind, EX_bind, ex_st, ex_lift, ex_gets, throwIfClosed, mbind, ST_bind, st_get. rewrite Hcl.
    destruct (sv_notify sv); [|done]. cbn. by rewrite Hpe. }
  destruct (close_cases virt app Hquiet sv c Hi Hcl Hpe) as (c1 & Ho & Hp & _ & ->).
  assert (Hi1 : tree_inv c1) by (apply (tree_inv_progress c); [done|exact Hp|by injection Ho]).
  assert (Hi2 : forall c2, nodes c2 = nodes c1 -> m_regions c2 = [] -> tree_inv c2).
  { intros c2 Hn Hr. apply (tree_inv_fewer c1); [done|unfold lives; by rewrite Hn| | |].
    - intros i l. unfold lives. rewrite Hn. intros Hl. by exists l.
    - intros s i Hin. rewrite Hr in Hin. by apply elem_of_nil in Hin.
    - rewrite Hr. by constructor. }
  repeat case_match; simpl; try done; try (by apply (same_tree_inv c)); by apply Hi2.
Qed.

Lemma on_callback_inv id c c' : tree_inv c -> region_on_callback virt app id c = Ok (tt, c') -> tree_inv c'.
Proof.
  intros Hi (? & ? & [= <- <-] & Hrun)%st_bind_inv. destruct (ExpiryTaskManager.task_map_ _ !! _) as [task|]; [|by injection Hrun as <-].
  apply st_bind_inv in Hrun as ([done_ tp] & c1 & H1 & Hrun). injection Hrun as <-.
  cut (tree_inv c1); [intros Hi1; by apply (same_tree_inv c1)|].
  apply st_bind_inv in H1 as (tp' & c0 & H0 & H1). assert (c0 = c) as ->.
  { apply st_bind_inv in H0 as (st & c2 & H2 & H0). apply check_region_inv in H2 as (n & _ & _ & H2).
    apply st_bind_inv in H2 as (? & ? & [= <- <-] & H2). destruct (negb _) in H2; [done|].
    apply st_bind_inv in H2 as (n2 & c3 & Hn2%node_inv & [= _ <-]). subst. apply st_bind_inv in H0 as (n3 & c4 & Hn3%node_inv & [= _ <-]). done. }
  apply st_bind_inv in H1 as (? & ? & [= <- <-] & H1). destruct (now c <? tp'); [by injection H1 as _ _ <-|].
  apply st_bind_inv in H1 as ([] & c2 & H2 & [= _ _ <-]).
  destruct (rt_action task); try (apply st_bind_inv in H2 as (err & c3 & H3 & [= <-]));
    [by eapply invalidate_inv|by eapply invalidate_inv|by eapply destroy_inv|by eapply destroy_inv|by injection H2 as <-].
Qed.

Inductive cache_step c c' : Prop :=
| st_create name a li wr lo j : createRegion createMap name a li wr lo c = Ok (j, c') -> cache_step c c'
| st_createSub i name a li wr lo j : createSubregion createMap i name a li wr lo c = Ok (j, c') -> cache_step c c'
| st_destroy i arg flags err : destroyRegionNoThrow virt app (fuel_of c) i arg true flags c = Ok (err, c') -> cache_step c c'
| st_invalidate i arg flags err : invalidateRegionNoThrow virt app (fuel_of c) i arg flags c = Ok (err, c') -> cache_step c c'
| st_operate {X} i (f : ST R X) x : operation X f -> on_region i f c = Ok (x, c') -> cache_step c c'
| st_timer id : region_on_callback virt app id c = Ok (tt, c') -> cache_step c c'
| st_close sv : (close virt app sv c).2 = c' -> cache_step c c'.

(** C8. In every cache that is reached from a new one by creating, invalidating and
    destroying regions, by any of the operations of regions ([operation]: reads, puts, removals,
    bulk operations, notifications, transactions, clearing, entry expiration, mutators), by the
    timers of regions and by closing it, successfully or not, regions are
    listed under their own names by their own parents only, names are unique among
    siblings and have no separator, paths are the parents' paths with the name, and a region
    that is marked as destroyed is released and has neither entries nor subregions. That the
    operations of a region keep to this is proved of each ([operation_ordinary]); only the remote
    functions that subclasses override are assumed to ([ordinary_virtuals]). *)
Theorem reachable_tree stats time c : rtc cache_step (new_cache stats time) c -> tree_inv c.
Proof.
  cut (forall c0, rtc cache_step c0 c -> tree_inv c0 -> tree_inv c); [intros Hc Hr; eapply Hc; [done|apply new_cache_inv]|].
  intros c0 Hr. induction Hr as [|c0 c1 c2 Hs _ IH]; [done|]. intros Hi. apply IH. destruct Hs.
  - by eapply createRegion_inv.
  - by eapply createSubregion_inv.
  - by eapply destroy_inv.
  - by eapply invalidate_inv.
  - by eapply region_step_inv; [|by eapply operation_ordinary|].
  - by eapply on_callback_inv.
  - subst. by apply close_inv.
Qed.

End Steps.

(** ** Concrete caches with a few regions: the theorems about trees of regions at work. *)
Module RegionTreeExamples.
Import RegionExamples.
Import SegmentExamples.
From stdpp Require Import relations.
Import LocalRegion CacheImpl.
Local Open Scope Z_scope.

Abbreviation ZCache := (CacheImpl.t ZMap Z Z Z).

#[local] Instance tree_zmap : EntriesMap ZMap Z Z Z := concurrent_map id nodisk true alwaysDelta id addDelta.

Definition new_map (a : RegionAttributes) : ZMap := map0.

(** Regions whose entries do not expire; a region with [ttl] expires. *)
Definition plain (ttl : Z) : RegionAttributes :=
  mkAttributes true true 0 INVALID_ACTION 0 INVALID_ACTION ttl LOCAL_DESTROY 0 INVALID_ACTION.

(** A listener that throws when its region is destroyed. *)
Definition fragile : Callbacks Z Z Z :=
  mkCallbacks (fun _ => Some true) (fun h => match h with AfterRegionDestroy _ :: _ => false | _ => true end) (fun _ => Some None).

Definition then_ {X} (m : ST ZCache X) (c : ZCache) : ZCache := match m c with Ok (_, c') => c' | Throw _ => c end.

(** The regions /r, /r/a and /r/b; /r/a has a listener. *)
Definition r_ : list Z := [114].
Definition a_ : list Z := [97].
Definition b_ : list Z := [98].
Definition cache0 : ZCache := new_cache true 100.
Definition cache1 : ZCache := then_ (createRegion new_map r_ (plain 60) false false false) cache0.
Definition cache2 : ZCache := then_ (createSubregion new_map 0 a_ (plain 0) true false false) cache1.
Definition cache3 : ZCache := then_ (createSubregion new_map 0 b_ (plain 0) false false false) cache2.

Lemma cache1_eq : createRegion new_map r_ (plain 60) false false false cache0 = Ok (0%nat, cache1).
Proof. reflexivity. Qed.
Lemma cache2_eq : createSubregion new_map 0 a_ (plain 0) true false false cache1 = Ok (1%nat, cache2).
Proof. reflexivity. Qed.
Lemma cache3_eq : createSubregion new_map 0 b_ (plain 0) false false false cache2 = Ok (2%nat, cache3).
Proof. reflexivity. Qed.

Lemma cache3_inv : tree_inv cache3.
Proof.
  eapply createSubregion_inv; [|exact cache3_eq]. eapply createSubregion_inv; [|exact cache2_eq].
  eapply createRegion_inv; [|exact cache1_eq]. apply new_cache_inv.
Qed.

Lemma local_quiet : quiet_virtuals local_.
Proof. split; [intros arg|]; intros r; by do 2 eexists. Qed.

Lemma local_ordinary : ordinary_virtuals local_.
Proof. constructor; intros; by apply ordinary_ret. Qed.

(** A put into /r/b, and then the cache is closed while a pool refuses. *)
Definition put_b : ST ZRegion unit := put local_ calm Z.eqb (Some 7) v1 None.
Definition cache3p : ZCache := then_ (on_region 2 put_b) cache3.
Lemma cache3p_eq : on_region 2 put_b cache3 = Ok (tt, cache3p).
Proof. vm_compute. reflexivity. Qed.

Definition good_services : Services := mkServices true (Ok tt) (Ok tt) (Ok tt) (Ok tt) (Ok tt).
Definition busy_pool : Services := mkServices true (Ok tt) (Ok tt) (Ok tt) (Ok tt) (Throw IllegalStateException).

Lemma reachable_tree_witness : tree_inv (close local_ calm busy_pool cache3p).2.
Proof.
  refine (reachable_tree local_ calm Z.eqb new_map local_ordinary local_quiet true 100 _ _).
  eapply rtc_l; [eapply st_create, cache1_eq|]. eapply rtc_l; [eapply st_createSub, cache2_eq|].
  eapply rtc_l; [eapply st_createSub, cache3_eq|]. eapply rtc_l; [eapply st_operate; [apply op_put|exact cache3p_eq]|].
  apply rtc_once. by eapply st_close.
Defined.

Definition node2 : Node ZMap Z Z Z :=
  match nodes cache3 !! 2%nat with Some n => n | None => mkNode [] [] None [] 0 (region0 false 0 DESTROY) end.
Definition node0 : Node ZMap Z Z Z :=
  match nodes cache3 !! 0%nat with Some n => n | None => mkNode [] [] None [] 0 (region0 false 0 DESTROY) end.

Lemma walk_b : walk cache3 0 [b_] 2.
Proof.
  eapply (walk_down _ _ (life node0) _ 2%nat); [reflexivity|reflexivity|done| |apply walk_here].
  apply list_elem_of_further, list_elem_of_here.
Qed.

Lemma region_by_path_witness : getRegion [47; 114; 47; 98] cache3 = Ok (Some 2%nat, cache3).
Proof.
  exact (region_by_path cache3 r_ 0 [b_] 2 node2 cache3_inv eq_refl eq_refl (list_elem_of_here _ _) ltac:(done) walk_b eq_refl).
Defined.

Lemma destroy_region_complete_witness :
  exists err c', destroyRegionNoThrow local_ calm 4 0 None true CacheEventFlags.NORMAL cache3 = Ok (err, c') /\ tree_inv c' /\
    (err = GF_NOERR ->
      (forall k, reach (lives cache3) 0%nat k -> dead_at (lives c') k) /\
      (forall p, ~ sub (lives c') p 0%nat) /\ (c_destroyPending cache3 = false -> forall s, (s, 0%nat) ∉ m_regions c')) /\
    (forall k l, ~ reach (lives cache3) 0%nat k -> lives cache3 !! k = Some l ->
      exists l', lives c' !! k = Some l' /\ kept r_ None k l l').
Proof.
  exact (destroy_region_complete local_ calm local_quiet 0 cache3 node0 None CacheEventFlags.NORMAL cache3_inv eq_refl eq_refl).
Defined.

(** The destruction of /r when the listener of /r/a throws. *)
Definition cache4 : ZCache := then_ (destroyRegionNoThrow local_ fragile 4 0 None true CacheEventFlags.NORMAL) cache3.

Lemma cache4_eq : destroyRegionNoThrow local_ fragile 4 0 None true CacheEventFlags.NORMAL cache3
  = Ok (GF_CACHE_LISTENER_EXCEPTION, cache4).
Proof. vm_compute. reflexivity. Qed.

Lemma cache4_inv : tree_inv cache4.
Proof. exact (destroy_inv local_ fragile local_quiet 0 None CacheEventFlags.NORMAL cache3 _ cache4 cache3_inv cache4_eq). Qed.

Definition life4 (i : nat) : @Life ZMap :=
  match lives cache4 !! i with Some l => l | None => mkLife [] [] None [] (plain 0) false false None end.

Lemma cache4_dead : dead_at (lives cache4) 1%nat.
Proof. exists (life4 1). split; [vm_compute; reflexivity|]. by vm_compute. Qed.

Lemma dead_subregion_blocks_witness :
  exists err c' l', destroyRegionNoThrow local_ calm 4 0 None true CacheEventFlags.NORMAL cache4 = Ok (err, c') /\ err <> GF_NOERR /\
    tree_inv c' /\ lives c' !! 0%nat = Some l' /\ l_pending l' = false /\ (a_, 1%nat) ∈ l_subs l' /\ dead_at (lives c') 1%nat.
Proof.
  refine (dead_subregion_blocks local_ calm local_quiet 0 cache4 (life4 0) a_ 1 None CacheEventFlags.NORMAL cache4_inv _ _ _
    cache4_dead eq_refl); [vm_compute; reflexivity|vm_compute; reflexivity|].
  change (l_subs (life4 0)) with [(a_, 1%nat); (b_, 2%nat)]. apply list_elem_of_here.
Defined.

(** The pool refuses: the regions are gone, but the cache is not closed, and a second attempt does nothing. *)
Lemma close_destroys_all_witness :
  (close local_ fragile busy_pool cache3).1 = Throw IllegalStateException /\
  (forall s i k, (s, i) ∈ m_regions cache3 -> reach (lives cache3) i k ->
    dead_at (lives (close local_ fragile busy_pool cache3).2) k) /\
  close local_ fragile good_services (close local_ fragile busy_pool cache3).2 = (Ok tt, (close local_ fragile busy_pool cache3).2).
Proof.
  pose proof (close_destroys_all local_ fragile local_quiet busy_pool cache3 cache3_inv eq_refl eq_refl eq_refl eq_refl) as Hc.
  destruct (close local_ fragile busy_pool cache3) as [res c']. destruct Hc as [[Hd [-> _]] Ha].
  split; [done|]. split; [exact Hd|]. by apply Ha.
Defined.

Definition task0 : RegionExpiryTask := mkRegionTask 0 LOCAL_DESTROY 60000000000 60000000100.

Lemma destroyed_region_timer_throws_witness :
  exists err c', destroyRegionNoThrow local_ calm 4 0 None true CacheEventFlags.NORMAL cache3 = Ok (err, c') /\
    (err = GF_NOERR -> region_on_callback local_ calm 0 c' = Throw RegionDestroyedException).
Proof.
  refine (destroyed_region_timer_throws local_ calm local_quiet 0 cache3 node0 None CacheEventFlags.NORMAL 0 task0
    cache3_inv eq_refl eq_refl eq_refl _ eq_refl). vm_compute. reflexivity.
Defined.
End RegionTreeExamples.
