(* ===== verification/CacheableString.v ===== *)
(** String objects (src/cppcache/include/geode/CacheableString.hpp,
    src/cppcache/src/CacheableString.cpp): the choice of the encoding, the wire format and the
    hash code (geode_hash in src/cppcache/include/geode/internal/functional.hpp), on which the
    bucket of a key depends. A string is the list of its bytes. *)
From S2P Require Import Prelude JavaModifiedUtf8 DataOutput DataInput.

Module CacheableString.

(** *** The encoding *)

Definition isAscii (str : list Z) : bool := forallb (fun c => Z.land c 0x80 =? 0) str.

(** [m_type], chosen by the constructor. *)
Definition m_type (str : list Z) : Z :=
  let ascii := isAscii str in
  if 0xFFFF <? Z.of_nat (length str)
  then if ascii then DataOutput.CacheableASCIIStringHuge else DataOutput.CacheableStringHuge
  else if ascii then DataOutput.CacheableASCIIString else DataOutput.CacheableString.

Section Wire.
Context `{Allocator} (to_utf16 to_utf8 : list Z -> outcome (list Z)).

(** [toData] of an object with the given [m_type]. *)
Definition toData (type : Z) (str : list Z) : ST DataOutput.t unit :=
  if type =? DataOutput.CacheableASCIIString then DataOutput.writeAscii str
  else if type =? DataOutput.CacheableString then DataOutput.writeJavaModifiedUtf8_string to_utf16 str
  else if type =? DataOutput.CacheableASCIIStringHuge then DataOutput.writeAsciiHuge str
  else if type =? DataOutput.CacheableStringHuge then DataOutput.writeUtf16Huge_string to_utf16 str
  else mret tt.

(** [SerializationRegistry::serialize] of a new string: its type, then [toData]. *)
Definition serialize (str : list Z) : ST DataOutput.t unit :=
  DataOutput.write_int8 (m_type str);; toData (m_type str) str.

(** [fromData] of an object created for the type. *)
Definition fromData (type : Z) : ST DataInput.t (list Z) :=
  if type =? DataOutput.CacheableASCIIString then DataInput.readAscii
  else if type =? DataOutput.CacheableString then DataInput.readJavaModifiedUtf8_string to_utf8
  else if type =? DataOutput.CacheableASCIIStringHuge then DataInput.readAsciiHuge
  else if type =? DataOutput.CacheableStringHuge then DataInput.readUtf16Huge_string to_utf8
  else mret [].

End Wire.

(** *** The hash code *)

(** [geode_hash<std::u16string>]. The sums are computed in [int]; overflow wraps around, as the
    code expects of its compilers. *)
Definition hash_u16 (val : list Z) : Z := foldl (fun hash c => s32 (31 * hash + c)) 0 val.

(** [*it] with [it] behind the end of the string. *)
Definition byte_at (val : list Z) (i : nat) : outcome Z :=
  match val !! i with Some b => Ok b | None => Throw UndefinedBehaviour end.

(** The code point at the front of the rest [val] of the string, and the number of bytes it
    takes. *)
Definition code_point (val : list Z) : outcome (Z * nat) :=
  b0 ← byte_at val 0;
  let cp := Z.land 0xff b0 in
  if cp <? 0x80 then mret (cp, 1%nat)
  else if Z.shiftr cp 5 =? 0x6 then
    b1 ← byte_at val 1;
    mret (u32 (Z.land (u32 (Z.shiftl cp 6)) 0x7ff + Z.land b1 0x3f), 2%nat)
  else if Z.shiftr cp 4 =? 0xe then
    b1 ← byte_at val 1;
    let cp := u32 (Z.land (u32 (Z.shiftl cp 12)) 0xffff + Z.land (Z.shiftl (Z.land 0xff b1) 6) 0xfff) in
    b2 ← byte_at val 2;
    mret (u32 (cp + Z.land b2 0x3f), 3%nat)
  else if Z.shiftr cp 3 =? 0x1e then
    b1 ← byte_at val 1;
    let cp := u32 (Z.land (u32 (Z.shiftl cp 18)) 0x1fffff + Z.land (Z.shiftl (Z.land 0xff b1) 12) 0x3ffff) in
    b2 ← byte_at val 2;
    let cp := u32 (cp + Z.land (Z.shiftl (Z.land 0xff b2) 6) 0xfff) in
    b3 ← byte_at val 3;
    mret (u32 (cp + Z.land b3 0x3f), 4%nat)
  else mret (cp, 1%nat).

Definition hash_cp (hash cp : Z) : Z :=
  if 0xffff <? cp then
    let hash := s32 (31 * hash + u16 (Z.shiftr cp 10 + (0xD800 - Z.shiftr 0x10000 10))) in
    s32 (31 * hash + u16 (Z.land cp 0x3ff + 0xdc00))
  else s32 (31 * hash + cp).

(** [geode_hash<std::string>]: one code point per round, of at least one byte. *)
Fixpoint hash_loop (fuel : nat) (val : list Z) (hash : Z) : outcome Z :=
  match val with
  | [] => Ok hash
  | _ =>
    match fuel with
    | O => Throw Diverges
    | S fuel => '(cp, n) ← code_point val; hash_loop fuel (drop n val) (hash_cp hash cp)
    end
  end.
Definition hash (val : list Z) : outcome Z := hash_loop (length val) val 0.

(** [CacheableString::hashcode] computes the hash code once, unless it is 0. *)
Definition hashcode (str : list Z) (m_hashcode : Z) : outcome (Z * Z) :=
  if m_hashcode =? 0 then h ← hash str; mret (h, h) else mret (m_hashcode, m_hashcode).

End CacheableString.
