(* ===== verification/CacheableStringFacts.v ===== *)
(** String objects: their hash code is that of java.lang.String, and what they write is read
    back, as long as the encoding chosen for them can hold it. *)
From S2P Require Import Prelude JavaModifiedUtf8 DataOutput DataOutputFacts DataInput DataInputFacts Utf8Strings Serialization CacheableString.
Import CacheableString.
#[local] Arguments be_bytes : simpl never.

(** *** Hash codes *)

(** The UTF-8 and UTF-16 forms of a code point. *)
Definition utf8_char (c : Z) : list Z :=
  if c <? 0x80 then [c]
  else if c <? 0x800 then [0xC0 + c / 64; 0x80 + c mod 64]
  else if c <? 0x10000 then [0xE0 + c / 4096; 0x80 + c / 64 mod 64; 0x80 + c mod 64]
  else [0xF0 + c / 262144; 0x80 + c / 4096 mod 64; 0x80 + c / 64 mod 64; 0x80 + c mod 64].
Definition utf16_char (c : Z) : list Z :=
  if c <? 0x10000 then [c] else [0xD800 + (c - 0x10000) / 1024; 0xDC00 + (c - 0x10000) mod 1024].

(** Masks and shifts as arithmetic. *)
Ltac masks :=
  rewrite ?(Z.land_comm 0xff), ?Z.shiftr_div_pow2, ?Z.shiftl_mul_pow2 by lia;
  change 0xff with (Z.ones 8); change 0x3f with (Z.ones 6); change 0x7ff with (Z.ones 11); change 0xffff with (Z.ones 16);
  change 0xfff with (Z.ones 12); change 0x1fffff with (Z.ones 21); change 0x3ffff with (Z.ones 18); change 0x3ff with (Z.ones 10);
  rewrite ?Z.land_ones by lia; unfold wrapU;
  change (2 ^ 3) with 8; change (2 ^ 4) with 16; change (2 ^ 5) with 32; change (2 ^ 6) with 64; change (2 ^ 8) with 256;
  change (2 ^ 10) with 1024; change (2 ^ 11) with 2048; change (2 ^ 12) with 4096; change (2 ^ 16) with 65536;
  change (2 ^ 18) with 262144; change (2 ^ 21) with 2097152; change (2 ^ 32) with 4294967296.

Lemma code_point_utf8 c rest : 0 <= c < 0x110000 -> code_point (utf8_char c ++ rest) = Ok (c, length (utf8_char c)).
Proof.
  intros Hc. unfold utf8_char, code_point, byte_at, mbind, outcome_bind.
  destruct (Z.ltb_spec c 0x80); [|destruct (Z.ltb_spec c 0x800); [|destruct (Z.ltb_spec c 0x10000)]]; simpl.
  - masks. case Z.ltb_spec; [|zdiv]. intros _. unfold mret, outcome_ret. do 2 f_equal. zdiv.
  - masks. case Z.ltb_spec; [zdiv|]. intros _. case Z.eqb_spec; [|zdiv]. intros _. unfold mret, outcome_ret. do 2 f_equal. zdiv.
  - masks. case Z.ltb_spec; [zdiv|]. intros _. case Z.eqb_spec; [zdiv|]. intros _. case Z.eqb_spec; [|zdiv]. intros _.
    unfold mret, outcome_ret. do 2 f_equal. zdiv.
  - masks. case Z.ltb_spec; [zdiv|]. intros _. case Z.eqb_spec; [zdiv|]. intros _. case Z.eqb_spec; [zdiv|]. intros _.
    case Z.eqb_spec; [|zdiv]. intros _. unfold mret, outcome_ret. do 2 f_equal. zdiv.
Qed.

Lemma hash_cp_utf16 hash c : 0 <= c < 0x110000 ->
  hash_cp hash c = foldl (fun hash c => s32 (31 * hash + c)) hash (utf16_char c).
Proof.
  intros Hc. unfold hash_cp, utf16_char. destruct (Z.ltb_spec 0xffff c), (Z.ltb_spec c 0x10000); try lia; [|done].
  simpl. masks. repeat f_equal; zdiv.
Qed.

Lemma utf8_char_length c : (1 <= length (utf8_char c))%nat.
Proof. unfold utf8_char. repeat case_match; simpl; lia. Qed.

Lemma hash_loop_utf8 cps : Forall (fun c => 0 <= c < 0x110000) cps -> forall fuel hash,
  (length (cps ≫= utf8_char) <= fuel)%nat ->
  hash_loop fuel (cps ≫= utf8_char) hash = Ok (foldl (fun hash c => s32 (31 * hash + c)) hash (cps ≫= utf16_char)).
Proof.
  induction 1 as [|c cps Hc _ IH]; intros fuel hash Hf; [by destruct fuel|]. rewrite !bind_cons in *. rewrite foldl_app.
  pose proof (utf8_char_length c). rewrite length_app in Hf. destruct fuel as [|fuel]; [lia|].
  destruct (utf8_char c ++ (cps ≫= utf8_char)) as [|b bs] eqn:Eb; [apply app_eq_nil in Eb as [Eb _]; rewrite Eb in *; simpl in *; lia|]. cbn [hash_loop]. rewrite <- Eb.
  rewrite (code_point_utf8 c _ Hc). unfold mbind at 1, outcome_bind. rewrite drop_app_length, IH, hash_cp_utf16 by (done || lia). done.
Qed.

(** C32. The hash code of a string object, computed from its UTF-8 bytes, is the hash code that
    java.lang.String computes from the UTF-16 code units of the same text, so that the client
    and the servers agree on the bucket of a key. *)
Theorem string_hash_is_java cps : Forall (fun c => 0 <= c < 0x110000) cps ->
  hash (cps ≫= utf8_char) = Ok (hash_u16 (cps ≫= utf16_char)).
Proof. intros Hc. by apply hash_loop_utf8. Qed.

(** "é" and an emoji. *)
Lemma string_hash_is_java_witness : hash [195; 169; 240; 159; 152; 128] = Ok (hash_u16 [233; 0xD83D; 0xDE00]).
Proof. apply (string_hash_is_java [233; 0x1F600]). repeat constructor; done. Defined.

(** *** The wire format *)

Section Wire.
Context `{AllocatorOk} (to_utf16 to_utf8 : list Z -> outcome (list Z)).
Abbreviation text_ok := (text_ok to_utf16 to_utf8).
Abbreviation utf16 := (utf16 to_utf16).

Definition enc_object (s : list Z) : list Z :=
  if 0xFFFF <? Z.of_nat (length s)
  then if isAscii s then DataOutput.CacheableASCIIStringHuge :: enc_asciiHuge s else DataOutput.CacheableStringHuge :: enc_utf16Huge (utf16 s)
  else if isAscii s then DataOutput.CacheableASCIIString :: enc_ascii s else DataOutput.CacheableString :: enc_jmutf8 (utf16 s).

(** The modified UTF-8 form fits where it is chosen. *)
Definition fits (s : list Z) : Prop :=
  isAscii s = false -> Z.of_nat (length s) <= 0xFFFF -> JavaModifiedUtf8.encodedLength (utf16 s) <= 0xFFFF.

Lemma not_ascii_nonempty s : isAscii s = false -> (length s =? 0)%nat = false.
Proof. by destruct s. Qed.

Lemma isAscii_chars s : Forall (in_u 8) s -> isAscii s = true -> Forall ascii_char s.
Proof.
  intros Hb Ha. unfold isAscii in Ha. rewrite forallb_forall in Ha. apply Forall_forall. intros c Hc.
  rewrite Forall_forall in Hb. specialize (Hb c Hc). specialize (Ha c Hc). unfold in_u, ascii_char in *. change (2 ^ 8) with 256 in Hb.
  destruct (Z.le_gt_cases c 127) as [|Hgt]; [lia|]. exfalso. apply Z.eqb_eq in Ha. apply (f_equal (fun z => Z.testbit z 7)) in Ha.
  rewrite Z.land_spec, Z.bits_0 in Ha. change (Z.testbit 128 7) with true in Ha. rewrite andb_true_r in Ha.
  rewrite Z.testbit_odd, Z.shiftr_div_pow2 in Ha by lia. replace (c / 2 ^ 7) with 1 in Ha by zdiv. done.
Qed.

Lemma emits_code c : in_u 8 c -> emits (DataOutput.write_int8 c) [c].
Proof. intros Hc. rewrite <- (wrapU_id 8 c Hc) at 2. apply emits_write_int8. Qed.

Lemma emits_serialize s : text_ok s -> fits s -> emits (serialize to_utf16 s) (enc_object s).
Proof.
  intros [Hb Ht _ Hu [Hl1 Hl2] _] Hfit. unfold serialize, toData, m_type, enc_object, fits in *.
  destruct (Z.ltb_spec 0xFFFF (Z.of_nat (length s))); destruct (isAscii s) eqn:Ea;
    (apply (emits_bind _ _ [_]); [by apply emits_code|]); cbn.
  - by apply emits_writeAsciiHuge.
  - unfold DataOutput.writeUtf16Huge_string. rewrite (not_ascii_nonempty s Ea). eapply emits_lift; [exact Ht|].
    by apply emits_writeUtf16Huge.
  - by apply emits_writeAscii.
  - unfold DataOutput.writeJavaModifiedUtf8_string. rewrite (not_ascii_nonempty s Ea). eapply emits_lift; [exact Ht|].
    apply emits_writeJavaModifiedUtf8. auto.
Qed.

Lemma reads_object s : text_ok s -> fits s -> reads (DataInput.readString_string to_utf8) (enc_object s) s.
Proof.
  intros [Hb Ht Hf Hu [Hl1 Hl2] _] Hfit. unfold DataInput.readString_string, enc_object, fits in *.
  destruct (Z.ltb_spec 0xFFFF (Z.of_nat (length s))); destruct (isAscii s) eqn:Ea; cbn;
    (eapply (reads_bind _ _ [_]); [apply reads_read|]); simpl.
  - apply reads_readAsciiHuge; [by apply isAscii_chars|done].
  - eapply reads_lift; [|exact Hf]. by apply reads_readUtf16Huge.
  - apply reads_readAscii; [by apply isAscii_chars|done].
  - eapply reads_lift; [|exact Hf]. apply reads_readJavaModifiedUtf8; [done|auto].
Qed.

(** *** Truncation *)

Lemma encodeWhile_prefix l1 l2 e : forall d r, DataOutput.encodeWhile l1 e d = Ok r -> DataOutput.encodeWhile (l1 ++ l2) e d = Ok r.
Proof.
  induction l1 as [|c l1 IH]; intros d r; cbn [DataOutput.encodeWhile app].
  - destruct l2; cbn [DataOutput.encodeWhile]; by destruct (DataOutput.m_buf d <? e).
  - destruct (DataOutput.m_buf d <? e); [|done]. unfold mbind, ST_bind. destruct (DataOutput.encodeJavaModifiedUtf8 c d) as [[[] d']|]; [|done].
    apply IH.
Qed.

(** A string too long for modified UTF-8 is cut off. *)
Lemma write_cut u l1 l2 : u = l1 ++ l2 -> JavaModifiedUtf8.encodedLength l1 = 0xFFFF -> JavaModifiedUtf8.encodedLength u >= 0xFFFF ->
  emits (DataOutput.writeJavaModifiedUtf8 u) (enc_jmutf8 l1).
Proof.
  intros -> E1 E2 d pre Hw Ho Hl. destruct (emits_writeJavaModifiedUtf8 l1 ltac:(lia) d pre Hw Ho Hl) as (d' & Hd & Hrest).
  exists d'. split; [|exact Hrest]. revert Hd. unfold DataOutput.writeJavaModifiedUtf8.
  destruct l1 as [|c l1]; [by rewrite JavaModifiedUtf8.encodedLength_fromString in E1|]. cbn [length Nat.eqb app].
  change (c :: l1 ++ l2) with ((c :: l1) ++ l2). unfold DataOutput.getJavaModifiedUtf8EncodedLength.
  replace (Z.min (JavaModifiedUtf8.encodedLength ((c :: l1) ++ l2)) 65535) with 65535 by lia.
  replace (Z.min (JavaModifiedUtf8.encodedLength (c :: l1)) 65535) with 65535 by lia.
  unfold mbind, ST_bind. destruct (DataOutput.writeInt_uint16 _ d) as [[[] d1]|]; [|done].
  destruct (DataOutput.ensureCapacity _ d1) as [[[] d2]|]; [|done]. unfold st_get.
  destruct (DataOutput.encodeWhile (c :: l1) _ d2) as [[[] d3]|] eqn:Ee; [|done]. by rewrite (encodeWhile_prefix _ l2 _ _ _ Ee).
Qed.

Lemma wide_length u : Forall (fun c => 0x800 <= c < 2 ^ 16) u -> JavaModifiedUtf8.encodedLength u = 3 * Z.of_nat (length u).
Proof.
  intros Hu. rewrite JavaModifiedUtf8.encodedLength_fromString, JavaModifiedUtf8.fromString_bind.
  induction Hu as [|c u Hc Hu IH]; [done|]. rewrite bind_cons, length_app. cbn [length].
  assert (length (JavaModifiedUtf8.enc_char c) = 3%nat); [|lia].
  unfold JavaModifiedUtf8.enc_char, JavaModifiedUtf8.encode. destruct (Z.eqb_spec c 0), (Z.ltb_spec c 0x80), (Z.ltb_spec c 0x800); try lia.
  done.
Qed.
End Wire.

(** A string object written to the wire is read back by [readString] unchanged, whichever of
    the four encodings it has, provided that a string of at most 65535 bytes that is not ASCII has a
    modified UTF-8 form of at most 65535 bytes. *)
Theorem string_object_roundtrip `{AllocatorOk} to_utf16 to_utf8 s :
  text_ok to_utf16 to_utf8 s -> fits to_utf16 s -> Z.of_nat (length (enc_object to_utf16 s)) + 16 <= 2 ^ 60 ->
  transmit (serialize to_utf16) (DataInput.readString_string to_utf8) s = Ok (s, 0).
Proof.
  intros Hs Hf Hl. apply (transmit_spec _ _ _ _ (enc_object to_utf16 s)); [by eapply emits_serialize|by apply reads_object|done].
Qed.

(** The encoding is chosen by the number of bytes in UTF-8, but modified UTF-8 takes six
    bytes for a character that UTF-8 writes with four: of a string of at most 65535 bytes with
    more than 21845 code units from U+0800 on, surrogates included, only the first 21845 code
    units are written, and nothing tells the writer or the reader. *)
Theorem wide_string_truncated `{AllocatorOk} to_utf16 s u :
  to_utf16 s = Ok u -> isAscii s = false -> Z.of_nat (length s) <= 0xFFFF ->
  Forall (fun c => 0x800 <= c < 2 ^ 16) u -> 21845 < Z.of_nat (length u) ->
  transmit (serialize to_utf16) DataInput.readString s = Ok (take (Z.to_nat 21845) u, 0) /\ take (Z.to_nat 21845) u <> u.
Proof.
  intros Ht Ha Hl Hu Hn. assert (Hcut : length (take (Z.to_nat 21845) u) = Z.to_nat 21845) by (rewrite length_take; lia).
  assert (Hw : Forall (fun c => 0x800 <= c < 2 ^ 16) (take (Z.to_nat 21845) u)) by (by apply Forall_take).
  assert (E : JavaModifiedUtf8.encodedLength (take (Z.to_nat 21845) u) = 0xFFFF) by (rewrite wide_length, Hcut by done; done).
  split; [|intros Heq; apply (f_equal length) in Heq; lia].
  apply (transmit_spec _ _ _ _ (DataOutput.CacheableString :: enc_jmutf8 (take (Z.to_nat 21845) u))).
  - unfold serialize, toData, m_type. rewrite Ha. destruct (Z.ltb_spec 0xFFFF (Z.of_nat (length s))); [lia|].
    apply (emits_bind _ _ [_]); [by apply emits_code|]. cbn. unfold DataOutput.writeJavaModifiedUtf8_string. rewrite (not_ascii_nonempty s Ha).
    eapply emits_lift; [exact Ht|]. apply (write_cut u _ (drop (Z.to_nat 21845) u)); [by rewrite take_drop|done|]. rewrite wide_length by done. lia.
  - unfold DataInput.readString. eapply (reads_bind _ _ [_]); [apply reads_read|]. simpl.
    apply reads_readJavaModifiedUtf8; [|lia]. eapply Forall_impl; [|exact Hw]. intros c. unfold in_u. lia.
  - cbn. unfold enc_jmutf8. rewrite length_app, length_be_bytes. rewrite JavaModifiedUtf8.encodedLength_fromString in E. lia.
Qed.

Section Witnesses.
#[local] Existing Instance always_alloc.
#[local] Existing Instance always_alloc_ok.

(** "é" by conversions that know it. *)
Definition e_to_utf16 (s : list Z) : outcome (list Z) := if decide (s = [195; 169]) then Ok [233] else Throw StdOutOfRange.
Definition e_to_utf8 (u : list Z) : outcome (list Z) := if decide (u = [233]) then Ok [195; 169] else Throw StdOutOfRange.

Lemma string_object_roundtrip_witness :
  transmit (serialize e_to_utf16) (DataInput.readString_string e_to_utf8) [195; 169] = Ok ([195; 169], 0).
Proof.
  apply string_object_roundtrip; [|by vm_compute|by vm_compute].
  split; [repeat constructor; done|done|done|repeat constructor; done|by vm_compute|by vm_compute].
Defined.

(** 10923 emojis: 43692 bytes of UTF-8, 21846 code units. *)
Definition emojis : list Z := replicate (Z.to_nat 10923) [240; 159; 152; 128] ≫= id.
Definition emoji_units (s : list Z) : outcome (list Z) := Ok (replicate (Z.to_nat 10923) [0xD83D; 0xDE00] ≫= id).

Lemma wide_string_truncated_witness :
  transmit (serialize emoji_units) DataInput.readString emojis = Ok (take (Z.to_nat 21845) (replicate (Z.to_nat 10923) [0xD83D; 0xDE00] ≫= id), 0) /\
  take (Z.to_nat 21845) (replicate (Z.to_nat 10923) [0xD83D; 0xDE00] ≫= id) <> replicate (Z.to_nat 10923) [0xD83D; 0xDE00] ≫= id.
Proof.
  apply (wide_string_truncated emoji_units emojis).
  - reflexivity.
  - by vm_compute.
  - by vm_compute.
  - apply Forall_bind. apply Forall_replicate. repeat constructor; done.
  - by vm_compute.
Defined.
End Witnesses.
