(* ===== verification/ServerLocation.v ===== *)
(** Servers and the buckets they host (src/cppcache/src/ServerLocation.hpp,
    BucketServerLocation.hpp, FixedPartitionAttributesImpl.hpp), their wire formats, and the two
    replies that carry them (the cases RESPONSE_CLIENT_PR_METADATA and
    RESPONSE_CLIENT_PARTITION_ATTRIBUTES of TcrMessage::handleByteArrayResponse in
    src/cppcache/src/TcrMessage.cpp).

    Strings are lists of bytes; [to_utf16] and [to_utf8] are the conversions of the standard
    library. *)
From S2P Require Import Prelude DataOutput DataInput CacheableString.

(** *** Decimal numbers *)

(** [std::to_string(int)]: ten digits at most. *)
Fixpoint digits (fuel : nat) (n : Z) : list Z :=
  match fuel with
  | O => []
  | S fuel => if n <? 10 then [48 + n] else digits fuel (n / 10) ++ [48 + n mod 10]
  end.
Definition to_string (n : Z) : list Z := if n <? 0 then 45 :: digits 11 (- n) else digits 11 n.

Definition is_space (c : Z) : bool := (c =? 32) || ((9 <=? c) && (c <=? 13)).
Definition is_digit (c : Z) : bool := (48 <=? c) && (c <=? 57).

(** [std::stoi]: blanks, a sign, digits; the rest is ignored. *)
Fixpoint digits_of (s : list Z) : list Z :=
  match s with c :: s' => if is_digit c then c :: digits_of s' else [] | [] => [] end.
Fixpoint skip_spaces (s : list Z) : list Z :=
  match s with c :: s' => if is_space c then skip_spaces s' else s | [] => [] end.
Definition stoi (s : list Z) : outcome Z :=
  let s := skip_spaces s in
  let '(sign, s) := match s with
                    | c :: s' => if c =? 45 then (-1, s') else if c =? 43 then (1, s') else (1, s)
                    | [] => (1, [])
                    end in
  match digits_of s with
  | [] => Throw StdInvalidArgument
  | ds =>
    let v := sign * foldl (fun acc d => acc * 10 + (d - 48)) 0 ds in
    if decide (in_s 32 v) then Ok v else Throw StdOutOfRange
  end.

(** *** ServerLocation *)

Definition colon : Z := 58.

(** [find_last_of(":")]. *)
Fixpoint find_last_colon (s : list Z) : option nat :=
  match s with
  | [] => None
  | c :: s' =>
    match find_last_colon s' with
    | Some i => Some (S i)
    | None => if c =? colon then Some 0%nat else None
    end
  end.

Definition makeEpString (serverName : list Z) (port : Z) : list Z := serverName ++ colon :: to_string port.

(** The constructor from the name of an endpoint. Without a colon the whole name is taken for
    the port, too. *)
Definition parseEndpoint (name : list Z) : outcome (list Z * Z) :=
  let '(serverName, rest) := match find_last_colon name with
                             | Some position => (firstn position name, skipn (S position) name)
                             | None => (name, name)
                             end in
  m_port ← stoi rest;
  mret (serverName, m_port).

(** *** BucketServerLocation *)

(** [address] tells apart the objects that pointers refer to. *)
Record BucketServerLocation := mkLocation {
  address : nat;
  m_serverName : list Z;
  m_port : Z;
  m_epString : list Z;
  m_bucketId : Z;
  m_isPrimary : bool;
  m_version : Z;
  m_serverGroups : option (list (list Z));
  m_numServerGroups : Z
}.

#[export] Instance BucketServerLocation_eq_dec : EqDecision BucketServerLocation.
Proof. solve_decision. Defined.

(** [ServerLocation::operator==], by which the maps with locations as keys compare. *)
Definition same_server (l r : BucketServerLocation) : Prop :=
  m_serverName l = m_serverName r /\ m_port l = m_port r.
#[export] Instance same_server_dec l r : Decision (same_server l r).
Proof. unfold same_server. apply _. Defined.
#[export] Instance same_server_equiv : Equivalence same_server.
Proof.
  split.
  - done.
  - intros ? ? [? ?]. done.
  - intros ? ? ? [? ?] [? ?]. unfold same_server. split; congruence.
Qed.

Definition isValid (l : BucketServerLocation) : bool := negb (bool_decide (m_serverName l = [])) && (0 <=? m_port l).

(** The constructors: from an endpoint name, and with the data of a bucket. *)
Definition location_of_name (address : nat) (host : list Z) : outcome BucketServerLocation :=
  '(name, port) ← parseEndpoint host;
  mret (mkLocation address name port (makeEpString name port) (-1) false 0 None 0).
Definition location (address : nat) (bucketId port : Z) (host : list Z) (isPrimary : bool) (version : Z)
    (serverGroups : list (list Z)) : BucketServerLocation :=
  mkLocation address host port (makeEpString host port) bucketId isPrimary version
    (match serverGroups with [] => None | _ => Some serverGroups end)
    (match serverGroups with [] => 0 | _ => s8 (Z.of_nat (length serverGroups)) end).

(** *** FixedPartitionAttributesImpl *)

Record FixedPartitionAttributesImpl := mkFixed {
  m_partitionName : list Z;
  m_isPrimaryPartition : bool;
  m_numBuckets : Z;
  m_startingBucketId : Z
}.
Definition getLastBucketID (a : FixedPartitionAttributesImpl) : Z := m_startingBucketId a + m_numBuckets a - 1.
Definition hasBucket (a : FixedPartitionAttributesImpl) (bucketId : Z) : bool :=
  (m_startingBucketId a <=? bucketId) && (bucketId <=? getLastBucketID a).

(** *** Wire formats *)

Section Wire.
Context `{Allocator} (to_utf16 to_utf8 : list Z -> outcome (list Z)).

Definition server_toData (l : BucketServerLocation) : ST DataOutput.t unit :=
  DataOutput.writeString_string to_utf16 (m_serverName l);;
  DataOutput.writeInt_int32 (m_port l).

Definition location_toData (l : BucketServerLocation) : ST DataOutput.t unit :=
  server_toData l;;
  DataOutput.writeInt_int32 (m_bucketId l);;
  DataOutput.writeBoolean (m_isPrimary l);;
  DataOutput.write_int8 (m_version l);;
  DataOutput.write_int8 (m_numServerGroups l);;
  if 0 <? m_numServerGroups l then st_iter (CacheableString.serialize to_utf16) (default [] (m_serverGroups l)) else mret tt.

(** [fromData] of a new object. *)
Definition location_fromData (address : nat) : ST DataInput.t BucketServerLocation :=
  m_serverName ← DataInput.readString_string to_utf8;
  m_port ← DataInput.readInt32;
  m_bucketId ← DataInput.readInt32;
  m_isPrimary ← DataInput.readBoolean;
  m_version ← DataInput.read;
  m_numServerGroups ← DataInput.read;
  m_serverGroups ←
    (if 0 <? m_numServerGroups
     then gs ← st_repeat (Z.to_nat m_numServerGroups) (DataInput.readString_string to_utf8); mret (Some gs)
     else mret None);
  mret (mkLocation address m_serverName m_port (makeEpString m_serverName m_port) m_bucketId m_isPrimary m_version
          m_serverGroups m_numServerGroups).

Definition fixed_toData (a : FixedPartitionAttributesImpl) : ST DataOutput.t unit :=
  DataOutput.writeString_string to_utf16 (m_partitionName a);;
  DataOutput.writeBoolean (m_isPrimaryPartition a);;
  DataOutput.writeInt_int32 (m_numBuckets a);;
  DataOutput.writeInt_int32 (m_startingBucketId a).
Definition fixed_fromData : ST DataInput.t FixedPartitionAttributesImpl :=
  m_partitionName ← DataInput.readString_string to_utf8;
  m_isPrimary ← DataInput.readBoolean;
  m_numBuckets ← DataInput.readInt32;
  m_startingBucketId ← DataInput.readInt32;
  mret (mkFixed m_partitionName m_isPrimary m_numBuckets m_startingBucketId).

(** *** Replies *)

(** The objects of an array, the [index]-th at the address that follows [base]. *)
Fixpoint read_objects {X} (read_one : nat -> ST DataInput.t X) (n : nat) (base : nat) : ST DataInput.t (list X) :=
  match n with
  | O => mret []
  | S n => x ← read_one base; xs ← read_objects read_one n (S base); mret (x :: xs)
  end.

(** An object of a reply: the type ids and the name of its class are skipped. *)
Definition read_location (address : nat) : ST DataInput.t BucketServerLocation :=
  DataInput.advanceCursor 3;;
  classLen ← DataInput.readInt16;
  DataInput.advanceCursor (u16 classLen);;
  location_fromData address.
Definition read_fixed (address : nat) : ST DataInput.t FixedPartitionAttributesImpl :=
  DataInput.advanceCursor 3;;
  classLen ← DataInput.readInt16;
  DataInput.advanceCursor classLen;;
  fixed_fromData.

(** RESPONSE_CLIENT_PR_METADATA: the locations of one bucket per part; empty parts are
    dropped. The null pointer for a reply of 17 bytes. *)
Fixpoint read_buckets (numparts : nat) (base : nat) : ST DataInput.t (list (list BucketServerLocation)) :=
  match numparts with
  | O => mret []
  | S numparts =>
    DataInput.readInt32;;
    DataInput.read;;
    DataInput.read;;
    arrayLength ← DataInput.readArrayLength;
    if 0 <? arrayLength then
      bucketServerLocations ← read_objects read_location (Z.to_nat arrayLength) base;
      rest ← read_buckets numparts (base + Z.to_nat arrayLength);
      mret (bucketServerLocations :: rest)
    else read_buckets numparts base
  end.
Definition read_prMetadata (len numparts : Z) : ST DataInput.t (option (list (list BucketServerLocation))) :=
  if len =? 17 then mret None
  else m ← read_buckets (Z.to_nat numparts) 0; mret (Some m).

(** RESPONSE_CLIENT_PARTITION_ATTRIBUTES. Fields whose parts are empty stay as they are. *)
Record PartitionAttributes := mkAttributes {
  m_bucketCount : Z;
  m_colocatedWith : list Z;
  m_fpaSet : option (list FixedPartitionAttributesImpl)
}.
Definition read_partitionAttributes (old : PartitionAttributes) (numparts : Z) : ST DataInput.t PartitionAttributes :=
  DataInput.readInt32;;
  DataInput.read;;
  m_bucketCount' ← DataInput.readNativeInt32;
  partLength ← DataInput.readInt32;
  DataInput.read;;
  m_colocatedWith' ← (if 0 <? partLength then DataInput.readString_string to_utf8 else mret (m_colocatedWith old));
  m_fpaSet' ←
    (if numparts =? 4 then
       partLength ← DataInput.readInt32;
       DataInput.read;;
       (if 0 <? partLength then DataInput.readString_string to_utf8;; mret tt else mret tt);;
       DataInput.readInt32;;
       DataInput.read;;
       DataInput.read;;
       arrayLength ← DataInput.readArrayLength;
       if 0 <? arrayLength then s ← read_objects read_fixed (Z.to_nat arrayLength) 0; mret (Some s) else mret (m_fpaSet old)
     else mret (m_fpaSet old));
  mret (mkAttributes m_bucketCount' m_colocatedWith' m_fpaSet').

End Wire.
