(* ===== verification/ServerLocationFacts.v ===== *)
(** Servers on the wire: the locations of a reply are read as the servers wrote them, and the
    name of an endpoint identifies its server. *)
From S2P Require Import Prelude DataOutput DataOutputFacts DataInput DataInputFacts Utf8Strings CacheableString CacheableStringFacts ServerLocation.
#[local] Arguments be_bytes : simpl never.
Local Open Scope Z_scope.

(** *** Decimal numbers *)

Definition value_of (ds : list Z) (acc : Z) : Z := foldl (fun acc d => acc * 10 + (d - 48)) acc ds.

Lemma digits_spec fuel n : 0 <= n < 10 ^ Z.of_nat fuel -> (0 < fuel)%nat ->
  digits fuel n <> [] /\ Forall (fun d => 48 <= d <= 57) (digits fuel n) /\ value_of (digits fuel n) 0 = n.
Proof.
  revert n. induction fuel as [|fuel IH]; intros n Hn Hf; [lia|]. cbn [digits]. destruct (Z.ltb_spec n 10).
  - split; [done|]. split; [repeat constructor; lia|]. cbn. lia.
  - assert (Hd : 0 <= n / 10 < 10 ^ Z.of_nat fuel).
    { replace (Z.of_nat (S fuel)) with (Z.succ (Z.of_nat fuel)) in Hn by lia. rewrite Z.pow_succ_r in Hn by lia. zdiv. }
    destruct fuel as [|fuel]; [simpl in Hd; zdiv|].
    destruct (IH (n / 10) Hd) as (H1 & H2 & H3); [lia|]. pose proof (Z.mod_pos_bound n 10). split; [by destruct (digits (S fuel) (n / 10))|].
    split; [apply Forall_app; split; [done|repeat constructor; lia]|].
    unfold value_of in *. rewrite foldl_app, H3. cbn. zdiv.
Qed.

Lemma digits_of_all ds : Forall (fun d => 48 <= d <= 57) ds -> digits_of ds = ds.
Proof.
  induction 1 as [|d ds Hd _ IH]; [done|]. cbn [digits_of]. unfold is_digit.
  replace (48 <=? d) with true by lia. replace (d <=? 57) with true by lia. cbn. by rewrite IH.
Qed.

Lemma stoi_digits sign ds n : ds <> [] -> Forall (fun d => 48 <= d <= 57) ds -> value_of ds 0 = n -> in_s 32 (sign * n) ->
  match digits_of ds with
  | [] => Throw StdInvalidArgument
  | ds => let v := sign * foldl (fun acc d => acc * 10 + (d - 48)) 0 ds in if decide (in_s 32 v) then Ok v else Throw StdOutOfRange
  end = Ok (sign * n).
Proof.
  intros Hne Hds Hv Hs. rewrite (digits_of_all ds Hds). destruct ds as [|d ds]; [done|]. cbv zeta. unfold value_of in Hv. rewrite Hv.
  by rewrite decide_True.
Qed.

Lemma stoi_to_string n : in_s 32 n -> stoi (to_string n) = Ok n.
Proof.
  intros Hn. unfold in_s in Hn. unfold stoi, to_string. destruct (Z.ltb_spec n 0).
  - destruct (digits_spec 11 (- n)) as (H1 & H2 & H3); [cbn; lia|lia|]. revert H1 H2 H3. generalize (digits 11 (- n)). intros ds H1 H2 H3.
    transitivity (Ok (-1 * - n)); [|f_equal; lia]. apply (stoi_digits (-1) ds (- n)); [done|done|done|]. unfold in_s. lia.
  - destruct (digits_spec 11 n) as (H1 & H2 & H3); [cbn; lia|lia|]. destruct (digits 11 n) as [|d ds] eqn:Ed; [done|].
    assert (Hd : 48 <= d <= 57) by (by inversion H2). cbn [skip_spaces]. unfold is_space.
    replace (d =? 32) with false by lia. replace (9 <=? d) with true by lia. replace (d <=? 13) with false by lia. cbn [orb andb].
    replace (d =? 45) with false by lia. replace (d =? 43) with false by lia.
    transitivity (Ok (1 * n)); [|f_equal; lia]. apply (stoi_digits 1 (d :: ds) n); [done|done|done|]. unfold in_s. lia.
Qed.

Lemma to_string_no_colon n : Forall (fun c => c <> colon) (to_string n).
Proof.
  assert (Hd : forall fuel k, 0 <= k -> Forall (fun c => c <> colon) (digits fuel k)).
  { unfold colon. induction fuel as [|fuel IH]; intros k Hk; cbn [digits]; [constructor|]. pose proof (Z.mod_pos_bound k 10).
    destruct (Z.ltb_spec k 10); [repeat constructor; lia|]. apply Forall_app. split; [apply IH; zdiv|repeat constructor; lia]. }
  unfold to_string. destruct (Z.ltb_spec n 0); [constructor; [done|]|]; apply Hd; lia.
Qed.

(** *** Endpoint names *)

Lemma find_last_colon_at name rest : Forall (fun c => c <> colon) rest -> find_last_colon (name ++ colon :: rest) = Some (length name).
Proof.
  intros Hr. assert (Hn : find_last_colon rest = None).
  { induction Hr as [|c r Hc _ IH]; [done|]. cbn [find_last_colon]. rewrite IH. by case Z.eqb_spec. }
  induction name as [|c name IH]; cbn [app find_last_colon length]; [by rewrite Hn|]. by rewrite IH.
Qed.

Lemma parse_made name port : in_s 32 port -> parseEndpoint (makeEpString name port) = Ok (name, port).
Proof.
  intros Hp. unfold parseEndpoint, makeEpString. rewrite (find_last_colon_at name _ (to_string_no_colon port)).
  rewrite take_app_length. replace (S (length name)) with (length (name ++ [colon])) by (rewrite length_app; simpl; lia).
  replace (name ++ colon :: to_string port) with ((name ++ [colon]) ++ to_string port) by (by rewrite <- (assoc_L (++))).
  rewrite drop_app_length, (stoi_to_string port Hp). done.
Qed.

(** The name of an endpoint identifies a server: reading the name that is made of a server
    gives its host and port, and two servers have the same name only if they are the same. So a
    failed endpoint is found in the tables by its name. *)
Theorem endpoint_roundtrip name port :
  in_s 32 port ->
  parseEndpoint (makeEpString name port) = Ok (name, port) /\
  forall name' port', in_s 32 port' -> makeEpString name' port' = makeEpString name port -> name' = name /\ port' = port.
Proof.
  intros Hp. split; [by apply parse_made|]. intros name' port' Hp' E. pose proof (parse_made name' port' Hp') as H.
  rewrite E, (parse_made name port Hp) in H. by injection H.
Qed.

Lemma endpoint_roundtrip_witness :
  parseEndpoint [104; 58; 52; 48; 52; 48; 52] = Ok ([104], 40404) /\
  forall name' port', in_s 32 port' -> makeEpString name' port' = [104; 58; 52; 48; 52; 48; 52] -> name' = [104] /\ port' = 40404.
Proof. apply (endpoint_roundtrip [104] 40404). vm_compute. split; [done|reflexivity]. Defined.

(** *** Locations on the wire *)

Section Wire.
Context `{AllocatorOk} (to_utf16 to_utf8 : list Z -> outcome (list Z)).
Abbreviation text_ok := (text_ok to_utf16 to_utf8).

(** A location as the constructors make it, with data in range. *)
Record location_ok (l : BucketServerLocation) : Prop := {
  lo_name : text_ok (m_serverName l);
  lo_port : in_s 32 (m_port l);
  lo_ep : m_epString l = makeEpString (m_serverName l) (m_port l);
  lo_bucket : in_s 32 (m_bucketId l);
  lo_version : in_s 8 (m_version l);
  lo_groups : match m_serverGroups l with
              | None => m_numServerGroups l = 0
              | Some gs => gs <> [] /\ m_numServerGroups l = Z.of_nat (length gs) /\ Z.of_nat (length gs) <= 127 /\
                  Forall (fun g => text_ok g /\ fits to_utf16 g) gs
              end
}.

Definition enc_location (l : BucketServerLocation) : list Z :=
  enc_text to_utf16 (m_serverName l) ++ be_bytes 4 (u32 (m_port l)) ++ be_bytes 4 (u32 (m_bucketId l)) ++
  [if m_isPrimary l then 1 else 0] ++ [u8 (m_version l)] ++ [u8 (m_numServerGroups l)] ++
  (default [] (m_serverGroups l) ≫= enc_object to_utf16).

(** The same location as another object. *)
Definition at_address (a : nat) (l : BucketServerLocation) : BucketServerLocation :=
  mkLocation a (m_serverName l) (m_port l) (m_epString l) (m_bucketId l) (m_isPrimary l) (m_version l) (m_serverGroups l)
    (m_numServerGroups l).

Lemma emits_iter_each {X} (f : X -> ST DataOutput.t unit) (enc : X -> list Z) xs :
  Forall (fun x => emits (f x) (enc x)) xs -> emits (st_iter f xs) (xs ≫= enc).
Proof. induction 1 as [|x xs Hx _ IH]; [apply emits_ret|]. rewrite bind_cons. by apply emits_bind. Qed.

Lemma emits_location l : location_ok l -> emits (location_toData to_utf16 l) (enc_location l).
Proof.
  intros [Hn Hp _ Hb Hv Hg]. unfold location_toData, server_toData, enc_location. rewrite (assoc_L (++)).
  apply emits_bind; [apply emits_bind; [by eapply emits_writeString_string|apply emits_writeInt_int32]|].
  apply emits_bind; [apply emits_writeInt_int32|]. apply emits_bind; [apply emits_writeBoolean|].
  apply emits_bind; [apply emits_write_int8|]. apply emits_bind; [apply emits_write_int8|].
  destruct (m_serverGroups l) as [gs|]; simpl.
  - destruct Hg as (Hne & -> & _ & Hgs). destruct gs as [|g gs]; [done|]. replace (0 <? Z.of_nat (length (g :: gs))) with true by done.
    apply emits_iter_each. eapply Forall_impl; [|exact Hgs]. intros x [Hx Hf]. by eapply emits_serialize.
  - rewrite Hg. apply emits_ret.
Qed.

Lemma reads_location a l : location_ok l -> reads (location_fromData to_utf8 a) (enc_location l) (at_address a l).
Proof.
  intros [Hn Hp He Hb Hv Hg]. unfold location_fromData, enc_location, at_address.
  assert (H32 : forall z, in_s 32 z -> s32 (u32 z) = z) by (intros z Hz; rewrite wrapS_wrapU; by apply wrapS_id).
  eapply reads_bind; [by apply reads_readString_string|]. eapply reads_bind; [apply reads_readInt32|].
  eapply reads_bind; [apply reads_readInt32|]. eapply reads_bind; [apply reads_readBoolean|].
  eapply reads_bind; [apply reads_read|]. eapply reads_bind; [apply reads_read|].
  rewrite !H32 by done. rewrite (wrapS_wrapU 8), (wrapS_id 8 (m_version l)) by done. rewrite wrapS_wrapU, He.
  destruct (m_serverGroups l) as [gs|]; simpl.
  - destruct Hg as (Hne & Hnum & Hle & Hgs). rewrite Hnum. rewrite wrapS_id by (unfold in_s; lia).
    destruct gs as [|g gs]; [done|]. replace (0 <? Z.of_nat (length (g :: gs))) with true by done. rewrite Nat2Z.id.
    rewrite <- (app_nil_r ((g :: gs) ≫= enc_object to_utf16)). eapply reads_bind; [|apply reads_ret].
    rewrite <- (app_nil_r ((g :: gs) ≫= enc_object to_utf16)). eapply reads_bind; [|apply reads_ret].
    apply reads_repeat; [done|]. eapply Forall_impl; [|exact Hgs]. intros x [Hx Hf]. by eapply reads_object.
  - rewrite Hg. change (s8 0) with 0. simpl. apply (reads_bind _ _ []) with None; [apply reads_ret|apply reads_ret].
Qed.

(** *** Replies *)

(** Skipping bytes. *)
Lemma reads_advance l : reads (DataInput.advanceCursor (Z.of_nat (length l))) l tt.
Proof.
  intros pre rest Hl. unfold DataInput.advanceCursor, st_modify, at_. cbn. rewrite <- (assoc_L (++)), !length_app. do 3 f_equal. lia.
Qed.

(** An object of a reply: three type ids, the name of the class and the location. *)
Record wire_object := mkWire { w_ids : list Z; w_class : list Z; w_location : BucketServerLocation }.
Definition wire_ok (w : wire_object) : Prop :=
  length (w_ids w) = 3%nat /\ Z.of_nat (length (w_class w)) < 2 ^ 16 /\ location_ok (w_location w).
Definition enc_wire (w : wire_object) : list Z :=
  w_ids w ++ be_bytes 2 (Z.of_nat (length (w_class w))) ++ w_class w ++ enc_location (w_location w).

(** A part of a reply: its length, two bytes that are ignored, and the objects of a bucket. *)
Record wire_part := mkPart { p_length : Z; p_isObj : Z; p_type : Z; p_objects : list wire_object }.
Definition part_ok (p : wire_part) : Prop := Z.of_nat (length (p_objects p)) < 2 ^ 31 /\ Forall wire_ok (p_objects p).
Definition enc_part (p : wire_part) : list Z :=
  be_bytes 4 (p_length p) ++ [p_isObj p] ++ [p_type p] ++ enc_arrayLen (Z.of_nat (length (p_objects p))) ++ (p_objects p ≫= enc_wire).

(** The locations of the objects, each at an address of its own. *)
Definition located (base : nat) (ws : list wire_object) : list BucketServerLocation :=
  imap (fun i w => at_address (base + i) (w_location w)) ws.
Fixpoint received (base : nat) (ps : list wire_part) : list (list BucketServerLocation) :=
  match ps with
  | [] => []
  | p :: ps' =>
    match p_objects p with
    | [] => received base ps'
    | ws => located base ws :: received (base + length ws) ps'
    end
  end.

Lemma reads_wire_object a w : wire_ok w -> reads (read_location to_utf8 a) (enc_wire w) (at_address a (w_location w)).
Proof.
  intros (Hi & Hc & Hl). unfold read_location, enc_wire.
  eapply reads_bind; [change 3 with (Z.of_nat 3); rewrite <- Hi; apply reads_advance|].
  eapply reads_bind; [apply reads_readInt16|]. rewrite wrapU_wrapS, wrapU_id by (unfold in_u; lia).
  eapply reads_bind; [apply reads_advance|]. by apply reads_location.
Qed.

Lemma reads_wires ws : Forall wire_ok ws -> forall base,
  reads (read_objects (read_location to_utf8) (length ws) base) (ws ≫= enc_wire) (located base ws).
Proof.
  induction 1 as [|w ws Hw _ IH]; intros base; [apply reads_ret|]. cbn [length read_objects]. rewrite bind_cons.
  unfold located. rewrite imap_cons, Nat.add_0_r. eapply reads_bind; [by apply reads_wire_object|].
  rewrite <- (app_nil_r (ws ≫= enc_wire)). eapply reads_bind; [apply IH|].
  replace (imap _ ws) with (located (S base) ws); [apply reads_ret|]. unfold located. apply imap_ext. intros i x _. cbn. f_equal. lia.
Qed.

Lemma reads_parts ps : Forall part_ok ps -> forall base,
  reads (read_buckets to_utf8 (length ps) base) (ps ≫= enc_part) (received base ps).
Proof.
  induction 1 as [|p ps [Hn Hw] _ IH]; intros base; [apply reads_ret|]. cbn [length read_buckets received]. rewrite bind_cons.
  unfold enc_part. rewrite <- !(assoc_L (++)).
  eapply reads_bind; [apply reads_readInt32|]. eapply reads_bind; [apply reads_read|]. eapply reads_bind; [apply reads_read|].
  eapply reads_bind; [apply reads_readArrayLength; lia|]. destruct (p_objects p) as [|w ws]; [apply IH|].
  replace (0 <? Z.of_nat (length (w :: ws))) with true by done. rewrite Nat2Z.id.
  eapply reads_bind; [by apply reads_wires|].
  rewrite <- (app_nil_r (ps ≫= enc_part)). eapply reads_bind; [apply IH|apply reads_ret].
Qed.

Lemma located_addresses base ws : address <$> located base ws = seq base (length ws).
Proof.
  unfold located. revert base. induction ws as [|w ws IH]; intros base; [done|]. rewrite imap_cons. cbn [length seq fmap list_fmap].
  rewrite Nat.add_0_r. f_equal. rewrite <- (IH (S base)). f_equal. apply imap_ext. intros i x _. cbn. f_equal. lia.
Qed.

Lemma received_addresses ps : forall base, exists n, address <$> concat (received base ps) = seq base n.
Proof.
  induction ps as [|p ps IH]; intros base; [by exists 0%nat|]. cbn [received]. destruct (p_objects p) as [|w ws]; [apply IH|].
  destruct (IH (base + length (w :: ws))%nat) as [n Hn]. exists (length (w :: ws) + n)%nat. cbn [concat].
  by rewrite fmap_app, located_addresses, Hn, seq_app.
Qed.
End Wire.

(** A reply with the locations of buckets is read completely: the parts that are not empty
    come back in order with the locations as they were written by [toData], server groups
    included, and every location is an object of its own. *)
Theorem metadata_reply_read `{AllocatorOk} to_utf16 to_utf8 ps len :
  Forall (part_ok to_utf16 to_utf8) ps -> len <> 17 ->
  (forall p w, p ∈ ps -> w ∈ p_objects p -> emits (location_toData to_utf16 (w_location w)) (enc_location to_utf16 (w_location w))) /\
  reads (read_prMetadata to_utf8 len (Z.of_nat (length ps))) (ps ≫= enc_part to_utf16) (Some (received 0 ps)) /\
  NoDup (address <$> concat (received 0 ps)).
Proof.
  intros Hps Hlen. repeat split.
  - intros p w Hp Hw. rewrite list.Forall_forall in Hps. destruct (Hps p Hp) as [_ Hws]. rewrite list.Forall_forall in Hws.
    destruct (Hws w Hw) as (_ & _ & Hl). by eapply emits_location.
  - unfold read_prMetadata. case Z.eqb_spec; [done|]. intros _. rewrite Nat2Z.id. rewrite <- (app_nil_r (ps ≫= _)).
    eapply reads_bind; [by apply reads_parts|apply reads_ret].
  - destruct (received_addresses ps 0) as [n ->]. apply NoDup_seq.
Qed.

(** A bucket with two copies, one of them on a server of the group "g", and a bucket without. *)
Definition some_parts : list wire_part :=
  [mkPart 40 1 0
     [mkWire [1; 2; 3] [66; 83; 76] (location 7 3 40404 [104] true 1 [[103]]);
      mkWire [1; 2; 3] [66; 83; 76] (location 8 3 40405 [104] false 1 [])];
   mkPart 1 1 0 []].

Lemma metadata_reply_read_witness :
  reads (read_prMetadata Ok 100 2) (some_parts ≫= enc_part Ok)
    (Some [[location 0 3 40404 [104] true 1 [[103]]; location 1 3 40405 [104] false 1 []]]).
Proof.
  apply (metadata_reply_read (H0 := always_alloc_ok) Ok Ok some_parts 100); [|done].
  repeat (constructor || intros ?); try done.
Defined.
