(* ===== verification/ClientMetadata.v ===== *)
(** The metadata of a partitioned region (src/cppcache/src/ClientMetadata.cpp,
    ClientMetadata.hpp): for each bucket the servers that host it, primaries first.

    [randgen n] is the number below [n] that a generator returns; [shuffle] is [std::shuffle]. *)
From S2P Require Import Prelude ServerLocation.

(** The bytes of a [std::string] up to the first null byte, as [c_str()] passes them on. *)
Fixpoint c_str (s : list Z) : list Z :=
  match s with c :: s' => if c =? 0 then [] else c :: c_str s' | [] => [] end.

Module ClientMetadata.

(** Of [m_tcrdm] the server group is used. [m_previousOne] is the index of a metadata object
    in the store of the service. *)
Record t := mk {
  m_partitionNames : option (gset (list Z));
  m_bucketServerLocationsList : list (list BucketServerLocation);
  m_previousOne : option nat;
  m_totalNumBuckets : Z;
  m_colocatedWith : list Z;
  m_tcrdm : option (list Z);
  m_fpaMap : gmap (list Z) (Z * Z)
}.

Definition with_lists (l : list (list BucketServerLocation)) (m : t) : t :=
  mk (m_partitionNames m) l (m_previousOne m) (m_totalNumBuckets m) (m_colocatedWith m) (m_tcrdm m) (m_fpaMap m).
Definition setPreviousone (p : option nat) (m : t) : t :=
  mk (m_partitionNames m) (m_bucketServerLocationsList m) p (m_totalNumBuckets m) (m_colocatedWith m) (m_tcrdm m) (m_fpaMap m).

(** *** Constructors *)

Definition partition_names (fpaMap : gmap (list Z) (Z * Z)) : gset (list Z) :=
  list_to_set (c_str <$> elements (dom fpaMap)).
Definition setPartitionNames (m : t) : t :=
  mk (Some (partition_names (m_fpaMap m))) (m_bucketServerLocationsList m) (m_previousOne m) (m_totalNumBuckets m)
     (m_colocatedWith m) (m_tcrdm m) (m_fpaMap m).

Definition empty_buckets (n : Z) : list (list BucketServerLocation) := replicate (Z.to_nat n) [].
Definition fpa_map (s : list FixedPartitionAttributesImpl) : gmap (list Z) (Z * Z) :=
  foldl (fun m a => <[m_partitionName a := (m_numBuckets a, m_startingBucketId a)]> m) ∅ s.

Definition construct (totalNumBuckets : Z) (colocatedWith : list Z) (tcrdm : option (list Z))
    (fpaSet : option (list FixedPartitionAttributesImpl)) : outcome t :=
  match tcrdm with
  | None => Throw IllegalArgumentException
  | Some _ =>
    let m := mk None (empty_buckets totalNumBuckets) None totalNumBuckets colocatedWith tcrdm ∅ in
    match fpaSet with
    | None | Some [] => Ok m
    | Some s => Ok (setPartitionNames (mk None (m_bucketServerLocationsList m) None totalNumBuckets colocatedWith tcrdm (fpa_map s)))
    end
  end.

(** The copy constructor does not copy the locations. *)
Definition copy (other : t) : t :=
  let m := mk None (empty_buckets (m_totalNumBuckets other)) None (m_totalNumBuckets other) (m_colocatedWith other)
              (m_tcrdm other) (m_fpaMap other) in
  if decide (m_fpaMap m = ∅) then m else setPartitionNames m.

(** *** The locations of a bucket *)

(** The bucket id is converted to [size_t]. *)
Definition checkBucketId (m : t) (bucketId : Z) : outcome unit :=
  if Z.of_nat (length (m_bucketServerLocationsList m)) <=? u64 bucketId then Throw IllegalStateException else Ok tt.
Definition locations (m : t) (bucketId : Z) : list BucketServerLocation :=
  default [] (m_bucketServerLocationsList m !! Z.to_nat (u64 bucketId)).

Fixpoint erase_server (ep : list Z) (l : list BucketServerLocation) : list BucketServerLocation :=
  match l with
  | [] => []
  | x :: l' => if decide (m_epString x = ep) then l' else x :: erase_server ep l'
  end.
Definition removeBucketServerLocation (serverLocation : BucketServerLocation) (m : t) : t :=
  with_lists (erase_server (m_epString serverLocation) <$> m_bucketServerLocationsList m) m.

(** The version is reported unless the first location is a valid secondary. *)
Definition version_of (first : BucketServerLocation) (version : Z) : Z :=
  if isValid first then if m_isPrimary first then m_version first else version else m_version first.

(** The reference arguments [serverLocation] and [version] before and after. *)
Definition getServerLocation (randgen : nat -> nat) (m : t) (bucketId : Z) (tryPrimary : bool)
    (serverLocation : option BucketServerLocation) (version : Z) : outcome (option BucketServerLocation * Z) :=
  checkBucketId m bucketId;;
  match locations m bucketId with
  | [] => Ok (serverLocation, version)
  | first :: _ =>
    if tryPrimary then Ok (Some first, version_of first version)
    else
      match locations m bucketId !! randgen (length (locations m bucketId)) with
      | Some l => Ok (Some l, version_of first version)
      | None => Throw StdOutOfRange
      end
  end.

(** *** Updates *)

Definition push_back (l : BucketServerLocation) (ps : list BucketServerLocation * list BucketServerLocation) :=
  if m_isPrimary l then (ps.1 ++ [l], ps.2) else (ps.1, ps.2 ++ [l]).

(** The loop over the groups of a server. *)
Fixpoint add_by_group (serverGroup : list Z) (l : BucketServerLocation) (groups : list (list Z)) (added : bool)
    (ps : list BucketServerLocation * list BucketServerLocation) :=
  match groups with
  | [] => if added then ps else push_back l ps
  | cs :: groups' =>
    if decide (cs = []) then add_by_group serverGroup l groups' true (push_back l ps)
    else if decide (cs = serverGroup) then push_back l ps
    else add_by_group serverGroup l groups' added ps
  end.
Definition add_grouped (serverGroup : list Z) (ps : list BucketServerLocation * list BucketServerLocation)
    (l : BucketServerLocation) :=
  match m_serverGroups l with
  | None | Some [] => ps
  | Some groups => add_by_group serverGroup l groups false ps
  end.

(** The new list of a bucket: primaries, then secondaries, each shuffled. *)
Definition ordered_locations (shuffle : list BucketServerLocation -> list BucketServerLocation) (serverGroup : list Z)
    (bucketServerLocations : list BucketServerLocation) : list BucketServerLocation :=
  let '(primaries, secondaries) :=
    if decide (serverGroup = []) then foldl (flip push_back) ([], []) bucketServerLocations
    else foldl (add_grouped serverGroup) ([], []) bucketServerLocations in
  shuffle primaries ++ shuffle secondaries.

Definition updateBucketServerLocations (shuffle : list BucketServerLocation -> list BucketServerLocation) (bucketId : Z)
    (bucketServerLocations : list BucketServerLocation) (m : t) : outcome t :=
  checkBucketId m bucketId;;
  let l := ordered_locations shuffle (default [] (m_tcrdm m)) bucketServerLocations in
  Ok (with_lists (<[Z.to_nat (u64 bucketId) := l]> (m_bucketServerLocationsList m)) m).

(** *** Advice *)

(** [hc % n] of [int]s. *)
Definition int_rem (hc n : Z) : outcome Z :=
  if (n =? 0) || ((hc =? - 2 ^ 31) && (n =? -1)) then Throw UndefinedBehaviour else Ok (Z.rem hc n).

Definition assignFixedBucketId (m : t) (partitionName : list Z) (hashcode : Z) : outcome Z :=
  match m_fpaMap m !! c_str partitionName with
  | Some (numBuckets, start) =>
    r ← int_rem hashcode numBuckets;
    let partitionBucketID := Z.abs r + start in
    if decide (in_s 32 partitionBucketID) then Ok partitionBucketID else Throw UndefinedBehaviour
  | None => Ok (-1)
  end.

Definition adviseServerLocations (m : t) (bucketId : Z) : outcome (list BucketServerLocation) :=
  checkBucketId m bucketId;; Ok (locations m bucketId).
Definition advisePrimaryServerLocation (m : t) (bucketId : Z) : outcome (option BucketServerLocation) :=
  ls ← adviseServerLocations m bucketId; Ok (List.find m_isPrimary ls).
Definition adviseRandomServerLocation (randgen : nat -> nat) (m : t) : outcome (option BucketServerLocation) :=
  if (0 <? length (m_bucketServerLocationsList m))%nat then
    let random := Z.of_nat (randgen (length (m_bucketServerLocationsList m))) in
    ls ← adviseServerLocations m random; Ok (head ls)
  else Ok None.

End ClientMetadata.
