(* ===== verification/ClientMetadataService.v ===== *)
(** Single-hop routing (src/cppcache/src/ClientMetadataService.cpp,
    ClientMetadataService.hpp): the metadata of the partitioned regions of a pool, its refresh
    by the service thread, and the choice of servers for keys, bulk operations and functions.

    Metadata objects are shared (two colocated regions have the same one) and are kept in a
    store. The servers' replies, the random numbers, the order of hash tables and sets and the
    application's partition resolver are arguments. Locks make each operation atomic. *)
From S2P Require Import Prelude MapEntry LocalRegion ServerLocation ClientMetadata.


(** The partition resolver of a region; a [FixedPartitionResolver] names partitions, too. *)
Record PartitionResolver (K V A : Type) := mkResolver {
  getRoutingObject : EntryEvent K V A -> option K;
  getPartitionName : option (EntryEvent K V A -> list Z)
}.
Arguments mkResolver {K V A} _ _.
Arguments getRoutingObject {K V A} _ _.
Arguments getPartitionName {K V A} _.

(** A region as the service sees it. *)
Record RegionView (K V A : Type) := mkView {
  getFullPath : list Z;
  getPartitionResolver : option (PartitionResolver K V A)
}.
Arguments mkView {K V A} _ _.
Arguments getFullPath {K V A} _.
Arguments getPartitionResolver {K V A} _.

(** [BucketStatus]: the time of the last timeout, 0 ([m_noTimeout]) for none. *)
Definition isTimedoutAndReset (now millis m_lastTimeout : Z) : bool * Z :=
  if m_lastTimeout =? 0 then (false, m_lastTimeout)
  else if now <? m_lastTimeout + millis then (true, m_lastTimeout)
  else (false, 0).
Definition setTimeout (now m_lastTimeout : Z) : Z := if m_lastTimeout =? 0 then now else m_lastTimeout.

(** [queue::coalesce]. *)
Fixpoint coalesce (queue : list (list Z)) (value : list Z) : list (list Z) :=
  match queue with
  | next :: queue' => if decide (next = value) then coalesce queue' value else queue
  | [] => []
  end.

Module ClientMetadataService.

(** [regions] are those of the cache by path, with [m_isMetaDataRefreshed] ([None] for a region
    that is not a [ThinClientRegion]); the flags below it are the cache's. *)
Record t := mk {
  objects : list ClientMetadata.t;
  m_regionMetaDataMap : gmap (list Z) nat;
  m_regionQueue : list (list Z);
  m_bucketStatus : gmap (list Z) (list Z);
  m_bucketWaitTimeout : Z;
  m_serverGroup : list Z;
  m_run : bool;
  regions : gmap (list Z) (option bool);
  m_networkhop : bool;
  m_pr_metadata_updated : bool;
  m_serverGroupFlag : Z;
  m_destroyPending : bool
}.

Definition with_objects (os : list ClientMetadata.t) (s : t) : t :=
  mk os (m_regionMetaDataMap s) (m_regionQueue s) (m_bucketStatus s) (m_bucketWaitTimeout s) (m_serverGroup s) (m_run s)
     (regions s) (m_networkhop s) (m_pr_metadata_updated s) (m_serverGroupFlag s) (m_destroyPending s).
Definition with_map (m : gmap (list Z) nat) (s : t) : t :=
  mk (objects s) m (m_regionQueue s) (m_bucketStatus s) (m_bucketWaitTimeout s) (m_serverGroup s) (m_run s)
     (regions s) (m_networkhop s) (m_pr_metadata_updated s) (m_serverGroupFlag s) (m_destroyPending s).
Definition with_queue (q : list (list Z)) (s : t) : t :=
  mk (objects s) (m_regionMetaDataMap s) q (m_bucketStatus s) (m_bucketWaitTimeout s) (m_serverGroup s) (m_run s)
     (regions s) (m_networkhop s) (m_pr_metadata_updated s) (m_serverGroupFlag s) (m_destroyPending s).
Definition with_status (b : gmap (list Z) (list Z)) (s : t) : t :=
  mk (objects s) (m_regionMetaDataMap s) (m_regionQueue s) b (m_bucketWaitTimeout s) (m_serverGroup s) (m_run s)
     (regions s) (m_networkhop s) (m_pr_metadata_updated s) (m_serverGroupFlag s) (m_destroyPending s).
Definition with_regions (r : gmap (list Z) (option bool)) (hop : bool) (s : t) : t :=
  mk (objects s) (m_regionMetaDataMap s) (m_regionQueue s) (m_bucketStatus s) (m_bucketWaitTimeout s) (m_serverGroup s) (m_run s)
     r hop (m_pr_metadata_updated s) (m_serverGroupFlag s) (m_destroyPending s).
Definition set_updated (s : t) : t :=
  mk (objects s) (m_regionMetaDataMap s) (m_regionQueue s) (m_bucketStatus s) (m_bucketWaitTimeout s) (m_serverGroup s) (m_run s)
     (regions s) (m_networkhop s) true (m_serverGroupFlag s) (m_destroyPending s).
Definition set_groupFlag (flag : Z) (s : t) : t :=
  mk (objects s) (m_regionMetaDataMap s) (m_regionQueue s) (m_bucketStatus s) (m_bucketWaitTimeout s) (m_serverGroup s) (m_run s)
     (regions s) (m_networkhop s) (m_pr_metadata_updated s) flag (m_destroyPending s).
Definition set_run (run : bool) (s : t) : t :=
  mk (objects s) (m_regionMetaDataMap s) (m_regionQueue s) (m_bucketStatus s) (m_bucketWaitTimeout s) (m_serverGroup s) run
     (regions s) (m_networkhop s) (m_pr_metadata_updated s) (m_serverGroupFlag s) (m_destroyPending s).

(** *** The store *)

Definition object (i : nat) : ST t ClientMetadata.t := fun s =>
  match objects s !! i with Some m => Ok (m, s) | None => Throw UndefinedBehaviour end.
Definition on_object (i : nat) (f : ClientMetadata.t -> ClientMetadata.t) : ST t unit :=
  st_modify (fun s => with_objects (alter f i (objects s)) s).
Definition make_shared (m : ClientMetadata.t) : ST t nat :=
  s ← st_get; st_modify (with_objects (objects s ++ [m]));; mret (length (objects s)).

(** [getClientMetadata]: the pointer, and the object it refers to. *)
Definition getClientMetadata (regionFullPath : list Z) (s : t) : option nat := m_regionMetaDataMap s !! regionFullPath.
Definition find_metadata (regionFullPath : list Z) (s : t) : option ClientMetadata.t :=
  i ← getClientMetadata regionFullPath s; objects s !! i.

(** *** Refresh *)

(** The replies of the servers by region path; [None] for an error or another message. *)
Record Replies := mkReplies {
  partitionAttributes : list Z -> option PartitionAttributes;
  prMetadata : list Z -> option (option (list (list BucketServerLocation)))
}.

Section Refresh.
Context (replies : Replies) (shuffle : list BucketServerLocation -> list BucketServerLocation).

(** The updates of a reply. [v.at(0)] names the bucket of a part. *)
Fixpoint apply_metadata (metadata : list (list BucketServerLocation)) (m : ClientMetadata.t) : outcome ClientMetadata.t :=
  match metadata with
  | [] => Ok m
  | v :: metadata' =>
    match v with
    | [] => apply_metadata metadata' m
    | l :: _ =>
      m' ← ClientMetadata.updateBucketServerLocations shuffle (m_bucketId l) v m;
      apply_metadata metadata' m'
    end
  end.

Definition SendClientPRMetadata (regionPath : list Z) (cptr : nat) : ST t (option nat) :=
  match prMetadata replies regionPath with
  | None | Some None | Some (Some []) => mret None
  | Some (Some metadata) =>
    m ← object cptr;
    m' ← st_lift (apply_metadata metadata (ClientMetadata.copy m));
    newCptr ← make_shared m';
    mret (Some newCptr)
  end.

(** The metadata of a region, asked for the first time; [None] for a region that is not
    partitioned and for an error. *)
Definition first_metadata (regionFullPath : list Z) : ST t (option nat) :=
  match partitionAttributes replies regionFullPath with
  | None => mret None
  | Some a =>
    if m_bucketCount a =? -1 then mret None
    else
      s ← st_get;
      m ← st_lift (ClientMetadata.construct (m_bucketCount a) (m_colocatedWith a) (Some (m_serverGroup s)) (m_fpaSet a));
      cptr ← make_shared m;
      (if (0 <? m_bucketWaitTimeout s) && (0 <? m_bucketCount a)
       then st_modify (fun s => with_status (<[regionFullPath := replicate (Z.to_nat (m_bucketCount a)) 0]> (m_bucketStatus s)) s)
       else mret tt);;
      mret (Some cptr)
  end.

Definition getClientPRMetadata (path : list Z) : ST t unit :=
  s ← st_get;
  cptr ← match m_regionMetaDataMap s !! path with Some cptr => mret (Some cptr) | None => first_metadata path end;
  match cptr with
  | None => mret tt
  | Some cptr =>
    m ← object cptr;
    let colocatedWith := ClientMetadata.m_colocatedWith m in
    if decide (colocatedWith = []) then
      newCptr ← SendClientPRMetadata path cptr;
      match newCptr with
      | None => mret tt
      | Some n =>
        on_object cptr (ClientMetadata.setPreviousone None);;
        on_object n (ClientMetadata.setPreviousone (Some cptr));;
        st_modify (fun s => set_updated (with_map (<[path := n]> (m_regionMetaDataMap s)) s))
      end
    else
      newCptr ← SendClientPRMetadata (c_str colocatedWith) cptr;
      match newCptr with
      | None => mret tt
      | Some n =>
        on_object cptr (ClientMetadata.setPreviousone None);;
        on_object n (ClientMetadata.setPreviousone (Some cptr));;
        st_modify (fun s => set_updated (with_map (<[path := n]> (<[c_str colocatedWith := n]> (m_regionMetaDataMap s))) s))
      end
  end.

(** One round of [svc], when there is something to do or the service was stopped: [false] ends
    the thread. *)
Definition svc_round : ST t bool :=
  s ← st_get;
  if negb (m_run s) then mret false
  else
    match m_regionQueue s with
    | [] => mret true
    | regionFullPath :: queue =>
      st_modify (with_queue (coalesce queue regionFullPath));;
      if m_destroyPending s then mret false
      else
        getClientPRMetadata (c_str regionFullPath);;
        s ← st_get;
        mret (negb (m_destroyPending s))
    end.

End Refresh.

Definition start : ST t unit := st_modify (set_run true).
Definition stop : ST t unit := st_modify (set_run false).

Definition enqueueForMetadataRefresh (regionFullPath : list Z) (serverGroupFlag : Z) : ST t unit :=
  s ← st_get;
  let region := regions s !! regionFullPath in
  let refresh : ST t unit :=
    match region with
    | None => mret tt
    | Some None => st_throw UndefinedBehaviour
    | Some (Some true) => mret tt
    | Some (Some false) =>
      st_modify (fun s => with_regions (<[regionFullPath := Some true]> (regions s)) true s);;
      st_modify (fun s => with_queue (m_regionQueue s ++ [regionFullPath]) s)
    end in
  if decide (m_serverGroup s = []) then refresh
  else
    st_modify (set_groupFlag serverGroupFlag);;
    if serverGroupFlag =? 2 then mret tt else refresh.

(** [ThinClientRegion::setMetaDataRefreshed], which the users of the service call to ask for
    another refresh. *)
Definition setMetaDataRefreshed (regionFullPath : list Z) (b : bool) : ST t unit :=
  st_modify (fun s => with_regions (alter (fmap (fun _ => b)) regionFullPath (regions s)) (m_networkhop s) s).

(** Once per path, in the order of the paths. *)
Definition removeBucketServerLocation (serverLocation : BucketServerLocation) : ST t unit :=
  s ← st_get;
  st_iter (fun pi => on_object pi.2 (ClientMetadata.removeBucketServerLocation serverLocation))
          (map_to_list (m_regionMetaDataMap s)).

(** *** Servers for keys *)

Section Routing.
Context {K V A : Type} `{Countable K} (hashcode : K -> Z).
Abbreviation Region := (RegionView K V A).

(** The bucket of a hash code among [n] buckets. *)
Definition bucket_of (hc n : Z) : outcome Z := r ← ClientMetadata.int_rem hc n; Ok (Z.abs r).

(** The event that the resolver is asked with. *)
Definition event_of (key : K) (value : option (Cacheable V)) (arg : option A) : EntryEvent K V A :=
  mkEvent key value None arg false.

(** The routing object of a key. *)
Definition resolve (region : Region) (event : EntryEvent K V A) : outcome K :=
  match getPartitionResolver region with
  | None => Ok (ev_key event)
  | Some r => match getRoutingObject r event with Some k => Ok k | None => Throw IllegalStateException end
  end.
Definition fixed_partition (region : Region) (event : EntryEvent K V A) : option (list Z) :=
  r ← getPartitionResolver region; f ← getPartitionName r; Some (f event).

Definition getBucketServerLocation (randgen : nat -> nat) (region : Region) (key : K) (value : option (Cacheable V))
    (arg : option A) (isPrimary : bool) (serverLocation : option BucketServerLocation) (version : Z) (s : t)
    : outcome (option BucketServerLocation * Z) :=
  match find_metadata (getFullPath region) s with
  | None => Ok (serverLocation, version)
  | Some m =>
    let event := event_of key value arg in
    resolvekey ← resolve region event;
    bucketId ← match fixed_partition region event with
               | Some partition =>
                 b ← ClientMetadata.assignFixedBucketId m partition (hashcode resolvekey);
                 Ok (if b =? -1 then None else Some b)
               | None =>
                 if 0 <? ClientMetadata.m_totalNumBuckets m
                 then b ← bucket_of (hashcode resolvekey) (ClientMetadata.m_totalNumBuckets m); Ok (Some b)
                 else Ok (Some 0)
               end;
    match bucketId with
    | None => Ok (serverLocation, version)
    | Some b => ClientMetadata.getServerLocation randgen m b isPrimary serverLocation version
    end
  end.

(** *** Servers for the keys of a bulk operation *)

(** An [unordered_map] with locations as keys, compared as servers. *)
Abbreviation ServerMap X := (list (BucketServerLocation * X)).

Fixpoint find_server {X} (l : BucketServerLocation) (m : ServerMap X) : option X :=
  match m with
  | [] => None
  | (l', x) :: m' => if decide (same_server l' l) then Some x else find_server l m'
  end.
Fixpoint on_server {X} (f : X -> X) (l : BucketServerLocation) (m : ServerMap X) : ServerMap X :=
  match m with
  | [] => []
  | (l', x) :: m' => if decide (same_server l' l) then (l', f x) :: m' else (l', x) :: on_server f l m'
  end.
Definition erase_location {X} (l : BucketServerLocation) (m : ServerMap X) : ServerMap X :=
  List.filter (fun lx => negb (bool_decide (same_server lx.1 l))) m.

(** The entry of a server, created with [x] if there is none, changed by [f]. *)
Definition upsert {X} (f : X -> X) (x : X) (l : BucketServerLocation) (m : ServerMap X) : ServerMap X :=
  match find_server l m with
  | Some _ => on_server f l m
  | None => m ++ [(l, f x)]
  end.

(** The bucket of a key: a resolver that returns no object is not expected, and fixed
    partitions are not looked at. *)
Definition bulk_bucket (region : Region) (m : ClientMetadata.t) (key : K) : outcome Z :=
  resolveKey ← match getPartitionResolver region with
               | None => Ok key
               | Some r =>
                 match getRoutingObject r (event_of key None None) with
                 | Some k => Ok k
                 | None => Throw UndefinedBehaviour
                 end
               end;
  bucket_of (hashcode resolveKey) (ClientMetadata.m_totalNumBuckets m).

(** [getServerToFilterMap]; [randgen i] are the numbers drawn for the [i]-th key. [buckets] are
    the servers chosen for the buckets met so far. *)
Fixpoint filter_loop (randgen : nat -> nat -> nat) (m : ClientMetadata.t) (region : Region) (isPrimary : bool) (i : nat)
    (keys : list K) (buckets : gmap Z BucketServerLocation) (result : ServerMap (list K))
    : outcome (option (ServerMap (list K))) :=
  match keys with
  | [] => Ok (match result with [] => None | _ => Some result end)
  | key :: keys' =>
    bucketId ← bulk_bucket region m key;
    match buckets !! bucketId with
    | Some l => filter_loop randgen m region isPrimary (S i) keys' buckets (upsert (fun ks => ks ++ [key]) [] l result)
    | None =>
      '(serverLocation, _) ← ClientMetadata.getServerLocation (randgen i) m bucketId isPrimary None (-1);
      match serverLocation with
      | None => Ok None
      | Some l =>
        if negb (isValid l) then Ok None
        else filter_loop randgen m region isPrimary (S i) keys' (<[bucketId := l]> buckets)
               (upsert (fun ks => ks ++ [key]) [] l result)
      end
    end
  end.
Definition getServerToFilterMap (randgen : nat -> nat -> nat) (keys : list K) (region : Region) (isPrimary : bool) (s : t)
    : outcome (option (ServerMap (list K))) :=
  match find_metadata (getFullPath region) s with
  | None => Ok None
  | Some m => filter_loop randgen m region isPrimary 0 keys ∅ []
  end.

(** *** Servers for the buckets of a function *)

(** [order] is the order in which a set of buckets is iterated over, [arrange] that of a map of
    servers. *)
Context (order : gset Z -> list Z) (arrange : ServerMap (gset Z) -> ServerMap (gset Z)).

(** The bucket of a key, -1 for a key without one. *)
Definition function_bucket (region : Region) (m : ClientMetadata.t) (key : K) : outcome Z :=
  let event := event_of key None None in
  resolvekey ← resolve region event;
  match fixed_partition region event with
  | Some partition => ClientMetadata.assignFixedBucketId m partition (hashcode resolvekey)
  | None =>
    if 0 <? ClientMetadata.m_totalNumBuckets m
    then bucket_of (hashcode resolvekey) (ClientMetadata.m_totalNumBuckets m)
    else Ok (-1)
  end.

(** The keys by bucket; an unknown partition asks for a refresh. *)
Fixpoint group_loop (region : Region) (m : ClientMetadata.t) (keySet : list K) (bucketToKeysMap : gmap Z (gset K))
    : ST t (gmap Z (gset K)) :=
  match keySet with
  | [] => mret bucketToKeysMap
  | key :: keySet' =>
    bucketId ← st_lift (function_bucket region m key);
    (if bool_decide (fixed_partition region (event_of key None None) <> None) && (bucketId =? -1)
     then enqueueForMetadataRefresh (getFullPath region) 0 else mret tt);;
    group_loop region m keySet' (<[bucketId := {[key]} ∪ default ∅ (bucketToKeysMap !! bucketId)]> bucketToKeysMap)
  end.
Definition groupByBucketOnClientSide (region : Region) (keySet : list K) (m : ClientMetadata.t) : ST t (gmap Z (gset K)) :=
  group_loop region m keySet ∅.

(** [findNextServer]: a server with the most buckets that are not covered yet, any of them. *)
Fixpoint largest (m : ServerMap (gset Z)) (current : gset Z) (max : nat) (nodes : list BucketServerLocation)
    : list BucketServerLocation :=
  match m with
  | [] => nodes
  | (l, buckets) :: m' =>
    let n := base.size (buckets ∖ current) in
    if (max <? n)%nat then largest m' current n [l]
    else if (max =? n)%nat then largest m' current max (nodes ++ [l])
    else largest m' current max nodes
  end.
Definition findNextServer (randgen : nat -> nat) (serverToBucketsMap : ServerMap (gset Z)) (currentBucketSet : gset Z)
    : outcome (option BucketServerLocation) :=
  match largest (arrange serverToBucketsMap) currentBucketSet 0 [] with
  | [] => Ok None
  | nodes => match nodes !! randgen (length nodes) with Some l => Ok (Some l) | None => Throw StdOutOfRange end
  end.

(** The servers of all buckets; [None] if a bucket has none. *)
Fixpoint servers_of (m : ClientMetadata.t) (buckets : list Z) (result : ServerMap (gset Z))
    : outcome (option (ServerMap (gset Z))) :=
  match buckets with
  | [] => Ok (Some result)
  | b :: buckets' =>
    ls ← ClientMetadata.adviseServerLocations m b;
    match ls with
    | [] => Ok None
    | _ => servers_of m buckets' (foldl (fun r l => upsert (fun bs => {[b]} ∪ bs) ∅ l r) result ls)
    end
  end.

(** [for (idx = 0; idx < RandGen{}(size); idx++) itrRes++], with a new number in each round:
    fewer than [size] rounds. *)
Fixpoint first_index (fuel : nat) (randgen : nat -> nat -> nat) (size idx : nat) : outcome nat :=
  match fuel with
  | O => Throw Diverges
  | S fuel => if (idx <? randgen idx size)%nat then first_index fuel randgen size (S idx) else Ok idx
  end.

(** The loop of [pruneNodes]; each round takes a server out of the map. *)
Fixpoint prune_loop (fuel : nat) (randgen : nat -> nat -> nat) (i : nat) (buckets current : gset Z)
    (serverToBucketsMap pruned : ServerMap (gset Z)) : outcome (ServerMap (gset Z)) :=
  if decide (buckets = current) then Ok pruned
  else
    match fuel with
    | O => Throw Diverges
    | S fuel =>
      server ← findNextServer (randgen i) serverToBucketsMap current;
      match server with
      | None => Ok pruned
      | Some l =>
        match find_server l serverToBucketsMap with
        | None => Throw UndefinedBehaviour
        | Some bs =>
          let bucketSet2 := bs ∖ current in
          if decide (bucketSet2 = ∅) then
            prune_loop fuel randgen (S i) buckets current (erase_location l serverToBucketsMap) pruned
          else
            prune_loop fuel randgen (S i) buckets (current ∪ bucketSet2) (erase_location l serverToBucketsMap)
              (pruned ++ [(l, bucketSet2)])
        end
      end
    end.

Definition pruneNodes (first_rand randgen : nat -> nat -> nat) (m : ClientMetadata.t) (buckets : gset Z)
    : outcome (option (ServerMap (gset Z))) :=
  servers ← servers_of m (order buckets) [];
  match servers with
  | None | Some [] => Ok None
  | Some serverToBucketsMap =>
    idx ← first_index (S (length serverToBucketsMap)) first_rand (length serverToBucketsMap) 0;
    match arrange serverToBucketsMap !! idx with
    | None => Throw UndefinedBehaviour
    | Some (randomFirstServer, bucketSet) =>
      pruned ← prune_loop (S (length serverToBucketsMap)) randgen 0 buckets bucketSet
                 (erase_location randomFirstServer serverToBucketsMap) [(randomFirstServer, bucketSet)];
      Ok (Some pruned)
    end
  end.

(** The buckets by their valid primaries, and those without one. *)
Fixpoint primaries_of (m : ClientMetadata.t) (buckets : list Z) (result : ServerMap (gset Z)) (without : gset Z)
    : outcome (ServerMap (gset Z) * gset Z) :=
  match buckets with
  | [] => Ok (result, without)
  | b :: buckets' =>
    l ← ClientMetadata.advisePrimaryServerLocation m b;
    match l with
    | Some l => if isValid l then primaries_of m buckets' (upsert (fun bs => {[b]} ∪ bs) ∅ l result) without
                else primaries_of m buckets' result ({[b]} ∪ without)
    | None => primaries_of m buckets' result ({[b]} ∪ without)
    end
  end.

Definition groupByServerToBuckets (first_rand randgen : nat -> nat -> nat) (m : ClientMetadata.t) (bucketSet : gset Z)
    (optimizeForWrite : bool) : outcome (option (ServerMap (gset Z))) :=
  if optimizeForWrite then
    '(serverToBucketsMap, bucketsWithoutServer) ← primaries_of m (order bucketSet) [] ∅;
    Ok (Some (match arrange serverToBucketsMap with
              | [] => serverToBucketsMap
              | (l, _) :: _ => on_server (fun bs => bs ∪ bucketsWithoutServer) l serverToBucketsMap
              end))
  else pruneNodes first_rand randgen m bucketSet.

Definition groupByServerToAllBuckets (first_rand randgen : nat -> nat -> nat) (region : Region) (optimizeForWrite : bool)
    : ST t (option (ServerMap (gset Z))) :=
  s ← st_get;
  match find_metadata (getFullPath region) s with
  | None => enqueueForMetadataRefresh (getFullPath region) 0;; mret None
  | Some m =>
    let bucketSet := list_to_set (seqZ 0 (ClientMetadata.m_totalNumBuckets m)) in
    st_lift (groupByServerToBuckets first_rand randgen m bucketSet optimizeForWrite)
  end.

(** [getServerToFilterMapFESHOP]: the keys by the servers of their buckets. *)
Fixpoint keys_of (bucketToKeysMap : gmap Z (gset K)) (l : BucketServerLocation) (buckets : list Z) (result : ServerMap (gset K))
    : ServerMap (gset K) :=
  match buckets with
  | [] => result
  | b :: buckets' =>
    keys_of bucketToKeysMap l buckets' (upsert (fun ks => ks ∪ default ∅ (bucketToKeysMap !! b)) ∅ l result)
  end.
Definition getServerToFilterMapFESHOP (first_rand randgen : nat -> nat -> nat) (routingKeys : option (list K)) (region : Region)
    (isPrimary : bool) : ST t (option (ServerMap (gset K))) :=
  s ← st_get;
  match find_metadata (getFullPath region) s with
  | None => enqueueForMetadataRefresh (getFullPath region) 0;; mret None
  | Some m =>
    match routingKeys with
    | None => mret None
    | Some keys =>
      bucketToKeysMap ← groupByBucketOnClientSide region keys m;
      serverToBuckets ← st_lift (groupByServerToBuckets first_rand randgen m (dom bucketToKeysMap) isPrimary);
      match serverToBuckets with
      | None => mret None
      | Some sb => mret (Some (foldl (fun r lb => keys_of bucketToKeysMap lb.1 (order lb.2) r) [] (arrange sb)))
      end
    end
  end.

(** *** Timeouts of buckets *)

Fixpoint mark_loop (randgen : nat -> nat -> nat) (m : ClientMetadata.t) (serverLocation : option BucketServerLocation)
    (now : Z) (i : nat) (n : nat) (status : list Z) : outcome (list Z) :=
  match n with
  | O => Ok status
  | S n =>
    '(bsl, _) ← ClientMetadata.getServerLocation (randgen i) m (Z.of_nat i) false None 0;
    status' ← (if decide (address <$> bsl = address <$> serverLocation)
               then (if (i <? length status)%nat then Ok (alter (setTimeout now) i status) else Throw UndefinedBehaviour)
               else Ok status);
    mark_loop randgen m serverLocation now (S i) n status'
  end.

(** [markPrimaryBucketForTimeoutButLookSecondaryBucket]. *)
Definition markPrimaryBucketForTimeout (randgen : nat -> nat -> nat) (now : Z) (region : Region) (key : K)
    (value : option (Cacheable V)) (arg : option A) (serverLocation : option BucketServerLocation) (version : Z)
    : ST t (option BucketServerLocation * Z) :=
  s ← st_get;
  if m_bucketWaitTimeout s =? 0 then mret (serverLocation, version)
  else
    match m_bucketStatus s !! getFullPath region with
    | None => mret (serverLocation, version)
    | Some status =>
      '(serverLocation, version) ←
        st_lift (getBucketServerLocation (randgen 0%nat) region key value arg true serverLocation version s);
      match find_metadata (getFullPath region) s with
      | None => mret (serverLocation, version)
      | Some m =>
        status' ← st_lift (mark_loop randgen m serverLocation now 0 (Z.to_nat (ClientMetadata.m_totalNumBuckets m)) status);
        st_modify (fun s => with_status (<[getFullPath region := status']> (m_bucketStatus s)) s);;
        mret (serverLocation, version)
      end
    end.

Definition isBucketMarkedForTimeout (now : Z) (regionFullPath : list Z) (bucketid : Z) : ST t bool :=
  s ← st_get;
  if m_bucketWaitTimeout s =? 0 then mret false
  else
    match m_bucketStatus s !! regionFullPath with
    | None => mret false
    | Some status =>
      if bucketid <? 0 then st_throw UndefinedBehaviour
      else
        match status !! Z.to_nat bucketid with
        | None => st_throw UndefinedBehaviour
        | Some last =>
          let '(timedOut, last') := isTimedoutAndReset now (m_bucketWaitTimeout s) last in
          st_modify (fun s => with_status (<[regionFullPath := <[Z.to_nat bucketid := last']> status]> (m_bucketStatus s)) s);;
          mret timedOut
        end
    end.

End Routing.
End ClientMetadataService.
