(* ===== verification/SingleHopClaims.v ===== *)
(** Lemmas on single-hop routing (maps of servers, the buckets of keys, the locations of a bucket
    after an update), and what it promises: every key of a bulk operation and every bucket of a
    function goes to exactly one server, and that server hosts it. *)
From S2P Require Import Prelude ServerLocation ClientMetadata ClientMetadataService.
Import ClientMetadataService.
Local Open Scope Z_scope.

(** What [same_server] compares. *)
Definition server_of (l : BucketServerLocation) : list Z * Z := (m_serverName l, m_port l).

Lemma same_server_of l r : same_server l r <-> server_of l = server_of r.
Proof. unfold same_server, server_of. split; [intros [-> ->]; done|by intros [= -> ->]]. Qed.

Abbreviation ServerMap X := (list (BucketServerLocation * X)).

(** *** Maps of servers *)

Section Maps.
Context {X : Type}.
Implicit Types (m : ServerMap X) (l : BucketServerLocation).

Definition servers m : list (list Z * Z) := (fun lx => server_of lx.1) <$> m.

Lemma find_server_none l m : find_server l m = None <-> server_of l ∉ servers m.
Proof.
  induction m as [|[l' x] m IH]; [split; [intros _ []%elem_of_nil|done]|]. cbn -[same_server].
  rewrite not_elem_of_cons. destruct (decide (same_server l' l)) as [Hs|Hs].
  - apply same_server_of in Hs. split; [done|]. by intros [? _].
  - rewrite same_server_of in Hs. rewrite IH. split; [intros Hi; split; [congruence|done]|by intros [_ ?]].
Qed.

Lemma find_server_some l x m :
  find_server l m = Some x -> exists m1 l' m2, m = (m1 ++ (l', x) :: m2) /\ same_server l' l /\ server_of l ∉ servers m1.
Proof.
  induction m as [|[l' x'] m IH]; [done|]. cbn -[same_server]. destruct (decide (same_server l' l)) as [Hs|Hs].
  - intros [= ->]. exists [], l', m. split; [done|]. split; [done|]. apply not_elem_of_nil.
  - intros (m1 & l'' & m2 & -> & Hs' & Hn)%IH. exists ((l', x') :: m1), l'', m2. do 2 (split; [done|]).
    cbn -[same_server]. rewrite same_server_of in Hs. apply not_elem_of_cons. naive_solver.
Qed.

Lemma on_server_at (f : X -> X) l m1 l' x m2 :
  same_server l' l -> server_of l ∉ servers m1 -> on_server f l (m1 ++ (l', x) :: m2) = m1 ++ (l', f x) :: m2.
Proof.
  intros Hs. induction m1 as [|[l1 x1] m1 IH]; cbn -[same_server].
  - intros _. by rewrite decide_True.
  - rewrite not_elem_of_cons. intros [Hn Hm]. rewrite decide_False by (by rewrite same_server_of).
    by rewrite IH.
Qed.

(** What [upsert] does: it changes the one entry of the server, or adds one. *)
Lemma upsert_cases (f : X -> X) x0 l m :
  (exists m1 l' x m2, m = (m1 ++ (l', x) :: m2) /\ same_server l' l /\ find_server l m = Some x /\
     upsert f x0 l m = (m1 ++ (l', f x) :: m2)) \/
  ((server_of l ∉ servers m) /\ upsert f x0 l m = (m ++ [(l, f x0)])).
Proof.
  unfold upsert. destruct (find_server l m) as [x|] eqn:Ef.
  - left. destruct (find_server_some l x m Ef) as (m1 & l' & m2 & -> & Hs & Hn). exists m1, l', x, m2.
    do 3 (split; [done|]). by apply on_server_at.
  - right. by apply find_server_none in Ef.
Qed.

Lemma upsert_distinct (f : X -> X) x0 l m : NoDup (servers m) -> NoDup (servers (upsert f x0 l m)).
Proof.
  intros Hd. destruct (upsert_cases f x0 l m) as [(m1 & l' & x & m2 & -> & Hs & _ & ->)|[Hn ->]].
  - unfold servers in *. by rewrite fmap_app in *.
  - unfold servers. rewrite fmap_app. apply list.NoDup_app. split_and!; [done| |apply NoDup_singleton].
    intros y Hy Hy'%list_elem_of_singleton. simpl in Hy'. by subst.
Qed.

Lemma erase_incl l m lx : lx ∈ erase_location l m <-> lx ∈ m /\ ~ same_server lx.1 l.
Proof.
  unfold erase_location. rewrite !list_elem_of_In, filter_In. split; intros [Hi Hn]; (split; [done|]).
  - intros Hs. rewrite bool_decide_eq_true_2 in Hn by done. done.
  - by rewrite bool_decide_eq_false_2.
Qed.

Lemma find_server_in l m x : NoDup (servers m) -> (exists l', (l', x) ∈ m /\ same_server l' l) <-> find_server l m = Some x.
Proof.
  intros Hd. split.
  - intros (l' & Hin & Hs). induction m as [|[l1 x1] m IH]; [by apply not_elem_of_nil in Hin|].
    cbn -[same_server] in *. apply list.NoDup_cons in Hd as [Hn Hd]. apply elem_of_cons in Hin as [[= -> ->]|Hin].
    + by rewrite decide_True.
    + destruct (decide (same_server l1 l)) as [Hs1|]; [|by apply IH]. contradict Hn. apply list_elem_of_fmap.
      exists (l', x). split; [|done]. simpl. apply same_server_of. by transitivity l.
  - intros (m1 & l' & m2 & -> & Hs & _)%find_server_some. exists l'. split; [|done]. rewrite elem_of_app, elem_of_cons. tauto.
Qed.

End Maps.

#[export] Hint Resolve upsert_distinct : geode.

(** *** Buckets *)

Lemma bucket_range hc n : in_s 32 hc -> 0 < n -> exists b, bucket_of hc n = Ok b /\ 0 <= b < n.
Proof.
  intros Hh Hn. unfold bucket_of, ClientMetadata.int_rem, mbind, outcome_bind.
  replace (n =? 0) with false by lia. replace (n =? -1) with false by lia. rewrite andb_false_r. simpl.
  eexists. split; [done|]. pose proof (Z.rem_bound_abs hc n). lia.
Qed.

(** A list of locations per bucket. *)
Record metadata_ok (m : ClientMetadata.t) : Prop := {
  mo_int : in_s 32 (ClientMetadata.m_totalNumBuckets m);
  mo_length : length (ClientMetadata.m_bucketServerLocationsList m) = Z.to_nat (ClientMetadata.m_totalNumBuckets m)
}.

Definition in_range (m : ClientMetadata.t) (b : Z) : Prop := 0 <= b < ClientMetadata.m_totalNumBuckets m.

Lemma range_u64 m b : metadata_ok m -> in_range m b -> u64 b = b.
Proof. intros [Hi _] Hb. apply wrapU_id. unfold in_range, in_s, in_u in *. lia. Qed.

Lemma check_range m b : metadata_ok m -> in_range m b -> ClientMetadata.checkBucketId m b = Ok tt.
Proof.
  intros Hm Hb. unfold ClientMetadata.checkBucketId. rewrite (range_u64 m b Hm Hb), (mo_length m Hm).
  unfold in_range in Hb. case Z.leb_spec; [lia|done].
Qed.

Lemma check_outside m b : metadata_ok m -> in_s 32 b -> ~ in_range m b -> ClientMetadata.checkBucketId m b = Throw IllegalStateException.
Proof.
  intros Hm Hs Hb. unfold ClientMetadata.checkBucketId. rewrite (mo_length m Hm). destruct Hm as [Hi _].
  unfold in_range, in_s, wrapU in *. case Z.leb_spec; [done|]. intros Hlt. exfalso. revert Hlt. apply Z.le_ngt.
  destruct (decide (b < 0)).
  - replace b with (-1 * 2 ^ 64 + (b + 2 ^ 64)) by lia. rewrite Z.add_comm, Z.mod_add, Z.mod_small by lia. lia.
  - rewrite Z.mod_small by lia. lia.
Qed.

(** The numbers a generator returns are below the bound it is given. *)
Definition rand_ok (randgen : nat -> nat) : Prop := forall n, (0 < n)%nat -> (randgen n < n)%nat.

(** The server of a bucket: none if it has no locations, the first one if the primary is asked
    for, any of them otherwise. *)
Lemma getServerLocation_spec randgen m b tryPrimary l0 v0 :
  rand_ok randgen -> metadata_ok m -> in_range m b ->
  exists v, ClientMetadata.getServerLocation randgen m b tryPrimary l0 v0 =
    Ok (match ClientMetadata.locations m b with
        | [] => l0
        | ls => if tryPrimary then head ls else ls !! randgen (length ls)
        end, v) /\
    (forall ls, ClientMetadata.locations m b = ls -> ls <> [] -> tryPrimary = false ->
       exists l, ls !! randgen (length ls) = Some l).
Proof.
  intros Hr Hm Hb. unfold ClientMetadata.getServerLocation. rewrite (check_range m b Hm Hb).
  unfold mbind, outcome_bind. destruct (ClientMetadata.locations m b) as [|l ls] eqn:El.
  - exists v0. split; [done|]. by intros ? <-.
  - assert (is_Some ((l :: ls) !! randgen (length (l :: ls)))) as [x Hx] by (apply lookup_lt_is_Some, Hr; simpl; lia).
    eexists. split.
    + destruct tryPrimary; [done|]. rewrite Hx. done.
    + intros ? <- _ _. by exists x.
Qed.

Lemma address_inj (x : list BucketServerLocation) l l' :
  NoDup (address <$> x) -> l ∈ x -> l' ∈ x -> address l' = address l -> l' = l.
Proof.
  induction x as [|y x IH]; [by intros _ []%elem_of_nil|]. simpl. intros [Hn Hd]%list.NoDup_cons.
  intros [->|Hl]%elem_of_cons [->|Hl']%elem_of_cons Ha; [done|..|by apply IH].
  - destruct Hn. rewrite <- Ha. by apply list_elem_of_fmap_2.
  - destruct Hn. rewrite Ha. by apply list_elem_of_fmap_2.
Qed.

(** Objects with the same address are the same, in the same bucket. *)
Lemma same_address m b l b' l' : metadata_ok m ->
  NoDup (address <$> concat (ClientMetadata.m_bucketServerLocationsList m)) -> in_range m b -> in_range m b' ->
  l ∈ ClientMetadata.locations m b -> l' ∈ ClientMetadata.locations m b' -> address l' = address l -> b' = b /\ l' = l.
Proof.
  intros Hm Hnd Hb Hb' Hl Hl' Ha. unfold ClientMetadata.locations in *. rewrite (range_u64 m b Hm Hb) in Hl. rewrite (range_u64 m b' Hm Hb') in Hl'.
  revert Hnd Hl Hl'. generalize (ClientMetadata.m_bucketServerLocationsList m). intros ls. unfold in_range in *.
  assert (Hn : Z.to_nat b' = Z.to_nat b -> b' = b) by lia. revert Hn. generalize (Z.to_nat b) (Z.to_nat b'). intros n n' Hn.
  revert n n' Hn. induction ls as [|x ls IH]; intros n n' Hn; [by intros _ []%elem_of_nil|]. simpl. rewrite fmap_app.
  intros (H1 & H2 & H3)%list.NoDup_app.
  assert (Hin : forall k y, y ∈ default [] (ls !! k) -> address y ∈ address <$> concat ls).
  { intros k y Hy. destruct (ls !! k) as [z|] eqn:Ek; [|by apply elem_of_nil in Hy]. apply list_elem_of_fmap. exists y. split; [done|].
    apply list_elem_of_In, in_concat. exists z. split; [by apply list_elem_of_In; eapply list_elem_of_lookup_2|by apply list_elem_of_In]. }
  destruct n as [|n], n' as [|n']; simpl; intros Hl Hl'.
  - split; [by apply Hn|]. by apply (address_inj x).
  - destruct (H2 (address l)); [by apply list_elem_of_fmap_2|]. rewrite <- Ha. by eapply Hin.
  - destruct (H2 (address l')); [by apply list_elem_of_fmap_2|]. rewrite Ha. by eapply Hin.
  - apply (IH n n'); [|done|done|done]. intros He. apply Hn. by rewrite He.
Qed.

(** *** Bulk operations *)

(** Membership in a list that is written out. *)
Ltac mem := rewrite ?elem_of_app, ?elem_of_cons; tauto.

(** A server hosts a bucket. *)
Definition hosts (m : ClientMetadata.t) (b : Z) (l : BucketServerLocation) : Prop :=
  exists loc, loc ∈ ClientMetadata.locations m b /\ same_server l loc.

(** *** Keys of a bulk operation *)

Section Bulk.
Context {K V A : Type} (hashcode : K -> Z) (hash_ok : forall k, in_s 32 (hashcode k)).
Context (m : ClientMetadata.t) (region : RegionView K V A) (isPrimary : bool).
Abbreviation bucket := (bulk_bucket hashcode region m).

(** The server chosen for a bucket: a valid one that hosts it, the first one for the
    primary. *)
Definition choice_ok (buckets : gmap Z BucketServerLocation) : Prop :=
  forall b l, buckets !! b = Some l ->
    isValid l = true /\ l ∈ ClientMetadata.locations m b /\
    (isPrimary = true -> head (ClientMetadata.locations m b) = Some l).

(** The keys [done] are assigned: each once, in the order given, to the server chosen for its
    bucket. *)
Record assigned (buckets : gmap Z BucketServerLocation) (done : list K) (r : ServerMap (list K)) : Prop := {
  as_distinct : NoDup (servers r);
  as_once : concat r.*2 ≡ₚ done;
  as_order : forall l ks, (l, ks) ∈ r -> ks `sublist_of` done;
  as_place : forall l ks, (l, ks) ∈ r -> ks <> [] /\
    (forall k, k ∈ ks -> exists b loc, bucket k = Ok b /\ buckets !! b = Some loc /\ same_server l loc)
}.

Lemma assigned_mono buckets buckets' done r : buckets ⊆ buckets' -> assigned buckets done r -> assigned buckets' done r.
Proof.
  intros Hs [Hd Ho Hor Hp]. split; [done|done|done|]. intros l ks Hin. destruct (Hp l ks Hin) as [Hne Hk].
  split; [done|]. intros k (b & loc & Hb & Hl & Hss)%Hk. exists b, loc. split; [done|]. split; [|done].
  by eapply lookup_weaken.
Qed.

Lemma assigned_step buckets done r k b l :
  assigned buckets done r -> bucket k = Ok b -> buckets !! b = Some l ->
  assigned buckets (done ++ [k]) (upsert (fun ks => ks ++ [k]) [] l r).
Proof.
  intros [Hd Ho Hor Hp] Hb Hl.
  assert (Hlift : forall l' ks, (l', ks) ∈ r -> ks `sublist_of` done ++ [k]) by (intros l' ks Hin; by apply sublist_inserts_r, (Hor l')).
  assert (Hnew : exists b' loc, bucket k = Ok b' /\ buckets !! b' = Some loc /\ same_server l loc) by (by exists b, l).
  split; [by apply upsert_distinct|..];
    destruct (upsert_cases (fun ks => ks ++ [k]) [] l r) as [(m1 & l' & ks & m2 & -> & Hs & _ & ->)|[_ ->]].
  - rewrite fmap_app, fmap_cons, concat_app in *. simpl in *. rewrite <- Ho, <- !(assoc_L (++)). by rewrite (Permutation_app_comm [k]), !(assoc_L (++)).
  - rewrite fmap_app, concat_app. simpl. by rewrite Ho.
  - intros l0 ks0 [Hin|[[= -> ->]|Hin]%elem_of_cons]%elem_of_app.
    + apply Hlift with l0. mem.
    + apply sublist_app; [apply Hor with l'; mem|done].
    + apply Hlift with l0. mem.
  - intros l0 ks0 [Hin|He%list_elem_of_singleton]%elem_of_app; [|injection He as -> ->]; [by apply Hlift with l0|].
    by apply sublist_inserts_l.
  - intros l0 ks0 [Hin|[[= -> ->]|Hin]%elem_of_cons]%elem_of_app; [apply Hp; mem| |apply Hp; mem].
    destruct (Hp l' ks) as [_ Hk]; [mem|]. split; [by destruct ks|].
    intros k0 [Hk0| ->%list_elem_of_singleton]%elem_of_app; [by apply Hk|].
    destruct Hnew as (b' & loc & ? & ? & Hss). exists b', loc. do 2 (split; [done|]). by transitivity l.
  - intros l0 ks0 [Hin|He%list_elem_of_singleton]%elem_of_app; [|injection He as -> ->]; [by apply Hp|].
    split; [done|]. by intros k0 ->%list_elem_of_singleton.
Qed.

Context (metaok : metadata_ok m) (has_buckets : 0 < ClientMetadata.m_totalNumBuckets m).

(** The resolver has a routing object for the key. *)
Definition resolved (k : K) : Prop :=
  match getPartitionResolver region with
  | None => True
  | Some r => getRoutingObject r (event_of k None None) <> None
  end.

Lemma resolved_bucket k : resolved k -> exists b, bucket k = Ok b /\ in_range m b.
Proof.
  unfold resolved, bulk_bucket, mbind, outcome_bind. destruct (getPartitionResolver region) as [r|].
  - destruct (getRoutingObject r _) as [k'|]; [|done]. intros _. by apply bucket_range.
  - intros _. by apply bucket_range.
Qed.

(** A bucket for which no server may be found: it has no locations, or the location that is picked (the first one for the
    primary, a random one otherwise) is not valid. *)
Definition unserved (b : Z) : Prop := ClientMetadata.locations m b = [] \/
  exists l, l ∈ ClientMetadata.locations m b /\ isValid l = false /\
    (isPrimary = true -> head (ClientMetadata.locations m b) = Some l).

Definition bulk_result (keys : list K) (r : option (ServerMap (list K))) : Prop :=
  match r with
  | None => keys = [] \/ exists k b, k ∈ keys /\ bucket k = Ok b /\ unserved b
  | Some r => exists buckets, choice_ok buckets /\ assigned buckets keys r
  end.

Lemma filter_loop_spec randgen keys : (forall i, rand_ok (randgen i)) -> Forall resolved keys ->
  forall i done buckets r, choice_ok buckets -> assigned buckets done r ->
  exists o, filter_loop hashcode randgen m region isPrimary i keys buckets r = Ok o /\
    match o with
    | None => keys = [] /\ r = [] \/ exists k b, k ∈ keys /\ bucket k = Ok b /\ unserved b
    | Some r' => exists buckets', choice_ok buckets' /\ assigned buckets' (done ++ keys) r'
    end.
Proof.
  intros Hrand. induction keys as [|k keys IH]; intros Hres i done buckets r Hc Ha; cbn [filter_loop].
  - eexists. split; [done|]. destruct r; [by left|]. exists buckets. by rewrite app_nil_r.
  - apply list.Forall_cons in Hres as [Hk Hres]. destruct (resolved_bucket k Hk) as (b & Hb & Hr). rewrite Hb.
    unfold mbind, outcome_bind.
    assert (Hgo : forall l buckets', choice_ok buckets' -> buckets ⊆ buckets' -> buckets' !! b = Some l ->
      exists o, filter_loop hashcode randgen m region isPrimary (S i) keys buckets' (upsert (fun ks => ks ++ [k]) [] l r) = Ok o /\
        match o with
        | None => k :: keys = [] /\ r = [] \/ exists k0 b, k0 ∈ k :: keys /\ bucket k0 = Ok b /\ unserved b
        | Some r' => exists buckets', choice_ok buckets' /\ assigned buckets' (done ++ k :: keys) r'
        end).
    { intros l buckets' Hc' Hsub Hl.
      destruct (IH Hres (S i) (done ++ [k]) buckets' (upsert (fun ks => ks ++ [k]) [] l r)) as (o & Ho & Hs); [done| |].
      - eapply assigned_step; [by eapply assigned_mono|done|done].
      - exists o. split; [done|]. destruct o as [r'|].
        + destruct Hs as (b' & Hs). exists b'. by rewrite <- (assoc_L (++)) in Hs.
        + right. destruct Hs as [[-> He]|(k0 & b0 & Hk0 & Hs)]; [|exists k0, b0; mem].
          exfalso. revert He. unfold upsert. destruct (find_server l r) eqn:Ef; [|by destruct r].
          apply find_server_some in Ef as (m1 & l' & m2 & -> & Hs & Hn). rewrite on_server_at by done. by destruct m1. }
    destruct (buckets !! b) as [l|] eqn:El; [by apply (Hgo l buckets)|].
    destruct (getServerLocation_spec (randgen i) m b isPrimary None (-1) (Hrand i) metaok Hr) as (v & -> & Hsome).
    set (o := match ClientMetadata.locations m b with [] => None | _ => _ end).
    assert (Ho : match o with
                 | None => ClientMetadata.locations m b = []
                 | Some l => l ∈ ClientMetadata.locations m b /\ (isPrimary = true -> head (ClientMetadata.locations m b) = Some l)
                 end).
    { unfold o. destruct (ClientMetadata.locations m b) as [|l ls] eqn:Els; [done|]. destruct isPrimary.
      - split; [left|done].
      - destruct (Hsome _ eq_refl) as [x Hx]; [done|done|]. rewrite Hx. split; [by eapply list_elem_of_lookup_2|done]. }
    destruct o as [l|].
    + destruct (isValid l) eqn:Ev; cbn [negb].
      * apply (Hgo l (<[b := l]> buckets)); [|by apply insert_subseteq|by rewrite lookup_insert_eq].
        intros b' l' [[<- <-]|[? Hl']]%lookup_insert_Some; [split; [done|exact Ho]|by apply Hc].
      * eexists. split; [done|]. right. exists k, b. split; [left|]. split; [done|]. right. exists l. split; [apply Ho|]. split; [done|apply Ho].
    + eexists. split; [done|]. right. exists k, b. split; [left|]. split; [done|]. by left.
Qed.

End Bulk.

(** C27. A bulk operation on keys that all have routing objects, in a region whose metadata
    is known and has buckets, always gets an answer. Either all keys are assigned to servers:
    each key is sent exactly once and in the order given, each server is asked once, the keys of
    a bucket all go to one valid server that hosts the bucket, the first of its list when
    the primary is wanted. Or no key is assigned, because there are no keys, or because for the
    bucket of one of them there is no location or the one that was picked is not valid: the
    first one when the primary is wanted, otherwise a random one, even if another location of
    the bucket is valid. The bucket of a key is what the code takes for it, the hash code of the
    routing object modulo the number of buckets, also in a region with fixed partitions. *)
Theorem bulk_keys_routed {K V A : Type} (hashcode : K -> Z) randgen keys (region : RegionView K V A) isPrimary s m :
  (forall k, in_s 32 (hashcode k)) -> (forall i, rand_ok (randgen i)) ->
  find_metadata (getFullPath region) s = Some m -> metadata_ok m -> 0 < ClientMetadata.m_totalNumBuckets m ->
  Forall (resolved region) keys ->
  exists r, getServerToFilterMap hashcode randgen keys region isPrimary s = Ok r /\
    bulk_result hashcode m region isPrimary keys r.
Proof.
  intros Hh Hrand Hf Hm Hn Hres. unfold getServerToFilterMap. rewrite Hf.
  destruct (filter_loop_spec hashcode Hh m region isPrimary Hm Hn randgen keys Hrand Hres 0 [] ∅ []) as (r & -> & Hr).
  - intros b l. by rewrite lookup_empty.
  - split; [constructor|done|..]; intros l ks []%elem_of_nil.
  - exists r. split; [done|]. destruct r as [r|]; [done|]. destruct Hr as [[-> _]|Hr]; [by left|by right].
Qed.
