(* ===== verification/PruneFacts.v ===== *)
(** The choice of servers for a set of buckets: [pruneNodes] and the grouping by primaries. *)
From S2P Require Import Prelude ServerLocation ClientMetadata ClientMetadataService SingleHopClaims.
Import ClientMetadataService.
Local Open Scope Z_scope.

(** Every element of [X] is in exactly one of the sets of the map. *)
Definition covers {X} `{Countable X} (r : ServerMap (gset X)) (Y : gset X) : Prop :=
  concat (elements <$> r.*2) ≡ₚ elements Y.

Lemma covers_snoc {X} `{Countable X} (r : ServerMap (gset X)) Y l bs :
  covers r Y -> bs ## Y -> covers (r ++ [(l, bs)]) (Y ∪ bs).
Proof.
  unfold covers. intros Hr Hd. rewrite !fmap_app, concat_app, elements_disj_union by (by symmetry). simpl.
  by rewrite Hr, app_nil_r.
Qed.

Lemma covers_elem {X} `{Countable X} (r : ServerMap (gset X)) Y b :
  covers r Y -> b ∈ Y <-> exists l bs, (l, bs) ∈ r /\ b ∈ bs.
Proof.
  unfold covers. intros Hr. rewrite <- elem_of_elements, <- Hr, list_elem_of_In, in_concat. split.
  - intros (x & Hx & Hb). apply list_elem_of_In, list_elem_of_fmap in Hx as (bs & -> & Hbs).
    apply list_elem_of_fmap in Hbs as ([l bs'] & -> & Hin). exists l, bs'. split; [done|].
    by apply elem_of_elements, list_elem_of_In.
  - intros (l & bs & Hin & Hb). exists (elements bs). split; [|by apply list_elem_of_In, elem_of_elements].
    apply list_elem_of_In, list_elem_of_fmap. exists bs. split; [done|]. apply list_elem_of_fmap. by exists (l, bs).
Qed.

Lemma order_elem (order : gset Z -> list Z) (order_ok : forall X, order X ≡ₚ elements X) X b : b ∈ order X <-> b ∈ X.
Proof. by rewrite order_ok, elem_of_elements. Qed.

Section Prune.
Context (m : ClientMetadata.t).
(** The servers of a map host the buckets they have in it. *)
Definition hosting (r : ServerMap (gset Z)) : Prop :=
  forall l bs, (l, bs) ∈ r -> bs <> ∅ /\ forall b, b ∈ bs -> hosts m b l.

Lemma hosting_upsert r b l :
  hosting r -> l ∈ ClientMetadata.locations m b -> hosting (upsert (fun bs => {[b]} ∪ bs) ∅ l r).
Proof.
  intros Hh Hl. destruct (upsert_cases (fun bs => {[b]} ∪ bs) ∅ l r) as [(m1 & l' & bs & m2 & -> & Hs & _ & ->)|[_ ->]];
    intros l0 bs0 Hin.
  - apply elem_of_app in Hin as [Hin|[[= -> ->]|Hin]%elem_of_cons]; [apply Hh; mem| |apply Hh; mem].
    destruct (Hh l' bs) as [_ Hbs]; [mem|]. split; [set_solver|]. intros b0 [->%elem_of_singleton|Hb]%elem_of_union.
    + exists l. by split.
    + by apply Hbs.
  - apply elem_of_app in Hin as [Hin|He%list_elem_of_singleton]; [by apply Hh|]. injection He as -> ->. split; [set_solver|].
    intros b0 [->%elem_of_singleton|[]%elem_of_empty]%elem_of_union. by exists l.
Qed.

(** A bucket is in the map. *)
Definition has (r : ServerMap (gset Z)) (b : Z) : Prop := exists l bs, (l, bs) ∈ r /\ b ∈ bs.

Lemma has_upsert r b l b' : has (upsert (fun bs => {[b]} ∪ bs) ∅ l r) b' <-> b' = b \/ has r b'.
Proof.
  unfold has. destruct (upsert_cases (fun bs => {[b]} ∪ bs) ∅ l r) as [(m1 & l' & bs & m2 & -> & Hs & _ & ->)|[_ ->]]; split.
  - intros (l0 & bs0 & [Hin|[[= -> ->]|Hin]%elem_of_cons]%elem_of_app & Hb).
    + right. exists l0, bs0. split; [mem|done].
    + apply elem_of_union in Hb as [->%elem_of_singleton|Hb]; [by left|]. right. exists l', bs. split; [mem|done].
    + right. exists l0, bs0. split; [mem|done].
  - intros [->|(l0 & bs0 & [Hin|[[= -> ->]|Hin]%elem_of_cons]%elem_of_app & Hb)].
    + exists l', ({[b]} ∪ bs). split; [mem|set_solver].
    + exists l0, bs0. split; [mem|done].
    + exists l', ({[b]} ∪ bs). split; [mem|set_solver].
    + exists l0, bs0. split; [mem|done].
  - intros (l0 & bs0 & [Hin|He%list_elem_of_singleton]%elem_of_app & Hb).
    + right. by exists l0, bs0.
    + injection He as -> ->. left. set_solver.
  - intros [->|(l0 & bs0 & Hin & Hb)].
    + exists l, ({[b]} ∪ ∅). split; [|set_solver]. apply elem_of_app. right. by apply list_elem_of_singleton.
    + exists l0, bs0. split; [mem|done].
Qed.

Lemma add_locations b ls r :
  (forall l, l ∈ ls -> l ∈ ClientMetadata.locations m b) -> hosting r -> NoDup (servers r) ->
  let r' := foldl (fun r l => upsert (fun bs => {[b]} ∪ bs) ∅ l r) r ls in
  hosting r' /\ NoDup (servers r') /\ forall b', has r' b' <-> (b' = b /\ ls <> []) \/ has r b'.
Proof.
  revert r. induction ls as [|l ls IH]; intros r Hl Hh Hd; cbn -[upsert].
  - split; [done|]. split; [done|]. naive_solver.
  - destruct (IH (upsert (fun bs => {[b]} ∪ bs) ∅ l r)) as (H1 & H2 & H3).
    + intros l' Hl'. apply Hl. by right.
    + apply hosting_upsert; [done|]. apply Hl. by left.
    + by apply upsert_distinct.
    + split; [done|]. split; [done|]. intros b'. rewrite H3, has_upsert. naive_solver.
Qed.

(** The servers of the buckets in the list. *)
Lemma servers_of_spec bs r :
  metadata_ok m -> Forall (in_range m) bs -> hosting r -> NoDup (servers r) ->
  exists o, servers_of m bs r = Ok o /\
    match o with
    | None => exists b, b ∈ bs /\ ClientMetadata.locations m b = []
    | Some r' => hosting r' /\ NoDup (servers r') /\ forall b, has r' b <-> b ∈ bs \/ has r b
    end.
Proof.
  intros metaok. revert r. induction bs as [|b bs IH]; intros r Hr Hh Hd; cbn [servers_of].
  - exists (Some r). split; [done|]. split; [done|]. split; [done|]. intros b.
    split; [by right|]. by intros [[]%elem_of_nil|].
  - apply list.Forall_cons in Hr as [Hb Hr]. unfold ClientMetadata.adviseServerLocations. rewrite (check_range m b metaok Hb).
    unfold mbind, outcome_bind. destruct (ClientMetadata.locations m b) as [|l ls] eqn:El.
    + exists None. split; [done|]. exists b. split; [left|done].
    + destruct (add_locations b (l :: ls) r) as (H1 & H2 & H3); [by rewrite El|done|done|].
      destruct (IH _ Hr H1 H2) as (o & Ho & Hs). exists o. split; [exact Ho|]. destruct o as [r'|].
      * destruct Hs as (? & ? & Hs). split; [done|]. split; [done|]. intros b'. rewrite Hs, H3, elem_of_cons. naive_solver.
      * destruct Hs as (b' & Hb' & Hs). exists b'. split; [by right|done].
Qed.

(** *** The rounds *)

Lemma erase_length l (bs : gset Z) M : (l, bs) ∈ M -> (length (erase_location l M) < length M)%nat.
Proof.
  unfold erase_location. induction M as [|[l' bs'] M IH]; [by intros []%elem_of_nil|]. intros Hin.
  assert (Hle : (length (List.filter (fun lx => negb (bool_decide (same_server lx.1 l))) M) <= length M)%nat) by apply filter_length_le.
  cbn -[same_server]. destruct (decide (same_server l' l)) as [Hs|Hs].
  - rewrite bool_decide_eq_true_2 by done. simpl. lia.
  - rewrite bool_decide_eq_false_2 by done. simpl. apply elem_of_cons in Hin as [[= -> ->]|Hin]; [by destruct Hs|].
    specialize (IH Hin). lia.
Qed.

Lemma erase_servers l (M : ServerMap (gset Z)) s : s ∈ servers (erase_location l M) <-> s ∈ servers M /\ s <> server_of l.
Proof.
  unfold servers. rewrite !list_elem_of_fmap. split.
  - intros (lx & -> & [Hin Hn]%erase_incl). split; [by exists lx|]. by rewrite <- same_server_of.
  - intros [(lx & -> & Hin) Hn]. exists lx. split; [done|]. apply erase_incl. by rewrite same_server_of.
Qed.

Lemma erase_nodup l (M : ServerMap (gset Z)) : NoDup (servers M) -> NoDup (servers (erase_location l M)).
Proof.
  unfold erase_location, servers. induction M as [|[l' bs'] M IH]; [done|]. cbn -[same_server]. intros [Hn Hd]%list.NoDup_cons.
  case bool_decide; simpl; [by apply IH|]. apply list.NoDup_cons. split; [|by apply IH].
  contradict Hn. by apply (erase_servers l M) in Hn as [? _].
Qed.

(** What holds in each round: the servers chosen so far cover [cur], and the remaining ones have
    the other buckets. *)
Record pruning (buckets cur : gset Z) (M P : ServerMap (gset Z)) : Prop := {
  pr_hosting : hosting P;
  pr_remaining : hosting M;
  pr_distinct : NoDup (servers P);
  pr_rest : NoDup (servers M);
  pr_apart : forall s, s ∈ servers P -> s ∉ servers M;
  pr_covers : covers P cur;
  pr_cur : cur ⊆ buckets;
  pr_incl : forall b, has M b -> b ∈ buckets;
  pr_all : forall b, b ∈ buckets -> b ∈ cur \/ has M b
}.

(** A server that is taken out of the map for what it has of the other buckets. *)
Lemma pruning_take buckets cur M P l bs :
  pruning buckets cur M P -> (l, bs) ∈ M -> bs ∖ cur <> ∅ ->
  pruning buckets (cur ∪ (bs ∖ cur)) (erase_location l M) (P ++ [(l, bs ∖ cur)]).
Proof.
  intros [Hh Hr Hd Hrd Ha Hc Hcb Hi Hall] Hin Hne. destruct (Hr l bs Hin) as [_ Hb]. split.
  - intros l0 bs0 [Hin0|He%list_elem_of_singleton]%elem_of_app; [by apply Hh|]. injection He as -> ->.
    split; [done|]. intros b Hb0. apply Hb. set_solver.
  - intros l0 bs0 [Hin0 _]%erase_incl. by apply Hr.
  - unfold servers. rewrite fmap_app. apply list.NoDup_app. split_and!; [done| |apply NoDup_singleton].
    intros s Hs ->%list_elem_of_singleton. apply (Ha (server_of l)); [done|]. apply list_elem_of_fmap. by exists (l, bs).
  - by apply erase_nodup.
  - intros s Hs [Hs1 Hs2]%erase_servers. unfold servers in Hs. rewrite fmap_app in Hs.
    apply elem_of_app in Hs as [Hs| ->%list_elem_of_singleton]; [by apply (Ha s)|done].
  - apply covers_snoc; [done|set_solver].
  - assert (bs ⊆ buckets); [|set_solver]. intros b Hb0. apply Hi. by exists l, bs.
  - intros b (l0 & bs0 & [Hin0 _]%erase_incl & Hb0). apply Hi. by exists l0, bs0.
  - intros b Hbb. destruct (Hall b Hbb) as [Hc0|(l0 & bs0 & Hin0 & Hb0)]; [left; set_solver|].
    destruct (decide (same_server l0 l)) as [Hs|Hs]; [|right; exists l0, bs0; split; [by apply erase_incl|done]].
    left. assert (find_server l M = Some bs0) as E1 by (apply find_server_in; [done|by exists l0]).
    assert (find_server l M = Some bs) as E2 by (apply find_server_in; [done|by exists l]).
    rewrite E1 in E2. injection E2 as ->. destruct (decide (b ∈ cur)); set_solver.
Qed.

Lemma pruning_drop buckets cur M P l bs :
  pruning buckets cur M P -> (l, bs) ∈ M -> bs ∖ cur = ∅ -> pruning buckets cur (erase_location l M) P.
Proof.
  intros [Hh Hr Hd Hrd Ha Hc Hcb Hi Hall] Hin He. split; [done| |done|by apply erase_nodup| |done|done|..].
  - intros l0 bs0 [Hin0 _]%erase_incl. by apply Hr.
  - intros s Hs [Hs1 _]%erase_servers. by apply (Ha s).
  - intros b (l0 & bs0 & [Hin0 _]%erase_incl & Hb0). apply Hi. by exists l0, bs0.
  - intros b Hbb. destruct (Hall b Hbb) as [Hc0|(l0 & bs0 & Hin0 & Hb0)]; [by left|].
    destruct (decide (same_server l0 l)) as [Hs|Hs]; [|right; exists l0, bs0; split; [by apply erase_incl|done]].
    left. assert (find_server l M = Some bs0) as E1 by (apply find_server_in; [done|by exists l0]).
    assert (find_server l M = Some bs) as E2 by (apply find_server_in; [done|by exists l]).
    rewrite E1 in E2. injection E2 as ->. destruct (decide (b ∈ cur)); [done|set_solver].
Qed.

(** *** The next server *)

Context (arrange : ServerMap (gset Z) -> ServerMap (gset Z)) (arrange_ok : forall M, arrange M ≡ₚ M).

Lemma largest_spec M cur max nodes :
  (forall l, l ∈ largest M cur max nodes -> l ∈ nodes \/ exists bs, (l, bs) ∈ M) /\
  (nodes <> [] \/ (max = 0%nat /\ M <> []) -> largest M cur max nodes <> []).
Proof.
  revert max nodes. induction M as [|[l bs] M IH]; intros max nodes; cbn [largest].
  - split; [by left|]. by intros [?|[_ ?]].
  - assert (Hlift : forall P, (exists bs, (P, bs) ∈ M) -> exists bs0, (P, bs0) ∈ (l, bs) :: M) by (intros P [x Hx]; exists x; by right).
    assert (Hl : exists bs0, (l, bs0) ∈ (l, bs) :: M) by (exists bs; left).
    destruct (Nat.ltb_spec max (base.size (bs ∖ cur))) as [Hlt|Hge].
    + destruct (IH (base.size (bs ∖ cur)) [l]) as [H1 H2]. split.
      * intros l' [->%list_elem_of_singleton|Hin]%H1; right; [done|by apply Hlift].
      * intros _. apply H2. by left.
    + destruct (Nat.eqb_spec max (base.size (bs ∖ cur))) as [->|Hne].
      * destruct (IH (base.size (bs ∖ cur)) (nodes ++ [l])) as [H1 H2]. split.
        -- intros l' [[Hin| ->%list_elem_of_singleton]%elem_of_app|Hin]%H1; [by left|by right|right; by apply Hlift].
        -- intros _. apply H2. left. by destruct nodes.
      * destruct (IH max nodes) as [H1 H2]. split.
        -- intros l' [Hin|Hin]%H1; [by left|right; by apply Hlift].
        -- intros [?|[-> _]]; apply H2; [by left|]. lia.
Qed.

Lemma findNextServer_spec randgen M cur : rand_ok randgen ->
  exists o, findNextServer arrange randgen M cur = Ok o /\
    match o with None => M = [] | Some l => exists bs, (l, bs) ∈ M end.
Proof.
  intros Hr. unfold findNextServer. destruct (largest_spec (arrange M) cur 0 []) as [H1 H2].
  destruct (largest (arrange M) cur 0 []) as [|x nodes] eqn:El.
  - exists None. split; [done|]. destruct (decide (arrange M = [])) as [He|Hne].
    + apply Permutation_nil. by rewrite <- (arrange_ok M), He.
    + exfalso. apply H2; [by right|done].
  - assert (is_Some ((x :: nodes) !! randgen (length (x :: nodes)))) as [l Hl] by (apply lookup_lt_is_Some, Hr; simpl; lia).
    rewrite Hl. exists (Some l). split; [done|]. destruct (H1 l) as [[]%elem_of_nil|[bs Hbs]]; [by eapply list_elem_of_lookup_2|].
    exists bs. by rewrite arrange_ok in Hbs.
Qed.

Lemma prune_loop_spec randgen buckets fuel : (forall i, rand_ok (randgen i)) ->
  forall i cur M P, pruning buckets cur M P -> (length M < fuel)%nat ->
  exists r, prune_loop arrange fuel randgen i buckets cur M P = Ok r /\ hosting r /\ NoDup (servers r) /\ covers r buckets.
Proof.
  intros Hrand. induction fuel as [|fuel IH]; intros i cur M P Hp Hlen; [lia|]. cbn [prune_loop].
  destruct (decide (buckets = cur)) as [->|Hne].
  { exists P. split; [done|]. destruct Hp. done. }
  destruct (findNextServer_spec (randgen i) M cur (Hrand i)) as (o & -> & Ho). unfold mbind, outcome_bind.
  destruct o as [l|].
  - destruct Ho as [bs Hin]. assert (Ef : find_server l M = Some bs).
    { apply find_server_in; [apply Hp|]. by exists l. }
    rewrite Ef. pose proof (erase_length l bs M Hin) as Hel. destruct (decide (bs ∖ cur = ∅)) as [He|He].
    + apply IH; [by eapply pruning_drop|lia].
    + apply IH; [by apply pruning_take|lia].
  - subst M. exfalso. apply Hne. apply set_eq. intros b. split; [|apply Hp].
    intros [?|(l & bs & []%elem_of_nil & _)]%(pr_all _ _ _ _ Hp). done.
Qed.

Lemma first_index_spec rand size : (0 < size)%nat -> (forall i, rand_ok (rand i)) ->
  forall fuel idx, (idx < size)%nat -> (size < fuel + idx)%nat -> exists k, first_index fuel rand size idx = Ok k /\ (k < size)%nat.
Proof.
  intros Hs Hr. induction fuel as [|fuel IH]; intros idx Hi Hf; [lia|]. cbn [first_index].
  pose proof (Hr idx size Hs). destruct (Nat.ltb_spec idx (rand idx size)).
  - apply IH; lia.
  - by exists idx.
Qed.

End Prune.

Lemma prune_partitions_lemma m order arrange first_rand randgen buckets :
  metadata_ok m -> (forall X, order X ≡ₚ elements X) -> (forall M, arrange M ≡ₚ M) ->
  (forall i, rand_ok (first_rand i)) -> (forall i, rand_ok (randgen i)) -> (forall b, b ∈ buckets -> in_range m b) ->
  exists o, pruneNodes order arrange first_rand randgen m buckets = Ok o /\
    (o = None <-> buckets = ∅ \/ exists b, b ∈ buckets /\ ClientMetadata.locations m b = []) /\
    forall r, o = Some r -> hosting m r /\ NoDup (servers r) /\ covers r buckets.
Proof.
  intros Hm Hord Harr Hf Hr Hin. unfold pruneNodes.
  destruct (servers_of_spec m (order buckets) []) as (o & -> & Ho); [done|..].
  { apply Forall_forall. intros b Hb%list_elem_of_In. apply Hin. by apply (order_elem order Hord). }
  { by intros l bs []%elem_of_nil. } { constructor. }
  assert (Hno : forall b, ~ has [] b) by (intros b (l & bs & []%elem_of_nil & _)).
  unfold mbind, outcome_bind. destruct o as [M|].
  2:{ exists None. split; [done|]. split; [|done]. split; [|done]. intros _. right.
      destruct Ho as (b & Hb & Hl). exists b. split; [by apply (order_elem order Hord)|done]. }
  destruct Ho as (Hh & Hd & Hhas).
  assert (Hb : forall b, has M b <-> b ∈ buckets).
  { intros b. rewrite Hhas, (order_elem order Hord). split; [intros [?|[]%Hno]; done|by left]. }
  assert (Hloc : forall b, b ∈ buckets -> ClientMetadata.locations m b <> []).
  { intros b (l & bs & HinM & Hbs)%Hb. destruct (Hh l bs HinM) as [_ Hhb]. destruct (Hhb b Hbs) as (loc & Hloc & _).
    intros E. rewrite E in Hloc. by apply elem_of_nil in Hloc. }
  destruct M as [|x M].
  { exists None. split; [done|]. split; [|done]. split; [intros _; left|done]. apply set_eq. intros b.
    rewrite <- Hb. split; [intros []%Hno|set_solver]. }
  remember (x :: M) as M' eqn:EM.
  destruct (first_index_spec first_rand (length M') ltac:(subst; simpl; lia) Hf (S (length M')) 0) as (k & -> & Hk);
    [subst; simpl; lia|lia|].
  destruct (lookup_lt_is_Some_2 (arrange M') k) as [[l bs] Hl]; [by rewrite Harr|]. rewrite Hl.
  assert (HlM : (l, bs) ∈ M') by (rewrite <- (Harr M'); by eapply list_elem_of_lookup_2).
  assert (Hstart : pruning m buckets ∅ M' []).
  { split; [by intros ? ? []%elem_of_nil|done|constructor|done|by intros s []%elem_of_nil|by unfold covers|set_solver|..].
    - intros b. apply Hb.
    - intros b Hbb. right. by apply Hb. }
  destruct (Hh l bs HlM) as [Hne _].
  pose proof (pruning_take m buckets ∅ M' [] l bs Hstart HlM ltac:(by rewrite difference_empty_L)) as Hp.
  rewrite union_empty_l_L, difference_empty_L in Hp. simpl in Hp.
  destruct (prune_loop_spec m arrange Harr randgen buckets (S (length M')) Hr 0 bs _ _ Hp) as (r & -> & Hr').
  { pose proof (erase_length l bs M' HlM). lia. }
  exists (Some r). split; [done|]. split; [|by intros ? [= <-]]. split; [done|].
  intros [->|(b & Hbb & E)]; [|by destruct (Hloc b Hbb)]. exfalso.
  assert (Hx : has M' (hd 0 (elements bs))); [|by apply Hb in Hx].
  exists l, bs. split; [done|]. apply elem_of_elements. destruct (elements bs) eqn:Ee; [|left].
  destruct Hne. by apply elements_empty_inv, leibniz_equiv in Ee.
Qed.

(** C28. For a set of buckets of a region, [pruneNodes] always ends, whatever numbers the
    generators return and whatever the order of its hash tables. It returns nothing exactly if
    there are no buckets or one of them has no server; otherwise it returns distinct servers,
    each with at least one bucket, so that every bucket is given to exactly one server and that
    server hosts it. *)
Theorem prune_partitions m order arrange first_rand randgen buckets :
  metadata_ok m -> (forall X, order X ≡ₚ elements X) -> (forall M, arrange M ≡ₚ M) ->
  (forall i, rand_ok (first_rand i)) -> (forall i, rand_ok (randgen i)) -> (forall b, b ∈ buckets -> in_range m b) ->
  exists o, pruneNodes order arrange first_rand randgen m buckets = Ok o /\
    (o = None <-> buckets = ∅ \/ exists b, b ∈ buckets /\ ClientMetadata.locations m b = []) /\
    forall r, o = Some r -> hosting m r /\ NoDup (servers r) /\ covers r buckets.
Proof. apply prune_partitions_lemma. Qed.
