(* ===== verification/FunctionRouting.v ===== *)
(** The servers of a function that is executed on the buckets of a region: every key goes to one
    server, which hosts its bucket. *)
From S2P Require Import Prelude ServerLocation ClientMetadata ClientMetadataService SingleHopClaims PruneFacts.
Import ClientMetadataService.
Local Open Scope Z_scope.

(** *** Adding to maps *)

Section Covers.
Context {X : Type} `{Countable X}.
Implicit Types (r : ServerMap (gset X)) (Y W : gset X).

Lemma covers_add m1 m2 l bs Y W :
  covers (m1 ++ (l, bs) :: m2) Y -> W ## Y -> covers (m1 ++ (l, bs ∪ W) :: m2) (Y ∪ W).
Proof.
  intros Hc Hd. assert (Hbs : bs ⊆ Y).
  { intros x Hx. apply (covers_elem _ _ x Hc). exists l, bs. split; [mem|done]. }
  unfold covers in *. rewrite !fmap_app, !fmap_cons, concat_app in *. simpl in *.
  rewrite !elements_disj_union by set_solver. rewrite <- Hc, <- !(assoc_L (++)).
  by rewrite (Permutation_app_comm (elements W)).
Qed.

Lemma covers_upsert r Y W l :
  covers r Y -> W ## Y -> covers (upsert (fun bs => bs ∪ W) ∅ l r) (Y ∪ W).
Proof.
  intros Hc Hd. destruct (upsert_cases (fun bs => bs ∪ W) ∅ l r) as [(m1 & l' & bs & m2 & -> & _ & _ & ->)|[_ ->]].
  - by apply covers_add.
  - rewrite union_empty_l_L. by apply covers_snoc.
Qed.

(** Where an element of the changed map was, or that it is new. *)
Lemma upsert_elem (f : gset X -> gset X) r l l0 bs0 :
  (l0, bs0) ∈ upsert f ∅ l r ->
  (l0, bs0) ∈ r \/ (same_server l0 l /\ exists bs, bs0 = f bs /\ (bs = ∅ \/ exists l', (l', bs) ∈ r /\ same_server l' l)).
Proof.
  destruct (upsert_cases f ∅ l r) as [(m1 & l' & bs & m2 & -> & Hs & _ & ->)|[_ ->]].
  - intros [Hin|[[= -> ->]|Hin]%elem_of_cons]%elem_of_app; [left; mem| |left; mem].
    right. split; [done|]. exists bs. split; [done|]. right. exists l'. split; [mem|done].
  - intros [Hin|He%list_elem_of_singleton]%elem_of_app; [by left|]. injection He as -> ->. right. split; [done|].
    exists ∅. split; [done|]. by left.
Qed.
End Covers.

(** *** Buckets by their primaries *)

Section Primaries.
Context (m : ClientMetadata.t) (metaok : metadata_ok m).

(** The valid primary of a bucket. *)
Definition primary (b : Z) : option BucketServerLocation :=
  match List.find m_isPrimary (ClientMetadata.locations m b) with
  | Some l => if isValid l then Some l else None
  | None => None
  end.

(** Buckets are at their primaries. *)
Definition at_primaries (r : ServerMap (gset Z)) : Prop :=
  forall l bs b, (l, bs) ∈ r -> b ∈ bs -> exists p, primary b = Some p /\ same_server l p.

Lemma primaries_of_spec bs r w done :
  Forall (in_range m) bs -> NoDup bs -> (forall b, b ∈ bs -> b ∉ done) ->
  NoDup (servers r) -> at_primaries r -> covers r (done ∖ w) -> w ⊆ done -> (forall b, b ∈ w -> primary b = None) ->
  exists r' w', primaries_of m bs r w = Ok (r', w') /\ NoDup (servers r') /\ at_primaries r' /\
    covers r' ((done ∪ list_to_set bs) ∖ w') /\ w' ⊆ done ∪ list_to_set bs /\ (forall b, b ∈ w' -> primary b = None).
Proof.
  revert r w done. induction bs as [|b bs IH]; intros r w done Hr Hnd Hout Hd Hp Hc Hw Hwp; cbn [primaries_of].
  - exists r, w. split; [done|]. simpl. rewrite union_empty_r_L. done.
  - apply list.Forall_cons in Hr as [Hb Hr]. apply list.NoDup_cons in Hnd as [Hnb Hnd].
    unfold ClientMetadata.advisePrimaryServerLocation, ClientMetadata.adviseServerLocations. rewrite (check_range m b metaok Hb).
    unfold mbind, outcome_bind.
    assert (Hbd : b ∉ done) by (apply Hout; left).
    assert (Hout' : forall b', b' ∈ bs -> b' ∉ done ∪ {[b]}).
    { intros b' Hb'. assert (b' ∉ done) by (apply Hout; by right). set_solver. }
    assert (Hskip : primary b = None -> exists r' w', primaries_of m bs r ({[b]} ∪ w) = Ok (r', w') /\ NoDup (servers r') /\
      at_primaries r' /\ covers r' ((done ∪ list_to_set (b :: bs)) ∖ w') /\ w' ⊆ done ∪ list_to_set (b :: bs) /\ (forall b0, b0 ∈ w' -> primary b0 = None)).
    { intros Hpb. destruct (IH r ({[b]} ∪ w) (done ∪ {[b]})) as (r' & w' & H1 & H2 & H3 & H4 & H5 & H6);
        [done|done|done|done|done| |set_solver|set_solver|].
      - replace ((done ∪ {[b]}) ∖ ({[b]} ∪ w)) with (done ∖ w) by set_solver. done.
      - exists r', w'. do 3 (split; [done|]). simpl. rewrite (assoc_L (∪)). done. }
    destruct (List.find m_isPrimary (ClientMetadata.locations m b)) as [l|] eqn:Ef; [|apply Hskip; unfold primary; by rewrite Ef].
    destruct (isValid l) eqn:Ev; [|apply Hskip; unfold primary; by rewrite Ef, Ev].
    destruct (IH (upsert (fun bs => {[b]} ∪ bs) ∅ l r) w (done ∪ {[b]})) as (r' & w' & H1 & H2 & H3 & H4 & H5 & H6);
      [done|done|done|by apply upsert_distinct| | |set_solver|done|].
    + intros l0 bs0 b0 Hin Hb0. assert (Hpb : primary b = Some l) by (unfold primary; by rewrite Ef, Ev).
      destruct (upsert_elem _ r l l0 bs0 Hin) as [Hin'|(Hs & x & -> & Hx)]; [by eapply Hp|].
      apply elem_of_union in Hb0 as [->%elem_of_singleton|Hb0]; [by exists l|].
      destruct Hx as [->|(l' & Hin' & Hs')]; [by apply elem_of_empty in Hb0|].
      destruct (Hp l' x b0 Hin' Hb0) as (p & Hp' & Hs2). exists p. split; [done|]. etransitivity; [exact Hs|]. by etransitivity; [symmetry|].
    + assert (He : upsert (fun bs => {[b]} ∪ bs) ∅ l r = upsert (fun bs => bs ∪ {[b]}) ∅ l r).
      { unfold upsert. destruct (find_server l r).
        - clear. induction r as [|[l' x] r IHr]; [done|]. cbn -[same_server]. case decide; [by rewrite (comm_L (∪))|]. by rewrite IHr.
        - by rewrite (comm_L (∪)). }
      rewrite He. replace ((done ∪ {[b]}) ∖ w) with ((done ∖ w) ∪ {[b]}) by set_solver. apply covers_upsert; [done|set_solver].
    + exists r', w'. do 3 (split; [done|]). simpl. rewrite (assoc_L (∪)). done.
Qed.
End Primaries.

(** *** Keys by bucket *)

Section Keys.
Context {K V A : Type} `{Countable K} (hashcode : K -> Z).
Context (m : ClientMetadata.t) (region : RegionView K V A).
Abbreviation bucket := (function_bucket hashcode region m).

(** The keys [done] by bucket. *)
Record grouped (done : gset K) (g : gmap Z (gset K)) : Prop := {
  gr_place : forall b ks k, g !! b = Some ks -> k ∈ ks -> bucket k = Ok b;
  gr_nonempty : forall b ks, g !! b = Some ks -> ks <> ∅;
  gr_all : forall k, k ∈ done <-> exists b ks, g !! b = Some ks /\ k ∈ ks
}.

Lemma grouped_step done g k b :
  grouped done g -> bucket k = Ok b -> grouped ({[k]} ∪ done) (<[b := {[k]} ∪ default ∅ (g !! b)]> g).
Proof.
  intros [Hp Hn Ha] Hb.
  assert (Hdef : forall k', k' ∈ default ∅ (g !! b) -> exists ks, g !! b = Some ks /\ k' ∈ ks).
  { destruct (g !! b) as [ks|]; [by exists ks|]. by intros k' []%elem_of_empty. }
  split.
  - intros b' ks k' [[<- <-]|[_ Hl]]%lookup_insert_Some; [|by apply Hp].
    intros [->%elem_of_singleton|(ks & Hl & Hk)%Hdef]%elem_of_union; [done|by eapply Hp].
  - intros b' ks [[<- <-]|[_ Hl]]%lookup_insert_Some; [set_solver|by eapply Hn].
  - intros k'. rewrite elem_of_union, elem_of_singleton, Ha. split.
    + intros [->|(b' & ks & Hl & Hk)].
      * exists b, ({[k]} ∪ default ∅ (g !! b)). split; [by rewrite lookup_insert_eq|set_solver].
      * destruct (decide (b' = b)) as [->|Hne].
        -- exists b, ({[k]} ∪ default ∅ (g !! b)). split; [by rewrite lookup_insert_eq|]. rewrite Hl. set_solver.
        -- exists b', ks. split; [by rewrite lookup_insert_ne|done].
    + intros (b' & ks & [[<- <-]|[_ Hl]]%lookup_insert_Some & Hk).
      * apply elem_of_union in Hk as [?%elem_of_singleton|(ks & Hl & Hk)%Hdef]; [by left|]. right. by exists b, ks.
      * right. by exists b', ks.
Qed.

(** Keys that all have buckets are grouped, and no refresh is asked for. *)
Lemma group_loop_spec keys : Forall (fun k => exists b, bucket k = Ok b /\ in_range m b) keys ->
  forall done g s, grouped done g -> exists g', group_loop hashcode region m keys g s = Ok (g', s) /\ grouped (list_to_set keys ∪ done) g'.
Proof.
  induction 1 as [|k keys (b & Hb & Hr) Hk IH]; intros done g s Hg; cbn [group_loop].
  - exists g. split; [done|]. simpl. by rewrite union_empty_l_L.
  - assert (Hl : st_lift (bucket k) s = Ok (b, s)) by (by rewrite Hb). rewrite (st_bind_ok _ _ _ _ _ Hl).
    unfold in_range in Hr. replace (b =? -1) with false by lia. rewrite andb_false_r.
    destruct (IH ({[k]} ∪ done) _ s (grouped_step done g k b Hg Hb)) as (g' & E & Hg').
    exists g'. split; [exact E|]. by replace (list_to_set (k :: keys) ∪ done) with (list_to_set keys ∪ ({[k]} ∪ done)) by set_solver.
Qed.

(** *** Servers for the keys of buckets *)

Definition keys_at (g : gmap Z (gset K)) (b : Z) : gset K := default ∅ (g !! b).

Lemma keys_at_elem done g b k : grouped done g -> k ∈ keys_at g b -> bucket k = Ok b /\ k ∈ done.
Proof.
  intros Hg. unfold keys_at. destruct (g !! b) as [ks|] eqn:El; [|by intros []%elem_of_empty].
  intros Hk. split; [by eapply gr_place|]. apply (gr_all _ _ Hg). by exists b, ks.
Qed.

Lemma keys_at_disjoint done g b b' : grouped done g -> b <> b' -> keys_at g b ## keys_at g b'.
Proof.
  intros Hg Hne k Hk Hk'. destruct (keys_at_elem done g b k Hg Hk) as [E _]. destruct (keys_at_elem done g b' k Hg Hk') as [E' _].
  congruence.
Qed.

(** The buckets with the servers they are given to. *)
Definition assign (g : gmap Z (gset K)) (r : ServerMap (gset K)) (p : BucketServerLocation * Z) : ServerMap (gset K) :=
  upsert (fun ks => ks ∪ keys_at g p.2) ∅ p.1 r.

Lemma keys_of_assign g l bs r : keys_of g l bs r = foldl (assign g) r (pair l <$> bs).
Proof. revert r. induction bs as [|b bs IH]; intros r; [done|]. cbn -[upsert]. by rewrite IH. Qed.

Lemma foldl_assign g (order : gset Z -> list Z) sb r :
  foldl (fun r lb => keys_of g lb.1 (order lb.2) r) r sb = foldl (assign g) r (sb ≫= fun lb => pair lb.1 <$> order lb.2).
Proof.
  revert r. induction sb as [|[l bs] sb IH]; intros r; [done|]. cbn -[upsert keys_of]. by rewrite IH, foldl_app, keys_of_assign.
Qed.

Lemma assign_spec done g pairs : grouped done g -> forall r Y,
  NoDup pairs.*2 -> (forall b, b ∈ pairs.*2 -> keys_at g b ## Y) -> NoDup (servers r) -> covers r Y ->
  let r' := foldl (assign g) r pairs in
  NoDup (servers r') /\ covers r' (Y ∪ ⋃ (keys_at g <$> pairs.*2)) /\
  forall l ks k, (l, ks) ∈ r' -> k ∈ ks ->
    (exists l1 ks1, (l1, ks1) ∈ r /\ same_server l l1 /\ k ∈ ks1) \/
    (exists l1 b, (l1, b) ∈ pairs /\ same_server l l1 /\ k ∈ keys_at g b).
Proof.
  intros Hg. induction pairs as [|[l b] pairs IH]; intros r Y Hnd Hd Hs Hc; cbn -[upsert assign union_list].
  - split; [done|]. split; [by replace (Y ∪ ⋃ []) with Y by (simpl; set_solver)|]. intros l ks k Hin Hk. left. by exists l, ks.
  - apply list.NoDup_cons in Hnd as [Hnb Hnd].
    assert (Hb : keys_at g b ## Y) by (apply Hd; left).
    destruct (IH (assign g r (l, b)) (Y ∪ keys_at g b)) as (H1 & H2 & H3); [done| |by apply upsert_distinct|by apply covers_upsert|].
    + intros b' Hb'. assert (keys_at g b' ## Y) by (apply Hd; by right). assert (b <> b') by (by intros ->).
      pose proof (keys_at_disjoint done g b b' Hg). set_solver.
    + split; [done|]. split; [cbn; by rewrite (assoc_L (∪))|]. intros l0 ks0 k Hin Hk.
      destruct (H3 l0 ks0 k Hin Hk) as [(l1 & ks1 & Hin1 & Hs1 & Hk1)|(l1 & b1 & Hin1 & Hs1 & Hk1)].
      2:{ right. exists l1, b1. split; [by right|done]. }
      destruct (upsert_elem _ r l l1 ks1 Hin1) as [Hr|(Hsl & x & -> & Hx)]; [left; by exists l1, ks1|].
      apply elem_of_union in Hk1 as [Hk1|Hk1].
      * destruct Hx as [->|(l' & Hin' & Hs')]; [by apply elem_of_empty in Hk1|]. left. exists l', x. split; [done|]. split; [|done].
        etransitivity; [exact Hs1|]. etransitivity; [exact Hsl|]. by symmetry.
      * right. exists l, b. split; [left|]. split; [|done]. by etransitivity.
Qed.
End Keys.

(** *** Servers for buckets and keys *)

Section Routing.
Context (m : ClientMetadata.t) (metaok : metadata_ok m).
Context (order : gset Z -> list Z) (arrange : ServerMap (gset Z) -> ServerMap (gset Z)).
Context (order_ok : forall X, order X ≡ₚ elements X) (arrange_ok : forall M, arrange M ≡ₚ M).
Context (first_rand randgen : nat -> nat -> nat).
Context (first_ok : forall i, rand_ok (first_rand i)) (rands_ok : forall i, rand_ok (randgen i)).

(** A bucket is where it should be: at a server that hosts it, at its primary for a write
    (anywhere if it has no valid one). *)
Definition well_placed (write : bool) (b : Z) (l : BucketServerLocation) : Prop :=
  if write then forall p, primary m b = Some p -> same_server l p else hosts m b l.

Definition bucket_result (write : bool) (B : gset Z) (o : option (ServerMap (gset Z))) : Prop :=
  match o with
  | None => write = false /\ (B = ∅ \/ exists b, b ∈ B /\ ClientMetadata.locations m b = [])
  | Some r =>
    NoDup (servers r) /\ (covers r B \/ (r = [] /\ write = true /\ forall b, b ∈ B -> primary m b = None)) /\
    forall l bs b, (l, bs) ∈ r -> b ∈ bs -> well_placed write b l
  end.

Lemma group_primaries B : (forall b, b ∈ B -> in_range m b) ->
  exists o, groupByServerToBuckets order arrange first_rand randgen m B true = Ok o /\ bucket_result true B o.
Proof.
  intros HB. unfold groupByServerToBuckets.
  destruct (primaries_of_spec m metaok (order B) [] ∅ ∅) as (r & w & -> & Hd & Hp & Hc & Hw & Hwp).
  { apply Forall_forall. intros b Hb%list_elem_of_In. apply HB. by apply (order_elem order order_ok). }
  { rewrite order_ok. apply NoDup_elements. } { set_solver. } { constructor. } { by intros ? ? ? []%elem_of_nil. }
  { unfold covers. by rewrite difference_empty_L. } { done. } { set_solver. }
  rewrite union_empty_l_L in Hc, Hw. replace (list_to_set (order B) : gset Z) with B in Hc, Hw.
  2:{ apply set_eq. intros b. by rewrite elem_of_list_to_set, (order_elem order order_ok). }
  unfold mbind, outcome_bind. destruct (arrange r) as [|[l bs] rest] eqn:Ea.
  - assert (r = []) as -> by (apply Permutation_nil; by rewrite <- (arrange_ok r), Ea).
    eexists. split; [done|]. split; [done|]. split; [|by intros ? ? ? []%elem_of_nil]. right. do 2 (split; [done|]).
    intros b Hb. apply Hwp. destruct (decide (b ∈ w)) as [|Hn]; [done|].
    assert (Hin : b ∈ B ∖ w) by set_solver. apply (covers_elem _ _ _ Hc) in Hin as (? & ? & []%elem_of_nil & _).
  - assert (Hl : (l, bs) ∈ r) by (rewrite <- (arrange_ok r), Ea; left).
    assert (Ef : find_server l r = Some bs) by (apply find_server_in; [done|by exists l]).
    destruct (find_server_some l bs r Ef) as (m1 & l' & m2 & -> & Hs & Hn). rewrite on_server_at by done.
    eexists. split; [done|]. split; [|split].
    + unfold servers in *. by rewrite fmap_app in *.
    + left. replace B with ((B ∖ w) ∪ w); [apply covers_add; [done|set_solver]|].
      apply set_eq. intros b. destruct (decide (b ∈ w)); set_solver.
    + assert (Hp' : forall l0 bs0 b, (l0, bs0) ∈ m1 ++ (l', bs) :: m2 -> b ∈ bs0 -> well_placed true b l0).
      { intros l0 bs0 b Hin Hb p Hpb. destruct (Hp l0 bs0 b Hin Hb) as (p' & Hp' & Hs'). by rewrite Hp' in Hpb; injection Hpb as <-. }
      intros l0 bs0 b [Hin|[[= -> ->]|Hin]%elem_of_cons]%elem_of_app Hb; [apply (Hp' l0 bs0); [mem|done]| |apply (Hp' l0 bs0); [mem|done]].
      apply elem_of_union in Hb as [Hb|Hb]; [apply (Hp' l' bs); [mem|done]|]. intros p. by rewrite (Hwp b Hb).
Qed.

Lemma group_servers B write : (forall b, b ∈ B -> in_range m b) ->
  exists o, groupByServerToBuckets order arrange first_rand randgen m B write = Ok o /\ bucket_result write B o.
Proof.
  intros HB. destruct write; [by apply group_primaries|]. unfold groupByServerToBuckets.
  destruct (prune_partitions_lemma m order arrange first_rand randgen B metaok order_ok arrange_ok first_ok rands_ok HB) as (o & Ho & Hn & Hs).
  exists o. split; [done|]. destruct o as [r|]; [|split; [done|by apply Hn]].
  destruct (Hs r eq_refl) as (Hh & Hd & Hc). split; [done|]. split; [by left|]. intros l bs b Hin Hb.
  by apply (Hh l bs Hin).
Qed.

Context {K V A : Type} `{Countable K} (hashcode : K -> Z) (region : RegionView K V A).
Abbreviation bucket := (function_bucket hashcode region m).

Definition function_result (write : bool) (keys : list K) (o : option (ServerMap (gset K))) : Prop :=
  match o with
  | None => write = false /\ (keys = [] \/ exists k b, k ∈ keys /\ bucket k = Ok b /\ ClientMetadata.locations m b = [])
  | Some r =>
    NoDup (servers r) /\
    (covers r (list_to_set keys) \/
     (r = [] /\ write = true /\ forall k b, k ∈ keys -> bucket k = Ok b -> primary m b = None)) /\
    forall l ks k, (l, ks) ∈ r -> k ∈ ks -> exists b, bucket k = Ok b /\ well_placed write b l
  end.

(** The keys of the buckets that are given to servers. *)
Lemma route_keys g keys sb write :
  grouped hashcode m region (list_to_set keys) g -> bucket_result write (dom g) (Some sb) ->
  function_result write keys (Some (foldl (fun r lb => keys_of g lb.1 (order lb.2) r) [] (arrange sb))).
Proof.
  clear rands_ok first_ok first_rand randgen metaok.
  intros Hg (Hd & Hc & Hp). rewrite foldl_assign. set (pairs := arrange sb ≫= _).
  assert (Hpairs : pairs.*2 ≡ₚ concat (elements <$> sb.*2)).
  { assert (E : concat (elements <$> sb.*2) = sb ≫= fun lb => elements lb.2).
    { clear. induction sb as [|[l0 bs0] sb IH]; [done|]. cbn. by rewrite IH. }
    rewrite E, <- (arrange_ok sb). unfold pairs. generalize (arrange sb). clear - order_ok. intros l.
    induction l as [|[l0 bs0] l IH]; [done|]. cbn. rewrite fmap_app, IH. apply Permutation_app_tail.
    rewrite <- list_fmap_compose. unfold compose. simpl. rewrite list_fmap_id. apply order_ok. }
  assert (Hin : forall l b, (l, b) ∈ pairs -> exists bs, (l, bs) ∈ sb /\ b ∈ bs).
  { intros l b Hlb. apply list_elem_of_bind in Hlb as ([l0 bs0] & Hb & Hl). apply list_elem_of_fmap in Hb as (b0 & [= -> ->] & Hb).
    exists bs0. rewrite <- (arrange_ok sb). split; [done|]. by apply (order_elem order order_ok). }
  destruct (assign_spec hashcode m region (list_to_set keys) g pairs Hg [] ∅) as (H1 & H2 & H3).
  { rewrite Hpairs. destruct Hc as [Hc|(-> & _)]; [rewrite Hc; apply NoDup_elements|constructor]. }
  { set_solver. } { constructor. } { by unfold covers. }
  rewrite union_empty_l_L in H2. split; [done|]. split.
  - destruct Hc as [Hc|(-> & -> & Hn)].
    + left. replace (list_to_set keys : gset K) with (⋃ (keys_at g <$> pairs.*2)); [done|]. apply set_eq. intros k.
      rewrite elem_of_union_list. rewrite (gr_all _ _ _ _ _ Hg). split.
      * intros (X & (b & -> & Hb)%list_elem_of_fmap & Hk). unfold keys_at in Hk. destruct (g !! b) as [ks|] eqn:El; [by exists b, ks|].
        by apply elem_of_empty in Hk.
      * intros (b & ks & Hl & Hk). exists (keys_at g b). split; [|unfold keys_at; by rewrite Hl].
        apply list_elem_of_fmap. exists b. split; [done|]. rewrite Hpairs. unfold covers in Hc. rewrite Hc, elem_of_elements.
        by apply elem_of_dom_2 in Hl.
    + right. assert (pairs = []) as ->.
      { unfold pairs. assert (arrange [] = []) as ->; [|done]. apply Permutation_nil. symmetry. apply arrange_ok. }
      do 2 (split; [done|]). intros k b Hk Hb. apply Hn.
      assert (Hk' : k ∈ (list_to_set keys : gset K)) by (by apply elem_of_list_to_set).
      apply (gr_all _ _ _ _ _ Hg) in Hk' as (b' & ks & Hl & Hk'). rewrite (gr_place _ _ _ _ _ Hg b' ks k Hl Hk') in Hb.
      injection Hb as ->. by apply elem_of_dom_2 in Hl.
  - intros l ks k Hlk Hk. destruct (H3 l ks k Hlk Hk) as [(? & ? & []%elem_of_nil & _)|(l1 & b & Hl1 & Hs & Hkb)].
    exists b. split; [by apply (keys_at_elem hashcode m region _ g b k Hg)|].
    destruct (Hin l1 b Hl1) as (bs & Hbs & Hb). pose proof (Hp l1 bs b Hbs Hb) as Hw. unfold well_placed in *. destruct write.
    + intros p Hpb. etransitivity; [exact Hs|]. by apply Hw.
    + destruct Hw as (loc & Hloc & Hs'). exists loc. split; [done|]. by etransitivity.
Qed.
End Routing.

(** C29. A function that is executed with keys which all have buckets gets an answer and asks
    for no refresh. If servers are chosen, every key is given to exactly one server: to one that
    hosts its bucket, or, for a function that writes, to the valid primary of its bucket if it
    has one. No servers are chosen if there are no keys or if a bucket has no server; for
    a function that writes the choice is empty if no bucket has a valid primary. *)
Theorem function_keys_routed {K V A : Type} `{Countable K} (hashcode : K -> Z) m order arrange first_rand randgen
    (region : RegionView K V A) keys write s :
  metadata_ok m -> (forall X, order X ≡ₚ elements X) -> (forall M, arrange M ≡ₚ M) ->
  (forall i, rand_ok (first_rand i)) -> (forall i, rand_ok (randgen i)) ->
  find_metadata (getFullPath region) s = Some m ->
  Forall (fun k => exists b, function_bucket hashcode region m k = Ok b /\ in_range m b) keys ->
  exists o, getServerToFilterMapFESHOP hashcode order arrange first_rand randgen (Some keys) region write s = Ok (o, s) /\
    function_result m hashcode region write keys o.
Proof.
  intros Hm Ho Ha Hf Hr Hs Hk. unfold getServerToFilterMapFESHOP.
  rewrite (st_bind_ok st_get _ s s s eq_refl), Hs. unfold groupByBucketOnClientSide.
  destruct (group_loop_spec hashcode m region keys Hk ∅ ∅ s) as (g & Eg & Hg).
  { split; [by intros ? ? ? ?%lookup_empty_Some|by intros ? ? ?%lookup_empty_Some|]. intros k. split; [set_solver|].
    by intros (? & ? & ?%lookup_empty_Some & _). }
  rewrite union_empty_r_L in Hg. rewrite (st_bind_ok _ _ _ _ _ Eg).
  assert (HB : forall b, b ∈ dom g -> in_range m b).
  { intros b [ks Hl]%elem_of_dom. destruct (set_choose_L ks (gr_nonempty _ _ _ _ _ Hg b ks Hl)) as [k Hkb].
    assert (Hkk : k ∈ (list_to_set keys : gset K)) by (apply (gr_all _ _ _ _ _ Hg); by exists b, ks).
    apply elem_of_list_to_set in Hkk. rewrite Forall_forall in Hk. destruct (Hk k) as (b' & Hb' & Hb''); [by apply list_elem_of_In|].
    rewrite (gr_place _ _ _ _ _ Hg b ks k Hl Hkb) in Hb'. by injection Hb' as <-. }
  destruct (group_servers m Hm order arrange Ho Ha first_rand randgen Hf Hr (dom g) write HB) as (o & Eo & Hres).
  assert (El : st_lift (S := t) (groupByServerToBuckets order arrange first_rand randgen m (dom g) write) s = Ok (o, s)) by (by rewrite Eo).
  rewrite (st_bind_ok _ _ _ _ _ El). destruct o as [sb|].
  - eexists. split; [done|]. by apply route_keys.
  - exists None. split; [done|]. destruct Hres as [-> Hres]. split; [done|]. destruct Hres as [He|(b & Hb & Hl)].
    + left. destruct keys as [|k keys]; [done|]. exfalso. assert (Hkk : k ∈ (list_to_set (k :: keys) : gset K)) by set_solver.
      apply (gr_all _ _ _ _ _ Hg) in Hkk as (b & ks & Hl & _). apply elem_of_dom_2 in Hl. set_solver.
    + right. apply elem_of_dom in Hb as [ks Hlk]. destruct (set_choose_L ks (gr_nonempty _ _ _ _ _ Hg b ks Hlk)) as [k Hkb].
      exists k, b. split; [|split; [by eapply gr_place|done]].
      assert (Hkk : k ∈ (list_to_set keys : gset K)) by (apply (gr_all _ _ _ _ _ Hg); by exists b, ks).
      by apply elem_of_list_to_set in Hkk.
Qed.
