(* ===== verification/ServiceClaims.v ===== *)
(** The refresh of metadata (what an update leaves in a bucket, what a reply leaves in the
    metadata of a region), and what the metadata service promises: what a refresh installs, and the invariant that makes
    the tables of buckets safe to use. *)
From S2P Require Import Prelude ServerLocation ClientMetadata ClientMetadataService SingleHopClaims PruneFacts FunctionRouting.
From stdpp Require Import relations.
Import ClientMetadataService.
Local Open Scope Z_scope.

(** *** The locations of one bucket *)

Section Ordered.
Context (shuffle : list BucketServerLocation -> list BucketServerLocation) (shuffle_ok : forall l, shuffle l ≡ₚ l).
Implicit Types ps : list BucketServerLocation * list BucketServerLocation.

(** How often a server is added to the list. *)
Fixpoint times_by_group (serverGroup : list Z) (groups : list (list Z)) (added : bool) : nat :=
  match groups with
  | [] => if added then 0 else 1
  | cs :: groups' =>
    if decide (cs = []) then S (times_by_group serverGroup groups' true)
    else if decide (cs = serverGroup) then 1%nat
    else times_by_group serverGroup groups' added
  end.
Definition times (serverGroup : list Z) (l : BucketServerLocation) : nat :=
  if decide (serverGroup = []) then 1%nat
  else match m_serverGroups l with
       | None | Some [] => 0%nat
       | Some groups => times_by_group serverGroup groups false
       end.
(** A server is kept although the group of the pool is not among its groups. *)
Lemma other_groups_kept serverGroup groups :
  serverGroup ∉ groups -> [] ∉ groups -> times_by_group serverGroup groups false = 1%nat.
Proof.
  induction groups as [|cs groups IH]; [done|]. rewrite !not_elem_of_cons. intros [Hn Hg] [He Hg']. cbn.
  rewrite !decide_False by congruence. by apply IH.
Qed.
Definition kept (serverGroup : list Z) (ls : list BucketServerLocation) : list BucketServerLocation :=
  ls ≫= fun l => replicate (times serverGroup l) l.

(** Primaries are kept apart from secondaries. *)
Definition sorted ps : Prop :=
  Forall (fun l => m_isPrimary l = true) ps.1 /\ Forall (fun l => m_isPrimary l = false) ps.2.

Lemma push_spec l ps : sorted ps -> sorted (ClientMetadata.push_back l ps) /\
  (ClientMetadata.push_back l ps).1 ++ (ClientMetadata.push_back l ps).2 ≡ₚ (ps.1 ++ ps.2) ++ [l].
Proof.
  intros [H1 H2]. unfold ClientMetadata.push_back, sorted. destruct (m_isPrimary l) eqn:Ep; simpl.
  - split; [split; [apply Forall_app; auto|done]|]. by rewrite <- !(assoc_L (++)), (Permutation_app_comm [l]).
  - split; [split; [done|apply Forall_app; auto]|]. by rewrite (assoc_L (++)).
Qed.

Lemma add_by_group_spec g l groups : forall added ps, sorted ps ->
  sorted (ClientMetadata.add_by_group g l groups added ps) /\
  (ClientMetadata.add_by_group g l groups added ps).1 ++ (ClientMetadata.add_by_group g l groups added ps).2
    ≡ₚ (ps.1 ++ ps.2) ++ replicate (times_by_group g groups added) l.
Proof.
  induction groups as [|cs groups IH]; intros added ps Hs; cbn.
  - destruct added; [split; [done|]; by rewrite app_nil_r|]. by apply push_spec.
  - destruct (push_spec l ps Hs) as [Hs' Hp]. case decide; intros He.
    + destruct (IH true (ClientMetadata.push_back l ps) Hs') as [H1 H2]. split; [done|]. rewrite H2, Hp. by rewrite <- (assoc_L (++)).
    + case decide; [by split|]. intros _. by apply IH.
Qed.

Lemma ordered_spec g ls :
  exists p s, ClientMetadata.ordered_locations shuffle g ls = p ++ s /\ sorted (p, s) /\ p ++ s ≡ₚ kept g ls.
Proof.
  unfold ClientMetadata.ordered_locations.
  assert (Hstep : forall (f : list BucketServerLocation * list BucketServerLocation -> BucketServerLocation -> _),
    (forall ps l, sorted ps -> sorted (f ps l) /\ (f ps l).1 ++ (f ps l).2 ≡ₚ (ps.1 ++ ps.2) ++ replicate (times g l) l) ->
    forall ps, sorted ps -> sorted (foldl f ps ls) /\ (foldl f ps ls).1 ++ (foldl f ps ls).2 ≡ₚ (ps.1 ++ ps.2) ++ kept g ls).
  { intros f Hf. induction ls as [|l ls IH]; intros ps Hs; simpl; [by rewrite app_nil_r|].
    destruct (Hf ps l Hs) as [Hs' Hp]. destruct (IH _ Hs') as [H1 H2]. split; [done|]. by rewrite H2, Hp, <- (assoc_L (++)). }
  assert (Hs0 : sorted ([], [])) by (split; constructor).
  set (r := if decide (g = []) then _ else _).
  assert (Hr : sorted r /\ r.1 ++ r.2 ≡ₚ kept g ls).
  { unfold r. case decide; intros Hg.
    - apply (Hstep (flip ClientMetadata.push_back)); [|done]. intros ps l Hs. unfold times. rewrite decide_True by done. by apply push_spec.
    - apply Hstep; [|done]. intros ps l Hs. unfold ClientMetadata.add_grouped, times. rewrite decide_False by done.
      destruct (m_serverGroups l) as [[|c groups]|]; [by rewrite app_nil_r| |by rewrite app_nil_r]. by apply add_by_group_spec. }
  destruct r as [p s]. destruct Hr as [[H1 H2] Hp]. exists (shuffle p), (shuffle s). split; [done|].
  split; [split; simpl; by rewrite shuffle_ok|]. by rewrite !shuffle_ok.
Qed.
End Ordered.

(** *** The metadata of a reply *)

Section Refresh.
Context (shuffle : list BucketServerLocation -> list BucketServerLocation) (replies : Replies).

Definition group_of (m : ClientMetadata.t) : list Z := default [] (ClientMetadata.m_tcrdm m).

Lemma locations_at m b : metadata_ok m -> in_range m b ->
  ClientMetadata.locations m b = default [] (ClientMetadata.m_bucketServerLocationsList m !! Z.to_nat b).
Proof. intros Hm Hb. unfold ClientMetadata.locations. by rewrite (range_u64 m b Hm Hb). Qed.

Lemma with_lists_ok m ls : metadata_ok m -> length ls = length (ClientMetadata.m_bucketServerLocationsList m) ->
  metadata_ok (ClientMetadata.with_lists ls m).
Proof. intros [Hi Hl] He. split; [done|]. simpl. by rewrite He. Qed.

(** One bucket is changed, the others stay. *)
Lemma update_spec m b v : metadata_ok m -> in_range m b ->
  exists ls, ClientMetadata.updateBucketServerLocations shuffle b v m = Ok (ClientMetadata.with_lists ls m) /\
    metadata_ok (ClientMetadata.with_lists ls m) /\
    forall b', in_range m b' -> ClientMetadata.locations (ClientMetadata.with_lists ls m) b' =
      if decide (b' = b) then ClientMetadata.ordered_locations shuffle (group_of m) v else ClientMetadata.locations m b'.
Proof.
  intros Hm Hb. unfold ClientMetadata.updateBucketServerLocations. rewrite (check_range m b Hm Hb), (range_u64 m b Hm Hb).
  set (ls := <[Z.to_nat b := ClientMetadata.ordered_locations shuffle (group_of m) v]> (ClientMetadata.m_bucketServerLocationsList m)).
  exists ls. split; [done|].
  assert (Hok : metadata_ok (ClientMetadata.with_lists ls m)) by (apply with_lists_ok; [done|apply length_insert]).
  split; [done|]. intros b' Hb'. rewrite (locations_at _ b' Hok Hb'), (locations_at m b' Hm Hb'). simpl. unfold ls.
  unfold in_range in *. pose proof (mo_length m Hm). case decide; intros He.
  - subst b'. rewrite list_lookup_insert_eq; [done|]. lia.
  - by rewrite list_lookup_insert_ne by lia.
Qed.

(** The last part of the reply for a bucket. *)
Fixpoint last_part (parts : list (list BucketServerLocation)) (b : Z) : option (list BucketServerLocation) :=
  match parts with
  | [] => None
  | v :: parts' =>
    match last_part parts' b with
    | Some w => Some w
    | None => match v with l :: _ => if decide (m_bucketId l = b) then Some v else None | [] => None end
    end
  end.

Definition part_in_range (m : ClientMetadata.t) (v : list BucketServerLocation) : Prop :=
  match v with l :: _ => in_range m (m_bucketId l) | [] => True end.

Lemma apply_metadata_spec parts : forall m, metadata_ok m -> Forall (part_in_range m) parts ->
  exists ls, apply_metadata shuffle parts m = Ok (ClientMetadata.with_lists ls m) /\
    metadata_ok (ClientMetadata.with_lists ls m) /\
    forall b, in_range m b -> ClientMetadata.locations (ClientMetadata.with_lists ls m) b =
      match last_part parts b with
      | Some v => ClientMetadata.ordered_locations shuffle (group_of m) v
      | None => ClientMetadata.locations m b
      end.
Proof.
  induction parts as [|v parts IH]; intros m Hm Hp; cbn [apply_metadata last_part].
  - exists (ClientMetadata.m_bucketServerLocationsList m). destruct m. done.
  - apply list.Forall_cons in Hp as [Hv Hp]. destruct v as [|l v].
    + destruct (IH m Hm Hp) as (ls & E & Hok & Hl). exists ls. split; [done|]. split; [done|]. intros b Hb. rewrite (Hl b Hb).
      by destruct (last_part parts b).
    + destruct (update_spec m (m_bucketId l) (l :: v) Hm Hv) as (ls1 & -> & Hok1 & Hl1).
      destruct (IH (ClientMetadata.with_lists ls1 m) Hok1 Hp) as (ls & E & Hok & Hl). exists ls. split; [exact E|]. split; [exact Hok|].
      intros b Hb. change (ClientMetadata.with_lists ls m) with (ClientMetadata.with_lists ls (ClientMetadata.with_lists ls1 m)).
      rewrite (Hl b Hb), (Hl1 b Hb). destruct (last_part parts b); [done|].
      destruct (decide (m_bucketId l = b)) as [He|He]; [by rewrite decide_True|by rewrite decide_False].
Qed.

(** Updates change nothing but the lists. *)
Lemma apply_metadata_fields parts : forall m m', metadata_ok m -> apply_metadata shuffle parts m = Ok m' ->
  metadata_ok m' /\ ClientMetadata.m_totalNumBuckets m' = ClientMetadata.m_totalNumBuckets m /\
  ClientMetadata.m_colocatedWith m' = ClientMetadata.m_colocatedWith m.
Proof.
  induction parts as [|[|l v] parts IH]; intros m m' Hm; cbn [apply_metadata]; [by intros [= <-]|by apply IH|].
  unfold ClientMetadata.updateBucketServerLocations, mbind, outcome_bind.
  destruct (ClientMetadata.checkBucketId m _); [|done]. intros H. apply IH in H; [done|].
  apply with_lists_ok; [done|apply length_insert].
Qed.

Lemma copy_ok m : metadata_ok m -> metadata_ok (ClientMetadata.copy m).
Proof.
  intros [Hi Hl]. assert (E : length (ClientMetadata.empty_buckets (ClientMetadata.m_totalNumBuckets m)) = Z.to_nat (ClientMetadata.m_totalNumBuckets m))
    by apply length_replicate.
  unfold ClientMetadata.copy. case decide; intros _; by split.
Qed.

Lemma copy_fields m :
  ClientMetadata.m_totalNumBuckets (ClientMetadata.copy m) = ClientMetadata.m_totalNumBuckets m /\
  ClientMetadata.m_colocatedWith (ClientMetadata.copy m) = ClientMetadata.m_colocatedWith m /\
  group_of (ClientMetadata.copy m) = group_of m /\ ClientMetadata.m_previousOne (ClientMetadata.copy m) = None /\
  forall b, ClientMetadata.locations (ClientMetadata.copy m) b = [].
Proof.
  unfold ClientMetadata.copy, ClientMetadata.locations, ClientMetadata.empty_buckets.
  case decide; intros _; do 4 (split; [done|]); intros b; simpl;
    by destruct (replicate _ _ !! _) as [x|] eqn:El; [apply lookup_replicate in El as [-> _]|].
Qed.

(** What a refresh with a reply leaves: a new object for the region and the one it is colocated
    with, which knows the object before. *)
Definition target (path : list Z) (m : ClientMetadata.t) : list Z :=
  if decide (ClientMetadata.m_colocatedWith m = []) then path else c_str (ClientMetadata.m_colocatedWith m).

Definition source (path : list Z) : ST t (option nat) :=
  s ← st_get; match m_regionMetaDataMap s !! path with Some cptr => mret (Some cptr) | None => first_metadata replies path end.

(** The objects after the new one [m'] was made for [i]. *)
Definition linked (os : list ClientMetadata.t) (i : nat) (m' : ClientMetadata.t) : list ClientMetadata.t :=
  alter (ClientMetadata.setPreviousone None) i os ++ [ClientMetadata.setPreviousone (Some i) m'].

Definition after_refresh (path : list Z) (i : nat) (m m' : ClientMetadata.t) (s : t) : t :=
  let n := length (objects s) in
  set_updated (with_map (<[path := n]> (<[target path m := n]> (m_regionMetaDataMap s))) (with_objects (linked (objects s) i m') s)).

Lemma link_new os i m m' : os !! i = Some m ->
  alter (ClientMetadata.setPreviousone (Some i)) (length os) (alter (ClientMetadata.setPreviousone None) i (os ++ [m'])) = linked os i m'.
Proof.
  intros Hi. assert (Hl : (i < length os)%nat) by (by eapply lookup_lt_Some). unfold linked.
  rewrite alter_app_l by done.
  rewrite alter_app_r_alt; rewrite length_alter; [|done]. by rewrite Nat.sub_diag.
Qed.

(** A refresh either changes nothing but the first metadata of the region, or installs what the
    servers replied. *)
Lemma refresh_cases path s s' :
  getClientPRMetadata replies shuffle path s = Ok (tt, s') ->
  exists o s1, source path s = Ok (o, s1) /\
    match o with
    | None => s' = s1
    | Some i => exists m, objects s1 !! i = Some m /\
        (s' = s1 \/ exists parts m', prMetadata replies (target path m) = Some (Some parts) /\
           apply_metadata shuffle parts (ClientMetadata.copy m) = Ok m' /\ s' = after_refresh path i m m' s1)
    end.
Proof.
  unfold getClientPRMetadata, source. intros H. apply st_bind_inv in H as (s0 & s1 & [= <- <-] & H).
  rewrite (st_bind_ok st_get _ s s s eq_refl). apply st_bind_inv in H as (o & s1 & Ho & H).
  exists o, s1. split; [done|]. destruct o as [i|]; [|by injection H as <-].
  apply st_bind_inv in H as (m & s2 & Hm & H). unfold object in Hm. destruct (objects s1 !! i) as [m0|] eqn:Ei; [|done].
  injection Hm as -> <-. exists m. split; [done|]. unfold after_refresh, target.
  assert (Hsend : forall q o' s2, SendClientPRMetadata replies shuffle q i s1 = Ok (o', s2) ->
    (o' = None /\ s2 = s1) \/ exists parts m', prMetadata replies q = Some (Some parts) /\
      apply_metadata shuffle parts (ClientMetadata.copy m) = Ok m' /\ o' = Some (length (objects s1)) /\ s2 = with_objects (objects s1 ++ [m']) s1).
  { intros q o' s2. unfold SendClientPRMetadata. destruct (prMetadata replies q) as [[[|v parts]|]|] eqn:Ep; [by intros [= <- <-]; left| |by intros [= <- <-]; left..].
    unfold object, mbind, ST_bind. rewrite Ei. unfold st_lift. destruct (apply_metadata shuffle (v :: parts) _) as [m'|] eqn:Ea; [|done].
    intros [= <- <-]. right. by exists (v :: parts), m'. }
  case decide in H; intros; case decide; intros; try done;
    apply st_bind_inv in H as (o' & s2 & [[-> ->]|(parts & m' & Hp & Ha & -> & ->)]%Hsend & H); try (injection H as <-; by left);
    right; exists parts, m'; (split; [done|]); (split; [done|]); unfold on_object, mbind, ST_bind, st_modify in H; injection H as <-;
    unfold set_updated, with_map, with_objects; cbn; rewrite (link_new _ _ m) by done; [by rewrite insert_insert_eq|done].
Qed.
End Refresh.

(** *** Refresh *)

Lemma refresh_forward replies shuffle path s i s1 m v parts m' :
  source replies path s = Ok (Some i, s1) -> objects s1 !! i = Some m ->
  prMetadata replies (target path m) = Some (Some (v :: parts)) ->
  apply_metadata shuffle (v :: parts) (ClientMetadata.copy m) = Ok m' ->
  getClientPRMetadata replies shuffle path s = Ok (tt, after_refresh path i m m' s1).
Proof.
  intros Hs Hi Hp Ha. unfold getClientPRMetadata. rewrite (st_bind_ok st_get _ s s s eq_refl).
  rewrite (st_bind_ok _ _ s (Some i) s1) by exact Hs. unfold object at 1.
  assert (Eo : object i s1 = Ok (m, s1)) by (unfold object; by rewrite Hi).
  rewrite (st_bind_ok _ _ _ _ _ Eo).
  assert (Hsend : SendClientPRMetadata replies shuffle (target path m) i s1 =
                  Ok (Some (length (objects s1)), with_objects (objects s1 ++ [m']) s1)).
  { unfold SendClientPRMetadata. rewrite Hp, (st_bind_ok _ _ _ _ _ Eo). unfold st_lift, mbind, ST_bind. by rewrite Ha. }
  unfold after_refresh, target in *.
  destruct (decide (ClientMetadata.m_colocatedWith m = [])); rewrite (st_bind_ok _ _ _ _ _ Hsend);
    unfold on_object, mbind, ST_bind, st_modify, set_updated, with_map, with_objects; cbn; rewrite (link_new _ _ m) by done;
    [by rewrite insert_insert_eq|done].
Qed.

Lemma linked_new os i m' : linked os i m' !! length os = Some (ClientMetadata.setPreviousone (Some i) m').
Proof. unfold linked. rewrite lookup_app_r; rewrite length_alter; [|done]. by rewrite Nat.sub_diag. Qed.

Lemma linked_old os i m' j mj : os !! j = Some mj ->
  linked os i m' !! j = Some (if decide (j = i) then ClientMetadata.setPreviousone None mj else mj).
Proof.
  intros Hj. unfold linked. rewrite lookup_app_l by (rewrite length_alter; by eapply lookup_lt_Some).
  case decide; [intros ->; by rewrite list_lookup_alter_eq, Hj|]. intros Hne. by rewrite list_lookup_alter_ne.
Qed.

(** C30. When the servers reply to a refresh with buckets of the region, the region and the
    one it is colocated with get one new table. In it every bucket has servers of the
    last part of the reply for it, primaries first, and a bucket without a part has none. Of the
    servers of the part those are kept that [kept] says. Without a group of the pool these are
    all. With one, and against the comment in the code, which calls this pruning according to
    server groups, a server that has groups is kept whether or not the pool's is among them
    ([other_groups_kept]), perhaps more than once if group names are empty, and only a server
    without any group is dropped. The tables of other regions stay, and the old table of
    the region keeps its locations, for those who still use it. *)
Theorem refresh_installs replies shuffle path s i s1 m parts :
  (forall l, shuffle l ≡ₚ l) -> source replies path s = Ok (Some i, s1) -> objects s1 !! i = Some m -> metadata_ok m ->
  prMetadata replies (target path m) = Some (Some parts) -> parts <> [] -> Forall (part_in_range m) parts ->
  exists s' m', getClientPRMetadata replies shuffle path s = Ok (tt, s') /\
    find_metadata path s' = Some m' /\ getClientMetadata (target path m) s' = getClientMetadata path s' /\
    metadata_ok m' /\ ClientMetadata.m_totalNumBuckets m' = ClientMetadata.m_totalNumBuckets m /\
    (forall b, in_range m b -> exists p q, ClientMetadata.locations m' b = p ++ q /\ sorted (p, q) /\
       p ++ q ≡ₚ kept (group_of m) (default [] (last_part parts b))) /\
    (forall q, q <> path -> q <> target path m -> getClientMetadata q s' = getClientMetadata q s1) /\
    (forall j mj, objects s1 !! j = Some mj -> exists mj', objects s' !! j = Some mj' /\
       ClientMetadata.m_bucketServerLocationsList mj' = ClientMetadata.m_bucketServerLocationsList mj).
Proof.
  intros Hsh Hs Hi Hm Hp Hne Hr. destruct parts as [|v parts]; [done|]. destruct (copy_fields m) as (Et & Ec & Eg & _ & El).
  destruct (apply_metadata_spec shuffle (v :: parts) (ClientMetadata.copy m) (copy_ok m Hm)) as (ls & Ha & Hok & Hl).
  { eapply Forall_impl; [exact Hr|]. intros w. unfold part_in_range, in_range. destruct w; [done|]. by rewrite Et. }
  set (m1 := ClientMetadata.with_lists ls (ClientMetadata.copy m)) in *.
  exists (after_refresh path i m m1 s1), (ClientMetadata.setPreviousone (Some i) m1).
  split; [by eapply refresh_forward|]. split.
  { unfold find_metadata, getClientMetadata, after_refresh. simpl. rewrite lookup_insert_eq. simpl. apply linked_new. }
  split. { unfold getClientMetadata, after_refresh. simpl. rewrite lookup_insert_eq.
    destruct (decide (target path m = path)) as [->|Hd]; [by rewrite lookup_insert_eq|].
    by rewrite lookup_insert_ne, lookup_insert_eq by done. }
  split; [by destruct Hok|]. split; [by simpl|]. split; [|split].
  - intros b Hb. change (ClientMetadata.locations (ClientMetadata.setPreviousone (Some i) m1) b) with (ClientMetadata.locations m1 b).
    rewrite Hl by (unfold in_range; by rewrite Et). rewrite Eg. destruct (last_part (v :: parts) b) as [w|].
    + destruct (ordered_spec shuffle Hsh (group_of m) w) as (p & q & -> & Hps). by exists p, q.
    + exists [], []. rewrite El. split; [done|]. split; [split; constructor|done].
  - intros q H1 H2. unfold getClientMetadata, after_refresh. simpl. by rewrite !lookup_insert_ne by done.
  - intros j mj Hj. simpl. rewrite (linked_old _ i m1 j mj Hj). eexists. split; [done|]. by case decide.
Qed.

(** *** The invariant *)

Section Invariant.
(** The number of buckets of a region, on which all replies agree. *)
Context (count : list Z -> Z).

Definition attributes_ok (path : list Z) (a : PartitionAttributes) : Prop :=
  m_bucketCount a <> -1 ->
  in_s 32 (count path) /\ m_bucketCount a = count path /\
  (m_colocatedWith a <> [] -> count (c_str (m_colocatedWith a)) = count path).
Definition replies_ok (replies : Replies) : Prop :=
  forall path a, partitionAttributes replies path = Some a -> attributes_ok path a.

Record object_ok (os : list ClientMetadata.t) (m : ClientMetadata.t) : Prop := {
  ob_ok : metadata_ok m;
  ob_colocated : ClientMetadata.m_colocatedWith m <> [] ->
    count (c_str (ClientMetadata.m_colocatedWith m)) = ClientMetadata.m_totalNumBuckets m;
  ob_previous : forall p, ClientMetadata.m_previousOne m = Some p ->
    exists m', os !! p = Some m' /\ ClientMetadata.m_previousOne m' = None
}.

(** Tables have a list per bucket of their region, the table before a table has none before it, so
    that old tables are freed, and a region that is watched for timeouts has a status per
    bucket. *)
Record service_ok (s : t) : Prop := {
  so_objects : forall i m, objects s !! i = Some m -> object_ok (objects s) m;
  so_map : forall path i, m_regionMetaDataMap s !! path = Some i ->
    exists m, objects s !! i = Some m /\ ClientMetadata.m_totalNumBuckets m = count path;
  so_status : forall path st, m_bucketStatus s !! path = Some st -> length st = Z.to_nat (count path)
}.

(** A state with the same tables is as good. *)
Lemma service_ok_same s s' :
  objects s' = objects s -> m_regionMetaDataMap s' = m_regionMetaDataMap s -> m_bucketStatus s' = m_bucketStatus s ->
  service_ok s -> service_ok s'.
Proof. intros E1 E2 E3 [H1 H2 H3]. split; rewrite ?E1, ?E2, ?E3; done. Qed.

Lemma object_ok_app os m m' : object_ok os m -> object_ok (os ++ [m']) m.
Proof.
  intros [H1 H2 H3]. split; [done|done|]. intros p (m0 & Hm0 & Hp0)%H3. exists m0. split; [|done]. by apply lookup_app_l_Some.
Qed.

Lemma construct_ok path a g m :
  attributes_ok path a -> m_bucketCount a <> -1 ->
  ClientMetadata.construct (m_bucketCount a) (m_colocatedWith a) (Some g) (m_fpaSet a) = Ok m ->
  metadata_ok m /\ ClientMetadata.m_totalNumBuckets m = count path /\ ClientMetadata.m_colocatedWith m = m_colocatedWith a /\
  ClientMetadata.m_previousOne m = None.
Proof.
  intros Ha Hn. destruct (Ha Hn) as (Hi & Hc & _). assert (E : length (ClientMetadata.empty_buckets (m_bucketCount a)) = Z.to_nat (m_bucketCount a))
    by apply length_replicate.
  rewrite Hc in *. unfold ClientMetadata.construct. destruct (m_fpaSet a) as [[|f fs]|]; intros [= <-]; (split; [by split|done]).
Qed.

Lemma first_ok replies path s o s1 : replies_ok replies -> service_ok s -> first_metadata replies path s = Ok (o, s1) ->
  service_ok s1 /\ forall i, o = Some i -> exists m, objects s1 !! i = Some m /\ ClientMetadata.m_totalNumBuckets m = count path.
Proof.
  intros Hr Hs. unfold first_metadata. destruct (partitionAttributes replies path) as [a|] eqn:Ea; [|by intros [= <- <-]].
  pose proof (Hr path a Ea) as Ha. case Z.eqb_spec; intros Hn; [by intros [= <- <-]|].
  intros H. apply st_bind_inv in H as (s0 & s0' & [= <- <-] & H). apply st_bind_inv in H as (m & s2 & Hm & H).
  unfold st_lift in Hm. destruct (ClientMetadata.construct _ _ _ _) as [m0|] eqn:Ec; [|done]. injection Hm as <- <-.
  destruct (construct_ok path a _ m0 Ha Hn Ec) as (Hok & Ht & Hco & Hpr).
  apply st_bind_inv in H as (i & s2 & Hi & H). injection Hi as <- <-.
  assert (Hs2 : service_ok (with_objects (objects s ++ [m0]) s)).
  { split.
    - intros i m [Hl|[Hge Hl]]%lookup_app_Some; [apply object_ok_app; by eapply so_objects|].
      apply list_lookup_singleton_Some in Hl as [_ <-]. split; [done| |by rewrite Hpr]. rewrite Hco, Ht. by apply Ha.
    - intros p i Hp. destruct (so_map s Hs p i Hp) as (m & Hm & Hc). exists m. split; [by apply lookup_app_l_Some|done].
    - apply Hs. }
  assert (Hnew : exists m, (objects s ++ [m0]) !! length (objects s) = Some m /\ ClientMetadata.m_totalNumBuckets m = count path).
  { exists m0. split; [|done]. rewrite lookup_app_r by done. by rewrite Nat.sub_diag. }
  destruct (Ha Hn) as (_ & Hc & _).
  destruct ((0 <? m_bucketWaitTimeout s) && (0 <? m_bucketCount a)); injection H as <- <-.
  - split; [|by intros i [= <-]]. destruct Hs2 as [H1 H2 H3]. split; [done|done|].
    intros p st. cbn. intros [[<- <-]|[_ Hp]]%lookup_insert_Some; [by rewrite length_replicate, Hc|by eapply H3].
  - split; [done|]. by intros i [= <-].
Qed.

Lemma refresh_ok replies shuffle path s s' : replies_ok replies -> service_ok s ->
  getClientPRMetadata replies shuffle path s = Ok (tt, s') -> service_ok s'.
Proof.
  intros Hr Hs H. destruct (refresh_cases shuffle replies path s s' H) as (o & s1 & Ho & Hc).
  assert (H1 : service_ok s1 /\ forall i, o = Some i -> exists m, objects s1 !! i = Some m /\ ClientMetadata.m_totalNumBuckets m = count path).
  { unfold source in Ho. rewrite (st_bind_ok st_get _ s s s eq_refl) in Ho. destruct (m_regionMetaDataMap s !! path) as [i|] eqn:Ei.
    - injection Ho as <- <-. split; [done|]. intros ? [= <-]. by apply so_map.
    - by eapply first_ok. }
  destruct H1 as [Hs1 Hi]. destruct o as [i|]; [|by subst]. destruct Hc as (m & Hm & [->|(parts & m1 & _ & Ha & ->)]); [done|].
  destruct (Hi i eq_refl) as (m0 & Hm0 & Ht). rewrite Hm in Hm0. injection Hm0 as <-.
  destruct (so_objects s1 Hs1 i m Hm) as [Hok Hco Hpr].
  assert (H1 : metadata_ok m1 /\ ClientMetadata.m_totalNumBuckets m1 = count path /\ ClientMetadata.m_colocatedWith m1 = ClientMetadata.m_colocatedWith m).
  { destruct (copy_fields m) as (Et & Ec & _). rewrite <- Ht, <- Et, <- Ec. eapply apply_metadata_fields; [by apply copy_ok|done]. }
  destruct H1 as (Hok1 & Ht1 & Hco1).
  assert (Hobj : forall j mj, objects s1 !! j = Some mj -> object_ok (linked (objects s1) i m1) mj).
  { intros j mj Hj. destruct (so_objects s1 Hs1 j mj Hj) as [H2 H3 H4]. split; [done|done|]. intros p (m' & Hm' & Hp')%H4.
    exists (if decide (p = i) then ClientMetadata.setPreviousone None m' else m'). split; [by apply linked_old|]. by case decide. }
  split.
  - intros j mj Hj. cbn in Hj. change (object_ok (linked (objects s1) i m1) mj). unfold linked in Hj. apply lookup_app_Some in Hj as [Hj|[Hge Hj]].
    + destruct (decide (j = i)) as [->|Hne].
      * rewrite list_lookup_alter_eq, Hm in Hj. injection Hj as <-. destruct (Hobj i m Hm) as [H2 H3 _]. by split; [destruct H2|..].
      * rewrite list_lookup_alter_ne in Hj by done. by apply Hobj with j.
    + apply list_lookup_singleton_Some in Hj as [_ <-]. split; [by destruct Hok1|simpl; rewrite Hco1, Ht1, <- Ht; apply Hco|].
      simpl. intros p [= <-]. eexists. split; [by apply linked_old|]. by rewrite decide_True.
  - intros p j. cbn. assert (Hn : forall q, q = path \/ q = target path m -> exists m', linked (objects s1) i m1 !! length (objects s1) = Some m' /\
      ClientMetadata.m_totalNumBuckets m' = count q).
    { intros q Hq. eexists. split; [apply linked_new|]. simpl. rewrite Ht1. destruct Hq as [->| ->]; [done|]. unfold target. case decide; [done|].
      intros Hne. by rewrite Hco, Ht. }
    intros [[<- <-]|[_ [[<- <-]|[_ Hp]]%lookup_insert_Some]]%lookup_insert_Some; [apply Hn; by left|apply Hn; by right|].
    destruct (so_map s1 Hs1 p j Hp) as (mj & Hj & Hcj). eexists. split; [by apply linked_old|]. by case decide.
  - apply Hs1.
Qed.

Lemma enqueue_same path flag s s' : enqueueForMetadataRefresh path flag s = Ok (tt, s') ->
  objects s' = objects s /\ m_regionMetaDataMap s' = m_regionMetaDataMap s /\ m_bucketStatus s' = m_bucketStatus s.
Proof.
  unfold enqueueForMetadataRefresh, mbind, ST_bind, st_get, st_modify, st_throw, mret, ST_ret.
  destruct (decide (m_serverGroup s = [])); [|destruct (flag =? 2); [intros [= <-]; by repeat split|]];
    destruct (regions s !! path) as [[[|]|]|]; cbn; intros He; inversion He; subst; by repeat split.
Qed.

Lemma enqueue_ok path flag s s' : enqueueForMetadataRefresh path flag s = Ok (tt, s') -> service_ok s -> service_ok s'.
Proof. intros (E1 & E2 & E3)%enqueue_same. by apply service_ok_same. Qed.

Lemma round_ok replies shuffle s b s' : replies_ok replies -> service_ok s -> svc_round replies shuffle s = Ok (b, s') -> service_ok s'.
Proof.
  intros Hr Hs. unfold svc_round. rewrite (st_bind_ok st_get _ s s s eq_refl). destruct (m_run s); cbn [negb]; [|by intros [= <- <-]].
  destruct (m_regionQueue s) as [|path queue]; [by intros [= <- <-]|].
  assert (Hs1 : service_ok (with_queue (coalesce queue path) s)) by (by apply (service_ok_same s)).
  rewrite (st_bind_ok (st_modify _) _ s tt _ eq_refl). destruct (m_destroyPending s); [by intros [= <- <-]|].
  intros H. apply st_bind_inv in H as ([] & s2 & Hg & H). apply st_bind_inv in H as (s3 & s3' & [= <- <-] & H). injection H as _ <-.
  by eapply refresh_ok.
Qed.

(** Changes of one object that keep what the invariant is about. *)
Lemma on_object_ok i f s : service_ok s ->
  (forall m, ClientMetadata.m_previousOne (f m) = ClientMetadata.m_previousOne m /\ ClientMetadata.m_colocatedWith (f m) = ClientMetadata.m_colocatedWith m /\
     ClientMetadata.m_totalNumBuckets (f m) = ClientMetadata.m_totalNumBuckets m /\ (metadata_ok m -> metadata_ok (f m))) ->
  service_ok (with_objects (alter f i (objects s)) s).
Proof.
  intros [H1 H2 H3] Hf.
  assert (Hl : forall j m, objects s !! j = Some m -> exists m', alter f i (objects s) !! j = Some m' /\ (m' = m \/ m' = f m)).
  { intros j m Hj. rewrite list_lookup_alter. case decide; intros He; [subst|by exists m; eauto]. rewrite Hj. eexists. eauto. }
  split; [|intros p j Hp; destruct (H2 p j Hp) as (m & Hm & Hc); destruct (Hl j m Hm) as (m' & Hm' & [->| ->]); eexists; (split; [exact Hm'|]);
           [done|destruct (Hf m) as (_ & _ & E & _); by rewrite E]|done].
  intros j m'. simpl. rewrite list_lookup_alter. intros Hj.
  assert (exists m, objects s !! j = Some m /\ (m' = m \/ m' = f m)) as (m & Hm & Hcase).
  { case decide in Hj; [|by exists m'; eauto]. subst j. destruct (objects s !! i) as [m|]; [|done]. injection Hj as <-. exists m. eauto. }
  destruct (H1 j m Hm) as [Ho Hco Hp]. destruct (Hf m) as (E1 & E2 & E3 & E4).
  assert (Hprev : forall p, ClientMetadata.m_previousOne m = Some p ->
    exists m0, alter f i (objects s) !! p = Some m0 /\ ClientMetadata.m_previousOne m0 = None).
  { intros p (m0 & Hm0 & Hn)%Hp. destruct (Hl p m0 Hm0) as (m0' & Hm0' & Hc). exists m0'. split; [done|].
    destruct Hc as [->| ->]; [done|]. destruct (Hf m0) as (E & _). by rewrite E. }
  destruct Hcase as [->| ->]; [by split|]. split; rewrite ?E1, ?E2, ?E3; auto.
Qed.

Lemma remove_ok l s s' : service_ok s -> removeBucketServerLocation l s = Ok (tt, s') -> service_ok s'.
Proof.
  unfold removeBucketServerLocation. rewrite (st_bind_ok st_get _ s s s eq_refl). generalize (map_to_list (m_regionMetaDataMap s)).
  intros ps. revert s. induction ps as [|[p i] ps IH]; intros s Hs; cbn [st_iter]; [by intros [= <-]|].
  intros H. apply st_bind_inv in H as ([] & s1 & [= <-] & H). eapply IH; [|exact H]. apply on_object_ok; [done|].
  intros m. do 3 (split; [done|]). intros [Hi Hl]. split; [done|]. simpl. by rewrite length_fmap.
Qed.

(** *** Timeouts *)

(** The bucket [b] is marked if the number drawn for it picks the location of the key. *)
Lemma mark_loop_spec randgen m l b now : (forall i, rand_ok (randgen i)) -> metadata_ok m ->
  NoDup (address <$> concat (ClientMetadata.m_bucketServerLocationsList m)) -> l ∈ ClientMetadata.locations m b -> in_range m b ->
  forall n i st, (i + n)%nat = Z.to_nat (ClientMetadata.m_totalNumBuckets m) -> length st = Z.to_nat (ClientMetadata.m_totalNumBuckets m) ->
  mark_loop randgen m (Some l) now i n st =
    Ok (if decide ((i <= Z.to_nat b)%nat /\
                   ClientMetadata.locations m b !! randgen (Z.to_nat b) (length (ClientMetadata.locations m b)) = Some l)
        then alter (setTimeout now) (Z.to_nat b) st else st).
Proof.
  intros Hrand Hm Hnd Hl Hb. induction n as [|n IH]; intros i st Hi Hst; cbn [mark_loop].
  - rewrite decide_False; [done|]. unfold in_range in Hb. lia.
  - assert (Hr : in_range m (Z.of_nat i)) by (unfold in_range; lia).
    destruct (getServerLocation_spec (randgen i) m (Z.of_nat i) false None 0 (Hrand i) Hm Hr) as (v & -> & Hsome).
    unfold mbind, outcome_bind. set (o := match ClientMetadata.locations m (Z.of_nat i) with [] => None | _ => _ end).
    assert (Ho : o = ClientMetadata.locations m (Z.of_nat i) !! randgen i (length (ClientMetadata.locations m (Z.of_nat i))))
      by (unfold o; by destruct (ClientMetadata.locations m (Z.of_nat i))).
    destruct (decide (address <$> o = address <$> Some l)) as [Ha|Ha].
    + destruct o as [l'|] eqn:Eo; [|done]. injection Ha as Ha. symmetry in Ho.
      destruct (same_address m b l (Z.of_nat i) l' Hm Hnd Hb Hr Hl) as [Eb El]; [by eapply list_elem_of_lookup_2|done|].
      subst l' b. rewrite Nat2Z.id. destruct (Nat.ltb_spec i (length st)) as [_|?]; [|lia].
      rewrite IH by (rewrite ?length_alter; lia). rewrite Nat2Z.id, decide_False by lia. rewrite decide_True; [done|]. done.
    + rewrite IH by lia. f_equal. apply decide_ext. split; [intros [? ?]; split; [lia|done]|]. intros [Hle Hx]. split; [|done].
      destruct (decide (i = Z.to_nat b)) as [->|]; [|lia]. exfalso. apply Ha. unfold in_range in Hb. rewrite Ho.
      rewrite Z2Nat.id by lia. by rewrite Hx.
Qed.

(** What a step of the service or of one of its users does. *)
Inductive service_step (s s' : t) : Prop :=
| ss_start : start s = Ok (tt, s') -> service_step s s'
| ss_stop : stop s = Ok (tt, s') -> service_step s s'
| ss_round replies shuffle b : replies_ok replies -> svc_round replies shuffle s = Ok (b, s') -> service_step s s'
| ss_enqueue path flag : enqueueForMetadataRefresh path flag s = Ok (tt, s') -> service_step s s'
| ss_refreshed path b : setMetaDataRefreshed path b s = Ok (tt, s') -> service_step s s'
| ss_remove l : removeBucketServerLocation l s = Ok (tt, s') -> service_step s s'
| ss_mark (K V A : Type) (hashcode : K -> Z) randgen now (region : RegionView K V A) key value arg o v r :
    markPrimaryBucketForTimeout hashcode randgen now region key value arg o v s = Ok (r, s') -> service_step s s'
| ss_marked now path b r : isBucketMarkedForTimeout now path b s = Ok (r, s') -> service_step s s'
| ss_cache rs pending : s' = mk (objects s) (m_regionMetaDataMap s) (m_regionQueue s) (m_bucketStatus s) (m_bucketWaitTimeout s)
    (m_serverGroup s) (m_run s) rs (m_networkhop s) (m_pr_metadata_updated s) (m_serverGroupFlag s) pending -> service_step s s'.

Lemma status_ok path st st' s : service_ok s -> m_bucketStatus s !! path = Some st -> length st' = length st ->
  service_ok (with_status (<[path := st']> (m_bucketStatus s)) s).
Proof.
  intros [H1 H2 H3] Hst Hl. split; [done|done|]. intros p x. cbn. intros [[<- <-]|[_ Hp]]%lookup_insert_Some; [|by apply H3].
  rewrite Hl. by apply H3.
Qed.

Lemma mark_length randgen m o now : forall n i st st', mark_loop randgen m o now i n st = Ok st' -> length st' = length st.
Proof.
  induction n as [|n IH]; intros i st st'; cbn [mark_loop]; [by intros [= <-]|]. unfold mbind, outcome_bind.
  destruct (ClientMetadata.getServerLocation _ _ _ _ _ _) as [[bsl v]|]; [|done]. case decide; intros _.
  - destruct (i <? length st)%nat; [|done]. intros ->%IH. apply length_alter.
  - apply IH.
Qed.

Lemma mark_ok {K V A} (hashcode : K -> Z) randgen now (region : RegionView K V A) key value arg o v r s s' :
  service_ok s -> markPrimaryBucketForTimeout hashcode randgen now region key value arg o v s = Ok (r, s') -> service_ok s'.
Proof.
  intros Hs. unfold markPrimaryBucketForTimeout. rewrite (st_bind_ok st_get _ s s s eq_refl).
  destruct (m_bucketWaitTimeout s =? 0); [by intros [= <- <-]|]. destruct (m_bucketStatus s !! getFullPath region) as [st|] eqn:Est; [|by intros [= <- <-]].
  intros H. apply st_bind_inv in H as ([o' v'] & s1 & Hg & H). unfold st_lift in Hg. destruct (getBucketServerLocation _ _ _ _ _ _ _ _ _ _); [|done].
  injection Hg as -> <-. destruct (find_metadata (getFullPath region) s) as [m|]; [|by injection H as <- <-].
  apply st_bind_inv in H as (st' & s1 & Hl & H). unfold st_lift in Hl. destruct (mark_loop _ _ _ _ _ _ _) as [x|] eqn:El; [|done].
  injection Hl as -> <-. injection H as <- <-. eapply status_ok; [done|exact Est|by eapply mark_length].
Qed.

Lemma marked_ok now path b s : service_ok s ->
  (forall r s', isBucketMarkedForTimeout now path b s = Ok (r, s') -> service_ok s') /\
  (0 <= b < count path -> exists r s', isBucketMarkedForTimeout now path b s = Ok (r, s')).
Proof.
  intros Hs. unfold isBucketMarkedForTimeout. rewrite (st_bind_ok st_get _ s s s eq_refl).
  destruct (m_bucketWaitTimeout s =? 0); [split; [by intros r s' [= <- <-]|by eauto]|].
  destruct (m_bucketStatus s !! path) as [st|] eqn:Est; [|split; [by intros r s' [= <- <-]|by eauto]].
  pose proof (so_status s Hs path st Est) as Hl. case Z.ltb_spec; intros Hb; [split; [done|lia]|].
  destruct (st !! Z.to_nat b) as [last|] eqn:Eb.
  - destruct (isTimedoutAndReset now (m_bucketWaitTimeout s) last) as [timedOut last']. split; [|by eauto].
    intros r s' [= <- <-]. eapply status_ok; [done|exact Est|apply length_insert].
  - apply lookup_ge_None in Eb. split; [done|]. lia.
Qed.

Definition new_service (timeout : Z) (group : list Z) (rs : gmap (list Z) (option bool)) : t :=
  mk [] ∅ [] ∅ timeout group false rs false false 0 false.
End Invariant.

Lemma reach_ok count timeout group rs s : rtc (service_step count) (new_service timeout group rs) s -> service_ok count s.
Proof.
  intros Hr. remember (new_service timeout group rs) as s0 eqn:E.
  assert (H0 : service_ok count s0) by (subst; split; [done|intros ? ?; cbn; by rewrite lookup_empty..]). clear E.
  induction Hr as [|s0 s1 s2 Hstep _ IH]; [done|]. apply IH.
  destruct Hstep as [H|H|replies shuffle b Hrep H|path flag H|path b H|l H|K V A hashcode randgen now region key value arg o v r H|now path b r H|? ? ->].
  - injection H as <-. by apply (service_ok_same count s0).
  - injection H as <-. by apply (service_ok_same count s0).
  - by eapply round_ok.
  - by eapply enqueue_ok.
  - injection H as <-. by apply (service_ok_same count s0).
  - by eapply remove_ok.
  - by eapply mark_ok.
  - by eapply marked_ok.
  - by apply (service_ok_same count s0).
Qed.

(** C31. In every service that is reached from a new one by its thread, its users and the
    cache, with servers that agree on the numbers of buckets, every table has a list per bucket of its
    region, colocated regions share tables of the right size, no table keeps more than one
    older table alive, and the status of every bucket of a watched region can be asked for without
    leaving its array. *)
Theorem reachable_service count timeout group rs s :
  rtc (service_step count) (new_service timeout group rs) s ->
  service_ok count s /\
  forall now path b, 0 <= b < count path -> exists r s', isBucketMarkedForTimeout now path b s = Ok (r, s').
Proof. intros Hs%reach_ok. split; [done|]. intros now path b. by apply marked_ok. Qed.

(** [markPrimaryBucketForTimeoutButLookSecondaryBucket] marks at most the bucket of the key
    it is called for, although it looks at the buckets of the server: it compares pointers
    and every bucket has objects of its own. And it marks that bucket only if the number that
    it draws for it happens to pick the primary. *)
Theorem timeout_marks_own_bucket {K V A : Type} count (hashcode : K -> Z) randgen now (region : RegionView K V A) key value arg o v s st m b l v' :
  (forall i, rand_ok (randgen i)) -> service_ok count s -> m_bucketWaitTimeout s <> 0 ->
  m_bucketStatus s !! getFullPath region = Some st -> find_metadata (getFullPath region) s = Some m ->
  NoDup (address <$> concat (ClientMetadata.m_bucketServerLocationsList m)) ->
  getBucketServerLocation hashcode (randgen 0%nat) region key value arg true o v s = Ok (Some l, v') ->
  in_range m b -> l ∈ ClientMetadata.locations m b ->
  markPrimaryBucketForTimeout hashcode randgen now region key value arg o v s =
    Ok ((Some l, v'),
        with_status (<[getFullPath region :=
          if decide (ClientMetadata.locations m b !! randgen (Z.to_nat b) (length (ClientMetadata.locations m b)) = Some l)
          then alter (setTimeout now) (Z.to_nat b) st else st]> (m_bucketStatus s)) s).
Proof.
  intros Hrand Hs Hw Hst Hf Hnd Hg Hb Hl. unfold markPrimaryBucketForTimeout. rewrite (st_bind_ok st_get _ s s s eq_refl).
  case Z.eqb_spec; [done|]. intros _. rewrite Hst.
  assert (Eg : st_lift (S := t) (getBucketServerLocation hashcode (randgen 0%nat) region key value arg true o v s) s = Ok ((Some l, v'), s)) by (by rewrite Hg).
  rewrite (st_bind_ok _ _ _ _ _ Eg), Hf. unfold find_metadata, getClientMetadata in Hf.
  destruct (m_regionMetaDataMap s !! getFullPath region) as [i|] eqn:Ei; [|done]. simpl in Hf.
  destruct (so_map _ s Hs _ i Ei) as (m0 & Hm0 & Hc). rewrite Hf in Hm0. injection Hm0 as <-.
  pose proof (ob_ok _ _ _ (so_objects _ s Hs i m Hf)) as Hm. pose proof (so_status _ s Hs _ st Hst) as Hlen.
  unfold mbind, ST_bind, st_lift.
  rewrite (mark_loop_spec randgen m l b now Hrand Hm Hnd Hl Hb) by (rewrite ?Hc; lia).
  destruct (decide (ClientMetadata.locations m b !! _ = Some l)) as [He|He].
  - by rewrite decide_True by (split; [lia|done]).
  - by rewrite decide_False by (by intros [_ ?]).
Qed.

(** *** Examples *)

(** Single-hop routing at work: a region of four buckets in two fixed partitions on two servers,
    what its metadata service does, and where keys are sent. *)
Module SingleHopExamples.

Definition east : list Z := [101].
Definition west : list Z := [119].
Definition path : list Z := [47; 114].
Definition hostA : list Z := [97].
Definition hostB : list Z := [98].

(** Buckets 0 and 1 have their primaries at A, buckets 2 and 3 at B; the other server has the
    copies of buckets 0 and 2. *)
Definition replied : list (list BucketServerLocation) :=
  [[location 0 0 2 hostB false 1 []; location 1 0 1 hostA true 1 []];
   [location 2 1 1 hostA true 1 []];
   [location 3 2 2 hostB true 1 []; location 4 2 1 hostA false 1 []];
   [location 5 3 2 hostB true 1 []]].
Definition replies : Replies :=
  mkReplies (fun _ => Some (mkAttributes 4 [] (Some [mkFixed east true 2 0; mkFixed west true 2 2]))) (fun _ => Some (Some replied)).
Definition same_order (l : list BucketServerLocation) := l.
Definition first_one (i n : nat) : nat := 0%nat.

Lemma first_one_ok i : rand_ok (first_one i).
Proof. intros n Hn. exact Hn. Qed.

(** A service that was asked for the metadata of the region and got it. *)
Definition service0 : t := new_service 1000 [] {[path := Some false]}.
Definition run {X} (f : ST t X) (s : t) : t := match f s with Ok (_, s') => s' | Throw _ => s end.
Definition service1 : t := run start service0.
Definition service2 : t := run (enqueueForMetadataRefresh path 0) service1.
Definition service3 : t := run (svc_round replies same_order) service2.
Definition table : ClientMetadata.t := default (ClientMetadata.copy (ClientMetadata.mk None [] None 0 [] None ∅)) (find_metadata path service3).

Definition count4 (p : list Z) : Z := 4.

Lemma table_found : find_metadata path service3 = Some table.
Proof. by vm_compute. Qed.
Lemma table_ok : metadata_ok table.
Proof. split; [vm_compute; split; [done|reflexivity]|by vm_compute]. Qed.

(** Regions without a resolver, and with one that knows the partitions. *)
Definition plain_region : RegionView Z unit unit := mkView path None.
Definition fixed_region (partition : list Z) : RegionView Z unit unit :=
  mkView path (Some (mkResolver (fun e => Some (LocalRegion.ev_key e)) (Some (fun _ => partition)))).

(** Hash codes of the keys. *)
Definition code (k : Z) : Z := s32 k.
Lemma code_ok k : in_s 32 (code k).
Proof. by apply wrapS_range. Qed.

Lemma bulk_keys_routed_witness :
  exists r, getServerToFilterMap code first_one [8; 5; -6; 4] plain_region true service3 = Ok r /\
    bulk_result code table plain_region true [8; 5; -6; 4] r.
Proof.
  apply bulk_keys_routed; [apply code_ok|apply first_one_ok|exact table_found|exact table_ok|by vm_compute|by repeat constructor].
Defined.

Lemma prune_partitions_witness :
  exists o, pruneNodes elements (fun M => M) first_one first_one table {[0; 1; 2; 3]} = Ok o /\
    (o = None <-> ({[0; 1; 2; 3]} : gset Z) = ∅ \/ exists b, b ∈ ({[0; 1; 2; 3]} : gset Z) /\ ClientMetadata.locations table b = []) /\
    forall r, o = Some r -> hosting table r /\ NoDup (servers r) /\ covers r {[0; 1; 2; 3]}.
Proof.
  apply prune_partitions; [exact table_ok|done|done|apply first_one_ok|apply first_one_ok|].
  intros b Hb. assert (b = 0 \/ b = 1 \/ b = 2 \/ b = 3) as [-> |[-> |[-> | ->]]] by set_solver; by vm_compute.
Defined.

Lemma function_keys_routed_witness :
  exists o, getServerToFilterMapFESHOP code elements (fun M => M) first_one first_one (Some [8; 5]) plain_region true service3 = Ok (o, service3) /\
    function_result table code plain_region true [8; 5] o.
Proof.
  apply function_keys_routed; [exact table_ok|done|done|apply first_one_ok|apply first_one_ok|exact table_found|].
  repeat constructor; [exists 0|exists 1]; by vm_compute.
Defined.

Definition source_object : nat := 0%nat.
Definition service2s : t := run (source replies path) service2.
Definition table0 : ClientMetadata.t :=
  default (ClientMetadata.copy (ClientMetadata.mk None [] None 0 [] None ∅)) (objects service2s !! 0%nat).

Lemma refresh_installs_witness :
  exists s' m', getClientPRMetadata replies same_order path service2 = Ok (tt, s') /\
    find_metadata path s' = Some m' /\ getClientMetadata (target path table0) s' = getClientMetadata path s' /\
    metadata_ok m' /\ ClientMetadata.m_totalNumBuckets m' = ClientMetadata.m_totalNumBuckets table0 /\
    (forall b, in_range table0 b -> exists p q, ClientMetadata.locations m' b = p ++ q /\ sorted (p, q) /\
       p ++ q ≡ₚ kept (group_of table0) (default [] (last_part replied b))) /\
    (forall q, q <> path -> q <> target path table0 -> getClientMetadata q s' = getClientMetadata q service2s) /\
    (forall j mj, objects service2s !! j = Some mj -> exists mj', objects s' !! j = Some mj' /\
       ClientMetadata.m_bucketServerLocationsList mj' = ClientMetadata.m_bucketServerLocationsList mj).
Proof.
  apply (refresh_installs replies same_order path service2 0 service2s table0 replied);
    [done|by vm_compute|by vm_compute| |done|done|].
  - split; [vm_compute; split; [done|reflexivity]|by vm_compute].
  - repeat constructor; by vm_compute.
Defined.

Lemma service_steps : rtc (service_step count4) service0 service3.
Proof.
  apply (rtc_l _ _ service1); [by apply ss_start|]. apply (rtc_l _ _ service2); [by apply (ss_enqueue _ _ _ path 0)|].
  apply rtc_once, (ss_round _ _ _ replies same_order true); [|by vm_compute].
  intros p a [= <-] _. split; [vm_compute; split; [done|reflexivity]|]. split; [done|]. by intros [].
Qed.

Lemma reachable_service_witness :
  service_ok count4 service3 /\
  forall now p b, 0 <= b < count4 p -> exists r s', isBucketMarkedForTimeout now p b service3 = Ok (r, s').
Proof. apply (reachable_service count4 1000 [] {[path := Some false]} service3). exact service_steps. Defined.

Lemma timeout_marks_own_bucket_witness :
  exists l v, markPrimaryBucketForTimeout code first_one 77 plain_region 8 None None None 0 service3 =
    Ok ((Some l, v), with_status (<[path := [77; 0; 0; 0]]> (m_bucketStatus service3)) service3).
Proof.
  destruct (ClientMetadata.locations table 0) as [|l ls] eqn:El; [by vm_compute in El|]. exists l, 1.
  assert (Hok : service_ok count4 service3) by (apply (reach_ok count4 1000 [] {[path := Some false]}), service_steps).
  rewrite (timeout_marks_own_bucket count4 code first_one 77 plain_region 8 None None None 0 service3 [0; 0; 0; 0] table 0 l 1);
    [|apply first_one_ok|exact Hok|done|by vm_compute|exact table_found|..].
  - rewrite El. by rewrite decide_True.
  - vm_compute. repeat constructor; intros H; repeat (apply elem_of_cons in H as [H|H]; [done|]); by apply elem_of_nil in H.
  - by vm_compute in El |- *; injection El as <- <-.
  - by vm_compute.
  - rewrite El. left.
Defined.

Definition answer {X} (o : outcome (option BucketServerLocation * X)) : outcome (option (list Z)) :=
  match o with Ok (l, _) => Ok (m_serverName <$> l) | Throw e => Throw e end.

(** Bulk operations and functions do not treat fixed partitions as single operations do.
    The key 8 of the partition west is in bucket 2, and a single operation goes to server
    B, the primary of that bucket; a bulk operation with the key takes it for a key of bucket 0
    and goes to server A, which is not the primary of bucket 2. For a partition that the table
    does not know a single operation finds no server and falls back to any; a function asks for a
    refresh and then throws. *)
Theorem fixed_partitions_differ :
  answer (getBucketServerLocation code (first_one 0) (fixed_region west) 8 None None true None 0 service3) = Ok (Some hostB) /\
  getServerToFilterMap code first_one [8] (fixed_region west) true service3 = Ok (Some [(location 1 0 1 hostA true 1 [], [8])]) /\
  answer (getBucketServerLocation code (first_one 0) (fixed_region hostA) 8 None None true None 0 service3) = Ok None /\
  getServerToFilterMapFESHOP code elements (fun M => M) first_one first_one (Some [8]) (fixed_region hostA) true service3 =
    Throw IllegalStateException.
Proof. split_and!; by vm_compute. Qed.
End SingleHopExamples.
