(* ===== verification/CacheableBuiltins.v ===== *)
(** Built-in values and the registry that serializes them
    (src/cppcache/src/SerializationRegistry.cpp, src/cppcache/include/geode/Serializer.hpp,
    internal/CacheableBuiltinTemplates.hpp, internal/CacheableKeys.hpp,
    src/cppcache/src/CacheableObjectArray.cpp, CacheableDate.cpp, CacheableFileName.cpp,
    Properties.cpp).

    Floats and doubles are their bit patterns. A hash container is the list of its elements in
    the order of iteration; where an inserted element comes in that order is up to the
    container ([place]). Application objects [U] (PDX objects and types, enums, user data and the
    fixed ids that are not modelled) are written and read by functions of the application. *)
From S2P Require Import Prelude DataOutput DataInput EventId CacheableString.

(** [DSCode]. *)
Module DSCode.
Definition FixedIDByte : Z := 1.
Definition FixedIDShort : Z := 2.
Definition FixedIDInt : Z := 3.
Definition CacheableLinkedList : Z := 10.
Definition Properties : Z := 11.
Definition PdxType : Z := 17.
Definition BooleanArray : Z := 26.
Definition CharArray : Z := 27.
Definition CacheableUserData4 : Z := 37.
Definition CacheableUserData2 : Z := 38.
Definition CacheableUserData : Z := 39.
Definition NullObj : Z := 41.
Definition Class_ : Z := 43.
Definition CacheableBytes : Z := 46.
Definition CacheableInt16Array : Z := 47.
Definition CacheableInt32Array : Z := 48.
Definition CacheableInt64Array : Z := 49.
Definition CacheableFloatArray : Z := 50.
Definition CacheableDoubleArray : Z := 51.
Definition CacheableObjectArray : Z := 52.
Definition CacheableBoolean : Z := 53.
Definition CacheableCharacter : Z := 54.
Definition CacheableByte : Z := 55.
Definition CacheableInt16 : Z := 56.
Definition CacheableInt32 : Z := 57.
Definition CacheableInt64 : Z := 58.
Definition CacheableFloat : Z := 59.
Definition CacheableDouble : Z := 60.
Definition CacheableDate : Z := 61.
Definition CacheableFileName : Z := 63.
Definition CacheableStringArray : Z := 64.
Definition CacheableArrayList : Z := 65.
Definition CacheableHashSet : Z := 66.
Definition CacheableHashMap : Z := 67.
Definition CacheableHashTable : Z := 70.
Definition CacheableVector : Z := 71.
Definition CacheableIdentityHashMap : Z := 72.
Definition CacheableLinkedHashSet : Z := 73.
Definition CacheableStack : Z := 74.
Definition PDX : Z := 93.
Definition PDX_ENUM : Z := 94.
End DSCode.

(** [DSFid::EventId]. *)
Definition DSFid_EventId : Z := 36.

Module Serializable.

Inductive ListType := CacheableVector | CacheableArrayList | CacheableLinkedList | CacheableStack.
Inductive MapType := CacheableHashMap | CacheableHashTable | CacheableIdentityHashMap | Properties.
Inductive SetType := CacheableHashSet | CacheableLinkedHashSet.

(** A pointer to an object. Strings carry the [m_type] they were constructed or read with. The
    elements of a string array are strings, file names or null. *)
Inductive t (U : Type) : Type :=
| nullptr
| CacheableByte (value_ : Z)
| CacheableBoolean (value_ : bool)
| CacheableCharacter (value_ : Z)
| CacheableInt16 (value_ : Z)
| CacheableInt32 (value_ : Z)
| CacheableInt64 (value_ : Z)
| CacheableFloat (value_ : Z)
| CacheableDouble (value_ : Z)
| CacheableDate (m_timevalue : Z)
| CacheableString (m_type : Z) (m_str : list Z)
| CacheableFileName (m_type : Z) (m_str : list Z)
| CacheableBytes (m_value : list Z)
| BooleanArray (m_value : list bool)
| CharArray (m_value : list Z)
| CacheableInt16Array (m_value : list Z)
| CacheableInt32Array (m_value : list Z)
| CacheableInt64Array (m_value : list Z)
| CacheableFloatArray (m_value : list Z)
| CacheableDoubleArray (m_value : list Z)
| CacheableStringArray (m_value : list (t U))
| CacheableObjectArray (elements : list (t U))
| CacheableList (type : ListType) (elements : list (t U))
| CacheableMap (type : MapType) (entries : list (t U * t U))
| CacheableSet (type : SetType) (keys : list (t U))
| EventIdObject (e : EventId.t)
| UserObject (u : U).
Arguments nullptr {U}. Arguments CacheableByte {U} _. Arguments CacheableBoolean {U} _.
Arguments CacheableCharacter {U} _. Arguments CacheableInt16 {U} _. Arguments CacheableInt32 {U} _.
Arguments CacheableInt64 {U} _. Arguments CacheableFloat {U} _. Arguments CacheableDouble {U} _.
Arguments CacheableDate {U} _. Arguments CacheableString {U} _ _. Arguments CacheableFileName {U} _ _.
Arguments CacheableBytes {U} _. Arguments BooleanArray {U} _. Arguments CharArray {U} _.
Arguments CacheableInt16Array {U} _. Arguments CacheableInt32Array {U} _. Arguments CacheableInt64Array {U} _.
Arguments CacheableFloatArray {U} _. Arguments CacheableDoubleArray {U} _. Arguments CacheableStringArray {U} _.
Arguments CacheableObjectArray {U} _. Arguments CacheableList {U} _ _. Arguments CacheableMap {U} _ _.
Arguments CacheableSet {U} _ _. Arguments EventIdObject {U} _. Arguments UserObject {U} _.

Definition list_code (k : ListType) : Z :=
  match k with
  | CacheableVector => DSCode.CacheableVector | CacheableArrayList => DSCode.CacheableArrayList
  | CacheableLinkedList => DSCode.CacheableLinkedList | CacheableStack => DSCode.CacheableStack
  end.
Definition map_code (k : MapType) : Z :=
  match k with
  | CacheableHashMap => DSCode.CacheableHashMap | CacheableHashTable => DSCode.CacheableHashTable
  | CacheableIdentityHashMap => DSCode.CacheableIdentityHashMap | Properties => DSCode.Properties
  end.
Definition set_code (k : SetType) : Z :=
  match k with CacheableHashSet => DSCode.CacheableHashSet | CacheableLinkedHashSet => DSCode.CacheableLinkedHashSet end.

(** What the application supplies for its objects. *)
Record UserTypes (U : Type) := mkUser {
  write_user : U -> ST DataOutput.t unit;        (** with its header *)
  write_user_data : U -> ST DataOutput.t unit;   (** without *)
  read_user : Z -> ST DataInput.t U;             (** after the code *)
  read_fixed : Z -> ST DataInput.t U;            (** after a fixed id *)
  user_is_key : U -> bool;
  user_equals : U -> U -> bool;
  user_hashcode : U -> Z
}.
Arguments write_user {U} _ _. Arguments write_user_data {U} _ _. Arguments read_user {U} _ _.
Arguments read_fixed {U} _ _. Arguments user_is_key {U} _ _. Arguments user_equals {U} _ _ _.
Arguments user_hashcode {U} _ _.

Section Keys.
Context {U : Type} (user : UserTypes U).
Abbreviation Serializable := (t U).

(** [dynamic_pointer_cast<CacheableKey>] is not null. *)
Definition is_key (v : Serializable) : bool :=
  match v with
  | CacheableByte _ | CacheableBoolean _ | CacheableCharacter _ | CacheableInt16 _ | CacheableInt32 _ | CacheableInt64 _
  | CacheableFloat _ | CacheableDouble _ | CacheableDate _ | CacheableString _ _ | CacheableFileName _ _ => true
  | UserObject u => user_is_key user u
  | _ => false
  end.

(** [x == y] of floating point numbers with [e] exponent bits and [m] bits of mantissa: equal
    patterns that are numbers, and the two zeros. *)
Definition is_nan (e m : Z) (bits : Z) : bool :=
  (Z.land (Z.shiftr bits m) (Z.ones e) =? Z.ones e) && negb (Z.land bits (Z.ones m) =? 0).
Definition is_zero (e m : Z) (bits : Z) : bool := Z.land bits (Z.ones (e + m)) =? 0.
Definition float_eq (e m : Z) (x y : Z) : bool :=
  negb (is_nan e m x) && negb (is_nan e m y) && ((x =? y) || (is_zero e m x && is_zero e m y)).

(** [operator==]. A file name is a string, too. *)
Definition equals (x y : Serializable) : bool :=
  match x, y with
  | CacheableByte a, CacheableByte b | CacheableCharacter a, CacheableCharacter b | CacheableInt16 a, CacheableInt16 b
  | CacheableInt32 a, CacheableInt32 b | CacheableInt64 a, CacheableInt64 b | CacheableDate a, CacheableDate b => a =? b
  | CacheableBoolean a, CacheableBoolean b => Bool.eqb a b
  | CacheableFloat a, CacheableFloat b => float_eq 8 23 a b
  | CacheableDouble a, CacheableDouble b => float_eq 11 52 a b
  | (CacheableString _ a | CacheableFileName _ a), (CacheableString _ b | CacheableFileName _ b) => bool_decide (a = b)
  | UserObject a, UserObject b => user_equals user a b
  | _, _ => false
  end.

(** [hashcode]; 64-bit numbers fold their halves. The hash of a file name is that of Unix. *)
Definition hash64 (value : Z) : Z := Z.lxor (s32 value) (s32 (Z.shiftr value 32)).
Definition hashcode (v : Serializable) : outcome Z :=
  match v with
  | CacheableBoolean b => Ok (if b then 1231 else 1237)
  | CacheableByte z | CacheableCharacter z | CacheableInt16 z | CacheableInt32 z => Ok z
  | CacheableInt64 z | CacheableDate z => Ok (hash64 z)
  | CacheableFloat bits => Ok (s32 bits)
  | CacheableDouble bits => Ok (hash64 (s64 bits))
  | CacheableString _ s => CacheableString.CacheableString.hash s
  | CacheableFileName _ s => h ← CacheableString.CacheableString.hash s; Ok (Z.lxor h 1234321)
  | UserObject u => Ok (user_hashcode user u)
  | _ => Throw UndefinedBehaviour
  end.
End Keys.

Section Registry.
Context `{Allocator} (to_utf16 to_utf8 : list Z -> outcome (list Z)) {U : Type} (user : UserTypes U)
  (place : forall X, list X -> X -> list X).
Abbreviation Serializable := (t U).

(** *** Writing *)

(** [writeArrayObject] and [writeObject] of a container. *)
Definition write_elements {A} (writeObject : A -> ST DataOutput.t unit) (array : list A) : ST DataOutput.t unit :=
  DataOutput.writeArrayLen (s32 (Z.of_nat (length array)));; st_iter writeObject array.

Definition writeObject_char (value : Z) : ST DataOutput.t unit := DataOutput.writeInt_int16 (s16 value).

(** "java.lang.Object" *)
Definition object_class : list Z := [106; 97; 118; 97; 46; 108; 97; 110; 103; 46; 79; 98; 106; 101; 99; 116].

(** The header that [serialize] writes. *)
Definition header (v : Serializable) : ST DataOutput.t unit :=
  let code c := DataOutput.write_int8 c in
  match v with
  | nullptr => code DSCode.NullObj
  | CacheableByte _ => code DSCode.CacheableByte
  | CacheableBoolean _ => code DSCode.CacheableBoolean
  | CacheableCharacter _ => code DSCode.CacheableCharacter
  | CacheableInt16 _ => code DSCode.CacheableInt16
  | CacheableInt32 _ => code DSCode.CacheableInt32
  | CacheableInt64 _ => code DSCode.CacheableInt64
  | CacheableFloat _ => code DSCode.CacheableFloat
  | CacheableDouble _ => code DSCode.CacheableDouble
  | CacheableDate _ => code DSCode.CacheableDate
  | CacheableString type _ => code type
  | CacheableFileName _ _ => code DSCode.CacheableFileName
  | CacheableBytes _ => code DSCode.CacheableBytes
  | BooleanArray _ => code DSCode.BooleanArray
  | CharArray _ => code DSCode.CharArray
  | CacheableInt16Array _ => code DSCode.CacheableInt16Array
  | CacheableInt32Array _ => code DSCode.CacheableInt32Array
  | CacheableInt64Array _ => code DSCode.CacheableInt64Array
  | CacheableFloatArray _ => code DSCode.CacheableFloatArray
  | CacheableDoubleArray _ => code DSCode.CacheableDoubleArray
  | CacheableStringArray _ => code DSCode.CacheableStringArray
  | CacheableObjectArray _ => code DSCode.CacheableObjectArray
  | CacheableList k _ => code (list_code k)
  | CacheableMap k _ => code (map_code k)
  | CacheableSet k _ => code (set_code k)
  | EventIdObject _ => code DSCode.FixedIDByte;; code DSFid_EventId
  | UserObject _ => mret tt
  end.

(** [serializeWithoutHeader], the [toData] of the classes, and [serialize]. *)
Fixpoint toData (v : Serializable) : ST DataOutput.t unit :=
  let serialize (v : Serializable) :=
    match v with nullptr => header v | UserObject u => write_user user u | _ => header v;; toData v end in
  match v with
  | nullptr => st_throw UnsupportedOperationException
  | CacheableByte z => DataOutput.write_int8 z
  | CacheableBoolean b => DataOutput.writeBoolean b
  | CacheableCharacter c => writeObject_char c
  | CacheableInt16 z => DataOutput.writeInt_int16 z
  | CacheableInt32 z => DataOutput.writeInt_int32 z
  | CacheableInt64 z | CacheableDate z => DataOutput.writeInt_int64 z
  | CacheableFloat bits => DataOutput.writeFloat bits
  | CacheableDouble bits => DataOutput.writeDouble bits
  | CacheableString type s => CacheableString.CacheableString.toData to_utf16 type s
  | CacheableFileName type s => DataOutput.write_int8 type;; CacheableString.CacheableString.toData to_utf16 type s
  | CacheableBytes l => write_elements DataOutput.write_int8 l
  | BooleanArray l => write_elements DataOutput.writeBoolean l
  | CharArray l => write_elements writeObject_char l
  | CacheableInt16Array l => write_elements DataOutput.writeInt_int16 l
  | CacheableInt32Array l => write_elements DataOutput.writeInt_int32 l
  | CacheableInt64Array l => write_elements DataOutput.writeInt_int64 l
  | CacheableFloatArray l => write_elements DataOutput.writeFloat l
  | CacheableDoubleArray l => write_elements DataOutput.writeDouble l
  | CacheableStringArray l | CacheableList _ l | CacheableSet _ l => write_elements serialize l
  | CacheableObjectArray l =>
    DataOutput.writeArrayLen (s32 (Z.of_nat (length l)));;
    DataOutput.write_int8 DSCode.Class_;;
    DataOutput.writeString_string to_utf16 object_class;;
    st_iter serialize l
  | CacheableMap _ l => write_elements (fun kv => serialize kv.1;; serialize kv.2) l
  | EventIdObject e => EventId.EventId.toData e
  | UserObject u => write_user_data user u
  end.
Definition serialize (v : Serializable) : ST DataOutput.t unit :=
  match v with nullptr => header v | UserObject u => write_user user u | _ => header v;; toData v end.

(** *** Reading *)

(** [readArrayObject] and [readObject] of a vector. *)
Definition read_elements {A} (readObject : ST DataInput.t A) : ST DataInput.t (list A) :=
  len ← DataInput.readArrayLength;
  if 0 <=? len then st_repeat (Z.to_nat len) readObject else mret [].

(** [dynamic_pointer_cast<CacheableString>]. *)
Definition string_cast (v : Serializable) : Serializable :=
  match v with CacheableString _ _ | CacheableFileName _ _ => v | _ => nullptr end.

(** [emplace] of a hash map and [insert] of a hash set: the key is dereferenced, an equal key
    that is there stays. (Which one stays is open if equal keys have different hash codes, as
    the two zeros and a string and a file name have.) *)
Definition emplace {X} (key_of : X -> Serializable) (x : X) (l : list X) : outcome (list X) :=
  if negb (is_key user (key_of x)) then Throw UndefinedBehaviour
  else if existsb (fun y => equals user (key_of y) (key_of x)) l then Ok l
  else Ok (place X l x).
Fixpoint read_into {X} (n : nat) (key_of : X -> Serializable) (read : ST DataInput.t X) (l : list X) : ST DataInput.t (list X) :=
  match n with
  | O => mret l
  | S n => x ← read; l' ← st_lift (emplace key_of x l); read_into n key_of read l'
  end.

(** [value.reserve(len)] with a negative length, as a [size_t]. *)
Definition read_map (readObject : ST DataInput.t Serializable) : ST DataInput.t (list (Serializable * Serializable)) :=
  len ← DataInput.readArrayLength;
  if len <? 0 then st_throw StdLengthError
  else read_into (Z.to_nat len) fst (k ← readObject; v ← readObject; mret (k, v)) [].
Definition read_set (readObject : ST DataInput.t Serializable) : ST DataInput.t (list Serializable) :=
  len ← DataInput.readArrayLength;
  if 0 <? len then read_into (Z.to_nat len) id readObject [] else mret [].

(** [deserialize] of an object with the code [dsCode]; [readObject] reads the objects inside. *)
Definition deserialize_with (readObject : ST DataInput.t Serializable) (dsCode : Z) : ST DataInput.t Serializable :=
  let isCode c := dsCode =? c in
  if isCode DataOutput.CacheableNullString then mret (CacheableString DataOutput.CacheableASCIIString [])
  else if isCode DSCode.PDX || isCode DSCode.PDX_ENUM || isCode DSCode.CacheableUserData || isCode DSCode.CacheableUserData2
          || isCode DSCode.CacheableUserData4 || isCode DSCode.PdxType
    then UserObject <$> read_user user dsCode
  else if isCode DSCode.FixedIDByte || isCode DSCode.FixedIDShort || isCode DSCode.FixedIDInt then
    fixedId ← (if isCode DSCode.FixedIDByte then DataInput.read else if isCode DSCode.FixedIDShort then DataInput.readInt16
               else DataInput.readInt32);
    if fixedId =? DSFid_EventId then EventIdObject <$> EventId.EventId.fromData else UserObject <$> read_fixed user fixedId
  else if isCode DSCode.NullObj then mret nullptr
  else if isCode DSCode.CacheableByte then CacheableByte <$> DataInput.read
  else if isCode DSCode.CacheableBoolean then CacheableBoolean <$> DataInput.readBoolean
  else if isCode DSCode.CacheableCharacter then v ← DataInput.readInt16; mret (CacheableCharacter (u16 v))
  else if isCode DSCode.CacheableInt16 then CacheableInt16 <$> DataInput.readInt16
  else if isCode DSCode.CacheableInt32 then CacheableInt32 <$> DataInput.readInt32
  else if isCode DSCode.CacheableInt64 then CacheableInt64 <$> DataInput.readInt64
  else if isCode DSCode.CacheableFloat then CacheableFloat <$> DataInput.readFloat
  else if isCode DSCode.CacheableDouble then CacheableDouble <$> DataInput.readDouble
  else if isCode DSCode.CacheableDate then CacheableDate <$> DataInput.readInt64
  else if isCode DataOutput.CacheableASCIIString || isCode DataOutput.CacheableASCIIStringHuge || isCode DataOutput.CacheableString
          || isCode DataOutput.CacheableStringHuge
    then CacheableString dsCode <$> CacheableString.CacheableString.fromData to_utf8 dsCode
  else if isCode DSCode.CacheableFileName then
    type ← DataInput.read; CacheableFileName type <$> CacheableString.CacheableString.fromData to_utf8 type
  else if isCode DSCode.CacheableBytes then CacheableBytes <$> read_elements DataInput.read
  else if isCode DSCode.BooleanArray then BooleanArray <$> read_elements DataInput.readBoolean
  else if isCode DSCode.CharArray then CharArray <$> read_elements (v ← DataInput.readInt16; mret (u16 v))
  else if isCode DSCode.CacheableInt16Array then CacheableInt16Array <$> read_elements DataInput.readInt16
  else if isCode DSCode.CacheableInt32Array then CacheableInt32Array <$> read_elements DataInput.readInt32
  else if isCode DSCode.CacheableInt64Array then CacheableInt64Array <$> read_elements DataInput.readInt64
  else if isCode DSCode.CacheableFloatArray then CacheableFloatArray <$> read_elements DataInput.readFloat
  else if isCode DSCode.CacheableDoubleArray then CacheableDoubleArray <$> read_elements DataInput.readDouble
  else if isCode DSCode.CacheableStringArray then
    CacheableStringArray <$> read_elements (v ← readObject; mret (string_cast v))
  else if isCode DSCode.CacheableObjectArray then
    len ← DataInput.readArrayLength;
    if 0 <=? len then
      DataInput.read;;
      DataInput.readString_string to_utf8;;
      CacheableObjectArray <$> st_repeat (Z.to_nat len) readObject
    else mret (CacheableObjectArray [])
  else if isCode DSCode.CacheableVector then CacheableList CacheableVector <$> read_elements readObject
  else if isCode DSCode.CacheableArrayList then CacheableList CacheableArrayList <$> read_elements readObject
  else if isCode DSCode.CacheableLinkedList then CacheableList CacheableLinkedList <$> read_elements readObject
  else if isCode DSCode.CacheableStack then CacheableList CacheableStack <$> read_elements readObject
  else if isCode DSCode.CacheableHashMap then CacheableMap CacheableHashMap <$> read_map readObject
  else if isCode DSCode.CacheableHashTable then CacheableMap CacheableHashTable <$> read_map readObject
  else if isCode DSCode.CacheableIdentityHashMap then CacheableMap CacheableIdentityHashMap <$> read_map readObject
  else if isCode DSCode.Properties then CacheableMap Properties <$> read_map readObject
  else if isCode DSCode.CacheableHashSet then CacheableSet CacheableHashSet <$> read_set readObject
  else if isCode DSCode.CacheableLinkedHashSet then CacheableSet CacheableLinkedHashSet <$> read_set readObject
  else st_throw IllegalStateException.

(** [readObject]: the code, then the object. An object inside another one is behind at least one
    byte of it, so that the nesting is less than the number of bytes. *)
Fixpoint readObject_fuel (fuel : nat) : ST DataInput.t Serializable :=
  match fuel with
  | O => st_throw Diverges
  | S fuel => dsCode ← DataInput.read; deserialize_with (readObject_fuel fuel) dsCode
  end.
Definition readObject : ST DataInput.t Serializable :=
  d ← st_get; readObject_fuel (S (Z.to_nat (DataInput.getBytesRemaining d))).
End Registry.
End Serializable.
