(* ===== verification/BuiltinsFacts.v ===== *)
(** Built-in values on the wire: whatever is written is read back, values inside values
    included, up to the order of hash containers. *)
From S2P Require Import Prelude JavaModifiedUtf8 DataOutput DataOutputFacts DataInput DataInputFacts Utf8Strings EventId CacheableString CacheableStringFacts CacheableBuiltins.
Import Serializable.
#[local] Arguments be_bytes : simpl never.
Local Open Scope Z_scope.

(** *** Induction *)

(** A value without values inside. *)
Definition leaf {U} (v : t U) : bool :=
  match v with
  | CacheableStringArray _ | CacheableObjectArray _ | CacheableList _ _ | CacheableMap _ _ | CacheableSet _ _ => false
  | _ => true
  end.

Section Induction.
Context {U : Type} (P : t U -> Prop).
Context (Hleaf : forall v, leaf v = true -> P v).
Context (Hstrings : forall l, Forall P l -> P (CacheableStringArray l)).
Context (Hobjects : forall l, Forall P l -> P (CacheableObjectArray l)).
Context (Hlist : forall k l, Forall P l -> P (CacheableList k l)).
Context (Hmap : forall k l, Forall (fun kv => P kv.1 /\ P kv.2) l -> P (CacheableMap k l)).
Context (Hset : forall k l, Forall P l -> P (CacheableSet k l)).

Fixpoint value_ind (v : t U) : P v :=
  let each := fix each l : Forall P l :=
    match l with [] => Forall_nil_2 P | x :: l' => Forall_cons_2 P x l' (value_ind x) (each l') end in
  match v with
  | CacheableStringArray l => Hstrings l (each l)
  | CacheableObjectArray l => Hobjects l (each l)
  | CacheableList k l => Hlist k l (each l)
  | CacheableMap k l => Hmap k l
      ((fix pairs l : Forall (fun kv => P kv.1 /\ P kv.2) l :=
         match l with
         | [] => Forall_nil_2 _
         | x :: l' => Forall_cons_2 _ x l' (conj (value_ind x.1) (value_ind x.2)) (pairs l')
         end) l)
  | CacheableSet k l => Hset k l (each l)
  | v => Hleaf v eq_refl
  end.
End Induction.

(** *** The reference encoding *)

Section Encoding.
Context {U : Type} (to_utf16 : list Z -> outcome (list Z)) (enc_user : U -> list Z).

Definition enc_typed (type : Z) (s : list Z) : list Z :=
  if type =? DataOutput.CacheableASCIIString then enc_ascii s
  else if type =? DataOutput.CacheableString then enc_jmutf8 (utf16 to_utf16 s)
  else if type =? DataOutput.CacheableASCIIStringHuge then enc_asciiHuge s
  else enc_utf16Huge (utf16 to_utf16 s).

Definition enc_elements {A} (enc : A -> list Z) (l : list A) : list Z :=
  enc_arrayLen (Z.of_nat (length l)) ++ (l ≫= enc).

Definition enc_header (v : t U) : list Z :=
  match v with
  | nullptr => [DSCode.NullObj]
  | CacheableByte _ => [DSCode.CacheableByte]
  | CacheableBoolean _ => [DSCode.CacheableBoolean]
  | CacheableCharacter _ => [DSCode.CacheableCharacter]
  | CacheableInt16 _ => [DSCode.CacheableInt16]
  | CacheableInt32 _ => [DSCode.CacheableInt32]
  | CacheableInt64 _ => [DSCode.CacheableInt64]
  | CacheableFloat _ => [DSCode.CacheableFloat]
  | CacheableDouble _ => [DSCode.CacheableDouble]
  | CacheableDate _ => [DSCode.CacheableDate]
  | CacheableString type _ => [type]
  | CacheableFileName _ _ => [DSCode.CacheableFileName]
  | CacheableBytes _ => [DSCode.CacheableBytes]
  | BooleanArray _ => [DSCode.BooleanArray]
  | CharArray _ => [DSCode.CharArray]
  | CacheableInt16Array _ => [DSCode.CacheableInt16Array]
  | CacheableInt32Array _ => [DSCode.CacheableInt32Array]
  | CacheableInt64Array _ => [DSCode.CacheableInt64Array]
  | CacheableFloatArray _ => [DSCode.CacheableFloatArray]
  | CacheableDoubleArray _ => [DSCode.CacheableDoubleArray]
  | CacheableStringArray _ => [DSCode.CacheableStringArray]
  | CacheableObjectArray _ => [DSCode.CacheableObjectArray]
  | CacheableList k _ => [list_code k]
  | CacheableMap k _ => [map_code k]
  | CacheableSet k _ => [set_code k]
  | EventIdObject _ => [DSCode.FixedIDByte; DSFid_EventId]
  | UserObject _ => []
  end.

Fixpoint enc_body (v : t U) : list Z :=
  let enc v := enc_header v ++ enc_body v in
  match v with
  | nullptr => []
  | CacheableByte z => [u8 z]
  | CacheableBoolean b => [if b then 1 else 0]
  | CacheableCharacter c => be_bytes 2 (u16 (s16 c))
  | CacheableInt16 z => be_bytes 2 (u16 z)
  | CacheableInt32 z => be_bytes 4 (u32 z)
  | CacheableInt64 z | CacheableDate z => be_bytes 8 (u64 z)
  | CacheableFloat bits => be_bytes 4 bits
  | CacheableDouble bits => be_bytes 8 bits
  | CacheableString type s => enc_typed type s
  | CacheableFileName type s => type :: enc_typed type s
  | CacheableBytes l => enc_elements (fun z => [u8 z]) l
  | BooleanArray l => enc_elements (fun b : bool => [if b then 1 else 0]) l
  | CharArray l => enc_elements (fun c => be_bytes 2 (u16 (s16 c))) l
  | CacheableInt16Array l => enc_elements (fun z => be_bytes 2 (u16 z)) l
  | CacheableInt32Array l => enc_elements (fun z => be_bytes 4 (u32 z)) l
  | CacheableInt64Array l => enc_elements (fun z => be_bytes 8 (u64 z)) l
  | CacheableFloatArray l => enc_elements (be_bytes 4) l
  | CacheableDoubleArray l => enc_elements (be_bytes 8) l
  | CacheableStringArray l | CacheableList _ l | CacheableSet _ l => enc_elements enc l
  | CacheableObjectArray l =>
    enc_arrayLen (Z.of_nat (length l)) ++ [DSCode.Class_] ++ enc_text to_utf16 object_class ++ (l ≫= enc)
  | CacheableMap _ l => enc_elements (fun kv => enc kv.1 ++ enc kv.2) l
  | EventIdObject e => EventId.enc e
  | UserObject u => enc_user u
  end.
Definition wire (v : t U) : list Z := enc_header v ++ enc_body v.

End Encoding.

(** *** Values that can be written *)

Fixpoint all_of {A} (P : A -> Prop) (l : list A) : Prop :=
  match l with [] => True | x :: l' => P x /\ all_of P l' end.

Lemma all_of_Forall {A} (P : A -> Prop) l : all_of P l <-> Forall P l.
Proof. induction l as [|x l IH]; cbn [all_of]; [by split|]. rewrite list.Forall_cons, IH. done. Qed.

(** Objects of the application on the wire: behind one of the codes for them or a fixed id. *)
Inductive user_wire {U} (user : UserTypes U) (u : U) : list Z -> Prop :=
| wire_code c rest : c ∈ [DSCode.PDX; DSCode.PDX_ENUM; DSCode.CacheableUserData; DSCode.CacheableUserData2; DSCode.CacheableUserData4] ->
    reads (read_user user c) rest u -> user_wire user u (c :: rest)
| wire_byte id rest : in_s 8 id -> id <> DSFid_EventId -> reads (read_fixed user id) rest u ->
    user_wire user u (DSCode.FixedIDByte :: u8 id :: rest)
| wire_short id rest : in_s 16 id -> id <> DSFid_EventId -> reads (read_fixed user id) rest u ->
    user_wire user u (DSCode.FixedIDShort :: be_bytes 2 (u16 id) ++ rest)
| wire_int id rest : in_s 32 id -> id <> DSFid_EventId -> reads (read_fixed user id) rest u ->
    user_wire user u (DSCode.FixedIDInt :: be_bytes 4 (u32 id) ++ rest).

Class UserCodec `{Allocator} {U} (user : UserTypes U) (enc_user : U -> list Z) (user_ok : U -> Prop) : Prop := {
  user_emits u : user_ok u -> emits (write_user user u) (enc_user u);
  user_reads u : user_ok u -> user_wire user u (enc_user u)
}.

Section Values.
Context {U : Type} (to_utf16 to_utf8 : list Z -> outcome (list Z)) (user : UserTypes U) (enc_user : U -> list Z) (user_ok : U -> Prop).
Abbreviation text_ok := (text_ok to_utf16 to_utf8).
Abbreviation wire := (wire to_utf16 enc_user).
Abbreviation enc_body := (enc_body to_utf16 enc_user).
Abbreviation enc_typed := (enc_typed to_utf16).

(** A string that its type can hold. *)
Definition string_ok (type : Z) (s : list Z) : Prop :=
  (type = DataOutput.CacheableASCIIString /\ Forall ascii_char s /\ Z.of_nat (length s) <= 0xFFFF) \/
  (type = DataOutput.CacheableASCIIStringHuge /\ Forall ascii_char s /\ Z.of_nat (length s) < 2 ^ 32) \/
  (type = DataOutput.CacheableString /\ text_ok s /\ s <> [] /\ JavaModifiedUtf8.encodedLength (utf16 to_utf16 s) <= 0xFFFF) \/
  (type = DataOutput.CacheableStringHuge /\ text_ok s /\ s <> []).

Definition short {A} (l : list A) : Prop := Z.of_nat (length l) < 2 ^ 31.
Definition is_string (v : t U) : Prop := string_cast v = v.
Definition distinct {X} (key_of : X -> t U) (l : list X) : Prop :=
  ForallOrdPairs (fun x y => equals user (key_of x) (key_of y) = false) l.

Fixpoint value_ok (v : t U) : Prop :=
  match v with
  | nullptr | CacheableBoolean _ => True
  | CacheableByte z => in_s 8 z
  | CacheableCharacter c => in_u 16 c
  | CacheableInt16 z => in_s 16 z
  | CacheableInt32 z => in_s 32 z
  | CacheableInt64 z | CacheableDate z => in_s 64 z
  | CacheableFloat bits => in_u 32 bits
  | CacheableDouble bits => in_u 64 bits
  | CacheableString type s | CacheableFileName type s => string_ok type s
  | CacheableBytes l => short l /\ Forall (in_s 8) l
  | BooleanArray l => short l
  | CharArray l => short l /\ Forall (in_u 16) l
  | CacheableInt16Array l => short l /\ Forall (in_s 16) l
  | CacheableInt32Array l => short l /\ Forall (in_s 32) l
  | CacheableInt64Array l => short l /\ Forall (in_s 64) l
  | CacheableFloatArray l => short l /\ Forall (in_u 32) l
  | CacheableDoubleArray l => short l /\ Forall (in_u 64) l
  | CacheableStringArray l => short l /\ Forall is_string l /\ all_of value_ok l
  | CacheableObjectArray l | CacheableList _ l => short l /\ all_of value_ok l
  | CacheableMap _ l =>
    short l /\ Forall (fun kv => is_key user kv.1 = true) l /\ distinct fst l /\ all_of (fun kv => value_ok kv.1 /\ value_ok kv.2) l
  | CacheableSet _ l => short l /\ Forall (fun k => is_key user k = true) l /\ distinct id l /\ all_of value_ok l
  | EventIdObject e => EventId.valid e
  | UserObject u => user_ok u
  end.

(** *** Equality up to the order of hash containers *)

Inductive same : t U -> t U -> Prop :=
| same_refl v : same v v
| same_strings l l' : Forall2 same l l' -> same (CacheableStringArray l) (CacheableStringArray l')
| same_objects l l' : Forall2 same l l' -> same (CacheableObjectArray l) (CacheableObjectArray l')
| same_list k l l' : Forall2 same l l' -> same (CacheableList k l) (CacheableList k l')
| same_map k l l1 l2 : Forall2 (fun a b => a.1 = b.1 /\ same a.2 b.2) l l1 -> l1 ≡ₚ l2 ->
    same (CacheableMap k l) (CacheableMap k l2)
| same_set k l l' : l ≡ₚ l' -> same (CacheableSet k l) (CacheableSet k l').

Lemma same_leaf v v' : leaf v = true -> same v v' -> v' = v.
Proof. intros Hv Hs. destruct Hs; [done|discriminate Hv..]. Qed.

Lemma key_same k k' : is_key user k = true -> same k k' -> k' = k.
Proof. intros Hk. apply same_leaf. by destruct k. Qed.

Lemma string_same v v' : is_string v -> same v v' -> v' = v.
Proof. intros Hk. apply same_leaf. by destruct v. Qed.

(** *** Writing *)

Context `{AllocatorOk} `{!UserCodec user enc_user user_ok}.

Lemma emits_each {X} (f : X -> ST DataOutput.t unit) (enc : X -> list Z) xs :
  Forall (fun x => emits (f x) (enc x)) xs -> emits (st_iter f xs) (xs ≫= enc).
Proof. induction 1 as [|x xs Hx _ IH]; [apply emits_ret|]. rewrite bind_cons. by apply emits_bind. Qed.

Lemma emits_elements {X} (f : X -> ST DataOutput.t unit) (enc : X -> list Z) xs :
  short xs -> Forall (fun x => emits (f x) (enc x)) xs -> emits (write_elements f xs) (enc_elements enc xs).
Proof.
  intros Hs Hx. unfold write_elements, enc_elements. rewrite wrapS_id by (unfold in_s, short in *; lia).
  apply emits_bind; [apply emits_writeArrayLen|by apply emits_each].
Qed.

Lemma emits_char c : emits (writeObject_char c) (be_bytes 2 (u16 (s16 c))).
Proof. apply emits_writeInt_int16. Qed.

Lemma nonempty_length {A} (s : list A) : s <> [] -> (length s =? 0)%nat = false.
Proof. by destruct s. Qed.

Lemma emits_typed type s : string_ok type s -> emits (CacheableString.CacheableString.toData to_utf16 type s) (enc_typed type s).
Proof.
  unfold CacheableString.CacheableString.toData, BuiltinsFacts.enc_typed.
  intros [(-> & Ha & Hl)|[(-> & Ha & Hl)|[(-> & [Hb Ht _ Hu [Hl1 Hl2] _] & Hne & Hl)|(-> & [Hb Ht _ Hu [Hl1 Hl2] _] & Hne)]]]; cbn.
  - by apply emits_writeAscii.
  - by apply emits_writeAsciiHuge.
  - unfold DataOutput.writeJavaModifiedUtf8_string. rewrite (nonempty_length s Hne). eapply emits_lift; [exact Ht|].
    by apply emits_writeJavaModifiedUtf8.
  - unfold DataOutput.writeUtf16Huge_string. rewrite (nonempty_length s Hne). eapply emits_lift; [exact Ht|].
    by apply emits_writeUtf16Huge.
Qed.

Lemma string_code type s : string_ok type s -> in_u 8 type.
Proof. by intros [[-> _]|[[-> _]|[[-> _]|[-> _]]]]. Qed.
Lemma string_code7 type s : string_ok type s -> in_u 7 type.
Proof. by intros [[-> _]|[[-> _]|[[-> _]|[-> _]]]]. Qed.

Abbreviation serialize := (serialize to_utf16 user).
Abbreviation toData := (toData to_utf16 user).

Lemma emits_code_byte c : in_u 8 c -> emits (DataOutput.write_int8 c) [c].
Proof. intros Hc. rewrite <- (wrapU_id 8 c Hc) at 2. apply emits_write_int8. Qed.

Lemma emits_header v : value_ok v -> emits (header v) (enc_header v).
Proof.
  intros Hv. destruct v as [| | | | | | | | | |type s| | | | | | | | | | | |k|k|k| |]; cbn [header enc_header];
    try (by apply emits_code_byte); try apply emits_ret; try (by destruct k; apply emits_code_byte).
  - apply emits_code_byte. by eapply string_code.
  - apply (emits_bind _ _ [_] [_]); by apply emits_code_byte.
Qed.

(** [toData] of a value with elements. *)
Lemma toData_list k l : toData (CacheableList k l) = write_elements serialize l.
Proof. done. Qed.
Lemma toData_set k l : toData (CacheableSet k l) = write_elements serialize l.
Proof. done. Qed.
Lemma toData_strings l : toData (CacheableStringArray l) = write_elements serialize l.
Proof. done. Qed.
Lemma toData_map k l : toData (CacheableMap k l) = write_elements (fun kv => serialize kv.1;; serialize kv.2) l.
Proof. done. Qed.

Lemma emits_object_class : emits (DataOutput.writeString_string to_utf16 object_class) (enc_text to_utf16 object_class).
Proof.
  apply (emits_bind _ _ [DataOutput.CacheableASCIIString] (enc_ascii object_class)); [apply emits_write|].
  by apply emits_writeAscii.
Qed.

Lemma emits_value v : value_ok v -> emits (serialize v) (wire v).
Proof.
  assert (Hb : forall v, value_ok v -> emits (toData v) (enc_body v) -> emits (header v;; toData v) (wire v))
    by (intros; apply emits_bind; [by apply emits_header|done]).
  assert (Hall : forall l, Forall (fun v => value_ok v -> emits (serialize v) (wire v)) l -> all_of value_ok l ->
                 Forall (fun v => emits (serialize v) (wire v)) l).
  { intros l Hl Hok. rewrite all_of_Forall, list.Forall_forall in Hok. rewrite list.Forall_forall in *. auto. }
  induction v as [v Hl|l IH|l IH|k l IH|k l IH|k l IH] using value_ind.
  - destruct v; try done; intros Hv; try (apply (Hb _ Hv); cbn [Serializable.toData BuiltinsFacts.enc_body]).
    + by apply emits_code_byte.
    + apply emits_write_int8.
    + apply emits_writeBoolean.
    + apply emits_char.
    + apply emits_writeInt_int16.
    + apply emits_writeInt_int32.
    + apply emits_writeInt_int64.
    + apply emits_writeInt_uint32.
    + apply emits_writeInt_uint64.
    + apply emits_writeInt_int64.
    + by apply emits_typed.
    + apply (emits_bind _ _ [_]); [apply emits_code_byte; by eapply string_code|by apply emits_typed].
    + apply emits_elements; [apply Hv|]. apply Forall_true. intros x. apply emits_write_int8.
    + apply emits_elements; [apply Hv|]. apply Forall_true. intros x. apply emits_writeBoolean.
    + apply emits_elements; [apply Hv|]. apply Forall_true. intros x. apply emits_char.
    + apply emits_elements; [apply Hv|]. apply Forall_true. intros x. apply emits_writeInt_int16.
    + apply emits_elements; [apply Hv|]. apply Forall_true. intros x. apply emits_writeInt_int32.
    + apply emits_elements; [apply Hv|]. apply Forall_true. intros x. apply emits_writeInt_int64.
    + apply emits_elements; [apply Hv|]. apply Forall_true. intros x. apply emits_writeInt_uint32.
    + apply emits_elements; [apply Hv|]. apply Forall_true. intros x. apply emits_writeInt_uint64.
    + by apply EventId.emits_toData.
    + exact (user_emits u Hv).
  - intros Hv. apply (Hb _ Hv). rewrite toData_strings. apply emits_elements; [apply Hv|]. apply (Hall l IH), Hv.
  - intros Hv. apply (Hb _ Hv). destruct Hv as [Hs Hv]. cbn [Serializable.toData BuiltinsFacts.enc_body].
    rewrite wrapS_id by (unfold in_s, short in *; lia). apply emits_bind; [apply emits_writeArrayLen|].
    apply emits_bind; [by apply emits_code_byte|]. apply emits_bind; [apply emits_object_class|].
    apply (emits_each serialize). by apply Hall.
  - intros Hv. apply (Hb _ Hv). rewrite toData_list. apply emits_elements; [apply Hv|]. apply (Hall l IH), Hv.
  - intros Hv. apply (Hb _ Hv). rewrite toData_map. apply emits_elements; [apply Hv|]. destruct Hv as (_ & _ & _ & Hv).
    rewrite all_of_Forall, list.Forall_forall in Hv. rewrite list.Forall_forall in *. intros kv Hkv. destruct (Hv kv Hkv), (IH kv Hkv).
    apply emits_bind; auto.
  - intros Hv. apply (Hb _ Hv). rewrite toData_set. apply emits_elements; [apply Hv|]. apply (Hall l IH), Hv.
Qed.

(** *** Reading *)

Context (place : forall X, list X -> X -> list X) (Hplace : forall X (l : list X) x, place X l x ≡ₚ x :: l).
Abbreviation deserialize_with := (deserialize_with to_utf8 user place).
Abbreviation readObject_fuel := (readObject_fuel to_utf8 user place).

Lemma reads_fmap {A B} (f : A -> B) (m : ST DataInput.t A) l a : reads m l a -> reads (f <$> m) l (f a).
Proof. intros Hm pre rest Hl. unfold fmap, ST_fmap. by rewrite (Hm pre rest Hl). Qed.

Lemma reads_typed type s : string_ok type s -> reads (CacheableString.CacheableString.fromData to_utf8 type) (enc_typed type s) s.
Proof.
  unfold CacheableString.CacheableString.fromData, BuiltinsFacts.enc_typed.
  intros [(-> & Ha & Hl)|[(-> & Ha & Hl)|[(-> & [Hb Ht Hf Hu [Hl1 Hl2] _] & Hne & Hl)|(-> & [Hb Ht Hf Hu [Hl1 Hl2] _] & Hne)]]]; cbn.
  - by apply reads_readAscii.
  - by apply reads_readAsciiHuge.
  - eapply reads_lift; [|exact Hf]. by apply reads_readJavaModifiedUtf8.
  - eapply reads_lift; [|exact Hf]. by apply reads_readUtf16Huge.
Qed.

Lemma reads_elements {A B} (m : ST DataInput.t B) (enc : A -> list Z) xs ys :
  short xs -> reads (st_repeat (length xs) m) (xs ≫= enc) ys -> reads (read_elements m) (enc_elements enc xs) ys.
Proof.
  intros Hs Hx. unfold read_elements, enc_elements. eapply reads_bind; [apply reads_readArrayLength; unfold short in Hs; lia|].
  destruct (Z.leb_spec 0 (Z.of_nat (length xs))); [|lia]. by rewrite Nat2Z.id.
Qed.

(** Each of the elements is read as such. *)
Lemma reads_plain {A} (m : ST DataInput.t A) (enc : A -> list Z) (P : A -> Prop) xs :
  (forall x, P x -> reads m (enc x) x) -> short xs -> Forall P xs -> reads (read_elements m) (enc_elements enc xs) xs.
Proof. intros Hm Hs Hx. apply reads_elements; [done|]. apply reads_repeat; [done|]. by eapply Forall_impl. Qed.

Lemma reads_code n c body v : in_u 7 c -> reads (deserialize_with (readObject_fuel n) c) body v ->
  reads (readObject_fuel (S n)) (c :: body) v.
Proof.
  intros Hc Hr. cbn [Serializable.readObject_fuel]. eapply (reads_bind _ _ [c]); [apply reads_read|].
  unfold in_u in Hc. rewrite wrapS_id by (unfold in_s; lia). done.
Qed.

(** How a value is read, if there is fuel for its bytes. *)
Definition reads_as (v v' : t U) : Prop := forall n, (length (wire v) <= n)%nat -> reads (readObject_fuel n) (wire v) v'.

Lemma reads_step v c body v' : wire v = c :: body -> in_u 7 c ->
  (forall n, (length body <= n)%nat -> reads (deserialize_with (readObject_fuel n) c) body v') -> reads_as v v'.
Proof.
  intros Hw Hc Hr n Hn. rewrite Hw in *. cbn [length] in Hn. destruct n as [|n]; [lia|]. apply reads_code; [done|]. apply Hr. lia.
Qed.

Lemma reads_repeat_as l l' : Forall2 reads_as l l' -> forall n, (length (l ≫= wire) <= n)%nat ->
  reads (st_repeat (length l) (readObject_fuel n)) (l ≫= wire) l'.
Proof.
  induction 1 as [|x x' l l' Hx _ IH]; intros n Hn; [apply reads_ret|]. rewrite bind_cons in *. rewrite length_app in Hn.
  cbn [length st_repeat]. eapply reads_bind; [apply Hx; lia|]. apply (reads_map _ (cons x')). apply IH. lia.
Qed.

Lemma reads_repeat_strings l : Forall (fun x => is_string x /\ reads_as x x) l -> forall n, (length (l ≫= wire) <= n)%nat ->
  reads (st_repeat (length l) (v ← readObject_fuel n; mret (string_cast v))) (l ≫= wire) l.
Proof.
  intros Hl n Hn. revert Hn. induction Hl as [|x l [Hs Hx] _ IH]; intros Hn; [apply reads_ret|]. rewrite bind_cons in *.
  rewrite length_app in Hn. cbn [length st_repeat]. eapply reads_bind; [|apply (reads_map _ (cons x)), IH; lia].
  eapply reads_eq; [apply (reads_map _ string_cast), Hx; lia|done].
Qed.

(** The elements of a hash container. *)
Lemma reads_into {X} (key_of : X -> t U) (m : ST DataInput.t X) (enc : X -> list Z) xs xs' : forall acc,
  Forall2 (fun x x' => reads m (enc x) x') xs xs' -> Forall (fun x => is_key user (key_of x) = true) xs' ->
  distinct key_of xs' -> (forall x y, x ∈ acc -> y ∈ xs' -> equals user (key_of x) (key_of y) = false) ->
  reads (read_into user place (length xs) key_of m acc) (xs ≫= enc) (foldl (place X) acc xs').
Proof.
  intros acc Hx. revert acc. induction Hx as [|x x' xs xs' Hx _ IH]; intros acc Hk Hd Ha; [apply reads_ret|].
  rewrite bind_cons. cbn [length read_into foldl]. rewrite list.Forall_cons in Hk. destruct Hk as [Hk Hks]. inversion Hd as [|? ? Hd1 Hd2]; subst.
  eapply reads_bind; [exact Hx|]. unfold emplace. rewrite Hk. cbn [negb].
  assert (existsb (fun y => equals user (key_of y) (key_of x')) acc = false) as ->.
  { apply not_true_iff_false. rewrite existsb_exists. intros (y & Hy & He). rewrite Ha in He; [done|by apply list_elem_of_In|by left]. }
  apply (reads_bind _ _ []) with (place X acc x'); [intros ? ? ?; by rewrite app_nil_r|].
  apply IH; [done|done|]. intros y z Hy Hz. rewrite Hplace in Hy. apply elem_of_cons in Hy as [->|Hy]; [|apply Ha; [done|by right]].
  rewrite list.Forall_forall in Hd1. by apply Hd1.
Qed.

Lemma placed {X} (xs : list X) : forall acc, foldl (place X) acc xs ≡ₚ acc ++ xs.
Proof.
  induction xs as [|x xs IH]; intros acc; cbn [foldl]; [by rewrite app_nil_r|]. rewrite IH, Hplace. apply Permutation_middle.
Qed.

Lemma read_values l : Forall (fun v => value_ok v -> exists v', same v v' /\ reads_as v v') l -> all_of value_ok l ->
  exists l', Forall2 same l l' /\ Forall2 reads_as l l'.
Proof.
  intros Hl. rewrite all_of_Forall. induction Hl as [|x l Hx _ IH]; intros Hok; [by exists []|]. rewrite list.Forall_cons in Hok.
  destruct Hok as [Hok Hoks]. destruct (Hx Hok) as (x' & H1 & H2), (IH Hoks) as (l' & H3 & H4). exists (x' :: l'). by split; constructor.
Qed.

Lemma reads_list l l' : short l -> Forall2 reads_as l l' -> forall n, (length (enc_elements wire l) <= n)%nat ->
  reads (read_elements (readObject_fuel n)) (enc_elements wire l) l'.
Proof.
  intros Hs Hl n Hn. apply reads_elements; [done|]. apply reads_repeat_as; [done|]. unfold enc_elements in Hn. rewrite length_app in Hn. lia.
Qed.

Lemma reads_each l l' n : Forall2 reads_as l l' -> (length (l ≫= wire) <= n)%nat ->
  Forall2 (fun x x' => reads (readObject_fuel n) (wire x) x') l l'.
Proof.
  induction 1 as [|x x' l l' Hx _ IH]; intros Hle; [constructor|]. rewrite bind_cons, length_app in Hle.
  constructor; [apply Hx; lia|apply IH; lia].
Qed.

Lemma read_list k l : (forall v, In v l -> value_ok v -> exists v', same v v' /\ reads_as v v') -> value_ok (CacheableList k l) ->
  exists v', same (CacheableList k l) v' /\ reads_as (CacheableList k l) v'.
Proof.
  intros IH [Hs Hok]. destruct (read_values l) as (l' & H1 & H2); [by apply List.Forall_forall|done|].
  exists (CacheableList k l'). split; [by constructor|]. apply (reads_step _ (list_code k) (enc_elements wire l)); [done|by destruct k|].
  intros n Hn. destruct k; apply (reads_fmap (CacheableList _)), reads_list; done.
Qed.

Lemma read_set k l : (forall v, In v l -> value_ok v -> exists v', same v v' /\ reads_as v v') -> value_ok (CacheableSet k l) ->
  exists v', same (CacheableSet k l) v' /\ reads_as (CacheableSet k l) v'.
Proof.
  intros IH (Hs & Hk & Hd & Hok). destruct (read_values l) as (l' & H1 & H2); [by apply List.Forall_forall|done|].
  assert (l' = l) as ->.
  { clear -H1 Hk. induction H1 as [|x x' l l' Hx _ IH]; [done|]. rewrite list.Forall_cons in Hk. destruct Hk as [Hk Hks].
    by rewrite (IH Hks), (key_same x x' Hk Hx). }
  exists (CacheableSet k (foldl (place (t U)) [] l)). split; [constructor; by rewrite placed|].
  apply (reads_step _ (set_code k) (enc_elements wire l)); [done|by destruct k|]. intros n Hn.
  assert (Hr : reads (Serializable.read_set user place (readObject_fuel n)) (enc_elements wire l) (foldl (place (t U)) [] l)).
  { unfold Serializable.read_set, enc_elements. eapply reads_bind; [apply reads_readArrayLength; unfold short in Hs; lia|].
    destruct (Z.ltb_spec 0 (Z.of_nat (length l))) as [Hpos|Hz]; [|destruct l; [apply reads_ret|simpl in Hz; lia]].
    rewrite Nat2Z.id. apply (reads_into id); [|done|done|by intros ? ? ?%elem_of_nil].
    unfold enc_elements in Hn. rewrite length_app in Hn. apply reads_each; [done|lia]. }
  destruct k; apply (reads_fmap (CacheableSet _)), Hr.
Qed.

(** The entries of a map: the key, then the value. *)
Definition pair_as (a b : t U * t U) : Prop := a.1 = b.1 /\ same a.2 b.2.
Definition enc_pair (kv : t U * t U) : list Z := wire kv.1 ++ wire kv.2.

Lemma read_pairs l :
  Forall (fun kv => (value_ok kv.1 -> exists v', same kv.1 v' /\ reads_as kv.1 v') /\ (value_ok kv.2 -> exists v', same kv.2 v' /\ reads_as kv.2 v')) l ->
  Forall (fun kv => is_key user kv.1 = true) l -> all_of (fun kv => value_ok kv.1 /\ value_ok kv.2) l ->
  exists l', Forall2 pair_as l l' /\ forall n, (length (l ≫= enc_pair) <= n)%nat ->
    Forall2 (fun a b => reads (k ← readObject_fuel n; v ← readObject_fuel n; mret (k, v)) (enc_pair a) b) l l'.
Proof.
  rewrite all_of_Forall. induction 1 as [|kv l [H1 H2] _ IH]; intros Hk Hok; [exists []; split; [done|by constructor]|].
  rewrite list.Forall_cons in Hk, Hok. destruct Hk as [Hk Hks], Hok as [[Ho1 Ho2] Hoks], (IH Hks Hoks) as (l' & H3 & H4).
  destruct (H1 Ho1) as (k' & Hsk & Hrk), (H2 Ho2) as (v' & Hsv & Hrv). rewrite (key_same _ _ Hk Hsk) in Hrk.
  exists ((kv.1, v') :: l'). split; [by constructor|]. intros n Hn. rewrite bind_cons, length_app in Hn.
  unfold enc_pair in Hn at 1. rewrite length_app in Hn. constructor; [|apply H4; lia]. unfold enc_pair.
  eapply reads_bind; [apply Hrk; lia|]. apply (reads_map _ (pair kv.1)), Hrv. lia.
Qed.

Lemma distinct_keys l l' : Forall2 pair_as l l' -> distinct fst l -> distinct fst l'.
Proof.
  unfold distinct. induction 1 as [|a b l l' [Hk _] Hl IH]; intros Hd; [constructor|]. inversion Hd as [|? ? H1 H2]; subst.
  constructor; [|by apply IH]. rewrite <- Hk. clear -H1 Hl. induction Hl as [|x y l l' [Hxy _] _ IH]; [constructor|].
  rewrite list.Forall_cons in H1. destruct H1. constructor; [by rewrite <- Hxy|auto].
Qed.

Lemma keys_kept l l' : Forall2 pair_as l l' -> Forall (fun kv => is_key user kv.1 = true) l -> Forall (fun kv => is_key user kv.1 = true) l'.
Proof.
  induction 1 as [|a b l l' [Hk _] _ IH]; intros Hl; [constructor|]. rewrite list.Forall_cons in Hl. destruct Hl.
  constructor; [by rewrite <- Hk|auto].
Qed.

Lemma read_map k l :
  Forall (fun kv => (value_ok kv.1 -> exists v', same kv.1 v' /\ reads_as kv.1 v') /\ (value_ok kv.2 -> exists v', same kv.2 v' /\ reads_as kv.2 v')) l ->
  value_ok (CacheableMap k l) -> exists v', same (CacheableMap k l) v' /\ reads_as (CacheableMap k l) v'.
Proof.
  intros IH (Hs & Hk & Hd & Hok). destruct (read_pairs l IH Hk Hok) as (l' & H1 & H2).
  exists (CacheableMap k (foldl (place _) [] l')). split; [eapply same_map; [exact H1|by rewrite placed]|].
  apply (reads_step _ (map_code k) (enc_elements enc_pair l)); [done|by destruct k|]. intros n Hn.
  assert (Hr : reads (Serializable.read_map user place (readObject_fuel n)) (enc_elements enc_pair l) (foldl (place _) [] l')).
  { unfold Serializable.read_map, enc_elements. eapply reads_bind; [apply reads_readArrayLength; unfold short in Hs; lia|].
    destruct (Z.ltb_spec (Z.of_nat (length l)) 0); [lia|]. rewrite Nat2Z.id. unfold enc_elements in Hn. rewrite length_app in Hn.
    apply (reads_into fst); [apply H2; lia|by eapply keys_kept|by eapply distinct_keys|by intros ? ? ?%elem_of_nil]. }
  destruct k; apply (reads_fmap (CacheableMap _)), Hr.
Qed.

Lemma read_strings l : (forall v, In v l -> value_ok v -> exists v', same v v' /\ reads_as v v') -> value_ok (CacheableStringArray l) ->
  reads_as (CacheableStringArray l) (CacheableStringArray l).
Proof.
  intros IH (Hs & Hstr & Hok). destruct (read_values l) as (l' & H1 & H2); [by apply List.Forall_forall|done|].
  assert (Hl : Forall (fun x => is_string x /\ reads_as x x) l).
  { clear -H1 H2 Hstr. revert H2. induction H1 as [|x x' l l' Hx _ IH]; intros H2; [constructor|]. inversion H2; subst.
    rewrite list.Forall_cons in Hstr. destruct Hstr as [Hstr Hstrs]. rewrite (string_same x x' Hstr Hx) in *. constructor; auto. }
  apply (reads_step _ DSCode.CacheableStringArray (enc_elements wire l)); [done|done|]. intros n Hn.
  unfold enc_elements in Hn. rewrite length_app in Hn. apply (reads_fmap CacheableStringArray), reads_elements; [done|].
  apply reads_repeat_strings; [done|lia].
Qed.

Lemma reads_object_class : reads (DataInput.readString_string to_utf8) (enc_text to_utf16 object_class) object_class.
Proof.
  apply (reads_bind _ _ [DataOutput.CacheableASCIIString] (enc_ascii object_class)) with DataOutput.CacheableASCIIString; [apply reads_read|].
  apply reads_readAscii; [|done]. unfold object_class. repeat constructor; done.
Qed.

Lemma read_objects_array l : (forall v, In v l -> value_ok v -> exists v', same v v' /\ reads_as v v') -> value_ok (CacheableObjectArray l) ->
  exists v', same (CacheableObjectArray l) v' /\ reads_as (CacheableObjectArray l) v'.
Proof.
  intros IH (Hs & Hok). destruct (read_values l) as (l' & H1 & H2); [by apply List.Forall_forall|done|].
  exists (CacheableObjectArray l'). split; [by constructor|].
  apply (reads_step _ DSCode.CacheableObjectArray
    (enc_arrayLen (Z.of_nat (length l)) ++ [DSCode.Class_] ++ enc_text to_utf16 object_class ++ (l ≫= wire))); [done|done|].
  intros n Hn. rewrite !length_app in Hn. eapply reads_bind; [apply reads_readArrayLength; unfold short in Hs; lia|].
  destruct (Z.leb_spec 0 (Z.of_nat (length l))); [|lia]. rewrite Nat2Z.id. eapply reads_bind; [apply reads_read|].
  eapply reads_bind; [apply reads_object_class|]. apply (reads_fmap CacheableObjectArray), reads_repeat_as; [done|lia].
Qed.

Lemma read_user_object u : user_ok u -> reads_as (UserObject u) (UserObject u).
Proof.
  intros Hu n Hn. change (wire (UserObject u)) with (enc_user u) in *. destruct (user_reads u Hu) as [c rest Hc Hr|id rest Hid Hne Hr|id rest Hid Hne Hr|id rest Hid Hne Hr];
    (destruct n as [|n]; [simpl in Hn; lia|]); apply reads_code.
  - by repeat (apply elem_of_cons in Hc as [->|Hc]; [done|]); apply elem_of_nil in Hc.
  - repeat (apply elem_of_cons in Hc as [->|Hc]; [by apply (reads_fmap UserObject)|]). by apply elem_of_nil in Hc.
  - done.
  - eapply (reads_bind _ _ [_]); [apply reads_read|]. rewrite wrapS_wrapU, wrapS_id by done. case Z.eqb_spec; [done|]. intros _.
    by apply (reads_fmap UserObject).
  - done.
  - eapply reads_bind; [apply reads_readInt16|]. rewrite wrapS_wrapU, wrapS_id by done. case Z.eqb_spec; [done|]. intros _.
    by apply (reads_fmap UserObject).
  - done.
  - eapply reads_bind; [apply reads_readInt32|]. rewrite wrapS_wrapU, wrapS_id by done. case Z.eqb_spec; [done|]. intros _.
    by apply (reads_fmap UserObject).
Qed.

(** Numbers. *)
Lemma reads_byte z : in_s 8 z -> reads DataInput.read [u8 z] z.
Proof. intros Hz. eapply reads_eq; [apply reads_read|]. by rewrite wrapS_wrapU, wrapS_id. Qed.
Lemma reads_character c : in_u 16 c -> reads (v ← DataInput.readInt16; mret (u16 v)) (be_bytes 2 (u16 (s16 c))) c.
Proof. intros Hc. eapply reads_eq; [apply (reads_map _ u16), reads_readInt16|]. by rewrite wrapS_wrapU, wrapU_wrapS, wrapU_wrapS, wrapU_id. Qed.
Lemma reads_short z : in_s 16 z -> reads DataInput.readInt16 (be_bytes 2 (u16 z)) z.
Proof. intros Hz. eapply reads_eq; [apply reads_readInt16|]. by rewrite wrapS_wrapU, wrapS_id. Qed.
Lemma reads_int z : in_s 32 z -> reads DataInput.readInt32 (be_bytes 4 (u32 z)) z.
Proof. intros Hz. eapply reads_eq; [apply reads_readInt32|]. by rewrite wrapS_wrapU, wrapS_id. Qed.
Lemma reads_long z : in_s 64 z -> reads DataInput.readInt64 (be_bytes 8 (u64 z)) z.
Proof. intros Hz. eapply reads_eq; [apply reads_readInt64|]. by rewrite wrapS_wrapU, wrapS_id. Qed.
Lemma reads_float z : in_u 32 z -> reads DataInput.readFloat (be_bytes 4 z) z.
Proof. intros Hz. eapply reads_eq; [apply reads_readFloat|]. by rewrite wrapU_id. Qed.
Lemma reads_double z : in_u 64 z -> reads DataInput.readDouble (be_bytes 8 z) z.
Proof. intros Hz. eapply reads_eq; [apply reads_readDouble|]. by rewrite wrapU_id. Qed.

Lemma read_leaf v : leaf v = true -> value_ok v -> reads_as v v.
Proof.
  intros Hl Hv. destruct v as [|z|b|c|z|z|z|z|z|z|ty s|ty s|l|l|l|l|l|l|l|l| | | | | |e|u]; try done; cbn [value_ok] in Hv;
    try (by apply read_user_object); (eapply reads_step; [reflexivity| |]); try done; try (by eapply string_code7);
    intros n Hn.
  - apply reads_ret.
  - by apply (reads_fmap CacheableByte), reads_byte.
  - apply (reads_fmap CacheableBoolean), reads_readBoolean.
  - eapply reads_eq; [apply (reads_map _ (fun v => CacheableCharacter (u16 v))), reads_readInt16|]. f_equal.
    by rewrite wrapS_wrapU, wrapU_wrapS, wrapU_wrapS, wrapU_id.
  - by apply (reads_fmap CacheableInt16), reads_short.
  - by apply (reads_fmap CacheableInt32), reads_int.
  - by apply (reads_fmap CacheableInt64), reads_long.
  - by apply (reads_fmap CacheableFloat), reads_float.
  - by apply (reads_fmap CacheableDouble), reads_double.
  - by apply (reads_fmap CacheableDate), reads_long.
  - replace (deserialize_with (readObject_fuel n) ty) with (CacheableString (U := U) ty <$> CacheableString.CacheableString.fromData to_utf8 ty)
      by (by destruct Hv as [[-> _]|[[-> _]|[[-> _]|[-> _]]]]). by apply reads_fmap, reads_typed.
  - cbn [BuiltinsFacts.enc_body]. eapply (reads_bind _ _ [_]); [apply reads_read|]. pose proof (string_code7 ty s Hv) as Hc.
    unfold in_u in Hc. rewrite wrapS_id by (unfold in_s; lia). by apply (reads_fmap (CacheableFileName ty)), reads_typed.
  - destruct Hv. apply (reads_fmap CacheableBytes), (reads_plain _ _ (in_s 8)); [apply reads_byte|done|done].
  - apply (reads_fmap BooleanArray), (reads_plain _ _ (fun _ => True)); [intros; apply reads_readBoolean|done|by apply Forall_true].
  - destruct Hv. apply (reads_fmap CharArray), (reads_plain _ _ (in_u 16)); [apply reads_character|done|done].
  - destruct Hv. apply (reads_fmap CacheableInt16Array), (reads_plain _ _ (in_s 16)); [apply reads_short|done|done].
  - destruct Hv. apply (reads_fmap CacheableInt32Array), (reads_plain _ _ (in_s 32)); [apply reads_int|done|done].
  - destruct Hv. apply (reads_fmap CacheableInt64Array), (reads_plain _ _ (in_s 64)); [apply reads_long|done|done].
  - destruct Hv. apply (reads_fmap CacheableFloatArray), (reads_plain _ _ (in_u 32)); [apply reads_float|done|done].
  - destruct Hv. apply (reads_fmap CacheableDoubleArray), (reads_plain _ _ (in_u 64)); [apply reads_double|done|done].
  - eapply (reads_bind _ _ [_]); [apply reads_read|]. by apply (reads_fmap EventIdObject), EventId.reads_fromData.
Qed.

Lemma reads_value v : value_ok v -> exists v', same v v' /\ reads_as v v'.
Proof.
  induction v as [v Hl|l IH|l IH|k l IH|k l IH|k l IH] using value_ind; intros Hv.
  - exists v. split; [constructor|by apply read_leaf].
  - rewrite List.Forall_forall in IH. exists (CacheableStringArray l). split; [constructor|by apply read_strings].
  - rewrite List.Forall_forall in IH. by apply read_objects_array.
  - rewrite List.Forall_forall in IH. by apply read_list.
  - by apply read_map.
  - rewrite List.Forall_forall in IH. by apply read_set.
Qed.

Lemma reads_readObject v v' : reads_as v v' -> reads (readObject to_utf8 user place) (wire v) v'.
Proof.
  intros Hr pre rest Hlen. unfold readObject, st_get, mbind, ST_bind. apply Hr; [|done].
  unfold DataInput.getBytesRemaining, DataInput.getBytesRead, at_. cbn [DataInput.bufferLength DataInput.pos].
  rewrite !length_app in *. rewrite wrapU_id by (unfold in_u; lia). lia.
Qed.

End Values.

(** C33. Any value, built from numbers, strings, arrays, lists, maps, sets and objects of the
    application to any depth, that is written by the serialization registry is read back with no
    byte left over: the same value, up to the order of hash maps and hash sets. *)
Theorem value_roundtrip {U} `{AllocatorOk} to_utf16 to_utf8 (user : UserTypes U) enc_user user_ok
    (place : forall X, list X -> X -> list X) (v : t U) :
  UserCodec user enc_user user_ok -> (forall X l x, place X l x ≡ₚ x :: l) ->
  value_ok to_utf16 to_utf8 user user_ok v -> Z.of_nat (length (wire to_utf16 enc_user v)) + 16 <= 2 ^ 60 ->
  exists v', transmit (serialize to_utf16 user) (readObject to_utf8 user place) v = Ok (v', 0) /\ same v v'.
Proof.
  intros Hu Hp Hv Hl. destruct (reads_value to_utf16 to_utf8 user enc_user user_ok place Hp v Hv) as (v' & Hs & Hr).
  exists v'. split; [|done]. eapply transmit_spec; [by eapply emits_value|by apply reads_readObject|done].
Qed.
