(* ===== verification/BuiltinsClaims.v ===== *)
(** Built-in values on arbitrary input, and as keys of hash tables. *)
From S2P Require Import Prelude JavaModifiedUtf8 DataOutput DataOutputFacts DataInput DataInputFacts InputSafety Utf8Strings EventId CacheableString CacheableStringFacts CacheableBuiltins BuiltinsFacts.
Import Serializable.
#[local] Arguments be_bytes : simpl never.
Local Open Scope Z_scope.

(** *** Reading arbitrary bytes *)

(** With fewer than [n] bytes left: returns or throws, and only moves the cursor forward. *)
Definition returns {A} (n : Z) (m : ST DataInput.t A) : Prop := forall d, inwf d -> DataInput.bufferLength d - DataInput.pos d < n ->
  match m d with
  | Ok (_, d') => inwf d' /\ DataInput.bufferLength d' = DataInput.bufferLength d /\ DataInput.pos d <= DataInput.pos d'
  | Throw e => e <> Diverges
  end.

Lemma returns_safe {A} n (m : ST DataInput.t A) : safe m -> returns n m.
Proof.
  intros Hm d Hd _. specialize (Hm d Hd). destruct (m d) as [[a d']|e]; [|by destruct Hm]. destruct Hm as (H1 & H2 & H3).
  destruct Hd as [_ Hl _]. pose proof H1 as [_ Hl' _]. split_and!; [done| |done]. by rewrite Hl, Hl', H2.
Qed.

Lemma returns_ret {A} n (a : A) : returns n (mret a).
Proof. apply returns_safe, safe_ret. Qed.
Lemma returns_throw {A} n e : e <> Diverges -> returns (A := A) n (st_throw e).
Proof. by intros He d _ _. Qed.

Lemma returns_bind {A B} n (m : ST DataInput.t A) (f : A -> ST DataInput.t B) :
  returns n m -> (forall a, returns n (f a)) -> returns n (m ≫= f).
Proof.
  intros Hm Hf d Hd Hn. unfold mbind, ST_bind. specialize (Hm d Hd Hn). destruct (m d) as [[a d']|e]; [|done].
  destruct Hm as (H1 & H2 & H3). specialize (Hf a d' H1 ltac:(lia)). destruct (f a d') as [[b d'']|e]; [|done].
  destruct Hf as (H4 & H5 & H6). split_and!; [done|congruence|lia].
Qed.

Lemma returns_fmap {A B} n (f : A -> B) (m : ST DataInput.t A) : returns n m -> returns n (f <$> m).
Proof. intros Hm d Hd Hn. specialize (Hm d Hd Hn). unfold fmap, ST_fmap. by destruct (m d) as [[a d']|e]. Qed.

Lemma returns_lift {A} n (o : outcome A) : o <> Throw Diverges -> returns n (st_lift o).
Proof.
  intros Ho d Hd _. unfold st_lift. destruct o as [a|e]; [split_and!; [done|done|lia]|]. intros ->. done.
Qed.

Lemma returns_repeat {A} n (m : ST DataInput.t A) k : returns n m -> returns n (st_repeat k m).
Proof.
  intros Hm. induction k as [|k IH]; [apply returns_ret|]. cbn [st_repeat]. apply returns_bind; [done|]. intros a.
  apply returns_bind; [done|]. intros l. apply returns_ret.
Qed.

Lemma returns_elements {A} n (m : ST DataInput.t A) : returns n m -> returns n (read_elements m).
Proof.
  intros Hm. unfold read_elements. apply returns_bind; [apply returns_safe, safe_readArrayLength|]. intros len.
  destruct (0 <=? len); [by apply returns_repeat|apply returns_ret].
Qed.

(** Strings may leave the buffer, but they end. *)
Lemma decode_char_shorter buf c buf' : JavaModifiedUtf8.decodeJavaModifiedUtf8Char buf = Ok (c, buf') -> (length buf' < length buf)%nat.
Proof.
  unfold JavaModifiedUtf8.decodeJavaModifiedUtf8Char. destruct buf as [|b buf]; [done|].
  repeat (case_match; try done); intros [= <- <-]; simpl; lia.
Qed.

Lemma decode_ends fuel : forall buf left value, left <= Z.of_nat fuel -> JavaModifiedUtf8.decode_loop fuel buf left value <> Throw Diverges.
Proof.
  induction fuel as [|fuel IH]; intros buf left value Hl; cbn [JavaModifiedUtf8.decode_loop]; destruct (Z.ltb_spec 0 left); try done; [lia|].
  unfold mbind, outcome_bind. destruct (JavaModifiedUtf8.decodeJavaModifiedUtf8Char buf) as [[c buf']|e] eqn:E.
  - apply decode_char_shorter in E. apply IH. lia.
  - unfold JavaModifiedUtf8.decodeJavaModifiedUtf8Char in E. repeat (case_match; try done); by simplify_eq.
Qed.

(** Goes through a reader. *)
Ltac returning :=
  repeat match goal with
  | |- returns _ (if ?b then _ else _) => destruct b
  | |- returns _ (_ <$> _) => apply returns_fmap
  | |- returns _ (mret _) => apply returns_ret
  | |- returns _ (read_elements _) => apply returns_elements
  | |- returns _ (st_repeat _ _) => apply returns_repeat
  | |- returns _ (st_throw _) => by apply returns_throw
  | |- returns _ (_ ≫= _) => apply returns_bind; [|intros ?]
  end; auto using returns_safe, safe_read, safe_readBoolean, safe_readInt16, safe_readInt32, safe_readInt64, safe_readFloat, safe_readDouble,
    safe_readArrayLength, safe_readBytesOnly, safe_readAscii, safe_readAsciiHuge.

Section Reading.
Context {U : Type} (to_utf8 : list Z -> outcome (list Z)) (user : UserTypes U) (place : forall X, list X -> X -> list X).
Context (Hutf8 : forall s, to_utf8 s <> Throw Diverges) (Huser : forall c n, returns n (read_user user c)) (Hfixed : forall c n, returns n (read_fixed user c)).

Lemma returns_check n k : returns n (DataInput._checkBufferSize k).
Proof.
  intros d Hd _. unfold DataInput._checkBufferSize. destruct (_ <? _); [done|]. split_and!; [done|done|lia].
Qed.

Lemma returns_jmutf8 n : returns n (DataInput.readJavaModifiedUtf8_string to_utf8).
Proof.
  apply returns_bind; [|intros u; by apply returns_lift]. apply returns_bind; [apply returns_safe, safe_readInt16|]. intros k. cbv zeta.
  intros d Hd Hn. unfold mbind, ST_bind, st_get. destruct (DataInput._checkBufferSize (u16 k) d) as [[[] d1]|e] eqn:Ec.
  2: { unfold DataInput._checkBufferSize in Ec. by destruct (_ <? _); [injection Ec as <-|]. }
  unfold DataInput._checkBufferSize in Ec. destruct (Z.ltb_spec (u64 (DataInput.bufferLength d - DataInput.pos d)) (u16 k)) as [|Hge]; [done|]. injection Ec as <-.
  destruct Hd as [H1 H2 H3]. rewrite (wrapU_id 64) in Hge by (unfold in_u; lia). pose proof (wrapU_range 16 k) as Hr. unfold in_u in Hr. unfold st_lift.
  destruct (JavaModifiedUtf8.decode _ _) as [u|e] eqn:Ed.
  - unfold DataInput.advanceCursor, st_modify. cbn. split_and!; [constructor; cbn; lia|done|lia].
  - intros ->. revert Ed. apply decode_ends. lia.
Qed.

Lemma returns_code_unit n : returns n (c ← DataInput.readInt16NoCheck; mret (u16 c)).
Proof.
  assert (Hb : returns n DataInput.loadByte).
  { intros d Hd _. unfold DataInput.loadByte. destruct (DataInput.pos d <? 0); [done|].
    destruct (_ !! _) as [b|] eqn:E; [|done]. destruct Hd as [H1 H2 H3]. apply lookup_lt_Some in E. split_and!; [constructor; cbn; lia|done|cbn; lia]. }
  repeat (apply returns_bind; [|intros ?]); try done; apply returns_ret.
Qed.

Lemma returns_utf16Huge n : returns n (DataInput.readUtf16Huge_string to_utf8).
Proof.
  apply returns_bind; [|intros u; by apply returns_lift]. apply returns_bind; [apply returns_safe, safe_readInt32|]. intros k. cbv zeta.
  apply returns_bind; [apply returns_check|]. intros _. apply returns_repeat, returns_code_unit.
Qed.

Lemma returns_string n type : returns n (CacheableString.CacheableString.fromData to_utf8 type).
Proof.
  unfold CacheableString.CacheableString.fromData. returning; auto using returns_jmutf8, returns_utf16Huge.
Qed.

Lemma returns_readString n : returns n (DataInput.readString_string to_utf8).
Proof.
  unfold DataInput.readString_string. returning; auto using returns_jmutf8, returns_utf16Huge.
Qed.

Lemma returns_into {X} n k (key_of : X -> t U) (m : ST DataInput.t X) : returns n m -> forall l, returns n (read_into user place k key_of m l).
Proof.
  intros Hm. induction k as [|k IH]; intros l; [apply returns_ret|]. cbn [read_into]. apply returns_bind; [done|]. intros x.
  apply returns_bind; [|done]. apply returns_lift. unfold emplace. by repeat case_match.
Qed.

Lemma returns_event n : returns n EventId.fromData.
Proof.
  assert (Hd : forall c, returns n (EventId.getEventIdData c)).
  { intros c. unfold EventId.getEventIdData. returning. }
  unfold EventId.fromData. returning.
Qed.

Lemma returns_with n rd code : returns n rd -> returns n (deserialize_with to_utf8 user place rd code).
Proof.
  intros Hrd. unfold deserialize_with, read_map, read_set. cbv zeta.
  returning; auto using returns_into, returns_string, returns_readString, returns_event; apply returns_into; returning.
Qed.

Lemma returns_object n : returns (Z.of_nat n) (readObject_fuel to_utf8 user place n).
Proof.
  induction n as [|n IH]; [intros d [H1 H2 H3] Hn; lia|]. intros d Hd Hn. cbn [readObject_fuel]. unfold mbind, ST_bind.
  destruct (DataInput.read d) as [[c d']|e] eqn:E.
  - pose proof (returns_with (Z.of_nat n) _ c IH) as Hw. pose proof (safe_read d Hd) as Hs. rewrite E in Hs. destruct Hs as (H1 & H2 & H3).
    assert (DataInput.pos d' = DataInput.pos d + 1 /\ DataInput.bufferLength d' = DataInput.bufferLength d) as [Hp Hb].
    { unfold DataInput.read, DataInput.readNoCheck, DataInput._checkBufferSize, DataInput.loadByte, mbind, ST_bind, mret, ST_ret in E.
      repeat (case_match; simplify_eq/=). done. }
    specialize (Hw d' H1 ltac:(lia)). destruct (deserialize_with _ _ _ _ _ d') as [[v d'']|e]; [|done].
    destruct Hw as (H4 & H5 & H6). split_and!; [done|congruence|lia].
  - pose proof (safe_read d Hd) as Hs. rewrite E in Hs. apply Hs.
Qed.
End Reading.

(** C34. [readObject] ends on arbitrary bytes, however values claim to be nested: it never
    recurses without consuming input. When it returns a value, the cursor is still inside the
    buffer. Otherwise it throws an exception, or it comes to one of the places where the
    behaviour of the code is undefined: a key of a map or element of a set that is no key (a null
    pointer), a string that is read past the end of the buffer, an event id that is longer than
    the array that it is copied to. *)
Theorem readObject_terminates {U} to_utf8 (user : UserTypes U) (place : forall X, list X -> X -> list X) bytes :
  (forall s, to_utf8 s <> Throw Diverges) -> (forall c n, returns n (read_user user c)) -> (forall c n, returns n (read_fixed user c)) ->
  Z.of_nat (length bytes) < 2 ^ 62 ->
  match readObject to_utf8 user place (DataInput.construct bytes (Z.of_nat (length bytes))) with
  | Ok (_, d) => 0 <= DataInput.pos d <= Z.of_nat (length bytes)
  | Throw e => e <> Diverges
  end.
Proof.
  intros Hu H1 H2 Hl. unfold readObject, st_get, mbind, ST_bind.
  set (d := DataInput.construct bytes (Z.of_nat (length bytes))). assert (Hd : inwf d) by (constructor; cbn; lia).
  assert (Hn : DataInput.bufferLength d - DataInput.pos d < Z.of_nat (S (Z.to_nat (DataInput.getBytesRemaining d)))).
  { unfold DataInput.getBytesRemaining, DataInput.getBytesRead. destruct Hd as [Hp1 Hp2 Hp3]. rewrite wrapU_id by (unfold in_u; lia). lia. }
  generalize dependent (S (Z.to_nat (DataInput.getBytesRemaining d))). intros n Hn.
  pose proof (returns_object to_utf8 user place Hu H1 H2 n d Hd Hn) as Hr.
  destruct (readObject_fuel to_utf8 user place n d) as [[v d']|e]; [|done].
  destruct Hr as ([Hp _ _] & Hb & _). rewrite Hb in Hp. exact Hp.
Qed.

(** *** Keys *)

Lemma float_eq_spec e m x y : float_eq e m x y = true -> x = y \/ is_zero e m x = true /\ is_zero e m y = true.
Proof.
  unfold float_eq. rewrite !andb_true_iff, orb_true_iff, andb_true_iff, Z.eqb_eq. tauto.
Qed.

(** The sign of a zero, and a file name against a string. *)
Inductive hash_differs {U} : t U -> t U -> Prop :=
| float_zeros x y : x <> y -> is_zero 8 23 x = true -> is_zero 8 23 y = true -> hash_differs (CacheableFloat x) (CacheableFloat y)
| double_zeros x y : x <> y -> is_zero 11 52 x = true -> is_zero 11 52 y = true -> hash_differs (CacheableDouble x) (CacheableDouble y)
| string_file t1 t2 s : hash_differs (CacheableString t1 s) (CacheableFileName t2 s)
| file_string t1 t2 s : hash_differs (CacheableFileName t1 s) (CacheableString t2 s).

Lemma equal_hash {U} (user : UserTypes U) (x y : t U) :
  (forall a b, user_equals user a b = true -> user_hashcode user a = user_hashcode user b) ->
  equals user x y = true -> hashcode user x = hashcode user y \/ hash_differs x y.
Proof.
  intros Hu. destruct x, y; cbn [equals]; try done; intros He;
    try (apply Z.eqb_eq in He as ->; by left); try (apply bool_decide_eq_true in He as ->; auto using @hash_differs).
  - apply Bool.eqb_prop in He as ->. by left.
  - apply float_eq_spec in He as [->|[H1 H2]]; [by left|]. destruct (decide (value_ = value_0)) as [->|Hne]; [by left|right; by constructor].
  - apply float_eq_spec in He as [->|[H1 H2]]; [by left|]. destruct (decide (value_ = value_0)) as [->|Hne]; [by left|right; by constructor].
  - left. cbn. by rewrite (Hu _ _ He).
Qed.

(** C39. Keys that are equal have the same hash code, as hash tables and the distribution over
    buckets need it, with two exceptions among the built-in keys: a string and a file name with
    the same characters, and the two zeros of a floating point type. These are equal and have
    different hash codes. *)
Theorem equal_keys_hash {U} (user : UserTypes U) :
  (forall a b, user_equals user a b = true -> user_hashcode user a = user_hashcode user b) ->
  (forall x y, equals user x y = true -> hashcode user x = hashcode user y \/ hash_differs x y) /\
  (equals user (CacheableFloat 0) (CacheableFloat 0x80000000) = true /\
   hashcode user (CacheableFloat 0) <> hashcode user (CacheableFloat 0x80000000)) /\
  (equals user (CacheableString 87 [97]) (CacheableFileName 87 [97]) = true /\
   hashcode user (CacheableString 87 [97]) <> hashcode user (CacheableFileName 87 [97])).
Proof. intros Hu. split; [intros x y; by apply equal_hash|done]. Qed.

(** *** Objects of an application: numbers behind the code of PDX *)

Section Witnesses.
#[local] Existing Instance always_alloc.
#[local] Existing Instance always_alloc_ok.

Definition number_types : UserTypes Z :=
  mkUser Z (fun u => DataOutput.write_int8 DSCode.PDX;; DataOutput.writeInt_int32 u) DataOutput.writeInt_int32
    (fun c => DataInput.readInt32) (fun c => st_throw IllegalStateException) (fun _ => false) Z.eqb (fun u => u).
Definition number_wire (u : Z) : list Z := DSCode.PDX :: be_bytes 4 (u32 u).
Definition at_end (X : Type) (l : list X) (x : X) : list X := x :: l.

Lemma number_codec : UserCodec number_types number_wire (in_s 32).
Proof.
  split; intros u Hu.
  - apply (emits_bind _ _ [_]); [by apply emits_code_byte|apply emits_writeInt_int32].
  - apply wire_code; [by left|]. by apply reads_int.
Qed.

(** A map with an array list, a null and a number of the application. *)
Definition some_value : t Z :=
  CacheableMap CacheableHashMap
    [(CacheableString 87 [97], CacheableList CacheableArrayList [CacheableInt32 (-7); nullptr; UserObject 5]);
     (CacheableInt64 9, CacheableStringArray [CacheableString 87 [98]; nullptr])].

Lemma value_roundtrip_witness :
  exists v', transmit (serialize Ok number_types) (readObject Ok number_types at_end) some_value = Ok (v', 0) /\ same some_value v'.
Proof.
  apply (value_roundtrip Ok Ok number_types number_wire (in_s 32) at_end some_value).
  - apply number_codec.
  - done.
  - repeat (split || constructor || left || done).
  - by vm_compute.
Defined.

(** A list that claims to hold lists, cut off. *)
Lemma readObject_terminates_witness :
  match readObject Ok number_types at_end (DataInput.construct [71; 1; 71; 1; 71] 5) with
  | Ok (_, d) => 0 <= DataInput.pos d <= 5
  | Throw e => e <> Diverges
  end.
Proof.
  apply (readObject_terminates Ok number_types at_end [71; 1; 71; 1; 71]).
  - done.
  - intros c n. apply returns_safe, safe_readInt32.
  - intros c n. by apply returns_throw.
  - by vm_compute.
Defined.

Lemma equal_keys_hash_witness :
  equals number_types (CacheableInt32 3) (CacheableInt32 3) = true /\
  (hashcode number_types (CacheableInt32 3) = hashcode number_types (CacheableInt32 3) \/
   hash_differs (CacheableInt32 (U := Z) 3) (CacheableInt32 3)).
Proof.
  split; [done|]. apply (equal_keys_hash number_types); [|done]. intros a b E. by apply Z.eqb_eq in E.
Defined.
End Witnesses.
