(* ===== verification/TcrMessage.v ===== *)
(** Messages to servers (src/cppcache/src/TcrMessage.cpp, TcrMessage.hpp): the parts of a
    message, the header, the security part, and the constructors of all requests.

    A message is built in a state with the counters of event ids, which belong to the thread.
    The constructor of a request starts from [construct], which is [TcrMessage()] together with
    [m_request.reset(dataOutput)]. The distribution manager of a message matters through
    [isSecurityOn()] only, a region through its path and two attributes. Deltas ([toDelta]) are
    written by the application. *)
From S2P Require Import Prelude JavaModifiedUtf8 DataOutput EventId EventIdMap CacheableBuiltins.

(** [TcrMessage::MsgType]. *)
Module MsgType.
Definition NOT_PUBLIC_API_WITH_TIMEOUT : Z := (-2).
Definition INVALID : Z := (-1).
Definition REQUEST : Z := 0.
Definition RESPONSE : Z := 1.
Definition EXCEPTION : Z := 2.
Definition REQUEST_DATA_ERROR : Z := 3.
Definition DATA_NOT_FOUND_ERROR : Z := 4.
Definition PING : Z := 5.
Definition REPLY : Z := 6.
Definition PUT : Z := 7.
Definition PUT_DATA_ERROR : Z := 8.
Definition DESTROY : Z := 9.
Definition DESTROY_DATA_ERROR : Z := 10.
Definition DESTROY_REGION : Z := 11.
Definition DESTROY_REGION_DATA_ERROR : Z := 12.
Definition CLIENT_NOTIFICATION : Z := 13.
Definition UPDATE_CLIENT_NOTIFICATION : Z := 14.
Definition LOCAL_INVALIDATE : Z := 15.
Definition LOCAL_DESTROY : Z := 16.
Definition LOCAL_DESTROY_REGION : Z := 17.
Definition CLOSE_CONNECTION : Z := 18.
Definition PROCESS_BATCH : Z := 19.
Definition REGISTER_INTEREST : Z := 20.
Definition REGISTER_INTEREST_DATA_ERROR : Z := 21.
Definition UNREGISTER_INTEREST : Z := 22.
Definition UNREGISTER_INTEREST_DATA_ERROR : Z := 23.
Definition REGISTER_INTEREST_LIST : Z := 24.
Definition UNREGISTER_INTEREST_LIST : Z := 25.
Definition UNKNOWN_MESSAGE_TYPE_ERROR : Z := 26.
Definition LOCAL_CREATE : Z := 27.
Definition LOCAL_UPDATE : Z := 28.
Definition CREATE_REGION : Z := 29.
Definition CREATE_REGION_DATA_ERROR : Z := 30.
Definition MAKE_PRIMARY : Z := 31.
Definition RESPONSE_FROM_PRIMARY : Z := 32.
Definition RESPONSE_FROM_SECONDARY : Z := 33.
Definition QUERY : Z := 34.
Definition QUERY_DATA_ERROR : Z := 35.
Definition CLEAR_REGION : Z := 36.
Definition CLEAR_REGION_DATA_ERROR : Z := 37.
Definition CONTAINS_KEY : Z := 38.
Definition CONTAINS_KEY_DATA_ERROR : Z := 39.
Definition KEY_SET : Z := 40.
Definition KEY_SET_DATA_ERROR : Z := 41.
Definition EXECUTECQ_MSG_TYPE : Z := 42.
Definition EXECUTECQ_WITH_IR_MSG_TYPE : Z := 43.
Definition STOPCQ_MSG_TYPE : Z := 44.
Definition CLOSECQ_MSG_TYPE : Z := 45.
Definition CLOSECLIENTCQS_MSG_TYPE : Z := 46.
Definition CQDATAERROR_MSG_TYPE : Z := 47.
Definition GETCQSTATS_MSG_TYPE : Z := 48.
Definition MONITORCQ_MSG_TYPE : Z := 49.
Definition CQ_EXCEPTION_TYPE : Z := 50.
Definition REGISTER_INSTANTIATORS : Z := 51.
Definition PERIODIC_ACK : Z := 52.
Definition CLIENT_READY : Z := 53.
Definition CLIENT_MARKER : Z := 54.
Definition INVALIDATE_REGION : Z := 55.
Definition PUTALL : Z := 56.
Definition GET_ALL_DATA_ERROR : Z := 58.
Definition EXECUTE_REGION_FUNCTION : Z := 59.
Definition EXECUTE_REGION_FUNCTION_RESULT : Z := 60.
Definition EXECUTE_REGION_FUNCTION_ERROR : Z := 61.
Definition EXECUTE_FUNCTION : Z := 62.
Definition EXECUTE_FUNCTION_RESULT : Z := 63.
Definition EXECUTE_FUNCTION_ERROR : Z := 64.
Definition CLIENT_REGISTER_INTEREST : Z := 65.
Definition CLIENT_UNREGISTER_INTEREST : Z := 66.
Definition REGISTER_DATASERIALIZERS : Z := 67.
Definition REQUEST_EVENT_VALUE : Z := 68.
Definition REQUEST_EVENT_VALUE_ERROR : Z := 69.
Definition PUT_DELTA_ERROR : Z := 70.
Definition GET_CLIENT_PR_METADATA : Z := 71.
Definition RESPONSE_CLIENT_PR_METADATA : Z := 72.
Definition GET_CLIENT_PARTITION_ATTRIBUTES : Z := 73.
Definition RESPONSE_CLIENT_PARTITION_ATTRIBUTES : Z := 74.
Definition GET_CLIENT_PR_METADATA_ERROR : Z := 75.
Definition GET_CLIENT_PARTITION_ATTRIBUTES_ERROR : Z := 76.
Definition USER_CREDENTIAL_MESSAGE : Z := 77.
Definition REMOVE_USER_AUTH : Z := 78.
Definition EXECUTE_REGION_FUNCTION_SINGLE_HOP : Z := 79.
Definition QUERY_WITH_PARAMETERS : Z := 80.
Definition SIZE : Z := 81.
Definition SIZE_ERROR : Z := 82.
Definition INVALIDATE : Z := 83.
Definition INVALIDATE_ERROR : Z := 84.
Definition COMMIT : Z := 85.
Definition COMMIT_ERROR : Z := 86.
Definition ROLLBACK : Z := 87.
Definition TX_FAILOVER : Z := 88.
Definition GET_ENTRY : Z := 89.
Definition TX_SYNCHRONIZATION : Z := 90.
Definition GET_FUNCTION_ATTRIBUTES : Z := 91.
Definition GET_PDX_TYPE_BY_ID : Z := 92.
Definition GET_PDX_ID_FOR_TYPE : Z := 93.
Definition ADD_PDX_TYPE : Z := 94.
Definition ADD_PDX_ENUM : Z := 96.
Definition GET_PDX_ID_FOR_ENUM : Z := 97.
Definition GET_PDX_ENUM_BY_ID : Z := 98.
Definition SERVER_TO_CLIENT_PING : Z := 99.
Definition GET_ALL_70 : Z := 100.
Definition TOMBSTONE_OPERATION : Z := 103.
Definition GETDURABLECQS_MSG_TYPE : Z := 105.
Definition GET_DURABLE_CQS_DATA_ERROR : Z := 106.
Definition GET_ALL_WITH_CALLBACK : Z := 107.
Definition PUT_ALL_WITH_CALLBACK : Z := 108.
Definition REMOVE_ALL : Z := 109.
End MsgType.

Inductive InterestResultPolicy := NONE | KEYS | KEYS_VALUES.
Definition InterestResultPolicy_code (p : InterestResultPolicy) : Z := match p with NONE => 0 | KEYS => 1 | KEYS_VALUES => 2 end.
Definition DSFid_InterestResultPolicy : Z := 37.

Inductive CqState := STOPPED | RUNNING | CLOSED | CLOSING | CqState_INVALID.
Definition CqState_code (s : CqState) : Z :=
  match s with STOPPED => 0 | RUNNING => 1 | CLOSED => 2 | CLOSING => 3 | CqState_INVALID => 4 end.

Module TcrMessage.

Record Region := mkRegion { getFullPath : list Z; getCachingEnabled : bool; getConcurrencyChecksEnabled : bool }.

Definition kHeaderLength : Z := 17.
Definition kREGULAR_EXPRESSION : Z := 1.
Definition kFlagEmpty : Z := 1.
Definition kFlagConcurrencyChecks : Z := 2.
(** "INVALID_REGION_NAME" *)
Definition INVALID_REGION_NAME : list Z := [73; 78; 86; 65; 76; 73; 68; 95; 82; 69; 71; 73; 79; 78; 95; 78; 65; 77; 69].

Section Message.
Context {U : Type}.
Abbreviation Object_ := (Serializable.t U).
Abbreviation nullptr := (@Serializable.nullptr U).

Record t := mk {
  m_request : DataOutput.t;
  m_tcdm : option bool;
  m_keyList : option (list Object_);
  m_region : option Region;
  m_messageResponseTimeout : Z;
  m_creds : Object_;
  m_key : Object_;
  m_callbackArgument : Object_;
  m_regionName : list Z;
  m_regex : list Z;
  m_securityHeaderLength : Z;
  m_msgType : Z;
  m_txId : Z;
  m_isSecurityOn : bool;
  m_isSecurityHeaderAdded : bool;
  m_isMetaRegion : bool;
  m_decodeAll : bool;
  m_interestPolicy : InterestResultPolicy;
  m_isDurable : bool;
  m_receiveValues : bool;
  m_isCallBackArguement : bool;
  m_hasResult : Z
}.

Definition set_request (x : DataOutput.t) (m : t) : t := mk x (m_tcdm m) (m_keyList m) (m_region m) (m_messageResponseTimeout m) (m_creds m) (m_key m) (m_callbackArgument m) (m_regionName m) (m_regex m) (m_securityHeaderLength m) (m_msgType m) (m_txId m) (m_isSecurityOn m) (m_isSecurityHeaderAdded m) (m_isMetaRegion m) (m_decodeAll m) (m_interestPolicy m) (m_isDurable m) (m_receiveValues m) (m_isCallBackArguement m) (m_hasResult m).
Definition set_tcdm (x : option bool) (m : t) : t := mk (m_request m) x (m_keyList m) (m_region m) (m_messageResponseTimeout m) (m_creds m) (m_key m) (m_callbackArgument m) (m_regionName m) (m_regex m) (m_securityHeaderLength m) (m_msgType m) (m_txId m) (m_isSecurityOn m) (m_isSecurityHeaderAdded m) (m_isMetaRegion m) (m_decodeAll m) (m_interestPolicy m) (m_isDurable m) (m_receiveValues m) (m_isCallBackArguement m) (m_hasResult m).
Definition set_keyList (x : option (list Object_)) (m : t) : t := mk (m_request m) (m_tcdm m) x (m_region m) (m_messageResponseTimeout m) (m_creds m) (m_key m) (m_callbackArgument m) (m_regionName m) (m_regex m) (m_securityHeaderLength m) (m_msgType m) (m_txId m) (m_isSecurityOn m) (m_isSecurityHeaderAdded m) (m_isMetaRegion m) (m_decodeAll m) (m_interestPolicy m) (m_isDurable m) (m_receiveValues m) (m_isCallBackArguement m) (m_hasResult m).
Definition set_region (x : option Region) (m : t) : t := mk (m_request m) (m_tcdm m) (m_keyList m) x (m_messageResponseTimeout m) (m_creds m) (m_key m) (m_callbackArgument m) (m_regionName m) (m_regex m) (m_securityHeaderLength m) (m_msgType m) (m_txId m) (m_isSecurityOn m) (m_isSecurityHeaderAdded m) (m_isMetaRegion m) (m_decodeAll m) (m_interestPolicy m) (m_isDurable m) (m_receiveValues m) (m_isCallBackArguement m) (m_hasResult m).
Definition set_messageResponseTimeout (x : Z) (m : t) : t := mk (m_request m) (m_tcdm m) (m_keyList m) (m_region m) x (m_creds m) (m_key m) (m_callbackArgument m) (m_regionName m) (m_regex m) (m_securityHeaderLength m) (m_msgType m) (m_txId m) (m_isSecurityOn m) (m_isSecurityHeaderAdded m) (m_isMetaRegion m) (m_decodeAll m) (m_interestPolicy m) (m_isDurable m) (m_receiveValues m) (m_isCallBackArguement m) (m_hasResult m).
Definition set_creds (x : Object_) (m : t) : t := mk (m_request m) (m_tcdm m) (m_keyList m) (m_region m) (m_messageResponseTimeout m) x (m_key m) (m_callbackArgument m) (m_regionName m) (m_regex m) (m_securityHeaderLength m) (m_msgType m) (m_txId m) (m_isSecurityOn m) (m_isSecurityHeaderAdded m) (m_isMetaRegion m) (m_decodeAll m) (m_interestPolicy m) (m_isDurable m) (m_receiveValues m) (m_isCallBackArguement m) (m_hasResult m).
Definition set_key (x : Object_) (m : t) : t := mk (m_request m) (m_tcdm m) (m_keyList m) (m_region m) (m_messageResponseTimeout m) (m_creds m) x (m_callbackArgument m) (m_regionName m) (m_regex m) (m_securityHeaderLength m) (m_msgType m) (m_txId m) (m_isSecurityOn m) (m_isSecurityHeaderAdded m) (m_isMetaRegion m) (m_decodeAll m) (m_interestPolicy m) (m_isDurable m) (m_receiveValues m) (m_isCallBackArguement m) (m_hasResult m).
Definition set_callbackArgument (x : Object_) (m : t) : t := mk (m_request m) (m_tcdm m) (m_keyList m) (m_region m) (m_messageResponseTimeout m) (m_creds m) (m_key m) x (m_regionName m) (m_regex m) (m_securityHeaderLength m) (m_msgType m) (m_txId m) (m_isSecurityOn m) (m_isSecurityHeaderAdded m) (m_isMetaRegion m) (m_decodeAll m) (m_interestPolicy m) (m_isDurable m) (m_receiveValues m) (m_isCallBackArguement m) (m_hasResult m).
Definition set_regionName (x : list Z) (m : t) : t := mk (m_request m) (m_tcdm m) (m_keyList m) (m_region m) (m_messageResponseTimeout m) (m_creds m) (m_key m) (m_callbackArgument m) x (m_regex m) (m_securityHeaderLength m) (m_msgType m) (m_txId m) (m_isSecurityOn m) (m_isSecurityHeaderAdded m) (m_isMetaRegion m) (m_decodeAll m) (m_interestPolicy m) (m_isDurable m) (m_receiveValues m) (m_isCallBackArguement m) (m_hasResult m).
Definition set_regex (x : list Z) (m : t) : t := mk (m_request m) (m_tcdm m) (m_keyList m) (m_region m) (m_messageResponseTimeout m) (m_creds m) (m_key m) (m_callbackArgument m) (m_regionName m) x (m_securityHeaderLength m) (m_msgType m) (m_txId m) (m_isSecurityOn m) (m_isSecurityHeaderAdded m) (m_isMetaRegion m) (m_decodeAll m) (m_interestPolicy m) (m_isDurable m) (m_receiveValues m) (m_isCallBackArguement m) (m_hasResult m).
Definition set_securityHeaderLength (x : Z) (m : t) : t := mk (m_request m) (m_tcdm m) (m_keyList m) (m_region m) (m_messageResponseTimeout m) (m_creds m) (m_key m) (m_callbackArgument m) (m_regionName m) (m_regex m) x (m_msgType m) (m_txId m) (m_isSecurityOn m) (m_isSecurityHeaderAdded m) (m_isMetaRegion m) (m_decodeAll m) (m_interestPolicy m) (m_isDurable m) (m_receiveValues m) (m_isCallBackArguement m) (m_hasResult m).
Definition set_msgType (x : Z) (m : t) : t := mk (m_request m) (m_tcdm m) (m_keyList m) (m_region m) (m_messageResponseTimeout m) (m_creds m) (m_key m) (m_callbackArgument m) (m_regionName m) (m_regex m) (m_securityHeaderLength m) x (m_txId m) (m_isSecurityOn m) (m_isSecurityHeaderAdded m) (m_isMetaRegion m) (m_decodeAll m) (m_interestPolicy m) (m_isDurable m) (m_receiveValues m) (m_isCallBackArguement m) (m_hasResult m).
Definition set_txId (x : Z) (m : t) : t := mk (m_request m) (m_tcdm m) (m_keyList m) (m_region m) (m_messageResponseTimeout m) (m_creds m) (m_key m) (m_callbackArgument m) (m_regionName m) (m_regex m) (m_securityHeaderLength m) (m_msgType m) x (m_isSecurityOn m) (m_isSecurityHeaderAdded m) (m_isMetaRegion m) (m_decodeAll m) (m_interestPolicy m) (m_isDurable m) (m_receiveValues m) (m_isCallBackArguement m) (m_hasResult m).
Definition set_isSecurityOn (x : bool) (m : t) : t := mk (m_request m) (m_tcdm m) (m_keyList m) (m_region m) (m_messageResponseTimeout m) (m_creds m) (m_key m) (m_callbackArgument m) (m_regionName m) (m_regex m) (m_securityHeaderLength m) (m_msgType m) (m_txId m) x (m_isSecurityHeaderAdded m) (m_isMetaRegion m) (m_decodeAll m) (m_interestPolicy m) (m_isDurable m) (m_receiveValues m) (m_isCallBackArguement m) (m_hasResult m).
Definition set_isSecurityHeaderAdded (x : bool) (m : t) : t := mk (m_request m) (m_tcdm m) (m_keyList m) (m_region m) (m_messageResponseTimeout m) (m_creds m) (m_key m) (m_callbackArgument m) (m_regionName m) (m_regex m) (m_securityHeaderLength m) (m_msgType m) (m_txId m) (m_isSecurityOn m) x (m_isMetaRegion m) (m_decodeAll m) (m_interestPolicy m) (m_isDurable m) (m_receiveValues m) (m_isCallBackArguement m) (m_hasResult m).
Definition set_isMetaRegion (x : bool) (m : t) : t := mk (m_request m) (m_tcdm m) (m_keyList m) (m_region m) (m_messageResponseTimeout m) (m_creds m) (m_key m) (m_callbackArgument m) (m_regionName m) (m_regex m) (m_securityHeaderLength m) (m_msgType m) (m_txId m) (m_isSecurityOn m) (m_isSecurityHeaderAdded m) x (m_decodeAll m) (m_interestPolicy m) (m_isDurable m) (m_receiveValues m) (m_isCallBackArguement m) (m_hasResult m).
Definition set_decodeAll (x : bool) (m : t) : t := mk (m_request m) (m_tcdm m) (m_keyList m) (m_region m) (m_messageResponseTimeout m) (m_creds m) (m_key m) (m_callbackArgument m) (m_regionName m) (m_regex m) (m_securityHeaderLength m) (m_msgType m) (m_txId m) (m_isSecurityOn m) (m_isSecurityHeaderAdded m) (m_isMetaRegion m) x (m_interestPolicy m) (m_isDurable m) (m_receiveValues m) (m_isCallBackArguement m) (m_hasResult m).
Definition set_interestPolicy (x : InterestResultPolicy) (m : t) : t := mk (m_request m) (m_tcdm m) (m_keyList m) (m_region m) (m_messageResponseTimeout m) (m_creds m) (m_key m) (m_callbackArgument m) (m_regionName m) (m_regex m) (m_securityHeaderLength m) (m_msgType m) (m_txId m) (m_isSecurityOn m) (m_isSecurityHeaderAdded m) (m_isMetaRegion m) (m_decodeAll m) x (m_isDurable m) (m_receiveValues m) (m_isCallBackArguement m) (m_hasResult m).
Definition set_isDurable (x : bool) (m : t) : t := mk (m_request m) (m_tcdm m) (m_keyList m) (m_region m) (m_messageResponseTimeout m) (m_creds m) (m_key m) (m_callbackArgument m) (m_regionName m) (m_regex m) (m_securityHeaderLength m) (m_msgType m) (m_txId m) (m_isSecurityOn m) (m_isSecurityHeaderAdded m) (m_isMetaRegion m) (m_decodeAll m) (m_interestPolicy m) x (m_receiveValues m) (m_isCallBackArguement m) (m_hasResult m).
Definition set_receiveValues (x : bool) (m : t) : t := mk (m_request m) (m_tcdm m) (m_keyList m) (m_region m) (m_messageResponseTimeout m) (m_creds m) (m_key m) (m_callbackArgument m) (m_regionName m) (m_regex m) (m_securityHeaderLength m) (m_msgType m) (m_txId m) (m_isSecurityOn m) (m_isSecurityHeaderAdded m) (m_isMetaRegion m) (m_decodeAll m) (m_interestPolicy m) (m_isDurable m) x (m_isCallBackArguement m) (m_hasResult m).
Definition set_isCallBackArguement (x : bool) (m : t) : t := mk (m_request m) (m_tcdm m) (m_keyList m) (m_region m) (m_messageResponseTimeout m) (m_creds m) (m_key m) (m_callbackArgument m) (m_regionName m) (m_regex m) (m_securityHeaderLength m) (m_msgType m) (m_txId m) (m_isSecurityOn m) (m_isSecurityHeaderAdded m) (m_isMetaRegion m) (m_decodeAll m) (m_interestPolicy m) (m_isDurable m) (m_receiveValues m) x (m_hasResult m).
Definition set_hasResult (x : Z) (m : t) : t := mk (m_request m) (m_tcdm m) (m_keyList m) (m_region m) (m_messageResponseTimeout m) (m_creds m) (m_key m) (m_callbackArgument m) (m_regionName m) (m_regex m) (m_securityHeaderLength m) (m_msgType m) (m_txId m) (m_isSecurityOn m) (m_isSecurityHeaderAdded m) (m_isMetaRegion m) (m_decodeAll m) (m_interestPolicy m) (m_isDurable m) (m_receiveValues m) (m_isCallBackArguement m) x.

Definition construct (dataOutput : DataOutput.t) : t :=
  mk dataOutput None None None (-1) nullptr nullptr nullptr INVALID_REGION_NAME [] 0 MsgType.INVALID (-1)
     false false false false NONE false false false 0.

Definition is_null (o : Object_) : bool := match o with Serializable.nullptr => true | _ => false end.

(** *** The monad *)

Definition State : Type := t * EventId.Counters.
Definition M (A : Type) : Type := ST State A.

Definition modify (f : t -> t) : M unit := st_modify (fun s => (f s.1, s.2)).
Definition get : M t := s ← st_get; mret s.1.
Definition on_request {A} (m : ST DataOutput.t A) : M A := fun s =>
  match m (m_request s.1) with
  | Ok (a, d) => Ok (a, (set_request d s.1, s.2))
  | Throw e => Throw e
  end.
Definition on_counters {A} (m : ST EventId.Counters A) : M A := fun s =>
  match m s.2 with
  | Ok (a, c) => Ok (a, (s.1, c))
  | Throw e => Throw e
  end.

(** *** Questions about a message *)

Definition isUserInitiativeOps (msg : t) : bool :=
  negb (m_isMetaRegion msg) &&
  negb (bool_decide (m_msgType msg ∈
    [MsgType.PING; MsgType.PERIODIC_ACK; MsgType.MAKE_PRIMARY; MsgType.CLOSE_CONNECTION; MsgType.CLIENT_READY; MsgType.INVALID;
     MsgType.MONITORCQ_MSG_TYPE; MsgType.GETCQSTATS_MSG_TYPE; MsgType.REQUEST_EVENT_VALUE; MsgType.GET_CLIENT_PR_METADATA;
     MsgType.GET_CLIENT_PARTITION_ATTRIBUTES; MsgType.GET_PDX_ID_FOR_TYPE; MsgType.GET_PDX_TYPE_BY_ID; MsgType.ADD_PDX_TYPE;
     MsgType.SIZE; MsgType.TX_FAILOVER; MsgType.GET_ENTRY; MsgType.TX_SYNCHRONIZATION; MsgType.GET_FUNCTION_ATTRIBUTES;
     MsgType.ADD_PDX_ENUM; MsgType.GET_PDX_ENUM_BY_ID; MsgType.GET_PDX_ID_FOR_ENUM; MsgType.COMMIT; MsgType.ROLLBACK])).

Definition forPrimary (m : t) : bool :=
  (m_msgType m =? MsgType.PUT) || (m_msgType m =? MsgType.DESTROY) || (m_msgType m =? MsgType.EXECUTE_REGION_FUNCTION).
Definition forSingleHop (m : t) : bool :=
  (m_msgType m =? MsgType.PUT) || (m_msgType m =? MsgType.DESTROY) || (m_msgType m =? MsgType.REQUEST)
  || (m_msgType m =? MsgType.GET_ALL_70) || (m_msgType m =? MsgType.GET_ALL_WITH_CALLBACK)
  || (m_msgType m =? MsgType.EXECUTE_REGION_FUNCTION) || (m_msgType m =? MsgType.PUTALL)
  || (m_msgType m =? MsgType.PUT_ALL_WITH_CALLBACK).
Definition forTransaction (m : t) : bool := negb (m_txId m =? -1).

Section Writers.
Context `{Allocator} (to_utf16 : list Z -> outcome (list Z)) (user : Serializable.UserTypes U)
  (toDelta : U -> option (ST DataOutput.t unit)) (thread : nat) (txState : option Z).

Definition writeObject (se : Object_) : ST DataOutput.t unit := Serializable.serialize to_utf16 user se.
Definition length_ {A} (l : list A) : Z := Z.of_nat (length l).

(** *** Parts *)

Definition writeInterestResultPolicyPart (policy : InterestResultPolicy) : M unit := on_request (
  DataOutput.writeInt_int32 3;;
  DataOutput.write_int8 1;;
  DataOutput.write_int8 DSCode.FixedIDByte;;
  DataOutput.write_int8 DSFid_InterestResultPolicy;;
  DataOutput.write_int8 (InterestResultPolicy_code policy)).

Definition writeIntPart (intValue : Z) : M unit := on_request (
  DataOutput.writeInt_int32 4;;
  DataOutput.write_int8 0;;
  DataOutput.writeInt_int32 (s32 intValue)).

Definition writeBytePart (byteValue : Z) : M unit := on_request (
  DataOutput.writeInt_int32 1;;
  DataOutput.write_int8 0;;
  DataOutput.write (u8 byteValue)).

Definition writeByteAndTimeOutPart (byteValue timeout : Z) : M unit := on_request (
  DataOutput.writeInt_int32 5;;
  DataOutput.write_int8 0;;
  DataOutput.write (u8 byteValue);;
  DataOutput.writeInt_int32 (s32 timeout)).

Definition writeMillisecondsPart (millis : Z) : M unit := writeIntPart (s32 millis).

(** [for (int i = 0; i < result; i++) cursor[i] = startBytes[i]], offsets for pointers. *)
Fixpoint copy_bytes (n : nat) (cursor startBytes : Z) : ST DataOutput.t unit :=
  match n with
  | O => mret tt
  | S n =>
    b ← DataOutput.getValueAtPos startBytes;
    DataOutput.updateValueAtPos cursor b;;
    copy_bytes n (cursor + 1) (startBytes + 1)
  end.

(** [readInt] of a pointer. *)
Fixpoint load_int (n : nat) (buffer acc : Z) : ST DataOutput.t Z :=
  match n with
  | O => mret acc
  | S n => b ← DataOutput.getValueAtPos buffer; load_int n (buffer + 1) (Z.lor (Z.shiftl acc 8) b)
  end.

(** The object is written, then moved over its code and its length. *)
Definition writeBytesOnly (se : Object_) : ST DataOutput.t unit :=
  d ← st_get;
  let cursor := DataOutput.getBufferLength d in
  writeObject se;;
  code ← DataOutput.getValueAtPos (cursor + 1);
  if code =? 0xFF then DataOutput.rewindCursor 2
  else if 252 <? code then
    if code =? 0xFE then
      val ← load_int 2 (cursor + 2) 0;
      DataOutput.rewindCursor 4;;
      copy_bytes (Z.to_nat val) cursor (cursor + 4)
    else
      val ← load_int 4 (cursor + 2) 0;
      DataOutput.rewindCursor 6;;
      copy_bytes (Z.to_nat (s32 val)) cursor (cursor + 6)
  else
    DataOutput.rewindCursor 2;;
    copy_bytes (Z.to_nat code) cursor (cursor + 2).

(** [toDelta] of an object that is no [Delta] is a call through a null pointer. *)
Definition write_delta (se : Object_) : ST DataOutput.t unit :=
  match se with
  | Serializable.UserObject u => match toDelta u with Some w => w | None => st_throw UndefinedBehaviour end
  | _ => st_throw UndefinedBehaviour
  end.

Definition write_key_list (keys : list Object_) : ST DataOutput.t unit :=
  DataOutput.write_int8 DSCode.CacheableObjectArray;;
  DataOutput.writeArrayLen (s32 (length_ keys));;
  DataOutput.write_int8 DSCode.Class_;;
  DataOutput.writeString_string to_utf16 Serializable.object_class;;
  st_iter writeObject keys.

(** The size is written when it is known. *)
Definition sized (isObject : Z) (content : ST DataOutput.t unit) : ST DataOutput.t unit :=
  DataOutput.write_int8 isObject;;
  before ← st_get;
  content;;
  after ← st_get;
  let sizeOfSerializedObj := u64 (DataOutput.getBufferLength after - DataOutput.getBufferLength before) in
  DataOutput.rewindCursor (sizeOfSerializedObj + 1 + 4);;
  DataOutput.writeInt_int32 (s32 sizeOfSerializedObj);;
  DataOutput.advanceCursor (sizeOfSerializedObj + 1).

Definition writeObjectPart (se : Object_) (isDelta callToData : bool) (getAllKeyList : option (list Object_)) : M unit := on_request (
  DataOutput.writeInt_int32 0;;
  match se with
  | Serializable.CacheableBytes [] => DataOutput.write_int8 2
  | Serializable.CacheableBytes _ => sized 0 (if isDelta then write_delta se else writeBytesOnly se)
  | _ =>
    sized (if isDelta then 0 else 1)
      (if isDelta then write_delta se
       else if callToData then Serializable.toData to_utf16 user se
       else match getAllKeyList with Some keys => write_key_list keys | None => writeObject se end)
  end).
Definition writeObject_part (se : Object_) : M unit := writeObjectPart se false false None.

Definition writeHeader (msgType numOfParts : Z) : M unit :=
  modify (fun m => match m_tcdm m with
                   | Some on => set_isSecurityOn (on && isUserInitiativeOps m && negb (m_isMetaRegion m)) m
                   | None => m
                   end);;
  m ← get;
  let earlyAck := match m_tcdm m with Some _ => if m_isSecurityOn m then 2 else 0 | None => 0 end in
  on_request (DataOutput.writeInt_int32 (s32 msgType);; DataOutput.writeInt_int32 0;; DataOutput.writeInt_int32 (s32 numOfParts));;
  modify (set_txId (default (-1) txState));;
  m ← get;
  on_request (DataOutput.writeInt_int32 (m_txId m);; DataOutput.write_int8 earlyAck).

Definition updateHeaderForRetry : M unit := on_request (
  earlyAck ← DataOutput.getValueAtPos 16;
  DataOutput.updateValueAtPos 16 (Z.lor earlyAck 4)).

Definition writeRegionPart (regionName : list Z) : M unit :=
  let len := s32 (length_ regionName) in
  on_request (
    DataOutput.writeInt_int32 len;;
    DataOutput.write_int8 0;;
    DataOutput.writeBytesOnly regionName (u64 len)).

(** Nothing but a length for an empty string. *)
Definition writeStringPart (str : list Z) : M unit :=
  if (length str =? 0)%nat then on_request (DataOutput.writeInt_uint16 0)
  else
    utf16 ← st_lift (to_utf16 str);
    let jmutf8 := JavaModifiedUtf8.fromString utf16 in
    let encodedLen := s32 (length_ jmutf8) in
    on_request (
      DataOutput.writeInt_int32 encodedLen;;
      DataOutput.ensureCapacity (u64 encodedLen);;
      DataOutput.write_int8 0;;
      DataOutput.writeBytesOnly jmutf8 (u64 encodedLen)).

Definition writeEventIdPart (reserveSize : Z) (fullValueAfterDeltaFail : bool) : M unit :=
  eid ← on_counters (EventId.construct thread true (Z.to_nat (u32 reserveSize)) fullValueAfterDeltaFail);
  on_request (EventId.writeIdsData eid).

Definition writeMessageLength : M unit := on_request (
  d ← st_get;
  let totalLen := DataOutput.getBufferLength d in
  let msgLen := u64 (totalLen - kHeaderLength) in
  DataOutput.rewindCursor (u64 (totalLen - 4));;
  DataOutput.writeInt_int32 (s32 msgLen);;
  DataOutput.advanceCursor (u64 (totalLen - 8))).
End Writers.
End Message.
End TcrMessage.
