(* ===== verification/TcrRequests.v ===== *)
(** The requests (src/cppcache/src/TcrMessage.cpp, the constructors of the subclasses of
    TcrMessage): which parts each of them has. Pointers to objects are objects with a null
    value, pointers to regions and vectors are options; a hash map or set is its elements in
    the order of iteration. *)
From S2P Require Import Prelude DataOutput EventId EventIdMap CacheableBuiltins TcrMessage.
Import TcrMessage.

Module Requests.

Section Requests.
Context {U : Type} `{Allocator} (to_utf16 : list Z -> outcome (list Z)) (user : Serializable.UserTypes U)
  (toDelta : U -> option (ST DataOutput.t unit)) (thread : nat) (txState : option Z).
Abbreviation Object_ := (Serializable.t U).
Abbreviation nullptr := (@Serializable.nullptr U).
Abbreviation writeHeader := (writeHeader (U := U) txState).
Abbreviation writeObjectPart := (writeObjectPart to_utf16 user toDelta).
Abbreviation writeObject_part := (writeObject_part to_utf16 user toDelta).
Abbreviation writeStringPart := (writeStringPart (U := U) to_utf16).
Abbreviation writeEventIdPart := (writeEventIdPart (U := U) thread).
Abbreviation Message := (M (U := U) unit).

Definition when (b : bool) (m : Message) : Message := if b then m else mret tt.
Definition set (f : t (U := U) -> t (U := U)) : Message := modify f.
Definition flag (b : bool) : Z := if b then 1 else 0.

Definition region_name (region : option Region) : list Z :=
  match region with Some r => getFullPath r | None => INVALID_REGION_NAME end.

(** [writeObjectPart(aCallbackArgument)] if there is one. *)
Definition callback (aCallbackArgument : Object_) : Message := when (negb (is_null aCallbackArgument)) (writeObject_part aCallbackArgument).
Definition has (o : Object_) : Z := flag (negb (is_null o)).

(** [writeMillisecondsPart(m_messageResponseTimeout)] if it is not negative. *)
Definition response_timeout : Message :=
  m ← get; when (0 <=? m_messageResponseTimeout m) (writeMillisecondsPart (m_messageResponseTimeout m)).
Definition timeout_parts : M (U := U) Z := m ← get; mret (flag (0 <=? m_messageResponseTimeout m)).

Definition start (msgType : Z) (connectionDM : option bool) : Message :=
  set (set_msgType msgType);; set (set_tcdm connectionDM).
Definition for_region (region : option Region) : Message :=
  set (set_regionName (region_name region));; set (set_region region).

(** *** Regions *)

Definition TcrMessageDestroyRegion (region : option Region) (aCallbackArgument : Object_) (messageResponsetimeout : Z)
    (connectionDM : option bool) : Message :=
  start MsgType.DESTROY_REGION connectionDM;;
  for_region region;;
  set (set_messageResponseTimeout messageResponsetimeout);;
  n ← timeout_parts;
  let numOfParts := 1 + has aCallbackArgument + 1 + n in
  writeHeader MsgType.DESTROY_REGION numOfParts;;
  writeRegionPart (region_name region);;
  writeEventIdPart 0 false;;
  callback aCallbackArgument;;
  response_timeout;;
  writeMessageLength.

Definition TcrMessageClearRegion (region : option Region) (aCallbackArgument : Object_) (messageResponsetimeout : Z)
    (connectionDM : option bool) : Message :=
  start MsgType.CLEAR_REGION connectionDM;;
  for_region region;;
  set (set_messageResponseTimeout messageResponsetimeout);;
  set (set_isSecurityOn false);; set (set_isSecurityHeaderAdded false);;
  n ← timeout_parts;
  let numOfParts := 1 + has aCallbackArgument + 1 + n in
  writeHeader MsgType.CLEAR_REGION numOfParts;;
  writeRegionPart (region_name region);;
  writeEventIdPart 0 false;;
  callback aCallbackArgument;;
  response_timeout;;
  writeMessageLength.

Definition TcrMessageCreateRegion (str1 str2 : list Z) (isDurable receiveValues : bool) (connectionDM : option bool) : Message :=
  start MsgType.CREATE_REGION connectionDM;;
  set (set_isDurable isDurable);; set (set_receiveValues receiveValues);;
  writeHeader MsgType.CREATE_REGION 2;;
  writeRegionPart str1;;
  writeRegionPart str2;;
  writeMessageLength;;
  set (set_regionName str2).

(** *** Queries *)

(** The common body of a query and of stopping and closing a continuous query. *)
Definition query_message (msgType : Z) (regionName : list Z) (messageResponsetimeout : Z) (connectionDM : option bool)
    (fields : Message) : Message :=
  start msgType connectionDM;;
  set (set_regionName regionName);;
  set (set_messageResponseTimeout messageResponsetimeout);; set (set_region None);;
  fields;;
  n ← timeout_parts;
  writeHeader msgType (1 + 1 + n);;
  writeRegionPart regionName;;
  writeEventIdPart 0 false;;
  response_timeout;;
  writeMessageLength.

Definition TcrMessageQuery (regionName : list Z) (messageResponsetimeout : Z) (connectionDM : option bool) : Message :=
  query_message MsgType.QUERY regionName messageResponsetimeout connectionDM (mret tt).
Definition TcrMessageStopCQ (regionName : list Z) (messageResponsetimeout : Z) (connectionDM : option bool) : Message :=
  query_message MsgType.STOPCQ_MSG_TYPE regionName messageResponsetimeout connectionDM
    (set (set_isSecurityHeaderAdded false);; set (set_isMetaRegion false)).
Definition TcrMessageCloseCQ (regionName : list Z) (messageResponsetimeout : Z) (connectionDM : option bool) : Message :=
  query_message MsgType.CLOSECQ_MSG_TYPE regionName messageResponsetimeout connectionDM (mret tt).

(** [paramList->size()] comes before the test for null. *)
Definition TcrMessageQueryWithParameters (regionName : list Z) (paramList : option (list Object_)) (messageResponsetimeout : Z)
    (connectionDM : option bool) : Message :=
  start MsgType.QUERY_WITH_PARAMETERS connectionDM;;
  set (set_regionName regionName);;
  set (set_messageResponseTimeout messageResponsetimeout);; set (set_region None);;
  match paramList with
  | None => st_throw UndefinedBehaviour
  | Some params =>
    writeHeader MsgType.QUERY_WITH_PARAMETERS (u32 (4 + u32 (length_ params)));;
    writeRegionPart regionName;;
    writeIntPart (u32 (length_ params));;
    writeIntPart 15;;
    response_timeout;;
    st_iter writeObject_part params;;
    writeMessageLength
  end.

Definition TcrMessageGetDurableCqs (connectionDM : option bool) : Message :=
  start MsgType.GETDURABLECQS_MSG_TYPE connectionDM;; set (set_region None);;
  writeHeader MsgType.GETDURABLECQS_MSG_TYPE 1;;
  writeBytePart 0;;
  writeMessageLength.

Definition execute_cq (msgType : Z) (str1 str2 : list Z) (state : CqState) (isDurable : bool) (connectionDM : option bool) : Message :=
  start msgType connectionDM;; set (set_isDurable isDurable);;
  writeHeader msgType 5;;
  writeStringPart str1;;
  writeStringPart str2;;
  writeIntPart (CqState_code state);;
  writeBytePart (flag isDurable);;
  writeBytePart 1;;
  writeMessageLength;;
  set (set_regionName str1);; set (set_regex str2).
Definition TcrMessageExecuteCq := execute_cq MsgType.EXECUTECQ_MSG_TYPE.
Definition TcrMessageExecuteCqWithIr := execute_cq MsgType.EXECUTECQ_WITH_IR_MSG_TYPE.

(** *** Entries *)

Definition require_key (key : Object_) : Message := when (is_null key) (st_throw IllegalArgumentException).

Definition TcrMessageContainsKey (region : option Region) (key aCallbackArgument : Object_) (isContainsKey : bool)
    (connectionDM : option bool) : Message :=
  start MsgType.CONTAINS_KEY connectionDM;;
  for_region region;;
  require_key key;;
  writeHeader MsgType.CONTAINS_KEY (2 + has aCallbackArgument + 1);;
  writeRegionPart (region_name region);;
  writeObject_part key;;
  writeIntPart (if isContainsKey then 0 else 1);;
  callback aCallbackArgument;;
  writeMessageLength.

Definition callback_flagged (aCallbackArgument : Object_) : Message :=
  when (negb (is_null aCallbackArgument)) (set (set_isCallBackArguement true);; writeObject_part aCallbackArgument).

Definition TcrMessageRequest (region : option Region) (key aCallbackArgument : Object_) (connectionDM : option bool) : Message :=
  start MsgType.REQUEST connectionDM;; set (set_key key);;
  for_region region;;
  require_key key;;
  writeHeader MsgType.REQUEST (2 + has aCallbackArgument + 1 - 1);;
  writeRegionPart (region_name region);;
  writeObject_part key;;
  callback_flagged aCallbackArgument;;
  writeMessageLength.

Definition TcrMessageInvalidate (region : option Region) (key aCallbackArgument : Object_) (connectionDM : option bool) : Message :=
  start MsgType.INVALIDATE connectionDM;; set (set_key key);;
  for_region region;;
  require_key key;;
  writeHeader MsgType.INVALIDATE (2 + has aCallbackArgument + 1);;
  writeRegionPart (region_name region);;
  writeObject_part key;;
  writeEventIdPart 0 false;;
  callback_flagged aCallbackArgument;;
  writeMessageLength.

Definition TcrMessageDestroy (region : option Region) (key value : Object_) (isUserNullValue : bool) (aCallbackArgument : Object_)
    (connectionDM : option bool) : Message :=
  start MsgType.DESTROY connectionDM;; set (set_key key);;
  for_region region;;
  require_key key;;
  let numOfParts := 2 + has aCallbackArgument + 1 + 2 in
  if negb (is_null value) || isUserNullValue then
    writeHeader MsgType.DESTROY numOfParts;;
    writeRegionPart (region_name region);;
    writeObject_part key;;
    writeObject_part value;;
    writeObject_part (Serializable.CacheableByte 8);;
    writeEventIdPart 0 false;;
    callback aCallbackArgument;;
    writeMessageLength
  else
    writeHeader MsgType.DESTROY numOfParts;;
    writeRegionPart (region_name region);;
    writeObject_part key;;
    writeObject_part nullptr;;
    writeObject_part nullptr;;
    writeEventIdPart 0 false;;
    callback aCallbackArgument;;
    writeMessageLength.

Definition TcrMessagePut (region : option Region) (key value aCallbackArgument : Object_) (isDelta : bool)
    (connectionDM : option bool) (isMetaRegion fullValueAfterDeltaFail : bool) (regionName : option (list Z)) : Message :=
  set (set_isMetaRegion isMetaRegion);;
  start MsgType.PUT connectionDM;; set (set_key key);;
  name ← st_lift (match region, regionName with
                  | Some r, _ => Ok (getFullPath r)
                  | None, Some n => Ok n
                  | None, None => Throw UndefinedBehaviour
                  end);
  set (set_regionName name);; set (set_region region);;
  require_key key;;
  writeHeader MsgType.PUT (5 + has aCallbackArgument + 1 + 1);;
  writeRegionPart name;;
  writeObject_part nullptr;;
  writeIntPart 0;;
  writeObject_part key;;
  writeObject_part (Serializable.CacheableBoolean isDelta);;
  writeObjectPart value isDelta false None;;
  writeEventIdPart 0 fullValueAfterDeltaFail;;
  callback aCallbackArgument;;
  writeMessageLength.

(** *** Bulk operations *)

Definition region_flags (r : Region) : Z :=
  Z.lor (if getCachingEnabled r then 0 else kFlagEmpty) (if getConcurrencyChecksEnabled r then kFlagConcurrencyChecks else 0).

Definition TcrMessagePutAll (region : Region) (map : list (Object_ * Object_)) (messageResponsetimeout : Z)
    (connectionDM : option bool) (aCallbackArgument : Object_) : Message :=
  set (set_tcdm connectionDM);;
  for_region (Some region);;
  set (set_messageResponseTimeout messageResponsetimeout);;
  let msgType := if is_null aCallbackArgument then MsgType.PUTALL else MsgType.PUT_ALL_WITH_CALLBACK in
  let numOfParts := u32 ((if is_null aCallbackArgument then 5 else 6) + u32 (u32 (length_ map) * 2)) in
  set (set_msgType msgType);;
  n ← timeout_parts;
  writeHeader msgType (u32 (numOfParts + n));;
  writeRegionPart (getFullPath region);;
  writeEventIdPart (s32 (u32 (u32 (length_ map) - 1))) false;;
  writeIntPart 0;;
  writeIntPart (region_flags region);;
  writeIntPart (s32 (length_ map));;
  callback aCallbackArgument;;
  st_iter (fun iter => writeObject_part iter.1;; writeObject_part iter.2) map;;
  response_timeout;;
  writeMessageLength.

Definition TcrMessageRemoveAll (region : Region) (keys : list Object_) (aCallbackArgument : Object_) (connectionDM : option bool) : Message :=
  start MsgType.REMOVE_ALL connectionDM;;
  for_region (Some region);;
  n ← timeout_parts;
  writeHeader MsgType.REMOVE_ALL (u32 (u32 (5 + u32 (length_ keys)) + n));;
  writeRegionPart (getFullPath region);;
  writeEventIdPart (s32 (length_ keys - 1)) false;;
  writeIntPart (region_flags region);;
  writeObject_part aCallbackArgument;;
  writeIntPart (s32 (length_ keys));;
  st_iter writeObject_part keys;;
  writeMessageLength.

Definition TcrMessageGetAll (region : Region) (keys : option (list Object_)) (connectionDM : option bool) (aCallbackArgument : Object_) : Message :=
  start MsgType.GET_ALL_70 connectionDM;;
  set (set_keyList keys);; set (set_callbackArgument aCallbackArgument);;
  for_region (Some region);;
  let msgType := if is_null aCallbackArgument then MsgType.GET_ALL_70 else MsgType.GET_ALL_WITH_CALLBACK in
  set (set_msgType msgType);;
  writeHeader msgType 3;;
  writeRegionPart (getFullPath region).

Definition InitializeGetallMsg (aCallbackArgument : Object_) : Message :=
  m ← get;
  writeObjectPart nullptr false false (m_keyList m);;
  (if is_null aCallbackArgument then writeIntPart 0 else writeObject_part aCallbackArgument);;
  writeMessageLength.

(** *** Interest *)

(** Two parts of raw bytes: whether values are received, and the data policy. *)
Definition interest_bytes (receiveValues isCachingEnabled : bool) : Message :=
  writeObject_part (Serializable.CacheableBytes [flag (negb receiveValues)]);;
  writeObject_part (Serializable.CacheableBytes [flag isCachingEnabled; 0]).

Definition TcrMessageRegisterInterestList (region : option Region) (keys : list Object_) (isDurable isCachingEnabled receiveValues : bool)
    (interestPolicy : InterestResultPolicy) (connectionDM : option bool) : Message :=
  start MsgType.REGISTER_INTEREST_LIST connectionDM;; set (set_keyList (Some keys));;
  for_region region;;
  set (set_isDurable isDurable);; set (set_receiveValues receiveValues);; set (set_interestPolicy interestPolicy);;
  when (match interestPolicy with KEYS => true | _ => false end) (st_throw IllegalArgumentException);;
  writeHeader MsgType.REGISTER_INTEREST_LIST 6;;
  writeRegionPart (region_name region);;
  writeInterestResultPolicyPart interestPolicy;;
  writeBytePart (flag isDurable);;
  st_iter require_key keys;;
  writeObject_part (Serializable.CacheableList Serializable.CacheableArrayList keys);;
  interest_bytes receiveValues isCachingEnabled;;
  writeMessageLength.

(** The assertion that there are keys is for debugging only. *)
Definition TcrMessageUnregisterInterestList (region : option Region) (keys : list Object_) (isDurable : bool) (connectionDM : option bool) : Message :=
  start MsgType.UNREGISTER_INTEREST_LIST connectionDM;; set (set_keyList (Some keys));;
  for_region region;;
  set (set_isDurable isDurable);;
  let numberOfKeys := u32 (length_ keys) in
  writeHeader MsgType.UNREGISTER_INTEREST_LIST (u32 (4 + numberOfKeys));;
  writeRegionPart (region_name region);;
  writeBytePart 0;;
  writeBytePart (flag isDurable);;
  writeIntPart (s32 numberOfKeys);;
  st_iter (fun key => require_key key;; writeObject_part key) (take (Z.to_nat numberOfKeys) keys);;
  writeMessageLength.

Definition TcrMessageRegisterInterestRegex (regionName regex : list Z) (interestPolicy : InterestResultPolicy)
    (isDurable isCachingEnabled receiveValues : bool) (connectionDM : option bool) : Message :=
  start MsgType.REGISTER_INTEREST connectionDM;;
  set (set_isDurable isDurable);; set (set_receiveValues receiveValues);;
  set (set_regionName regionName);; set (set_regex regex);; set (set_interestPolicy interestPolicy);;
  writeHeader MsgType.REGISTER_INTEREST 7;;
  writeRegionPart regionName;;
  writeIntPart kREGULAR_EXPRESSION;;
  writeInterestResultPolicyPart interestPolicy;;
  writeBytePart (flag isDurable);;
  writeRegionPart regex;;
  interest_bytes receiveValues isCachingEnabled;;
  writeMessageLength.

Definition TcrMessageUnregisterInterestRegex (regionName regex : list Z) (isDurable : bool) (connectionDM : option bool) : Message :=
  start MsgType.UNREGISTER_INTEREST connectionDM;;
  set (set_isDurable isDurable);; set (set_regionName regionName);; set (set_regex regex);;
  writeHeader MsgType.UNREGISTER_INTEREST 5;;
  writeRegionPart regionName;;
  writeIntPart kREGULAR_EXPRESSION;;
  writeRegionPart regex;;
  writeBytePart 0;;
  writeBytePart (flag isDurable);;
  writeMessageLength.

(** *** Transactions and the connection *)

(** A message of one part that is a byte. *)
Definition byte_message (msgType byteValue : Z) : Message :=
  set (set_msgType msgType);;
  writeHeader msgType 1;;
  writeBytePart byteValue;;
  writeMessageLength.

Definition TcrMessageTxSynchronization (ordinal txid status : Z) : Message :=
  set (set_msgType MsgType.TX_SYNCHRONIZATION);;
  writeHeader MsgType.TX_SYNCHRONIZATION (if ordinal =? 1 then 3 else 2);;
  writeIntPart ordinal;;
  writeIntPart txid;;
  when (ordinal =? 1) (writeIntPart status);;
  writeMessageLength.

Definition TcrMessageClientReady : Message := byte_message MsgType.CLIENT_READY 0.
Definition TcrMessageCommit : Message := byte_message MsgType.COMMIT 0.
Definition TcrMessageRollback : Message := byte_message MsgType.ROLLBACK 0.
Definition TcrMessageTxFailover : Message := byte_message MsgType.TX_FAILOVER 0.
Definition TcrMessageMakePrimary (processedMarker : bool) : Message := byte_message MsgType.MAKE_PRIMARY (flag processedMarker).

Definition TcrMessagePing : Message :=
  set (set_msgType MsgType.PING);;
  writeHeader MsgType.PING 0;;
  writeMessageLength.

Definition TcrMessageCloseConnection (keepAlive : bool) : Message :=
  set (set_msgType MsgType.CLOSE_CONNECTION);;
  writeHeader MsgType.CLOSE_CONNECTION 1;;
  on_request (DataOutput.writeInt_int32 1;; DataOutput.writeBoolean false;; DataOutput.writeBoolean keepAlive);;
  writeMessageLength.

Definition TcrMessageClientMarker (decodeAll : bool) : Message :=
  set (set_msgType MsgType.CLIENT_MARKER);; set (set_decodeAll decodeAll).

(** Of an entry of the duplicate detection: [getMemId], [getMemIdLen], [getThrId], [getSeqNum]. *)
Definition ack_id (entry : EventIdMap.entry) : EventId.t :=
  EventId.create (default [] (EventSource.m_srcId entry.1)) (EventSource.getMemIdLen entry.1) (EventSource.m_thrId entry.1)
    (EventSequence.m_seqNum entry.2).

Definition TcrMessagePeriodicAck (entries : list EventIdMap.entry) : Message :=
  set (set_msgType MsgType.PERIODIC_ACK);;
  writeHeader MsgType.PERIODIC_ACK (u32 (length_ entries));;
  st_iter (fun entry => writeObject_part (Serializable.EventIdObject (ack_id entry))) entries;;
  writeMessageLength.

Definition TcrMessageRequestEventValue (eventId : Object_) : Message :=
  set (set_msgType MsgType.REQUEST_EVENT_VALUE);;
  writeHeader MsgType.REQUEST_EVENT_VALUE 1;;
  writeObject_part eventId;;
  writeMessageLength.

(** *** Functions *)

Definition TcrMessageExecuteFunction (funcName : list Z) (args : Object_) (getResult : Z) (connectionDM : option bool) (timeout : Z) : Message :=
  start MsgType.EXECUTE_FUNCTION connectionDM;; set (set_hasResult getResult);;
  writeHeader MsgType.EXECUTE_FUNCTION 3;;
  writeByteAndTimeOutPart getResult timeout;;
  writeRegionPart funcName;;
  writeObject_part args;;
  writeMessageLength.

(** [failedNodes] is a [CacheableHashSet]. *)
Definition failed_nodes_parts (failedNodes : option (list Object_)) : Message :=
  match failedNodes with
  | Some nodes =>
    writeIntPart (s32 (length_ nodes));; writeObject_part (Serializable.CacheableSet Serializable.CacheableHashSet nodes)
  | None => writeIntPart 0
  end.

Definition function_parts (routingObj failedNodes : option (list Object_)) : Z :=
  u32 (u32 (u32 (6 + match routingObj with Some l => u32 (length_ l) | None => 0 end) + 2)
       + match failedNodes with Some _ => 1 | None => 0 end).

Definition dynamic_cast_key (o : Object_) : Object_ := if Serializable.is_key user o then o else nullptr.

Definition TcrMessageExecuteRegionFunction (funcName : list Z) (region : option Region) (args : Object_) (routingObj : option (list Object_))
    (getResult : Z) (failedNodes : option (list Object_)) (timeout : Z) (connectionDM : option bool) (reExecute : Z) : Message :=
  start MsgType.EXECUTE_REGION_FUNCTION connectionDM;;
  for_region region;;
  set (set_hasResult getResult);;
  (match routingObj with Some [k] => set (set_key (dynamic_cast_key k)) | _ => mret tt end);;
  writeHeader MsgType.EXECUTE_REGION_FUNCTION (function_parts routingObj failedNodes);;
  writeByteAndTimeOutPart getResult timeout;;
  writeRegionPart (region_name region);;
  writeRegionPart funcName;;
  writeObject_part args;;
  writeObject_part nullptr;;
  writeBytePart reExecute;;
  (match routingObj with
   | Some l => writeIntPart (s32 (length_ l));; st_iter writeObject_part l
   | None => writeIntPart 0
   end);;
  failed_nodes_parts failedNodes;;
  writeMessageLength.

(** [dynamic_pointer_cast<CacheableInt32>(itr)->value()]. *)
Definition write_bucket (itr : Object_) : Message :=
  match itr with Serializable.CacheableInt32 n => writeIntPart n | _ => st_throw UndefinedBehaviour end.

Definition TcrMessageExecuteRegionFunctionSingleHop (funcName : list Z) (region : option Region) (args : Object_)
    (routingObj : option (list Object_)) (getResult : Z) (failedNodes : option (list Object_)) (allBuckets : bool) (timeout : Z)
    (connectionDM : option bool) : Message :=
  start MsgType.EXECUTE_REGION_FUNCTION_SINGLE_HOP connectionDM;;
  for_region region;;
  set (set_hasResult getResult);;
  writeHeader MsgType.EXECUTE_REGION_FUNCTION_SINGLE_HOP (function_parts routingObj failedNodes);;
  writeByteAndTimeOutPart getResult timeout;;
  writeRegionPart (region_name region);;
  writeRegionPart funcName;;
  writeObject_part args;;
  writeObject_part nullptr;;
  writeBytePart (flag allBuckets);;
  (match routingObj with
   | Some l => writeIntPart (s32 (length_ l));; st_iter (if allBuckets then write_bucket else writeObject_part) l
   | None => writeIntPart 0
   end);;
  failed_nodes_parts failedNodes;;
  writeMessageLength.

(** *** Metadata and types *)

(** A message of one part that is a name. *)
Definition name_message (msgType : Z) (name : list Z) : Message :=
  set (set_msgType msgType);;
  writeHeader msgType 1;;
  writeRegionPart name;;
  writeMessageLength.
Definition TcrMessageGetClientPartitionAttributes := name_message MsgType.GET_CLIENT_PARTITION_ATTRIBUTES.
Definition TcrMessageGetClientPrMetadata := name_message MsgType.GET_CLIENT_PR_METADATA.
Definition TcrMessageSize := name_message MsgType.SIZE.
Definition TcrMessageGetFunctionAttributes (funcName : list Z) (connectionDM : option bool) : Message :=
  set (set_tcdm connectionDM);; name_message MsgType.GET_FUNCTION_ATTRIBUTES funcName.
Definition TcrMessageKeySet (funcName : list Z) (connectionDM : option bool) : Message :=
  set (set_tcdm connectionDM);; name_message MsgType.KEY_SET funcName.

Definition TcrMessageGetPdxIdForType (pdxType : Object_) (connectionDM : option bool) : Message :=
  start MsgType.GET_PDX_ID_FOR_TYPE connectionDM;;
  writeHeader MsgType.GET_PDX_ID_FOR_TYPE 1;;
  writeObjectPart pdxType false true None;;
  writeMessageLength.
Definition TcrMessageAddPdxType (pdxType : Object_) (connectionDM : option bool) (pdxTypeId : Z) : Message :=
  start MsgType.ADD_PDX_TYPE connectionDM;;
  writeHeader MsgType.ADD_PDX_TYPE 2;;
  writeObjectPart pdxType false true None;;
  writeIntPart pdxTypeId;;
  writeMessageLength.
Definition TcrMessageGetPdxIdForEnum (pdxType : Object_) (connectionDM : option bool) : Message :=
  start MsgType.GET_PDX_ID_FOR_ENUM connectionDM;;
  writeHeader MsgType.GET_PDX_ID_FOR_ENUM 1;;
  writeObject_part pdxType;;
  writeMessageLength.
Definition TcrMessageAddPdxEnum (pdxType : Object_) (connectionDM : option bool) (pdxTypeId : Z) : Message :=
  start MsgType.ADD_PDX_ENUM connectionDM;;
  writeHeader MsgType.ADD_PDX_ENUM 2;;
  writeObject_part pdxType;;
  writeIntPart pdxTypeId;;
  writeMessageLength.

Definition id_message (msgType typeId : Z) (connectionDM : option bool) : Message :=
  start msgType connectionDM;;
  writeHeader msgType 1;;
  on_request (DataOutput.writeInt_int32 4;; DataOutput.writeBoolean false;; DataOutput.writeInt_int32 typeId);;
  writeMessageLength.
Definition TcrMessageGetPdxTypeById := id_message MsgType.GET_PDX_TYPE_BY_ID.
Definition TcrMessageGetPdxEnumById := id_message MsgType.GET_PDX_ENUM_BY_ID.

(** *** Security *)

Definition TcrMessageRemoveUserAuth (keepAlive : bool) (connectionDM : option bool) : Message :=
  start MsgType.REMOVE_USER_AUTH connectionDM;;
  writeHeader MsgType.REMOVE_USER_AUTH 1;;
  writeObject_part (Serializable.CacheableBytes [flag keepAlive]);;
  writeMessageLength.

(** [creds] is a [Properties] object or null. *)
Definition TcrMessageUserCredential (creds : Object_) (connectionDM : option bool) : Message :=
  start MsgType.USER_CREDENTIAL_MESSAGE connectionDM;; set (set_creds creds).

(** What is written to an output of its own, as a byte array. *)
Definition bytes_of (write : ST DataOutput.t unit) : outcome Object_ :=
  '(dOut, _) ← DataOutput.construct [];
  '(_, dOut) ← write dOut;
  match DataOutput.getBuffer dOut with
  | Some bytes => Ok (Serializable.CacheableBytes (s8 <$> bytes))
  | None => Throw UndefinedBehaviour
  end.

Definition createUserCredentialMessage : Message :=
  on_request DataOutput.reset;;
  set (set_isSecurityHeaderAdded false);;
  m ← get;
  writeHeader (m_msgType m) 1;;
  credBytes ← st_lift (bytes_of (if is_null (m_creds m) then mret tt else Serializable.toData to_utf16 user (m_creds m)));
  writeObject_part credBytes;;
  writeMessageLength.

(** [addSecurityPart] with the ids that [write] puts into the part. *)
Definition addSecurityPart_with (write : ST DataOutput.t unit) : Message :=
  m ← get;
  when (m_isSecurityHeaderAdded m)
    (on_request (DataOutput.rewindCursor (m_securityHeaderLength m));;
     writeMessageLength;;
     set (set_securityHeaderLength 0);; set (set_isSecurityHeaderAdded false));;
  set (set_isSecurityHeaderAdded true);;
  bytes ← st_lift (bytes_of write);
  writeObject_part bytes;;
  writeMessageLength;;
  set (set_securityHeaderLength (4 + 1 + match bytes with Serializable.CacheableBytes l => length_ l | _ => 0 end)).
Definition addSecurityPart (connectionId unique_id : Z) : Message :=
  addSecurityPart_with (DataOutput.writeInt_int64 connectionId;; DataOutput.writeInt_int64 unique_id).
Definition addSecurityPart_id (connectionId : Z) : Message :=
  addSecurityPart_with (DataOutput.writeInt_int64 connectionId).

End Requests.
End Requests.
