(* ===== verification/MessageFacts.v ===== *)
(** What the writers of a message put into its output: parts, each with its size in front, and
    a header with the length of all of them. *)
From S2P Require Import Prelude JavaModifiedUtf8 DataOutput DataOutputFacts DataInput DataInputFacts Utf8Strings EventId EventIdMap PdxType PdxStreams PdxPositions PdxWriting CacheableString CacheableStringFacts CacheableBuiltins BuiltinsFacts TcrMessage TcrRequests.
Import TcrMessage.
#[local] Arguments be_bytes : simpl never.
Local Open Scope Z_scope.

(** *** Writing below the end of the output *)

(** The cursor is behind [pre]; the cells behind it that have been written before are [post]. *)
Record at_cursor (d : DataOutput.t) (pre post : list (option Z)) : Prop := {
  cursor_wf : wf d;
  cursor_pos : DataOutput.m_buf d = Z.of_nat (length pre);
  cursor_room : Z.of_nat (length pre + length post) <= DataOutput.m_size d;
  cursor_cells : cells d (length pre + length post) = pre ++ post
}.

Lemma cells_prefix d n k : take n (cells d (n + k)) = cells d n.
Proof. unfold cells. rewrite take_take, Nat.min_l by lia. apply list_eq. intros i.
  destruct (decide (i < n)%nat) as [Hi|Hi]; [|rewrite !lookup_ge_None_2; [done|rewrite length_take; lia..]].
  rewrite !lookup_take_lt by done. destruct (decide (i < length (DataOutput.m_bytes d))%nat).
  - by rewrite !lookup_app_l by lia.
  - rewrite !lookup_app_r by lia. by rewrite !lookup_replicate_2 by lia.
Qed.

Lemma cursor_end d pre : wf d -> out_is d pre -> at_cursor d pre [].
Proof.
  intros Hw [Hb Hc]. pose proof Hw as [_ [_ Hm] _ _]. constructor; [done|done| |].
  - rewrite Nat.add_0_r. lia.
  - by rewrite Nat.add_0_r, app_nil_r.
Qed.

Lemma cursor_out d pre post : at_cursor d pre post -> out_is d pre.
Proof. intros [Hw Hb _ Hc]. split; [done|]. rewrite <- (cells_prefix d (length pre) (length post)), Hc. by rewrite take_app_length. Qed.

(** Moving the cursor over cells that are there. *)
Lemma cursor_move d pre mid post b : at_cursor d (pre ++ mid) post ->
  b = Z.of_nat (length pre) -> at_cursor (DataOutput.mk (DataOutput.m_bytes d) b (DataOutput.m_size d) (DataOutput.m_haveBigBuffer d) (DataOutput.bigBufferLocks d)) pre (mid ++ post).
Proof.
  intros [[H1 H2 H3 H4] Hb Hr Hc] ->. rewrite length_app in *. constructor; cbn [DataOutput.m_buf DataOutput.m_size].
  - constructor; simpl; try done. lia.
  - done.
  - rewrite length_app. lia.
  - change (cells (DataOutput.mk _ _ _ _ _) ?k) with (cells d k). rewrite length_app, Nat.add_assoc, Hc. by rewrite app_assoc.
Qed.

Lemma rewind_spec d pre mid post n : at_cursor d (pre ++ mid) post -> n = Z.of_nat (length mid) ->
  exists d', DataOutput.rewindCursor n d = Ok (tt, d') /\ at_cursor d' pre (mid ++ post).
Proof.
  intros Hd ->. eexists. split; [done|]. apply cursor_move; [done|]. destruct Hd as [_ Hb _ _]. rewrite Hb, length_app. lia.
Qed.

Section WithAllocator.
Context `{AllocatorOk}.

Lemma capacity_there d pre post n : at_cursor d pre post -> 0 <= n <= Z.of_nat (length post) -> DataOutput.ensureCapacity n d = Ok (tt, d).
Proof.
  intros [[H1 H2 H3 H4] Hb Hr Hc] Hn. unfold DataOutput.ensureCapacity.
  rewrite (wrapU_id 64) by (unfold in_u; lia). destruct (Z.ltb_spec (DataOutput.m_size d - DataOutput.m_buf d) n); [lia|done].
Qed.

Lemma advance_spec d pre mid post n : at_cursor d pre (mid ++ post) -> n = Z.of_nat (length mid) ->
  exists d', DataOutput.advanceCursor n d = Ok (tt, d') /\ at_cursor d' (pre ++ mid) post.
Proof.
  intros Hd ->. unfold DataOutput.advanceCursor. rewrite (st_bind_ok _ _ _ _ _ (capacity_there _ _ _ (Z.of_nat (length mid)) Hd ltac:(rewrite length_app; lia))).
  eexists. split; [done|]. destruct Hd as [[H1 H2 H3 H4] Hb Hr Hc]. rewrite length_app in *. constructor; cbn [DataOutput.m_buf DataOutput.m_size].
  - constructor; simpl; try done. lia.
  - rewrite length_app. lia.
  - rewrite length_app. lia.
  - change (cells (DataOutput.mk _ _ _ _ _) ?k) with (cells d k). rewrite length_app, <- Nat.add_assoc, Hc. by rewrite app_assoc.
Qed.

Lemma overwrite_byte d pre c post b : at_cursor d pre (c :: post) ->
  exists d', DataOutput.writeNoCheck b d = Ok (tt, d') /\ at_cursor d' (pre ++ [Some b]) post.
Proof.
  intros [[H1 H2 H3 H4] Hb Hr Hc]. cbn [length] in *. unfold DataOutput.writeNoCheck. rewrite Hb, Nat2Z.id.
  destruct (Z.leb_spec 0 (Z.of_nat (length pre))); [|lia].
  destruct (Z.ltb_spec (Z.of_nat (length pre)) (DataOutput.m_size d)); [|lia]. cbn [andb]. eexists. split; [done|].
  constructor; cbn [DataOutput.m_buf DataOutput.m_size]; rewrite ?length_app; cbn [length].
  - constructor; simpl; try done; [lia|]. rewrite length_set_cell. lia.
  - lia.
  - lia.
  - unfold cells. cbn [DataOutput.m_bytes]. rewrite cells_store by lia. unfold cells in Hc.
    replace (length pre + 1 + length post)%nat with (length pre + S (length post))%nat by lia. rewrite Hc.
    rewrite insert_app_r_alt, Nat.sub_diag by lia. cbn. by rewrite <- app_assoc.
Qed.

Lemma overwrite_int d pre hole post v : at_cursor d pre (hole ++ post) -> length hole = 4%nat ->
  exists d', DataOutput.writeInt_int32 v d = Ok (tt, d') /\ at_cursor d' (pre ++ (Some <$> be_bytes 4 (u32 v))) post.
Proof.
  intros Hd Hh. destruct hole as [|c0 [|c1 [|c2 [|c3 [|]]]]]; try done. cbn [app] in Hd.
  unfold DataOutput.writeInt_int32, DataOutput.writeInt_uint32.
  rewrite (st_bind_ok _ _ _ _ _ (capacity_there _ _ _ 4 Hd ltac:(cbn [length]; lia))).
  destruct (overwrite_byte _ _ _ _ (u8 (Z.shiftr (u32 v) 24)) Hd) as (d1 & E1 & H1).
  destruct (overwrite_byte _ _ _ _ (u8 (Z.shiftr (u32 v) 16)) H1) as (d2 & E2 & H2).
  destruct (overwrite_byte _ _ _ _ (u8 (Z.shiftr (u32 v) 8)) H2) as (d3 & E3 & H3).
  destruct (overwrite_byte _ _ _ _ (u8 (u32 v)) H3) as (d4 & E4 & H4).
  exists d4. unfold mbind, ST_bind. rewrite E1, E2, E3, E4. split; [done|]. by rewrite <- !app_assoc in H4.
Qed.

(** Goes back over a hole and what follows it, fills the hole and returns to the end. *)
Lemma patch_spec d pre hole post v n k : wf d -> out_is d (pre ++ hole ++ post) -> length hole = 4%nat ->
  n = Z.of_nat (length hole + length post) -> k = Z.of_nat (length post) ->
  exists d', (DataOutput.rewindCursor n;; DataOutput.writeInt_int32 v;; DataOutput.advanceCursor k) d = Ok (tt, d') /\
    wf d' /\ out_is d' (pre ++ (Some <$> be_bytes 4 (u32 v)) ++ post).
Proof.
  intros Hw Ho Hh -> ->. pose proof (cursor_end _ _ Hw Ho) as Hd.
  destruct (rewind_spec d pre (hole ++ post) [] _ Hd ltac:(rewrite length_app; done)) as (d1 & E1 & H1).
  rewrite app_nil_r in H1. destruct (overwrite_int d1 pre hole post v H1 Hh) as (d2 & E2 & H2).
  rewrite <- (app_nil_r post) in H2. destruct (advance_spec d2 _ post [] _ H2 eq_refl) as (d3 & E3 & H3).
  exists d3. unfold mbind, ST_bind. rewrite E1, E2, E3. split_and!; [done|apply H3|]. rewrite app_assoc. by eapply cursor_out.
Qed.

(** *** Contents *)

(** Appends [l]; [emits] with more room, which [writeBytesOnly] needs for a while. *)
Definition appends (m : ST DataOutput.t unit) (l : list Z) : Prop := forall d pre,
  wf d -> out_is d pre -> Z.of_nat (length pre + length l) + 64 <= 2 ^ 60 ->
  exists d', m d = Ok (tt, d') /\ wf d' /\ out_is d' (pre ++ (Some <$> l)).

Lemma emits_appends m l : emits m l -> appends m l.
Proof. intros Hm d pre Hw Ho Hl. destruct (Hm d pre Hw Ho ltac:(lia)) as (d' & E & ? & ? & _). by exists d'. Qed.

Lemma appends_bind m1 m2 l1 l2 : appends m1 l1 -> appends m2 l2 -> appends (m1;; m2) (l1 ++ l2).
Proof.
  intros H1 H2 d pre Hw Ho Hl. rewrite length_app in Hl. destruct (H1 d pre Hw Ho ltac:(lia)) as (d1 & E1 & Hw1 & Ho1).
  destruct (H2 d1 _ Hw1 Ho1) as (d2 & E2 & Hw2 & Ho2); [rewrite length_app, length_fmap; lia|].
  exists d2. rewrite (st_bind_ok _ _ _ _ _ E1). split_and!; [done..|]. by rewrite fmap_app, app_assoc.
Qed.

(** The cursor is at [pos] and the cells are [cs]. *)
Definition has_cells (d : DataOutput.t) (pos : nat) (cs : list (option Z)) : Prop := at_cursor d (take pos cs) (drop pos cs) /\ (pos <= length cs)%nat.

Lemma cursor_has d pre post : at_cursor d pre post -> has_cells d (length pre) (pre ++ post).
Proof. intros Hd. unfold has_cells. rewrite take_app_length, drop_app_length, length_app. split; [done|lia]. Qed.

Lemma has_cursor d pos cs pre post : has_cells d pos cs -> cs = pre ++ post -> length pre = pos -> at_cursor d pre post.
Proof. intros [Hd _] -> <-. by rewrite take_app_length, drop_app_length in Hd. Qed.

Lemma load_spec d pos x b y n : has_cells d pos (x ++ Some b :: y) -> n = Z.of_nat (length x) ->
  DataOutput.getValueAtPos n d = Ok (b, d).
Proof.
  intros [[_ _ _ Hc] _] ->. rewrite <- length_app, take_drop in Hc. unfold DataOutput.getValueAtPos. rewrite Nat2Z.id.
  assert (Hi : cells d (length (x ++ Some b :: y)) !! length x = Some (Some b)) by (rewrite Hc; by apply list_lookup_middle).
  unfold cells in Hi. apply lookup_take_Some in Hi as [Hi _]. apply lookup_app_Some in Hi as [->|[Hge Hi]]; [done|].
  apply lookup_replicate in Hi as [Hi _]. done.
Qed.

Lemma store_cell_spec d pos x c y b n : has_cells d pos (x ++ c :: y) -> n = Z.of_nat (length x) ->
  exists d', DataOutput.updateValueAtPos n b d = Ok (tt, d') /\ has_cells d' pos (x ++ Some b :: y).
Proof.
  intros [[[H1 H2 H3 H4] Hb Hr Hc] Hp] ->. rewrite <- length_app, take_drop, length_app in *. cbn [length] in *.
  unfold DataOutput.updateValueAtPos. rewrite Nat2Z.id.
  destruct (Z.ltb_spec (Z.of_nat (length x)) (DataOutput.m_size d)); [|lia]. eexists. split; [done|]. split.
  - rewrite length_take_le in Hb by (rewrite length_app; cbn [length]; lia).
    constructor; cbn [DataOutput.m_buf DataOutput.m_size]; rewrite <- ?length_app, ?take_drop, ?length_app; cbn [length].
    + constructor; simpl; try done. rewrite length_set_cell. lia.
    + rewrite length_take_le; [done|]. rewrite length_app. cbn [length]. lia.
    + lia.
    + unfold cells. cbn [DataOutput.m_bytes]. rewrite cells_store by lia. unfold cells in Hc. rewrite Hc.
      by rewrite insert_app_r_alt, Nat.sub_diag by lia.
  - rewrite length_app. cbn [length]. lia.
Qed.

(** The copy to the left, byte by byte, although source and destination overlap. *)
Lemma copy_spec pos bytes : forall d x hole from to, has_cells d pos (x ++ hole ++ (Some <$> bytes)) -> hole <> [] ->
  to = Z.of_nat (length x) -> from = to + Z.of_nat (length hole) ->
  exists d' junk, copy_bytes (length bytes) to from d = Ok (tt, d') /\ length junk = length hole /\
    has_cells d' pos (x ++ (Some <$> bytes) ++ junk).
Proof.
  induction bytes as [|b bytes IH]; intros d x hole from to Hd Hh -> ->.
  - exists d, hole. split_and!; [done|done|]. by rewrite fmap_nil, app_nil_r in Hd.
  - destruct hole as [|h hole]; [done|]. cbn [length copy_bytes]. rewrite fmap_cons in Hd.
    assert (Hd0 : has_cells d pos ((x ++ h :: hole) ++ Some b :: (Some <$> bytes))) by (by rewrite <- app_assoc).
    rewrite (st_bind_ok _ _ d b d) by (eapply load_spec; [exact Hd0|rewrite length_app; cbn [length]; lia]).
    destruct (store_cell_spec d pos x h (hole ++ Some b :: (Some <$> bytes)) b _ Hd eq_refl) as (d1 & E1 & Hd1).
    rewrite (st_bind_ok _ _ _ _ _ E1).
    destruct (IH d1 (x ++ [Some b]) (hole ++ [Some b]) (Z.of_nat (length x) + Z.of_nat (S (length hole)) + 1) (Z.of_nat (length x) + 1))
      as (d2 & junk & E2 & Hj & Hd2).
    + by rewrite <- !app_assoc.
    + by destruct hole.
    + rewrite length_app. cbn [length]. lia.
    + rewrite length_app. cbn [length]. lia.
    + exists d2, junk. split_and!; [done|by rewrite Hj, length_app, Nat.add_1_r|]. by rewrite <- app_assoc in Hd2.
Qed.

Lemma load_int_spec bs : forall d pos x y n acc, has_cells d pos (x ++ (Some <$> bs) ++ y) -> n = Z.of_nat (length x) ->
  load_int (length bs) n acc d = Ok (foldl (fun a b => Z.lor (Z.shiftl a 8) b) acc bs, d).
Proof.
  induction bs as [|b bs IH]; intros d pos x y n acc Hd ->; [done|]. cbn [length load_int foldl].
  rewrite fmap_cons in Hd. rewrite (st_bind_ok _ _ _ _ _ (load_spec d pos x b _ _ Hd eq_refl)).
  apply (IH d pos (x ++ [Some b]) y); [by rewrite <- app_assoc|]. rewrite length_app. cbn [length]. lia.
Qed.

Lemma loaded_value bs : bytes_ok bs -> forall acc, foldl (fun a b => Z.lor (Z.shiftl a 8) b) acc bs = foldl (fun a b => a * 256 + b) acc bs.
Proof. induction 1 as [|b bs Hb _ IH]; intros acc; [done|]. cbn [foldl]. by rewrite lor_shiftl_8, IH. Qed.

Lemma load_length n (k : nat) d pos x y a : (0 < k)%nat -> 0 <= n < 2 ^ (8 * Z.of_nat k) -> has_cells d pos (x ++ (Some <$> be_bytes k n) ++ y) ->
  a = Z.of_nat (length x) -> load_int k a 0 d = Ok (n, d).
Proof.
  intros Hk Hn Hd ->. rewrite <- (length_be_bytes k n) at 1. rewrite (load_int_spec _ _ _ _ _ _ _ Hd eq_refl).
  rewrite loaded_value by apply be_bytes_ok. change (foldl _ 0 (be_bytes k n)) with (be_val (be_bytes k n)).
  by rewrite be_val_be_bytes, Z.mod_small.
Qed.

Lemma rewind_cells d pos cs k n : has_cells d pos cs -> (n <= pos)%nat -> k = Z.of_nat n ->
  exists d', DataOutput.rewindCursor k d = Ok (tt, d') /\ has_cells d' (pos - n) cs.
Proof.
  intros [Hd Hp] Hn ->. rewrite <- (take_drop (pos - n) (take pos cs)) in Hd.
  destruct (rewind_spec _ _ _ _ (Z.of_nat n) Hd) as (d' & E & Hd').
  { rewrite length_drop, length_take. lia. }
  exists d'. split; [done|]. split; [|lia]. rewrite take_take, Nat.min_l in Hd' by lia.
  replace (drop (pos - n) (take pos cs) ++ drop pos cs) with (drop (pos - n) cs) in Hd'; [done|].
  rewrite <- (take_drop pos cs) at 1. rewrite drop_app_le; [done|]. rewrite length_take. lia.
Qed.

(** Moves [bytes] over the [k] cells in front of them. *)
Lemma shift_spec d pre hole bytes k : wf d -> out_is d (pre ++ hole ++ (Some <$> bytes)) -> length hole = k -> (0 < k)%nat ->
  exists d', (DataOutput.rewindCursor (Z.of_nat k);; copy_bytes (length bytes) (Z.of_nat (length pre)) (Z.of_nat (length pre) + Z.of_nat k)) d = Ok (tt, d') /\
    wf d' /\ out_is d' (pre ++ (Some <$> bytes)).
Proof.
  intros Hw Ho <- Hk. pose proof (cursor_has _ _ _ (cursor_end _ _ Hw Ho)) as Hd. rewrite app_nil_r in Hd.
  destruct (rewind_cells _ _ _ _ (length hole) Hd ltac:(rewrite !length_app; lia) eq_refl) as (d1 & E1 & Hd1).
  destruct (copy_spec _ bytes d1 pre hole _ _ Hd1 ltac:(destruct hole; [cbn [length] in Hk; lia|done]) eq_refl eq_refl) as (d2 & junk & E2 & Hj & Hd2).
  exists d2. rewrite (st_bind_ok _ _ _ _ _ E1). split; [exact E2|].
  assert (Hc : at_cursor d2 (pre ++ (Some <$> bytes)) junk).
  { eapply has_cursor; [exact Hd2|by rewrite app_assoc|]. rewrite !length_app, length_fmap. lia. }
  split; [apply Hc|]. by eapply cursor_out.
Qed.

Context {U : Type} (to_utf16 : list Z -> outcome (list Z)) (user : Serializable.UserTypes U).

Definition raw (l : list Z) : list Z := u8 <$> l.

Lemma emits_bytes_object l : short l -> emits (Serializable.serialize to_utf16 user (Serializable.CacheableBytes l))
  (DSCode.CacheableBytes :: enc_arrayLen (Z.of_nat (length l)) ++ raw l).
Proof.
  intros Hs. apply (emits_bind _ _ [DSCode.CacheableBytes]); [by apply emits_code_byte|]. unfold raw. rewrite <- bind_singleton_fmap.
  apply (emits_elements _ (fun z => [u8 z])); [done|]. apply Forall_true. intros x. apply emits_write_int8.
Qed.

Lemma get_bind {S A B} (m : ST S A) (f : S -> ST S B) s : (x ← st_get; f x) s = f s s.
Proof. done. Qed.

(** A nonempty byte array is written without code and length. *)
Lemma appends_bytes l : l <> [] -> short l -> appends (writeBytesOnly to_utf16 user (Serializable.CacheableBytes l)) (raw l).
Proof.
  intros Hne Hs d pre Hw Ho Hl. unfold writeBytesOnly. unfold short in Hs.
  assert (Hr : length (raw l) = length l) by apply length_fmap. pose proof (enc_arrayLen_length (Z.of_nat (length l))) as Ha.
  destruct (emits_bytes_object l Hs d pre Hw Ho) as (d1 & E1 & Hw1 & Ho1 & _).
  { cbn [length]. rewrite length_app. lia. }
  unfold mbind at 1, ST_bind at 1, st_get. unfold writeObject. rewrite (st_bind_ok _ _ _ _ _ E1).
  destruct Ho as [Hb _]. unfold DataOutput.getBufferLength. rewrite Hb. rewrite fmap_cons, fmap_app in Ho1.
  pose proof (cursor_has _ _ _ (cursor_end _ _ Hw1 Ho1)) as Hd. rewrite app_nil_r in Hd.
  assert (Hpos : 0 < Z.of_nat (length l)) by (destruct l; [done|cbn [length]; lia]).
  unfold enc_arrayLen in *. destruct (Z.eqb_spec (Z.of_nat (length l)) (-1)) as [|_]; [lia|].
  destruct (Z.leb_spec (Z.of_nat (length l)) 252) as [H252|H252]; [|destruct (Z.leb_spec (Z.of_nat (length l)) 0xFFFF) as [H64k|H64k]].
  - rewrite (wrapU_id 8) in * by (unfold in_u; lia). cbn [fmap list_fmap app] in *.
    rewrite (st_bind_ok _ _ d1 (Z.of_nat (length l)) d1).
    2: { eapply (load_spec d1 _ (pre ++ [_])); [rewrite <- app_assoc; exact Hd|rewrite length_app; cbn [length]; lia]. }
    destruct (Z.eqb_spec (Z.of_nat (length l)) 255); [lia|]. destruct (Z.ltb_spec 252 (Z.of_nat (length l))); [lia|].
    rewrite Nat2Z.id, <- Hr. apply (shift_spec d1 pre [Some DSCode.CacheableBytes; Some _] (raw l) 2 Hw1 Ho1); [done|lia].
  - rewrite (wrapU_id 16) in * by (unfold in_u; lia). cbn [fmap list_fmap app] in *.
    rewrite (st_bind_ok _ _ d1 254 d1).
    2: { eapply (load_spec d1 _ (pre ++ [_])); [rewrite <- app_assoc; exact Hd|rewrite length_app; cbn [length]; lia]. }
    change (254 =? 255) with false. change (252 <? 254) with true. change (254 =? 254) with true. cbn iota.
    rewrite (st_bind_ok _ _ d1 (Z.of_nat (length l)) d1).
    2: { eapply (load_length _ 2 d1 _ (pre ++ [_; _])); [lia|change (2 ^ (8 * Z.of_nat 2)) with 65536; lia|rewrite <- app_assoc; exact Hd|rewrite length_app; cbn [length]; lia]. }
    rewrite Nat2Z.id, <- Hr. apply (shift_spec d1 pre (Some DSCode.CacheableBytes :: Some 254 :: (Some <$> be_bytes 2 (Z.of_nat (length l)))) (raw l) 4 Hw1); [exact Ho1| |lia].
    cbn [length]. by rewrite length_fmap, length_be_bytes.
  - rewrite (wrapU_id 32) in * by (unfold in_u; lia). cbn [fmap list_fmap app] in *.
    rewrite (st_bind_ok _ _ d1 253 d1).
    2: { eapply (load_spec d1 _ (pre ++ [_])); [rewrite <- app_assoc; exact Hd|rewrite length_app; cbn [length]; lia]. }
    change (253 =? 255) with false. change (252 <? 253) with true. change (253 =? 254) with false. cbn iota.
    rewrite (st_bind_ok _ _ d1 (Z.of_nat (length l)) d1).
    2: { eapply (load_length _ 4 d1 _ (pre ++ [_; _])); [lia|change (2 ^ (8 * Z.of_nat 4)) with (2 ^ 32); lia|rewrite <- app_assoc; exact Hd|rewrite length_app; cbn [length]; lia]. }
    rewrite wrapS_id by (unfold in_s; lia).
    rewrite Nat2Z.id, <- Hr. apply (shift_spec d1 pre (Some DSCode.CacheableBytes :: Some 253 :: (Some <$> be_bytes 4 (Z.of_nat (length l)))) (raw l) 6 Hw1); [exact Ho1| |lia].
    cbn [length]. by rewrite length_fmap, length_be_bytes.
Qed.
End WithAllocator.
