(* ===== verification/MessageParts.v ===== *)
(** Messages as frames of parts: what a message must look like on the wire, and that the
    writers of parts, header and length produce it. *)
From S2P Require Import Prelude JavaModifiedUtf8 DataOutput DataOutputFacts DataInput DataInputFacts Utf8Strings EventId EventIdMap CacheableString CacheableBuiltins BuiltinsFacts TcrMessage TcrRequests MessageFacts.
Import TcrMessage Requests.
#[local] Arguments be_bytes : simpl never.
Local Open Scope Z_scope.

(** *** Frames *)

Record part := mkPart { isObject : Z; payload : list Z }.
Definition enc_part (p : part) : list Z := be_bytes 4 (u32 (length_ (payload p))) ++ isObject p :: payload p.
Definition enc_parts (ps : list part) : list Z := ps ≫= enc_part.

(** What a message has besides its parts. *)
Record head := mkHead { msg_type : Z; tx_id : Z; early_ack : Z }.
Definition enc_head (h : head) (len n : Z) : list Z :=
  be_bytes 4 (u32 (msg_type h)) ++ be_bytes 4 (u32 len) ++ be_bytes 4 (u32 n) ++ be_bytes 4 (u32 (tx_id h)) ++ [early_ack h].

(** A message with the parts [ps], followed by security parts that are not counted. *)
Definition frame (h : head) (ps sec : list part) : list Z :=
  enc_head h (length_ (enc_parts (ps ++ sec))) (length_ ps) ++ enc_parts (ps ++ sec).

Lemma enc_parts_app ps qs : enc_parts (ps ++ qs) = enc_parts ps ++ enc_parts qs.
Proof. apply bind_app. Qed.
Lemma enc_parts_one p : enc_parts [p] = enc_part p.
Proof. apply app_nil_r. Qed.
Lemma length_head h len n : length (enc_head h len n) = 17%nat.
Proof. unfold enc_head. by rewrite !length_app, !length_be_bytes. Qed.
Lemma length_part p : length (enc_part p) = (5 + length (payload p))%nat.
Proof. unfold enc_part. rewrite length_app, length_be_bytes. cbn [length]. lia. Qed.

Section Parts.
Context `{AllocatorOk} {U : Type} (to_utf16 to_utf8 : list Z -> outcome (list Z)) (user : Serializable.UserTypes U)
  (enc_user : U -> list Z) (user_ok : U -> Prop) (toDelta : U -> option (ST DataOutput.t unit))
  (enc_data enc_delta : U -> list Z).

(** What the application writes without a header, and as deltas. *)
Class DeltaCodec : Prop := {
  data_emits u : user_ok u -> emits (Serializable.write_user_data user u) (enc_data u);
  delta_emits u w : user_ok u -> toDelta u = Some w -> emits w (enc_delta u)
}.
Context `{!UserCodec user enc_user user_ok} `{!DeltaCodec}.
Context (thread : nat) (txState : option Z).
Abbreviation Object_ := (Serializable.t U).
Abbreviation value_ok := (value_ok to_utf16 to_utf8 user user_ok).
Abbreviation wire := (wire to_utf16 enc_user).

(** *** Parts of the output *)

(** An empty byte array has a mark of its own, other byte arrays are raw bytes. *)
Definition object_part (v : Object_) : part :=
  match v with
  | Serializable.CacheableBytes [] => mkPart 2 []
  | Serializable.CacheableBytes l => mkPart 0 (raw l)
  | _ => mkPart 1 (wire v)
  end.

Lemma appends_sized k m l : appends m l -> in_u 8 k -> appends (DataOutput.writeInt_int32 0;; sized k m) (enc_part (mkPart k l)).
Proof.
  intros Hm Hk d pre Hw Ho Hl. rewrite length_part in Hl. cbn [payload] in Hl.
  destruct (emits_writeInt_int32 0 d pre Hw Ho) as (d1 & E1 & Hw1 & Ho1 & _); [rewrite length_be_bytes; lia|].
  rewrite (st_bind_ok _ _ _ _ _ E1). unfold sized.
  destruct (emits_code_byte k Hk d1 _ Hw1 Ho1) as (d2 & E2 & Hw2 & Ho2 & _).
  { rewrite length_app, length_fmap, length_be_bytes. cbn [length]. lia. }
  rewrite (st_bind_ok _ _ _ _ _ E2). unfold mbind at 1, ST_bind at 1, st_get at 1.
  destruct (Hm d2 _ Hw2 Ho2) as (d3 & E3 & Hw3 & Ho3).
  { rewrite !length_app, !length_fmap, length_be_bytes. cbn [length]. lia. }
  rewrite (st_bind_ok _ _ _ _ _ E3). unfold mbind at 1, ST_bind at 1, st_get at 1.
  unfold DataOutput.getBufferLength. destruct Ho2 as [Hb2 _]. pose proof Ho3 as [Hb3 _]. rewrite Hb2, Hb3.
  rewrite !length_app, !length_fmap, !length_be_bytes. cbn [length].
  replace (Z.of_nat (length pre + 4 + 1 + length l) - Z.of_nat (length pre + 4 + 1)) with (Z.of_nat (length l)) by lia.
  rewrite (wrapU_id 64) by (unfold in_u; lia). rewrite <- !app_assoc in Ho3.
  destruct (patch_spec d3 pre (Some <$> be_bytes 4 (u32 0)) ((Some <$> [k]) ++ (Some <$> l)) (s32 (Z.of_nat (length l)))
    (Z.of_nat (length l) + 1 + 4) (Z.of_nat (length l) + 1) Hw3 Ho3) as (d4 & E4 & Hw4 & Ho4).
  { by rewrite length_fmap, length_be_bytes. }
  { rewrite !length_app, !length_fmap, length_be_bytes. cbn [length]. lia. }
  { rewrite !length_app, !length_fmap. cbn [length]. lia. }
  exists d4. split_and!; [exact E4|done|]. rewrite wrapU_wrapS in Ho4. unfold enc_part, length_. cbn [payload isObject].
  by rewrite fmap_app, fmap_cons.
Qed.

Lemma appends_object v : value_ok v -> appends (DataOutput.writeInt_int32 0;;
    match v with
    | Serializable.CacheableBytes [] => DataOutput.write_int8 2
    | Serializable.CacheableBytes _ => sized 0 (writeBytesOnly to_utf16 user v)
    | _ => sized 1 (writeObject to_utf16 user v)
    end) (enc_part (object_part v)).
Proof.
  intros Hv. assert (Hobj : appends (DataOutput.writeInt_int32 0;; sized 1 (writeObject to_utf16 user v)) (enc_part (mkPart 1 (wire v)))).
  { apply appends_sized; [|done]. by apply emits_appends, (emits_value to_utf16 to_utf8 user enc_user user_ok). }
  destruct v as [| | | | | | | | | | | |[|b l]| | | | | | | | | | | | | |]; try exact Hobj.
  - apply emits_appends, emits_bind; [apply emits_writeInt_int32|by apply emits_code_byte].
  - apply appends_sized; [|done]. apply appends_bytes; [done|apply Hv].
Qed.

(** *** Writers of messages *)

Abbreviation M := (M (U := U)).
Abbreviation t := (t (U := U)).

(** [w] appends the parts [ps], and turns the other fields from [s] into [s'] and the counters
    from [c] into [c']. *)
Definition writes_parts (s : t) (w : M unit) (c : EventId.Counters) (ps : list part) (c' : EventId.Counters) (s' : t) : Prop :=
  forall d l, wf d -> out_is d (Some <$> l) -> Z.of_nat (length l + length (enc_parts ps)) + 64 <= 2 ^ 60 ->
  exists d', w (set_request d s, c) = Ok (tt, (set_request d' s', c')) /\ wf d' /\ out_is d' (Some <$> l ++ enc_parts ps).

Lemma writes_nothing s c : writes_parts s (mret tt) c [] c s.
Proof. intros d l Hw Ho _. exists d. by rewrite app_nil_r. Qed.

Lemma writes_request s c m p : appends m (enc_part p) -> writes_parts s (on_request m) c [p] c s.
Proof.
  intros Hm d l Hw Ho Hl. rewrite enc_parts_one in *. destruct (Hm d _ Hw Ho) as (d' & E & Hw' & Ho').
  { rewrite length_fmap. lia. }
  exists d'. unfold on_request. cbn. rewrite E. by rewrite fmap_app.
Qed.

Lemma writes_parts_bind s s1 s2 w1 w2 c c1 c2 ps1 ps2 : writes_parts s w1 c ps1 c1 s1 -> writes_parts s1 w2 c1 ps2 c2 s2 ->
  writes_parts s (w1;; w2) c (ps1 ++ ps2) c2 s2.
Proof.
  intros Ha Hb d l Hw Ho Hl. rewrite enc_parts_app, length_app in Hl. destruct (Ha d l Hw Ho ltac:(lia)) as (d1 & E1 & Hw1 & Ho1).
  destruct (Hb d1 _ Hw1 Ho1) as (d2 & E2 & Hw2 & Ho2); [rewrite length_app; lia|].
  exists d2. rewrite (st_bind_ok _ _ _ _ _ E1). split_and!; [done..|]. by rewrite enc_parts_app, app_assoc.
Qed.

Lemma writes_iter {A} s c (w : A -> M unit) (f : A -> list part) xs :
  Forall (fun x => writes_parts s (w x) c (f x) c s) xs -> writes_parts s (st_iter w xs) c (xs ≫= f) c s.
Proof. induction 1 as [|x xs Hx _ IH]; [apply writes_nothing|]. by eapply writes_parts_bind. Qed.

Lemma writes_when s c b w ps : (b = true -> writes_parts s w c ps c s) -> writes_parts s (when b w) c (if b then ps else []) c s.
Proof. destruct b; [auto|intros _; apply writes_nothing]. Qed.

Lemma emits_as m l l' : emits m l -> l = l' -> emits m l'.
Proof. by intros ? <-. Qed.

Definition raw_part (bytes : list Z) : part := mkPart 0 bytes.
Definition int_part (n : Z) : part := mkPart 0 (be_bytes 4 (u32 n)).
Definition policy_part (p : InterestResultPolicy) : part := mkPart 1 [DSCode.FixedIDByte; DSFid_InterestResultPolicy; InterestResultPolicy_code p].

Lemma writes_int s c n : writes_parts s (writeIntPart n) c [int_part n] c s.
Proof.
  apply writes_request, emits_appends, (emits_bind _ _ (be_bytes 4 (u32 4))); [apply emits_writeInt_int32|].
  apply (emits_bind _ _ [0]); [by apply emits_code_byte|]. eapply emits_as; [apply emits_writeInt_int32|by rewrite wrapU_wrapS].
Qed.

Lemma writes_byte s c b : writes_parts s (writeBytePart b) c [raw_part [u8 b]] c s.
Proof.
  apply writes_request, emits_appends, (emits_bind _ _ (be_bytes 4 (u32 1))); [apply emits_writeInt_int32|].
  apply (emits_bind _ _ [0]); [by apply emits_code_byte|]. apply emits_write.
Qed.

Lemma writes_byte_timeout s c b n : writes_parts s (writeByteAndTimeOutPart b n) c [raw_part (u8 b :: be_bytes 4 (u32 n))] c s.
Proof.
  apply writes_request, emits_appends, (emits_bind _ _ (be_bytes 4 (u32 5))); [apply emits_writeInt_int32|].
  apply (emits_bind _ _ [0]); [by apply emits_code_byte|]. apply (emits_bind _ _ [u8 b]); [apply emits_write|].
  eapply emits_as; [apply emits_writeInt_int32|by rewrite wrapU_wrapS].
Qed.

Lemma writes_policy s c p : writes_parts s (writeInterestResultPolicyPart p) c [policy_part p] c s.
Proof.
  apply writes_request, emits_appends, (emits_bind _ _ (be_bytes 4 (u32 3))); [apply emits_writeInt_int32|].
  apply (emits_bind _ _ [1]); [by apply emits_code_byte|]. apply (emits_bind _ _ [1]); [by apply emits_code_byte|].
  apply (emits_bind _ _ [37]); [by apply emits_code_byte|]. destruct p; by apply emits_code_byte.
Qed.

Lemma writes_name s c name : Z.of_nat (length name) < 2 ^ 31 -> writes_parts s (writeRegionPart name) c [raw_part name] c s.
Proof.
  intros Hn. unfold writeRegionPart. rewrite (wrapS_id 32) by (unfold in_s, length_; lia). apply writes_request, emits_appends.
  apply emits_bind; [apply emits_writeInt_int32|]. apply (emits_bind _ _ [0]); [by apply emits_code_byte|].
  rewrite (wrapU_id 64) by (unfold in_u, length_; lia). apply emits_writeBytesOnly.
Qed.

(** The modified UTF-8 form of a string. *)
Definition text_part (s : list Z) : part := raw_part (JavaModifiedUtf8.fromString (utf16 to_utf16 s)).
Lemma writes_text s c str : str <> [] -> to_utf16 str = Ok (utf16 to_utf16 str) -> Z.of_nat (length (payload (text_part str))) < 2 ^ 31 ->
  writes_parts s (writeStringPart to_utf16 str) c [text_part str] c s.
Proof.
  intros Hne Hu Hl. unfold writeStringPart. rewrite (nonempty_length str Hne), Hu.
  change (writes_parts s (on_request (let jmutf8 := payload (text_part str) in
     DataOutput.writeInt_int32 (s32 (length_ jmutf8));; DataOutput.ensureCapacity (u64 (s32 (length_ jmutf8)));;
     DataOutput.write_int8 0;; DataOutput.writeBytesOnly jmutf8 (u64 (s32 (length_ jmutf8))))) c [text_part str] c s).
  apply writes_request, emits_appends. cbn zeta. rewrite (wrapS_id 32) by (unfold in_s, length_; lia).
  rewrite (wrapU_id 64) by (unfold in_u, length_; lia).
  apply emits_bind; [apply emits_writeInt_int32|]. apply emits_ensureCapacity_first.
  - apply (emits_bind _ _ [0]); [by apply emits_code_byte|]. apply emits_writeBytesOnly.
  - cbn [length]. unfold length_. lia.
Qed.

Lemma writes_object s c v : value_ok v -> writes_parts s (writeObject_part to_utf16 user toDelta v) c [object_part v] c s.
Proof.
  intros Hv. apply writes_request. pose proof (appends_object v Hv) as Ha.
  destruct v as [| | | | | | | | | | | |[|b l]| | | | | | | | | | | | | |]; exact Ha.
Qed.

(** An object without its header, such as a PDX type. *)
Lemma writes_data s c u : user_ok u ->
  writes_parts s (writeObjectPart to_utf16 user toDelta (Serializable.UserObject u) false true None) c [mkPart 1 (enc_data u)] c s.
Proof. intros Hu. apply writes_request, appends_sized; [|done]. apply emits_appends. by apply data_emits. Qed.

Lemma writes_delta s c u w : user_ok u -> toDelta u = Some w ->
  writes_parts s (writeObjectPart to_utf16 user toDelta (Serializable.UserObject u) true false None) c [mkPart 0 (enc_delta u)] c s.
Proof.
  intros Hu Hw. apply writes_request, appends_sized; [|done]. cbn [write_delta]. rewrite Hw. apply emits_appends. by eapply delta_emits.
Qed.

(** Keys, or null without any, as an array of objects. *)
Lemma writes_keys s c keys : value_ok (Serializable.CacheableObjectArray keys) ->
  writes_parts s (writeObjectPart to_utf16 user toDelta Serializable.nullptr false false (Some keys)) c
    [object_part (Serializable.CacheableObjectArray keys)] c s.
Proof.
  intros Hv. apply writes_request, (appends_object (Serializable.CacheableObjectArray keys) Hv).
Qed.

(** The ids of an operation. *)
Definition event_part (thr seq : Z) : part := raw_part ([3] ++ be_bytes 8 (u64 thr) ++ [3] ++ be_bytes 8 (u64 seq)).

Lemma emits_ids e : emits (EventId.writeIdsData e) (enc_part (event_part (EventId.threadId_ e) (EventId.sequenceId_ e))).
Proof.
  apply (emits_bind _ _ (be_bytes 4 (u32 18))); [apply emits_writeInt_int32|]. apply (emits_bind _ _ [0]); [apply emits_write|].
  apply (emits_bind _ _ [3]); [apply emits_write|]. apply emits_bind; [apply emits_writeInt_int64|].
  apply (emits_bind _ _ [3]); [apply emits_write|]. apply emits_writeInt_int64.
Qed.

(** The id of the next operation of the thread, with [n] further numbers reserved. *)
Definition next_id (c : EventId.Counters) : Z * Z :=
  let s := (EventId.tss_of c thread).1 in (EventId.tss_threadId s, EventId.tss_sequenceId s + 1).
Definition advanced (c : EventId.Counters) (n : Z) : EventId.Counters :=
  EventId.mkCounters (EventId.tss_of c thread).2
    (<[thread := EventId.mkTSS (next_id c).1 ((next_id c).2 + n)]> (EventId.tss c)).

Lemma writes_event s c n : writes_parts s (writeEventIdPart thread n false) c
  [event_part (next_id c).1 (next_id c).2] (advanced c (u32 n)) s.
Proof.
  intros d l Hw Ho Hl. rewrite enc_parts_one in *. pose proof (EventId.construct_spec thread (Z.to_nat (u32 n)) c) as E.
  pose proof (wrapU_range 32 n ltac:(lia)) as Hn. unfold in_u in Hn. unfold next_id, advanced, next_id in *.
  destruct (EventId.tss_of c thread) as [st cnt]. cbn [fst snd] in *. rewrite Z2Nat.id in E by lia.
  match type of E with _ = Ok (?e, ?c1) => set (e1 := e) in *; set (cc := c1) in * end.
  destruct (emits_ids e1 d (Some <$> l) Hw Ho) as (d' & E' & Hw' & Ho' & _); [rewrite length_fmap; cbn in *; lia|].
  exists d'. unfold writeEventIdPart. rewrite (st_bind_ok _ _ (set_request d s, c) e1 (set_request d s, cc)).
  2: { unfold on_counters. cbn [snd fst]. by rewrite E. }
  unfold on_request. cbn. rewrite E'. by rewrite fmap_app.
Qed.
End Parts.

(** ** Messages as frames: the header, the length, and messages as a whole. *)
Module MessageFrames.
Import TcrMessage Requests.
#[local] Arguments be_bytes : simpl never.
Local Open Scope Z_scope.

(** *** Ids of operations *)

(** The id that an operation gets: the next one, or the last one again for the full value that
    follows a delta that was refused. *)
Definition op_id (thread : nat) (again : bool) (c : EventId.Counters) : Z * Z :=
  if again then ((next_id thread c).1, (next_id thread c).2 - 1) else next_id thread c.
Definition op_after (thread : nat) (again : bool) (n : Z) (c : EventId.Counters) : EventId.Counters :=
  advanced thread c (if again then n - 1 else n).

Lemma construct_again thread c : EventId.construct thread true 0 true c =
  Ok (EventId.mk [] 0 (op_id thread true c).1 (op_id thread true c).2 (-1) 0, op_after thread true 0 c).
Proof.
  unfold op_id, op_after, advanced, next_id, EventId.tss_of, EventId.construct, EventId.initFromTSS_SameThreadIdAndSameSequenceId,
    EventId.currentSequenceId, EventId.instance_, mbind, ST_bind. cbn [fst snd negb].
  destruct (EventId.tss c !! thread) as [st|] eqn:E; cbn [fst snd]; rewrite ?E; cbn.
  - rewrite Z.add_simpl_r. replace (EventId.tss_sequenceId st + 1 + (0 - 1)) with (EventId.tss_sequenceId st) by lia.
    rewrite insert_id; [by destruct c|]. rewrite E. by destruct st.
  - by rewrite lookup_insert_eq.
Qed.

Section Frames.
Context `{AllocatorOk} {U : Type}.
Abbreviation M := (M (U := U)).
Abbreviation t := (t (U := U)).

Lemma writes_op s c thread again : writes_parts (U := U) s (writeEventIdPart thread 0 again) c
  [event_part (op_id thread again c).1 (op_id thread again c).2] (op_after thread again 0 c) s.
Proof.
  destruct again; [|apply writes_event]. intros d l Hw Ho Hl. rewrite enc_parts_one in *. pose proof (construct_again thread c) as E.
  match type of E with _ = Ok (?e, ?c1) => set (e1 := e) in *; set (cc := c1) in * end.
  destruct (emits_ids e1 d (Some <$> l) Hw Ho) as (d' & E' & Hw' & Ho' & _); [rewrite length_fmap; cbn in *; lia|].
  exists d'. unfold writeEventIdPart. rewrite (st_bind_ok _ _ (set_request d s, c) e1 (set_request d s, cc)).
  2: { unfold on_counters. cbn [snd fst]. change (Z.to_nat (u32 0)) with 0%nat. by rewrite E. }
  unfold on_request. cbn. rewrite E'. by rewrite fmap_app.
Qed.

Lemma get_spec {B} (f : t -> M B) s : (m ← get; f m) s = f s.1 s.
Proof. done. Qed.

(** *** The header *)

Context (txState : option Z).

(** Whether a message is to be followed by a security part. *)
Definition secure (s : t) : bool :=
  match m_tcdm s with Some on => on && isUserInitiativeOps s && negb (m_isMetaRegion s) | None => false end.
Definition header_fields (s : t) : t :=
  set_txId (default (-1) txState) (match m_tcdm s with Some _ => set_isSecurityOn (secure s) s | None => s end).
Definition head_of (s : t) (ty : Z) : head := mkHead ty (default (-1) txState) (if secure s then 2 else 0).

Lemma header_spec s c ty n d : wf d -> DataOutput.m_buf d = 0 ->
  exists d', writeHeader txState ty n (set_request d s, c) = Ok (tt, (set_request d' (header_fields s), c)) /\
    wf d' /\ out_is d' (Some <$> enc_head (head_of s ty) 0 n).
Proof.
  intros Hw Hd. set (s1 := match m_tcdm s with Some _ => set_isSecurityOn (secure s) s | None => s end).
  assert (Hack : (match m_tcdm s1 with Some _ => if m_isSecurityOn s1 then 2 else 0 | None => 0 end) = early_ack (head_of s ty)).
  { subst s1. unfold head_of, secure. cbn [early_ack]. destruct (m_tcdm s) as [on|] eqn:E; cbn; rewrite ?E; done. }
  assert (E1 : emits (DataOutput.writeInt_int32 (s32 ty);; DataOutput.writeInt_int32 0;; DataOutput.writeInt_int32 (s32 n))
    (be_bytes 4 (u32 ty) ++ be_bytes 4 (u32 0) ++ be_bytes 4 (u32 n))).
  { eapply emits_as; [apply emits_bind; [apply emits_writeInt_int32|apply emits_bind; apply emits_writeInt_int32]|]. by rewrite !wrapU_wrapS. }
  destruct (E1 d [] Hw (out_is_nil d Hd)) as (d1 & R1 & Hw1 & Ho1 & _); [rewrite !length_app, !length_be_bytes; cbn; lia|].
  assert (E2 : emits (DataOutput.writeInt_int32 (default (-1) txState);; DataOutput.write_int8 (early_ack (head_of s ty)))
    (be_bytes 4 (u32 (default (-1) txState)) ++ [early_ack (head_of s ty)])).
  { apply emits_bind; [apply emits_writeInt_int32|]. apply emits_code_byte. unfold head_of. cbn. by destruct (secure s). }
  destruct (E2 d1 _ Hw1 Ho1) as (d2 & R2 & Hw2 & Ho2 & _).
  { rewrite !length_app, !length_fmap, !length_app, !length_be_bytes. cbn. lia. }
  exists d2. split_and!; [|done|].
  - assert (Hm : modify (fun m => match m_tcdm m with
        | Some on => set_isSecurityOn (on && isUserInitiativeOps m && negb (m_isMetaRegion m)) m | None => m end) (set_request d s, c)
        = Ok (tt, (set_request d s1, c))).
    { unfold modify, st_modify. subst s1. cbn [fst snd]. change (m_tcdm (set_request d s)) with (m_tcdm s).
      unfold secure. destruct (m_tcdm s) as [on|] eqn:E; [|done]. done. }
    unfold writeHeader. rewrite (st_bind_ok _ _ _ _ _ Hm), get_spec. cbv zeta. cbn [fst].
    change (m_tcdm (set_request d s1)) with (m_tcdm s1). change (m_isSecurityOn (set_request d s1)) with (m_isSecurityOn s1). rewrite Hack.
    assert (R1' : on_request (DataOutput.writeInt_int32 (s32 ty);; DataOutput.writeInt_int32 0;; DataOutput.writeInt_int32 (s32 n))
      (set_request d s1, c) = Ok (tt, (set_request d1 s1, c))) by (unfold on_request; cbn [fst snd]; change (m_request (set_request d s1)) with d; by rewrite R1).
    rewrite (st_bind_ok _ _ _ _ _ R1'). unfold mbind at 1, ST_bind at 1. cbn [modify st_modify fst snd]. rewrite get_spec.
    unfold on_request. cbn [fst snd]. match goal with |- match ?m ?d0 with _ => _ end = _ => change (m d0) with
      ((DataOutput.writeInt_int32 (default (-1) txState);; DataOutput.write_int8 (early_ack (head_of s ty))) d1) end.
    by rewrite R2.
  - unfold enc_head. cbn [msg_type tx_id]. by rewrite !fmap_app, <- !app_assoc in *.
Qed.

(** *** The length *)

Lemma length_spec (s : t) c h n len body d : wf d -> out_is d (Some <$> enc_head h len n ++ body) -> length_ body < 2 ^ 60 ->
  exists d', writeMessageLength (set_request d s, c) = Ok (tt, (set_request d' s, c)) /\ wf d' /\
    out_is d' (Some <$> enc_head h (length_ body) n ++ body).
Proof.
  intros Hw Ho Hl. unfold length_ in *. pose proof Ho as [Hb _]. rewrite length_fmap, length_app, length_head in Hb.
  unfold enc_head in Ho. rewrite <- !app_assoc, fmap_app, (fmap_app _ (be_bytes 4 (u32 len))) in Ho.
  match type of Ho with out_is _ (?p ++ ?h ++ ?q) => set (pre := p) in *; set (hole := h) in *; set (post := q) in * end.
  assert (Hpost : length post = (9 + length body)%nat).
  { subst post. rewrite length_fmap, !length_app, !length_be_bytes. cbn [length]. lia. }
  destruct (patch_spec d pre hole post (s32 (Z.of_nat (length body))) (13 + Z.of_nat (length body)) (9 + Z.of_nat (length body)) Hw Ho)
    as (d' & E & Hw' & Ho').
  { subst hole. by rewrite length_fmap, length_be_bytes. }
  { subst hole. rewrite length_fmap, length_be_bytes. lia. }
  { lia. }
  exists d'. split_and!; [|done|].
  - unfold writeMessageLength, on_request. cbn [fst snd]. unfold mbind at 1, ST_bind at 1, st_get.
    change (m_request (set_request d s)) with d. unfold DataOutput.getBufferLength, kHeaderLength. rewrite Hb.
    rewrite !(wrapU_id 64) by (unfold in_u; lia). replace (Z.of_nat (17 + length body) - 17) with (Z.of_nat (length body)) by lia.
    replace (Z.of_nat (17 + length body) - 4) with (13 + Z.of_nat (length body)) by lia.
    replace (Z.of_nat (17 + length body) - 8) with (9 + Z.of_nat (length body)) by lia. by rewrite E.
  - rewrite wrapU_wrapS in Ho'. unfold enc_head. rewrite <- !app_assoc, !fmap_app in *. subst pre post. by rewrite !fmap_app in Ho'.
Qed.

(** *** Whole messages *)

(** After the header and the parts [ps0], [w] appends [ps] and the length. *)
Definition completes (h : head) (n : Z) (s : t) (w : M unit) (c : EventId.Counters) (ps : list part) (c' : EventId.Counters) (s' : t) : Prop :=
  forall d ps0, wf d -> out_is d (Some <$> enc_head h 0 n ++ enc_parts ps0) ->
  Z.of_nat (length (enc_parts (ps0 ++ ps))) + 128 <= 2 ^ 60 ->
  exists d', w (set_request d s, c) = Ok (tt, (set_request d' s', c')) /\ wf d' /\
    out_is d' (Some <$> enc_head h (length_ (enc_parts (ps0 ++ ps))) n ++ enc_parts (ps0 ++ ps)).

Lemma completes_step h n s s1 s' w rest c c1 c' ps1 ps2 : writes_parts s w c ps1 c1 s1 -> completes h n s1 rest c1 ps2 c' s' ->
  completes h n s (w;; rest) c (ps1 ++ ps2) c' s'.
Proof.
  intros Hw1 Hr d ps0 Hw Ho Hl. rewrite app_assoc in *. pose proof Hl as Hl2. rewrite enc_parts_app, (enc_parts_app ps0), !length_app in Hl2.
  destruct (Hw1 d _ Hw Ho) as (d1 & E1 & Hwf1 & Ho1); [rewrite length_app, length_head; lia|].
  rewrite <- app_assoc, <- enc_parts_app in Ho1. destruct (Hr d1 _ Hwf1 Ho1 Hl) as (d2 & E2 & Hwf2 & Ho2).
  exists d2. by rewrite (st_bind_ok _ _ _ _ _ E1).
Qed.

Lemma completes_end h n s c : completes h n s writeMessageLength c [] c s.
Proof. intros d ps0 Hw Ho Hl. rewrite app_nil_r in *. eapply length_spec; [done|exact Ho|unfold length_; lia]. Qed.

Lemma completes_then h n s s' c w ps c' s2 (post : M unit) : completes h n s w c ps c' s' ->
  (forall d, post (set_request d s', c') = Ok (tt, (set_request d s2, c'))) -> completes h n s (w;; post) c ps c' s2.
Proof.
  intros Hc Hp d ps0 Hw Ho Hl. destruct (Hc d ps0 Hw Ho Hl) as (d' & E & Hw' & Ho'). exists d'.
  rewrite (st_bind_ok _ _ _ _ _ E). by rewrite Hp.
Qed.

(** From fields [s] and an empty output, [w] makes the message with the parts [ps]. *)
Definition builds (s : t) (w : M unit) (c : EventId.Counters) (h : head) (ps : list part) (c' : EventId.Counters) (s' : t) : Prop :=
  forall d, wf d -> DataOutput.m_buf d = 0 -> Z.of_nat (length (enc_parts ps)) + 128 <= 2 ^ 60 ->
  exists d', w (set_request d s, c) = Ok (tt, (set_request d' s', c')) /\ wf d' /\ out_is d' (Some <$> frame h ps []).

Lemma builds_first {A} (pre : M A) a (w : A -> M unit) s s1 c c1 h ps c' s' :
  (forall d, pre (set_request d s, c) = Ok (a, (set_request d s1, c1))) -> builds s1 (w a) c1 h ps c' s' -> builds s (pre ≫= w) c h ps c' s'.
Proof. intros Hp Hb d Hw Hd Hl. rewrite (st_bind_ok _ _ _ _ _ (Hp d)). by apply Hb. Qed.

Lemma builds_header s ty n w c ps c' s' : completes (head_of s ty) n (header_fields s) w c ps c' s' -> u32 n = length_ ps ->
  builds s (writeHeader txState ty n;; w) c (head_of s ty) ps c' s'.
Proof.
  intros Hc Hn d Hw Hd Hl. destruct (header_spec s c ty n d Hw Hd) as (d1 & E1 & Hw1 & Ho1). rewrite (st_bind_ok _ _ _ _ _ E1).
  destruct (Hc d1 [] Hw1) as (d2 & E2 & Hw2 & Ho2); [by rewrite app_nil_r|done|]. exists d2. split_and!; [done..|].
  unfold frame. rewrite app_nil_r. replace (enc_head _ _ (length_ ps)) with (enc_head (head_of s ty) (length_ (enc_parts ps)) n); [done|].
  unfold enc_head. do 2 f_equal. rewrite <- Hn. by rewrite (wrapU_id 32 (wrapU 32 n)) by (by apply wrapU_range).
Qed.

Lemma builds_as s w c h ps ps' c' s' : builds s w c h ps c' s' -> ps = ps' -> builds s w c h ps' c' s'.
Proof. by intros ? <-. Qed.
End Frames.
End MessageFrames.
