(* ===== verification/MessageTable.v ===== *)
(** The requests and what servers expect of them: reading a frame, the table of requests, their
    types and parts. *)
From S2P Require Import Prelude JavaModifiedUtf8 DataOutput DataOutputFacts DataInput DataInputFacts Utf8Strings EventId EventIdMap CacheableString CacheableBuiltins BuiltinsFacts TcrMessage TcrRequests MessageFacts MessageParts.
Import MessageFrames.
Import TcrMessage Requests.
#[local] Arguments be_bytes : simpl never.
Local Open Scope Z_scope.

(** *** Reading a frame *)

(** [n] parts, and what is left. *)
Fixpoint split_parts (n : nat) (l : list Z) : option (list part * list Z) :=
  match n with
  | O => Some ([], l)
  | S n =>
    let len := Z.to_nat (be_val (take 4 l)) in
    match drop 4 l with
    | k :: l' =>
      if (length l' <? len)%nat then None
      else '(ps, rest) ← split_parts n (drop len l'); Some (mkPart k (take len l') :: ps, rest)
    | [] => None
    end
  end.

(** The header, the parts that it announces, and the rest of a message, whose length must be
    as announced. *)
Definition read_message (l : list Z) : option (head * list part * list Z) :=
  let field i := be_val (take 4 (drop i l)) in
  match l !! 16%nat with
  | Some ack =>
    if field 4%nat =? Z.of_nat (length (drop 17 l)) then
      '(ps, rest) ← split_parts (Z.to_nat (field 8%nat)) (drop 17 l);
      Some (mkHead (s32 (field 0%nat)) (s32 (field 12%nat)) ack, ps, rest)
    else None
  | None => None
  end.

Lemma be_val_u32 n l : be_val (take 4 (be_bytes 4 (u32 n) ++ l)) = u32 n.
Proof.
  rewrite take_app_le by (rewrite length_be_bytes; lia). rewrite take_ge by (rewrite length_be_bytes; lia).
  rewrite be_val_be_bytes. apply Z.mod_small. pose proof (wrapU_range 32 n ltac:(lia)) as Hr. unfold in_u in Hr.
  change (8 * Z.of_nat 4) with 32. lia.
Qed.

Lemma split_enc ps rest : length_ (enc_parts ps) < 2 ^ 32 -> split_parts (length ps) (enc_parts ps ++ rest) = Some (ps, rest).
Proof.
  induction ps as [|p ps IH]; intros Hl; [done|]. change (p :: ps) with ([p] ++ ps) in Hl |- *.
  rewrite enc_parts_app, enc_parts_one in *. unfold length_ in *. rewrite length_app, length_part in Hl. cbn [length app split_parts].
  unfold enc_part. rewrite <- !app_assoc, be_val_u32. rewrite (wrapU_id 32) by (unfold in_u, length_; lia). unfold length_.
  rewrite drop_app_length' by (by rewrite length_be_bytes). cbn [app]. rewrite Nat2Z.id.
  destruct (Nat.ltb_spec (length (payload p ++ enc_parts ps ++ rest)) (length (payload p))) as [Hlt|_]; [rewrite length_app in Hlt; lia|].
  rewrite take_app_length, drop_app_length, IH by lia. by destruct p.
Qed.

Lemma read_frame h ps sec : in_s 32 (msg_type h) -> in_s 32 (tx_id h) -> length_ (enc_parts (ps ++ sec)) < 2 ^ 32 ->
  read_message (frame h ps sec) = Some (h, ps, enc_parts sec).
Proof.
  intros Ht Hx Hl. unfold read_message, frame. pose proof (length_head h (length_ (enc_parts (ps ++ sec))) (length_ ps)) as H17.
  assert (Hps : length_ ps < 2 ^ 32).
  { unfold length_ in *. rewrite enc_parts_app, length_app in Hl. assert (length ps <= length (enc_parts ps))%nat; [|lia].
    clear. induction ps as [|p ps IH]; [done|]. change (p :: ps) with ([p] ++ ps). rewrite enc_parts_app, enc_parts_one, !length_app, length_part. cbn [length]. lia. }
  rewrite lookup_app_l by lia.
  assert (Hack : enc_head h (length_ (enc_parts (ps ++ sec))) (length_ ps) !! 16%nat = Some (early_ack h)).
  { unfold enc_head. rewrite !app_assoc. apply list_lookup_middle. by rewrite !length_app, !length_be_bytes. }
  rewrite Hack. rewrite (drop_app_length' _ _ 17) by done. unfold enc_head. rewrite <- !app_assoc.
  rewrite (drop_app_length' _ _ 4) by (by rewrite length_be_bytes).
  replace (drop 8 _) with (drop 4 (drop 4 (be_bytes 4 (u32 (msg_type h)) ++ be_bytes 4 (u32 (length_ (enc_parts (ps ++ sec)))) ++
     be_bytes 4 (u32 (length_ ps)) ++ be_bytes 4 (u32 (tx_id h)) ++ [early_ack h] ++ enc_parts (ps ++ sec)))) by (by rewrite drop_drop).
  replace (drop 12 _) with (drop 4 (drop 4 (drop 4 (be_bytes 4 (u32 (msg_type h)) ++ be_bytes 4 (u32 (length_ (enc_parts (ps ++ sec)))) ++
     be_bytes 4 (u32 (length_ ps)) ++ be_bytes 4 (u32 (tx_id h)) ++ [early_ack h] ++ enc_parts (ps ++ sec))))) by (by rewrite !drop_drop).
  rewrite !(drop_app_length' _ _ 4) by (by rewrite length_be_bytes). rewrite drop_0, !be_val_u32.
  rewrite (wrapU_id 32 (length_ (enc_parts _))), (wrapU_id 32 (length_ ps)) by (unfold in_u, length_ in *; lia).
  unfold length_ at 1. rewrite Z.eqb_refl. unfold length_. rewrite Nat2Z.id, enc_parts_app, split_enc.
  - cbn. rewrite !wrapS_wrapU, !wrapS_id by done. by destruct h.
  - unfold length_ in *. rewrite enc_parts_app, length_app in Hl. lia.
Qed.

(** *** The requests *)

Section Table.
Context {U : Type}.
Abbreviation Object_ := (Serializable.t U).

(** The subclasses of [TcrMessage] that send something, with the arguments of their
    constructors; the connection manager is separate. *)
Inductive request :=
| DestroyRegion (region : option Region) (aCallbackArgument : Object_) (timeout : Z)
| ClearRegion (region : option Region) (aCallbackArgument : Object_) (timeout : Z)
| CreateRegion (parent name : list Z) (isDurable receiveValues : bool)
| Query (query : list Z) (timeout : Z)
| StopCQ (name : list Z) (timeout : Z)
| CloseCQ (name : list Z) (timeout : Z)
| QueryWithParameters (query : list Z) (params : list Object_) (timeout : Z)
| GetDurableCqs
| ExecuteCq (name query : list Z) (state : CqState) (isDurable : bool)
| ExecuteCqWithIr (name query : list Z) (state : CqState) (isDurable : bool)
| ContainsKey (region : option Region) (key aCallbackArgument : Object_) (isContainsKey : bool)
| Request_ (region : option Region) (key aCallbackArgument : Object_)
| Invalidate (region : option Region) (key aCallbackArgument : Object_)
| Destroy (region : option Region) (key value : Object_) (isUserNullValue : bool) (aCallbackArgument : Object_)
| Put (region : option Region) (key value aCallbackArgument : Object_) (isMetaRegion again : bool) (regionName : list Z)
| PutDelta (region : option Region) (key : Object_) (value : U) (aCallbackArgument : Object_) (isMetaRegion : bool) (regionName : list Z)
| PutAll (region : Region) (map : list (Object_ * Object_)) (timeout : Z) (aCallbackArgument : Object_)
| RemoveAll (region : Region) (keys : list Object_) (aCallbackArgument : Object_)
| GetAll (region : Region) (keys : list Object_) (aCallbackArgument : Object_)
| RegisterInterestList (region : option Region) (keys : list Object_) (isDurable isCachingEnabled receiveValues : bool) (all_values : bool)
| UnregisterInterestList (region : option Region) (keys : list Object_) (isDurable : bool)
| RegisterInterestRegex (region regex : list Z) (policy : InterestResultPolicy) (isDurable isCachingEnabled receiveValues : bool)
| UnregisterInterestRegex (region regex : list Z) (isDurable : bool)
| TxSynchronization (ordinal txid status : Z)
| ClientReady | Commit | Rollback | TxFailover
| MakePrimary (processedMarker : bool)
| Ping
| CloseConnection (keepAlive : bool)
| PeriodicAck (entries : list EventIdMap.entry)
| RequestEventValue (eventId : EventId.t)
| ExecuteFunction (name : list Z) (args : Object_) (getResult timeout : Z)
| ExecuteRegionFunction (name : list Z) (region : option Region) (args : Object_) (routing : list Object_) (getResult : Z)
    (failedNodes : option (list Object_)) (timeout reExecute : Z)
| ExecuteRegionFunctionOnKeys (name : list Z) (region : option Region) (args : Object_) (keys : list Object_) (getResult : Z)
    (failedNodes : option (list Object_)) (timeout : Z)
| ExecuteRegionFunctionOnBuckets (name : list Z) (region : option Region) (args : Object_) (buckets : list Z) (getResult : Z)
    (failedNodes : option (list Object_)) (timeout : Z)
| GetClientPartitionAttributes (region : list Z)
| GetClientPrMetadata (region : list Z)
| Size (region : list Z)
| GetFunctionAttributes (name : list Z)
| KeySet (region : list Z)
| GetPdxIdForType (type : U)
| AddPdxType (type : U) (id : Z)
| GetPdxIdForEnum (enum : Object_)
| AddPdxEnum (enum : Object_) (id : Z)
| GetPdxTypeById (id : Z)
| GetPdxEnumById (id : Z)
| RemoveUserAuth (keepAlive : bool)
| UserCredential (creds : list (Object_ * Object_)).

Section Build.
Context `{Allocator} (to_utf16 : list Z -> outcome (list Z)) (user : Serializable.UserTypes U)
  (toDelta : U -> option (ST DataOutput.t unit)) (thread : nat) (txState : option Z).

(** The constructor, and what is called to complete the message where it does not. *)
Definition build (r : request) (dm : option bool) : M (U := U) unit :=
  match r with
  | DestroyRegion region cb timeout => TcrMessageDestroyRegion to_utf16 user toDelta thread txState region cb timeout dm
  | ClearRegion region cb timeout => TcrMessageClearRegion to_utf16 user toDelta thread txState region cb timeout dm
  | CreateRegion s1 s2 d v => TcrMessageCreateRegion txState s1 s2 d v dm
  | Query q timeout => TcrMessageQuery thread txState q timeout dm
  | StopCQ q timeout => TcrMessageStopCQ thread txState q timeout dm
  | CloseCQ q timeout => TcrMessageCloseCQ thread txState q timeout dm
  | QueryWithParameters q params timeout => TcrMessageQueryWithParameters to_utf16 user toDelta txState q (Some params) timeout dm
  | GetDurableCqs => TcrMessageGetDurableCqs txState dm
  | ExecuteCq s1 s2 st d => TcrMessageExecuteCq to_utf16 txState s1 s2 st d dm
  | ExecuteCqWithIr s1 s2 st d => TcrMessageExecuteCqWithIr to_utf16 txState s1 s2 st d dm
  | ContainsKey region key cb b => TcrMessageContainsKey to_utf16 user toDelta txState region key cb b dm
  | Request_ region key cb => TcrMessageRequest to_utf16 user toDelta txState region key cb dm
  | Invalidate region key cb => TcrMessageInvalidate to_utf16 user toDelta thread txState region key cb dm
  | Destroy region key v n cb => TcrMessageDestroy to_utf16 user toDelta thread txState region key v n cb dm
  | Put region key v cb meta again name =>
    TcrMessagePut to_utf16 user toDelta thread txState region key v cb false dm meta again (Some name)
  | PutDelta region key u cb meta name =>
    TcrMessagePut to_utf16 user toDelta thread txState region key (Serializable.UserObject u) cb true dm meta false (Some name)
  | PutAll region map timeout cb => TcrMessagePutAll to_utf16 user toDelta thread txState region map timeout dm cb
  | RemoveAll region keys cb => TcrMessageRemoveAll to_utf16 user toDelta thread txState region keys cb dm
  | GetAll region keys cb =>
    TcrMessageGetAll txState region (Some keys) dm cb;; InitializeGetallMsg to_utf16 user toDelta cb
  | RegisterInterestList region keys d e v all =>
    TcrMessageRegisterInterestList to_utf16 user toDelta txState region keys d e v (if all then KEYS_VALUES else NONE) dm
  | UnregisterInterestList region keys d => TcrMessageUnregisterInterestList to_utf16 user toDelta txState region keys d dm
  | RegisterInterestRegex region regex p d e v => TcrMessageRegisterInterestRegex to_utf16 user toDelta txState region regex p d e v dm
  | UnregisterInterestRegex region regex d => TcrMessageUnregisterInterestRegex txState region regex d dm
  | TxSynchronization o x st => TcrMessageTxSynchronization txState o x st
  | ClientReady => TcrMessageClientReady txState
  | Commit => TcrMessageCommit txState
  | Rollback => TcrMessageRollback txState
  | TxFailover => TcrMessageTxFailover txState
  | MakePrimary b => TcrMessageMakePrimary txState b
  | Ping => TcrMessagePing txState
  | CloseConnection b => TcrMessageCloseConnection txState b
  | PeriodicAck entries => TcrMessagePeriodicAck to_utf16 user toDelta txState entries
  | RequestEventValue e => TcrMessageRequestEventValue to_utf16 user toDelta txState (Serializable.EventIdObject e)
  | ExecuteFunction name args g timeout => TcrMessageExecuteFunction to_utf16 user toDelta txState name args g dm timeout
  | ExecuteRegionFunction name region args l g f timeout re =>
    TcrMessageExecuteRegionFunction to_utf16 user toDelta txState name region args (Some l) g f timeout dm re
  | ExecuteRegionFunctionOnKeys name region args l g f timeout =>
    TcrMessageExecuteRegionFunctionSingleHop to_utf16 user toDelta txState name region args (Some l) g f false timeout dm
  | ExecuteRegionFunctionOnBuckets name region args l g f timeout =>
    TcrMessageExecuteRegionFunctionSingleHop to_utf16 user toDelta txState name region args
      (Some (Serializable.CacheableInt32 <$> l)) g f true timeout dm
  | GetClientPartitionAttributes n => TcrMessageGetClientPartitionAttributes txState n
  | GetClientPrMetadata n => TcrMessageGetClientPrMetadata txState n
  | Size n => TcrMessageSize txState n
  | GetFunctionAttributes n => TcrMessageGetFunctionAttributes txState n dm
  | KeySet n => TcrMessageKeySet txState n dm
  | GetPdxIdForType u => TcrMessageGetPdxIdForType to_utf16 user toDelta txState (Serializable.UserObject u) dm
  | AddPdxType u i => TcrMessageAddPdxType to_utf16 user toDelta txState (Serializable.UserObject u) dm i
  | GetPdxIdForEnum o => TcrMessageGetPdxIdForEnum to_utf16 user toDelta txState o dm
  | AddPdxEnum o i => TcrMessageAddPdxEnum to_utf16 user toDelta txState o dm i
  | GetPdxTypeById i => TcrMessageGetPdxTypeById txState i dm
  | GetPdxEnumById i => TcrMessageGetPdxEnumById txState i dm
  | RemoveUserAuth b => TcrMessageRemoveUserAuth to_utf16 user toDelta txState b dm
  | UserCredential creds =>
    TcrMessageUserCredential (Serializable.CacheableMap Serializable.Properties creds) dm;;
    createUserCredentialMessage to_utf16 user toDelta txState
  end.
End Build.

(** *** What servers expect *)

Definition type_of (r : request) : Z :=
  match r with
  | DestroyRegion _ _ _ => 11 | ClearRegion _ _ _ => 36 | CreateRegion _ _ _ _ => 29
  | Query _ _ => 34 | StopCQ _ _ => 44 | CloseCQ _ _ => 45 | QueryWithParameters _ _ _ => 80 | GetDurableCqs => 105
  | ExecuteCq _ _ _ _ => 42 | ExecuteCqWithIr _ _ _ _ => 43
  | ContainsKey _ _ _ _ => 38 | Request_ _ _ _ => 0 | Invalidate _ _ _ => 83 | Destroy _ _ _ _ _ => 9
  | Put _ _ _ _ _ _ _ | PutDelta _ _ _ _ _ _ => 7
  | PutAll _ _ _ cb => if is_null cb then 56 else 108
  | RemoveAll _ _ _ => 109
  | GetAll _ _ cb => if is_null cb then 100 else 107
  | RegisterInterestList _ _ _ _ _ _ => 24 | UnregisterInterestList _ _ _ => 25
  | RegisterInterestRegex _ _ _ _ _ _ => 20 | UnregisterInterestRegex _ _ _ => 22
  | TxSynchronization _ _ _ => 90 | ClientReady => 53 | Commit => 85 | Rollback => 87 | TxFailover => 88
  | MakePrimary _ => 31 | Ping => 5 | CloseConnection _ => 18 | PeriodicAck _ => 52 | RequestEventValue _ => 68
  | ExecuteFunction _ _ _ _ => 62 | ExecuteRegionFunction _ _ _ _ _ _ _ _ => 59
  | ExecuteRegionFunctionOnKeys _ _ _ _ _ _ _ | ExecuteRegionFunctionOnBuckets _ _ _ _ _ _ _ => 79
  | GetClientPartitionAttributes _ => 73 | GetClientPrMetadata _ => 71 | Size _ => 81 | GetFunctionAttributes _ => 91 | KeySet _ => 40
  | GetPdxIdForType _ => 93 | AddPdxType _ _ => 94 | GetPdxIdForEnum _ => 97 | AddPdxEnum _ _ => 96
  | GetPdxTypeById _ => 92 | GetPdxEnumById _ => 98 | RemoveUserAuth _ => 78 | UserCredential _ => 77
  end.

(** Operations that users start, which go with their credentials. *)
Definition by_user (r : request) : bool :=
  match r with
  | Put _ _ _ _ meta _ _ | PutDelta _ _ _ _ meta _ => negb meta
  | TxSynchronization _ _ _ | ClientReady | Commit | Rollback | TxFailover | MakePrimary _ | Ping | CloseConnection _ | PeriodicAck _
  | RequestEventValue _ | GetClientPartitionAttributes _ | GetClientPrMetadata _ | Size _ | GetFunctionAttributes _
  | GetPdxIdForType _ | AddPdxType _ _ | GetPdxIdForEnum _ | AddPdxEnum _ _ | GetPdxTypeById _ | GetPdxEnumById _ => false
  | _ => true
  end.

(** Whether the request has an event id, repeats the last one, and how many further ids it
    reserves. *)
Definition uses_id (r : request) : option (bool * Z) :=
  match r with
  | DestroyRegion _ _ _ | ClearRegion _ _ _ | Query _ _ | StopCQ _ _ | CloseCQ _ _ | Invalidate _ _ _ | Destroy _ _ _ _ _
  | PutDelta _ _ _ _ _ _ => Some (false, 0)
  | Put _ _ _ _ _ again _ => Some (again, 0)
  | PutAll _ map _ _ => Some (false, u32 (length_ map - 1))
  | RemoveAll _ keys _ => Some (false, u32 (length_ keys - 1))
  | _ => None
  end.

Section Expected.
Context (to_utf16 : list Z -> outcome (list Z)) (enc_user enc_data enc_delta : U -> list Z).
Abbreviation object_part := (object_part to_utf16 enc_user).
Abbreviation text_part := (text_part to_utf16).
Definition optional (o : Object_) : list part := if is_null o then [] else [object_part o].
Definition milliseconds (ms : Z) : list part := if 0 <=? ms then [int_part ms] else [].
Definition name_part (region : option Region) : part := raw_part (region_name region).
Definition put_name (region : option Region) (name : list Z) : part :=
  raw_part (match region with Some r => getFullPath r | None => name end).
Definition failed_parts (failed : option (list Object_)) : list part :=
  match failed with
  | Some l => [int_part (length_ l); object_part (Serializable.CacheableSet Serializable.CacheableHashSet l)]
  | None => [int_part 0]
  end.

(** The parts of a request with the event id [e]. *)
Definition parts_of (r : request) (e : part) : list part :=
  match r with
  | DestroyRegion region cb ms | ClearRegion region cb ms => [name_part region; e] ++ optional cb ++ milliseconds ms
  | CreateRegion parent name _ _ => [raw_part parent; raw_part name]
  | Query q ms | StopCQ q ms | CloseCQ q ms => [raw_part q; e] ++ milliseconds ms
  | QueryWithParameters q params ms => [raw_part q; int_part (length_ params); int_part 15; int_part ms] ++ (object_part <$> params)
  | GetDurableCqs => [raw_part [0]]
  | ExecuteCq name q state d | ExecuteCqWithIr name q state d =>
    [text_part name; text_part q; int_part (CqState_code state); raw_part [flag d]; raw_part [1]]
  | ContainsKey region key cb b => [name_part region; object_part key; int_part (if b then 0 else 1)] ++ optional cb
  | Request_ region key cb => [name_part region; object_part key] ++ optional cb
  | Invalidate region key cb => [name_part region; object_part key; e] ++ optional cb
  | Destroy region key v n cb =>
    [name_part region; object_part key; object_part v;
     object_part (if negb (is_null v) || n then Serializable.CacheableByte 8 else Serializable.nullptr); e] ++ optional cb
  | Put region key v cb _ _ name =>
    [put_name region name; object_part Serializable.nullptr; int_part 0; object_part key; object_part (Serializable.CacheableBoolean false);
     object_part v; e] ++ optional cb
  | PutDelta region key u cb _ name =>
    [put_name region name; object_part Serializable.nullptr; int_part 0; object_part key; object_part (Serializable.CacheableBoolean true);
     mkPart 0 (enc_delta u); e] ++ optional cb
  | PutAll region map ms cb =>
    [raw_part (getFullPath region); e; int_part 0; int_part (region_flags region); int_part (length_ map)] ++ optional cb ++
    (map ≫= fun kv => [object_part kv.1; object_part kv.2]) ++ milliseconds ms
  | RemoveAll region keys cb =>
    [raw_part (getFullPath region); e; int_part (region_flags region); object_part cb; int_part (length_ keys)] ++ (object_part <$> keys)
  | GetAll region keys cb =>
    [raw_part (getFullPath region); object_part (Serializable.CacheableObjectArray keys); if is_null cb then int_part 0 else object_part cb]
  | RegisterInterestList region keys d e v all =>
    [name_part region; policy_part (if all then KEYS_VALUES else NONE); raw_part [flag d];
     object_part (Serializable.CacheableList Serializable.CacheableArrayList keys); raw_part [flag (negb v)]; raw_part [flag e; 0]]
  | UnregisterInterestList region keys d =>
    [name_part region; raw_part [0]; raw_part [flag d]; int_part (length_ keys)] ++ (object_part <$> keys)
  | RegisterInterestRegex region regex p d e v =>
    [raw_part region; int_part 1; policy_part p; raw_part [flag d]; raw_part regex; raw_part [flag (negb v)]; raw_part [flag e; 0]]
  | UnregisterInterestRegex region regex d => [raw_part region; int_part 1; raw_part regex; raw_part [0]; raw_part [flag d]]
  | TxSynchronization o x st => [int_part o; int_part x] ++ (if o =? 1 then [int_part st] else [])
  | ClientReady | Commit | Rollback | TxFailover => [raw_part [0]]
  | MakePrimary b | CloseConnection b | RemoveUserAuth b => [raw_part [flag b]]
  | Ping => []
  | PeriodicAck entries => (fun entry => object_part (Serializable.EventIdObject (ack_id entry))) <$> entries
  | RequestEventValue e => [object_part (Serializable.EventIdObject e)]
  | ExecuteFunction name args g ms => [raw_part (u8 g :: be_bytes 4 (u32 ms)); raw_part name; object_part args]
  | ExecuteRegionFunction name region args l g f ms re =>
    [raw_part (u8 g :: be_bytes 4 (u32 ms)); name_part region; raw_part name; object_part args; object_part Serializable.nullptr;
     raw_part [u8 re]; int_part (length_ l)] ++ (object_part <$> l) ++ failed_parts f
  | ExecuteRegionFunctionOnKeys name region args l g f ms =>
    [raw_part (u8 g :: be_bytes 4 (u32 ms)); name_part region; raw_part name; object_part args; object_part Serializable.nullptr;
     raw_part [0]; int_part (length_ l)] ++ (object_part <$> l) ++ failed_parts f
  | ExecuteRegionFunctionOnBuckets name region args l g f ms =>
    [raw_part (u8 g :: be_bytes 4 (u32 ms)); name_part region; raw_part name; object_part args; object_part Serializable.nullptr;
     raw_part [1]; int_part (length_ l)] ++ (int_part <$> l) ++ failed_parts f
  | GetClientPartitionAttributes n | GetClientPrMetadata n | Size n | GetFunctionAttributes n | KeySet n => [raw_part n]
  | GetPdxIdForType u => [mkPart 1 (enc_data u)]
  | AddPdxType u i => [mkPart 1 (enc_data u); int_part i]
  | GetPdxIdForEnum o => [object_part o]
  | AddPdxEnum o i => [object_part o; int_part i]
  | GetPdxTypeById i | GetPdxEnumById i => [int_part i]
  | UserCredential creds => [raw_part (raw (enc_elements (fun kv => wire to_utf16 enc_user kv.1 ++ wire to_utf16 enc_user kv.2) creds))]
  end.
End Expected.
End Table.
Arguments request U : clear implicits.
