(* ===== verification/MessageClaims.v ===== *)
(** Every request is a frame of its parts: the constructors make what servers expect. *)
From S2P Require Import Prelude JavaModifiedUtf8 DataOutput DataOutputFacts DataInput DataInputFacts Utf8Strings EventId EventIdMap CacheableString CacheableBuiltins BuiltinsFacts BuiltinsClaims TcrMessage TcrRequests MessageFacts MessageParts MessageTable.
Import MessageFrames.
Import TcrMessage Requests.
#[local] Arguments be_bytes : simpl never.
Local Open Scope Z_scope.

(** *** Requests that can be sent *)

Section Framed.
Context `{AllocatorOk} {U : Type} (to_utf16 to_utf8 : list Z -> outcome (list Z)) (user : Serializable.UserTypes U)
  (enc_user : U -> list Z) (user_ok : U -> Prop) (toDelta : U -> option (ST DataOutput.t unit))
  (enc_data enc_delta : U -> list Z).
Context `{!UserCodec user enc_user user_ok} `{!DeltaCodec user user_ok toDelta enc_data enc_delta}.
Context (thread : nat) (txState : option Z).
Abbreviation Object_ := (Serializable.t U).
Abbreviation value_ok := (value_ok to_utf16 to_utf8 user user_ok).
Abbreviation object_part := (object_part to_utf16 enc_user).
Abbreviation optional := (optional to_utf16 enc_user).
Abbreviation parts_of := (parts_of to_utf16 enc_user enc_data enc_delta).
Abbreviation build := (build to_utf16 user toDelta thread txState).

Definition name_ok (s : list Z) : Prop := length_ s < 2 ^ 31.
Definition region_ok (region : option Region) : Prop := name_ok (region_name region).
Definition few {A} (l : list A) : Prop := length_ l < 2 ^ 30.
Definition key_ok (k : Object_) : Prop := is_null k = false /\ value_ok k.
Definition keys_ok (l : list Object_) : Prop := few l /\ Forall value_ok l.
Definition failed_ok (f : option (list Object_)) : Prop :=
  match f with Some l => value_ok (Serializable.CacheableSet Serializable.CacheableHashSet l) | None => True end.
Definition cq_ok (s : list Z) : Prop :=
  s <> [] /\ to_utf16 s = Ok (utf16 to_utf16 s) /\ name_ok (payload (text_part to_utf16 s)).

(** A query with parameters needs a timeout, the strings of a continuous query are not empty. *)
Definition request_ok (r : request U) : Prop :=
  match r with
  | DestroyRegion region cb _ | ClearRegion region cb _ => region_ok region /\ value_ok cb
  | CreateRegion parent name _ _ => name_ok parent /\ name_ok name
  | Query q _ | StopCQ q _ | CloseCQ q _ => name_ok q
  | QueryWithParameters q params ms => name_ok q /\ keys_ok params /\ 0 <= ms
  | ExecuteCq name q _ _ | ExecuteCqWithIr name q _ _ => cq_ok name /\ cq_ok q
  | ContainsKey region key cb _ | Request_ region key cb | Invalidate region key cb => region_ok region /\ key_ok key /\ value_ok cb
  | Destroy region key v _ cb => region_ok region /\ key_ok key /\ value_ok v /\ value_ok cb
  | Put region key v cb _ _ name =>
    name_ok (payload (put_name region name)) /\ key_ok key /\ value_ok v /\ value_ok cb
  | PutDelta region key u cb _ name =>
    name_ok (payload (put_name region name)) /\ key_ok key /\ (user_ok u /\ is_Some (toDelta u)) /\ value_ok cb
  | PutAll region map _ cb =>
    name_ok (getFullPath region) /\ (few map /\ Forall (fun kv => value_ok kv.1 /\ value_ok kv.2) map) /\ value_ok cb
  | RemoveAll region keys cb => name_ok (getFullPath region) /\ keys_ok keys /\ value_ok cb
  | GetAll region keys cb => name_ok (getFullPath region) /\ value_ok (Serializable.CacheableObjectArray keys) /\ value_ok cb
  | RegisterInterestList region keys _ _ _ _ =>
    region_ok region /\ Forall (fun k => is_null k = false) keys /\ value_ok (Serializable.CacheableList Serializable.CacheableArrayList keys)
  | UnregisterInterestList region keys _ => region_ok region /\ few keys /\ Forall key_ok keys
  | RegisterInterestRegex region regex _ _ _ _ | UnregisterInterestRegex region regex _ => name_ok region /\ name_ok regex
  | PeriodicAck entries => few entries /\ Forall (fun entry => EventId.valid (ack_id entry)) entries
  | RequestEventValue e => EventId.valid e
  | ExecuteFunction name args _ _ => name_ok name /\ value_ok args
  | ExecuteRegionFunction name region args l _ f _ _ | ExecuteRegionFunctionOnKeys name region args l _ f _ =>
    name_ok name /\ region_ok region /\ value_ok args /\ keys_ok l /\ failed_ok f
  | ExecuteRegionFunctionOnBuckets name region args l _ f _ => name_ok name /\ region_ok region /\ value_ok args /\ few l /\ failed_ok f
  | GetClientPartitionAttributes n | GetClientPrMetadata n | Size n | GetFunctionAttributes n | KeySet n => name_ok n
  | GetPdxIdForType u | AddPdxType u _ => user_ok u
  | GetPdxIdForEnum o | AddPdxEnum o _ => value_ok o
  | UserCredential creds => value_ok (Serializable.CacheableMap Serializable.Properties creds) /\
    short (enc_elements (fun kv => wire to_utf16 enc_user kv.1 ++ wire to_utf16 enc_user kv.2) creds)
  | GetDurableCqs | TxSynchronization _ _ _ | ClientReady | Commit | Rollback | TxFailover | MakePrimary _ | Ping | CloseConnection _
  | GetPdxTypeById _ | GetPdxEnumById _ | RemoveUserAuth _ => True
  end.

(** *** Composite parts *)

Abbreviation writes := (writes_parts (U := U)).

Lemma writes_one s c v : value_ok v -> writes s (writeObject_part to_utf16 user toDelta v) c [object_part v] c s.
Proof. intros Hv. by eapply writes_object. Qed.
Lemma writes_string s c str : cq_ok str -> writes s (writeStringPart to_utf16 str) c [text_part to_utf16 str] c s.
Proof. intros (Hne & Hu & Hl). by apply writes_text. Qed.

Lemma writes_type s c u : user_ok u ->
  writes s (writeObjectPart to_utf16 user toDelta (Serializable.UserObject u) false true None) c [mkPart 1 (enc_data u)] c s.
Proof. intros Hu. by eapply writes_data. Qed.
Lemma writes_change s c u : user_ok u /\ is_Some (toDelta u) ->
  writes s (writeObjectPart to_utf16 user toDelta (Serializable.UserObject u) true false None) c [mkPart 0 (enc_delta u)] c s.
Proof. intros [Hu [w Hw]]. by eapply writes_delta. Qed.

Lemma writes_callback s c cb : value_ok cb -> writes s (callback to_utf16 user toDelta cb) c (optional cb) c s.
Proof.
  intros Hv. unfold callback, MessageTable.optional. destruct (is_null cb) eqn:E; [apply writes_nothing|].
  by eapply writes_object.
Qed.

Definition flagged (cb : Object_) (s : t (U := U)) : t (U := U) := set_isCallBackArguement (negb (is_null cb) || m_isCallBackArguement s) s.
Lemma writes_flagged s c cb : value_ok cb -> writes s (callback_flagged to_utf16 user toDelta cb) c (optional cb) c (flagged cb s).
Proof.
  intros Hv. unfold callback_flagged, MessageTable.optional, flagged. destruct (is_null cb) eqn:E; cbn [negb orb].
  - replace (set_isCallBackArguement _ s) with s by (by destruct s). apply writes_nothing.
  - intros d l. apply (writes_object to_utf16 to_utf8 user enc_user user_ok toDelta (set_isCallBackArguement true s) c cb Hv d l).
Qed.

Lemma writes_timeout s c : writes s response_timeout c (milliseconds (m_messageResponseTimeout s)) c s.
Proof.
  intros d l. unfold response_timeout, milliseconds. rewrite get_spec. cbn [fst]. change (m_messageResponseTimeout (set_request d s)) with (m_messageResponseTimeout s).
  destruct (0 <=? m_messageResponseTimeout s); [|apply (writes_nothing s c d l)].
  replace (int_part _) with (int_part (s32 (m_messageResponseTimeout s))); [apply writes_int|]. unfold int_part. by rewrite wrapU_wrapS.
Qed.

Lemma bind_fmap {A B} (f : A -> B) l : (l ≫= fun x => [f x]) = f <$> l.
Proof. induction l as [|x l IH]; [done|]. by rewrite bind_cons, IH. Qed.

Lemma writes_objects s c l : Forall value_ok l -> writes s (st_iter (writeObject_part to_utf16 user toDelta) l) c (object_part <$> l) c s.
Proof.
  intros Hl. rewrite <- bind_fmap. apply writes_iter. eapply list.Forall_impl; [exact Hl|]. intros v Hv. by eapply writes_object.
Qed.

Lemma writes_pairs s c l : Forall (fun kv => value_ok kv.1 /\ value_ok kv.2) l ->
  writes s (st_iter (fun kv => writeObject_part to_utf16 user toDelta kv.1;; writeObject_part to_utf16 user toDelta kv.2) l) c
    (l ≫= fun kv => [object_part kv.1; object_part kv.2]) c s.
Proof.
  intros Hl. apply writes_iter. eapply list.Forall_impl; [exact Hl|]. intros kv [Hk Hv].
  apply (writes_parts_bind s s s _ _ c c c [_] [_]); by eapply writes_object.
Qed.

Lemma writes_key s c key : key_ok key -> writes s (require_key key;; writeObject_part to_utf16 user toDelta key) c [object_part key] c s.
Proof. intros [Hk Hv]. unfold require_key. rewrite Hk. by eapply writes_object. Qed.

Lemma writes_key_list s c l : Forall key_ok l ->
  writes s (st_iter (fun key => require_key key;; writeObject_part to_utf16 user toDelta key) l) c (object_part <$> l) c s.
Proof.
  intros Hl. rewrite <- bind_fmap. apply writes_iter. eapply list.Forall_impl; [exact Hl|]. intros v Hv. by apply writes_key.
Qed.

Lemma writes_no_nulls s c l : Forall (fun k : Object_ => is_null k = false) l -> writes s (st_iter require_key l) c [] c s.
Proof.
  induction 1 as [|k l Hk _ IH]; [apply writes_nothing|]. apply (writes_parts_bind s s s _ _ c c c [] []); [|done].
  unfold require_key. rewrite Hk. apply writes_nothing.
Qed.

Lemma writes_raw s c l : Forall (in_u 7) l -> l <> [] -> short l -> writes s (writeObject_part to_utf16 user toDelta (Serializable.CacheableBytes l)) c [raw_part l] c s.
Proof.
  intros Hl Hne Hs. assert (Hv : value_ok (Serializable.CacheableBytes l)).
  { split; [done|]. eapply list.Forall_impl; [exact Hl|]. intros z Hz. unfold in_u, in_s in *. lia. }
  replace (raw_part l) with (object_part (Serializable.CacheableBytes l)); [by apply writes_one|].
  assert (Hr : raw l = l). { unfold raw. clear -Hl. induction Hl as [|z l Hz _ IH]; [done|]. rewrite fmap_cons, IH, (wrapU_id 8); [done|]. unfold in_u in *. lia. }
  destruct l; [done|]. unfold MessageParts.object_part. by rewrite Hr.
Qed.

Lemma writes_interest s c v e : writes s (interest_bytes to_utf16 user toDelta v e) c [raw_part [flag (negb v)]; raw_part [flag e; 0]] c s.
Proof.
  assert (Hb : forall b, Forall (in_u 7) [flag b]) by (intros []; apply Forall_singleton; done).
  apply (writes_parts_bind s s s _ _ c c c [_] [_]); apply writes_raw; try done. apply Forall_cons_2; [by destruct e|by apply Forall_singleton].
Qed.

Lemma writes_failed s c f : failed_ok f -> writes s (failed_nodes_parts to_utf16 user toDelta f) c (failed_parts to_utf16 enc_user f) c s.
Proof.
  intros Hf. destruct f as [l|]; [|apply writes_int]. cbn [failed_nodes_parts failed_parts].
  apply (writes_parts_bind s s s _ _ c c c [_] [_]); [|by eapply writes_object].
  replace (int_part (length_ l)) with (int_part (s32 (length_ l))); [apply writes_int|]. unfold int_part. by rewrite wrapU_wrapS.
Qed.

Lemma writes_count {A} s c (l : list A) : few l -> writes s (writeIntPart (s32 (length_ l))) c [int_part (length_ l)] c s.
Proof. intros Hl. unfold few, length_ in *. rewrite wrapS_id by (unfold in_s; lia). apply writes_int. Qed.

Lemma writes_buckets s c l : writes s (st_iter write_bucket (Serializable.CacheableInt32 <$> l)) c (int_part <$> l) c s.
Proof.
  induction l as [|n l IH]; [apply writes_nothing|]. rewrite !fmap_cons.
  apply (writes_parts_bind s s s _ _ c c c [int_part n] (int_part <$> l)); [apply writes_int|exact IH].
Qed.

Lemma writes_bool s c b : writes s (writeBytePart (flag b)) c [raw_part [flag b]] c s.
Proof. replace (raw_part [flag b]) with (raw_part [u8 (flag b)]) by (by destruct b). apply writes_byte. Qed.

Lemma writes_acks s c l : Forall (fun entry => EventId.valid (ack_id entry)) l ->
  writes s (st_iter (fun entry => writeObject_part to_utf16 user toDelta (Serializable.EventIdObject (ack_id entry))) l) c
    ((fun entry => object_part (Serializable.EventIdObject (ack_id entry))) <$> l) c s.
Proof.
  intros Hl. rewrite <- bind_fmap. apply writes_iter. eapply list.Forall_impl; [exact Hl|]. intros e He. by apply writes_one.
Qed.

Lemma writes_alive s c b : writes s (on_request (DataOutput.writeInt_int32 1;; DataOutput.writeBoolean false;; DataOutput.writeBoolean b)) c
  [raw_part [flag b]] c s.
Proof.
  apply writes_request, emits_appends, (emits_bind _ _ (be_bytes 4 (u32 1))); [apply emits_writeInt_int32|].
  apply (emits_bind _ _ [0]); [apply emits_writeBoolean|]. apply emits_writeBoolean.
Qed.

Lemma writes_id s c i : writes s (on_request (DataOutput.writeInt_int32 4;; DataOutput.writeBoolean false;; DataOutput.writeInt_int32 i)) c
  [int_part i] c s.
Proof.
  apply writes_request, emits_appends, (emits_bind _ _ (be_bytes 4 (u32 4))); [apply emits_writeInt_int32|].
  apply (emits_bind _ _ [0]); [apply emits_writeBoolean|]. apply emits_writeInt_int32.
Qed.

Lemma reserve_wrap n : u32 (s32 (u32 (u32 n - 1))) = u32 (n - 1).
Proof. rewrite wrapU_wrapS. unfold wrapU. by rewrite Zmod_mod, Zminus_mod_idemp_l. Qed.

(** The event id of a bulk operation. *)
Lemma writes_reserve s c n k : u32 n = u32 k -> writes s (writeEventIdPart thread n false) c
  [event_part (op_id thread false c).1 (op_id thread false c).2] (op_after thread false (u32 k) c) s.
Proof. intros <-. apply writes_event. Qed.

(** *** All requests *)

Definition id_part (r : request U) (c : EventId.Counters) : part :=
  match uses_id r with
  | Some (again, _) => event_part (op_id thread again c).1 (op_id thread again c).2
  | None => raw_part []
  end.
Definition counters_after (r : request U) (c : EventId.Counters) : EventId.Counters :=
  match uses_id r with Some (again, n) => op_after thread again n c | None => c end.
Definition expected_head (r : request U) (dm : option bool) : head :=
  mkHead (type_of r) (default (-1) txState) (if bool_decide (dm = Some true) && by_user r then 2 else 0).

Lemma builds_for (s : t (U := U)) w c h h' ps ps' c' c2 s' : builds s w c h ps c' s' -> h = h' -> ps = ps' -> c' = c2 -> builds s w c h' ps' c2 s'.
Proof. by intros ? <- <- <-. Qed.

(** What is known of the message besides its bytes. *)
Definition plain (ty : Z) (s : t (U := U)) : Prop := m_msgType s = ty /\ m_isSecurityHeaderAdded s = false.

Definition makes (r : request U) (dm : option bool) (c : EventId.Counters) : Prop := forall d0, exists s',
  builds (construct d0) (build r dm) c (expected_head r dm) (parts_of r (id_part r c)) (counters_after r c) s' /\ plain (type_of r) s'.

Lemma makes_intro r dm c w : (forall d0, exists s', builds (construct d0) w c (expected_head r dm) (parts_of r (id_part r c)) (counters_after r c) s' /\ plain (type_of r) s') ->
  build r dm = w -> makes r dm c.
Proof. by intros Hw <-. Qed.

(** The fields that are set before the header. *)
Abbreviation Fields := (t (U := U)).
Lemma builds_set (f : Fields -> Fields) (s : Fields) w c h ps c' s' : (forall d s, f (set_request d s) = set_request d (f s)) ->
  builds (f s) w c h ps c' s' -> builds s (Requests.set f;; w) c h ps c' s'.
Proof. intros Hf Hb. eapply (builds_first _ tt); [|exact Hb]. intros d. unfold Requests.set, modify, st_modify. cbn. by rewrite Hf. Qed.
Lemma builds_start ty dm (s : Fields) w c h ps c' s' : builds (set_tcdm dm (set_msgType ty s)) w c h ps c' s' ->
  builds s (start ty dm;; w) c h ps c' s'.
Proof. intros Hb. eapply (builds_first _ tt); [|exact Hb]. done. Qed.
Lemma builds_region region (s : Fields) w c h ps c' s' : builds (set_region region (set_regionName (region_name region) s)) w c h ps c' s' ->
  builds s (for_region region;; w) c h ps c' s'.
Proof. intros Hb. eapply (builds_first _ tt); [|exact Hb]. done. Qed.
Lemma builds_timeout (s : Fields) w c h ps c' s' : builds s (w (flag (0 <=? m_messageResponseTimeout s))) c h ps c' s' ->
  builds s (timeout_parts ≫= w) c h ps c' s'.
Proof. intros Hb. eapply builds_first; [|exact Hb]. done. Qed.
Lemma builds_key key (s : Fields) w c h ps c' s' : key_ok key -> builds s w c h ps c' s' -> builds s (require_key key;; w) c h ps c' s'.
Proof. intros [Hk _] Hb. eapply (builds_first _ tt); [|exact Hb]. unfold require_key. by rewrite Hk. Qed.
Lemma builds_skip (s : Fields) w c h ps c' s' : builds s w c h ps c' s' -> builds s (mret tt;; w) c h ps c' s'.
Proof. done. Qed.
Lemma builds_assoc (s : Fields) (w1 w2 w3 : M unit) c h ps c' s' : builds s (w1;; w2;; w3) c h ps c' s' -> builds s ((w1;; w2);; w3) c h ps c' s'.
Proof.
  intros Hb d Hw Hd Hl. destruct (Hb d Hw Hd Hl) as (d' & E & Hr). exists d'. split; [|done].
  rewrite <- E. unfold mbind, ST_bind. by destruct (w1 (set_request d s, c)) as [[[] ?]|].
Qed.

Lemma completes_set h n (s : Fields) w c ps c' s' (f g : Fields -> Fields) : completes h n s w c ps c' s' ->
  (forall d s, f (set_request d s) = set_request d (f s)) -> (forall d s, g (set_request d s) = set_request d (g s)) ->
  completes h n s (w;; Requests.set f;; Requests.set g) c ps c' (g (f s')).
Proof.
  intros Hc Hf Hg. eapply completes_then; [exact Hc|]. intros d. unfold Requests.set, modify, st_modify, mbind, ST_bind. cbn. by rewrite Hf, Hg.
Qed.
Lemma completes_set1 h n (s : Fields) w c ps c' s' (f : Fields -> Fields) : completes h n s w c ps c' s' ->
  (forall d s, f (set_request d s) = set_request d (f s)) -> completes h n s (w;; Requests.set f) c ps c' (f s').
Proof. intros Hc Hf. eapply completes_then; [exact Hc|]. intros d. unfold Requests.set, modify, st_modify. cbn. by rewrite Hf. Qed.

Lemma builds_lift {A} (o : outcome A) a (s : Fields) w c h ps c' s' : o = Ok a -> builds s (w a) c h ps c' s' -> builds s (st_lift o ≫= w) c h ps c' s'.
Proof. intros -> Hb. eapply builds_first; [|exact Hb]. done. Qed.
Lemma completes_assoc h n (s : Fields) (w1 w2 w3 : M unit) c ps c' s' : completes h n s (w1;; w2;; w3) c ps c' s' -> completes h n s ((w1;; w2);; w3) c ps c' s'.
Proof.
  intros Hb d ps0 Hw Ho Hl. destruct (Hb d ps0 Hw Ho Hl) as (d' & E & Hr). exists d'. split; [|done].
  rewrite <- E. unfold mbind, ST_bind. by destruct (w1 (set_request d s, c)) as [[[] ?]|].
Qed.

(** The keys of a bulk read are those that the constructor kept. *)
Lemma completes_getall h n (s : Fields) keys cb c : m_keyList s = Some keys -> value_ok (Serializable.CacheableObjectArray keys) -> value_ok cb ->
  completes h n s (InitializeGetallMsg to_utf16 user toDelta cb) c
    [object_part (Serializable.CacheableObjectArray keys); if is_null cb then int_part 0 else object_part cb] c s.
Proof.
  intros Hk Ha Hv d ps0. unfold InitializeGetallMsg. rewrite get_spec. cbn [fst]. change (m_keyList (set_request d s)) with (m_keyList s).
  rewrite Hk. revert d ps0. apply (completes_step h n s s s _ _ c c c [_] [_]); [by eapply writes_keys|].
  apply (completes_step h n s s s _ _ c c c [_] []); [|apply completes_end]. destruct (is_null cb); [apply writes_int|by apply writes_one].
Qed.

Ltac fields := cbv beta zeta;
  repeat match goal with
  | |- builds _ (?m ≫= _) _ _ _ _ _ =>
    match m with
    | Requests.set _ => eapply builds_set; [intros; reflexivity|]
    | start _ _ => apply builds_start
    | for_region _ => apply builds_region
    | timeout_parts => apply builds_timeout
    | require_key _ => apply builds_key; [assumption|]
    | mret tt => apply builds_skip
    | when false _ => apply builds_skip
    | st_lift _ => eapply builds_lift; [reflexivity|]
    | (_ ≫= _) => apply builds_assoc
    end; cbv beta zeta
  end.

Ltac writer w :=
  match w with
  | mret tt => apply writes_nothing
  | writeRegionPart _ => apply writes_name
  | writeIntPart (s32 (length_ _)) => apply writes_count
  | writeIntPart _ => apply writes_int
  | writeBytePart (flag _) => apply writes_bool
  | writeBytePart _ => apply writes_byte
  | writeByteAndTimeOutPart _ _ => apply writes_byte_timeout
  | writeInterestResultPolicyPart _ => apply writes_policy
  | writeEventIdPart _ 0 _ => apply writes_op
  | writeEventIdPart _ (s32 (u32 (u32 ?n - 1))) _ => apply (writes_reserve _ _ _ (n - 1)), reserve_wrap
  | writeEventIdPart _ (s32 ?n) _ => apply (writes_reserve _ _ _ n), wrapU_wrapS
  | writeStringPart _ _ => apply writes_string
  | writeObject_part _ _ _ (Serializable.CacheableBytes [flag _]) => apply writes_raw; [apply Forall_singleton; match goal with |- in_u 7 (flag ?b) => by destruct b end|done..]
  | writeObject_part _ _ _ _ => apply writes_one
  | writeObjectPart _ _ _ _ false false None => apply writes_one
  | writeObjectPart _ _ _ _ false true None => apply writes_type
  | writeObjectPart _ _ _ _ true false None => apply writes_change
  | callback _ _ _ _ => apply writes_callback
  | callback_flagged _ _ _ _ => apply writes_flagged
  | response_timeout => apply writes_timeout
  | st_iter (writeObject_part _ _ _) _ => apply writes_objects
  | st_iter require_key _ => apply writes_no_nulls
  | st_iter (λ _, writeObject_part _ _ _ (Serializable.EventIdObject _)) _ => apply writes_acks
  | st_iter (λ _, require_key _ ≫= _) _ => apply writes_key_list
  | st_iter (λ _, writeObject_part _ _ _ _ ≫= _) _ => apply writes_pairs
  | st_iter write_bucket _ => apply writes_buckets
  | on_request (_ ≫= λ _, _ ≫= λ _, DataOutput.writeBoolean _) => apply writes_alive
  | on_request (_ ≫= λ _, _ ≫= λ _, DataOutput.writeInt_int32 _) => apply writes_id
  | interest_bytes _ _ _ _ _ => apply writes_interest
  | failed_nodes_parts _ _ _ _ => apply writes_failed
  end.

Ltac parts := cbv beta zeta;
  repeat match goal with
  | |- completes _ _ _ writeMessageLength _ _ _ _ => apply completes_end
  | |- completes _ _ _ (writeMessageLength ≫= λ _, Requests.set _) _ _ _ _ => apply completes_set1; [apply completes_end|intros; reflexivity]
  | |- completes _ _ _ (writeMessageLength ≫= _) _ _ _ _ => apply completes_set; [apply completes_end|intros; reflexivity..]
  | |- completes _ _ _ (InitializeGetallMsg _ _ _ _) _ _ _ _ => eapply completes_getall; [reflexivity|..]
  | |- completes _ _ _ ((_ ≫= _) ≫= _) _ _ _ _ => apply completes_assoc
  | |- completes _ _ _ (?w ≫= _) _ _ _ _ => eapply completes_step; [writer w|cbv beta zeta]
  end.

Lemma length_pairs {A B} (f g : A -> B) l : length (l ≫= fun x => [f x; g x]) = (2 * length l)%nat.
Proof. induction l as [|x l IH]; [done|]. rewrite bind_cons, length_app, IH. cbn [length]. lia. Qed.

(** Counts the parts. *)
Ltac read_timeout :=
  repeat match goal with
  | |- context [m_messageResponseTimeout ?s] => let v := eval hnf in (m_messageResponseTimeout s) in change (m_messageResponseTimeout s) with v
  end.
Ltac count :=
  read_timeout;
  unfold keys_ok, few, has, flag, function_parts, failed_parts, MessageTable.optional, milliseconds in *; unfold length_ in *;
  repeat match goal with
  | |- context [is_null ?x] => destruct (is_null x) eqn:?
  | |- context [0 <=? ?x] => destruct (0 <=? x) eqn:?
  end; cbn [negb app length] in *; rewrite ?length_app, ?length_fmap, ?length_pairs in *; cbn [length] in *;
  repeat match goal with
  | |- context [wrapU 32 ?x] => lazymatch x with context [wrapU _ _] => fail | _ => rewrite (wrapU_id 32 x) by (unfold in_u; lia) end
  end; first [lia|congruence].

Ltac request_done :=
  match goal with
  | |- value_ok (Serializable.CacheableByte _) => cbn; unfold in_s; lia
  | |- value_ok ?v => match goal with H : value_ok v |- _ => exact H | H : key_ok v |- _ => exact (proj2 H) | _ => done end
  | H : name_ok ?n |- Z.of_nat (length ?n) < _ => exact H
  | H : region_ok ?n |- Z.of_nat (length (region_name ?n)) < _ => exact H
  | H : ?P |- ?P => exact H
  end.

Ltac framed :=
  fields;
  match goal with
  | |- builds _ (writeHeader _ _ _ ≫= _) _ _ _ _ _ =>
    eapply builds_for; [eapply builds_header; [parts; request_done|count]|reflexivity|read_timeout; rewrite ?app_nil_r; reflexivity|reflexivity]
  end.

Ltac request_parts Hok := cbn [request_ok] in Hok; repeat match goal with H : ?A /\ ?B |- _ => lazymatch B with is_Some _ => fail | _ => destruct H end end.
Ltac request dm :=
  let Hok := fresh "Hok" in intros Hok; request_parts Hok;
  destruct dm as [[|]|]; intros d0; eexists; (split; [unfold MessageTable.build; autounfold with requests; framed|split; reflexivity]).

Create HintDb requests.
#[local] Hint Unfold TcrMessageDestroyRegion TcrMessageClearRegion TcrMessageCreateRegion query_message TcrMessageQuery TcrMessageStopCQ TcrMessageCloseCQ
  TcrMessageGetDurableCqs execute_cq TcrMessageExecuteCq TcrMessageExecuteCqWithIr TcrMessageContainsKey TcrMessageRequest TcrMessageInvalidate
  TcrMessageRemoveAll TcrMessageRegisterInterestRegex TcrMessageUnregisterInterestRegex byte_message TcrMessageClientReady
  TcrMessageCommit TcrMessageRollback TcrMessageTxFailover TcrMessageMakePrimary TcrMessagePing TcrMessageRequestEventValue TcrMessageExecuteFunction
  name_message TcrMessageGetClientPartitionAttributes TcrMessageGetClientPrMetadata TcrMessageSize TcrMessageGetFunctionAttributes TcrMessageKeySet
  TcrMessageGetPdxIdForEnum TcrMessageAddPdxEnum TcrMessageRemoveUserAuth
  TcrMessageDestroy TcrMessagePut TcrMessageCloseConnection id_message TcrMessageGetPdxTypeById TcrMessageGetPdxEnumById
  TcrMessageGetPdxIdForType TcrMessageAddPdxType TcrMessageRegisterInterestList TcrMessagePeriodicAck : requests.

Lemma makes_Put region key v cb meta again name dm c :
  request_ok (Put region key v cb meta again name) -> makes (Put region key v cb meta again name) dm c.
Proof. destruct region, meta; request dm. Qed.
Lemma makes_PutDelta region key u cb meta name dm c :
  request_ok (PutDelta region key u cb meta name) -> makes (PutDelta region key u cb meta name) dm c.
Proof. destruct region, meta; request dm. Qed.
Lemma makes_RegisterInterestList region keys d e v all dm c :
  request_ok (RegisterInterestList region keys d e v all) -> makes (RegisterInterestList region keys d e v all) dm c.
Proof. destruct all; request dm. Qed.
Lemma makes_Destroy region key v n cb dm c : request_ok (Destroy region key v n cb) -> makes (Destroy region key v n cb) dm c.
Proof.
  destruct (negb (is_null v) || n) eqn:E.
  - intros Hok. unfold makes, MessageTable.build, TcrMessageDestroy. cbn [MessageTable.parts_of]. rewrite E. revert Hok. request dm.
  - assert (v = Serializable.nullptr) as -> by (destruct v; [done|discriminate E..]).
    intros Hok. unfold makes, MessageTable.build, TcrMessageDestroy. cbn [MessageTable.parts_of]. rewrite E. revert Hok. request dm.
Qed.
Lemma makes_TxSynchronization o x st dm c : makes (TxSynchronization o x st) dm c.
Proof.
  generalize I. change True with (request_ok (TxSynchronization o x st)). unfold makes, MessageTable.build, TcrMessageTxSynchronization.
  cbn [MessageTable.parts_of]. destruct (o =? 1); cbn [when]; request dm.
Qed.
Lemma makes_PeriodicAck l dm c : request_ok (PeriodicAck l) -> makes (PeriodicAck l) dm c.
Proof. request dm. Qed.
Lemma makes_UnregisterInterestList region keys d dm c :
  request_ok (UnregisterInterestList region keys d) -> makes (UnregisterInterestList region keys d) dm c.
Proof.
  intros (Hr & Hf & Hk). assert (Hn : u32 (length_ keys) = length_ keys) by (unfold few, length_ in *; apply wrapU_id; unfold in_u; lia).
  assert (Hs : s32 (u32 (length_ keys)) = s32 (length_ keys)) by (by rewrite wrapS_wrapU).
  unfold makes, MessageTable.build, TcrMessageUnregisterInterestList. cbv zeta. rewrite Hs, Hn. change (Z.to_nat (length_ keys)) with (Z.to_nat (Z.of_nat (length keys))). rewrite Nat2Z.id, take_ge by done.
  assert (Hok : request_ok (UnregisterInterestList region keys d)) by done. clear Hr Hf Hk Hn Hs. revert Hok. request dm.
Qed.
Lemma makes_QueryWithParameters q l ms dm c : request_ok (QueryWithParameters q l ms) -> makes (QueryWithParameters q l ms) dm c.
Proof.
  intros Hok. unfold makes, MessageTable.build, TcrMessageQueryWithParameters. cbn [MessageTable.parts_of].
  replace (int_part (length_ l)) with (int_part (u32 (length_ l))) by (destruct Hok as (_ & [Hf _] & _); unfold few, length_ in *; by rewrite wrapU_id by (unfold in_u; lia)).
  replace [raw_part q; int_part (u32 (length_ l)); int_part 15; int_part ms] with ([raw_part q; int_part (u32 (length_ l)); int_part 15] ++ milliseconds ms)
    by (unfold milliseconds; destruct Hok as (_ & _ & Hm); by destruct (Z.leb_spec 0 ms); [|lia]).
  assert (Hm : (0 <=? ms) = true) by (apply Z.leb_le, Hok).
  revert Hok. destruct dm as [[|]|]; intros (Hq & [Hf Hk] & _) d0; eexists; (split; [framed|split; reflexivity]).
Qed.
Lemma makes_RemoveAll region keys cb dm c : request_ok (RemoveAll region keys cb) -> makes (RemoveAll region keys cb) dm c.
Proof.
  intros (Hr & [Hf Hk] & Hc). 
  destruct dm as [[|]|]; intros d0; eexists; (split; [unfold MessageTable.build, TcrMessageRemoveAll; framed|split; reflexivity]).
Qed.
Lemma makes_PutAll region map ms cb dm c : request_ok (PutAll region map ms cb) -> makes (PutAll region map ms cb) dm c.
Proof.
  intros (Hr & [Hf Hk] & Hc). unfold makes, MessageTable.build, TcrMessagePutAll, expected_head, type_of.
  destruct (is_null cb) eqn:E.
  all: destruct dm as [[|]|]; intros d0; eexists; (split; [framed|split; reflexivity]).
Qed.
Lemma makes_GetAll region keys cb dm c : request_ok (GetAll region keys cb) -> makes (GetAll region keys cb) dm c.
Proof.
  intros (Hr & Hk & Hc). unfold makes, MessageTable.build, TcrMessageGetAll, expected_head, type_of.
  destruct (is_null cb) eqn:E.
  all: destruct dm as [[|]|]; intros d0; eexists; (split; [framed|split; reflexivity]).
Qed.
Lemma makes_ExecuteRegionFunction name region args l g f ms re dm c :
  request_ok (ExecuteRegionFunction name region args l g f ms re) -> makes (ExecuteRegionFunction name region args l g f ms re) dm c.
Proof.
  intros (Hn & Hr & Ha & [Hf Hk] & Hx). unfold makes, MessageTable.build, TcrMessageExecuteRegionFunction.
  destruct f as [nodes|], l as [|k [|k2 l]], dm as [[|]|]; intros d0; eexists; (split; [framed|split; reflexivity]).
Qed.
Lemma makes_OnKeys name region args l g f ms dm c :
  request_ok (ExecuteRegionFunctionOnKeys name region args l g f ms) -> makes (ExecuteRegionFunctionOnKeys name region args l g f ms) dm c.
Proof.
  intros (Hn & Hr & Ha & [Hf Hk] & Hx). unfold makes, MessageTable.build, TcrMessageExecuteRegionFunctionSingleHop.
  destruct f as [nodes|], dm as [[|]|]; intros d0; eexists; (split; [framed|split; reflexivity]).
Qed.
Lemma makes_OnBuckets name region args l g f ms dm c :
  request_ok (ExecuteRegionFunctionOnBuckets name region args l g f ms) -> makes (ExecuteRegionFunctionOnBuckets name region args l g f ms) dm c.
Proof.
  intros (Hn & Hr & Ha & Hf & Hx). unfold makes, MessageTable.build, TcrMessageExecuteRegionFunctionSingleHop.
  assert (Hl : length_ (Serializable.CacheableInt32 (U := U) <$> l) = length_ l) by (unfold length_; by rewrite length_fmap).
  unfold function_parts. rewrite Hl.
  destruct f as [nodes|], dm as [[|]|]; intros d0; eexists; (split; [framed|split; reflexivity]).
Qed.
(** *** Credentials *)

Lemma bytes_of_spec m l : emits m l -> Z.of_nat (length l) + 16 <= 2 ^ 60 ->
  bytes_of (U := U) m = Ok (Serializable.CacheableBytes (s8 <$> l)).
Proof.
  intros Hm Hl. unfold bytes_of, DataOutput.construct, DataOutput.getBuffer_pool. rewrite alloc_ok by lia.
  set (d := DataOutput.mk [] 0 8192 false 0).
  assert (Hw : wf d) by (constructor; cbn; lia).
  destruct (Hm d [] Hw (out_is_nil d eq_refl)) as (d' & E & _ & Ho & _); [cbn [length]; lia|].
  unfold mbind, outcome_bind. cbn [DataOutput.bd_buf DataOutput.bd_size]. fold d. rewrite E. by rewrite (getBuffer_out_is d' l Ho).
Qed.

Lemma raw_s8 l : raw (s8 <$> l) = raw l.
Proof. unfold raw. rewrite <- list_fmap_compose. apply list_fmap_ext. intros _ z _. apply wrapU_wrapS. Qed.

Lemma writes_signed s c l : l <> [] -> short l -> writes s (writeObject_part to_utf16 user toDelta (Serializable.CacheableBytes (s8 <$> l))) c [raw_part (raw l)] c s.
Proof.
  intros Hne Hs. assert (Hv : value_ok (Serializable.CacheableBytes (s8 <$> l))).
  { split; [by unfold short; rewrite length_fmap|]. apply Forall_fmap, Forall_true. intros z. by apply wrapS_range. }
  replace (raw_part (raw l)) with (object_part (Serializable.CacheableBytes (s8 <$> l))); [by apply writes_one|].
  rewrite <- (raw_s8 l). by destruct l.
Qed.

Lemma completes_lift {A} (o : outcome A) a h n (s : Fields) w c ps c' s' : o = Ok a -> completes h n s (w a) c ps c' s' ->
  completes h n s (st_lift o ≫= w) c ps c' s'.
Proof. by intros ->. Qed.

Lemma builds_reset (s : Fields) w c h ps c' s' : builds s w c h ps c' s' -> builds s (on_request DataOutput.reset;; w) c h ps c' s'.
Proof.
  intros Hb d Hw Hd Hl. assert (Hr : exists d1, DataOutput.reset d = Ok (tt, d1) /\ wf d1 /\ DataOutput.m_buf d1 = 0).
  { unfold DataOutput.reset, DataOutput.releaseLock. destruct Hw as [W1 W2 W3 W4]. destruct (DataOutput.m_haveBigBuffer d) eqn:E.
    - rewrite alloc_ok by (unfold DataOutput.m_lowWaterMark; lia). eexists. split; [done|]. split; [|done].
      constructor; unfold DataOutput.m_lowWaterMark; cbn; lia.
    - eexists. split; [done|]. split; [|done]. constructor; cbn; rewrite ?E; lia. }
  destruct Hr as (d1 & E & Hw1 & Hd1). destruct (Hb d1 Hw1 Hd1 Hl) as (d' & E' & Hr'). exists d'. split; [|done].
  rewrite <- E'. unfold mbind, ST_bind, on_request. cbn [fst snd]. change (m_request (set_request d s)) with d. by rewrite E.
Qed.

Lemma builds_get (s : Fields) w c h ps c' s' : (forall d, builds s (w (set_request d s)) c h ps c' s') -> builds s (get ≫= w) c h ps c' s'.
Proof. intros Hb d Hw Hd Hl. destruct (Hb d d Hw Hd Hl) as (d' & E & Hr). exists d'. split; [|done]. rewrite get_spec. exact E. Qed.

Abbreviation enc_creds := (enc_elements (fun kv => wire to_utf16 enc_user kv.1 ++ wire to_utf16 enc_user kv.2)).

Lemma emits_creds creds : value_ok (Serializable.CacheableMap Serializable.Properties creds) ->
  emits (Serializable.toData to_utf16 user (Serializable.CacheableMap Serializable.Properties creds)) (enc_creds creds).
Proof.
  intros (Hs & _ & _ & Hv). rewrite toData_map. apply emits_elements; [done|]. rewrite all_of_Forall in Hv.
  eapply list.Forall_impl; [exact Hv|]. intros kv [H1 H2]. apply emits_bind; by eapply emits_value.
Qed.

Lemma makes_UserCredential creds dm c : request_ok (UserCredential creds) -> makes (UserCredential creds) dm c.
Proof.
  intros (Hv & Hs). pose proof (emits_creds creds Hv) as He.
  assert (Hne : enc_creds creds <> []).
  { unfold enc_elements. pose proof (enc_arrayLen_length (Z.of_nat (length creds))). destruct (enc_arrayLen _); [cbn [length] in *; lia|done]. }
  assert (Hb : bytes_of (U := U) (Serializable.toData to_utf16 user (Serializable.CacheableMap Serializable.Properties creds)) =
    Ok (Serializable.CacheableBytes (s8 <$> enc_creds creds))) by (apply bytes_of_spec; [done|unfold short in Hs; lia]).
  destruct dm as [[|]|]; intros d0; eexists; (split; [unfold MessageTable.build, TcrMessageUserCredential, createUserCredentialMessage; fields;
    apply builds_reset; fields; apply builds_get; intros d; cbv beta;
    lazymatch goal with |- builds ?s _ _ _ _ _ _ => change (m_msgType (set_request d s)) with MsgType.USER_CREDENTIAL_MESSAGE;
      change (m_creds (set_request d s)) with (Serializable.CacheableMap Serializable.Properties creds) end; cbn [is_null];
    (eapply builds_for; [eapply builds_header; [eapply completes_lift; [exact Hb|];
      eapply completes_step; [by apply writes_signed|parts]|reflexivity]|reflexivity..])|split; reflexivity]).
Qed.

(** The requests that need no more than their fields and parts. *)
Definition regular (r : request U) : bool :=
  match r with
  | QueryWithParameters _ _ _ | Destroy _ _ _ _ _ | Put _ _ _ _ _ _ _ | PutDelta _ _ _ _ _ _ | PutAll _ _ _ _ | RemoveAll _ _ _ | GetAll _ _ _
  | RegisterInterestList _ _ _ _ _ _ | UnregisterInterestList _ _ _ | TxSynchronization _ _ _ | ExecuteRegionFunction _ _ _ _ _ _ _ _
  | ExecuteRegionFunctionOnKeys _ _ _ _ _ _ _ | ExecuteRegionFunctionOnBuckets _ _ _ _ _ _ _ | UserCredential _ => false
  | _ => true
  end.
Lemma makes_regular r dm c : regular r = true -> request_ok r -> makes r dm c.
Proof. intros Hr. destruct r; try discriminate Hr; clear Hr; request dm. Qed.

Lemma makes_all r dm c : request_ok r -> makes r dm c.
Proof.
  destruct (regular r) eqn:E; [by apply makes_regular|]. destruct r; try discriminate E; clear E.
  - apply makes_QueryWithParameters.
  - apply makes_Destroy.
  - apply makes_Put.
  - apply makes_PutDelta.
  - apply makes_PutAll.
  - apply makes_RemoveAll.
  - apply makes_GetAll.
  - apply makes_RegisterInterestList.
  - apply makes_UnregisterInterestList.
  - intros _. apply makes_TxSynchronization.
  - apply makes_ExecuteRegionFunction.
  - apply makes_OnKeys.
  - apply makes_OnBuckets.
  - apply makes_UserCredential.
Qed.

(** *** Messages that are on their way *)

(** The message [m] is the frame of the parts [ps], with a security part if one was added. *)
Record framed_message (m : t (U := U)) (h : head) (ps sec : list part) : Prop := {
  framed_wf : wf (m_request m);
  framed_out : out_is (m_request m) (Some <$> frame h ps sec);
  framed_sec : (sec = [] /\ m_isSecurityHeaderAdded m = false) \/
    exists p, sec = [p] /\ m_isSecurityHeaderAdded m = true /\ m_securityHeaderLength m = Z.of_nat (length (enc_part p))
}.

Lemma request_framed r dm c d : request_ok r -> wf d -> DataOutput.m_buf d = 0 -> Z.of_nat (length (enc_parts (parts_of r (id_part r c)))) + 128 <= 2 ^ 60 ->
  exists m, build r dm (construct d, c) = Ok (tt, (m, counters_after r c)) /\
    framed_message m (expected_head r dm) (parts_of r (id_part r c)) [] /\ m_msgType m = type_of r.
Proof.
  intros Hr Hw Hd Hl. destruct (makes_all r dm c Hr d) as (s' & Hb & Ht & Hs). destruct (Hb d Hw Hd Hl) as (d' & E & Hw' & Ho').
  exists (set_request d' s'). split_and!; [exact E| |done]. constructor; [done|done|]. left. done.
Qed.

Lemma st_bind_two {S} (m1 m2 m3 : ST S unit) s s' : (m1;; m2) s = Ok (tt, s') -> (m1;; m2;; m3) s = m3 s'.
Proof. unfold mbind, ST_bind. destruct (m1 s) as [[[] s1]|]; [|done]. by intros ->. Qed.

(** A security part with the ids that [write] puts into it. *)
Lemma part_added (m : t (U := U)) c h n len ps p w : wf (m_request m) -> out_is (m_request m) (Some <$> enc_head h len n ++ enc_parts ps) ->
  (forall s, writes s w c [p] c s) -> Z.of_nat (length (enc_parts (ps ++ [p]))) + 128 <= 2 ^ 60 ->
  exists d', (w;; writeMessageLength) (m, c) = Ok (tt, (set_request d' m, c)) /\ wf d' /\
    out_is d' (Some <$> enc_head h (length_ (enc_parts (ps ++ [p]))) n ++ enc_parts (ps ++ [p])).
Proof.
  intros Hw Ho Hp Hl. destruct (Hp m (m_request m) (enc_head h len n ++ enc_parts ps) Hw Ho) as (d1 & E1 & Hw1 & Ho1).
  { rewrite enc_parts_app, length_app in Hl. rewrite length_app, length_head. lia. }
  rewrite <- app_assoc, <- enc_parts_app in Ho1.
  destruct (length_spec m c h n len (enc_parts (ps ++ [p])) d1 Hw1 Ho1) as (d2 & E2 & Hw2 & Ho2); [unfold length_; lia|].
  exists d2. replace (m, c) with (set_request (m_request m) m, c) by (by destruct m). rewrite (st_bind_ok _ _ _ _ _ E1). done.
Qed.

Lemma security_added (m : t (U := U)) c h ps sec write l : framed_message m h ps sec -> emits write l -> l <> [] -> short l ->
  Z.of_nat (length (enc_parts ps)) + Z.of_nat (length l) + 256 <= 2 ^ 60 ->
  exists m', addSecurityPart_with to_utf16 user toDelta write (m, c) = Ok (tt, (m', c)) /\ framed_message m' h ps [raw_part (raw l)] /\
    m_msgType m' = m_msgType m.
Proof.
  intros [Hw Ho Hs] He Hne Hsh Hl.
  assert (Hbytes : bytes_of (U := U) write = Ok (Serializable.CacheableBytes (s8 <$> l))) by (apply bytes_of_spec; [done|lia]).
  assert (Hlen : length (enc_parts (ps ++ [raw_part (raw l)])) = (length (enc_parts ps) + (5 + length l))%nat).
  { rewrite enc_parts_app, enc_parts_one, length_app, length_part. cbn [payload raw_part]. unfold raw. by rewrite length_fmap. }
  assert (Hfirst : exists m1 len, when (m_isSecurityHeaderAdded m)
      (on_request (DataOutput.rewindCursor (m_securityHeaderLength m));; writeMessageLength;;
       Requests.set (set_securityHeaderLength 0);; Requests.set (set_isSecurityHeaderAdded false)) (m, c) = Ok (tt, (m1, c)) /\
      wf (m_request m1) /\ out_is (m_request m1) (Some <$> enc_head h len (length_ ps) ++ enc_parts ps) /\ m_msgType m1 = m_msgType m).
  { destruct Hs as [[-> Ha]|(p & -> & Ha & Hsl)]; rewrite Ha.
    - exists m, (length_ (enc_parts (ps ++ []))). unfold frame in Ho. rewrite app_nil_r in Ho at 2. by rewrite app_nil_r in *.
    - unfold frame in Ho. rewrite (enc_parts_app ps [p]) in Ho at 2. rewrite enc_parts_one, app_assoc, fmap_app in Ho.
      destruct (rewind_spec _ _ _ [] (m_securityHeaderLength m) (cursor_end _ _ Hw Ho)) as (d1 & E1 & H1); [by rewrite length_fmap|].
      destruct (length_spec m c h (length_ ps) _ (enc_parts ps) d1 (cursor_wf _ _ _ H1) (cursor_out _ _ _ H1)) as (d2 & E2 & Hw2 & Ho2); [unfold length_; lia|].
      exists (set_isSecurityHeaderAdded false (set_securityHeaderLength 0 (set_request d2 m))), (length_ (enc_parts ps)).
      split_and!; [|done..]. cbn [when]. unfold mbind at 1, ST_bind at 1, on_request. cbn [fst snd]. rewrite E1.
      by rewrite (st_bind_ok _ _ _ _ _ E2). }
  destruct Hfirst as (m1 & len & E1 & Hw1 & Ho1 & Ht1).
  set (m2 := set_isSecurityHeaderAdded true m1).
  destruct (part_added m2 c h (length_ ps) len ps (raw_part (raw l)) (writeObject_part to_utf16 user toDelta (Serializable.CacheableBytes (s8 <$> l))) Hw1 Ho1)
    as (d3 & E3 & Hw3 & Ho3); [intros s; by apply writes_signed|lia|].
  exists (set_securityHeaderLength (4 + 1 + length_ (s8 <$> l)) (set_request d3 m2)). split_and!.
  - unfold addSecurityPart_with. rewrite get_spec. cbn [fst]. rewrite (st_bind_ok _ _ _ _ _ E1). unfold mbind at 1, ST_bind at 1, Requests.set at 1, modify, st_modify.
    cbn [fst snd]. fold m2. rewrite Hbytes. unfold mbind at 1, ST_bind at 1, st_lift at 1. etransitivity; [exact (st_bind_two _ _ _ _ _ E3)|done].
  - constructor; [done|exact Ho3|]. right. exists (raw_part (raw l)). split_and!; [done|done|]. rewrite length_part.
    cbn [payload raw_part m_securityHeaderLength set_securityHeaderLength]. unfold length_, raw. rewrite !length_fmap. lia.
  - exact Ht1.
Qed.

(** A retry sets a bit of the header in place. *)
Lemma retry_marked (m : t (U := U)) c h ps sec : framed_message m h ps sec ->
  exists m', updateHeaderForRetry (m, c) = Ok (tt, (m', c)) /\
    framed_message m' (mkHead (msg_type h) (tx_id h) (Z.lor (early_ack h) 4)) ps sec /\ m_msgType m' = m_msgType m.
Proof.
  intros [Hw Ho Hs]. pose proof (cursor_has _ _ _ (cursor_end _ _ Hw Ho)) as Hc. rewrite app_nil_r in Hc. unfold frame, enc_head in Hc.
  set (x := be_bytes 4 (u32 (msg_type h)) ++ be_bytes 4 (u32 (length_ (enc_parts (ps ++ sec)))) ++ be_bytes 4 (u32 (length_ ps)) ++ be_bytes 4 (u32 (tx_id h))) in *.
  assert (Hcs : has_cells (m_request m) (length (Some <$> frame h ps sec)) ((Some <$> x) ++ Some (early_ack h) :: (Some <$> enc_parts (ps ++ sec)))).
  { replace ((Some <$> x) ++ Some (early_ack h) :: (Some <$> enc_parts (ps ++ sec))) with (Some <$> frame h ps sec); [exact Hc|].
    unfold frame, enc_head. subst x. by rewrite <- !app_assoc, !fmap_app. }
  assert (Hx : 16 = Z.of_nat (length (Some <$> x))) by (subst x; by rewrite length_fmap, !length_app, !length_be_bytes).
  destruct (store_cell_spec _ _ _ _ _ (Z.lor (early_ack h) 4) 16 Hcs Hx) as (d' & E & Hd').
  assert (Hlen : length (Some <$> frame h ps sec) = length ((Some <$> x) ++ Some (Z.lor (early_ack h) 4) :: (Some <$> enc_parts (ps ++ sec)))).
  { unfold frame. rewrite length_fmap, !length_app, length_head. cbn [length]. rewrite !length_fmap. rewrite length_fmap in Hx. lia. }
  assert (Hd : at_cursor d' ((Some <$> x) ++ Some (Z.lor (early_ack h) 4) :: (Some <$> enc_parts (ps ++ sec))) [])
    by (eapply has_cursor; [exact Hd'|by rewrite app_nil_r|done]).
  exists (set_request d' m). split_and!; [|constructor; [apply Hd| |exact Hs]|done].
  - unfold updateHeaderForRetry, on_request. cbn [fst snd]. rewrite (st_bind_ok _ _ _ _ _ (load_spec _ _ _ _ _ _ Hcs Hx)). by rewrite E.
  - apply cursor_out in Hd. cbn [m_request set_request]. replace (Some <$> frame _ ps sec) with ((Some <$> x) ++ Some (Z.lor (early_ack h) 4) :: (Some <$> enc_parts (ps ++ sec))); [exact Hd|].
    unfold frame, enc_head. subst x. by rewrite <- !app_assoc, !fmap_app.
Qed.

(** What happens to a message before it is sent, any number of times. *)
Inductive action := AddSecurityPart (connectionId unique_id : Z) | AddConnectionId (connectionId : Z) | Retry.
Definition act (a : action) : M (U := U) unit :=
  match a with
  | AddSecurityPart i u => addSecurityPart to_utf16 user toDelta i u
  | AddConnectionId i => addSecurityPart_id to_utf16 user toDelta i
  | Retry => updateHeaderForRetry
  end.
Definition act_head (h : head) (a : action) : head :=
  match a with Retry => mkHead (msg_type h) (tx_id h) (Z.lor (early_ack h) 4) | _ => h end.
Definition act_security (sec : list part) (a : action) : list part :=
  match a with
  | AddSecurityPart i u => [raw_part (be_bytes 8 (u64 i) ++ be_bytes 8 (u64 u))]
  | AddConnectionId i => [raw_part (be_bytes 8 (u64 i))]
  | Retry => sec
  end.

Lemma raw_id l : bytes_ok l -> raw l = l.
Proof. unfold raw. induction 1 as [|b l Hb _ IH]; [done|]. by rewrite fmap_cons, IH, (wrapU_id 8). Qed.

Lemma act_spec a (m : t (U := U)) c h ps sec : framed_message m h ps sec -> Z.of_nat (length (enc_parts ps)) + 512 <= 2 ^ 60 ->
  exists m', act a (m, c) = Ok (tt, (m', c)) /\ framed_message m' (act_head h a) ps (act_security sec a) /\ m_msgType m' = m_msgType m.
Proof.
  intros Hm Hl. destruct a as [i u|i|]; cbn [act act_head act_security].
  - rewrite <- (raw_id (be_bytes 8 (u64 i) ++ be_bytes 8 (u64 u))) by (apply Forall_app; split; apply be_bytes_ok).
    eapply security_added; [exact Hm|apply emits_bind; apply emits_writeInt_int64|by unfold be_bytes| |]; unfold short; rewrite length_app, !length_be_bytes; lia.
  - rewrite <- (raw_id (be_bytes 8 (u64 i))) by apply be_bytes_ok.
    eapply security_added; [exact Hm|apply emits_writeInt_int64|by unfold be_bytes| |]; unfold short; rewrite length_be_bytes; lia.
  - by apply retry_marked.
Qed.

Lemma acts_spec l : forall (m : t (U := U)) c h ps sec, framed_message m h ps sec -> Z.of_nat (length (enc_parts ps)) + 512 <= 2 ^ 60 ->
  exists m', st_iter act l (m, c) = Ok (tt, (m', c)) /\ framed_message m' (foldl act_head h l) ps (foldl act_security sec l).
Proof.
  induction l as [|a l IH]; intros m c h ps sec Hm Hl; [by exists m|]. cbn [st_iter foldl].
  destruct (act_spec a m c h ps sec Hm Hl) as (m1 & E1 & Hm1 & _). rewrite (st_bind_ok _ _ _ _ _ E1). by apply IH.
Qed.

Lemma framed_read (m : t (U := U)) h ps sec : framed_message m h ps sec -> in_s 32 (msg_type h) -> in_s 32 (tx_id h) ->
  length_ (enc_parts (ps ++ sec)) < 2 ^ 32 -> exists bytes, DataOutput.getBuffer (m_request m) = Some bytes /\ read_message bytes = Some (h, ps, enc_parts sec).
Proof. intros [_ Ho _] Ht Hx Hl. exists (frame h ps sec). split; [by apply getBuffer_out_is|by apply read_frame]. Qed.

Lemma type_range (r : request U) : in_s 32 (type_of r).
Proof. destruct r; cbn [type_of]; repeat case_match; unfold in_s; lia. Qed.

Lemma act_head_type l : forall h, msg_type (foldl act_head h l) = msg_type h /\ tx_id (foldl act_head h l) = tx_id h.
Proof. induction l as [|a l IH]; intros h; [done|]. cbn [foldl]. destruct (IH (act_head h a)) as [-> ->]. by destruct a. Qed.

Lemma act_security_length l : forall sec, (length (enc_parts sec) <= 21)%nat -> (length (enc_parts (foldl act_security sec l)) <= 21)%nat.
Proof.
  induction l as [|a l IH]; intros sec Hs; [done|]. cbn [foldl]. apply IH.
  destruct a; cbn [act_security]; [rewrite enc_parts_one, length_part..|done]; cbn [payload raw_part]; rewrite ?length_app, !length_be_bytes; lia.
Qed.
End Framed.

(** C14. Every request that [request_ok] admits, built by any thread with or without a
    transaction and with any distribution manager, is a message that a server can read. Not
    admitted are queries with parameters and a negative timeout ([query_timeout_misframed] shows
    their frames unreadable), continuous queries with an empty name or text, and values, keys and
    names that have no encoding. The message has the type of the request, the id of
    the transaction, the bit for the security part exactly for operations of users when security
    is on, and the parts that servers expect of the request, as many as the header says and as
    long as it says, the event id being the next one of the thread. *)
Theorem requests_framed `{AllocatorOk} {U} to_utf16 to_utf8 (user : Serializable.UserTypes U) enc_user user_ok toDelta enc_data enc_delta
    thread txState (r : request U) dm c d :
  UserCodec user enc_user user_ok -> DeltaCodec user user_ok toDelta enc_data enc_delta ->
  request_ok to_utf16 to_utf8 user enc_user user_ok toDelta r -> wf d -> DataOutput.m_buf d = 0 -> in_s 32 (default (-1) txState) ->
  let parts := parts_of to_utf16 enc_user enc_data enc_delta r (id_part thread r c) in
  length_ (enc_parts parts) < 2 ^ 31 ->
  exists m bytes, build to_utf16 user toDelta thread txState r dm (construct d, c) = Ok (tt, (m, counters_after thread r c)) /\
    DataOutput.getBuffer (m_request m) = Some bytes /\ read_message bytes = Some (expected_head txState r dm, parts, []) /\
    m_msgType m = type_of r.
Proof.
  intros Hu Hd Hr Hw Hb Hx parts Hl. destruct (request_framed to_utf16 to_utf8 user enc_user user_ok toDelta enc_data enc_delta thread txState r dm c d Hr Hw Hb)
    as (m & E & Hm & Ht); [unfold length_ in Hl; subst parts; lia|].
  destruct (framed_read m _ _ _ Hm (type_range r) Hx) as (bytes & Eb & Er); [rewrite app_nil_r; subst parts; lia|]. by exists m, bytes.
Qed.

(** C15. Whatever is done to a request before it is sent, security parts added again for other
    connections and retries marked in any order, it stays the message of its parts: there is one
    security part at most, behind the parts and not counted, the last one that was added, and
    the length is right. *)
Theorem security_part_once `{AllocatorOk} {U} to_utf16 to_utf8 (user : Serializable.UserTypes U) enc_user user_ok toDelta enc_data enc_delta
    thread txState (r : request U) dm c d actions :
  UserCodec user enc_user user_ok -> DeltaCodec user user_ok toDelta enc_data enc_delta ->
  request_ok to_utf16 to_utf8 user enc_user user_ok toDelta r -> wf d -> DataOutput.m_buf d = 0 -> in_s 32 (default (-1) txState) ->
  let parts := parts_of to_utf16 enc_user enc_data enc_delta r (id_part thread r c) in
  length_ (enc_parts parts) < 2 ^ 31 ->
  exists m bytes, (build to_utf16 user toDelta thread txState r dm;; st_iter (act to_utf16 user toDelta) actions) (construct d, c) =
      Ok (tt, (m, counters_after thread r c)) /\
    DataOutput.getBuffer (m_request m) = Some bytes /\
    read_message bytes = Some (foldl act_head (expected_head txState r dm) actions, parts, enc_parts (foldl act_security [] actions)).
Proof.
  intros Hu Hd Hr Hw Hb Hx parts Hl. unfold length_ in Hl.
  destruct (request_framed to_utf16 to_utf8 user enc_user user_ok toDelta enc_data enc_delta thread txState r dm c d Hr Hw Hb)
    as (m & E & Hm & Ht); [subst parts; lia|].
  destruct (acts_spec to_utf16 to_utf8 user enc_user user_ok toDelta actions m (counters_after thread r c) _ _ _ Hm) as (m' & E' & Hm'); [subst parts; lia|].
  destruct (act_head_type actions (expected_head txState r dm)) as [Hty Htx].
  pose proof (act_security_length actions [] ltac:(cbn; lia)) as Hsec.
  destruct (framed_read m' _ _ _ Hm') as (bytes & Eb & Er); [rewrite Hty; apply type_range|by rewrite Htx| |].
  { unfold length_. rewrite enc_parts_app, length_app. subst parts. lia. }
  exists m', bytes. by rewrite (st_bind_ok _ _ _ _ _ E).
Qed.

(** Messages that cannot be read, requests that are refused, and examples. *)
Module MessageExamples.

(** *** Too few parts *)

Lemma split_short ps : length_ (enc_parts ps) < 2 ^ 32 -> split_parts (S (length ps)) (enc_parts ps) = None.
Proof.
  induction ps as [|p ps IH]; intros Hl; [done|]. change (p :: ps) with ([p] ++ ps) in Hl |- *.
  rewrite enc_parts_app, enc_parts_one in *. unfold length_ in *. rewrite length_app, length_part in Hl.
  change (length ([p] ++ ps)) with (S (length ps)). remember (S (length ps)) as n. cbn [split_parts].
  unfold enc_part. rewrite <- !app_assoc, be_val_u32. rewrite (wrapU_id 32) by (unfold in_u, length_; lia). unfold length_.
  rewrite drop_app_length' by (by rewrite length_be_bytes). cbn [app]. rewrite Nat2Z.id.
  destruct (Nat.ltb_spec (length (payload p ++ enc_parts ps)) (length (payload p))) as [Hlt|_]; [rewrite length_app in Hlt; lia|].
  by rewrite take_app_length, drop_app_length, IH by lia.
Qed.

Lemma read_short h ps : length_ (enc_parts ps) < 2 ^ 32 -> length_ ps + 1 < 2 ^ 32 ->
  read_message (enc_head h (length_ (enc_parts ps)) (length_ ps + 1) ++ enc_parts ps) = None.
Proof.
  intros Hl Hn. unfold read_message. pose proof (length_head h (length_ (enc_parts ps)) (length_ ps + 1)) as H17.
  destruct ((enc_head h (length_ (enc_parts ps)) (length_ ps + 1) ++ enc_parts ps) !! 16%nat); [|done].
  rewrite (drop_app_length' _ _ 17) by done.
  replace (be_val (take 4 (drop 8 _))) with (length_ ps + 1).
  2: { unfold enc_head. rewrite <- !app_assoc.
    replace (drop 8 _) with (drop 4 (drop 4 (be_bytes 4 (u32 (msg_type h)) ++ be_bytes 4 (u32 (length_ (enc_parts ps))) ++
     be_bytes 4 (u32 (length_ ps + 1)) ++ be_bytes 4 (u32 (tx_id h)) ++ [early_ack h] ++ enc_parts ps))) by (by rewrite drop_drop).
    rewrite !(drop_app_length' _ _ 4) by (by rewrite length_be_bytes). rewrite be_val_u32, (wrapU_id 32); [done|unfold in_u, length_ in *; lia]. }
  replace (Z.to_nat (length_ ps + 1)) with (S (length ps)) by (unfold length_; lia). rewrite split_short by done. by destruct (_ =? _).
Qed.

Section Misframed.
Context `{AllocatorOk} {U : Type} (to_utf16 to_utf8 : list Z -> outcome (list Z)) (user : Serializable.UserTypes U)
  (enc_user : U -> list Z) (user_ok : U -> Prop) (toDelta : U -> option (ST DataOutput.t unit)).
Context `{!UserCodec user enc_user user_ok} (txState : option Z).

(** The parts of a query with parameters and without a timeout, one less than announced. *)
Lemma query_parts q params ms dm c d :
  Z.of_nat (length q) < 2 ^ 31 -> length_ params < 2 ^ 30 -> Forall (value_ok to_utf16 to_utf8 user user_ok) params -> ms < 0 ->
  wf d -> DataOutput.m_buf d = 0 ->
  let ps := [raw_part q; int_part (u32 (length_ params)); int_part 15] ++ (object_part to_utf16 enc_user <$> params) in
  length_ (enc_parts ps) < 2 ^ 31 ->
  exists h m, TcrMessageQueryWithParameters to_utf16 user toDelta txState q (Some params) ms dm (construct d, c) = Ok (tt, (m, c)) /\
    DataOutput.getBuffer (m_request m) = Some (enc_head h (length_ (enc_parts ps)) (length_ ps + 1) ++ enc_parts ps).
Proof.
  intros Hq Hf Hv Hms Hw Hd ps Hl.
  set (s := set_region None (set_messageResponseTimeout ms (set_regionName q (set_tcdm dm (set_msgType MsgType.QUERY_WITH_PARAMETERS (construct (U := U) d)))))).
  assert (Hms2 : m_messageResponseTimeout (header_fields txState s) = ms) by (unfold header_fields; by destruct (m_tcdm s)).
  assert (Hc : completes (head_of txState s MsgType.QUERY_WITH_PARAMETERS) (u32 (4 + u32 (length_ params))) (header_fields txState s)
    (writeRegionPart q;; writeIntPart (u32 (length_ params));; writeIntPart 15;; response_timeout;; st_iter (writeObject_part to_utf16 user toDelta) params;; writeMessageLength)
    c ps c (header_fields txState s)).
  { assert (Hps : ps = [raw_part q] ++ [int_part (u32 (length_ params))] ++ [int_part 15] ++ [] ++ (object_part to_utf16 enc_user <$> params) ++ [])
      by (unfold ps; by rewrite app_nil_r).
    rewrite Hps. eapply completes_step; [by apply writes_name|]. eapply completes_step; [apply writes_int|].
    eapply completes_step; [apply writes_int|]. eapply completes_step; [|eapply completes_step; [by eapply writes_objects|apply completes_end]].
    pose proof (writes_timeout (U := U) (header_fields txState s) c) as Ht. rewrite Hms2 in Ht. unfold milliseconds in Ht.
    destruct (Z.leb_spec 0 ms); [lia|exact Ht]. }
  destruct (header_spec txState s c MsgType.QUERY_WITH_PARAMETERS (u32 (4 + u32 (length_ params))) d Hw Hd) as (d1 & E1 & Hw1 & Ho1).
  destruct (Hc d1 [] Hw1) as (d2 & E2 & Hw2 & Ho2); [by rewrite app_nil_r|unfold length_ in Hl; cbn [app]; lia|].
  exists (head_of txState s MsgType.QUERY_WITH_PARAMETERS), (set_request d2 (header_fields txState s)). split.
  - unfold TcrMessageQueryWithParameters.
    change (((writeHeader txState MsgType.QUERY_WITH_PARAMETERS (u32 (4 + u32 (length_ params)));;
      (writeRegionPart q;; writeIntPart (u32 (length_ params));; writeIntPart 15;; response_timeout;; st_iter (writeObject_part to_utf16 user toDelta) params;; writeMessageLength))
      (set_request d s, c)) = Ok (tt, (set_request d2 (header_fields txState s), c))).
    rewrite (st_bind_ok _ _ _ _ _ E1). exact E2.
  - apply getBuffer_out_is. cbn [app] in Ho2. change (m_request (set_request d2 (header_fields txState s))) with d2.
    replace (length_ ps + 1) with (u32 (4 + u32 (length_ params))); [exact Ho2|]. unfold ps, length_ in *. rewrite length_app, length_fmap. cbn [length].
    rewrite (wrapU_id 32 (Z.of_nat (length params))) by (unfold in_u; lia). rewrite (wrapU_id 32) by (unfold in_u; lia). lia.
Qed.
End Misframed.

(** A query with parameters and without a timeout (a negative one) announces a part more
    than it has, so that no server can read it; a query with a timeout can be read. *)
Theorem query_timeout_misframed `{AllocatorOk} {U} to_utf16 to_utf8 (user : Serializable.UserTypes U) enc_user user_ok toDelta txState
    q params ms dm c d :
  UserCodec user enc_user user_ok -> Z.of_nat (length q) < 2 ^ 31 -> length_ params < 2 ^ 30 ->
  Forall (value_ok to_utf16 to_utf8 user user_ok) params -> ms < 0 -> wf d -> DataOutput.m_buf d = 0 ->
  length_ (enc_parts ([raw_part q; int_part (u32 (length_ params)); int_part 15] ++ (object_part to_utf16 enc_user <$> params))) < 2 ^ 31 ->
  exists m bytes, TcrMessageQueryWithParameters to_utf16 user toDelta txState q (Some params) ms dm (construct d, c) = Ok (tt, (m, c)) /\
    DataOutput.getBuffer (m_request m) = Some bytes /\ read_message bytes = None.
Proof.
  intros Hu Hq Hf Hv Hms Hw Hd Hl.
  destruct (query_parts to_utf16 to_utf8 user enc_user user_ok toDelta txState q params ms dm c d Hq Hf Hv Hms Hw Hd Hl) as (h & m & E & Eb).
  exists m. eexists. split_and!; [exact E|exact Eb|]. apply read_short; [lia|]. unfold length_ in *. rewrite length_app, length_fmap. cbn [length]. lia.
Qed.

Lemma build_putall `{Allocator} {U} to_utf16 (user : Serializable.UserTypes U) toDelta thread txState region map ms cb dm :
  build to_utf16 user toDelta thread txState (PutAll region map ms cb) dm = TcrMessagePutAll to_utf16 user toDelta thread txState region map ms dm cb.
Proof. done. Qed.

(** A putAll with an empty map draws all numbers of 32 bits: the size of the map minus one,
    as an unsigned number, is reserved behind the id of the operation, one number after the
    other. *)
Theorem empty_putall_ids `{AllocatorOk} {U} to_utf16 to_utf8 (user : Serializable.UserTypes U) enc_user user_ok toDelta enc_data enc_delta
    thread txState region ms (cb : Serializable.t U) dm c d :
  UserCodec user enc_user user_ok -> DeltaCodec user user_ok toDelta enc_data enc_delta ->
  request_ok to_utf16 to_utf8 user enc_user user_ok toDelta (PutAll region [] ms cb) -> wf d -> DataOutput.m_buf d = 0 ->
  length_ (enc_parts (parts_of to_utf16 enc_user enc_data enc_delta (PutAll region [] ms cb) (id_part thread (PutAll region [] ms cb) c))) < 2 ^ 31 ->
  exists m c', TcrMessagePutAll to_utf16 user toDelta thread txState region [] ms dm cb (construct d, c) = Ok (tt, (m, c')) /\
    EventId.tss c' !! thread = Some (EventId.mkTSS (next_id thread c).1 (EventId.tss_sequenceId (EventId.tss_of c thread).1 + 2 ^ 32)).
Proof.
  intros Hu Hdc Hr Hw Hd Hl.
  destruct (request_framed to_utf16 to_utf8 user enc_user user_ok toDelta enc_data enc_delta thread txState (PutAll region [] ms cb) dm c d Hr Hw Hd)
    as (m & E & _); [unfold length_ in Hl; lia|].
  exists m, (counters_after thread (PutAll region [] ms cb) c). rewrite build_putall in E. split; [exact E|].
  unfold counters_after, op_after, advanced. cbn [uses_id EventId.tss]. rewrite lookup_insert_eq. do 2 f_equal. unfold next_id. cbn [fst snd].
  change (u32 (length_ (@nil (Serializable.t U * Serializable.t U)) - 1)) with (2 ^ 32 - 1). lia.
Qed.

(** *** Examples *)

Section Witnesses.
#[local] Existing Instance always_alloc.
#[local] Existing Instance always_alloc_ok.

Definition no_delta (u : Z) : option (ST DataOutput.t unit) := if u =? 7 then Some (DataOutput.write_int8 1) else None.
Definition delta_wire (u : Z) : list Z := [1].
Definition number_data (u : Z) : list Z := be_bytes 4 (u32 u).

Lemma number_delta : DeltaCodec number_types (in_s 32) no_delta number_data delta_wire.
Proof.
  split.
  - intros u Hu. apply emits_writeInt_int32.
  - intros u w Hu Hw. unfold no_delta in Hw. destruct (u =? 7); [|done]. injection Hw as <-. by apply emits_code_byte.
Qed.

Definition empty_output : DataOutput.t := DataOutput.mk [] 0 8192 false 0.
Definition no_ids : EventId.Counters := EventId.mkCounters 0 ∅.
Definition some_region : Region := mkRegion [47; 114] false true.

(** An update with a delta in a transaction, with a callback argument that is raw bytes. *)
Definition some_put : request Z :=
  PutDelta (Some some_region) (Serializable.CacheableString 87 [107]) 7 (Serializable.CacheableBytes [1; 2; -1]) false [].

Lemma requests_framed_witness :
  exists m bytes, build Ok number_types no_delta 0 (Some 5) some_put (Some true) (construct empty_output, no_ids) =
      Ok (tt, (m, counters_after 0 some_put no_ids)) /\
    DataOutput.getBuffer (m_request m) = Some bytes /\
    read_message bytes = Some (mkHead 7 5 2, parts_of Ok number_wire number_data delta_wire some_put (id_part 0 some_put no_ids), []) /\
    m_msgType m = 7.
Proof.
  apply (requests_framed Ok Ok number_types number_wire (in_s 32) no_delta number_data delta_wire 0 (Some 5) some_put (Some true) no_ids empty_output).
  - apply number_codec.
  - apply number_delta.
  - cbn. repeat (split || constructor || left || done).
  - constructor; cbn; lia.
  - done.
  - done.
  - by vm_compute.
Defined.

Lemma security_part_once_witness :
  exists m bytes, (build Ok number_types no_delta 0 (Some 5) some_put (Some true);;
      st_iter (act Ok number_types no_delta) [AddSecurityPart 1 2; Retry; AddConnectionId 3]) (construct empty_output, no_ids) =
      Ok (tt, (m, counters_after 0 some_put no_ids)) /\
    DataOutput.getBuffer (m_request m) = Some bytes /\
    read_message bytes = Some (mkHead 7 5 6, parts_of Ok number_wire number_data delta_wire some_put (id_part 0 some_put no_ids),
      enc_parts [raw_part (be_bytes 8 3)]).
Proof.
  apply (security_part_once Ok Ok number_types number_wire (in_s 32) no_delta number_data delta_wire 0 (Some 5) some_put (Some true) no_ids empty_output).
  - apply number_codec.
  - apply number_delta.
  - cbn. repeat (split || constructor || left || done).
  - constructor; cbn; lia.
  - done.
  - done.
  - by vm_compute.
Defined.

Lemma query_timeout_misframed_witness :
  exists m bytes, TcrMessageQueryWithParameters Ok number_types no_delta None [115] (Some [Serializable.CacheableInt32 1]) (-1) None (construct empty_output, no_ids) =
      Ok (tt, (m, no_ids)) /\
    DataOutput.getBuffer (m_request m) = Some bytes /\ read_message bytes = None.
Proof.
  apply (query_timeout_misframed Ok Ok number_types number_wire (in_s 32) no_delta None [115] [Serializable.CacheableInt32 1] (-1) None no_ids empty_output).
  - apply number_codec.
  - by vm_compute.
  - by vm_compute.
  - apply Forall_singleton. cbn. unfold in_s. lia.
  - lia.
  - constructor; cbn; lia.
  - done.
  - by vm_compute.
Defined.

Lemma empty_putall_ids_witness :
  exists m c', TcrMessagePutAll Ok number_types no_delta 0 None some_region [] 1000 None Serializable.nullptr (construct empty_output, no_ids) = Ok (tt, (m, c')) /\
    EventId.tss c' !! 0%nat = Some (EventId.mkTSS 1 4294967296).
Proof.
  apply (empty_putall_ids Ok Ok number_types number_wire (in_s 32) no_delta number_data delta_wire 0 None some_region 1000 Serializable.nullptr None no_ids empty_output).
  - apply number_codec.
  - apply number_delta.
  - cbn. repeat (split || constructor || done).
  - constructor; cbn; lia.
  - done.
  - by vm_compute.
Defined.

(** A null key is refused, and so is a policy that a list of keys cannot have. *)
Example null_key_refused : build Ok number_types no_delta 0 None (Request_ (Some some_region) Serializable.nullptr Serializable.nullptr) None
  (construct empty_output, no_ids) = Throw IllegalArgumentException.
Proof. reflexivity. Qed.
Example keys_policy_refused : TcrMessageRegisterInterestList Ok number_types no_delta None (Some some_region) [Serializable.CacheableInt32 1]
  false true true KEYS None (construct empty_output, no_ids) = Throw IllegalArgumentException.
Proof. reflexivity. Qed.

(** The message of a continuous query with an empty string cannot be read: its part is two bytes
    of zeros. *)
Example empty_cq_unreadable :
  match TcrMessageExecuteCq Ok None [99] [] RUNNING false None (construct (U := Z) empty_output, no_ids) with
  | Ok (_, (m, _)) => match DataOutput.getBuffer (m_request m) with Some bytes => read_message bytes = None | None => False end
  | Throw _ => False
  end.
Proof. vm_compute. reflexivity. Qed.
End Witnesses.

End MessageExamples.
