(* ===== verification/VersionWire.v ===== *)
(** Version tags as servers send them (src/cppcache/src/VersionTag.cpp, DiskVersionTag.hpp,
    ClientProxyMembershipID.cpp): the bytes of a tag and of the members in it, and that
    [fromData] takes them for the tag, with the members entered into the list of members. *)
From S2P Require Import Prelude JavaModifiedUtf8 DataOutput DataOutputFacts DataInput DataInputFacts Utf8Strings MemberId Versions.
Import DataInput.
#[local] Arguments be_bytes : simpl never.
Local Open Scope Z_scope.

(** *** Numbers of variable length *)

(** Seven bits in each byte, the lowest first; the top bit says that another byte follows. *)
Fixpoint enc_vl (fuel : nat) (n : Z) : list Z :=
  match fuel with
  | O => []
  | S fuel => if n <? 128 then [n] else (128 + n mod 128) :: enc_vl fuel (n / 128)
  end.
Definition enc_unsignedVL (n : Z) : list Z := enc_vl 9 n.

Lemma land_s8_128 b : in_u 8 b -> Z.land (s8 b) 0x80 = Z.land b 0x80.
Proof.
  intros Hb. apply Z.bits_inj'. intros i Hi. rewrite !Z.land_spec. change 0x80 with (2 ^ 7). rewrite Z.pow2_bits_eqb by lia.
  case Z.eqb_spec; [|by rewrite !andb_false_r]. intros <-. f_equal.
  assert (E : Z.testbit (s8 b mod 2 ^ 8) 7 = Z.testbit (b mod 2 ^ 8) 7) by (pose proof (wrapU_wrapS 8 b) as E; unfold wrapU in E; by rewrite E).
  by rewrite !Z.mod_pow2_bits_low in E by lia.
Qed.

Lemma top_bit b : in_u 8 b -> (Z.land b 0x80 =? 0) = (b <? 128).
Proof.
  intros Hb. assert (Hs : Z.land b 0x80 = if Z.testbit b 7 then 128 else 0).
  { apply Z.bits_inj'. intros i Hi. rewrite Z.land_spec. change 0x80 with (2 ^ 7). rewrite Z.pow2_bits_eqb by lia.
    case Z.eqb_spec; [intros <-; destruct (Z.testbit b 7); by rewrite ?andb_true_r|]. intros Hne. rewrite andb_false_r.
    destruct (Z.testbit b 7); [change 128 with (2 ^ 7); rewrite Z.pow2_bits_eqb by lia; by case Z.eqb_spec|by rewrite Z.bits_0]. }
  rewrite Hs, Z.testbit_odd, Z.shiftr_div_pow2 by lia. change (2 ^ 7) with 128. unfold in_u in Hb.
  destruct (Z.ltb_spec b 128).
  - by rewrite Z.div_small by lia.
  - replace (b / 128) with 1 by zdiv. done.
Qed.

Lemma lor_above result x s : 0 <= s -> 0 <= result < 2 ^ s -> Z.lor result (x * 2 ^ s) = result + x * 2 ^ s.
Proof. intros Hs Hr. rewrite Z.lor_comm, (lor_add_low x result s) by done. lia. Qed.

Lemma reads_vl_loop k : forall fuel shift result n, 0 <= shift -> 0 <= n < 128 ^ Z.of_nat k -> 0 <= result < 2 ^ shift ->
  shift + 7 * Z.of_nat k <= 63 -> (k <= fuel)%nat -> (k <> 0)%nat ->
  reads (readUnsignedVL_loop fuel shift result) (enc_vl k n) (result + n * 2 ^ shift).
Proof.
  induction k as [|k IH]; intros fuel shift result n Hs Hn Hr Hb Hf Hk; [done|]. destruct fuel as [|fuel]; [lia|]. cbn [readUnsignedVL_loop enc_vl].
  destruct (Z.ltb_spec shift 64); [|lia]. pose proof (pow2_pos shift Hs) as Hp.
  assert (Hsmall : forall x, 0 <= x < 128 -> s64 (Z.shiftl x shift) = x * 2 ^ shift).
  { intros x Hx. rewrite Z.shiftl_mul_pow2 by lia. apply wrapS_id; [lia|]. unfold in_s.
    assert (2 ^ shift <= 2 ^ 56) by (apply Z.pow_le_mono_r; lia). change (2 ^ (64 - 1)) with (2 ^ 56 * 128). nia. }
  destruct (Z.ltb_spec n 128).
  - eapply (reads_bind _ _ [_] []); [apply reads_read|]. rewrite land_s8_127, land_s8_128 by (unfold in_u; lia).
    rewrite JavaModifiedUtf8.land_127, Z.mod_small, Hsmall, lor_above, top_bit by (unfold in_u; lia). destruct (Z.ltb_spec n 128); [|lia]. apply reads_ret.
  - assert (Hm : 0 <= n mod 128 < 128) by (apply Z.mod_pos_bound; lia).
    assert (Hk0 : k <> 0%nat) by (intros ->; change (128 ^ Z.of_nat 1) with 128 in Hn; lia).
    eapply (reads_bind _ _ [_]); [apply reads_read|]. rewrite land_s8_127, land_s8_128 by (unfold in_u; lia).
    rewrite JavaModifiedUtf8.land_127. replace ((128 + n mod 128) mod 128) with (n mod 128) by zdiv.
    rewrite Hsmall, lor_above, top_bit by (unfold in_u; lia). destruct (Z.ltb_spec (128 + n mod 128) 128); [lia|].
    replace (result + n * 2 ^ shift) with (result + n mod 128 * 2 ^ shift + n / 128 * 2 ^ (shift + 7)).
    + rewrite Nat2Z.inj_succ, Z.pow_succ_r in Hn by lia. apply IH; try lia.
      * split; [apply Z.div_pos; lia|apply Z.div_lt_upper_bound; lia].
      * rewrite Z.pow_add_r by lia. change (2 ^ 7) with 128. nia.
    + rewrite Z.pow_add_r by lia. change (2 ^ 7) with 128. pose proof (Z.div_mod n 128). nia.
Qed.

Lemma reads_unsignedVL n : 0 <= n < 2 ^ 63 -> reads readUnsignedVL (enc_unsignedVL n) n.
Proof.
  intros Hn. eapply reads_eq; [apply (reads_vl_loop 9); try done; lia|]. lia.
Qed.

(** *** Computations with the list of members *)

Abbreviation Members := MemberListForVersionStamp.t.

(** Consumes [l], turns the list [ml] into [ml'] and returns [a]. *)
Definition notes {A} (m : ST (t * Members) A) (l : list Z) (ml : Members) (a : A) (ml' : Members) : Prop := forall pre rest,
  Z.of_nat (length (pre ++ l ++ rest)) < 2 ^ 62 -> m (at_ pre (l ++ rest), ml) = Ok (a, (at_ (pre ++ l) rest, ml')).

Lemma notes_reads {A} (m : ST t A) l a ml : reads m l a -> notes (st_first m) l ml a ml.
Proof. intros Hm pre rest Hl. unfold st_first. cbn [fst snd]. by rewrite Hm. Qed.
Lemma notes_ret {A} (a : A) ml : notes (mret a) [] ml a ml.
Proof. intros pre rest _. by rewrite app_nil_r. Qed.
Lemma notes_bind {A B} (m : ST (t * Members) A) (f : A -> ST (t * Members) B) l1 l2 ml ml1 ml2 a b :
  notes m l1 ml a ml1 -> notes (f a) l2 ml1 b ml2 -> notes (m ≫= f) (l1 ++ l2) ml b ml2.
Proof.
  intros H1 H2 pre rest Hl. rewrite <- app_assoc in Hl |- *. rewrite (st_bind_ok _ _ _ _ _ (H1 pre (l2 ++ rest) Hl)).
  rewrite H2; [by rewrite <- app_assoc|]. by rewrite <- app_assoc.
Qed.
Lemma notes_bind0 {A B} (m : ST (t * Members) A) (f : A -> ST (t * Members) B) l ml ml1 ml2 a b :
  notes m [] ml a ml1 -> notes (f a) l ml1 b ml2 -> notes (m ≫= f) l ml b ml2.
Proof. apply (notes_bind m f [] l). Qed.
Lemma notes_map {A B} (m : ST (t * Members) A) (f : A -> B) l ml ml' a : notes m l ml a ml' -> notes (x ← m; mret (f x)) l ml (f a) ml'.
Proof. intros Hm. rewrite <- (app_nil_r l). eapply notes_bind; [exact Hm|apply notes_ret]. Qed.
Lemma notes_add member ml : notes (VersionTag.addMember member) [] ml (MemberListForVersionStamp.add member ml).1 (MemberListForVersionStamp.add member ml).2.
Proof.
  intros pre rest _. unfold VersionTag.addMember. rewrite app_nil_r. by destruct (MemberListForVersionStamp.add member ml) as [i ml'].
Qed.

(** *** Tags *)

(** A tag with members of the type [W]; the previous member may be the same as the member. *)
Record wire_tag (W : Type) := mkTag {
  w_bits : Z;
  w_dsid : Z;
  w_version : Z;
  w_high : option Z;
  w_low : Z;
  w_time : Z;
  w_member : option W;
  w_previous : option (option W)
}.
Arguments mkTag {W} _ _ _ _ _ _ _ _. Arguments w_bits {W} _. Arguments w_dsid {W} _. Arguments w_version {W} _.
Arguments w_high {W} _. Arguments w_low {W} _. Arguments w_time {W} _. Arguments w_member {W} _. Arguments w_previous {W} _.

Definition bit (b : bool) (n : Z) : Z := if b then n else 0.
Definition present {A} (o : option A) : bool := match o with Some _ => true | None => false end.

Section Tags.
Context {W : Type} (enc_id : W -> list Z) (id_of : W -> DSMember.t) (readMember : ST t DSMember.t) (id_ok : W -> Prop).
Hypothesis reads_id : forall w, id_ok w -> reads readMember (enc_id w) (id_of w).

Definition same_previous (w : wire_tag W) : bool := match w_previous w with Some None => true | _ => false end.
Definition tag_flags (w : wire_tag W) : Z :=
  bit (present (w_member w)) 1 + bit (present (w_previous w)) 2 + bit (w_version w <? 65536) 4 + bit (same_previous w) 8 +
  bit (present (w_high w)) 16.
Definition enc_tag (w : wire_tag W) : list Z :=
  be_bytes 2 (u16 (tag_flags w)) ++ be_bytes 2 (u16 (w_bits w)) ++ [u8 (w_dsid w)] ++
  (if w_version w <? 65536 then be_bytes 2 (u16 (w_version w)) else be_bytes 4 (u32 (w_version w))) ++
  match w_high w with Some h => be_bytes 2 (u16 h) | None => [] end ++
  be_bytes 4 (u32 (w_low w)) ++ enc_unsignedVL (w_time w) ++
  match w_member w with Some m => enc_id m | None => [] end ++
  match w_previous w with Some (Some m) => enc_id m | _ => [] end.

Record tag_ok (w : wire_tag W) : Prop := {
  ok_bits : in_u 16 (w_bits w);
  ok_version : 0 <= w_version w < 2 ^ 31;
  ok_high : forall h, w_high w = Some h -> in_s 16 h;
  ok_low : in_s 32 (w_low w);
  ok_time : 0 <= w_time w < 2 ^ 63;
  ok_member : forall m, w_member w = Some m -> id_ok m;
  ok_previous : forall m, w_previous w = Some (Some m) -> id_ok m
}.

(** The ids of the members in the list, and the tag. *)
Definition member_ids (w : wire_tag W) (ml : Members) : Z * Z * Members :=
  let '(i, ml) := match w_member w with Some m => MemberListForVersionStamp.add (id_of m) ml | None => (0, ml) end in
  match w_previous w with
  | None => (i, 0, ml)
  | Some None => (i, i, ml)
  | Some (Some m) => let '(p, ml) := MemberListForVersionStamp.add (id_of m) ml in (i, p, ml)
  end.
Definition tag_of (w : wire_tag W) (ml : Members) : VersionTag.t * Members :=
  let '(i, p, ml') := member_ids w ml in
  (VersionTag.mk (w_bits w) (w_version w) (default 0 (w_high w)) (w_low w) i p (w_time w), ml').

Lemma flags_range w : in_u 16 (tag_flags w).
Proof. unfold tag_flags, bit, in_u. repeat case_match; lia. Qed.

(** What the flags say. *)
Lemma flags_has w : VersionTag.has (tag_flags w) VersionTag.HAS_MEMBER_ID = present (w_member w) /\
  VersionTag.has (tag_flags w) VersionTag.HAS_PREVIOUS_MEMBER_ID = present (w_previous w) /\
  VersionTag.has (tag_flags w) VersionTag.VERSION_TWO_BYTES = (w_version w <? 65536) /\
  VersionTag.has (tag_flags w) VersionTag.DUPLICATE_MEMBER_IDS = same_previous w /\
  VersionTag.has (tag_flags w) VersionTag.HAS_RVV_HIGH_BYTE = present (w_high w).
Proof.
  unfold tag_flags. destruct (present (w_member w)), (present (w_previous w)), (w_version w <? 65536), (same_previous w), (present (w_high w));
    split_and!; reflexivity.
Qed.

Lemma notes_members w ml tag : tag_ok w -> VersionTag.m_internalMemId tag = 0 -> VersionTag.m_previousMemId tag = 0 ->
  let '(i, p, ml') := member_ids w ml in
  notes (VersionTag.readMembers_with readMember (tag_flags w) tag)
    (match w_member w with Some m => enc_id m | None => [] end ++ match w_previous w with Some (Some m) => enc_id m | _ => [] end)
    ml (VersionTag.set_previous p (VersionTag.set_internal i tag)) ml'.
Proof.
  intros [_ _ _ _ _ Hm Hp] Hi Hpr. destruct (flags_has w) as (F1 & F2 & _ & F3 & _). unfold VersionTag.readMembers_with, member_ids, same_previous in *.
  rewrite F1, F2, F3. clear F1 F2 F3.
  assert (Hfirst : let '(i, ml1) := match w_member w with Some m => MemberListForVersionStamp.add (id_of m) ml | None => (0, ml) end in
    notes (if present (w_member w) then member ← st_first readMember; id ← VersionTag.addMember member; mret (VersionTag.set_internal id tag) else mret tag)
      (match w_member w with Some m => enc_id m | None => [] end) ml (VersionTag.set_internal i tag) ml1).
  { destruct (w_member w) as [m|]; cbn [present].
    - pose proof (notes_add (id_of m) ml) as Ha. destruct (MemberListForVersionStamp.add (id_of m) ml) as [i ml1].
      rewrite <- (app_nil_r (enc_id m)). eapply notes_bind; [by apply notes_reads, reads_id, Hm|].
      by apply (notes_map _ (fun id => VersionTag.set_internal id tag)).
    - replace (VersionTag.set_internal 0 tag) with tag; [apply notes_ret|]. destruct tag; cbn in *. by subst. }
  destruct (match w_member w with Some m => _ | None => _ end) as [i ml1].
  destruct (w_previous w) as [[m|]|]; cbn [present].
  - pose proof (notes_add (id_of m) ml1) as Ha. destruct (MemberListForVersionStamp.add (id_of m) ml1) as [p ml2].
    eapply notes_bind; [exact Hfirst|]. rewrite <- (app_nil_r (enc_id m)). eapply notes_bind; [by apply notes_reads, reads_id, Hp|].
    by apply (notes_map _ (fun id => VersionTag.set_previous id _)).
  - eapply notes_bind; [exact Hfirst|apply notes_ret].
  - eapply notes_bind; [exact Hfirst|]. replace (VersionTag.set_previous 0 _) with (VersionTag.set_internal i tag); [apply notes_ret|].
    destruct tag; cbn in *. by subst.
Qed.

Lemma version_two v : in_u 16 v -> Z.land (s16 (u16 v)) 0xffff = v.
Proof. intros Hv. rewrite (land_mask _ 16) by lia. change (wrapU 16 (s16 (u16 v)) = v). by rewrite wrapU_wrapS, !(wrapU_id 16 v). Qed.
Lemma version_four v : 0 <= v < 2 ^ 31 -> s32 (Z.land (u32 (s32 (u32 v))) 0xffffffff) = v.
Proof.
  intros Hv. rewrite (land_mask _ 32) by lia. rewrite wrapU_wrapS, !(wrapU_id 32 v) by (unfold in_u; lia).
  rewrite Z.mod_small by lia. apply wrapS_id; [lia|unfold in_s; lia].
Qed.

Lemma notes_tag w ml : tag_ok w ->
  notes (VersionTag.fromData (VersionTag.readMembers_with readMember) VersionTag.construct) (enc_tag w) ml (tag_of w ml).1 (tag_of w ml).2.
Proof.
  intros Hok. pose proof Hok as [Hb Hv Hh Hlo Ht _ _]. unfold VersionTag.fromData, enc_tag.
  destruct (flags_has w) as (_ & _ & F2 & _ & F4). pose proof (flags_range w) as Hf.
  eapply notes_bind; [apply notes_reads, reads_readInt16|]. rewrite !wrapU_wrapS, !(wrapU_id 16 (tag_flags w)) by done.
  eapply notes_bind; [apply notes_reads, reads_readInt16|]. rewrite wrapU_wrapS, !(wrapU_id 16 (w_bits w)) by done.
  eapply notes_bind; [apply notes_reads, reads_read|]. rewrite F2, F4.
  eapply (notes_bind _ _ _ _ _ _ _ (w_version w)).
  { destruct (Z.ltb_spec (w_version w) 65536).
    - rewrite <- (version_two (w_version w)) at 2 by (unfold in_u; lia). apply (notes_map _ (fun v => Z.land v 0xffff)), notes_reads, reads_readInt16.
    - rewrite <- (version_four (w_version w)) at 2 by lia.
      apply (notes_map _ (fun v => s32 (Z.land (u32 v) 0xffffffff))), notes_reads, reads_readInt32. }
  eapply (notes_bind _ _ _ _ _ _ _ (default 0 (w_high w))).
  { destruct (w_high w) as [h|]; cbn [present default]; [|apply notes_ret].
    apply notes_reads. eapply reads_eq; [apply reads_readInt16|]. rewrite wrapS_wrapU. apply wrapS_id; [lia|by apply Hh]. }
  eapply notes_bind; [apply notes_reads, reads_readInt32|]. eapply notes_bind; [by apply notes_reads, reads_unsignedVL|].
  rewrite wrapS_wrapU, (wrapS_id 32) by (lia || done).
  pose proof (notes_members w ml (VersionTag.mk (w_bits w) (w_version w) (default 0 (w_high w)) (w_low w) 0 0 (w_time w)) Hok eq_refl eq_refl) as Hmem.
  unfold tag_of. destruct (member_ids w ml) as [[i p] ml']. exact Hmem.
Qed.
End Tags.

(** *** Members *)

Section Members.
Context `{AllocatorOk} (to_utf16 to_utf8 : list Z -> outcome (list Z)) (other_object : Z -> ST t unit) (syncCounter : Z).

Lemma reads_readStringObject s : text_ok to_utf16 to_utf8 s ->
  reads (ClientProxyMembershipID.readStringObject to_utf8 other_object) (enc_text to_utf16 s) (Some s).
Proof.
  intros [Hb Ht Hf Hu [Hl1 Hl2] He]. unfold enc_text, ClientProxyMembershipID.readStringObject.
  destruct (Z.ltb_spec (Z.of_nat (length s)) (DataOutput.utfLength s)) as [_|Hge].
  - destruct (Z.ltb_spec 0xFFFF (DataOutput.utfLength s)); (eapply (reads_bind _ _ [_]); [apply reads_read|]);
      apply (reads_map _ Some); (eapply reads_lift; [|exact Hf]).
    + by apply reads_readUtf16Huge.
    + apply reads_readJavaModifiedUtf8; [done|lia].
  - rewrite utfLength_encodedLength in Hge by (by apply bytes_are_units).
    pose proof (short_encoding_ascii s (bytes_are_units s Hb) Hge).
    destruct (Z.ltb_spec 0xFFFF (Z.of_nat (length s))); (eapply (reads_bind _ _ [_]); [apply reads_read|]); apply (reads_map _ Some).
    + by apply reads_readAsciiHuge.
    + by apply reads_readAscii.
Qed.

(** The essential data of a member: loners have a tag, others the id of a view. *)
Record wire_member := mkMember {
  w_addr : list Z;
  w_port : Z;
  w_flags : Z;
  w_kind : Z;
  w_tag : list Z;
  w_ds : list Z
}.
Definition enc_member (w : wire_member) : list Z :=
  enc_arrayLen (Z.of_nat (length (w_addr w))) ++ w_addr w ++ be_bytes 4 (u32 (w_port w)) ++ [u8 (w_flags w)] ++ [u8 (w_kind w)] ++
  enc_text to_utf16 (w_tag w) ++ enc_text to_utf16 (w_ds w).
Definition member_of (w : wire_member) : outcome ClientProxyMembershipID.t :=
  let m := ClientProxyMembershipID.initHostAddressVector (w_addr w) (Z.of_nat (length (w_addr w))) ClientProxyMembershipID.construct in
  let init tag view := ClientProxyMembershipID.initObjectVars to_utf16 syncCounter [] (u32 (w_port w)) [] 0 ClientProxyMembershipID.kDcPort 0
                         (w_kind w) 0 (Some (w_ds w)) tag view m in
  if w_kind w =? ClientProxyMembershipID.kVmKindLoner then init (Some (w_tag w)) 0 else view ← stoi (w_tag w); init None (u32 view).
Record member_ok (w : wire_member) (m : ClientProxyMembershipID.t) : Prop := {
  ok_addr : Z.of_nat (length (w_addr w)) < 2 ^ 31;
  ok_port : in_s 32 (w_port w);
  ok_kind : in_s 8 (w_kind w);
  ok_tag : text_ok to_utf16 to_utf8 (w_tag w);
  ok_ds : text_ok to_utf16 to_utf8 (w_ds w);
  ok_value : member_of w = Ok m
}.

Lemma reads_member w m : member_ok w m ->
  reads (ClientProxyMembershipID.readEssentialData to_utf16 to_utf8 other_object syncCounter ClientProxyMembershipID.construct) (enc_member w) m.
Proof.
  intros [Ha Hp Hk Ht Hd Hm]. unfold ClientProxyMembershipID.readEssentialData, enc_member, member_of in *. rewrite (app_assoc (enc_arrayLen _)).
  eapply (reads_bind _ _ _ _ (w_addr w)).
  { unfold ClientProxyMembershipID.readHostAddress. eapply reads_bind; [apply reads_readArrayLength; lia|].
    destruct (Z.ltb_spec (Z.of_nat (length (w_addr w))) 0); [lia|]. apply reads_readBytesOnly. }
  eapply reads_bind; [apply reads_readInt32|]. rewrite wrapS_wrapU, (wrapS_id 32) by (lia || done).
  eapply reads_bind; [apply reads_read|]. eapply reads_bind; [apply reads_read|]. rewrite wrapS_wrapU, (wrapS_id 8) by (lia || done).
  destruct (Z.eqb_spec (w_kind w) ClientProxyMembershipID.kVmKindLoner) as [E|E].
  - eapply (reads_bind _ _ _ _ (Some (w_tag w), 0)).
    { apply (reads_map _ (fun p => (p, 0))). by apply reads_readStringObject. }
    rewrite <- (app_nil_r (enc_text _ _)). eapply reads_bind; [by apply reads_readStringObject|]. cbn [ClientProxyMembershipID.value].
    eapply reads_bind0; [apply reads_ret|]. cbn [negb]. eapply reads_bind0; [apply reads_ret|].
    change (u32 0) with 0. rewrite Hm. apply reads_ret.
  - destruct (stoi (w_tag w)) as [view|] eqn:Ev; [|done]. eapply (reads_bind _ _ _ _ (None, view)).
    { rewrite <- (app_nil_r (enc_text _ _)). eapply reads_bind; [by apply reads_readStringObject|]. cbn [ClientProxyMembershipID.value].
      eapply reads_bind0; [apply reads_ret|]. rewrite Ev. apply (reads_map _ (fun v => (None, v))), reads_ret. }
    rewrite <- (app_nil_r (enc_text _ _)). eapply reads_bind; [by apply reads_readStringObject|]. cbn [ClientProxyMembershipID.value negb].
    eapply reads_bind0; [apply reads_ret|]. unfold mbind, outcome_bind in Hm. rewrite Hm. apply reads_ret.
Qed.

Lemma reads_disk d : in_s 64 (DiskStoreId.m_mostSig d) -> in_s 64 (DiskStoreId.m_leastSig d) ->
  reads DiskStoreId.fromData (be_bytes 8 (u64 (DiskStoreId.m_mostSig d)) ++ be_bytes 8 (u64 (DiskStoreId.m_leastSig d))) d.
Proof.
  intros H1 H2. unfold DiskStoreId.fromData. eapply reads_bind; [apply reads_readInt64|].
  eapply reads_eq; [apply (reads_map _ (DiskStoreId.mk _)), reads_readInt64|]. rewrite !wrapS_wrapU, !wrapS_id by (lia || done). by destruct d.
Qed.

(** *** Members with all their data *)

Record wire_full := mkFull {
  f_addr : list Z;
  f_port : Z;
  f_host : list Z;
  f_flags : Z;
  f_dcport : Z;
  f_pid : Z;
  f_kind : Z;
  f_roles : list (list Z);
  f_ds : list Z;
  f_tag : list Z;
  f_durable : list Z;
  f_timeout : Z;
  f_ordinal : Z;
  f_more : list Z
}.
Definition has_version (w : wire_full) : bool := negb (Z.land (f_flags w) ClientProxyMembershipID.kVersionMask =? 0).
Definition enc_full (w : wire_full) : list Z :=
  (enc_arrayLen (Z.of_nat (length (f_addr w))) ++ f_addr w) ++ be_bytes 4 (u32 (f_port w)) ++ enc_text to_utf16 (f_host w) ++ [u8 (f_flags w)] ++
  be_bytes 4 (u32 (f_dcport w)) ++ be_bytes 4 (u32 (f_pid w)) ++ [u8 (f_kind w)] ++ enc_texts to_utf16 (f_roles w) ++
  enc_text to_utf16 (f_ds w) ++ enc_text to_utf16 (f_tag w) ++ enc_text to_utf16 (f_durable w) ++ be_bytes 4 (u32 (f_timeout w)) ++
  (if has_version w then [f_ordinal w] else []) ++ f_more w.
Definition full_of (w : wire_full) : outcome ClientProxyMembershipID.t :=
  let m := ClientProxyMembershipID.initHostAddressVector (f_addr w) (Z.of_nat (length (f_addr w))) ClientProxyMembershipID.construct in
  '(tag, view) ← (if negb (f_kind w =? ClientProxyMembershipID.kVmKindLoner) then v ← stoi (f_tag w); mret (None, u32 v) else mret (Some (f_tag w), 0));
  ClientProxyMembershipID.initObjectVars to_utf16 syncCounter (c_str (f_host w)) (u32 (f_port w)) (c_str (f_durable w)) (f_timeout w) (f_dcport w)
    (f_pid w) (f_kind w) (f_flags w) (Some (f_ds w)) tag view m.
Record full_ok (w : wire_full) (m : ClientProxyMembershipID.t) : Prop := {
  full_addr : Z.of_nat (length (f_addr w)) < 2 ^ 31;
  full_ints : in_s 32 (f_port w) /\ in_s 32 (f_dcport w) /\ in_s 32 (f_pid w) /\ in_s 32 (f_timeout w);
  full_bytes : in_s 8 (f_flags w) /\ in_s 8 (f_kind w);
  full_texts : text_ok to_utf16 to_utf8 (f_host w) /\ text_ok to_utf16 to_utf8 (f_ds w) /\ text_ok to_utf16 to_utf8 (f_tag w) /\
    text_ok to_utf16 to_utf8 (f_durable w) /\ Forall (text_ok to_utf16 to_utf8) (f_roles w);
  full_roles : Z.of_nat (length (f_roles w)) < 2 ^ 31;
  full_ordinal : 0 <= f_ordinal w < 128;
  full_more : length (f_more w) = 17%nat;
  full_value : full_of w = Ok m
}.

Lemma reads_lifted {A B} (o : outcome A) (a : A) (f : A -> ST t B) l b : o = Ok a -> reads (f a) l b -> reads (x ← st_lift o; f x) l b.
Proof. by intros ->. Qed.

Lemma reads_roles ss : Z.of_nat (length ss) < 2 ^ 31 -> Forall (text_ok to_utf16 to_utf8) ss ->
  reads (ClientProxyMembershipID.readRoles to_utf8 other_object) (enc_texts to_utf16 ss) tt.
Proof.
  intros Hl Hss. unfold ClientProxyMembershipID.readRoles, enc_texts. eapply reads_bind; [apply reads_readArrayLength; lia|]. rewrite Nat2Z.id.
  rewrite <- (app_nil_r (ss ≫= _)). apply (reads_bind _ _ _ _ (Some <$> ss)); [|apply reads_ret].
  induction Hss as [|s ss Hs _ IH]; [apply reads_ret|]. rewrite bind_cons. cbn [length st_repeat fmap list_fmap].
  eapply reads_bind; [by apply reads_readStringObject|]. apply (reads_map _ (cons (Some s))), IH. cbn [length] in Hl. lia.
Qed.

Lemma reads_advance17 l : length l = 17%nat -> reads ClientProxyMembershipID.readAdditionalData l tt.
Proof.
  intros Hl pre rest _. unfold ClientProxyMembershipID.readAdditionalData, advanceCursor, st_modify, at_. cbn [buffer pos bufferLength].
  rewrite <- app_assoc, !length_app. do 3 f_equal. lia.
Qed.

Lemma reads_int32_is z : in_s 32 z -> reads readInt32 (be_bytes 4 (u32 z)) z.
Proof. intros Hz. eapply reads_eq; [apply reads_readInt32|]. rewrite wrapS_wrapU. by apply wrapS_id. Qed.
Lemma reads_int8_is z : in_s 8 z -> reads read [u8 z] z.
Proof. intros Hz. eapply reads_eq; [apply reads_read|]. rewrite wrapS_wrapU. by apply wrapS_id. Qed.

Lemma reads_full w m : full_ok w m ->
  reads (ClientProxyMembershipID.fromData to_utf16 to_utf8 other_object syncCounter ClientProxyMembershipID.construct) (enc_full w) m.
Proof.
  intros [Ha (Hp & Hd & Hpid & Hto) [Hfl Hk] (Hh & Hds & Htag & Hdu & Hro) Hr Ho Hmo Hv].
  unfold ClientProxyMembershipID.fromData, enc_full. eapply (reads_bind _ _ _ _ (f_addr w)).
  { unfold ClientProxyMembershipID.readHostAddress. eapply reads_bind; [apply reads_readArrayLength; lia|].
    destruct (Z.ltb_spec (Z.of_nat (length (f_addr w))) 0); [lia|]. apply reads_readBytesOnly. }
  eapply reads_bind; [by apply reads_int32_is|]. eapply reads_bind; [by apply reads_readStringObject|]. eapply reads_bind; [by apply reads_int8_is|].
  eapply reads_bind; [by apply reads_int32_is|]. eapply reads_bind; [by apply reads_int32_is|]. eapply reads_bind; [by apply reads_int8_is|].
  eapply reads_bind; [by apply reads_roles|]. do 3 (eapply reads_bind; [by apply reads_readStringObject|]). eapply reads_bind; [by apply reads_int32_is|].
  eapply (reads_bind _ _ _ _ tt).
  { unfold ClientProxyMembershipID.readVersion, has_version. destruct (negb _); [|apply reads_ret]. rewrite <- (app_nil_r [_]).
    apply (reads_bind _ _ _ _ (f_ordinal w)); [|apply reads_ret]. unfold Version.read. rewrite <- (app_nil_r [_]). eapply reads_bind; [apply reads_read|].
    rewrite wrapS_id by (unfold in_s; lia). destruct (Z.eqb_spec Version.kTokenOrdinal (f_ordinal w)) as [E|_]; [unfold Version.kTokenOrdinal in E; lia|apply reads_ret]. }
  cbn [ClientProxyMembershipID.value]. eapply reads_lifted; [done|]. unfold full_of in Hv.
  rewrite <- (app_nil_r (f_more w)).
  destruct (negb (f_kind w =? ClientProxyMembershipID.kVmKindLoner)).
  - destruct (stoi (f_tag w)) as [v|] eqn:Ev; [|done]. eapply (reads_bind0 _ _ _ (None, u32 v)).
    { eapply reads_lifted; [done|apply reads_ret]. }
    do 3 (eapply reads_lifted; [done|]). eapply reads_lifted; [exact Hv|]. eapply reads_bind; [by apply reads_advance17|apply reads_ret].
  - eapply (reads_bind0 _ _ _ (Some (f_tag w), 0)); [apply reads_ret|].
    do 3 (eapply reads_lifted; [done|]). eapply reads_lifted; [exact Hv|]. eapply reads_bind; [by apply reads_advance17|apply reads_ret].
Qed.
End Members.
