(* ===== verification/TcrReply.v ===== *)
(** Messages from servers (src/cppcache/src/TcrMessage.cpp, TcrMessage.hpp): the readers of
    parts and [handleByteArrayResponse], which takes replies and notifications apart.

    A reply is read in a state with the input and the list of members that version tags
    refer to. [m_value] may be a token. The distribution manager of a message matters by being
    there, and through [isSecurityOn()]. The order of the elements of hash containers is
    [place]; a member that is equal to one in the map of tombstone versions stays out, members
    that cannot be compared being different, as the table compares equal hash codes only. *)
From S2P Require Import Prelude JavaModifiedUtf8 DataOutput DataInput EventId MemberId Versions MapEntry CacheableString ServerLocation CacheableBuiltins TcrMessage.

(** [DSFid]. *)
Definition DSFid_VersionTag : Z := -120.
Definition DSFid_InternalDistributedMember : Z := 92.
Definition DSFid_DiskVersionTag : Z := 2131.
Definition DSFid_DiskStoreId : Z := 2133.
(** [DSCode::JavaSerializable]. *)
Definition DSCode_JavaSerializable : Z := 44.

Module TcrReply.
(** The input, the list of members, and what is read: a message, or a result. *)
Abbreviation Reader T := (ST (DataInput.t * MemberListForVersionStamp.t * T)).

Section Reply.
Context {U : Type}.
Abbreviation Object_ := (Serializable.t U).

Record t := mk {
  m_request : bool;                       (** not null *)
  m_tcdm : option bool;                   (** [isSecurityOn()] *)
  m_msgType : Z;
  m_msgTypeRequest : Z;
  m_txId : Z;
  m_decodeAll : bool;
  m_isSecurityOn : bool;
  m_isCallBackArguement : bool;
  m_value : option (Cacheable Object_);
  m_callbackArgument : Object_;
  m_key : Object_;
  m_regionName : list Z;
  m_metaDataVersion : Z;
  m_serverGroupVersion : Z;
  m_versionTag : option VersionTag.t;
  m_boolValue : bool;
  m_isInterestListPassed : bool;
  m_hasCqsPart : bool;
  m_shouldIgnore : bool;
  m_cqs : option (gmap (list Z) Z);
  m_numCqPart : Z;
  m_msgTypeForCq : Z;
  m_connectionIDBytes : option (list Z);
  m_failedNode : option (list Object_);
  m_functionAttributes : option (list Z);
  m_entryNotFound : Z;
  m_delta : option (list Z);              (** with [m_deltaBytes] and [m_deltaBytesLen] *)
  m_eventid : option EventId.t;
  m_metadata : option (list (list BucketServerLocation));
  m_attributes : PartitionAttributes;     (** [m_bucketCount], [m_colocatedWith], [m_fpaSet] *)
  m_tombstoneVersions : option (list (DSMember.t * Z));
  m_tombstoneKeys : option (list Object_);
  m_feAnotherHop : bool;
  m_isLastChunkAndisSecurityHeader : Z
}.

Definition eta (r : t) : t :=
  mk (m_request r) (m_tcdm r) (m_msgType r) (m_msgTypeRequest r) (m_txId r) (m_decodeAll r) (m_isSecurityOn r)
     (m_isCallBackArguement r) (m_value r) (m_callbackArgument r) (m_key r) (m_regionName r) (m_metaDataVersion r)
     (m_serverGroupVersion r) (m_versionTag r) (m_boolValue r) (m_isInterestListPassed r) (m_hasCqsPart r)
     (m_shouldIgnore r) (m_cqs r) (m_numCqPart r) (m_msgTypeForCq r) (m_connectionIDBytes r) (m_failedNode r)
     (m_functionAttributes r) (m_entryNotFound r) (m_delta r) (m_eventid r) (m_metadata r) (m_attributes r)
     (m_tombstoneVersions r) (m_tombstoneKeys r) (m_feAnotherHop r) (m_isLastChunkAndisSecurityHeader r).

Definition set_request : bool -> t -> t := ltac:(record_setter eta m_request).
Definition set_msgType : Z -> t -> t := ltac:(record_setter eta m_msgType).
Definition set_msgTypeRequest : Z -> t -> t := ltac:(record_setter eta m_msgTypeRequest).
Definition set_txId : Z -> t -> t := ltac:(record_setter eta m_txId).
Definition set_isCallBackArguement : bool -> t -> t := ltac:(record_setter eta m_isCallBackArguement).
Definition set_value : option (Cacheable Object_) -> t -> t := ltac:(record_setter eta m_value).
Definition set_callbackArgument : Object_ -> t -> t := ltac:(record_setter eta m_callbackArgument).
Definition set_key : Object_ -> t -> t := ltac:(record_setter eta m_key).
Definition set_regionName : list Z -> t -> t := ltac:(record_setter eta m_regionName).
Definition set_metaDataVersion : Z -> t -> t := ltac:(record_setter eta m_metaDataVersion).
Definition set_serverGroupVersion : Z -> t -> t := ltac:(record_setter eta m_serverGroupVersion).
Definition set_versionTag : option VersionTag.t -> t -> t := ltac:(record_setter eta m_versionTag).
Definition set_boolValue : bool -> t -> t := ltac:(record_setter eta m_boolValue).
Definition set_isInterestListPassed : bool -> t -> t := ltac:(record_setter eta m_isInterestListPassed).
Definition set_hasCqsPart : bool -> t -> t := ltac:(record_setter eta m_hasCqsPart).
Definition set_shouldIgnore : bool -> t -> t := ltac:(record_setter eta m_shouldIgnore).
Definition set_cqs : option (gmap (list Z) Z) -> t -> t := ltac:(record_setter eta m_cqs).
Definition set_numCqPart : Z -> t -> t := ltac:(record_setter eta m_numCqPart).
Definition set_msgTypeForCq : Z -> t -> t := ltac:(record_setter eta m_msgTypeForCq).
Definition set_connectionIDBytes : option (list Z) -> t -> t := ltac:(record_setter eta m_connectionIDBytes).
Definition set_failedNode : option (list Object_) -> t -> t := ltac:(record_setter eta m_failedNode).
Definition set_functionAttributes : option (list Z) -> t -> t := ltac:(record_setter eta m_functionAttributes).
Definition set_entryNotFound : Z -> t -> t := ltac:(record_setter eta m_entryNotFound).
Definition set_delta : option (list Z) -> t -> t := ltac:(record_setter eta m_delta).
Definition set_eventid : option EventId.t -> t -> t := ltac:(record_setter eta m_eventid).
Definition set_metadata : option (list (list BucketServerLocation)) -> t -> t := ltac:(record_setter eta m_metadata).
Definition set_attributes : PartitionAttributes -> t -> t := ltac:(record_setter eta m_attributes).
Definition set_tombstoneVersions : option (list (DSMember.t * Z)) -> t -> t := ltac:(record_setter eta m_tombstoneVersions).
Definition set_tombstoneKeys : option (list Object_) -> t -> t := ltac:(record_setter eta m_tombstoneKeys).
Definition set_feAnotherHop : bool -> t -> t := ltac:(record_setter eta m_feAnotherHop).
Definition set_isLastChunk : Z -> t -> t := ltac:(record_setter eta m_isLastChunkAndisSecurityHeader).

(** [TcrMessageReply(decodeAll, connectionDM)]. *)
Definition TcrMessageReply (decodeAll : bool) (connectionDM : option bool) : t :=
  mk false connectionDM MsgType.INVALID 0 (-1) decodeAll (default false connectionDM) false None Serializable.nullptr
     Serializable.nullptr TcrMessage.INVALID_REGION_NAME 0 0 None false false false false None 0 0 None None None 0 None None
     None (mkAttributes 0 [] None) None None false 0.
Definition initCqMap : t -> t := set_cqs (Some ∅).

(** *** The monad *)

Definition on_input {T A} (m : ST DataInput.t A) : Reader T A := st_first (st_first m).
Definition on_members {T A} (m : ST (DataInput.t * MemberListForVersionStamp.t) A) : Reader T A := st_first m.
Definition set {T} (f : T -> T) : Reader T unit := st_modify (fun s => (s.1, f s.2)).
Definition get {T} : Reader T T := s ← st_get; mret s.2.
Definition when {S} (b : bool) (m : ST S unit) : ST S unit := if b then m else mret tt.
Definition R (A : Type) : Type := Reader t A.

(** A pointer to an object as the pointer of a value. *)
Definition pointer (o : Object_) : option (Cacheable Object_) :=
  match o with Serializable.nullptr => None | _ => Some (Obj o) end.

(** *** Readers of parts *)

Section Readers.
Context `{Allocator} (to_utf16 to_utf8 : list Z -> outcome (list Z)) (user : Serializable.UserTypes U)
  (place : forall X, list X -> X -> list X) (syncCounter : Z).

Definition readObject : ST DataInput.t Object_ := Serializable.readObject to_utf8 user place.
(** [deserialize] with a code that is known. *)
Definition deserialize (dsCode : Z) : ST DataInput.t Object_ := Serializable.deserialize_with to_utf8 user place readObject dsCode.
Definition other_object (dsCode : Z) : ST DataInput.t unit := deserialize dsCode;; mret tt.

(** [dynamic_pointer_cast<CacheableKey>] and [dynamic_pointer_cast<EventId>]. *)
Definition key_cast (o : Object_) : Object_ := if Serializable.is_key user o then o else Serializable.nullptr.
Definition event_cast (o : Object_) : option EventId.t := match o with Serializable.EventIdObject e => Some e | _ => None end.

Definition readBooleanPartAsObject (boolVal : bool) : ST DataInput.t bool :=
  lenObj ← DataInput.readInt32;
  isObj ← DataInput.readBoolean;
  if (0 <? lenObj) && isObj then DataInput.readNativeBool else mret boolVal.

Definition readOldValue : ST DataInput.t unit :=
  DataInput.readInt32;;
  DataInput.read;;
  readObject;; mret tt.

Definition readPrMetaData : R unit :=
  lenObj ← on_input DataInput.readInt32;
  on_input DataInput.read;;
  metaDataVersion ← on_input DataInput.read;
  set (set_metaDataVersion metaDataVersion);;
  when (lenObj =? 2) (serverGroupVersion ← on_input DataInput.read; set (set_serverGroupVersion serverGroupVersion)).

Definition readVersionTagPart (endpointMemId : Z) : ST (DataInput.t * MemberListForVersionStamp.t) (option VersionTag.t) :=
  isObj ← st_first DataInput.read;
  if isObj =? DSCode.NullObj then mret None
  else if isObj =? DSCode.FixedIDByte then
    fid ← st_first DataInput.read;
    if fid =? DSFid_VersionTag then
      versionTag ← VersionTag.fromData (VersionTag.readMembers to_utf16 to_utf8 other_object syncCounter) VersionTag.construct;
      mret (Some (VersionTag.replaceNullMemberId endpointMemId versionTag))
    else mret (Some VersionTag.construct)
  else if isObj =? DSCode.FixedIDShort then
    fid ← st_first DataInput.readInt16;
    if fid =? DSFid_DiskVersionTag then Some <$> VersionTag.fromData VersionTag.readMembers_disk VersionTag.construct
    else mret None
  else mret None.

Definition readVersionTag (endpointMemId : Z) : R unit :=
  lenObj ← on_input DataInput.readInt32;
  on_input DataInput.read;;
  when (negb (lenObj =? 0))
    (versionTag ← on_members (readVersionTagPart endpointMemId); set (set_versionTag versionTag)).

Definition readIntPart : ST DataInput.t Z :=
  intLen ← DataInput.readInt32;
  if negb (u32 intLen =? 4) then st_throw BaseException
  else
    b ← DataInput.read;
    if negb (b =? 0) then st_throw BaseException
    else v ← DataInput.readInt32; mret (u32 v).

(** [JavaModifiedUtf8::decode] from the cursor on; its length has 16 bits. *)
Definition decode_here (len : Z) : ST DataInput.t (list Z) :=
  d ← st_get;
  s ← st_lift (JavaModifiedUtf8.decode (drop (Z.to_nat (DataInput.pos d)) (DataInput.buffer d)) (u16 len));
  DataInput.advanceCursor len;;
  mret s.

Definition readStringPart : ST DataInput.t (list Z) :=
  stringLength ← DataInput.readInt32;
  b ← DataInput.read;
  if negb (b =? 0) then st_throw BaseException
  else jmutf8 ← decode_here stringLength; st_lift (to_utf8 jmutf8).

(** A round of the loop reads two parts, and counts them in 32 bits. *)
Fixpoint readCqs (fuel : nat) (numCqPart cqCnt : Z) (cqs : gmap (list Z) Z) : ST DataInput.t (gmap (list Z) Z) :=
  if cqCnt <? numCqPart then
    match fuel with
    | O => st_throw Diverges
    | S fuel =>
      cq ← readStringPart;
      cqOp ← readIntPart;
      readCqs fuel numCqPart (u32 (cqCnt + 2)) (<[cq := s32 cqOp]> cqs)
    end
  else mret cqs.
Definition readCqsPart : R unit :=
  m ← get;
  match m_cqs m with
  | None => st_throw UndefinedBehaviour
  | Some _ =>
    numCqPart ← on_input readIntPart;
    set (set_numCqPart numCqPart);;
    cqs ← on_input (readCqs (Z.to_nat ((numCqPart + 1) / 2)) numCqPart 0 ∅);
    set (set_cqs (Some cqs))
  end.

Definition readCacheableString (lenObj : Z) : ST DataInput.t Object_ :=
  decoded ← decode_here lenObj;
  s ← st_lift (to_utf8 decoded);
  mret (Serializable.CacheableString (CacheableString.m_type s) s).

(** [buffer[i] = v] with [buffer] at the cursor. *)
Definition store (i v : Z) : ST DataInput.t unit := fun d =>
  let j := DataInput.pos d + i in
  if (0 <=? j) && (j <? Z.of_nat (length (DataInput.buffer d)))
  then Ok (tt, DataInput.mk (<[Z.to_nat j := u8 v]> (DataInput.buffer d)) (DataInput.pos d) (DataInput.bufferLength d))
  else Throw UndefinedBehaviour.

(** The length is written over the header of the part, in the format of an array, and the
    array is read. *)
Definition readCacheableBytes (lenObj : Z) : ST DataInput.t Object_ :=
  (if lenObj <=? 252 then
     DataInput.rewindCursor 1;;
     store 0 lenObj
   else if lenObj <=? 0xFFFF then
     DataInput.rewindCursor 3;;
     store 0 (-2);; store 1 (Z.shiftr lenObj 8);; store 2 lenObj
   else
     DataInput.rewindCursor 5;;
     store 0 (-3);; store 1 (Z.shiftr lenObj 24);; store 2 (Z.shiftr lenObj 16);; store 3 (Z.shiftr lenObj 8);; store 4 lenObj);;
  deserialize DSCode.CacheableBytes.

Definition readCallbackObjectPart (defaultString : bool) : R unit :=
  lenObj ← on_input DataInput.readInt32;
  isObj ← on_input DataInput.readBoolean;
  when (0 <? lenObj)
    (o ← on_input (if isObj : bool then readObject else if defaultString then readCacheableString lenObj else readCacheableBytes lenObj);
     set (set_callbackArgument o)).

Definition readObjectPart (defaultString : bool) : R unit :=
  lenObj ← on_input DataInput.readInt32;
  isObj ← on_input DataInput.read;
  if 0 <? lenObj then
    o ← on_input (if isObj =? 1 then readObject else if defaultString then readCacheableString lenObj else readCacheableBytes lenObj);
    set (set_value (pointer o))
  else if (lenObj =? 0) && (isObj =? 2) then set (set_value (Some (Obj (Serializable.CacheableBytes []))))
  else when (isObj =? 0) (set (set_value None)).

(** The bytes from the cursor on, as an array of signed bytes. *)
Definition bytes_here (lenObj : Z) : ST DataInput.t (list Z) := l ← DataInput.memcpy lenObj; mret (s8 <$> l).

Definition readSecureObjectPart (defaultString isChunk : bool) (isLastChunkWithSecurity : Z) : R unit :=
  if isChunk && (Z.land isLastChunkWithSecurity 0x2 =? 0) then mret tt
  else
    lenObj ← on_input DataInput.readInt32;
    isObj ← on_input DataInput.readBoolean;
    when (0 <? lenObj)
      (if isObj : bool then o ← on_input readObject; set (set_value (pointer o))
       else if defaultString then o ← on_input (readCacheableString lenObj); set (set_value (pointer o))
       else bytes ← on_input (bytes_here lenObj); set (set_connectionIDBytes (Some bytes)));;
    remaining ← on_input (st_gets DataInput.getBytesRemaining);
    when (negb (remaining =? 0)) (st_throw IllegalStateException).

Definition readUniqueIDObjectPart : R unit :=
  lenObj ← on_input DataInput.readInt32;
  on_input DataInput.readBoolean;;
  when (0 <? lenObj)
    (bytes ← on_input (bytes_here lenObj); set (set_value (Some (Obj (Serializable.CacheableBytes bytes))))).

(** A new input on the bytes. *)
Definition int64_of (bytes : list Z) : outcome Z :=
  match DataInput.readInt64 (DataInput.construct (u8 <$> bytes) (Z.of_nat (length bytes))) with
  | Ok (v, _) => Ok v
  | Throw e => Throw e
  end.
Definition with_dm {A} (m : t) (o : outcome A) : outcome A := match m_tcdm m with Some _ => o | None => Throw UndefinedBehaviour end.
Definition getConnectionId (m : t) : outcome Z :=
  match m_connectionIDBytes m with Some bytes => with_dm m (int64_of bytes) | None => Ok 0 end.
Definition getUniqueId (m : t) : outcome Z :=
  match m_value m with Some (Obj (Serializable.CacheableBytes bytes)) => with_dm m (int64_of bytes) | _ => Ok 0 end.

Definition readFailedNodePart : R unit :=
  on_input DataInput.readInt32;;
  on_input DataInput.readBoolean;;
  on_input DataInput.read;;
  nodes ← on_input (Serializable.read_set user place readObject);
  set (set_failedNode (Some nodes)).

Definition readKeyPart : R unit :=
  lenObj ← on_input DataInput.readInt32;
  isObj ← on_input DataInput.readBoolean;
  when (0 <? lenObj)
    (o ← on_input (if isObj : bool then readObject else readCacheableString lenObj);
     set (set_key (key_cast o))).

(** [while (numParts > 0)]. *)
Definition skipParts (numParts : Z) : ST DataInput.t unit :=
  st_repeat (Z.to_nat numParts)
    (partLen ← DataInput.readInt32;
     if partLen =? 2 ^ 31 - 1 then st_throw UndefinedBehaviour else DataInput.advanceCursor (partLen + 1));; mret tt.

(** The number of parts is in the upper bits, and counted down in eight bits. *)
Definition readExceptionPart (isLastChunk : Z) (skipFirstPart : bool) : R bool :=
  let isLastChunk := Z.shiftr isLastChunk 5 in
  when skipFirstPart (on_input (skipParts 1));;
  let isLastChunk := if skipFirstPart then u8 (isLastChunk - 1) else isLastChunk in
  if 0 <? isLastChunk then
    readObjectPart true;;
    when (0 <? isLastChunk - 1) readFailedNodePart;;
    mret true
  else mret false.

Definition readEventIdPart (skip : bool) (parts : Z) : R unit :=
  when skip (on_input (skipParts parts));;
  on_input DataInput.readInt32;;
  on_input DataInput.read;;
  o ← on_input readObject;
  set (set_eventid (event_cast o)).

Definition readDSMember : ST DataInput.t DSMember.t :=
  typeidLen ← DataInput.read;
  if u8 typeidLen =? 1 then
    typeidofMember ← DataInput.read;
    if negb (typeidofMember =? DSFid_InternalDistributedMember) then st_throw BaseException
    else DSMember.Proxy <$> ClientProxyMembershipID.fromData to_utf16 to_utf8 other_object syncCounter ClientProxyMembershipID.construct
  else if u8 typeidLen =? 2 then
    typeidofMember ← DataInput.readInt16;
    if negb (typeidofMember =? DSFid_DiskStoreId) then st_throw BaseException
    else DSMember.Disk <$> DiskStoreId.fromData
  else st_throw BaseException.

Definition same_member (a b : DSMember.t) : bool := match DSMember.compareTo a b with Ok z => z =? 0 | Throw _ => false end.
Definition emplace_version (x : DSMember.t * Z) (l : list (DSMember.t * Z)) : list (DSMember.t * Z) :=
  if existsb (fun y => same_member y.1 x.1) l then l else place _ l x.

Fixpoint read_versions (n : nat) (l : list (DSMember.t * Z)) : ST DataInput.t (list (DSMember.t * Z)) :=
  match n with
  | O => mret l
  | S n =>
    key ← readDSMember;
    DataInput.read;;
    version ← DataInput.readInt64;
    read_versions n (emplace_version (key, version) l)
  end.
Definition readHashMapForGCVersions (value : list (DSMember.t * Z)) : ST DataInput.t (list (DSMember.t * Z)) :=
  hashmaptypeid ← DataInput.read;
  if negb (u8 hashmaptypeid =? DSCode.CacheableHashMap) then st_throw BaseException
  else len ← DataInput.readArrayLength; read_versions (Z.to_nat len) value.

Definition readHashSetForGCVersions (value : list Object_) : ST DataInput.t (list Object_) :=
  hashsettypeid ← DataInput.read;
  if negb (hashsettypeid =? DSCode.CacheableHashSet) then st_throw BaseException
  else
    len ← DataInput.readArrayLength;
    Serializable.read_into user place (Z.to_nat len) id (o ← readObject; mret (key_cast o)) value.

(** *** Replies and notifications *)

(** The name of a region: an array of characters that ends with a zero. *)
Definition readRegionName (isObj : ST DataInput.t unit) : R unit :=
  regionLen ← on_input DataInput.readInt32;
  on_input isObj;;
  if regionLen =? 2 ^ 31 - 1 then st_throw UndefinedBehaviour
  else if regionLen + 1 <? 0 then st_throw StdBadAlloc
  else
    regname ← on_input (DataInput.readBytesOnly (u64 regionLen));
    set (set_regionName (c_str regname)).

Definition flag (flags mask : Z) : bool := negb (Z.land flags mask =? 0).

(** The version of the metadata of a region that is found behind the value. *)
Definition read_metadata_version : R unit :=
  lenObj ← on_input DataInput.readInt32;
  on_input DataInput.readBoolean;;
  metaDataVersion ← on_input DataInput.read;
  set (set_metaDataVersion metaDataVersion);;
  when (lenObj =? 2) (serverGroupVersion ← on_input DataInput.read; set (set_serverGroupVersion serverGroupVersion)).

(** RESPONSE to a REQUEST. *)
Definition read_get (numparts endpointMemId : Z) : R unit :=
  readObjectPart false;;
  flags ← on_input readIntPart;
  when (flag flags 0x01) (readCallbackObjectPart false);;
  let receivednumparts := 2 + (if flag flags 0x01 then 1 else 0) in
  m ← get;
  when (bool_decide (m_value m = None) && flag flags 0x08) (set (set_value (Some InvalidToken)));;
  when (flag flags 0x02) (readVersionTag endpointMemId);;
  let receivednumparts := receivednumparts + (if flag flags 0x02 then 1 else 0) in
  when (flag flags 0x04) (set (set_value (Some TombstoneToken)));;
  when (receivednumparts <? numparts) readPrMetaData.

(** RESPONSE. *)
Definition read_response (numparts endpointMemId : Z) : R unit :=
  m ← get;
  let isRequest type := m_msgTypeRequest m =? type in
  if isRequest MsgType.CONTAINS_KEY then
    b ← on_input (readBooleanPartAsObject (m_boolValue m)); set (set_boolValue b)
  else if isRequest MsgType.USER_CREDENTIAL_MESSAGE then readUniqueIDObjectPart
  else if isRequest MsgType.GET_PDX_ID_FOR_TYPE || isRequest MsgType.GET_PDX_ID_FOR_ENUM then
    typeId ← on_input readIntPart; set (set_value (Some (Obj (Serializable.CacheableInt32 (s32 typeId)))))
  else if isRequest MsgType.GET_PDX_TYPE_BY_ID then
    on_input (DataInput.advanceCursor 4);;
    isObj ← on_input DataInput.readBoolean;
    when isObj (o ← on_input (deserialize DSCode.PdxType); set (set_value (pointer o)))
  else if isRequest MsgType.GET_PDX_ENUM_BY_ID then
    on_input (DataInput.advanceCursor 5);;
    o ← on_input readObject;
    set (set_value (pointer o))
  else if isRequest MsgType.GET_FUNCTION_ATTRIBUTES then
    on_input DataInput.readInt32;;
    on_input (DataInput.advanceCursor 1);;
    a ← on_input DataInput.read; b ← on_input DataInput.read; c ← on_input DataInput.read;
    set (set_functionAttributes (Some (default [] (m_functionAttributes m) ++ [a; b; c])))
  else if isRequest MsgType.REQUEST then read_get numparts endpointMemId
  else when (m_decodeAll m)
    (readObjectPart false;;
     if numparts =? 2 then if m_isCallBackArguement m then readCallbackObjectPart false else read_metadata_version
     else when (2 <? numparts) (on_input (skipParts 1);; read_metadata_version)).

(** REPLY. *)
Definition read_reply (endpointMemId : Z) : R unit :=
  m ← get;
  let isRequest type := m_msgTypeRequest m =? type in
  if isRequest MsgType.PUT then
    readPrMetaData;;
    flags ← on_input readIntPart;
    when (flag flags 0x01) (on_input readOldValue);;
    when (flag flags 0x04) (readVersionTag endpointMemId)
  else if isRequest MsgType.INVALIDATE then
    flags ← on_input readIntPart;
    when (flag flags 0x01) (readVersionTag endpointMemId);;
    readPrMetaData
  else if isRequest MsgType.DESTROY then
    flags ← on_input readIntPart;
    when (flag flags 0x01) (readVersionTag endpointMemId);;
    readPrMetaData;;
    entryNotFound ← on_input readIntPart;
    set (set_entryNotFound entryNotFound)
  else readPrMetaData.

Definition skip_byte : ST DataInput.t unit := DataInput.advanceCursor 1.

Definition read_interest : R unit :=
  m ← get;
  b ← on_input (readBooleanPartAsObject (m_isInterestListPassed m));
  set (set_isInterestListPassed b).
Definition read_hasCqs : R bool :=
  m ← get;
  b ← on_input (readBooleanPartAsObject (m_hasCqsPart m));
  set (set_hasCqsPart b);;
  mret b.

(** LOCAL_INVALIDATE and LOCAL_DESTROY. *)
Definition read_local_remove (endpointMemId : Z) : R unit :=
  readRegionName skip_byte;;
  readKeyPart;;
  readCallbackObjectPart false;;
  readVersionTag endpointMemId;;
  read_interest;;
  hasCqs ← read_hasCqs;
  when hasCqs
    (m ← get;
     (if m_msgType m =? MsgType.LOCAL_INVALIDATE
      then type ← on_input readIntPart; set (set_msgTypeForCq type)
      else set (set_msgTypeForCq (u32 (m_msgType m))));;
     readCqsPart);;
  readEventIdPart false 1.

(** LOCAL_CREATE and LOCAL_UPDATE, with a delta or the whole value. *)
Definition read_change : R unit :=
  isDelta ← on_input (readBooleanPartAsObject false);
  if isDelta : bool then
    deltaBytesLen ← on_input DataInput.readInt32;
    on_input skip_byte;;
    if deltaBytesLen <? 0 then st_throw StdBadAlloc
    else bytes ← on_input (DataInput.readBytesOnly deltaBytesLen); set (set_delta (Some bytes))
  else readObjectPart false.
Definition read_local_update (endpointMemId : Z) : R unit :=
  readRegionName skip_byte;;
  readKeyPart;;
  read_change;;
  readCallbackObjectPart false;;
  readVersionTag endpointMemId;;
  read_interest;;
  hasCqs ← read_hasCqs;
  when hasCqs
    (readCqsPart;;
     m ← get;
     set (set_msgTypeForCq (u32 (m_msgType m))));;
  readEventIdPart false 1.

(** LOCAL_DESTROY_REGION and CLEAR_REGION. *)
Definition read_local_region : R unit :=
  readRegionName skip_byte;;
  readCallbackObjectPart false;;
  hasCqs ← read_hasCqs;
  when hasCqs readCqsPart;;
  readEventIdPart false 1.

(** TOMBSTONE_OPERATION. *)
Definition read_tombstones : R unit :=
  readRegionName (DataInput.read;; mret tt);;
  tombstoneOpType ← on_input readIntPart;
  on_input DataInput.readInt32;;
  on_input DataInput.read;;
  m ← get;
  if tombstoneOpType =? 0 then
    versions ← on_input (readHashMapForGCVersions (default [] (m_tombstoneVersions m)));
    set (set_tombstoneVersions (Some versions));;
    readEventIdPart false 1
  else if tombstoneOpType =? 1 then
    keys ← on_input (readHashSetForGCVersions (default [] (m_tombstoneKeys m)));
    set (set_tombstoneKeys (Some keys));;
    readEventIdPart false 1
  else mret tt.

(** The cases of [handleByteArrayResponse]; false if it returns in one of them. *)
Definition read_body (len numparts endpointMemId : Z) : R bool :=
  m ← get;
  let isType l := bool_decide (m_msgType m ∈ l) in
  if isType [MsgType.RESPONSE] then read_response numparts endpointMemId;; mret true
  else if isType [MsgType.EXCEPTION] then readExceptionPart (u8 (Z.shiftl (u8 numparts) 5)) true;; mret true
  else if isType [MsgType.INVALID] then readObjectPart true;; mret true
  else if isType [MsgType.CLIENT_REGISTER_INTEREST; MsgType.CLIENT_UNREGISTER_INTEREST; MsgType.SERVER_TO_CLIENT_PING;
                  MsgType.REGISTER_INSTANTIATORS] then set (set_shouldIgnore true);; mret true
  else if isType [MsgType.REGISTER_INTEREST_DATA_ERROR; MsgType.UNREGISTER_INTEREST_DATA_ERROR; MsgType.PUT_DATA_ERROR;
                  MsgType.KEY_SET_DATA_ERROR; MsgType.DESTROY_REGION_DATA_ERROR; MsgType.CLEAR_REGION_DATA_ERROR;
                  MsgType.CONTAINS_KEY_DATA_ERROR; MsgType.PUT_DELTA_ERROR; MsgType.REQUEST_DATA_ERROR] then
    s ← on_input readStringPart;
    set (set_value (Some (Obj (Serializable.CacheableString (CacheableString.m_type s) s))));; mret true
  else if isType [MsgType.REPLY] then read_reply endpointMemId;; mret true
  else if isType [MsgType.LOCAL_INVALIDATE; MsgType.LOCAL_DESTROY] then read_local_remove endpointMemId;; mret true
  else if isType [MsgType.LOCAL_CREATE; MsgType.LOCAL_UPDATE] then read_local_update endpointMemId;; mret true
  else if isType [MsgType.CLIENT_MARKER] then readEventIdPart false 1;; mret true
  else if isType [MsgType.LOCAL_DESTROY_REGION; MsgType.CLEAR_REGION] then read_local_region;; mret true
  else if isType [MsgType.RESPONSE_CLIENT_PR_METADATA] then
    metadata ← on_input (read_prMetadata to_utf8 len numparts);
    match metadata with None => mret false | Some _ => set (set_metadata metadata);; mret true end
  else if isType [MsgType.RESPONSE_CLIENT_PARTITION_ATTRIBUTES] then
    attributes ← on_input (read_partitionAttributes to_utf8 (m_attributes m) numparts);
    set (set_attributes attributes);; mret true
  else if isType [MsgType.TOMBSTONE_OPERATION] then read_tombstones;; mret true
  else if isType [MsgType.GET_CLIENT_PR_METADATA_ERROR; MsgType.GET_CLIENT_PARTITION_ATTRIBUTES_ERROR;
                  MsgType.UNKNOWN_MESSAGE_TYPE_ERROR; MsgType.REQUEST_EVENT_VALUE_ERROR] then mret true
  else st_throw MessageException.

(** [handleByteArrayResponse] once the input is there. *)
Definition handle_input (len endpointMemId : Z) : R unit :=
  msgType ← on_input DataInput.readInt32;
  set (set_msgType msgType);;
  msglen ← on_input DataInput.readInt32;
  numparts ← on_input DataInput.readInt32;
  txId ← on_input DataInput.readInt32;
  set (set_txId txId);;
  earlyack ← on_input DataInput.read;
  go_on ← read_body len numparts endpointMemId;
  when (go_on && flag earlyack 0x2) (readSecureObjectPart false false 0).

Definition handleByteArrayResponse (bytearray : list Z) (len endpointMemId : Z) : ST (MemberListForVersionStamp.t * t) unit := fun s =>
  match m_tcdm s.2 with
  | None => Throw UndefinedBehaviour
  | Some _ =>
    match handle_input len endpointMemId (DataInput.construct bytearray len, s.1, s.2) with
    | Ok (_, (_, ml, m)) => Ok (tt, (ml, m))
    | Throw e => Throw e
    end
  end.

(** [setData]; an output is made with the connection manager if there is none. *)
Definition setData (bytearray : option (list Z)) (len memId : Z) : ST (MemberListForVersionStamp.t * t) unit :=
  s ← st_get;
  (if m_request s.2 then mret tt
   else match m_tcdm s.2 with
        | Some _ => st_put (s.1, set_request true s.2)
        | None => st_throw UndefinedBehaviour
        end);;
  match bytearray with
  | Some bytes => handleByteArrayResponse bytes len memId
  | None => mret tt
  end.

(** *** Chunks *)

Inductive ChunkObjectType := OBJECT | EXCEPTION | NULL_OBJECT.

(** [TcrMessageHelper::readChunkPartHeader] without an expected type: what the part holds, and
    its length. An exception is read from the start of the chunk. *)
Definition readChunkException (isLastChunk : Z) : R ChunkObjectType :=
  on_input DataInput.reset;;
  b ← readExceptionPart isLastChunk true;
  if b : bool then set (set_msgType MsgType.EXCEPTION);; mret EXCEPTION else st_throw MessageException.

Definition readChunkPartHeader_any (isLastChunk : Z) : R (ChunkObjectType * Z) :=
  partLen ← on_input DataInput.readInt32;
  isObj ← on_input DataInput.readBoolean;
  let partLen := u32 partLen in
  if partLen =? 0 then mret (NULL_OBJECT, partLen)
  else if negb isObj then st_throw MessageException
  else
    partType ← on_input DataInput.read;
    if partType =? DSCode_JavaSerializable then o ← readChunkException isLastChunk; mret (o, partLen)
    else if partType =? DSCode.NullObj then mret (NULL_OBJECT, partLen)
    else mret (OBJECT, partLen).

(** The types of the enumeration from [FixedIDByte] on are above [FixedIDDefault]. *)
Definition readChunkPartHeader (expectedFirstType expectedPartType isLastChunk : Z) : R (ChunkObjectType * Z) :=
  partLen ← on_input DataInput.readInt32;
  isObj ← on_input DataInput.readBoolean;
  let partLen := u32 partLen in
  if partLen =? 0 then mret (NULL_OBJECT, partLen)
  else if negb isObj then mret (EXCEPTION, partLen)
  else
    partType ← on_input DataInput.read;
    if partType =? DSCode_JavaSerializable then o ← readChunkException isLastChunk; mret (o, partLen)
    else if partType =? DSCode.NullObj then mret (NULL_OBJECT, partLen)
    else
      compId ←
        (if 0 <? expectedFirstType then
           if negb (partType =? expectedFirstType) then st_throw MessageException
           else if expectedFirstType =? DSCode.FixedIDShort then on_input DataInput.readInt16
           else if expectedFirstType =? DSCode.FixedIDByte then on_input DataInput.read
           else mret partType
         else mret partType);
      if negb (compId =? expectedPartType) then st_throw MessageException else mret (OBJECT, partLen).

End Readers.
End Reply.
End TcrReply.
