(* ===== verification/ReplyFacts.v ===== *)
(** The readers of messages from servers: what each of them takes from the part that it is
    made for. *)
From S2P Require Import Prelude JavaModifiedUtf8 DataOutput DataOutputFacts DataInput DataInputFacts Utf8Strings EventId MemberId Versions MapEntry CacheableString ServerLocation ServerLocationFacts CacheableBuiltins BuiltinsFacts TcrMessage MessageFacts MessageParts VersionWire TcrReply.
Import TcrReply.
#[local] Arguments be_bytes : simpl never.
Local Open Scope Z_scope.

(** *** Computations of replies *)

Section Takes.
Context {T : Type}.
Abbreviation R := (ST (DataInput.t * Members * T)).
Abbreviation t := T.

(** Consumes [l], whatever is in front of it, where it may leave other bytes behind; turns the
    list of members from [ml] into [ml'] and the message from [s] into [s'], and returns [a]. *)
Definition takes {A} (m : R A) (l : list Z) (ml : Members) (s : t) (a : A) (ml' : Members) (s' : t) : Prop := forall pre rest,
  Z.of_nat (length (pre ++ l ++ rest)) < 2 ^ 62 -> exists pre', length pre' = length (pre ++ l) /\
  m (at_ pre (l ++ rest), ml, s) = Ok (a, (at_ pre' rest, ml', s')).

Lemma takes_notes {A} (m : ST (DataInput.t * Members) A) l ml a ml' s : notes m l ml a ml' -> takes (on_members m) l ml s a ml' s.
Proof. intros Hm pre rest Hl. exists (pre ++ l). split; [done|]. unfold on_members, st_first. cbn [fst snd]. by rewrite Hm. Qed.
Lemma takes_on_input {A} (m : ST DataInput.t A) l a ml s : reads m l a -> takes (on_input m) l ml s a ml s.
Proof. intros Hm. unfold on_input. apply (takes_notes (st_first m)). by apply notes_reads. Qed.
Lemma takes_ret {A} (a : A) ml s : takes (mret a) [] ml s a ml s.
Proof. intros pre rest _. exists pre. by rewrite app_nil_r. Qed.
Lemma takes_get ml s : takes get [] ml s s ml s.
Proof. intros pre rest _. exists pre. by rewrite app_nil_r. Qed.
Lemma takes_set f ml s : takes (set f) [] ml s tt ml (f s).
Proof. intros pre rest _. exists pre. by rewrite app_nil_r. Qed.

Lemma takes_bind {A B} (m : R A) (f : A -> R B) l1 l2 ml ml1 ml2 s s1 s2 a b :
  takes m l1 ml s a ml1 s1 -> takes (f a) l2 ml1 s1 b ml2 s2 -> takes (m ≫= f) (l1 ++ l2) ml s b ml2 s2.
Proof.
  intros H1 H2 pre rest Hl. rewrite <- app_assoc in Hl |- *. destruct (H1 pre (l2 ++ rest) Hl) as (pre1 & E1 & R1).
  rewrite (st_bind_ok _ _ _ _ _ R1). destruct (H2 pre1 rest) as (pre2 & E2 & R2).
  { rewrite !length_app in *. lia. }
  exists pre2. split; [|done]. rewrite E2, !length_app, E1, !length_app. lia.
Qed.
Lemma takes_bind0 {A B} (m : R A) (f : A -> R B) l ml ml1 ml2 s s1 s2 a b :
  takes m [] ml s a ml1 s1 -> takes (f a) l ml1 s1 b ml2 s2 -> takes (m ≫= f) l ml s b ml2 s2.
Proof. apply (takes_bind m f [] l). Qed.
(** A last step that consumes nothing. *)
Lemma takes_then {A B} (m : R A) (f : A -> R B) l ml ml1 ml2 s s1 s2 a b :
  takes m l ml s a ml1 s1 -> takes (f a) [] ml1 s1 b ml2 s2 -> takes (m ≫= f) l ml s b ml2 s2.
Proof. intros H1 H2. rewrite <- (app_nil_r l). by eapply takes_bind. Qed.
Lemma takes_when (b : bool) m l ml s ml' s' :
  (b = true -> takes m l ml s tt ml' s') -> (b = false -> l = [] /\ ml' = ml /\ s' = s) -> takes (when b m) l ml s tt ml' s'.
Proof. destruct b; [by intros H _; apply H|]. intros _ H. destruct (H eq_refl) as (-> & -> & ->). apply takes_ret. Qed.
(** As [takes], with [k] bytes in front at least. *)
Definition takes_at {A} (k : nat) (m : R A) (l : list Z) (ml : Members) (s : t) (a : A) (ml' : Members) (s' : t) : Prop := forall pre rest,
  (k <= length pre)%nat -> Z.of_nat (length (pre ++ l ++ rest)) < 2 ^ 62 -> exists pre', length pre' = length (pre ++ l) /\
  m (at_ pre (l ++ rest), ml, s) = Ok (a, (at_ pre' rest, ml', s')).
Lemma takes_at_bind {A B} k (m : R A) (f : A -> R B) l1 l2 ml ml1 ml2 s s1 s2 a b : takes m l1 ml s a ml1 s1 ->
  takes_at (k + length l1) (f a) l2 ml1 s1 b ml2 s2 -> takes_at k (m ≫= f) (l1 ++ l2) ml s b ml2 s2.
Proof.
  intros H1 H2 pre rest Hk Hl. rewrite <- app_assoc in Hl |- *. destruct (H1 pre (l2 ++ rest) Hl) as (pre1 & E1 & R1).
  rewrite (st_bind_ok _ _ _ _ _ R1). destruct (H2 pre1 rest) as (pre2 & E2 & R2); [rewrite E1, length_app; lia|rewrite !length_app in *; lia|].
  exists pre2. split; [|done]. rewrite E2, !length_app, E1, !length_app. lia.
Qed.
Lemma takes_at_then {A B} k (m : R A) (f : A -> R B) l ml ml1 ml2 s s1 s2 a b : takes_at k m l ml s a ml1 s1 ->
  takes (f a) [] ml1 s1 b ml2 s2 -> takes_at k (m ≫= f) l ml s b ml2 s2.
Proof.
  intros H1 H2 pre rest Hk Hl. destruct (H1 pre rest Hk Hl) as (pre1 & E1 & R1). rewrite (st_bind_ok _ _ _ _ _ R1).
  destruct (H2 pre1 rest) as (pre2 & E2 & R2); [rewrite !length_app in *; cbn [length app] in *; lia|]. exists pre2. split; [|done].
  by rewrite E2, app_nil_r.
Qed.
Lemma takes_at_0 {A} (m : R A) l ml s a ml' s' : takes_at 0 m l ml s a ml' s' -> takes m l ml s a ml' s'.
Proof. intros Hm pre rest. apply Hm. lia. Qed.

(** Consumes all that is left. *)
Definition takes_all {A} (m : R A) (l : list Z) (ml : Members) (s : t) (a : A) (ml' : Members) (s' : t) : Prop := forall pre,
  Z.of_nat (length (pre ++ l)) < 2 ^ 62 -> exists pre', length pre' = length (pre ++ l) /\ m (at_ pre l, ml, s) = Ok (a, (at_ pre' [], ml', s')).
Lemma takes_all_last {A} (m : R A) l ml s a ml' s' : takes m l ml s a ml' s' -> takes_all m l ml s a ml' s'.
Proof. intros Hm pre Hl. specialize (Hm pre []). rewrite app_nil_r in Hm. by apply Hm. Qed.
Lemma takes_all_bind {A B} (m : R A) (f : A -> R B) l1 l2 ml ml1 ml2 s s1 s2 a b : takes m l1 ml s a ml1 s1 ->
  takes_all (f a) l2 ml1 s1 b ml2 s2 -> takes_all (m ≫= f) (l1 ++ l2) ml s b ml2 s2.
Proof.
  intros H1 H2 pre Hl. destruct (H1 pre l2 Hl) as (pre1 & E1 & R1). rewrite (st_bind_ok _ _ _ _ _ R1).
  destruct (H2 pre1) as (pre2 & E2 & R2); [rewrite !length_app in *; lia|]. exists pre2. split; [|done]. rewrite E2, !length_app, E1, length_app. lia.
Qed.
Lemma takes_all_then {A B} (m : R A) (f : A -> R B) l ml ml1 ml2 s s1 s2 a b : takes m l ml s a ml1 s1 ->
  takes_all (f a) [] ml1 s1 b ml2 s2 -> takes_all (m ≫= f) l ml s b ml2 s2.
Proof. intros H1 H2. rewrite <- (app_nil_r l). by eapply takes_all_bind. Qed.

Lemma takes_all_bind0 {A B} (m : R A) (f : A -> R B) l ml ml1 ml2 s s1 s2 a b : takes m [] ml s a ml1 s1 ->
  takes_all (f a) l ml1 s1 b ml2 s2 -> takes_all (m ≫= f) l ml s b ml2 s2.
Proof. apply (takes_all_bind m f [] l). Qed.
End Takes.

(** *** Lengths and marks of parts *)

Lemma reads_length {A} (l : list A) : short l -> reads DataInput.readInt32 (be_bytes 4 (u32 (TcrMessage.length_ l))) (Z.of_nat (length l)).
Proof. intros Hl. unfold TcrMessage.length_. apply reads_int. unfold in_s, short in *. lia. Qed.

Lemma reads_byte_is (k : Z) : 0 <= k < 128 -> reads DataInput.read [k] k.
Proof. intros Hk. eapply reads_eq; [apply reads_read|]. apply wrapS_id; [lia|unfold in_s; lia]. Qed.
Lemma reads_bool_is (k : Z) : reads DataInput.readBoolean [k] (k =? 1).
Proof. apply reads_check; [simpl; lia|]. apply (reads_map _ (fun x => x =? 1)), reads_loadByte. Qed.

(** A part is its length, its mark and its payload. *)
Lemma enc_part_eq k l : enc_part (mkPart k l) = be_bytes 4 (u32 (TcrMessage.length_ l)) ++ [k] ++ l.
Proof. done. Qed.

Lemma reads_advanceBy n l : Z.of_nat (length l) = n -> reads (DataInput.advanceCursor n) l tt.
Proof. intros <-. apply reads_advance. Qed.

Section Strings.
Context (to_utf16 to_utf8 : list Z -> outcome (list Z)).

(** The length counts modulo 65536, and the rest is skipped. *)
Lemma reads_decode_cut u skipped : JavaModifiedUtf8.u16string_ok u -> Z.of_nat (length (JavaModifiedUtf8.fromString u)) <= 0xFFFF ->
  Z.of_nat (length skipped) mod 65536 = 0 ->
  reads (decode_here (Z.of_nat (length (JavaModifiedUtf8.fromString u ++ skipped)))) (JavaModifiedUtf8.fromString u ++ skipped) u.
Proof.
  intros Hu Hl Hm pre rest Hlen. unfold decode_here. unfold mbind at 1, ST_bind at 1, st_get at 1. unfold at_ at 1 2. cbn [DataInput.pos DataInput.buffer].
  rewrite Nat2Z.id, drop_app_length. replace (u16 _) with (Z.of_nat (length (JavaModifiedUtf8.fromString u))).
  2:{ unfold wrapU. rewrite length_app, Nat2Z.inj_add. change (2 ^ 16) with 65536. rewrite Z.add_mod, Hm, Z.add_0_r, Z.mod_mod by lia. rewrite Z.mod_small; lia. }
  rewrite <- (app_assoc _ skipped), <- JavaModifiedUtf8.encodedLength_fromString, JavaModifiedUtf8.decode_fromString by done.
  unfold st_lift at 1. unfold mbind at 1, ST_bind at 1. rewrite <- app_assoc in Hlen.
  pose proof (fun l => reads_advanceBy _ l eq_refl pre rest) as Ha. rewrite (app_assoc (JavaModifiedUtf8.fromString u)).
  rewrite (app_assoc (JavaModifiedUtf8.fromString u)) in Hlen. by rewrite (st_bind_ok _ _ _ _ _ (Ha _ Hlen)).
Qed.
Lemma reads_decode u : JavaModifiedUtf8.u16string_ok u -> Z.of_nat (length (JavaModifiedUtf8.fromString u)) <= 0xFFFF ->
  reads (decode_here (Z.of_nat (length (JavaModifiedUtf8.fromString u)))) (JavaModifiedUtf8.fromString u) u.
Proof. intros Hu Hl. pose proof (reads_decode_cut u [] Hu Hl eq_refl) as Hr. by rewrite app_nil_r in Hr. Qed.

(** A string that a part can hold: its modified UTF-8 form has at most 65535 bytes. *)
Record part_text (s : list Z) : Prop := {
  part_to : to_utf16 s = Ok (utf16 to_utf16 s);
  part_from : to_utf8 (utf16 to_utf16 s) = Ok s;
  part_units : JavaModifiedUtf8.u16string_ok (utf16 to_utf16 s);
  part_length : Z.of_nat (length (payload (text_part to_utf16 s))) <= 0xFFFF
}.

Lemma reads_stringPart s : part_text s -> reads (readStringPart to_utf8) (enc_part (text_part to_utf16 s)) s.
Proof.
  intros [Ht Hf Hu Hl]. unfold text_part, raw_part in *. cbn [payload] in Hl. rewrite enc_part_eq. unfold readStringPart.
  eapply reads_bind; [apply reads_length; unfold short; lia|]. eapply reads_bind; [by apply reads_byte_is|]. cbn [Z.eqb negb].
  eapply reads_lift; [by apply reads_decode|done].
Qed.
Lemma reads_cacheableString {U} s : part_text s ->
  reads (readCacheableString (U := U) to_utf8 (Z.of_nat (length (payload (text_part to_utf16 s))))) (payload (text_part to_utf16 s))
    (Serializable.CacheableString (CacheableString.m_type s) s).
Proof.
  intros [Ht Hf Hu Hl]. unfold text_part, raw_part in *. cbn [payload] in *. unfold readCacheableString.
  rewrite <- (app_nil_r (JavaModifiedUtf8.fromString _)) at 2. eapply reads_bind; [by apply reads_decode|]. rewrite Hf.
  apply (reads_map _ (fun s => Serializable.CacheableString (CacheableString.m_type s) s)), reads_ret.
Qed.
End Strings.

Lemma reads_intPart v : reads readIntPart (enc_part (int_part v)) (u32 v).
Proof.
  unfold int_part. rewrite enc_part_eq. unfold readIntPart. eapply reads_bind; [apply reads_length; unfold short; rewrite length_be_bytes; lia|].
  rewrite length_be_bytes. change (negb (u32 (Z.of_nat 4) =? 4)) with false. cbv iota. eapply reads_bind; [by apply reads_byte_is|].
  cbn [Z.eqb negb]. eapply reads_eq; [apply (reads_map _ u32), reads_readInt32|]. by rewrite wrapU_wrapS, (wrapU_id 32) by (apply wrapU_range; lia).
Qed.

Definition bool_part (b : bool) : part := mkPart 1 [DSCode.CacheableBoolean; if b then 1 else 0].
Lemma reads_boolPart old b : reads (readBooleanPartAsObject old) (enc_part (bool_part b)) b.
Proof.
  unfold bool_part. rewrite enc_part_eq. unfold readBooleanPartAsObject. eapply reads_bind; [apply reads_length; unfold short; cbn; lia|].
  eapply reads_bind; [apply reads_bool_is|]. cbn [length Z.of_nat Z.eqb]. change (0 <? Z.pos _) with true. cbn [andb].
  eapply (reads_bind _ _ [_] [_]); [by apply reads_byte_is|apply reads_readBoolean].
Qed.

(** *** Byte arrays, over the header of their part *)

Lemma store_byte i v pre a x b : i = Z.of_nat (length a) ->
  store i v (at_ pre (a ++ x :: b)) = Ok (tt, at_ pre (a ++ u8 v :: b)).
Proof.
  intros ->. unfold store, at_. cbn [DataInput.buffer DataInput.pos DataInput.bufferLength].
  replace (Z.of_nat (length pre) + Z.of_nat (length a)) with (Z.of_nat (length (pre ++ a))) by (rewrite length_app; lia).
  destruct (Z.leb_spec 0 (Z.of_nat (length (pre ++ a)))); [|lia].
  destruct (Z.ltb_spec (Z.of_nat (length (pre ++ a))) (Z.of_nat (length (pre ++ a ++ x :: b)))) as [_|Hge];
    [|rewrite !length_app in Hge; cbn [length] in Hge; lia].
  cbn [andb]. rewrite Nat2Z.id, !(app_assoc pre), insert_app_r_alt, Nat.sub_diag by lia. do 3 f_equal.
  rewrite !length_app. cbn [list_insert length]. done.
Qed.

Lemma rewind_at pre k l : (k <= length pre)%nat -> exists pre0 k', length pre = (length pre0 + k)%nat /\ length k' = k /\
  DataInput.rewindCursor (Z.of_nat k) (at_ pre l) = Ok (tt, at_ pre0 (k' ++ l)).
Proof.
  intros Hk. exists (take (length pre - k) pre), (drop (length pre - k) pre). rewrite length_take, length_drop. split_and!; [lia|lia|].
  unfold DataInput.rewindCursor, st_modify, at_. cbn [DataInput.buffer DataInput.pos DataInput.bufferLength].
  rewrite app_assoc, take_drop, length_take. do 3 f_equal. lia.
Qed.

(** The header of the part becomes the header of an array. *)
Lemma header_over pre n l : (5 <= length pre)%nat -> 0 <= n < 2 ^ 31 -> exists pre0, length pre = (length pre0 + length (enc_arrayLen n))%nat /\
    (if n <=? 252 then DataInput.rewindCursor 1;; store 0 n
     else if n <=? 0xFFFF then DataInput.rewindCursor 3;; store 0 (-2);; store 1 (Z.shiftr n 8);; store 2 n
     else DataInput.rewindCursor 5;; store 0 (-3);; store 1 (Z.shiftr n 24);; store 2 (Z.shiftr n 16);; store 3 (Z.shiftr n 8);; store 4 n)
    (at_ pre l) = Ok (tt, at_ pre0 (enc_arrayLen n ++ l)).
Proof.
  intros Hp Hn. unfold enc_arrayLen. destruct (Z.eqb_spec n (-1)); [lia|].
  destruct (Z.leb_spec n 252); [|destruct (Z.leb_spec n 0xFFFF)].
  - destruct (rewind_at pre 1 l ltac:(lia)) as (pre0 & k & Hl & Hk & E). exists pre0. split; [done|].
    rewrite (st_bind_ok _ _ _ _ _ E). destruct k as [|x [|]]; try done. cbn [app].
    etransitivity; [exact (store_byte 0 n pre0 [] x l eq_refl)|]. by rewrite (wrapU_id 8) by (unfold in_u; lia).
  - destruct (rewind_at pre 3 l ltac:(lia)) as (pre0 & k & Hl & Hk & E). exists pre0. split; [done|].
    rewrite (st_bind_ok _ _ _ _ _ E). destruct k as [|x [|y [|z [|]]]]; try done. rewrite (wrapU_id 16 n) by (unfold in_u; lia). unfold be_bytes. rewrite Z.shiftr_0_r. cbn [app].
    refine (eq_trans (st_bind_ok _ _ _ _ _ (store_byte 0 (-2) pre0 [] x (y :: z :: l) eq_refl)) _).
    refine (eq_trans (st_bind_ok _ _ _ _ _ (store_byte 1 (Z.shiftr n 8) pre0 [_] y (z :: l) eq_refl)) _).
    exact (store_byte 2 n pre0 [_; _] z l eq_refl).
  - destruct (rewind_at pre 5 l ltac:(lia)) as (pre0 & k & Hl & Hk & E). exists pre0. split; [done|].
    rewrite (st_bind_ok _ _ _ _ _ E). destruct k as [|x [|y [|z [|u [|v [|]]]]]]; try done. rewrite (wrapU_id 32 n) by (unfold in_u; lia). unfold be_bytes. rewrite Z.shiftr_0_r. cbn [app].
    refine (eq_trans (st_bind_ok _ _ _ _ _ (store_byte 0 (-3) pre0 [] x (y :: z :: u :: v :: l) eq_refl)) _).
    refine (eq_trans (st_bind_ok _ _ _ _ _ (store_byte 1 (Z.shiftr n 24) pre0 [_] y (z :: u :: v :: l) eq_refl)) _).
    refine (eq_trans (st_bind_ok _ _ _ _ _ (store_byte 2 (Z.shiftr n 16) pre0 [_; _] z (u :: v :: l) eq_refl)) _).
    refine (eq_trans (st_bind_ok _ _ _ _ _ (store_byte 3 (Z.shiftr n 8) pre0 [_; _; _] u (v :: l) eq_refl)) _).
    exact (store_byte 4 n pre0 [_; _; _; _] v l eq_refl).
Qed.

Lemma bytes_read {U} to_utf8 (user : Serializable.UserTypes U) place pre l rest : (5 <= length pre)%nat -> short l -> Forall (in_s 8) l ->
  Z.of_nat (length (pre ++ raw l ++ rest)) < 2 ^ 62 ->
  exists pre', length pre' = length (pre ++ raw l) /\
  readCacheableBytes to_utf8 user place (Z.of_nat (length l)) (at_ pre (raw l ++ rest)) = Ok (Serializable.CacheableBytes l, at_ pre' rest).
Proof.
  intros Hp Hs Hb Hlen. unfold readCacheableBytes. set (n := Z.of_nat (length l)).
  destruct (header_over pre n (raw l ++ rest) Hp) as (pre0 & Hpre & E); [unfold short in Hs; lia|]. rewrite (st_bind_ok _ _ _ _ _ E).
  assert (Hr : reads (deserialize to_utf8 user place DSCode.CacheableBytes) (enc_arrayLen n ++ raw l) (Serializable.CacheableBytes l)).
  { unfold deserialize. apply (reads_fmap Serializable.CacheableBytes). unfold raw. rewrite <- bind_singleton_fmap.
    apply (reads_plain DataInput.read (fun z => [u8 z]) (in_s 8) l); [apply reads_byte|done|done]. }
  exists (pre0 ++ enc_arrayLen n ++ raw l). split; [rewrite !length_app; lia|]. rewrite (app_assoc (enc_arrayLen n)). apply Hr.
  rewrite !length_app in *. lia.
Qed.

(** *** Parts *)

Section Parts.
Context `{AllocatorOk} {U : Type} (to_utf16 to_utf8 : list Z -> outcome (list Z)) (user : Serializable.UserTypes U)
  (enc_user : U -> list Z) (user_ok : U -> Prop) `{!UserCodec user enc_user user_ok}
  (place : forall X, list X -> X -> list X) (place_perm : forall X l x, place X l x ≡ₚ x :: l) (syncCounter : Z).
Abbreviation Object_ := (Serializable.t U).
Abbreviation t := (TcrReply.t (U := U)).
Abbreviation value_ok := (value_ok to_utf16 to_utf8 user user_ok).
Abbreviation wire := (wire to_utf16 enc_user).
Abbreviation object_part := (object_part to_utf16 enc_user).
Abbreviation readObject := (readObject to_utf8 user place).

(** A value that fits a part. *)
Definition fits_part (v : Object_) : Prop := value_ok v /\ short (wire v).

Lemma reads_readable v : value_ok v -> exists v', same v v' /\ reads readObject (wire v) v'.
Proof.
  intros Hv. destruct (reads_value to_utf16 to_utf8 user enc_user user_ok place place_perm v Hv) as (v' & Hs & Hr).
  exists v'. split; [done|by apply reads_readObject].
Qed.
Lemma reads_leaf_object v : leaf v = true -> value_ok v -> reads readObject (wire v) v.
Proof. intros Hl Hv. by apply reads_readObject, (read_leaf to_utf16 to_utf8 user enc_user user_ok place). Qed.

Lemma wire_nonempty v : value_ok v -> 0 < Z.of_nat (length (wire v)).
Proof.
  intros Hv. unfold BuiltinsFacts.wire. destruct v as [| | | | | | | | | | | | | | | | | | | | | | | | | |u]; cbn; try lia.
  cbn in Hv. destruct (user_reads u Hv); cbn [length]; lia.
Qed.

Definition is_bytes (v : Object_) : bool := match v with Serializable.CacheableBytes _ => true | _ => false end.
Lemma part_of_object v : is_bytes v = false -> object_part v = mkPart 1 (wire v).
Proof. by destruct v. Qed.

Lemma takes_bytes l ml (s : t) : short l -> Forall (in_s 8) l ->
  takes_at 5 (on_input (readCacheableBytes to_utf8 user place (Z.of_nat (length l)))) (raw l) ml s (Serializable.CacheableBytes l) ml s.
Proof.
  intros Hs Hb pre rest Hk Hl. destruct (bytes_read to_utf8 user place pre l rest Hk Hs Hb Hl) as (pre1 & H1 & E1).
  exists pre1. split; [done|]. unfold on_input, st_first. cbn [fst snd]. by rewrite E1.
Qed.

(** The part of a value, for the readers that take any value. *)
Lemma takes_objectPart v ml s : fits_part v -> exists v', same v v' /\
  takes (readObjectPart to_utf8 user place false) (enc_part (object_part v)) ml s tt ml (set_value (pointer v') s).
Proof.
  intros [Hv Hw]. unfold readObjectPart. destruct (is_bytes v) eqn:Eb.
  - destruct v as [| | | | | | | | | | | |l| | | | | | | | | | | | | |]; try done. exists (Serializable.CacheableBytes l). split; [constructor|].
    destruct Hv as [Hs Hb]. destruct l as [|b l].
    + cbn [MessageParts.object_part]. rewrite enc_part_eq, app_nil_r. eapply takes_bind; [by apply takes_on_input, reads_length|].
      rewrite <- (app_nil_r [2]). eapply takes_bind; [by apply takes_on_input, reads_byte_is|]. apply takes_set.
    + assert (Hraw : short (raw (b :: l))) by (unfold short, raw in *; by rewrite length_fmap).
      apply takes_at_0. cbn [MessageParts.object_part]. rewrite enc_part_eq. eapply takes_at_bind; [by apply takes_on_input, reads_length|].
      eapply takes_at_bind; [by apply takes_on_input, reads_byte_is|]. 
      assert (Hlen : length (raw (b :: l)) = length (b :: l)) by apply length_fmap. rewrite Hlen. cbn [Z.eqb].
      change (0 <? Z.of_nat (length (b :: l))) with true. cbv iota. eapply takes_at_then; [by apply takes_bytes|apply takes_set].
  - destruct (reads_readable v Hv) as (v' & Hsame & Hr). exists v'. split; [done|]. rewrite part_of_object, enc_part_eq by done.
    eapply takes_bind; [by apply takes_on_input, reads_length|]. eapply takes_bind; [by apply takes_on_input, reads_byte_is|].
    pose proof (wire_nonempty v Hv) as Hpos. apply Z.ltb_lt in Hpos. rewrite Hpos. cbn [Z.eqb].
    eapply takes_then; [by apply takes_on_input|apply takes_set].
Qed.

(** The part of a callback argument; an empty part stands for none. *)
Definition callback_part (cb : option Object_) : part := match cb with Some v => object_part v | None => mkPart 0 [] end.
Definition callback_ok (cb : option Object_) : Prop :=
  match cb with Some v => fits_part v /\ v <> Serializable.CacheableBytes [] | None => True end.
Definition with_callback (cb : option Object_) (s : t) : t := match cb with Some v => set_callbackArgument v s | None => s end.
Definition same_callback (cb cb' : option Object_) : Prop := option_Forall2 same cb cb'.

Lemma takes_callback cb ml s : callback_ok cb -> exists cb', same_callback cb cb' /\
  takes (readCallbackObjectPart to_utf8 user place false) (enc_part (callback_part cb)) ml s tt ml (with_callback cb' s).
Proof.
  intros Hcb. unfold readCallbackObjectPart. destruct cb as [v|]; cbn [callback_part].
  2:{ exists None. split; [constructor|]. rewrite enc_part_eq, app_nil_r. eapply takes_bind; [by apply takes_on_input, reads_length|].
      rewrite <- (app_nil_r [0]). eapply takes_bind; [apply takes_on_input, reads_bool_is|]. apply takes_ret. }
  destruct Hcb as [[Hv Hw] Hne]. destruct (is_bytes v) eqn:Eb.
  - destruct v as [| | | | | | | | | | | |[|b l]| | | | | | | | | | | | | |]; try done.
    exists (Some (Serializable.CacheableBytes (b :: l))). split; [constructor; constructor|]. destruct Hv as [Hs Hb].
    assert (Hlen : length (raw (b :: l)) = length (b :: l)) by apply length_fmap.
    apply takes_at_0. cbn [MessageParts.object_part]. rewrite enc_part_eq. eapply takes_at_bind; [apply takes_on_input, reads_length; unfold short; by rewrite Hlen|].
    eapply takes_at_bind; [apply takes_on_input, reads_bool_is|]. rewrite Hlen. cbn [Z.eqb].
    change (0 <? Z.of_nat (length (b :: l))) with true. cbv iota. eapply takes_at_then; [by apply takes_bytes|apply takes_set].
  - destruct (reads_readable v Hv) as (v' & Hsame & Hr). exists (Some v'). split; [by constructor|]. rewrite part_of_object, enc_part_eq by done.
    eapply takes_bind; [by apply takes_on_input, reads_length|]. eapply takes_bind; [apply takes_on_input, reads_bool_is|].
    pose proof (wire_nonempty v Hv) as Hpos. apply Z.ltb_lt in Hpos. rewrite Hpos. cbn [Z.eqb when].
    eapply takes_then; [by apply takes_on_input|apply takes_set].
Qed.

(** The part of a key: an object, or a string without a header. *)
Inductive wire_key := KeyObject (k : Object_) | KeyString (str : list Z).
Definition key_of (k : wire_key) : Object_ :=
  match k with KeyObject k => k | KeyString str => Serializable.CacheableString (CacheableString.m_type str) str end.
Definition key_part (k : wire_key) : part := match k with KeyObject k => object_part k | KeyString str => text_part to_utf16 str end.
Definition key_ok (k : wire_key) : Prop :=
  match k with
  | KeyObject k => fits_part k /\ Serializable.is_key user k = true
  | KeyString str => part_text to_utf16 to_utf8 str /\ utf16 to_utf16 str <> []
  end.

Lemma text_nonempty u : u <> [] -> 0 < Z.of_nat (length (JavaModifiedUtf8.fromString u)).
Proof.
  destruct u as [|c u]; [done|]. intros _. rewrite JavaModifiedUtf8.fromString_bind, bind_cons, length_app.
  pose proof (JavaModifiedUtf8.enc_char_length c). lia.
Qed.

Lemma takes_keyPart k ml s : key_ok k -> takes (readKeyPart to_utf8 user place) (enc_part (key_part k)) ml s tt ml (set_key (key_of k) s).
Proof.
  intros Hk. unfold readKeyPart. destruct k as [k|str]; cbn [key_part key_of].
  - destruct Hk as [[Hv Hw] Hkey]. rewrite part_of_object, enc_part_eq by (by destruct k).
    eapply takes_bind; [by apply takes_on_input, reads_length|]. eapply takes_bind; [apply takes_on_input, reads_bool_is|].
    pose proof (wire_nonempty k Hv) as Hpos. apply Z.ltb_lt in Hpos. rewrite Hpos. cbn [Z.eqb when].
    eapply takes_then; [apply takes_on_input, reads_leaf_object; [by destruct k|done]|]. unfold key_cast. rewrite Hkey. apply takes_set.
  - destruct Hk as [Hstr Hne]. pose proof (part_length _ _ _ Hstr) as Hl. pose proof (reads_cacheableString to_utf16 to_utf8 (U := U) str Hstr) as Hr.
    unfold text_part, raw_part in *. cbn [payload] in Hl, Hr. rewrite enc_part_eq. eapply takes_bind; [apply takes_on_input, reads_length; unfold short; lia|].
    eapply takes_bind; [apply takes_on_input, reads_bool_is|]. pose proof (text_nonempty _ Hne) as Hpos. apply Z.ltb_lt in Hpos. rewrite Hpos. cbn [Z.eqb when].
    eapply takes_then; [by apply takes_on_input|apply (takes_set (set_key _))].
Qed.

Lemma takes_eventPart e ml s : EventId.valid e ->
  takes (readEventIdPart to_utf8 user place false 1) (enc_part (object_part (Serializable.EventIdObject e))) ml s tt ml (set_eventid (Some e) s).
Proof.
  intros He. unfold readEventIdPart. rewrite part_of_object, enc_part_eq by done. eapply takes_bind0; [apply takes_ret|].
  assert (Hsh : short (wire (Serializable.EventIdObject e))).
  { pose proof (EventId.enc_length e He) as Hl. unfold short, BuiltinsFacts.wire. rewrite length_app. cbn [enc_header enc_body length]. lia. }
  eapply takes_bind; [by apply takes_on_input, reads_length|]. eapply takes_bind; [by apply takes_on_input, reads_byte_is|].
  eapply takes_then; [by apply takes_on_input, reads_leaf_object|apply (takes_set (set_eventid _))].
Qed.

(** The name of a region: characters without a zero. *)
Lemma c_str_id s : 0 ∉ s -> c_str s = s.
Proof.
  induction s as [|c s IH]; intros Hs; [done|]. rewrite not_elem_of_cons in Hs. destruct Hs as [Hc Hs]. cbn [c_str].
  destruct (Z.eqb_spec c 0); [by subst|]. by rewrite IH.
Qed.
Lemma takes_regionName name skip ml (s : t) : reads skip [0] tt -> 0 ∉ name -> Z.of_nat (length name) < 2 ^ 31 - 1 ->
  takes (readRegionName skip) (enc_part (mkPart 0 name)) ml s tt ml (set_regionName name s).
Proof.
  intros Hsk Hn Hl. unfold readRegionName. rewrite enc_part_eq. eapply takes_bind; [apply takes_on_input, reads_length; unfold short; lia|].
  eapply takes_bind; [by apply takes_on_input|]. destruct (Z.eqb_spec (Z.of_nat (length name)) (2 ^ 31 - 1)); [lia|].
  destruct (Z.ltb_spec (Z.of_nat (length name) + 1) 0); [lia|]. rewrite (wrapU_id 64) by (unfold in_u; lia).
  eapply takes_then; [apply takes_on_input, reads_readBytesOnly|]. rewrite c_str_id by done. apply (takes_set (set_regionName name)).
Qed.

(** The part with the versions of the metadata. *)
Definition meta_part (version : Z) (group : option Z) : part :=
  mkPart 0 (u8 version :: match group with Some g => [u8 g] | None => [] end).
Definition with_meta (version : Z) (group : option Z) (s : t) : t :=
  let s := set_metaDataVersion version s in match group with Some g => set_serverGroupVersion g s | None => s end.
Lemma takes_meta version group ml (s : t) : in_s 8 version -> (forall g, group = Some g -> in_s 8 g) ->
  takes readPrMetaData (enc_part (meta_part version group)) ml s tt ml (with_meta version group s).
Proof.
  intros Hv Hg. unfold readPrMetaData, meta_part. rewrite enc_part_eq.
  eapply takes_bind; [apply takes_on_input, reads_length; destruct group; unfold short; cbn; lia|].
  eapply takes_bind; [by apply takes_on_input, reads_byte_is|]. eapply (takes_bind _ _ [_]); [by apply takes_on_input, reads_byte|].
  eapply takes_bind0; [apply (takes_set (set_metaDataVersion version))|]. destruct group as [g|]; cbn [length Z.of_nat Z.eqb Pos.of_succ_nat Pos.succ Pos.eqb when].
  - eapply takes_then; [apply takes_on_input, reads_byte; by apply Hg|apply (takes_set (set_serverGroupVersion g))].
  - apply takes_ret.
Qed.

(** The part behind the others that carries the connection id. *)
Lemma reads_bytes_here l : Forall (in_s 8) l -> reads (bytes_here (Z.of_nat (length l))) (raw l) l.
Proof.
  intros Hl. unfold bytes_here. eapply reads_eq; [apply (reads_map _ (fmap s8))|].
  - replace (length l) with (length (raw l)) by apply length_fmap. apply reads_memcpy.
  - unfold raw. rewrite <- list_fmap_compose. clear -Hl. induction Hl as [|x l Hx _ IH]; [done|]. cbn. by rewrite IH, wrapS_wrapU, wrapS_id.
Qed.
Lemma takes_secure l ml s : Forall (in_s 8) l -> l <> [] -> short l ->
  takes_all (readSecureObjectPart to_utf8 user place false false 0) (enc_part (mkPart 0 (raw l))) ml s tt ml (set_connectionIDBytes (Some l) s).
Proof.
  intros Hb Hne Hs. assert (Hlen : length (raw l) = length l) by apply length_fmap. unfold readSecureObjectPart. cbn [andb].
  rewrite enc_part_eq. eapply takes_all_bind; [apply takes_on_input, reads_length; unfold short in *; by rewrite Hlen|].
  eapply takes_all_bind; [apply takes_on_input, reads_bool_is|]. rewrite Hlen.
  destruct (Z.ltb_spec 0 (Z.of_nat (length l))) as [_|Hz]; [|destruct l; [done|cbn in Hz; lia]]. cbn [when Z.eqb].
  eapply takes_all_then; [eapply takes_then; [by apply takes_on_input, reads_bytes_here|apply (takes_set (set_connectionIDBytes (Some l)))]|].
  intros pre Hp. exists pre. split; [by rewrite app_nil_r|]. unfold mbind, ST_bind, on_input, st_first, st_gets. cbn [fst snd].
  unfold DataInput.getBytesRemaining, DataInput.getBytesRead, at_. cbn [DataInput.bufferLength DataInput.pos]. rewrite app_nil_r, Z.sub_diag. done.
Qed.

(** *** Version tags *)

Inductive sent_tag := SentTag (w : wire_tag wire_member) | SentDisk (w : wire_tag DiskStoreId.t).
Definition proxy_of (w : wire_member) : DSMember.t :=
  DSMember.Proxy (match member_of to_utf16 syncCounter w with Ok m => m | Throw _ => ClientProxyMembershipID.construct end).
Definition enc_disk (d : DiskStoreId.t) : list Z :=
  be_bytes 8 (u64 (DiskStoreId.m_mostSig d)) ++ be_bytes 8 (u64 (DiskStoreId.m_leastSig d)).
Definition proxy_ok (w : wire_member) : Prop := exists m, member_ok to_utf16 to_utf8 syncCounter w m.
Definition disk_ok (d : DiskStoreId.t) : Prop := in_s 64 (DiskStoreId.m_mostSig d) /\ in_s 64 (DiskStoreId.m_leastSig d).

Definition enc_sent (tag : sent_tag) : list Z :=
  match tag with
  | SentTag w => [DSCode.FixedIDByte; u8 DSFid_VersionTag] ++ enc_tag (enc_member to_utf16) w
  | SentDisk w => [DSCode.FixedIDShort] ++ be_bytes 2 (u16 DSFid_DiskVersionTag) ++ enc_tag enc_disk w
  end.
Definition sent_ok (tag : sent_tag) : Prop :=
  short (enc_sent tag) /\ match tag with SentTag w => tag_ok proxy_ok w | SentDisk w => tag_ok disk_ok w end.
(** The tag that is received from the endpoint, which stands for members that are not named. *)
Definition received_tag (endpointMemId : Z) (tag : sent_tag) (ml : Members) : VersionTag.t * Members :=
  match tag with
  | SentTag w => let '(tag, ml) := tag_of proxy_of w ml in (VersionTag.replaceNullMemberId endpointMemId tag, ml)
  | SentDisk w => tag_of DSMember.Disk w ml
  end.

Lemma notes_fmap {A B} (f : A -> B) (m : ST (DataInput.t * Members) A) l ml a ml' : notes m l ml a ml' -> notes (f <$> m) l ml (f a) ml'.
Proof. intros Hm pre rest Hl. unfold fmap, ST_fmap. by rewrite Hm. Qed.

(** The tag without its type: members of either kind. *)
Definition is_disk (tag : sent_tag) : bool := match tag with SentTag _ => false | SentDisk _ => true end.
Definition enc_bare (tag : sent_tag) : list Z := match tag with SentTag w => enc_tag (enc_member to_utf16) w | SentDisk w => enc_tag enc_disk w end.
Definition bare_ok (tag : sent_tag) : Prop := match tag with SentTag w => tag_ok proxy_ok w | SentDisk w => tag_ok disk_ok w end.
Definition bare_tag (tag : sent_tag) (ml : Members) : VersionTag.t * Members :=
  match tag with SentTag w => tag_of proxy_of w ml | SentDisk w => tag_of DSMember.Disk w ml end.
Lemma notes_bare tag ml : bare_ok tag ->
  notes (VersionTag.fromData
      (if is_disk tag then VersionTag.readMembers_disk else VersionTag.readMembers to_utf16 to_utf8 (other_object to_utf8 user place) syncCounter)
      VersionTag.construct) (enc_bare tag) ml (bare_tag tag ml).1 (bare_tag tag ml).2.
Proof.
  destruct tag as [w|w]; cbn [is_disk enc_bare bare_ok bare_tag]; intros Hok.
  - apply (notes_tag (enc_member to_utf16) proxy_of (DSMember.Proxy <$> ClientProxyMembershipID.readEssentialData to_utf16 to_utf8
      (other_object to_utf8 user place) syncCounter ClientProxyMembershipID.construct) proxy_ok); [|done].
    intros m [m' Hm']. apply (reads_fmap DSMember.Proxy). unfold proxy_of. rewrite (ok_value _ _ _ _ _ Hm'). by apply reads_member.
  - apply (notes_tag enc_disk DSMember.Disk (DSMember.Disk <$> DiskStoreId.fromData) disk_ok); [|done].
    intros d [H1 H2]. apply (reads_fmap DSMember.Disk). exact (reads_disk d H1 H2).
Qed.

Lemma notes_sent endpointMemId tag ml : sent_ok tag ->
  notes (readVersionTagPart to_utf16 to_utf8 user place syncCounter endpointMemId) (enc_sent tag) ml
    (Some (received_tag endpointMemId tag ml).1) (received_tag endpointMemId tag ml).2.
Proof.
  intros [_ Hok]. pose proof (notes_bare tag ml Hok) as Ht. unfold readVersionTagPart. destruct tag as [w|w]; cbn [enc_sent received_tag].
  - eapply (notes_bind _ _ [_]); [by apply notes_reads, reads_byte_is|]. cbn [Z.eqb Pos.eqb].
    eapply (notes_bind _ _ [_]); [by apply notes_reads, reads_byte|]. rewrite Z.eqb_refl. cbn [bare_tag is_disk enc_bare] in Ht.
    destruct (tag_of proxy_of w ml) as [tag ml'] eqn:E. rewrite <- (app_nil_r (enc_tag _ _)). eapply notes_bind; [exact Ht|apply notes_ret].
  - eapply (notes_bind _ _ [_]); [by apply notes_reads, reads_byte_is|]. cbn [Z.eqb Pos.eqb].
    eapply notes_bind; [by apply notes_reads, reads_short|]. rewrite Z.eqb_refl. apply notes_fmap. exact Ht.
Qed.

(** The part of a tag; an empty part stands for none. *)
Definition tag_part (tag : option sent_tag) : part := match tag with Some tag => mkPart 1 (enc_sent tag) | None => mkPart 0 [] end.
Definition tag_part_ok (tag : option sent_tag) : Prop := match tag with Some tag => sent_ok tag | None => True end.
Definition with_tag (endpointMemId : Z) (tag : option sent_tag) (ml : Members) (s : t) : Members * t :=
  match tag with
  | Some tag => ((received_tag endpointMemId tag ml).2, set_versionTag (Some (received_tag endpointMemId tag ml).1) s)
  | None => (ml, s)
  end.
Lemma takes_tagPart endpointMemId tag ml s : tag_part_ok tag ->
  takes (readVersionTag to_utf16 to_utf8 user place syncCounter endpointMemId) (enc_part (tag_part tag)) ml s tt
    (with_tag endpointMemId tag ml s).1 (with_tag endpointMemId tag ml s).2.
Proof.
  intros Hok. unfold readVersionTag. destruct tag as [tag|]; cbn [tag_part with_tag fst snd]; rewrite enc_part_eq.
  - pose proof Hok as [Hs _]. eapply takes_bind; [by apply takes_on_input, reads_length|]. eapply takes_bind; [by apply takes_on_input, reads_byte_is|].
    destruct (Z.eqb_spec (Z.of_nat (length (enc_sent tag))) 0) as [Hz|_]; [by destruct tag|]. cbn [negb when].
    eapply takes_then; [by apply takes_notes, notes_sent|apply (takes_set (set_versionTag _))].
  - eapply takes_bind; [by apply takes_on_input, reads_length|]. rewrite app_nil_r, <- (app_nil_r [0]).
    eapply takes_bind; [by apply takes_on_input, reads_byte_is|apply takes_ret].
Qed.

(** *** Continuous queries *)

Definition cqs_parts (cqs : list (list Z * Z)) : list part :=
  int_part (2 * Z.of_nat (length cqs)) :: (cqs ≫= fun cq => [text_part to_utf16 cq.1; int_part cq.2]).
Definition cqs_ok (cqs : list (list Z * Z)) : Prop :=
  short cqs /\ Forall (fun cq => part_text to_utf16 to_utf8 cq.1 /\ in_s 32 cq.2) cqs.
Definition cqs_of (cqs : list (list Z * Z)) (m : gmap (list Z) Z) : gmap (list Z) Z := foldl (fun m cq => <[cq.1 := cq.2]> m) m cqs.

Lemma reads_cqs cqs : forall fuel n i m, Forall (fun cq => part_text to_utf16 to_utf8 cq.1 /\ in_s 32 cq.2) cqs ->
  n = i + 2 * Z.of_nat (length cqs) -> 0 <= i -> n < 2 ^ 32 -> (length cqs <= fuel)%nat ->
  reads (readCqs to_utf8 fuel n i m) (enc_parts (cqs ≫= fun cq => [text_part to_utf16 cq.1; int_part cq.2])) (cqs_of cqs m).
Proof.
  induction cqs as [|[cq op] cqs IH]; intros fuel n i m Hok Hn Hi Hlt Hf.
  - destruct fuel; cbn [readCqs length] in *; (destruct (Z.ltb_spec i n); [lia|apply reads_ret]).
  - apply Forall_cons_1 in Hok as [[Hcq Hop] Hok]. cbn [fst snd length] in *. destruct fuel as [|fuel]; [lia|]. cbn [readCqs].
    destruct (Z.ltb_spec i n); [|lia]. cbn [mbind list_bind]. unfold enc_parts. cbn [app]. rewrite bind_cons.
    eapply reads_bind; [by apply reads_stringPart|]. rewrite bind_cons. eapply reads_bind; [apply reads_intPart|].
    rewrite (wrapU_id 32 (i + 2)) by (unfold in_u; lia). rewrite wrapS_wrapU, (wrapS_id 32) by (lia || done). apply IH; [done|lia..].
Qed.

Lemma takes_cqs cqs m0 ml (s : t) : cqs_ok cqs -> m_cqs s = Some m0 ->
  takes (readCqsPart to_utf8) (enc_parts (cqs_parts cqs)) ml s tt ml
    (set_cqs (Some (cqs_of cqs ∅)) (set_numCqPart (2 * Z.of_nat (length cqs)) s)).
Proof.
  intros [Hs Hok] Hm. unfold short in Hs. unfold readCqsPart. eapply takes_bind0; [apply takes_get|]. rewrite Hm. unfold cqs_parts, enc_parts. rewrite bind_cons.
  eapply takes_bind; [apply takes_on_input, reads_intPart|]. rewrite (wrapU_id 32) by (unfold in_u; lia).
  eapply takes_bind0; [apply (takes_set (set_numCqPart _))|]. eapply takes_then; [|apply (takes_set (set_cqs _))].
  apply takes_on_input, reads_cqs; [done|lia..|]. replace ((2 * Z.of_nat (length cqs) + 1) / 2) with (Z.of_nat (length cqs)) by zdiv. lia.
Qed.
End Parts.
