(* ===== verification/Notifications.v ===== *)
(** Notifications of servers: what a server tells its clients about entries and regions, and
    that [handleByteArrayResponse] understands it. *)
From S2P Require Import Prelude JavaModifiedUtf8 DataOutput DataOutputFacts DataInput DataInputFacts Utf8Strings EventId MemberId Versions MapEntry CacheableString ServerLocation CacheableBuiltins BuiltinsFacts TcrMessage MessageFacts MessageParts VersionWire TcrReply ReplyFacts.
Import TcrReply.
#[local] Arguments be_bytes : simpl never.
Local Open Scope Z_scope.

(** Evaluates the tests for the type of a message. *)
Ltac eval_types := repeat match goal with
  |- context [bool_decide (?k ∈ ?l)] => let b := eval vm_compute in (bool_decide (k ∈ l)) in change (bool_decide (k ∈ l)) with b end; cbv iota.

Section Frames.
Context `{AllocatorOk} {U : Type} (to_utf16 to_utf8 : list Z -> outcome (list Z)) (user : Serializable.UserTypes U)
  (enc_user : U -> list Z) (user_ok : U -> Prop) `{!UserCodec user enc_user user_ok}
  (place : forall X, list X -> X -> list X) (place_perm : forall X l x, place X l x ≡ₚ x :: l) (syncCounter : Z).
Abbreviation Object_ := (Serializable.t U).
Abbreviation t := (TcrReply.t (U := U)).
Abbreviation wire_key := (wire_key (U := U)).

(** The bytes of a connection id behind the parts. *)
Definition security (sec : option (list Z)) : list part := match sec with Some l => [mkPart 0 (raw l)] | None => [] end.
Definition security_ok (sec : option (list Z)) : Prop := match sec with Some l => Forall (in_s 8) l /\ l <> [] /\ short l | None => True end.
Definition with_security (sec : option (list Z)) (s : t) : t := match sec with Some l => set_connectionIDBytes (Some l) s | None => s end.
Definition started (type txid : Z) (s : t) : t := set_txId txid (set_msgType type s).

(** The header of a message from a server; the bit for the security part is set if there is one. *)
Record head_ok (h : head) (sec : option (list Z)) : Prop := {
  ok_type : in_s 32 (msg_type h);
  ok_tx : in_s 32 (tx_id h);
  ok_ack : 0 <= early_ack h < 128;
  ok_bit : flag (early_ack h) 2 = present sec
}.

Lemma takes_frame h ps sec ml s ml' s' : head_ok h sec -> security_ok sec -> Z.of_nat (length (enc_parts (ps ++ security sec))) < 2 ^ 31 - 17 ->
  forall endpointMemId,
  takes (read_body to_utf16 to_utf8 user place syncCounter (Z.of_nat (length (frame h ps (security sec)))) (Z.of_nat (length ps)) endpointMemId)
    (enc_parts ps) ml (started (msg_type h) (tx_id h) s) true ml' s' ->
  takes_all (handle_input to_utf16 to_utf8 user place syncCounter (Z.of_nat (length (frame h ps (security sec)))) endpointMemId)
    (frame h ps (security sec)) ml s tt ml' (with_security sec s').
Proof.
  intros [Hty Htx Hack Hbit] Hsec Hlen endpoint Hbody.
  assert (Hps : Z.of_nat (length ps) < 2 ^ 31).
  { rewrite enc_parts_app, length_app in Hlen. assert (length ps <= length (enc_parts ps))%nat; [|lia]. clear.
    induction ps as [|p ps IH]; [done|]. change (p :: ps) with ([p] ++ ps). rewrite enc_parts_app, enc_parts_one, !length_app, length_part. cbn [length]. lia. }
  set (len := Z.of_nat (length (frame h ps (security sec)))) in *. unfold handle_input, frame, enc_head. rewrite <- !app_assoc.
  eapply takes_all_bind; [by apply takes_on_input, reads_int|]. eapply takes_all_bind0; [apply (takes_set (set_msgType _))|].
  eapply takes_all_bind; [apply takes_on_input, reads_int; unfold TcrMessage.length_, in_s; lia|].
  eapply takes_all_bind; [apply takes_on_input, reads_int; unfold TcrMessage.length_, in_s; lia|].
  eapply takes_all_bind; [by apply takes_on_input, reads_int|]. eapply takes_all_bind0; [apply (takes_set (set_txId _))|].
  eapply takes_all_bind; [by apply takes_on_input, reads_byte_is|]. rewrite enc_parts_app. eapply takes_all_bind; [exact Hbody|].
  cbn [andb]. rewrite Hbit. destruct sec as [l|]; cbn [present when security with_security].
  - destruct Hsec as (H1 & H2 & H3). rewrite enc_parts_one. by apply takes_secure.
  - apply takes_all_last, takes_ret.
Qed.

(** *** Entries *)

(** The new value of an entry, or what changed in it. *)
Inductive change := Full (v : Object_) | Delta (bytes : list Z).

Record entry_event := mkEvent {
  n_region : list Z;
  n_key : wire_key;
  n_callback : option Object_;
  n_tag : option sent_tag;
  n_interest : bool;
  n_cqs : option (list (list Z * Z));
  n_id : EventId.t
}.

Abbreviation object_part := (object_part to_utf16 enc_user).
Abbreviation callback_part := (callback_part to_utf16 enc_user).
Abbreviation tag_part := (tag_part to_utf16).
Abbreviation fits_part := (fits_part to_utf16 to_utf8 user enc_user user_ok).

Definition cq_parts (cqs : option (list (list Z * Z))) : list part := match cqs with Some l => cqs_parts to_utf16 l | None => [] end.
Definition event_part (e : EventId.t) : part := object_part (Serializable.EventIdObject e).
Definition change_parts (c : change) : list part :=
  match c with
  | Full v => [bool_part false; object_part v]
  | Delta bytes => [bool_part true; mkPart 0 bytes]
  end.
(** An invalidation tells the type of the event for the queries, too. *)
Definition entry_parts (e : entry_event) (c : option change) (cq_type : option Z) : list part :=
  [mkPart 0 (n_region e); key_part to_utf16 enc_user (n_key e)] ++ (match c with Some c => change_parts c | None => [] end) ++
  [callback_part (n_callback e); tag_part (n_tag e); bool_part (n_interest e); bool_part (present (n_cqs e))] ++
  (match cq_type, n_cqs e with Some type, Some _ => [int_part type] | _, _ => [] end) ++ cq_parts (n_cqs e) ++ [event_part (n_id e)].

Definition region_name_ok (name : list Z) : Prop := (0 ∉ name) /\ Z.of_nat (length name) < 2 ^ 31 - 1.
Definition cqs_part_ok (cqs : option (list (list Z * Z))) : Prop := match cqs with Some l => cqs_ok to_utf16 to_utf8 l | None => True end.
Definition change_ok (c : change) : Prop := match c with Full v => fits_part v | Delta bytes => short bytes end.
Record event_ok (e : entry_event) : Prop := {
  ok_region : region_name_ok (n_region e);
  ok_key : key_ok to_utf16 to_utf8 user enc_user user_ok (n_key e);
  ok_callback : callback_ok to_utf16 to_utf8 user enc_user user_ok (n_callback e);
  ok_sent : tag_part_ok to_utf16 to_utf8 syncCounter (n_tag e);
  ok_cqs : cqs_part_ok (n_cqs e);
  ok_id : EventId.valid (n_id e)
}.

(** What the message becomes. *)
Definition with_change (c : option change) (s : t) : t :=
  match c with Some (Full v) => set_value (pointer v) s | Some (Delta bytes) => set_delta (Some bytes) s | None => s end.
Definition with_cqs (cqs : option (list (list Z * Z))) (s : t) : t :=
  match cqs with
  | Some l => set_cqs (Some (cqs_of l ∅)) (set_numCqPart (2 * Z.of_nat (length l)) s)
  | None => s
  end.
Definition with_front (e : entry_event) (c : option change) (endpointMemId : Z) (ml : Members) (s : t) : Members * t :=
  let s := with_callback (n_callback e) (with_change c (set_key (key_of (n_key e)) (set_regionName (n_region e) s))) in
  let '(ml, s) := with_tag to_utf16 syncCounter endpointMemId (n_tag e) ml s in
  (ml, set_hasCqsPart (present (n_cqs e)) (set_isInterestListPassed (n_interest e) s)).

Lemma skip_zero : reads skip_byte [0] tt.
Proof. by apply reads_advanceBy. Qed.

Lemma read_zero : reads (DataInput.read;; mret tt) [0] tt.
Proof. apply (reads_map DataInput.read (fun _ => tt) [0] 0). by apply reads_byte_is. Qed.

Lemma takes_interest b ml (s : t) : takes read_interest (enc_part (bool_part b)) ml s tt ml (set_isInterestListPassed b s).
Proof.
  unfold read_interest. eapply takes_bind0; [apply takes_get|]. eapply takes_then; [apply takes_on_input, reads_boolPart|].
  apply (takes_set (set_isInterestListPassed b)).
Qed.
Lemma takes_hasCqs b ml (s : t) : takes read_hasCqs (enc_part (bool_part b)) ml s b ml (set_hasCqsPart b s).
Proof.
  unfold read_hasCqs. eapply takes_bind0; [apply takes_get|]. eapply takes_then; [apply takes_on_input, reads_boolPart|].
  eapply takes_bind0; [apply (takes_set (set_hasCqsPart b))|apply takes_ret].
Qed.

(** The parts that all events of entries have, from the callback argument on. *)
Lemma takes_front e endpointMemId ml s rest (f : bool -> R (U := U) unit) ml2 s2 cb' :
  tag_part_ok to_utf16 to_utf8 syncCounter (n_tag e) ->
  takes (readCallbackObjectPart to_utf8 user place false) (enc_part (callback_part (n_callback e))) ml s tt ml (with_callback cb' s) ->
  let '(ml1, s1) := with_tag to_utf16 syncCounter endpointMemId (n_tag e) ml (with_callback cb' s) in
  takes (f (present (n_cqs e))) rest ml1 (set_hasCqsPart (present (n_cqs e)) (set_isInterestListPassed (n_interest e) s1)) tt ml2 s2 ->
  takes (readCallbackObjectPart to_utf8 user place false;; readVersionTag to_utf16 to_utf8 user place syncCounter endpointMemId;;
         read_interest;; hasCqs ← read_hasCqs; f hasCqs)
    (enc_parts [callback_part (n_callback e); tag_part (n_tag e); bool_part (n_interest e); bool_part (present (n_cqs e))] ++ rest) ml s tt ml2 s2.
Proof.
  intros Htag Hcb. pose proof (takes_tagPart to_utf16 to_utf8 user place syncCounter endpointMemId (n_tag e) ml (with_callback cb' s) Htag) as Ht.
  destruct (with_tag to_utf16 syncCounter endpointMemId (n_tag e) ml (with_callback cb' s)) as [ml1 s1]. cbn [fst snd] in Ht. intros Hf.
  unfold enc_parts. rewrite !bind_cons. cbn [mbind list_bind]. rewrite app_nil_r, <- !app_assoc.
  eapply takes_bind; [exact Hcb|]. eapply takes_bind; [exact Ht|]. eapply takes_bind; [apply takes_interest|].
  eapply takes_bind; [apply takes_hasCqs|exact Hf].
Qed.

Definition same_change (c c' : change) : Prop :=
  match c, c' with Full v, Full v' => same v v' | Delta l, Delta l' => l = l' | _, _ => False end.

(** The event with another callback argument. *)
Definition replace_callback (e : entry_event) (cb : option Object_) : entry_event :=
  mkEvent (n_region e) (n_key e) cb (n_tag e) (n_interest e) (n_cqs e) (n_id e).

Definition received_update (e : entry_event) (c : change) (endpointMemId : Z) (ml : Members) (s : t) : Members * t :=
  let '(ml, s) := with_front e (Some c) endpointMemId ml s in
  (ml, set_eventid (Some (n_id e)) (if present (n_cqs e) then set_msgTypeForCq (u32 (m_msgType s)) (with_cqs (n_cqs e) s) else s)).

Lemma front_cqs e c endpointMemId ml s : m_cqs (with_front e c endpointMemId ml s).2 = m_cqs s.
Proof. unfold with_front, with_tag. destruct (n_tag e), (n_callback e), c as [[|]|]; reflexivity. Qed.
Lemma front_type e c endpointMemId ml s : m_msgType (with_front e c endpointMemId ml s).2 = m_msgType s.
Proof. unfold with_front, with_tag. destruct (n_tag e), (n_callback e), c as [[|]|]; reflexivity. Qed.

Lemma takes_change c ml s : change_ok c -> exists c', same_change c c' /\
  takes (read_change to_utf8 user place) (enc_parts (change_parts c)) ml s tt ml (with_change (Some c') s).
Proof.
  intros Hc. unfold read_change, enc_parts. destruct c as [v|bytes]; cbn [change_parts]; rewrite !bind_cons; cbn [mbind list_bind]; rewrite app_nil_r.
  - destruct (takes_objectPart to_utf16 to_utf8 user enc_user user_ok place place_perm v ml s Hc) as (v' & Hs & Hv).
    exists (Full v'). split; [done|]. eapply takes_bind; [apply takes_on_input, reads_boolPart|exact Hv].
  - exists (Delta bytes). split; [done|]. eapply takes_bind; [apply takes_on_input, reads_boolPart|]. rewrite enc_part_eq. cbv iota.
    eapply takes_bind; [by apply takes_on_input, reads_length|]. eapply takes_bind; [apply takes_on_input, skip_zero|].
    destruct (Z.ltb_spec (Z.of_nat (length bytes)) 0); [lia|].
    eapply takes_then; [apply takes_on_input, reads_readBytesOnly|apply (takes_set (set_delta (Some bytes)))].
Qed.

(** The queries behind the other parts. *)
Lemma takes_queries cqs ml (s : t) : cqs_part_ok cqs -> present (m_cqs s) = true ->
  takes (when (present cqs) (readCqsPart to_utf8)) (enc_parts (cq_parts cqs)) ml s tt ml (with_cqs cqs s).
Proof.
  intros Hq Hm. destruct (m_cqs s) as [m0|] eqn:E; [|done]. destruct cqs as [l|]; cbn [present when cq_parts with_cqs]; [|apply takes_ret].
  by eapply takes_cqs.
Qed.

Lemma takes_update e c endpointMemId ml s : event_ok e -> change_ok c -> present (m_cqs s) = true -> exists c' cb',
  same_change c c' /\ same_callback (n_callback e) cb' /\
  let e' := replace_callback e cb' in
  takes (read_local_update to_utf16 to_utf8 user place syncCounter endpointMemId) (enc_parts (entry_parts e (Some c) None)) ml s tt
    (received_update e' c' endpointMemId ml s).1 (received_update e' c' endpointMemId ml s).2.
Proof.
  intros [[Hr0 Hrl] Hk Hcb Ht Hq Hid] Hc Hm. set (s1 := set_key (key_of (n_key e)) (set_regionName (n_region e) s)).
  destruct (takes_change c ml s1 Hc) as (c' & Hsc & Hch).
  destruct (takes_callback to_utf16 to_utf8 user enc_user user_ok place place_perm (n_callback e) ml (with_change (Some c') s1) Hcb) as (cb' & Hscb & Htcb).
  exists c', cb'. split_and!; [done|done|]. cbv zeta. set (e' := replace_callback e cb').
  unfold read_local_update, entry_parts. rewrite !enc_parts_app. unfold enc_parts at 1. rewrite !bind_cons. cbn [mbind list_bind]. rewrite app_nil_r, <- !app_assoc.
  eapply takes_bind; [apply takes_regionName; [apply skip_zero|done|done]|]. eapply takes_bind; [by eapply takes_keyPart|]. fold s1.
  eapply takes_bind; [exact Hch|]. pose proof (takes_front e endpointMemId ml (with_change (Some c') s1)) as Hf.
  pose proof (front_cqs e' (Some c') endpointMemId ml s) as Hfq. unfold received_update, with_front in *. cbn [n_callback n_tag n_interest n_cqs n_id n_key n_region replace_callback e'] in *.
  fold s1 in Hfq |- *. specialize (Hf (enc_parts (cq_parts (n_cqs e)) ++ enc_part (event_part (n_id e)))).
  destruct (with_tag to_utf16 syncCounter endpointMemId (n_tag e) ml (with_callback cb' (with_change (Some c') s1))) as [ml1 s2] eqn:E. cbn [fst snd] in *.
  set (s3 := set_hasCqsPart (present (n_cqs e)) (set_isInterestListPassed (n_interest e) s2)) in *.
  specialize (Hf (fun hasCqs => when hasCqs (readCqsPart to_utf8;; m ← get; set (set_msgTypeForCq (u32 (m_msgType m))));; readEventIdPart to_utf8 user place false 1)).
  specialize (Hf ml1 (set_eventid (Some (n_id e)) (if present (n_cqs e) then set_msgTypeForCq (u32 (m_msgType s3)) (with_cqs (n_cqs e) s3) else s3)) cb' Ht Htcb).
  rewrite E in Hf. cbn [app]. rewrite enc_parts_one. apply Hf.
  eapply takes_bind; [|by eapply takes_eventPart]. destruct (n_cqs e) as [l|] eqn:El; cbn [present when]; [|apply takes_ret].
  eapply takes_then; [apply (takes_queries (Some l) ml1 s3 Hq); by rewrite Hfq|]. eapply takes_bind0; [apply takes_get|].
  apply (takes_set (set_msgTypeForCq _)).
Qed.

(** An invalidation has a type for the queries, a destruction is of its own type. *)
Definition received_remove (e : entry_event) (cq_type : option Z) (endpointMemId : Z) (ml : Members) (s : t) : Members * t :=
  let '(ml, s) := with_front e None endpointMemId ml s in
  (ml, set_eventid (Some (n_id e))
         (if present (n_cqs e)
          then with_cqs (n_cqs e) (set_msgTypeForCq (match cq_type with Some type => u32 type | None => u32 (m_msgType s) end) s)
          else s)).

Lemma takes_remove e cq_type endpointMemId ml s : event_ok e -> present (m_cqs s) = true ->
  present cq_type = (m_msgType s =? MsgType.LOCAL_INVALIDATE) -> exists cb', same_callback (n_callback e) cb' /\
  let e' := replace_callback e cb' in
  takes (read_local_remove to_utf16 to_utf8 user place syncCounter endpointMemId) (enc_parts (entry_parts e None cq_type)) ml s tt
    (received_remove e' cq_type endpointMemId ml s).1 (received_remove e' cq_type endpointMemId ml s).2.
Proof.
  intros [[Hr0 Hrl] Hk Hcb Ht Hq Hid] Hm Hty. set (s1 := set_key (key_of (n_key e)) (set_regionName (n_region e) s)).
  destruct (takes_callback to_utf16 to_utf8 user enc_user user_ok place place_perm (n_callback e) ml s1 Hcb) as (cb' & Hscb & Htcb).
  exists cb'. split; [done|]. cbv zeta. set (e' := replace_callback e cb').
  unfold read_local_remove, entry_parts. rewrite !enc_parts_app. unfold enc_parts at 1. rewrite !bind_cons. cbn [mbind list_bind]. rewrite app_nil_r, <- !app_assoc.
  eapply takes_bind; [apply takes_regionName; [apply skip_zero|done|done]|]. eapply takes_bind; [by eapply takes_keyPart|]. fold s1.
  pose proof (takes_front e endpointMemId ml s1) as Hf. pose proof (front_cqs e' None endpointMemId ml s) as Hfq. pose proof (front_type e' None endpointMemId ml s) as Hft.
  unfold received_remove, with_front in *. cbn [n_callback n_tag n_interest n_cqs n_id n_key n_region replace_callback e' with_change] in *.
  fold s1 in Hfq, Hft |- *.
  specialize (Hf (enc_parts (match cq_type, n_cqs e with Some type, Some _ => [int_part type] | _, _ => [] end) ++ enc_parts (cq_parts (n_cqs e)) ++ enc_part (event_part (n_id e)))).
  destruct (with_tag to_utf16 syncCounter endpointMemId (n_tag e) ml (with_callback cb' s1)) as [ml1 s2] eqn:E. cbn [fst snd] in *.
  set (s3 := set_hasCqsPart (present (n_cqs e)) (set_isInterestListPassed (n_interest e) s2)) in *.
  specialize (Hf (fun hasCqs => when hasCqs (m ← get; (if m_msgType m =? MsgType.LOCAL_INVALIDATE
      then type ← on_input readIntPart; set (set_msgTypeForCq type) else set (set_msgTypeForCq (u32 (m_msgType m))));; readCqsPart to_utf8);;
    readEventIdPart to_utf8 user place false 1)).
  specialize (Hf ml1 (set_eventid (Some (n_id e)) (if present (n_cqs e) then with_cqs (n_cqs e)
    (set_msgTypeForCq (match cq_type with Some type => u32 type | None => u32 (m_msgType s3) end) s3) else s3)) cb' Ht Htcb).
  rewrite E in Hf. cbn [app]. rewrite enc_parts_one. apply Hf. clear Hf. fold s3. clearbody s3. rewrite app_assoc.
  eapply takes_bind; [|by eapply takes_eventPart]. destruct (n_cqs e) as [l|] eqn:El; cbn [present when]; [|destruct cq_type; apply takes_ret].
  assert (Hi : (m_msgType s3 =? MsgType.LOCAL_INVALIDATE) = present cq_type) by (rewrite Hft; done).
  eapply takes_bind0; [apply takes_get|]. rewrite Hi.
  eapply takes_bind; [|apply (takes_queries (Some l) ml1 (set_msgTypeForCq _ s3) Hq); by rewrite <- Hm, <- Hfq].
  destruct cq_type as [type|]; cbn [present].
  - rewrite enc_parts_one. eapply takes_then; [apply takes_on_input, reads_intPart|apply (takes_set (set_msgTypeForCq _))].
  - apply (takes_set (set_msgTypeForCq _)).
Qed.

(** *** Regions *)

Definition region_parts (region : list Z) (cb : option Object_) (cqs : option (list (list Z * Z))) (id : EventId.t) : list part :=
  [mkPart 0 region; callback_part cb; bool_part (present cqs)] ++ cq_parts cqs ++ [event_part id].
Definition received_region (region : list Z) (cb : option Object_) (cqs : option (list (list Z * Z))) (id : EventId.t) (s : t) : t :=
  set_eventid (Some id) (with_cqs cqs (set_hasCqsPart (present cqs) (with_callback cb (set_regionName region s)))).

Lemma takes_region region cb cqs id ml s : region_name_ok region -> callback_ok to_utf16 to_utf8 user enc_user user_ok cb -> cqs_part_ok cqs ->
  EventId.valid id -> present (m_cqs s) = true -> exists cb', same_callback cb cb' /\
  takes (read_local_region to_utf8 user place) (enc_parts (region_parts region cb cqs id)) ml s tt ml (received_region region cb' cqs id s).
Proof.
  intros [Hr0 Hrl] Hcb Hq Hid Hm.
  destruct (takes_callback to_utf16 to_utf8 user enc_user user_ok place place_perm cb ml (set_regionName region s) Hcb) as (cb' & Hscb & Htcb).
  exists cb'. split; [done|]. unfold read_local_region, region_parts. rewrite !enc_parts_app, enc_parts_one. unfold enc_parts at 1. rewrite !bind_cons.
  cbn [mbind list_bind]. rewrite app_nil_r, <- !app_assoc. eapply takes_bind; [apply takes_regionName; [apply skip_zero|done|done]|].
  eapply takes_bind; [exact Htcb|]. eapply takes_bind; [apply takes_hasCqs|]. eapply takes_bind; [|by eapply takes_eventPart].
  apply takes_queries; [done|]. by destruct cb'.
Qed.

(** *** Tombstones that were collected *)

Inductive gc_member := GcProxy (w : wire_full) | GcDisk (d : DiskStoreId.t).
Definition enc_gc (m : gc_member) : list Z :=
  match m with
  | GcProxy w => [1; DSFid_InternalDistributedMember] ++ enc_full to_utf16 w
  | GcDisk d => [2] ++ be_bytes 2 (u16 DSFid_DiskStoreId) ++ enc_disk d
  end.
Definition gc_ok (m : gc_member) : Prop :=
  match m with GcProxy w => exists p, full_ok to_utf16 to_utf8 syncCounter w p | GcDisk d => disk_ok d end.
Definition gc_of (m : gc_member) : DSMember.t :=
  match m with
  | GcProxy w => DSMember.Proxy (match full_of to_utf16 syncCounter w with Ok p => p | Throw _ => ClientProxyMembershipID.construct end)
  | GcDisk d => DSMember.Disk d
  end.

Lemma reads_gc m : gc_ok m -> reads (readDSMember to_utf16 to_utf8 user place syncCounter) (enc_gc m) (gc_of m).
Proof.
  intros Hm. unfold readDSMember. destruct m as [w|d]; cbn [enc_gc gc_of].
  - destruct Hm as [p Hp]. eapply (reads_bind _ _ [_]); [by apply reads_byte_is|]. change (u8 1 =? 1) with true. cbv iota.
    eapply (reads_bind _ _ [_]); [by apply reads_byte_is|]. rewrite Z.eqb_refl. cbn [negb]. apply (reads_fmap DSMember.Proxy).
    rewrite (full_value _ _ _ _ _ Hp). by apply reads_full.
  - destruct Hm as [H1 H2]. eapply (reads_bind _ _ [_]); [by apply reads_byte_is|]. change (u8 2 =? 1) with false. change (u8 2 =? 2) with true. cbv iota.
    eapply reads_bind; [by apply reads_short|]. rewrite Z.eqb_refl. cbn [negb]. apply (reads_fmap DSMember.Disk). exact (reads_disk d H1 H2).
Qed.

(** The map from members to versions; each version has a type in front. *)
Definition enc_gc_version (x : gc_member * Z) : list Z := enc_gc x.1 ++ [0] ++ be_bytes 8 (u64 x.2).
Definition versions_part (versions : list (gc_member * Z)) : part :=
  mkPart 1 (DSCode.CacheableHashMap :: enc_arrayLen (Z.of_nat (length versions)) ++ (versions ≫= enc_gc_version)).
Definition versions_of (versions : list (gc_member * Z)) : list (DSMember.t * Z) :=
  foldl (fun l x => emplace_version place (gc_of x.1, x.2) l) [] versions.

Lemma reads_versions versions : forall l, Forall (fun x => gc_ok x.1 /\ in_s 64 x.2) versions ->
  reads (read_versions to_utf16 to_utf8 user place syncCounter (length versions) l) (versions ≫= enc_gc_version)
    (foldl (fun l x => emplace_version place (gc_of x.1, x.2) l) l versions).
Proof.
  induction versions as [|[m v] versions IH]; intros l Hok; [apply reads_ret|]. apply Forall_cons_1 in Hok as [[Hm Hv] Hok].
  rewrite bind_cons. cbn [length read_versions foldl fst snd]. unfold enc_gc_version at 1. cbn [fst snd]. rewrite <- !app_assoc.
  eapply reads_bind; [by apply reads_gc|]. eapply reads_bind; [by apply reads_byte_is|]. eapply reads_bind; [by apply reads_long|]. by apply IH.
Qed.

Definition keys_part (keys : list Object_) : part :=
  mkPart 1 (DSCode.CacheableHashSet :: enc_arrayLen (Z.of_nat (length keys)) ++ (keys ≫= wire to_utf16 enc_user)).
Definition gc_keys_ok (keys : list Object_) : Prop :=
  short keys /\ Forall (fun k => Serializable.is_key user k = true /\ value_ok to_utf16 to_utf8 user user_ok k) keys /\ distinct user id keys.

Lemma reads_gc_keys keys : gc_keys_ok keys ->
  reads (readHashSetForGCVersions to_utf8 user place []) (payload (keys_part keys)) (foldl (place Object_) [] keys).
Proof.
  intros (Hs & Hk & Hd). unfold readHashSetForGCVersions, keys_part. cbn [payload]. eapply (reads_bind _ _ [_]); [by apply reads_byte_is|].
  rewrite Z.eqb_refl. cbn [negb]. eapply reads_bind; [apply reads_readArrayLength; unfold short in Hs; lia|]. rewrite Nat2Z.id.
  apply (reads_into user place place_perm (id (A := Object_))); [|by eapply Forall_impl; [|exact Hk]; intros ? []|done|by intros ? ? ?%elem_of_nil].
  clear -Hk UserCodec0. induction Hk as [|k keys [Hk Hv] _ IH]; constructor; [|done]. rewrite <- (app_nil_r (wire to_utf16 enc_user k)).
  eapply reads_bind; [apply (reads_leaf_object to_utf16 to_utf8 user enc_user user_ok); [by destruct k|done]|]. unfold key_cast. rewrite Hk. apply reads_ret.
Qed.

(** What was collected: versions of members, or keys. *)
Inductive collected := Versions_ (versions : list (gc_member * Z)) | Keys_ (keys : list Object_).
Definition collected_parts (region : list Z) (c : collected) (id : EventId.t) : list part :=
  match c with
  | Versions_ versions => [mkPart 0 region; int_part 0; versions_part versions; event_part id]
  | Keys_ keys => [mkPart 0 region; int_part 1; keys_part keys; event_part id]
  end.
Definition collected_ok (c : collected) : Prop :=
  match c with
  | Versions_ versions => short versions /\ short (payload (versions_part versions)) /\ Forall (fun x => gc_ok x.1 /\ in_s 64 x.2) versions
  | Keys_ keys => short (payload (keys_part keys)) /\ gc_keys_ok keys
  end.
Definition received_collected (region : list Z) (c : collected) (id : EventId.t) (s : t) : t :=
  set_eventid (Some id)
    (match c with
     | Versions_ versions => set_tombstoneVersions (Some (versions_of versions)) (set_regionName region s)
     | Keys_ keys => set_tombstoneKeys (Some (foldl (place Object_) [] keys)) (set_regionName region s)
     end).

Lemma takes_collected region c id ml s : region_name_ok region -> collected_ok c -> EventId.valid id ->
  m_tombstoneVersions s = None -> m_tombstoneKeys s = None ->
  takes (read_tombstones to_utf16 to_utf8 user place syncCounter) (enc_parts (collected_parts region c id)) ml s tt ml (received_collected region c id s).
Proof.
  intros [Hr0 Hrl] Hc Hid Hv0 Hk0. unfold read_tombstones, enc_parts. destruct c as [versions|keys]; cbn [collected_parts received_collected];
    rewrite !bind_cons; cbn [mbind list_bind]; rewrite app_nil_r.
  - destruct Hc as (Hs & Hp & Hok). eapply takes_bind; [apply takes_regionName; [apply read_zero|done|done]|].
    eapply takes_bind; [apply takes_on_input, reads_intPart|]. change (u32 0 =? 0) with true. cbv iota. unfold versions_part in *. cbn [payload] in Hp.
    rewrite enc_part_eq, <- !app_assoc. eapply takes_bind; [by apply takes_on_input, reads_length|]. eapply takes_bind; [by apply takes_on_input, reads_byte_is|].
    eapply takes_bind0; [apply takes_get|]. cbn [m_tombstoneVersions set_regionName]. rewrite Hv0. cbn [default].
    eapply takes_bind; [|eapply takes_bind0; [apply (takes_set (set_tombstoneVersions (Some (versions_of versions))))|by eapply takes_eventPart]].
    apply takes_on_input. unfold readHashMapForGCVersions. eapply (reads_bind _ _ [_]); [by apply reads_byte_is|]. change (negb _) with false. cbv iota.
    eapply reads_bind; [apply reads_readArrayLength; unfold short in Hs; lia|]. rewrite Nat2Z.id. by apply reads_versions.
  - destruct Hc as (Hp & Hok). eapply takes_bind; [apply takes_regionName; [apply read_zero|done|done]|].
    eapply takes_bind; [apply takes_on_input, reads_intPart|]. change (u32 1 =? 0) with false. change (u32 1 =? 1) with true. cbv iota.
    pose proof (reads_gc_keys keys Hok) as Hr. unfold keys_part in *. cbn [payload] in Hp, Hr.
    rewrite enc_part_eq, <- !app_assoc. eapply takes_bind; [by apply takes_on_input, reads_length|]. eapply takes_bind; [by apply takes_on_input, reads_byte_is|].
    eapply takes_bind0; [apply takes_get|]. cbn [m_tombstoneKeys set_regionName]. rewrite Hk0. cbn [default].
    eapply takes_bind; [|eapply takes_bind0; [apply (takes_set (set_tombstoneKeys (Some (foldl (place Object_) [] keys))))|by eapply takes_eventPart]].
    by apply takes_on_input.
Qed.
End Frames.
