(* ===== verification/Replies.v ===== *)
(** Replies of servers: what a server answers to each request, and that
    [handleByteArrayResponse] understands it. *)
From S2P Require Import Prelude JavaModifiedUtf8 DataOutput DataOutputFacts DataInput DataInputFacts Utf8Strings EventId MemberId Versions MapEntry CacheableString ServerLocation CacheableBuiltins BuiltinsFacts TcrMessage MessageFacts MessageParts VersionWire TcrReply ReplyFacts Notifications.
Import TcrReply.
#[local] Arguments be_bytes : simpl never.
Local Open Scope Z_scope.

(** Evaluates the tests for the type of a request. *)
Ltac eval_requests := repeat match goal with
  |- context [?a =? ?b] => is_const a; is_const b; let c := eval vm_compute in (a =? b) in change (a =? b) with c end; cbv iota; cbn [orb].

Section Replies.
Context `{AllocatorOk} {U : Type} (to_utf16 to_utf8 : list Z -> outcome (list Z)) (user : Serializable.UserTypes U)
  (enc_user : U -> list Z) (user_ok : U -> Prop) `{!UserCodec user enc_user user_ok}
  (place : forall X, list X -> X -> list X) (place_perm : forall X l x, place X l x ≡ₚ x :: l) (syncCounter : Z).
Abbreviation Object_ := (Serializable.t U).
Abbreviation t := (TcrReply.t (U := U)).
Abbreviation object_part := (object_part to_utf16 enc_user).
Abbreviation fits_part := (fits_part to_utf16 to_utf8 user enc_user user_ok).
Abbreviation callback_ok := (callback_ok to_utf16 to_utf8 user enc_user user_ok).
Abbreviation tag_ok := (tag_part_ok to_utf16 to_utf8 syncCounter).
Abbreviation tag_part := (tag_part to_utf16).
Abbreviation wire := (wire to_utf16 enc_user).

(** The versions of the metadata of a region and of the server group. *)
Definition meta : Type := Z * option Z.
Definition meta_ok (m : meta) : Prop := in_s 8 m.1 /\ forall g, m.2 = Some g -> in_s 8 g.

(** What a server knows about a key. *)
Inductive got := Found (v : Object_) | InvalidValue | KeyAbsent.
Definition got_flag (g : got) : Z := match g with Found _ => 0 | InvalidValue => 8 | KeyAbsent => 4 end.
Definition got_part (g : got) : part := match g with Found v => object_part v | _ => mkPart 0 [] end.
Definition got_value (g : got) : option (Cacheable Object_) :=
  match g with Found v => pointer v | InvalidValue => Some InvalidToken | KeyAbsent => Some TombstoneToken end.
Definition same_got (g g' : got) : Prop :=
  match g, g' with Found v, Found v' => same v v' | _, _ => g = g' end.

Inductive reply :=
| GetReply (g : got) (cb : option Object_) (tag : option sent_tag) (m : option meta)
| PutReply (m : meta) (old : option Object_) (tag : option sent_tag)
| InvalidateReply (tag : option sent_tag) (m : meta)
| DestroyReply (tag : option sent_tag) (m : meta) (entryNotFound : Z)
| OtherReply (m : meta)
| ContainsReply (b : bool)
| CredentialReply (bytes : list Z)
| PdxIdReply (id : Z)
| PdxTypeReply (u : U) (bytes : list Z)
| PdxEnumReply (v : Object_)
| FunctionReply (hasResult isHA optimizeForWrite : Z)
| ErrorReply (type : Z) (text : list Z)
| ExceptionReply (trace : part) (text : list Z) (nodes : option (list Object_)).

Definition errors : list Z :=
  [MsgType.REGISTER_INTEREST_DATA_ERROR; MsgType.UNREGISTER_INTEREST_DATA_ERROR; MsgType.PUT_DATA_ERROR; MsgType.KEY_SET_DATA_ERROR;
   MsgType.DESTROY_REGION_DATA_ERROR; MsgType.CLEAR_REGION_DATA_ERROR; MsgType.CONTAINS_KEY_DATA_ERROR; MsgType.PUT_DELTA_ERROR;
   MsgType.REQUEST_DATA_ERROR].
Definition reply_type (r : reply) : Z :=
  match r with
  | PutReply _ _ _ | InvalidateReply _ _ | DestroyReply _ _ _ | OtherReply _ => MsgType.REPLY
  | ErrorReply type _ => type
  | ExceptionReply _ _ _ => MsgType.EXCEPTION
  | _ => MsgType.RESPONSE
  end.

(** The requests that have the reply. *)
Definition answers (request : Z) (r : reply) : Prop :=
  match r with
  | GetReply _ _ _ _ => request = MsgType.REQUEST
  | PutReply _ _ _ => request = MsgType.PUT
  | InvalidateReply _ _ => request = MsgType.INVALIDATE
  | DestroyReply _ _ _ => request = MsgType.DESTROY
  | OtherReply _ => request ∉ [MsgType.PUT; MsgType.INVALIDATE; MsgType.DESTROY]
  | ContainsReply _ => request = MsgType.CONTAINS_KEY
  | CredentialReply _ => request = MsgType.USER_CREDENTIAL_MESSAGE
  | PdxIdReply _ => request = MsgType.GET_PDX_ID_FOR_TYPE \/ request = MsgType.GET_PDX_ID_FOR_ENUM
  | PdxTypeReply _ _ => request = MsgType.GET_PDX_TYPE_BY_ID
  | PdxEnumReply _ => request = MsgType.GET_PDX_ENUM_BY_ID
  | FunctionReply _ _ _ => request = MsgType.GET_FUNCTION_ATTRIBUTES
  | ErrorReply type _ => type ∈ errors
  | ExceptionReply _ _ _ => True
  end.

Definition optional {A} (f : A -> part) (o : option A) : list part := match o with Some a => [f a] | None => [] end.
Definition meta_parts (m : meta) : part := meta_part m.1 m.2.
Definition sent_part (tag : sent_tag) : part := tag_part (Some tag).
Abbreviation nodes_part := (keys_part to_utf16 enc_user).

Definition reply_parts (r : reply) : list part :=
  match r with
  | GetReply g cb tag m =>
    [got_part g; int_part (bit (present cb) 1 + bit (present tag) 2 + got_flag g)] ++ optional object_part cb ++ optional sent_part tag ++ optional meta_parts m
  | PutReply m old tag =>
    [meta_parts m; int_part (bit (present old) 1 + bit (present tag) 4)] ++ optional (fun v => mkPart 1 (wire v)) old ++ optional sent_part tag
  | InvalidateReply tag m => [int_part (bit (present tag) 1)] ++ optional sent_part tag ++ [meta_parts m]
  | DestroyReply tag m entryNotFound => [int_part (bit (present tag) 1)] ++ optional sent_part tag ++ [meta_parts m; int_part entryNotFound]
  | OtherReply m => [meta_parts m]
  | ContainsReply b => [bool_part b]
  | CredentialReply bytes => [mkPart 0 (raw bytes)]
  | PdxIdReply id => [int_part id]
  | PdxTypeReply u bytes => [mkPart 1 bytes]
  | PdxEnumReply v => [mkPart 1 (wire v)]
  | FunctionReply a b c => [mkPart 0 (raw [a; b; c])]
  | ErrorReply _ text => [text_part to_utf16 text]
  | ExceptionReply trace text nodes => [trace; text_part to_utf16 text] ++ optional nodes_part nodes
  end.

Definition small (l : list Z) : Prop := Z.of_nat (length l) < 2 ^ 31 - 1.
Definition option_ok {A} (P : A -> Prop) (o : option A) : Prop := match o with Some a => P a | None => True end.
Definition value_fits (v : Object_) : Prop := BuiltinsFacts.value_ok to_utf16 to_utf8 user user_ok v /\ short (wire v).
Definition nodes_ok (nodes : list Object_) : Prop := short (payload (nodes_part nodes)) /\ gc_keys_ok to_utf16 to_utf8 user user_ok nodes.

Definition reply_ok (r : reply) : Prop :=
  match r with
  | GetReply g cb tag m => (match g with Found v => fits_part v | _ => True end) /\ callback_ok cb /\ tag_ok tag /\ option_ok meta_ok m
  | PutReply m old tag => meta_ok m /\ option_ok value_fits old /\ tag_ok tag
  | InvalidateReply tag m => tag_ok tag /\ meta_ok m
  | DestroyReply tag m entryNotFound => tag_ok tag /\ meta_ok m
  | OtherReply m => meta_ok m
  | ContainsReply _ => True
  | CredentialReply bytes => Forall (in_s 8) bytes /\ bytes <> [] /\ short bytes
  | PdxIdReply id => in_s 32 id
  | PdxTypeReply u bytes => reads (Serializable.read_user user DSCode.PdxType) bytes u /\ short bytes
  | PdxEnumReply v => value_fits v
  | FunctionReply a b c => in_s 8 a /\ in_s 8 b /\ in_s 8 c
  | ErrorReply _ text => part_text to_utf16 to_utf8 text
  | ExceptionReply trace text nodes =>
    small (payload trace) /\ part_text to_utf16 to_utf8 text /\ utf16 to_utf16 text <> [] /\ option_ok nodes_ok nodes
  end.

(** The same up to the order of hash containers in values and callback arguments. *)
Definition same_reply (r r' : reply) : Prop :=
  match r, r' with
  | GetReply g cb tag m, GetReply g' cb' tag' m' => same_got g g' /\ same_callback cb cb' /\ tag' = tag /\ m' = m
  | PdxEnumReply v, PdxEnumReply v' => same v v'
  | _, _ => r' = r
  end.

(** The message after a reply. *)
Definition text_value (text : list Z) : option (Cacheable Object_) :=
  Some (Obj (Serializable.CacheableString (CacheableString.m_type text) text)).
Definition with_metadata (m : meta) : t -> t := with_meta m.1 m.2.
Definition with_optional {A} (f : A -> t -> t) (o : option A) (s : t) : t := match o with Some a => f a s | None => s end.
Definition reply_received (r : reply) (endpointMemId : Z) (ml : Members) (s : t) : Members * t :=
  let tagged tag f := let '(ml, s) := with_tag to_utf16 syncCounter endpointMemId tag ml s in (ml, f s) in
  match r with
  | GetReply g cb tag m => tagged tag (fun s => with_optional with_metadata m (with_callback cb (set_value (got_value g) s)))
  | PutReply m _ tag => tagged tag (with_metadata m)
  | InvalidateReply tag m => tagged tag (with_metadata m)
  | DestroyReply tag m entryNotFound => tagged tag (fun s => set_entryNotFound (u32 entryNotFound) (with_metadata m s))
  | OtherReply m => (ml, with_metadata m s)
  | ContainsReply b => (ml, set_boolValue b s)
  | CredentialReply bytes => (ml, set_value (Some (Obj (Serializable.CacheableBytes bytes))) s)
  | PdxIdReply id => (ml, set_value (Some (Obj (Serializable.CacheableInt32 id))) s)
  | PdxTypeReply u _ => (ml, set_value (Some (Obj (Serializable.UserObject u))) s)
  | PdxEnumReply v => (ml, set_value (pointer v) s)
  | FunctionReply a b c => (ml, set_functionAttributes (Some (default [] (m_functionAttributes s) ++ [a; b; c])) s)
  | ErrorReply _ text => (ml, set_value (text_value text) s)
  | ExceptionReply _ text nodes =>
    (ml, with_optional (fun nodes => set_failedNode (Some (foldl (place Object_) [] nodes))) nodes (set_value (text_value text) s))
  end.

(** *** Reading the parts *)

Abbreviation readObjectPart := (readObjectPart to_utf8 user place).

Lemma takes_emptyPart ml s : takes (readObjectPart false) (enc_part (mkPart 0 [])) ml s tt ml (set_value None s).
Proof.
  unfold TcrReply.readObjectPart. rewrite enc_part_eq, app_nil_r. eapply takes_bind; [by apply takes_on_input, reads_length|].
  rewrite <- (app_nil_r [0]). eapply takes_bind; [by apply takes_on_input, reads_byte_is|]. apply (takes_set (set_value None)).
Qed.

Lemma takes_got g ml s : (match g with Found v => fits_part v | _ => True end) -> exists g', same_got g g' /\
  takes (readObjectPart false) (enc_part (got_part g)) ml s tt ml (set_value (match g' with Found v => pointer v | _ => None end) s).
Proof.
  intros Hg. destruct g as [v| |]; cbn [got_part].
  - destruct (takes_objectPart to_utf16 to_utf8 user enc_user user_ok place place_perm v ml s Hg) as (v' & Hs & Ht). by exists (Found v').
  - exists InvalidValue. split; [done|apply takes_emptyPart].
  - exists KeyAbsent. split; [done|apply takes_emptyPart].
Qed.

Lemma takes_metadata m ml s : meta_ok m -> takes readPrMetaData (enc_part (meta_parts m)) ml s tt ml (with_metadata m s).
Proof. intros [H1 H2]. by apply takes_meta. Qed.

Lemma takes_tag_if endpointMemId tag ml (s : t) : tag_ok tag ->
  takes (when (present tag) (readVersionTag to_utf16 to_utf8 user place syncCounter endpointMemId)) (enc_parts (optional sent_part tag)) ml s tt
    (with_tag to_utf16 syncCounter endpointMemId tag ml s).1 (with_tag to_utf16 syncCounter endpointMemId tag ml s).2.
Proof.
  intros Htag. destruct tag as [tag|]; cbn [present when optional]; [|apply takes_ret]. rewrite enc_parts_one. by apply takes_tagPart.
Qed.

(** The flags of a reply to a get. *)
Lemma get_flags b1 b2 g : let flags := u32 (bit b1 1 + bit b2 2 + got_flag g) in
  flag flags 0x01 = b1 /\ flag flags 0x02 = b2 /\ flag flags 0x04 = (match g with KeyAbsent => true | _ => false end) /\
  flag flags 0x08 = (match g with InvalidValue => true | _ => false end).
Proof. by destruct b1, b2, g. Qed.
Lemma put_flags b1 b2 : let flags := u32 (bit b1 1 + bit b2 4) in flag flags 0x01 = b1 /\ flag flags 0x04 = b2.
Proof. by destruct b1, b2. Qed.
Lemma one_flag b : flag (u32 (bit b 1)) 0x01 = b.
Proof. by destruct b. Qed.

Lemma takes_to {A} (m : R (U := U) A) l ml s a ml1 ml2 s1 s2 : takes m l ml s a ml1 s1 -> ml1 = ml2 -> s1 = s2 -> takes m l ml s a ml2 s2.
Proof. by intros ? <- <-. Qed.

(** A tag changes nothing but the tag of the message. *)
Lemma tag_commutes endpointMemId tag ml (s : t) (f : t -> t) : (forall v s, f (set_versionTag v s) = set_versionTag v (f s)) ->
  (let '(ml', s') := with_tag to_utf16 syncCounter endpointMemId tag ml s in (ml', f s')) = with_tag to_utf16 syncCounter endpointMemId tag ml (f s).
Proof. intros Hf. destruct tag; cbn [with_tag]; [by rewrite Hf|done]. Qed.

Lemma takes_read_get g cb tag m endpointMemId ml s : reply_ok (GetReply g cb tag m) -> exists g' cb', same_got g g' /\ same_callback cb cb' /\
  takes (read_get to_utf16 to_utf8 user place syncCounter (Z.of_nat (length (reply_parts (GetReply g cb tag m)))) endpointMemId)
    (enc_parts (reply_parts (GetReply g cb tag m))) ml s tt
    (reply_received (GetReply g' cb' tag m) endpointMemId ml s).1 (reply_received (GetReply g' cb' tag m) endpointMemId ml s).2.
Proof.
  intros (Hg & Hcb & Ht & Hm). destruct (takes_got g ml s Hg) as (g' & Hsg & Htg). set (s1 := set_value _ s) in Htg.
  destruct (takes_callback to_utf16 to_utf8 user enc_user user_ok place place_perm cb ml s1 Hcb) as (cb' & Hscb & Htcb).
  exists g', cb'. split_and!; [done|done|]. cbn [reply_parts reply_received]. set (n := Z.of_nat _).
  rewrite (tag_commutes endpointMemId tag ml s) by (intros; destruct m as [[? [?|]]|], cb'; reflexivity).
  unfold read_get. rewrite !enc_parts_app. unfold enc_parts at 1. rewrite !bind_cons. cbn [mbind list_bind]. rewrite app_nil_r, <- !app_assoc.
  eapply takes_bind; [exact Htg|]. eapply takes_bind; [apply takes_on_input, reads_intPart|].
  destruct (get_flags (present cb) (present tag) g) as (F1 & F2 & F3 & F4). rewrite F1, F2, F3, F4. clear F1 F2 F3 F4.
  eapply (takes_bind _ _ _ _ _ ml _ _ (with_callback cb' s1)).
  { inversion Hscb as [v v' Hv E1 E2|E1 E2]; subst; cbn [present when optional with_callback]; [|apply takes_ret]. rewrite enc_parts_one. exact Htcb. }
  eapply takes_bind0; [apply takes_get|]. eapply (takes_bind0 _ _ _ ml ml _ _ (with_callback cb' (match g' with InvalidValue => set_value (Some InvalidToken) s | _ => s1 end))).
  { destruct g, g'; try done; cbn [andb]; rewrite ?andb_false_r; try apply takes_ret.
    replace (bool_decide _) with true by (by destruct cb'). cbn [andb when].
    replace (with_callback cb' (set_value (Some InvalidToken) s)) with (set_value (Some InvalidToken) (with_callback cb' s1)) by (by destruct cb').
    apply (takes_set (set_value (Some InvalidToken))). }
  eapply takes_bind; [by apply takes_tag_if|]. set (s2 := with_callback cb' (set_value (got_value g') s)).
  eapply (takes_bind0 _ _ _ _ (with_tag to_utf16 syncCounter endpointMemId tag ml s2).1 _ _ (with_tag to_utf16 syncCounter endpointMemId tag ml s2).2).
  { unfold s2, s1. destruct g, g'; try done; cbn [when got_value]; try (destruct tag; apply takes_ret).
    eapply takes_to; [apply (takes_set (set_value (Some TombstoneToken)))|..]; by destruct tag, cb'. }
  unfold n. rewrite !length_app. destruct m as [m|]; cbn [optional with_optional].
  - rewrite enc_parts_one. cbn [length]. replace (_ <? _) with true by (by destruct cb, tag). cbn [when].
    eapply takes_to; [by apply takes_metadata|..]; destruct tag, m as [? [?|]]; reflexivity.
  - replace (_ <? _) with false by (by destruct cb, tag). apply takes_ret.
Qed.

Lemma error_type type k : type ∈ errors -> bool_decide (k ∈ errors) = false -> type <> k.
Proof. intros Ht Hk ->. by apply bool_decide_eq_false in Hk. Qed.

(** Replies to changes. *)
Lemma takes_read_reply r request endpointMemId ml s : reply_ok r -> answers request r -> reply_type r = MsgType.REPLY -> m_msgTypeRequest s = request ->
  takes (read_reply to_utf16 to_utf8 user place syncCounter endpointMemId) (enc_parts (reply_parts r)) ml s tt
    (reply_received r endpointMemId ml s).1 (reply_received r endpointMemId ml s).2.
Proof.
  intros Hok Ha Hty Hr. unfold read_reply. eapply takes_bind0; [apply takes_get|]. rewrite Hr.
  destruct r as [|m old tag|tag m|tag m e|m| | | | | | |type text|]; try done; cbn [answers reply_ok reply_parts reply_received] in *.
  - destruct Hok as (Hm & Ho & Ht). rewrite Ha, !enc_parts_app. unfold enc_parts at 1. rewrite !bind_cons. cbn [mbind list_bind]. rewrite app_nil_r, <- !app_assoc.
    rewrite (tag_commutes endpointMemId tag ml s) by (intros; destruct m as [? [?|]]; reflexivity).
    eval_requests. eapply takes_bind; [by apply takes_metadata|]. eapply takes_bind; [apply takes_on_input, reads_intPart|].
    destruct (put_flags (present old) (present tag)) as [F1 F2]. rewrite F1, F2. eapply (takes_bind _ _ _ _ _ ml); [|by apply takes_tag_if].
    destruct old as [v|]; cbn [present when optional]; [|apply takes_ret]. destruct Ho as [Hv Hs]. rewrite enc_parts_one, enc_part_eq. apply takes_on_input.
    unfold readOldValue. eapply reads_bind; [by apply reads_length|]. eapply reads_bind; [by apply reads_byte_is|].
    destruct (reads_readable to_utf16 to_utf8 user enc_user user_ok place place_perm v Hv) as (v' & _ & Hv'). by apply (reads_map _ (fun _ => tt) _ v').
  - destruct Hok as (Ht & Hm). rewrite Ha, !enc_parts_app, !enc_parts_one. eval_requests.
    eapply takes_bind; [apply takes_on_input, reads_intPart|]. rewrite one_flag. eapply takes_bind; [by apply takes_tag_if|].
    eapply takes_to; [by apply takes_metadata|destruct tag..]; reflexivity.
  - destruct Hok as (Ht & Hm). rewrite Ha, !enc_parts_app, !enc_parts_one. eval_requests. unfold enc_parts at 2. rewrite !bind_cons. cbn [mbind list_bind]. rewrite app_nil_r.
    eapply takes_bind; [apply takes_on_input, reads_intPart|]. rewrite one_flag. eapply takes_bind; [by apply takes_tag_if|].
    eapply takes_bind; [by apply takes_metadata|]. eapply takes_then; [apply takes_on_input, reads_intPart|].
    eapply takes_to; [apply (takes_set (set_entryNotFound _))|destruct tag..]; reflexivity.
  - rewrite !not_elem_of_cons in Ha. destruct Ha as (H1 & H2 & H3 & _). rewrite enc_parts_one.
    apply Z.eqb_neq in H1, H2, H3. rewrite H1, H2, H3. by apply takes_metadata.
  - by eapply error_type in Hty.
Qed.

(** Replies with a value. *)
Lemma takes_read_response r request endpointMemId ml s : reply_ok r -> answers request r -> reply_type r = MsgType.RESPONSE -> m_msgTypeRequest s = request ->
  exists r', same_reply r r' /\
  takes (read_response to_utf16 to_utf8 user place syncCounter (Z.of_nat (length (reply_parts r))) endpointMemId) (enc_parts (reply_parts r)) ml s tt
    (reply_received r' endpointMemId ml s).1 (reply_received r' endpointMemId ml s).2.
Proof.
  intros Hok Ha Hty Hr. unfold read_response.
  destruct r as [g cb tag m|m old tag|tag m|tag m e|m|b|bytes|id|u bytes|v|a b c|type text|]; try done; cbn [answers reply_ok] in *.
  - destruct (takes_read_get g cb tag m endpointMemId ml s Hok) as (g' & cb' & H1 & H2 & H3). exists (GetReply g' cb' tag m). split; [done|].
    eapply takes_bind0; [apply takes_get|]. rewrite Hr, Ha. eval_requests. exact H3.
  - exists (ContainsReply b). split; [done|]. eapply takes_bind0; [apply takes_get|]. rewrite Hr, Ha. eval_requests.
    cbn [reply_parts reply_received fst snd]. rewrite enc_parts_one. eapply takes_then; [apply takes_on_input, reads_boolPart|apply (takes_set (set_boolValue b))].
  - exists (CredentialReply bytes). split; [done|]. eapply takes_bind0; [apply takes_get|]. rewrite Hr, Ha. eval_requests.
    cbn [reply_parts reply_received fst snd]. rewrite enc_parts_one, enc_part_eq. destruct Hok as (Hb & Hne & Hs).
    assert (Hlen : length (raw bytes) = length bytes) by apply length_fmap. unfold readUniqueIDObjectPart.
    eapply takes_bind; [apply takes_on_input, reads_length; unfold short in *; by rewrite Hlen|]. eapply takes_bind; [apply takes_on_input, reads_bool_is|].
    rewrite Hlen. destruct (Z.ltb_spec 0 (Z.of_nat (length bytes))) as [_|Hz]; [|destruct bytes; [done|cbn in Hz; lia]]. cbn [when].
    eapply takes_then; [by apply takes_on_input, reads_bytes_here|apply (takes_set (set_value _))].
  - exists (PdxIdReply id). split; [done|]. eapply takes_bind0; [apply takes_get|]. rewrite Hr.
    cbn [reply_parts reply_received fst snd]. rewrite enc_parts_one.
    assert (Hv : takes (typeId ← on_input readIntPart; set (set_value (Some (Obj (Serializable.CacheableInt32 (s32 typeId)))))) (enc_part (int_part id)) ml s tt ml
      (set_value (Some (Obj (Serializable.CacheableInt32 id))) s)).
    { eapply takes_then; [apply takes_on_input, reads_intPart|]. rewrite wrapS_wrapU, (wrapS_id 32) by (lia || done). apply (takes_set (set_value _)). }
    destruct Ha as [-> | ->]; eval_requests; exact Hv.
  - exists (PdxTypeReply u bytes). split; [done|]. eapply takes_bind0; [apply takes_get|]. rewrite Hr, Ha. eval_requests.
    cbn [reply_parts reply_received fst snd]. destruct Hok as [Hu Hs]. rewrite enc_parts_one, enc_part_eq.
    eapply takes_bind; [apply takes_on_input, reads_advanceBy; by rewrite length_be_bytes|]. eapply takes_bind; [apply takes_on_input, reads_bool_is|]. cbn [Z.eqb when].
    eapply takes_then; [apply takes_on_input; unfold deserialize; by apply (reads_fmap Serializable.UserObject)|]. cbn [pointer]. apply (takes_set (set_value _)).
  - destruct Hok as [Hv Hs]. destruct (reads_readable to_utf16 to_utf8 user enc_user user_ok place place_perm v Hv) as (v' & Hsame & Hv').
    exists (PdxEnumReply v'). split; [done|]. eapply takes_bind0; [apply takes_get|]. rewrite Hr, Ha. eval_requests.
    cbn [reply_parts reply_received fst snd]. rewrite enc_parts_one, enc_part_eq, app_assoc.
    eapply takes_bind; [apply takes_on_input, reads_advanceBy; by rewrite length_app, length_be_bytes|].
    eapply takes_then; [by apply takes_on_input|apply (takes_set (set_value _))].
  - exists (FunctionReply a b c). split; [done|]. eapply takes_bind0; [apply takes_get|]. rewrite Hr, Ha. eval_requests.
    cbn [reply_parts reply_received fst snd]. rewrite enc_parts_one, enc_part_eq. destruct Hok as (H1 & H2 & H3).
    eapply takes_bind; [by apply takes_on_input, reads_length|]. eapply takes_bind; [by apply takes_on_input, reads_advanceBy|].
    eapply (takes_bind _ _ [_] [_; _]); [by apply takes_on_input, reads_byte|]. eapply (takes_bind _ _ [_] [_]); [by apply takes_on_input, reads_byte|].
    eapply (takes_then _ _ [_]); [by apply takes_on_input, reads_byte|apply (takes_set (set_functionAttributes _))].
  - by eapply error_type in Hty.
Qed.

(** *** Errors and exceptions *)

Lemma reads_skip p : small (payload p) -> reads (skipParts 1) (enc_part p) tt.
Proof.
  intros Hp. unfold skipParts. change (Z.to_nat 1) with 1%nat. cbn [st_repeat]. rewrite <- (app_nil_r (enc_part p)).
  eapply (reads_bind _ _ _ _ [tt]); [|apply reads_ret]. rewrite <- (app_nil_r (enc_part p)). eapply (reads_bind _ _ _ _ tt); [|by apply (reads_map (mret []) (cons tt)), reads_ret].
  destruct p as [k l]. rewrite enc_part_eq. unfold small in Hp. cbn [payload] in Hp. eapply reads_bind; [apply reads_length; unfold short; lia|].
  destruct (Z.eqb_spec (Z.of_nat (length l)) (2 ^ 31 - 1)); [lia|]. apply reads_advanceBy. cbn [app length]. lia.
Qed.

Lemma takes_textPart text ml s : part_text to_utf16 to_utf8 text -> utf16 to_utf16 text <> [] ->
  takes (readObjectPart true) (enc_part (text_part to_utf16 text)) ml s tt ml (set_value (text_value text) s).
Proof.
  intros Ht Hne. pose proof (part_length _ _ _ Ht) as Hl. pose proof (reads_cacheableString to_utf16 to_utf8 (U := U) text Ht) as Hr.
  unfold TcrReply.readObjectPart, text_part, raw_part in *. cbn [payload] in Hl, Hr. rewrite enc_part_eq. eapply takes_bind; [apply takes_on_input, reads_length; unfold short; lia|].
  eapply takes_bind; [by apply takes_on_input, reads_byte_is|]. pose proof (text_nonempty _ Hne) as Hpos. apply Z.ltb_lt in Hpos. rewrite Hpos. cbn [Z.eqb].
  eapply takes_then; [by apply takes_on_input|apply (takes_set (set_value _))].
Qed.

Lemma takes_nodes nodes ml s : nodes_ok nodes ->
  takes (readFailedNodePart to_utf8 user place) (enc_part (nodes_part nodes)) ml s tt ml (set_failedNode (Some (foldl (place Object_) [] nodes)) s).
Proof.
  intros (Hp & Hs & Hk & Hd). unfold readFailedNodePart. unfold keys_part in *. cbn [payload] in Hp. rewrite enc_part_eq.
  eapply takes_bind; [by apply takes_on_input, reads_length|]. eapply takes_bind; [apply takes_on_input, reads_bool_is|].
  eapply (takes_bind _ _ [_]); [by apply takes_on_input, reads_byte_is|]. eapply takes_then; [apply takes_on_input|apply (takes_set (set_failedNode _))].
  unfold Serializable.read_set. eapply reads_bind; [apply reads_readArrayLength; unfold short in Hs; lia|]. rewrite Nat2Z.id.
  destruct (Z.ltb_spec 0 (Z.of_nat (length nodes))) as [_|Hz]; [|destruct nodes; [apply reads_ret|cbn in Hz; lia]].
  apply (reads_into user place place_perm (id (A := Object_))); [|by eapply Forall_impl; [|exact Hk]; intros ? []|done|by intros ? ? ?%elem_of_nil].
  clear -Hk UserCodec0. induction Hk as [|k nodes [Hk Hv] _ IH]; constructor; [|done].
  apply (reads_leaf_object to_utf16 to_utf8 user enc_user user_ok); [by destruct k|done].
Qed.

Lemma takes_exception trace text nodes ml s : reply_ok (ExceptionReply trace text nodes) ->
  takes (readExceptionPart to_utf8 user place (u8 (Z.shiftl (u8 (Z.of_nat (length (reply_parts (ExceptionReply trace text nodes))))) 5)) true)
    (enc_parts (reply_parts (ExceptionReply trace text nodes))) ml s true ml (reply_received (ExceptionReply trace text nodes) 0 ml s).2.
Proof.
  intros (Hp & Ht & Hne & Hn). unfold readExceptionPart. cbn [reply_parts reply_received snd]. rewrite enc_parts_app. unfold enc_parts at 1. rewrite !bind_cons.
  cbn [mbind list_bind]. rewrite app_nil_r, <- !app_assoc. eapply takes_bind; [by apply takes_on_input, reads_skip|].
  destruct nodes as [nodes|]; cbn [optional with_optional length app];
    match goal with |- context [u8 (Z.shiftr ?a 5 - 1)] => let v := eval vm_compute in (u8 (Z.shiftr a 5 - 1)) in change (u8 (Z.shiftr a 5 - 1)) with v end;
    (eapply takes_bind; [by apply takes_textPart|]); cbn [Z.sub Z.ltb Z.compare Z.add Z.opp Z.pos_sub Pos.pred_double when].
  - rewrite enc_parts_one. eapply takes_then; [by apply takes_nodes|apply takes_ret].
  - eapply takes_bind0; apply takes_ret.
Qed.

Lemma takes_error type text len numparts endpointMemId ml s : type ∈ errors -> part_text to_utf16 to_utf8 text -> m_msgType s = type ->
  takes (read_body to_utf16 to_utf8 user place syncCounter len numparts endpointMemId) (enc_part (text_part to_utf16 text)) ml s true ml
    (set_value (text_value text) s).
Proof.
  intros Hin Ht Hs. unfold read_body. eapply takes_bind0; [apply takes_get|]. rewrite Hs.
  assert (Hval : takes (s0 ← on_input (readStringPart to_utf8); set (set_value (Some (Obj (Serializable.CacheableString (CacheableString.m_type s0) s0))));; mret true)
    (enc_part (text_part to_utf16 text)) ml s true ml (set_value (text_value text) s)).
  { eapply takes_then; [by apply takes_on_input, reads_stringPart|]. eapply takes_bind0; [apply (takes_set (set_value _))|apply takes_ret]. }
  unfold errors in Hin. rewrite !elem_of_cons in Hin. repeat destruct Hin as [->|Hin]; [eval_types; exact Hval..|by apply elem_of_nil in Hin].
Qed.

Lemma takes_reply r request len endpointMemId ml s : reply_ok r -> answers request r -> m_msgTypeRequest s = request -> m_msgType s = reply_type r ->
  exists r', same_reply r r' /\
  takes (read_body to_utf16 to_utf8 user place syncCounter len (Z.of_nat (length (reply_parts r))) endpointMemId) (enc_parts (reply_parts r)) ml s true
    (reply_received r' endpointMemId ml s).1 (reply_received r' endpointMemId ml s).2.
Proof.
  intros Hok Ha Hr Hty.
  assert (Hcase : reply_type r = MsgType.RESPONSE \/ (reply_type r = MsgType.REPLY /\ same_reply r r) \/
    (exists type text, r = ErrorReply type text) \/ exists trace text nodes, r = ExceptionReply trace text nodes) by (clear; destruct r; naive_solver).
  destruct Hcase as [Ht|[[Ht Hs]|[(type & text & ->)|(trace & text & nodes & ->)]]].
  - destruct (takes_read_response r request endpointMemId ml s Hok Ha Ht Hr) as (r' & Hs & H1). exists r'. split; [done|].
    unfold read_body. eapply takes_bind0; [apply takes_get|]. rewrite Hty, Ht. eval_types. eapply takes_then; [exact H1|apply takes_ret].
  - exists r. split; [done|]. pose proof (takes_read_reply r request endpointMemId ml s Hok Ha Ht Hr) as H1.
    unfold read_body. eapply takes_bind0; [apply takes_get|]. rewrite Hty, Ht. eval_types. eapply takes_then; [exact H1|apply takes_ret].
  - exists (ErrorReply type text). split; [done|]. cbn [reply_parts]. rewrite enc_parts_one. by apply takes_error with (type := type).
  - exists (ExceptionReply trace text nodes). split; [done|]. pose proof (takes_exception trace text nodes ml s Hok) as H1.
    unfold read_body. eapply takes_bind0; [apply takes_get|]. rewrite Hty. cbn [reply_type]. eval_types. eapply takes_then; [exact H1|apply takes_ret].
Qed.
End Replies.
