(* ===== verification/ReplyClaims.v ===== *)
(** Messages from servers, as a whole: notifications and replies are understood as they were
    meant. *)
From S2P Require Import Prelude JavaModifiedUtf8 DataOutput DataOutputFacts DataInput DataInputFacts Utf8Strings EventId MemberId Versions MapEntry CacheableString ServerLocation CacheableBuiltins BuiltinsFacts BuiltinsClaims TcrMessage MessageFacts MessageParts VersionWire TcrReply ReplyFacts Notifications Replies.
Import TcrReply.
#[local] Arguments be_bytes : simpl never.
Local Open Scope Z_scope.

Section Claims.
Context `{AllocatorOk} {U : Type} (to_utf16 to_utf8 : list Z -> outcome (list Z)) (user : Serializable.UserTypes U)
  (enc_user : U -> list Z) (user_ok : U -> Prop) `{!UserCodec user enc_user user_ok}
  (place : forall X, list X -> X -> list X) (place_perm : forall X l x, place X l x ≡ₚ x :: l) (syncCounter : Z).
Abbreviation Object_ := (Serializable.t U).
Abbreviation t := (TcrReply.t (U := U)).
Abbreviation entry_event := (entry_event (U := U)).
Abbreviation change := (change (U := U)).
Abbreviation collected := (collected (U := U)).
Abbreviation object_part := (object_part to_utf16 enc_user).
Abbreviation fits_part := (fits_part to_utf16 to_utf8 user enc_user user_ok).
Abbreviation callback_ok := (callback_ok to_utf16 to_utf8 user enc_user user_ok).
Abbreviation event_part := (event_part to_utf16 enc_user).
Abbreviation entry_parts := (entry_parts to_utf16 enc_user).

(** *** Notifications *)

Inductive notification :=
| LocalCreate (e : entry_event) (c : change)
| LocalUpdate (e : entry_event) (c : change)
| LocalInvalidate (e : entry_event) (cq_type : Z)
| LocalDestroy (e : entry_event)
| LocalDestroyRegion (region : list Z) (cb : option Object_) (cqs : option (list (list Z * Z))) (id : EventId.t)
| LocalClearRegion (region : list Z) (cb : option Object_) (cqs : option (list (list Z * Z))) (id : EventId.t)
| ClientMarker (id : EventId.t)
| Tombstones (region : list Z) (c : collected) (id : EventId.t)
| ServerPing.

Definition note_type (n : notification) : Z :=
  match n with
  | LocalCreate _ _ => 27 | LocalUpdate _ _ => 28 | LocalInvalidate _ _ => 15 | LocalDestroy _ => 16
  | LocalDestroyRegion _ _ _ _ => 17 | LocalClearRegion _ _ _ _ => 36 | ClientMarker _ => 54 | Tombstones _ _ _ => 103 | ServerPing => 99
  end.
Definition note_parts (n : notification) : list part :=
  match n with
  | LocalCreate e c | LocalUpdate e c => entry_parts e (Some c) None
  | LocalInvalidate e cq_type => entry_parts e None (Some cq_type)
  | LocalDestroy e => entry_parts e None None
  | LocalDestroyRegion region cb cqs id | LocalClearRegion region cb cqs id => region_parts to_utf16 enc_user region cb cqs id
  | ClientMarker id => [event_part id]
  | Tombstones region c id => collected_parts to_utf16 enc_user region c id
  | ServerPing => []
  end.
Definition note_ok (n : notification) : Prop :=
  match n with
  | LocalCreate e c | LocalUpdate e c =>
    event_ok to_utf16 to_utf8 user enc_user user_ok syncCounter e /\ change_ok to_utf16 to_utf8 user enc_user user_ok c
  | LocalInvalidate e _ | LocalDestroy e => event_ok to_utf16 to_utf8 user enc_user user_ok syncCounter e
  | LocalDestroyRegion region cb cqs id | LocalClearRegion region cb cqs id =>
    region_name_ok region /\ callback_ok cb /\ cqs_part_ok to_utf16 to_utf8 cqs /\ EventId.valid id
  | ClientMarker id => EventId.valid id
  | Tombstones region c id => region_name_ok region /\ collected_ok to_utf16 to_utf8 user enc_user user_ok syncCounter c /\ EventId.valid id
  | ServerPing => True
  end.

(** The same up to the order of hash containers in values and callback arguments. *)
Definition same_note (n n' : notification) : Prop :=
  match n, n' with
  | LocalCreate e c, LocalCreate e' c' | LocalUpdate e c, LocalUpdate e' c' =>
    e' = replace_callback e (n_callback e') /\ same_callback (n_callback e) (n_callback e') /\ same_change c c'
  | LocalInvalidate e type, LocalInvalidate e' type' =>
    e' = replace_callback e (n_callback e') /\ same_callback (n_callback e) (n_callback e') /\ type' = type
  | LocalDestroy e, LocalDestroy e' => e' = replace_callback e (n_callback e') /\ same_callback (n_callback e) (n_callback e')
  | LocalDestroyRegion region cb cqs id, LocalDestroyRegion region' cb' cqs' id'
  | LocalClearRegion region cb cqs id, LocalClearRegion region' cb' cqs' id' =>
    region' = region /\ same_callback cb cb' /\ cqs' = cqs /\ id' = id
  | ClientMarker id, ClientMarker id' => id' = id
  | Tombstones region c id, Tombstones region' c' id' => region' = region /\ c' = c /\ id' = id
  | ServerPing, ServerPing => True
  | _, _ => False
  end.

(** The message after a notification. *)
Definition note_received (n : notification) (endpointMemId : Z) (ml : Members) (s : t) : Members * t :=
  match n with
  | LocalCreate e c | LocalUpdate e c => received_update to_utf16 syncCounter e c endpointMemId ml s
  | LocalInvalidate e cq_type => received_remove to_utf16 syncCounter e (Some cq_type) endpointMemId ml s
  | LocalDestroy e => received_remove to_utf16 syncCounter e None endpointMemId ml s
  | LocalDestroyRegion region cb cqs id | LocalClearRegion region cb cqs id => (ml, received_region region cb cqs id s)
  | ClientMarker id => (ml, set_eventid (Some id) s)
  | Tombstones region c id => (ml, received_collected to_utf16 place syncCounter region c id s)
  | ServerPing => (ml, set_shouldIgnore true s)
  end.

(** The message that an endpoint makes for a notification. *)
Definition new_notification (security_on : bool) : t := initCqMap (TcrMessageReply true (Some security_on)).

Lemma takes_note n len endpointMemId ml s : note_ok n -> m_msgType s = note_type n -> present (m_cqs s) = true ->
  m_tombstoneVersions s = None -> m_tombstoneKeys s = None ->
  exists n', same_note n n' /\
  takes (read_body to_utf16 to_utf8 user place syncCounter len (Z.of_nat (length (note_parts n))) endpointMemId) (enc_parts (note_parts n)) ml s true
    (note_received n' endpointMemId ml s).1 (note_received n' endpointMemId ml s).2.
Proof.
  intros Hok Hty Hq Hv Hk. unfold read_body.
  assert (Hstep : forall m n', takes m (enc_parts (note_parts n)) ml s tt (note_received n' endpointMemId ml s).1 (note_received n' endpointMemId ml s).2 ->
    takes (m;; mret true) (enc_parts (note_parts n)) ml s true (note_received n' endpointMemId ml s).1 (note_received n' endpointMemId ml s).2).
  { intros m n' Hm. eapply takes_then; [exact Hm|apply takes_ret]. }
  destruct n as [e c|e c|e type|e|region cb cqs id|region cb cqs id|id|region c id|]; cbn [note_type note_ok] in *.
  - destruct Hok as [He Hc]. destruct (takes_update to_utf16 to_utf8 user enc_user user_ok place place_perm syncCounter e c endpointMemId ml s He Hc Hq) as (c' & cb' & H1 & H2 & H3).
    exists (LocalCreate (replace_callback e cb') c'). split; [done|]. eapply takes_bind0; [apply takes_get|]. rewrite Hty. eval_types. by apply Hstep.
  - destruct Hok as [He Hc]. destruct (takes_update to_utf16 to_utf8 user enc_user user_ok place place_perm syncCounter e c endpointMemId ml s He Hc Hq) as (c' & cb' & H1 & H2 & H3).
    exists (LocalUpdate (replace_callback e cb') c'). split; [done|]. eapply takes_bind0; [apply takes_get|]. rewrite Hty. eval_types. by apply Hstep.
  - destruct (takes_remove to_utf16 to_utf8 user enc_user user_ok place place_perm syncCounter e (Some type) endpointMemId ml s Hok Hq) as (cb' & H1 & H2); [by rewrite Hty|].
    exists (LocalInvalidate (replace_callback e cb') type). split; [done|]. eapply takes_bind0; [apply takes_get|]. rewrite Hty. eval_types. by apply Hstep.
  - destruct (takes_remove to_utf16 to_utf8 user enc_user user_ok place place_perm syncCounter e None endpointMemId ml s Hok Hq) as (cb' & H1 & H2); [by rewrite Hty|].
    exists (LocalDestroy (replace_callback e cb')). split; [done|]. eapply takes_bind0; [apply takes_get|]. rewrite Hty. eval_types. by apply Hstep.
  - destruct Hok as (Hr & Hcb & Hc & Hid). destruct (takes_region to_utf16 to_utf8 user enc_user user_ok place place_perm region cb cqs id ml s Hr Hcb Hc Hid Hq) as (cb' & H1 & H2).
    exists (LocalDestroyRegion region cb' cqs id). split; [done|]. eapply takes_bind0; [apply takes_get|]. rewrite Hty. eval_types. by apply Hstep.
  - destruct Hok as (Hr & Hcb & Hc & Hid). destruct (takes_region to_utf16 to_utf8 user enc_user user_ok place place_perm region cb cqs id ml s Hr Hcb Hc Hid Hq) as (cb' & H1 & H2).
    exists (LocalClearRegion region cb' cqs id). split; [done|]. eapply takes_bind0; [apply takes_get|]. rewrite Hty. eval_types. by apply Hstep.
  - exists (ClientMarker id). split; [done|]. eapply takes_bind0; [apply takes_get|]. rewrite Hty. eval_types. apply Hstep.
    cbn [note_parts]. rewrite enc_parts_one. by eapply takes_eventPart.
  - destruct Hok as (Hr & Hc & Hid). exists (Tombstones region c id). split; [done|]. eapply takes_bind0; [apply takes_get|]. rewrite Hty. eval_types. apply Hstep.
    by eapply takes_collected.
  - exists ServerPing. split; [done|]. eapply takes_bind0; [apply takes_get|]. rewrite Hty. eval_types. apply Hstep. apply (takes_set (set_shouldIgnore true)).
Qed.

(** A frame is handled as its parts are read. *)
Lemma frame_handled h ps sec endpointMemId ml (s : t) ml' s' : head_ok h sec -> security_ok sec ->
  Z.of_nat (length (enc_parts (ps ++ security sec))) < 2 ^ 31 - 17 -> present (m_tcdm s) = true ->
  let bytes := frame h ps (security sec) in
  takes (read_body to_utf16 to_utf8 user place syncCounter (Z.of_nat (length bytes)) (Z.of_nat (length ps)) endpointMemId)
    (enc_parts ps) ml (started (msg_type h) (tx_id h) s) true ml' s' ->
  handleByteArrayResponse to_utf16 to_utf8 user place syncCounter bytes (Z.of_nat (length bytes)) endpointMemId (ml, s) =
    Ok (tt, (ml', with_security sec s')).
Proof.
  intros Hh Hsec Hlen Hdm bytes Hb. apply (takes_frame to_utf16 to_utf8 user place syncCounter h ps sec ml s ml' s' Hh Hsec Hlen) in Hb.
  destruct (Hb []) as (pre' & _ & E).
  { unfold bytes in *. cbn [app]. unfold frame, enc_head. rewrite enc_parts_app, !length_app, !length_be_bytes in *. cbn [length] in *. lia. }
  unfold handleByteArrayResponse. cbn [fst snd]. destruct (m_tcdm s); [|done].
  change (DataInput.construct bytes _) with (at_ [] bytes). unfold bytes in *. by rewrite E.
Qed.

(** C16. A notification that a server sends to its clients, as a frame of parts with or
    without the part of a connection id, is understood by [handleByteArrayResponse] as it was
    meant: creations and updates with whole values or deltas, invalidations, destructions,
    the destruction and clearing of regions, markers, and collected tombstones, with callback
    arguments, version tags, continuous queries and event ids. Values are the same up to the
    order of the elements of hash containers. *)
Theorem notification_read n h sec endpointMemId ml security_on : note_ok n -> msg_type h = note_type n -> head_ok h sec -> security_ok sec ->
  Z.of_nat (length (enc_parts (note_parts n ++ security sec))) < 2 ^ 31 - 17 ->
  let bytes := frame h (note_parts n) (security sec) in
  exists n', same_note n n' /\
  handleByteArrayResponse to_utf16 to_utf8 user place syncCounter bytes (Z.of_nat (length bytes)) endpointMemId (ml, new_notification security_on) =
    (let '(ml', m) := note_received n' endpointMemId ml (started (note_type n) (tx_id h) (new_notification security_on)) in
     Ok (tt, (ml', with_security sec m))).
Proof.
  intros Hok Hty Hh Hsec Hlen bytes.
  destruct (takes_note n (Z.of_nat (length bytes)) endpointMemId ml (started (note_type n) (tx_id h) (new_notification security_on)) Hok)
    as (n' & Hs & Ht); [done..|]. exists n'. split; [done|]. rewrite <- Hty in Ht.
  etransitivity; [by apply (frame_handled h (note_parts n) sec endpointMemId ml (new_notification security_on) _ _ Hh Hsec Hlen eq_refl Ht)|]. rewrite Hty. clear Ht. by destruct (note_received n' endpointMemId ml (started (note_type n) (tx_id h) (new_notification security_on))) as [ml' m].
Qed.

(** *** Replies *)

(** The message that waits for the reply to a request. *)
Definition new_reply (request : Z) (security_on : bool) : t := set_msgTypeRequest request (TcrMessageReply true (Some security_on)).

(** C17. The reply of a server to a request, as a frame of parts with or without the part of
    a connection id, is understood by [handleByteArrayResponse] as it was meant: the value, the
    invalid value or the absence of a key, callback arguments and version tags as the flags
    announce them, the versions of metadata, credentials, PDX types and ids, attributes of
    functions, errors, and exceptions with the nodes that failed. Values are the same up to
    the order of the elements of hash containers. *)
Theorem reply_read r request h sec endpointMemId ml security_on :
  reply_ok to_utf16 to_utf8 user enc_user user_ok syncCounter r -> answers request r -> msg_type h = reply_type r -> head_ok h sec -> security_ok sec ->
  Z.of_nat (length (enc_parts (reply_parts to_utf16 enc_user r ++ security sec))) < 2 ^ 31 - 17 ->
  let bytes := frame h (reply_parts to_utf16 enc_user r) (security sec) in
  exists r', same_reply r r' /\
  handleByteArrayResponse to_utf16 to_utf8 user place syncCounter bytes (Z.of_nat (length bytes)) endpointMemId (ml, new_reply request security_on) =
    (let '(ml', m) := reply_received to_utf16 place syncCounter r' endpointMemId ml (started (reply_type r) (tx_id h) (new_reply request security_on)) in
     Ok (tt, (ml', with_security sec m))).
Proof.
  intros Hok Ha Hty Hh Hsec Hlen bytes. set (s := started (reply_type r) (tx_id h) (new_reply request security_on)).
  destruct (takes_reply to_utf16 to_utf8 user enc_user user_ok place place_perm syncCounter r request (Z.of_nat (length bytes)) endpointMemId ml s Hok Ha eq_refl eq_refl)
    as (r' & Hs & Ht). exists r'. split; [done|]. unfold s in Ht. rewrite <- Hty in Ht.
  etransitivity; [by apply (frame_handled h _ sec endpointMemId ml (new_reply request security_on) _ _ Hh Hsec Hlen eq_refl Ht)|].
  unfold s. rewrite Hty. clear Ht. by destruct (reply_received _ _ _ r' _ _ _) as [ml' m].
Qed.
End Claims.

(** A text in a part is decoded with a length of 16 bits: a text of up to 65535 bytes
    in modified UTF-8 is read completely, and of a longer one only the first characters, as
    many as fill its length modulo 65536. The cursor moves behind the whole text in any case,
    so that the parts behind it are found. *)
Theorem text_part_bounds to_utf8 u rest s :
  JavaModifiedUtf8.u16string_ok u -> Z.of_nat (length (JavaModifiedUtf8.fromString u)) <= 0xFFFF ->
  Z.of_nat (length (JavaModifiedUtf8.fromString rest)) mod 65536 = 0 -> Z.of_nat (length (JavaModifiedUtf8.fromString (u ++ rest))) < 2 ^ 31 ->
  to_utf8 u = Ok s ->
  reads (readStringPart to_utf8) (enc_part (mkPart 0 (JavaModifiedUtf8.fromString (u ++ rest)))) s.
Proof.
  intros Hu Hl Hm Hlt Hs. rewrite enc_part_eq. unfold readStringPart. eapply reads_bind; [by apply reads_length|].
  eapply reads_bind; [by apply reads_byte_is|]. cbn [Z.eqb negb]. eapply reads_lift; [|exact Hs].
  rewrite JavaModifiedUtf8.fromString_bind, bind_app, <- !JavaModifiedUtf8.fromString_bind. by apply reads_decode_cut.
Qed.

(** ** Messages of servers on concrete bytes. *)
Module ReplyExamples.
Import TcrReply.
Local Open Scope Z_scope.

Section Examples.
#[local] Existing Instance always_alloc.
#[local] Existing Instance always_alloc_ok.
#[local] Existing Instance number_codec.

(** A list of numbers was put for the key "k" of the region "/r", by the member at the endpoint;
    the query "q" tells of an update. *)
Definition some_tag : wire_tag wire_member := mkTag 0 1 3 None 12 1000 None None.
Definition some_event : entry_event (U := Z) :=
  mkEvent [47; 114] (KeyString [107]) (Some (Serializable.CacheableBytes [5; -1])) (Some (SentTag some_tag)) true (Some [([113], 28)]) (EventId.mk [1; 2] 2 1 4 (-1) 0).
Definition some_list : Serializable.t Z :=
  Serializable.CacheableList Serializable.CacheableArrayList [Serializable.CacheableInt32 7; Serializable.UserObject 5].
Definition some_note : notification (U := Z) := LocalUpdate some_event (Full some_list).

Lemma some_tag_ok W (P : W -> Prop) : tag_ok P (mkTag 0 1 3 None 12 1000 None None).
Proof. by constructor. Qed.

Lemma letter_text c : c ∈ [107; 110; 113] -> part_text Ok Ok [c].
Proof.
  intros Hc. split; [done|done|..].
  - constructor; [|done]. unfold in_u. rewrite !elem_of_cons in Hc. destruct Hc as [->|[->|[->|Hc]]]; [lia..|by apply elem_of_nil in Hc].
  - rewrite !elem_of_cons in Hc. destruct Hc as [->|[->|[->|Hc]]]; [by vm_compute..|by apply elem_of_nil in Hc].
Qed.

Lemma some_event_ok : event_ok Ok Ok number_types number_wire (in_s 32) 0 some_event.
Proof.
  split; cbn [n_region n_key n_callback n_tag n_cqs n_id some_event].
  - split; [|by vm_compute]. rewrite !not_elem_of_cons. split_and!; [done|done|apply not_elem_of_nil].
  - split; [|done]. apply letter_text. by left.
  - split; [|done]. split; [|by vm_compute]. repeat (split || constructor || done).
  - split; [by vm_compute|apply some_tag_ok].
  - split; [by vm_compute|]. constructor; [|done]. split; [|done]. apply letter_text. by right; right; left.
  - repeat (split || constructor || done).
Qed.

Lemma notification_read_witness :
  exists n', same_note some_note n' /\
  let bytes := frame (mkHead 28 7 2) (note_parts Ok number_wire some_note) (security (Some [9; -9])) in
  handleByteArrayResponse Ok Ok number_types at_end 0 bytes (Z.of_nat (length bytes)) 5 (MemberListForVersionStamp.construct, new_notification true) =
    (let '(ml', m) := note_received Ok at_end 0 n' 5 MemberListForVersionStamp.construct (started 28 7 (new_notification true)) in
     Ok (tt, (ml', with_security (Some [9; -9]) m))).
Proof.
  apply (notification_read Ok Ok number_types number_wire (in_s 32) at_end (fun _ _ _ => reflexivity _) 0 some_note (mkHead 28 7 2) (Some [9; -9]) 5
    MemberListForVersionStamp.construct true).
  - split; [exact some_event_ok|]. split; [|by vm_compute]. repeat (split || constructor || done).
  - done.
  - by split.
  - by repeat (split || constructor).
  - by vm_compute.
Defined.

(** The key was found, with its version and the metadata of the region. *)
Definition some_reply : reply (U := Z) := GetReply (Found some_list) None (Some (SentTag some_tag)) (Some (4, Some 2)).

Lemma reply_read_witness :
  exists r', same_reply some_reply r' /\
  let bytes := frame (mkHead 1 7 0) (reply_parts Ok number_wire some_reply) (security None) in
  handleByteArrayResponse Ok Ok number_types at_end 0 bytes (Z.of_nat (length bytes)) 5 (MemberListForVersionStamp.construct, new_reply 0 false) =
    (let '(ml', m) := reply_received Ok at_end 0 r' 5 MemberListForVersionStamp.construct (started 1 7 (new_reply 0 false)) in
     Ok (tt, (ml', with_security None m))).
Proof.
  apply (reply_read Ok Ok number_types number_wire (in_s 32) at_end (fun _ _ _ => reflexivity _) 0 some_reply 0 (mkHead 1 7 0) None 5
    MemberListForVersionStamp.construct false).
  - split_and!; [|done|split; [by vm_compute|apply some_tag_ok]|by split; [|intros g [= <-]]].
    split; [|by vm_compute]. repeat (split || constructor || done).
  - done.
  - done.
  - by split.
  - done.
  - by vm_compute.
Defined.

(** A letter and 65536 others: only the letter is read. *)
Lemma many_letters n : length (JavaModifiedUtf8.fromString (replicate n 97)) = n.
Proof.
  rewrite JavaModifiedUtf8.fromString_bind. induction n as [|n IH]; [done|]. cbn [replicate]. rewrite bind_cons, length_app, IH. done.
Qed.

Lemma text_part_bounds_witness :
  reads (readStringPart Ok) (enc_part (mkPart 0 (JavaModifiedUtf8.fromString ([110] ++ replicate (Z.to_nat 65536) 97)))) [110].
Proof.
  apply (text_part_bounds Ok [110] (replicate (Z.to_nat 65536) 97) [110]).
  - by apply (part_units _ _ _ (letter_text 110 ltac:(by right; left))).
  - by vm_compute.
  - rewrite many_letters, Z2Nat.id by lia. reflexivity.
  - rewrite JavaModifiedUtf8.fromString_bind, bind_app, <- !JavaModifiedUtf8.fromString_bind, length_app, many_letters, Nat2Z.inj_add, Z2Nat.id by lia.
    change (length (JavaModifiedUtf8.fromString [110])) with 1%nat. lia.
  - reflexivity.
Defined.

(** The state of a message after an invalidation of the key "k", and after an unknown message. *)
Example invalidation_received :
  let bytes := frame (mkHead 15 7 0) (note_parts Ok number_wire (LocalInvalidate some_event 15)) (security None) in
  match handleByteArrayResponse Ok Ok number_types at_end 0 bytes (Z.of_nat (length bytes)) 5 (MemberListForVersionStamp.construct, new_notification true) with
  | Ok (_, (_, m)) => m_regionName m = [47; 114] /\ m_key m = Serializable.CacheableString 87 [107] /\ m_msgTypeForCq m = 15 /\
      m_cqs m = Some {[ [113] := 28 ]} /\ m_eventid m = Some (n_id some_event) /\ m_callbackArgument m = Serializable.CacheableBytes [5; -1] /\
      (VersionTag.m_internalMemId <$> m_versionTag m) = Some 5
  | Throw _ => False
  end.
Proof. vm_compute. done. Qed.
Example unknown_message :
  let bytes := frame (mkHead 77 7 0) [] [] in
  handleByteArrayResponse Ok Ok number_types at_end 0 bytes (Z.of_nat (length bytes)) 5 (MemberListForVersionStamp.construct, new_notification true) =
    Throw MessageException.
Proof. vm_compute. done. Qed.
End Examples.
End ReplyExamples.
