(* ===== verification/ObjectParts.v ===== *)
(** Lists of objects in results (src/cppcache/src/CacheableObjectPartList.cpp,
    VersionedCacheableObjectPartList.cpp and their headers): values, exceptions and version tags of
    many keys, which are put into the region while they are read.

    The region is an interface of the two operations that are called ([RegionStore]);
    [local_store] is the region of [LocalRegion]. Pointers that the list shares with its creator
    (values, exceptions, keys, the offset into the keys) are fields that the creator takes back. *)
From S2P Require Import Prelude JavaModifiedUtf8 DataOutput DataInput EventId MemberId Versions ExceptionTypes ExpiryTaskManager MapEntry ConcurrentEntriesMap EntriesMap LocalRegion CacheableString ServerLocation CacheableBuiltins TcrMessage TcrReply.
Import TcrReply.

(** What a list asks of its region: [putLocal] of a value that is not new, with caching, which
    returns the error and the old value, and [getEntry]. The region sees the members that were
    read, which it shares with the list ([rs_members]). *)
Class RegionStore (U G : Type) := {
  rs_members : MemberListForVersionStamp.t -> G -> G;
  rs_putLocal : Serializable.t U -> option (Cacheable (Serializable.t U)) -> Z -> Z -> option VersionTag.t ->
    ST G (GfErrType * option (Cacheable (Serializable.t U)));
  rs_getEntry : Serializable.t U -> ST G (option (Cacheable (Serializable.t U)))
}.

(** The exception of a key, with its message. *)
Inductive KeyException := NotAuthorized (message : list Z) | CacheServer (message : list Z).

Definition literal (s : string) : list Z := string_bytes s.
Definition key_exception (exMsg : list Z) : KeyException :=
  if bool_decide (exMsg = literal "org.apache.geode.security.NotAuthorizedException")
  then NotAuthorized (literal "Authorization exception at server: " ++ exMsg)
  else CacheServer (literal "Exception at remote server: " ++ exMsg).

Module ObjectPartList.
Section Lists.
Context {U G : Type}.
Abbreviation Object_ := (Serializable.t U).
Abbreviation value := (option (Cacheable Object_)).

Record t := mk {
  m_keys : option (list Object_);
  m_keysOffset : option Z;
  m_values : option (list (Object_ * value));
  m_exceptions : option (list (Object_ * KeyException));
  m_resultKeys : option (list Object_);
  m_region : bool;                        (** not null *)
  m_updateCountMap : option (list (Object_ * Z));
  m_destroyTracker : Z;
  m_addToLocalCache : bool;
  m_regionIsVersioned : bool;
  m_serializeValues : bool;
  m_hasTags : bool;
  m_hasKeys : bool;
  m_versionTags : list (option VersionTag.t);
  m_byteArray : list Z;
  m_endpointMemId : Z;
  m_tempKeys : option (list Object_)
}.
Definition eta (r : t) : t :=
  mk (m_keys r) (m_keysOffset r) (m_values r) (m_exceptions r) (m_resultKeys r) (m_region r) (m_updateCountMap r)
     (m_destroyTracker r) (m_addToLocalCache r) (m_regionIsVersioned r) (m_serializeValues r) (m_hasTags r) (m_hasKeys r)
     (m_versionTags r) (m_byteArray r) (m_endpointMemId r) (m_tempKeys r).

Definition set_keysOffset : option Z -> t -> t := ltac:(record_setter eta m_keysOffset).
Definition set_values : option (list (Object_ * value)) -> t -> t := ltac:(record_setter eta m_values).
Definition set_exceptions : option (list (Object_ * KeyException)) -> t -> t := ltac:(record_setter eta m_exceptions).
Definition set_resultKeys : option (list Object_) -> t -> t := ltac:(record_setter eta m_resultKeys).
Definition set_updateCountMap : option (list (Object_ * Z)) -> t -> t := ltac:(record_setter eta m_updateCountMap).
Definition set_regionIsVersioned : bool -> t -> t := ltac:(record_setter eta m_regionIsVersioned).
Definition set_serializeValues : bool -> t -> t := ltac:(record_setter eta m_serializeValues).
Definition set_hasTags : bool -> t -> t := ltac:(record_setter eta m_hasTags).
Definition set_hasKeys : bool -> t -> t := ltac:(record_setter eta m_hasKeys).
Definition set_versionTags : list (option VersionTag.t) -> t -> t := ltac:(record_setter eta m_versionTags).
Definition set_byteArray : list Z -> t -> t := ltac:(record_setter eta m_byteArray).
Definition set_tempKeys : option (list Object_) -> t -> t := ltac:(record_setter eta m_tempKeys).

(** The constructor of results with values, the one of a putAll, and the one with a member only. *)
Definition for_values (keys : option (list Object_)) (keysOffset : option Z) (values : option (list (Object_ * value)))
    (exceptions : option (list (Object_ * KeyException))) (resultKeys : option (list Object_)) (region : bool)
    (trackerMap : option (list (Object_ * Z))) (destroyTracker : Z) (addToLocalCache : bool) (dsmemId : Z) : t :=
  mk keys keysOffset values exceptions resultKeys region trackerMap destroyTracker addToLocalCache false false false false [] [] dsmemId (Some []).
Definition for_region (region : bool) (dsmemId : Z) : t :=
  mk None None None None None region None 0 false false false false false [] [] dsmemId None.
Definition for_member (endpointMemId : Z) : t :=
  mk None None None None None false None 0 false false false false false [] [] endpointMemId (Some []).

(** *** Operations without input *)

Definition getVersionedTagsize (l : t) : Z := Z.of_nat (length (m_versionTags l)).
Definition setVersionedTagptr (tags : list (option VersionTag.t)) (l : t) : t :=
  set_hasTags (0 <? Z.of_nat (length tags)) (set_versionTags tags l).

Definition addAll (other l : t) : t :=
  let l := match m_tempKeys other with
           | None => l
           | Some keys => set_hasKeys true (set_tempKeys (Some (default [] (m_tempKeys l) ++ keys)) l)
           end in
  let l := set_regionIsVersioned (m_regionIsVersioned l || m_regionIsVersioned other) l in
  if 0 <? Z.of_nat (length (m_versionTags other)) then set_hasTags true (set_versionTags (m_versionTags l ++ m_versionTags other) l) else l.

Definition size (l : t) : outcome Z :=
  if m_hasKeys l then match m_tempKeys l with Some keys => Ok (Z.of_nat (length keys)) | None => Throw UndefinedBehaviour end
  else if m_hasTags l then Ok (Z.of_nat (length (m_versionTags l)))
  else Ok (-1).

Definition addAllKeys (keySet : list Object_) (l : t) : outcome t :=
  if negb (m_hasKeys l) then Ok (set_tempKeys (Some keySet) (set_hasKeys true l))
  else match m_tempKeys l with
       | Some keys => Ok (set_tempKeys (Some (keys ++ keySet)) l)
       | None => Throw UndefinedBehaviour
       end.

(** *** Hash maps with keys that are dereferenced *)

Section Reading.
Context `{Allocator} `{RegionStore U G} (to_utf16 to_utf8 : list Z -> outcome (list Z)) (user : Serializable.UserTypes U)
  (place : forall X, list X -> X -> list X) (syncCounter : Z).

Definition find_key {X} (key : Object_) (l : list (Object_ * X)) : outcome (option X) :=
  if negb (Serializable.is_key user key) then Throw UndefinedBehaviour
  else Ok (snd <$> find (fun y => Serializable.equals user y.1 key) l).
(** [map[key] = x]. *)
Definition assign_key {X} (key : Object_) (x : X) (l : list (Object_ * X)) : outcome (list (Object_ * X)) :=
  if negb (Serializable.is_key user key) then Throw UndefinedBehaviour
  else if existsb (fun y => Serializable.equals user y.1 key) l
       then Ok ((fun y => if Serializable.equals user y.1 key then (y.1, x) else y) <$> l)
       else Ok (place _ l (key, x)).
Definition emplace_key {X} (key : Object_) (x : X) (l : list (Object_ * X)) : outcome (list (Object_ * X)) :=
  Serializable.emplace user place fst (key, x) l.

(** *** The monad *)

Abbreviation M := (Reader (t * G)).
Definition get_list : M t := fst <$> get.
Definition set_list (f : t -> t) : M unit := set (fun s => (f s.1, s.2)).
Definition on_region {A} (m : ST G A) : M A := fun '(st, (l, g)) =>
  match m (rs_members st.2 g) with Ok (a, g') => Ok (a, (st, (l, g'))) | Throw e => Throw e end.
(** A pointer that must not be null. *)
Definition deref {S A} (o : option A) : ST S A := match o with Some a => mret a | None => st_throw UndefinedBehaviour end.
(** [at] of a vector. *)
Definition at_index {S A} (l : list A) (i : Z) : ST S A :=
  if i <? 0 then st_throw StdOutOfRange else match l !! Z.to_nat i with Some a => mret a | None => st_throw StdOutOfRange end.
(** [operator[]] of a vector. *)
Definition elem_at {S A} (l : list A) (i : nat) : ST S A := deref (l !! i).

Definition readKey : ST DataInput.t Object_ := o ← readObject to_utf8 user place; mret (key_cast user o).

(** [m_exceptions->emplace(key, ex)] with the exception that is read. *)
Definition read_exception (key : Object_) : M unit :=
  n ← on_input DataInput.readArrayLength;
  on_input (DataInput.advanceCursor n);;
  exMsg ← on_input (DataInput.readString_string to_utf8);
  l ← get_list;
  exceptions ← deref (m_exceptions l);
  exceptions ← st_lift (emplace_key key (key_exception exMsg) exceptions);
  set_list (set_exceptions (Some exceptions)).

Definition put_value (key : Object_) (v : value) : M unit :=
  l ← get_list;
  values ← deref (m_values l);
  values ← st_lift (emplace_key key v values);
  set_list (set_values (Some values)).

(** *** [VersionedCacheableObjectPartList] *)

(** The mark of the entry is stored at [index]. *)
Definition readObjectPart (index : nat) (key : Object_) : M unit :=
  objType ← on_input DataInput.read;
  set_list (fun l => set_byteArray (<[index := u8 objType]> (m_byteArray l)) l);;
  if objType =? 2 then read_exception key
  else
    l ← get_list;
    if m_serializeValues l then
      skipLen ← on_input DataInput.readArrayLength;
      if skipLen <? 0 then st_throw UndefinedBehaviour
      else
        bytes ← on_input (DataInput.readBytesOnly skipLen);
        put_value key (Some (Obj (Serializable.CacheableBytes (s8 <$> bytes))))
    else
      o ← on_input (readObject to_utf8 user place);
      put_value key (pointer o).

(** The key at [index]: one that was asked for, or one that the list brings. *)
Definition key_at (keysOffset : Z) (localKeys : list Object_) (index : nat) : M Object_ :=
  l ← get_list;
  match m_keys l with
  | Some keys =>
    if m_hasKeys l then at_index localKeys (Z.of_nat index)
    else if 2 ^ 31 <=? Z.of_nat index + keysOffset then st_throw UndefinedBehaviour
    else at_index keys (Z.of_nat index + keysOffset)
  | None => at_index localKeys (Z.of_nat index)
  end.

Fixpoint read_keys (n : nat) (localKeys : list Object_) : M (list Object_) :=
  match n with
  | O => mret localKeys
  | S n =>
    key ← on_input readKey;
    l ← get_list;
    set_list (set_resultKeys ((fun keys => keys ++ [key]) <$> m_resultKeys l));;
    tempKeys ← deref (m_tempKeys l);
    set_list (set_tempKeys (Some (tempKeys ++ [key])));;
    read_keys n (localKeys ++ [key])
  end.

(** [for (index = 0; index < len; ++index)]. *)
Definition for_index {S} (len : Z) (body : nat -> ST S unit) : ST S unit := st_iter body (seq 0 (Z.to_nat len)).

Definition resize {A} (a : A) (len : Z) (l : list A) : outcome (list A) :=
  if len <? 0 then Throw StdLengthError
  else Ok (take (Z.to_nat len) l ++ replicate (Z.to_nat len - length l) a).

Definition fresh_tag (persistent : bool) : M VersionTag.t :=
  on_members (VersionTag.fromData
    (if persistent then VersionTag.readMembers_disk else VersionTag.readMembers to_utf16 to_utf8 (other_object to_utf8 user place) syncCounter)
    VersionTag.construct).

(** A tag, and the numbers of the members of the tags read so far. *)
Definition read_tag (persistent : bool) (ids : list Z) : M (option VersionTag.t * list Z) :=
  entryType ← on_input DataInput.read;
  let entryType := u8 entryType in
  if entryType =? 1 then
    tag ← fresh_tag persistent;
    l ← get_list;
    mret (Some (VersionTag.replaceNullMemberId (m_endpointMemId l) tag), ids)
  else if entryType =? 2 then
    tag ← fresh_tag persistent;
    mret (Some tag, ids ++ [VersionTag.m_internalMemId tag])
  else if entryType =? 3 then
    tag ← fresh_tag persistent;
    idNumber ← on_input DataInput.readUnsignedVL;
    id ← at_index ids idNumber;
    mret (Some (VersionTag.set_internal id tag), ids)
  else mret (None, ids).

Fixpoint read_tags (persistent : bool) (n index : nat) (ids : list Z) : M unit :=
  match n with
  | O => mret tt
  | S n =>
    '(tag, ids) ← read_tag persistent ids;
    set_list (fun l => set_versionTags (<[index := tag]> (m_versionTags l)) l);;
    read_tags persistent n (S index) ids
  end.

(** The objects, and the tags, of a list: a number and as many of them. *)
Definition read_objects (keysOffset : Z) (localKeys : list Object_) : M Z :=
  n ← on_input DataInput.readUnsignedVL;
  l ← get_list;
  bytes ← st_lift (resize 0 (s32 n) (m_byteArray l));
  set_list (set_byteArray bytes);;
  for_index (s32 n) (fun index => key ← key_at keysOffset localKeys index; readObjectPart index key);;
  mret (s32 n).
Definition read_versionTags (persistent : bool) : M Z :=
  n ← on_input DataInput.readUnsignedVL;
  l ← get_list;
  tags ← st_lift (resize None (s32 n) (m_versionTags l));
  set_list (set_versionTags tags);;
  (if m_region l then mret tt else st_throw UndefinedBehaviour);;
  read_tags persistent (Z.to_nat (s32 n)) 0 [];;
  mret (s32 n).

(** [m_versionTags[index] = nullptr]. *)
Definition clear_tag (index : nat) : M unit :=
  l ← get_list;
  elem_at (m_versionTags l) index;;
  set_list (set_versionTags (<[index := None]> (m_versionTags l))).

(** [m_values[key] = oldValue]. *)
Definition replace_value (key : Object_) (oldValue : value) : M unit :=
  l ← get_list;
  values ← deref (m_values l);
  values ← st_lift (assign_key key oldValue values);
  set_list (set_values (Some values)).

Definition isInvalid (v : value) : bool := match v with Some InvalidToken => true | _ => false end.

(** The entry at [index] goes into the region, unless the key was not found by the server. *)
Definition store_entry (keysOffset : Z) (localKeys : list Object_) (index : nat) : M unit :=
  key ← key_at keysOffset localKeys index;
  l ← get_list;
  values ← deref (m_values l);
  found ← st_lift (find_key key values);
  let v := default None found in
  byte ← elem_at (m_byteArray l) index;
  if byte =? 3 then mret tt
  else if negb (m_region l) then st_throw UndefinedBehaviour
  else if m_addToLocalCache l then
    versionTag ← elem_at (m_versionTags l) index;
    '(err, oldValue) ← on_region (rs_putLocal key v (-1) (m_destroyTracker l) versionTag);
    when (bool_decide (err = GF_CACHE_CONCURRENT_MODIFICATION_EXCEPTION)) (replace_value key oldValue)
  else
    oldValue ← on_region (rs_getEntry key);
    when (negb (bool_decide (oldValue = None)) && negb (isInvalid oldValue)) (replace_value key oldValue).

Definition fromData : M unit :=
  flags ← on_input DataInput.read;
  let has mask := negb (Z.land (u8 flags) mask =? 0) in
  let hasObjects := has 0x02 in
  let persistent := has 0x20 in
  set_list (fun l => set_serializeValues (has 0x10) (set_regionIsVersioned (has 0x08) (set_hasTags (has 0x04) (set_hasKeys (has 0x01) l))));;
  l ← get_list;
  let keysOffset := s32 (default 0 (m_keysOffset l)) in
  let valuesNULL := bool_decide (m_values l = None) in
  when valuesNULL (set_list (set_values (Some [])));;
  '(localKeys, len) ←
    (if has 0x01 then
       n ← on_input DataInput.readUnsignedVL;
       keys ← read_keys (Z.to_nat (s32 n)) [];
       mret (keys, s32 n)
     else if bool_decide (m_keys l = None) && hasObjects && bool_decide (m_resultKeys l = None) then st_throw FatalInternalException
     else mret ([], 0));
  len ← (if hasObjects then read_objects keysOffset localKeys else mret len);
  len ← (if has 0x04 then read_versionTags persistent else for_index len clear_tag;; mret len);
  when hasObjects (for_index len (store_entry keysOffset localKeys));;
  set_list (fun l => set_keysOffset ((fun offset => u32 (offset + len)) <$> m_keysOffset l) l);;
  when valuesNULL (set_list (set_values None)).

(** *** [CacheableObjectPartList] *)

(** [m_updateCountMap->find(key)], and [erase]. *)
Definition take_updateCount (key : Object_) : M Z :=
  l ← get_list;
  counts ← deref (m_updateCountMap l);
  found ← st_lift (find_key key counts);
  match found with
  | Some n => set_list (set_updateCountMap (Some (filter (fun y => Serializable.equals user y.1 key = false) counts)));; mret n
  | None => mret (-1)
  end.

(** An entry: the key, a mark, and an exception or a value. A value in the region that is valid
    takes precedence. *)
Definition read_entry (hasKeys : bool) (index : Z) : M unit :=
  l ← get_list;
  key ← (if hasKeys then on_input readKey
         else match m_keys l with
              | Some keys => if index <? 0 then st_throw UndefinedBehaviour else elem_at keys (Z.to_nat index)
              | None => st_throw FatalInternalException
              end);
  set_list (set_resultKeys ((fun keys => keys ++ [key]) <$> m_resultKeys l));;
  byte ← on_input DataInput.read;
  if u8 byte =? 2 then read_exception key
  else
    o ← on_input (readObject to_utf8 user place);
    (if negb (m_region l) then st_throw UndefinedBehaviour else mret tt);;
    oldValue ←
      (if m_addToLocalCache l then
         updateCount ← take_updateCount key;
         '(_, oldValue) ← on_region (rs_putLocal key (pointer o) updateCount (m_destroyTracker l) None);
         mret oldValue
       else on_region (rs_getEntry key));
    let v := if negb (bool_decide (oldValue = None)) && negb (isInvalid oldValue) then oldValue else pointer o in
    l ← get_list;
    match m_values l with Some _ => put_value key v | None => mret tt end.

Definition fromData_plain : M unit :=
  hasKeys ← on_input DataInput.readBoolean;
  len ← on_input DataInput.readInt32;
  when (0 <? len)
    (l ← get_list;
     let keysOffset := s32 (default 0 (m_keysOffset l)) in
     (if 2 ^ 31 <=? keysOffset + len then st_throw UndefinedBehaviour else mret tt);;
     st_iter (fun i => read_entry hasKeys (keysOffset + Z.of_nat i)) (seq 0 (Z.to_nat len));;
     set_list (fun l => set_keysOffset ((fun offset => u32 (offset + len)) <$> m_keysOffset l) l)).

End Reading.
End Lists.
End ObjectPartList.

(** *** The region of a client *)

Section Local.
Context {U M K D A E : Type} `{HM : EntriesMap M K (Serializable.t U) D} (virt : LocalRegion.Virtuals M K (Serializable.t U) A E)
  (to_key : Serializable.t U -> K) (share : MemberListForVersionStamp.t -> M -> M).

(** Keys are what the equality of the application makes of them ([to_key]); [share] is how the
    entries map refers to the members. *)
Definition local_store : RegionStore U (LocalRegion.t M K (Serializable.t U) A) := {|
  rs_members ml r := LocalRegion.with_entries (share ml <$> LocalRegion.m_entries r) r;
  rs_putLocal key v updateCount destroyTracker versionTag :=
    match key with
    | Serializable.nullptr => st_throw UndefinedBehaviour
    | _ =>
      '(err, oldValue, _) ← LocalRegion.putLocal virt false (to_key key) v None true updateCount destroyTracker versionTag None None;
      mret (err, oldValue)
    end;
  rs_getEntry key := LocalRegion.getEntry (match key with Serializable.nullptr => None | _ => Some (to_key key) end) None
|}.
End Local.

(** The list of members that the segments of a map share. *)
Definition share_members {K V} `{Countable K} (ml : MemberListForVersionStamp.t) (m : ConcurrentEntriesMap.t K V) : ConcurrentEntriesMap.t K V :=
  let e := ConcurrentEntriesMap.shared m in
  ConcurrentEntriesMap.mk (ConcurrentEntriesMap.m_concurrency m) (ConcurrentEntriesMap.m_segments m) (ConcurrentEntriesMap.m_size m)
    (ConcurrentEntriesMap.m_cc m) (mkEnv (manager e) ml (m_numDestroyTrackers e)).
