(* ===== verification/ChunkedResults.v ===== *)
(** Results in chunks (src/cppcache/src/TcrChunkedContext.hpp, the [Chunked...Response] classes of
    ThinClientRegion.cpp, the functions of TcrMessage.cpp that process chunks) and the messages that
    a connection receives (TcrConnection.cpp).

    The chunks of a result are handled one after the other, by the thread that reads them or by
    the one that processes chunks; either is a sequence of calls. A handler that throws leaves the
    reply and the result as they were before the chunk: nothing reads the result of a message that
    failed. (Only the type of the reply would be read, if a handler fails behind an exception that
    it has already taken for the reply.) *)
From S2P Require Import Prelude JavaModifiedUtf8 DataOutput DataInput EventId MemberId Versions ExceptionTypes ExpiryTaskManager MapEntry EntriesMap LocalRegion CacheableString ServerLocation CacheableBuiltins TcrMessage TcrReply ObjectParts.
Import TcrReply.

(** [DSFid]. *)
Definition DSFid_CollectionTypeImpl : Z := -59.
Definition DSFid_VersionedObjectPartList : Z := 7.
Definition DSFid_CacheableObjectPartList : Z := 25.

Module Chunked.
Section Responses.
Context `{Allocator} {U G : Type} `{RegionStore U G} (to_utf16 to_utf8 : list Z -> outcome (list Z)) (user : Serializable.UserTypes U)
  (place : forall X, list X -> X -> list X) (syncCounter : Z).
Abbreviation Object_ := (Serializable.t U).
Abbreviation value := (option (Cacheable Object_)).
Abbreviation Message := (TcrReply.t (U := U)).
Abbreviation readObject := (readObject to_utf8 user place).
Abbreviation readKey := (ObjectPartList.readKey to_utf8 user place).

(** A computation on the reply, and on the result [X] beside it. *)
Abbreviation M X := (Reader (Message * X)).
Definition on_reply {X A} (m : R (U := U) A) : M X A := fun '(st, (msg, x)) =>
  match m (st, msg) with Ok (a, (st', msg')) => Ok (a, (st', (msg', x))) | Throw e => Throw e end.
Definition get_result {X} : M X X := snd <$> get.
Definition set_result {X} (f : X -> X) : M X unit := set (fun s => (s.1, f s.2)).

(** The security part of a chunk. *)
Definition secure_part {X} (isLastChunkWithSecurity : Z) : M X unit :=
  on_reply (readSecureObjectPart to_utf8 user place false true isLastChunkWithSecurity).

(** *** Keys: [ChunkedInterestResponse] and [ChunkedKeySetResponse] *)

(** The request, whose fields an exception changes, and the keys. *)
Record Keys := mkKeys { k_request : Message; k_resultKeys : option (list Object_) }.

Definition on_request_msg {A} (m : R (U := U) A) : M Keys A := fun '(st, (msg, x)) =>
  match m (st, k_request x) with
  | Ok (a, (st', request)) => Ok (a, (st', (msg, mkKeys request (k_resultKeys x))))
  | Throw e => Throw e
  end.

Definition keys_reset (x : Keys) : Keys := mkKeys (k_request x) (match k_resultKeys x with Some (_ :: _) => Some [] | o => o end).
Definition keys_handleChunk (isLastChunkWithSecurity : Z) : M Keys unit :=
  '(o, _) ← on_request_msg (readChunkPartHeader to_utf8 user place 0 DSCode.CacheableArrayList isLastChunkWithSecurity);
  match o with
  | OBJECT =>
    keys ← on_input (Serializable.read_elements readKey);
    set_result (fun x => mkKeys (k_request x) (Some (default [] (k_resultKeys x) ++ keys)));;
    secure_part isLastChunkWithSecurity
  | _ => secure_part isLastChunkWithSecurity
  end.

(** *** [ChunkedQueryResponse] *)

Record Query := mkQuery { m_queryResults : list Object_; m_structFieldNames : list (list Z) }.
Definition query_reset (x : Query) : Query := mkQuery [] [].
Definition push_result (o : Object_) : M Query unit := set_result (fun x => mkQuery (m_queryResults x ++ [o]) (m_structFieldNames x)).

Definition skipClass : ST DataInput.t unit :=
  classByte ← DataInput.read;
  if classByte =? DSCode.Class_ then
    DataInput.read;;
    classLen ← DataInput.readInt16;
    DataInput.advanceCursor (u16 classLen)
  else st_throw IllegalStateException.

(** [readObjectPartList]; [element] reads what is not an exception. *)
Definition part_list (element : M Query unit) : M Query unit :=
  hasKeys ← on_input DataInput.readBoolean;
  if hasKeys : bool then st_throw IllegalStateException
  else
    len ← on_input DataInput.readInt32;
    ObjectPartList.for_index len (fun _ =>
      byte ← on_input DataInput.read;
      if byte =? 2 then
        skipLen ← on_input DataInput.readArrayLength;
        on_input (DataInput.advanceCursor skipLen);;
        on_input (DataInput.readString_string to_utf8);;
        st_throw IllegalStateException
      else element).
Definition push_object : M Query unit := o ← on_input readObject; push_result o.
Definition readObjectPartList (isResultSet : bool) : M Query unit :=
  part_list
    (if isResultSet then push_object
     else
       code ← on_input DataInput.read;
       if code =? DSCode.FixedIDByte then
         arrayType ← on_input DataInput.read;
         if negb (arrayType =? DSFid_CacheableObjectPartList) then st_throw MessageException
         else part_list push_object
       else st_throw MessageException).

(** [dynamic_pointer_cast<CacheableInt32>]. *)
Definition int_cast (o : Object_) : Object_ := match o with Serializable.CacheableInt32 _ => o | _ => Serializable.nullptr end.

Definition struct_names : M Query unit :=
  numOfFldNames ← on_input DataInput.readArrayLength;
  x ← get_result;
  names ← on_input (st_repeat (Z.to_nat numOfFldNames) (DataInput.readString_string to_utf8));
  match m_structFieldNames x with
  | [] => set_result (fun x => mkQuery (m_queryResults x) names)
  | _ => mret tt
  end.

Definition query_handleChunk (isLastChunkWithSecurity : Z) : M Query unit :=
  '(objType, partLen) ← on_reply (readChunkPartHeader to_utf8 user place DSCode.FixedIDByte DSFid_CollectionTypeImpl isLastChunkWithSecurity);
  match objType with
  | EXCEPTION => secure_part isLastChunkWithSecurity
  | NULL_OBJECT =>
    on_input DataInput.readInt32;;
    on_input DataInput.read;;
    o ← on_input readObject;
    push_result (int_cast o);;
    secure_part isLastChunkWithSecurity
  | OBJECT =>
    on_input skipClass;;
    on_input DataInput.read;;
    on_input DataInput.read;;
    on_input DataInput.read;;
    isStructTypeImpl ← on_input (DataInput.readString_string to_utf8);
    when (bool_decide (isStructTypeImpl = literal "org.apache.geode.cache.query.Struct")) struct_names;;
    on_input DataInput.reset;;
    on_input (DataInput.advanceCursor (u32 (partLen + 5)));;
    on_input DataInput.readInt32;;
    isObj ← on_input DataInput.read;
    if isObj =? 0 then st_throw MessageException
    else
      x ← get_result;
      let isResultSet := bool_decide (m_structFieldNames x = []) in
      arrayType ← on_input DataInput.read;
      (if arrayType =? DSCode.CacheableObjectArray then
         arraySize ← on_input DataInput.readArrayLength;
         on_input skipClass;;
         ObjectPartList.for_index arraySize (fun _ =>
           if isResultSet then push_object
           else
             on_input DataInput.read;;
             arraySize2 ← on_input DataInput.readArrayLength;
             on_input skipClass;;
             ObjectPartList.for_index arraySize2 (fun _ => push_object))
       else if arrayType =? DSCode.FixedIDByte then
         arrayType ← on_input DataInput.read;
         if negb (arrayType =? DSFid_CacheableObjectPartList) then st_throw MessageException
         else readObjectPartList isResultSet
       else st_throw MessageException);;
      secure_part isLastChunkWithSecurity
  end.

(** *** [ChunkedFunctionExecutionResponse] *)

(** What the collector was given. *)
Inductive FunctionResult := Result_ (o : Object_) | UserException (message : list Z).
Record Function_ := mkFunction { m_getResult : bool; m_rc : option (list FunctionResult) }.

Definition add_result (r : FunctionResult) : M Function_ unit :=
  set_result (fun x => mkFunction (m_getResult x) ((fun l => l ++ [r]) <$> m_rc x)).

(** The bytes of an exception alone, or more parts: signed subtraction in 32 bits. *)
Definition only_part (chunkLen partLen room : Z) : outcome bool :=
  let d := chunkLen - s32 partLen in
  if bool_decide (in_s 32 d) then Ok (d <=? room) else Throw UndefinedBehaviour.

(** Where the value starts, the length of its part, and whether there is one to read. *)
Definition function_exception (chunkLen partLen isLastChunkWithSecurity : Z) : M Function_ (bool * Z * Z) :=
  on_input DataInput.reset;;
  only ← st_lift (only_part chunkLen partLen (if flag isLastChunkWithSecurity 0x02 then 5 + (5 + 8) else 5));
  if only : bool then
    partLen ← on_input DataInput.readInt32;
    on_input (DataInput.advanceCursor 1);;
    on_input (DataInput.advanceCursor (u32 partLen));;
    mret (false, 0, u32 partLen)
  else
    on_input (skipParts 1);;
    partLen ← on_input DataInput.readInt32;
    on_input DataInput.read;;
    startLen ← on_input (st_gets DataInput.getBytesRead);
    on_input DataInput.read;;
    on_input DataInput.readArrayLength;;
    mret (true, startLen, u32 partLen).

(** The text of an exception. *)
Definition text_of (o : Object_) : outcome (list Z) :=
  match o with Serializable.CacheableString _ s | Serializable.CacheableFileName _ s => Ok s | _ => Throw UndefinedBehaviour end.

Definition function_handleChunk (chunkLen isLastChunkWithSecurity : Z) : M Function_ unit :=
  '(arrayType, partLen) ← on_reply (readChunkPartHeader_any to_utf8 user place isLastChunkWithSecurity);
  x ← get_result;
  match arrayType with
  | EXCEPTION => secure_part isLastChunkWithSecurity
  | _ =>
    if negb (m_getResult x) then mret tt
    else
      match arrayType with
      | NULL_OBJECT => secure_part isLastChunkWithSecurity
      | _ =>
        bytesRead ← on_input (st_gets DataInput.getBytesRead);
        on_input DataInput.readArrayLength;;
        partType ← on_input DataInput.read;
        let isExceptionPart := partType =? DSCode_JavaSerializable in
        '(readPart, startLen, partLen) ←
          (if isExceptionPart then function_exception chunkLen partLen isLastChunkWithSecurity
           else on_input (DataInput.rewindCursor 1);; mret (true, bytesRead - 1, partLen));
        v ← (if readPart : bool then
               o ← on_input readObject;
               now ← on_input (st_gets DataInput.getBytesRead);
               on_input (DataInput.advanceCursor (partLen - (now - startLen)));;
               mret o
             else
               let text := literal "Function exception result." in
               mret (Serializable.CacheableString (CacheableString.m_type text) text));
        match m_rc x with
        | None => mret tt
        | Some _ =>
          if isExceptionPart then text ← st_lift (text_of v); add_result (UserException text) else add_result (Result_ v)
        end;;
        secure_part isLastChunkWithSecurity
      end
  end.

(** *** [ChunkedGetAllResponse] *)

Record GetAll := mkGetAll {
  g_region : G;
  g_keys : option (list Object_);
  g_values : option (list (Object_ * value));
  g_exceptions : option (list (Object_ * KeyException));
  g_resultKeys : option (list Object_);
  g_trackerMap : list (Object_ * Z);
  g_destroyTracker : Z;
  g_addToLocalCache : bool;
  g_keysOffset : Z
}.

Definition getAll_reset (x : GetAll) : GetAll :=
  mkGetAll (g_region x) (g_keys x) (g_values x) (g_exceptions x) (match g_resultKeys x with Some (_ :: _) => Some [] | o => o end)
    (g_trackerMap x) (g_destroyTracker x) (g_addToLocalCache x) 0.

(** The list that the chunk is read into, and what it leaves. *)
Definition getAll_list (x : GetAll) (dsmemId : Z) : ObjectPartList.t (U := U) :=
  ObjectPartList.for_values (g_keys x) (Some (g_keysOffset x)) (g_values x) (g_exceptions x) (g_resultKeys x) true (Some (g_trackerMap x))
    (g_destroyTracker x) (g_addToLocalCache x) dsmemId.
Definition getAll_back (l : ObjectPartList.t (U := U)) (g : G) (x : GetAll) : GetAll :=
  mkGetAll g (g_keys x) (ObjectPartList.m_values l) (ObjectPartList.m_exceptions l) (ObjectPartList.m_resultKeys l)
    (default [] (ObjectPartList.m_updateCountMap l)) (g_destroyTracker x) (g_addToLocalCache x) (default 0 (ObjectPartList.m_keysOffset l)).

Definition getAll_fromData (dsmemId : Z) : M GetAll unit := fun '(st, (msg, x)) =>
  match ObjectPartList.fromData to_utf16 to_utf8 user place syncCounter (st, (getAll_list x dsmemId, g_region x)) with
  | Ok (_, (st', (l, g))) => Ok (tt, (st', (msg, getAll_back l g x)))
  | Throw e => Throw e
  end.

Definition getAll_handleChunk (dsmemId isLastChunkWithSecurity : Z) : M GetAll unit :=
  '(o, _) ← on_reply (readChunkPartHeader to_utf8 user place DSCode.FixedIDByte DSFid_VersionedObjectPartList isLastChunkWithSecurity);
  match o with
  | OBJECT =>
    getAll_fromData dsmemId;;
    secure_part isLastChunkWithSecurity
  | _ => secure_part isLastChunkWithSecurity
  end.

(** [add]: the maps are shared by the results that are added up. *)
Definition getAll_add (other x : GetAll) : outcome GetAll :=
  exceptions ← (match g_exceptions x, g_exceptions other with
                | None, _ => Ok None
                | Some _, None => Throw UndefinedBehaviour
                | Some l, Some l' => Some <$> foldl (fun acc kv => a ← acc; Serializable.emplace user place fst kv a) (Ok l) l'
                end);
  trackers ← foldl (fun acc kv => a ← acc; ObjectPartList.assign_key user place kv.1 kv.2 a) (Ok (g_trackerMap x)) (g_trackerMap other);
  resultKeys ← (match g_resultKeys x, g_resultKeys other with
                | None, _ => Ok None
                | Some _, None => Throw UndefinedBehaviour
                | Some l, Some l' => Ok (Some (l ++ l'))
                end);
  Ok (mkGetAll (g_region x) (g_keys x) (g_values x) exceptions resultKeys trackers (g_destroyTracker x) (g_addToLocalCache x) (g_keysOffset x)).

(** *** [ChunkedPutAllResponse] and [ChunkedRemoveAllResponse] *)

(** The region, whether it is one that talks to servers, the list of versions, whether the pool has
    a metadata service with single hop, and the refreshes that were asked for. *)
Record PutAll := mkPutAll {
  p_region : G;
  p_isRemote : bool;
  p_list : ObjectPartList.t (U := U);
  p_singleHop : bool;
  p_refreshes : list Z
}.

Definition putAll_reset (x : PutAll) : outcome PutAll :=
  n ← ObjectPartList.size (p_list x);
  Ok (if 0 <? n then mkPutAll (p_region x) (p_isRemote x) (ObjectPartList.set_versionTags [] (p_list x)) (p_singleHop x) (p_refreshes x) else x).

Definition putAll_fromData (dsmemId : Z) : M PutAll unit := fun '(st, (msg, x)) =>
  match ObjectPartList.fromData to_utf16 to_utf8 user place syncCounter (st, (ObjectPartList.for_region (p_isRemote x) dsmemId, p_region x)) with
  | Ok (_, (st', (l, g))) =>
    Ok (tt, (st', (msg, mkPutAll g (p_isRemote x) (ObjectPartList.addAll l (p_list x)) (p_singleHop x) (p_refreshes x))))
  | Throw e => Throw e
  end.

Definition putAll_handleChunk (dsmemId isLastChunkWithSecurity : Z) : M PutAll unit :=
  '(chunkType, _) ← on_reply (readChunkPartHeader to_utf8 user place DSCode.FixedIDByte DSFid_VersionedObjectPartList isLastChunkWithSecurity);
  match chunkType with
  | NULL_OBJECT => secure_part isLastChunkWithSecurity
  | OBJECT =>
    putAll_fromData dsmemId;;
    secure_part isLastChunkWithSecurity
  | EXCEPTION =>
    byte0 ← on_input DataInput.read;
    byte1 ← on_input DataInput.read;
    secure_part isLastChunkWithSecurity;;
    set_result (fun x => if p_singleHop x && negb (byte0 =? 0)
                         then mkPutAll (p_region x) (p_isRemote x) (p_list x) (p_singleHop x) (p_refreshes x ++ [byte1]) else x)
  end.

(** *** [ChunkedDurableCQListResponse] *)

Definition durable_reset (l : list Object_) : list Object_ := [].
Definition durable_handleChunk : M (list Object_) unit :=
  on_input DataInput.readInt32;;
  isObj ← on_input DataInput.readBoolean;
  if negb isObj then st_throw MessageException
  else
    on_input (DataInput.advanceCursor 1);;
    stringParts ← on_input DataInput.read;
    ObjectPartList.for_index stringParts (fun _ => o ← on_input readObject; set_result (fun l => l ++ [Serializable.string_cast o])).
End Responses.
End Chunked.

(** ** The processing of chunks *)

Module ChunkProcessing.

(** What a result does with a chunk of a length, with the member of the endpoint and the flags of
    the chunk, and how it starts over. *)
Class ChunkedResult (U X : Type) := {
  cr_handleChunk : list Z -> Z -> Z -> Z -> ST (MemberListForVersionStamp.t * (TcrReply.t (U := U) * X)) unit;
  cr_reset : X -> outcome X
}.

Section Processing.
Context `{Allocator} {U X : Type} `{ChunkedResult U X} (to_utf16 to_utf8 : list Z -> outcome (list Z)) (user : Serializable.UserTypes U)
  (place : forall X, list X -> X -> list X).
Abbreviation Message := (TcrReply.t (U := U)).

(** [TcrChunkedResult]; the semaphore is free or taken. *)
Record Result := mkResult {
  finalize_semaphore_ : option bool;
  m_ex : option exn;
  m_inSameThread : bool;
  m_dsmemId : Z;
  contents : X
}.
Definition new_result (x : X) : Result := mkResult None None false 0 x.
Definition setFinalizeSemaphore (r : Result) : Result := mkResult (Some false) (m_ex r) (m_inSameThread r) (m_dsmemId r) (contents r).
Definition setEndpointMemId (memId : Z) (r : Result) : Result := mkResult (finalize_semaphore_ r) (m_ex r) (m_inSameThread r) memId (contents r).
Definition setException (e : option exn) (r : Result) : Result := mkResult (finalize_semaphore_ r) e (m_inSameThread r) (m_dsmemId r) (contents r).
Definition finalize (inSamethread : bool) (r : Result) : outcome Result :=
  if inSamethread then Ok (mkResult (finalize_semaphore_ r) (m_ex r) true (m_dsmemId r) (contents r))
  else match finalize_semaphore_ r with
       | Some _ => Ok (mkResult (Some true) (m_ex r) (m_inSameThread r) (m_dsmemId r) (contents r))
       | None => Throw NullPointerException
       end.
(** Waiting for a semaphore that nobody releases does not end. *)
Definition waitFinalize (r : Result) : outcome Result :=
  if m_inSameThread r then Ok r
  else match finalize_semaphore_ r with
       | Some true => Ok (mkResult (Some false) (m_ex r) (m_inSameThread r) (m_dsmemId r) (contents r))
       | Some false => Throw Diverges
       | None => Throw NullPointerException
       end.

(** The members, the reply, its result, and the message that is kept for the thread. *)
Definition State : Type := MemberListForVersionStamp.t * (Message * option Result * list Z).
Definition get_message : ST State Message := st_gets (fun s => s.2.1.1).
Definition set_message (f : Message -> Message) : ST State unit := st_modify (fun s => (s.1, (f s.2.1.1, s.2.1.2, s.2.2))).
Definition get_chunked : ST State (option Result) := st_gets (fun s => s.2.1.2).
Definition set_chunked (r : Result) : ST State unit := st_modify (fun s => (s.1, (s.2.1.1, Some r, s.2.2))).

(** A reader on the bytes of a chunk. *)
Definition on_chunk {A} (chunk : list Z) (len : Z) (m : R (U := U) A) : ST State A := fun '(ml, (msg, r, text)) =>
  match m (DataInput.construct chunk len, ml, msg) with
  | Ok (a, (_, ml', msg')) => Ok (a, (ml', (msg', r, text)))
  | Throw e => Throw e
  end.

(** What is caught: exceptions of the library are copied as the base class, others become
    [UnknownException]. Undefined behaviour and the end of the
    program are not exceptions. *)
Definition is_std (e : exn) : bool :=
  match e with BadWeakPtr | BadCast | StdLengthError | StdInvalidArgument | StdOutOfRange | StdBadAlloc => true | _ => false end.
Definition caught (e : exn) : option exn :=
  match e with UndefinedBehaviour | Diverges | Terminated => None | _ => Some (if is_std e then UnknownException else BaseException) end.

(** [TcrChunkedContext::handleChunk]. *)
Definition context_handleChunk (chunk : list Z) (len isLastChunkWithSecurity : Z) (inSameThread : bool) : ST State unit := fun '(ml, (msg, r, text)) =>
  match r with
  | None => Throw UndefinedBehaviour
  | Some r =>
    match chunk with
    | [] => match finalize inSameThread r with Ok r' => Ok (tt, (ml, (msg, Some r', text))) | Throw e => Throw e end
    | _ =>
      match m_ex r with
      | Some _ => Ok (tt, (ml, (msg, Some r, text)))
      | None =>
        match cr_handleChunk chunk len (m_dsmemId r) isLastChunkWithSecurity (ml, (msg, contents r)) with
        | Ok (_, (ml', (msg', x))) =>
          Ok (tt, (ml', (msg', Some (mkResult (finalize_semaphore_ r) (m_ex r) (m_inSameThread r) (m_dsmemId r) x), text)))
        | Throw e =>
          match caught e with
          | Some e' => Ok (tt, (ml, (msg, Some (setException (Some e') r), text)))
          | None => Throw e
          end
        end
      end
    end
  end.

(** [queueChunk]: the queue of the other thread, which handles it before the end is awaited, or the
    same thread. *)
Definition queueChunk (threaded : bool) (chunk : list Z) (len isLastChunkWithSecurity : Z) : ST State unit :=
  context_handleChunk chunk len isLastChunkWithSecurity (negb threaded).

(** *** [TcrMessage] *)

Definition cq_requests : list Z :=
  [MsgType.EXECUTECQ_MSG_TYPE; MsgType.STOPCQ_MSG_TYPE; MsgType.CLOSECQ_MSG_TYPE; MsgType.CLOSECLIENTCQS_MSG_TYPE;
   MsgType.GETCQSTATS_MSG_TYPE; MsgType.MONITORCQ_MSG_TYPE].

Definition startProcessChunk : ST State unit :=
  m ← get_message;
  if bool_decide (m_msgTypeRequest m ∈ cq_requests) then mret tt
  else
    r ← get_chunked;
    match r with
    | None => st_throw FatalInternalException
    | Some r =>
      if bool_decide (m_msgTypeRequest m ∈
           [MsgType.REGISTER_INTEREST; MsgType.REGISTER_INTEREST_LIST; MsgType.QUERY; MsgType.QUERY_WITH_PARAMETERS;
            MsgType.EXECUTE_FUNCTION; MsgType.EXECUTE_REGION_FUNCTION; MsgType.EXECUTE_REGION_FUNCTION_SINGLE_HOP;
            MsgType.EXECUTECQ_WITH_IR_MSG_TYPE; MsgType.GETDURABLECQS_MSG_TYPE; MsgType.KEY_SET; MsgType.GET_ALL_70;
            MsgType.GET_ALL_WITH_CALLBACK; MsgType.PUTALL; MsgType.PUT_ALL_WITH_CALLBACK; MsgType.REMOVE_ALL])
      then
        x ← st_lift (cr_reset (contents r));
        set_chunked (setFinalizeSemaphore (mkResult (finalize_semaphore_ r) (m_ex r) (m_inSameThread r) (m_dsmemId r) x))
      else st_throw IllegalStateException
    end.

Definition handleSpecialFECase : ST State unit :=
  m ← get_message;
  let flags := m_isLastChunkAndisSecurityHeader m in
  if flag flags 0x01 && negb (flag flags 0x04) then set_message (set_feAnotherHop true) else mret tt.

Definition chunkSecurityHeader (skipPart : Z) (bytes : list Z) (len isLastChunkAndSecurityHeader : Z) : ST State unit :=
  if Z.land isLastChunkAndSecurityHeader 0x3 =? 0x3 then
    on_chunk bytes len
      (on_input (skipParts skipPart);; readSecureObjectPart to_utf8 user place false true isLastChunkAndSecurityHeader)
  else mret tt.

(** The chunk goes to the result; behind the last one, an exception of any chunk is thrown. *)
Definition pass_chunk (threaded : bool) (chunk : list Z) (len endpointmemId flags : Z) : ST State unit :=
  r ← get_chunked;
  match r with
  | None => st_throw UndefinedBehaviour
  | Some r =>
    set_chunked (setEndpointMemId endpointmemId r);;
    queueChunk threaded chunk len flags;;
    match chunk with
    | [] =>
      r ← get_chunked;
      match r with
      | None => st_throw UndefinedBehaviour
      | Some r =>
        r ← st_lift (waitFinalize r);
        set_chunked r;;
        match m_ex r with Some _ => st_throw BaseException | None => mret tt end
      end
    | _ => mret tt
    end
  end.

(** A result if there is one; otherwise the security part of some errors. *)
Definition pass_or_skip (threaded : bool) (chunk : list Z) (len endpointmemId flags : Z) : ST State unit :=
  m ← get_message;
  r ← get_chunked;
  match r with
  | Some _ => pass_chunk threaded chunk len endpointmemId flags
  | None =>
    if bool_decide (m_msgType m ∈ [MsgType.CQ_EXCEPTION_TYPE; MsgType.CQDATAERROR_MSG_TYPE; MsgType.GET_ALL_DATA_ERROR])
       && negb (bool_decide (chunk = []))
    then chunkSecurityHeader 1 chunk len flags else mret tt
  end.

(** [setThreadLocalExceptionMessage] of the text without leading spaces. *)
Definition keep_error (chunk : list Z) (len : Z) : ST State unit :=
  errorString ← on_chunk chunk len (on_input (readStringPart to_utf8));
  match errorString with
  | [] => mret tt
  | _ => st_modify (fun s => (s.1, (s.2.1, skip_space errorString)))
  end.

Definition processChunk (threaded : bool) (chunk : list Z) (len endpointmemId flags : Z) : ST State unit :=
  set_message (set_isLastChunk flags);;
  handleSpecialFECase;;
  m ← get_message;
  match m_tcdm m with
  | None => st_throw FatalInternalException
  | Some _ =>
    let isType l := bool_decide (m_msgType m ∈ l) in
    let nonempty := negb (bool_decide (chunk = [])) in
    if isType [MsgType.REPLY] then chunkSecurityHeader 1 chunk len flags
    else if isType [MsgType.RESPONSE] then
      if bool_decide (m_msgTypeRequest m ∈ cq_requests) then mret tt
      else if bool_decide (m_msgTypeRequest m ∈ [MsgType.PUTALL; MsgType.PUT_ALL_WITH_CALLBACK]) then pass_chunk threaded chunk len endpointmemId flags
      else pass_or_skip threaded chunk len endpointmemId flags
    else if isType [MsgType.EXECUTE_REGION_FUNCTION_RESULT; MsgType.EXECUTE_FUNCTION_RESULT; MsgType.CQDATAERROR_MSG_TYPE;
                    MsgType.CQ_EXCEPTION_TYPE; MsgType.RESPONSE_FROM_PRIMARY] then pass_or_skip threaded chunk len endpointmemId flags
    else if isType [MsgType.REGISTER_INTEREST_DATA_ERROR; MsgType.EXECUTE_FUNCTION_ERROR; MsgType.EXECUTE_REGION_FUNCTION_ERROR] then
      if nonempty then chunkSecurityHeader 1 chunk len flags else mret tt
    else if isType [MsgType.EXCEPTION] then
      if nonempty then
        on_chunk chunk len
          (readExceptionPart to_utf8 user place flags true;; readSecureObjectPart to_utf8 user place false true flags)
      else mret tt
    else if isType [MsgType.RESPONSE_FROM_SECONDARY; MsgType.GET_ALL_DATA_ERROR] then chunkSecurityHeader 1 chunk len flags
    else if isType [MsgType.PUT_DATA_ERROR] then
      chunkSecurityHeader 1 chunk len flags;;
      if nonempty then keep_error chunk len else mret tt
    else if nonempty then mret tt
    else st_throw MessageException
  end.

End Processing.

(** *** The results *)

Section Results.
Context `{Allocator} {U G : Type} `{RegionStore U G} (to_utf16 to_utf8 : list Z -> outcome (list Z)) (user : Serializable.UserTypes U)
  (place : forall X, list X -> X -> list X) (syncCounter : Z).

(** [createDataInput] on the bytes of a chunk. *)
Definition with_input {X} (chunk : list Z) (len : Z) (m : Reader (TcrReply.t (U := U) * X) unit) :
    ST (MemberListForVersionStamp.t * (TcrReply.t (U := U) * X)) unit := fun '(ml, s) =>
  match m (DataInput.construct chunk len, ml, s) with Ok (_, (_, ml', s')) => Ok (tt, (ml', s')) | Throw e => Throw e end.

Definition keys_result : ChunkedResult U (Chunked.Keys (U := U)) := {|
  cr_handleChunk chunk len dsmemId flags := with_input chunk len (Chunked.keys_handleChunk to_utf8 user place flags);
  cr_reset x := Ok (Chunked.keys_reset x) |}.
Definition query_result : ChunkedResult U (Chunked.Query (U := U)) := {|
  cr_handleChunk chunk len dsmemId flags := with_input chunk len (Chunked.query_handleChunk to_utf8 user place flags);
  cr_reset x := Ok (Chunked.query_reset x) |}.
Definition function_result : ChunkedResult U (Chunked.Function_ (U := U)) := {|
  cr_handleChunk chunk len dsmemId flags := with_input chunk len (Chunked.function_handleChunk to_utf8 user place len flags);
  cr_reset := Ok |}.
Definition getAll_result : ChunkedResult U (Chunked.GetAll (U := U) (G := G)) := {|
  cr_handleChunk chunk len dsmemId flags :=
    with_input chunk len (Chunked.getAll_handleChunk to_utf16 to_utf8 user place syncCounter dsmemId flags);
  cr_reset x := Ok (Chunked.getAll_reset x) |}.
Definition putAll_result : ChunkedResult U (Chunked.PutAll (U := U) (G := G)) := {|
  cr_handleChunk chunk len dsmemId flags :=
    with_input chunk len (Chunked.putAll_handleChunk to_utf16 to_utf8 user place syncCounter dsmemId flags);
  cr_reset := Chunked.putAll_reset |}.
Definition durable_result : ChunkedResult U (list (Serializable.t U)) := {|
  cr_handleChunk chunk len dsmemId flags := with_input chunk len (Chunked.durable_handleChunk to_utf8 user place);
  cr_reset x := Ok (Chunked.durable_reset x) |}.
End Results.
End ChunkProcessing.

(** ** Messages on a connection *)

Module TcrConnection.

Inductive ConnErrType := CONN_NOERR | CONN_NODATA | CONN_TIMEOUT | CONN_IOERR | CONN_OTHERERR.
#[export] Instance ConnErrType_eq_dec : EqDecision ConnErrType.
Proof. solve_decision. Defined.
Definition code (e : ConnErrType) : Z :=
  match e with CONN_NOERR => 0x0 | CONN_NODATA => 0x1 | CONN_TIMEOUT => 0x3 | CONN_IOERR => 0x4 | CONN_OTHERERR => 0x8 end.

(** The bytes that arrive, and what the socket says when more are asked for. *)
Record Conn := mkConn { incoming : list Z; ends_with : ConnErrType }.

Definition HEADER_LENGTH : Z := 17.
Definition CHUNK_HEADER_LENGTH : Z := 5.
Definition LAST_CHUNK_MASK : Z := 0x1.

(** [receiveData] of [length] bytes; a partial read is lost. A socket that is asked for no bytes reads
    none, and that counts as a broken pipe. *)
Definition receiveData (length_ : Z) : ST Conn (list Z + ConnErrType) := fun c =>
  if length_ =? 0 then Ok (inr CONN_IOERR, c)
  else if Z.of_nat (length (incoming c)) <? length_ then Ok (inr (ends_with c), mkConn [] (ends_with c))
  else Ok (inl (take (Z.to_nat length_) (incoming c)), mkConn (drop (Z.to_nat length_) (incoming c)) (ends_with c)).

(** Times in microseconds: when sending starts and ends. *)
Definition sendWithTimeouts (sendErr : ConnErrType) (start finish receiveTimeout : Z) : outcome Z :=
  match sendErr with
  | CONN_NOERR =>
    let timeSpent := start - finish in
    if receiveTimeout <=? timeSpent then Throw TimeoutException else Ok timeSpent
  | CONN_TIMEOUT => Throw TimeoutException
  | _ => Throw GeodeIOException
  end.

(** [error & CONN_TIMEOUT]. *)
Definition is_timeout (e : ConnErrType) : bool := flag (code e) (code CONN_TIMEOUT).
Definition receive_or_throw (length_ : Z) : ST Conn (list Z) :=
  r ← receiveData length_;
  match r with
  | inl bytes => mret bytes
  | inr e => st_throw (if is_timeout e then TimeoutException else GeodeIOException)
  end.

(** A reader of the bytes of a header. *)
Definition in_header {A} (bytes : list Z) (m : ST DataInput.t A) : ST Conn A :=
  match m (DataInput.construct bytes (Z.of_nat (length bytes))) with Ok (a, _) => mret a | Throw e => st_throw e end.

(** *** Messages in one piece *)

(** [readMessage]: the message, nothing with an error for a notification, or an exception. *)
Definition readMessage (isNotificationMessage : bool) (request : Z) : ST Conn (option (list Z) * ConnErrType) :=
  header ← receiveData HEADER_LENGTH;
  match header with
  | inr error =>
    if bool_decide (error = CONN_NODATA) || (bool_decide (error = CONN_TIMEOUT) && negb isNotificationMessage) then
      if isNotificationMessage then mret (None, CONN_NOERR) else st_throw TimeoutException
    else if isNotificationMessage then mret (None, CONN_IOERR)
    else st_throw GeodeIOException
  | inl msg_header =>
    msgLen ← in_header msg_header (DataInput.readInt32;; DataInput.readInt32);
    if 2 ^ 31 <=? HEADER_LENGTH + msgLen then st_throw UndefinedBehaviour
    else if HEADER_LENGTH + msgLen <? 0 then st_throw OutOfMemoryException
    else if msgLen <? 0 then st_throw UndefinedBehaviour
    else if (msgLen =? 0) && (request =? MsgType.GET_CLIENT_PR_METADATA) then mret (Some msg_header, CONN_NOERR)
    else
      body ← receiveData msgLen;
      match body with
      | inl bytes => mret (Some (msg_header ++ bytes), CONN_NOERR)
      | inr error =>
        if is_timeout error && negb isNotificationMessage then st_throw TimeoutException
        else if isNotificationMessage then mret (None, CONN_IOERR)
        else st_throw GeodeIOException
      end
  end.

(** *** Messages in chunks *)

Record chunkHeader := mkChunkHeader { chunkLength : Z; flags_ : Z }.
Record chunkedResponseHeader := mkResponseHeader { messageType : Z; numberOfParts : Z; transactionId : Z; header_ : chunkHeader }.

Definition readResponseHeader : ST Conn chunkedResponseHeader :=
  bytes ← receive_or_throw HEADER_LENGTH;
  in_header bytes
    (messageType ← DataInput.readInt32;
     numberOfParts ← DataInput.readInt32;
     transactionId ← DataInput.readInt32;
     chunkLength ← DataInput.readInt32;
     flags ← DataInput.read;
     mret (mkResponseHeader messageType numberOfParts transactionId (mkChunkHeader chunkLength flags))).

Definition readChunkHeader : ST Conn chunkHeader :=
  bytes ← receive_or_throw CHUNK_HEADER_LENGTH;
  in_header bytes (chunkLength ← DataInput.readInt32; flags ← DataInput.read; mret (mkChunkHeader chunkLength flags)).

(** A vector of a negative length is too long. *)
Definition readChunkBody (chunkLength : Z) : ST Conn (list Z) :=
  if chunkLength <? 0 then st_throw StdLengthError else receive_or_throw chunkLength.

Section Chunks.
Context `{Allocator} {U X : Type} `{ChunkProcessing.ChunkedResult U X} (to_utf8 : list Z -> outcome (list Z)) (user : Serializable.UserTypes U)
  (place : forall X, list X -> X -> list X) (threaded : bool) (memberId : Z).
Abbreviation State := (ChunkProcessing.State (U := U) (X := X)).
Abbreviation M := (ST (Conn * State)).

Definition on_state {A} (m : ST State A) : M A := fun '(c, s) =>
  match m s with Ok (a, s') => Ok (a, (c, s')) | Throw e => Throw e end.

(** Whether there are more chunks. *)
Definition processChunk (h : chunkHeader) : M bool :=
  chunkBody ← st_first (readChunkBody (chunkLength h));
  on_state (ChunkProcessing.processChunk to_utf8 user place threaded chunkBody (chunkLength h) memberId (u8 (flags_ h)));;
  mret (negb (flag (flags_ h) LAST_CHUNK_MASK)).

(** The loop, and the exception that leaves it, if any, with the state before the call that threw:
    what that call has changed is not read by the end of the processing. Each round but the first
    consumes a header. *)
Definition attempt {A} (m : M A) (ok : A -> M (option exn)) : M (option exn) := fun s =>
  match m s with
  | Ok (a, s') => ok a s'
  | Throw x => match ChunkProcessing.caught x with Some _ => Ok (Some x, s) | None => Throw x end
  end.
Fixpoint chunks_loop (fuel : nat) (h : chunkHeader) : M (option exn) :=
  match fuel with
  | O => st_throw Diverges
  | S fuel =>
    attempt (processChunk h) (fun more =>
      if more : bool then attempt (st_first readChunkHeader) (chunks_loop fuel) else mret None)
  end.

(** [FinalizeProcessChunk]: an empty chunk. *)
Definition end_processing : M unit := on_state (ChunkProcessing.processChunk to_utf8 user place threaded [] 0 memberId 0).

(** The exceptions of the library make the loop forget the exception of an earlier chunk. *)
Definition clear_exception (x : exn) : ST State unit :=
  r ← ChunkProcessing.get_chunked;
  match r with
  | Some r => if ChunkProcessing.is_std x then mret tt else ChunkProcessing.set_chunked (ChunkProcessing.setException None r)
  | None => mret tt
  end.
(** An exception leaves the function: a second one, of the end of the processing, ends the program. *)
Definition leave_with (x : exn) : M unit := fun s =>
  match (on_state (clear_exception x);; end_processing) s with
  | Ok _ => Throw x
  | Throw y => match ChunkProcessing.caught y with Some _ => Throw Terminated | None => Throw y end
  end.

Definition readMessageChunked : M unit :=
  response ← st_first readResponseHeader;
  on_state (ChunkProcessing.set_message (fun m => set_txId (transactionId response) (set_msgType (messageType response) m)));;
  on_state ChunkProcessing.startProcessChunk;;
  c ← st_get;
  x ← chunks_loop (S (length (incoming c.1))) (header_ response);
  match x with None => end_processing | Some x => leave_with x end.
End Chunks.
End TcrConnection.
