(* ===== verification/ChunkFacts.v ===== *)
(** Results in chunks: how they come in on a connection, and what a list of objects leaves in a
    result and in the region. *)
From S2P Require Import Prelude JavaModifiedUtf8 DataOutput DataOutputFacts DataInput DataInputFacts Utf8Strings EventId MemberId Versions MapEntry CacheableString ServerLocation CacheableBuiltins BuiltinsFacts TcrMessage MessageFacts MessageParts VersionWire TcrReply ReplyFacts Notifications ExceptionTypes ObjectParts ChunkedResults.
Import TcrReply.
#[local] Arguments be_bytes : simpl never.
Local Open Scope Z_scope.

(** *** Chunks on a connection *)

(** A chunk: its bytes and flags. *)
Definition chunk : Type := list Z * Z.
Definition enc_chunk (c : chunk) : list Z := be_bytes 4 (u32 (Z.of_nat (length c.1))) ++ [u8 c.2] ++ c.1.
Definition enc_response (type parts tx : Z) (chunks : list chunk) : list Z :=
  be_bytes 4 (u32 type) ++ be_bytes 4 (u32 parts) ++ be_bytes 4 (u32 tx) ++ (chunks ≫= enc_chunk).

(** The chunks of a message: none is empty, and the last one is marked as such. *)
Definition chunk_ok (last : bool) (c : chunk) : Prop := c.1 <> [] /\ short c.1 /\ in_s 8 c.2 /\ flag c.2 0x1 = last.
Fixpoint chunks_ok (chunks : list chunk) : Prop :=
  match chunks with
  | [] => False
  | [c] => chunk_ok true c
  | c :: chunks => chunk_ok false c /\ chunks_ok chunks
  end.

Lemma chunks_ok_head c chunks : chunks_ok (c :: chunks) -> short c.1 /\ in_s 8 c.2.
Proof. destruct chunks; cbn; unfold chunk_ok; tauto. Qed.

Lemma chunks_ok_short chunks : chunks_ok chunks -> Forall (fun c : chunk => short c.1) chunks.
Proof.
  induction chunks as [|c chunks IH]; [done|]. intros Hok. constructor; [by eapply chunks_ok_head|]. destruct chunks; [done|]. apply IH. apply Hok.
Qed.

Section Stream.
Context `{Allocator} {U X : Type} `{ChunkProcessing.ChunkedResult U X} (to_utf8 : list Z -> outcome (list Z)) (user : Serializable.UserTypes U)
  (place : forall X, list X -> X -> list X) (threaded : bool) (memberId : Z).
Import TcrConnection.

(** What is done with a message: its chunks are processed in order, up to the first exception, then
    its end; an exception of the end behind another one ends the program. *)
Definition process_chunk (c : chunk) : ST (ChunkProcessing.State (U := U) (X := X)) unit :=
  ChunkProcessing.processChunk to_utf8 user place threaded c.1 (Z.of_nat (length c.1)) memberId (u8 c.2).
Fixpoint process_chunks (chunks : list chunk) : ST (ChunkProcessing.State (U := U) (X := X)) (option exn) :=
  match chunks with
  | [] => mret None
  | c :: chunks => fun s =>
    match process_chunk c s with
    | Ok (_, s') => process_chunks chunks s'
    | Throw x => match ChunkProcessing.caught x with Some _ => Ok (Some x, s) | None => Throw x end
    end
  end.
Lemma process_chunks_ok chunks s s' : st_iter process_chunk chunks s = Ok (tt, s') -> process_chunks chunks s = Ok (None, s').
Proof.
  revert s. induction chunks as [|c chunks IH]; intros s; cbn [st_iter process_chunks]; [by intros [= <-]|]. unfold mbind, ST_bind.
  destruct (process_chunk c s) as [[[] s1]|x]; [apply IH|done].
Qed.
Abbreviation end_chunk := (ChunkProcessing.processChunk to_utf8 user place threaded [] 0 memberId 0).
Definition leave (x : exn) (s : ChunkProcessing.State (U := U) (X := X)) : exn :=
  match (clear_exception x;; end_chunk) s with
  | Ok _ => x
  | Throw y => match ChunkProcessing.caught y with Some _ => Terminated | None => y end
  end.
Definition finish (x : option exn) : ST (ChunkProcessing.State (U := U) (X := X)) unit :=
  match x with None => end_chunk | Some x => fun s => Throw (leave x s) end.
Definition begin_message (type tx : Z) : ST (ChunkProcessing.State (U := U) (X := X)) unit :=
  ChunkProcessing.set_message (fun m => set_txId tx (set_msgType type m));; ChunkProcessing.startProcessChunk.
Definition process_message (type tx : Z) (chunks : list chunk) : ST (ChunkProcessing.State (U := U) (X := X)) unit :=
  begin_message type tx;;
  process_chunks chunks ≫= finish.

Lemma receive_exact l rest e : l <> [] -> receiveData (Z.of_nat (length l)) (mkConn (l ++ rest) e) = Ok (inl l, mkConn rest e).
Proof.
  intros Hl. assert (length l <> 0)%nat by (by rewrite length_zero_iff_nil). unfold receiveData. cbn [incoming ends_with].
  destruct (Z.eqb_spec (Z.of_nat (length l)) 0); [lia|]. destruct (Z.ltb_spec (Z.of_nat (length (l ++ rest))) (Z.of_nat (length l))) as [Hlt|_];
    [rewrite length_app in Hlt; lia|]. by rewrite Nat2Z.id, take_app_length, drop_app_length.
Qed.
Lemma receive_or_throw_exact n l rest e : Z.of_nat (length l) = n -> 0 < n -> receive_or_throw n (mkConn (l ++ rest) e) = Ok (l, mkConn rest e).
Proof.
  intros <- Hn. assert (Hl : l <> []) by (by intros ->). unfold receive_or_throw. by rewrite (st_bind_ok _ _ _ _ _ (receive_exact l rest e Hl)).
Qed.

(** A header that fills its bytes is read. *)
Lemma in_header_ok {A} (m : ST DataInput.t A) l a c : reads m l a -> Z.of_nat (length l) < 2 ^ 62 -> in_header l m c = Ok (a, c).
Proof.
  intros Hm Hl. unfold in_header. change (DataInput.construct l (Z.of_nat (length l))) with (at_ [] l).
  pose proof (Hm [] []) as Hr. rewrite !app_nil_r in Hr. by rewrite Hr.
Qed.

Lemma reads_chunkHeader (body : list Z) flags : short body -> in_s 8 flags ->
  reads (chunkLength ← DataInput.readInt32; flags ← DataInput.read; mret (mkChunkHeader chunkLength flags))
    (be_bytes 4 (u32 (Z.of_nat (length body))) ++ [u8 flags]) (mkChunkHeader (Z.of_nat (length body)) flags).
Proof.
  intros Hs Hf. eapply reads_bind; [apply reads_int; unfold in_s, short in *; lia|]. apply (reads_map _ (mkChunkHeader _)). by apply reads_byte.
Qed.

Definition header_bytes (c : chunk) : list Z := be_bytes 4 (u32 (Z.of_nat (length c.1))) ++ [u8 c.2].
Lemma enc_chunk_eq c : enc_chunk c = header_bytes c ++ c.1.
Proof. unfold enc_chunk, header_bytes. by rewrite <- app_assoc. Qed.
Lemma length_header c : length (header_bytes c) = 5%nat.
Proof. unfold header_bytes. by rewrite length_app, length_be_bytes. Qed.
Lemma chunkHeader_read (c : chunk) rest e : short c.1 -> in_s 8 c.2 ->
  readChunkHeader (mkConn (header_bytes c ++ rest) e) = Ok (mkChunkHeader (Z.of_nat (length c.1)) c.2, mkConn rest e).
Proof.
  intros Hs Hf. unfold readChunkHeader.
  refine (eq_trans (st_bind_ok _ _ _ _ _ (receive_or_throw_exact _ _ _ _ _ _)) _); [by rewrite length_header|done|].
  apply in_header_ok; [exact (reads_chunkHeader c.1 c.2 Hs Hf)|]. rewrite length_header. lia.
Qed.

Lemma bind_run {S A B} (m : ST S A) (f : A -> ST S B) s : (m ≫= f) s = match m s with Ok (a, s') => f a s' | Throw x => Throw x end.
Proof. done. Qed.
Lemma on_state_run {A B} (m : ST (ChunkProcessing.State (U := U) (X := X)) A) (f : A -> ST _ B) c s :
  (on_state m ≫= f) (c, s) = match m s with Ok (a, s') => f a (c, s') | Throw x => Throw x end.
Proof. unfold mbind, ST_bind, on_state. by destruct (m s) as [[a s']|x]. Qed.
Lemma st_first_ok {S T A} (m : ST S A) s (t : T) a s' : m s = Ok (a, s') -> st_first m (s, t) = Ok (a, (s', t)).
Proof. intros E. unfold st_first. cbn [fst snd]. by rewrite E. Qed.

(** One chunk: its body is received and processed. *)
Lemma processChunk_read (c : chunk) last rest e s : chunk_ok last c ->
  processChunk to_utf8 user place threaded memberId (mkChunkHeader (Z.of_nat (length c.1)) c.2) (mkConn (c.1 ++ rest) e, s) =
    match process_chunk c s with Ok (_, s') => Ok (negb last, (mkConn rest e, s')) | Throw x => Throw x end.
Proof.
  intros (Hne & Hs & Hf & Hl). unfold processChunk. cbn [chunkLength flags_].
  refine (eq_trans (st_bind_ok _ _ _ _ _ (st_first_ok _ _ _ _ _ _)) _).
  { unfold readChunkBody. destruct (Z.ltb_spec (Z.of_nat (length c.1)) 0); [lia|].
    apply receive_or_throw_exact; [done|]. assert (length c.1 <> 0)%nat by (by rewrite length_zero_iff_nil). lia. }
  unfold on_state, mbind, ST_bind. unfold process_chunk. destruct (ChunkProcessing.processChunk _ _ _ _ _ _ _ _ s) as [[[] s']|x]; [|done].
  unfold LAST_CHUNK_MASK. by rewrite Hl.
Qed.

Lemma leave_run x c s : leave_with to_utf8 user place threaded memberId x (c, s) = Throw (leave x s).
Proof.
  unfold leave_with, leave, end_processing. rewrite on_state_run, bind_run. destruct (clear_exception x s) as [[[] s1]|y].
  - unfold on_state. destruct (ChunkProcessing.processChunk _ _ _ _ _ _ _ _ s1) as [[[] s2]|y]; [done|]. by destruct (ChunkProcessing.caught y).
  - by destruct (ChunkProcessing.caught y).
Qed.

(** What the loop makes of what was done with the chunks. *)
Definition loop_result (o : outcome (option exn * ChunkProcessing.State (U := U) (X := X))) (after : option exn -> option exn) (final : Conn -> Prop)
    (r : outcome (option exn * (Conn * ChunkProcessing.State (U := U) (X := X)))) : Prop :=
  match o with
  | Ok (x, s') => exists c', r = Ok (after x, (c', s')) /\ (x = None -> final c')
  | Throw x => r = Throw x
  end.

Lemma loop_reads chunks : forall c fuel rest e s, chunks_ok (c :: chunks) -> (length chunks < fuel)%nat ->
  loop_result (process_chunks (c :: chunks) s) id (eq (mkConn rest e))
    (chunks_loop to_utf8 user place threaded memberId fuel (mkChunkHeader (Z.of_nat (length c.1)) c.2) (mkConn (c.1 ++ (chunks ≫= enc_chunk) ++ rest) e, s)).
Proof.
  induction chunks as [|c' chunks IH]; intros c fuel rest e s Hok Hf; (destruct fuel as [|fuel]; [cbn in Hf; lia|]); cbn [chunks_loop process_chunks];
    unfold attempt at 1.
  - cbn [mbind list_bind app]. rewrite (processChunk_read c true) by done.
    destruct (process_chunk c s) as [[[] s']|x]; cbn [negb]; [by eexists|]. by destruct (ChunkProcessing.caught x); [eexists|].
  - destruct Hok as [Hc Hok]. rewrite (processChunk_read c false) by done.
    destruct (process_chunk c s) as [[[] s']|x]; cbn [negb]; [|by destruct (ChunkProcessing.caught x); [eexists|]].
    rewrite bind_cons, enc_chunk_eq, <- !app_assoc. destruct (chunks_ok_head _ _ Hok) as [Hs' Hf']. unfold attempt.
    rewrite (st_first_ok _ _ _ _ _ (chunkHeader_read c' _ e Hs' Hf')). apply IH; [done|cbn in Hf; lia].
Qed.

(** The bytes of the chunks are fuel enough. *)
Lemma loop_fuel (c : chunk) chunks rest : (length chunks < S (length (c.1 ++ (chunks ≫= enc_chunk) ++ rest)))%nat.
Proof.
  rewrite !length_app. assert (length chunks <= length (chunks ≫= enc_chunk))%nat; [|lia].
  induction chunks as [|c' chunks IH]; [done|]. rewrite bind_cons, length_app. unfold enc_chunk at 1. rewrite !length_app. cbn [length]. lia.
Qed.

Definition response_bytes (type parts tx : Z) (c : chunk) : list Z :=
  be_bytes 4 (u32 type) ++ be_bytes 4 (u32 parts) ++ be_bytes 4 (u32 tx) ++ header_bytes c.
Lemma length_response type parts tx c : length (response_bytes type parts tx c) = 17%nat.
Proof. unfold response_bytes. by rewrite !length_app, !length_be_bytes, length_header. Qed.
Lemma responseHeader_read type parts tx (c : chunk) rest e : in_s 32 type -> in_s 32 tx -> short c.1 -> in_s 8 c.2 ->
  readResponseHeader (mkConn (response_bytes type parts tx c ++ rest) e) =
    Ok (mkResponseHeader type (s32 parts) tx (mkChunkHeader (Z.of_nat (length c.1)) c.2), mkConn rest e).
Proof.
  intros Hty Htx Hs Hf. unfold readResponseHeader.
  refine (eq_trans (st_bind_ok _ _ _ _ _ (receive_or_throw_exact _ _ _ _ _ _)) _); [by rewrite length_response|done|].
  apply in_header_ok; [|rewrite length_response; lia]. unfold response_bytes, header_bytes.
  eapply reads_bind; [by apply reads_int|]. eapply reads_bind; [eapply reads_eq; [apply reads_readInt32|apply wrapS_wrapU]|].
  eapply reads_bind; [by apply reads_int|]. eapply reads_bind; [apply reads_int; unfold in_s, short in *; lia|].
  apply (reads_map _ (fun f => mkResponseHeader _ _ _ (mkChunkHeader _ f))). by apply reads_byte.
Qed.

(** A message in chunks is taken from the connection, whatever comes behind it. *)
Lemma message_read type parts tx c chunks rest e s : in_s 32 type -> in_s 32 tx -> chunks_ok (c :: chunks) ->
  readMessageChunked to_utf8 user place threaded memberId (mkConn (enc_response type parts tx (c :: chunks) ++ rest) e, s) =
    match process_message type tx (c :: chunks) s with Ok (_, s') => Ok (tt, (mkConn rest e, s')) | Throw x => Throw x end.
Proof.
  intros Hty Htx Hok. destruct (chunks_ok_head _ _ Hok) as [Hs Hf]. unfold readMessageChunked, process_message, enc_response.
  refine (eq_trans (st_bind_ok _ _ _ (mkResponseHeader type (s32 parts) tx (mkChunkHeader (Z.of_nat (length c.1)) c.2))
    (mkConn (c.1 ++ (chunks ≫= enc_chunk) ++ rest) e, s) (st_first_ok _ _ _ _ _ _)) _).
  { rewrite bind_cons, enc_chunk_eq. rewrite <- (responseHeader_read type parts tx c (c.1 ++ (chunks ≫= enc_chunk) ++ rest) e Hty Htx Hs Hf).
    unfold response_bytes. by rewrite <- !app_assoc. }
  cbn [messageType transactionId header_]. unfold begin_message. rewrite !on_state_run, !bind_run.
  destruct (ChunkProcessing.set_message _ s) as [[[] s1]|x]; [|done]. rewrite !on_state_run.
  destruct (ChunkProcessing.startProcessChunk s1) as [[[] s2]|x]; [|done]. rewrite !bind_run. cbn [st_get fst incoming]. rewrite bind_run.
  pose proof (loop_reads chunks c _ rest e s2 Hok (loop_fuel c chunks rest)) as Hloop. unfold loop_result, id in Hloop.
  destruct (process_chunks (c :: chunks) s2) as [[[x|] s3]|x].
  - destruct Hloop as (c' & -> & _). by rewrite leave_run.
  - destruct Hloop as (c' & -> & <-); [|done]. unfold end_processing, on_state.
    cbn [finish]. by destruct (ChunkProcessing.processChunk _ _ _ _ _ _ _ _ s3) as [[[] s4]|x].
  - by rewrite Hloop.
Qed.

(** *** Messages that are cut off *)

(** What is thrown when the bytes end. *)
Definition conn_error (e : ConnErrType) : exn := if is_timeout e then TimeoutException else GeodeIOException.
Lemma receive_short n l e : Z.of_nat (length l) < n -> receive_or_throw n (mkConn l e) = Throw (conn_error e).
Proof.
  intros Hl. unfold receive_or_throw, receiveData. rewrite bind_run. cbn [incoming ends_with]. destruct (Z.eqb_spec n 0); [lia|]. destruct (Z.ltb_spec (Z.of_nat (length l)) n); [done|lia].
Qed.
Lemma st_first_throw {S T A} (m : ST S A) s (t : T) x : m s = Throw x -> st_first m (s, t) = Throw x.
Proof. intros E. unfold st_first. cbn [fst snd]. by rewrite E. Qed.

Lemma caught_error e : exists y, ChunkProcessing.caught (conn_error e) = Some y.
Proof. unfold conn_error. destruct (is_timeout e); by eexists. Qed.
(** A prefix holds the first bytes or does not. *)
Lemma prefix_split {A} (p l l' : list A) : p `prefix_of` l ++ l' -> (length p < length l)%nat \/ exists p', p = l ++ p' /\ p' `prefix_of` l'.
Proof.
  intros [k Hk]. destruct (decide (length p < length l)%nat) as [Hlt|Hge]; [by left|]. right.
  apply (f_equal (take (length l))) in Hk as Ht. rewrite take_app_length, take_app_le in Ht by lia.
  exists (drop (length l) p). rewrite Ht at 1. rewrite take_drop. split; [done|]. exists k.
  apply (f_equal (drop (length l))) in Hk. rewrite drop_app_length, drop_app_le in Hk by lia. done.
Qed.

(** The loop ends with an exception of a chunk that was there, or because the bytes end. *)
Lemma loop_cut chunks : forall c fuel p e s, chunks_ok (c :: chunks) -> p `prefix_of` c.1 ++ (chunks ≫= enc_chunk) ->
  p <> c.1 ++ (chunks ≫= enc_chunk) -> (length p < fuel)%nat ->
  exists n, loop_result (process_chunks (take n (c :: chunks)) s) (fun x => Some (default (conn_error e) x)) (fun _ => True)
    (chunks_loop to_utf8 user place threaded memberId fuel (mkChunkHeader (Z.of_nat (length c.1)) c.2) (mkConn p e, s)).
Proof.
  induction chunks as [|c' chunks IH]; intros c fuel p e s Hok Hp Hne Hf; (destruct fuel as [|fuel]; [lia|]); cbn [chunks_loop];
    (destruct (prefix_split p c.1 _ Hp) as [Hlt|(p' & -> & Hp')];
      [exists 0%nat; eexists; split; [|done]; unfold attempt at 1, processChunk, readChunkBody; cbn [chunkLength]; rewrite !bind_run;
       destruct (Z.ltb_spec (Z.of_nat (length c.1)) 0); [lia|]; rewrite (st_first_throw _ _ _ _ (receive_short _ _ _ (inj_lt _ _ Hlt)));
       by destruct (caught_error e) as [y ->]|]).
  - apply prefix_nil_inv in Hp' as ->. by destruct Hne.
  - destruct Hok as [Hc Hok]. unfold attempt at 1. rewrite (processChunk_read c false) by done.
    destruct (process_chunk c s) as [[[] s']|x] eqn:E; cbn [negb].
    2:{ exists 1%nat. cbn [take process_chunks]. rewrite E. by destruct (ChunkProcessing.caught x); [eexists|]. }
    rewrite bind_cons in Hp', Hne. rewrite enc_chunk_eq, <- app_assoc in Hp', Hne. destruct (chunks_ok_head _ _ Hok) as [Hs' Hf'].
    destruct (prefix_split p' _ _ Hp') as [Hlt|(p'' & -> & Hp'')]; unfold attempt.
    + exists 1%nat. cbn [take process_chunks]. rewrite E. eexists. split; [|done]. unfold readChunkHeader. erewrite st_first_throw.
      2:{ rewrite bind_run, length_header in *. rewrite receive_short; [done|]. unfold CHUNK_HEADER_LENGTH. lia. }
      by destruct (caught_error e) as [y ->].
    + rewrite (st_first_ok _ _ _ _ _ (chunkHeader_read c' p'' e Hs' Hf')).
      destruct (IH c' fuel p'' e s' Hok Hp'') as (n & Hn); [by intros ->|rewrite !length_app, length_header in Hf; lia|].
      exists (S n). cbn [take process_chunks] in *. by rewrite E.
Qed.

(** C19. A message in chunks that is cut off anywhere is never taken for a complete one: reading it throws.
    If the header is there, the chunks before the cut have been processed; what is thrown is the error
    of the connection or the exception of such a chunk, unless the end of the processing throws as
    well, which ends the program. *)
Theorem truncated_message_refused type parts tx c chunks p e s : in_s 32 type -> in_s 32 tx -> chunks_ok (c :: chunks) ->
  p `prefix_of` enc_response type parts tx (c :: chunks) -> p <> enc_response type parts tx (c :: chunks) ->
  exists x, readMessageChunked to_utf8 user place threaded memberId (mkConn p e, s) = Throw x /\
    (x = conn_error e \/ exists n, x =
      match (begin_message type tx;; process_chunks (take n (c :: chunks))) s with
      | Ok (y, s') => leave (default (conn_error e) y) s'
      | Throw y => y
      end).
Proof.
  intros Hty Htx Hok. destruct (chunks_ok_head _ _ Hok) as [Hs Hf]. unfold readMessageChunked.
  replace (enc_response type parts tx (c :: chunks)) with (response_bytes type parts tx c ++ c.1 ++ (chunks ≫= enc_chunk)).
  2:{ unfold enc_response, response_bytes. rewrite bind_cons, enc_chunk_eq. by rewrite <- !app_assoc. }
  intros Hp Hne. destruct (prefix_split p _ _ Hp) as [Hlt|(p' & -> & Hp')].
  { exists (conn_error e). split; [|by left]. rewrite bind_run. unfold readResponseHeader. erewrite st_first_throw; [done|]. rewrite bind_run.
    rewrite length_response in Hlt. rewrite receive_short; [done|]. unfold HEADER_LENGTH. lia. }
  rewrite bind_run, (st_first_ok _ _ _ _ _ (responseHeader_read type parts tx c p' e Hty Htx Hs Hf)). cbn [messageType transactionId header_].
  unfold begin_message.
  rewrite !on_state_run. destruct (ChunkProcessing.set_message (fun m => set_txId tx (set_msgType type m)) s) as [[[] s1]|x] eqn:E1.
  2:{ exists x. split; [done|]. right. exists 0%nat. by rewrite !bind_run, E1. }
  rewrite !on_state_run. destruct (ChunkProcessing.startProcessChunk s1) as [[[] s2]|x] eqn:E2.
  2:{ exists x. split; [done|]. right. exists 0%nat. by rewrite !bind_run, E1, E2. }
  rewrite bind_run. cbn [st_get fst incoming]. rewrite bind_run.
  destruct (loop_cut chunks c (S (length p')) p' e s2 Hok Hp') as (n & Hn); [by intros ->|lia|]. unfold loop_result in Hn.
  assert (E : (ChunkProcessing.set_message (fun m => set_txId tx (set_msgType type m));; ChunkProcessing.startProcessChunk) s = Ok (tt, s2)).
  { by rewrite bind_run, E1. }
  eexists. split; [|right; exists n; rewrite bind_run, E; reflexivity].
  destruct (process_chunks (take n (c :: chunks)) s2) as [[y s3]|y]; [destruct Hn as (c' & -> & _); by rewrite leave_run|by rewrite Hn].
Qed.
End Stream.

(** *** Hash maps of a list of keys *)

(** The entries of a hash map whose keys are of a list, by the places of the keys in the list. *)
Section Index.
Context {U : Type} (user : Serializable.UserTypes U) (place : forall X, list X -> X -> list X)
  (place_perm : forall X l x, place X l x ≡ₚ x :: l) (keys : list (Serializable.t U)).

Definition key (i : nat) : Serializable.t U := nth i keys Serializable.nullptr.
Definition keys_ok : Prop := forall i j, (i < length keys)%nat -> (j < length keys)%nat ->
  Serializable.is_key user (key i) = true /\ Serializable.equals user (key i) (key j) = bool_decide (i = j).

Definition entries {X} (m : gmap nat X) : list (Serializable.t U * X) := (fun ix => (key ix.1, ix.2)) <$> map_to_list m.
Record indexed {X} (l : list (Serializable.t U * X)) (m : gmap nat X) : Prop := {
  indexed_dom : forall i, is_Some (m !! i) -> (i < length keys)%nat;
  indexed_perm : l ≡ₚ entries m
}.
Hypothesis Hkeys : keys_ok.

Lemma indexed_in {X} l (m : gmap nat X) y : indexed l m -> y ∈ l <-> exists i, m !! i = Some y.2 /\ y.1 = key i.
Proof.
  intros [_ Hp]. rewrite Hp. unfold entries. rewrite list_elem_of_fmap. split.
  - intros ([i x] & -> & Hi%elem_of_map_to_list). by exists i.
  - intros (i & Hi & Hk). exists (i, y.2). split; [destruct y; cbn in *; by subst|by apply elem_of_map_to_list].
Qed.
Lemma indexed_equal {X} l (m : gmap nat X) i y : indexed l m -> (i < length keys)%nat -> y ∈ l -> Serializable.equals user y.1 (key i) = true ->
  m !! i = Some y.2.
Proof.
  intros Hi Hlt Hy He. apply (indexed_in _ _ _ Hi) in Hy as (j & Hj & Hk). rewrite Hk in He.
  destruct (Hkeys j i) as [_ Heq]; [by eapply indexed_dom|done|]. rewrite Heq in He. apply bool_decide_eq_true in He as ->. done.
Qed.
Lemma key_self i : (i < length keys)%nat -> Serializable.is_key user (key i) = true /\ Serializable.equals user (key i) (key i) = true.
Proof. intros Hi. destruct (Hkeys i i Hi Hi) as [H1 H2]. by rewrite bool_decide_true in H2. Qed.

Lemma find_indexed {X} l (m : gmap nat X) i : indexed l m -> (i < length keys)%nat ->
  ObjectPartList.find_key user (key i) l = Ok (m !! i).
Proof.
  intros Hm Hi. destruct (key_self i Hi) as [Hk He]. unfold ObjectPartList.find_key. rewrite Hk. cbn [negb]. f_equal.
  destruct (find _ l) as [y|] eqn:E; cbn.
  - apply find_some in E as [Hy Hy']. symmetry. apply (indexed_equal l m i y Hm Hi); [by apply list_elem_of_In|done].
  - destruct (m !! i) as [x|] eqn:Ex; [|done]. assert (Hin : (key i, x) ∈ l) by (apply (indexed_in _ _ _ Hm); by exists i).
    apply list_elem_of_In in Hin. pose proof (find_none _ _ E _ Hin) as Hn. cbn in Hn. by rewrite He in Hn.
Qed.
Lemma exists_indexed {X} l (m : gmap nat X) i : indexed l m -> (i < length keys)%nat ->
  existsb (fun y => Serializable.equals user y.1 (key i)) l = bool_decide (is_Some (m !! i)).
Proof.
  intros Hm Hi. apply eq_true_iff_eq. rewrite existsb_exists, bool_decide_eq_true. split.
  - intros (y & Hy%list_elem_of_In & He). exists y.2. by eapply indexed_equal.
  - intros [x Hx]. exists (key i, x). split; [apply list_elem_of_In, (indexed_in _ _ _ Hm); by exists i|by apply key_self].
Qed.

Lemma insert_dom {X} (m : gmap nat X) i x : (i < length keys)%nat -> (forall j, is_Some (m !! j) -> (j < length keys)%nat) ->
  forall j, is_Some (<[i := x]> m !! j) -> (j < length keys)%nat.
Proof. intros Hi Hm j. destruct (decide (i = j)) as [<-|]; [done|]. rewrite lookup_insert_ne by done. apply Hm. Qed.
Lemma entries_insert {X} (m : gmap nat X) i x : m !! i = None -> entries (<[i := x]> m) ≡ₚ (key i, x) :: entries m.
Proof. intros Hi. unfold entries. by rewrite map_to_list_insert. Qed.

Lemma emplace_indexed {X} l (m : gmap nat X) i x : indexed l m -> (i < length keys)%nat -> m !! i = None ->
  exists l', ObjectPartList.emplace_key user place (key i) x l = Ok l' /\ indexed l' (<[i := x]> m).
Proof.
  intros Hm Hi Hn. exists (place _ l (key i, x)). unfold ObjectPartList.emplace_key, Serializable.emplace. cbn [fst].
  rewrite (proj1 (key_self i Hi)), (exists_indexed l m i Hm Hi), Hn, bool_decide_false by (by intros []). split; [done|]. split.
  - apply insert_dom; [done|apply Hm].
  - by rewrite place_perm, entries_insert, (indexed_perm _ _ Hm).
Qed.
Lemma assign_indexed {X} l (m : gmap nat X) i x : indexed l m -> (i < length keys)%nat ->
  exists l', ObjectPartList.assign_key user place (key i) x l = Ok l' /\ indexed l' (<[i := x]> m).
Proof.
  intros Hm Hi. unfold ObjectPartList.assign_key. rewrite (proj1 (key_self i Hi)), (exists_indexed l m i Hm Hi). cbn [negb].
  destruct (m !! i) as [y|] eqn:Ey.
  - rewrite bool_decide_true by done. eexists. split; [done|]. split; [apply insert_dom; [done|apply Hm]|].
    rewrite (indexed_perm _ _ Hm). rewrite <- (insert_delete_id m i y Ey), insert_insert_eq, !entries_insert by apply lookup_delete_eq.
    rewrite fmap_cons. cbn [fst]. rewrite (proj2 (key_self i Hi)). constructor. apply Permutation_refl'.
    etrans; [|apply list_fmap_id]. apply list_fmap_ext. intros n y' Hy. apply list_elem_of_lookup_2 in Hy.
    unfold entries in Hy. apply list_elem_of_fmap in Hy as ([j z] & -> & [Hne Hj]%elem_of_map_to_list%lookup_delete_Some). cbn.
    destruct (Hkeys j i) as [_ ->]; [by eapply (indexed_dom _ _ Hm)|done|]. by rewrite bool_decide_false.
  - rewrite bool_decide_false by (by intros []). exists (place _ l (key i, x)). split; [done|]. split; [apply insert_dom; [done|apply Hm]|].
    by rewrite place_perm, entries_insert, (indexed_perm _ _ Hm).
Qed.
End Index.

(** *** Lists of objects *)

Section Lists.
Context `{AllocatorOk} {U G : Type} `{RegionStore U G} (to_utf16 to_utf8 : list Z -> outcome (list Z)) (user : Serializable.UserTypes U)
  (enc_user : U -> list Z) (user_ok : U -> Prop) `{!UserCodec user enc_user user_ok}
  (place : forall X, list X -> X -> list X) (place_perm : forall X l x, place X l x ≡ₚ x :: l) (syncCounter : Z).
Abbreviation Object_ := (Serializable.t U).
Abbreviation value := (option (Cacheable Object_)).
Abbreviation wire := (wire to_utf16 enc_user).
Abbreviation value_ok := (value_ok to_utf16 to_utf8 user user_ok).

(** What a server sends for a key: a value, an exception with its trace, or that it has no entry. *)
Inductive wire_entry := EntryValue (v : Object_) | EntryFailed (trace text : list Z) | EntryAbsent.
Definition mark (e : wire_entry) : Z := match e with EntryValue _ => 1 | EntryFailed _ _ => 2 | EntryAbsent => 3 end.
Definition enc_entry (e : wire_entry) : list Z := [mark e] ++
  match e with
  | EntryValue v => wire v
  | EntryFailed trace text => enc_arrayLen (Z.of_nat (length trace)) ++ trace ++ enc_text to_utf16 text
  | EntryAbsent => wire Serializable.nullptr
  end.
Definition entry_ok (e : wire_entry) : Prop :=
  match e with EntryValue v => value_ok v | EntryFailed trace text => short trace /\ text_ok to_utf16 to_utf8 text | EntryAbsent => True end.
(** The same up to the order of hash sets and maps. *)
Definition same_entry (e e' : wire_entry) : Prop := match e, e' with EntryValue v, EntryValue v' => same v v' | _, _ => e = e' end.

(** The results by the places of the keys: values and exceptions. *)
Abbreviation results := (gmap nat value * gmap nat KeyException)%type.
Definition note (i : nat) (e : wire_entry) (r : results) : results :=
  match e with
  | EntryValue v => (<[i := pointer v]> r.1, r.2)
  | EntryFailed _ text => (r.1, <[i := key_exception text]> r.2)
  | EntryAbsent => (<[i := None]> r.1, r.2)
  end.
Fixpoint note_all (i : nat) (es : list wire_entry) (r : results) : results :=
  match es with [] => r | e :: es => note_all (S i) es (note i e r) end.

(** A tag of a list: none, a tag, one whose member gets the next number, or one with the member of a
    number. *)
Inductive list_tag := NoTag | FullTag (tag : sent_tag) | NewIdTag (tag : sent_tag) | NumberedTag (tag : sent_tag) (n : nat).
Definition enc_list_tag (tag : list_tag) : list Z :=
  match tag with
  | NoTag => [0]
  | FullTag tag => [1] ++ enc_bare to_utf16 tag
  | NewIdTag tag => [2] ++ enc_bare to_utf16 tag
  | NumberedTag tag n => [3] ++ enc_bare to_utf16 tag ++ enc_unsignedVL (Z.of_nat n)
  end.
(** All tags are of the same kind, and numbers are of members before. *)
Fixpoint list_tags_ok (persistent : bool) (ids : nat) (tags : list list_tag) : Prop :=
  match tags with
  | [] => True
  | NoTag :: tags => list_tags_ok persistent ids tags
  | FullTag tag :: tags => bare_ok to_utf16 to_utf8 syncCounter tag /\ is_disk tag = persistent /\ list_tags_ok persistent ids tags
  | NewIdTag tag :: tags => bare_ok to_utf16 to_utf8 syncCounter tag /\ is_disk tag = persistent /\ list_tags_ok persistent (S ids) tags
  | NumberedTag tag n :: tags =>
    bare_ok to_utf16 to_utf8 syncCounter tag /\ is_disk tag = persistent /\ (n < ids)%nat /\ Z.of_nat n < 2 ^ 31 /\ list_tags_ok persistent ids tags
  end.
(** The tags as they are received from the member [mem], with the members that they bring. *)
Fixpoint tags_received (mem : Z) (ids : list Z) (tags : list list_tag) (ml : Members) : list (option VersionTag.t) * Members :=
  match tags with
  | [] => ([], ml)
  | NoTag :: tags => let r := tags_received mem ids tags ml in (None :: r.1, r.2)
  | FullTag tag :: tags =>
    let '(v, ml) := bare_tag to_utf16 syncCounter tag ml in
    let r := tags_received mem ids tags ml in (Some (VersionTag.replaceNullMemberId mem v) :: r.1, r.2)
  | NewIdTag tag :: tags =>
    let '(v, ml) := bare_tag to_utf16 syncCounter tag ml in
    let r := tags_received mem (ids ++ [VersionTag.m_internalMemId v]) tags ml in (Some v :: r.1, r.2)
  | NumberedTag tag n :: tags =>
    let '(v, ml) := bare_tag to_utf16 syncCounter tag ml in
    let r := tags_received mem ids tags ml in (Some (VersionTag.set_internal (nth n ids 0) v) :: r.1, r.2)
  end.

(** Nothing is there yet from the place [i] on. *)
Definition below {X} (i : nat) (m : gmap nat X) : Prop := forall j, (i <= j)%nat -> m !! j = None.
Definition sent (e : wire_entry) : option value :=
  match e with EntryValue v => Some (pointer v) | EntryFailed _ _ => None | EntryAbsent => Some None end.
Definition pending (i : nat) (es : list wire_entry) (vals : gmap nat value) : Prop := forall k e, es !! k = Some e -> vals !! (i + k)%nat = sent e.
Lemma note_all_keeps es : forall i r j, (j < i)%nat -> (note_all i es r).1 !! j = r.1 !! j.
Proof.
  induction es as [|e es IH]; intros i r j Hj; [done|]. cbn [note_all]. rewrite IH by lia. destruct e; cbn; by rewrite ?lookup_insert_ne by lia.
Qed.
Lemma note_all_pending es : forall i r, below i r.1 -> pending i es (note_all i es r).1.
Proof.
  induction es as [|e es IH]; intros i r Hb k e' Hk; [done|]. cbn [note_all]. destruct k as [|k]; cbn in Hk.
  - injection Hk as <-. rewrite Nat.add_0_r, note_all_keeps by lia. destruct e; cbn; rewrite ?lookup_insert_eq; [done|by apply Hb|done].
  - rewrite <- Nat.add_succ_comm. apply IH; [|done]. intros j Hj. destruct e; cbn; rewrite ?lookup_insert_ne by lia; apply Hb; lia.
Qed.
Lemma note_below i e r : below i r.1 -> below i r.2 -> below (S i) (note i e r).1 /\ below (S i) (note i e r).2.
Proof.
  intros B1 B2. destruct e; cbn [note fst snd]; split; intros j Hj; rewrite ?lookup_insert_ne by lia; apply B1 || apply B2; lia.
Qed.

Section GetAll.
Context (keys : list Object_) (Hkeys : keys_ok user keys) (resultKeys : option (list Object_)) (trackers : list (Object_ * Z))
  (destroyTracker : Z) (add : bool) (mem : Z) (ver tagged : bool).
Abbreviation indexed := (indexed keys).
Abbreviation key := (key keys).

(** The list while it is read. *)
Definition reading (offset : Z) (vs : list (Object_ * value)) (xs : list (Object_ * KeyException)) (bytes : list Z)
    (tags : list (option VersionTag.t)) : ObjectPartList.t (U := U) :=
  ObjectPartList.mk (Some keys) (Some offset) (Some vs) (Some xs) resultKeys true (Some trackers) destroyTracker add ver false tagged false
    tags bytes mem (Some []).

Abbreviation M := (Reader (ObjectPartList.t (U := U) * G)).
Lemma takes_get_list ml (l : ObjectPartList.t (U := U)) (g : G) : takes (ObjectPartList.get_list (G := G)) [] ml (l, g) l ml (l, g).
Proof. intros pre rest _. exists pre. by rewrite app_nil_r. Qed.
Lemma takes_set_list f ml (l : ObjectPartList.t (U := U)) (g : G) : takes (ObjectPartList.set_list f) [] ml (l, g) tt ml (f l, g).
Proof. intros pre rest _. exists pre. by rewrite app_nil_r. Qed.
Lemma takes_lift {T A} (o : outcome A) a ml (s : T) : o = Ok a -> takes (st_lift o) [] ml s a ml s.
Proof. intros -> pre rest _. exists pre. by rewrite app_nil_r. Qed.
Lemma takes_put_value k v vs vs' xs bytes tags offset ml (g : G) : ObjectPartList.emplace_key user place k v vs = Ok vs' ->
  takes (ObjectPartList.put_value user place k v) [] ml (reading offset vs xs bytes tags, g) tt ml (reading offset vs' xs bytes tags, g).
Proof.
  intros E. eapply takes_bind0; [apply takes_get_list|]. eapply takes_bind0; [apply takes_ret|].
  eapply takes_bind0; [by apply takes_lift|]. apply (takes_set_list (ObjectPartList.set_values _)).
Qed.
Lemma takes_marked {A} j k l ml (s s' : ObjectPartList.t (U := U) * G) ml' (a : A) (f : Z -> M A) : 0 <= k < 128 ->
  takes (f k) l ml (ObjectPartList.set_byteArray (<[j := k]> (ObjectPartList.m_byteArray s.1)) s.1, s.2) a ml' s' ->
  takes (objType ← on_input DataInput.read;
         ObjectPartList.set_list (fun l => ObjectPartList.set_byteArray (<[j := u8 objType]> (ObjectPartList.m_byteArray l)) l);; f objType)
    ([k] ++ l) ml s a ml' s'.
Proof.
  intros Hk Hf. eapply takes_bind; [by apply takes_on_input, reads_byte_is|]. destruct s as [l0 g]. eapply takes_bind0; [apply takes_set_list|].
  rewrite wrapU_id by (unfold in_u; lia). exact Hf.
Qed.

Lemma takes_part j i e vs xs r bytes tags offset ml (g : G) : entry_ok e -> (i < length keys)%nat -> indexed vs r.1 -> indexed xs r.2 ->
  r.1 !! i = None -> r.2 !! i = None -> exists e' vs' xs', same_entry e e' /\ indexed vs' (note i e' r).1 /\ indexed xs' (note i e' r).2 /\
  takes (ObjectPartList.readObjectPart to_utf8 user place j (key i)) (enc_entry e) ml (reading offset vs xs bytes tags, g) tt ml
    (reading offset vs' xs' (<[j := mark e']> bytes) tags, g).
Proof.
  intros Hok Hi Hv Hx Nv Nx. unfold ObjectPartList.readObjectPart, enc_entry. destruct e as [v|trace text|]; cbn [mark].
  - destruct (reads_readable to_utf16 to_utf8 user enc_user user_ok place place_perm v Hok) as (v' & Hs & Hr).
    destruct (emplace_indexed user place place_perm keys Hkeys vs r.1 i (pointer v') Hv Hi Nv) as (vs' & Ev & Hv').
    exists (EntryValue v'), vs', xs. do 3 (split; [done|]). apply takes_marked; [lia|]. cbn [Z.eqb Pos.eqb].
    eapply takes_bind0; [apply takes_get_list|]. eapply takes_then; [by apply takes_on_input|by apply takes_put_value].
  - destruct Hok as [Ht Htext]. destruct (emplace_indexed user place place_perm keys Hkeys xs r.2 i (key_exception text) Hx Hi Nx) as (xs' & Ex & Hx').
    exists (EntryFailed trace text), vs, xs'. do 3 (split; [done|]). apply takes_marked; [lia|]. cbn [Z.eqb Pos.eqb].
    eapply takes_bind; [apply takes_on_input, reads_readArrayLength; unfold short in *; lia|].
    eapply takes_bind; [by apply takes_on_input, reads_advanceBy|]. eapply takes_then; [by apply takes_on_input, (reads_readString_string to_utf16)|].
    eapply takes_bind0; [apply takes_get_list|]. eapply takes_bind0; [apply takes_ret|]. eapply takes_bind0; [by apply takes_lift|].
    apply (takes_set_list (ObjectPartList.set_exceptions _)).
  - destruct (emplace_indexed user place place_perm keys Hkeys vs r.1 i None Hv Hi Nv) as (vs' & Ev & Hv').
    exists EntryAbsent, vs', xs. do 3 (split; [done|]). apply takes_marked; [lia|]. cbn [Z.eqb Pos.eqb].
    eapply takes_bind0; [apply takes_get_list|].
    eapply takes_then; [by apply takes_on_input, (reads_leaf_object to_utf16 to_utf8 user enc_user user_ok place)|by apply takes_put_value].
Qed.
(** The keys of a list without keys are the ones that were asked for. *)
Lemma takes_key_at off j offset vs xs bytes tags ml (g : G) : (off + j < length keys)%nat -> short keys ->
  takes (ObjectPartList.key_at (Z.of_nat off) [] j) [] ml (reading offset vs xs bytes tags, g) (key (off + j)) ml (reading offset vs xs bytes tags, g).
Proof.
  intros Hj Hs. eapply takes_bind0; [apply takes_get_list|]. cbn [reading ObjectPartList.m_keys ObjectPartList.m_hasKeys]. unfold short in Hs.
  destruct (Z.leb_spec (2 ^ 31) (Z.of_nat j + Z.of_nat off)); [lia|]. unfold ObjectPartList.at_index.
  destruct (Z.ltb_spec (Z.of_nat j + Z.of_nat off) 0); [lia|].
  replace (Z.to_nat (Z.of_nat j + Z.of_nat off)) with (off + j)%nat by lia. destruct (lookup_lt_is_Some_2 keys (off + j) Hj) as [k Hk].
  rewrite Hk. replace (key (off + j)) with k by (unfold ChunkFacts.key; rewrite nth_lookup, Hk; done). apply takes_ret.
Qed.

Lemma insert_next {A} (l l' : list A) x y : <[length l := x]> (l ++ y :: l') = (l ++ [x]) ++ l'.
Proof. by rewrite insert_app_r_alt, Nat.sub_diag, <- app_assoc by done. Qed.

Lemma next_app {A} (l l' : list A) x : l ++ x :: l' = (l ++ [x]) ++ l'.
Proof. by rewrite <- app_assoc. Qed.

Definition part_body (off j : nat) : M unit := key ← ObjectPartList.key_at (Z.of_nat off) [] j; ObjectPartList.readObjectPart to_utf8 user place j key.
Lemma takes_parts es : forall off bytes vs xs r tags offset ml (g : G), Forall entry_ok es -> short keys -> indexed vs r.1 -> indexed xs r.2 ->
  (off + length bytes + length es <= length keys)%nat -> below (off + length bytes) r.1 -> below (off + length bytes) r.2 ->
  exists es' vs' xs', Forall2 same_entry es es' /\ indexed vs' (note_all (off + length bytes) es' r).1 /\
    indexed xs' (note_all (off + length bytes) es' r).2 /\
  takes (st_iter (part_body off) (seq (length bytes) (length es))) (es ≫= enc_entry) ml
    (reading offset vs xs (bytes ++ replicate (length es) 0) tags, g) tt ml (reading offset vs' xs' (bytes ++ (mark <$> es')) tags, g).
Proof.
  induction es as [|e es IH]; intros off bytes vs xs r tags offset ml g Hok Hs Hv Hx Hl Bv Bx.
  { exists [], vs, xs. do 3 (split; [done|]). apply takes_ret. }
  apply Forall_cons_1 in Hok as [He Hok]. cbn [length] in Hl.
  destruct (takes_part (length bytes) (off + length bytes) e vs xs r (bytes ++ replicate (S (length es)) 0) tags offset ml g) as (e' & vs1 & xs1 & Se & Hv1 & Hx1 & Ht);
    [done|lia|done|done|by apply Bv|by apply Bx|]. cbn [replicate] in Ht. rewrite insert_next in Ht.
  destruct (note_below (off + length bytes) e' r Bv Bx) as [Bv1 Bx1].
  assert (Hlen : (off + length (bytes ++ [mark e']))%nat = S (off + length bytes)) by (rewrite length_app; cbn; lia).
  destruct (IH off (bytes ++ [mark e']) vs1 xs1 (note (off + length bytes) e' r) tags offset ml g) as (es' & vs' & xs' & Ses & Hv' & Hx' & Hts);
    rewrite ?Hlen; try done; [lia|]. rewrite Hlen in Hv', Hx'. exists (e' :: es'), vs', xs'. split; [by constructor|]. do 2 (split; [done|]).
  cbn [length seq st_iter]. rewrite bind_cons. eapply takes_bind.
  { eapply takes_bind0; [apply takes_key_at; [lia|done]|exact Ht]. }
  rewrite length_app, Nat.add_1_r in Hts. rewrite fmap_cons, (next_app bytes (mark <$> es')). exact Hts.
Qed.

Lemma takes_fresh tag s ml : bare_ok to_utf16 to_utf8 syncCounter tag ->
  takes (ObjectPartList.fresh_tag to_utf16 to_utf8 user place syncCounter (is_disk tag)) (enc_bare to_utf16 tag) ml s
    (bare_tag to_utf16 syncCounter tag ml).1 (bare_tag to_utf16 syncCounter tag ml).2 (s : ObjectPartList.t (U := U) * G).
Proof. intros Hok. by apply takes_notes, notes_bare. Qed.
Lemma takes_tag persistent ids tag tags offset vs xs bytes ts ml (g : G) : list_tags_ok persistent (length ids) (tag :: tags) ->
  exists v ids' ml', length ids' = (length ids + match tag with NewIdTag _ => 1 | _ => 0 end)%nat /\
    tags_received mem ids (tag :: tags) ml = (v :: (tags_received mem ids' tags ml').1, (tags_received mem ids' tags ml').2) /\
  takes (ObjectPartList.read_tag to_utf16 to_utf8 user place syncCounter persistent ids) (enc_list_tag tag) ml (reading offset vs xs bytes ts, g)
    (v, ids') ml' (reading offset vs xs bytes ts, g).
Proof.
  unfold ObjectPartList.read_tag. destruct tag as [|tag|tag|tag n]; cbn [list_tags_ok enc_list_tag tags_received].
  - intros _. exists None, ids, ml. split; [lia|]. split; [done|]. eapply takes_then; [by apply takes_on_input, reads_byte_is|apply takes_ret].
  - intros (Hb & <- & _). pose proof (takes_fresh tag (reading offset vs xs bytes ts, g) ml Hb) as Ht.
    destruct (bare_tag to_utf16 syncCounter tag ml) as [v ml']. cbn [fst snd] in Ht.
    exists (Some (VersionTag.replaceNullMemberId mem v)), ids, ml'. split; [lia|]. split; [done|].
    eapply takes_bind; [by apply takes_on_input, reads_byte_is|]. eapply takes_then; [exact Ht|]. eapply takes_bind0; [apply takes_get_list|apply takes_ret].
  - intros (Hb & <- & _). pose proof (takes_fresh tag (reading offset vs xs bytes ts, g) ml Hb) as Ht.
    destruct (bare_tag to_utf16 syncCounter tag ml) as [v ml']. cbn [fst snd] in Ht.
    exists (Some v), (ids ++ [VersionTag.m_internalMemId v]), ml'. split; [by rewrite length_app|]. split; [done|].
    eapply takes_bind; [by apply takes_on_input, reads_byte_is|]. eapply takes_then; [exact Ht|apply takes_ret].
  - intros (Hb & <- & Hn & Hn' & _). pose proof (takes_fresh tag (reading offset vs xs bytes ts, g) ml Hb) as Ht.
    destruct (bare_tag to_utf16 syncCounter tag ml) as [v ml']. cbn [fst snd] in Ht.
    exists (Some (VersionTag.set_internal (nth n ids 0) v)), ids, ml'. split; [lia|]. split; [done|].
    eapply takes_bind; [by apply takes_on_input, reads_byte_is|]. eapply takes_bind; [exact Ht|].
    eapply takes_then; [apply takes_on_input, reads_unsignedVL; lia|]. unfold ObjectPartList.at_index.
    destruct (Z.ltb_spec (Z.of_nat n) 0); [lia|]. rewrite Nat2Z.id, nth_lookup. destruct (lookup_lt_is_Some_2 ids n Hn) as [id ->].
    eapply takes_bind0; apply takes_ret.
Qed.

Lemma list_tags_tail persistent ids tag tags : list_tags_ok persistent ids (tag :: tags) ->
  list_tags_ok persistent (ids + match tag with NewIdTag _ => 1 | _ => 0 end) tags.
Proof. destruct tag; cbn [list_tags_ok]; rewrite ?Nat.add_0_r, ?Nat.add_1_r; tauto. Qed.

Lemma takes_tags persistent tags : forall ids ts offset vs xs bytes ml (g : G), list_tags_ok persistent (length ids) tags ->
  takes (ObjectPartList.read_tags to_utf16 to_utf8 user place syncCounter persistent (length tags) (length ts) ids) (tags ≫= enc_list_tag) ml
    (reading offset vs xs bytes (ts ++ replicate (length tags) None), g) tt
    (tags_received mem ids tags ml).2 (reading offset vs xs bytes (ts ++ (tags_received mem ids tags ml).1), g).
Proof.
  induction tags as [|tag tags IH]; intros ids ts offset vs xs bytes ml g Hok; [apply takes_ret|].
  destruct (takes_tag persistent ids tag tags offset vs xs bytes (ts ++ replicate (S (length tags)) None) ml g Hok) as (v & ids' & ml' & Hl & E & Ht).
  rewrite E. cbn [fst snd]. rewrite bind_cons. cbn [length ObjectPartList.read_tags]. eapply takes_bind; [exact Ht|].
  eapply takes_bind0; [apply takes_set_list|]. apply list_tags_tail in Hok. rewrite <- Hl in Hok.
  specialize (IH ids' (ts ++ [v]) offset vs xs bytes ml' g Hok). rewrite length_app, Nat.add_1_r in IH.
  rewrite (next_app ts (tags_received _ _ _ _).1). unfold reading at 1. unfold ObjectPartList.set_versionTags. cbn [ObjectPartList.m_versionTags].
  cbn [replicate]. rewrite insert_next. exact IH.
Qed.
(** What becomes of an entry: its value is put into the region, and the value there is the result if
    it is newer; without caching, a valid value in the region is the result. *)
Definition sharing {A} (ml : Members) (m : ST G A) : ST G A := fun g => m (rs_members ml g).
Definition store (ml : Members) (i : nat) (v : value) (tag : option VersionTag.t) (vals : gmap nat value) : ST G (gmap nat value) :=
  if add then
    '(err, old) ← sharing ml (rs_putLocal (key i) v (-1) destroyTracker tag);
    mret (if bool_decide (err = GF_CACHE_CONCURRENT_MODIFICATION_EXCEPTION) then <[i := old]> vals else vals)
  else
    old ← sharing ml (rs_getEntry (key i));
    mret (if negb (bool_decide (old = None)) && negb (ObjectPartList.isInvalid old) then <[i := old]> vals else vals).
Definition settle (ml : Members) (i : nat) (e : wire_entry) (tag : option VersionTag.t) (vals : gmap nat value) : ST G (gmap nat value) :=
  match e with EntryAbsent => mret vals | _ => store ml i (default None (sent e)) tag vals end.
Fixpoint settle_all (ml : Members) (i : nat) (es : list wire_entry) (tags : list (option VersionTag.t)) (vals : gmap nat value) : ST G (gmap nat value) :=
  match es, tags with
  | e :: es, tag :: tags => vals ← settle ml i e tag vals; settle_all ml (S i) es tags vals
  | _, _ => mret vals
  end.
Lemma store_other ml i v tag vals g vals' g' j : store ml i v tag vals g = Ok (vals', g') -> i <> j -> vals' !! j = vals !! j.
Proof.
  unfold store, sharing. intros Hs Hij. destruct add; unfold mbind, ST_bind, mret, ST_ret in Hs; repeat case_match; simplify_eq; by rewrite ?lookup_insert_ne.
Qed.
Lemma settle_other ml i e tag vals g vals' g' j : settle ml i e tag vals g = Ok (vals', g') -> i <> j -> vals' !! j = vals !! j.
Proof. destruct e; cbn [settle]; [apply store_other..|]. by intros [= <- _]. Qed.

Lemma takes_on_region {A} (m : ST G A) a ml (l : ObjectPartList.t (U := U)) g g' : m (rs_members ml g) = Ok (a, g') ->
  takes (ObjectPartList.on_region m) [] ml (l, g) a ml (l, g').
Proof. intros E pre rest _. exists pre. split; [by rewrite app_nil_r|]. unfold ObjectPartList.on_region. cbn [snd]. by rewrite E. Qed.
Lemma takes_replace i v vs vals xs bytes tags offset ml (g : G) : indexed vs vals -> (i < length keys)%nat ->
  exists vs', indexed vs' (<[i := v]> vals) /\
  takes (ObjectPartList.replace_value user place (key i) v) [] ml (reading offset vs xs bytes tags, g) tt ml (reading offset vs' xs bytes tags, g).
Proof.
  intros Hv Hi. destruct (assign_indexed user place place_perm keys Hkeys vs vals i v Hv Hi) as (vs' & E & Hv'). exists vs'. split; [done|].
  eapply takes_bind0; [apply takes_get_list|]. eapply takes_bind0; [apply takes_ret|].
  eapply takes_bind0; [by apply takes_lift|]. apply (takes_set_list (ObjectPartList.set_values _)).
Qed.
Lemma takes_replace_when (b : bool) i v vs vals xs bytes tags offset ml (g : G) : indexed vs vals -> (i < length keys)%nat ->
  exists vs', indexed vs' (if b then <[i := v]> vals else vals) /\
  takes (when b (ObjectPartList.replace_value user place (key i) v)) [] ml (reading offset vs xs bytes tags, g) tt ml (reading offset vs' xs bytes tags, g).
Proof. intros Hv Hi. destruct b; [by apply takes_replace|]. exists vs. split; [done|apply takes_ret]. Qed.

Lemma takes_elem {A} (l : list A) i a ml (s : ObjectPartList.t (U := U) * G) : l !! i = Some a -> takes (ObjectPartList.elem_at l i) [] ml s a ml s.
Proof. intros E. unfold ObjectPartList.elem_at. rewrite E. apply takes_ret. Qed.

(** The last part of [store_entry]. *)
Definition stored_body (i j : nat) (v : value) (tags : list (option VersionTag.t)) : M unit :=
  if add then
    versionTag ← ObjectPartList.elem_at tags j;
    '(err, oldValue) ← ObjectPartList.on_region (rs_putLocal (key i) v (-1) destroyTracker versionTag);
    when (bool_decide (err = GF_CACHE_CONCURRENT_MODIFICATION_EXCEPTION)) (ObjectPartList.replace_value user place (key i) oldValue)
  else
    oldValue ← ObjectPartList.on_region (rs_getEntry (key i));
    when (negb (bool_decide (oldValue = None)) && negb (ObjectPartList.isInvalid oldValue)) (ObjectPartList.replace_value user place (key i) oldValue).
Lemma takes_stored i j v tag bytes tags vs vals vals' xs offset ml (g g' : G) : tags !! j = Some tag ->
  (i < length keys)%nat -> indexed vs vals -> store ml i v tag vals g = Ok (vals', g') ->
  exists vs', indexed vs' vals' /\
  takes (stored_body i j v tags) [] ml (reading offset vs xs bytes tags, g) tt ml (reading offset vs' xs bytes tags, g').
Proof.
  intros Ht Hi Hv Hs. unfold store, stored_body in *. destruct add.
  - rewrite bind_run in Hs. unfold sharing in Hs. destruct (rs_putLocal _ _ _ _ _ (rs_members ml g)) as [[[err old] g1]|x] eqn:E; [|done]. injection Hs as <- <-.
    destruct (takes_replace_when (bool_decide (err = GF_CACHE_CONCURRENT_MODIFICATION_EXCEPTION)) i old vs vals xs bytes tags offset ml g1 Hv Hi) as (vs' & Hv' & Hr).
    exists vs'. split; [done|]. eapply takes_bind0; [by apply takes_elem|]. eapply takes_bind0; [by apply takes_on_region|exact Hr].
  - rewrite bind_run in Hs. unfold sharing in Hs. destruct (rs_getEntry _ (rs_members ml g)) as [[old g1]|x] eqn:E; [|done]. injection Hs as <- <-.
    destruct (takes_replace_when (negb (bool_decide (old = None)) && negb (ObjectPartList.isInvalid old)) i old vs vals xs bytes tags offset ml g1 Hv Hi) as (vs' & Hv' & Hr).
    exists vs'. split; [done|]. eapply takes_bind0; [by apply takes_on_region|exact Hr].
Qed.

Lemma takes_store off j e tag bytes tags vs vals vals' xs offset ml (g g' : G) : bytes !! j = Some (mark e) -> tags !! j = Some tag ->
  vals !! (off + j)%nat = sent e -> (off + j < length keys)%nat -> short keys -> indexed vs vals -> settle ml (off + j) e tag vals g = Ok (vals', g') ->
  exists vs', indexed vs' vals' /\
  takes (ObjectPartList.store_entry user place (Z.of_nat off) [] j) [] ml (reading offset vs xs bytes tags, g) tt ml (reading offset vs' xs bytes tags, g').
Proof.
  intros Hb Ht Hsent Hj Hs Hv Hset. pose proof (find_indexed user keys Hkeys vs vals (off + j) Hv Hj) as Hf. rewrite Hsent in Hf.
  assert (Hgo : forall vs', takes (if mark e =? 3 then mret tt else stored_body (off + j) j (default None (sent e)) tags) [] ml (reading offset vs xs bytes tags, g) tt ml (reading offset vs' xs bytes tags, g') ->
    takes (ObjectPartList.store_entry user place (Z.of_nat off) [] j) [] ml (reading offset vs xs bytes tags, g) tt ml (reading offset vs' xs bytes tags, g')).
  { intros vs' Hgo. eapply takes_bind0; [by apply takes_key_at|]. eapply takes_bind0; [apply takes_get_list|]. eapply takes_bind0; [apply takes_ret|].
    eapply takes_bind0; [by apply takes_lift|]. eapply takes_bind0; [by apply takes_elem|]. exact Hgo. }
  assert (Hcase : e = EntryAbsent \/ (mark e =? 3) = false /\ settle ml (off + j) e tag vals = store ml (off + j) (default None (sent e)) tag vals)
    by (destruct e; auto). destruct Hcase as [->|[Hm Es]].
  - injection Hset as <- <-. exists vs. split; [done|]. apply Hgo, takes_ret.
  - rewrite Es in Hset. destruct (takes_stored _ _ _ _ bytes _ _ _ _ xs offset ml g g' Ht Hj Hv Hset) as (vs' & Hv' & Hr). exists vs'. split; [done|].
    apply Hgo. rewrite Hm. exact Hr.
Qed.
Lemma takes_stores es : forall off j bytes tags ts vs vals vals' xs offset ml (g g' : G), drop j bytes = mark <$> es -> drop j tags = ts ->
  length ts = length es -> pending (off + j) es vals -> (off + j + length es <= length keys)%nat -> short keys -> indexed vs vals ->
  settle_all ml (off + j) es ts vals g = Ok (vals', g') -> exists vs', indexed vs' vals' /\
  takes (st_iter (ObjectPartList.store_entry user place (Z.of_nat off) []) (seq j (length es))) [] ml (reading offset vs xs bytes tags, g) tt ml
    (reading offset vs' xs bytes tags, g').
Proof.
  induction es as [|e es IH]; intros off j bytes tags ts vs vals vals' xs offset ml g g' Hb Ht Hlen Hp Hl Hs Hv Hset.
  { exists vs. destruct ts; injection Hset as <- <-; (split; [done|apply takes_ret]). }
  destruct ts as [|tag ts]; [done|]. cbn [settle_all] in Hset. rewrite bind_run in Hset.
  destruct (settle ml (off + j) e tag vals g) as [[vals1 g1]|x] eqn:E; [|done]. cbn [length] in *.
  destruct (takes_store off j e tag bytes tags vs vals vals1 xs offset ml g g1) as (vs1 & Hv1 & H1'); try done; try lia.
  { rewrite <- (Nat.add_0_r j), <- lookup_drop, Hb. done. }
  { rewrite <- (Nat.add_0_r j), <- lookup_drop, Ht. done. }
  { rewrite <- (Nat.add_0_r (off + j)). by apply Hp. }
  rewrite <- Nat.add_succ_r in Hset. destruct (IH off (S j) bytes tags ts vs1 vals1 vals' xs offset ml g1 g') as (vs' & Hv' & H2'); try done; try lia.
  { rewrite <- Nat.add_1_r, <- drop_drop, Hb. done. }
  { rewrite <- Nat.add_1_r, <- drop_drop, Ht. done. }
  { intros k e' Hk. rewrite Nat.add_succ_r, (settle_other _ _ _ _ _ _ _ _ _ E) by lia. rewrite Nat.add_succ_comm. by apply Hp. }
  exists vs'. split; [done|]. cbn [seq st_iter]. eapply takes_bind0; [exact H1'|exact H2'].
Qed.
(** A list of entries, and their tags. *)
Definition list_flags (persistent : bool) : Z := 0x02 + (if tagged then 0x04 else 0) + (if ver then 0x08 else 0) + (if persistent then 0x20 else 0).
Definition enc_list (persistent : bool) (es : list wire_entry) (tags : list list_tag) : list Z :=
  [list_flags persistent] ++ enc_unsignedVL (Z.of_nat (length es)) ++ (es ≫= enc_entry) ++
  if tagged then enc_unsignedVL (Z.of_nat (length tags)) ++ (tags ≫= enc_list_tag) else [].

Lemma length_tags tags : forall ids ml, length (tags_received mem ids tags ml).1 = length tags.
Proof. induction tags as [|tag tags IH]; intros ids ml; [done|]. destruct tag; cbn [tags_received]; repeat case_match; cbn; by rewrite IH. Qed.
Lemma flags_has_list persistent : 0 <= list_flags persistent < 128 /\
  let has mask := negb (Z.land (u8 (list_flags persistent)) mask =? 0) in
  has 0x01 = false /\ has 0x02 = true /\ has 0x04 = tagged /\ has 0x08 = ver /\ has 0x10 = false /\ has 0x20 = persistent.
Proof. unfold list_flags. by destruct ver, tagged, persistent. Qed.
Lemma resize_fresh {A} (a : A) n : ObjectPartList.resize a (Z.of_nat n) [] = Ok ([] ++ replicate n a).
Proof. unfold ObjectPartList.resize. destruct (Z.ltb_spec (Z.of_nat n) 0); [lia|]. by rewrite Nat2Z.id, take_nil, Nat.sub_0_r. Qed.

(** The number and the entries; [length_s32] is what the client takes for the number. *)
Lemma length_s32 (es : list wire_entry) off : short keys -> (off + length es <= length keys)%nat ->
  s32 (Z.of_nat (length es)) = Z.of_nat (length es) /\ s32 (Z.of_nat off) = Z.of_nat off.
Proof. intros Hs Hl. unfold short in Hs. split; (apply wrapS_id; [lia|unfold in_s; lia]). Qed.
Lemma takes_objects es off vs xs r ml (g : G) : Forall entry_ok es -> short keys -> indexed vs r.1 -> indexed xs r.2 ->
  (off + length es <= length keys)%nat -> below off r.1 -> below off r.2 ->
  exists es' vs' xs', Forall2 same_entry es es' /\ indexed vs' (note_all off es' r).1 /\ indexed xs' (note_all off es' r).2 /\
  takes (ObjectPartList.read_objects to_utf8 user place (Z.of_nat off) []) (enc_unsignedVL (Z.of_nat (length es)) ++ (es ≫= enc_entry)) ml
    (reading (Z.of_nat off) vs xs [] [], g) (Z.of_nat (length es)) ml (reading (Z.of_nat off) vs' xs' (mark <$> es') [], g).
Proof.
  intros He Hs Hv Hx Hl Bv Bx. destruct (length_s32 es off Hs Hl) as [Hn _]. unfold short in *.
  destruct (takes_parts es off [] vs xs r [] (Z.of_nat off) ml g) as (es' & vs1 & xs1 & Ses & Hv1 & Hx1 & Hparts); try done;
    rewrite ?Nat.add_0_r in *; try done. exists es', vs1, xs1. do 3 (split; [done|]).
  eapply takes_bind; [apply takes_on_input, reads_unsignedVL; lia|]. rewrite Hn.
  eapply takes_bind0; [apply takes_get_list|]. eapply takes_bind0; [apply takes_lift, (resize_fresh 0)|].
  eapply takes_bind0; [apply (takes_set_list (ObjectPartList.set_byteArray _))|].
  unfold ObjectPartList.for_index. rewrite Nat2Z.id. eapply takes_then; [exact Hparts|apply takes_ret].
Qed.
Lemma takes_versionTags persistent tags offset vs xs bytes ml (g : G) : list_tags_ok persistent 0 tags -> Z.of_nat (length tags) < 2 ^ 31 ->
  takes (ObjectPartList.read_versionTags to_utf16 to_utf8 user place syncCounter persistent)
    (enc_unsignedVL (Z.of_nat (length tags)) ++ (tags ≫= enc_list_tag)) ml (reading offset vs xs bytes [], g) (Z.of_nat (length tags))
    (tags_received mem [] tags ml).2 (reading offset vs xs bytes (tags_received mem [] tags ml).1, g).
Proof.
  intros Ht Hl. pose proof (takes_tags persistent tags [] [] offset vs xs bytes ml g Ht) as Htags.
  eapply takes_bind; [apply takes_on_input, reads_unsignedVL; lia|]. rewrite wrapS_id by (lia || (unfold in_s; lia)).
  eapply takes_bind0; [apply takes_get_list|]. eapply takes_bind0; [apply takes_lift, (resize_fresh None)|].
  eapply takes_bind0; [apply (takes_set_list (ObjectPartList.set_versionTags _))|]. eapply takes_bind0; [apply takes_ret|].
  rewrite Nat2Z.id. eapply takes_then; [exact Htags|apply takes_ret].
Qed.

Lemma takes_list persistent es tags off vs xs r ml (g : G) : tagged = true -> Forall entry_ok es -> list_tags_ok persistent 0 tags -> length tags = length es ->
  short keys -> (off + length es <= length keys)%nat -> indexed vs r.1 -> indexed xs r.2 -> below off r.1 -> below off r.2 ->
  exists es', Forall2 same_entry es es' /\ forall vals' g',
    settle_all (tags_received mem [] tags ml).2 off es' (tags_received mem [] tags ml).1 (note_all off es' r).1 g = Ok (vals', g') ->
    exists vs' xs', indexed vs' vals' /\ indexed xs' (note_all off es' r).2 /\
    takes (ObjectPartList.fromData to_utf16 to_utf8 user place syncCounter) (enc_list persistent es tags) ml
      (ObjectPartList.for_values (Some keys) (Some (Z.of_nat off)) (Some vs) (Some xs) resultKeys true (Some trackers) destroyTracker add mem, g) tt
      (tags_received mem [] tags ml).2
      (reading (Z.of_nat (off + length es)) vs' xs' (mark <$> es') (tags_received mem [] tags ml).1, g').
Proof.
  intros Htag He Ht Hlen Hs Hl Hv Hx Bv Bx. destruct (length_s32 es off Hs Hl) as [Hn Hoff].
  destruct (takes_objects es off vs xs r ml g) as (es' & vs1 & xs1 & Ses & Hv1 & Hx1 & Hparts); try done.
  exists es'. split; [done|]. intros vals' g' Hset. pose proof (Forall2_length Ses) as Hes.
  pose proof (takes_versionTags persistent tags (Z.of_nat off) vs1 xs1 (mark <$> es') ml g Ht) as Htags.
  destruct (takes_stores es' off 0 (mark <$> es') (tags_received mem [] tags ml).1 (tags_received mem [] tags ml).1 vs1 (note_all off es' r).1 vals' xs1 (Z.of_nat off)
    (tags_received mem [] tags ml).2 g g' eq_refl eq_refl) as (vs' & Hv' & Hst); rewrite ?Nat.add_0_r; rewrite ?length_tags; try done; try lia.
  { by apply note_all_pending. }
  exists vs', xs1. do 2 (split; [done|]). clear Hset. unfold short in Hs. rewrite Hlen in *. rewrite <- Hes in *.
  unfold ObjectPartList.fromData, enc_list. rewrite Hlen. destruct (flags_has_list persistent) as (F0 & F1 & F2 & F3 & F4 & F5 & F6).
  eapply takes_bind; [by apply takes_on_input, reads_byte_is|]. rewrite F1, F2, F3, F4, F5, F6. cbv zeta.
  eapply takes_bind0; [apply takes_set_list|]. eapply takes_bind0; [apply takes_get_list|].
  match goal with |- context [s32 (default 0 (ObjectPartList.m_keysOffset ?l))] => change (s32 (default 0 (ObjectPartList.m_keysOffset l))) with (s32 (Z.of_nat off)) end.
  rewrite Hoff. eapply takes_bind0; [apply takes_ret|]. eapply takes_bind0; [apply takes_ret|]. cbv beta iota.
  rewrite (app_assoc (enc_unsignedVL _) (es ≫= enc_entry)). eapply takes_bind; [exact Hparts|]. rewrite Htag. eapply takes_then; [apply Htags; lia|].
  eapply takes_bind0; [unfold ObjectPartList.for_index, when; rewrite Nat2Z.id; exact Hst|].
  eapply takes_bind0; [apply takes_set_list|]. cbn [ObjectPartList.m_keysOffset reading fmap option_fmap option_map].
  rewrite Nat2Z.inj_add, wrapU_id by (unfold in_u; lia). apply takes_ret.
Qed.

(** Throws [x] on the bytes [l]. *)
Definition fails {A} (m : M A) (l : list Z) (ml : Members) (s : ObjectPartList.t (U := U) * G) (x : exn) : Prop := forall pre rest,
  Z.of_nat (length (pre ++ l ++ rest)) < 2 ^ 62 -> m (at_ pre (l ++ rest), ml, s) = Throw x.
Lemma fails_bind {A B} (m : M A) (f : A -> M B) l1 l2 ml ml1 s s1 a x : takes m l1 ml s a ml1 s1 -> fails (f a) l2 ml1 s1 x -> fails (m ≫= f) (l1 ++ l2) ml s x.
Proof.
  intros Ht Hf pre rest Hl. rewrite <- app_assoc in Hl |- *. destruct (Ht pre (l2 ++ rest) Hl) as (pre1 & E1 & R1).
  rewrite (st_bind_ok _ _ _ _ _ R1). apply Hf. rewrite !length_app in *. lia.
Qed.
Lemma fails_bind0 {A B} (m : M A) (f : A -> M B) l ml ml1 s s1 a x : takes m [] ml s a ml1 s1 -> fails (f a) l ml1 s1 x -> fails (m ≫= f) l ml s x.
Proof. apply (fails_bind m f [] l). Qed.
Lemma fails_here {A B} (m : M A) (f : A -> M B) l ml s x : fails m l ml s x -> fails (m ≫= f) l ml s x.
Proof. intros Hf pre rest Hl. by rewrite bind_run, Hf. Qed.

(** Without tags the first tag is written behind the vector of tags, which is empty. *)
Lemma fails_untagged persistent es tags off vs xs r ml (g : G) : tagged = false -> Forall entry_ok es -> es <> [] -> short keys ->
  (off + length es <= length keys)%nat -> indexed vs r.1 -> indexed xs r.2 -> below off r.1 -> below off r.2 ->
  fails (ObjectPartList.fromData to_utf16 to_utf8 user place syncCounter) (enc_list persistent es tags) ml
    (ObjectPartList.for_values (Some keys) (Some (Z.of_nat off)) (Some vs) (Some xs) resultKeys true (Some trackers) destroyTracker add mem, g)
    UndefinedBehaviour.
Proof.
  intros Htag He Hne Hs Hl Hv Hx Bv Bx. destruct (length_s32 es off Hs Hl) as [_ Hoff].
  destruct (takes_objects es off vs xs r ml g) as (es' & vs1 & xs1 & _ & _ & _ & Hparts); try done.
  unfold ObjectPartList.fromData, enc_list. destruct (flags_has_list persistent) as (F0 & F1 & F2 & F3 & F4 & F5 & F6).
  eapply fails_bind; [by apply takes_on_input, reads_byte_is|]. rewrite F1, F2, F3, F4, F5, F6. cbv zeta.
  eapply fails_bind0; [apply takes_set_list|]. eapply fails_bind0; [apply takes_get_list|].
  match goal with |- context [s32 (default 0 (ObjectPartList.m_keysOffset ?l))] => change (s32 (default 0 (ObjectPartList.m_keysOffset l))) with (s32 (Z.of_nat off)) end.
  rewrite Hoff. eapply fails_bind0; [apply takes_ret|]. eapply fails_bind0; [apply takes_ret|]. cbv beta iota.
  rewrite (app_assoc (enc_unsignedVL _) (es ≫= enc_entry)). eapply fails_bind; [exact Hparts|].
  rewrite Htag. apply fails_here, fails_here. unfold ObjectPartList.for_index. rewrite Nat2Z.id. destruct es as [|e es]; [done|]. cbn [length seq st_iter].
  apply fails_here. eapply fails_bind0; [apply takes_get_list|]. intros pre rest _. done.
Qed.
End GetAll.
End Lists.

