(* ===== verification/ChunkClaims.v ===== *)
(** Results in chunks: a message with the values of many keys, from the bytes on the connection to the
    result and the region; what goes wrong with lists and connections. *)
From S2P Require Import Prelude JavaModifiedUtf8 DataOutput DataOutputFacts DataInput DataInputFacts Utf8Strings EventId MemberId Versions MapEntry CacheableString ServerLocation CacheableBuiltins BuiltinsFacts TcrMessage MessageFacts MessageParts VersionWire TcrReply ReplyFacts Notifications ReplyClaims BuiltinsClaims VersionFacts SegmentClaims RegionClaims ConcurrentEntriesMap EntriesMap LocalRegion ExpiryTaskManager ExceptionTypes ObjectParts ChunkedResults ChunkFacts.
Import TcrReply.
#[local] Arguments be_bytes : simpl never.
Local Open Scope Z_scope.

Section GetAll.
Context `{AllocatorOk} {U G : Type} `{RegionStore U G} (to_utf16 to_utf8 : list Z -> outcome (list Z)) (user : Serializable.UserTypes U)
  (enc_user : U -> list Z) (user_ok : U -> Prop) `{!UserCodec user enc_user user_ok}
  (place : forall X, list X -> X -> list X) (place_perm : forall X l x, place X l x ≡ₚ x :: l) (syncCounter : Z).
Abbreviation Object_ := (Serializable.t U).
Abbreviation value := (option (Cacheable Object_)).
Abbreviation Message := (TcrReply.t (U := U)).
Abbreviation results := (gmap nat value * gmap nat KeyException)%type.
Abbreviation entry_ok := (entry_ok to_utf16 to_utf8 user user_ok).

(** *** Computations with a result *)

Lemma takes_on_reply {X A} (m : R (U := U) A) l ml msg (x : X) a ml' msg' : takes m l ml msg a ml' msg' ->
  takes (Chunked.on_reply m) l ml (msg, x) a ml' (msg', x).
Proof. intros Hm pre rest Hl. destruct (Hm pre rest Hl) as (pre' & Hp & E). exists pre'. split; [done|]. unfold Chunked.on_reply. by rewrite E. Qed.
Lemma takes_all_on_reply {X A} (m : R (U := U) A) l ml msg (x : X) a ml' msg' : takes_all m l ml msg a ml' msg' ->
  takes_all (Chunked.on_reply m) l ml (msg, x) a ml' (msg', x).
Proof. intros Hm pre Hl. destruct (Hm pre Hl) as (pre' & Hp & E). exists pre'. split; [done|]. unfold Chunked.on_reply. by rewrite E. Qed.

(** The security part of a chunk, if its flags announce one. *)
Definition enc_security (security : option (list Z)) : list Z := match security with Some l => enc_part (mkPart 0 (raw l)) | None => [] end.
Definition security_ok (flags : Z) (security : option (list Z)) : Prop :=
  match security with
  | Some l => Z.land flags 0x2 <> 0 /\ Forall (in_s 8) l /\ l <> [] /\ short l
  | None => Z.land flags 0x2 = 0
  end.
Definition with_connection (security : option (list Z)) (msg : Message) : Message :=
  match security with Some l => set_connectionIDBytes (Some l) msg | None => msg end.
Lemma takes_security {X} security flags ml msg (x : X) : security_ok flags security ->
  takes_all (Chunked.secure_part to_utf8 user place flags) (enc_security security) ml (msg, x) tt ml (with_connection security msg, x).
Proof.
  intros Hs. apply takes_all_on_reply. destruct security as [l|]; cbn [security_ok enc_security with_connection] in *.
  - destruct Hs as (Hf & Hb & Hne & Hl). pose proof (takes_secure to_utf8 user place l ml msg Hb Hne Hl) as Ht. unfold readSecureObjectPart in *.
    rewrite (proj2 (Z.eqb_neq _ _) Hf). exact Ht.
  - unfold readSecureObjectPart. rewrite Hs. apply takes_all_last, takes_ret.
Qed.

(** The header of a part with an object of a type. *)
Lemma takes_header type l flags ml (msg : Message) : 0 <= type < 128 -> short ([DSCode.FixedIDByte; type] ++ l) ->
  takes (readChunkPartHeader to_utf8 user place DSCode.FixedIDByte type flags)
    (be_bytes 4 (u32 (TcrMessage.length_ ([DSCode.FixedIDByte; type] ++ l))) ++ [1] ++ [DSCode.FixedIDByte; type]) ml msg
    (OBJECT, Z.of_nat (length ([DSCode.FixedIDByte; type] ++ l))) ml msg.
Proof.
  intros Ht Hs. unfold readChunkPartHeader. eapply takes_bind; [by apply takes_on_input, reads_length|].
  eapply takes_bind; [apply takes_on_input, reads_bool_is|]. rewrite wrapU_id by (unfold in_u, short in *; lia).
  destruct (Z.eqb_spec (Z.of_nat (length ([DSCode.FixedIDByte; type] ++ l))) 0) as [Hz|_]; [cbn in Hz; lia|].
  eapply (takes_bind _ _ [_]); [by apply takes_on_input, reads_byte_is|]. eapply (takes_then _ _ [_]); [by apply takes_on_input, reads_byte_is|].
  rewrite Z.eqb_refl. apply takes_ret.
Qed.

(** *** Chunks of a getAll *)

Record getAll_chunk := mkGetAllChunk {
  c_persistent : bool;
  c_versioned : bool;
  c_entries : list (wire_entry (U := U));
  c_tags : list list_tag;
  c_security : option (list Z)
}.
Definition chunk_part (c : getAll_chunk) : part :=
  mkPart 1 ([DSCode.FixedIDByte; DSFid_VersionedObjectPartList] ++
    enc_list to_utf16 enc_user (c_versioned c) true (c_persistent c) (c_entries c) (c_tags c)).
Definition enc_getAll (c : getAll_chunk) : list Z := enc_part (chunk_part c) ++ enc_security (c_security c).
Record getAll_chunk_ok (c : getAll_chunk) : Prop := {
  gc_entries : Forall entry_ok (c_entries c);
  gc_tags : list_tags_ok to_utf16 to_utf8 syncCounter (c_persistent c) 0 (c_tags c);
  gc_lengths : length (c_tags c) = length (c_entries c);
  gc_short : short (payload (chunk_part c))
}.
(** The same up to the order of hash sets and maps. *)
Record same_chunk (c c' : getAll_chunk) : Prop := {
  same_entries : Forall2 same_entry (c_entries c) (c_entries c');
  same_tags : c_tags c' = c_tags c
}.

Section Keys.
Context (keys : list Object_) (Hkeys : keys_ok user keys) (Hshort : short keys) (destroyTracker : Z) (add : bool) (mem : Z).

(** A result that has the first [off] keys. *)
Record represents (x : Chunked.GetAll (U := U) (G := G)) (off : nat) (r : results) : Prop := {
  rep_keys : Chunked.g_keys x = Some keys;
  rep_values : exists vs, Chunked.g_values x = Some vs /\ indexed keys vs r.1;
  rep_exceptions : exists xs, Chunked.g_exceptions x = Some xs /\ indexed keys xs r.2;
  rep_offset : Chunked.g_keysOffset x = Z.of_nat off;
  rep_destroy : Chunked.g_destroyTracker x = destroyTracker;
  rep_add : Chunked.g_addToLocalCache x = add;
  rep_below : below off r.1 /\ below off r.2
}.

(** What a chunk does: values and exceptions are noted, and the values meet the region. *)
Definition receive_chunk (off : nat) (c : getAll_chunk) (ml : Members) (r : results) : ST G (results * Members) :=
  let tags := tags_received to_utf16 syncCounter mem [] (c_tags c) ml in
  let noted := note_all off (c_entries c) r in
  vals ← settle_all keys destroyTracker add tags.2 off (c_entries c) tags.1 noted.1;
  mret ((vals, noted.2), tags.2).
Fixpoint receive_chunks (off : nat) (cs : list getAll_chunk) (ml : Members) (r : results) : ST G (results * Members) :=
  match cs with
  | [] => mret (r, ml)
  | c :: cs => '(r, ml) ← receive_chunk off c ml r; receive_chunks (off + length (c_entries c)) cs ml r
  end.

Lemma note_all_below es : forall i r, below i r.1 -> below i r.2 ->
  below (i + length es) (note_all (U := U) i es r).1 /\ below (i + length es) (note_all i es r).2.
Proof.
  induction es as [|e es IH]; intros i r B1 B2; [by rewrite Nat.add_0_r|]. destruct (note_below i e r B1 B2) as [C1 C2].
  cbn [note_all length]. rewrite <- Nat.add_succ_comm. by apply IH.
Qed.
Lemma settle_all_above ml es : forall i tags vals g vals' g' j, settle_all keys destroyTracker add ml i es tags vals g = Ok (vals', g') ->
  (i + length es <= j)%nat -> vals' !! j = vals !! j.
Proof.
  induction es as [|e es IH]; intros i tags vals g vals' g' j Hs Hj; [by destruct tags; injection Hs as <- _|].
  destruct tags as [|tag tags]; [by injection Hs as <- _|]. cbn [settle_all] in Hs. rewrite bind_run in Hs. cbn [length] in Hj.
  destruct (settle keys destroyTracker add ml i e tag vals g) as [[vals1 g1]|x] eqn:E; [|done].
  rewrite (IH _ _ _ _ _ _ j Hs) by lia. apply (settle_other _ _ _ _ _ _ _ _ _ _ _ _ E). lia.
Qed.

Lemma takes_fromData x l ml ml' msg l' g' :
  takes (ObjectPartList.fromData to_utf16 to_utf8 user place syncCounter) l ml (Chunked.getAll_list x mem, Chunked.g_region x) tt ml' (l', g') ->
  takes (Chunked.getAll_fromData to_utf16 to_utf8 user place syncCounter mem) l ml (msg, x) tt ml' (msg, Chunked.getAll_back l' g' x).
Proof.
  intros Hm pre rest Hl. destruct (Hm pre rest Hl) as (pre' & Hp & E). exists pre'. split; [done|]. unfold Chunked.getAll_fromData. by rewrite E.
Qed.

Lemma takes_getAll_chunk c flags x off r ml msg : getAll_chunk_ok c -> security_ok flags (c_security c) -> represents x off r ->
  (off + length (c_entries c) <= length keys)%nat -> exists c', same_chunk c c' /\ forall r' ml' g',
    receive_chunk off c' ml r (Chunked.g_region x) = Ok ((r', ml'), g') -> exists x', represents x' (off + length (c_entries c)) r' /\
    Chunked.g_region x' = g' /\
    takes_all (Chunked.getAll_handleChunk to_utf16 to_utf8 user place syncCounter mem flags) (enc_getAll c) ml (msg, x) tt ml'
      (with_connection (c_security c) msg, x').
Proof.
  intros [He Ht Hl Hsh] Hsec [Rk (vs & Ev & Hv) (xs & Ex & Hx) Ro Rd Ra [B1 B2]] Hlen.
  destruct (takes_list to_utf16 to_utf8 user enc_user user_ok place place_perm syncCounter keys Hkeys (Chunked.g_resultKeys x) (Chunked.g_trackerMap x)
    destroyTracker add mem (c_versioned c) true (c_persistent c) (c_entries c) (c_tags c) off vs xs r ml (Chunked.g_region x)) as (es' & Ses & Hgo); try done.
  exists (mkGetAllChunk (c_persistent c) (c_versioned c) es' (c_tags c) (c_security c)). split; [by split|]. intros r' ml' g' Hr.
  unfold receive_chunk in Hr. cbn [c_entries c_tags] in Hr. rewrite bind_run in Hr.
  destruct (settle_all keys destroyTracker add _ off es' _ _ _) as [[vals g1]|e] eqn:E; [|done]. injection Hr as <- <- <-.
  destruct (Hgo vals g1 eq_refl) as (vs' & xs' & Hv' & Hx' & Htk). pose proof (Forall2_length Ses) as Hes.
  destruct (note_all_below es' off r B1 B2) as [C1 C2].
  exists (Chunked.getAll_back (reading keys (Chunked.g_resultKeys x) (Chunked.g_trackerMap x) destroyTracker add mem (c_versioned c) true
    (Z.of_nat (off + length (c_entries c))) vs' xs' (mark <$> es') (tags_received to_utf16 syncCounter mem [] (c_tags c) ml).1) g1 x).
  split; [|split; [done|]].
  - split; cbn; try done; [by exists vs'|by exists xs'|]. rewrite Hes. split; [|exact C2]. intros j Hj. rewrite (settle_all_above _ _ _ _ _ _ _ _ _ E Hj).
    by apply C1.
  - unfold enc_getAll, chunk_part in *. cbn [payload] in Hsh. unfold Chunked.getAll_handleChunk. rewrite enc_part_eq, (app_assoc [1]), !(app_assoc (be_bytes 4 _)), <- app_assoc.
    eapply takes_all_bind; [by apply takes_on_reply, takes_header|].
    eapply takes_all_bind; [apply takes_fromData|by apply takes_security].
    unfold Chunked.getAll_list. rewrite Rk, Ro, Ev, Ex, Rd, Ra. exact Htk.
Qed.

(** *** The processing of a message *)

Context (threaded : bool).
Abbreviation State := (ChunkProcessing.State (U := U) (X := Chunked.GetAll (U := U) (G := G))).
#[local] Instance the_result : ChunkProcessing.ChunkedResult U (Chunked.GetAll (U := U) (G := G)) :=
  ChunkProcessing.getAll_result to_utf16 to_utf8 user place syncCounter.
Abbreviation Result := (ChunkProcessing.Result (X := Chunked.GetAll (U := U) (G := G))).

(** A reply to a getAll. *)
Record awaits (msg : Message) : Prop := {
  awaits_tcdm : is_Some (m_tcdm msg);
  awaits_type : m_msgType msg = MsgType.RESPONSE;
  awaits_request : m_msgTypeRequest msg ∈ [MsgType.GET_ALL_70; MsgType.GET_ALL_WITH_CALLBACK]
}.
Lemma awaits_security security msg : awaits msg -> awaits (with_connection security msg).
Proof. intros [? ? ?]. by destruct security. Qed.

Record good (R : Result) (off : nat) (r : results) (g : G) : Prop := {
  good_semaphore : ChunkProcessing.finalize_semaphore_ R = Some false;
  good_ex : ChunkProcessing.m_ex R = None;
  good_contents : represents (ChunkProcessing.contents R) off r;
  good_region : Chunked.g_region (ChunkProcessing.contents R) = g
}.

(** The flags of a chunk are noted. *)
Definition flagged (flags : Z) (msg : Message) : Message :=
  let msg := set_isLastChunk flags msg in if flag flags 0x01 && negb (flag flags 0x04) then set_feAnotherHop true msg else msg.
Lemma awaits_flagged flags msg : awaits msg -> awaits (flagged flags msg).
Proof. intros [? ? ?]. unfold flagged. by destruct (flag flags 0x01 && negb (flag flags 0x04)). Qed.

(** The chunks of the reply to a getAll go to its result. *)
Lemma processChunk_getAll chunk len flags ml msg R text : awaits msg ->
  ChunkProcessing.processChunk to_utf8 user place threaded chunk len mem flags (ml, (msg, Some R, text)) =
  ChunkProcessing.pass_chunk threaded chunk len mem flags (ml, (flagged flags msg, Some R, text)).
Proof.
  intros Ha. pose proof (awaits_flagged flags msg Ha) as [[dm Ht] Hty Hr].
  transitivity ((m ← ChunkProcessing.get_message (X := Chunked.GetAll (U := U) (G := G)); match m_tcdm m with None => st_throw FatalInternalException | Some _ =>
    ChunkProcessing.pass_or_skip to_utf8 user place threaded chunk len mem flags end) (ml, (flagged flags msg, Some R, text))).
  - unfold ChunkProcessing.processChunk. rewrite bind_run. cbn [ChunkProcessing.set_message st_modify fst snd].
    assert (E : ChunkProcessing.handleSpecialFECase (ml, (set_isLastChunk flags msg, Some R, text)) = Ok (tt, (ml, (flagged flags msg, Some R, text)))).
    { unfold ChunkProcessing.handleSpecialFECase, flagged. rewrite bind_run. cbn [ChunkProcessing.get_message st_gets fst snd].
      change (m_isLastChunkAndisSecurityHeader (set_isLastChunk flags msg)) with flags. by destruct (flag flags 0x01 && negb (flag flags 0x04)). }
    unfold ChunkProcessing.set_message, st_modify. cbn [fst snd]. rewrite bind_run, E, !bind_run. cbn [ChunkProcessing.get_message st_gets fst snd]. rewrite Ht, Hty.
    rewrite !elem_of_cons in Hr. destruct Hr as [Hr|[Hr|Hr]]; [rewrite Hr; by eval_types..|by apply elem_of_nil in Hr].
  - rewrite bind_run. cbn [ChunkProcessing.get_message st_gets fst snd]. rewrite Ht. done.
Qed.

Lemma process_getAll_chunk c flags off r ml msg R g text : getAll_chunk_ok c -> security_ok (u8 flags) (c_security c) -> short (enc_getAll c) ->
  awaits msg -> good R off r g -> (off + length (c_entries c) <= length keys)%nat -> exists c', same_chunk c c' /\ forall r' ml' g',
    receive_chunk off c' ml r g = Ok ((r', ml'), g') -> exists msg' R', awaits msg' /\ good R' (off + length (c_entries c)) r' g' /\
    process_chunk to_utf8 user place threaded mem (enc_getAll c, flags) (ml, (msg, Some R, text)) = Ok (tt, (ml', (msg', Some R', text))).
Proof.
  intros Hc Hsec Hs Ha [Gs Ge Gc Gr] Hl.
  destruct (takes_getAll_chunk c (u8 flags) (ChunkProcessing.contents R) off r ml (flagged (u8 flags) msg) Hc Hsec Gc Hl) as (c' & Sc & Hgo).
  exists c'. split; [done|]. intros r' ml' g' Hr. rewrite <- Gr in Hr. destruct (Hgo r' ml' g' Hr) as (x' & Rx & Gx & Ht).
  eexists _, (ChunkProcessing.mkResult (Some false) None (ChunkProcessing.m_inSameThread R) mem x'). split; [|split].
  3:{ unfold process_chunk. cbn [fst snd]. rewrite processChunk_getAll by done. unfold ChunkProcessing.pass_chunk. rewrite bind_run.
      cbn [ChunkProcessing.get_chunked st_gets fst snd]. rewrite bind_run. cbn [ChunkProcessing.set_chunked st_modify fst snd].
      unfold ChunkProcessing.set_chunked, st_modify. cbn [fst snd]. rewrite bind_run. unfold ChunkProcessing.queueChunk, ChunkProcessing.context_handleChunk.
      destruct (enc_getAll c) as [|b bs] eqn:Eb; [by unfold enc_getAll in Eb|]. cbn [ChunkProcessing.m_ex ChunkProcessing.setEndpointMemId]. rewrite Ge.
      cbn [ChunkProcessing.contents ChunkProcessing.m_dsmemId ChunkProcessing.cr_handleChunk the_result ChunkProcessing.getAll_result].
      unfold ChunkProcessing.with_input. 
      destruct (Ht []) as (pre' & _ & E); [unfold short in *; rewrite ?Eb in *; cbn [app length] in *; lia|].
      change (DataInput.construct (b :: bs) (Z.of_nat (length (b :: bs)))) with (at_ [] (b :: bs)).
      unfold ChunkProcessing.setEndpointMemId. cbn [ChunkProcessing.finalize_semaphore_ ChunkProcessing.m_inSameThread ChunkProcessing.m_dsmemId ChunkProcessing.contents]. rewrite E. rewrite Gs. reflexivity. }
  - by apply awaits_security, awaits_flagged.
  - by split.
Qed.

(** Behind the last chunk. *)
Lemma process_end off r ml msg R g text : awaits msg -> good R off r g -> exists msg' R', represents (ChunkProcessing.contents R') off r /\
  Chunked.g_region (ChunkProcessing.contents R') = g /\ ChunkProcessing.m_ex R' = None /\
  ChunkProcessing.processChunk to_utf8 user place threaded [] 0 mem 0 (ml, (msg, Some R, text)) = Ok (tt, (ml, (msg', Some R', text))).
Proof.
  intros Ha [Gs Ge Gc Gr]. rewrite processChunk_getAll by done. unfold ChunkProcessing.pass_chunk.
  exists (flagged 0 msg), (ChunkProcessing.mkResult (Some (threaded && ChunkProcessing.m_inSameThread R)) None (negb threaded || ChunkProcessing.m_inSameThread R) mem
    (ChunkProcessing.contents R)).
  do 3 (split; [done|]). rewrite bind_run. unfold ChunkProcessing.get_chunked, st_gets, ChunkProcessing.set_chunked, st_modify.
  unfold ChunkProcessing.queueChunk, ChunkProcessing.context_handleChunk, ChunkProcessing.finalize, ChunkProcessing.waitFinalize, ChunkProcessing.setEndpointMemId.
  destruct R as [sem ex same dsm x]. cbn in *. subst. 
  destruct threaded, same; cbn; reflexivity.
Qed.

(** *** Messages *)

Definition total (cs : list getAll_chunk) : nat := sum_list ((fun c => length (c_entries c)) <$> cs).
(** The chunks of a message, and their bytes with flags: the last one is marked as such. *)
Record message_ok (cs : list getAll_chunk) (chunks : list chunk) : Prop := {
  msg_bytes : chunks.*1 = enc_getAll <$> cs;
  msg_chunks : Forall getAll_chunk_ok cs;
  msg_flags : Forall2 (fun c (w : chunk) => security_ok (u8 w.2) (c_security c)) cs chunks;
  msg_framed : chunks_ok chunks;
  msg_keys : (total cs <= length keys)%nat
}.

Lemma same_chunk_refl c : same_chunk c c.
Proof. split; [|done]. apply Forall_Forall2_diag, Forall_forall. by intros [] _; constructor. Qed.

Lemma process_getAll_chunks cs : forall chunks off r ml msg R g text, chunks.*1 = enc_getAll <$> cs -> Forall getAll_chunk_ok cs ->
  Forall2 (fun c (w : chunk) => security_ok (u8 w.2) (c_security c)) cs chunks -> Forall (fun w : chunk => short w.1) chunks ->
  (off + total cs <= length keys)%nat -> awaits msg -> good R off r g -> exists cs', Forall2 same_chunk cs cs' /\ forall r' ml' g',
    receive_chunks off cs' ml r g = Ok ((r', ml'), g') -> exists msg' R', awaits msg' /\ good R' (off + total cs) r' g' /\
    st_iter (process_chunk to_utf8 user place threaded mem) chunks (ml, (msg, Some R, text)) = Ok (tt, (ml', (msg', Some R', text))).
Proof.
  induction cs as [|c cs IH]; intros chunks off r ml msg R g text Hb Hok Hsec Hsh Hl Ha Hg.
  { destruct chunks; [|done]. exists []. split; [done|]. intros r' ml' g' [= <- <- <-]. exists msg, R. unfold total. cbn. by rewrite Nat.add_0_r. }
  destruct chunks as [|[bytes flags] chunks]; [done|]. injection Hb as -> Hb. apply Forall_cons_1 in Hok as [Hc Hok]. apply Forall2_cons_1 in Hsec as [Hsec1 Hsec].
  apply Forall_cons_1 in Hsh as [Hs1 Hsh]. cbn in Hsec1, Hs1. unfold total in Hl. cbn in Hl. fold (total cs) in Hl.
  destruct (process_getAll_chunk c flags off r ml msg R g text Hc Hsec1 Hs1 Ha Hg) as (c' & Sc & Hgo); [lia|].
  assert (Hfail : exists cs', Forall2 same_chunk cs cs') by (exists cs; apply Forall_Forall2_diag, Forall_forall; intros ? _; apply same_chunk_refl).
  pose proof (Forall2_length (same_entries _ _ Sc)) as Hlen.
  destruct (receive_chunk off c' ml r g) as [[[r1 ml1] g1]|e] eqn:E.
  2:{ destruct Hfail as [cs' Scs]. exists (c' :: cs'). split; [by constructor|]. intros r' ml' g' Hr. cbn [receive_chunks] in Hr. rewrite bind_run, E in Hr. done. }
  destruct (Hgo r1 ml1 g1 eq_refl) as (msg1 & R1 & Ha1 & Hg1 & E1).
  destruct (IH chunks (off + length (c_entries c))%nat r1 ml1 msg1 R1 g1 text Hb Hok Hsec Hsh ltac:(lia) Ha1 Hg1) as (cs' & Scs & Hgo').
  exists (c' :: cs'). split; [by constructor|]. intros r' ml' g' Hr. cbn [receive_chunks] in Hr. rewrite bind_run, E, <- Hlen in Hr.
  destruct (Hgo' r' ml' g' Hr) as (msg' & R' & Ha' & Hg' & E'). exists msg', R'. split; [done|]. unfold total. cbn. fold (total cs). rewrite Nat.add_assoc.
  split; [done|]. cbn [st_iter]. by rewrite bind_run, E1.
Qed.

(** C18. The reply to a getAll, in any number of chunks with or without the part of a connection id, is
    taken from the connection, with nothing of what comes behind it. The entries have version tags, as
    servers send them for regions with concurrency checks (of a list without tags see
    [untagged_reply_undefined]). If the region accepts the puts, the result has for every key that was
    asked for, by its place among the keys, the value or the exception that the server sent. Where the
    region refuses a value as older than its own, what [putLocal] reports as the old value takes its
    place; this is meant to be the newer value, but the entries map returns before it sets it, so that it
    is null. The region has seen each value with its version tag, whose members have been entered into
    the list of members. *)
Theorem getAll_read cs c chunks parts tx r ml msg R g text rest e : message_ok cs (c :: chunks) -> in_s 32 tx ->
  is_Some (m_tcdm msg) -> m_msgTypeRequest msg ∈ [MsgType.GET_ALL_70; MsgType.GET_ALL_WITH_CALLBACK] ->
  ChunkProcessing.m_ex R = None -> represents (Chunked.getAll_reset (ChunkProcessing.contents R)) 0 r -> Chunked.g_region (ChunkProcessing.contents R) = g ->
  exists cs', Forall2 same_chunk cs cs' /\ forall r' ml' g', receive_chunks 0 cs' ml r g = Ok ((r', ml'), g') -> exists msg' R',
    represents (ChunkProcessing.contents R') (total cs) r' /\ Chunked.g_region (ChunkProcessing.contents R') = g' /\ ChunkProcessing.m_ex R' = None /\
    TcrConnection.readMessageChunked to_utf8 user place threaded mem
      (TcrConnection.mkConn (enc_response MsgType.RESPONSE parts tx (c :: chunks) ++ rest) e, (ml, (msg, Some R, text))) =
      Ok (tt, (TcrConnection.mkConn rest e, (ml', (msg', Some R', text)))).
Proof.
  intros [Hb Hok Hsec Hfr Hk] Htx Hdm Hreq Hex Hrep Hreg.
  set (msg1 := set_txId tx (set_msgType MsgType.RESPONSE msg)). assert (Ha : awaits msg1) by by split.
  set (R1 := ChunkProcessing.setFinalizeSemaphore (ChunkProcessing.mkResult (ChunkProcessing.finalize_semaphore_ R) (ChunkProcessing.m_ex R)
    (ChunkProcessing.m_inSameThread R) (ChunkProcessing.m_dsmemId R) (Chunked.getAll_reset (ChunkProcessing.contents R)))).
  assert (Hg : good R1 0 r g) by by split.
  assert (Hst : ChunkProcessing.startProcessChunk (ml, (msg1, Some R, text)) = Ok (tt, (ml, (msg1, Some R1, text)))).
  { unfold ChunkProcessing.startProcessChunk. rewrite bind_run. cbn [ChunkProcessing.get_message st_gets fst snd].
    change (m_msgTypeRequest msg1) with (m_msgTypeRequest msg). rewrite !elem_of_cons in Hreq.
    destruct Hreq as [Hr|[Hr|Hr]]; [rewrite Hr; by eval_types..|by apply elem_of_nil in Hr]. }
  destruct (process_getAll_chunks cs (c :: chunks) 0 r ml msg1 R1 g text Hb Hok Hsec) as (cs' & Scs & Hgo); try done.
  { by apply chunks_ok_short. }
  exists cs'. split; [done|]. intros r' ml' g' Hr. destruct (Hgo r' ml' g' Hr) as (msg2 & R2 & Ha2 & Hg2 & E2).
  destruct (process_end (total cs) r' ml' msg2 R2 g' text Ha2 Hg2) as (msg3 & R3 & Hrep3 & Hreg3 & Hex3 & E3). exists msg3, R3. do 3 (split; [done|]).
  etrans; [by apply (message_read (X := Chunked.GetAll (U := U) (G := G)) to_utf8 user place threaded mem MsgType.RESPONSE parts tx c chunks)|]. unfold process_message, begin_message. rewrite !bind_run. unfold ChunkProcessing.set_message, st_modify at 1. cbn [fst snd].
  fold msg1. rewrite Hst, bind_run, (process_chunks_ok _ _ _ _ _ _ _ _ E2). cbn [finish]. by rewrite E3.
Qed.

(** A chunk of a getAll without version tags, as servers send it for a region without concurrency
    checks, is undefined behaviour as soon as it has an entry: the first tag is stored in a vector of
    tags that is empty. *)
Theorem untagged_reply_undefined versioned es flags x off r ml msg rest : Forall entry_ok es -> es <> [] -> represents x off r ->
  (off + length es <= length keys)%nat ->
  let l := [DSCode.FixedIDByte; DSFid_VersionedObjectPartList] ++ enc_list to_utf16 enc_user versioned false false es [] in
  let bytes := enc_part (mkPart 1 l) ++ rest in
  short l -> Z.of_nat (length bytes) < 2 ^ 62 ->
  ChunkProcessing.with_input bytes (Z.of_nat (length bytes)) (Chunked.getAll_handleChunk to_utf16 to_utf8 user place syncCounter mem flags)
    (ml, (msg, x)) = Throw UndefinedBehaviour.
Proof.
  intros He Hne [Rk (vs & Ev & Hv) (xs & Ex & Hx) Ro Rd Ra [B1 B2]] Hl l bytes Hs Hlen. unfold ChunkProcessing.with_input, Chunked.getAll_handleChunk.
  change (DataInput.construct bytes (Z.of_nat (length bytes))) with (at_ [] bytes). unfold bytes in *.
  rewrite enc_part_eq in *. unfold l in *. rewrite (app_assoc [1]), (app_assoc (be_bytes 4 _)), <- (app_assoc (be_bytes 4 _ ++ _)) in *.
  destruct (takes_on_reply _ _ ml msg x _ _ _ (takes_header DSFid_VersionedObjectPartList _ flags ml msg ltac:(done) Hs) [] _ Hlen) as (pre1 & E1 & R1).
  rewrite (st_bind_ok _ _ _ _ _ R1). rewrite bind_run. unfold Chunked.getAll_fromData, Chunked.getAll_list. rewrite Rk, Ro, Ev, Ex, Rd, Ra.
  rewrite (fails_untagged to_utf16 to_utf8 user enc_user user_ok place place_perm syncCounter keys Hkeys (Chunked.g_resultKeys x) (Chunked.g_trackerMap x)
    destroyTracker add mem versioned false false es [] off vs xs r ml (Chunked.g_region x)); try done.
  rewrite !length_app in *. rewrite E1. cbn [length app] in *. lia.
Qed.
End Keys.
End GetAll.

(** *** Examples *)

Module ChunkExamples.
Local Open Scope Z_scope.

Section Examples.
#[local] Existing Instance always_alloc.
#[local] Existing Instance always_alloc_ok.
#[local] Existing Instance number_codec.

(** A region with numbers as keys. *)
Abbreviation OMap := (ConcurrentEntriesMap.t Z (Serializable.t Z)).
#[local] Instance object_map : EntriesMap OMap Z (Serializable.t Z) Z :=
  concurrent_map id (fun _ _ => None) true (fun _ => false) id (fun _ v => (v, true)).
Definition empty_map : OMap := ConcurrentEntriesMap.mk 17 [] 0 true SegmentExamples.env0.
Definition opened_map : OMap := match ConcurrentEntriesMap.open 100 empty_map with Ok m => m | Throw _ => empty_map end.
Definition some_region : LocalRegion.t OMap Z (Serializable.t Z) Z :=
  LocalRegion.mk (RegionExamples.attributes true 0 INVALID_ACTION) false false true false false (Some opened_map) false ∅ (LocalRegion.mkStats 0 0) []
    None 100 (ExpiryTaskManager.mk true ∅ 0) [].
Definition int_key (o : Serializable.t Z) : Z := match o with Serializable.CacheableInt32 n => n | _ => 0 end.
#[local] Instance region_store : RegionStore Z (LocalRegion.t OMap Z (Serializable.t Z) Z) :=
  local_store (E := Z) LocalRegion.local_virtuals int_key share_members.

(** Three keys: a value and an exception in the first chunk, no entry in the second. *)
Definition asked : list (Serializable.t Z) := [Serializable.CacheableInt32 1; Serializable.CacheableInt32 2; Serializable.CacheableInt32 3].
Definition first_chunk : getAll_chunk (U := Z) :=
  mkGetAllChunk false true [EntryValue (Serializable.CacheableInt32 10); EntryFailed [] (literal "no")]
    [FullTag (SentTag ReplyExamples.some_tag); NoTag] None.
Definition second_chunk : getAll_chunk (U := Z) := mkGetAllChunk false true [EntryAbsent] [NoTag] None.
Definition wire_chunks : list chunk := [(enc_getAll Ok number_wire first_chunk, 0); (enc_getAll Ok number_wire second_chunk, 1)].

Definition empty_result : Chunked.GetAll (U := Z) (G := LocalRegion.t OMap Z (Serializable.t Z) Z) :=
  Chunked.mkGetAll some_region (Some asked) (Some []) (Some []) None [] 0 true 0.
Definition some_message : TcrReply.t (U := Z) := new_reply MsgType.GET_ALL_70 false.
Definition start : ChunkProcessing.State (U := Z) (X := Chunked.GetAll (U := Z)) :=
  (sample_members, (some_message, Some (ChunkProcessing.new_result empty_result), [])).
#[local] Instance getAll_of_region : ChunkProcessing.ChunkedResult Z (Chunked.GetAll (U := Z) (G := LocalRegion.t OMap Z (Serializable.t Z) Z)) :=
  ChunkProcessing.getAll_result Ok Ok number_types at_end 0.

(** What is left of the connection, the values, the exceptions and the entries of the region. *)
Definition outcome_of (bytes : list Z) :=
  '(_, (conn, (_, (_, r, _)))) ← TcrConnection.readMessageChunked Ok number_types at_end true 1 (TcrConnection.mkConn bytes TcrConnection.CONN_NODATA, start);
  match r with
  | Some r =>
    let x := ChunkProcessing.contents r in
    '(entries, _) ← LocalRegion.on_entries em_getEntries (Chunked.g_region x);
    Ok (TcrConnection.incoming conn, Chunked.g_values x, Chunked.g_exceptions x, Chunked.g_keysOffset x, entries)
  | None => Throw UndefinedBehaviour
  end.
Example getAll_arrives : outcome_of (enc_response MsgType.RESPONSE 1 5 wire_chunks ++ [77]) =
  Ok ([77], Some [(Serializable.CacheableInt32 3, None); (Serializable.CacheableInt32 1, Some (Obj (Serializable.CacheableInt32 10)))],
      Some [(Serializable.CacheableInt32 2, CacheServer (literal "Exception at remote server: no"))], 3,
      [(Some 1, Some (Obj (Serializable.CacheableInt32 10)))]).
Proof. vm_compute. reflexivity. Qed.

(** The key whose value the server could not read has become a key of the region. *)
Definition keys_after (bytes : list Z) :=
  '(_, (_, (_, (_, r, _)))) ← TcrConnection.readMessageChunked Ok number_types at_end true 1 (TcrConnection.mkConn bytes TcrConnection.CONN_NODATA, start);
  match r with
  | Some r => '(keys, _) ← LocalRegion.on_entries em_getKeys (Chunked.g_region (ChunkProcessing.contents r)); Ok keys
  | None => Throw UndefinedBehaviour
  end.
Example failed_key_enters_region : keys_after (enc_response MsgType.RESPONSE 1 5 wire_chunks) = Ok [1; 2].
Proof. vm_compute. reflexivity. Qed.

(** The server closes the connection: the client reports a timeout. *)
Example closed_is_timeout : outcome_of (take 20 (enc_response MsgType.RESPONSE 1 5 wire_chunks)) = Throw TimeoutException.
Proof. vm_compute. reflexivity. Qed.

(** A reply of a type that the client does not know, cut off: the program ends. *)
Example unknown_type_terminates : outcome_of (take 20 (enc_response 999 1 5 wire_chunks)) = Throw Terminated.
Proof. vm_compute. reflexivity. Qed.

(** However long sending takes, it is not found to be late, and the time left grows. *)
Lemma sending_never_late start finish receiveTimeout : start <= finish -> 0 < receiveTimeout ->
  exists spent, TcrConnection.sendWithTimeouts TcrConnection.CONN_NOERR start finish receiveTimeout = Ok spent /\ receiveTimeout <= receiveTimeout - spent.
Proof. intros Hs Hr. exists (start - finish). unfold TcrConnection.sendWithTimeouts. destruct (Z.leb_spec receiveTimeout (start - finish)); [lia|]. split; [done|lia]. Qed.

Lemma asked_ok : keys_ok number_types asked.
Proof. intros i j Hi Hj. cbn in Hi, Hj. do 3 (destruct i as [|i]; [do 3 (destruct j as [|j]; [by split|]); lia|]). lia. Qed.
Lemma chunks_are_ok : message_ok Ok Ok number_types number_wire (in_s 32) 0 asked [first_chunk; second_chunk] wire_chunks.
Proof.
  split.
  - done.
  - constructor; [|constructor; [|done]].
    + split; [|split; [apply ReplyExamples.some_tag_ok|done]|done|by vm_compute].
      constructor; [done|]. constructor; [|done]. split; [by vm_compute|].
      split; [repeat (constructor; [by vm_compute|]); constructor|done|done|repeat (constructor; [by vm_compute|]); constructor|by vm_compute|by vm_compute].
    + split; [by constructor|done|done|by vm_compute].
  - repeat constructor.
  - split; (split; [done|split; [by vm_compute|split; [by vm_compute|done]]]).
  - cbn. lia.
Qed.
Lemma empty_represents : represents asked 0 true (Chunked.getAll_reset empty_result) 0 (∅, ∅).
Proof.
  split; [done| | |done|done|done|by split].
  - exists []. split; [done|]. split; [intros i; cbn [fst]; rewrite lookup_empty; by intros []|done].
  - exists []. split; [done|]. split; [intros i; cbn [snd]; rewrite lookup_empty; by intros []|done].
Qed.

Lemma getAll_read_witness :
  exists cs', Forall2 same_chunk [first_chunk; second_chunk] cs' /\ forall r' ml' g',
    receive_chunks Ok 0 asked 0 true 1 0 cs' sample_members (∅, ∅) some_region = Ok ((r', ml'), g') -> exists msg' R',
    represents asked 0 true (ChunkProcessing.contents R') 3 r' /\ Chunked.g_region (ChunkProcessing.contents R') = g' /\ ChunkProcessing.m_ex R' = None /\
    TcrConnection.readMessageChunked Ok number_types at_end true 1
      (TcrConnection.mkConn (enc_response MsgType.RESPONSE 1 5 wire_chunks ++ [77]) TcrConnection.CONN_NODATA, start) =
      Ok (tt, (TcrConnection.mkConn [77] TcrConnection.CONN_NODATA, (ml', (msg', Some R', [])))).
Proof.
  apply (getAll_read Ok Ok number_types number_wire (in_s 32) at_end (fun _ _ _ => reflexivity _) 0 asked asked_ok ltac:(by vm_compute) 0 true 1 true
    [first_chunk; second_chunk] _ _ 1 5 (∅, ∅) sample_members some_message (ChunkProcessing.new_result empty_result)).
  - exact chunks_are_ok.
  - done.
  - by eexists.
  - by left.
  - done.
  - exact empty_represents.
  - done.
Defined.

Lemma truncated_message_refused_witness :
  exists x, TcrConnection.readMessageChunked Ok number_types at_end true 1
      (TcrConnection.mkConn (take 20 (enc_response MsgType.RESPONSE 1 5 wire_chunks)) TcrConnection.CONN_NODATA, start) = Throw x /\
    (x = conn_error TcrConnection.CONN_NODATA \/ exists n, x =
      match (begin_message MsgType.RESPONSE 5;; process_chunks Ok number_types at_end true 1 (take n wire_chunks)) start with
      | Ok (y, s') => leave Ok number_types at_end true 1 (default (conn_error TcrConnection.CONN_NODATA) y) s'
      | Throw y => y
      end).
Proof.
  apply (truncated_message_refused Ok number_types at_end true 1 MsgType.RESPONSE 1 5 _ _).
  - by vm_compute.
  - by vm_compute.
  - exact (msg_framed _ _ _ _ _ _ _ _ _ chunks_are_ok).
  - eexists (drop 20 _). symmetry. apply take_drop.
  - by vm_compute.
Defined.

Lemma untagged_reply_undefined_witness :
  let bytes := enc_part (mkPart 1 ([DSCode.FixedIDByte; DSFid_VersionedObjectPartList] ++
    enc_list Ok number_wire false false false [EntryValue (Serializable.CacheableInt32 10)] [])) ++ [] in
  ChunkProcessing.with_input bytes (Z.of_nat (length bytes)) (Chunked.getAll_handleChunk Ok Ok number_types at_end 0 1 1)
    (sample_members, (some_message, Chunked.getAll_reset empty_result)) = Throw UndefinedBehaviour.
Proof.
  apply (untagged_reply_undefined Ok Ok number_types number_wire (in_s 32) at_end (fun _ _ _ => reflexivity _) 0 asked asked_ok ltac:(by vm_compute) 0 true 1
    false [EntryValue (Serializable.CacheableInt32 10)] 1 (Chunked.getAll_reset empty_result) 0 (∅, ∅) sample_members some_message []).
  - by constructor.
  - done.
  - exact empty_represents.
  - cbn. lia.
  - by vm_compute.
  - by vm_compute.
Defined.
End Examples.
End ChunkExamples.
