(* ===== verification/Locators.v ===== *)
(** Locators: the requests of clients and the responses of locators
    (src/cppcache/src/LocatorListRequest.cpp, ClientConnectionRequest.cpp, ClientReplacementRequest.cpp,
    QueueConnectionRequest.cpp, GetAllServersRequest.cpp, and the responses of the same names), the
    connections that carry them (src/cppcache/src/TcpConn.cpp, StreamDataInput.cpp) and the search for servers
    (src/cppcache/src/ThinClientLocatorHelper.cpp).

    A connection is what Boost.Asio reports of its operations: how the one that writes the request ends, and
    how the reads end, one after the other; behind the last one no read completes within its time. A network is
    a function from the history of the exchange and the address to a connection. Times are in milliseconds. *)
From S2P Require Import Prelude DataOutput DataInput Versions CacheableString ServerLocation CacheableBuiltins.

(** *** ServerLocation *)

Module Location.

Record t := mk { m_serverName : list Z; m_port : Z; m_epString : list Z }.

#[export] Instance eq_dec : EqDecision t.
Proof. solve_decision. Defined.

(** The constructors. *)
Definition construct (serverName : list Z) (port : Z) : t := mk serverName port (makeEpString serverName port).
Definition default_ : t := mk [] (-1) [].
Definition of_name (name : list Z) : outcome t := '(serverName, port) ← parseEndpoint name; mret (construct serverName port).

(** [operator==]. *)
Definition eqb (l r : t) : bool := bool_decide (m_serverName l = m_serverName r) && (m_port l =? m_port r).

(** [operator<], by which sets of servers are ordered: the bytes of the names first. *)
Fixpoint string_less (s r : list Z) : bool :=
  match s, r with
  | [], [] => false
  | [], _ :: _ => true
  | _ :: _, [] => false
  | c :: s, d :: r => if c <? d then true else if d <? c then false else string_less s r
  end.
Definition less (l r : t) : bool :=
  if string_less (m_serverName l) (m_serverName r) then true
  else if bool_decide (m_serverName l = m_serverName r) then m_port l <? m_port r
  else false.

Definition isValid (l : t) : bool := negb (bool_decide (m_serverName l = [])) && (0 <=? m_port l).

(** [std_hash] is [std::hash<std::string>]. The sums of [int] wrap around. *)
Definition hashcode (std_hash : list Z -> Z) (l : t) : Z :=
  let prime := 31 in
  let result := 1 in
  let result := s32 (prime * result + s32 (std_hash (m_serverName l))) in
  s32 (prime * result + m_port l).

Definition toData `{Allocator} (to_utf16 : list Z -> outcome (list Z)) (l : t) : ST DataOutput.t unit :=
  DataOutput.writeString_string to_utf16 (m_serverName l);;
  DataOutput.writeInt_int32 (m_port l).

End Location.

(** *** TcpConn *)

Module TcpConn.

Inductive error_code := success | eof | try_again | failure.

(** How an operation ended: the arguments of its handler, or [None] if the handler was not called in time. *)
Record read_op := mkRead { read_handler : option (error_code * list Z); elapsed : Z }.
Definition write_op : Type := option (error_code * Z).

(** What the handler keeps of an error. *)
Definition kept (ec : error_code) : option error_code :=
  match ec with eof | try_again => None | _ => Some ec end.
Definition failed (result : option error_code) : bool :=
  match result with Some success | None => false | Some _ => true end.

Definition receive (op : read_op) (len : Z) (throwTimeoutException : bool) : outcome (list Z) :=
  let '(read_result, bytes) := match read_handler op with
                               | Some (ec, bytes) => (kept ec, bytes)
                               | None => (None, [])
                               end in
  if failed read_result then Throw SystemError
  else if Z.of_nat (length bytes) =? 0 then Throw SystemError
  else if negb (Z.of_nat (length bytes) =? len) && throwTimeoutException then Throw SystemError
  else Ok bytes.
Definition receive_nothrowiftimeout (op : read_op) (len : Z) : outcome (list Z) := receive op len false.

Definition send (op : write_op) (len : Z) : outcome Z :=
  let '(write_result, bytes_written) := match op with Some (ec, n) => (kept ec, n) | None => (None, 0) end in
  if failed write_result then Throw SystemError
  else if negb (bytes_written =? len) then Throw SystemError
  else Ok bytes_written.

End TcpConn.

(** *** StreamDataInput *)

Module StreamDataInput.

Record t := mk { input : DataInput.t; connector : list TcpConn.read_op; remainingTimeBeforeTimeout : Z }.

Definition construct (timeout : Z) (conn : list TcpConn.read_op) : t := mk (DataInput.construct [] 0) conn timeout.

Definition kBufferSize : Z := 3000.

(** [memcpy] of what was received behind the data that are there; the cursor stays. *)
Definition append (received : list Z) (d : DataInput.t) : DataInput.t :=
  DataInput.mk (DataInput.buffer d ++ received) (DataInput.pos d) (DataInput.bufferLength d + Z.of_nat (length received)).

Fixpoint receive_loop (size : Z) (d : DataInput.t) (conn : list TcpConn.read_op) (time : Z) : outcome t :=
  if DataInput.getBytesRemaining d <? size then
    match conn with
    | [] => Throw SystemError
    | op :: conn =>
      received ← TcpConn.receive_nothrowiftimeout op kBufferSize;
      let time := time - TcpConn.elapsed op in
      if time <=? 0 then Throw TimeoutException else receive_loop size (append received d) conn time
    end
  else Ok (mk d conn time).
Definition readDataIfNotAvailable (size : Z) : ST t unit := fun s =>
  s' ← receive_loop size (input s) (connector s) (remainingTimeBeforeTimeout s); Ok (tt, s').
Definition _checkBufferSize (size : Z) : ST t unit := readDataIfNotAvailable size.

(** The readers of [DataInput], with the guard that this class overrides. *)
Definition on_buffer {A} (m : ST DataInput.t A) : ST t A := fun s =>
  '(a, d) ← m (input s); Ok (a, mk d (connector s) (remainingTimeBeforeTimeout s)).

Definition read : ST t Z := _checkBufferSize 1;; on_buffer DataInput.readNoCheck.
Definition readBoolean : ST t bool := _checkBufferSize 1;; on_buffer (b ← DataInput.loadByte; mret (b =? 1)).
Definition readInt16 : ST t Z := _checkBufferSize 2;; on_buffer DataInput.readInt16NoCheck.
Definition readInt32 : ST t Z := _checkBufferSize 4;; on_buffer (tmp ← DataInput.loadByte; DataInput.shiftIn 32 3 tmp).
Definition rewindCursor (offset : Z) : ST t unit := on_buffer (DataInput.rewindCursor offset).

Definition readAscii_len (length : Z) : ST t (list Z) :=
  _checkBufferSize length;;
  on_buffer (st_repeat (Z.to_nat length) (b ← DataInput.readNoCheck; mret (Z.land b 0x7F))).
Definition readAscii : ST t (list Z) := n ← readInt16; readAscii_len (u16 n).
Definition readAsciiHuge : ST t (list Z) := n ← readInt32; readAscii_len (u32 n).
Definition readJavaModifiedUtf8 : ST t (list Z) :=
  n ← readInt16;
  let length := u16 n in
  _checkBufferSize length;;
  on_buffer (d ← st_get;
             value ← st_lift (JavaModifiedUtf8.JavaModifiedUtf8.decode (drop (Z.to_nat (DataInput.pos d)) (DataInput.buffer d)) length);
             DataInput.advanceCursor length;;
             mret value).
Definition readUtf16Huge : ST t (list Z) :=
  n ← readInt32;
  let length := u32 n in
  _checkBufferSize length;;
  on_buffer (st_repeat (Z.to_nat length) (c ← DataInput.readInt16NoCheck; mret (u16 c))).

Definition readString (to_utf8 : list Z -> outcome (list Z)) : ST t (list Z) :=
  type ← read;
  if type =? DataOutput.CacheableString then utf16 ← readJavaModifiedUtf8; st_lift (to_utf8 utf16)
  else if type =? DataOutput.CacheableStringHuge then utf16 ← readUtf16Huge; st_lift (to_utf8 utf16)
  else if type =? DataOutput.CacheableASCIIString then readAscii
  else if type =? DataOutput.CacheableASCIIStringHuge then readAsciiHuge
  else mret [].

End StreamDataInput.

(** *** Requests and responses *)

Module DSFid.
Definition LocatorListRequest : Z := -54.
Definition ClientConnectionRequest : Z := -53.
Definition QueueConnectionRequest : Z := -52.
Definition LocatorListResponse : Z := -51.
Definition ClientConnectionResponse : Z := -50.
Definition QueueConnectionResponse : Z := -49.
Definition ClientReplacementRequest : Z := -48.
Definition GetAllServersRequest : Z := -43.
Definition GetAllServersResponse : Z := -42.
Definition ClientProxyMembershipId : Z := 38.
End DSFid.

(** A set of locations is the list of its elements in the order of iteration. *)
Inductive Request :=
| LocatorListRequest (m_servergroup : list Z)
| ClientConnectionRequest (m_excludeServergroup : list Location.t) (m_servergroup : list Z)
| ClientReplacementRequest (m_serverLocation : Location.t) (m_excludeServergroup : list Location.t) (m_servergroup : list Z)
| QueueConnectionRequest (dsMemberId : list Z) (m_excludedServers : list Location.t) (m_redundantCopies : Z)
    (m_findDurable : bool) (m_serverGp : list Z)
| GetAllServersRequest (m_serverGroup : list Z).

(** Another object, or the null pointer, is no response. *)
Inductive Response :=
| LocatorListResponse (m_locators : list Location.t) (m_isBalanced : bool)
| ClientConnectionResponse (m_serverFound : bool) (m_server : Location.t)
| QueueConnectionResponse (m_durableQueueFound : bool) (m_list : list Location.t)
| GetAllServersResponse (servers_ : list Location.t)
| OtherObject.

Module LocatorMessages.
Section Wire.
Context `{Allocator} (to_utf16 to_utf8 : list Z -> outcome (list Z)).

Definition getDSFID (r : Request) : Z :=
  match r with
  | LocatorListRequest _ => DSFid.LocatorListRequest
  | ClientConnectionRequest _ _ => DSFid.ClientConnectionRequest
  | ClientReplacementRequest _ _ _ => DSFid.ClientReplacementRequest
  | QueueConnectionRequest _ _ _ _ _ => DSFid.QueueConnectionRequest
  | GetAllServersRequest _ => DSFid.GetAllServersRequest
  end.

Definition writeSetOfServerLocation (servers : list Location.t) : ST DataOutput.t unit :=
  DataOutput.writeInt_int32 (s32 (Z.of_nat (length servers)));; st_iter (Location.toData to_utf16) servers.

Definition connection_toData (excluded : list Location.t) (servergroup : list Z) : ST DataOutput.t unit :=
  DataOutput.writeString_string to_utf16 servergroup;; writeSetOfServerLocation excluded.
Definition queue_toData (dsMemberId : list Z) (excludedServers : list Location.t) (redundantCopies : Z) (findDurable : bool)
    (serverGp : list Z) : ST DataOutput.t unit :=
  DataOutput.writeString_string to_utf16 serverGp;;
  DataOutput.write_int8 DSCode.FixedIDByte;;
  DataOutput.write_int8 DSFid.ClientProxyMembershipId;;
  DataOutput.writeBytes (Some dsMemberId) (s32 (Z.of_nat (length dsMemberId)));;
  DataOutput.writeInt_int32 1;;
  DataOutput.writeInt_int32 redundantCopies;;
  writeSetOfServerLocation excludedServers;;
  DataOutput.writeBoolean findDurable.

Definition toData (r : Request) : ST DataOutput.t unit :=
  match r with
  | LocatorListRequest servergroup => DataOutput.writeString_string to_utf16 servergroup
  | ClientConnectionRequest excluded servergroup => connection_toData excluded servergroup
  | ClientReplacementRequest serverLocation excluded servergroup =>
    connection_toData excluded servergroup;; Location.toData to_utf16 serverLocation
  | QueueConnectionRequest dsMemberId excluded redundantCopies findDurable serverGp =>
    queue_toData dsMemberId excluded redundantCopies findDurable serverGp
  | GetAllServersRequest serverGroup => CacheableString.serialize to_utf16 serverGroup
  end.

(** [GetAllServersResponse::toData]: an object of an internal class has no header. *)
Definition getAllServers_toData (servers_ : list Location.t) : ST DataOutput.t unit :=
  DataOutput.writeInt_int32 (s32 (Z.of_nat (length servers_)));; st_iter (Location.toData to_utf16) servers_.
(** [GetAllServersRequest::fromData]. *)
Definition getAllServersRequest_fromData {U} (user : Serializable.UserTypes U) (place : forall X, list X -> X -> list X)
    : ST DataInput.t (Serializable.t U) :=
  v ← Serializable.readObject to_utf8 user place; mret (Serializable.string_cast v).

(** [SerializationRegistry::serialize] of an object with a fixed id. *)
Definition write_fixed_id (id : Z) : ST DataOutput.t unit :=
  if (id <=? 127) && (-128 <=? id) then
    DataOutput.write_int8 DSCode.FixedIDByte;; DataOutput.write_int8 (s8 id)
  else if (id <=? 32767) && (-32768 <=? id) then
    DataOutput.write_int8 DSCode.FixedIDShort;; DataOutput.writeInt_int16 (s16 id)
  else DataOutput.write_int8 DSCode.FixedIDInt;; DataOutput.writeInt_int32 id.
Definition serialize (r : Request) : ST DataOutput.t unit := write_fixed_id (getDSFID r);; toData r.

(** [ServerLocation::fromData] of a new object, and the responses. The number of locators is unsigned, the
    other numbers are signed. *)
Definition location_fromData : ST StreamDataInput.t Location.t :=
  m_serverName ← StreamDataInput.readString to_utf8;
  m_port ← StreamDataInput.readInt32;
  mret (Location.construct m_serverName m_port).

Definition locatorList_fromData : ST StreamDataInput.t Response :=
  size ← StreamDataInput.readInt32;
  m_locators ← st_repeat (Z.to_nat (u32 size)) location_fromData;
  m_isBalanced ← StreamDataInput.readBoolean;
  mret (LocatorListResponse m_locators m_isBalanced).
Definition clientConnection_fromData : ST StreamDataInput.t Response :=
  m_serverFound ← StreamDataInput.readBoolean;
  if m_serverFound : bool then m_server ← location_fromData; mret (ClientConnectionResponse true m_server)
  else mret (ClientConnectionResponse false Location.default_).
Definition queueConnection_fromData : ST StreamDataInput.t Response :=
  m_durableQueueFound ← StreamDataInput.readBoolean;
  size ← StreamDataInput.readInt32;
  m_list ← st_repeat (Z.to_nat size) location_fromData;
  mret (QueueConnectionResponse m_durableQueueFound m_list).
Definition getAllServers_fromData : ST StreamDataInput.t Response :=
  numServers ← StreamDataInput.readInt32;
  servers_ ← st_repeat (Z.to_nat numServers) location_fromData;
  mret (GetAllServersResponse servers_).

(** [readObject]. [read_other] reads the objects of all other classes, given the code and the fixed id. *)
Context (read_other : Z -> option Z -> ST StreamDataInput.t unit).
Definition deserializeDataSerializableFixedId (dsCode : Z) : ST StreamDataInput.t Response :=
  fixedId ← (if dsCode =? DSCode.FixedIDByte then StreamDataInput.read
             else if dsCode =? DSCode.FixedIDShort then StreamDataInput.readInt16 else StreamDataInput.readInt32);
  if fixedId =? DSFid.LocatorListResponse then locatorList_fromData
  else if fixedId =? DSFid.ClientConnectionResponse then clientConnection_fromData
  else if fixedId =? DSFid.QueueConnectionResponse then queueConnection_fromData
  else if fixedId =? DSFid.GetAllServersResponse then getAllServers_fromData
  else read_other dsCode (Some fixedId);; mret OtherObject.
Definition readObject : ST StreamDataInput.t Response :=
  dsCode ← StreamDataInput.read;
  if (dsCode =? DSCode.FixedIDByte) || (dsCode =? DSCode.FixedIDShort) || (dsCode =? DSCode.FixedIDInt)
  then deserializeDataSerializableFixedId dsCode
  else read_other dsCode None;; mret OtherObject.

End Wire.
End LocatorMessages.

(** *** ThinClientLocatorHelper *)

Module ThinClientLocatorHelper.

(** What the pool and the system properties say. *)
Record Config := mkConfig {
  retryAttempts : Z;
  readTimeout : Z;
  sslEnabled : bool;
  m_sniProxyHost : list Z;
  m_sniProxyPort : Z
}.

Record t := mk { locators_ : list Location.t; config : Config }.

Definition construct (locators : list (list Z)) (config : Config) : outcome t :=
  locators_ ← mapM Location.of_name locators; mret (mk locators_ config).

(** Where a connection leads to. *)
Record Target := mkTarget { host : list Z; port : Z; ssl : bool; proxy : option (list Z * Z) }.

(** What has happened so far. *)
Inductive event := Connected (target : Target) | Sent (bytes : list Z).
Abbreviation history := (list event).

Record Connection := mkConnection { outgoing : TcpConn.write_op; incoming : list TcpConn.read_op }.

(** The network, and what else differs from time to time: the buffers of the thread and the order in which
    [std::shuffle] leaves the locators. *)
Record Network := mkNetwork {
  establish : history -> Target -> outcome Connection;
  buffers : history -> list DataOutput.BufferDesc;
  shuffle : history -> list Location.t -> list Location.t
}.

(** Computations that may throw; what was done before stays done. *)
Abbreviation Net := (EX history).
Definition happens (e : event) : Net unit := ex_modify (fun h => h ++ [e]).

Definition DEFAULT_CONNECTION_RETRIES : Z := 3.
Definition kGossipVersion : Z := 1002.
Definition current_ordinal : Z := 125.
Definition REPLY_SSL_ENABLED : Z := 21.

Definition getCurLocatorsNum (self : t) : Z := Z.of_nat (length (locators_ self)).

Definition getConnRetries (self : t) : Z :=
  let retries := retryAttempts (config self) in
  if retries <=? 0 then DEFAULT_CONNECTION_RETRIES else retries.

Section Helper.
Context `{Allocator} (to_utf16 to_utf8 : list Z -> outcome (list Z)) (read_other : Z -> option Z -> ST StreamDataInput.t unit)
  (net : Network).

Definition getLocators (self : t) : Net (list Location.t) :=
  match locators_ self with
  | [] => mret []
  | locators => ex_gets (fun h => shuffle net h locators)
  end.

Definition target (self : t) (location : Location.t) : Target :=
  mkTarget (Location.m_serverName location) (u16 (Location.m_port location)) (sslEnabled (config self))
    (if sslEnabled (config self) then
       match m_sniProxyHost (config self) with [] => None | proxyHost => Some (proxyHost, m_sniProxyPort (config self)) end
     else None).
Definition createConnection (self : t) (location : Location.t) : Net Connection := fun h =>
  (happens (Connected (target self location));; ex_lift (establish net h (target self location))) h.

(** The exceptions that no handler of [sendRequest] stops: those that it throws again, and what is not an
    exception. *)
Definition passes (e : exn) : bool :=
  match e with AuthenticationRequiredException | Terminated | UndefinedBehaviour | Diverges => true | _ => false end.
Definition catch_all (m : Net (option Response)) : Net (option Response) := fun h =>
  match m h with
  | (Throw e, h') => if passes e then (Throw e, h') else (Ok None, h')
  | r => r
  end.

(** The bytes of a request. *)
Definition request_bytes (pool : list DataOutput.BufferDesc) (request : Request) : outcome (list Z) :=
  '(data, _) ← DataOutput.construct pool;
  '(_, data) ← (DataOutput.writeInt_int32 kGossipVersion;;
                DataOutput.writeInt_int32 current_ordinal;;
                LocatorMessages.serialize to_utf16 request) data;
  match DataOutput.getBuffer data with Some bytes => Ok bytes | None => Throw UndefinedBehaviour end.

(** The response behind the byte that tells of a locator that expects SSL. *)
Definition read_response (self : t) : ST StreamDataInput.t Response :=
  code ← StreamDataInput.read;
  if (code =? REPLY_SSL_ENABLED) && negb (sslEnabled (config self)) then st_throw AuthenticationRequiredException
  else StreamDataInput.rewindCursor 1;; LocatorMessages.readObject to_utf8 read_other.

Definition sendRequest (self : t) (location : Location.t) (request : Request) : Net (option Response) :=
  catch_all
    (conn ← createConnection self location;
     pool ← ex_gets (buffers net);
     bytes ← ex_lift (request_bytes pool request);
     happens (Sent bytes);;
     sentLength ← ex_lift (TcpConn.send (outgoing conn) (Z.of_nat (length bytes)));
     if sentLength <=? 0 then mret None
     else
       '(response, _) ← ex_lift (read_response self (StreamDataInput.construct (readTimeout (config self)) (incoming conn)));
       mret (Some response)).

(** [locators[attempt % locatorsSize]]. *)
Definition locator_at (locators : list Location.t) (attempt : nat) : outcome Location.t :=
  match locators with
  | [] => Throw UndefinedBehaviour
  | _ => match locators !! (attempt mod length locators)%nat with Some loc => Ok loc | None => Throw UndefinedBehaviour end
  end.

(** The servers stay as they are if no locator answers. *)
Fixpoint all_servers_loop (self : t) (locators : list Location.t) (servers : list Location.t) (serverGrp : list Z)
    : Net (GfErrType * list Location.t) :=
  match locators with
  | [] => mret (GF_NOERR, servers)
  | loc :: locators =>
    response ← sendRequest self loc (GetAllServersRequest serverGrp);
    match response with
    | Some (GetAllServersResponse servers) => mret (GF_NOERR, servers)
    | _ => all_servers_loop self locators servers serverGrp
    end
  end.
Definition getAllServers (self : t) (servers : list Location.t) (serverGrp : list Z) : Net (GfErrType * list Location.t) :=
  locators ← getLocators self; all_servers_loop self locators servers serverGrp.

(** [rest] is [maxAttempts - attempt]. *)
Fixpoint callback_loop (self : t) (locators : list Location.t) (rest attempt : nat) (request : Request) : Net (list Location.t) :=
  match rest with
  | O => ex_lift (Throw NoAvailableLocatorsException)
  | S rest =>
    loc ← ex_lift (locator_at locators attempt);
    response ← sendRequest self loc request;
    match response with
    | Some (QueueConnectionResponse _ servers) => mret servers
    | _ => callback_loop self locators rest (S attempt) request
    end
  end.
Definition getEndpointForNewCallBackConn (self : t) (memId : list Z) (redundancy : Z) (exclEndPts : list Location.t)
    (serverGrp : list Z) : Net (list Location.t) :=
  locators ← getLocators self;
  callback_loop self locators (Z.to_nat (getConnRetries self)) 0
    (QueueConnectionRequest memId exclEndPts redundancy false serverGrp).

Fixpoint forward_loop (self : t) (locators : list Location.t) (rest attempt : nat) (locatorFound : bool)
    (exclEndPts : list Location.t) (serverGrp : list Z) (currentServer : option (list Z)) : Net Location.t :=
  match rest with
  | O => ex_lift (Throw (if locatorFound then NotConnectedException else NoAvailableLocatorsException))
  | S rest =>
    loc ← ex_lift (locator_at locators attempt);
    request ← match currentServer with
              | None => mret (ClientConnectionRequest exclEndPts serverGrp)
              | Some name =>
                serverLocation ← ex_lift (Location.of_name name);
                mret (ClientReplacementRequest serverLocation exclEndPts serverGrp)
              end;
    response ← sendRequest self loc request;
    match response with
    | Some (ClientConnectionResponse false _) => forward_loop self locators rest (S attempt) true exclEndPts serverGrp currentServer
    | Some (ClientConnectionResponse true server) => mret server
    | _ => forward_loop self locators rest (S attempt) locatorFound exclEndPts serverGrp currentServer
    end
  end.
Definition getEndpointForNewFwdConn (self : t) (exclEndPts : list Location.t) (serverGrp : list Z) (currentServer : option (list Z))
    : Net Location.t :=
  locators ← getLocators self;
  forward_loop self locators (Z.to_nat (getConnRetries self)) 0 false exclEndPts serverGrp currentServer.

(** The locators of a response, and behind them the old ones that it does not name. *)
Definition add_old (new_locators : list Location.t) (old_loc : Location.t) : list Location.t :=
  if existsb (fun l => Location.eqb l old_loc) new_locators then new_locators else new_locators ++ [old_loc].

Fixpoint update_loop (self : t) (locators todo : list Location.t) (serverGrp : list Z) : Net (GfErrType * t) :=
  match todo with
  | [] => mret (GF_NOTCON, self)
  | loc :: todo =>
    response ← sendRequest self loc (LocatorListRequest serverGrp);
    match response with
    | Some (LocatorListResponse new_locators _) => mret (GF_NOERR, mk (foldl add_old new_locators locators) (config self))
    | _ => update_loop self locators todo serverGrp
    end
  end.
Definition updateLocators (self : t) (serverGrp : list Z) : Net (GfErrType * t) :=
  locators ← getLocators self; update_loop self locators locators serverGrp.

End Helper.
End ThinClientLocatorHelper.
