(* ===== verification/LocatorClaims.v ===== *)
(** Locators: what is asked and answered survives the connection however it is cut into pieces, the search for a
    server, and the list of locators. *)
From S2P Require Import Prelude JavaModifiedUtf8 DataOutput DataOutputFacts DataInput DataInputFacts Serialization Utf8Strings Versions CacheableString CacheableStringFacts ServerLocation ServerLocationFacts CacheableBuiltins Locators.
#[local] Arguments be_bytes : simpl never.
Local Open Scope Z_scope.

(** *** Streams *)

Module StreamFacts.
Import StreamDataInput.

(** The reads of a connection bring [l], in pieces that are not empty, within the time; what comes behind is
    open. *)
Inductive delivers : list TcpConn.read_op -> list Z -> Z -> Prop :=
| delivers_nil ops time : 0 < time -> delivers ops [] time
| delivers_piece ec piece ms ops l time :
    TcpConn.failed (TcpConn.kept ec) = false -> piece <> [] -> 0 <= ms -> delivers ops l (time - ms) ->
    delivers (TcpConn.mkRead (Some (ec, piece)) ms :: ops) (piece ++ l) time.

Lemma delivers_time ops l time : delivers ops l time -> 0 < time.
Proof. induction 1; lia. Qed.

(** Reads [l], whatever part of it has arrived, and leaves the rest. *)
Definition sreads {A} (m : ST t A) (l : list Z) (a : A) : Prop := forall pre avail ops tail time rest,
  Z.of_nat (length (pre ++ avail ++ tail)) < 2 ^ 62 -> delivers ops tail time -> avail ++ tail = l ++ rest ->
  exists avail' ops' tail' time', m (mk (at_ pre avail) ops time) = Ok (a, mk (at_ (pre ++ l) avail') ops' time') /\
    delivers ops' tail' time' /\ avail' ++ tail' = rest.

Lemma sreads_ret {A} (a : A) : sreads (mret a) [] a.
Proof. intros pre avail ops tail time rest _ Hd E. exists avail, ops, tail, time. by rewrite app_nil_r. Qed.

Lemma sreads_bind {A B} (m : ST t A) (f : A -> ST t B) l1 l2 a b :
  sreads m l1 a -> sreads (f a) l2 b -> sreads (m ≫= f) (l1 ++ l2) b.
Proof.
  intros H1 H2 pre avail ops tail time rest Hl Hd E. rewrite <- app_assoc in E.
  destruct (H1 pre avail ops tail time (l2 ++ rest) Hl Hd E) as (av1 & ops1 & tl1 & tm1 & E1 & Hd1 & Er1).
  destruct (H2 (pre ++ l1) av1 ops1 tl1 tm1 rest) as (av2 & ops2 & tl2 & tm2 & E2 & Hd2 & Er2); [|done|done|].
  - rewrite Er1, <- !app_assoc, <- E. done.
  - exists av2, ops2, tl2, tm2. rewrite (st_bind_ok _ _ _ _ _ E1), E2, <- app_assoc. done.
Qed.

Lemma sreads_bind0 {A B} (m : ST t A) (f : A -> ST t B) l a b :
  sreads m l a -> sreads (f a) [] b -> sreads (m ≫= f) l b.
Proof. intros H1 H2. rewrite <- (app_nil_r l). by eapply sreads_bind. Qed.

Lemma sreads_eq {A} (m : ST t A) l a b : sreads m l a -> a = b -> sreads m l b.
Proof. by intros ? <-. Qed.

Lemma sreads_repeat {A} (m : ST t A) (enc : A -> list Z) xs n :
  n = length xs -> Forall (fun x => sreads m (enc x) x) xs -> sreads (st_repeat n m) (xs ≫= enc) xs.
Proof.
  intros -> H. induction H as [|x xs Hx _ IH]; [apply sreads_ret|]. cbn [st_repeat length]. rewrite bind_cons.
  eapply sreads_bind; [exact Hx|]. eapply sreads_bind0; [exact IH|apply sreads_ret].
Qed.

(** The guard: it waits until [n] bytes are there. *)
Lemma remaining_at pre avail : Z.of_nat (length (pre ++ avail)) < 2 ^ 62 ->
  DataInput.getBytesRemaining (at_ pre avail) = Z.of_nat (length avail).
Proof.
  intros Hl. unfold DataInput.getBytesRemaining, DataInput.getBytesRead, at_. cbn. rewrite length_app in *.
  rewrite wrapU_id; [lia|unfold in_u; lia].
Qed.

Lemma append_at pre avail piece : append piece (at_ pre avail) = at_ pre (avail ++ piece).
Proof. unfold append, at_. cbn. rewrite !length_app, <- app_assoc. f_equal. lia. Qed.

Lemma receive_loop_spec n pre ops tail time : delivers ops tail time -> forall avail,
  Z.of_nat (length (pre ++ avail ++ tail)) < 2 ^ 62 -> n <= Z.of_nat (length (avail ++ tail)) ->
  exists avail' ops' tail' time', receive_loop n (at_ pre avail) ops time = Ok (mk (at_ pre avail') ops' time') /\
    delivers ops' tail' time' /\ avail' ++ tail' = avail ++ tail /\ n <= Z.of_nat (length avail').
Proof.
  induction 1 as [ops time Ht|ec piece ms ops l time Hec Hne Hms Hd IH]; intros avail Hl Hn.
  - exists avail, ops, [], time. rewrite app_nil_r in *. destruct ops; cbn [receive_loop];
      (rewrite remaining_at by done; destruct (Z.ltb_spec (Z.of_nat (length avail)) n); [lia|]);
      (split; [done|]; split; [by constructor|]; by rewrite ?app_nil_r).
  - cbn [receive_loop]. rewrite remaining_at by (rewrite !length_app in *; lia). pose proof (delivers_time _ _ _ Hd) as Hpos.
    destruct (Z.ltb_spec (Z.of_nat (length avail)) n) as [Hlt|Hge].
    + unfold TcpConn.receive_nothrowiftimeout, TcpConn.receive. cbn [TcpConn.read_handler TcpConn.elapsed]. rewrite Hec.
      destruct (Z.eqb_spec (Z.of_nat (length piece)) 0) as [Hz|_]; [by destruct piece|]. rewrite andb_false_r. cbn [mbind outcome_bind].
      destruct (Z.leb_spec (time - ms) 0); [lia|]. rewrite append_at.
      destruct (IH (avail ++ piece)) as (av & o & tl & tm & E & Hd' & Er & Hn'); [by rewrite <- app_assoc|by rewrite <- app_assoc|].
      exists av, o, tl, tm. by rewrite Er, <- app_assoc.
    + exists avail, (TcpConn.mkRead (Some (ec, piece)) ms :: ops), (piece ++ l), time. split; [done|]. split; [by constructor|]. done.
Qed.

Lemma sreads_check {A} (m : ST DataInput.t A) n l a :
  n = Z.of_nat (length l) -> reads m l a -> sreads (_checkBufferSize n;; on_buffer m) l a.
Proof.
  intros -> Hm pre avail ops tail time rest Hl Hd E.
  destruct (receive_loop_spec (Z.of_nat (length l)) pre ops tail time Hd avail Hl) as (av & o & tl & tm & E1 & Hd1 & Er & Hn).
  { rewrite E, length_app. lia. }
  assert (Hav : exists r, av = l ++ r /\ r ++ tl = rest).
  { rewrite E in Er. exists (drop (length l) av). assert (Hle : (length l <= length av)%nat) by lia.
    assert (Ht : take (length l) (av ++ tl) = l) by (by rewrite Er, take_app_length). rewrite take_app_le in Ht by done.
    split; [by rewrite <- Ht at 1; rewrite take_drop|]. pose proof (f_equal (drop (length l)) Er) as Hdr.
    rewrite drop_app_length in Hdr. by rewrite drop_app_le in Hdr. }
  destruct Hav as (r & -> & Hr). exists r, o, tl, tm. split; [|by split].
  unfold mbind at 1, ST_bind, _checkBufferSize, readDataIfNotAvailable. cbn [input connector remainingTimeBeforeTimeout]. rewrite E1. cbn.
  unfold on_buffer. cbn [input connector remainingTimeBeforeTimeout]. rewrite Hm; [done|].
  rewrite E, <- Hr in Hl. rewrite !length_app in *. lia.
Qed.

(** A reader behind its guard. *)
Lemma reads_unchecked {A} (m : ST DataInput.t A) n l a : reads (DataInput._checkBufferSize n;; m) l a -> reads m l a.
Proof.
  intros Hm pre rest Hl. specialize (Hm pre rest Hl). revert Hm. unfold mbind, ST_bind, DataInput._checkBufferSize.
  by destruct (_ <? _).
Qed.

Lemma sreads_read b : sreads read [b] (s8 b).
Proof. apply sreads_check; [done|]. eapply reads_unchecked, reads_read. Qed.
Lemma sreads_readBoolean b : sreads readBoolean [if b : bool then 1 else 0] b.
Proof. apply sreads_check; [done|]. eapply reads_unchecked, reads_readBoolean. Qed.
Lemma sreads_readInt16 v : sreads readInt16 (be_bytes 2 v) (s16 v).
Proof. apply sreads_check; [done|]. apply reads_readInt16NoCheck. Qed.
Lemma sreads_readInt32 v : sreads readInt32 (be_bytes 4 v) (s32 v).
Proof. apply sreads_check; [done|]. eapply reads_unchecked, reads_readInt32. Qed.

Lemma sreads_readAscii_len s : Forall ascii_char s ->
  sreads (readAscii_len (Z.of_nat (length s))) ((fun c => Z.land c 0x7F) <$> s) s.
Proof. intros Hs. apply sreads_check; [by rewrite length_fmap|]. by eapply reads_unchecked, reads_readAscii_len. Qed.
Lemma sreads_readAscii s : Forall ascii_char s -> Z.of_nat (length s) <= 0xFFFF -> sreads readAscii (enc_ascii s) s.
Proof.
  intros Hs Hl. eapply sreads_bind; [apply sreads_readInt16|]. rewrite wrapU_wrapS, (wrapU_id 16) by (unfold in_u; lia).
  by apply sreads_readAscii_len.
Qed.
Lemma sreads_readAsciiHuge s : Forall ascii_char s -> Z.of_nat (length s) < 2 ^ 32 -> sreads readAsciiHuge (enc_asciiHuge s) s.
Proof.
  intros Hs Hl. eapply sreads_bind; [apply sreads_readInt32|]. rewrite wrapU_wrapS, (wrapU_id 32) by (unfold in_u; lia).
  by apply sreads_readAscii_len.
Qed.
Lemma sreads_readJavaModifiedUtf8 s : JavaModifiedUtf8.u16string_ok s -> JavaModifiedUtf8.encodedLength s <= 0xFFFF ->
  sreads readJavaModifiedUtf8 (enc_jmutf8 s) s.
Proof.
  intros Hs Hl. pose proof (JavaModifiedUtf8.encodedLength_fromString s) as Hel. eapply sreads_bind; [apply sreads_readInt16|].
  cbv zeta. rewrite wrapU_wrapS, (wrapU_id 16) by (unfold in_u; lia). apply sreads_check; [done|by apply reads_modified_utf8].
Qed.

Section Texts.
Context (to_utf16 to_utf8 : list Z -> outcome (list Z)).

(** A text that is not written as a huge string of UTF-16. *)
Definition short_text (s : list Z) : Prop := text_ok to_utf16 to_utf8 s /\ (Z.of_nat (length s) < DataOutput.utfLength s -> DataOutput.utfLength s <= 0xFFFF).

Lemma sreads_lift {A} (m : ST t (list Z)) (f : list Z -> outcome A) l u (a : A) :
  sreads m l u -> f u = Ok a -> sreads (x ← m; st_lift (f x)) l a.
Proof. intros Hm Hf. eapply sreads_bind0; [exact Hm|]. rewrite Hf. apply sreads_ret. Qed.

Lemma sreads_readString s : short_text s -> sreads (readString to_utf8) (enc_text to_utf16 s) s.
Proof.
  intros [[Hb Ht Hf Hu [Hl1 Hl2] He] Hs]. unfold enc_text, readString.
  destruct (Z.ltb_spec (Z.of_nat (length s)) (DataOutput.utfLength s)) as [Hlt|Hge].
  - destruct (Z.ltb_spec 0xFFFF (DataOutput.utfLength s)); [lia|]. eapply (sreads_bind _ _ [_]); [apply sreads_read|]. simpl.
    eapply sreads_lift; [|exact Hf]. apply sreads_readJavaModifiedUtf8; [done|lia].
  - rewrite utfLength_encodedLength in Hge by (by apply bytes_are_units).
    pose proof (short_encoding_ascii s (bytes_are_units s Hb) Hge).
    destruct (Z.ltb_spec 0xFFFF (Z.of_nat (length s))); (eapply (sreads_bind _ _ [_]); [apply sreads_read|]); simpl.
    + by apply sreads_readAsciiHuge.
    + by apply sreads_readAscii.
Qed.

End Texts.
End StreamFacts.

(** *** Requests and responses *)

Section Exchange.
Context `{AllocatorOk} (to_utf16 to_utf8 : list Z -> outcome (list Z)).
Import StreamFacts LocatorMessages.
Abbreviation text_ok := (text_ok to_utf16 to_utf8).
Abbreviation short_text := (short_text to_utf16 to_utf8).

Definition enc_server (l : Location.t) : list Z := enc_text to_utf16 (Location.m_serverName l) ++ be_bytes 4 (u32 (Location.m_port l)).
Definition enc_servers (ls : list Location.t) : list Z := be_bytes 4 (u32 (Z.of_nat (length ls))) ++ (ls ≫= enc_server).

(** What locators expect of a request, behind the version of the protocol and of the client. *)
Definition enc_request_data (r : Request) : list Z :=
  match r with
  | LocatorListRequest group => [u8 DSFid.LocatorListRequest] ++ enc_text to_utf16 group
  | ClientConnectionRequest excluded group => [u8 DSFid.ClientConnectionRequest] ++ enc_text to_utf16 group ++ enc_servers excluded
  | ClientReplacementRequest server excluded group =>
    [u8 DSFid.ClientReplacementRequest] ++ (enc_text to_utf16 group ++ enc_servers excluded) ++ enc_server server
  | QueueConnectionRequest memberId excluded redundantCopies findDurable group =>
    [u8 DSFid.QueueConnectionRequest] ++ enc_text to_utf16 group ++ [DSCode.FixedIDByte] ++ [DSFid.ClientProxyMembershipId] ++
    (enc_arrayLen (Z.of_nat (length memberId)) ++ memberId) ++ be_bytes 4 1 ++ be_bytes 4 (u32 redundantCopies) ++
    enc_servers excluded ++ [if findDurable then 1 else 0]
  | GetAllServersRequest group => [u8 DSFid.GetAllServersRequest] ++ enc_object to_utf16 group
  end.
Definition enc_request (r : Request) : list Z :=
  be_bytes 4 ThinClientLocatorHelper.kGossipVersion ++ be_bytes 4 ThinClientLocatorHelper.current_ordinal ++ [DSCode.FixedIDByte] ++ enc_request_data r.

Definition servers_ok (ls : list Location.t) : Prop :=
  Forall (fun l => text_ok (Location.m_serverName l)) ls /\ Z.of_nat (length ls) < 2 ^ 31.
Definition request_ok (r : Request) : Prop :=
  match r with
  | LocatorListRequest group => text_ok group
  | ClientConnectionRequest excluded group => text_ok group /\ servers_ok excluded
  | ClientReplacementRequest server excluded group => text_ok group /\ servers_ok excluded /\ text_ok (Location.m_serverName server)
  | QueueConnectionRequest memberId excluded _ _ group => text_ok group /\ servers_ok excluded /\ Z.of_nat (length memberId) <= 2 ^ 31 - 6
  | GetAllServersRequest group => text_ok group /\ fits to_utf16 group
  end.

Lemma emits_server l : text_ok (Location.m_serverName l) -> emits (Location.toData to_utf16 l) (enc_server l).
Proof. intros Hl. apply emits_bind; [by eapply emits_writeString_string|apply emits_writeInt_int32]. Qed.
Lemma emits_servers ls : servers_ok ls -> emits (writeSetOfServerLocation to_utf16 ls) (enc_servers ls).
Proof.
  intros [Hls Hlen]. unfold writeSetOfServerLocation, enc_servers. rewrite <- (wrapU_wrapS 32). apply emits_bind; [apply emits_writeInt_int32|].
  apply emits_iter_each. eapply Forall_impl; [|exact Hls]. intros l Hl. by apply emits_server.
Qed.

(** A response with all servers is written as it is read. *)
Lemma emits_all_servers ls : servers_ok ls -> emits (getAllServers_toData to_utf16 ls) (enc_servers ls).
Proof. apply emits_servers. Qed.

Lemma emits_request r : request_ok r -> emits (serialize to_utf16 r) ([DSCode.FixedIDByte] ++ enc_request_data r).
Proof.
  intros Hr.
  assert (Hid : forall id m l, s8 id = id -> in_s 8 id -> emits m l -> emits (write_fixed_id id;; m) ([DSCode.FixedIDByte] ++ [u8 id] ++ l)).
  { intros id m l Hs Hi Hm. rewrite (assoc_L (++)). apply emits_bind; [|done]. unfold write_fixed_id. unfold in_s in Hi.
    replace (id <=? 127) with true by lia. replace (-128 <=? id) with true by lia. rewrite Hs. cbn [andb].
    apply emits_bind; [apply (emits_write_int8 DSCode.FixedIDByte)|apply emits_write_int8]. }
  unfold serialize. destruct r as [g|ex g|sv ex g|mid ex n b g|g]; cbn [getDSFID toData enc_request_data request_ok] in *; (apply Hid; [reflexivity|cbv; split; [discriminate|reflexivity]|]).
  - by eapply emits_writeString_string.
  - destruct Hr as [Hg Hex]. apply emits_bind; [by eapply emits_writeString_string|by apply emits_servers].
  - destruct Hr as (Hg & Hex & Hsv). apply emits_bind; [|by apply emits_server].
    apply emits_bind; [by eapply emits_writeString_string|by apply emits_servers].
  - destruct Hr as (Hg & Hex & Hm). unfold queue_toData. apply emits_bind; [by eapply emits_writeString_string|].
    apply emits_bind; [apply (emits_write_int8 DSCode.FixedIDByte)|]. apply emits_bind; [apply (emits_write_int8 DSFid.ClientProxyMembershipId)|].
    apply emits_bind; [rewrite wrapS_id by (unfold in_s; lia); by apply emits_writeBytes|].
    apply emits_bind; [apply (emits_writeInt_int32 1)|]. apply emits_bind; [apply emits_writeInt_int32|].
    apply emits_bind; [by apply emits_servers|apply emits_writeBoolean].
  - destruct Hr as [Hg Hf]. by eapply emits_serialize.
Qed.

Lemma request_bytes_spec pool r : request_ok r -> Forall desc_ok pool -> Z.of_nat (length (enc_request r)) + 16 <= 2 ^ 60 ->
  ThinClientLocatorHelper.request_bytes to_utf16 pool r = Ok (enc_request r).
Proof.
  intros Hr Hp Hl. destruct (construct_wf pool Hp) as (d & E & Hw & Ho).
  assert (He : emits (DataOutput.writeInt_int32 ThinClientLocatorHelper.kGossipVersion;; DataOutput.writeInt_int32 ThinClientLocatorHelper.current_ordinal;;
    serialize to_utf16 r) (enc_request r)).
  { apply emits_bind; [apply (emits_writeInt_int32 ThinClientLocatorHelper.kGossipVersion)|].
    apply emits_bind; [apply (emits_writeInt_int32 ThinClientLocatorHelper.current_ordinal)|by apply emits_request]. }
  destruct (He d [] Hw Ho) as (d' & E' & _ & Ho' & _); [cbn [length]; lia|].
  unfold ThinClientLocatorHelper.request_bytes. rewrite E. cbn [mbind outcome_bind]. rewrite E'.
  cbn [mbind outcome_bind]. by rewrite (getBuffer_out_is d' (enc_request r)).
Qed.

(** The responses of locators. *)
Definition enc_response (r : Response) : list Z :=
  match r with
  | LocatorListResponse ls balanced => [DSCode.FixedIDByte; u8 DSFid.LocatorListResponse] ++ enc_servers ls ++ [if balanced then 1 else 0]
  | ClientConnectionResponse found l => [DSCode.FixedIDByte; u8 DSFid.ClientConnectionResponse] ++ [if found then 1 else 0] ++ (if found then enc_server l else [])
  | QueueConnectionResponse durable ls => [DSCode.FixedIDByte; u8 DSFid.QueueConnectionResponse] ++ [if durable then 1 else 0] ++ enc_servers ls
  | GetAllServersResponse ls => [DSCode.FixedIDByte; u8 DSFid.GetAllServersResponse] ++ enc_servers ls
  | OtherObject => []
  end.

Definition location_ok (l : Location.t) : Prop :=
  short_text (Location.m_serverName l) /\ in_s 32 (Location.m_port l) /\ l = Location.construct (Location.m_serverName l) (Location.m_port l).
Definition response_ok (r : Response) : Prop :=
  match r with
  | LocatorListResponse ls _ | QueueConnectionResponse _ ls | GetAllServersResponse ls => Forall location_ok ls /\ Z.of_nat (length ls) < 2 ^ 31
  | ClientConnectionResponse true l => location_ok l
  | ClientConnectionResponse false l => l = Location.default_
  | OtherObject => False
  end.

Lemma sreads_server l : location_ok l -> sreads (location_fromData to_utf8) (enc_server l) l.
Proof.
  intros (Hn & Hp & El). unfold location_fromData, enc_server. eapply sreads_bind; [by apply sreads_readString|].
  eapply sreads_bind0; [apply sreads_readInt32|]. rewrite wrapS_wrapU, wrapS_id by done. rewrite <- El. apply sreads_ret.
Qed.

(** A list of servers behind its length, read as a signed or as an unsigned number. *)
Lemma sreads_servers {A} ls (f : list Location.t -> ST StreamDataInput.t A) (g : Z -> Z) l a :
  (forall z, 0 <= z < 2 ^ 31 -> g z = z) -> Forall location_ok ls -> Z.of_nat (length ls) < 2 ^ 31 -> sreads (f ls) l a ->
  sreads (size ← StreamDataInput.readInt32; xs ← st_repeat (Z.to_nat (g size)) (location_fromData to_utf8); f xs) (enc_servers ls ++ l) a.
Proof.
  intros Hg Hls Hlen Hf. unfold enc_servers. rewrite <- (assoc_L (++)). eapply sreads_bind; [apply sreads_readInt32|].
  rewrite wrapS_wrapU, wrapS_id by (unfold in_s; lia). rewrite Hg, Nat2Z.id by lia.
  eapply sreads_bind; [|exact Hf]. apply sreads_repeat; [done|]. eapply Forall_impl; [|exact Hls]. intros. by apply sreads_server.
Qed.

Context (read_other : Z -> option Z -> ST StreamDataInput.t unit).

Lemma sreads_response r : response_ok r -> sreads (readObject to_utf8 read_other) (enc_response r) r.
Proof.
  intros Hr.
  assert (Hsame : forall z : Z, 0 <= z < 2 ^ 31 -> z = z) by done.
  assert (Hu32 : forall z : Z, 0 <= z < 2 ^ 31 -> u32 z = z) by (intros; apply wrapU_id; unfold in_u; lia).
  assert (Hid : forall id l, s8 (u8 id) = id ->
    sreads (if id =? DSFid.LocatorListResponse then locatorList_fromData to_utf8 else if id =? DSFid.ClientConnectionResponse then clientConnection_fromData to_utf8
      else if id =? DSFid.QueueConnectionResponse then queueConnection_fromData to_utf8 else if id =? DSFid.GetAllServersResponse then getAllServers_fromData to_utf8
      else read_other DSCode.FixedIDByte (Some id);; mret OtherObject) l r ->
    sreads (readObject to_utf8 read_other) ([DSCode.FixedIDByte; u8 id] ++ l) r).
  { intros id l Hi Hm. unfold readObject. apply (sreads_bind _ _ [_] ([_] ++ l) DSCode.FixedIDByte); [apply (sreads_read DSCode.FixedIDByte)|].
    change (_ || _ || _) with true. cbv iota. unfold deserializeDataSerializableFixedId. change (DSCode.FixedIDByte =? DSCode.FixedIDByte) with true.
    cbv iota. eapply sreads_bind; [apply sreads_read|]. by rewrite Hi. }
  destruct r as [ls b|[] l|b ls|ls|]; cbn [response_ok enc_response] in *; [..|done]; (apply Hid; [done|]); cbn [Z.eqb].
  - destruct Hr as [Hls Hlen]. apply (sreads_servers _ _ u32); [done..|]. eapply sreads_bind0; [apply sreads_readBoolean|apply sreads_ret].
  - eapply sreads_bind; [apply (sreads_readBoolean true)|]. eapply sreads_bind0; [by apply sreads_server|apply sreads_ret].
  - subst l. eapply sreads_bind; [apply (sreads_readBoolean false)|apply sreads_ret].
  - destruct Hr as [Hls Hlen]. eapply sreads_bind; [apply sreads_readBoolean|]. rewrite <- (app_nil_r (enc_servers ls)).
    apply (sreads_servers _ _ (fun z => z)); [done..|apply sreads_ret].
  - destruct Hr as [Hls Hlen]. rewrite <- (app_nil_r (enc_servers ls)). apply (sreads_servers _ _ (fun z => z)); [done..|apply sreads_ret].
Qed.
(** The byte that is looked at first is read again. *)
Lemma sreads_read_response self r : response_ok r ->
  sreads (ThinClientLocatorHelper.read_response to_utf8 read_other self) (enc_response r) r.
Proof.
  intros Hr pre avail ops tail time rest Hl Hd E. pose proof (sreads_response r Hr) as Hobj.
  assert (Hb : exists l, enc_response r = DSCode.FixedIDByte :: l) by (destruct r; cbn; eauto; done). destruct Hb as [l El].
  destruct (sreads_read DSCode.FixedIDByte pre avail ops tail time (l ++ rest) Hl Hd) as (av & o & tl & tm & E1 & Hd1 & Er1); [by rewrite E, El|].
  unfold ThinClientLocatorHelper.read_response. rewrite (st_bind_ok _ _ _ _ _ E1).
  change (s8 DSCode.FixedIDByte =? ThinClientLocatorHelper.REPLY_SSL_ENABLED) with false. cbv beta iota. cbn [andb].
  assert (Erw : StreamDataInput.rewindCursor 1 (StreamDataInput.mk (at_ (pre ++ [DSCode.FixedIDByte]) av) o tm) =
    Ok (tt, StreamDataInput.mk (at_ pre (DSCode.FixedIDByte :: av)) o tm)).
  { unfold StreamDataInput.rewindCursor, StreamDataInput.on_buffer. cbn. do 2 f_equal. unfold at_. rewrite <- app_assoc, !length_app. cbn.
    do 2 f_equal. lia. }
  rewrite (st_bind_ok _ _ _ _ _ Erw). apply (Hobj pre (DSCode.FixedIDByte :: av) o tl tm rest); [|done|].
  - replace ((DSCode.FixedIDByte :: av) ++ tl) with (avail ++ tail); [done|]. cbn. by rewrite Er1, E, El.
  - cbn. by rewrite Er1, El.
Qed.

End Exchange.

(** *** Sets of servers *)

Lemma string_less_trichotomy s : forall r, Location.string_less s r = true \/ s = r \/ Location.string_less r s = true.
Proof.
  induction s as [|c s IH]; intros [|d r]; cbn; [tauto..|]. destruct (Z.ltb_spec c d), (Z.ltb_spec d c); try (by tauto); try lia.
  assert (c = d) as -> by lia. destruct (IH r) as [|[->|]]; tauto.
Qed.
Lemma string_less_irrefl s : Location.string_less s s = false.
Proof. induction s as [|c s IH]; [done|]. cbn. by rewrite Z.ltb_irrefl. Qed.
Lemma string_less_trans a : forall b c, Location.string_less a b = true -> Location.string_less b c = true -> Location.string_less a c = true.
Proof.
  induction a as [|x a IH]; intros [|y b] [|z c]; cbn; try done.
  destruct (Z.ltb_spec x y), (Z.ltb_spec y x), (Z.ltb_spec y z), (Z.ltb_spec z y), (Z.ltb_spec x z), (Z.ltb_spec z x); try done; try lia. apply IH.
Qed.

(** The order of servers is one that a set can use: a strict order in which the servers that are equal, and only
    those, are not told apart; equal servers have the same hash code. *)
Theorem servers_ordered :
  (forall l, Location.less l l = false) /\
  (forall a b c, Location.less a b = true -> Location.less b c = true -> Location.less a c = true) /\
  (forall a b, Location.eqb a b = true <-> Location.less a b = false /\ Location.less b a = false) /\
  (forall std_hash a b, Location.eqb a b = true -> Location.hashcode std_hash a = Location.hashcode std_hash b).
Proof.
  unfold Location.less, Location.eqb, Location.hashcode. split_and!.
  - intros l. rewrite string_less_irrefl, bool_decide_true by done. apply Z.ltb_irrefl.
  - intros a b c. destruct (Location.string_less (Location.m_serverName a) (Location.m_serverName b)) eqn:Eab;
      destruct (Location.string_less (Location.m_serverName b) (Location.m_serverName c)) eqn:Ebc; intros Hab Hbc.
    + by rewrite (string_less_trans _ _ _ Eab Ebc).
    + case_bool_decide as Heq; [|done]. by rewrite <- Heq, Eab.
    + case_bool_decide as Heq; [|done]. by rewrite Heq, Ebc.
    + case_bool_decide as H1; [|done]. case_bool_decide as H2; [|done]. assert (Heq : Location.m_serverName a = Location.m_serverName c) by congruence.
      rewrite Heq, string_less_irrefl, bool_decide_true by done. apply Z.ltb_lt in Hab, Hbc. apply Z.ltb_lt. lia.
  - intros a b. rewrite andb_true_iff, bool_decide_eq_true, Z.eqb_eq. split.
    + intros [-> ->]. rewrite string_less_irrefl, bool_decide_true, Z.ltb_irrefl by done. done.
    + intros [H1 H2]. destruct (string_less_trichotomy (Location.m_serverName a) (Location.m_serverName b)) as [H|[H|H]];
        [by rewrite H in H1| |by rewrite H in H2].
      rewrite H, string_less_irrefl, bool_decide_true in H1, H2 by done. apply Z.ltb_ge in H1, H2. split; [done|lia].
  - intros std_hash a b [->%bool_decide_eq_true ->%Z.eqb_eq]%andb_true_iff. done.
Qed.

(** *** One locator *)

Import ThinClientLocatorHelper.

(** C20. A request reaches a locator as the locator expects it, and its response is understood as it was meant,
    in whatever pieces the connection brings it, as long as they come in time. *)
Theorem exchange `{AllocatorOk} to_utf16 to_utf8 read_other (net : Network) self loc (request : Request) (response : Response) conn h :
  request_ok to_utf16 to_utf8 request -> response_ok to_utf16 to_utf8 response ->
  Z.of_nat (length (enc_request to_utf16 request)) + 16 <= 2 ^ 60 -> Z.of_nat (length (enc_response to_utf16 response)) < 2 ^ 62 ->
  Forall desc_ok (buffers net (h ++ [Connected (target self loc)])) ->
  establish net h (target self loc) = Ok conn ->
  outgoing conn = Some (TcpConn.success, Z.of_nat (length (enc_request to_utf16 request))) ->
  StreamFacts.delivers (incoming conn) (enc_response to_utf16 response) (readTimeout (config self)) ->
  sendRequest to_utf16 to_utf8 read_other net self loc request h =
    (Ok (Some response), h ++ [Connected (target self loc); Sent (enc_request to_utf16 request)]).
Proof.
  intros Hq Hr Hlq Hlr Hb He Ho Hd. unfold sendRequest, catch_all, createConnection, ex_gets, ex_lift, happens, ex_modify, mbind, EX_bind.
  rewrite He. rewrite (request_bytes_spec to_utf16 to_utf8 _ _ Hq Hb Hlq). rewrite Ho. unfold TcpConn.send. cbn [TcpConn.kept TcpConn.failed].
  rewrite Z.eqb_refl. cbn [negb]. destruct (Z.leb_spec (Z.of_nat (length (enc_request to_utf16 request))) 0) as [Hz|_].
  { unfold enc_request in Hz. rewrite length_app, length_be_bytes in Hz. lia. }
  destruct (sreads_read_response to_utf16 to_utf8 read_other self response Hr [] [] (incoming conn) (enc_response to_utf16 response)
    (readTimeout (config self)) []) as (av & o & tl & tm & E & _ & _); [done|done|by rewrite app_nil_r|].
  change (StreamDataInput.construct (readTimeout (config self)) (incoming conn)) with
    (StreamDataInput.mk (at_ [] []) (incoming conn) (readTimeout (config self))). rewrite E.
  cbn. by rewrite <- app_assoc.
Qed.

(** *** The search for a server *)

Section Search.
Context `{Allocator} (to_utf16 to_utf8 : list Z -> outcome (list Z)) (read_other : Z -> option Z -> ST StreamDataInput.t unit)
  (net : Network) (self : t).
Abbreviation ask := (sendRequest to_utf16 to_utf8 read_other net self).

(** The locators that [n] attempts ask, from the [start]-th on. *)
Definition pick (locators : list Location.t) (i : nat) : Location.t := default Location.default_ (locators !! (i mod length locators)%nat).
Definition cycle (locators : list Location.t) (start n : nat) : list Location.t := pick locators <$> seq start n.

Lemma locator_at_pick locators i : locators <> [] -> locator_at locators i = Ok (pick locators i).
Proof.
  intros Hne. unfold locator_at, pick. destruct locators as [|l ls]; [done|].
  assert (Hlt : (i mod length (l :: ls) < length (l :: ls))%nat) by (apply Nat.mod_upper_bound; done).
  apply lookup_lt_is_Some in Hlt as [x Hx]. by rewrite Hx.
Qed.

Lemma cycle_complete locators n l : (length locators <= n)%nat -> l ∈ locators -> l ∈ cycle locators 0 n.
Proof.
  intros Hn Hl. apply list_elem_of_lookup in Hl as [i Hi]. pose proof (lookup_lt_Some _ _ _ Hi) as Hlt.
  apply list_elem_of_fmap. exists i. split; [|apply elem_of_seq; lia]. unfold pick. by rewrite Nat.mod_small, Hi by lia.
Qed.

(** The locators of a list are asked, one after the other, and answer. *)
Inductive polls (request : Request) : list Location.t -> history -> list (option Response) -> history -> Prop :=
| polls_nil h : polls request [] h [] h
| polls_cons loc ls h r h1 rs h2 : ask loc request h = (Ok r, h1) -> polls request ls h1 rs h2 -> polls request (loc :: ls) h (r :: rs) h2.

(** The answer is that there is no server; the answer names no server. *)
Definition says_none (r : option Response) : bool := match r with Some (ClientConnectionResponse false _) => true | _ => false end.
Definition no_server (r : option Response) : Prop := match r with Some (ClientConnectionResponse true _) => False | _ => True end.

Lemma ask_throws loc request h e h' : ask loc request h = (Throw e, h') -> passes e = true.
Proof.
  unfold sendRequest, catch_all. match goal with |- (match ?m with _ => _ end) = _ -> _ => destruct m as [[r|e0] h0] end; [done|].
  destruct (passes e0) eqn:Ep; [|done]. by intros [= <- <-].
Qed.

(** The request of a search. *)
Definition connection_request (exclEndPts : list Location.t) (serverGrp : list Z) (currentServer : option (list Z)) : outcome Request :=
  match currentServer with
  | None => Ok (ClientConnectionRequest exclEndPts serverGrp)
  | Some name => l ← Location.of_name name; Ok (ClientReplacementRequest l exclEndPts serverGrp)
  end.

Lemma forward_step locators rest attempt found excl grp current request h : locators <> [] ->
  connection_request excl grp current = Ok request ->
  forward_loop to_utf16 to_utf8 read_other net self locators (S rest) attempt found excl grp current h =
  match ask (pick locators attempt) request h with
  | (Throw e, h') => (Throw e, h')
  | (Ok (Some (ClientConnectionResponse true server)), h') => (Ok server, h')
  | (Ok r, h') => forward_loop to_utf16 to_utf8 read_other net self locators rest (S attempt) (found || says_none r) excl grp current h'
  end.
Proof.
  intros Hne Hreq. cbn [forward_loop]. rewrite (locator_at_pick _ _ Hne). unfold mbind, EX_bind, ex_lift, mret, EX_ret.
  destruct current as [name|]; cbn in Hreq; [destruct (Location.of_name name); cbn in Hreq; [|done]|]; injection Hreq as <-;
    (destruct (sendRequest _ _ _ _ _ _ _ h) as [[[[| [] | | |]|]|e] h']; cbn; rewrite ?orb_true_r, ?orb_false_r; done).
Qed.

(** How a search ends that may ask [asked]. The first locators of the list are asked in vain: they do not answer,
    or have no server. Then the next one names a server; or it lets an exception through; or nobody is left, and
    the exception tells whether a locator answered. *)
Definition search_ends (request : Request) (asked : list Location.t) (found : bool) (h : history) (o : outcome Location.t) (h' : history) : Prop :=
  exists k rs h1, polls request (take k asked) h rs h1 /\ Forall no_server rs /\
    match o with
    | Ok server => exists loc, asked !! k = Some loc /\ ask loc request h1 = (Ok (Some (ClientConnectionResponse true server)), h')
    | Throw e =>
      (exists loc, asked !! k = Some loc /\ ask loc request h1 = (Throw e, h') /\ passes e = true) \/
      (k = length asked /\ h' = h1 /\ e = if found || existsb says_none rs then NotConnectedException else NoAvailableLocatorsException)
    end.

Lemma search_ends_cons request loc asked found h r h1 o h' : ask loc request h = (Ok r, h1) -> no_server r ->
  search_ends request asked (found || says_none r) h1 o h' -> search_ends request (loc :: asked) found h o h'.
Proof.
  intros Ea Hr (k & rs & h2 & Hp & Hn & Hout). exists (S k), (r :: rs), h2. split; [by econstructor|]. split; [by constructor|].
  destruct o as [server|e]; [done|]. destruct Hout as [Hth|(-> & -> & ->)]; [by left|right]. cbn [existsb]. by rewrite orb_assoc.
Qed.

Lemma forward_outcome locators excl grp current request : locators <> [] -> connection_request excl grp current = Ok request ->
  forall rest attempt found h o h',
  forward_loop to_utf16 to_utf8 read_other net self locators rest attempt found excl grp current h = (o, h') ->
  search_ends request (cycle locators attempt rest) found h o h'.
Proof.
  intros Hne Hreq. induction rest as [|rest IH]; intros attempt found h o h' E.
  - cbn in E. injection E as <- <-. exists 0%nat, [], h. split; [constructor|]. split; [constructor|]. right. by rewrite orb_false_r.
  - rewrite (forward_step _ _ _ _ _ _ _ _ _ Hne Hreq) in E. change (cycle locators attempt (S rest)) with (pick locators attempt :: cycle locators (S attempt) rest).
    destruct (ask (pick locators attempt) request h) as [[r|e] h1] eqn:Ea.
    + destruct r as [[| [] server | | |]|]; try (by eapply search_ends_cons; [exact Ea|done|apply IH]).
      injection E as <- <-. exists 0%nat, [], h. split; [constructor|]. split; [constructor|]. by exists (pick locators attempt).
    + injection E as <- <-. exists 0%nat, [], h. split; [constructor|]. split; [constructor|]. left.
      exists (pick locators attempt). split_and!; [done|done|by eapply ask_throws].
Qed.

Lemma polls_asks request ls h rs h' loc : polls request ls h rs h' -> loc ∈ ls -> exists h1 r h2, ask loc request h1 = (Ok r, h2) /\ r ∈ rs.
Proof.
  induction 1 as [|loc0 ls h r h1 rs h2 Ha _ IH]; intros Hin; [by apply not_elem_of_nil in Hin|].
  apply elem_of_cons in Hin as [->|Hin]; [exists h, r, h1; split; [done|left]|].
  destruct (IH Hin) as (h3 & r' & h4 & ? & ?). exists h3, r', h4. split; [done|by right].
Qed.

(** A search for the servers of a queue ends like one for a server, with the servers that a locator names. *)
Definition no_queue (r : option Response) : Prop := match r with Some (QueueConnectionResponse _ _) => False | _ => True end.
Lemma callback_outcome locators request : locators <> [] -> forall rest attempt h o h',
  callback_loop to_utf16 to_utf8 read_other net self locators rest attempt request h = (o, h') ->
  exists k rs h1, polls request (take k (cycle locators attempt rest)) h rs h1 /\ Forall no_queue rs /\
    match o with
    | Ok servers => exists loc durable, cycle locators attempt rest !! k = Some loc /\
        ask loc request h1 = (Ok (Some (QueueConnectionResponse durable servers)), h')
    | Throw e => (passes e = true /\ (k < rest)%nat) \/ (k = rest /\ h' = h1 /\ e = NoAvailableLocatorsException)
    end.
Proof.
  intros Hne. induction rest as [|rest IH]; intros attempt h o h' E.
  - cbn in E. injection E as <- <-. exists 0%nat, [], h. split; [constructor|]. split; [constructor|]. by right.
  - cbn [callback_loop] in E. rewrite (locator_at_pick _ _ Hne) in E. unfold mbind, EX_bind, ex_lift in E.
    change (cycle locators attempt (S rest)) with (pick locators attempt :: cycle locators (S attempt) rest).
    destruct (ask (pick locators attempt) request h) as [[r|e] h1] eqn:Ea.
    2: { injection E as <- <-. exists 0%nat, [], h. split; [constructor|]. split; [constructor|]. left. split; [by eapply ask_throws|lia]. }
    destruct r as [[| |durable servers| |]|]; try (
      apply IH in E as (k & rs & h2 & Hp & Hn & Hout); exists (S k); eexists (_ :: rs), h2;
      split; [by econstructor|]; split; [by constructor|]; destruct o; [done|]; destruct Hout as [[? ?]|(-> & -> & ->)]; [left; split; [done|lia]|by right]).
    injection E as <- <-. exists 0%nat, [], h. split; [constructor|]. split; [constructor|]. by exists (pick locators attempt), durable.
Qed.

(** The request for all servers never fails: the servers of the first list, or those that were there before. *)
Lemma all_servers_outcome locators servers serverGrp : forall h o h',
  all_servers_loop to_utf16 to_utf8 read_other net self locators servers serverGrp h = (o, h') ->
  match o with
  | Ok (err, result) => err = GF_NOERR /\
      ((exists loc h1, loc ∈ locators /\ ask loc (GetAllServersRequest serverGrp) h1 = (Ok (Some (GetAllServersResponse result)), h')) \/
       (result = servers /\ exists rs, polls (GetAllServersRequest serverGrp) locators h rs h'))
  | Throw e => passes e = true
  end.
Proof.
  induction locators as [|loc locators IH]; intros h o h' E; cbn [all_servers_loop] in E.
  - injection E as <- <-. split; [done|]. right. split; [done|]. exists []. constructor.
  - unfold mbind, EX_bind in E. destruct (ask loc (GetAllServersRequest serverGrp) h) as [[r|e] h1] eqn:Ea.
    2: { injection E as <- <-. by eapply ask_throws. }
    destruct r as [[| | |found|]|]; try (
      apply IH in E; destruct o as [[err result]|]; [|done]; destruct E as (-> & [(l & h2 & ? & ?)|(-> & rs & ?)]); (split; [done|]);
      [left; exists l, h2; split; [by right|done]|right; split; [done|]; eexists; by econstructor]).
    injection E as <- <-. split; [done|]. left. exists loc, h. split; [left|done].
Qed.

(** *** The list of locators *)

Definition is_list (r : option Response) : Prop := match r with Some (LocatorListResponse _ _) => True | _ => False end.

(** How an update ends that may ask [todo]: a locator of the list answers, and its list is merged with the
    [locators]; or all were asked, nobody sent a list and everything stays; or an exception is let through. *)
Definition update_ends (serverGrp : list Z) (locators todo : list Location.t) (h : history) (o : outcome (GfErrType * t)) (h' : history) : Prop :=
  match o with
  | Ok (err, self') =>
    (err = GF_NOERR /\ exists loc new_locators balanced h1, loc ∈ todo /\
      ask loc (LocatorListRequest serverGrp) h1 = (Ok (Some (LocatorListResponse new_locators balanced)), h') /\
      self' = mk (foldl add_old new_locators locators) (config self)) \/
    (err = GF_NOTCON /\ self' = self /\ exists rs, polls (LocatorListRequest serverGrp) todo h rs h' /\ Forall (fun r => ~ is_list r) rs)
  | Throw e => passes e = true
  end.

Lemma update_ends_cons serverGrp locators loc todo h r h1 o h' :
  ask loc (LocatorListRequest serverGrp) h = (Ok r, h1) -> ~ is_list r ->
  update_ends serverGrp locators todo h1 o h' -> update_ends serverGrp locators (loc :: todo) h o h'.
Proof.
  intros Ea Hr. destruct o as [[err self']|e]; [|done]. intros [(-> & l & n & b & h2 & Hin & ? & ?)|(-> & -> & rs & Hp & Hf)]; [left|right].
  - split; [done|]. exists l, n, b, h2. split_and!; [by right|done|done].
  - split_and!; [done|done|]. exists (r :: rs). split; [by econstructor|by constructor].
Qed.

Lemma update_outcome serverGrp locators todo : forall h o h',
  update_loop to_utf16 to_utf8 read_other net self locators todo serverGrp h = (o, h') -> update_ends serverGrp locators todo h o h'.
Proof.
  induction todo as [|loc todo IH]; intros h o h' E; cbn [update_loop] in E.
  - injection E as <- <-. right. split_and!; [done|done|]. exists []. split; constructor.
  - unfold mbind, EX_bind in E. destruct (ask loc (LocatorListRequest serverGrp) h) as [[r|e] h1] eqn:Ea.
    2: { injection E as <- <-. by eapply ask_throws. }
    destruct r as [[new_locators balanced| | | |]|]; try (by eapply update_ends_cons; [exact Ea|cbn; tauto|apply IH]).
    injection E as <- <-. left. split; [done|]. exists loc, new_locators, balanced, h. split_and!; [left|done|done].
Qed.

End Search.

(** An equal locator is in the list. *)
Definition known (ls : list Location.t) (l : Location.t) : Prop := exists x, x ∈ ls /\ Location.eqb x l = true.

Lemma location_eqb_refl l : Location.eqb l l = true.
Proof. unfold Location.eqb. by rewrite bool_decide_true, Z.eqb_refl. Qed.
Lemma location_eqb_trans a b c : Location.eqb a b = true -> Location.eqb b c = true -> Location.eqb a c = true.
Proof.
  unfold Location.eqb. rewrite !andb_true_iff, !bool_decide_eq_true, !Z.eqb_eq. intros [-> ->] [-> ->]. done.
Qed.
Lemma known_trans ls ls' l : (forall x, x ∈ ls -> known ls' x) -> known ls l -> known ls' l.
Proof. intros Hs (x & Hx & E). destruct (Hs x Hx) as (y & Hy & Ey). exists y. split; [done|by eapply location_eqb_trans]. Qed.

Lemma add_old_elem new old l : l ∈ add_old new old -> l ∈ new \/ l = old.
Proof. unfold add_old. destruct (existsb _ _); [by left|]. rewrite elem_of_app, list_elem_of_singleton. tauto. Qed.
Lemma add_old_keeps new old l : l ∈ new -> l ∈ add_old new old.
Proof. unfold add_old. destruct (existsb _ _); [done|]. rewrite elem_of_app. by left. Qed.
Lemma add_old_knows new old : known (add_old new old) old.
Proof.
  unfold add_old. destruct (existsb _ new) eqn:E.
  - apply existsb_exists in E as (x & Hx & E). exists x. split; [by apply list_elem_of_In|done].
  - exists old. split; [rewrite elem_of_app, list_elem_of_singleton; by right|apply location_eqb_refl].
Qed.

(** The merged list has the new locators and the old ones, and no others. *)
Lemma merged olds : forall new,
  (forall l, l ∈ foldl add_old new olds -> l ∈ new \/ l ∈ olds) /\ (forall l, l ∈ new -> l ∈ foldl add_old new olds) /\
  (forall l, l ∈ olds -> known (foldl add_old new olds) l).
Proof.
  induction olds as [|old olds IH]; intros new; cbn [foldl].
  - split_and!; [by left|done|]. intros l Hl. by apply not_elem_of_nil in Hl.
  - destruct (IH (add_old new old)) as (H1 & H2 & H3). split_and!.
    + intros l Hl. rewrite elem_of_cons. destruct (H1 l Hl) as [Hn| ]; [|tauto]. apply add_old_elem in Hn. tauto.
    + intros l Hl. by apply H2, add_old_keeps.
    + intros l Hl. apply elem_of_cons in Hl as [->|Hl]; [|by apply H3].
      destruct (add_old_knows new old) as (x & Hx & E). exists x. split; [by apply H2|done].
Qed.

(** *** The helper *)

Section Helper.
Context `{Allocator} (to_utf16 to_utf8 : list Z -> outcome (list Z)) (read_other : Z -> option Z -> ST StreamDataInput.t unit) (net : Network).

Lemma getLocators_spec self h : locators_ self <> [] -> getLocators net self h = (Ok (shuffle net h (locators_ self)), h).
Proof. unfold getLocators. by destruct (locators_ self). Qed.

Lemma forward_search self excl grp current h o h' request :
  (forall h l, shuffle net h l ≡ₚ l) -> locators_ self <> [] -> connection_request excl grp current = Ok request ->
  getEndpointForNewFwdConn to_utf16 to_utf8 read_other net self excl grp current h = (o, h') ->
  search_ends to_utf16 to_utf8 read_other net self request
    (cycle (shuffle net h (locators_ self)) 0 (Z.to_nat (getConnRetries self))) false h o h'.
Proof.
  intros Hs Hne Hreq E. unfold getEndpointForNewFwdConn, mbind, EX_bind in E. rewrite getLocators_spec in E by done.
  eapply forward_outcome; [|done|exact E]. intros Hnil. pose proof (Hs h (locators_ self)) as Hp. rewrite Hnil in Hp.
  by apply Permutation_nil_l in Hp.
Qed.

Lemma all_asked self h l : (forall h l, shuffle net h l ≡ₚ l) -> (length (locators_ self) <= Z.to_nat (getConnRetries self))%nat ->
  l ∈ locators_ self -> l ∈ cycle (shuffle net h (locators_ self)) 0 (Z.to_nat (getConnRetries self)).
Proof. intros Hs Hn Hl. apply cycle_complete; by rewrite (Hs h (locators_ self)). Qed.

Lemma asked_known self h n l : (forall h l, shuffle net h l ≡ₚ l) -> locators_ self <> [] ->
  l ∈ cycle (shuffle net h (locators_ self)) 0 n -> l ∈ locators_ self.
Proof.
  intros Hs Hne (i & -> & _)%list_elem_of_fmap. assert (Hp := Hs h (locators_ self)). unfold pick.
  remember (shuffle net h (locators_ self)) as ls. assert (Hlt : (i mod length ls < length ls)%nat).
  { apply Nat.mod_upper_bound. rewrite (Permutation_length Hp). by destruct (locators_ self). }
  apply lookup_lt_is_Some in Hlt as [x Hx]. rewrite Hx, <- Hp. by eapply list_elem_of_lookup_2.
Qed.

(** Updates, one after the other, with an exception leaving the locators as they are. *)
Definition update_once (self : t) (serverGrp : list Z) (h : history) : t * history :=
  match updateLocators to_utf16 to_utf8 read_other net self serverGrp h with
  | (Ok (_, self'), h') => (self', h')
  | (Throw _, h') => (self, h')
  end.
Fixpoint updates (self : t) (groups : list (list Z)) (h : history) : t * history :=
  match groups with [] => (self, h) | g :: groups => let '(self', h') := update_once self g h in updates self' groups h' end.

(** A locator sent a list with the locator [l]. *)
Definition named (l : Location.t) : Prop := exists self loc serverGrp h new_locators balanced h', l ∈ new_locators /\
  sendRequest to_utf16 to_utf8 read_other net self loc (LocatorListRequest serverGrp) h = (Ok (Some (LocatorListResponse new_locators balanced)), h').

Definition extends (self self' : t) : Prop :=
  config self' = config self /\ (forall l, l ∈ locators_ self -> known (locators_ self') l) /\
  (forall l, l ∈ locators_ self' -> l ∈ locators_ self \/ named l).

Lemma extends_refl self : extends self self.
Proof. split_and!; [done| |by left]. intros l Hl. exists l. split; [done|apply location_eqb_refl]. Qed.
Lemma extends_trans a b c : extends a b -> extends b c -> extends a c.
Proof.
  intros (Hc1 & Hk1 & Hn1) (Hc2 & Hk2 & Hn2). split_and!; [by rewrite Hc2| |].
  - intros l Hl. by apply (known_trans (locators_ b)), Hk1.
  - intros l Hl. destruct (Hn2 l Hl) as [Hb|]; [by apply Hn1|by right].
Qed.

Lemma update_extends self serverGrp h : (forall h l, shuffle net h l ≡ₚ l) -> extends self (update_once self serverGrp h).1.
Proof.
  intros Hs. unfold update_once, updateLocators, mbind, EX_bind.
  assert (Hl : exists ls, getLocators net self h = (Ok ls, h) /\ ls ≡ₚ locators_ self).
  { unfold getLocators. destruct (locators_ self) as [|l ls]; [by exists []|]. eexists. split; [done|apply Hs]. }
  destruct Hl as (ls & -> & Hp). destruct (update_loop _ _ _ _ _ _ _ _ _) as [o h'] eqn:E. apply update_outcome in E.
  destruct o as [[err self']|e]; [|apply extends_refl].
  destruct E as [(-> & loc & new & b & h1 & _ & Ea & ->)|(_ & -> & _)]; [|apply extends_refl].
  destruct (merged ls new) as (H1 & _ & H3). split_and!; cbn [fst locators_ config]; [done| |].
  - intros l Hl. apply H3. by rewrite Hp.
  - intros l Hl. destruct (H1 l Hl) as [Hnew|Hold]; [right|left; by rewrite <- Hp]. by exists self, loc, serverGrp, h1, new, b, h'.
Qed.

End Helper.

(** C21. The search for a server asks the locators in turn, in a random order, [getConnRetries] times at most, and
    returns the first server that one of them names. If it fails with NotConnectedException, every attempt was in
    vain and some locator answered that there is no server; if it fails with NoAvailableLocatorsException, no
    locator answered at all; an exception of another kind comes from the last exchange. Every known locator is
    among those to be asked, unless there are more locators than attempts. *)
Theorem locator_search `{Allocator} to_utf16 to_utf8 read_other (net : Network) self excl grp current request h o h' :
  (forall h l, shuffle net h l ≡ₚ l) -> locators_ self <> [] -> connection_request excl grp current = Ok request ->
  getEndpointForNewFwdConn to_utf16 to_utf8 read_other net self excl grp current h = (o, h') ->
  exists asked, length asked = Z.to_nat (getConnRetries self) /\ (forall l, l ∈ asked -> l ∈ locators_ self) /\
    ((length (locators_ self) <= Z.to_nat (getConnRetries self))%nat -> forall l, l ∈ locators_ self -> l ∈ asked) /\
    search_ends to_utf16 to_utf8 read_other net self request asked false h o h'.
Proof.
  intros Hs Hne Hreq E. eexists. split_and!; [|intros l|intros Hn l Hl|by eapply forward_search].
  - unfold cycle. by rewrite length_fmap, length_seq.
  - by apply asked_known.
  - by apply all_asked.
Qed.

(** If one of the known locators, with as many attempts as there are, has a server for every request, and none
    lets an exception through, the search finds a server. *)
Theorem known_locator_suffices `{Allocator} to_utf16 to_utf8 read_other (net : Network) self excl grp current request h loc :
  (forall h l, shuffle net h l ≡ₚ l) -> loc ∈ locators_ self -> (length (locators_ self) <= Z.to_nat (getConnRetries self))%nat ->
  connection_request excl grp current = Ok request ->
  (forall h, exists server, (sendRequest to_utf16 to_utf8 read_other net self loc request h).1 = Ok (Some (ClientConnectionResponse true server))) ->
  (forall l h, l ∈ locators_ self -> exists r, (sendRequest to_utf16 to_utf8 read_other net self l request h).1 = Ok r) ->
  exists server, (getEndpointForNewFwdConn to_utf16 to_utf8 read_other net self excl grp current h).1 = Ok server.
Proof.
  intros Hs Hin Hn Hreq Hup Hall. destruct (getEndpointForNewFwdConn _ _ _ _ _ _ _ _ h) as [[server|e] h'] eqn:E; [by exists server|].
  assert (Hne : locators_ self <> []) by (intros Hnil; rewrite Hnil in Hin; by apply not_elem_of_nil in Hin).
  destruct (forward_search to_utf16 to_utf8 read_other net self excl grp current h _ _ request Hs Hne Hreq E) as (k & rs & h1 & Hp & Hno & Hend).
  exfalso. destruct Hend as [(l & Hk & Ea & _)|(-> & _)].
  - destruct (Hall l h1) as [r Hr]; [by eapply asked_known, list_elem_of_lookup_2|]. by rewrite Ea in Hr.
  - rewrite firstn_all in Hp. destruct (polls_asks _ _ _ _ _ _ _ _ _ _ _ Hp (all_asked net self h loc Hs Hn Hin)) as (h2 & r & h3 & Ea & Hr).
    destruct (Hup h2) as [server Hserver]. rewrite Ea in Hserver. cbn in Hserver. injection Hserver as ->.
    apply list_elem_of_In in Hr. by apply (proj1 (List.Forall_forall _ _) Hno) in Hr.
Qed.

(** C22. No locator is ever forgotten: after any number of updates, with any locators answering and failing, each
    locator that was known is in the list, each locator of the list was known or was named by a locator, and the
    list is not empty unless it was. *)
Theorem locators_kept `{Allocator} to_utf16 to_utf8 read_other (net : Network) self groups h :
  (forall h l, shuffle net h l ≡ₚ l) ->
  let self' := (updates to_utf16 to_utf8 read_other net self groups h).1 in
  config self' = config self /\ (forall l, l ∈ locators_ self -> known (locators_ self') l) /\
  (forall l, l ∈ locators_ self' -> l ∈ locators_ self \/ named to_utf16 to_utf8 read_other net l) /\
  (locators_ self <> [] -> locators_ self' <> []).
Proof.
  intros Hs. cbv zeta. assert (He : extends to_utf16 to_utf8 read_other net self (updates to_utf16 to_utf8 read_other net self groups h).1).
  { revert self h. induction groups as [|g groups IH]; intros self h; [apply extends_refl|]. cbn [updates].
    pose proof (update_extends to_utf16 to_utf8 read_other net self g h Hs) as Hx.
    destruct (update_once to_utf16 to_utf8 read_other net self g h) as [self1 h1]. eapply extends_trans; [exact Hx|apply IH]. }
  destruct He as (Hc & Hk & Hn). split_and!; [done..|]. destruct (locators_ self) as [|l ls]; [done|]. intros _ Hnil.
  destruct (Hk l) as (x & Hx & _); [left|]. rewrite Hnil in Hx. by apply not_elem_of_nil in Hx.
Qed.

(** *** Examples *)

Module LocatorExamples.
Section Examples.
#[local] Existing Instance always_alloc.
#[local] Existing Instance always_alloc_ok.

Definition no_other (code : Z) (id : option Z) : ST StreamDataInput.t unit := st_throw IllegalStateException.

(** Locators at a:1, b:2, c:3 and d:4; a server at h:40404. *)
Definition locator_a := Location.construct [97] 1.
Definition locator_b := Location.construct [98] 2.
Definition locator_c := Location.construct [99] 3.
Definition locator_d := Location.construct [100] 4.
Definition server := Location.construct [104] 40404.

Definition helper (ls : list Location.t) : t := mk ls (mkConfig (-1) 1000 false [] 0).

(** Only the locator at [up] can be reached. It answers with [response], whose first three bytes come alone. *)
Definition network (up : list Z) (request : Request) (response : Response) : Network :=
  mkNetwork (fun _ target =>
      if decide (host target = up) then
        Ok (mkConnection (Some (TcpConn.success, Z.of_nat (length (enc_request Ok request))))
              [TcpConn.mkRead (Some (TcpConn.try_again, take 3 (enc_response Ok response))) 10;
               TcpConn.mkRead (Some (TcpConn.eof, drop 3 (enc_response Ok response))) 20])
      else Throw SystemError)
    (fun _ => []) (fun _ l => l).

Definition connect_request := ClientConnectionRequest [locator_a] [103].
Definition found := ClientConnectionResponse true server.
Definition reached := network [98] connect_request found.

(** The answer is read from its pieces. *)
Lemma exchange_witness :
  sendRequest Ok Ok no_other reached (helper [locator_a; locator_b]) locator_b connect_request [] =
    (Ok (Some found), [Connected (mkTarget [98] 2 false None); Sent (enc_request Ok connect_request)]).
Proof.
  apply (exchange (H0 := always_alloc_ok) Ok Ok no_other reached (helper [locator_a; locator_b]) locator_b connect_request found
    (mkConnection (Some (TcpConn.success, Z.of_nat (length (enc_request Ok connect_request))))
       [TcpConn.mkRead (Some (TcpConn.try_again, take 3 (enc_response Ok found))) 10;
        TcpConn.mkRead (Some (TcpConn.eof, drop 3 (enc_response Ok found))) 20]) []); [..|reflexivity|reflexivity|].
  - repeat (constructor || intros ?); try done.
  - repeat (constructor || intros ?); try done.
  - vm_compute. discriminate.
  - vm_compute. reflexivity.
  - constructor.
  - apply (StreamFacts.delivers_piece TcpConn.try_again [1; 206; 1] 10 _ (drop 3 (enc_response Ok found)) 1000); [done..|].
    apply (StreamFacts.delivers_piece TcpConn.eof (drop 3 (enc_response Ok found)) 20 [] [] 990); [done..|]. by constructor.
Defined.

(** The first locator cannot be reached, the second one names the server. *)
Lemma locator_search_witness :
  exists asked, length asked = 3%nat /\ (forall l, l ∈ asked -> l ∈ [locator_a; locator_b]) /\
    ((2 <= 3)%nat -> forall l, l ∈ [locator_a; locator_b] -> l ∈ asked) /\
    search_ends Ok Ok no_other reached (helper [locator_a; locator_b]) connect_request asked false [] (Ok server)
      [Connected (mkTarget [97] 1 false None); Connected (mkTarget [98] 2 false None); Sent (enc_request Ok connect_request)].
Proof.
  apply (locator_search Ok Ok no_other reached (helper [locator_a; locator_b]) [locator_a] [103] None connect_request [] (Ok server)
    [Connected (mkTarget [97] 1 false None); Connected (mkTarget [98] 2 false None); Sent (enc_request Ok connect_request)]);
    [done|done|reflexivity|vm_compute; reflexivity].
Defined.

(** A list that does not name the second locator. *)
Definition list_answer := network [98] (LocatorListRequest []) (LocatorListResponse [locator_c; locator_a] true).
Lemma locators_kept_witness :
  let self' := (updates Ok Ok no_other list_answer (helper [locator_a; locator_b]) [[]; []] []).1 in
  config self' = mkConfig (-1) 1000 false [] 0 /\ (forall l, l ∈ [locator_a; locator_b] -> known (locators_ self') l) /\
  (forall l, l ∈ locators_ self' -> l ∈ [locator_a; locator_b] \/ named Ok Ok no_other list_answer l) /\ ([locator_a; locator_b] <> [] -> locators_ self' <> []).
Proof. apply (locators_kept Ok Ok no_other list_answer (helper [locator_a; locator_b]) [[]; []] []). done. Defined.
Example locators_after_updates : locators_ (updates Ok Ok no_other list_answer (helper [locator_a; locator_b]) [[]; []] []).1 = [locator_c; locator_a; locator_b].
Proof. vm_compute. reflexivity. Qed.

(** With four locators and the default number of attempts, the last one is not asked, although it has a server. *)
Definition fourth := network [100] connect_request found.
Example unasked_locator :
  (getEndpointForNewFwdConn Ok Ok no_other fourth (helper [locator_a; locator_b; locator_c; locator_d]) [locator_a] [103] None []).1 =
    Throw NoAvailableLocatorsException /\
  (sendRequest Ok Ok no_other fourth (helper []) locator_d connect_request []).1 = Ok (Some found).
Proof. by vm_compute. Qed.

(** Without locators, an index is taken modulo zero. *)
Example no_locators_undefined :
  (getEndpointForNewFwdConn Ok Ok no_other fourth (helper []) [] [] None []).1 = Throw UndefinedBehaviour /\
  (getEndpointForNewCallBackConn Ok Ok no_other fourth (helper []) [] 0 [] [] []).1 = Throw UndefinedBehaviour /\
  (updateLocators Ok Ok no_other fourth (helper []) [] []).1 = Ok (GF_NOTCON, helper []).
Proof. by vm_compute. Qed.

(** A huge string is read when it comes in one piece, and behind the data that have arrived when it comes in two. *)
Definition huge : list Z := [DataOutput.CacheableStringHuge; 0; 0; 0; 2; 0; 104; 0; 105].
Example huge_in_pieces :
  (fst <$> StreamDataInput.readString Ok (StreamDataInput.construct 1000 [TcpConn.mkRead (Some (TcpConn.eof, huge)) 1])) = Ok [104; 105] /\
  (fst <$> StreamDataInput.readString Ok (StreamDataInput.construct 1000
     [TcpConn.mkRead (Some (TcpConn.try_again, take 7 huge)) 1; TcpConn.mkRead (Some (TcpConn.eof, drop 7 huge)) 1])) = Throw UndefinedBehaviour.
Proof. by vm_compute. Qed.

(** A locator that expects SSL ends the search. *)
Definition ssl_locator : Network :=
  mkNetwork (fun _ _ => Ok (mkConnection (Some (TcpConn.success, Z.of_nat (length (enc_request Ok connect_request))))
    [TcpConn.mkRead (Some (TcpConn.eof, [21])) 1])) (fun _ => []) (fun _ l => l).
Example ssl_required :
  (getEndpointForNewFwdConn Ok Ok no_other ssl_locator (helper [locator_a; locator_b]) [locator_a] [103] None []).1 =
    Throw AuthenticationRequiredException.
Proof. by vm_compute. Qed.

End Examples.
End LocatorExamples.
