(* ===== verification/Transactions.v ===== *)
(** Transactions (src/cppcache/src/CacheTransactionManagerImpl.cpp,
    InternalCacheTransactionManager2PCImpl.cpp, TXState.cpp, TXId.cpp, TXCleaner.cpp, TSSTXStateWrapper.hpp,
    SuspendedTxExpiryTask.cpp, TransactionSuspender.cpp) and what a commit does to the regions
    (TXCommitMessage.cpp, RegionCommit.cpp, FarSideEntryOp.cpp, ThinClientRegion::txPut and its siblings).

    A [TXState] is an object that is created by [begin] and deleted at the end of its transaction; threads, the
    table of suspended transactions and the tasks of timers refer to it by pointer, and so do the references to
    transaction ids that [suspend] hands out. A use of an object that was deleted is [UndefinedBehaviour].
    Threads are numbered. An operation is one step: what it shares with other threads is under a lock, and the
    rest belongs to its thread. *)
From S2P Require Import Prelude MemberId Versions ExceptionTypes ExpiryTaskManager MapEntry EntriesMap LocalRegion RegionTree CacheableBuiltins TcrMessage TcrReply ObjectParts.

(** *** Errors of servers *)

(** [std::string::find] of a text is not [npos]. *)
Fixpoint starts_with (text s : list Z) : bool :=
  match text, s with
  | [], _ => true
  | c :: text, d :: s => (c =? d) && starts_with text s
  | _ :: _, [] => false
  end.
Fixpoint contains (text s : list Z) : bool :=
  starts_with text s || match s with [] => false | _ :: s => contains text s end.

Definition handleServerException (exceptionMsg : list Z) : GfErrType :=
  let has name := contains (literal name) exceptionMsg in
  if has "org.apache.geode.security.NotAuthorizedException" then GF_NOT_AUTHORIZED_EXCEPTION
  else if has "org.apache.geode.cache.CacheWriterException" then GF_CACHE_WRITER_EXCEPTION
  else if has "org.apache.geode.security.AuthenticationFailedException" then GF_AUTHENTICATION_FAILED_EXCEPTION
  else if has "org.apache.geode.internal.cache.execute.InternalFunctionInvocationTargetException"
    then GF_INTERNAL_FUNCTION_INVOCATION_TARGET_EXCEPTION
  else if has "org.apache.geode.cache.execute.FunctionException" then GF_FUNCTION_EXCEPTION
  else if has "org.apache.geode.cache.CommitConflictException" then GF_COMMIT_CONFLICT_EXCEPTION
  else if has "org.apache.geode.cache.TransactionDataNodeHasDepartedException"
    then GF_TRANSACTION_DATA_NODE_HAS_DEPARTED_EXCEPTION
  else if has "org.apache.geode.cache.TransactionDataRebalancedException" then GF_TRANSACTION_DATA_REBALANCED_EXCEPTION
  else if has "org.apache.geode.security.AuthenticationRequiredException" then GF_AUTHENTICATION_REQUIRED_EXCEPTION
  else if has "org.apache.geode.cache.LowMemoryException" then GF_LOW_MEMORY_EXCEPTION
  else if has "org.apache.geode.cache.query.QueryExecutionLowMemoryException" then GF_QUERY_EXECUTION_LOW_MEMORY_EXCEPTION
  else GF_CACHESERVER_EXCEPTION.

(** *** What was committed *)

(** The regions of a cache, as commits use them: [Cache::getRegion], and [destroyNoThrowTX], [invalidateNoThrowTX]
    and [putNoThrowTX] of a region with the update count -1 and normal events. *)
Class TxRegions (U G : Type) := {
  tr_getRegion : list Z -> ST G (option nat);
  tr_destroy : nat -> Serializable.t U -> Serializable.t U -> option VersionTag.t -> ST G GfErrType;
  tr_invalidate : nat -> Serializable.t U -> Serializable.t U -> option VersionTag.t -> ST G GfErrType;
  tr_put : nat -> Serializable.t U -> Serializable.t U -> Serializable.t U -> option VersionTag.t -> ST G GfErrType
}.

Module Operation.
Definition INVALIDATE : Z := 17.
Definition LOCAL_INVALIDATE : Z := 18.
Definition DESTROY : Z := 19.
Definition LOCAL_DESTROY : Z := 20.
Definition EVICT_DESTROY : Z := 21.
Definition EXPIRE_DESTROY : Z := 27.
Definition EXPIRE_LOCAL_DESTROY : Z := 28.
Definition EXPIRE_INVALIDATE : Z := 29.
Definition EXPIRE_LOCAL_INVALIDATE : Z := 30.
Definition REMOVE : Z := 46.
End Operation.

Module TXCommitMessage.
Section Commit.
Context {U : Type}.
Abbreviation Object_ := (Serializable.t U).

Record FarSideEntryOp := mkOp {
  m_op : Z;
  m_key : Object_;
  m_value : Object_;
  m_callbackArg : Object_;
  m_versionTag : option VersionTag.t
}.

(** Null paths are [None]. *)
Record RegionCommit := mkRegion {
  m_regionPath : option (list Z);
  m_parentRegionPath : option (list Z);
  m_farSideEntryOps : list FarSideEntryOp
}.

Definition t : Type := list RegionCommit.

Definition isDestroy (op : Z) : bool :=
  (op =? Operation.DESTROY) || (op =? Operation.LOCAL_DESTROY) || (op =? Operation.EVICT_DESTROY) || (op =? Operation.EXPIRE_DESTROY)
  || (op =? Operation.EXPIRE_LOCAL_DESTROY) || (op =? Operation.REMOVE).
Definition isInvalidate (op : Z) : bool :=
  (op =? Operation.INVALIDATE) || (op =? Operation.LOCAL_INVALIDATE) || (op =? Operation.EXPIRE_INVALIDATE)
  || (op =? Operation.EXPIRE_LOCAL_INVALIDATE).

Section Apply.
Context {G : Type} `{TxRegions U G}.

(** A change of the cache; one that throws is taken back. *)
Definition on_cache {X} (m : ST G X) : EX G X := fun g =>
  match m g with Ok (x, g') => (Ok x, g') | Throw e => (Throw e, g) end.

(** [txDestroy], [txInvalidate] and [txPut]. *)
Definition op_apply (region : nat) (o : FarSideEntryOp) : EX G unit :=
  err ← on_cache (if isDestroy (m_op o) then tr_destroy region (m_key o) (m_callbackArg o) (m_versionTag o)
                  else if isInvalidate (m_op o) then tr_invalidate region (m_key o) (m_callbackArg o) (m_versionTag o)
                  else tr_put region (m_key o) (m_value o) (m_callbackArg o) (m_versionTag o));
  if decide (err = GF_NOERR) then mret tt else ex_throw (GfErrTypeThrowException err).

(** The region of a commit, or the region of the parent path. *)
Definition commit_region (rc : RegionCommit) : EX G (option nat) :=
  match m_regionPath rc with
  | None => ex_throw UndefinedBehaviour
  | Some path =>
    region ← on_cache (tr_getRegion path);
    match region, m_parentRegionPath rc with
    | None, Some (c :: parentPath) => on_cache (tr_getRegion (c :: parentPath))
    | _, _ => mret region
    end
  end.

Fixpoint ops_apply (rc : RegionCommit) (ops : list FarSideEntryOp) : EX G unit :=
  match ops with
  | [] => mret tt
  | o :: ops =>
    region ← commit_region rc;
    match region with Some r => op_apply r o | None => mret tt end;;
    ops_apply rc ops
  end.
Definition region_apply (rc : RegionCommit) : EX G unit := ops_apply rc (m_farSideEntryOps rc).

Fixpoint apply (regions_ : t) : EX G unit :=
  match regions_ with
  | [] => mret tt
  | rc :: regions_ => region_apply rc;; apply regions_
  end.
End Apply.
End Commit.
Arguments FarSideEntryOp : clear implicits.
Arguments RegionCommit : clear implicits.
Arguments t : clear implicits.
End TXCommitMessage.

(** The regions of a client ([CacheImpl]). Keys are what the equality of the application makes of them. *)
Section CacheRegions.
Context {U M K D A E : Type} `{HM : EntriesMap M K (Serializable.t U) D} (virt : LocalRegion.Virtuals M K (Serializable.t U) A E)
  (app : LocalRegion.Callbacks K (Serializable.t U) A) (valueEq : Serializable.t U -> Serializable.t U -> bool)
  (to_key : Serializable.t U -> K) (to_arg : Serializable.t U -> A).
Definition key_of (o : Serializable.t U) : option K := match o with Serializable.nullptr => None | _ => Some (to_key o) end.
Definition arg_of (o : Serializable.t U) : option A := match o with Serializable.nullptr => None | _ => Some (to_arg o) end.
Definition cache_regions : TxRegions U (CacheImpl.t M K (Serializable.t U) A) := {|
  tr_getRegion path := CacheImpl.getRegion path;
  tr_destroy r key arg tag :=
    CacheImpl.on_region r (LocalRegion.destroyNoThrowTX virt app valueEq (key_of key) (arg_of arg) (-1) CacheEventFlags.GF_NORMAL tag);
  tr_invalidate r key arg tag :=
    CacheImpl.on_region r (LocalRegion.invalidateNoThrowTX virt app valueEq (key_of key) (arg_of arg) (-1) CacheEventFlags.GF_NORMAL tag);
  tr_put r key v arg tag :=
    CacheImpl.on_region r (LocalRegion.err_of <$>
      LocalRegion.putNoThrowTX virt app valueEq (key_of key) (TcrReply.pointer v) (arg_of arg) None (-1) CacheEventFlags.GF_NORMAL tag None None)
|}.
End CacheRegions.

(** *** The manager *)

Module TransactionManager.

(** The connection of a thread: the name of its endpoint and the pool of the endpoint. *)
Record Conn := mkConn { c_endpoint : list Z; c_dm : option nat }.

Record TXState := mkTX {
  m_txId : Z;
  m_prepared : bool;
  epNameStr : list Z;
  m_pooldm : option nat;
  m_suspendedExpiryTaskId : Z
}.
Definition new_state (id : Z) : TXState := mkTX id false [] None 0.

Inductive Request := Commit (txId : Z) | Rollback (txId : Z) | TxSynchronization (ordinal txId status : Z).
Definition STATUS_COMMITTED : Z := 3.
Definition STATUS_ROLLEDBACK : Z := 4.
Definition BEFORE_COMMIT : Z := 0.
Definition AFTER_COMMIT : Z := 1.

(** The message type of a reply, its value, if that is a commit message, and its exception. *)
Record Reply (U : Type) := mkReply { r_type : Z; r_value : option (TXCommitMessage.t U); r_exception : list Z }.
Arguments mkReply {U} _ _ _. Arguments r_type {U} _. Arguments r_value {U} _. Arguments r_exception {U} _.

Section Manager.
Context {U G : Type} `{TxRegions U G}.

(** [tss] and [connections] are the thread-local pointers to the transaction and to the connection. A task is
    the transaction that it refers to, and whether its timer has yet to fire. *)
Record t := mk {
  m_transactionId : Z;                  (** [TXId::m_transactionId] *)
  m_TXs : list Z;
  m_suspendedTXs : gmap Z nat;
  objects : gmap nat TXState;
  next_object : nat;
  tss : gmap nat nat;
  connections : gmap nat Conn;
  tasks : ExpiryTaskManager.t (nat * bool);
  sent : list (nat * Request);
  cache : G
}.
Definition eta (s : t) : t :=
  mk (m_transactionId s) (m_TXs s) (m_suspendedTXs s) (objects s) (next_object s) (tss s) (connections s) (tasks s) (sent s) (cache s).
Definition set_TXs : list Z -> t -> t := ltac:(record_setter eta m_TXs).
Definition set_suspended : gmap Z nat -> t -> t := ltac:(record_setter eta m_suspendedTXs).
Definition set_objects : gmap nat TXState -> t -> t := ltac:(record_setter eta objects).
Definition set_tss : gmap nat nat -> t -> t := ltac:(record_setter eta tss).
Definition set_connections : gmap nat Conn -> t -> t := ltac:(record_setter eta connections).
Definition set_tasks : ExpiryTaskManager.t (nat * bool) -> t -> t := ltac:(record_setter eta tasks).
Definition set_sent : list (nat * Request) -> t -> t := ltac:(record_setter eta sent).
Definition set_cache : G -> t -> t := ltac:(record_setter eta cache).
Abbreviation Tx := (EX t).

(** [sendSyncRequest]: the error, the reply, and the connection that the thread has afterwards.
    [getConnectionToAnEndPoint]: the error and the connection. Both depend on all requests so far.
    [isSticky] is a property of a pool. *)
Context (sendSyncRequest : list (nat * Request) -> nat -> Request -> GfErrType * Reply U * option Conn)
  (getConnectionToAnEndPoint : list (nat * Request) -> nat -> list Z -> GfErrType * option Conn)
  (isSticky : nat -> bool).

Definition illegal_state {X} : Tx X := ex_throw (GfErrTypeThrowException GF_CACHE_ILLEGAL_STATE_EXCEPTION).

(** *** Pointers and thread-local storage *)

Definition deref (p : nat) : Tx TXState := fun s =>
  match objects s !! p with Some x => (Ok x, s) | None => (Throw UndefinedBehaviour, s) end.
Definition update_state (p : nat) (f : TXState -> TXState) : Tx unit := x ← deref p; ex_modify (fun s => set_objects (<[p := f x]> (objects s)) s).
Definition setPrepared (x : TXState) : TXState := mkTX (m_txId x) true (epNameStr x) (m_pooldm x) (m_suspendedExpiryTaskId x).
Definition setEndpoint (ep : list Z) (dm : option nat) (x : TXState) : TXState := mkTX (m_txId x) (m_prepared x) ep dm (m_suspendedExpiryTaskId x).
Definition setSuspendedExpiryTaskId (id : Z) (x : TXState) : TXState := mkTX (m_txId x) (m_prepared x) (epNameStr x) (m_pooldm x) id.

Definition getTXState (i : nat) : Tx (option nat) := ex_gets (fun s => tss s !! i).
Definition setTXState (i : nat) (p : option nat) : Tx unit :=
  ex_modify (fun s => set_tss (match p with Some p => <[i := p]> (tss s) | None => delete i (tss s) end) s).

(** [TXId::TXId]. *)
Definition nextTXId (current : Z) : Z := if 2 ^ 31 - 1 =? current then 1 else current + 1.
(** [new TXState]. *)
Definition new_TXState : Tx nat := fun s =>
  let id := nextTXId (m_transactionId s) in
  (Ok (next_object s), mk id (m_TXs s) (m_suspendedTXs s) (<[next_object s := new_state id]> (objects s)) (S (next_object s)) (tss s)
     (connections s) (tasks s) (sent s) (cache s)).

(** *** The tables *)

Definition addTx (txId : Z) : Tx unit := ex_modify (fun s => set_TXs (m_TXs s ++ [txId]) s).
Definition removeTx (txId : Z) : Tx unit := ex_modify (fun s => set_TXs (List.filter (fun id => negb (id =? txId)) (m_TXs s)) s).
Definition findTx (txId : Z) : Tx bool := ex_gets (fun s => existsb (Z.eqb txId) (m_TXs s)).
Definition addSuspendedTx (txId : Z) (p : nat) : Tx unit := ex_modify (fun s => set_suspended (<[txId := p]> (m_suspendedTXs s)) s).
Definition getSuspendedTx (txId : Z) : Tx (option nat) := ex_gets (fun s => m_suspendedTXs s !! txId).
Definition removeSuspendedTx (txId : Z) : Tx (option nat) := fun s =>
  match m_suspendedTXs s !! txId with
  | Some p => (Ok (Some p), set_suspended (delete txId (m_suspendedTXs s)) s)
  | None => (Ok None, s)
  end.
Definition isSuspendedTx (txId : Z) : Tx bool := ex_gets (fun s => bool_decide (is_Some (m_suspendedTXs s !! txId))).

(** *** Connections *)

Definition getDM (i : nat) : Tx (option nat) := ex_gets (fun s => connections s !! i ≫= c_dm).
(** The pool forgets the connection of the thread, unless its connections are sticky. *)
Definition releaseStickyConnection (i : nat) : Tx unit := ex_modify (fun s =>
  match connections s !! i ≫= c_dm with
  | Some dm => if isSticky dm then s else set_connections (delete i (connections s)) s
  | None => s
  end).
Definition setThreadLocalConnection (i : nat) (conn : Conn) : Tx unit := ex_modify (fun s => set_connections (<[i := conn]> (connections s)) s).
Definition send (i : nat) (request : Request) : Tx (GfErrType * Reply U) := fun s =>
  let '(err, reply, conn) := sendSyncRequest (sent s) i request in
  (Ok (err, reply),
   set_connections (match conn with Some c => <[i := c]> (connections s) | None => delete i (connections s) end)
     (set_sent (sent s ++ [(i, request)]) s)).

(** *** TXCleaner *)

Definition clean (i : nat) (p : option nat) : Tx unit :=
  match p with Some p => x ← deref p; removeTx (m_txId x);; setTXState i None | None => mret tt end.
Definition destroy_cleaner (i : nat) (p : option nat) : Tx unit :=
  clean i p;;
  match p with
  | Some p => releaseStickyConnection i;; ex_modify (fun s => set_objects (delete p (objects s)) s)
  | None => mret tt
  end.
(** A block with a [TXCleaner]. *)
Definition with_cleaner {X} (i : nat) (body : option nat -> Tx X) : Tx X :=
  p ← getTXState i; ex_finally (body p) (destroy_cleaner i p).

(** [commit->apply(cache)], of a pointer that may be null. *)
Definition apply_commit (msg : option (TXCommitMessage.t U)) : Tx unit := fun s =>
  match msg with
  | None => (Throw UndefinedBehaviour, s)
  | Some msg => let '(o, g) := TXCommitMessage.apply msg (cache s) in (o, set_cache g s)
  end.

(** *** CacheTransactionManagerImpl *)

Definition begin (i : nat) : Tx unit :=
  current ← getTXState i;
  match current with
  | Some _ => illegal_state
  | None =>
    p ← new_TXState;
    setTXState i (Some p);;
    x ← deref p;
    addTx (m_txId x)
  end.

Definition commit_1pc (i : nat) : Tx unit :=
  with_cleaner i (fun cleaner =>
    txState ← getTXState i;
    match txState with
    | None => illegal_state
    | Some p =>
      x ← deref p;
      tcr_dm ← getDM i;
      match tcr_dm with
      | None => mret tt
      | Some _ =>
        '(err, reply) ← send i (Commit (m_txId x));
        if decide (err = GF_NOERR) then
          if r_type reply =? MsgType.RESPONSE then clean i cleaner;; apply_commit (r_value reply)
          else if r_type reply =? MsgType.EXCEPTION then ex_throw (GfErrTypeThrowException (handleServerException (r_exception reply)))
          else if r_type reply =? MsgType.COMMIT_ERROR then ex_throw (GfErrTypeThrowException GF_COMMIT_CONFLICT_EXCEPTION)
          else ex_throw (GfErrTypeThrowException GF_MSG)
        else ex_throw (GfErrTypeThrowException err)
      end
    end).

(** The reply to a rollback is not looked at. [throw ex] in a handler for [const Exception&] throws a copy of
    the base class: of an error of the request only that remains. *)
Definition rollback_request (i p : nat) : Tx GfErrType :=
  x ← deref p;
  tcr_dm ← getDM i;
  match tcr_dm with
  | None => mret GF_NOERR
  | Some _ => '(err, _) ← send i (Rollback (m_txId x)); mret err
  end.
Definition rollback_1pc (i : nat) : Tx unit :=
  with_cleaner i (fun cleaner =>
    txState ← getTXState i;
    match txState with
    | None => illegal_state
    | Some p =>
      err ← rollback_request i p;
      if decide (err = GF_NOERR) then mret tt else ex_throw BaseException
    end).

(** The result is a reference to the id in the object. *)
Definition suspend (i : nat) : Tx nat :=
  txState ← getTXState i;
  match txState with
  | None => ex_throw TransactionException
  | Some p =>
    conn ← ex_gets (fun s => connections s !! i);
    match conn with
    | None => ex_throw TransactionException
    | Some ep =>
      update_state p (setEndpoint (c_endpoint ep) (c_dm ep));;
      releaseStickyConnection i;;
      id ← (fun s => let '(id, m) := ExpiryTaskManager.schedule (p, true) (tasks s) in (Ok id, set_tasks m s));
      update_state p (setSuspendedExpiryTaskId id);;
      x ← deref p;
      addSuspendedTx (m_txId x) p;;
      setTXState i None;;
      mret p
    end
  end.

Definition resumeTxUsingTxState (i p : nat) (cancelExpiryTask : bool) : Tx unit :=
  x ← deref p;
  (if cancelExpiryTask
   then ex_modify (fun s => set_tasks (ExpiryTaskManager.cancel (m_suspendedExpiryTaskId x) (tasks s)).2 s)
   else mret tt);;
  setTXState i (Some p);;
  match m_pooldm x with
  | None => ex_throw UndefinedBehaviour
  | Some dm =>
    '(error, conn) ← ex_gets (fun s => getConnectionToAnEndPoint (sent s) dm (epNameStr x));
    match conn with
    | Some conn =>
      if decide (error = GF_NOERR) then setThreadLocalConnection i conn else setTXState i None;; illegal_state
    | None => setTXState i None;; illegal_state
    end
  end.

(** Transaction ids are references into the objects ([ref]). *)
Definition resume (i ref : nat) : Tx unit :=
  current ← getTXState i;
  match current with
  | Some _ => illegal_state
  | None =>
    x ← deref ref;
    txState ← removeSuspendedTx (m_txId x);
    match txState with
    | None => illegal_state
    | Some p => resumeTxUsingTxState i p true
    end
  end.
Definition isSuspended (ref : nat) : Tx bool := x ← deref ref; isSuspendedTx (m_txId x).
Definition tryResume_cancel (i ref : nat) (cancelExpiryTask : bool) : Tx bool :=
  current ← getTXState i;
  match current with
  | Some _ => mret false
  | None =>
    x ← deref ref;
    txState ← removeSuspendedTx (m_txId x);
    match txState with
    | None => mret false
    | Some p => resumeTxUsingTxState i p cancelExpiryTask;; mret true
    end
  end.
Definition tryResume (i ref : nat) : Tx bool := tryResume_cancel i ref true.
Definition exists_ref (ref : nat) : Tx bool := x ← deref ref; findTx (m_txId x).
Definition exists_ (i : nat) : Tx bool := current ← getTXState i; mret (bool_decide (is_Some current)).
Definition getTransactionId (i : nat) : Tx nat :=
  current ← getTXState i; match current with Some p => deref p;; mret p | None => ex_throw UndefinedBehaviour end.
(** With a time to wait: the step is made when the transaction is suspended or the time is over. *)
Definition tryResume_wait (i ref : nat) : Tx bool :=
  current ← getTXState i;
  match current with
  | Some _ => mret false
  | None =>
    known ← exists_ref ref;
    if known : bool then
      x ← deref ref;
      txState ← removeSuspendedTx (m_txId x);
      match txState with
      | None => mret false
      | Some p => resumeTxUsingTxState i p true;; mret true
      end
    else mret false
  end.

(** *** InternalCacheTransactionManager2PCImpl *)

Definition prepare (i : nat) : Tx unit :=
  txState ← getTXState i;
  match txState with
  | None => illegal_state
  | Some p =>
    tcr_dm ← getDM i;
    match tcr_dm with
    | None => mret tt
    | Some _ =>
      x ← deref p;
      '(err, reply) ← send i (TxSynchronization BEFORE_COMMIT (m_txId x) STATUS_COMMITTED);
      if decide (err = GF_NOERR) then
        if r_type reply =? MsgType.REPLY then update_state p setPrepared
        else with_cleaner i (fun _ =>
          if r_type reply =? MsgType.EXCEPTION then ex_throw (GfErrTypeThrowException (handleServerException (r_exception reply)))
          else if r_type reply =? MsgType.REQUEST_DATA_ERROR then ex_throw (GfErrTypeThrowException GF_COMMIT_CONFLICT_EXCEPTION)
          else ex_throw (GfErrTypeThrowException GF_MSG))
      else ex_throw (GfErrTypeThrowException err)
    end
  end.

Definition afterCompletion (i : nat) (status : Z) : Tx unit :=
  txState ← getTXState i;
  match txState with
  | None => illegal_state
  | Some p =>
    tcr_dm ← getDM i;
    match tcr_dm with
    | None => with_cleaner i (fun _ => mret tt)
    | Some _ =>
      x ← deref p;
      if negb (m_prepared x) then
        if status =? STATUS_COMMITTED then commit_1pc i
        else if status =? STATUS_ROLLEDBACK then rollback_1pc i
        else illegal_state
      else
        with_cleaner i (fun cleaner =>
          '(err, reply) ← send i (TxSynchronization AFTER_COMMIT (m_txId x) status);
          if decide (err = GF_NOERR) then
            if r_type reply =? MsgType.RESPONSE then
              match r_value reply with
              | Some commit => clean i cleaner;; apply_commit (Some commit)
              | None => mret tt
              end
            else if r_type reply =? MsgType.EXCEPTION then ex_throw (GfErrTypeThrowException (handleServerException (r_exception reply)))
            else if r_type reply =? MsgType.REQUEST_DATA_ERROR then ex_throw (GfErrTypeThrowException GF_COMMIT_CONFLICT_EXCEPTION)
            else ex_throw (GfErrTypeThrowException GF_MSG)
          else ex_throw (GfErrTypeThrowException err))
    end
  end.
Definition commit (i : nat) : Tx unit := afterCompletion i STATUS_COMMITTED.
Definition rollback (i : nat) : Tx unit := afterCompletion i STATUS_ROLLEDBACK.

(** *** Expiry and suspension *)

(** What no handler stops. *)
Definition fatal (e : exn) : bool := match e with Terminated | UndefinedBehaviour | Diverges => true | _ => false end.
(** [catch (...) {}]. *)
Definition ignore_exceptions (m : Tx unit) : Tx unit := fun s =>
  match m s with (Throw e, s') => if fatal e then (Throw e, s') else (Ok tt, s') | r => r end.

(** [SuspendedTxExpiryTask::on_expire] on a thread of the timers; it returns false. *)
Definition on_expire (i ref : nat) : Tx bool :=
  ignore_exceptions (resumed ← tryResume_cancel i ref false; if resumed : bool then rollback i else mret tt);; mret false.
(** [ExpiryTask::on_callback]: the task is removed from the table if [on_expire] returns true. A timer fires
    once. *)
Definition on_callback (i : nat) (id : Z) : Tx unit := fun s =>
  match ExpiryTaskManager.task_map_ (tasks s) !! id with
  | Some (p, true) =>
    let m := tasks s in
    (done ← on_expire i p;
     if done : bool then ex_modify (fun s => set_tasks (ExpiryTaskManager.remove id (tasks s)) s) else mret tt)
      (set_tasks (ExpiryTaskManager.mk (ExpiryTaskManager.running_ m) (<[id := (p, false)]> (ExpiryTaskManager.task_map_ m))
         (ExpiryTaskManager.last_task_id_ m)) s)
  | _ => (Ok tt, s)
  end.

(** A block with a [TransactionSuspender]. *)
Definition with_suspender {X} (i : nat) (body : Tx X) : Tx X :=
  saved ← getTXState i;
  setTXState i None;;
  ex_finally body (setTXState i saved).

(** The end of a thread: the destructors of its thread-local storage. *)
Definition thread_end (i : nat) : Tx unit := fun s =>
  (Ok tt, set_connections (delete i (connections s))
     (match tss s !! i with Some p => set_tss (delete i (tss s)) (set_objects (delete p (objects s)) s) | None => s end)).

End Manager.
Arguments t : clear implicits.
End TransactionManager.
