(* ===== verification/TransactionClaims.v ===== *)
(** Transactions: who uses a transaction, how it ends, suspension and resumption. *)
From S2P Require Import Prelude MemberId Versions ExceptionTypes ExpiryTaskManager MapEntry MapSegment ConcurrentEntriesMap EntriesMap SegmentClaims LocalRegion RegionClaims RegionTree RegionTreeSteps CacheableBuiltins TcrMessage TcrReply ObjectParts Transactions.
Import TransactionManager.
Local Open Scope Z_scope.
Create HintDb counting.

Section Transactions.
Context {U G : Type} `{TxRegions U G}.
Context (sendSyncRequest : list (nat * Request) -> nat -> Request -> GfErrType * Reply U * option Conn)
  (getConnectionToAnEndPoint : list (nat * Request) -> nat -> list Z -> GfErrType * option Conn) (isSticky : nat -> bool).
Abbreviation State := (t G).
Implicit Types (s : State) (i j p : nat).

(** *** The invariant *)

(** What the invariant is about: all but connections, messages and the cache. *)
Record core_eq s s' : Prop := {
  ce_counter : m_transactionId s' = m_transactionId s;
  ce_TXs : m_TXs s' = m_TXs s;
  ce_suspended : m_suspendedTXs s' = m_suspendedTXs s;
  ce_objects : objects s' = objects s;
  ce_next : next_object s' = next_object s;
  ce_tss : tss s' = tss s;
  ce_tasks : tasks s' = tasks s
}.
#[local] Instance core_eq_equiv : Equivalence core_eq.
Proof. split; [by intros s; constructor|by intros s s' []; constructor|intros s1 s2 s3 [] []; constructor; congruence]. Qed.

Record Inv s : Prop := {
  inv_counter : 0 <= m_transactionId s;
  inv_tss : forall i p, tss s !! i = Some p -> is_Some (objects s !! p);
  inv_own : forall i j p, tss s !! i = Some p -> tss s !! j = Some p -> i = j;
  inv_suspended : forall id p, m_suspendedTXs s !! id = Some p ->
    (exists x, objects s !! p = Some x /\ m_txId x = id) /\ forall i, tss s !! i <> Some p;
  inv_objects : forall p x, objects s !! p = Some x -> 1 <= m_txId x <= m_transactionId s /\ m_txId x ∈ m_TXs s /\ (p < next_object s)%nat;
  inv_ids : forall p q x y, objects s !! p = Some x -> objects s !! q = Some y -> m_txId x = m_txId y -> p = q;
  inv_tasks : forall id p, ExpiryTaskManager.task_map_ (tasks s) !! id = Some (p, true) ->
    exists x, objects s !! p = Some x /\ m_suspendedExpiryTaskId x = id /\ m_suspendedTXs s !! m_txId x = Some p
}.

#[local] Instance Inv_proper : Proper (core_eq ==> iff) Inv.
Proof.
  assert (Hone : forall s s', core_eq s s' -> Inv s -> Inv s').
  { intros s s' [H1 H2 H3 H4 H5 H6 H7] []. constructor; rewrite ?H1, ?H2, ?H3, ?H4, ?H5, ?H6, ?H7; assumption. }
  intros s s' E. split; by apply Hone.
Qed.

(** *** Steps on states *)

Definition dropped (id : Z) (l : list Z) : list Z := List.filter (fun z => negb (z =? id)) l.
Lemma elem_of_dropped id l z : z ∈ dropped id l <-> z ∈ l /\ z <> id.
Proof. unfold dropped. rewrite !list_elem_of_In, filter_In. destruct (Z.eqb_spec z id); cbn; intuition congruence. Qed.

Definition cleaned i (x : TXState) s : State := set_tss (delete i (tss s)) (set_TXs (dropped (m_txId x) (m_TXs s)) s).
Definition ended i p (x : TXState) s : State := set_objects (delete p (objects s)) (cleaned i x s).

(** A transaction that leaves its thread and is deleted. *)
Lemma inv_deleted i p x l s : Inv s -> tss s !! i = Some p -> objects s !! p = Some x ->
  (forall id, id ∈ m_TXs s -> id <> m_txId x -> id ∈ l) ->
  Inv (set_objects (delete p (objects s)) (set_tss (delete i (tss s)) (set_TXs l s))).
Proof.
  intros [Hn Ht Ho Hs Hb Hi Hk] Hip Hx Hlist. constructor; cbn.
  - done.
  - intros j q (Hne & Hq)%lookup_delete_Some. rewrite lookup_delete_ne; [by eapply Ht|]. intros ->. by apply Hne, (Ho i j q).
  - intros j k q (_ & Hq)%lookup_delete_Some (_ & Hq')%lookup_delete_Some. by eapply Ho.
  - intros id q Hq. destruct (Hs id q Hq) as [(y & Hy & Hid) Hno]. split.
    + exists y. rewrite lookup_delete_ne; [done|]. intros ->. by eapply Hno.
    + intros j (_ & Hj)%lookup_delete_Some. by eapply Hno.
  - intros q y (Hne & Hy)%lookup_delete_Some. destruct (Hb q y Hy) as (H1 & H2 & H3). split_and!; [lia|lia| |done].
    apply Hlist; [done|]. intros E. by apply Hne, (Hi p q x y).
  - intros q r y z (_ & Hy)%lookup_delete_Some (_ & Hz)%lookup_delete_Some. by apply (Hi q r y z).
  - intros id q Hq. destruct (Hk id q Hq) as (y & Hy & Hid & Hsu). exists y. rewrite lookup_delete_ne; [done|]. intros ->.
    destruct (Hs _ _ Hsu) as [_ Hno]. by eapply Hno.
Qed.
Lemma inv_ended i p x s : Inv s -> tss s !! i = Some p -> objects s !! p = Some x -> Inv (ended i p x s).
Proof. intros HI Hi Hx. apply (inv_deleted i p x _ s HI Hi Hx). intros id Hid Hne. by apply elem_of_dropped. Qed.

(** A task is armed when its timer has yet to fire. *)
Definition armed (m : ExpiryTaskManager.t (nat * bool)) (id : Z) p : Prop := ExpiryTaskManager.task_map_ m !! id = Some (p, true).

(** A suspended transaction is taken out of the table, and its task is not armed any more. *)
Lemma inv_detached id p m s : Inv s -> m_suspendedTXs s !! id = Some p -> (forall n q, armed m n q -> armed (tasks s) n q /\ q <> p) ->
  Inv (set_tasks m (set_suspended (delete id (m_suspendedTXs s)) s)).
Proof.
  intros [Hn Ht Ho Hs Hb Hi Hk] Hp Hm. constructor; cbn; try done.
  - intros id' q (_ & Hq)%lookup_delete_Some. by apply Hs.
  - intros n q Hq. apply Hm in Hq as [Hq Hne]. destruct (Hk n q Hq) as (x & Hx & Hn' & Hsu). exists x. split_and!; [done..|].
    rewrite lookup_delete_ne; [done|]. intros ->. congruence.
Qed.
Lemma inv_fewer_tasks m s : Inv s -> (forall n q, armed m n q -> armed (tasks s) n q) -> Inv (set_tasks m s).
Proof. intros [Hn Ht Ho Hs Hb Hi Hk] Hm. constructor; cbn; try done. intros n q Hq%Hm. by apply Hk. Qed.

(** A transaction that nobody uses is given to a thread without one. *)
Lemma inv_attached i p s : Inv s -> is_Some (objects s !! p) -> (forall j, tss s !! j <> Some p) -> (forall id, m_suspendedTXs s !! id <> Some p) ->
  Inv (set_tss (<[i := p]> (tss s)) s).
Proof.
  intros [Hn Ht Ho Hs Hb Hi Hk] Hx Hno Hns. constructor; cbn; try done.
  - intros j q [[<- <-]|[_ Hq]]%lookup_insert_Some; [done|by eapply Ht].
  - intros j k q [[<- <-]|[_ Hq]]%lookup_insert_Some [[<- Hq']|[_ Hq']]%lookup_insert_Some; [done|by destruct (Hno k)|by destruct (Hno j); subst|by eapply Ho].
  - intros id q Hq. destruct (Hs id q Hq) as [Hobj Hun]. split; [done|].
    intros j [[<- <-]|[_ Hj]]%lookup_insert_Some; [by eapply Hns|by eapply Hun].
Qed.

(** A transaction leaves its thread and is suspended. *)
Lemma inv_parked i p x y m s : Inv s -> tss s !! i = Some p -> objects s !! p = Some x -> m_txId y = m_txId x ->
  (forall n q, armed m n q -> armed (tasks s) n q \/ q = p /\ n = m_suspendedExpiryTaskId y) ->
  Inv (set_tss (delete i (tss s)) (set_suspended (<[m_txId x := p]> (m_suspendedTXs s)) (set_objects (<[p := y]> (objects s)) (set_tasks m s)))).
Proof.
  intros [Hn Ht Ho Hs Hb Hi Hk] Hip Hx Hid Hm.
  assert (Hns : forall id, m_suspendedTXs s !! id <> Some p) by (intros id Hp; destruct (Hs id p Hp) as [_ Hno]; by eapply Hno).
  constructor; cbn.
  - done.
  - intros j q (_ & Hq)%lookup_delete_Some. destruct (decide (q = p)) as [->|]; [by rewrite lookup_insert_eq|rewrite lookup_insert_ne by done; by eapply Ht].
  - intros j k q (_ & Hq)%lookup_delete_Some (_ & Hq')%lookup_delete_Some. by eapply Ho.
  - intros id q [[<- <-]|[_ Hq]]%lookup_insert_Some.
    + split; [exists y; by rewrite lookup_insert_eq|]. intros j (Hne & Hj)%lookup_delete_Some. by apply Hne, (Ho i j p).
    + destruct (Hs id q Hq) as [(z & Hz & <-) Hno]. split; [|intros j (_ & Hj)%lookup_delete_Some; by eapply Hno].
      exists z. rewrite lookup_insert_ne; [done|]. intros ->. by eapply Hns.
  - intros q z [[<- <-]|[_ Hz]]%lookup_insert_Some; [rewrite Hid|]; by apply Hb.
  - intros q r z w [[<- <-]|[_ Hz]]%lookup_insert_Some [[<- <-]|[_ Hw]]%lookup_insert_Some E; [done|..]; eapply Hi; eauto; congruence.
  - intros n q Hq. destruct (Hm n q Hq) as [Hq'|[-> ->]].
    + destruct (Hk n q Hq') as (z & Hz & Hn' & Hsu). exists z.
      assert (q <> p) by (intros ->; by eapply Hns). rewrite !lookup_insert_ne by (done || intros E; by destruct (Hi p q x z Hx Hz E)). done.
    + exists y. by rewrite Hid, !lookup_insert_eq.
Qed.

(** An object keeps its id, its task and its place in the tables. *)
Lemma inv_update p x y s : Inv s -> objects s !! p = Some x -> m_txId y = m_txId x -> m_suspendedExpiryTaskId y = m_suspendedExpiryTaskId x ->
  Inv (set_objects (<[p := y]> (objects s)) s).
Proof.
  intros [Hn Ht Ho Hs Hb Hi Hk] Hx Hid Htask.
  assert (Hback : forall q z, <[p := y]> (objects s) !! q = Some z -> exists z0, objects s !! q = Some z0 /\ m_txId z = m_txId z0).
  { intros q z [[<- <-]|[_ Hz]]%lookup_insert_Some; eauto. }
  assert (Hforth : forall q z, objects s !! q = Some z -> exists z0, <[p := y]> (objects s) !! q = Some z0 /\ m_txId z0 = m_txId z /\
    m_suspendedExpiryTaskId z0 = m_suspendedExpiryTaskId z).
  { intros q z Hz. destruct (decide (p = q)) as [->|Hne]; [exists y; rewrite lookup_insert_eq; by simplify_eq|exists z; by rewrite lookup_insert_ne]. }
  constructor; cbn.
  - done.
  - intros i q Hq. destruct (Ht i q Hq) as [z Hz]. destruct (Hforth q z Hz) as (z0 & ? & _). by exists z0.
  - done.
  - intros id q Hq. destruct (Hs id q Hq) as [(z & Hz & <-) Hno]. split; [|done]. destruct (Hforth q z Hz) as (z0 & ? & ? & _). by exists z0.
  - intros q z Hz. destruct (Hback q z Hz) as (z0 & Hz0 & ->). by apply Hb in Hz0.
  - intros q r z w Hz Hw E. destruct (Hback q z Hz) as (z0 & Hz0 & E1), (Hback r w Hw) as (w0 & Hw0 & E2). apply (Hi q r z0 w0); congruence.
  - intros id q Hq. destruct (Hk id q Hq) as (z & Hz & <- & Hsu). destruct (Hforth q z Hz) as (z0 & ? & E1 & E2). exists z0. by rewrite E1.
Qed.

(** *** How a transaction ends *)

Abbreviation commit_ := (commit sendSyncRequest isSticky).
Abbreviation afterCompletion_ := (afterCompletion sendSyncRequest isSticky).

Definition released i s : State := (releaseStickyConnection isSticky i s).2.
#[local] Arguments released : simpl never.
Lemma released_core i s : core_eq s (released i s).
Proof. unfold released. cbn. repeat case_match; constructor; reflexivity. Qed.
Lemma released_rest i s : sent (released i s) = sent s /\ cache (released i s) = cache s.
Proof. unfold released. cbn. repeat case_match; done. Qed.

Lemma dropped_twice id l : dropped id (dropped id l) = dropped id l.
Proof. unfold dropped. induction l as [|z l IH]; [done|]. cbn. destruct (z =? id) eqn:E; cbn; [done|]. by rewrite E, IH; cbn. Qed.

Lemma destroy_cleaner_ends i p x s : objects s !! p = Some x -> destroy_cleaner isSticky i (Some p) s = (Ok tt, ended i p x (released i s)).
Proof.
  intros Hx. unfold destroy_cleaner, clean, deref, removeTx, setTXState, ex_modify, mbind, EX_bind. rewrite Hx. cbn.
  unfold releaseStickyConnection, released, ex_modify. cbn. repeat case_match; reflexivity.
Qed.

(** A block with a cleaner ends the transaction of its thread, whatever it does itself to connections, messages
    and the cache, and also if it cleaned up before. *)
Lemma with_cleaner_ends {X} i p x (body : option nat -> EX State X) s o s' :
  tss s !! i = Some p -> objects s !! p = Some x -> body (Some p) s = (o, s') -> core_eq s s' \/ core_eq (cleaned i x s) s' ->
  exists s'', with_cleaner isSticky i body s = (o, s'') /\ core_eq (ended i p x s) s'' /\ sent s'' = sent s' /\ cache s'' = cache s'.
Proof.
  intros Hi Hx Hbody Hcore. unfold with_cleaner, getTXState, ex_gets, mbind, EX_bind, ex_finally. rewrite Hi, Hbody.
  assert (Hx' : objects s' !! p = Some x) by (destruct Hcore as [E|E]; by rewrite (ce_objects _ _ E)).
  rewrite (destroy_cleaner_ends i p x s' Hx'). eexists. split; [reflexivity|].
  destruct (released_core i s') as [R1 R2 R3 R4 R5 R6 R7], (released_rest i s') as [R8 R9]. split; [|done].
  destruct Hcore as [[]|[]]; constructor; cbn in *; rewrite ?R1, ?R2, ?R3, ?R4, ?R5, ?R6, ?R7; try congruence.
  - rewrite ce_TXs0. apply dropped_twice.
  - rewrite ce_tss0. apply delete_delete_eq.
Qed.


(** What is asked of the server, and what its answer means: the changes to be made in the cache, if any. *)
Inductive status := committed | rolledback.
Definition code (c : status) : Z := match c with committed => 3 | rolledback => 4 end.
Definition request (c : status) (x : TXState) : Request :=
  if m_prepared x then TxSynchronization AFTER_COMMIT (m_txId x) (code c)
  else match c with committed => Commit (m_txId x) | rolledback => Rollback (m_txId x) end.
Definition conflict (x : TXState) : Z := if m_prepared x then MsgType.REQUEST_DATA_ERROR else MsgType.COMMIT_ERROR.
Definition verdict (c : status) (x : TXState) (err : GfErrType) (reply : Reply U) : outcome (option (TXCommitMessage.t U)) :=
  match c, m_prepared x with
  | rolledback, false => if decide (err = GF_NOERR) then Ok None else Throw BaseException
  | _, prepared =>
    if decide (err = GF_NOERR) then
      if r_type reply =? MsgType.RESPONSE then
        match r_value reply, prepared with None, false => Throw UndefinedBehaviour | changes, _ => Ok changes end
      else if r_type reply =? MsgType.EXCEPTION then Throw (GfErrTypeThrowException (handleServerException (r_exception reply)))
      else if r_type reply =? conflict x then Throw CommitConflictException
      else Throw MessageException
    else Throw (GfErrTypeThrowException err)
  end.
(** What is to be done with a verdict. *)
Definition settled (v : outcome (option (TXCommitMessage.t U))) (g : G) : outcome unit * G :=
  match v with Ok (Some changes) => TXCommitMessage.apply changes g | Ok None => (Ok tt, g) | Throw e => (Throw e, g) end.
(** The outcome of the end of a transaction, the messages that were sent and the cache afterwards. *)
Definition completion (c : status) i (x : TXState) s : outcome unit * list (nat * Request) * G :=
  match connections s !! i ≫= c_dm with
  | None => (Ok tt, sent s, cache s)
  | Some _ =>
    let '(err, reply, _) := sendSyncRequest (sent s) i (request c x) in
    let '(o, g) := settled (verdict c x err reply) (cache s) in (o, sent s ++ [(i, request c x)], g)
  end.

Definition outcome_of (c : outcome unit * list (nat * Request) * G) : outcome unit := c.1.1.
Definition sent_of (c : outcome unit * list (nat * Request) * G) : list (nat * Request) := c.1.2.
Definition cache_of (c : outcome unit * list (nat * Request) * G) : G := c.2.

Lemma send_core i r s err reply conn : sendSyncRequest (sent s) i r = (err, reply, conn) ->
  exists s1, send sendSyncRequest i r s = (Ok (err, reply), s1) /\ core_eq s s1 /\ sent s1 = sent s ++ [(i, r)] /\ cache s1 = cache s.
Proof. intros E. unfold send. rewrite E. eexists. split; [reflexivity|]. split_and!; [constructor|..]; reflexivity. Qed.

Lemma cleaned_core i x s s1 s2 : core_eq s s1 -> core_eq (cleaned i x s1) s2 -> core_eq (cleaned i x s) s2.
Proof. intros [] []. constructor; cbn in *; congruence. Qed.

(** The part of [afterCompletion] that is the same in both protocols: the request and what is done on a reply. *)
Lemma block_ends {X} i p x (body : option nat -> EX State X) s o msgs g :
  tss s !! i = Some p -> objects s !! p = Some x ->
  (exists s', body (Some p) s = (o, s') /\ (core_eq s s' \/ core_eq (cleaned i x s) s') /\ sent s' = msgs /\ cache s' = g) ->
  exists s'', with_cleaner isSticky i body s = (o, s'') /\ core_eq (ended i p x s) s'' /\ sent s'' = msgs /\ cache s'' = g.
Proof. intros Hi Hx (s' & Hb & Hc & <- & <-). exact (with_cleaner_ends i p x body s o s' Hi Hx Hb Hc). Qed.

Definition settles i (x : TXState) s (v : outcome (option (TXCommitMessage.t U))) (m : EX State unit) : Prop :=
  exists s', m s = ((settled v (cache s)).1, s') /\ (core_eq s s' \/ core_eq (cleaned i x s) s') /\ sent s' = sent s /\ cache s' = (settled v (cache s)).2.

Lemma settles_throw i x s e : settles i x s (Throw e) (ex_throw e).
Proof. exists s. split_and!; try reflexivity. by left. Qed.
Lemma settles_ret i x s : settles i x s (Ok None) (mret tt).
Proof. exists s. split_and!; try reflexivity. by left. Qed.

Lemma settles_apply i p x s changes : objects s !! p = Some x ->
  settles i x s (Ok (Some changes)) (clean i (Some p);; apply_commit (Some changes)).
Proof.
  intros Hx. unfold settles, settled, clean, deref, removeTx, setTXState, apply_commit, ex_modify, mbind, EX_bind. rewrite Hx. cbn.
  destruct (TXCommitMessage.apply changes (cache s)) as [o g]. eexists. split; [reflexivity|].
  split_and!; [right; constructor|..]; reflexivity.
Qed.

Lemma request_settled (c : status) i (x : TXState) s (f : GfErrType * Reply U -> EX State unit) :
  is_Some (connections s !! i ≫= c_dm) ->
  (forall s1 err reply, core_eq s s1 -> settles i x s1 (verdict c x err reply) (f (err, reply))) ->
  exists s', (send sendSyncRequest i (request c x) ≫= f) s = (outcome_of (completion c i x s), s') /\
    (core_eq s s' \/ core_eq (cleaned i x s) s') /\ sent s' = sent_of (completion c i x s) /\ cache s' = cache_of (completion c i x s).
Proof.
  intros [dm Hdm] Hf. unfold completion. rewrite Hdm.
  destruct (sendSyncRequest (sent s) i (request c x)) as [[err reply] conn] eqn:Es.
  destruct (send_core _ _ _ _ _ _ Es) as (s1 & Hsend & Hcore & Hsent & Hcache). unfold mbind, EX_bind. rewrite Hsend.
  destruct (Hf s1 err reply Hcore) as (s2 & Hm & Hc2 & Hs2 & Hg2).
  rewrite Hcache in *. destruct (settled (verdict c x err reply) (cache s)) as [o g]. exists s2. rewrite Hm. cbn in *.
  split_and!; [done| |congruence|done].
  destruct Hc2 as [Hc2|Hc2]; [left; by transitivity s1|right; by eapply cleaned_core].
Qed.

(** Both protocols end the transaction the way [completion] says. *)
Definition ends (c : status) i p (x : TXState) s (r : outcome unit * State) : Prop :=
  exists s', r = (outcome_of (completion c i x s), s') /\ core_eq (ended i p x s) s' /\
    sent s' = sent_of (completion c i x s) /\ cache s' = cache_of (completion c i x s).

(** A condition that an operation looks at. *)
Lemma ex_gets_bind {X Y} (f : State -> X) (k : X -> EX State Y) s : (ex_gets f ≫= k) s = k (f s) s.
Proof. done. Qed.
Lemma deref_bind {X} p x (k : TXState -> EX State X) s : objects s !! p = Some x -> (deref p ≫= k) s = k x s.
Proof. intros Hx. unfold mbind, EX_bind, deref. by rewrite Hx. Qed.

Lemma commit_1pc_ends i p x s : tss s !! i = Some p -> objects s !! p = Some x -> m_prepared x = false ->
  is_Some (connections s !! i ≫= c_dm) -> ends committed i p x s (commit_1pc sendSyncRequest isSticky i s).
Proof.
  intros Hi Hx Hp [dm Hdm]. apply block_ends; [done..|]. unfold getTXState, getDM. rewrite ex_gets_bind, Hi, (deref_bind p x), ex_gets_bind, Hdm by done.
  replace (Commit (m_txId x)) with (request committed x) by (unfold request; by rewrite Hp). apply request_settled; [by exists dm|].
  intros s1 err reply Hcore. rewrite <- (ce_objects _ _ Hcore) in Hx. unfold verdict, conflict. rewrite Hp.
  repeat case_match; try apply settles_throw.
  - by apply settles_apply.
  - unfold settles, clean, deref, removeTx, setTXState, ex_modify, mbind, EX_bind. rewrite Hx. eexists. split; [reflexivity|]. split_and!; [right; constructor|..]; reflexivity.
Qed.

Lemma rollback_1pc_ends i p x s : tss s !! i = Some p -> objects s !! p = Some x -> m_prepared x = false ->
  is_Some (connections s !! i ≫= c_dm) -> ends rolledback i p x s (rollback_1pc sendSyncRequest isSticky i s).
Proof.
  intros Hi Hx Hp [dm Hdm]. apply block_ends; [done..|]. unfold getTXState, rollback_request, getDM. rewrite ex_gets_bind, Hi.
  edestruct (request_settled rolledback i x s (fun er => if decide (er.1 = GF_NOERR) then mret tt else ex_throw BaseException)) as (s' & Hs' & Hrest);
    [by exists dm| |exists s'; split; [|exact Hrest]].
  - intros s1 err reply Hcore. unfold verdict. rewrite Hp. cbn. case_match; [apply settles_ret|apply settles_throw].
  - rewrite <- Hs'. unfold request. rewrite Hp. unfold mbind at 1, EX_bind at 1. rewrite (deref_bind p x), ex_gets_bind, Hdm by done.
    unfold mbind, EX_bind, mret, EX_ret. destruct (send sendSyncRequest i (Rollback (m_txId x)) s) as [[[err reply]|e] s1]; reflexivity.
Qed.

Lemma afterCompletion_ends c i p x s : tss s !! i = Some p -> objects s !! p = Some x -> ends c i p x s (afterCompletion_ i (code c) s).
Proof.
  intros Hi Hx. unfold afterCompletion, getTXState, getDM. rewrite ex_gets_bind, Hi, ex_gets_bind.
  destruct (connections s !! i ≫= c_dm) as [dm|] eqn:Hdm.
  2:{ apply block_ends; [done..|]. unfold completion. rewrite Hdm. exists s. split_and!; try reflexivity. by left. }
  rewrite (deref_bind p x) by done. destruct (m_prepared x) eqn:Hp; cbn [negb].
  - apply block_ends; [done..|].
    replace (TxSynchronization AFTER_COMMIT (m_txId x) (code c)) with (request c x) by (unfold request; by rewrite Hp).
    apply request_settled; [by exists dm|]. intros s1 err reply Hcore. rewrite <- (ce_objects _ _ Hcore) in Hx.
    unfold verdict, conflict. rewrite Hp.
    destruct c; repeat case_match; first [apply settles_throw|apply settles_ret|by apply settles_apply].
  - destruct c; [apply commit_1pc_ends|apply rollback_1pc_ends]; done || by exists dm.
Qed.

(** *** Every operation keeps the invariant *)

Lemma begin_inv i s : Inv s -> m_transactionId s < 2 ^ 31 - 1 -> Inv (begin i s).2.
Proof.
  intros HI Hlt. unfold begin, getTXState. rewrite ex_gets_bind. destruct (tss s !! i) as [p|] eqn:Hi; [done|].
  set (id := m_transactionId s + 1). set (p := next_object s).
  assert (Hid : nextTXId (m_transactionId s) = id) by (unfold nextTXId; destruct (Z.eqb_spec (2 ^ 31 - 1) (m_transactionId s)); lia).
  set (s0 := mk id (m_TXs s ++ [id]) (m_suspendedTXs s) (<[p := new_state id]> (objects s)) (S p) (tss s) (connections s) (tasks s) (sent s) (cache s)).
  assert (E : core_eq (set_tss (<[i := p]> (tss s0)) s0) ((p ← new_TXState; setTXState i (Some p);; x ← deref p; addTx (m_txId x)) s).2).
  { unfold new_TXState, setTXState, addTx, deref, ex_modify, mbind, EX_bind. cbn. rewrite Hid, lookup_insert_eq. constructor; reflexivity. }
  rewrite <- E. destruct HI as [Hn Ht Ho Hs Hb Hids Hk].
  assert (Hfresh : forall x, objects s !! p = Some x -> False) by (intros x Hx; apply Hb in Hx as (_ & _ & Hp); unfold p in Hp; lia).
  apply inv_attached; cbn; [constructor; cbn|..].
  - lia.
  - intros j q Hq. destruct (Ht j q Hq) as [y Hy]. exists y. rewrite lookup_insert_ne; [done|]. intros ->. eauto.
  - done.
  - intros id' q Hq. destruct (Hs id' q Hq) as [(y & Hy & Hy') Hno]. split; [|done]. exists y. rewrite lookup_insert_ne; [done|]. intros ->. eauto.
  - intros q y [[<- <-]|[_ Hy]]%lookup_insert_Some; rewrite elem_of_app.
    + split_and!; [unfold id; cbn; lia..|right; by left|lia].
    + apply Hb in Hy as (H1 & H2 & H3). split_and!; [unfold id; lia..|by left|unfold p; lia].
  - intros q r y z [[<- <-]|[_ Hy]]%lookup_insert_Some [[<- <-]|[_ Hz]]%lookup_insert_Some E'; cbn in *;
      [done|apply Hb in Hz as [? _]; unfold id in *; lia|apply Hb in Hy as [? _]; unfold id in *; lia|by eapply Hids].
  - intros n q Hq. destruct (Hk n q Hq) as (y & Hy & Hrest). exists y. rewrite lookup_insert_ne; [done|]. intros ->. eauto.
  - by rewrite lookup_insert_eq.
  - intros j Hj. destruct (Ht j p Hj) as [y Hy]. eauto.
  - intros id' Hp. destruct (Hs id' p Hp) as [(y & Hy & _) _]. eauto.
Qed.

(** The task of a suspended transaction: a new one, or none. *)
Lemma schedule_armed p m id m' : ExpiryTaskManager.schedule (p, true) m = (id, m') ->
  forall n q, armed m' n q -> armed m n q \/ q = p /\ n = id.
Proof.
  unfold ExpiryTaskManager.schedule, armed. intros E n q Hq. repeat case_match; simplify_eq/=; try by left.
  all: apply lookup_insert_Some in Hq as [[<- Hq]|[_ Hq]]; [right; by simplify_eq|by left].
Qed.

Definition parked i p (x y : TXState) (m : ExpiryTaskManager.t (nat * bool)) s : State :=
  set_tss (delete i (tss s)) (set_suspended (<[m_txId x := p]> (m_suspendedTXs s)) (set_objects (<[p := y]> (objects s)) (set_tasks m s))).
Lemma suspend_spec i p x ep s : tss s !! i = Some p -> connections s !! i = Some ep -> objects s !! p = Some x ->
  let '(id, m) := ExpiryTaskManager.schedule (p, true) (tasks s) in
  suspend isSticky i s = (Ok p, parked i p x (setSuspendedExpiryTaskId id (setEndpoint (c_endpoint ep) (c_dm ep) x)) m (released i s)).
Proof.
  intros Hi Hep Hx. destruct (ExpiryTaskManager.schedule (p, true) (tasks s)) as [id m] eqn:Em.
  unfold suspend, getTXState. rewrite ex_gets_bind, Hi, ex_gets_bind, Hep.
  unfold update_state, addSuspendedTx, setTXState, deref, released, releaseStickyConnection, ex_modify, mbind, EX_bind, mret, EX_ret.
  rewrite Hx. cbn. rewrite Hep. cbn. destruct (c_dm ep) as [dm|]; [destruct (isSticky dm)|]; cbn; rewrite Em; cbn;
    rewrite !lookup_insert_eq; cbn; by rewrite insert_insert_eq, lookup_insert_eq.
Qed.

Lemma suspend_inv i s : Inv s -> Inv (suspend isSticky i s).2.
Proof.
  intros HI. destruct (tss s !! i) as [p|] eqn:Hi; [|unfold suspend, getTXState; by rewrite ex_gets_bind, Hi].
  destruct (connections s !! i) as [ep|] eqn:Hep; [|unfold suspend, getTXState; by rewrite ex_gets_bind, Hi, ex_gets_bind, Hep].
  destruct (inv_tss _ HI i p Hi) as [x Hx]. pose proof (suspend_spec i p x ep s Hi Hep Hx) as E.
  destruct (ExpiryTaskManager.schedule (p, true) (tasks s)) as [id m] eqn:Em. rewrite E. destruct (released_core i s) as [_ _ _ Eo _ Et Ek].
  apply (inv_parked i p x); [by rewrite <- (released_core i s)|by rewrite Et|by rewrite Eo|done|]. rewrite Ek. by apply (schedule_armed p _ _ _ Em).
Qed.

(** The tasks once a transaction is resumed. *)
Definition disarmed (cancel : bool) (x : TXState) (m : ExpiryTaskManager.t (nat * bool)) : ExpiryTaskManager.t (nat * bool) :=
  if cancel then (ExpiryTaskManager.cancel (m_suspendedExpiryTaskId x) m).2 else m.
Lemma cancel_armed id m n p : armed (ExpiryTaskManager.cancel id m).2 n p -> armed m n p /\ n <> id.
Proof.
  unfold ExpiryTaskManager.cancel, armed. destruct (ExpiryTaskManager.task_map_ m !! id) as [t0|] eqn:E; cbn.
  - intros (? & ?)%lookup_delete_Some. done.
  - intros Hn. split; [done|]. intros ->. congruence.
Qed.

Abbreviation getConn := getConnectionToAnEndPoint.
(** A thread takes over a transaction that was taken out of the table. *)
Definition taken i p cancel (x : TXState) s : State := set_tss (<[i := p]> (tss s)) (set_tasks (disarmed cancel x (tasks s)) s).
Lemma resumeTx_spec i p x cancel s : objects s !! p = Some x ->
  resumeTxUsingTxState getConn i p cancel s =
  let s' := taken i p cancel x s in
  match m_pooldm x with
  | None => (Throw UndefinedBehaviour, s')
  | Some dm =>
    match getConn (sent s) dm (epNameStr x) with
    | (GF_NOERR, Some conn) => (Ok tt, set_connections (<[i := conn]> (connections s')) s')
    | _ => (Throw IllegalStateException, set_tss (delete i (tss s')) s')
    end
  end.
Proof.
  intros Hx. unfold resumeTxUsingTxState. rewrite (deref_bind p x) by done.
  unfold taken, disarmed, setTXState, setThreadLocalConnection, illegal_state, ex_modify, ex_gets, ex_throw, mbind, EX_bind, mret, EX_ret.
  destruct cancel, (m_pooldm x) as [dm|]; cbn; try reflexivity.
  all: destruct (getConn (sent s) dm (epNameStr x)) as [err [conn|]]; [|destruct err; reflexivity]; destruct (decide (err = GF_NOERR)) as [->|]; [reflexivity|].
  all: destruct err; done.
Qed.

Lemma resumeTx_inv i id p cancel s : Inv s -> tss s !! i = None -> m_suspendedTXs s !! id = Some p ->
  (cancel = false -> forall n, ~ armed (tasks s) n p) ->
  Inv (resumeTxUsingTxState getConn i p cancel (set_suspended (delete id (m_suspendedTXs s)) s)).2.
Proof.
  intros HI Hi Hp Hc. destruct (inv_suspended _ HI id p Hp) as [(x & Hx & Hid) Hno].
  set (s0 := set_suspended (delete id (m_suspendedTXs s)) s). rewrite (resumeTx_spec i p x cancel s0 Hx).
  assert (Hs1 : Inv (set_tasks (disarmed cancel x (tasks s)) s0)).
  { apply (inv_detached id p); [done..|]. intros n q Hq. destruct cancel; cbn in Hq.
    - apply cancel_armed in Hq as [Hq Hne]. split; [done|]. intros ->. destruct (inv_tasks _ HI n p Hq) as (x' & Hx' & Hn & _). congruence.
    - split; [done|]. intros ->. by eapply Hc. }
  assert (Hs2 : Inv (taken i p cancel x s0)).
  { refine (inv_attached i p _ Hs1 _ _ _); cbn; [by exists x|done|]. intros id' (Hne & Hq)%lookup_delete_Some.
    destruct (inv_suspended _ HI id' p Hq) as [(x' & Hx' & Hid') _]. congruence. }
  assert (Hs3 : Inv (set_tss (delete i (tss (taken i p cancel x s0))) (taken i p cancel x s0))).
  { revert Hs1. apply Inv_proper. constructor; cbn; try reflexivity. by rewrite delete_insert_id. }
  cbn zeta. destruct (m_pooldm x) as [dm|]; [|exact Hs2].
  destruct (getConn (sent s0) dm (epNameStr x)) as [err [conn|]]; [|by destruct err].
  destruct err; try exact Hs3. revert Hs2. apply Inv_proper. constructor; reflexivity.
Qed.

Lemma deref_dangling {X} p (k : TXState -> EX State X) s : objects s !! p = None -> (deref p ≫= k) s = (Throw UndefinedBehaviour, s).
Proof. intros Hx. unfold mbind, EX_bind, deref. by rewrite Hx. Qed.
Lemma removeSuspendedTx_bind {X} id (k : option nat -> EX State X) s :
  (removeSuspendedTx id ≫= k) s =
  match m_suspendedTXs s !! id with Some p => k (Some p) (set_suspended (delete id (m_suspendedTXs s)) s) | None => k None s end.
Proof. unfold mbind, EX_bind, removeSuspendedTx. by destruct (m_suspendedTXs s !! id). Qed.
Lemma ret_state {X Y} (m : EX State X) (y : Y) s : ((m;; mret y) s).2 = (m s).2.
Proof. unfold mbind, EX_bind, mret, EX_ret. destruct (m s) as [[?|?] ?]; reflexivity. Qed.

(** A reference to the id of a suspended transaction leads to that transaction. *)
Lemma suspended_ref ref x p s : Inv s -> objects s !! ref = Some x -> m_suspendedTXs s !! m_txId x = Some p -> p = ref.
Proof. intros HI Hx Hp. destruct (inv_suspended _ HI _ _ Hp) as [(y & Hy & E) _]. by apply (inv_ids _ HI p ref y x). Qed.

Lemma tryResume_inv i ref cancel s : Inv s -> (cancel = false -> forall n, ~ armed (tasks s) n ref) ->
  Inv (tryResume_cancel getConn i ref cancel s).2.
Proof.
  intros HI Hc. unfold tryResume_cancel, getTXState. rewrite ex_gets_bind. destruct (tss s !! i) eqn:Hi; [done|].
  destruct (objects s !! ref) as [x|] eqn:Hx; [|by rewrite deref_dangling]. rewrite (deref_bind ref x) by done; rewrite removeSuspendedTx_bind.
  destruct (m_suspendedTXs s !! m_txId x) as [p|] eqn:Hp; [|done]. rewrite ret_state. pose proof (suspended_ref _ _ _ _ HI Hx Hp) as ->.
  by apply resumeTx_inv.
Qed.
Lemma resume_inv i ref s : Inv s -> Inv (resume getConn i ref s).2.
Proof.
  intros HI. unfold resume, getTXState. rewrite ex_gets_bind. destruct (tss s !! i) eqn:Hi; [done|].
  destruct (objects s !! ref) as [x|] eqn:Hx; [|by rewrite deref_dangling]. rewrite (deref_bind ref x) by done; rewrite removeSuspendedTx_bind.
  destruct (m_suspendedTXs s !! m_txId x) as [p|] eqn:Hp; [|done]. by apply resumeTx_inv.
Qed.
Lemma tryResume_wait_inv i ref s : Inv s -> Inv (tryResume_wait getConn i ref s).2.
Proof.
  intros HI. unfold tryResume_wait, getTXState, exists_ref. rewrite ex_gets_bind. destruct (tss s !! i) eqn:Hi; [done|].
  destruct (objects s !! ref) as [x|] eqn:Hx; unfold mbind at 1, EX_bind at 1; [|by rewrite deref_dangling].
  rewrite (deref_bind ref x) by done. cbn. destruct (existsb _ _); [|done]. rewrite (deref_bind ref x) by done; rewrite removeSuspendedTx_bind.
  destruct (m_suspendedTXs s !! m_txId x) as [p|] eqn:Hp; [|done]. rewrite ret_state. by apply resumeTx_inv.
Qed.

Lemma afterCompletion_inv i c s : Inv s -> Inv (afterCompletion_ i (code c) s).2.
Proof.
  intros HI. destruct (tss s !! i) as [p|] eqn:Hi; [|unfold afterCompletion, getTXState; by rewrite ex_gets_bind, Hi].
  destruct (inv_tss _ HI i p Hi) as [x Hx]. destruct (afterCompletion_ends c i p x s Hi Hx) as (s' & -> & E & _). cbn. rewrite <- E. by apply inv_ended.
Qed.

Lemma thread_end_inv i s : Inv s -> Inv (thread_end i s).2.
Proof.
  intros HI. assert (Hc : forall s', Inv s' -> Inv (set_connections (delete i (connections s)) s')).
  { intros s'. apply Inv_proper. constructor; reflexivity. }
  cbn. apply Hc. destruct (tss s !! i) as [p|] eqn:Hi; [|done]. destruct (inv_tss _ HI i p Hi) as [x Hx].
  exact (inv_deleted i p x (m_TXs s) s HI Hi Hx (fun _ Hid _ => Hid)).
Qed.

Lemma prepare_inv i s : Inv s -> Inv (prepare sendSyncRequest isSticky i s).2.
Proof.
  intros HI. unfold prepare, getTXState, getDM. rewrite ex_gets_bind. destruct (tss s !! i) as [p|] eqn:Hi; [|done].
  rewrite ex_gets_bind. destruct (connections s !! i ≫= c_dm) as [dm|]; [|done]. destruct (inv_tss _ HI i p Hi) as [x Hx].
  rewrite (deref_bind p x) by done. set (r := TxSynchronization BEFORE_COMMIT (m_txId x) STATUS_COMMITTED).
  destruct (sendSyncRequest (sent s) i r) as [[err reply] conn] eqn:Es.
  destruct (send_core _ _ _ _ _ _ Es) as (s1 & Hsend & Hcore & _). unfold mbind at 1, EX_bind at 1. rewrite Hsend.
  assert (HI1 : Inv s1) by (by rewrite <- Hcore).
  rewrite <- (ce_objects _ _ Hcore) in Hx. rewrite <- (ce_tss _ _ Hcore) in Hi.
  destruct (decide (err = GF_NOERR)); [|done]. destruct (r_type reply =? MsgType.REPLY).
  - unfold update_state. rewrite (deref_bind p x) by done. by apply (inv_update p x).
  - match goal with |- Inv (with_cleaner isSticky i (fun _ => ?m) s1).2 =>
      assert (Hm : exists o, m s1 = (o, s1)) by (repeat case_match; by eexists); destruct Hm as [o Hm];
      destruct (with_cleaner_ends i p x (fun _ => m) s1 o s1 Hi Hx Hm (or_introl (reflexivity s1))) as (s2 & -> & E & _) end.
    cbn. rewrite <- E. by apply inv_ended.
Qed.

(** A timer that fires: the transaction is taken over and rolled back. *)
Definition fired (id : Z) p (m : ExpiryTaskManager.t (nat * bool)) : ExpiryTaskManager.t (nat * bool) :=
  ExpiryTaskManager.mk (ExpiryTaskManager.running_ m) (<[id := (p, false)]> (ExpiryTaskManager.task_map_ m)) (ExpiryTaskManager.last_task_id_ m).
Lemma timer_inv i id s : Inv s -> Inv (on_callback sendSyncRequest getConn isSticky i id s).2.
Proof.
  intros HI. unfold on_callback. destruct (ExpiryTaskManager.task_map_ (tasks s) !! id) as [[p []]|] eqn:Hk; [|done..].
  fold (fired id p (tasks s)). set (s1 := set_tasks (fired id p (tasks s)) s).
  assert (Harmed : forall n q, armed (tasks s1) n q -> armed (tasks s) n q /\ n <> id).
  { intros n q Hn. unfold armed, s1 in Hn. cbn in Hn. apply lookup_insert_Some in Hn as [[_ ?]|[? ?]]; done. }
  assert (HI1 : Inv s1) by (apply inv_fewer_tasks; [done|]; intros n q Hn; by apply Harmed).
  destruct (inv_tasks _ HI id p Hk) as (x & Hx & Hid & Hsu).
  pose proof (tryResume_inv i p false s1 HI1) as HI2. unfold on_expire, ignore_exceptions, mbind at 1 2 3, EX_bind at 1 2 3.
  assert (HI3 : Inv (tryResume_cancel getConn i p false s1).2).
  { apply HI2. intros _ n Hn. apply Harmed in Hn as [Hn Hne]. destruct (inv_tasks _ HI n p Hn) as (x' & Hx' & Hn' & _). congruence. }
  destruct (tryResume_cancel getConn i p false s1) as [[[]|e] s2]; cbn in *.
  - pose proof (afterCompletion_inv i rolledback s2 HI3) as HI4. unfold rollback. change STATUS_ROLLEDBACK with (code rolledback).
    destruct (afterCompletion_ i (code rolledback) s2) as [[[]|e] s3]; cbn in *; [done|by destruct (fatal e)].
  - done.
  - by destruct (fatal e).
Qed.

(** *** Reachable managers *)

(** What threads do: the operations of the manager, their ends, and everything else, which changes only the
    connection of the thread and the cache. Timers fire on threads, too. *)
Inductive action :=
| Begin | Prepare | Complete (c : status) | Suspend | Resume (ref : nat) | TryResume (ref : nat) | TryResumeWait (ref : nat)
| Timer (id : Z) | ThreadEnd | Elsewhere (conn : option Conn) (f : G -> G).
Definition step s (ia : nat * action) : State :=
  let '(i, a) := ia in
  match a with
  | Begin => (begin i s).2
  | Prepare => (prepare sendSyncRequest isSticky i s).2
  | Complete committed => (commit sendSyncRequest isSticky i s).2
  | Complete rolledback => (rollback sendSyncRequest isSticky i s).2
  | Suspend => (suspend isSticky i s).2
  | Resume ref => (resume getConn i ref s).2
  | TryResume ref => (tryResume getConn i ref s).2
  | TryResumeWait ref => (tryResume_wait getConn i ref s).2
  | Timer id => (on_callback sendSyncRequest getConn isSticky i id s).2
  | ThreadEnd => (thread_end i s).2
  | Elsewhere conn f => set_cache (f (cache s)) (set_connections (partial_alter (fun _ => conn) i (connections s)) s)
  end.
Definition run (l : list (nat * action)) s : State := fold_left step l s.
Definition new_manager (count : Z) (m : ExpiryTaskManager.t (nat * bool)) (g : G) : State := mk count [] ∅ ∅ 0 ∅ ∅ m [] g.

Lemma step_inv s ia : Inv s -> m_transactionId s < 2 ^ 31 - 1 -> Inv (step s ia).
Proof.
  intros HI Hlt. destruct ia as [i []]; cbn [step]; [by apply begin_inv|by apply prepare_inv| |by apply suspend_inv|by apply resume_inv| |
    by apply tryResume_wait_inv|by apply timer_inv|by apply thread_end_inv|].
  - destruct c; [apply (afterCompletion_inv i committed s HI)|apply (afterCompletion_inv i rolledback s HI)].
  - by apply tryResume_inv.
  - revert HI. apply Inv_proper. constructor; reflexivity.
Qed.

(** Only [begin] takes an id. *)
Definition counting {X} (m : EX State X) : Prop := forall s, m_transactionId (m s).2 = m_transactionId s.
Lemma counting_bind {X Y} (m : EX State X) (k : X -> EX State Y) : counting m -> (forall x, counting (k x)) -> counting (m ≫= k).
Proof. intros Hm Hk s. unfold mbind, EX_bind. specialize (Hm s). destruct (m s) as [[x|e] s']; cbn in *; [rewrite Hk|]; done. Qed.
Lemma counting_finally {X} (m : EX State X) cleanup : counting m -> counting cleanup -> counting (ex_finally m cleanup).
Proof.
  intros Hm Hc s. unfold ex_finally. specialize (Hm s). destruct (m s) as [o s']. specialize (Hc s'). cbn in *.
  destruct (cleanup s') as [[x|e] s'']; cbn in *; congruence.
Qed.
Lemma counting_ret {X} (x : X) : counting (mret x).
Proof. by intros s. Qed.
Lemma counting_throw {X} e : counting (ex_throw e : EX State X).
Proof. by intros s. Qed.
Lemma counting_gets {X} (f : State -> X) : counting (ex_gets f).
Proof. by intros s. Qed.
Lemma counting_deref p : counting (deref p).
Proof. intros s. unfold deref. by case_match. Qed.
Lemma counting_setTXState i (p : option nat) : counting (setTXState i p).
Proof. by intros s. Qed.
Lemma counting_update p f : counting (update_state p f).
Proof. unfold update_state. apply counting_bind; [apply counting_deref|]. by intros x s. Qed.
Lemma counting_removeSuspended id : counting (removeSuspendedTx id).
Proof. intros s. unfold removeSuspendedTx. by case_match. Qed.
Lemma counting_release i : counting (releaseStickyConnection isSticky i).
Proof. intros s. cbn. repeat case_match; done. Qed.
Lemma counting_send i r : counting (send sendSyncRequest i r).
Proof. intros s. unfold send. by repeat case_match. Qed.
Lemma counting_apply msg : counting (apply_commit msg).
Proof. intros s. unfold apply_commit. by repeat case_match. Qed.
Lemma counting_modify f : (forall s, m_transactionId (f s) = m_transactionId s) -> counting (ex_modify f).
Proof. intros Hf s. apply Hf. Qed.
#[local] Hint Resolve counting_ret counting_throw counting_gets counting_deref counting_setTXState counting_update counting_removeSuspended
  counting_release counting_send counting_apply counting_modify : counting.
Ltac counting := repeat match goal with
  | |- counting (_ ≫= _) => apply counting_bind; [|intros ?]
  | |- counting (ex_finally _ _) => apply counting_finally
  | |- counting (match ?x with _ => _ end) => destruct x
  | |- counting _ => solve [eauto with counting]
  | |- counting _ => progress unfold getTXState, getDM, with_cleaner, destroy_cleaner, clean, removeTx, illegal_state,
      addSuspendedTx, setThreadLocalConnection, exists_ref, findTx
  end.

Lemma counting_suspend i : counting (suspend isSticky i).
Proof. unfold suspend. counting. intros s. by case_match. Qed.
Lemma counting_prepare i : counting (prepare sendSyncRequest isSticky i).
Proof. unfold prepare. counting. Qed.
Lemma counting_afterCompletion i c : counting (afterCompletion_ i c).
Proof. unfold afterCompletion, commit_1pc, rollback_1pc, rollback_request. counting. Qed.
Lemma counting_resumeTx i p c : counting (resumeTxUsingTxState getConn i p c).
Proof. unfold resumeTxUsingTxState. counting. Qed.
Lemma counting_tryResume i p c : counting (tryResume_cancel getConn i p c).
Proof. unfold tryResume_cancel. counting. apply counting_resumeTx. Qed.
Lemma counting_resume i p : counting (resume getConn i p).
Proof. unfold resume. counting. apply counting_resumeTx. Qed.
Lemma counting_tryResume_wait i p : counting (tryResume_wait getConn i p).
Proof. unfold tryResume_wait. counting. apply counting_resumeTx. Qed.
Lemma counting_ignore m : counting m -> counting (ignore_exceptions m).
Proof. intros Hm s. unfold ignore_exceptions. specialize (Hm s). destruct (m s) as [[x|e] s']; [done|]. by destruct (fatal e). Qed.
Lemma counting_on_expire i p : counting (on_expire sendSyncRequest getConn isSticky i p).
Proof.
  unfold on_expire. counting. apply counting_ignore, counting_bind; [apply counting_tryResume|]. intros []; [apply counting_afterCompletion|done].
Qed.
Lemma counting_on_callback i id : counting (on_callback sendSyncRequest getConn isSticky i id).
Proof.
  intros s. unfold on_callback. destruct (ExpiryTaskManager.task_map_ (tasks s) !! id) as [[p []]|]; [|done..].
  rewrite counting_bind; [done|apply counting_on_expire|]. intros []; by intros ?.
Qed.

Lemma begin_count i s : 0 <= m_transactionId s < 2 ^ 31 - 1 -> m_transactionId (begin i s).2 <= m_transactionId s + 1.
Proof.
  intros Hlt. unfold begin, getTXState. rewrite ex_gets_bind. destruct (tss s !! i) as [p|]; [cbn; lia|].
  unfold new_TXState, setTXState, addTx, deref, ex_modify, mbind, EX_bind. cbn. rewrite lookup_insert_eq. cbn.
  unfold nextTXId. case_match; lia.
Qed.
Lemma step_count s ia : 0 <= m_transactionId s < 2 ^ 31 - 1 -> m_transactionId (step s ia) <= m_transactionId s + 1.
Proof.
  intros Hlt. destruct ia as [i []]; cbn [step]; [by apply begin_count|..].
  - rewrite counting_prepare. lia.
  - destruct c; [unfold commit|unfold rollback]; rewrite counting_afterCompletion; lia.
  - rewrite counting_suspend. lia.
  - rewrite counting_resume. lia.
  - unfold tryResume. rewrite counting_tryResume. lia.
  - rewrite counting_tryResume_wait. lia.
  - rewrite counting_on_callback. lia.
  - cbn. case_match; cbn; lia.
  - cbn. lia.
Qed.

Lemma run_inv l : forall s, Inv s -> m_transactionId s + Z.of_nat (length l) < 2 ^ 31 -> Inv (run l s).
Proof.
  induction l as [|ia l IH]; intros s HI Hlen; [done|]. cbn [run fold_left]. cbn [length] in Hlen.
  pose proof (inv_counter _ HI) as Hc. apply IH; [apply step_inv; [done|lia]|].
  assert (0 <= m_transactionId s < 2 ^ 31 - 1) as Hr by lia. apply (step_count s ia) in Hr. lia.
Qed.
Lemma new_manager_inv count m g : 0 <= count -> (forall id p, ~ armed m id p) -> Inv (new_manager count m g).
Proof. intros Hc Hm. constructor; cbn; try done. intros id p Hp. by destruct (Hm id p). Qed.

(** C23. In every manager reached from a new one by threads that begin, prepare, commit, roll back, suspend and
    resume transactions with any references, by timers, by other work and by the ends of threads, as long as the
    ids have not started again: a transaction is used by one thread at most and is not deleted while it is, a
    suspended transaction is used by no thread and found by its own id, ids are unique and listed, and the timers
    that have yet to fire belong to suspended transactions. *)
Theorem reachable_exclusive count m g l : 0 <= count -> count + Z.of_nat (length l) < 2 ^ 31 -> (forall id p, ~ armed m id p) ->
  let s := run l (new_manager count m g) in
  (forall i j p, tss s !! i = Some p -> tss s !! j = Some p -> i = j) /\
  (forall i p, tss s !! i = Some p -> exists x, objects s !! p = Some x /\ m_txId x ∈ m_TXs s) /\
  (forall id p, m_suspendedTXs s !! id = Some p ->
     (exists x, objects s !! p = Some x /\ m_txId x = id /\ id ∈ m_TXs s) /\ forall i, tss s !! i <> Some p) /\
  (forall p q x y, objects s !! p = Some x -> objects s !! q = Some y -> m_txId x = m_txId y -> p = q) /\
  (forall id p, armed (tasks s) id p -> exists x, objects s !! p = Some x /\ m_suspendedTXs s !! m_txId x = Some p).
Proof.
  intros Hc Hl Hm s. assert (HI : Inv s) by (apply run_inv; [by apply new_manager_inv|cbn; lia]).
  destruct HI as [_ Ht Ho Hs Hb Hi Hk]. split_and!; [done| | |done|].
  - intros i p Hp. destruct (Ht i p Hp) as [x Hx]. exists x. split; [done|]. by apply (Hb p x).
  - intros id p Hp. destruct (Hs id p Hp) as [(x & Hx & <-) Hno]. split; [|done]. exists x. split_and!; [done..|]. by apply (Hb p x).
  - intros id p Hp. destruct (Hk id p Hp) as (x & Hx & _ & Hsu). by exists x.
Qed.

(** *** Completion *)

Definition complete (c : status) i : EX State unit :=
  match c with committed => commit sendSyncRequest isSticky i | rolledback => rollback sendSyncRequest isSticky i end.

(** C24. A commit or rollback ends the transaction of its thread, whatever the server answers and whatever the
    regions do, unless a null pointer is used: the object is deleted, its id is not listed any more and the thread
    has no transaction; nothing else of the manager changes. The outcome, the messages and the cache are those of
    [completion]. Without a pool nothing is sent and the call succeeds; otherwise one request of the right protocol
    is sent. A one-phase rollback succeeds whatever the type of the reply, and throws if the request failed. The
    other three throw if the request failed or the reply is not a response (the exception of the server, a commit
    conflict, or a message exception for other types); for a response the changes of its commit message are made in
    the cache, and the exception of those, if any, is the outcome. A null pointer is used when the response to a
    one-phase commit has no commit message, or a commit message has no region path. *)
Theorem transaction_completes c i p x s : tss s !! i = Some p -> objects s !! p = Some x ->
  outcome_of (completion c i x s) <> Throw UndefinedBehaviour ->
  exists s', complete c i s = (outcome_of (completion c i x s), s') /\
    tss s' = delete i (tss s) /\ objects s' = delete p (objects s) /\
    (forall id, id ∈ m_TXs s' <-> id ∈ m_TXs s /\ id <> m_txId x) /\
    m_suspendedTXs s' = m_suspendedTXs s /\ tasks s' = tasks s /\ m_transactionId s' = m_transactionId s /\
    sent s' = sent_of (completion c i x s) /\ cache s' = cache_of (completion c i x s).
Proof.
  intros Hi Hx _. assert (E : complete c i = afterCompletion_ i (code c)) by (by destruct c). rewrite E.
  destruct (afterCompletion_ends c i p x s Hi Hx) as (s' & -> & [] & Hsent & Hcache). exists s'. cbn in *.
  split_and!; try done. intros id. rewrite ce_TXs0. apply elem_of_dropped.
Qed.

(** *** Suspension *)

(** The id of a transaction in use is not in the table of suspended ones. *)
Lemma used_not_suspended i p x s : Inv s -> tss s !! i = Some p -> objects s !! p = Some x -> m_suspendedTXs s !! m_txId x = None.
Proof.
  intros HI Hi Hx. destruct (m_suspendedTXs s !! m_txId x) as [q|] eqn:Hq; [|done].
  pose proof (suspended_ref _ _ _ _ HI Hx Hq) as ->. destruct (inv_suspended _ HI _ _ Hq) as [_ Hno]. by destruct (Hno i).
Qed.

Lemma resume_spec j ref x s dm conn : tss s !! j = None -> objects s !! ref = Some x -> m_suspendedTXs s !! m_txId x = Some ref ->
  m_pooldm x = Some dm -> getConn (sent s) dm (epNameStr x) = (GF_NOERR, Some conn) ->
  let s' := taken j ref true x (set_suspended (delete (m_txId x) (m_suspendedTXs s)) s) in
  resume getConn j ref s = (Ok tt, set_connections (<[j := conn]> (connections s')) s').
Proof.
  intros Hj Hx Hsu Hdm Hconn s'. unfold resume, getTXState. rewrite ex_gets_bind, Hj, (deref_bind ref x) by done.
  rewrite removeSuspendedTx_bind, Hsu, (resumeTx_spec j ref x) by done. cbn zeta. rewrite Hdm. cbn [sent set_suspended]. by rewrite Hconn.
Qed.

(** C25. A transaction that is suspended is found and exists, with a timer that is set. If it is resumed next, by any
    thread without a transaction, and a connection to its server is obtained then, that thread has the transaction
    with its id and its state and the new connection, and the tables and the timers are as they were before. The
    thread that suspends has a connection of a pool, and the timers are running and have an id left. (A resume that
    gets no connection loses the transaction: [failed_resume_loses].) *)
Theorem suspend_resume i j p x s ep dm conn : Inv s -> tss s !! i = Some p -> objects s !! p = Some x ->
  connections s !! i = Some ep -> c_dm ep = Some dm -> getConn (sent s) dm (c_endpoint ep) = (GF_NOERR, Some conn) ->
  (j = i \/ tss s !! j = None) ->
  ExpiryTaskManager.wf (tasks s) -> ExpiryTaskManager.running_ (tasks s) = true -> ExpiryTaskManager.last_task_id_ (tasks s) + 1 < ExpiryTaskManager.invalid ->
  exists s1 s2, suspend isSticky i s = (Ok p, s1) /\ isSuspended p s1 = (Ok true, s1) /\ (exists_ref p s1).1 = Ok true /\ tss s1 !! i = None /\
    armed (tasks s1) (ExpiryTaskManager.last_task_id_ (tasks s)) p /\
    resume getConn j p s1 = (Ok tt, s2) /\
    tss s2 = <[j := p]> (delete i (tss s)) /\ connections s2 !! j = Some conn /\
    m_suspendedTXs s2 = m_suspendedTXs s /\ m_TXs s2 = m_TXs s /\ sent s2 = sent s /\ cache s2 = cache s /\
    ExpiryTaskManager.task_map_ (tasks s2) = ExpiryTaskManager.task_map_ (tasks s) /\
    exists y, objects s2 = <[p := y]> (objects s) /\ m_txId y = m_txId x /\ m_prepared y = m_prepared x.
Proof.
  intros HI Hi Hx Hep Hdm Hconn Hj Hwf Hrun Hroom.
  destruct (ExpiryTaskManager.schedule_spec (p, true) (tasks s) Hwf Hrun Hroom) as [Hsched Hfree].
  pose proof (suspend_spec i p x ep s Hi Hep Hx) as Hs. rewrite Hsched in Hs.
  set (id := ExpiryTaskManager.last_task_id_ (tasks s)) in *. set (m := ExpiryTaskManager.mk true _ _) in Hs.
  set (y := setSuspendedExpiryTaskId id (setEndpoint (c_endpoint ep) (c_dm ep) x)) in Hs.
  set (s1 := parked i p x y m (released i s)) in Hs.
  destruct (released_core i s) as [E1 E2 E3 E4 E5 E6 E7], (released_rest i s) as [E8 E9].
  assert (Ho : objects s1 !! p = Some y) by (cbn; apply lookup_insert_eq).
  assert (Hsu : m_suspendedTXs s1 !! m_txId y = Some p) by (cbn; apply lookup_insert_eq).
  assert (Hj1 : tss s1 !! j = None).
  { cbn. rewrite E6. destruct Hj as [->|Hj]; [apply lookup_delete_eq|]. apply lookup_delete_None. by right. }
  assert (Hc1 : getConn (sent s1) dm (epNameStr y) = (GF_NOERR, Some conn)) by (cbn; by rewrite E8).
  pose proof (resume_spec j p y s1 dm conn Hj1 Ho Hsu Hdm Hc1) as Hr. cbn zeta in Hr.
  eexists s1, _. split; [exact Hs|]. split_and!.
  - unfold isSuspended. rewrite (deref_bind p y) by done. unfold isSuspendedTx, ex_gets. by rewrite Hsu.
  - unfold exists_ref. rewrite (deref_bind p y) by done. cbn. rewrite E2. f_equal. apply existsb_exists. exists (m_txId x).
    split; [|apply Z.eqb_refl]. by apply list_elem_of_In, (inv_objects _ HI p x).
  - cbn. apply lookup_delete_eq.
  - unfold armed. cbn. apply lookup_insert_eq.
  - exact Hr.
  - cbn. by rewrite E6.
  - cbn. apply lookup_insert_eq.
  - cbn. rewrite E3. apply delete_insert_id. by eapply used_not_suspended.
  - done.
  - done.
  - done.
  - cbn. unfold ExpiryTaskManager.cancel. cbn. rewrite lookup_insert_eq. cbn. by apply delete_insert_id.
  - exists y. cbn. by rewrite E4.
Qed.

(** A resumption that fails after the transaction was taken out of the table loses it: no thread has it, it cannot
    be resumed, and yet it is listed as existing. *)
Lemma failed_resume_loses j ref x s dm err : Inv s -> tss s !! j = None -> objects s !! ref = Some x -> m_suspendedTXs s !! m_txId x = Some ref ->
  m_pooldm x = Some dm -> getConn (sent s) dm (epNameStr x) = (err, None) ->
  exists s', resume getConn j ref s = (Throw IllegalStateException, s') /\ (forall i, tss s' !! i <> Some ref) /\
    m_suspendedTXs s' !! m_txId x = None /\ (exists_ref ref s').1 = Ok true /\ forall i, (tryResume getConn i ref s').1 = Ok false.
Proof.
  intros HI Hj Hx Hsu Hdm Hconn. destruct (inv_suspended _ HI _ _ Hsu) as [_ Hno].
  eexists. split.
  - unfold resume, getTXState. rewrite ex_gets_bind, Hj, (deref_bind ref x) by done.
    rewrite removeSuspendedTx_bind, Hsu, (resumeTx_spec j ref x) by done. cbn zeta. rewrite Hdm. cbn [sent set_suspended]. rewrite Hconn.
    destruct err; reflexivity.
  - set (s' := set_tss _ _). assert (Hs' : m_suspendedTXs s' !! m_txId x = None) by (cbn; apply lookup_delete_eq).
    assert (Ho : objects s' !! ref = Some x) by done. split_and!; [| exact Hs'| |].
    + intros i. cbn. rewrite delete_insert_id by done. apply Hno.
    + unfold exists_ref. rewrite (deref_bind ref x) by done. cbn. f_equal. apply existsb_exists. exists (m_txId x).
      split; [|apply Z.eqb_refl]. by apply list_elem_of_In, (inv_objects _ HI ref x).
    + intros i. unfold tryResume, tryResume_cancel, getTXState. rewrite ex_gets_bind. destruct (tss s' !! i); [done|].
      rewrite (deref_bind ref x) by done. by rewrite removeSuspendedTx_bind, Hs'.
Qed.

Lemma expiry_resumes i id p x s dm conn : objects s !! p = Some x -> m_suspendedTXs s !! m_txId x = Some p -> tss s !! i = None ->
  m_pooldm x = Some dm -> getConn (sent s) dm (epNameStr x) = (GF_NOERR, Some conn) ->
  exists s', tryResume_cancel getConn i p false (set_tasks (fired id p (tasks s)) s) = (Ok true, s') /\
    tss s' = <[i := p]> (tss s) /\ objects s' = objects s /\
    m_suspendedTXs s' = delete (m_txId x) (m_suspendedTXs s) /\ m_TXs s' = m_TXs s /\ tasks s' = fired id p (tasks s) /\ sent s' = sent s /\
    cache s' = cache s /\ connections s' = <[i := conn]> (connections s).
Proof.
  intros Hx Hsu Hi Hdm Hconn. eexists. split.
  - unfold tryResume_cancel, getTXState. rewrite ex_gets_bind. cbn [tss set_tasks]. rewrite Hi, (deref_bind p x) by done.
    rewrite removeSuspendedTx_bind. cbn [m_suspendedTXs set_tasks]. rewrite Hsu. unfold mbind at 1, EX_bind at 1.
    rewrite (resumeTx_spec i p x) by done. cbn zeta. rewrite Hdm. cbn [sent set_suspended set_tasks]. rewrite Hconn. reflexivity.
  - done.
Qed.

(** C26. A suspended transaction that nobody resumes in time is rolled back on the server, and over. Its task stays in
    the table. *)
Theorem suspended_expires i id p x s dm conn : Inv s -> armed (tasks s) id p -> objects s !! p = Some x -> m_prepared x = false -> tss s !! i = None ->
  m_pooldm x = Some dm -> getConn (sent s) dm (epNameStr x) = (GF_NOERR, Some conn) -> is_Some (c_dm conn) ->
  exists s', on_callback sendSyncRequest getConn isSticky i id s = (Ok tt, s') /\
    sent s' = sent s ++ [(i, Rollback (m_txId x))] /\ cache s' = cache s /\
    tss s' = tss s /\ objects s' = delete p (objects s) /\ m_suspendedTXs s' = delete (m_txId x) (m_suspendedTXs s) /\
    (forall n, n ∈ m_TXs s' <-> n ∈ m_TXs s /\ n <> m_txId x) /\ ExpiryTaskManager.task_map_ (tasks s') !! id = Some (p, false).
Proof.
  intros HI Ha Hx Hp Hi Hdm Hconn [dm' Hdm']. destruct (inv_tasks _ HI id p Ha) as (x' & Hx' & _ & Hsu). simplify_eq.
  unfold on_callback. rewrite Ha. fold (fired id p (tasks s)).
  destruct (expiry_resumes i id p x s dm conn Hx Hsu Hi Hdm Hconn) as (s2 & Htry & T1 & T2 & T3 & T4 & T5 & T6 & T7 & T8).
  assert (Hi2 : tss s2 !! i = Some p) by (rewrite T1; apply lookup_insert_eq). assert (Hx2 : objects s2 !! p = Some x) by congruence.
  destruct (afterCompletion_ends rolledback i p x s2 Hi2 Hx2) as (s3 & Hs3 & [C1 C2 C3 C4 C5 C6 C7] & Hsent & Hcache).
  assert (Hcompl : exists o, completion rolledback i x s2 = (o, sent s2 ++ [(i, Rollback (m_txId x))], cache s2) /\
    ignore_exceptions (fun s => (o, s)) s3 = (Ok tt, s3)).
  { unfold completion, request, verdict. rewrite T8, lookup_insert_eq. cbn. rewrite Hdm', Hp.
    destruct (sendSyncRequest _ _ _) as [[err reply] conn']. destruct (decide (err = GF_NOERR)); eexists; split_and!; try reflexivity; done. }
  destruct Hcompl as (o & Ho & Hign). rewrite Ho in *. cbn in Hsent, Hcache.
  exists s3. unfold on_expire, ignore_exceptions, mbind, EX_bind in *. rewrite Htry. unfold rollback. change STATUS_ROLLEDBACK with (code rolledback).
  rewrite Hs3. cbn [outcome_of fst] in *. rewrite Hign. split; [reflexivity|].
  cbn in *. rewrite C2, C3, C4, C6, C7, Hsent, Hcache, T1, T2, T3, T4, T5, T6, T7. split_and!; try done.
  - by apply delete_insert_id.
  - intros n. apply elem_of_dropped.
  - cbn. apply lookup_insert_eq.
Qed.

End Transactions.

(** *** Examples *)

Module TransactionExamples.
Local Open Scope Z_scope.

(** A cache with a region /r of numbers, and what two transactions have changed on the servers. *)
Abbreviation OMap := (ConcurrentEntriesMap.t Z (Serializable.t Z)).
#[local] Instance numbers_map : EntriesMap OMap Z (Serializable.t Z) Z :=
  concurrent_map id (fun _ _ => None) true (fun _ => false) id (fun _ v => (v, true)).
Definition empty_map : OMap := ConcurrentEntriesMap.mk 17 [] 0 true SegmentExamples.env0.
Definition opened_map : OMap := match ConcurrentEntriesMap.open 100 empty_map with Ok m => m | Throw _ => empty_map end.
Abbreviation OCache := (CacheImpl.t OMap Z (Serializable.t Z) Z).
Definition some_cache : OCache :=
  match CacheImpl.createRegion (fun _ => opened_map) (literal "r") (RegionTreeExamples.plain 0) false false false (new_cache true 100) with
  | Ok (_, c) => c
  | Throw _ => new_cache true 100
  end.
Definition int_of (o : Serializable.t Z) : Z := match o with Serializable.CacheableInt32 n => n | _ => 0 end.
Definition calm : LocalRegion.Callbacks Z (Serializable.t Z) Z := LocalRegion.mkCallbacks (fun _ => Some true) (fun _ => true) (fun _ => Some None).
#[local] Instance some_regions : TxRegions Z OCache :=
  cache_regions (E := Z) LocalRegion.local_virtuals calm (fun _ _ => false) int_of int_of.

Definition int (n : Z) : Serializable.t Z := Serializable.CacheableInt32 n.
Definition put_op (k v : Z) : TXCommitMessage.FarSideEntryOp Z := TXCommitMessage.mkOp 1 (int k) (int v) Serializable.nullptr None.
Definition destroy_op (k : Z) : TXCommitMessage.FarSideEntryOp Z := TXCommitMessage.mkOp Operation.DESTROY (int k) Serializable.nullptr Serializable.nullptr None.
Definition changes1 : TXCommitMessage.t Z := [TXCommitMessage.mkRegion (Some (literal "/r")) None [put_op 1 10; put_op 2 20]].
Definition changes2 : TXCommitMessage.t Z :=
  [TXCommitMessage.mkRegion (Some (literal "/gone")) (Some (literal "/r")) [destroy_op 1]; TXCommitMessage.mkRegion (Some (literal "/other")) None [put_op 3 30]].

(** The entries of /r. *)
Definition entries_of (c : OCache) :=
  '(entries, _) ← CacheImpl.on_region 0 (LocalRegion.on_entries em_getEntries) c; Ok entries.

(** A server that answers a commit with these changes, the first time, and a conflict the second time. *)
Definition server (sent : list (nat * Request)) (i : nat) (r : Request) : GfErrType * Reply Z * option Conn :=
  let conn := Some (mkConn (literal "host:1") (Some 7%nat)) in
  match r with
  | Commit 1 => (GF_NOERR, mkReply MsgType.RESPONSE (Some changes1) [], conn)
  | Commit 2 => (GF_NOERR, mkReply MsgType.RESPONSE (Some changes2) [], conn)
  | Commit _ => (GF_NOERR, mkReply MsgType.COMMIT_ERROR None [], conn)
  | _ => (GF_NOERR, mkReply MsgType.REPLY None [], conn)
  end.
Definition host1 : Conn := mkConn (literal "host:1") (Some 7%nat).
Definition reconnect (sent : list (nat * Request)) (dm : nat) (endpoint : list Z) : GfErrType * option Conn := (GF_NOERR, Some host1).
Definition no_server (sent : list (nat * Request)) (dm : nat) (endpoint : list Z) : GfErrType * option Conn := (GF_NOTCON, None).
Definition no_sticky (dm : nat) : bool := false.
Abbreviation play := (run server reconnect no_sticky).
Definition new_tasks : ExpiryTaskManager.t (nat * bool) := ExpiryTaskManager.mk true ∅ 0.
Definition fresh : t OCache := new_manager 0 new_tasks some_cache.

(** Two commits, one after the other. *)
Definition work (i : nat) : list (nat * action (G := OCache)) := [(i, Begin); (i, Elsewhere (Some host1) id)].
Definition transaction (i : nat) : list (nat * action (G := OCache)) := work i ++ [(i, Complete committed)].
Example commit_applied : entries_of (cache (play (transaction 1) fresh)) = Ok [(Some 1, Some (Obj (int 10))); (Some 2, Some (Obj (int 20)))].
Proof. vm_compute. reflexivity. Qed.
Example commit_in_parent : entries_of (cache (play (transaction 1 ++ transaction 1) fresh)) = Ok [(Some 2, Some (Obj (int 20)))].
Proof. vm_compute. reflexivity. Qed.

(** A conflict: the transaction is over, and the cache as it was. *)
Definition before_conflict : t OCache := play (transaction 1 ++ transaction 1 ++ work 1) fresh.
Example conflict_ends : let '(o, s) := commit server no_sticky 1 before_conflict in
  o = Throw CommitConflictException /\ m_TXs s = [] /\ entries_of (cache s) = Ok [(Some 2, Some (Obj (int 20)))].
Proof. vm_compute. done. Qed.

(** A response without a commit message: a null pointer is dereferenced; with the two-phase protocol it is not. *)
Definition terse_server (sent : list (nat * Request)) (i : nat) (r : Request) : GfErrType * Reply Z * option Conn :=
  (GF_NOERR, match r with TxSynchronization 0 _ _ => mkReply MsgType.REPLY None [] | _ => mkReply MsgType.RESPONSE None [] end, Some host1).
Example terse_response_undefined : (commit terse_server no_sticky 1 (run terse_server reconnect no_sticky (work 1) fresh)).1 = Throw UndefinedBehaviour.
Proof. vm_compute. reflexivity. Qed.
Example terse_response_prepared :
  (commit terse_server no_sticky 1 (run terse_server reconnect no_sticky (work 1 ++ [(1%nat, Prepare)]) fresh)).1 = Ok tt.
Proof. vm_compute. reflexivity. Qed.

(** The reference that [suspend] returned, used after the end of the transaction. *)
Example dangling_reference : (isSuspended 0 (play (work 1 ++ [(1%nat, Suspend); (2%nat, Resume 0); (2%nat, Complete rolledback)]) fresh)).1 = Throw UndefinedBehaviour.
Proof. vm_compute. reflexivity. Qed.

(** Without a connection to its server, a transaction cannot be resumed, now or later, and still exists. *)
Definition parked_work : t OCache := play (work 1 ++ [(1%nat, Suspend)]) fresh.
Example lost_transaction : let '(o, s) := resume no_server 2 0 parked_work in
  o = Throw IllegalStateException /\ (tryResume reconnect 2 0 s).1 = Ok false /\ (exists_ref 0 s).1 = Ok true.
Proof. vm_compute. done. Qed.

(** When the ids start again, they are not compared with those in use: two transactions have the id 1, and with the
    first one committed the second one does not exist any more. *)
Definition last_id : t OCache := run server reconnect no_sticky (work 1) (new_manager (2 ^ 31 - 1) new_tasks some_cache).
Definition reused : t OCache :=
  let s := play [(2%nat, Begin)] (mk (2 ^ 31 - 1) (m_TXs last_id) (m_suspendedTXs last_id) (objects last_id) (next_object last_id) (tss last_id)
    (connections last_id) (tasks last_id) (sent last_id) (cache last_id)) in
  play [(1%nat, Complete committed)] s.
Example id_reused : tss reused !! 2%nat = Some 1%nat /\ (m_txId <$> objects reused !! 1%nat) = Some 1 /\ (exists_ref 1 reused).1 = Ok false.
Proof. vm_compute. done. Qed.

(** *** Witnesses *)

Lemma none_armed id p : ~ armed new_tasks id p.
Proof. unfold armed. cbn. by rewrite lookup_empty. Qed.
Definition some_run : list (nat * action (G := OCache)) := work 1 ++ [(1%nat, Suspend); (2%nat, Begin)].
Lemma reachable_exclusive_witness :
  (exists x, objects (play some_run fresh) !! 0%nat = Some x /\ m_txId x = 1 /\ 1 ∈ m_TXs (play some_run fresh)) /\
  forall i, tss (play some_run fresh) !! i <> Some 0%nat.
Proof.
  destruct (reachable_exclusive server reconnect no_sticky 0 new_tasks some_cache some_run ltac:(lia) ltac:(cbn; lia) none_armed) as (_ & _ & Hs & _).
  apply (Hs 1 0%nat). vm_compute. reflexivity.
Defined.

Definition state_of (p : nat) (s : t OCache) : TXState := match objects s !! p with Some x => x | None => new_state 0 end.
Lemma transaction_completes_witness :
  exists s', complete server no_sticky committed 1 before_conflict = (Throw CommitConflictException, s') /\ objects s' = delete 2%nat (objects before_conflict) /\
    sent s' = sent before_conflict ++ [(1%nat, Commit 3)].
Proof.
  destruct (transaction_completes server no_sticky committed 1 2 (state_of 2 before_conflict) before_conflict) as (s' & H1 & _ & H2 & _ & _ & _ & _ & H3 & _);
    [vm_compute; reflexivity|vm_compute; reflexivity|vm_compute; discriminate|].
  exists s'. split; [rewrite H1; f_equal; vm_compute; reflexivity|]. split; [exact H2|]. rewrite H3. vm_compute. reflexivity.
Defined.

Lemma work_inv : Inv (play (work 1) fresh).
Proof. apply run_inv; [apply new_manager_inv; [lia|apply none_armed]|cbn; lia]. Qed.
Lemma suspend_resume_witness : exists s1 s2, suspend no_sticky 1 (play (work 1) fresh) = (Ok 0%nat, s1) /\
  resume reconnect 2 0 s1 = (Ok tt, s2) /\ tss s2 = {[2%nat := 0%nat]}.
Proof.
  destruct (suspend_resume reconnect no_sticky 1 2 0 (state_of 0 (play (work 1) fresh)) (play (work 1) fresh) host1 7 host1)
    as (s1 & s2 & H1 & _ & _ & _ & _ & H2 & H3 & _).
  - exact work_inv.
  - vm_compute. reflexivity.
  - vm_compute. reflexivity.
  - vm_compute. reflexivity.
  - reflexivity.
  - reflexivity.
  - right. vm_compute. reflexivity.
  - split; [vm_compute; split; [discriminate|reflexivity]|]. intros n task Hn. change (ExpiryTaskManager.task_map_ _) with (∅ : gmap Z (nat * bool)) in Hn. by rewrite lookup_empty in Hn.
  - vm_compute. reflexivity.
  - vm_compute. reflexivity.
  - exists s1, s2. split; [exact H1|]. split; [exact H2|]. rewrite H3. vm_compute. reflexivity.
Defined.

Lemma suspended_expires_witness : exists s', on_callback server reconnect no_sticky 9 0 parked_work = (Ok tt, s') /\
  sent s' = [(9%nat, Rollback 1)] /\ objects s' = ∅.
Proof.
  destruct (suspended_expires server reconnect no_sticky 9 0 0 (state_of 0 parked_work) parked_work 7 host1) as (s' & H1 & H2 & _ & _ & H3 & _).
  - apply run_inv; [apply new_manager_inv; [lia|apply none_armed]|cbn; lia].
  - vm_compute. reflexivity.
  - vm_compute. reflexivity.
  - vm_compute. reflexivity.
  - vm_compute. reflexivity.
  - vm_compute. reflexivity.
  - reflexivity.
  - by exists 7%nat.
  - exists s'. split; [exact H1|]. rewrite H2, H3. split; vm_compute; reflexivity.
Defined.
End TransactionExamples.
